(* ===== verification/_CoqProject ===== *)
-Q . S2P
Prelude.v
SyntaxKind.v
Token.v
Interner.v
Probe.v
StringPool.v
StringPoolTheorems.v
HashMap.v
HashMapTheorems.v
Lexer.v
LexerFacts.v
LexerTheorems.v
Layout.v
LayoutTheorems.v
Green.v
Builder.v
GreenFacts.v
NodeCache.v
NodeCacheFacts.v
NodeCacheTheorems.v
Sll.v
SllFacts.v
Red.v
RedNav.v
RedEdit.v
RedPtr.v
RedIter.v
RedInv.v
RedCalls.v
RedTokens.v
RedSpine.v
RedSplice.v
RedSession.v
RedTheorems.v
HandleRefine.v
Ast.v
Parser.v
ParseExpr.v
ParserFacts.v
ParseExprFacts.v
ParseTotal.v
ParserTheorems.v
Pratt.v
AstTheorems.v
Keywords.v
Position.v
PositionTheorems.v
Engine.v
Query.v
EngineSpec.v
EngineFacts.v
EngineInv.v
EngineRun.v
EngineTheorems.v
EngineTotal.v
EngineEdges.v
Fingerprint.v
Arena.v
ArenaFacts.v
InternPool.v
InternFacts.v
InternGet.v
InternTheorems.v
TypeLayout.v
TypeLayoutTheorems.v
InternApi.v
Rows.v
RowsFacts.v
RowsTheorems.v
Values.v
Fold.v
ValuesTheorems.v
Switch.v
SwitchTheorems.v
Coerce.v
TypeTrees.v
CoerceTheorems.v
BodyScopes.v
BodyScopesFacts.v
BodyScopesTheorems.v
