(* ===== verification/Prelude.v ===== *)
(** * Ore: a verified model of the front end and the query engine of the Ore compiler

    Ore is a compiler written in C ([src/src/]) around an incremental database: a
    lexer, a layout pass and a recursive-descent parser turn a source file into an
    immutable "green" syntax tree, read and edited through counted "red" handles; queries
    over the database resolve names, infer types and report diagnostics.  This development
    models the front end from bytes to trees, the red tree, the containers below them, the
    mapping between byte offsets, lines and nodes, the engine of incremental queries, the
    pool of types with what is computed on types (layout, effect rows, coercion, constant
    folding, switches), as executable functions translated from the C code, and proves them
    correct.

    ** The parts, and the files that model them

    - Syntax kinds and tokens ([syntax/syntax_kind.h], [syntax/syntax_kind.c],
      [lexer/token.c]): [SyntaxKind], [Token].  The enumeration, its classifier table
      and names; the token record.
    - String pool ([support/data_structure/stringpool.c]): [StringPool] (the buffer of
      blocks, the slot table, interning, lookup), [StringPoolFacts] (its invariant),
      [StringPoolTheorems].  [Interner] is the interface its clients use: the class
      [Interner] has the operation, [InternerLaws] what a deduplicating pool promises;
      [pool_interner_laws] discharges it.
    - Hash map ([support/data_structure/hashmap.c]): [HashMap], [HashMapFacts] (the
      table invariant and the relation [represents] to a finite map), [HashMapTheorems].
    - [Probe]: linear probing over an abstract table, on which the string pool, the hash
      map and the intern pool rest: where a probe stops, insertion, backward-shift deletion.
    - Lexer ([lexer/lexer.c]): [Lexer] has the cursor [LexCursor], each sub-lexer and
      [lex_next]; [LexerFacts] the advance relation [adv] and the stream of tokens;
      [LexerTheorems].
    - Layout ([lexer/layout.c]): [Layout] is the state machine that inserts virtual
      braces and semicolons, pulling tokens from the lexer's cursor; [LayoutFacts] its
      invariant [linv]; [LayoutTheorems].
    - Green tree and builder ([syntax/green.c], [syntax/builder.c]): [Green] and [Builder]
      have them as values, [GreenFacts].
    - Node cache ([syntax/node_cache.c], the counts and hashes of [green.c], [builder.c] on
      pointers, [support/data_structure/fxhash.h]): [NodeCache] has the store of counted
      cells and the cache over it, [NodeCacheFacts] its invariant under the multiset of
      references from outside, the tree a pointer stands for and the simulation of the
      builder, [NodeCacheTheorems].
    - Mutable siblings ([syntax/sll.c]): [Sll] is the sorted intrusive ring over a store of
      nodes; [SllFacts] (chains and rings of links, the list a ring stands for),
      [SllTheorems].
    - Red tree ([syntax/red.c], [ptr.c], [iter.c]): [Red] has the heap of handles with its
      monad, children, release and offsets; [RedNav] navigation, the token at an offset,
      ranges, kinds and clones; [RedEdit] detaching, attaching, splicing and replacing;
      [RedPtr] stable pointers; [RedIter] the iterators.  [RedInv] is the invariant of the
      heap under the multiset of owned references, [RedOps] the basic operations, [RedPath]
      where a handle stands, [RedCalls] and [RedTokens] what navigation answers, [RedOrder]
      the order of leaves, [RedSpine], [RedSync], [RedDetach], [RedAttach] and [RedSplice]
      the edits, [RedReplace] replacement, [RedOffset] the token at an offset, [RedSession]
      sessions of calls, [RedTheorems] the results, [RedQuirks] what does not work.
    - Handles as values: [Handle], in [RedPtr.v], has the handle of an immutable tree as the value it never
      changes, for the code that only reads; [HandleRefine] shows that the calls on the heap
      answer with those values.
    - Typed accessors ([ast/]): [Ast], one definition per cast and accessor; [AstTheorems].
    - Parser ([parser_new/]): [Parser] has the state, lookahead, advance, diagnostics
      and recovery of [parser.c]; [ParseExpr] one definition per function of
      [parse_expr.c], [parse_stmt.c], [parse_handler.c] and [parse_decl.c], and
      [parse_file_green].  [ParserFacts] is a program logic ([wp], [ext]),
      [ParseExprFacts] and [ParseTotal] the specification of every parse function,
      [ParserTheorems] the results, [Pratt] the operator expressions.
    - [Keywords]: the lexer, the pool and the parser together, on contextual keywords.
    - Positions ([db/getters/position.c], [db_resolve_span] of [db/getters/diag.c], the
      line index of [db/query/parse.c], spans of [db/db.h]): [Position],
      [PositionFacts], [PositionTheorems].
    - Query engine ([db/query/engine.c], [engine_verify.c], [engine_dispatch.c], the
      slot half of [engine_compact.c]): [Engine] has the slots, frames, dependency
      recording, verification, the state machine of [db_query_begin] and
      [db_query_succeed], revisions and requests; [Query] the bodies, the wrapper every
      layer function is written as, the dispatch table and the fixpoint driver;
      [EngineSpec] evaluation from scratch; [EngineFacts], [EngineInv] (the invariant)
      and [EngineRun] (a query keeps it), [EngineTheorems], [EngineTotal] (termination
      with no contract on bodies), [EngineEdges] (the dependency index, input changes,
      what fails outside the contract), with [EngineExamples] (layers for the witnesses).
      [Fingerprint] has the fingerprints of [engine_fingerprint.c].
    - Arena ([support/data_structure/arena.c]): [Arena] (chunks, growth, the lookup of an
      offset with its cache, marks), [ArenaFacts] (its invariant, allocation, resets).
    - Intern pool of types and values ([db/intern_pool/intern_pool.c]): [InternPool] (keys,
      hashing, equality, encoding and decoding, the bucket map, [ip_get], [ip_remove],
      initialisation), [InternFacts] (keys up to the absent effect row, bucket words, the
      bucket map as a probing table), [InternInv] (the invariant, decoding, growth),
      [InternGet] (each operation keeps it), [InternTheorems] (the abstract list of keys it
      refines).
    - Layout of types ([db/query/layout.c]): [TypeLayout] (integer ranges, the recursion
      with its cycle stack, the member columns it reads), [TypeLayoutFacts] (layouts
      without a cycle stack), [TypeLayoutTheorems].
    - [InternApi] is what clients of the intern pool use: what reads a key, what interning
      one gives, and that what was readable stays; [SamplePools], in its file, has the
      pools of the witnesses.
    - Effect rows ([db/query/coerce.c], first half): [Rows] (resolution, flattening,
      unification, union, removal of labels), [RowsFacts] (the meaning [denotes] of a row
      under bindings), [RowsUnify] (bindings that stay acyclic), [RowsTheorems].
    - Values known at compile time ([db/query/tv_inspect.c], the folding of [infer.c] and
      [eval.c]): [Values] (decoding, comparison, range checks), [Fold] (literals, prefix and
      binary operators and their typing), [ValuesFacts], [ValuesTheorems].
    - Switches ([infer_switch] of [infer.c], the selection of [eval.c]): [Switch],
      [SwitchFacts], [SwitchTheorems].
    - Coercion ([db/query/coerce.c], second half): [Coerce] (type holes, fresh copies,
      structural coercion, constants), [TypeTrees] (the finite tree of a type under
      bindings), [CoerceTheorems].
    - Body scopes ([db/query/body_scopes.c], [db/diag/ast_id.c]): [BodyScopes] (the numbering
      of a declaration, the walk that fills the tables of scopes and bindings, lookup, the
      reference walk), [BodyScopesFacts] (the preorder, the lexical rules of each construct
      and their meaning as environments, the walk as their execution), [BodyScopesMeaning]
      (what the tables stand for), [BodyScopesTheorems].

    A name in brackets is a module; a file holds the module of its name and may hold smaller
    ones before it, such as the facts its theorems rest on.

    ** How they interact

    [parse_file_green] interns the contextual keywords into the pool the lexer filled,
    reads the token vector of [layout_stream], and drives the builder, whose result is
    a green tree.  The layout pass and the parser are parameterised by any [Interner];
    the concrete pool only appears in witnesses and in [StringPoolTheorems].  The line
    index is computed from the text alone, and the position functions read it, the
    text and the tree from the columns of the database ([PosDb]).

    The parser and all that reads trees is modelled on trees as values.  That the code may
    work on shared, counted pointers instead is the refinement of [NodeCacheTheorems]:
    [Session] is [GreenBuilder] with the cache and the store, and [stands] relates a pointer
    to its tree.  The cache's two [HashMap]s are finite maps there.

    The red tree reads green trees and makes edited ones with the operations of [Green]; a
    mutable handle is a node of the ring of its parent, so both share one address, a [Cell]
    in [cells] and an [SllNode] in [slls].

    The intern pool writes its payloads into an arena and reads them back by offset; it
    probes its buckets as the string pool and the hash map do ([Probe]).

    The layout of a type reads its tag and key from the intern pool and the members of
    aggregates from the columns of the database ([LayoutDb]).

    Rows, values, switches and coercion read and write the intern pool through
    [InternApi], and thread it with the substitutions and the diagnostics of an inference
    frame as one record ([Sema]).  Coercion of functions unifies their rows, coercion of
    constants checks ranges with [Values], which checks them with [TypeLayout].

    Body scopes read the tree of a declaration through the typed accessors, on handles as
    values, and intern names through [Interner]; the lookup resolves ids in the current tree.

    The query engine knows nothing of what queries compute: a layer of the compiler is a
    [Layer], whose bodies are trees of questions to other queries ([prog]), and the
    theorems hold for every layer that keeps the contract [well_layered].

    ** What is shown

    - The whole front end is lossless: the text of the tree is the source after its
      byte-order mark, unless layout trips one of its two buffer asserts, which takes more
      than 256 tokens ([front_end_lossless]).
    - Lexer: total, its tokens tile the source after its byte-order mark; identifiers are maximal; the keyword
      dispatch is a table search; the word-at-a-time and sentinel loops are equivalent
      to plain ones; the line table is well formed.
    - Layout: returns or trips one of its two buffer asserts, keeps the lexer's tokens,
      balances braces, inserts no empty statement, and its output fits the buffer.
    - Parser: total on every token vector, lossless, at most one diagnostic per
      statement boundary; every recursive call keeps the frames and flags; recovery
      progresses; the Pratt loop rebuilds every operator expression.
    - Green trees: widths and offsets are those of the text, edits change exactly the
      text they name.
    - Node cache: builds on counted pointers give the trees that the builder on values gives
      ([counted_builds_refine]); equal trees share their pointer as far as the cache takes
      their nodes ([equal_trees_share]); nothing leaks and nothing is freed early or twice
      ([nothing_leaks]); the structural hash does not see trivia
      ([structural_hash_skips_trivia]).  The bound is that of the counts: four references
      for each call of the builder, and fewer than 2^32 in all.
    - Red tree: any session of the calls that [allowed] admits (navigation, retaining and
      releasing, detaching, splicing, replacing) returns, reads no freed handle, trips no
      assertion and leaks nothing ([red_session_safe], [red_tree_invariant]); handles
      know where they are, also after edits ([handle_range_exact]); in a tree without empty
      nodes tokens follow in document order ([next_token_in_order]); they are found by offset
      ([token_at_offset_finds]); splices and replacements change the text they name
      ([splice_children_text], [replace_with_either_mode]); the ring refines a sorted list
      ([sll_refines_sorted_list]).  Where the code falls short: [red_tree_surprises].  On
      immutable trees the calls show values ([handles_are_values]).
    - Typed accessors: they read back the operator expressions that the parser builds
      ([accessors_read_back]).
    - Body scopes: the tables answer as lexical scoping says ([body_scope_lookup_lexical]);
      the reference walk asks for exactly the names that are free ([body_references_outer]);
      ids resolve back, also after an edit elsewhere ([ast_ids_resolve]).  The hypothesis is
      that the pointers of the nodes of a declaration hash apart, since the code compares
      hashes only.  Where the comments promise more: [body_scope_surprises].
    - String pool: ids are equal exactly when strings are, and stay so under growth.
      Hash map: any sequence of operations answers as a finite map does.
    - Arena: an allocation is aligned, inside one chunk, disjoint from the others, found at
      its offset and never moved; a reset to a mark restores every offset.
    - Intern pool: any session of operations answers as a list of keys does
      ([intern_pool_refines]), indices are equal exactly when keys are, and reading and
      interning are inverse.  The bounds are those of the code's words: fewer than 2^32
      items and 2^32 bytes of payload.
    - Layout of types: it returns, is known exactly for types without by-value cycles (up to
      32 nested aggregates), and places struct members as the C ABI does.
    - Effect rows: unification decides by position, and its bindings give both rows a common
      tail ([row_unify_sound]); joins of closed rows are a semilattice on indices
      ([row_join_semilattice]); removing a label undoes adding it ([row_without_union]).  A
      row unified with a longer one over the same variable makes a cycle
      ([row_unify_shared_tail]).
    - Types: integers coerce exactly when no number is lost ([coerce_int_lossless]),
      constants exactly when they fit ([coerce_constant_exact]), but for unsigned ones of
      2^63 and more and signed types; const is kept ([coerce_keeps_const]); applying a
      substitution resolves a type of at most 64 levels to one index
      ([apply_type_subst_resolves]), unless the missing occurs check has made it cyclic
      ([coerce_binds_cycle]).
    - Constants: folding is exact in 64 bits or declines ([tv_arith_fold_exact]); range
      checks are exact but for large unsigned numbers ([tv_fits_in_exact]).  The coverage
      check of a switch over an integer, all of whose patterns are folded, accepts exactly
      the partitions of the scrutinee's values ([switch_int_coverage]), and then one arm is
      selected ([switch_exhaustive_selects]).
    - Contextual keywords are recognised by their text.
    - The line index is exact, spans resolve to the right line and column and back, and
      the node at an offset is the innermost.
    - Query engine: over every layer whose queries do not cycle and whose tiers are
      fixed, every session of edits and requests is answered as evaluation from scratch
      would ([session_refines]); a query is computed again only when a recorded
      dependency changed ([early_cutoff]).  Without that contract, cycles and cancellation
      included, a query of a finite set that has none of the fixpoint kinds (FN_SIGNATURE,
      INFER_BODY) returns, and a request leaves nothing running ([query_total],
      [request_settles]).  The driver of the fixpoint kinds is modelled, but its iteration is
      in no theorem.

    ** Conventions

    A fixed-width integer is an [N] with its wrap-around written out ([u32], [u64],
    [u32_sub]); a byte string is a [list byte].  A function that asserts or loops
    returns an [outcome]: [Ret], [AssertFailed] or [OutOfFuel].  Fuel: a lexer loop has
    one turn per byte left and one more, a re-examination of the layout pass one per open
    frame and two more, a parser loop one per token left and one more, the recursive
    descent [2 * count + 2] calls in depth ([parse_fuel]: two nested calls per token
    and the outermost pair), a probe one turn per slot, a doubling loop one per bit of
    the size; a query nests at most as deep as there are queries, or as the rank of the
    query in a layer; the layout of a type nests 33 aggregates and, in each, a chain of
    arrays and optionals no longer than the pool; a chain of bindings is followed 64 steps
    and checked for an occurrence 256, as in the code; row unification nests two calls, and a
    substitution is applied to the depth of the type's tree; climbing parents or turning
    round a ring in the red tree takes one step per live handle, and descending one per
    level of the green tree, as do the walks over a declaration; a lookup climbs one scope per
    row and one more step; a release and the structural hash follow a path in a tree, which
    is no longer than there are cells in the store.  The theorems show that [OutOfFuel] is
    never the answer.  Memory is not exhausted: allocation succeeds, at an address that an
    [Allocator] picks, one that was freed or not.  Where the C code would have undefined
    behaviour the model stops with a failure ([in_bounds]).

    ** What is not modelled

    The pointers of green nodes in the red tree, whose assertions on slots compare the values
    of the trees instead; the counts of the green nodes that red handles and the
    database hold, which are references from outside in [NodeCacheFacts];
    text views ([syntax/text.c]); vectors and paged vectors, lists in the models;
    the routing tables and free lists under the query engine, the compaction of its
    pools, and the queries over it ([db/query/]: the scopes of namespaces, types, and of inference and
    evaluation the walks over syntax trees: the arms of a switch are lists of folded
    patterns, and the value of a node is an argument of coercion); [strtod], an argument of
    the folding of literals; the arguments of diagnostics; the printing of types and values
    ([ip_format], [tv_value_to_str]); diagnostic sinks and anchors.  The
    input setters are updates of tables of the database; they, the scopes of namespaces, the
    type queries and the walks of inference run inside query frames and need the whole
    database as their state, of which only the parts above are modelled.  The IDE, the driver
    and the language server are I/O. *)

From Stdlib Require Export NArith ZArith Lia Strings.Byte.
From Stdlib Require Export Strings.String.
From stdpp Require Export base tactics numbers list.

#[global] Set Default Goal Selector "!".

Declare Scope ore_scope.
Delimit Scope ore_scope with ore.
Open Scope ore_scope.

(** ** Machine integers

    [uint32_t] and [uint64_t] values are [N] with the wrap-around written out
    where the C code computes them. *)

Definition u32 (x : N) : N := (x mod 2 ^ 32)%N.
Definition u64 (x : N) : N := (x mod 2 ^ 64)%N.

(** [a - b] on [uint32_t]. *)
Definition u32_sub (a b : N) : N := u32 (a + 2 ^ 32 - u32 b)%N.

Lemma u32_small x : (x < 2 ^ 32)%N -> u32 x = x.
Proof. apply N.mod_small. Qed.

Lemma u32_lt x : (u32 x < 2 ^ 32)%N.
Proof. by apply N.mod_lt. Qed.

Lemma u32_add_l a b : u32 (u32 a + b) = u32 (a + b).
Proof. apply N.Div0.add_mod_idemp_l. Qed.

Lemma u32_add_r a b : u32 (a + u32 b) = u32 (a + b).
Proof. apply N.Div0.add_mod_idemp_r. Qed.

Lemma u32_u32 a : u32 (u32 a) = u32 a.
Proof. apply N.Div0.mod_mod. Qed.

Lemma u32_sub_small a b :
  (b <= a)%N -> (a < 2 ^ 32)%N -> u32_sub a b = (a - b)%N.
Proof.
  intros Hle Hlt. unfold u32_sub. rewrite (u32_small b) by lia.
  replace (a + 2 ^ 32 - b)%N with (a - b + 1 * 2 ^ 32)%N by lia.
  unfold u32. rewrite N.Div0.mod_add. apply N.mod_small. lia.
Qed.

(** ** Outcomes

    A C function either returns, trips one of its [assert]s, or (in the model
    only) exhausts the fuel of a loop or of the recursion.  The theorems of the
    development show that [OutOfFuel] never happens and say when
    [AssertFailed] cannot. *)

Inductive outcome (A : Type) : Type :=
  | Ret (a : A)
  | AssertFailed (site : string)
  | OutOfFuel.
Arguments Ret {A} a.
Arguments AssertFailed {A} site.
Arguments OutOfFuel {A}.

Definition obind {A B} (m : outcome A) (k : A -> outcome B) : outcome B :=
  match m with
  | Ret a => k a
  | AssertFailed site => AssertFailed site
  | OutOfFuel => OutOfFuel
  end.

Notation "'let!' x ':=' m 'in' k" := (obind m (fun x => k))
  (at level 10, x pattern, m at level 100, k at level 200,
   format "'[v' 'let!'  x  ':='  m  'in' '/' k ']'") : ore_scope.

(** [assert(cond && "site")]. *)
Definition oassert (cond : bool) (site : string) : outcome unit :=
  if cond then Ret tt else AssertFailed site.

(** Not an [assert]: a condition without which the C code reads outside of an array, where its
    behaviour is undefined and the model stops. *)
Notation in_bounds := oassert (only parsing).

Lemma obind_Ret {A B} (m : outcome A) (k : A -> outcome B) b :
  obind m k = Ret b <-> exists a, m = Ret a /\ k a = Ret b.
Proof.
  destruct m; simpl; (split; [|by intros (? & [=] & ?); subst]).
  all: intros H; by first [discriminate H | exists a].
Qed.

(** ** Loops

    [while (cond) body] over an explicit state; the body may run out of fuel
    itself.  [loop_done] is the reasoning rule: a variant that decreases and
    stays below the fuel shows that the loop returns, and an invariant gives
    the state it returns in, where the condition is false. *)

Fixpoint while_loop {S} (fuel : nat) (cond : S -> bool) (body : S -> S) (s : S)
    : outcome S :=
  match fuel with
  | O => OutOfFuel
  | Datatypes.S f => if cond s then while_loop f cond body (body s) else Ret s
  end.

Lemma while_loop_done {S} (Inv : S -> Prop) (variant : S -> nat)
    (cond : S -> bool) (body : S -> S) :
  (forall s, Inv s -> cond s = true ->
             Inv (body s) /\ (variant (body s) < variant s)%nat) ->
  forall fuel s, Inv s -> (variant s < fuel)%nat ->
  exists s', while_loop fuel cond body s = Ret s' /\ Inv s' /\ cond s' = false.
Proof.
  intros Hbody fuel. induction fuel as [|f IH]; intros s Hs Hf; [lia|].
  simpl. destruct (cond s) eqn:Hc; [|eauto].
  destruct (Hbody s Hs Hc) as [HI HV]. apply IH; [done|lia].
Qed.

(** More fuel does not change what a loop returns. *)
Lemma while_loop_more {S} (cond : S -> bool) (body : S -> S) f g s s' :
  while_loop f cond body s = Ret s' -> (f <= g)%nat ->
  while_loop g cond body s = Ret s'.
Proof.
  revert g s. induction f as [|f IH]; intros g s Hf Hle; [discriminate|].
  destruct g as [|g]; [lia|]. simpl in *.
  destruct (cond s); [|done]. apply IH; [done|lia].
Qed.

(** ** Byte strings *)

Definition bytes_eqb (a b : list byte) : bool :=
  (length a =? length b)%nat && forallb (fun p => Byte.eqb p.1 p.2) (zip a b).

Lemma byte_eqb_eq (a b : byte) : Byte.eqb a b = true <-> a = b.
Proof.
  split; [apply Byte.byte_dec_bl|apply Byte.byte_dec_lb].
Qed.

Lemma byte_eqb_refl (a : byte) : Byte.eqb a a = true.
Proof. by apply byte_eqb_eq. Qed.

Lemma byte_eqb_neq (a b : byte) : Byte.eqb a b = false <-> a <> b.
Proof. rewrite <- byte_eqb_eq. by destruct (Byte.eqb a b). Qed.

#[export] Instance byte_eq_dec : EqDecision byte := Byte.byte_eq_dec.

Lemma bytes_eqb_eq a b : bytes_eqb a b = true <-> a = b.
Proof.
  unfold bytes_eqb. rewrite andb_true_iff, Nat.eqb_eq. revert b.
  induction a as [|x a IH]; intros [|y b]; simpl;
    try (split; [by intros []|done]).
  rewrite andb_true_iff, byte_eqb_eq. specialize (IH b). split.
  - intros (Hl & -> & Hf). f_equal. apply IH. split; [lia|done].
  - intros [= -> ->]. split; [done|]. split; [done|]. by apply IH.
Qed.

(** A C string literal as bytes. *)
Definition bs (s : string) : list byte := list_byte_of_string s.

(** The bytes [src[start .. start + len)]. *)
Definition sub_bytes (src : list byte) (start len : N) : list byte :=
  take (N.to_nat len) (drop (N.to_nat start) src).

Lemma take_drop_app {A} (l : list A) (i j k : nat) :
  (i <= j)%nat -> (j <= k)%nat ->
  take (j - i) (drop i l) ++ take (k - j) (drop j l) = take (k - i) (drop i l).
Proof.
  intros Hij Hjk.
  replace (drop j l) with (drop (j - i) (drop i l))
    by (rewrite drop_drop; f_equal; lia).
  generalize (drop i l). intros m.
  replace (k - i)%nat with ((j - i) + (k - j))%nat by lia.
  generalize (j - i)%nat, (k - j)%nat. clear. intros a b. revert m.
  induction a as [|a IH]; intros [|x m]; simpl; try done.
  - by rewrite take_nil.
  - f_equal. apply IH.
Qed.

Lemma sub_bytes_split src a b c :
  (a <= b)%N -> (b <= c)%N ->
  sub_bytes src a (b - a) ++ sub_bytes src b (c - b) = sub_bytes src a (c - a).
Proof.
  intros. unfold sub_bytes. rewrite !N2Nat.inj_sub. apply take_drop_app; lia.
Qed.

Lemma sub_bytes_nil src a : sub_bytes src a 0 = [].
Proof. done. Qed.

Lemma sub_bytes_length src a n :
  (a + n <= N.of_nat (length src))%N ->
  length (sub_bytes src a n) = N.to_nat n.
Proof. intros. unfold sub_bytes. rewrite length_take, length_drop. lia. Qed.

Lemma sub_bytes_one src p :
  (p < N.of_nat (length src))%N -> sub_bytes src p 1 = [nth (N.to_nat p) src x00].
Proof.
  intros H. unfold sub_bytes.
  assert (Hl : (N.to_nat p < length src)%nat) by lia.
  destruct (lookup_lt_is_Some_2 src (N.to_nat p) Hl) as [b Hb].
  rewrite (drop_S _ _ _ Hb). simpl. by rewrite nth_lookup, Hb.
Qed.

(** ** Tactics *)

(** Open every existential and conjunction of the context. *)
Ltac deex :=
  repeat match goal with
  | H : exists x, _ |- _ => let x' := fresh x in destruct H as [x' H]
  | H : _ /\ _ |- _ => destruct H
  end.

(** Case analysis on the innermost [if]/[match] scrutinee of the goal. *)
Ltac split_if :=
  match goal with
  | |- context [if ?b then _ else _] =>
      lazymatch b with
      | context [if _ then _ else _] => fail
      | _ => let E := fresh "E" in destruct b eqn:E
      end
  end.

(** Reflect boolean tests on numbers into the context. *)
Ltac breflect :=
  repeat match goal with
  | H : (_ && _) = true |- _ => apply andb_prop in H; destruct H
  | H : (_ || _) = false |- _ => apply orb_false_elim in H; destruct H
  | H : negb _ = true |- _ => apply negb_true_iff in H
  | H : negb _ = false |- _ => apply negb_false_iff in H
  | H : (_ <? _)%N = true |- _ => apply N.ltb_lt in H
  | H : (_ <? _)%N = false |- _ => apply N.ltb_ge in H
  | H : (_ <=? _)%N = true |- _ => apply N.leb_le in H
  | H : (_ <=? _)%N = false |- _ => apply N.leb_gt in H
  | H : (_ =? _)%N = true |- _ => apply N.eqb_eq in H
  | H : (_ =? _)%N = false |- _ => apply N.eqb_neq in H
  | H : (_ <? _)%nat = true |- _ => apply Nat.ltb_lt in H
  | H : (_ <? _)%nat = false |- _ => apply Nat.ltb_ge in H
  | H : (_ <=? _)%nat = true |- _ => apply Nat.leb_le in H
  | H : (_ <=? _)%nat = false |- _ => apply Nat.leb_gt in H
  | H : (_ =? _)%nat = true |- _ => apply Nat.eqb_eq in H
  | H : (_ =? _)%nat = false |- _ => apply Nat.eqb_neq in H
  | H : Byte.eqb _ _ = true |- _ => apply byte_eqb_eq in H
  | H : Byte.eqb _ _ = false |- _ => apply byte_eqb_neq in H
  | H : bytes_eqb _ _ = true |- _ => apply bytes_eqb_eq in H
  end.
