(* ===== verification/SyntaxKind.v ===== *)
(** * Syntax kinds: [src/syntax/syntax_kind.h] and [src/syntax/syntax_kind.c]

    The enumeration [OreSyntaxKind] shared by the lexer, the layout pass, the
    parser and the green tree, its debug names and the classifier predicates.
    Enumerators keep their C names; [kind_code] gives their [uint16_t] values. *)

From S2P Require Import Prelude.

Module SyntaxKind.

#[local] Open Scope string_scope.

(** ** The enumeration *)

Inductive OreSyntaxKind : Set :=
  | SK_NONE | SK_WHITESPACE | SK_NEWLINE | SK_COMMENT | SK_LEX_ERROR | SK_EOF
  | SK_VIRTUAL_LBRACE | SK_VIRTUAL_RBRACE | SK_VIRTUAL_SEMI | SK_IDENT
  | SK_INT_LIT | SK_FLOAT_LIT | SK_STRING_LIT | SK_BYTE_LIT | SK_ASM_LIT
  | SK_TRUE_KW | SK_FALSE_KW | SK_NIL_KW | SK_UNREACHABLE_KW | SK_FN_KW
  | SK_FN_TYPE_KW | SK_CONST_KW | SK_STRUCT_KW | SK_ENUM_KW | SK_UNION_KW
  | SK_EFFECT_KW | SK_HANDLER_KW | SK_COMPTIME_KW | SK_IF_KW | SK_ELIF_KW
  | SK_ELSE_KW | SK_LOOP_KW | SK_SWITCH_KW | SK_BREAK_KW | SK_CONTINUE_KW
  | SK_RETURN_KW | SK_DEFER_KW | SK_ORELSE_KW | SK_HANDLE_KW | SK_MASK_KW
  | SK_WITH_KW | SK_AMP_AMP | SK_PIPE_PIPE | SK_BANG | SK_PLUS | SK_MINUS
  | SK_STAR | SK_STAR_STAR | SK_SLASH | SK_PERCENT | SK_PIPE | SK_AMP
  | SK_CARET | SK_SHL | SK_SHR | SK_EQ_EQ | SK_BANG_EQ | SK_LT | SK_LE
  | SK_GT | SK_GE | SK_EQ | SK_PLUS_EQ | SK_MINUS_EQ | SK_STAR_EQ
  | SK_SLASH_EQ | SK_PERCENT_EQ | SK_PIPE_EQ | SK_AMP_EQ | SK_TILDE_EQ
  | SK_COLON_EQ | SK_PLUS_PLUS | SK_MINUS_MINUS | SK_RARROW | SK_LARROW
  | SK_FATARROW | SK_COLON | SK_COLON_COLON | SK_LABEL | SK_DOT | SK_DOT_DOT
  | SK_DOT_DOT_DOT | SK_DOT_DOT_LT | SK_DOT_DOT_EQ | SK_QUESTION
  | SK_UNDERSCORE | SK_LPAREN | SK_RPAREN | SK_LBRACKET | SK_RBRACKET
  | SK_LBRACE | SK_RBRACE | SK_SEMI | SK_COMMA | SK_AT | SK_HASH | SK_TILDE
  | SK_LAST_TOKEN_KIND | SK_FIRST_NODE_KIND | SK_SOURCE_FILE | SK_ERROR_NODE
  | SK_FN_DECL | SK_STRUCT_DECL | SK_ENUM_DECL | SK_UNION_DECL
  | SK_EFFECT_DECL | SK_BIND_DECL | SK_DESTRUCTURE_DECL | SK_PARAM | SK_FIELD
  | SK_BIT_FIELD | SK_OP_KIND | SK_EFFECT_ROW_TAIL | SK_VARIANT
  | SK_INIT_FIELD | SK_LOOP_CONTINUE | SK_CAPTURE | SK_PARAM_LIST
  | SK_ARG_LIST | SK_FIELD_LIST | SK_BIT_FIELD_LIST | SK_VARIANT_LIST
  | SK_INIT_LIST | SK_SWITCH_PATTERN_LIST | SK_EFFECT_LABEL_LIST
  | SK_STMT_LIST | SK_BLOCK_STMT | SK_RETURN_STMT | SK_SWITCH_ARM
  | SK_BREAK_STMT | SK_CONTINUE_STMT | SK_DEFER_STMT | SK_EXPR_STMT
  | SK_LITERAL_EXPR | SK_PATH_EXPR | SK_FIELD_EXPR | SK_REF_EXPR
  | SK_PAREN_EXPR | SK_BIN_EXPR | SK_ASSIGN_EXPR | SK_PREFIX_EXPR
  | SK_POSTFIX_EXPR | SK_CALL_EXPR | SK_INDEX_EXPR | SK_SLICE_EXPR
  | SK_IF_EXPR | SK_SWITCH_EXPR | SK_LOOP_EXPR | SK_LAMBDA_EXPR
  | SK_CTL_LAMBDA | SK_FINAL_CTL_LAMBDA | SK_DIRECT_LAMBDA | SK_HANDLER_EXPR
  | SK_MASK_EXPR | SK_PRODUCT_EXPR | SK_ENUM_REF_EXPR | SK_BUILTIN_EXPR
  | SK_COMPTIME_EXPR | SK_RETURN_CLAUSE | SK_BIND_PAT | SK_WILDCARD_PAT
  | SK_LITERAL_PAT | SK_TUPLE_PAT | SK_FIELD_PAT | SK_REF_TYPE | SK_PATH_TYPE
  | SK_PTR_TYPE | SK_SLICE_TYPE | SK_ARRAY_TYPE | SK_MANY_PTR_TYPE
  | SK_FN_TYPE | SK_OPTIONAL_TYPE | SK_CONST_TYPE | SK_HANDLER_TYPE
  | SK_DISTINCT_TYPE | SK_BIT_FIELD_TYPE | SK_EFFECT_ROW_TYPE
  | SK_LAST_NODE_KIND.

(** The [uint16_t] value of an enumerator. *)
Definition kind_code (k : OreSyntaxKind) : N :=
  match k with
  | SK_NONE => 0 | SK_WHITESPACE => 1 | SK_NEWLINE => 2 | SK_COMMENT => 3
  | SK_LEX_ERROR => 4 | SK_EOF => 5 | SK_VIRTUAL_LBRACE => 6
  | SK_VIRTUAL_RBRACE => 7 | SK_VIRTUAL_SEMI => 8 | SK_IDENT => 9
  | SK_INT_LIT => 10 | SK_FLOAT_LIT => 11 | SK_STRING_LIT => 12
  | SK_BYTE_LIT => 13 | SK_ASM_LIT => 14 | SK_TRUE_KW => 15
  | SK_FALSE_KW => 16 | SK_NIL_KW => 17 | SK_UNREACHABLE_KW => 18
  | SK_FN_KW => 19 | SK_FN_TYPE_KW => 20 | SK_CONST_KW => 21
  | SK_STRUCT_KW => 22 | SK_ENUM_KW => 23 | SK_UNION_KW => 24
  | SK_EFFECT_KW => 25 | SK_HANDLER_KW => 26 | SK_COMPTIME_KW => 27
  | SK_IF_KW => 28 | SK_ELIF_KW => 29 | SK_ELSE_KW => 30 | SK_LOOP_KW => 31
  | SK_SWITCH_KW => 32 | SK_BREAK_KW => 33 | SK_CONTINUE_KW => 34
  | SK_RETURN_KW => 35 | SK_DEFER_KW => 36 | SK_ORELSE_KW => 37
  | SK_HANDLE_KW => 38 | SK_MASK_KW => 39 | SK_WITH_KW => 40
  | SK_AMP_AMP => 41 | SK_PIPE_PIPE => 42 | SK_BANG => 43 | SK_PLUS => 44
  | SK_MINUS => 45 | SK_STAR => 46 | SK_STAR_STAR => 47 | SK_SLASH => 48
  | SK_PERCENT => 49 | SK_PIPE => 50 | SK_AMP => 51 | SK_CARET => 52
  | SK_SHL => 53 | SK_SHR => 54 | SK_EQ_EQ => 55 | SK_BANG_EQ => 56
  | SK_LT => 57 | SK_LE => 58 | SK_GT => 59 | SK_GE => 60 | SK_EQ => 61
  | SK_PLUS_EQ => 62 | SK_MINUS_EQ => 63 | SK_STAR_EQ => 64
  | SK_SLASH_EQ => 65 | SK_PERCENT_EQ => 66 | SK_PIPE_EQ => 67
  | SK_AMP_EQ => 68 | SK_TILDE_EQ => 69 | SK_COLON_EQ => 70
  | SK_PLUS_PLUS => 71 | SK_MINUS_MINUS => 72 | SK_RARROW => 73
  | SK_LARROW => 74 | SK_FATARROW => 75 | SK_COLON => 76
  | SK_COLON_COLON => 77 | SK_LABEL => 78 | SK_DOT => 79 | SK_DOT_DOT => 80
  | SK_DOT_DOT_DOT => 81 | SK_DOT_DOT_LT => 82 | SK_DOT_DOT_EQ => 83
  | SK_QUESTION => 84 | SK_UNDERSCORE => 85 | SK_LPAREN => 86
  | SK_RPAREN => 87 | SK_LBRACKET => 88 | SK_RBRACKET => 89 | SK_LBRACE => 90
  | SK_RBRACE => 91 | SK_SEMI => 92 | SK_COMMA => 93 | SK_AT => 94
  | SK_HASH => 95 | SK_TILDE => 96 | SK_LAST_TOKEN_KIND => 97
  | SK_FIRST_NODE_KIND => 256 | SK_SOURCE_FILE => 257 | SK_ERROR_NODE => 258
  | SK_FN_DECL => 259 | SK_STRUCT_DECL => 260 | SK_ENUM_DECL => 261
  | SK_UNION_DECL => 262 | SK_EFFECT_DECL => 263 | SK_BIND_DECL => 264
  | SK_DESTRUCTURE_DECL => 265 | SK_PARAM => 266 | SK_FIELD => 267
  | SK_BIT_FIELD => 268 | SK_OP_KIND => 269 | SK_EFFECT_ROW_TAIL => 270
  | SK_VARIANT => 271 | SK_INIT_FIELD => 272 | SK_LOOP_CONTINUE => 273
  | SK_CAPTURE => 274 | SK_PARAM_LIST => 275 | SK_ARG_LIST => 276
  | SK_FIELD_LIST => 277 | SK_BIT_FIELD_LIST => 278 | SK_VARIANT_LIST => 279
  | SK_INIT_LIST => 280 | SK_SWITCH_PATTERN_LIST => 281
  | SK_EFFECT_LABEL_LIST => 282 | SK_STMT_LIST => 283 | SK_BLOCK_STMT => 284
  | SK_RETURN_STMT => 285 | SK_SWITCH_ARM => 286 | SK_BREAK_STMT => 287
  | SK_CONTINUE_STMT => 288 | SK_DEFER_STMT => 289 | SK_EXPR_STMT => 290
  | SK_LITERAL_EXPR => 291 | SK_PATH_EXPR => 292 | SK_FIELD_EXPR => 293
  | SK_REF_EXPR => 294 | SK_PAREN_EXPR => 295 | SK_BIN_EXPR => 296
  | SK_ASSIGN_EXPR => 297 | SK_PREFIX_EXPR => 298 | SK_POSTFIX_EXPR => 299
  | SK_CALL_EXPR => 300 | SK_INDEX_EXPR => 301 | SK_SLICE_EXPR => 302
  | SK_IF_EXPR => 303 | SK_SWITCH_EXPR => 304 | SK_LOOP_EXPR => 305
  | SK_LAMBDA_EXPR => 306 | SK_CTL_LAMBDA => 307 | SK_FINAL_CTL_LAMBDA => 308
  | SK_DIRECT_LAMBDA => 309 | SK_HANDLER_EXPR => 310 | SK_MASK_EXPR => 311
  | SK_PRODUCT_EXPR => 312 | SK_ENUM_REF_EXPR => 313 | SK_BUILTIN_EXPR => 314
  | SK_COMPTIME_EXPR => 315 | SK_RETURN_CLAUSE => 316 | SK_BIND_PAT => 317
  | SK_WILDCARD_PAT => 318 | SK_LITERAL_PAT => 319 | SK_TUPLE_PAT => 320
  | SK_FIELD_PAT => 321 | SK_REF_TYPE => 322 | SK_PATH_TYPE => 323
  | SK_PTR_TYPE => 324 | SK_SLICE_TYPE => 325 | SK_ARRAY_TYPE => 326
  | SK_MANY_PTR_TYPE => 327 | SK_FN_TYPE => 328 | SK_OPTIONAL_TYPE => 329
  | SK_CONST_TYPE => 330 | SK_HANDLER_TYPE => 331 | SK_DISTINCT_TYPE => 332
  | SK_BIT_FIELD_TYPE => 333 | SK_EFFECT_ROW_TYPE => 334
  | SK_LAST_NODE_KIND => 335
  end%N.

(** The token kinds, in declaration order. *)
Definition token_kinds : list OreSyntaxKind :=
  [
    SK_WHITESPACE; SK_NEWLINE; SK_COMMENT; SK_LEX_ERROR; SK_EOF;
    SK_VIRTUAL_LBRACE; SK_VIRTUAL_RBRACE; SK_VIRTUAL_SEMI; SK_IDENT;
    SK_INT_LIT; SK_FLOAT_LIT; SK_STRING_LIT; SK_BYTE_LIT; SK_ASM_LIT;
    SK_TRUE_KW; SK_FALSE_KW; SK_NIL_KW; SK_UNREACHABLE_KW; SK_FN_KW;
    SK_FN_TYPE_KW; SK_CONST_KW; SK_STRUCT_KW; SK_ENUM_KW; SK_UNION_KW;
    SK_EFFECT_KW; SK_HANDLER_KW; SK_COMPTIME_KW; SK_IF_KW; SK_ELIF_KW;
    SK_ELSE_KW; SK_LOOP_KW; SK_SWITCH_KW; SK_BREAK_KW; SK_CONTINUE_KW;
    SK_RETURN_KW; SK_DEFER_KW; SK_ORELSE_KW; SK_HANDLE_KW; SK_MASK_KW;
    SK_WITH_KW; SK_AMP_AMP; SK_PIPE_PIPE; SK_BANG; SK_PLUS; SK_MINUS;
    SK_STAR; SK_STAR_STAR; SK_SLASH; SK_PERCENT; SK_PIPE; SK_AMP; SK_CARET;
    SK_SHL; SK_SHR; SK_EQ_EQ; SK_BANG_EQ; SK_LT; SK_LE; SK_GT; SK_GE; SK_EQ;
    SK_PLUS_EQ; SK_MINUS_EQ; SK_STAR_EQ; SK_SLASH_EQ; SK_PERCENT_EQ;
    SK_PIPE_EQ; SK_AMP_EQ; SK_TILDE_EQ; SK_COLON_EQ; SK_PLUS_PLUS;
    SK_MINUS_MINUS; SK_RARROW; SK_LARROW; SK_FATARROW; SK_COLON;
    SK_COLON_COLON; SK_LABEL; SK_DOT; SK_DOT_DOT; SK_DOT_DOT_DOT;
    SK_DOT_DOT_LT; SK_DOT_DOT_EQ; SK_QUESTION; SK_UNDERSCORE; SK_LPAREN;
    SK_RPAREN; SK_LBRACKET; SK_RBRACKET; SK_LBRACE; SK_RBRACE; SK_SEMI;
    SK_COMMA; SK_AT; SK_HASH; SK_TILDE].

(** The node kinds, in declaration order. *)
Definition node_kinds : list OreSyntaxKind :=
  [
    SK_SOURCE_FILE; SK_ERROR_NODE; SK_FN_DECL; SK_STRUCT_DECL; SK_ENUM_DECL;
    SK_UNION_DECL; SK_EFFECT_DECL; SK_BIND_DECL; SK_DESTRUCTURE_DECL;
    SK_PARAM; SK_FIELD; SK_BIT_FIELD; SK_OP_KIND; SK_EFFECT_ROW_TAIL;
    SK_VARIANT; SK_INIT_FIELD; SK_LOOP_CONTINUE; SK_CAPTURE; SK_PARAM_LIST;
    SK_ARG_LIST; SK_FIELD_LIST; SK_BIT_FIELD_LIST; SK_VARIANT_LIST;
    SK_INIT_LIST; SK_SWITCH_PATTERN_LIST; SK_EFFECT_LABEL_LIST; SK_STMT_LIST;
    SK_BLOCK_STMT; SK_RETURN_STMT; SK_SWITCH_ARM; SK_BREAK_STMT;
    SK_CONTINUE_STMT; SK_DEFER_STMT; SK_EXPR_STMT; SK_LITERAL_EXPR;
    SK_PATH_EXPR; SK_FIELD_EXPR; SK_REF_EXPR; SK_PAREN_EXPR; SK_BIN_EXPR;
    SK_ASSIGN_EXPR; SK_PREFIX_EXPR; SK_POSTFIX_EXPR; SK_CALL_EXPR;
    SK_INDEX_EXPR; SK_SLICE_EXPR; SK_IF_EXPR; SK_SWITCH_EXPR; SK_LOOP_EXPR;
    SK_LAMBDA_EXPR; SK_CTL_LAMBDA; SK_FINAL_CTL_LAMBDA; SK_DIRECT_LAMBDA;
    SK_HANDLER_EXPR; SK_MASK_EXPR; SK_PRODUCT_EXPR; SK_ENUM_REF_EXPR;
    SK_BUILTIN_EXPR; SK_COMPTIME_EXPR; SK_RETURN_CLAUSE; SK_BIND_PAT;
    SK_WILDCARD_PAT; SK_LITERAL_PAT; SK_TUPLE_PAT; SK_FIELD_PAT; SK_REF_TYPE;
    SK_PATH_TYPE; SK_PTR_TYPE; SK_SLICE_TYPE; SK_ARRAY_TYPE;
    SK_MANY_PTR_TYPE; SK_FN_TYPE; SK_OPTIONAL_TYPE; SK_CONST_TYPE;
    SK_HANDLER_TYPE; SK_DISTINCT_TYPE; SK_BIT_FIELD_TYPE; SK_EFFECT_ROW_TYPE].

(** ** Debug names *)

Definition ore_syntax_kind_name (k : OreSyntaxKind) : string :=
  match k with
  | SK_NONE => "NONE" | SK_WHITESPACE => "WHITESPACE"
  | SK_NEWLINE => "NEWLINE" | SK_COMMENT => "COMMENT"
  | SK_LEX_ERROR => "LEX_ERROR" | SK_EOF => "EOF"
  | SK_VIRTUAL_LBRACE => "VIRTUAL_LBRACE"
  | SK_VIRTUAL_RBRACE => "VIRTUAL_RBRACE" | SK_VIRTUAL_SEMI => "VIRTUAL_SEMI"
  | SK_IDENT => "IDENT" | SK_INT_LIT => "INT_LIT"
  | SK_FLOAT_LIT => "FLOAT_LIT" | SK_STRING_LIT => "STRING_LIT"
  | SK_BYTE_LIT => "BYTE_LIT" | SK_ASM_LIT => "ASM_LIT"
  | SK_TRUE_KW => "TRUE_KW" | SK_FALSE_KW => "FALSE_KW"
  | SK_NIL_KW => "NIL_KW" | SK_UNREACHABLE_KW => "UNREACHABLE_KW"
  | SK_FN_KW => "FN_KW" | SK_FN_TYPE_KW => "FN_TYPE_KW"
  | SK_CONST_KW => "CONST_KW" | SK_STRUCT_KW => "STRUCT_KW"
  | SK_ENUM_KW => "ENUM_KW" | SK_UNION_KW => "UNION_KW"
  | SK_EFFECT_KW => "EFFECT_KW" | SK_HANDLER_KW => "HANDLER_KW"
  | SK_COMPTIME_KW => "COMPTIME_KW" | SK_IF_KW => "IF_KW"
  | SK_ELIF_KW => "ELIF_KW" | SK_ELSE_KW => "ELSE_KW"
  | SK_LOOP_KW => "LOOP_KW" | SK_SWITCH_KW => "SWITCH_KW"
  | SK_BREAK_KW => "BREAK_KW" | SK_CONTINUE_KW => "CONTINUE_KW"
  | SK_RETURN_KW => "RETURN_KW" | SK_DEFER_KW => "DEFER_KW"
  | SK_ORELSE_KW => "ORELSE_KW" | SK_HANDLE_KW => "HANDLE_KW"
  | SK_MASK_KW => "MASK_KW" | SK_WITH_KW => "WITH_KW"
  | SK_AMP_AMP => "AMP_AMP" | SK_PIPE_PIPE => "PIPE_PIPE" | SK_BANG => "BANG"
  | SK_PLUS => "PLUS" | SK_MINUS => "MINUS" | SK_STAR => "STAR"
  | SK_STAR_STAR => "STAR_STAR" | SK_SLASH => "SLASH"
  | SK_PERCENT => "PERCENT" | SK_PIPE => "PIPE" | SK_AMP => "AMP"
  | SK_CARET => "CARET" | SK_SHL => "SHL" | SK_SHR => "SHR"
  | SK_EQ_EQ => "EQ_EQ" | SK_BANG_EQ => "BANG_EQ" | SK_LT => "LT"
  | SK_LE => "LE" | SK_GT => "GT" | SK_GE => "GE" | SK_EQ => "EQ"
  | SK_PLUS_EQ => "PLUS_EQ" | SK_MINUS_EQ => "MINUS_EQ"
  | SK_STAR_EQ => "STAR_EQ" | SK_SLASH_EQ => "SLASH_EQ"
  | SK_PERCENT_EQ => "PERCENT_EQ" | SK_PIPE_EQ => "PIPE_EQ"
  | SK_AMP_EQ => "AMP_EQ" | SK_TILDE_EQ => "TILDE_EQ"
  | SK_COLON_EQ => "COLON_EQ" | SK_PLUS_PLUS => "PLUS_PLUS"
  | SK_MINUS_MINUS => "MINUS_MINUS" | SK_RARROW => "RARROW"
  | SK_LARROW => "LARROW" | SK_FATARROW => "FATARROW" | SK_COLON => "COLON"
  | SK_COLON_COLON => "COLON_COLON" | SK_LABEL => "LABEL" | SK_DOT => "DOT"
  | SK_DOT_DOT => "DOT_DOT" | SK_DOT_DOT_DOT => "DOT_DOT_DOT"
  | SK_DOT_DOT_LT => "DOT_DOT_LT" | SK_DOT_DOT_EQ => "DOT_DOT_EQ"
  | SK_QUESTION => "QUESTION" | SK_UNDERSCORE => "UNDERSCORE"
  | SK_LPAREN => "LPAREN" | SK_RPAREN => "RPAREN" | SK_LBRACKET => "LBRACKET"
  | SK_RBRACKET => "RBRACKET" | SK_LBRACE => "LBRACE" | SK_RBRACE => "RBRACE"
  | SK_SEMI => "SEMI" | SK_COMMA => "COMMA" | SK_AT => "AT"
  | SK_HASH => "HASH" | SK_TILDE => "TILDE"
  | SK_LAST_TOKEN_KIND => "LAST_TOKEN_KIND"
  | SK_FIRST_NODE_KIND => "FIRST_NODE_KIND" | SK_SOURCE_FILE => "SOURCE_FILE"
  | SK_ERROR_NODE => "ERROR_NODE" | SK_FN_DECL => "FN_DECL"
  | SK_STRUCT_DECL => "STRUCT_DECL" | SK_ENUM_DECL => "ENUM_DECL"
  | SK_UNION_DECL => "UNION_DECL" | SK_EFFECT_DECL => "EFFECT_DECL"
  | SK_BIND_DECL => "BIND_DECL" | SK_DESTRUCTURE_DECL => "DESTRUCTURE_DECL"
  | SK_PARAM => "PARAM" | SK_FIELD => "FIELD" | SK_BIT_FIELD => "BIT_FIELD"
  | SK_OP_KIND => "OP_KIND" | SK_EFFECT_ROW_TAIL => "EFFECT_ROW_TAIL"
  | SK_VARIANT => "VARIANT" | SK_INIT_FIELD => "INIT_FIELD"
  | SK_LOOP_CONTINUE => "LOOP_CONTINUE" | SK_CAPTURE => "CAPTURE"
  | SK_PARAM_LIST => "PARAM_LIST" | SK_ARG_LIST => "ARG_LIST"
  | SK_FIELD_LIST => "FIELD_LIST" | SK_BIT_FIELD_LIST => "BIT_FIELD_LIST"
  | SK_VARIANT_LIST => "VARIANT_LIST" | SK_INIT_LIST => "INIT_LIST"
  | SK_SWITCH_PATTERN_LIST => "SWITCH_PATTERN_LIST"
  | SK_EFFECT_LABEL_LIST => "EFFECT_LABEL_LIST" | SK_STMT_LIST => "STMT_LIST"
  | SK_BLOCK_STMT => "BLOCK_STMT" | SK_RETURN_STMT => "RETURN_STMT"
  | SK_SWITCH_ARM => "SWITCH_ARM" | SK_BREAK_STMT => "BREAK_STMT"
  | SK_CONTINUE_STMT => "CONTINUE_STMT" | SK_DEFER_STMT => "DEFER_STMT"
  | SK_EXPR_STMT => "EXPR_STMT" | SK_LITERAL_EXPR => "LITERAL_EXPR"
  | SK_PATH_EXPR => "PATH_EXPR" | SK_FIELD_EXPR => "FIELD_EXPR"
  | SK_REF_EXPR => "REF_EXPR" | SK_PAREN_EXPR => "PAREN_EXPR"
  | SK_BIN_EXPR => "BIN_EXPR" | SK_ASSIGN_EXPR => "ASSIGN_EXPR"
  | SK_PREFIX_EXPR => "PREFIX_EXPR" | SK_POSTFIX_EXPR => "POSTFIX_EXPR"
  | SK_CALL_EXPR => "CALL_EXPR" | SK_INDEX_EXPR => "INDEX_EXPR"
  | SK_SLICE_EXPR => "SLICE_EXPR" | SK_IF_EXPR => "IF_EXPR"
  | SK_SWITCH_EXPR => "SWITCH_EXPR" | SK_LOOP_EXPR => "LOOP_EXPR"
  | SK_LAMBDA_EXPR => "LAMBDA_EXPR" | SK_CTL_LAMBDA => "CTL_LAMBDA"
  | SK_FINAL_CTL_LAMBDA => "FINAL_CTL_LAMBDA"
  | SK_DIRECT_LAMBDA => "DIRECT_LAMBDA" | SK_HANDLER_EXPR => "HANDLER_EXPR"
  | SK_MASK_EXPR => "MASK_EXPR" | SK_PRODUCT_EXPR => "PRODUCT_EXPR"
  | SK_ENUM_REF_EXPR => "ENUM_REF_EXPR" | SK_BUILTIN_EXPR => "BUILTIN_EXPR"
  | SK_COMPTIME_EXPR => "COMPTIME_EXPR" | SK_RETURN_CLAUSE => "RETURN_CLAUSE"
  | SK_BIND_PAT => "BIND_PAT" | SK_WILDCARD_PAT => "WILDCARD_PAT"
  | SK_LITERAL_PAT => "LITERAL_PAT" | SK_TUPLE_PAT => "TUPLE_PAT"
  | SK_FIELD_PAT => "FIELD_PAT" | SK_REF_TYPE => "REF_TYPE"
  | SK_PATH_TYPE => "PATH_TYPE" | SK_PTR_TYPE => "PTR_TYPE"
  | SK_SLICE_TYPE => "SLICE_TYPE" | SK_ARRAY_TYPE => "ARRAY_TYPE"
  | SK_MANY_PTR_TYPE => "MANY_PTR_TYPE" | SK_FN_TYPE => "FN_TYPE"
  | SK_OPTIONAL_TYPE => "OPTIONAL_TYPE" | SK_CONST_TYPE => "CONST_TYPE"
  | SK_HANDLER_TYPE => "HANDLER_TYPE" | SK_DISTINCT_TYPE => "DISTINCT_TYPE"
  | SK_BIT_FIELD_TYPE => "BIT_FIELD_TYPE"
  | SK_EFFECT_ROW_TYPE => "EFFECT_ROW_TYPE"
  | SK_LAST_NODE_KIND => "LAST_NODE_KIND"
  end.

(** ** Equality *)

Definition kind_eqb (a b : OreSyntaxKind) : bool := (kind_code a =? kind_code b)%N.

(** Every enumerator, the four sentinels included. *)
Definition all_kinds : list OreSyntaxKind :=
  SK_NONE :: token_kinds ++
  SK_LAST_TOKEN_KIND :: SK_FIRST_NODE_KIND :: node_kinds ++ [SK_LAST_NODE_KIND].

(** The inverse of [kind_code], by search. *)
Definition kind_of_code (c : N) : option OreSyntaxKind :=
  List.find (fun k => (kind_code k =? c)%N) all_kinds.

Lemma kind_of_code_code k : kind_of_code (kind_code k) = Some k.
Proof. destruct k; vm_compute; reflexivity. Qed.

Lemma kind_code_injective a b : kind_code a = kind_code b -> a = b.
Proof.
  intros H. apply (f_equal kind_of_code) in H.
  rewrite !kind_of_code_code in H. by injection H.
Qed.

Lemma kind_eqb_eq a b : kind_eqb a b = true <-> a = b.
Proof.
  unfold kind_eqb. rewrite N.eqb_eq. split; [apply kind_code_injective|by intros ->].
Qed.

Lemma kind_eqb_refl a : kind_eqb a a = true.
Proof. by apply kind_eqb_eq. Qed.

Lemma kind_eqb_neq a b : kind_eqb a b = false <-> a <> b.
Proof. rewrite <- kind_eqb_eq. by destruct (kind_eqb a b). Qed.

#[export] Instance kind_eq_dec : EqDecision OreSyntaxKind.
Proof.
  intros a b. destruct (kind_eqb a b) eqn:E.
  - left. by apply kind_eqb_eq.
  - right. by apply kind_eqb_neq.
Defined.

Lemma elem_of_all_kinds k : List.In k all_kinds.
Proof. eapply proj1, List.find_some, kind_of_code_code. Qed.

(** A boolean fact about kinds is settled by evaluating it on all of them. *)
Lemma kind_forall (P : OreSyntaxKind -> bool) :
  forallb P all_kinds = true -> forall k, P k = true.
Proof. intros H k. apply (proj1 (forallb_forall P all_kinds) H), elem_of_all_kinds. Qed.

Lemma kind_forall2 (P : OreSyntaxKind -> OreSyntaxKind -> bool) :
  forallb (fun a => forallb (P a) all_kinds) all_kinds = true ->
  forall a b, P a b = true.
Proof.
  intros H a b. apply (kind_forall (P a)).
  exact (kind_forall (fun a => forallb (P a) all_kinds) H a).
Qed.

(** ** Classifiers backed by the flag table *)

Definition TCF_TRIVIA : N := N.shiftl 1 0.
Definition TCF_VIRTUAL_LAYOUT : N := N.shiftl 1 1.
Definition TCF_LITERAL_TOKEN : N := N.shiftl 1 2.
Definition TCF_BIN_OP : N := N.shiftl 1 3.
Definition TCF_PREFIX_OP : N := N.shiftl 1 4.
Definition TCF_POSTFIX_OP : N := N.shiftl 1 5.
Definition TCF_OPEN_BRACE : N := N.shiftl 1 6.
Definition TCF_CLOSE_BRACE : N := N.shiftl 1 7.
Definition TCF_STMT_SEP : N := N.shiftl 1 8.

(** The static table; entries it does not mention are zero. *)
Definition tok_classifier_flags (k : OreSyntaxKind) : N :=
  match k with
  | SK_WHITESPACE => TCF_TRIVIA
  | SK_NEWLINE => TCF_TRIVIA
  | SK_COMMENT => TCF_TRIVIA
  | SK_VIRTUAL_LBRACE => N.lor TCF_VIRTUAL_LAYOUT TCF_OPEN_BRACE
  | SK_VIRTUAL_RBRACE => N.lor TCF_VIRTUAL_LAYOUT TCF_CLOSE_BRACE
  | SK_VIRTUAL_SEMI => N.lor TCF_VIRTUAL_LAYOUT TCF_STMT_SEP
  | SK_LBRACE => TCF_OPEN_BRACE
  | SK_RBRACE => TCF_CLOSE_BRACE
  | SK_SEMI => TCF_STMT_SEP
  | SK_INT_LIT => TCF_LITERAL_TOKEN
  | SK_FLOAT_LIT => TCF_LITERAL_TOKEN
  | SK_STRING_LIT => TCF_LITERAL_TOKEN
  | SK_BYTE_LIT => TCF_LITERAL_TOKEN
  | SK_ASM_LIT => TCF_LITERAL_TOKEN
  | SK_PLUS => N.lor TCF_BIN_OP TCF_PREFIX_OP
  | SK_MINUS => N.lor TCF_BIN_OP TCF_PREFIX_OP
  | SK_AMP => N.lor TCF_BIN_OP TCF_PREFIX_OP
  | SK_TILDE => N.lor TCF_BIN_OP TCF_PREFIX_OP
  | SK_STAR => TCF_BIN_OP
  | SK_STAR_STAR => TCF_BIN_OP
  | SK_SLASH => TCF_BIN_OP
  | SK_PERCENT => TCF_BIN_OP
  | SK_PIPE => TCF_BIN_OP
  | SK_SHL => TCF_BIN_OP
  | SK_SHR => TCF_BIN_OP
  | SK_EQ_EQ => TCF_BIN_OP
  | SK_BANG_EQ => TCF_BIN_OP
  | SK_LT => TCF_BIN_OP
  | SK_LE => TCF_BIN_OP
  | SK_GT => TCF_BIN_OP
  | SK_GE => TCF_BIN_OP
  | SK_AMP_AMP => TCF_BIN_OP
  | SK_PIPE_PIPE => TCF_BIN_OP
  | SK_ORELSE_KW => TCF_BIN_OP
  | SK_DOT_DOT => TCF_BIN_OP
  | SK_DOT_DOT_LT => TCF_BIN_OP
  | SK_DOT_DOT_EQ => TCF_BIN_OP
  | SK_BANG => TCF_PREFIX_OP
  | SK_CARET => TCF_POSTFIX_OP
  | SK_PLUS_PLUS => TCF_POSTFIX_OP
  | SK_MINUS_MINUS => TCF_POSTFIX_OP
  | SK_QUESTION => TCF_POSTFIX_OP
  | _ => 0
  end%N.

(** The table has [SK_LAST_TOKEN_KIND] entries; larger kinds read 0. *)
Definition tcf_lookup (k : OreSyntaxKind) : N :=
  if (kind_code k <? kind_code SK_LAST_TOKEN_KIND)%N
  then tok_classifier_flags k else 0%N.

Definition has_flag (k : OreSyntaxKind) (mask : N) : bool :=
  negb (N.land (tcf_lookup k) mask =? 0)%N.

Definition ore_kind_is_trivia k := has_flag k TCF_TRIVIA.
Definition ore_kind_is_virtual_layout k := has_flag k TCF_VIRTUAL_LAYOUT.
Definition ore_kind_is_literal_token k := has_flag k TCF_LITERAL_TOKEN.
Definition ore_kind_is_bin_op_token k := has_flag k TCF_BIN_OP.
Definition ore_kind_is_prefix_op_token k := has_flag k TCF_PREFIX_OP.
Definition ore_kind_is_postfix_op_token k := has_flag k TCF_POSTFIX_OP.
Definition ore_kind_is_open_brace k := has_flag k TCF_OPEN_BRACE.
Definition ore_kind_is_close_brace k := has_flag k TCF_CLOSE_BRACE.
Definition ore_kind_is_stmt_sep k := has_flag k TCF_STMT_SEP.

(** ** Range classifiers *)

Definition in_range (lo hi k : OreSyntaxKind) : bool :=
  (kind_code lo <=? kind_code k)%N && (kind_code k <=? kind_code hi)%N.

Definition ore_kind_is_token (k : OreSyntaxKind) : bool :=
  (kind_code SK_NONE <? kind_code k)%N &&
  (kind_code k <? kind_code SK_LAST_TOKEN_KIND)%N.
Definition ore_kind_is_node (k : OreSyntaxKind) : bool :=
  (kind_code SK_FIRST_NODE_KIND <=? kind_code k)%N &&
  (kind_code k <? kind_code SK_LAST_NODE_KIND)%N.

Definition ore_kind_is_keyword := in_range SK_TRUE_KW SK_WITH_KW.
Definition ore_kind_is_assign_op_token := in_range SK_EQ SK_COLON_EQ.
Definition ore_kind_is_decl_node := in_range SK_FN_DECL SK_DESTRUCTURE_DECL.
Definition ore_kind_is_stmt_node := in_range SK_BLOCK_STMT SK_EXPR_STMT.
Definition ore_kind_is_expr_node := in_range SK_LITERAL_EXPR SK_COMPTIME_EXPR.
Definition ore_kind_is_value_node (k : OreSyntaxKind) : bool :=
  ore_kind_is_expr_node k || kind_eqb k SK_BLOCK_STMT.
Definition ore_kind_is_lambda := in_range SK_LAMBDA_EXPR SK_DIRECT_LAMBDA.
Definition ore_kind_is_pat_node := in_range SK_BIND_PAT SK_FIELD_PAT.
Definition ore_kind_is_type_node := in_range SK_REF_TYPE SK_EFFECT_ROW_TYPE.
Definition ore_kind_is_list_node := in_range SK_PARAM_LIST SK_STMT_LIST.

(** ** Facts used by the other components *)

Lemma kind_code_u16 k : (kind_code k < 2 ^ 16)%N.
Proof. apply N.ltb_lt. revert k. apply kind_forall. vm_compute. reflexivity. Qed.

(** The classes [P] and [Q] have no common member. *)
Definition disjoint_classes (P Q : OreSyntaxKind -> bool) : bool :=
  forallb (fun k => negb (P k && Q k)) all_kinds.

(** The classes of a list are pairwise disjoint. *)
Fixpoint pairwise_disjoint (cs : list (OreSyntaxKind -> bool)) : bool :=
  match cs with
  | [] => true
  | c :: cs => forallb (disjoint_classes c) cs && pairwise_disjoint cs
  end.

Definition node_classes : list (OreSyntaxKind -> bool) :=
  [ore_kind_is_decl_node; ore_kind_is_list_node; ore_kind_is_stmt_node;
   ore_kind_is_expr_node; ore_kind_is_pat_node; ore_kind_is_type_node].

(** ** Theorems *)

(** The flag table and the range checks agree with the enumeration: the token
    kinds are exactly [token_kinds], the node kinds exactly [node_kinds] and the
    [SK_FIRST_NODE_KIND] anchor, and the two classes and [SK_NONE] are disjoint. *)
Theorem token_node_partition k :
  (ore_kind_is_token k = true <-> List.In k token_kinds) /\
  (ore_kind_is_node k = true <-> k = SK_FIRST_NODE_KIND \/ List.In k node_kinds) /\
  (ore_kind_is_token k && ore_kind_is_node k) = false.
Proof.
  assert (Hin : forall l, existsb (kind_eqb k) l = true <-> List.In k l).
  { intros l. rewrite existsb_exists. split.
    - by intros (x & Hx & ->%kind_eqb_eq).
    - intros Hx. exists k. by rewrite kind_eqb_refl. }
  rewrite <- !Hin, <- kind_eqb_eq, <- orb_true_iff.
  assert (Hb : (Bool.eqb (ore_kind_is_token k) (existsb (kind_eqb k) token_kinds) &&
    Bool.eqb (ore_kind_is_node k)
      (kind_eqb k SK_FIRST_NODE_KIND || existsb (kind_eqb k) node_kinds) &&
    negb (ore_kind_is_token k && ore_kind_is_node k)) = true).
  { clear Hin. revert k. apply kind_forall. vm_compute. reflexivity. }
  apply andb_prop in Hb as [[->%eqb_prop ->%eqb_prop]%andb_prop Hb%negb_true_iff].
  done.
Qed.

(** The debug names identify the kinds: two enumerators with the same
    [ore_syntax_kind_name] are equal, and no name is the out-of-range ["?"]. *)
Theorem ore_syntax_kind_name_injective :
  (forall a b, ore_syntax_kind_name a = ore_syntax_kind_name b -> a = b) /\
  (forall k, ore_syntax_kind_name k <> "?").
Proof.
  split.
  - intros a b Hab.
    assert (H : implb (ore_syntax_kind_name a =? ore_syntax_kind_name b)
                  (kind_eqb a b) = true).
    { clear Hab. revert a b. apply kind_forall2. vm_compute. reflexivity. }
    apply String.eqb_eq in Hab. rewrite Hab in H. by apply kind_eqb_eq.
  - intros k Hk. apply String.eqb_eq in Hk.
    assert (H : negb (ore_syntax_kind_name k =? "?") = true).
    { clear Hk. revert k. apply kind_forall. vm_compute. reflexivity. }
    by rewrite Hk in H.
Qed.

(** The node classes are pairwise disjoint and only contain node kinds; the
    lambda kinds are expressions and the value kinds are the expressions and
    blocks.  (A kind that [infer], [check] or the AST layer dispatches on has one
    class.) *)
Theorem node_classes_disjoint :
  pairwise_disjoint node_classes = true /\
  (forall k, existsb (fun c => c k) node_classes = true -> ore_kind_is_node k = true) /\
  (forall k, ore_kind_is_lambda k = true -> ore_kind_is_expr_node k = true).
Proof.
  split; [vm_compute; reflexivity|]. split.
  - intros k Hk.
    assert (H : implb (existsb (fun c => c k) node_classes) (ore_kind_is_node k) = true).
    { clear Hk. revert k. apply kind_forall. vm_compute. reflexivity. }
    by rewrite Hk in H.
  - intros k Hk.
    assert (H : implb (ore_kind_is_lambda k) (ore_kind_is_expr_node k) = true).
    { clear Hk. revert k. apply kind_forall. vm_compute. reflexivity. }
    by rewrite Hk in H.
Qed.

End SyntaxKind.
