(* ===== verification/Token.v ===== *)
(** * Tokens: [src/lexer/token.h] and [src/lexer/token.c]

    The lexer's output unit.  [_pad0] is not modelled: every token the code
    builds sets it to 0. *)

From S2P Require Import Prelude SyntaxKind.
Import SyntaxKind.

Module Token.

#[local] Open Scope string_scope.

(** [StrId] values are byte offsets into the string pool; [STR_ID_NONE] is 0. *)
Definition STR_ID_NONE : N := 0%N.

Record Token := mkToken {
  kind : OreSyntaxKind;
  string_id : N;
  start : N;
  byte_end : N
}.

Definition token_is_trivia (k : OreSyntaxKind) : bool := ore_kind_is_trivia k.
Definition token_is_synthetic (t : Token) : bool :=
  ore_kind_is_virtual_layout (kind t).
Definition token_len (t : Token) : N := u32_sub (byte_end t) (start t).

(** [token_kind_str] of [src/lexer/token.c]: the source form of a token. *)
Definition token_kind_str (k : OreSyntaxKind) : string :=
  match k with
  | SK_EOF => "eof" | SK_LEX_ERROR => "error" | SK_NEWLINE => "newline"
  | SK_WHITESPACE => "space" | SK_COMMENT => "comment"
  | SK_IDENT => "identifier" | SK_INT_LIT => "int_lit"
  | SK_FLOAT_LIT => "float_lit" | SK_STRING_LIT => "string_lit"
  | SK_BYTE_LIT => "byte_lit" | SK_ASM_LIT => "asm_lit"
  | SK_TRUE_KW => "true" | SK_FALSE_KW => "false" | SK_NIL_KW => "nil"
  | SK_FN_KW => "fn" | SK_FN_TYPE_KW => "Fn" | SK_CONST_KW => "const"
  | SK_STRUCT_KW => "struct" | SK_ENUM_KW => "enum" | SK_UNION_KW => "union"
  | SK_EFFECT_KW => "effect" | SK_HANDLER_KW => "handler"
  | SK_COMPTIME_KW => "comptime" | SK_IF_KW => "if" | SK_ELIF_KW => "elif"
  | SK_ELSE_KW => "else" | SK_LOOP_KW => "loop" | SK_SWITCH_KW => "switch"
  | SK_BREAK_KW => "break" | SK_CONTINUE_KW => "continue"
  | SK_RETURN_KW => "return" | SK_DEFER_KW => "defer"
  | SK_ORELSE_KW => "orelse" | SK_HANDLE_KW => "handle"
  | SK_MASK_KW => "mask" | SK_WITH_KW => "with" | SK_AMP_AMP => "&&"
  | SK_PIPE_PIPE => "||" | SK_BANG => "!" | SK_PLUS => "+" | SK_MINUS => "-"
  | SK_STAR => "*" | SK_STAR_STAR => "**" | SK_SLASH => "/"
  | SK_PERCENT => "%" | SK_PIPE => "|" | SK_AMP => "&" | SK_CARET => "^"
  | SK_SHL => "<<" | SK_SHR => ">>" | SK_EQ_EQ => "==" | SK_BANG_EQ => "!="
  | SK_LT => "<" | SK_LE => "<=" | SK_GT => ">" | SK_GE => ">="
  | SK_EQ => "=" | SK_PLUS_EQ => "+=" | SK_MINUS_EQ => "-="
  | SK_STAR_EQ => "*=" | SK_SLASH_EQ => "/=" | SK_PERCENT_EQ => "%="
  | SK_PIPE_EQ => "|=" | SK_AMP_EQ => "&=" | SK_TILDE_EQ => "~="
  | SK_COLON_EQ => ":=" | SK_PLUS_PLUS => "++" | SK_RARROW => "->"
  | SK_LARROW => "<-" | SK_FATARROW => "=>" | SK_COLON => ":"
  | SK_COLON_COLON => "::" | SK_DOT => "." | SK_DOT_DOT => ".."
  | SK_DOT_DOT_DOT => "..." | SK_QUESTION => "?" | SK_UNDERSCORE => "_"
  | SK_LPAREN => "(" | SK_RPAREN => ")" | SK_LBRACKET => "["
  | SK_RBRACKET => "]" | SK_LBRACE => "{" | SK_RBRACE => "}" | SK_SEMI => ";"
  | SK_COMMA => "," | SK_AT => "@" | SK_HASH => "#" | SK_TILDE => "~"
  | SK_LAST_TOKEN_KIND => "?"
  | _ => "?"
  end.
End Token.
