(* ===== verification/Interner.v ===== *)
(** * The string-interning interface

    What the lexer and the parser rely on when they call [pool_intern] and
    compare [StrId]s: the operation, and the laws of a pool that deduplicates by
    content.  The clients are verified against this class; [StringPoolTheorems.v]
    discharges it for the open-addressed pool of
    [src/support/data_structure/stringpool.c]. *)

From S2P Require Import Prelude.

Class Interner (P : Type) := {
  (** [pool_intern(pool, str, len)]: the updated pool and the [StrId]. *)
  pool_intern : P -> list byte -> P * N
}.

(** [pool_wf p]: the pool is well formed; [pool_fits p]: the text it holds is small
    enough for its ids to be exact; [denotes p id s]: [id] names the string [s]. *)
Class InternerLaws (P : Type) `{!Interner P} := {
  pool_wf : P -> Prop;
  pool_fits : P -> Prop;
  denotes : P -> N -> list byte -> Prop;
  intern_fits p s : pool_fits (fst (pool_intern p s)) -> pool_fits p;
  intern_denotes p s p' id :
    pool_wf p -> (N.of_nat (length s) + 5 < 2 ^ 32)%N -> pool_intern p s = (p', id) ->
    pool_fits p' ->
    pool_wf p' /\ denotes p' id s /\ forall id' s', denotes p id' s' -> denotes p' id' s';
  denotes_injective p id id' s :
    pool_wf p -> denotes p id s -> denotes p id' s -> id = id';
  denotes_functional p id s s' :
    pool_wf p -> denotes p id s -> denotes p id s' -> s = s';
  denotes_empty p id s : pool_wf p -> denotes p id s -> (id = 0%N <-> s = [])
}.
