(* ===== verification/Probe.v ===== *)
(** * Linear probing

    The theory of an open-addressed table with cyclic linear probing, shared by the
    string pool and the hash map: when a probe terminates and what it finds, and
    that insertion and backward-shift deletion keep every key reachable from its
    home slot.  A table is read as a partial map from slots to keys; positions are
    compared by cyclic distance, in linear arithmetic. *)

From S2P Require Import Prelude.

Module Probe.

#[local] Open Scope N_scope.

Section Probe.
Context {K : Type} (m : N) (home : K -> N).
Context (Hm : 0 < m) (Hhome : forall k, home k < m).

Definition table : Type := N -> option K.

(** [step s d]: the slot [d] places after [s]; [dist s j]: how far [j] is. *)
Definition step (s d : N) : N := if s + d <? m then s + d else s + d - m.
Definition dist (s j : N) : N := if s <=? j then j - s else j + m - s.

Ltac cyc := unfold step, dist in *;
  repeat match goal with
  | |- context [?a <? ?b] => destruct (N.ltb_spec a b)
  | |- context [?a <=? ?b] => destruct (N.leb_spec a b)
  | H : context [?a <? ?b] |- _ => destruct (N.ltb_spec a b)
  | H : context [?a <=? ?b] |- _ => destruct (N.leb_spec a b)
  end; try lia.

Lemma step_lt s d : s < m -> d <= m -> step s d < m.
Proof. intros. cyc. Qed.

Lemma dist_lt s j : s < m -> j < m -> dist s j < m.
Proof. intros. cyc. Qed.

Lemma step_dist s j : s < m -> j < m -> step s (dist s j) = j.
Proof. intros. cyc. Qed.

Lemma dist_step s d : s < m -> d < m -> dist s (step s d) = d.
Proof. intros. cyc. Qed.

Lemma step_step s d e : s < m -> d + e <= m -> step (step s d) e = step s (d + e).
Proof. intros. cyc. Qed.

Lemma step_0 s : s < m -> step s 0 = s.
Proof. intros. cyc. Qed.

Lemma step_inj s d e : s < m -> d < m -> e < m -> step s d = step s e -> d = e.
Proof. intros. cyc. Qed.

(** ** Reachable keys *)

(** Every slot on the way from a key's home to its slot is taken. *)
Definition chained (T : table) : Prop :=
  forall j k d, j < m -> T j = Some k -> d < dist (home k) j -> T (step (home k) d) <> None.

Definition unique (T : table) : Prop :=
  forall i j k, i < m -> j < m -> T i = Some k -> T j = Some k -> i = j.

Definition has_room (T : table) : Prop := exists e, e < m /\ T e = None.

Definition holds (T : table) (k : K) : Prop := exists j, j < m /\ T j = Some k.

Definition upd (T : table) (i : N) (o : option K) : table :=
  fun j => if j =? i then o else T j.

Lemma upd_eq T i o : upd T i o i = o.
Proof. unfold upd. by rewrite N.eqb_refl. Qed.

Lemma upd_ne T i j o : j <> i -> upd T i o j = T j.
Proof. intros H. unfold upd. by apply N.eqb_neq in H as ->. Qed.

(** ** The probe *)

(** From [i] to the first slot that is empty or passes the test. *)
Fixpoint probe (fuel : nat) (T : table) (test : K -> bool) (i : N) : option (N * option K) :=
  match fuel with
  | O => None
  | S f =>
      match T i with
      | None => Some (i, None)
      | Some k => if test k then Some (i, Some k) else probe f T test (step i 1)
      end
  end.

(** The probe from [s] stopped [d] slots on. *)
Definition stopped (T : table) (test : K -> bool) (s d : N) (r : option K) : Prop :=
  d < m /\ T (step s d) = r /\
  match r with Some k => test k = true | None => True end /\
  forall e, e < d -> exists k, T (step s e) = Some k /\ test k = false.

Lemma probe_stops T test s :
  s < m -> has_room T ->
  exists d r, probe (N.to_nat m) T test s = Some (step s d, r) /\ stopped T test s d r.
Proof.
  intros Hs (e & He & Hn).
  assert (Hgo : forall f d, (N.to_nat (dist s e - d) < f)%nat -> d <= dist s e ->
    (forall d', d' < d -> exists k, T (step s d') = Some k /\ test k = false) ->
    exists d' r, probe f T test (step s d) = Some (step s d', r) /\ stopped T test s d' r).
  { induction f as [|f IH]; intros d Hf Hd Hb; [lia|]. simpl.
    pose proof (dist_lt s e Hs He) as Hlt.
    destruct (T (step s d)) as [k|] eqn:Hk.
    - destruct (test k) eqn:Ht.
      + exists d, (Some k). split; [done|]. split; [lia|]. done.
      + assert (d <> dist s e).
        { intros ->. rewrite step_dist in Hk by done. congruence. }
        rewrite step_step by lia. apply IH; [lia|lia|]. intros d' Hd'.
        destruct (N.eq_dec d' d) as [->|]; [by exists k|apply Hb; lia].
    - exists d, None. split; [done|]. split; [lia|]. done. }
  pose proof (dist_lt s e Hs He).
  destruct (Hgo (N.to_nat m) 0) as (d & r & Hp & Hst); [lia|lia|intros; lia|].
  exists d, r. rewrite step_0 in Hp by done. done.
Qed.

(** A probe that ends on an empty slot proves absence. *)
Lemma stopped_absent T test s d k :
  chained T -> stopped T test s d None -> home k = s -> test k = true -> ~ holds T k.
Proof.
  intros Hc (Hd & Hn & _ & Hb) Hh Ht (j & Hj & Hk).
  pose proof (Hhome k) as Hhk. rewrite Hh in Hhk.
  destruct (N.lt_ge_cases d (dist s j)) as [Hlt|Hge].
  - eapply (Hc j k d); rewrite ?Hh; try done.
  - destruct (N.eq_dec d (dist s j)) as [->|].
    + rewrite step_dist in Hn by done. congruence.
    + destruct (Hb (dist s j)) as (k' & Hk' & Hf); [lia|].
      rewrite step_dist in Hk' by done. congruence.
Qed.

(** ** Insertion *)

Lemma chained_insert T test k d :
  chained T -> stopped T test (home k) d None ->
  chained (upd T (step (home k) d) (Some k)).
Proof.
  intros Hc (Hd & Hn & _ & Hb) j k' e Hj Hk' He. pose proof (Hhome k) as Hhk.
  unfold upd. destruct (_ =? _) eqn:Heq; [done|]. apply N.eqb_neq in Heq.
  destruct (N.eq_dec j (step (home k) d)) as [->|Hne].
  - rewrite upd_eq in Hk'. injection Hk' as <-. rewrite dist_step in He by done.
    destruct (Hb e He) as (k' & -> & _). done.
  - rewrite upd_ne in Hk' by done. by apply (Hc j).
Qed.

Lemma unique_insert T k i :
  unique T -> ~ holds T k -> unique (upd T i (Some k)).
Proof.
  intros Hu Ha a b k' Hx Hy Hk Hk'. unfold upd in *.
  destruct (a =? i) eqn:Ei; destruct (b =? i) eqn:Ej;
    try apply N.eqb_eq in Ei; try apply N.eqb_eq in Ej; subst; try done.
  - injection Hk as <-. exfalso. apply Ha. by exists b.
  - injection Hk' as <-. exfalso. apply Ha. by exists a.
  - by apply (Hu a b k').
Qed.

Lemma holds_insert T k i k' :
  i < m -> T i = None -> (holds (upd T i (Some k)) k' <-> k' = k \/ holds T k').
Proof.
  intros Hi Hn. split.
  - intros (j & Hj & Hk). unfold upd in Hk. destruct (j =? i); [left; congruence|right].
    by exists j.
  - intros [->|(j & Hj & Hk)]; [exists i; by rewrite upd_eq|].
    exists j. rewrite upd_ne; [done|]. congruence.
Qed.

(** ** Backward-shift deletion *)

(** [i] lies on the way from [r] to [j]. *)
Definition on_path (r i j : N) : bool := dist r i <? dist r j.

(** Every key is reachable if the hole [i] is passed over. *)
Definition chained_but (i : N) (T : table) : Prop :=
  forall j k d, j < m -> T j = Some k -> d < dist (home k) j ->
    step (home k) d <> i -> T (step (home k) d) <> None.

(** The [c - 1] slots after the hole are taken by keys that do not pass it. *)
Definition settled (T : table) (i c : N) : Prop :=
  forall d, 0 < d < c -> exists k, T (step i d) = Some k /\
    on_path (home k) i (step i d) = false.

Lemma chained_remove T i : chained T -> chained_but i (upd T i None).
Proof.
  intros Hc j k d Hj Hk Hd Hi. rewrite upd_ne by done.
  unfold upd in Hk. destruct (j =? i); [done|]. by apply (Hc j).
Qed.

Lemma step_path r i q d :
  r < m -> i < m -> q < m -> d < dist r q -> step r d = i -> i <> q ->
  dist r i = d /\ dist r q = d + dist i q.
Proof. intros. subst i. cyc. Qed.

(** The hole is harmless once an empty slot ends the run after it. *)
Lemma hole_done T i c :
  chained_but i T -> i < m -> T i = None -> 0 < c <= m -> T (step i c) = None ->
  settled T i c -> chained T.
Proof.
  intros Hc Hi Hn Hcm He Hs j k d Hj Hk Hd.
  destruct (N.eq_dec (step (home k) d) i) as [Hp|Hp]; [|by apply (Hc j)].
  exfalso. pose proof (Hhome k) as Hh.
  assert (Hij : i <> j) by congruence.
  destruct (step_path _ _ _ _ Hh Hi Hj Hd Hp Hij) as [H1 H2].
  pose proof (dist_lt (home k) j Hh Hj) as Hlt.
  destruct (N.lt_ge_cases (dist i j) c) as [Hlt2|Hge].
  - destruct (Hs (dist i j)) as (k' & Hk' & Ho); [cyc|].
    rewrite step_dist in Hk', Ho by done. assert (k' = k) as -> by congruence.
    unfold on_path in Ho. apply N.ltb_ge in Ho. cyc.
  - destruct (N.eq_dec c (dist i j)) as [->|].
    + rewrite step_dist in He by done. congruence.
    + apply (Hc j k (d + c) Hj Hk); [lia| |].
      * rewrite <- step_step, Hp by (try done; lia).
        intros Hx. assert (c = 0); [|lia].
        apply (step_inj i c 0); try done; [lia|by rewrite step_0].
      * by rewrite <- step_step, Hp by (try done; lia).
Qed.

(** Moving a key that passes the hole into it opens a hole where the key was. *)
Lemma hole_move T i j k :
  chained_but i T -> i < m -> j < m -> i <> j -> T i = None -> T j = Some k ->
  on_path (home k) i j = true ->
  chained_but j (upd (upd T i (Some k)) j None).
Proof.
  intros Hc Hi Hj Hij Hn Hk Ho q k' d Hq Hk' Hd Hp. apply N.ltb_lt in Ho.
  pose proof (Hhome k) as Hh. rewrite upd_ne by done.
  destruct (N.eq_dec (step (home k') d) i) as [->|Hi']; [by rewrite upd_eq|].
  rewrite upd_ne by done. destruct (N.eq_dec q j) as [->|Hqj]; [by rewrite upd_eq in Hk'|].
  rewrite upd_ne in Hk' by done. destruct (N.eq_dec q i) as [->|Hqi].
  - rewrite upd_eq in Hk'. injection Hk' as <-. eapply (Hc j); try done. lia.
  - rewrite upd_ne in Hk' by done. by apply (Hc q).
Qed.

Lemma unique_move T i j k :
  unique T -> i < m -> j < m -> i <> j -> T i = None -> T j = Some k ->
  unique (upd (upd T i (Some k)) j None).
Proof.
  intros Hu Hi Hj Hij Hn Hk a b k' Ha Hb Hka Hkb. unfold upd in *.
  destruct (a =? j) eqn:E1; [done|]. destruct (b =? j) eqn:E2; [done|].
  apply N.eqb_neq in E1, E2.
  destruct (a =? i) eqn:E3; destruct (b =? i) eqn:E4;
    try apply N.eqb_eq in E3; try apply N.eqb_eq in E4; subst; try done.
  - injection Hka as ->. exfalso. apply E2. by apply (Hu b j k').
  - injection Hkb as ->. exfalso. apply E1. by apply (Hu a j k').
  - by apply (Hu a b k').
Qed.

(** The test of the C code. *)
Lemma should_move_path r i j :
  r < m -> i < m -> j < m -> i <> j ->
  (if i <? j then (r <=? i) || (j <? r) else (r <=? i) && (j <? r)) = on_path r i j.
Proof.
  intros. unfold on_path, dist.
  destruct (N.ltb_spec i j), (N.leb_spec r i), (N.ltb_spec j r), (N.leb_spec r j); simpl;
    symmetry; try (apply N.ltb_lt; lia); try (apply N.ltb_ge; lia); lia.
Qed.

(** ** Tables up to the slots' contents *)

#[global] Instance chained_proper : Proper (pointwise_relation N eq ==> iff) chained.
Proof.
  assert (H : forall T T', pointwise_relation N eq T T' -> chained T -> chained T').
  { intros T T' E Hc j k d Hj Hk Hd. rewrite <- (E j) in Hk. rewrite <- (E _). by apply (Hc j). }
  intros T T' E. split; apply H; [done|]. by intros i.
Qed.

#[global] Instance chained_but_proper i :
  Proper (pointwise_relation N eq ==> iff) (chained_but i).
Proof.
  assert (H : forall T T', pointwise_relation N eq T T' -> chained_but i T -> chained_but i T').
  { intros T T' E Hc j k d Hj Hk Hd Hi. rewrite <- (E j) in Hk. rewrite <- (E _).
    by apply (Hc j). }
  intros T T' E. split; apply H; [done|]. by intros j.
Qed.

#[global] Instance unique_proper : Proper (pointwise_relation N eq ==> iff) unique.
Proof.
  assert (H : forall T T', pointwise_relation N eq T T' -> unique T -> unique T').
  { intros T T' E Hu i j k Hi Hj Hk Hk'. rewrite <- (E i) in Hk. rewrite <- (E j) in Hk'.
    by apply (Hu i j k). }
  intros T T' E. split; apply H; [done|]. by intros i.
Qed.

#[global] Instance holds_proper : Proper (pointwise_relation N eq ==> eq ==> iff) holds.
Proof.
  intros T T' E k k' <-. unfold holds. split; intros (j & Hj & Hk); exists j.
  - by rewrite <- (E j).
  - by rewrite (E j).
Qed.

#[global] Instance upd_proper :
  Proper (pointwise_relation N eq ==> eq ==> eq ==> pointwise_relation N eq) upd.
Proof. intros T T' E i i' <- o o' <- j. unfold upd. by rewrite (E j). Qed.

(** ** Load *)

Definition taken (T : table) (i : N) : bool := match T i with Some _ => true | None => false end.
Definition all_slots : list N := map N.of_nat (seq 0 (N.to_nat m)).
Definition load (T : table) : nat := length (List.filter (taken T) all_slots).

#[global] Instance load_proper : Proper (pointwise_relation N eq ==> eq) load.
Proof.
  intros T T' E. unfold load. f_equal. apply List.filter_ext. intros i. unfold taken.
  by rewrite (E i).
Qed.

Lemma all_slots_spec i : In i all_slots <-> i < m.
Proof.
  clear Hm Hhome. unfold all_slots. rewrite in_map_iff. split.
  - intros (n & <- & Hn). apply in_seq in Hn. lia.
  - intros Hi. exists (N.to_nat i). rewrite N2Nat.id, in_seq. split; [done|lia].
Qed.

Lemma all_slots_nodup : List.NoDup all_slots.
Proof.
  clear Hm Hhome. apply Finite.Injective_map_NoDup; [intros x y; lia|apply List.seq_NoDup].
Qed.

Lemma load_room T : (load T < N.to_nat m)%nat -> has_room T.
Proof.
  intros Hl. destruct (List.existsb (fun i => negb (taken T i)) all_slots) eqn:He.
  - apply List.existsb_exists in He as (i & Hi & Ht). apply all_slots_spec in Hi.
    exists i. split; [done|]. unfold taken in Ht. by destruct (T i).
  - exfalso. assert (H : load T = length all_slots).
    { unfold load. f_equal. clear Hl. induction all_slots as [|i l IH]; simpl in *; [done|].
      apply orb_false_iff in He as [H1 H2]. apply negb_false_iff in H1. by rewrite H1, IH. }
    unfold all_slots in H. rewrite length_map, length_seq in H. lia.
Qed.

(** The number of slots that pass a test which changes at one slot. *)
Lemma filter_change (f g : N -> bool) l i :
  List.NoDup l -> In i l -> f i = false -> g i = true -> (forall j, j <> i -> f j = g j) ->
  length (List.filter g l) = S (length (List.filter f l)).
Proof.
  intros Hnd Hin Hf Hg He. induction l as [|x l IH]; [done|].
  apply NoDup_cons_iff in Hnd as [Hx Hnd]. simpl.
  destruct (N.eq_dec x i) as [->|Hne].
  - rewrite Hf, Hg. simpl. f_equal. f_equal. apply List.filter_ext_in. intros j Hj.
    symmetry. apply He. by intros ->.
  - destruct Hin as [|Hin]; [done|]. rewrite (He x Hne).
    destruct (g x); simpl; rewrite IH by done; done.
Qed.

Lemma load_insert T i k : i < m -> T i = None -> load (upd T i (Some k)) = S (load T).
Proof.
  intros Hi Hn. apply (filter_change _ _ _ i); [apply all_slots_nodup|by apply all_slots_spec|..].
  - unfold taken. by rewrite Hn.
  - unfold taken. by rewrite upd_eq.
  - intros j Hj. unfold taken. by rewrite upd_ne.
Qed.

Lemma load_remove T i k : i < m -> T i = Some k -> S (load (upd T i None)) = load T.
Proof.
  intros Hi Hk. symmetry.
  apply (filter_change _ _ _ i); [apply all_slots_nodup|by apply all_slots_spec|..].
  - unfold taken. by rewrite upd_eq.
  - unfold taken. by rewrite Hk.
  - intros j Hj. unfold taken. by rewrite upd_ne.
Qed.

Lemma load_empty : load (fun _ => None) = 0%nat.
Proof. unfold load. by induction all_slots. Qed.

End Probe.
End Probe.
