(* ===== verification/StringPool.v ===== *)
(** * The string pool: [src/support/data_structure/stringpool.c]

    A contiguous buffer of blocks [u32 length][bytes][\0], a [StrId] being the
    byte offset of a block, and an open-addressed slot table probed linearly.
    [buffer] holds the bytes in use ([len] of them); [cap] is the allocated
    capacity.  A length prefix is read and written little-endian. *)

From S2P Require Import Prelude Interner.

Module StringPool.

#[local] Open Scope N_scope.

Definition POOL_EMPTY : N := 4294967295.
Definition STRINGPOOL_INITIAL_CAP : N := 64 * 1024.

Record StringPool := mkPool {
  buffer : list byte;
  len : N;
  cap : N;
  slots : list N;
  slot_count : N;
  slot_used : N
}.

Definition byte_of (x : N) : byte :=
  match Byte.of_N (x mod 256) with Some b => b | None => x00 end.

(** [memcpy] of a [uint32_t] to and from the buffer. *)
Definition le32 (x : N) : list byte :=
  [byte_of x; byte_of (N.shiftr x 8); byte_of (N.shiftr x 16); byte_of (N.shiftr x 24)].

Definition read_u32 (b : list byte) (off : N) : N :=
  foldr (fun x acc => Byte.to_N x + 256 * acc) 0 (sub_bytes b off 4).

(** The doubling of [pool_reserve]: the new capacity. *)
Fixpoint grow_cap (fuel : nat) (nc need : N) : outcome N :=
  match fuel with
  | O => OutOfFuel
  | S f => if nc <? need then grow_cap f (nc * 2) need else Ret nc
  end.

Definition pool_reserve (need : N) (p : StringPool) : outcome StringPool :=
  if len p + need <=? cap p then Ret p
  else
    let nc := if cap p =? 0 then STRINGPOOL_INITIAL_CAP else cap p in
    let! nc := grow_cap 64 nc (len p + need) in
    Ret (mkPool (buffer p) (len p) nc (slots p) (slot_count p) (slot_used p)).

(** FNV-1a over 32 bits. *)
Definition hash_bytes (s : list byte) : N :=
  foldl (fun h b => u32 (N.lxor h (Byte.to_N b) * 16777619)) 2166136261 s.

(** [existing_len == len && memcmp(existing_str, str, len) == 0]. *)
Definition block_matches (p : StringPool) (id : N) (s : list byte) : bool :=
  (read_u32 (buffer p) id =? u32 (N.of_nat (length s))) &&
  bytes_eqb (sub_bytes (buffer p) (id + 4) (N.of_nat (length s))) s.

Definition slot_at (sl : list N) (i : N) : N := nth (N.to_nat i) sl POOL_EMPTY.

(** The probe of [find_slot]: the slot and the id found there ([POOL_EMPTY] on a
    miss). *)
Fixpoint find_slot_loop (fuel : nat) (p : StringPool) (s : list byte) (mask i : N)
    : outcome (N * N) :=
  match fuel with
  | O => OutOfFuel
  | S f =>
      let id := slot_at (slots p) i in
      if id =? POOL_EMPTY then Ret (i, POOL_EMPTY)
      else if block_matches p id s then Ret (i, id)
      else find_slot_loop f p s mask (N.land (i + 1) mask)
  end.

Definition find_slot (p : StringPool) (s : list byte) (hash : N) : outcome (N * N) :=
  let mask := slot_count p - 1 in
  find_slot_loop (N.to_nat (slot_count p)) p s mask (N.land hash mask).

(** The inner [while] of [slots_resize]: the first empty slot from [j]. *)
Fixpoint first_empty (fuel : nat) (sl : list N) (mask j : N) : outcome N :=
  match fuel with
  | O => OutOfFuel
  | S f =>
      if slot_at sl j =? POOL_EMPTY then Ret j
      else first_empty f sl mask (N.land (j + 1) mask)
  end.

(** One iteration of the rehash loop. *)
Definition rehash_one (buf : list byte) (new_count : N) (sl : list N) (id : N)
    : outcome (list N) :=
  if id =? POOL_EMPTY then Ret sl
  else
    let n := read_u32 buf id in
    let h := hash_bytes (sub_bytes buf (id + 4) n) in
    let mask := new_count - 1 in
    let! j := first_empty (N.to_nat new_count) sl mask (N.land h mask) in
    Ret (<[N.to_nat j := id]> sl).

Fixpoint rehash (buf : list byte) (new_count : N) (old sl : list N)
    : outcome (list N) :=
  match old with
  | [] => Ret sl
  | id :: old =>
      let! sl := rehash_one buf new_count sl id in rehash buf new_count old sl
  end.

(** [new_count >= 16 && (new_count & (new_count - 1)) == 0]. *)
Definition valid_slot_count (n : N) : bool :=
  (16 <=? n) && (N.land n (n - 1) =? 0).

Definition slots_resize (p : StringPool) (new_count : N) : outcome StringPool :=
  let! _ := oassert (valid_slot_count new_count)
              "stringpool: slot_count must be a power of two >= 16" in
  let! sl := rehash (buffer p) new_count (slots p)
               (replicate (N.to_nat new_count) POOL_EMPTY) in
  Ret (mkPool (buffer p) (len p) (cap p) sl new_count (slot_used p)).

Fixpoint reserve_target (fuel : nat) (target needed : N) : outcome N :=
  match fuel with
  | O => OutOfFuel
  | S f => if target * 7 <? needed * 10 then reserve_target f (target * 2) needed
           else Ret target
  end.

Definition pool_reserve_slots (p : StringPool) (expected_more : N) : outcome StringPool :=
  let needed := slot_used p + expected_more in
  let! target := reserve_target 64 16 needed in
  if slot_count p <? target then slots_resize p target else Ret p.

Definition pool_init (initial_slots : N) : outcome StringPool :=
  let! _ := oassert (valid_slot_count initial_slots)
              "pool_init: initial_slots must be a power of two >= 16" in
  Ret (mkPool (le32 0 ++ [x00]) 5 STRINGPOOL_INITIAL_CAP
         (replicate (N.to_nat initial_slots) POOL_EMPTY) initial_slots 0).

(** [pool_intern]; the empty string is [StrId] 0 and leaves the pool alone. *)
Definition pool_intern_c (p : StringPool) (s : list byte) : outcome (StringPool * N) :=
  if (N.of_nat (length s) =? 0) then Ret (p, 0)
  else
    let! p := if slot_count p * 7 <? (slot_used p + 1) * 10
              then slots_resize p (slot_count p * 2) else Ret p in
    let! (slot, existing_id) := find_slot p s (hash_bytes s) in
    if negb (existing_id =? POOL_EMPTY) then Ret (p, existing_id)
    else
      let n := u32 (N.of_nat (length s)) in
      let total := u32 (n + 4 + 1) in
      let offset := u32 (len p) in
      let! p := pool_reserve total p in
      Ret (mkPool (buffer p ++ le32 n ++ s ++ [x00]) (len p + total) (cap p)
             (<[N.to_nat slot := offset]> (slots p)) (slot_count p) (slot_used p + 1),
           offset).

Definition pool_lookup (p : StringPool) (s : list byte) : outcome N :=
  if (N.of_nat (length s) =? 0) then Ret 0
  else if slot_count p =? 0 then Ret 0
  else
    let! (_, existing_id) := find_slot p s (hash_bytes s) in
    Ret (if existing_id =? POOL_EMPTY then 0 else existing_id).

(** [strlen] of the bytes at an offset: the C string [pool_get] returns. *)
Fixpoint c_string (b : list byte) : list byte :=
  match b with
  | [] => []
  | x :: b => if Byte.eqb x x00 then [] else x :: c_string b
  end.

Definition pool_get (p : StringPool) (id : N) : list byte :=
  if id =? 0 then [] else c_string (drop (N.to_nat (id + 4)) (buffer p)).

(** The pool as the interner of the lexer and the parser.  [pool_intern_c] does
    return on the pools they use ([StringPoolFacts.intern_returns]); the fallback
    branch is for the pools outside of it. *)
#[export] Instance pool_interner : Interner StringPool := {
  pool_intern p s := match pool_intern_c p s with Ret r => r | _ => (p, 0) end
}.

(** [pool_init(&pool, 64)]. *)
Definition fresh_pool : StringPool :=
  match pool_init 64 with Ret p => p | _ => mkPool [] 0 0 [] 0 0 end.

End StringPool.
