(* ===== verification/StringPoolTheorems.v ===== *)
(** * Interning: ids are equal when the strings are

    The theorems of [src/support/data_structure/stringpool.c], and the
    [InternerLaws] instance against which the clients of the pool are verified. *)

From S2P Require Import Prelude Interner StringPool Probe.

(** ** The string pool interns by content

    The invariant of [src/support/data_structure/stringpool.c]: the slot table is a
    well-formed linear-probing table of block offsets, every offset in it is that of
    a block of the buffer, and no two blocks hold the same string.  On it rests the
    [InternerLaws] instance that the clients of the interner use. *)

Module StringPoolFacts.

Import StringPool Probe.

#[local] Open Scope N_scope.

(** ** Blocks *)

Lemma byte_of_N x : Byte.to_N (byte_of x) = x mod 256.
Proof.
  unfold byte_of. destruct (Byte.of_N (x mod 256)) eqn:E.
  - by apply Byte.to_of_N.
  - apply Byte.of_N_None_iff in E. pose proof (N.mod_lt x 256). lia.
Qed.

Lemma sub_bytes_app_l (a b : list byte) n : N.of_nat (length a) = n -> sub_bytes (a ++ b) 0 n = a.
Proof.
  intros <-. unfold sub_bytes. rewrite Nat2N.id, drop_0. apply take_app_length.
Qed.

Lemma sub_bytes_app_r (a b : list byte) i n : N.of_nat (length a) <= i ->
  sub_bytes (a ++ b) i n = sub_bytes b (i - N.of_nat (length a)) n.
Proof.
  intros H. unfold sub_bytes. f_equal. rewrite drop_app_ge by lia. f_equal. lia.
Qed.

Lemma read_le32 x b : x < 2 ^ 32 -> read_u32 (le32 x ++ b) 0 = x.
Proof.
  intros H. unfold read_u32. rewrite (sub_bytes_app_l (le32 x) b 4) by done.
  unfold le32. cbn [foldr]. rewrite !byte_of_N, !N.shiftr_div_pow2.
  change (2 ^ 8) with 256. change (2 ^ 16) with 65536. change (2 ^ 24) with 16777216.
  zify. Z.to_euclidean_division_equations. lia.
Qed.

Definition block (s : list byte) : list byte :=
  le32 (N.of_nat (length s)) ++ s ++ [x00].

(** The block of [s] starts at offset [id] of the buffer. *)
Definition block_at (b : list byte) (id : N) (s : list byte) : Prop :=
  N.of_nat (length s) < 2 ^ 32 /\
  exists pre post, b = pre ++ block s ++ post /\ N.of_nat (length pre) = id.

Lemma block_read b id s : block_at b id s -> read_u32 b id = N.of_nat (length s).
Proof.
  intros (Hs & pre & post & -> & <-). unfold read_u32.
  rewrite sub_bytes_app_r, N.sub_diag by lia. unfold block. rewrite <- !app_assoc.
  by apply read_le32.
Qed.

Lemma block_text b id s : block_at b id s -> sub_bytes b (id + 4) (N.of_nat (length s)) = s.
Proof.
  intros (Hs & pre & post & -> & <-). rewrite sub_bytes_app_r by lia. unfold block.
  rewrite <- !app_assoc, sub_bytes_app_r by (simpl; lia).
  replace (_ - _ - _) with 0 by (simpl; lia). by apply sub_bytes_app_l.
Qed.

Lemma block_at_fun b id s s' : block_at b id s -> block_at b id s' -> s = s'.
Proof.
  intros H H'. rewrite <- (block_text b id s H), <- (block_text b id s' H').
  by rewrite <- (block_read b id s H), <- (block_read b id s' H').
Qed.

Lemma block_at_app b c id s : block_at b id s -> block_at (b ++ c) id s.
Proof.
  intros (Hs & pre & post & -> & Hp). split; [done|]. exists pre, (post ++ c).
  by rewrite <- !app_assoc.
Qed.

Lemma block_at_new b s : N.of_nat (length s) < 2 ^ 32 ->
  block_at (b ++ block s) (N.of_nat (length b)) s.
Proof. intros Hs. split; [done|]. exists b, []. by rewrite app_nil_r. Qed.

Lemma block_matches_eq p id s s' :
  block_at (buffer p) id s -> N.of_nat (length s') < 2 ^ 32 ->
  block_matches p id s' = true <-> s = s'.
Proof.
  intros H Hs'. unfold block_matches. rewrite (block_read _ _ _ H), u32_small by done.
  rewrite andb_true_iff, N.eqb_eq, bytes_eqb_eq. split.
  - intros [Hl Ht]. rewrite <- Hl in Ht. by rewrite (block_text _ _ _ H) in Ht.
  - intros <-. split; [done|]. by apply block_text.
Qed.

(** ** The slot table *)

Definition slot_table (sl : list N) : table := fun i =>
  if slot_at sl i =? POOL_EMPTY then None else Some (slot_at sl i).

Definition text (b : list byte) (id : N) : list byte := sub_bytes b (id + 4) (read_u32 b id).

Definition block_home (b : list byte) (n id : N) : N := N.land (hash_bytes (text b id)) (n - 1).

Lemma text_block b id s : block_at b id s -> text b id = s.
Proof. intros H. unfold text. rewrite (block_read _ _ _ H). by apply block_text. Qed.

(** A power of two of slots. *)
Definition slots_pow2 (n : N) : Prop := exists e, 4 <= e /\ n = 2 ^ e.

Lemma slots_pow2_ge n : slots_pow2 n -> 16 <= n.
Proof. intros (e & He & ->). change 16 with (2 ^ 4). apply N.pow_le_mono_r; lia. Qed.

Lemma land_mask n x : slots_pow2 n -> N.land x (n - 1) = x mod n.
Proof.
  intros (e & He & ->). by rewrite <- N.pred_sub, <- N.ones_equiv, N.land_ones.
Qed.

Lemma land_mask_lt n x : slots_pow2 n -> N.land x (n - 1) < n.
Proof.
  intros H. rewrite land_mask by done. apply N.mod_lt. pose proof (slots_pow2_ge n H). lia.
Qed.

Lemma next_mask n i : slots_pow2 n -> i < n -> N.land (i + 1) (n - 1) = step n i 1.
Proof.
  intros H Hi. rewrite land_mask by done. unfold step. pose proof (slots_pow2_ge n H).
  destruct (N.ltb_spec (i + 1) n); [by apply N.mod_small|].
  replace (i + 1) with n by lia. rewrite N.Div0.mod_same. lia.
Qed.

Lemma block_home_lt b n id : slots_pow2 n -> block_home b n id < n.
Proof. apply land_mask_lt. Qed.

Lemma valid_slot_count_pow2 n : slots_pow2 n -> valid_slot_count n = true.
Proof.
  intros H. unfold valid_slot_count. pose proof (slots_pow2_ge n H).
  rewrite land_mask by done. rewrite N.Div0.mod_same. rewrite (proj2 (N.leb_le 16 n)); [done|lia].
Qed.

Lemma first_empty_probe n sl f j : slots_pow2 n -> j < n ->
  first_empty f sl (n - 1) j =
    match probe n f (slot_table sl) (fun _ => false) j with
    | None => OutOfFuel
    | Some (i, _) => Ret i
    end.
Proof.
  intros Hn. revert j. induction f as [|f IH]; intros j Hj; [done|]. simpl. unfold slot_table at 1.
  destruct (slot_at sl j =? POOL_EMPTY); [done|]. rewrite next_mask by done. apply IH.
  apply step_lt; lia.
Qed.

Lemma find_slot_probe p s f i : slots_pow2 (slot_count p) -> i < slot_count p ->
  find_slot_loop f p s (slot_count p - 1) i =
    match probe (slot_count p) f (slot_table (slots p)) (fun id => block_matches p id s) i with
    | None => OutOfFuel
    | Some (j, Some id) => Ret (j, id)
    | Some (j, None) => Ret (j, POOL_EMPTY)
    end.
Proof.
  intros Hn. revert i. induction f as [|f IH]; intros i Hi; [done|]. simpl. unfold slot_table at 1.
  destruct (slot_at (slots p) i =? POOL_EMPTY); [done|].
  destruct (block_matches p _ s); [done|]. rewrite next_mask by done. apply IH.
  apply step_lt; lia.
Qed.

Lemma slot_table_insert sl i id : i < N.of_nat (length sl) -> id <> POOL_EMPTY ->
  pointwise_relation N eq (slot_table (<[N.to_nat i := id]> sl)) (upd (slot_table sl) i (Some id)).
Proof.
  intros Hi Hid j. unfold slot_table, upd, slot_at. rewrite !nth_lookup.
  destruct (N.eqb_spec j i) as [->|Hne].
  - rewrite list_lookup_insert_eq by lia. simpl. by rewrite (proj2 (N.eqb_neq _ _) Hid).
  - by rewrite list_lookup_insert_ne by lia.
Qed.

Lemma slot_table_empty n : pointwise_relation N eq (slot_table (replicate n POOL_EMPTY)) (fun _ => None).
Proof.
  intros i. unfold slot_table, slot_at. rewrite nth_lookup.
  destruct (replicate n POOL_EMPTY !! N.to_nat i) eqn:E; [|done].
  by apply lookup_replicate in E as [-> _].
Qed.

Lemma slot_table_some sl i id : slot_table sl i = Some id <-> slot_at sl i = id /\ id <> POOL_EMPTY.
Proof.
  unfold slot_table. destruct (N.eqb_spec (slot_at sl i) POOL_EMPTY) as [E|E].
  - split; [done|]. by intros [<- ?].
  - split; [by intros [= <-]|]. by intros [<- _].
Qed.

Lemma holds_in sl id : holds (N.of_nat (length sl)) (slot_table sl) id <->
  In id sl /\ id <> POOL_EMPTY.
Proof.
  split.
  - intros (j & Hj & Hk). apply slot_table_some in Hk as [<- Hne]. split; [|done].
    apply nth_In. lia.
  - intros [Hin Hne]. apply (In_nth _ _ POOL_EMPTY) in Hin as (n & Hn & He).
    exists (N.of_nat n). split; [lia|]. apply slot_table_some. split; [|done].
    unfold slot_at. by rewrite Nat2N.id.
Qed.

(** ** Tables of offsets *)

(** [sl] has [n] slots, each offset in it is reachable from its home, and it holds
    [k] of them. *)
Record slots_ok (b : list byte) (n : N) (sl : list N) : Prop := {
  so_pow2 : slots_pow2 n;
  so_length : N.of_nat (length sl) = n;
  so_chained : chained n (block_home b n) (slot_table sl);
  so_unique : unique n (slot_table sl)
}.

Definition used (n : N) (sl : list N) : nat := load n (slot_table sl).

Lemma slots_room b n sl : slots_ok b n sl -> N.of_nat (used n sl) < n ->
  has_room n (slot_table sl).
Proof.
  intros H Hu. pose proof (slots_pow2_ge n (so_pow2 b n sl H)). apply load_room; [lia|].
  unfold used in Hu. lia.
Qed.

(** A new offset in the empty slot where its probe stopped. *)
Lemma slots_insert b n sl test id d :
  slots_ok b n sl -> stopped n (slot_table sl) test (block_home b n id) d None ->
  id <> POOL_EMPTY -> ~ holds n (slot_table sl) id ->
  let sl' := <[N.to_nat (step n (block_home b n id) d) := id]> sl in
  slots_ok b n sl' /\ used n sl' = S (used n sl) /\
  forall id', holds n (slot_table sl') id' <-> id' = id \/ holds n (slot_table sl) id'.
Proof.
  intros [Hn Hl Hc Hu] Hst Hid Hab. set (i := step n (block_home b n id) d).
  pose proof (slots_pow2_ge n Hn) as Hge. pose proof (block_home_lt b n id Hn) as Hh.
  assert (Hi : i < n) by (destruct Hst; apply step_lt; lia).
  assert (Hni : slot_table sl i = None) by apply Hst.
  pose proof (slot_table_insert sl i id) as HT. rewrite Hl in HT. specialize (HT Hi Hid).
  assert (Hhome : forall k, block_home b n k < n) by (intros; by apply block_home_lt).
  split; [|split].
  - split; [done|by rewrite length_insert| |]; rewrite HT.
    + by apply (chained_insert n (block_home b n) ltac:(lia) Hhome _ test).
    + by apply unique_insert.
  - unfold used. rewrite HT. by apply load_insert.
  - intros id'. rewrite HT. by apply holds_insert.
Qed.

Lemma rehash_one_ok b n sl id :
  slots_ok b n sl -> N.of_nat (used n sl) < n -> ~ holds n (slot_table sl) id ->
  exists sl', rehash_one b n sl id = Ret sl' /\ slots_ok b n sl' /\
    used n sl' = (used n sl + if (id =? POOL_EMPTY)%N then 0 else 1)%nat /\
    forall id', holds n (slot_table sl') id' <->
      (id' = id /\ id <> POOL_EMPTY) \/ holds n (slot_table sl) id'.
Proof.
  intros H Hu Hab. unfold rehash_one. destruct (N.eqb_spec id POOL_EMPTY) as [He|Hne].
  - exists sl. split; [done|]. split; [done|]. split; [lia|]. intros id'. split; [by right|]. by intros [[_ ?]|?].
  - pose proof (slots_pow2_ge n (so_pow2 _ _ _ H)) as Hge.
    pose proof (block_home_lt b n id (so_pow2 _ _ _ H)) as Hh.
    fold (text b id). fold (block_home b n id).
    destruct (probe_stops n ltac:(lia) (slot_table sl) (fun _ => false) _ Hh
                (slots_room b n sl H Hu)) as (d & r & Hp & Hst).
    rewrite first_empty_probe by (try done; apply H). rewrite Hp. cbn [obind].
    destruct r as [k|]; [by destruct Hst as (_ & _ & ? & _)|].
    destruct (slots_insert b n sl _ id d H Hst Hne Hab) as (H' & Hl' & Hh').
    eexists. split; [reflexivity|]. split; [done|]. split; [lia|]. intros id'.
    rewrite Hh'. split; [intros [->|?]; auto|intros [[-> _]|?]; auto].
Qed.

Definition ids_in (l : list N) : list N := List.filter (fun id => negb (id =? POOL_EMPTY)) l.

Lemma slots_rehash_ok b n old sl :
  slots_ok b n sl -> List.NoDup (ids_in old) ->
  (forall id, In id old -> ~ holds n (slot_table sl) id) ->
  N.of_nat (used n sl + length (ids_in old)) < n ->
  exists sl', rehash b n old sl = Ret sl' /\ slots_ok b n sl' /\
    used n sl' = (used n sl + length (ids_in old))%nat /\
    forall id, holds n (slot_table sl') id <->
      (In id old /\ id <> POOL_EMPTY) \/ holds n (slot_table sl) id.
Proof.
  revert sl. induction old as [|x old IH]; intros sl H Hnd Hab Hl.
  - exists sl. split; [done|]. split; [done|]. split; [simpl; lia|]. intros id.
    split; [by right|by intros [[[] _]|?]].
  - cbn [rehash]. destruct (rehash_one_ok b n sl x H) as (sl1 & -> & H1 & U1 & W1);
      [lia|by apply Hab; left|]. cbn [obind].
    assert (Hx : forall id, In id old -> id = x -> x = POOL_EMPTY).
    { intros id Hin ->. destruct (N.eq_dec x POOL_EMPTY) as [|Hne]; [done|]. exfalso.
      unfold ids_in in Hnd. simpl in Hnd. rewrite (proj2 (N.eqb_neq _ _) Hne) in Hnd.
      simpl in Hnd. inversion_clear Hnd as [|? ? Hn _]. apply Hn. apply List.filter_In.
      split; [done|]. by rewrite (proj2 (N.eqb_neq _ _) Hne). }
    assert (Hcnt : (length (ids_in (x :: old)) =
                    (if (x =? POOL_EMPTY)%N then 0 else 1) + length (ids_in old))%nat).
    { unfold ids_in. simpl. by destruct (x =? POOL_EMPTY). }
    destruct (IH sl1 H1) as (sl2 & -> & H2 & U2 & W2).
    + unfold ids_in in *. simpl in Hnd. destruct (x =? POOL_EMPTY); [done|].
      by inversion_clear Hnd.
    + intros id Hin Hh. apply W1 in Hh as [[-> Hne]|Hh]; [by apply Hne, (Hx x)|].
      apply (Hab id); [by right|done].
    + lia.
    + exists sl2. split; [done|]. split; [done|]. split; [lia|]. intros id. rewrite W2, W1.
      simpl. split; [intros [[? ?]|[[-> ?]|?]]; auto|intros [[[->|?] ?]|?]; auto].
Qed.

Lemma map_nth_all {A} (l : list A) d : map (fun k => nth k l d) (seq 0 (length l)) = l.
Proof.
  induction l as [|x l IH]; [done|]. simpl. f_equal. by rewrite <- seq_shift, map_map.
Qed.

(** The offsets of a table are distinct and [used] counts them. *)
Lemma ids_in_table sl n : N.of_nat (length sl) = n ->
  length (ids_in sl) = used n sl /\ (unique n (slot_table sl) -> List.NoDup (ids_in sl)).
Proof.
  intros Hl.
  assert (Hs : sl = map (slot_at sl) (all_slots n)).
  { unfold all_slots. rewrite map_map, <- Hl, Nat2N.id. rewrite <- (map_nth_all sl POOL_EMPTY) at 1.
    apply map_ext. intros k. unfold slot_at. by rewrite Nat2N.id. }
  assert (Hf : ids_in sl = map (slot_at sl) (List.filter (taken (slot_table sl)) (all_slots n))).
  { rewrite Hs at 1. unfold ids_in. clear Hs. induction (all_slots n) as [|i l IH]; [done|].
    cbn [map List.filter]. unfold taken at 1, slot_table at 1.
    destruct (slot_at sl i =? POOL_EMPTY); cbn [negb map]; [apply IH|]. f_equal. apply IH. }
  split; [rewrite Hf; apply length_map|]. intros Hu. rewrite Hf.
  pose proof (List.NoDup_filter (taken (slot_table sl)) (all_slots_nodup n)) as Hnd.
  assert (Hin : forall i, In i (List.filter (taken (slot_table sl)) (all_slots n)) ->
     i < n /\ slot_table sl i = Some (slot_at sl i)).
  { intros i [Hi Ht]%List.filter_In. apply all_slots_spec in Hi. split; [done|].
    unfold taken, slot_table in *. by destruct (slot_at sl i =? POOL_EMPTY). }
  clear Hf Hs. induction Hnd as [|i l Hi Hnd IH]; simpl; constructor.
  - rewrite in_map_iff. intros (j & He & Hj). apply Hi.
    destruct (Hin i (or_introl eq_refl)) as [Li Ti].
    destruct (Hin j (or_intror Hj)) as [Lj Tj]. rewrite He in Tj.
    by rewrite (Hu i j (slot_at sl i) Li Lj Ti Tj).
  - apply IH. intros j Hj. apply Hin. by right.
Qed.

(** ** The pool *)

(** Offset [id] is registered in the slot table. *)
Definition registered (p : StringPool) (id : N) : Prop :=
  holds (slot_count p) (slot_table (slots p)) id.

Record pool_wf (p : StringPool) : Prop := {
  pw_slots : slots_ok (buffer p) (slot_count p) (slots p);
  pw_len : len p = N.of_nat (length (buffer p));
  pw_cap : 5 <= len p <= cap p;
  pw_blocks : forall id, registered p id ->
    5 <= id < len p /\ exists s, s <> [] /\ block_at (buffer p) id s;
  pw_distinct : forall id id' s, registered p id -> registered p id' ->
    block_at (buffer p) id s -> block_at (buffer p) id' s -> id = id';
  pw_used : slot_used p = N.of_nat (used (slot_count p) (slots p));
  pw_load : 10 * slot_used p <= 7 * slot_count p
}.

(** [id] is the [StrId] of [s]. *)
Definition names (p : StringPool) (id : N) (s : list byte) : Prop :=
  (id = 0 /\ s = []) \/ (s <> [] /\ registered p id /\ block_at (buffer p) id s).

Lemma registered_nonzero p id : pool_wf p -> registered p id -> id <> 0.
Proof. intros W H. apply (pw_blocks p W) in H. lia. Qed.

Lemma names_empty p id s : pool_wf p -> names p id s -> (id = 0 <-> s = []).
Proof. intros W [[-> ->]|(Hs & Hr & _)]; [done|]. split; [|done]. intros ->. by destruct (registered_nonzero p 0 W Hr). Qed.

Lemma names_inj p id id' s : pool_wf p -> names p id s -> names p id' s -> id = id'.
Proof.
  intros W [[Hi Hs]|(H1 & H2 & H3)] [[Hi' Hs']|(H1' & H2' & H3')]; try congruence.
  by apply (pw_distinct p W id id' s).
Qed.

Lemma names_fun p id s s' : pool_wf p -> names p id s -> names p id s' -> s = s'.
Proof.
  intros W [[Hi Hs]|(H1 & H2 & H3)] [[Hi' Hs']|(H1' & H2' & H3')]; try congruence.
  - by destruct (registered_nonzero p id W H2').
  - by destruct (registered_nonzero p id W H2).
  - by apply (block_at_fun (buffer p) id).
Qed.

(** Rehashing into a larger table registers the same offsets. *)
Lemma slots_resize_ok p n : pool_wf p -> slots_pow2 n -> 10 * slot_used p <= 7 * n ->
  exists p', slots_resize p n = Ret p' /\ pool_wf p' /\ buffer p' = buffer p /\
    slot_count p' = n /\ slot_used p' = slot_used p /\ len p' = len p /\
    forall id, registered p' id <-> registered p id.
Proof.
  intros W Hn Hl. pose proof (pw_slots p W) as S. pose proof (so_length _ _ _ S) as SL.
  unfold slots_resize. rewrite valid_slot_count_pow2 by done. cbn [oassert obind].
  destruct (ids_in_table (slots p) (slot_count p) SL) as [Hcnt Hnd].
  specialize (Hnd (so_unique _ _ _ S)). pose proof (slots_pow2_ge n Hn) as Hge.
  set (e := replicate (N.to_nat n) POOL_EMPTY).
  assert (He : slots_ok (buffer p) n e).
  { split; [done|unfold e; rewrite length_replicate; lia|..]; unfold e; rewrite slot_table_empty.
    - by intros j k d _ [=].
    - by intros i j k _ _ [=]. }
  assert (Hue : used n e = 0%nat) by (unfold used, e; rewrite slot_table_empty; apply load_empty).
  assert (Hno : forall id, ~ holds n (slot_table e) id).
  { intros id (j & _ & Hk). unfold e in Hk. by rewrite (slot_table_empty _ j) in Hk. }
  destruct (slots_rehash_ok (buffer p) n (slots p) e He Hnd) as (sl & -> & Hsl & Hu & Hh); [done|..].
  { rewrite Hue, Hcnt. pose proof (pw_used p W). lia. }
  cbn [obind]. eexists. split; [reflexivity|].
  assert (Hr : forall id, holds n (slot_table sl) id <-> registered p id).
  { intros id. rewrite Hh. unfold registered. rewrite <- SL at 1. rewrite holds_in.
    split; [intros [?|?%Hno]; done|by left]. }
  split; [|done]. split; cbn [buffer slot_count slots len cap slot_used].
  - exact Hsl.
  - apply W.
  - apply W.
  - intros id H. by apply (pw_blocks p W), Hr.
  - intros id id' s H H'. by apply (pw_distinct p W); apply Hr.
  - rewrite Hu, Hue, Hcnt. apply W.
  - done.
Qed.

Lemma slots_pow2_double n : slots_pow2 n -> slots_pow2 (n * 2).
Proof.
  intros (e & He & ->). exists (e + 1). split; [lia|]. rewrite N.pow_add_r.
  by change (2 ^ 1) with 2.
Qed.

(** The table after the load test of [pool_intern] has an empty slot to spare. *)
Lemma intern_room p : pool_wf p ->
  exists p', (if slot_count p * 7 <? (slot_used p + 1) * 10
              then slots_resize p (slot_count p * 2) else Ret p) = Ret p' /\
    pool_wf p' /\ buffer p' = buffer p /\ len p' = len p /\ slot_used p' = slot_used p /\
    10 * (slot_used p' + 1) <= 7 * slot_count p' /\
    forall id, registered p' id <-> registered p id.
Proof.
  intros W. pose proof (slots_pow2_ge _ (so_pow2 _ _ _ (pw_slots p W))) as Hge.
  pose proof (pw_load p W) as Hl. destruct (N.ltb_spec (slot_count p * 7) ((slot_used p + 1) * 10)).
  - destruct (slots_resize_ok p (slot_count p * 2) W) as (p' & E & W' & Hb & Hc & Hu & Hn & Hr).
    + apply slots_pow2_double, so_pow2 with (buffer p) (slots p), W.
    + lia.
    + exists p'. do 5 (split; [done|]). split; [lia|done].
  - exists p. do 5 (split; [done|]). split; [lia|done].
Qed.

(** [find_slot] answers the [StrId] of a registered string, or the empty slot where
    the string goes. *)
Lemma find_slot_ok p s : pool_wf p -> s <> [] -> N.of_nat (length s) < 2 ^ 32 ->
  exists i id, find_slot p s (hash_bytes s) = Ret (i, id) /\
    if id =? POOL_EMPTY
    then (forall id', registered p id' -> ~ block_at (buffer p) id' s) /\
      exists d, i = step (slot_count p) (N.land (hash_bytes s) (slot_count p - 1)) d /\
        stopped (slot_count p) (slot_table (slots p)) (fun id => block_matches p id s)
          (N.land (hash_bytes s) (slot_count p - 1)) d None
    else registered p id /\ block_at (buffer p) id s.
Proof.
  intros W Hne Hs. pose proof (pw_slots p W) as S. pose proof (so_pow2 _ _ _ S) as Hp2.
  pose proof (slots_pow2_ge _ Hp2) as Hge. set (n := slot_count p) in *.
  set (h := N.land (hash_bytes s) (n - 1)).
  assert (Hh : h < n) by by apply land_mask_lt.
  assert (Hroom : has_room n (slot_table (slots p))).
  { apply (slots_room (buffer p) n (slots p) S). pose proof (pw_used p W) as Hu.
    pose proof (pw_load p W). fold n in Hu |- *. lia. }
  unfold find_slot. fold n. fold h. rewrite find_slot_probe by done. fold n.
  destruct (probe_stops n ltac:(lia) (slot_table (slots p)) (fun id => block_matches p id s) h Hh
              Hroom) as (d & r & -> & Hst).
  destruct r as [id|].
  - exists (step n h d), id. split; [done|]. destruct Hst as (Hd & Hid & Hm & _).
    pose proof (proj1 (slot_table_some _ _ _) Hid) as [_ Hnemp].
    rewrite (proj2 (N.eqb_neq _ _) Hnemp).
    assert (Hreg : registered p id) by (exists (step n h d); split; [apply step_lt; lia|done]).
    split; [done|]. destruct (pw_blocks p W id Hreg) as (_ & s' & _ & Hb).
    apply (block_matches_eq p id s' s Hb Hs) in Hm. by subst s'.
  - exists (step n h d), POOL_EMPTY. rewrite N.eqb_refl. split; [done|]. split; [|by exists d].
    intros id Hreg Hb.
    apply (stopped_absent n (block_home (buffer p) n) ltac:(lia) (fun k => block_home_lt _ _ k Hp2)
      (slot_table (slots p)) (fun id => block_matches p id s) h d id); try done.
    + apply S.
    + unfold block_home. by rewrite (text_block _ _ _ Hb).
    + by apply (block_matches_eq p id s s Hb Hs).
Qed.

Lemma grow_cap_ok f c need : need <= c * 2 ^ N.of_nat f ->
  exists c', grow_cap (S f) c need = Ret c' /\ need <= c'.
Proof.
  revert c. induction f as [|f IH]; intros c H; cbn [grow_cap].
  - rewrite (proj2 (N.ltb_ge _ _)) by (simpl in H; lia). exists c. split; [done|]. simpl in H. lia.
  - destruct (N.ltb_spec c need); [|by exists c]. apply IH.
    replace (N.of_nat (S f)) with (1 + N.of_nat f) in H by lia.
    rewrite N.pow_add_r in H. change (2 ^ 1) with 2 in H. lia.
Qed.

Lemma pool_reserve_ok p n : 5 <= len p <= cap p -> len p + n < 2 ^ 60 ->
  exists c, pool_reserve n p =
    Ret (mkPool (buffer p) (len p) c (slots p) (slot_count p) (slot_used p)) /\ len p + n <= c.
Proof.
  intros Hc Hn. unfold pool_reserve. destruct (N.leb_spec (len p + n) (cap p)) as [H|H].
  - exists (cap p). split; [by destruct p|done].
  - rewrite (proj2 (N.eqb_neq (cap p) 0)) by lia.
    destruct (grow_cap_ok 63 (cap p) (len p + n)) as (c & -> & Hle); [|by exists c].
    change (2 ^ N.of_nat 63) with (2 ^ 63). nia.
Qed.

(** Appending to the buffer leaves the registered blocks and the table alone. *)
Lemma slots_ok_append p c : pool_wf p -> slots_ok (buffer p ++ c) (slot_count p) (slots p).
Proof.
  intros W. pose proof (pw_slots p W) as [Hp Hl Hc Hu]. split; try done.
  assert (Hh : forall id, registered p id ->
    block_home (buffer p ++ c) (slot_count p) id = block_home (buffer p) (slot_count p) id).
  { intros id H. destruct (pw_blocks p W id H) as (_ & s & _ & Hb). unfold block_home.
    by rewrite (text_block _ _ _ Hb), (text_block _ _ _ (block_at_app _ c _ _ Hb)). }
  intros j id d Hj Hid Hd. assert (H : registered p id) by by exists j.
  rewrite Hh in * by done. by apply (Hc j id d).
Qed.

Lemma block_at_prefix p c id s : pool_wf p -> registered p id ->
  block_at (buffer p ++ c) id s -> block_at (buffer p) id s.
Proof.
  intros W H Hb. destruct (pw_blocks p W id H) as (_ & s' & _ & Hb').
  by rewrite (block_at_fun _ _ _ _ Hb (block_at_app _ c _ _ Hb')).
Qed.

(** The insertion of a string that is not there. *)
Lemma intern_new p s c d :
  pool_wf p -> s <> [] -> len p + N.of_nat (length s) + 5 < 2 ^ 32 ->
  10 * (slot_used p + 1) <= 7 * slot_count p ->
  (forall id, registered p id -> ~ block_at (buffer p) id s) ->
  len p + N.of_nat (length s) + 5 <= c ->
  let h := N.land (hash_bytes s) (slot_count p - 1) in
  stopped (slot_count p) (slot_table (slots p)) (fun id => block_matches p id s) h d None ->
  let p' := mkPool (buffer p ++ block s) (len p + (N.of_nat (length s) + 5)) c
    (<[N.to_nat (step (slot_count p) h d) := len p]> (slots p)) (slot_count p) (slot_used p + 1) in
  pool_wf p' /\ block_at (buffer p') (len p) s /\
  (forall id, registered p' id <-> id = len p \/ registered p id).
Proof.
  intros W Hne Hs Hroom Hab Hc h Hst p'.
  assert (Hblk : block_at (buffer p') (len p) s).
  { rewrite (pw_len p W). apply block_at_new. lia. }
  assert (Hh : h = block_home (buffer p') (slot_count p) (len p)).
  { unfold block_home. by rewrite (text_block _ _ _ Hblk). }
  assert (Hnew : ~ registered p (len p)) by (intros H; apply (pw_blocks p W) in H; lia).
  rewrite Hh in Hst.
  destruct (slots_insert (buffer p') (slot_count p) (slots p) _ (len p) d
    (slots_ok_append p (block s) W) Hst) as (S' & U' & R'); [unfold POOL_EMPTY; lia|done|].
  rewrite <- Hh in S', U', R'. split; [|done].
  split; cbn [buffer slot_count slots len cap slot_used p'].
  - exact S'.
  - rewrite length_app. unfold block. rewrite !length_app. simpl. pose proof (pw_len p W). lia.
  - pose proof (pw_cap p W). lia.
  - intros id H. apply R' in H as [->|H].
    + split; [pose proof (pw_cap p W); lia|]. by exists s.
    + destruct (pw_blocks p W id H) as (Hr & s' & Hn & Hb). split; [lia|]. exists s'.
      split; [done|]. by apply block_at_app.
  - assert (Hold : forall id s', registered p id -> block_at (buffer p ++ block s) (len p) s' ->
      block_at (buffer p ++ block s) id s' -> False).
    { intros id s' H B B'. rewrite (block_at_fun _ _ _ _ B Hblk) in B'.
      by apply (Hab id H), (block_at_prefix p (block s)). }
    intros id id' s' H H' B B'. apply R' in H as [->|H], H' as [->|H']; try done.
    + by destruct (Hold id' s').
    + by destruct (Hold id s').
    + apply (pw_distinct p W id id' s'); try done; by apply (block_at_prefix p (block s)).
  - rewrite U'. pose proof (pw_used p W). lia.
  - lia.
Qed.

(** [p'] names what [p] names, and [s] by [id]. *)
Record interned (p : StringPool) (s : list byte) (p' : StringPool) (id : N) : Prop := {
  in_wf : pool_wf p';
  in_names : names p' id s;
  in_kept : forall id' s', names p id' s' -> names p' id' s';
  in_new : forall id' s', names p' id' s' -> names p id' s' \/ s' = s
}.

(** What [pool_intern] does to a well-formed pool: it returns, and as long as the
    offsets fit 32 bits the string is interned. *)
Lemma intern_returns p s : pool_wf p -> len p < 2 ^ 32 -> N.of_nat (length s) + 5 < 2 ^ 32 ->
  exists p' id, pool_intern_c p s = Ret (p', id) /\
    (len p' < 2 ^ 32 -> interned p s p' id) /\
    len p <= len p' <= len p + N.of_nat (length s) + 5.
Proof.
  intros W Hp Hs. unfold pool_intern_c. destruct (N.eqb_spec (N.of_nat (length s)) 0) as [H0|H0].
  { destruct s; [|simpl in H0; lia]. exists p, 0. split; [done|]. split; [|lia].
    intros _. split; [done|by left|done|by left]. }
  assert (Hne : s <> []) by (by intros ->).
  destruct (intern_room p W) as (p1 & -> & W1 & B1 & L1 & U1 & R1 & G1). cbn [obind].
  assert (N1 : forall id s', names p1 id s' <-> names p id s').
  { intros id s'. unfold names. by rewrite G1, B1. }
  destruct (find_slot_ok p1 s W1 Hne) as (i & id & -> & Hid); [lia|]. cbn [obind].
  destruct (id =? POOL_EMPTY) eqn:He; cbn [negb].
  - destruct Hid as [Hab (d & -> & Hst)].
    rewrite (u32_small (N.of_nat _)) by lia.
    rewrite (u32_small (N.of_nat _ + 4 + 1)) by lia. rewrite (u32_small (len p1)) by lia.
    destruct (pool_reserve_ok p1 (N.of_nat (length s) + 4 + 1) (pw_cap p1 W1)) as (c & -> & Hc);
      [lia|]. cbn [obind buffer len cap slots slot_count slot_used].
    eexists _, _. split; [reflexivity|]. split; [|simpl; lia]. cbn [len]. intros Hl.
    replace (N.of_nat (length s) + 4 + 1) with (N.of_nat (length s) + 5) by lia.
    destruct (intern_new p1 s c d W1 Hne) as (W2 & B2 & G2); [lia|done|done|lia|done|].
    split; [exact W2|..].
    + right. split; [done|]. split; [apply G2; by left|done].
    + intros id' s' H. apply N1 in H as [?|(? & ? & ?)]; [by left|right]. split; [done|].
      split; [apply G2; by right|]. by apply block_at_app.
    + intros id' s' [H|(Hn' & Hr' & Hb')]; [left; by left|]. apply G2 in Hr' as [->|Hr'].
      * right. by apply (block_at_fun _ _ _ _ Hb' B2).
      * left. apply N1. right. split; [done|]. split; [done|]. by apply (block_at_prefix p1 (block s)).
  - exists p1, id. split; [done|]. split; [|lia]. destruct Hid as [Hr Hb]. intros _.
    split; [done|by right|intros; by apply N1|]. intros id' s' H. left. by apply N1.
Qed.

Lemma intern_ok p s : pool_wf p -> len p + N.of_nat (length s) + 5 < 2 ^ 32 ->
  exists p' id, pool_intern_c p s = Ret (p', id) /\ interned p s p' id /\
    len p <= len p' <= len p + N.of_nat (length s) + 5.
Proof.
  intros W Hs. destruct (intern_returns p s W) as (p' & id & E & H & Hl); [lia|lia|].
  exists p', id. split; [done|]. split; [apply H; lia|done].
Qed.

(** The buffer never shrinks. *)
Lemma intern_len p s : len p <= len (fst (pool_intern p s)).
Proof.
  unfold pool_intern. simpl. destruct (pool_intern_c p s) as [[p' id]|site|] eqn:E; try (simpl; lia).
  unfold pool_intern_c in E. destruct (_ =? 0); [by injection E as <- <-; simpl; lia|].
  apply obind_Ret in E as (p1 & E1 & E). assert (H1 : len p1 = len p).
  { destruct (_ <? _); [|congruence]. unfold slots_resize in E1.
    apply obind_Ret in E1 as ([] & _ & E1). apply obind_Ret in E1 as (sl & _ & E1).
    by injection E1 as <-. }
  apply obind_Ret in E as ([i id'] & _ & E). destruct (negb _); [injection E as <- <-; simpl; lia|].
  apply obind_Ret in E as (p2 & E2 & E). injection E as <- <-. simpl.
  unfold pool_reserve in E2. destruct (_ <=? _); [injection E2 as <-; lia|].
  apply obind_Ret in E2 as (c & _ & E2). injection E2 as <-. simpl. lia.
Qed.

End StringPoolFacts.

Module StringPoolTheorems.

Import StringPool Probe StringPoolFacts.

#[local] Open Scope N_scope.

(** ** The pool implements the interner *)

#[export] Program Instance pool_interner_laws : InternerLaws StringPool := {
  pool_wf := StringPoolFacts.pool_wf;
  pool_fits p := len p < 2 ^ 32;
  denotes := names
}.
Next Obligation. intros p s H. exact (N.le_lt_trans _ _ _ (intern_len p s) H). Qed.
Next Obligation.
  intros p s p' id W Hs E Hf.
  assert (Hp : len p < 2 ^ 32) by (pose proof (intern_len p s) as H; rewrite E in H; exact (N.le_lt_trans _ _ _ H Hf)).
  destruct (intern_returns p s W Hp Hs) as (p1 & id1 & E1 & H & _).
  unfold pool_intern in E. simpl in E. rewrite E1 in E. injection E as <- <-.
  destruct (H Hf). done.
Qed.
Next Obligation. intros p id id' s W. by apply names_inj. Qed.
Next Obligation. intros p id s s' W. by apply names_fun. Qed.
Next Obligation. intros p id s W H. by apply (names_empty p). Qed.

Lemma fresh_slot j : slot_table (slots fresh_pool) j = None.
Proof. exact (slot_table_empty 64 j). Qed.

Lemma fresh_pool_wf : pool_wf fresh_pool /\ len fresh_pool = 5.
Proof.
  split; [|done]. assert (Hp : slots_pow2 64) by by exists 6.
  assert (Hr : forall id, ~ registered fresh_pool id).
  { intros id (j & _ & Hk). by rewrite fresh_slot in Hk. }
  split; try done.
  - split; try done.
    + intros j k d _ Hk. by rewrite fresh_slot in Hk.
    + intros i j k _ _ Hk. by rewrite fresh_slot in Hk.
  - intros id H. by destruct (Hr id).
  - intros id id' s H. by destruct (Hr id).
Qed.

(** ** Reading back *)

Lemma c_string_app s b : ~ In x00 s -> c_string (s ++ x00 :: b) = s.
Proof.
  induction s as [|x s IH]; intros H; [done|]. simpl.
  destruct (Byte.eqb x x00) eqn:E; [apply byte_eqb_eq in E; exfalso; apply H; by left|].
  f_equal. apply IH. intros Hin. apply H. by right.
Qed.

Lemma pool_get_ok p id s : pool_wf p -> names p id s -> ~ In x00 s -> pool_get p id = s.
Proof.
  intros W [[-> ->]|(_ & Hr & Hb)] Hz; [done|]. unfold pool_get.
  rewrite (proj2 (N.eqb_neq id 0)) by by apply (registered_nonzero p).
  destruct Hb as (_ & pre & post & -> & <-).
  replace (N.to_nat (N.of_nat (length pre) + 4)) with (length pre + 4)%nat by lia.
  rewrite <- drop_drop, drop_app_length. unfold block. rewrite <- !app_assoc.
  change (drop 4 (le32 (N.of_nat (length s)) ++ s ++ [x00] ++ post)) with (s ++ x00 :: post).
  by apply c_string_app.
Qed.

Lemma pool_lookup_ok p s : pool_wf p -> N.of_nat (length s) < 2 ^ 32 ->
  exists id, pool_lookup p s = Ret id /\
    (forall id', names p id' s -> id' = id) /\ (id <> 0 -> names p id s).
Proof.
  intros W Hs. unfold pool_lookup. destruct (N.eqb_spec (N.of_nat (length s)) 0) as [H0|H0].
  { destruct s; [|simpl in H0; lia]. exists 0. split; [done|]. split; [|done].
    intros id' [[-> _]|(? & _)]; done. }
  assert (Hne : s <> []) by (by intros ->).
  pose proof (slots_pow2_ge _ (so_pow2 _ _ _ (pw_slots p W))).
  rewrite (proj2 (N.eqb_neq _ _)) by lia.
  destruct (find_slot_ok p s W Hne Hs) as (i & id & -> & Hid). cbn [obind].
  destruct (id =? POOL_EMPTY).
  - exists 0. split; [done|]. split; [|done]. destruct Hid as [Hab _].
    intros id' [[-> ?]|(_ & Hr & Hb)]; [done|]. by destruct (Hab id' Hr).
  - exists id. split; [done|]. destruct Hid as [Hr Hb].
    assert (Hn : names p id s) by (right; done).
    split; [|done]. intros id' Hn'. by apply (names_inj p _ _ s).
Qed.

(** ** Many strings *)

Fixpoint intern_all (p : StringPool) (ss : list (list byte)) : outcome (StringPool * list N) :=
  match ss with
  | [] => Ret (p, [])
  | s :: ss =>
      let! (p, id) := pool_intern_c p s in
      let! (p, ids) := intern_all p ss in Ret (p, id :: ids)
  end.

(** The bytes the blocks of [ss] take. *)
Definition block_bytes (ss : list (list byte)) : N :=
  foldr (fun s n => N.of_nat (length s) + 5 + n) 0 ss.

Lemma intern_all_ok ss p : pool_wf p -> len p + block_bytes ss < 2 ^ 32 ->
  exists p' ids, intern_all p ss = Ret (p', ids) /\ pool_wf p' /\ Forall2 (names p') ids ss /\
    (forall id s, names p id s -> names p' id s) /\
    (forall id s, names p' id s -> names p id s \/ In s ss).
Proof.
  revert p. induction ss as [|s ss IH]; intros p W Hs.
  - exists p, []. split; [done|]. split; [done|]. split; [constructor|]. split; [done|]. by left.
  - simpl in Hs. destruct (intern_ok p s W) as (p1 & id & E1 & [W1 N1 K1 B1] & L1); [lia|].
    destruct (IH p1 W1) as (p2 & ids & E2 & W2 & N2 & K2 & B2); [unfold block_bytes in *; lia|].
    exists p2, (id :: ids). cbn [intern_all]. rewrite E1. cbn [obind]. rewrite E2.
    split; [done|]. split; [done|]. split; [constructor; [by apply K2|done]|].
    split; [intros; by apply K2, K1|]. intros id' s' [H|H]%B2; [|right; by right].
    apply B1 in H as [?| ->]; [by left|right; by left].
Qed.

(** interning is canonical.  Any list of strings can be interned in turn into a
    fresh pool as long as their blocks fit [uint32_t] offsets; two of the ids are equal
    exactly when the strings are, the empty string's being 0; afterwards
    [pool_lookup] finds each id again without interning, answers 0 for a string that
    was not interned, and [pool_get] reads each string back, up to a NUL in it. *)
Theorem pool_intern_canonical (ss : list (list byte)) :
  5 + block_bytes ss < 2 ^ 32 ->
  exists p ids, intern_all fresh_pool ss = Ret (p, ids) /\ length ids = length ss /\
    (forall i j a b s t, ids !! i = Some a -> ids !! j = Some b ->
       ss !! i = Some s -> ss !! j = Some t -> (a = b <-> s = t) /\ (a = 0 <-> s = [])) /\
    (forall i a s, ids !! i = Some a -> ss !! i = Some s ->
       pool_lookup p s = Ret a /\ (~ In x00 s -> pool_get p a = s)) /\
    (forall s, N.of_nat (length s) < 2 ^ 32 -> ~ In s ss -> pool_lookup p s = Ret 0).
Proof.
  intros Hs. destruct fresh_pool_wf as [W Hl].
  destruct (intern_all_ok ss fresh_pool W) as (p & ids & E & Wp & Hn & _ & Hb); [lia|].
  exists p, ids. split; [done|]. split; [by eapply Forall2_length|].
  assert (Hnm : forall i a s, ids !! i = Some a -> ss !! i = Some s -> names p a s).
  { intros i a s Ha Hi. by apply (Forall2_lookup_lr _ _ _ _ _ _ Hn Ha Hi). }
  split; [|split].
  - intros i j a b s t Ha Hb' Hi Hj. pose proof (Hnm _ _ _ Ha Hi) as Na.
    pose proof (Hnm _ _ _ Hb' Hj) as Nb. split.
    + split; intros ->; [by apply (names_fun p b)|by apply (names_inj p a b t)].
    + assert (names p 0 []) by by left.
      split; intros ->; [by apply (names_fun p 0)|by apply (names_inj p a 0 [])].
  - intros i a s Ha Hi. pose proof (Hnm _ _ _ Ha Hi) as Na. split; [|by apply pool_get_ok].
    destruct (pool_lookup_ok p s Wp) as (id & -> & Hid & _); [|by rewrite (Hid a Na)].
    assert (N.of_nat (length s) <= block_bytes ss); [|lia]. apply list_elem_of_lookup_2 in Hi.
    clear - Hi. induction Hi; simpl; lia.
  - intros s Hs' Hin. destruct (pool_lookup_ok p s Wp Hs') as (id & -> & _ & Hid).
    destruct (N.eq_dec id 0) as [->|Hne]; [done|]. destruct (Hb id s (Hid Hne)) as [H|H]; [|done].
    destruct H as [[-> _]|(_ & (j & _ & Hk) & _)]; [done|].
    by rewrite fresh_slot in Hk.
Qed.

Definition sample_strings : list (list byte) :=
  [bs "pub"; bs "handler"; bs ""; bs "pub"; bs "x"].

Lemma pool_intern_canonical_witness :
  exists p ids, intern_all fresh_pool sample_strings = Ret (p, ids) /\ length ids = 5%nat /\
    pool_lookup p (bs "absent") = Ret 0.
Proof.
  destruct (pool_intern_canonical sample_strings) as (p & ids & E & Hl & _ & _ & Hab);
    [vm_compute; reflexivity|].
  exists p, ids. split; [exact E|]. split; [exact Hl|]. apply Hab; [vm_compute; reflexivity|].
  vm_compute. intuition discriminate.
Defined.

(** ** Reserving slots *)

Lemma reserve_target_ok f t need :
  slots_pow2 t -> need * 10 <= t * 2 ^ N.of_nat f * 7 ->
  exists t', reserve_target (S f) t need = Ret t' /\ slots_pow2 t' /\ need * 10 <= t' * 7.
Proof.
  revert t. induction f as [|f IH]; intros t Ht H; cbn [reserve_target].
  - rewrite (proj2 (N.ltb_ge _ _)) by (simpl in H; lia). exists t. split; [done|].
    split; [done|]. simpl in H. lia.
  - destruct (N.ltb_spec (t * 7) (need * 10)); [|by exists t].
    apply IH; [by apply slots_pow2_double|].
    replace (N.of_nat (S f)) with (1 + N.of_nat f) in H by lia.
    rewrite N.pow_add_r in H. change (2 ^ 1) with 2 in H. lia.
Qed.

(** [pool_reserve_slots] changes no id: the strings named before are named by the
    same ids, and the table has room for [n] more strings at the load limit, so none of
    the next [n] calls of [pool_intern] rehashes. *)
Theorem pool_reserve_slots_keeps_ids (p : StringPool) (n : N) :
  pool_wf p -> slot_used p + n < 2 ^ 60 ->
  exists p', pool_reserve_slots p n = Ret p' /\ pool_wf p' /\
    (forall id s, names p' id s <-> names p id s) /\
    10 * (slot_used p' + n) <= 7 * slot_count p'.
Proof.
  intros W Hn. unfold pool_reserve_slots.
  destruct (reserve_target_ok 63 16 (slot_used p + n)) as (t & -> & Ht & Hl); [by exists 4| |].
  { change (2 ^ N.of_nat 63) with (2 ^ 63). lia. }
  cbn [obind]. destruct (N.ltb_spec (slot_count p) t).
  - destruct (slots_resize_ok p t W Ht) as (p' & -> & W' & Hb & Hc & Hu & _ & Hr); [lia|].
    exists p'. split; [done|]. split; [done|]. split; [|lia].
    intros id s. unfold names. by rewrite Hr, Hb.
  - exists p. split; [done|]. split; [done|]. split; [done|]. lia.
Qed.

Lemma pool_reserve_slots_keeps_ids_witness :
  exists p', pool_reserve_slots fresh_pool 100 = Ret p' /\ 10 * (slot_used p' + 100) <= 7 * slot_count p'.
Proof.
  destruct (pool_reserve_slots_keeps_ids fresh_pool 100 (proj1 fresh_pool_wf)) as
    (p' & E & _ & _ & H); [vm_compute; reflexivity|].
  exists p'. split; [exact E|exact H].
Defined.

End StringPoolTheorems.
