(* ===== verification/HashMap.v ===== *)
(** * The hash map: [src/support/data_structure/hashmap.c]

    Three parallel columns of [capacity] slots: keys, values and a bitset of the
    occupied slots, packed in 64-bit words.  A pointer value is its address, NULL
    being 0; the map pointer itself is not NULL and allocation succeeds (the
    arena's and [calloc]'s memory is zeroed).  Each loop has a fuel of one turn per
    slot. *)

From S2P Require Import Prelude.

Module HashMap.

#[local] Open Scope N_scope.

Definition SIZE_MAX : N := 2 ^ 64 - 1.

Definition HASHMAP_MIN_CAPACITY : N := 16.
Definition HASHMAP_MAX_LOAD_NUMERATOR : N := 7.
Definition HASHMAP_MAX_LOAD_DENOMINATOR : N := 10.

Record HashMap := mkMap {
  keys : list N;
  values : list N;
  occupied : list N;
  count : N;
  capacity : N
}.

Definition hash_u64 (key : N) : N :=
  let key := N.lxor key (N.shiftr key 30) in
  let key := u64 (key * 13787848793156543929) in
  let key := N.lxor key (N.shiftr key 27) in
  let key := u64 (key * 10723151780598845931) in
  N.lxor key (N.shiftr key 31).

(** ** The bitset *)

Definition word_at (bits : list N) (w : N) : N := nth (N.to_nat w) bits 0.

Definition bit_get (bits : list N) (i : N) : bool :=
  N.testbit (word_at bits (N.shiftr i 6)) (N.land i 63).

Definition set_word (bits : list N) (w x : N) : list N := <[N.to_nat w := x]> bits.

Definition bit_set (bits : list N) (i : N) : list N :=
  let w := N.shiftr i 6 in
  set_word bits w (N.lor (word_at bits w) (N.shiftl 1 (N.land i 63))).

Definition bit_clear (bits : list N) (i : N) : list N :=
  let w := N.shiftr i 6 in
  set_word bits w (N.ldiff (word_at bits w) (N.shiftl 1 (N.land i 63))).

Definition occupied_words (capacity : N) : N := (capacity + 63) / 64.

(** ** Growth *)

(** [store_alloc]: a zeroed store. *)
Definition store_alloc (capacity : N) : HashMap :=
  mkMap (replicate (N.to_nat capacity) 0) (replicate (N.to_nat capacity) 0)
        (replicate (N.to_nat (occupied_words capacity)) 0) 0 capacity.

(** The doubling loop of [next_capacity]; 0 when it would overflow. *)
Fixpoint double_until (fuel : nat) (capacity min_capacity : N) : outcome N :=
  match fuel with
  | O => OutOfFuel
  | S f =>
      if capacity <? min_capacity then
        if SIZE_MAX / 2 <? capacity then Ret 0
        else double_until f (capacity * 2) min_capacity
      else Ret capacity
  end.

Definition next_capacity (current min_capacity : N) : outcome N :=
  if negb (current =? 0) && (SIZE_MAX / 2 <? current) then Ret 0
  else
    let capacity := if current =? 0 then HASHMAP_MIN_CAPACITY else current * 2 in
    let capacity := if capacity <? HASHMAP_MIN_CAPACITY then HASHMAP_MIN_CAPACITY
                    else capacity in
    double_until 65 capacity min_capacity.

Definition key_at (m : HashMap) (i : N) : N := nth (N.to_nat i) (keys m) 0.
Definition value_at (m : HashMap) (i : N) : N := nth (N.to_nat i) (values m) 0.

Definition mask (capacity : N) : N := capacity - 1.
Definition home_slot (capacity key : N) : N := N.land (hash_u64 key) (mask capacity).
Definition next_slot (capacity i : N) : N := N.land (i + 1) (mask capacity).

(** Write one slot and mark it. *)
Definition fill_slot (m : HashMap) (i key value : N) : HashMap :=
  mkMap (<[N.to_nat i := key]> (keys m)) (<[N.to_nat i := value]> (values m))
        (bit_set (occupied m) i) (count m) (capacity m).

(** [while (bit_get(st->occupied, index)) index = (index + 1) & mask]. *)
Fixpoint free_slot (fuel : nat) (m : HashMap) (i : N) : outcome N :=
  match fuel with
  | O => OutOfFuel
  | S f => if bit_get (occupied m) i then free_slot f m (next_slot (capacity m) i)
           else Ret i
  end.

Definition insert_existing (m : HashMap) (key value : N) : outcome HashMap :=
  let! i := free_slot (N.to_nat (capacity m)) m (home_slot (capacity m) key) in
  Ret (fill_slot m i key value).

(** The rehash loop over the slots [sl] of the old store [old]. *)
Fixpoint rehash (old : HashMap) (sl : list N) (ns : HashMap) : outcome HashMap :=
  match sl with
  | [] => Ret ns
  | i :: sl =>
      let! ns := if bit_get (occupied old) i
                 then insert_existing ns (key_at old i) (value_at old i) else Ret ns in
      rehash old sl ns
  end.

Definition slot_indices (m : HashMap) : list N := map N.of_nat (seq 0 (N.to_nat (capacity m))).

(** Whether it grew, and the map. *)
Definition hashmap_grow (m : HashMap) (min_capacity : N) : outcome (bool * HashMap) :=
  let! capacity' := next_capacity (capacity m) min_capacity in
  if capacity' =? 0 then Ret (false, m)
  else
    let! ns := rehash m (slot_indices m) (store_alloc capacity') in
    Ret (true, mkMap (keys ns) (values ns) (occupied ns) (count m) capacity').

Definition hashmap_needs_grow (m : HashMap) : bool :=
  if capacity m =? 0 then true
  else if count m =? SIZE_MAX then true
  else
    let max_count :=
      capacity m / HASHMAP_MAX_LOAD_DENOMINATOR * HASHMAP_MAX_LOAD_NUMERATOR +
      capacity m mod HASHMAP_MAX_LOAD_DENOMINATOR * HASHMAP_MAX_LOAD_NUMERATOR /
        HASHMAP_MAX_LOAD_DENOMINATOR in
    max_count <? count m + 1.

Definition hashmap_init : HashMap := mkMap [] [] [] 0 0.

(** ** Lookup and insertion *)

(** The probe: the slot where it stops, and whether it holds the key. *)
Fixpoint find_key (fuel : nat) (m : HashMap) (key i : N) : outcome (N * bool) :=
  match fuel with
  | O => OutOfFuel
  | S f =>
      if bit_get (occupied m) i then
        if key_at m i =? key then Ret (i, true)
        else find_key f m key (next_slot (capacity m) i)
      else Ret (i, false)
  end.

Definition locate (m : HashMap) (key : N) : outcome (N * bool) :=
  find_key (N.to_nat (capacity m)) m key (home_slot (capacity m) key).

Definition with_count (n : N) (m : HashMap) : HashMap :=
  mkMap (keys m) (values m) (occupied m) n (capacity m).

Definition hashmap_put (m : HashMap) (key value : N) : outcome (bool * HashMap) :=
  let! (ok, m) :=
    if hashmap_needs_grow m then
      if capacity m =? SIZE_MAX then Ret (false, m) else hashmap_grow m (capacity m + 1)
    else Ret (true, m) in
  if negb ok then Ret (false, m)
  else
    let! (i, found) := locate m key in
    if found : bool then
      Ret (true, mkMap (keys m) (<[N.to_nat i := value]> (values m)) (occupied m)
                       (count m) (capacity m))
    else Ret (true, with_count (count m + 1) (fill_slot m i key value)).

Definition hashmap_put_or_die (m : HashMap) (key value : N) : outcome HashMap :=
  let! (ok, m) := hashmap_put m key value in
  let! _ := oassert ok "fatal: hashmap insert failed" in Ret m.

Definition hashmap_get (m : HashMap) (key : N) : outcome N :=
  if capacity m =? 0 then Ret 0
  else
    let! (i, found) := locate m key in
    Ret (if found : bool then value_at m i else 0).

Definition hashmap_contains (m : HashMap) (key : N) : outcome bool :=
  if capacity m =? 0 then Ret false
  else let! (_, found) := locate m key in Ret found.

Definition hashmap_clear (m : HashMap) : HashMap :=
  mkMap (keys m) (values m) (map (fun _ => 0) (occupied m)) 0 (capacity m).

(** ** Removal *)

Definition clear_slot (m : HashMap) (i : N) : HashMap :=
  mkMap (<[N.to_nat i := 0]> (keys m)) (<[N.to_nat i := 0]> (values m))
        (bit_clear (occupied m) i) (count m) (capacity m).

(** The key at [j] may move to the hole [i]. *)
Definition should_move (m : HashMap) (i j : N) : bool :=
  let r := home_slot (capacity m) (key_at m j) in
  if i <? j then (r <=? i) || (j <? r) else (r <=? i) && (j <? r).

(** The inner loop: the next movable slot after [j], if one comes before an empty
    slot. *)
Fixpoint find_movable (fuel : nat) (m : HashMap) (i j : N) : outcome (option N) :=
  match fuel with
  | O => OutOfFuel
  | S f =>
      let j := next_slot (capacity m) j in
      if negb (bit_get (occupied m) j) then Ret None
      else if should_move m i j then Ret (Some j)
      else find_movable f m i j
  end.

(** The outer loop: open a hole at [i], then fill it. *)
Fixpoint backward_shift (fuel : nat) (m : HashMap) (i : N) : outcome HashMap :=
  match fuel with
  | O => OutOfFuel
  | S f =>
      let m := clear_slot m i in
      let! o := find_movable (N.to_nat (capacity m)) m i i in
      match o with
      | None => Ret (with_count (count m - 1) m)
      | Some j => backward_shift f (fill_slot m i (key_at m j) (value_at m j)) j
      end
  end.

Definition hashmap_remove (m : HashMap) (key : N) : outcome (bool * HashMap) :=
  if capacity m =? 0 then Ret (false, m)
  else
    let! (i, found) := locate m key in
    if negb found then Ret (false, m)
    else
      let! m := backward_shift (N.to_nat (capacity m)) m i in
      Ret (true, m).

(** ** Iteration *)

(** The visitor threads a state and says whether to go on. *)
Fixpoint foreach_slots {S} (m : HashMap) (visit : N -> N -> S -> bool * S) (sl : list N)
    (st : S) : S :=
  match sl with
  | [] => st
  | i :: sl =>
      if negb (bit_get (occupied m) i) then foreach_slots m visit sl st
      else
        let '(go, st) := visit (key_at m i) (value_at m i) st in
        if go then foreach_slots m visit sl st else st
  end.

Definition hashmap_foreach {S} (m : HashMap) (visit : N -> N -> S -> bool * S) (st : S) : S :=
  foreach_slots m visit (slot_indices m) st.

Definition hashmap_is_initialized (m : HashMap) : bool := negb (capacity m =? 0).

End HashMap.
