(* ===== verification/HashMapTheorems.v ===== *)
(** * The hash map implements a finite map

    [represents m g] ([HashMapFacts.v]): the table [m] is well formed and its
    entries are those of the finite map [g].  Every operation of
    [src/support/data_structure/hashmap.c] is followed by the operation of the same
    name on [gmap].  The bound [2 ^ 58] on the capacity keeps the byte count that
    [store_alloc] computes below 2^64. *)

From stdpp Require Import gmap.
From S2P Require Import Prelude HashMap Probe.

(** ** The hash map refines a finite map

    The table of a store, the invariant of the map (every key reachable from its
    home slot, no key twice, the count exact, the load at most seven tenths) and
    the relation [represents] to a finite map; every operation preserves the
    invariant, returns, and is the finite map's operation. *)

Import HashMap Probe.

Module HashMapFacts.

#[local] Open Scope N_scope.

(** ** The bitset *)

Lemma word_set bits w x w' :
  w < N.of_nat (length bits) ->
  word_at (set_word bits w x) w' = if w' =? w then x else word_at bits w'.
Proof.
  intros Hw. unfold word_at, set_word. rewrite !nth_lookup.
  destruct (w' =? w) eqn:E.
  - apply N.eqb_eq in E. subst w'. by rewrite list_lookup_insert_eq by lia.
  - apply N.eqb_neq in E. rewrite list_lookup_insert_ne; [done|lia].
Qed.

(** A bit index is a word index and a bit of the word. *)
Lemma bit_index_eq i j :
  (N.shiftr j 6 =? N.shiftr i 6) && (N.land j 63 =? N.land i 63) = (j =? i).
Proof.
  change 63 with (N.ones 6). rewrite !N.land_ones, !N.shiftr_div_pow2.
  change (2 ^ 6) with 64.
  pose proof (N.div_mod i 64). pose proof (N.div_mod j 64).
  destruct (j =? i) eqn:E.
  - apply N.eqb_eq in E. subst. by rewrite !N.eqb_refl.
  - apply N.eqb_neq in E. apply andb_false_iff.
    destruct (N.eq_dec (j / 64) (i / 64)) as [H1|H1]; [right|left]; apply N.eqb_neq; lia.
Qed.

Lemma bit_get_set bits i j :
  N.shiftr i 6 < N.of_nat (length bits) ->
  bit_get (bit_set bits i) j = (j =? i) || bit_get bits j.
Proof.
  intros Hi. unfold bit_get, bit_set. rewrite word_set by done. rewrite <- (bit_index_eq i j).
  destruct (N.shiftr j 6 =? N.shiftr i 6) eqn:E; [|done].
  apply N.eqb_eq in E. rewrite E, N.lor_spec, N.shiftl_1_l, N.pow2_bits_eqb, orb_comm.
  by rewrite (N.eqb_sym (N.land i 63)).
Qed.

Lemma bit_get_clear bits i j :
  N.shiftr i 6 < N.of_nat (length bits) ->
  bit_get (bit_clear bits i) j = negb (j =? i) && bit_get bits j.
Proof.
  intros Hi. unfold bit_get, bit_clear. rewrite word_set by done. rewrite <- (bit_index_eq i j).
  destruct (N.shiftr j 6 =? N.shiftr i 6) eqn:E; [|done].
  apply N.eqb_eq in E. rewrite E, N.ldiff_spec, N.shiftl_1_l, N.pow2_bits_eqb, andb_comm.
  by rewrite (N.eqb_sym (N.land i 63)).
Qed.

(** ** Stores *)

Definition table_of (m : HashMap) : table := fun i =>
  if (i <? capacity m) && bit_get (occupied m) i then Some (key_at m i) else None.

(** A store of a power of two of slots. *)
Record store_ok (m : HashMap) : Prop := {
  st_cap : exists e, 4 <= e <= 63 /\ capacity m = 2 ^ e;
  st_keys : length (keys m) = N.to_nat (capacity m);
  st_values : length (values m) = N.to_nat (capacity m);
  st_words : length (occupied m) = N.to_nat (occupied_words (capacity m))
}.

Lemma store_cap m : store_ok m -> 16 <= capacity m /\ capacity m <= 2 ^ 63.
Proof.
  intros [(e & He & ->) _ _ _]. split.
  - change 16 with (2 ^ 4). apply N.pow_le_mono_r; lia.
  - apply N.pow_le_mono_r; lia.
Qed.

Lemma store_word m i :
  store_ok m -> i < capacity m -> N.shiftr i 6 < N.of_nat (length (occupied m)).
Proof.
  intros Hs Hi. rewrite (st_words m Hs), N2Nat.id. unfold occupied_words.
  rewrite N.shiftr_div_pow2. change (2 ^ 6) with 64.
  apply N.Div0.div_lt_upper_bound.
  pose proof (N.div_mod (capacity m + 63) 64). pose proof (N.mod_lt (capacity m + 63) 64). lia.
Qed.

Lemma home_slot_lt m k : store_ok m -> home_slot (capacity m) k < capacity m.
Proof.
  intros [(e & He & ->) _ _ _]. unfold home_slot, mask.
  rewrite <- N.pred_sub, <- N.ones_equiv, N.land_ones. apply N.mod_lt.
  by apply N.pow_nonzero.
Qed.

Lemma next_slot_step m i :
  store_ok m -> i < capacity m -> next_slot (capacity m) i = step (capacity m) i 1.
Proof.
  intros [(e & He & Hc) _ _ _] Hi. unfold next_slot, mask, step.
  rewrite Hc in *. rewrite <- N.pred_sub, <- N.ones_equiv, N.land_ones.
  destruct (N.ltb_spec (i + 1) (2 ^ e)) as [H|H].
  - by apply N.mod_small.
  - replace (i + 1) with (2 ^ e) by lia. rewrite N.Div0.mod_same. lia.
Qed.

Lemma table_of_lt m i k : table_of m i = Some k -> i < capacity m.
Proof. unfold table_of. destruct (N.ltb_spec i (capacity m)); by simpl. Qed.

Lemma nth_insert (l : list N) i j x :
  (i < length l)%nat -> nth j (<[i := x]> l) 0 = if (j =? i)%nat then x else nth j l 0.
Proof.
  intros Hi. rewrite !nth_lookup. destruct (j =? i)%nat eqn:E.
  - apply Nat.eqb_eq in E. subst. by rewrite list_lookup_insert_eq by lia.
  - apply Nat.eqb_neq in E. by rewrite list_lookup_insert_ne by lia.
Qed.

Lemma to_nat_eqb i j : (N.to_nat i =? N.to_nat j)%nat = (i =? j).
Proof.
  destruct (i =? j) eqn:E.
  - apply N.eqb_eq in E. subst. apply Nat.eqb_refl.
  - apply N.eqb_neq in E. apply Nat.eqb_neq. lia.
Qed.

(** Writing a slot writes the table and the value. *)
Lemma fill_slot_store m i k v : store_ok m -> store_ok (fill_slot m i k v).
Proof.
  intros [H1 H2 H3 H4]. split; simpl; rewrite ?length_insert; try done.
  unfold bit_set, set_word. by rewrite length_insert.
Qed.

Lemma clear_slot_store m i : store_ok m -> store_ok (clear_slot m i).
Proof.
  intros [H1 H2 H3 H4]. split; simpl; rewrite ?length_insert; try done.
  unfold bit_clear, set_word. by rewrite length_insert.
Qed.

Lemma fill_slot_table m i k v :
  store_ok m -> i < capacity m ->
  pointwise_relation N eq (table_of (fill_slot m i k v)) (upd (table_of m) i (Some k)).
Proof.
  intros Hs Hi j. unfold table_of, upd, key_at, fill_slot. cbn [capacity occupied keys].
  rewrite bit_get_set by by apply store_word.
  rewrite nth_insert by (rewrite (st_keys m Hs); lia). rewrite to_nat_eqb.
  destruct (j =? i) eqn:E; simpl; [|done]. apply N.eqb_eq in E. subst j.
  by rewrite (proj2 (N.ltb_lt _ _) Hi).
Qed.

Lemma clear_slot_table m i :
  store_ok m -> i < capacity m ->
  pointwise_relation N eq (table_of (clear_slot m i)) (upd (table_of m) i None).
Proof.
  intros Hs Hi j. unfold table_of, upd, key_at, clear_slot. cbn [capacity occupied keys].
  rewrite bit_get_clear by by apply store_word.
  rewrite nth_insert by (rewrite (st_keys m Hs); lia). rewrite to_nat_eqb.
  destruct (j =? i) eqn:E; simpl; [|done]. by rewrite andb_false_r.
Qed.

Lemma fill_slot_value m i k v j :
  store_ok m -> i < capacity m ->
  value_at (fill_slot m i k v) j = if j =? i then v else value_at m j.
Proof.
  intros Hs Hi. unfold value_at, fill_slot. cbn [values].
  rewrite nth_insert by (rewrite (st_values m Hs); lia). by rewrite to_nat_eqb.
Qed.

Lemma clear_slot_value m i j :
  store_ok m -> i < capacity m -> j <> i -> value_at (clear_slot m i) j = value_at m j.
Proof.
  intros Hs Hi Hj. unfold value_at, clear_slot. cbn [values].
  rewrite nth_insert by (rewrite (st_values m Hs); lia). rewrite to_nat_eqb.
  by rewrite (proj2 (N.eqb_neq _ _) Hj).
Qed.

(** ** The loops are the generic probe *)

Definition home (m : HashMap) (k : N) : N := home_slot (capacity m) k.

Lemma table_of_slot m i : i < capacity m ->
  table_of m i = if bit_get (occupied m) i then Some (key_at m i) else None.
Proof. intros Hi. unfold table_of. by rewrite (proj2 (N.ltb_lt _ _) Hi). Qed.

Lemma next_lt m i : store_ok m -> i < capacity m -> step (capacity m) i 1 < capacity m.
Proof. intros Hs Hi. pose proof (store_cap m Hs). apply step_lt; lia. Qed.

Lemma find_key_probe m k f i : store_ok m -> i < capacity m ->
  find_key f m k i =
    match probe (capacity m) f (table_of m) (fun k' => k' =? k) i with
    | None => OutOfFuel
    | Some (j, Some _) => Ret (j, true)
    | Some (j, None) => Ret (j, false)
    end.
Proof.
  intros Hs. revert i. induction f as [|f IH]; intros i Hi; [done|]. simpl.
  rewrite table_of_slot by done. destruct (bit_get (occupied m) i); [|done].
  destruct (key_at m i =? k); [done|]. rewrite next_slot_step by done.
  apply IH. by apply next_lt.
Qed.

Lemma free_slot_probe m f i : store_ok m -> i < capacity m ->
  free_slot f m i =
    match probe (capacity m) f (table_of m) (fun _ => false) i with
    | None => OutOfFuel
    | Some (j, _) => Ret j
    end.
Proof.
  intros Hs. revert i. induction f as [|f IH]; intros i Hi; [done|]. simpl.
  rewrite table_of_slot by done. destruct (bit_get (occupied m) i); [|done].
  rewrite next_slot_step by done. apply IH. by apply next_lt.
Qed.

(** ** The invariant *)

Definition loaded (m : HashMap) : nat := load (capacity m) (table_of m).

Record chains_ok (m : HashMap) : Prop := {
  ch_store : store_ok m;
  ch_chained : chained (capacity m) (home m) (table_of m);
  ch_unique : unique (capacity m) (table_of m)
}.

(** The slot, if any, that holds a key, and its value. *)
Definition entry (m : HashMap) (k v : N) : Prop :=
  exists i, i < capacity m /\ table_of m i = Some k /\ value_at m i = v.

Definition map_ok (m : HashMap) : Prop :=
  (m = mkMap [] [] [] 0 0) \/
  (chains_ok m /\ count m = N.of_nat (loaded m) /\ 10 * count m <= 7 * capacity m).

Definition represents (m : HashMap) (g : gmap N N) : Prop :=
  map_ok m /\ forall k v, g !! k = Some v <-> entry m k v.

Lemma loaded_room m : chains_ok m -> N.of_nat (loaded m) < capacity m ->
  has_room (capacity m) (table_of m).
Proof. intros _ H. apply load_room; unfold loaded in H; lia. Qed.

Lemma home_lt m k : store_ok m -> home m k < capacity m.
Proof. apply home_slot_lt. Qed.

Lemma entry_functional m k v v' : chains_ok m -> entry m k v -> entry m k v' -> v = v'.
Proof.
  intros C (i & Hi & Hk & <-) (j & Hj & Hk' & <-). f_equal.
  by apply (ch_unique m C i j k).
Qed.

Lemma holds_entry m k : holds (capacity m) (table_of m) k <-> exists v, entry m k v.
Proof.
  split.
  - intros (i & Hi & Hk). by exists (value_at m i), i.
  - intros (v & i & Hi & Hk & _). by exists i.
Qed.

(** Filling the empty slot where the probe of an absent key stopped. *)
Lemma fill_chains m test k v d :
  chains_ok m -> stopped (capacity m) (table_of m) test (home m k) d None ->
  ~ holds (capacity m) (table_of m) k ->
  let m' := fill_slot m (step (capacity m) (home m k) d) k v in
  chains_ok m' /\ loaded m' = S (loaded m) /\
  forall k' v', entry m' k' v' <-> (k' = k /\ v' = v) \/ entry m k' v'.
Proof.
  intros [Hs Hc Hu] Hst Hab. set (i := step (capacity m) (home m k) d).
  pose proof (home_lt m k Hs) as Hh. pose proof (store_cap m Hs) as Hcap.
  assert (Hi : i < capacity m) by (destruct Hst; apply step_lt; lia).
  assert (Hn : table_of m i = None) by (by destruct Hst as (_ & ? & _)).
  pose proof (fill_slot_table m i k v Hs Hi) as Ht. intros m'. fold m' in Ht.
  assert (Hm : 0 < capacity m) by lia.
  split; [split|split].
  - by apply fill_slot_store.
  - rewrite Ht. change (capacity m') with (capacity m). change (home m') with (home m).
    by eapply (chained_insert (capacity m) (home m) Hm (fun k => home_lt m k Hs)).
  - rewrite Ht. by apply unique_insert.
  - unfold loaded. rewrite Ht. by apply load_insert.
  - intros k' v'. unfold entry. change (capacity m') with (capacity m). split.
    + intros (j & Hj & Hk & Hv). rewrite (Ht j) in Hk. unfold m' in Hv.
      rewrite fill_slot_value in Hv by done. unfold upd in Hk.
      destruct (j =? i); [left; split; congruence|right; by exists j].
    + intros [[-> ->]|(j & Hj & Hk & Hv)].
      * exists i. rewrite (Ht i), upd_eq. unfold m'. rewrite fill_slot_value by done.
        by rewrite N.eqb_refl.
      * exists j. assert (j <> i) by congruence. rewrite (Ht j), upd_ne by done.
        unfold m'. rewrite fill_slot_value by done. by rewrite (proj2 (N.eqb_neq _ _)).
Qed.

(** ** Looking a key up *)

Lemma locate_spec m k : chains_ok m -> N.of_nat (loaded m) < capacity m ->
  exists i found, locate m k = Ret (i, found) /\ i < capacity m /\
    if found : bool then table_of m i = Some k
    else ~ holds (capacity m) (table_of m) k /\
      exists d, i = step (capacity m) (home m k) d /\
        stopped (capacity m) (table_of m) (fun k' => k' =? k) (home m k) d None.
Proof.
  intros C Hl. pose proof (ch_store m C) as Hs. pose proof (store_cap m Hs) as Hcap.
  assert (Hm : 0 < capacity m) by lia. pose proof (home_lt m k Hs) as Hh.
  destruct (probe_stops (capacity m) Hm (table_of m) (fun k' => k' =? k) (home m k) Hh
              (loaded_room m C Hl)) as (d & r & Hp & Hst).
  assert (Hi : step (capacity m) (home m k) d < capacity m).
  { destruct Hst. apply step_lt; lia. }
  unfold locate. rewrite (find_key_probe m k _ _ Hs Hh). fold (home m k). rewrite Hp.
  destruct r as [k'|].
  - eexists _, true. split; [reflexivity|]. split; [done|].
    destruct Hst as (_ & -> & Ht & _). apply N.eqb_eq in Ht. by rewrite Ht.
  - eexists _, false. split; [reflexivity|]. split; [done|]. split; [|by exists d].
    eapply (stopped_absent (capacity m) (home m) Hm (fun k => home_lt m k Hs));
      [by apply C|exact Hst|done|]. apply N.eqb_refl.
Qed.

(** A map that is not full. *)
Lemma map_ok_room m : map_ok m -> capacity m <> 0 ->
  chains_ok m /\ N.of_nat (loaded m) < capacity m.
Proof.
  intros [->|(C & Hc & Hl)] H; [done|]. split; [done|]. rewrite <- Hc.
  pose proof (store_cap m (ch_store m C)). lia.
Qed.

(** ** Growing *)

Lemma word_at_zeros n w : word_at (replicate n 0) w = 0.
Proof.
  unfold word_at. rewrite nth_lookup. destruct (replicate n 0 !! N.to_nat w) eqn:E; [|done].
  by apply lookup_replicate in E as [-> _].
Qed.

Lemma bit_get_zeros n i : bit_get (replicate n 0) i = false.
Proof. unfold bit_get. by rewrite word_at_zeros, N.bits_0. Qed.

Lemma store_alloc_table c : pointwise_relation N eq (table_of (store_alloc c)) (fun _ => None).
Proof. intros i. unfold table_of. simpl. by rewrite bit_get_zeros, andb_false_r. Qed.

Lemma store_alloc_ok e : 4 <= e <= 63 ->
  chains_ok (store_alloc (2 ^ e)) /\ loaded (store_alloc (2 ^ e)) = 0%nat /\
  forall k v, ~ entry (store_alloc (2 ^ e)) k v.
Proof.
  intros He. split; [split|split].
  - split; simpl; rewrite ?length_replicate; try done. by exists e.
  - rewrite store_alloc_table. by intros j k d _ [=].
  - rewrite store_alloc_table. by intros i j k _ _ [=].
  - unfold loaded. rewrite store_alloc_table. apply load_empty.
  - intros k v (i & _ & Hk & _). by rewrite store_alloc_table in Hk.
Qed.

Lemma insert_existing_ok ns k v :
  chains_ok ns -> N.of_nat (loaded ns) < capacity ns ->
  ~ holds (capacity ns) (table_of ns) k ->
  exists ns', insert_existing ns k v = Ret ns' /\ chains_ok ns' /\
    capacity ns' = capacity ns /\ loaded ns' = S (loaded ns) /\
    forall k' v', entry ns' k' v' <-> (k' = k /\ v' = v) \/ entry ns k' v'.
Proof.
  intros C Hl Hab. pose proof (ch_store ns C) as Hs. pose proof (store_cap ns Hs) as Hcap.
  pose proof (home_lt ns k Hs) as Hh.
  destruct (probe_stops (capacity ns) ltac:(lia) (table_of ns) (fun _ => false) (home ns k) Hh
              (loaded_room ns C Hl)) as (d & r & Hp & Hst).
  destruct r as [k'|]; [by destruct Hst as (_ & _ & ? & _)|].
  unfold insert_existing. rewrite (free_slot_probe ns _ _ Hs Hh). fold (home ns k).
  rewrite Hp. cbn [obind]. eexists. split; [reflexivity|].
  destruct (fill_chains ns _ k v d C Hst Hab) as (H1 & H2 & H3). done.
Qed.

(** The slots of a list that are taken. *)
Definition taken_in (m : HashMap) (l : list N) : nat :=
  length (List.filter (taken (table_of m)) l).

Lemma rehash_ok old l dn ns :
  unique (capacity old) (table_of old) -> List.NoDup (dn ++ l) ->
  Forall (fun i => i < capacity old) (dn ++ l) -> chains_ok ns ->
  N.of_nat (loaded ns + taken_in old l) < capacity ns ->
  (forall k v, entry ns k v <-> exists i, In i dn /\ table_of old i = Some k /\ value_at old i = v) ->
  exists ns', rehash old l ns = Ret ns' /\ chains_ok ns' /\ capacity ns' = capacity ns /\
    loaded ns' = (loaded ns + taken_in old l)%nat /\
    forall k v, entry ns' k v <->
      exists i, In i (dn ++ l) /\ table_of old i = Some k /\ value_at old i = v.
Proof.
  intros Hu. revert dn ns. induction l as [|i l IH]; intros dn ns Hnd Hlt C Hl He; simpl.
  - exists ns. split; [done|]. split; [done|]. split; [done|]. rewrite app_nil_r.
    split; [unfold taken_in; simpl; lia|exact He].
  - assert (Hi : i < capacity old).
    { rewrite List.Forall_forall in Hlt. apply Hlt, in_or_app. right. by left. }
    replace (dn ++ i :: l) with ((dn ++ [i]) ++ l) in * by by rewrite <- app_assoc.
    pose proof (table_of_slot old i Hi) as Ht. unfold taken_in in Hl. simpl in Hl.
    unfold taken at 1 in Hl. destruct (bit_get (occupied old) i) eqn:Hb.
    + rewrite Ht in Hl. simpl in Hl.
      destruct (insert_existing_ok ns (key_at old i) (value_at old i) C) as
        (ns1 & -> & C1 & Hc1 & Hl1 & He1); [lia| |].
      { intros (v & Hv)%holds_entry. apply He in Hv as (j & Hj & Hk & _).
        assert (j = i).
        { apply (Hu j i (key_at old i)); try done. by eapply table_of_lt. }
        subst j. rewrite <- app_assoc in Hnd. simpl in Hnd. apply List.NoDup_remove_2 in Hnd.
        apply Hnd, in_or_app. by left. }
      cbn [obind]. destruct (IH (dn ++ [i]) ns1 Hnd Hlt C1) as (ns' & E & C' & Hc' & Hl' & He').
      { unfold taken_in. rewrite Hc1. lia. }
      { intros k v. rewrite He1, He. split.
        - intros [[-> ->]|(j & Hj & Hk & Hv)].
          + exists i. split; [apply in_or_app; right; by left|]. by rewrite Ht.
          + exists j. split; [apply in_or_app; by left|done].
        - intros (j & Hj & Hk & Hv). apply in_app_or in Hj as [Hj|[<-|[]]].
          + right. by exists j.
          + left. rewrite Ht in Hk. split; congruence. }
      exists ns'. split; [done|]. split; [done|]. split; [congruence|].
      split; [|exact He']. unfold taken_in in *. simpl. unfold taken at 1. rewrite Ht. simpl. lia.
    + rewrite Ht in Hl. cbn [obind].
      destruct (IH (dn ++ [i]) ns Hnd Hlt C) as (ns' & E & C' & Hc' & Hl' & He').
      { unfold taken_in. lia. }
      { intros k v. rewrite He. split; intros (j & Hj & Hk & Hv).
        - exists j. split; [apply in_or_app; by left|done].
        - apply in_app_or in Hj as [Hj|[<-|[]]]; [by exists j|]. congruence. }
      exists ns'. split; [done|]. split; [done|]. split; [done|].
      split; [|exact He']. unfold taken_in in *. simpl. unfold taken at 1. by rewrite Ht.
Qed.

Lemma next_capacity_small c :
  c = 0 \/ (16 <= c < 2 ^ 63) ->
  next_capacity c (c + 1) = Ret (if c =? 0 then 16 else c * 2).
Proof.
  unfold next_capacity, SIZE_MAX, HASHMAP_MIN_CAPACITY. intros [->|H]; [done|].
  rewrite (proj2 (N.eqb_neq c 0)) by lia.
  rewrite (proj2 (N.ltb_ge _ c)) by (change ((2 ^ 64 - 1) / 2) with (2 ^ 63 - 1); lia).
  cbn [negb andb]. rewrite (proj2 (N.ltb_ge (c * 2) 16)) by lia.
  cbn [double_until]. by rewrite (proj2 (N.ltb_ge (c * 2) (c + 1))) by lia.
Qed.

Lemma slot_indices_spec m :
  List.NoDup (slot_indices m) /\ (forall i, In i (slot_indices m) <-> i < capacity m) /\
  taken_in m (slot_indices m) = loaded m.
Proof. split; [apply all_slots_nodup|]. split; [apply all_slots_spec|done]. Qed.

(** Growing keeps the entries and at least doubles the room. *)
Lemma grow_ok m : map_ok m -> capacity m < 2 ^ 63 ->
  exists m', hashmap_grow m (capacity m + 1) = Ret (true, m') /\ chains_ok m' /\
    count m' = count m /\ count m' = N.of_nat (loaded m') /\
    10 * (count m' + 1) <= 7 * capacity m' /\ forall k v, entry m' k v <-> entry m k v.
Proof.
  intros Hok Hc.
  assert (Hu : unique (capacity m) (table_of m)).
  { destruct Hok as [->|(C & _)]; [|by apply C]. by intros i j k Hi%N.nlt_0_r. }
  assert (He : exists e, 4 <= e <= 63 /\ (if capacity m =? 0 then 16 else capacity m * 2) = 2 ^ e /\
    10 * (count m + 1) <= 7 * 2 ^ e).
  { destruct Hok as [->|(C & Hn & Hl)]; [exists 4; simpl; lia|].
    destruct (st_cap m (ch_store m C)) as (e & He & Hce).
    pose proof (store_cap m (ch_store m C)).
    assert (e < 63) by (apply (N.pow_lt_mono_r_iff 2); lia).
    exists (e + 1). rewrite (proj2 (N.eqb_neq _ 0)) by lia.
    rewrite N.pow_add_r. change (2 ^ 1) with 2. rewrite <- Hce. split; [lia|]. split; [done|]. lia. }
  destruct He as (e & He & Hce & Hload).
  unfold hashmap_grow. rewrite next_capacity_small.
  2: { destruct Hok as [->|(C & _)]; [by left|]. pose proof (store_cap m (ch_store m C)).
       right. lia. }
  cbn [obind]. rewrite Hce. rewrite (proj2 (N.eqb_neq (2 ^ e) 0)) by (apply N.pow_nonzero; lia).
  destruct (store_alloc_ok e He) as (C0 & L0 & E0).
  destruct (slot_indices_spec m) as (Hnd & Hin & Htk).
  assert (Hcount : count m = N.of_nat (loaded m)) by (destruct Hok as [->|(_ & ? & _)]; done).
  destruct (rehash_ok m (slot_indices m) [] (store_alloc (2 ^ e))) as
    (ns & -> & C' & Hc' & Hl' & He'); try done.
  - apply List.Forall_forall. intros i Hi. by apply Hin.
  - rewrite L0, Htk. simpl. lia.
  - intros k v. split; [by intros ?%E0|]. by intros (i & [] & _).
  - cbn [obind]. eexists. split; [reflexivity|]. simpl in Hc'. rewrite L0, Htk in Hl'.
    set (m' := mkMap (keys ns) (values ns) (occupied ns) (count m) (2 ^ e)).
    assert (Hm : m' = with_count (count m) ns) by (unfold m', with_count; by rewrite Hc').
    assert (HT : table_of m' = table_of ns) by (by rewrite Hm).
    assert (HE : forall k v, entry m' k v <-> entry ns k v) by (intros; by rewrite Hm).
    split; [|split; [done|split; [|split; [done|]]]].
    + rewrite Hm. destruct C' as [[S1 S2 S3 S4] ? ?]. split; [by split|done|done].
    + unfold loaded. rewrite HT. change (capacity m') with (2 ^ e). rewrite <- Hc'.
      fold (loaded ns). rewrite Hl'. done.
    + intros k v. rewrite HE, He'. split.
      * intros (i & Hi & Hk & Hv). apply Hin in Hi. by exists i.
      * intros (i & Hi & Hk & Hv). exists i. split; [by apply Hin|done].
Qed.

(** ** Removing *)

Lemma table_key m i k : table_of m i = Some k -> key_at m i = k.
Proof. unfold table_of. destruct (_ && _); congruence. Qed.

(** The scan from the hole stops at a key that may move into it, or at an empty slot
    with nothing movable before. *)
Lemma find_movable_spec m i e f c :
  store_ok m -> i < capacity m -> table_of m i = None ->
  0 < e < capacity m -> table_of m (step (capacity m) i e) = None ->
  c < e -> settled (capacity m) (home m) (table_of m) i (c + 1) ->
  (N.to_nat (e - c) <= f)%nat ->
  exists o, find_movable f m i (step (capacity m) i c) = Ret o /\
    match o with
    | None => exists c', 0 < c' <= e /\ table_of m (step (capacity m) i c') = None /\
                settled (capacity m) (home m) (table_of m) i c'
    | Some j => exists c' k, 0 < c' < e /\ j = step (capacity m) i c' /\
                  table_of m j = Some k /\ on_path (capacity m) (home m k) i j = true
    end.
Proof.
  intros Hs Hi Hn He Hne. revert c. induction f as [|f IH]; intros c Hc Hset Hf; [lia|].
  simpl. assert (Hm : 0 < capacity m) by lia.
  rewrite next_slot_step by (try done; apply step_lt; lia).
  rewrite step_step by lia.
  assert (Hj : step (capacity m) i (c + 1) < capacity m) by (apply step_lt; lia).
  pose proof (table_of_slot m _ Hj) as Ht.
  destruct (bit_get (occupied m) (step (capacity m) i (c + 1))) eqn:Hb; cbn [negb].
  - assert (Hce : c + 1 <> e) by congruence. unfold should_move. fold (home m (key_at m (step (capacity m) i (c + 1)))).
    rewrite (should_move_path (capacity m) Hm); try done; [|by apply home_lt|].
    2: { intros Hx. assert (c + 1 = 0); [|lia].
         apply (step_inj (capacity m) Hm i); try lia. by rewrite step_0. }
    destruct (on_path _ _ _ _) eqn:Ho.
    + eexists. split; [reflexivity|]. exists (c + 1), (key_at m (step (capacity m) i (c + 1))).
      split; [lia|]. done.
    + apply IH; [lia| |lia]. intros d Hd. destruct (N.eq_dec d (c + 1)) as [->|].
      * exists (key_at m (step (capacity m) i (c + 1))). done.
      * apply Hset. lia.
  - exists None. split; [done|]. exists (c + 1). split; [lia|]. split; [done|exact Hset].
Qed.

(** Before the slot [i] is cleared: it is taken, and but for it all is well. *)
Record shifting (m : HashMap) (i e : N) : Prop := {
  sh_store : store_ok m;
  sh_slot : i < capacity m;
  sh_taken : exists k, table_of m i = Some k;
  sh_chained : chained_but (capacity m) (home m) i (upd (table_of m) i None);
  sh_unique : unique (capacity m) (upd (table_of m) i None);
  sh_room : 0 < e < capacity m /\ table_of m (step (capacity m) i e) = None
}.

(** One move. *)
Lemma shifting_move m i e j k c :
  shifting m i e -> 0 < c < e -> j = step (capacity m) i c ->
  table_of (clear_slot m i) j = Some k -> on_path (capacity m) (home m k) i j = true ->
  let m1 := clear_slot m i in
  let m2 := fill_slot m1 i (key_at m1 j) (value_at m1 j) in
  shifting m2 j (e - c) /\ loaded m2 = loaded m /\
  (forall k' v, (exists q, q < capacity m /\ q <> j /\ table_of m2 q = Some k' /\ value_at m2 q = v) <->
               (exists q, q < capacity m /\ q <> i /\ table_of m q = Some k' /\ value_at m q = v)).
Proof.
  intros [Hs Hi (k0 & Hk0) Hc Hu [He Hne]] Hce Hj Hk Ho m1 m2.
  assert (Hm : 0 < capacity m) by lia.
  assert (Hjl : j < capacity m) by (subst j; apply step_lt; lia).
  assert (Hij : i <> j).
  { intros Hx. assert (c = 0); [|lia]. apply (step_inj (capacity m) Hm i); try lia.
    by rewrite step_0, <- Hj. }
  pose proof (clear_slot_store m i Hs) as Hs1. fold m1 in Hs1.
  pose proof (clear_slot_table m i Hs Hi) as T1. fold m1 in T1.
  pose proof (fill_slot_table m1 i (key_at m1 j) (value_at m1 j) Hs1 Hi) as T2. fold m2 in T2.
  rewrite (table_key m1 j k Hk) in T2.
  fold m1 in Hk. assert (Hk' := Hk). rewrite (T1 j), upd_ne in Hk' by done.
  assert (T12 : pointwise_relation N eq (table_of m2) (upd (upd (table_of m) i None) i (Some k))).
  { intros q. rewrite (T2 q). by apply upd_proper. }
  assert (Hv : value_at m2 i = value_at m j).
  { unfold m2. rewrite fill_slot_value by done. rewrite N.eqb_refl.
    unfold m1. by apply clear_slot_value. }
  assert (Hvne : forall q, q <> i -> value_at m2 q = value_at m q).
  { intros q Hq. unfold m2. rewrite fill_slot_value by done.
    rewrite (proj2 (N.eqb_neq q i)) by done. unfold m1. by apply clear_slot_value. }
  assert (Hinj : unique (capacity m) (upd (table_of m) i None) ->
     chained_but (capacity m) (home m) i (upd (table_of m) i None) ->
     pointwise_relation N eq (upd (table_of m2) j None)
       (upd (upd (upd (table_of m) i None) i (Some k)) j None)).
  { intros _ _ q. by apply upd_proper. }
  specialize (Hinj Hu Hc).
  assert (Hn1 : upd (table_of m) i None i = None) by apply upd_eq.
  assert (Hk1 : upd (table_of m) i None j = Some k) by (by rewrite upd_ne).
  split; [split|split].
  - by apply fill_slot_store.
  - done.
  - exists k. rewrite (T12 j), upd_ne by done. exact Hk1.
  - rewrite Hinj. change (capacity m2) with (capacity m). change (home m2) with (home m).
    by apply (hole_move (capacity m) (home m) Hm (fun k => home_lt m k Hs)).
  - rewrite Hinj. by apply (unique_move (capacity m)).
  - change (capacity m2) with (capacity m). split; [lia|]. subst j. rewrite step_step by lia.
    replace (c + (e - c)) with e by lia. rewrite (T12 _), !upd_ne; [done|..].
    all: intros Hx; assert (e = 0); [|lia]; apply (step_inj (capacity m) Hm i); try lia;
      by rewrite step_0.
  - unfold loaded. rewrite T12. change (capacity m2) with (capacity m).
    rewrite (load_insert (capacity m) _ _ _ Hi Hn1).
    by apply (load_remove (capacity m) _ _ k0).
  - intros k' v. split; intros (q & Hq & Hqj & Hkq & Hvq).
    + rewrite (T12 q) in Hkq. destruct (N.eq_dec q i) as [->|Hqi].
      * rewrite upd_eq in Hkq. injection Hkq as <-. exists j. rewrite <- Hv. done.
      * rewrite !upd_ne in Hkq by done. exists q. rewrite <- (Hvne q Hqi). done.
    + destruct (N.eq_dec q j) as [->|Hqj2].
      * exists i. rewrite (T12 i), upd_eq. split; [done|]. split; [done|]. split; congruence.
      * exists q. rewrite (T12 q), !upd_ne by done. by rewrite (Hvne q Hqj).
Qed.

Lemma backward_shift_ok f m i e :
  shifting m i e -> (N.to_nat e <= f)%nat ->
  exists m', backward_shift f m i = Ret m' /\ chains_ok m' /\ capacity m' = capacity m /\
    S (loaded m') = loaded m /\ count m' = count m - 1 /\
    forall k v, entry m' k v <->
      exists q, q < capacity m /\ q <> i /\ table_of m q = Some k /\ value_at m q = v.
Proof.
  revert m i e. induction f as [|f IH]; intros m i e Hsh Hf; [destruct (sh_room _ _ _ Hsh); lia|].
  pose proof Hsh as [Hs Hi (k0 & Hk0) Hc Hu [He Hne]].
  assert (Hm : 0 < capacity m) by lia. cbn [backward_shift].
  pose proof (clear_slot_store m i Hs) as Hs1.
  pose proof (clear_slot_table m i Hs Hi) as T1. set (m1 := clear_slot m i) in *.
  assert (Hn1 : table_of m1 i = None) by (by rewrite (T1 i), upd_eq).
  assert (Hne1 : table_of m1 (step (capacity m1) i e) = None).
  { rewrite (T1 _). unfold upd. by destruct (_ =? i). }
  destruct (find_movable_spec m1 i e (N.to_nat (capacity m1)) 0) as (o & Ho & Hspec); try done.
  { lia. }
  { intros d Hd. lia. }
  { change (capacity m1) with (capacity m). lia. }
  rewrite step_0 in Ho by (change (capacity m1) with (capacity m); lia).
  rewrite Ho. cbn [obind]. destruct o as [j|].
  - destruct Hspec as (c & k & Hce & Hj & Hk & Hp).
    destruct (shifting_move m i e j k c Hsh Hce Hj Hk Hp) as (Hsh2 & Hl2 & He2).
    fold m1 in Hsh2, Hl2, He2.
    destruct (IH _ _ _ Hsh2) as (m' & Em & C' & Hc' & Hl' & Hn' & He'); [lia|].
    exists m'. split; [exact Em|]. split; [done|]. split; [done|]. split; [congruence|].
    split; [done|]. intros k' v. rewrite He'. apply He2.
  - destruct Hspec as (c & Hce & Hnc & Hset). eexists. split; [reflexivity|].
    split; [|split; [done|split; [|split; [done|]]]].
    + destruct Hs1 as [S1 S2 S3 S4]. split; [by split| |].
      * change (chained (capacity m1) (home m1) (table_of m1)).
        apply (hole_done (capacity m1) (home m1) Hm (fun k => home_lt m1 k ltac:(by split)) _ i c);
          try done; [by rewrite T1|]. change (capacity m1) with (capacity m) in *. lia.
      * change (unique (capacity m1) (table_of m1)). by rewrite T1.
    + unfold loaded. change (table_of (with_count _ m1)) with (table_of m1). rewrite T1.
      by apply (load_remove (capacity m) _ _ k0).
    + intros k v. unfold entry. change (table_of (with_count _ m1)) with (table_of m1).
      split; intros (q & Hq & Hk).
      * rewrite (T1 q) in Hk. unfold upd in Hk. destruct (q =? i) eqn:Eq; [by destruct Hk|].
        apply N.eqb_neq in Eq. exists q. split; [done|]. split; [done|].
        destruct Hk as [Hk Hv]. split; [done|]. rewrite <- Hv. symmetry.
        by apply clear_slot_value.
      * destruct Hk as (Hqi & Hk & Hv). exists q. split; [done|].
        rewrite (T1 q), upd_ne by done. split; [done|]. rewrite <- Hv.
        by apply clear_slot_value.
Qed.

End HashMapFacts.

Module HashMapTheorems.

Import Probe HashMap HashMapFacts.

#[local] Open Scope N_scope.

(** ** One operation *)

Lemma needs_grow_false m : hashmap_needs_grow m = false ->
  capacity m <> 0 /\ 10 * (count m + 1) <= 7 * capacity m.
Proof.
  unfold hashmap_needs_grow, HASHMAP_MAX_LOAD_DENOMINATOR, HASHMAP_MAX_LOAD_NUMERATOR.
  destruct (N.eqb_spec (capacity m) 0) as [|Hc]; [done|]. destruct (_ =? SIZE_MAX); [done|].
  intros H%N.ltb_ge. split; [done|]. zify. Z.to_euclidean_division_equations. lia.
Qed.

Lemma needs_grow_true m : map_ok m -> capacity m <= 2 ^ 58 -> hashmap_needs_grow m = true ->
  capacity m = 0 \/ 7 * capacity m < 10 * (count m + 1).
Proof.
  intros Hok Hcap. unfold hashmap_needs_grow, HASHMAP_MAX_LOAD_DENOMINATOR, HASHMAP_MAX_LOAD_NUMERATOR.
  destruct (N.eqb_spec (capacity m) 0) as [|Hc]; [by left|].
  destruct (N.eqb_spec (count m) SIZE_MAX) as [Hs|].
  - destruct Hok as [->|(_ & _ & Hl)]; [done|]. unfold SIZE_MAX in Hs. lia.
  - intros H%N.ltb_lt. right. zify. Z.to_euclidean_division_equations. lia.
Qed.

(** The map after the growth test of [hashmap_put] has room for one more. *)
Lemma put_room m : map_ok m -> capacity m <= 2 ^ 58 ->
  exists m', (if hashmap_needs_grow m then
      if capacity m =? SIZE_MAX then Ret (false, m) else hashmap_grow m (capacity m + 1)
    else Ret (true, m)) = Ret (true, m') /\
    chains_ok m' /\ count m' = count m /\ count m' = N.of_nat (loaded m') /\
    10 * (count m' + 1) <= 7 * capacity m' /\ (forall k v, entry m' k v <-> entry m k v) /\
    capacity m' <= N.max (capacity m) (16 + 3 * count m).
Proof.
  intros Hok Hcap. destruct (hashmap_needs_grow m) eqn:Hg.
  - apply needs_grow_true in Hg; try done. rewrite (proj2 (N.eqb_neq _ _)) by (unfold SIZE_MAX; lia).
    destruct (grow_ok m Hok) as (m' & E & C & Hc & Hl & Hr & He); [lia|].
    exists m'. rewrite E. do 6 (split; [done|]).
    assert (Hcm : capacity m' = if capacity m =? 0 then 16 else capacity m * 2); [|].
    { unfold hashmap_grow in E. rewrite next_capacity_small in E.
      2: { destruct Hok as [->|(C0 & _)]; [by left|]. right.
           pose proof (store_cap m (ch_store m C0)). lia. }
      cbn [obind] in E. destruct (_ =? 0) in E; [done|].
      destruct (rehash _ _ _); try done. by injection E as <-. }
    rewrite Hcm. destruct (N.eqb_spec (capacity m) 0); lia.
  - destruct (needs_grow_false m Hg) as [Hc Hr]. exists m.
    destruct Hok as [->|(C & Hn & Hl)]; [done|]. do 6 (split; [done|]). lia.
Qed.

(** Writing the value of a key that is present. *)
Lemma set_value_ok m i k v : chains_ok m -> i < capacity m -> table_of m i = Some k ->
  let m' := mkMap (keys m) (<[N.to_nat i := v]> (values m)) (occupied m) (count m) (capacity m) in
  chains_ok m' /\ loaded m' = loaded m /\
  forall k' v', entry m' k' v' <-> (if k' =? k then v' = v else entry m k' v').
Proof.
  intros [[S1 S2 S3 S4] Hc Hu] Hi Hk m'. split; [|split; [done|]].
  - split; [split|..]; try done. simpl. by rewrite length_insert.
  - intros k' v'. unfold entry. change (table_of m') with (table_of m).
    change (capacity m') with (capacity m).
    assert (Hv : forall j, value_at m' j = if j =? i then v else value_at m j).
    { intros j. unfold value_at, m'. cbn [values]. rewrite nth_insert by (rewrite S3; lia).
      by rewrite to_nat_eqb. }
    destruct (N.eqb_spec k' k) as [->|Hne]; split.
    + intros (j & Hj & Hkj & <-). rewrite Hv. by rewrite (Hu j i k), N.eqb_refl.
    + intros ->. exists i. by rewrite Hv, N.eqb_refl.
    + intros (j & Hj & Hkj & <-). exists j. rewrite Hv. destruct (N.eqb_spec j i); [congruence|done].
    + intros (j & Hj & Hkj & <-). exists j. rewrite Hv. destruct (N.eqb_spec j i); [congruence|done].
Qed.

Lemma put_ok m g k v : represents m g -> capacity m <= 2 ^ 58 ->
  exists m', hashmap_put m k v = Ret (true, m') /\ represents m' (<[k := v]> g) /\
    capacity m' <= N.max (capacity m) (16 + 3 * count m) /\ count m' <= count m + 1.
Proof.
  intros [Hok Hg] Hcap. unfold hashmap_put.
  destruct (put_room m Hok Hcap) as (m1 & -> & C & Hc & Hl & Hr & He & Hb). cbn [obind negb].
  pose proof (store_cap m1 (ch_store m1 C)) as Hc1.
  destruct (locate_spec m1 k C) as (i & found & -> & Hi & Hf); [lia|]. cbn [obind].
  destruct found.
  - destruct (set_value_ok m1 i k v C Hi Hf) as (C' & Hl' & He'). eexists.
    split; [reflexivity|]. split; [|cbn [count capacity]; lia]. split.
    + right. split; [done|]. cbn [count capacity]. split; [congruence|lia].
    + intros k' v'. rewrite He'. destruct (N.eqb_spec k' k) as [->|Hne].
      * rewrite lookup_insert_eq. split; congruence.
      * by rewrite lookup_insert_ne, Hg, He.
  - destruct Hf as [Hab (d & -> & Hst)].
    destruct (fill_chains m1 _ k v d C Hst Hab) as ([[S1 S2 S3 S4] C2 C3] & Hl' & He').
    eexists. split; [reflexivity|]. split; [|simpl; lia]. split.
    + right. split; [by repeat split|]. cbn [with_count count capacity fill_slot].
      split; [|lia]. change (count m1 + 1 = N.of_nat (loaded (fill_slot m1
        (step (capacity m1) (home m1 k) d) k v))). rewrite Hl'. lia.
    + intros k' v'. change (<[k:=v]> g !! k' = Some v' <-> entry (fill_slot m1
        (step (capacity m1) (home m1 k) d) k v) k' v'). rewrite He', He, <- Hg.
      destruct (N.eq_dec k' k) as [->|Hne].
      * rewrite lookup_insert_eq. split; [intros [= <-]; by left|].
        intros [[_ ->]|Hin]; [done|]. exfalso. apply Hab, holds_entry.
        exists v'. by apply He, Hg.
      * rewrite lookup_insert_ne by done. split; [by right|]. by intros [[-> _]|].
Qed.

(** The slot of a present key can open as a hole. *)
Lemma hole_opens m i k : map_ok m -> capacity m <> 0 -> table_of m i = Some k ->
  exists e, shifting m i e.
Proof.
  intros Hok Hc Hk. destruct (map_ok_room m Hok Hc) as [C Hl].
  pose proof (ch_store m C) as Hs. pose proof (store_cap m Hs) as Hcap.
  pose proof (table_of_lt m i k Hk) as Hi.
  destruct (loaded_room m C Hl) as (e & He & Hn). exists (dist (capacity m) i e).
  split; try done; [by exists k|apply chained_remove; apply C|..].
  - intros a b k' Ha Hb Hka Hkb. unfold upd in *. destruct (a =? i), (b =? i); try done.
    by apply (ch_unique m C a b k').
  - rewrite step_dist by lia. split; [|done].
    assert (dist (capacity m) i e <> 0); [|pose proof (dist_lt (capacity m) ltac:(lia) i e); lia].
    intros H0. assert (e = i); [|congruence].
    rewrite <- (step_dist (capacity m) ltac:(lia) i e), H0, step_0 by lia. done.
Qed.

Lemma lookup_absent m g k : represents m g ->
  ~ holds (capacity m) (table_of m) k -> g !! k = None.
Proof.
  intros [Hok Hg] Hab. destruct (g !! k) as [v|] eqn:E; [|done].
  exfalso. apply Hab, holds_entry. exists v. by apply Hg.
Qed.

Lemma lookup_present m g i k : represents m g -> table_of m i = Some k ->
  g !! k = Some (value_at m i).
Proof.
  intros [Hok Hg] Hk. apply Hg. exists i. split; [by apply (table_of_lt m i k)|done].
Qed.

Lemma represents_empty m g : represents m g -> capacity m = 0 -> forall k, g !! k = None.
Proof.
  intros Hr Hc k. apply (lookup_absent m g k Hr). intros (j & Hj & _). lia.
Qed.

Lemma get_ok m g k : represents m g ->
  hashmap_get m k = Ret (default 0 (g !! k)) /\
  hashmap_contains m k = Ret (bool_decide (is_Some (g !! k))).
Proof.
  intros Hr. unfold hashmap_get, hashmap_contains. destruct (N.eqb_spec (capacity m) 0) as [Hc|Hc].
  - by rewrite (represents_empty m g Hr Hc).
  - destruct (map_ok_room m (proj1 Hr) Hc) as [C Hl].
    destruct (locate_spec m k C Hl) as (i & found & -> & Hi & Hf). cbn [obind]. destruct found.
    + by rewrite (lookup_present m g i k Hr Hf).
    + destruct Hf as [Hab _]. by rewrite (lookup_absent m g k Hr Hab).
Qed.

Lemma remove_ok m g k : represents m g ->
  exists m', hashmap_remove m k = Ret (bool_decide (is_Some (g !! k)), m') /\
    represents m' (delete k g) /\ capacity m' = capacity m /\ count m' <= count m.
Proof.
  intros Hr. unfold hashmap_remove. destruct (N.eqb_spec (capacity m) 0) as [Hc|Hc].
  - pose proof (represents_empty m g Hr Hc k) as Hk. exists m. rewrite Hk.
    rewrite delete_id by done. done.
  - destruct (map_ok_room m (proj1 Hr) Hc) as [C Hl].
    destruct (locate_spec m k C Hl) as (i & found & -> & Hi & Hf). cbn [obind]. destruct found.
    + rewrite (lookup_present m g i k Hr Hf). cbn [negb].
      destruct (hole_opens m i k (proj1 Hr) Hc Hf) as [e Hsh].
      destruct (backward_shift_ok (N.to_nat (capacity m)) m i e Hsh) as
        (m' & -> & C' & Hc' & Hl' & Hn' & He'); [destruct (sh_room _ _ _ Hsh); lia|].
      exists m'. split; [done|]. split; [|split; [done|lia]].
      destruct Hr as [[->|(_ & Hcl & Hld)] Hg]; [done|]. split.
      * right. split; [done|]. split; [lia|]. rewrite Hc'. lia.
      * intros k' v'. rewrite He'. destruct (N.eq_dec k' k) as [->|Hne].
        -- rewrite lookup_delete_eq. split; [done|]. intros (q & Hq & Hqi & Hkq & _).
           exfalso. apply Hqi. by apply (ch_unique m C q i k).
        -- rewrite lookup_delete_ne, Hg by done. split.
           ++ intros (q & Hq & Hkq & Hv). exists q. split; [done|]. split; [congruence|done].
           ++ intros (q & Hq & _ & Hkq & Hv). by exists q.
    + destruct Hf as [Hab _]. exists m. pose proof (lookup_absent m g k Hr Hab) as Hk.
      rewrite Hk. rewrite delete_id by done. done.
Qed.

Lemma clear_ok m g : represents m g ->
  represents (hashmap_clear m) ∅ /\ capacity (hashmap_clear m) = capacity m /\
  count (hashmap_clear m) = 0.
Proof.
  intros [Hok _]. split; [|done].
  assert (HT : pointwise_relation N eq (table_of (hashmap_clear m)) (fun _ => None)).
  { intros i. unfold table_of, hashmap_clear, bit_get, word_at. cbn [capacity occupied].
    rewrite andb_comm, nth_lookup, list_lookup_fmap. by destruct (occupied m !! _). }
  split.
  - destruct Hok as [->|([[S1 S2 S3 S4] C2 C3] & _)]; [by left|]. right.
    split; [split; [split; try done|..]|split; [|simpl; lia]].
    + simpl. by rewrite length_map.
    + rewrite HT. by intros j k d _ [=].
    + rewrite HT. by intros i j k _ _ [=].
    + unfold loaded. rewrite HT. by rewrite load_empty.
  - intros k v. rewrite lookup_empty. split; [done|]. intros (i & _ & Hk & _).
    by rewrite HT in Hk.
Qed.

Lemma init_ok : represents hashmap_init ∅.
Proof.
  split; [by left|]. intros k v. rewrite lookup_empty. split; [done|].
  by intros (i & Hi%N.nlt_0_r & _).
Qed.

(** ** Iteration *)

Fixpoint visit_list {S} (visit : N -> N -> S -> bool * S) (l : list (N * N)) (st : S) : S :=
  match l with
  | [] => st
  | (k, v) :: l => let '(go, st) := visit k v st in
                   if go then visit_list visit l st else st
  end.

Definition entries (m : HashMap) (sl : list N) : list (N * N) :=
  map (fun i => (key_at m i, value_at m i)) (List.filter (fun i => bit_get (occupied m) i) sl).

Lemma foreach_entries {S} m (visit : N -> N -> S -> bool * S) sl st :
  foreach_slots m visit sl st = visit_list visit (entries m sl) st.
Proof.
  revert st. unfold entries. induction sl as [|i sl IH]; intros st; [done|]. simpl.
  destruct (bit_get (occupied m) i); simpl; [|apply IH].
  destruct (visit _ _ st) as [[] st']; [apply IH|done].
Qed.

Lemma entries_spec m g : represents m g ->
  entries m (slot_indices m) ≡ₚ map_to_list g /\ count m = N.of_nat (size g).
Proof.
  intros [Hok Hg]. destruct (slot_indices_spec m) as (Hnd & Hin & Ht).
  assert (Hu : unique (capacity m) (table_of m)).
  { destruct Hok as [->|(C & _)]; [|by apply C]. by intros i j k Hi%N.nlt_0_r. }
  assert (Hfil : forall i, In i (List.filter (fun i => bit_get (occupied m) i) (slot_indices m)) <->
     table_of m i = Some (key_at m i)).
  { intros i. rewrite List.filter_In, Hin. split.
    - intros [Hi Hb]. by rewrite table_of_slot, Hb.
    - intros Hk. pose proof (table_of_lt m i _ Hk) as Hi. split; [done|].
      rewrite table_of_slot in Hk by done. by destruct (bit_get _ _). }
  assert (Hnd' : List.NoDup (entries m (slot_indices m))).
  { unfold entries. pose proof (List.NoDup_filter (fun i => bit_get (occupied m) i) Hnd) as Hf.
    revert Hfil Hf. generalize (List.filter (fun i => bit_get (occupied m) i) (slot_indices m)).
    intros l Hl Hf. assert (Hl' : forall i, In i l -> table_of m i = Some (key_at m i)) by apply Hl.
    clear Hl. induction Hf as [|i l Hi Hf IH]; simpl; constructor.
    - rewrite in_map_iff. intros (j & [= Hk _] & Hj). apply Hi.
      assert (Hj' := Hl' j (or_intror Hj)). assert (Hi' := Hl' i (or_introl eq_refl)).
      rewrite Hk in Hj'. rewrite (Hu i j (key_at m i)); try done; by eapply table_of_lt.
    - apply IH. intros j Hj. apply Hl'. by right. }
  assert (Hp : entries m (slot_indices m) ≡ₚ map_to_list g).
  { apply NoDup_Permutation; [by apply NoDup_ListNoDup|apply NoDup_map_to_list|].
    intros [k v]. rewrite elem_of_map_to_list, Hg. rewrite list_elem_of_In. unfold entries.
    rewrite in_map_iff. split.
    - intros (i & [= <- <-] & Hi). apply Hfil in Hi. exists i. split; [by eapply table_of_lt|done].
    - intros (i & Hi & Hk & <-). exists i. pose proof (table_key m i k Hk) as Hki.
      rewrite Hki. split; [done|]. apply Hfil. by rewrite Hki. }
  split; [done|]. rewrite <- length_map_to_list, <- Hp.
  unfold entries. rewrite length_map. destruct Hok as [->|(_ & -> & _)]; [done|]. f_equal.
  unfold loaded, load. f_equal. apply List.filter_ext_in. intros i Hi%Hin.
  unfold taken. rewrite table_of_slot by done. by destruct (bit_get _ _).
Qed.

(** ** Sequences of operations *)

Inductive op := Put (k v : N) | Get (k : N) | Contains (k : N) | Remove (k : N) | Clear.

Inductive answer := Flag (b : bool) | Value (v : N) | Nothing.

Definition map_step (m : HashMap) (o : op) : outcome (answer * HashMap) :=
  match o with
  | Put k v => let! (b, m) := hashmap_put m k v in Ret (Flag b, m)
  | Get k => let! v := hashmap_get m k in Ret (Value v, m)
  | Contains k => let! b := hashmap_contains m k in Ret (Flag b, m)
  | Remove k => let! (b, m) := hashmap_remove m k in Ret (Flag b, m)
  | Clear => Ret (Nothing, hashmap_clear m)
  end.

Fixpoint map_run (m : HashMap) (os : list op) : outcome (list answer * HashMap) :=
  match os with
  | [] => Ret ([], m)
  | o :: os =>
      let! (a, m) := map_step m o in let! (l, m) := map_run m os in Ret (a :: l, m)
  end.

(** The same operations on a finite map. *)
Definition spec_step (g : gmap N N) (o : op) : answer * gmap N N :=
  match o with
  | Put k v => (Flag true, <[k := v]> g)
  | Get k => (Value (default 0 (g !! k)), g)
  | Contains k => (Flag (bool_decide (is_Some (g !! k))), g)
  | Remove k => (Flag (bool_decide (is_Some (g !! k))), delete k g)
  | Clear => (Nothing, ∅)
  end.

Fixpoint spec_run (g : gmap N N) (os : list op) : list answer * gmap N N :=
  match os with
  | [] => ([], g)
  | o :: os =>
      let '(a, g) := spec_step g o in let '(l, g) := spec_run g os in (a :: l, g)
  end.

(** After [n] operations. *)
Definition sized (n : N) (m : HashMap) : Prop := count m <= n /\ capacity m <= 16 + 3 * n.

Lemma map_step_ok n m g o : represents m g -> sized n m -> n < 2 ^ 50 ->
  exists m', map_step m o = Ret (fst (spec_step g o), m') /\
    represents m' (snd (spec_step g o)) /\ sized (n + 1) m'.
Proof.
  intros Hr [Hn Hc] Hb. destruct o as [k v|k|k|k|]; cbn [map_step spec_step fst snd].
  - destruct (put_ok m g k v Hr) as (m' & -> & Hr' & Hc' & Hn'); [lia|].
    exists m'. split; [done|]. split; [done|]. unfold sized. lia.
  - rewrite (proj1 (get_ok m g k Hr)). exists m. split; [done|]. split; [done|]. unfold sized. lia.
  - rewrite (proj2 (get_ok m g k Hr)). exists m. split; [done|]. split; [done|]. unfold sized. lia.
  - destruct (remove_ok m g k Hr) as (m' & -> & Hr' & Hc' & Hn').
    exists m'. split; [done|]. split; [done|]. unfold sized. lia.
  - destruct (clear_ok m g Hr) as (Hr' & Hc' & Hn'). eexists. split; [done|].
    split; [done|]. unfold sized. lia.
Qed.

Lemma map_run_ok os n m g : represents m g -> sized n m -> n + N.of_nat (length os) <= 2 ^ 50 ->
  exists m', map_run m os = Ret (fst (spec_run g os), m') /\
    represents m' (snd (spec_run g os)).
Proof.
  revert n m g. induction os as [|o os IH]; intros n m g Hr Hs Hb; [by exists m|].
  cbn [length] in Hb.
  destruct (map_step_ok n m g o Hr Hs) as (m1 & E1 & Hr1 & Hs1); [lia|].
  cbn [map_run spec_run]. rewrite E1. destruct (spec_step g o) as [a g1]. cbn [fst snd obind] in *.
  destruct (IH (n + 1) m1 g1 Hr1 Hs1) as (m2 & -> & Hr2); [lia|].
  destruct (spec_run g1 os) as [l g2]. by exists m2.
Qed.

(** C33: the hash map refines a finite map.  From an empty map, any sequence of
    [hashmap_put], [hashmap_get], [hashmap_contains], [hashmap_remove] and
    [hashmap_clear] calls (fewer than 2^50 of them) returns, every probe, rehash
    and backward shift ending within its fuel, and answers exactly as the same
    sequence on a finite map. *)
Theorem hashmap_refines_finite_map (os : list op) :
  N.of_nat (length os) <= 2 ^ 50 ->
  exists m, map_run hashmap_init os = Ret (fst (spec_run ∅ os), m) /\
    represents m (snd (spec_run ∅ os)).
Proof.
  intros H. apply (map_run_ok os 0); [apply init_ok|split; simpl; lia|lia].
Qed.

(** Keys 1, 17 and 33 among others, overwritten, removed and cleared. *)
Definition sample_ops : list op :=
  map (fun n => Put (N.of_nat n) (N.of_nat (n * n))) (seq 0 20) ++
  [Remove 7; Get 7; Get 8; Put 8 5; Get 8; Contains 30; Remove 30; Contains 3; Clear; Get 3].

Lemma hashmap_refines_finite_map_witness :
  (exists m, map_run hashmap_init sample_ops = Ret (fst (spec_run ∅ sample_ops), m)) /\
  skipn 20 (fst (spec_run ∅ sample_ops)) =
    [Flag true; Value 0; Value 64; Flag true; Value 5; Flag false; Flag false; Flag true;
     Nothing; Value 0].
Proof.
  split; [|vm_compute; reflexivity].
  destruct (hashmap_refines_finite_map sample_ops) as (m & H & _); [vm_compute; discriminate|].
  exists m. exact H.
Defined.

(** [hashmap_put] on a well-formed map succeeds: it grows and rehashes when the
    load factor asks for it, and the result holds the old entries with the key
    bound to the new value, still at most seven tenths full. *)
Theorem hashmap_put_inserts (m : HashMap) (g : gmap N N) (k v : N) :
  represents m g -> capacity m <= 2 ^ 58 ->
  exists m', hashmap_put m k v = Ret (true, m') /\ represents m' (<[k := v]> g) /\
    10 * count m' <= 7 * capacity m'.
Proof.
  intros Hr Hc. destruct (put_ok m g k v Hr Hc) as (m' & E & Hr' & _). exists m'.
  split; [done|]. split; [done|]. by destruct (proj1 Hr') as [->|(_ & _ & ?)].
Qed.

(** Twelve keys leave no room in sixteen slots. *)
Definition filled (n : nat) : HashMap :=
  match map_run hashmap_init (map (fun n => Put (N.of_nat n) (N.of_nat n)) (seq 0 n)) with
  | Ret (_, m) => m
  | _ => hashmap_init
  end.

Lemma filled_ok : represents (filled 11) (snd (spec_run ∅
  (map (fun n => Put (N.of_nat n) (N.of_nat n)) (seq 0 11)))).
Proof.
  destruct (map_run_ok (map (fun n => Put (N.of_nat n) (N.of_nat n)) (seq 0 11)) 0 hashmap_init ∅)
    as (m & E & Hr); [apply init_ok|split; simpl; lia|vm_compute; discriminate|].
  unfold filled. by rewrite E.
Qed.

Lemma hashmap_put_inserts_witness :
  capacity (filled 11) = 16 /\ hashmap_needs_grow (filled 11) = true /\
  exists m', hashmap_put (filled 11) 99 1 = Ret (true, m') /\ 10 * count m' <= 7 * capacity m'.
Proof.
  split; [vm_compute; reflexivity|]. split; [vm_compute; reflexivity|].
  destruct (hashmap_put_inserts (filled 11) _ 99 1 filled_ok) as (m' & E & _ & H);
    [vm_compute; discriminate|].
  exists m'. split; assumption.
Defined.

(** [hashmap_remove] answers whether the key was there and leaves exactly the
    other entries: the backward shift keeps every surviving key reachable from its
    home slot, and the capacity is unchanged. *)
Theorem hashmap_remove_deletes (m : HashMap) (g : gmap N N) (k : N) :
  represents m g ->
  exists m', hashmap_remove m k = Ret (bool_decide (is_Some (g !! k)), m') /\
    represents m' (delete k g) /\ chained (capacity m') (home m') (table_of m') /\
    capacity m' = capacity m.
Proof.
  intros Hr. destruct (remove_ok m g k Hr) as (m' & E & Hr' & Hc & _). exists m'.
  split; [done|]. split; [done|]. split; [|done].
  destruct (proj1 Hr') as [->|(C & _)]; [by intros j ? ? ?%N.nlt_0_r|]. apply C.
Qed.

Lemma hashmap_remove_deletes_witness :
  exists m', hashmap_remove (filled 11) 4 = Ret (true, m') /\ capacity m' = 16.
Proof.
  destruct (hashmap_remove_deletes (filled 11) _ 4 filled_ok) as (m' & E & _ & _ & Hc).
  exists m'. split; [exact E|]. rewrite Hc. vm_compute. reflexivity.
Defined.

(** [hashmap_foreach] visits the entries of the map, each exactly once, in some
    order and until the visitor asks to stop; [count] is the number of entries. *)
Theorem hashmap_foreach_visits_all (m : HashMap) (g : gmap N N) :
  represents m g ->
  exists l, l ≡ₚ map_to_list g /\ count m = N.of_nat (length l) /\
    forall (S : Type) (visit : N -> N -> S -> bool * S) (st : S),
      hashmap_foreach m visit st = visit_list visit l st.
Proof.
  intros Hr. destruct (entries_spec m g Hr) as [Hp Hc].
  exists (entries m (slot_indices m)). split; [done|]. split.
  - by rewrite Hc, Hp, length_map_to_list.
  - intros S visit st. apply foreach_entries.
Qed.

Lemma hashmap_foreach_visits_all_witness :
  exists l, length l = 11%nat /\
    hashmap_foreach (filled 11) (fun k _ s => (true, s + k)) 0 =
    visit_list (fun k _ s => (true, s + k)) l 0.
Proof.
  destruct (hashmap_foreach_visits_all (filled 11) _ filled_ok) as (l & _ & Hc & Hf).
  exists l. split; [|apply Hf].
  assert (H : count (filled 11) = 11) by (vm_compute; reflexivity). lia.
Defined.

End HashMapTheorems.
