(* ===== verification/Lexer.v ===== *)
(** * The lexer: [src/lexer/lexer.c]

    The streaming cursor [LexCursor] and every sub-lexer, in the order of the C
    file.  The source buffer is the list of its first [source_len] bytes; a read
    at [source_len] gives the sentinel NUL the source contract promises.  Loops
    take as fuel the number of bytes left, and [lex] as many tokens as there are
    bytes; the theorems show that neither ever runs out. *)

From S2P Require Import Prelude SyntaxKind Token Interner.
Import SyntaxKind Token.

Module Lexer.

#[local] Open Scope byte_scope.

Section Lexer.
Context {P : Type} `{!Interner P}.

(** ** The cursor *)

Record LexCursor := mkLex {
  source : list byte;
  source_len : N;
  pos : N;
  tok_start : N;
  pool : P;
  line_starts : list N;
  pending : Token;
  eof_emitted : bool
}.

Definition set_pos (p : N) (l : LexCursor) : LexCursor :=
  mkLex (source l) (source_len l) p (tok_start l) (pool l) (line_starts l)
        (pending l) (eof_emitted l).
Definition set_tok_start (p : N) (l : LexCursor) : LexCursor :=
  mkLex (source l) (source_len l) (pos l) p (pool l) (line_starts l)
        (pending l) (eof_emitted l).
Definition set_pool (q : P) (l : LexCursor) : LexCursor :=
  mkLex (source l) (source_len l) (pos l) (tok_start l) q (line_starts l)
        (pending l) (eof_emitted l).
Definition set_line_starts (ls : list N) (l : LexCursor) : LexCursor :=
  mkLex (source l) (source_len l) (pos l) (tok_start l) (pool l) ls
        (pending l) (eof_emitted l).
Definition set_pending (t : Token) (l : LexCursor) : LexCursor :=
  mkLex (source l) (source_len l) (pos l) (tok_start l) (pool l) (line_starts l)
        t (eof_emitted l).
Definition set_eof_emitted (b : bool) (l : LexCursor) : LexCursor :=
  mkLex (source l) (source_len l) (pos l) (tok_start l) (pool l) (line_starts l)
        (pending l) b.

(** ** Cursor primitives *)

(** [source[p]]; the byte at [source_len] is the NUL sentinel. *)
Definition byte_at (l : LexCursor) (p : N) : byte :=
  nth (N.to_nat p) (source l) x00.

Definition peek_at (l : LexCursor) (off : N) : byte :=
  let p := u32 (pos l + off) in
  if (source_len l <=? p)%N then x00 else byte_at l p.

Definition curr (l : LexCursor) : byte := peek_at l 0.

Definition advance (l : LexCursor) : LexCursor :=
  if (pos l <? source_len l)%N then set_pos (pos l + 1) l else l.

Definition match_ (c : byte) (l : LexCursor) : bool * LexCursor :=
  if negb (Byte.eqb (curr l) c) then (false, l) else (true, advance l).

(** The sentinel-scan read: no bounds test. *)
Definition scur (l : LexCursor) : byte := byte_at l (pos l).

(** [l->pos++] of the sentinel-scan loops. *)
Definition inc_pos (l : LexCursor) : LexCursor := set_pos (pos l + 1) l.

Definition is_id_start (c : byte) : bool :=
  let u := Byte.to_N c in
  ((97 <=? u) && (u <=? 122))%N || ((65 <=? u) && (u <=? 90))%N || (u =? 95)%N.

Definition is_digit (c : byte) : bool :=
  let u := Byte.to_N c in ((48 <=? u) && (u <=? 57))%N.

Definition is_hex_digit (c : byte) : bool :=
  let u := Byte.to_N c in
  ((48 <=? u) && (u <=? 57))%N || ((97 <=? u) && (u <=? 102))%N ||
  ((65 <=? u) && (u <=? 70))%N.

Definition is_id_cont (c : byte) : bool := is_id_start c || is_digit c.

(** Fuel for a loop that advances on every iteration. *)
Definition scan_fuel (l : LexCursor) : nat := S (N.to_nat (source_len l - pos l)).

(** [while (cond) l->pos++] and [while (cond) advance(l)]. *)
Definition scan_while (cond : LexCursor -> bool) (l : LexCursor) : outcome LexCursor :=
  while_loop (scan_fuel l) cond inc_pos l.
Definition advance_while (cond : LexCursor -> bool) (l : LexCursor) : outcome LexCursor :=
  while_loop (scan_fuel l) cond advance l.

(** ** Token emission *)

Definition emit (k : OreSyntaxKind) (sid : N) (l : LexCursor) : LexCursor :=
  set_pending (mkToken k sid (tok_start l) (pos l)) l.

(** [pool_intern(l->pool, &l->source[a], n)]. *)
Definition intern_range (a n : N) (l : LexCursor) : LexCursor * N :=
  let '(q, sid) := pool_intern (pool l) (sub_bytes (source l) a n) in
  (set_pool q l, sid).

Definition emit_interned (k : OreSyntaxKind) (l : LexCursor) : LexCursor :=
  let len := (pos l - tok_start l)%N in
  let '(l, sid) := intern_range (tok_start l) len l in
  emit k sid l.

Definition emit_plain (k : OreSyntaxKind) (l : LexCursor) : LexCursor :=
  emit k STR_ID_NONE l.

Definition record_line_start (l : LexCursor) : LexCursor :=
  set_line_starts (line_starts l ++ [pos l]) l.

End Lexer.
Arguments LexCursor P : clear implicits.

(** ** Keyword recognizer *)

(** [MK(lit, KIND)]: compare [len] bytes against one keyword. *)
Definition MK (s : list byte) (lit : string) (K : OreSyntaxKind)
    (otherwise : OreSyntaxKind) : OreSyntaxKind :=
  if bytes_eqb s (bs lit) then K else otherwise.

Definition keyword_kind (s : list byte) : OreSyntaxKind :=
  match length s with
  | 2%nat =>
      match nth 0 s x00 with
      | "i" => MK s "if" SK_IF_KW SK_IDENT
      | "f" => MK s "fn" SK_FN_KW SK_IDENT
      | "F" => MK s "Fn" SK_FN_TYPE_KW SK_IDENT
      | _ => SK_IDENT
      end
  | 3%nat => MK s "nil" SK_NIL_KW SK_IDENT
  | 4%nat =>
      match nth 0 s x00 with
      | "e" => MK s "elif" SK_ELIF_KW
              (MK s "else" SK_ELSE_KW
              (MK s "enum" SK_ENUM_KW SK_IDENT))
      | "t" => MK s "true" SK_TRUE_KW SK_IDENT
      | "l" => MK s "loop" SK_LOOP_KW SK_IDENT
      | "w" => MK s "with" SK_WITH_KW SK_IDENT
      | "m" => MK s "mask" SK_MASK_KW SK_IDENT
      | _ => SK_IDENT
      end
  | 5%nat =>
      match nth 0 s x00 with
      | "f" => MK s "false" SK_FALSE_KW SK_IDENT
      | "c" => MK s "const" SK_CONST_KW SK_IDENT
      | "b" => MK s "break" SK_BREAK_KW SK_IDENT
      | "d" => MK s "defer" SK_DEFER_KW SK_IDENT
      | "u" => MK s "union" SK_UNION_KW SK_IDENT
      | _ => SK_IDENT
      end
  | 6%nat =>
      match nth 0 s x00 with
      | "s" => MK s "struct" SK_STRUCT_KW (MK s "switch" SK_SWITCH_KW SK_IDENT)
      | "e" => MK s "effect" SK_EFFECT_KW SK_IDENT
      | "r" => MK s "return" SK_RETURN_KW SK_IDENT
      | "o" => MK s "orelse" SK_ORELSE_KW SK_IDENT
      | "h" => MK s "handle" SK_HANDLE_KW SK_IDENT
      | _ => SK_IDENT
      end
  | 7%nat =>
      match nth 0 s x00 with
      | "h" => MK s "handler" SK_HANDLER_KW SK_IDENT
      | _ => SK_IDENT
      end
  | 8%nat =>
      match nth 0 s x00 with
      | "c" => MK s "comptime" SK_COMPTIME_KW
              (MK s "continue" SK_CONTINUE_KW SK_IDENT)
      | _ => SK_IDENT
      end
  | 11%nat => MK s "unreachable" SK_UNREACHABLE_KW SK_IDENT
  | _ => SK_IDENT
  end.

Section SubLexers.
Context {P : Type} `{!Interner P}.
Implicit Types l : LexCursor P.

(** ** Identifiers *)

(** An id-char, or a [-] followed by one (kebab identifiers). *)
Definition id_continues l : bool :=
  is_id_cont (scur l) || (Byte.eqb (scur l) "-" && is_id_cont (peek_at l 1)).

Definition lex_identifier_or_keyword l : outcome (LexCursor P) :=
  let! l := scan_while id_continues l in
  let len := (pos l - tok_start l)%N in
  if (len =? 1)%N && Byte.eqb (byte_at l (tok_start l)) "_" then
    Ret (emit_plain SK_UNDERSCORE l)
  else
    let kind := keyword_kind (sub_bytes (source l) (tok_start l) len) in
    if kind_eqb kind SK_IDENT then Ret (emit_interned SK_IDENT l)
    else Ret (emit_plain kind l).

(** ** Numbers *)

Definition scan_decimal_digits l : outcome (LexCursor P) :=
  scan_while (fun l => is_digit (scur l) || Byte.eqb (scur l) "_") l.

Definition is_base_char (c1 : byte) : bool :=
  Byte.eqb c1 "x" || Byte.eqb c1 "X" || Byte.eqb c1 "b" || Byte.eqb c1 "B" ||
  Byte.eqb c1 "o" || Byte.eqb c1 "O".

Definition lex_number l : outcome (LexCursor P) :=
  let c0 := curr l in
  let c1 := peek_at l 1 in
  if Byte.eqb c0 "0" && is_base_char c1 then
    let l := advance (advance l) in
    let! l :=
      if Byte.eqb c1 "x" || Byte.eqb c1 "X" then
        scan_while (fun l => is_hex_digit (scur l) || Byte.eqb (scur l) "_") l
      else if Byte.eqb c1 "b" || Byte.eqb c1 "B" then
        scan_while (fun l => Byte.eqb (scur l) "0" || Byte.eqb (scur l) "1" ||
                             Byte.eqb (scur l) "_") l
      else
        scan_while (fun l => (48 <=? Byte.to_N (scur l))%N && (Byte.to_N (scur l) <=? 55)%N ||
                             Byte.eqb (scur l) "_") l in
    Ret (emit_interned SK_INT_LIT l)
  else
    let! l := scan_decimal_digits l in
    let! (is_float, l) :=
      if Byte.eqb (curr l) "." && is_digit (peek_at l 1) then
        let! l := scan_decimal_digits (advance l) in Ret (true, l)
      else Ret (false, l) in
    let! (is_float, l) :=
      if Byte.eqb (curr l) "e" || Byte.eqb (curr l) "E" then
        let look :=
          if Byte.eqb (peek_at l 1) "+" || Byte.eqb (peek_at l 1) "-"
          then 2%N else 1%N in
        if is_digit (peek_at l look) then
          let l := advance l in
          let l := if Byte.eqb (curr l) "+" || Byte.eqb (curr l) "-"
                   then advance l else l in
          let! l := scan_decimal_digits l in Ret (true, l)
        else Ret (is_float, l)
      else Ret (is_float, l) in
    Ret (emit_interned (if is_float : bool then SK_FLOAT_LIT else SK_INT_LIT) l).

(** ** Strings and byte literals *)

(** [for (int i = 0; i < 2; i++)] of the [\x] escape; stops at a non-digit. *)
Fixpoint hex_escape (i : nat) l : LexCursor P :=
  match i with
  | O => l
  | S i => if negb (is_hex_digit (curr l)) then l else hex_escape i (advance l)
  end.

(** The [while (curr(l) != quote)] loop; the result says whether the literal was
    closed. *)
Fixpoint scan_quoted_loop (fuel : nat) (quote : byte) l
    : outcome (bool * LexCursor P) :=
  match fuel with
  | O => OutOfFuel
  | S f =>
      if Byte.eqb (curr l) quote then Ret (true, advance l)
      else
        let c := curr l in
        if Byte.eqb c x00 || Byte.eqb c x0a || Byte.eqb c x0d then Ret (false, l)
        else if Byte.eqb c "\" then
          let l := advance l in
          match curr l with
          | "\" | x22 | "'" | "n" | "t" | "r" | "0" =>
              scan_quoted_loop f quote (advance l)
          | "x" => scan_quoted_loop f quote (hex_escape 2 (advance l))
          | x00 => Ret (false, l)
          | _ => scan_quoted_loop f quote (advance l)
          end
        else scan_quoted_loop f quote (advance l)
  end.

Definition scan_quoted (quote : byte) l : outcome (bool * LexCursor P) :=
  let l := advance l in
  scan_quoted_loop (scan_fuel l) quote l.

Definition intern_quoted_body l : LexCursor P * N :=
  let total := (pos l - tok_start l)%N in
  if (total <? 2)%N then
    let '(q, sid) := pool_intern (pool l) [] in (set_pool q l, sid)
  else intern_range (tok_start l + 1) (total - 2) l.

Definition lex_string l : outcome (LexCursor P) :=
  let! (ok, l) := scan_quoted x22 l in
  if negb ok then Ret (emit_plain SK_LEX_ERROR l)
  else let '(l, sid) := intern_quoted_body l in Ret (emit SK_STRING_LIT sid l).

Definition lex_byte_lit l : outcome (LexCursor P) :=
  let! (ok, l) := scan_quoted "'" l in
  if negb ok then Ret (emit_plain SK_LEX_ERROR l)
  else let '(l, sid) := intern_quoted_body l in Ret (emit SK_BYTE_LIT sid l).

(** ** Comments and inline asm *)

Definition lex_line_comment l : outcome (LexCursor P) :=
  let l := advance (advance l) in
  let! l := advance_while (fun l => negb (Byte.eqb (curr l) x00) &&
                                    negb (Byte.eqb (curr l) x0a) &&
                                    negb (Byte.eqb (curr l) x0d)) l in
  Ret (emit_interned SK_COMMENT l).

(** The newline cases shared by the comment and asm bodies: [\n], or [\r] with an
    optional [\n], then [record_line_start]. *)
Definition skip_lf l : LexCursor P := record_line_start (advance l).
Definition skip_cr l : LexCursor P :=
  let l := advance l in
  let l := if Byte.eqb (curr l) x0a then advance l else l in
  record_line_start l.

Fixpoint block_comment_loop (fuel : nat) (depth : Z) l : outcome (LexCursor P) :=
  match fuel with
  | O => OutOfFuel
  | S f =>
      if Byte.eqb (curr l) x00 then Ret (emit_plain SK_LEX_ERROR l)
      else
        let c := curr l in
        if Byte.eqb c "/" && Byte.eqb (peek_at l 1) "*" then
          block_comment_loop f (depth + 1) (advance (advance l))
        else if Byte.eqb c "*" && Byte.eqb (peek_at l 1) "/" then
          let l := advance (advance l) in
          if (depth - 1 =? 0)%Z then Ret (emit_interned SK_COMMENT l)
          else block_comment_loop f (depth - 1) l
        else if Byte.eqb c x0a then block_comment_loop f depth (skip_lf l)
        else if Byte.eqb c x0d then block_comment_loop f depth (skip_cr l)
        else block_comment_loop f depth (advance l)
  end.

Definition lex_block_comment l : outcome (LexCursor P) :=
  let l := advance (advance l) in
  block_comment_loop (scan_fuel l) 1 l.

Fixpoint asm_lit_loop (fuel : nat) l : outcome (LexCursor P) :=
  match fuel with
  | O => OutOfFuel
  | S f =>
      if Byte.eqb (curr l) x00 then Ret (emit_plain SK_LEX_ERROR l)
      else if Byte.eqb (curr l) "`" && Byte.eqb (peek_at l 1) "`" &&
              Byte.eqb (peek_at l 2) "`" then
        let l := advance (advance (advance l)) in
        let total := (pos l - tok_start l)%N in
        let '(l, sid) :=
          if (6 <=? total)%N then intern_range (tok_start l + 3) (total - 6) l
          else let '(q, sid) := pool_intern (pool l) [] in (set_pool q l, sid) in
        Ret (emit SK_ASM_LIT sid l)
      else if Byte.eqb (curr l) x0a then asm_lit_loop f (skip_lf l)
      else if Byte.eqb (curr l) x0d then asm_lit_loop f (skip_cr l)
      else asm_lit_loop f (advance l)
  end.

Definition lex_asm_lit l : outcome (LexCursor P) :=
  let l := advance (advance (advance l)) in
  asm_lit_loop (scan_fuel l) l.

(** ** Whitespace and newlines *)

(** [memcpy(&w, p, 8)]: the eight bytes as a little-endian word. *)
Definition load_u64 (b : list byte) : N :=
  foldr (fun x acc => Byte.to_N x + 256 * acc)%N 0%N b.

(** One step of the eight-bytes-at-a-time loop: a whole word of spaces lies
    within the source. *)
Definition swar_spaces l : bool :=
  (pos l + 8 <=? source_len l)%N &&
  (load_u64 (sub_bytes (source l) (pos l) 8) =? 2314885530818453536)%N.

Definition lex_spaces l : outcome (LexCursor P) :=
  let! l := while_loop (scan_fuel l) swar_spaces (fun l => set_pos (pos l + 8) l) l in
  let! l := advance_while (fun l => Byte.eqb (curr l) " ") l in
  Ret (emit_plain SK_WHITESPACE l).

Definition lex_newline l : outcome (LexCursor P) :=
  let l :=
    if Byte.eqb (curr l) x0d then
      let l := advance l in
      if Byte.eqb (curr l) x0a then advance l else l
    else advance l in
  Ret (record_line_start (emit_plain SK_NEWLINE l)).

(** ** Top-level dispatch *)

(** [:] followed by an identifier start: the rest of a label. *)
Definition lex_label l : outcome (LexCursor P) :=
  let! l := scan_while id_continues l in Ret (emit_plain SK_LABEL l).

Definition single (k : OreSyntaxKind) l : outcome (LexCursor P) :=
  Ret (emit_plain k (advance l)).

(** [advance; match(c) ? yes : no]. *)
Definition one_or_two (c : byte) (yes no : OreSyntaxKind) l : outcome (LexCursor P) :=
  let '(b, l) := match_ c (advance l) in
  Ret (emit_plain (if b : bool then yes else no) l).

(** [if (match(c1)) .. else if (match(c2)) .. else ..] after one [advance]. *)
Definition one_of_two (c1 : byte) (k1 : OreSyntaxKind) (c2 : byte)
    (k2 no : OreSyntaxKind) l : outcome (LexCursor P) :=
  let '(b, l) := match_ c1 (advance l) in
  if b : bool then Ret (emit_plain k1 l) else
  let '(b, l) := match_ c2 l in
  Ret (emit_plain (if b : bool then k2 else no) l).

(** The same with three continuations. *)
Definition one_of_three (c1 : byte) (k1 : OreSyntaxKind) (c2 : byte)
    (k2 : OreSyntaxKind) (c3 : byte) (k3 no : OreSyntaxKind) l
    : outcome (LexCursor P) :=
  let '(b, l) := match_ c1 (advance l) in
  if b : bool then Ret (emit_plain k1 l) else
  let '(b, l) := match_ c2 l in
  if b : bool then Ret (emit_plain k2 l) else
  let '(b, l) := match_ c3 l in
  Ret (emit_plain (if b : bool then k3 else no) l).

Definition lex_colon l : outcome (LexCursor P) :=
  let l := advance l in
  let '(b, l) := match_ ":" l in
  if b : bool then Ret (emit_plain SK_COLON_COLON l) else
  let '(b, l) := match_ "=" l in
  if b : bool then Ret (emit_plain SK_COLON_EQ l) else
  if is_id_start (scur l) then lex_label l else Ret (emit_plain SK_COLON l).

Definition lex_slash l : outcome (LexCursor P) :=
  if Byte.eqb (peek_at l 1) "/" then lex_line_comment l
  else if Byte.eqb (peek_at l 1) "*" then lex_block_comment l
  else one_or_two "=" SK_SLASH_EQ SK_SLASH l.

Definition lex_dot l : outcome (LexCursor P) :=
  let l := advance l in
  let '(b, l) := match_ "." l in
  if negb b then Ret (emit_plain SK_DOT l) else
  let '(b, l) := match_ "." l in
  if b : bool then Ret (emit_plain SK_DOT_DOT_DOT l) else
  let '(b, l) := match_ "<" l in
  if b : bool then Ret (emit_plain SK_DOT_DOT_LT l) else
  let '(b, l) := match_ "=" l in
  Ret (emit_plain (if b : bool then SK_DOT_DOT_EQ else SK_DOT_DOT) l).

Definition scan_one l : outcome (LexCursor P) :=
  let c := curr l in
  if is_digit c then lex_number l
  else if is_id_start c then lex_identifier_or_keyword l
  else
    match c with
    | " " => lex_spaces l
    | x0a | x0d => lex_newline l
    | x09 => single SK_LEX_ERROR l
    | x22 => lex_string l
    | "'" => lex_byte_lit l
    | "`" =>
        if Byte.eqb (peek_at l 1) "`" && Byte.eqb (peek_at l 2) "`"
        then lex_asm_lit l
        else single SK_LEX_ERROR l
    | "(" => single SK_LPAREN l
    | ")" => single SK_RPAREN l
    | "[" => single SK_LBRACKET l
    | "]" => single SK_RBRACKET l
    | "{" => single SK_LBRACE l
    | "}" => single SK_RBRACE l
    | ";" => single SK_SEMI l
    | "," => single SK_COMMA l
    | "@" => single SK_AT l
    | "#" => single SK_HASH l
    | "~" => one_or_two "=" SK_TILDE_EQ SK_TILDE l
    | "?" => single SK_QUESTION l
    | "^" => single SK_CARET l
    | "+" => one_of_two "=" SK_PLUS_EQ "+" SK_PLUS_PLUS SK_PLUS l
    | "-" => one_of_three ">" SK_RARROW "=" SK_MINUS_EQ "-" SK_MINUS_MINUS SK_MINUS l
    | "*" => one_of_two "=" SK_STAR_EQ "*" SK_STAR_STAR SK_STAR l
    | "%" => one_or_two "=" SK_PERCENT_EQ SK_PERCENT l
    | "&" => one_of_two "&" SK_AMP_AMP "=" SK_AMP_EQ SK_AMP l
    | "|" => one_of_two "|" SK_PIPE_PIPE "=" SK_PIPE_EQ SK_PIPE l
    | "!" => one_or_two "=" SK_BANG_EQ SK_BANG l
    | "=" => one_of_two "=" SK_EQ_EQ ">" SK_FATARROW SK_EQ l
    | "<" => one_of_three "=" SK_LE "<" SK_SHL "-" SK_LARROW SK_LT l
    | ">" => one_of_two "=" SK_GE ">" SK_SHR SK_GT l
    | ":" => lex_colon l
    | "/" => lex_slash l
    | "." => lex_dot l
    | _ => single SK_LEX_ERROR l
    end.

(** ** Public entry *)

(** [(Token){0}]: what [pending] holds before the first token. *)
Definition zero_token : Token := mkToken SK_NONE 0 0 0.

Definition lex_begin (src : list byte) (pl : P) : LexCursor P :=
  let len := N.of_nat (length src) in
  let start :=
    if (3 <=? len)%N && Byte.eqb (nth 0 src x00) xef &&
       Byte.eqb (nth 1 src x00) xbb && Byte.eqb (nth 2 src x00) xbf
    then 3%N else 0%N in
  mkLex src len start 0 pl [start] zero_token false.

(** Returns the token and the updated cursor. *)
Definition lex_next l : outcome (Token * LexCursor P) :=
  if eof_emitted l then Ret (pending l, l)
  else if (source_len l <=? pos l)%N then
    let l := set_eof_emitted true (emit_plain SK_EOF (set_tok_start (pos l) l)) in
    Ret (pending l, l)
  else
    let! l := scan_one (set_tok_start (pos l) l) in Ret (pending l, l).

Fixpoint lex_loop (fuel : nat) l (out : list Token)
    : outcome (list Token * LexCursor P) :=
  match fuel with
  | O => OutOfFuel
  | S f =>
      let! (t, l) := lex_next l in
      let out := out ++ [t] in
      if kind_eqb (kind t) SK_EOF then Ret (out, l) else lex_loop f l out
  end.

(** [lex]: the token vector and the final cursor (whose [line_starts] is the
    line-start vector and whose [pool] is the updated pool). *)
Definition lex (src : list byte) (pl : P) : outcome (list Token * LexCursor P) :=
  let l := lex_begin src pl in
  lex_loop (S (S (length src))) l [].

End SubLexers.
End Lexer.
