(* ===== verification/LexerFacts.v ===== *)
(** * The lexer: invariants and theorems

    [adv] is the relation every cursor operation respects: the source is
    untouched, the position moves forward within the source, and recorded line
    starts follow a newline byte.  Each sub-lexer refines it, [scan_one] emits
    exactly one token covering the bytes it consumed, and [lex] is total and
    tiles the source. *)

From Stdlib Require Import Sorting.Sorted.
From stdpp Require Import relations.
From S2P Require Import Prelude SyntaxKind Token Interner Lexer.
Import SyntaxKind Token Lexer.

Module LexerFacts.

#[local] Open Scope byte_scope.

Section Facts.
Context {P : Type} `{!Interner P}.
Implicit Types l : LexCursor P.

(** ** Well-formed cursors and the advance relation *)

(** [source_len] is a [uint32_t] and is the length of the buffer. *)
Record wf (l : LexCursor P) : Prop := {
  wf_len : source_len l = N.of_nat (length (source l));
  wf_u32 : (source_len l < 2 ^ 32)%N;
  wf_pos : (pos l <= source_len l)%N
}.

(** Byte [p - 1] ends a line. *)
Definition after_newline (src : list byte) (p : N) : Prop :=
  (0 < p)%N /\ (nth (N.to_nat (p - 1)) src x00 = x0a \/
                nth (N.to_nat (p - 1)) src x00 = x0d).

Definition increasing (ls : list N) : Prop := StronglySorted N.lt ls.

(** New line starts between two positions. *)
Definition starts_within (src : list byte) (a b : N) (ls : list N) : Prop :=
  increasing ls /\ Forall (fun p => (a < p <= b)%N /\ after_newline src p) ls.

(** The pool after interning some strings of at most [n] bytes. *)
Definition interns (n : nat) : P -> P -> Prop :=
  rtc (fun p q => exists s, (length s <= n)%nat /\ q = fst (pool_intern p s)).

Lemma interns_refl n p : interns n p p.
Proof. apply rtc_refl. Qed.

Lemma interns_once n p s : (length s <= n)%nat -> interns n p (fst (pool_intern p s)).
Proof. intros H. apply rtc_once. by exists s. Qed.

Lemma interns_trans n p q r : interns n p q -> interns n q r -> interns n p r.
Proof. unfold interns. intros H1 H2. by etrans. Qed.

#[local] Hint Extern 0 (interns _ _ _) => exact (interns_refl _ _) : core.

Lemma sub_bytes_le src a n : (length (sub_bytes src a n) <= length src)%nat.
Proof. unfold sub_bytes. rewrite length_take, length_drop. lia. Qed.

Record adv (l l' : LexCursor P) : Prop := {
  adv_source : source l' = source l;
  adv_len : source_len l' = source_len l;
  adv_start : tok_start l' = tok_start l;
  adv_eof : eof_emitted l' = eof_emitted l;
  adv_pos : (pos l <= pos l')%N;
  adv_bound : (pos l' <= source_len l)%N;
  adv_lines : exists ls, line_starts l' = line_starts l ++ ls /\
                         starts_within (source l) (pos l) (pos l') ls;
  adv_pool : interns (length (source l)) (pool l) (pool l')
}.

Lemma starts_within_nil src a b : starts_within src a b [].
Proof. split; constructor. Qed.

Lemma starts_within_app src a b c ls ms :
  (a <= b)%N -> (b <= c)%N ->
  starts_within src a b ls -> starts_within src b c ms ->
  starts_within src a c (ls ++ ms).
Proof.
  intros Hab Hbc [Hs1 Hf1] [Hs2 Hf2]. split.
  - induction Hs1 as [|x ls Hs1 IH Hx]; simpl; [done|].
    apply Forall_cons in Hf1 as [[Hx1 _] Hf1]. constructor; [by apply IH|].
    apply Forall_app. split; [done|].
    eapply Forall_impl; [exact Hf2|]. simpl. intros; lia.
  - apply Forall_app; split; [eapply Forall_impl; [exact Hf1|]|
                              eapply Forall_impl; [exact Hf2|]];
      simpl; intros p [? ?]; (split; [lia|done]).
Qed.

Lemma adv_refl l : wf l -> adv l l.
Proof.
  intros [? ? ?]. split; try done. exists []. rewrite app_nil_r.
  split; [done|apply starts_within_nil].
Qed.

Lemma adv_wf l l' : wf l -> adv l l' -> wf l'.
Proof. intros [? ? ?] [? ? ? ? ? ? ? ?]. split; congruence. Qed.

Lemma adv_trans l1 l2 l3 : adv l1 l2 -> adv l2 l3 -> adv l1 l3.
Proof.
  intros [S1 L1 T1 E1 P1 B1 (ls & H1 & W1) Q1] [S2 L2 T2 E2 P2 B2 (ms & H2 & W2) Q2].
  rewrite S1 in Q2. split; try congruence; [lia| |by eapply interns_trans].
  exists (ls ++ ms). rewrite H2, H1, app_assoc. split; [done|].
  rewrite S1 in W2. eapply starts_within_app; [exact P1|exact P2|done|done].
Qed.

(** ** Reading the source *)

Lemma byte_at_in l p : wf l -> byte_at l p <> x00 -> (p < source_len l)%N.
Proof.
  intros W H. destruct (N.lt_ge_cases p (source_len l)); [done|].
  destruct H. unfold byte_at. apply nth_overflow. rewrite (wf_len _ W) in *. lia.
Qed.

(** The unchecked sentinel read agrees with the bounds-checked one. *)
Lemma curr_scur l : wf l -> curr l = scur l.
Proof.
  intros W. unfold curr, peek_at, scur. rewrite N.add_0_r, u32_small
    by (pose proof (wf_u32 _ W); pose proof (wf_pos _ W); lia).
  destruct (_ <=? _)%N eqn:E; [|done]. apply N.leb_le in E.
  symmetry. apply nth_overflow. rewrite (wf_len _ W) in E. lia.
Qed.

Lemma curr_in l : wf l -> curr l <> x00 -> (pos l < source_len l)%N.
Proof. intros W H. rewrite (curr_scur _ W) in H. by apply byte_at_in. Qed.

Lemma pos_lt_curr l : wf l -> (pos l < source_len l)%N -> curr l = byte_at l (pos l).
Proof. intros W _. by rewrite curr_scur. Qed.

Lemma scur_in l : wf l -> scur l <> x00 -> (pos l < source_len l)%N.
Proof. intros W. apply byte_at_in, W. Qed.

(** ** Advancing *)

Lemma adv_set_pos l p :
  wf l -> (pos l <= p)%N -> (p <= source_len l)%N -> adv l (set_pos p l).
Proof.
  intros W ? ?. split; try done. exists []. simpl. rewrite app_nil_r.
  split; [done|apply starts_within_nil].
Qed.

Lemma adv_advance l : wf l -> adv l (advance l).
Proof.
  intros W. unfold advance. destruct (_ <? _)%N eqn:E; [|by apply adv_refl].
  apply N.ltb_lt in E. apply adv_set_pos; [done|lia|lia].
Qed.

Lemma pos_advance l : (pos l < source_len l)%N -> pos (advance l) = (pos l + 1)%N.
Proof. intros H. unfold advance. by rewrite (proj2 (N.ltb_lt _ _) H). Qed.

Lemma line_starts_advance l : line_starts (advance l) = line_starts l.
Proof. unfold advance. by destruct (_ <? _)%N. Qed.

Lemma adv_match l c b l' : wf l -> match_ c l = (b, l') -> adv l l'.
Proof.
  intros W. unfold match_. destruct (negb _); intros [= <- <-];
    [by apply adv_refl|by apply adv_advance].
Qed.

(** The state after [advance] when a byte is left. *)
Lemma adv_advance_lt l :
  wf l -> (pos l < source_len l)%N -> adv l (advance l) /\ (pos l < pos (advance l))%N.
Proof. intros W H. split; [by apply adv_advance|]. rewrite pos_advance by done. lia. Qed.

(** A condition that holds only before the end of the source. *)
Definition guarded (cond : LexCursor P -> bool) : Prop :=
  forall l, wf l -> cond l = true -> (pos l < source_len l)%N.

Lemma set_pos_id l : set_pos (pos l) l = l.
Proof. by destruct l. Qed.

Lemma set_pos_set_pos p q l : set_pos p (set_pos q l) = set_pos p l.
Proof. done. Qed.

Lemma wf_set_pos l p : wf l -> (p <= source_len l)%N -> wf (set_pos p l).
Proof. intros [? ? ?] ?. by split. Qed.

(** Maximal munch: the loop stops at the first position where [cond] fails. *)
Lemma scan_while_spec cond l :
  guarded cond -> wf l ->
  exists p, scan_while cond l = Ret (set_pos p l) /\
    (pos l <= p <= source_len l)%N /\ cond (set_pos p l) = false /\
    (forall q, (pos l <= q < p)%N -> cond (set_pos q l) = true).
Proof.
  intros G W.
  destruct (while_loop_done
    (fun x => exists p, x = set_pos p l /\ (pos l <= p <= source_len l)%N /\
       (forall q, (pos l <= q < p)%N -> cond (set_pos q l) = true))
    (fun x => N.to_nat (source_len l - pos x)) cond inc_pos) with
    (fuel := scan_fuel l) (s := l) as (l' & H1 & (p & -> & H2 & H3) & H4).
  - intros x (p & -> & Hp & Hq) Hc.
    pose proof (G _ (wf_set_pos l p W (proj2 Hp)) Hc) as Hlt. simpl in Hlt. split.
    + exists (p + 1)%N. split; [done|]. split; [lia|]. intros q Hr.
      destruct (N.eq_dec q p) as [->|]; [done|]. apply Hq; lia.
    + simpl. lia.
  - exists (pos l). rewrite set_pos_id. pose proof (wf_pos _ W).
    split; [done|]. split; [lia|]. intros; lia.
  - unfold scan_fuel. lia.
  - exists p. done.
Qed.

(** The first iteration runs when the condition holds at the start. *)
Lemma scan_while_progress cond l p :
  cond l = true -> cond (set_pos p l) = false -> (pos l <= p)%N -> (pos l < p)%N.
Proof.
  intros H1 H2 Hp. destruct (N.eq_dec p (pos l)) as [->|]; [|lia].
  rewrite set_pos_id in H2. congruence.
Qed.

(** Where [cond] is guarded, stepping with [advance] and with [pos++] agree. *)
Lemma advance_while_scan_while cond l :
  guarded cond -> wf l -> advance_while cond l = scan_while cond l.
Proof.
  intros G. unfold advance_while, scan_while. generalize (scan_fuel l).
  intros n. revert l. induction n as [|n IH]; intros l W; simpl; [done|].
  destruct (cond l) eqn:E; [|done]. pose proof (G l W E) as Hlt.
  assert (advance l = inc_pos l) as ->.
  { unfold advance. by rewrite (proj2 (N.ltb_lt _ _) Hlt). }
  apply IH. apply (adv_wf l); [done|]. apply adv_set_pos; [done|lia|lia].
Qed.

(** ** Emission *)

Lemma adv_emit l k sid : wf l -> adv l (emit k sid l).
Proof. intros W. split; try done; [apply (wf_pos _ W)|]. apply (adv_refl _ W). Qed.

Lemma adv_intern_range l a n l' sid :
  wf l -> intern_range a n l = (l', sid) -> adv l l' /\ pos l' = pos l.
Proof.
  intros W. unfold intern_range. destruct (pool_intern _ _) as [q i] eqn:E.
  intros [= <- <-]. split; [|done].
  split; try done; [apply (wf_pos _ W)|apply (adv_refl _ W)|].
  apply (f_equal fst) in E. simpl in *. subst q. apply interns_once, sub_bytes_le.
Qed.

(** The empty body of a malformed literal. *)
Lemma adv_intern_nil l q sid :
  wf l -> pool_intern (pool l) [] = (q, sid) -> adv l (set_pool q l).
Proof.
  intros W E. split; try done; [apply (wf_pos _ W)|apply (adv_refl _ W)|].
  apply (f_equal fst) in E. simpl in *. subst q. apply interns_once. simpl. lia.
Qed.

(** Recording a line start just after a newline byte was consumed. *)
Lemma adv_record l l1 :
  adv l l1 -> (pos l < pos l1)%N -> line_starts l1 = line_starts l ->
  after_newline (source l) (pos l1) -> adv l (record_line_start l1).
Proof.
  intros [S1 L1 T1 E1 P1 B1 _ Q1] Hlt HL Hn. split; try done.
  exists [pos l1]. unfold record_line_start. simpl. rewrite HL. split; [done|].
  split; [repeat constructor|]. constructor; [|done]. split; [lia|done].
Qed.

Lemma after_newline_advance l :
  wf l -> curr l = x0a \/ curr l = x0d ->
  (pos l < source_len l)%N /\ after_newline (source l) (pos (advance l)).
Proof.
  intros W H.
  assert (Hlt : (pos l < source_len l)%N) by
    (apply curr_in; [done|]; by destruct H as [-> | ->]).
  split; [done|]. rewrite pos_advance by done. split; [lia|].
  replace (pos l + 1 - 1)%N with (pos l) by lia.
  rewrite curr_scur in H by done. exact H.
Qed.

Lemma adv_skip_lf l : wf l -> curr l = x0a -> adv l (skip_lf l) /\ (pos l < pos (skip_lf l))%N.
Proof.
  intros W H. destruct (after_newline_advance l W (or_introl H)) as [Hlt Hn].
  pose proof (adv_advance_lt l W Hlt) as [Ha Hp]. unfold skip_lf. split; [|exact Hp].
  apply adv_record; [done|done|apply line_starts_advance|done].
Qed.

Lemma adv_skip_cr l : wf l -> curr l = x0d -> adv l (skip_cr l) /\ (pos l < pos (skip_cr l))%N.
Proof.
  intros W H. destruct (after_newline_advance l W (or_intror H)) as [Hlt Hn].
  pose proof (adv_advance_lt l W Hlt) as [Ha Hp]. unfold skip_cr.
  destruct (Byte.eqb (curr (advance l)) x0a) eqn:E.
  - apply byte_eqb_eq in E. pose proof (adv_wf _ _ W Ha) as Wa.
    destruct (after_newline_advance _ Wa (or_introl E)) as [Hlt2 Hn2].
    pose proof (adv_advance_lt _ Wa Hlt2) as [Ha2 Hp2].
    rewrite (adv_source _ _ Ha) in Hn2. split; [|simpl; lia].
    apply adv_record; [by eapply adv_trans|lia| |done].
    by rewrite !line_starts_advance.
  - split; [|done]. apply adv_record; [done|done|apply line_starts_advance|done].
Qed.

(** ** One token *)

(** Kinds the lexer produces before the end of the stream. *)
Definition real_kind (k : OreSyntaxKind) : bool :=
  ore_kind_is_token k && negb (kind_eqb k SK_EOF) && negb (ore_kind_is_virtual_layout k).

(** Those that are not identifiers. *)
Definition plain_kind (k : OreSyntaxKind) : bool := real_kind k && negb (kind_eqb k SK_IDENT).

Lemma plain_real k : plain_kind k = true -> real_kind k = true /\ k <> SK_IDENT.
Proof.
  intros [H1 H2]%andb_prop. split; [done|]. intros ->. discriminate H2.
Qed.

(** The last thing interned on the way to [q'] is the text, as [sid]. *)
Definition interned_as (n : nat) (p : P) (text : list byte) (sid : N) (q' : P) : Prop :=
  exists q, interns n p q /\ pool_intern q text = (q', sid).

(** A sub-lexer consumed some bytes and emitted one token that covers them; an
    identifier carries the id of its text. *)
Definition emits (l l' : LexCursor P) : Prop :=
  adv l l' /\ (pos l < pos l')%N /\
  exists k sid, real_kind k = true /\ pending l' = mkToken k sid (tok_start l') (pos l') /\
    (k = SK_IDENT -> interned_as (length (source l)) (pool l)
       (sub_bytes (source l) (tok_start l') (pos l' - tok_start l')) sid (pool l')).

Lemma emits_emit l l1 k sid :
  wf l -> adv l l1 -> (pos l < pos l1)%N -> plain_kind k = true -> emits l (emit k sid l1).
Proof.
  intros W Ha Hp [Hk Hi]%plain_real. pose proof (adv_wf _ _ W Ha) as W1. split.
  - eapply adv_trans; [exact Ha|by apply adv_emit].
  - split; [done|]. by exists k, sid.
Qed.

Lemma emits_plain l l1 k :
  wf l -> adv l l1 -> (pos l < pos l1)%N -> plain_kind k = true -> emits l (emit_plain k l1).
Proof. apply emits_emit. Qed.

Lemma emits_interned l l1 k :
  wf l -> adv l l1 -> (pos l < pos l1)%N -> real_kind k = true -> emits l (emit_interned k l1).
Proof.
  intros W Ha Hp Hk. unfold emit_interned.
  destruct (intern_range _ _ _) as [l2 sid] eqn:E.
  pose proof (adv_wf _ _ W Ha) as W1. pose proof E as E'.
  apply adv_intern_range in E' as [Ha2 Hp2]; [|done].
  pose proof (adv_trans _ _ _ Ha Ha2) as Ha3. split; [|split].
  - eapply adv_trans; [exact Ha3|]. apply adv_emit. by eapply adv_wf.
  - simpl. by rewrite Hp2.
  - exists k, sid. split; [done|]. split; [done|]. intros _. exists (pool l1).
    split; [apply Ha|]. unfold intern_range in E.
    destruct (pool_intern _ _) as [q i] eqn:Ei. injection E as <- <-. simpl in *.
    by rewrite <- (adv_source _ _ Ha).
Qed.

(** [emits] from an earlier state with the same token start. *)
Lemma emits_adv l l1 l2 : adv l l1 -> emits l1 l2 -> emits l l2.
Proof.
  intros Ha (Hb & Hp & k & sid & Hk & Ht & Hi). split; [by eapply adv_trans|].
  pose proof (adv_pos _ _ Ha). split; [lia|]. exists k, sid. split; [done|]. split; [done|].
  intros Hid. destruct (Hi Hid) as (q & Hq & E). exists q.
  rewrite (adv_source _ _ Ha) in Hq, E. split; [|done].
  eapply interns_trans; [apply Ha|exact Hq].
Qed.

(** The sub-lexers return and emit. *)
Definition lexes (m : outcome (LexCursor P)) (l : LexCursor P) : Prop :=
  exists l', m = Ret l' /\ emits l l'.

Lemma lexes_ret l l' : emits l l' -> lexes (Ret l') l.
Proof. intros. by exists l'. Qed.

(** ** Guards of the scanning loops *)

Lemma is_id_cont_nul : is_id_cont x00 = false.
Proof. reflexivity. Qed.

(** A test of the current byte that the sentinel fails is a guard. *)
Lemma guarded_scur (f : byte -> bool) (cond : LexCursor P -> bool) :
  f x00 = false -> (forall l, cond l = true -> f (scur l) = true) -> guarded cond.
Proof.
  intros Hf Hc l W H. apply scur_in; [done|]. intros E.
  specialize (Hc l H). rewrite E in Hc. congruence.
Qed.

Lemma guarded_id_continues : guarded id_continues.
Proof.
  apply (guarded_scur (fun c => is_id_cont c || Byte.eqb c "-")); [done|].
  intros l H. unfold id_continues in H. apply orb_true_iff in H as [->|H]; [done|].
  apply andb_prop in H as [-> _]. apply orb_true_r.
Qed.

Lemma guarded_decimal : guarded (fun l => is_digit (scur l) || Byte.eqb (scur l) "_").
Proof. by apply (guarded_scur (fun c => is_digit c || Byte.eqb c "_")). Qed.

Lemma guarded_curr (f : byte -> bool) :
  f x00 = false -> guarded (fun l => f (curr l)).
Proof.
  intros Hf l W H. apply curr_in; [done|]. intros E. rewrite E in H. congruence.
Qed.

(** Scanning refines [adv]. *)
Lemma adv_scan_while cond l :
  guarded cond -> wf l ->
  exists l', scan_while cond l = Ret l' /\ adv l l' /\
    (cond l = true -> (pos l < pos l')%N).
Proof.
  intros G W. destruct (scan_while_spec cond l G W) as (p & -> & Hp & Hf & Ht).
  exists (set_pos p l). split; [done|]. split; [apply adv_set_pos; [done|lia|lia]|].
  intros H. apply (scan_while_progress cond l p); [done|done|lia].
Qed.

(** ** The sub-lexers *)

Lemma real_keyword s : kind_eqb (keyword_kind s) SK_IDENT = false ->
  plain_kind (keyword_kind s) = true.
Proof.
  intros H. unfold plain_kind. rewrite H. revert H. rewrite andb_true_r.
  unfold keyword_kind, MK.
  repeat first [by intros _ | case_match].
Qed.

Lemma lex_identifier_lexes l :
  wf l -> is_id_start (curr l) = true -> lexes (lex_identifier_or_keyword l) l.
Proof.
  intros W Hc. unfold lex_identifier_or_keyword.
  destruct (adv_scan_while id_continues l guarded_id_continues W) as (l1 & -> & Ha & Hp).
  assert (Hlt : (pos l < pos l1)%N).
  { apply Hp. unfold id_continues, is_id_cont. rewrite <- curr_scur by done. by rewrite Hc. }
  simpl. split_if; [by apply lexes_ret, emits_plain|].
  split_if; apply lexes_ret; [by apply emits_interned|].
  apply emits_plain; auto using real_keyword.
Qed.

(** Consuming a base prefix or a sign leaves the cursor well formed and ahead. *)
Lemma lexes_interned_scan l l1 cond k :
  wf l -> adv l l1 -> (pos l < pos l1)%N -> guarded cond -> real_kind k = true ->
  lexes (let! l2 := scan_while cond l1 in Ret (emit_interned k l2)) l.
Proof.
  intros W Ha Hp G Hk. pose proof (adv_wf _ _ W Ha) as W1.
  destruct (adv_scan_while cond l1 G W1) as (l2 & -> & Ha2 & _). simpl.
  apply lexes_ret, emits_interned; [done|by eapply adv_trans| |done].
  pose proof (adv_pos _ _ Ha2). lia.
Qed.

Lemma scan_digits_adv l l1 :
  wf l -> adv l l1 -> (pos l < pos l1)%N ->
  exists l2, scan_decimal_digits l1 = Ret l2 /\ adv l l2 /\ (pos l < pos l2)%N.
Proof.
  intros W Ha Hp. pose proof (adv_wf _ _ W Ha) as W1.
  destruct (adv_scan_while _ l1 guarded_decimal W1) as (l2 & E & Ha2 & _).
  exists l2. split; [exact E|]. split; [by eapply adv_trans|].
  pose proof (adv_pos _ _ Ha2). lia.
Qed.

Lemma lex_number_lexes l :
  wf l -> is_digit (curr l) = true -> lexes (lex_number l) l.
Proof.
  intros W Hc.
  assert (Hlt : (pos l < source_len l)%N)
    by (apply curr_in; [done|]; intros E; by rewrite E in Hc).
  pose proof (adv_advance_lt l W Hlt) as [Ha Hp]. unfold lex_number.
  split_if.
  - pose proof (adv_wf _ _ W Ha) as Wa. pose proof (adv_advance _ Wa) as Ha2.
    pose proof (adv_pos _ _ Ha2).
    split_if; [|split_if];
      (apply lexes_interned_scan; [done|by eapply adv_trans|lia| |done]).
    + by apply (guarded_scur (fun c => is_hex_digit c || Byte.eqb c "_")).
    + by apply (guarded_scur (fun c => Byte.eqb c "0" || Byte.eqb c "1" || Byte.eqb c "_")).
    + by apply (guarded_scur (fun c => (48 <=? Byte.to_N c)%N && (Byte.to_N c <=? 55)%N ||
                                       Byte.eqb c "_")).
  - assert (exists l1, scan_decimal_digits l = Ret l1 /\ adv l l1 /\ (pos l < pos l1)%N)
      as (l1 & -> & Ha1 & Hp1).
    { destruct (adv_scan_while _ l guarded_decimal W) as (l2 & E2 & Ha2 & Hp2).
      exists l2. split; [exact E2|]. split; [done|]. apply Hp2.
      rewrite <- curr_scur by done. by rewrite Hc. }
    simpl.
    (* fraction *)
    match goal with |- lexes (obind ?m _) _ =>
      assert (exists f l2, m = Ret (f, l2) /\ adv l l2 /\ (pos l < pos l2)%N)
        as (f & l2 & -> & Ha2 & Hp2)
    end.
    { split_if; [|by exists false, l1].
      pose proof (adv_advance _ (adv_wf _ _ W Ha1)) as Hx. pose proof (adv_pos _ _ Hx).
      destruct (scan_digits_adv l (advance l1)) as (l2 & -> & ? & ?);
        [done|by eapply adv_trans|lia|]. by exists true, l2. }
    simpl.
    (* exponent *)
    match goal with |- lexes (obind ?m _) _ =>
      assert (exists g l3, m = Ret (g, l3) /\ adv l l3 /\ (pos l < pos l3)%N)
        as (g & l3 & -> & Ha3 & Hp3)
    end.
    { split_if; [|by exists f, l2].
      match goal with |- context [is_digit ?x] => destruct (is_digit x) end;
        [|by exists f, l2].
      match goal with |- context [scan_decimal_digits ?x] => set (l3 := x) end.
      pose proof (adv_advance _ (adv_wf _ _ W Ha2)) as Hx. pose proof (adv_pos _ _ Hx).
      assert (Hl3 : adv l l3 /\ (pos l < pos l3)%N).
      { subst l3. split_if; [|split; [by eapply adv_trans|lia]].
        pose proof (adv_advance _ (adv_wf _ _ (adv_wf _ _ W Ha2) Hx)) as Hy.
        pose proof (adv_pos _ _ Hy). split; [eauto using adv_trans|lia]. }
      destruct Hl3 as [Hl3 Hl3p].
      destruct (scan_digits_adv l l3) as (l4 & -> & ? & ?); [done..|].
      by exists true, l4. }
    simpl. apply lexes_ret, emits_interned; [done..|]. by destruct g.
Qed.

(** Fuel left after the cursor moved forward. *)
Lemma fuel_step l l2 f :
  adv l l2 -> (pos l < pos l2)%N ->
  (N.to_nat (source_len l - pos l) < S f)%nat ->
  (N.to_nat (source_len l2 - pos l2) < f)%nat.
Proof. intros [_ -> _ _ _ ? _ _] ?. lia. Qed.

Lemma adv_hex_escape i l : wf l -> adv l (hex_escape i l).
Proof.
  revert l. induction i as [|i IH]; intros l W; simpl; [by apply adv_refl|].
  split_if; [by apply adv_refl|]. pose proof (adv_advance l W) as Ha.
  eapply adv_trans; [exact Ha|]. apply IH. by eapply adv_wf.
Qed.

Lemma scan_quoted_loop_spec q f l :
  q <> x00 -> wf l -> (N.to_nat (source_len l - pos l) < f)%nat ->
  exists ok l', scan_quoted_loop f q l = Ret (ok, l') /\ adv l l'.
Proof.
  intros Hq. revert l. induction f as [|f IH]; intros l W Hf; [lia|]. simpl.
  assert (Hrec : forall l2, adv l l2 -> (pos l < pos l2)%N ->
    exists ok l', scan_quoted_loop f q l2 = Ret (ok, l') /\ adv l l').
  { intros l2 Ha Hp. destruct (IH l2) as (ok & l' & E & Hx);
      [by eapply adv_wf|by eapply fuel_step|].
    exists ok, l'. split; [done|by eapply adv_trans]. }
  destruct (Byte.eqb (curr l) q) eqn:E1; [by eauto using adv_advance|].
  destruct (Byte.eqb (curr l) x00 || _ || _) eqn:E2; [by eauto using adv_refl|].
  assert (Hlt : (pos l < source_len l)%N).
  { apply curr_in; [done|]. intros E. rewrite E in E2. done. }
  pose proof (adv_advance_lt l W Hlt) as [Ha Hp].
  destruct (Byte.eqb (curr l) "\") eqn:E3; [|by apply Hrec].
  pose proof (adv_wf _ _ W Ha) as Wa. pose proof (adv_advance _ Wa) as Ha2.
  pose proof (adv_pos _ _ Ha2).
  assert (Hesc : adv l (hex_escape 2 (advance (advance l)))).
  { eapply adv_trans; [exact Ha|]. eapply adv_trans; [exact Ha2|].
    apply adv_hex_escape. by eapply adv_wf. }
  assert (Hnext : forall l2, adv (advance l) l2 ->
    exists ok l', scan_quoted_loop f q l2 = Ret (ok, l') /\ adv l l').
  { intros l2 Hx. pose proof (adv_pos _ _ Hx).
    apply Hrec; [exact (adv_trans _ _ _ Ha Hx)|lia]. }
  pose proof (Hnext _ Ha2) as H1.
  pose proof (Hnext _ (adv_trans _ _ _ Ha2 (adv_hex_escape 2 _ (adv_wf _ _ Wa Ha2)))) as H2.
  destruct (curr (advance l)); solve [exact H1 | exact H2 | by exists false, (advance l)].
Qed.

Lemma scan_quoted_adv q l :
  q <> x00 -> wf l -> (pos l < source_len l)%N ->
  exists ok l', scan_quoted q l = Ret (ok, l') /\ adv l l' /\ (pos l < pos l')%N.
Proof.
  intros Hq W Hlt. pose proof (adv_advance_lt l W Hlt) as [Ha Hp]. unfold scan_quoted.
  destruct (scan_quoted_loop_spec q (scan_fuel (advance l)) (advance l))
    as (ok & l' & E & Hx); [done|by eapply adv_wf|unfold scan_fuel; lia|].
  exists ok, l'. split; [done|]. split; [by eapply adv_trans|].
  pose proof (adv_pos _ _ Hx). lia.
Qed.

Lemma adv_intern_quoted_body l l' sid :
  wf l -> intern_quoted_body l = (l', sid) -> adv l l' /\ pos l' = pos l.
Proof.
  intros W. unfold intern_quoted_body. split_if; [|by apply adv_intern_range].
  destruct (pool_intern _ _) eqn:Ei. intros [= <- <-]. split; [by eapply adv_intern_nil|done].
Qed.

Lemma lex_string_lexes l : wf l -> (pos l < source_len l)%N -> lexes (lex_string l) l.
Proof.
  intros W Hlt. unfold lex_string.
  destruct (scan_quoted_adv x22 l) as (ok & l1 & -> & Ha & Hp); [done..|]. simpl.
  split_if; [by apply lexes_ret, emits_plain|].
  destruct (intern_quoted_body l1) as [l2 sid] eqn:Ei.
  apply adv_intern_quoted_body in Ei as [Ha2 Hp2]; [|by eapply adv_wf].
  apply lexes_ret, emits_emit; [done|by eapply adv_trans|by rewrite Hp2|done].
Qed.

Lemma lex_byte_lit_lexes l : wf l -> (pos l < source_len l)%N -> lexes (lex_byte_lit l) l.
Proof.
  intros W Hlt. unfold lex_byte_lit.
  destruct (scan_quoted_adv "'" l) as (ok & l1 & -> & Ha & Hp); [done..|]. simpl.
  split_if; [by apply lexes_ret, emits_plain|].
  destruct (intern_quoted_body l1) as [l2 sid] eqn:Ei.
  apply adv_intern_quoted_body in Ei as [Ha2 Hp2]; [|by eapply adv_wf].
  apply lexes_ret, emits_emit; [done|by eapply adv_trans|by rewrite Hp2|done].
Qed.

(** Two advances over two known bytes. *)
Lemma adv_advance2 l :
  wf l -> (pos l < source_len l)%N ->
  adv l (advance (advance l)) /\ (pos l < pos (advance (advance l)))%N.
Proof.
  intros W Hlt. pose proof (adv_advance_lt l W Hlt) as [Ha Hp].
  pose proof (adv_advance _ (adv_wf _ _ W Ha)) as Hb. pose proof (adv_pos _ _ Hb).
  split; [exact (adv_trans _ _ _ Ha Hb)|lia].
Qed.

Lemma adv_advance3 l :
  wf l -> (pos l < source_len l)%N ->
  adv l (advance (advance (advance l))) /\ (pos l < pos (advance (advance (advance l))))%N.
Proof.
  intros W Hlt. pose proof (adv_advance2 l W Hlt) as [Ha Hp].
  pose proof (adv_advance _ (adv_wf _ _ W Ha)) as Hb. pose proof (adv_pos _ _ Hb).
  split; [exact (adv_trans _ _ _ Ha Hb)|lia].
Qed.

Lemma adv_advance_while cond l :
  guarded cond -> wf l -> exists l', advance_while cond l = Ret l' /\ adv l l'.
Proof.
  intros G W. rewrite advance_while_scan_while by done.
  destruct (adv_scan_while cond l G W) as (l' & -> & ? & _). eauto.
Qed.

Lemma lex_line_comment_lexes l :
  wf l -> (pos l < source_len l)%N -> lexes (lex_line_comment l) l.
Proof.
  intros W Hlt. pose proof (adv_advance2 l W Hlt) as [Ha Hp]. unfold lex_line_comment.
  match goal with |- context [advance_while ?c ?x] =>
    destruct (adv_advance_while c x) as (l1 & -> & Ha1) end.
  - by apply (guarded_curr (fun c => negb (Byte.eqb c x00) && negb (Byte.eqb c x0a) &&
                                     negb (Byte.eqb c x0d))).
  - exact (adv_wf _ _ W Ha).
  - simpl. pose proof (adv_pos _ _ Ha1).
    apply lexes_ret, emits_interned; [done|exact (adv_trans _ _ _ Ha Ha1)|lia|done].
Qed.

(** The body of a loop that consumes something may go on from [l2]. *)
Lemma lexes_step m l l2 : adv l l2 -> lexes m l2 -> lexes m l.
Proof. intros Ha (l' & -> & He). exists l'. split; [done|by eapply emits_adv]. Qed.

(** The loops over comment and asm bodies start after the opening delimiter: they
    emit relative to the state [l0] where the token began. *)
Definition lexes_from (l0 : LexCursor P) (m : outcome (LexCursor P)) (l : LexCursor P) : Prop :=
  wf l0 -> adv l0 l -> (pos l0 < pos l)%N -> lexes m l0.

Lemma block_comment_loop_lexes l0 f depth l :
  (N.to_nat (source_len l - pos l) < f)%nat ->
  lexes_from l0 (block_comment_loop f depth l) l.
Proof.
  revert depth l. induction f as [|f IH]; intros depth l Hf W0 H0 Hp0; [lia|]. simpl.
  pose proof (adv_wf _ _ W0 H0) as W.
  assert (Hrec : forall d l2, adv l l2 -> (pos l < pos l2)%N ->
                 lexes (block_comment_loop f d l2) l0).
  { intros d l2 Ha Hp. apply (IH d l2 (fuel_step _ _ _ Ha Hp Hf) W0);
      [exact (adv_trans _ _ _ H0 Ha)|lia]. }
  destruct (Byte.eqb (curr l) x00) eqn:E0; [by apply lexes_ret, emits_plain|].
  assert (Hlt : (pos l < source_len l)%N)
    by (apply curr_in; [done|]; intros E; by rewrite E in E0).
  pose proof (adv_advance2 l W Hlt) as [Ha2 Hp2].
  split_if; [by apply Hrec|].
  split_if.
  { split_if; [|by apply Hrec].
    apply lexes_ret, emits_interned; [done|exact (adv_trans _ _ _ H0 Ha2)|lia|done]. }
  split_if; [|split_if].
  - breflect. destruct (adv_skip_lf l W) as [? ?]; [done|by apply Hrec].
  - breflect. destruct (adv_skip_cr l W) as [? ?]; [done|by apply Hrec].
  - pose proof (adv_advance_lt l W Hlt) as [? ?]. by apply Hrec.
Qed.

Lemma lex_block_comment_lexes l :
  wf l -> (pos l < source_len l)%N -> lexes (lex_block_comment l) l.
Proof.
  intros W Hlt. pose proof (adv_advance2 l W Hlt) as [Ha Hp].
  apply (block_comment_loop_lexes l (scan_fuel (advance (advance l))));
    [unfold scan_fuel; lia|done..].
Qed.

Lemma asm_lit_loop_lexes l0 f l :
  (N.to_nat (source_len l - pos l) < f)%nat -> lexes_from l0 (asm_lit_loop f l) l.
Proof.
  revert l. induction f as [|f IH]; intros l Hf W0 H0 Hp0; [lia|]. simpl.
  pose proof (adv_wf _ _ W0 H0) as W.
  assert (Hrec : forall l2, adv l l2 -> (pos l < pos l2)%N -> lexes (asm_lit_loop f l2) l0).
  { intros l2 Ha Hp. apply (IH l2 (fuel_step _ _ _ Ha Hp Hf) W0);
      [exact (adv_trans _ _ _ H0 Ha)|lia]. }
  destruct (Byte.eqb (curr l) x00) eqn:E0; [by apply lexes_ret, emits_plain|].
  assert (Hlt : (pos l < source_len l)%N)
    by (apply curr_in; [done|]; intros E; by rewrite E in E0).
  split_if.
  { pose proof (adv_advance3 l W Hlt) as [Ha3 Hp3].
    set (l3 := advance (advance (advance l))) in *.
    match goal with |- lexes (let '(_, _) := ?m in _) _ =>
      assert (exists l4 sid, m = (l4, sid) /\ adv l3 l4 /\ pos l4 = pos l3)
        as (l4 & sid & -> & Ha4 & Hp4)
    end.
    { pose proof (adv_wf _ _ W Ha3) as W3. destruct (6 <=? _)%N.
      - destruct (intern_range _ _ _) as [l4 sid] eqn:Ei.
        apply adv_intern_range in Ei as [? ?]; [|done]. by exists l4, sid.
      - destruct (pool_intern _ _) as [q sid] eqn:Ei. exists (set_pool q l3), sid.
        split; [done|]. split; [by eapply adv_intern_nil|done]. }
    apply lexes_ret, emits_emit; [done| |rewrite Hp4; lia|done].
    exact (adv_trans _ _ _ H0 (adv_trans _ _ _ Ha3 Ha4)). }
  split_if; [|split_if].
  - breflect. destruct (adv_skip_lf l W) as [? ?]; [done|by apply Hrec].
  - breflect. destruct (adv_skip_cr l W) as [? ?]; [done|by apply Hrec].
  - pose proof (adv_advance_lt l W Hlt) as [? ?]. by apply Hrec.
Qed.

Lemma lex_asm_lit_lexes l :
  wf l -> (pos l < source_len l)%N -> lexes (lex_asm_lit l) l.
Proof.
  intros W Hlt. pose proof (adv_advance3 l W Hlt) as [Ha Hp].
  apply (asm_lit_loop_lexes l (scan_fuel (advance (advance (advance l)))));
    [unfold scan_fuel; lia|done..].
Qed.

(** ** Whitespace: the word-at-a-time loop *)

(** Eight bytes read as a word equal [0x2020202020202020] exactly when each of
    them is a space. *)
Lemma load_u64_spaces b :
  length b = 8%nat ->
  load_u64 b = 2314885530818453536%N <-> b = List.repeat " " 8.
Proof.
  intros Hl. destruct b as [|b0 [|b1 [|b2 [|b3 [|b4 [|b5 [|b6 [|b7 [|]]]]]]]]];
    try discriminate. unfold load_u64. simpl.
  pose proof (Byte.to_N_bounded b0). pose proof (Byte.to_N_bounded b1).
  pose proof (Byte.to_N_bounded b2). pose proof (Byte.to_N_bounded b3).
  pose proof (Byte.to_N_bounded b4). pose proof (Byte.to_N_bounded b5).
  pose proof (Byte.to_N_bounded b6). pose proof (Byte.to_N_bounded b7).
  assert (Hsp : forall x, Byte.to_N x = 32%N -> x = " ").
  { intros x Hx. apply (f_equal Byte.of_N) in Hx. rewrite Byte.of_to_N in Hx.
    by injection Hx. }
  split.
  - intros Hw. repeat f_equal; apply Hsp; lia.
  - intros [= -> -> -> -> -> -> -> ->]. reflexivity.
Qed.

Lemma swar_guard l : wf l -> swar_spaces l = true ->
  (pos l + 8 <= source_len l)%N /\
  (forall q, (pos l <= q < pos l + 8)%N -> byte_at l q = " ").
Proof.
  intros W H. unfold swar_spaces in H. breflect. split; [done|]. intros q Hq.
  assert (Hl : length (sub_bytes (source l) (pos l) 8) = 8%nat).
  { rewrite sub_bytes_length; [done|]. rewrite <- (wf_len _ W). lia. }
  apply load_u64_spaces in H0; [|done].
  assert (Hn : nth (N.to_nat (q - pos l)) (sub_bytes (source l) (pos l) 8) x00 = " ").
  { rewrite H0. apply (List.Forall_nth (fun x => x = " ")); [|rewrite List.repeat_length; lia].
    apply List.Forall_forall. intros x Hx. by apply List.repeat_spec in Hx. }
  unfold sub_bytes in Hn.
  rewrite !nth_lookup in Hn. rewrite lookup_take_lt in Hn by lia.
  rewrite lookup_drop in Hn. unfold byte_at. rewrite nth_lookup.
  replace (N.to_nat q) with (N.to_nat (pos l) + N.to_nat (q - pos l))%nat by lia. done.
Qed.

Lemma guarded_space : guarded (fun l => Byte.eqb (curr l) " ").
Proof. by apply (guarded_curr (fun c => Byte.eqb c " ")). Qed.

(** The word loop skips over spaces only. *)
Lemma swar_loop_spec l :
  wf l ->
  exists q, while_loop (scan_fuel l) swar_spaces (fun l => set_pos (pos l + 8) l) l
              = Ret (set_pos q l) /\
    (pos l <= q <= source_len l)%N /\
    (forall r, (pos l <= r < q)%N -> byte_at l r = " ").
Proof.
  intros W.
  destruct (while_loop_done
    (fun x => exists q, x = set_pos q l /\ (pos l <= q <= source_len l)%N /\
       (forall r, (pos l <= r < q)%N -> byte_at l r = " "))
    (fun x => N.to_nat (source_len l - pos x)) swar_spaces
    (fun l => set_pos (pos l + 8) l)) with (fuel := scan_fuel l) (s := l)
    as (l' & H1 & (q & -> & H2 & H3) & _).
  - intros x (q & -> & Hq & Hsp) Hc.
    destruct (swar_guard (set_pos q l)) as [Hb Hs]; [apply wf_set_pos; [done|lia]|done|].
    simpl in *. split; [|lia]. exists (q + 8)%N. split; [done|]. split; [lia|].
    intros r Hr. destruct (N.lt_ge_cases r q); [apply Hsp; lia|].
    apply (Hs r). lia.
  - exists (pos l). rewrite set_pos_id. pose proof (wf_pos _ W).
    split; [done|]. split; [lia|]. intros; lia.
  - unfold scan_fuel. lia.
  - by exists q.
Qed.

(** [curr] at a position of the same source. *)
Lemma curr_set_pos l p : wf l -> (p <= source_len l)%N -> curr (set_pos p l) = byte_at l p.
Proof. intros W Hp. rewrite curr_scur; [done|by apply wf_set_pos]. Qed.

(** The byte-at-a-time loop alone. *)
Definition lex_spaces_scalar l : outcome (LexCursor P) :=
  let! l := advance_while (fun l => Byte.eqb (curr l) " ") l in
  Ret (emit_plain SK_WHITESPACE l).

(** Skipping spaces first does not change where the scalar loop stops. *)
Lemma advance_while_skip l q :
  wf l -> (pos l <= q <= source_len l)%N ->
  (forall r, (pos l <= r < q)%N -> byte_at l r = " ") ->
  advance_while (fun l => Byte.eqb (curr l) " ") (set_pos q l) =
  advance_while (fun l => Byte.eqb (curr l) " ") l.
Proof.
  intros W Hq Hsp. pose proof (wf_set_pos l q W (proj2 Hq)) as Wq.
  rewrite !advance_while_scan_while by (exact guarded_space || done).
  destruct (scan_while_spec _ l guarded_space W) as (p & -> & Hp & Hf & Ht).
  destruct (scan_while_spec _ _ guarded_space Wq) as (p' & -> & Hp' & Hf' & Ht').
  rewrite set_pos_set_pos in *. simpl in Hp'. f_equal. f_equal.
  rewrite curr_set_pos in Hf, Hf' by (done || lia).
  assert (q <= p)%N.
  { destruct (N.lt_ge_cases p q); [|done]. rewrite Hsp in Hf by lia. done. }
  destruct (N.lt_trichotomy p p') as [Hlt|[->|Hlt]]; [|done|].
  - specialize (Ht' p ltac:(simpl; lia)). rewrite set_pos_set_pos in Ht'.
    rewrite curr_set_pos in Ht' by (done || lia). congruence.
  - specialize (Ht p' ltac:(lia)). rewrite curr_set_pos in Ht by (done || lia). congruence.
Qed.

Lemma lex_spaces_swar l : wf l -> lex_spaces l = lex_spaces_scalar l.
Proof.
  intros W. unfold lex_spaces, lex_spaces_scalar.
  destruct (swar_loop_spec l W) as (q & -> & Hq & Hsp). simpl.
  by rewrite advance_while_skip.
Qed.

Lemma lex_spaces_lexes l : wf l -> curr l = " " -> lexes (lex_spaces l) l.
Proof.
  intros W Hc. rewrite lex_spaces_swar by done. unfold lex_spaces_scalar.
  rewrite advance_while_scan_while by (exact guarded_space || done).
  destruct (adv_scan_while _ l guarded_space W) as (l1 & -> & Ha & Hp). simpl.
  apply lexes_ret, emits_plain; [done..| |done]. apply Hp. by rewrite Hc.
Qed.

(** ** Newlines, operators and the dispatch *)

Lemma emits_record l l1 k :
  wf l -> adv l l1 -> (pos l < pos l1)%N -> plain_kind k = true ->
  line_starts l1 = line_starts l -> after_newline (source l) (pos l1) ->
  emits l (record_line_start (emit_plain k l1)).
Proof.
  intros W Ha Hp [Hk Hi]%plain_real Hls Hn. pose proof (adv_wf _ _ W Ha) as W1. split.
  - apply adv_record; [|done..]. eapply adv_trans; [exact Ha|by apply adv_emit].
  - split; [done|]. by exists k, STR_ID_NONE.
Qed.

Lemma lex_newline_lexes l :
  wf l -> curr l = x0a \/ curr l = x0d -> lexes (lex_newline l) l.
Proof.
  intros W Hc. destruct (after_newline_advance l W Hc) as [Hlt Hn].
  pose proof (adv_advance_lt l W Hlt) as [Ha Hp]. unfold lex_newline. apply lexes_ret.
  destruct (Byte.eqb (curr l) x0d);
    [|apply emits_record; auto using line_starts_advance].
  destruct (Byte.eqb (curr (advance l)) x0a) eqn:E;
    [|apply emits_record; auto using line_starts_advance].
  apply byte_eqb_eq in E. pose proof (adv_wf _ _ W Ha) as Wa.
  destruct (after_newline_advance _ Wa (or_introl E)) as [Hlt2 Hn2].
  rewrite (adv_source _ _ Ha) in Hn2. destruct (adv_advance2 l W Hlt).
  apply emits_record; [done..| |done]. by rewrite !line_starts_advance.
Qed.

Lemma single_lexes k l :
  plain_kind k = true -> wf l -> (pos l < source_len l)%N -> lexes (single k l) l.
Proof.
  intros Hk W Hlt. destruct (adv_advance_lt l W Hlt). by apply lexes_ret, emits_plain.
Qed.

(** A [match] step after [l1], whichever way it goes. *)
Lemma match_step l l1 c b l2 :
  wf l -> adv l l1 -> (pos l < pos l1)%N -> match_ c l1 = (b, l2) ->
  adv l l2 /\ (pos l < pos l2)%N.
Proof.
  intros W Ha Hp Hm. apply adv_match in Hm; [|by eapply adv_wf].
  pose proof (adv_pos _ _ Hm). split; [exact (adv_trans _ _ _ Ha Hm)|lia].
Qed.

(** Symbolic execution of a chain of [match]es and emissions. *)
Ltac match_chain :=
  repeat match goal with
  | |- lexes (let '(_, _) := match_ ?c ?x in _) _ =>
      let b := fresh "b" in let l2 := fresh "l2" in let E := fresh "E" in
      destruct (match_ c x) as [b l2] eqn:E;
      eapply match_step in E as [? ?]; [|eassumption..]
  | |- lexes (if ?b then _ else _) _ => destruct b
  end.

Lemma operators_lex l :
  wf l -> (pos l < source_len l)%N ->
  (forall c y n, plain_kind y = true -> plain_kind n = true ->
     lexes (one_or_two c y n l) l) /\
  (forall c1 k1 c2 k2 n, plain_kind k1 = true -> plain_kind k2 = true ->
     plain_kind n = true -> lexes (one_of_two c1 k1 c2 k2 n l) l) /\
  (forall c1 k1 c2 k2 c3 k3 n, plain_kind k1 = true -> plain_kind k2 = true ->
     plain_kind k3 = true -> plain_kind n = true ->
     lexes (one_of_three c1 k1 c2 k2 c3 k3 n l) l).
Proof.
  intros W Hlt. destruct (adv_advance_lt l W Hlt) as [Ha Hp].
  unfold one_or_two, one_of_two, one_of_three.
  repeat split; intros; match_chain; apply lexes_ret, emits_plain; try done;
    by case_match.
Qed.

Lemma lex_colon_lexes l : wf l -> (pos l < source_len l)%N -> lexes (lex_colon l) l.
Proof.
  intros W Hlt. destruct (adv_advance_lt l W Hlt) as [Ha Hp]. unfold lex_colon.
  match_chain; try (by apply lexes_ret, emits_plain).
  unfold lex_label.
  match goal with |- context [scan_while _ ?x] =>
    destruct (adv_scan_while id_continues x guarded_id_continues) as (l3 & -> & Ha3 & _);
    [by eapply adv_wf|] end.
  simpl. pose proof (adv_pos _ _ Ha3).
  apply lexes_ret, emits_plain; [done| |lia|done].
  eapply adv_trans; [|exact Ha3]. done.
Qed.

Lemma lex_slash_lexes l : wf l -> (pos l < source_len l)%N -> lexes (lex_slash l) l.
Proof.
  intros W Hlt. unfold lex_slash.
  split_if; [by apply lex_line_comment_lexes|].
  split_if; [by apply lex_block_comment_lexes|].
  by apply (proj1 (operators_lex l W Hlt)).
Qed.

Lemma lex_dot_lexes l : wf l -> (pos l < source_len l)%N -> lexes (lex_dot l) l.
Proof.
  intros W Hlt. destruct (adv_advance_lt l W Hlt) as [Ha Hp]. unfold lex_dot.
  destruct (match_ "." (advance l)) as [b l2] eqn:E.
  eapply match_step in E as [? ?]; [|eassumption..].
  destruct b; simpl; match_chain; apply lexes_ret, emits_plain; try done; by case_match.
Qed.

Lemma scan_one_lexes l : wf l -> (pos l < source_len l)%N -> lexes (scan_one l) l.
Proof.
  intros W Hlt. unfold scan_one.
  destruct (is_digit (curr l)) eqn:Ed; [by apply lex_number_lexes|].
  destruct (is_id_start (curr l)) eqn:Ei; [by apply lex_identifier_lexes|].
  destruct (operators_lex l W Hlt) as (H1 & H2 & H3).
  destruct (curr l) eqn:Ec; first
    [ by apply single_lexes | by apply H1 | by apply H2 | by apply H3
    | by apply lex_spaces_lexes | by apply lex_newline_lexes; auto
    | by apply lex_string_lexes | by apply lex_byte_lit_lexes
    | by apply lex_colon_lexes | by apply lex_slash_lexes | by apply lex_dot_lexes
    | split_if; [by apply lex_asm_lit_lexes|by apply single_lexes] ].
Qed.

(** ** The stream of tokens *)

(** The cursor at the start of the next token. *)
Definition stepped (l l' : LexCursor P) : Prop :=
  source l' = source l /\ source_len l' = source_len l /\
  (pos l <= pos l' <= source_len l)%N /\
  exists ls, line_starts l' = line_starts l ++ ls /\
             starts_within (source l) (pos l) (pos l') ls.

Lemma wf_tok_start l p : wf l -> wf (set_tok_start p l).
Proof. intros [? ? ?]. by split. Qed.

(** The bytes a token covers. *)
Definition lexeme (src : list byte) (t : Token) : list byte :=
  sub_bytes src (start t) (byte_end t - start t).

(** Before the end: one real token that covers the bytes up to the new position. *)
Lemma lex_next_real l :
  wf l -> eof_emitted l = false -> (pos l < source_len l)%N ->
  exists t l', lex_next l = Ret (t, l') /\ wf l' /\ stepped l l' /\
    eof_emitted l' = false /\ (pos l < pos l')%N /\ real_kind (kind t) = true /\
    start t = pos l /\ byte_end t = pos l' /\ pending l' = t /\
    interns (length (source l)) (pool l) (pool l') /\
    (kind t = SK_IDENT -> interned_as (length (source l)) (pool l)
       (lexeme (source l) t) (string_id t) (pool l')).
Proof.
  intros W He Hlt. unfold lex_next. rewrite He.
  destruct (_ <=? _)%N eqn:E; [breflect; lia|].
  pose proof (wf_tok_start l (pos l) W) as W1.
  destruct (scan_one_lexes _ W1 Hlt) as (l' & -> & Ha & Hp & k & sid & Hk & Ht & Hi).
  simpl. exists (pending l'), l'. pose proof (adv_wf _ _ W1 Ha) as W'.
  destruct Ha as [S1 L1 T1 E1 P1 B1 Hls Q1]. simpl in *.
  rewrite Ht. simpl. unfold lexeme. simpl.
  repeat split; try (done || congruence || lia || apply W').
Qed.

(** At the end: the [SK_EOF] token, and the cursor returns it ever after. *)
Lemma lex_next_eof l :
  eof_emitted l = false -> (source_len l <= pos l)%N ->
  exists l', lex_next l = Ret (mkToken SK_EOF STR_ID_NONE (pos l) (pos l), l') /\
    eof_emitted l' = true /\ pending l' = mkToken SK_EOF STR_ID_NONE (pos l) (pos l) /\
    line_starts l' = line_starts l /\ source l' = source l /\ source_len l' = source_len l /\
    pool l' = pool l.
Proof.
  intros He Hle. unfold lex_next. rewrite He, (proj2 (N.leb_le _ _) Hle).
  eexists. repeat split.
Qed.

(** [yields l ts l']: pulling [lex_next] from [l] until [SK_EOF] gives [ts]. *)
Inductive yields : LexCursor P -> list Token -> LexCursor P -> Prop :=
  | yields_eof l t l' :
      lex_next l = Ret (t, l') -> kind t = SK_EOF -> yields l [t] l'
  | yields_tok l t l' ts l'' :
      lex_next l = Ret (t, l') -> kind t <> SK_EOF -> yields l' ts l'' ->
      yields l (t :: ts) l''.

(** The tokens cover [a, b) without gap or overlap, none of them empty. *)
Fixpoint tiles (a : N) (ts : list Token) (b : N) : Prop :=
  match ts with
  | [] => a = b
  | t :: ts => start t = a /\ (a < byte_end t)%N /\ tiles (byte_end t) ts b
  end.

Lemma real_kind_not_eof k : real_kind k = true -> k <> SK_EOF.
Proof. intros H ->. discriminate H. Qed.

Lemma stepped_refl l : wf l -> stepped l l.
Proof.
  intros W. pose proof (wf_pos _ W). repeat split; try lia.
  exists []. rewrite app_nil_r. split; [done|apply starts_within_nil].
Qed.

Lemma stepped_trans l1 l2 l3 : stepped l1 l2 -> stepped l2 l3 -> stepped l1 l3.
Proof.
  intros (S1 & L1 & P1 & ls & H1 & W1) (S2 & L2 & P2 & ms & H2 & W2).
  repeat split; try congruence; try lia.
  exists (ls ++ ms). rewrite H2, H1, app_assoc. split; [done|].
  rewrite S1 in W2. apply (starts_within_app _ _ (pos l2)); [lia|lia|done|done].
Qed.

(** What pulling the whole stream gives. *)
Record streamed (l : LexCursor P) (ts : list Token) (l' : LexCursor P) : Prop := {
  st_yields : yields l (ts ++ [mkToken SK_EOF STR_ID_NONE (source_len l) (source_len l)]) l';
  st_tiles : tiles (pos l) ts (source_len l);
  st_real : Forall (fun t => real_kind (kind t) = true) ts;
  st_length : (N.of_nat (length ts) <= source_len l - pos l)%N;
  st_lines : exists ls, line_starts l' = line_starts l ++ ls /\
               starts_within (source l) (pos l) (source_len l) ls;
  st_pool : interns (length (source l)) (pool l) (pool l');
  st_idents : Forall (fun t => kind t = SK_IDENT -> exists q,
      interned_as (length (source l)) (pool l) (lexeme (source l) t) (string_id t) q /\
      interns (length (source l)) q (pool l')) ts
}.

Lemma interned_as_interns n p text sid q :
  (length text <= n)%nat -> interned_as n p text sid q -> interns n p q.
Proof.
  intros Hl (q0 & H & E). eapply interns_trans; [exact H|].
  apply (f_equal fst) in E. simpl in E. subst q. by apply interns_once.
Qed.

Lemma interned_as_before n p p0 text sid q :
  interns n p0 p -> interned_as n p text sid q -> interned_as n p0 text sid q.
Proof. intros H (q0 & H0 & E). exists q0. split; [by eapply interns_trans|done]. Qed.

Lemma stream_exists l :
  wf l -> eof_emitted l = false -> exists ts l', streamed l ts l'.
Proof.
  remember (N.to_nat (source_len l - pos l)) as n eqn:Hn.
  revert l Hn. induction n as [n IH] using lt_wf_ind. intros l -> W He.
  destruct (N.lt_ge_cases (pos l) (source_len l)) as [Hlt|Hge].
  - destruct (lex_next_real l W He Hlt)
      as (t & l1 & E & W1 & S1 & He1 & Hp & Hk & Hst & Hen & _ & Hpl & Hid).
    pose proof S1 as (HS & HL & HP & ls & H1 & Hw1).
    edestruct (IH (N.to_nat (source_len l1 - pos l1))) as (ts & l' & [Y T R Len Ls Pl Id]);
      [lia|reflexivity|done|done|].
    exists (t :: ts), l'. rewrite HL, HS in *. split; simpl.
    + eapply yields_tok; [exact E|by apply real_kind_not_eof|exact Y].
    + rewrite Hst, Hen. split; [done|]. split; [lia|exact T].
    + by constructor.
    + lia.
    + destruct Ls as (ms & H2 & Hw2). exists (ls ++ ms).
      rewrite H2, H1, app_assoc. split; [done|].
      apply (starts_within_app _ _ (pos l1)); [lia|lia|done|done].
    + by eapply interns_trans.
    + constructor; [intros Hi; by exists (pool l1); auto|].
      eapply List.Forall_impl; [|exact Id]. simpl. intros t' Ht' Hi.
      destruct (Ht' Hi) as (q & Hq & Hq'). exists q. split; [|done].
      by eapply interned_as_before.
  - destruct (lex_next_eof l He Hge) as (l' & E & _ & _ & Hls & _ & _ & Hpl).
    pose proof (wf_pos _ W). replace (pos l) with (source_len l) in E by lia.
    exists [], l'. split; simpl; [by eapply yields_eof|lia|constructor|lia| | |constructor].
    + exists []. rewrite app_nil_r. split; [done|apply starts_within_nil].
    + by rewrite Hpl.
Qed.

Lemma lex_loop_yields l ts l' :
  yields l ts l' -> forall f out, (length ts <= f)%nat ->
  lex_loop f l out = Ret (out ++ ts, l').
Proof.
  induction 1 as [l t l' E Hk|l t l1 ts l' E Hk Hy IH]; intros f out Hf; simpl in Hf;
    (destruct f as [|f]; [lia|]); simpl; rewrite E; simpl.
  - by rewrite (proj2 (kind_eqb_eq _ _) Hk).
  - rewrite (proj2 (kind_eqb_neq _ _) Hk). rewrite IH by lia. by rewrite <- app_assoc.
Qed.

(** Where lexing starts: after a leading byte-order mark. *)
Definition bom_len (src : list byte) : N :=
  if bytes_eqb (take 3 src) [xef; xbb; xbf] then 3 else 0.

Lemma lex_begin_pos src (pl : P) :
  pos (lex_begin src pl) = bom_len src /\
  line_starts (lex_begin src pl) = [bom_len src].
Proof.
  unfold lex_begin, bom_len. simpl.
  assert (((3 <=? N.of_nat (length src))%N && Byte.eqb (nth 0 src x00) xef &&
     Byte.eqb (nth 1 src x00) xbb && Byte.eqb (nth 2 src x00) xbf) =
     bytes_eqb (take 3 src) [xef; xbb; xbf]) as ->; [|done].
  destruct src as [|b0 [|b1 [|b2 src]]]; try reflexivity.
  unfold bytes_eqb. simpl.
  assert ((3 <=? N.of_nat (S (S (S (length src)))))%N = true) as -> by (apply N.leb_le; lia).
  by rewrite andb_true_r, !andb_assoc.
Qed.

Lemma lex_begin_wf src (pl : P) :
  (N.of_nat (length src) < 2 ^ 32)%N -> wf (lex_begin src pl).
Proof.
  intros H. split; [done|done|]. rewrite (proj1 (lex_begin_pos src pl)). simpl.
  unfold bom_len. destruct (bytes_eqb _ _) eqn:E; [|lia].
  apply bytes_eqb_eq, (f_equal length) in E. rewrite length_take in E. cbn [length] in E. lia.
Qed.

Lemma lex_streamed src (pl : P) :
  (N.of_nat (length src) < 2 ^ 32)%N ->
  exists ts l',
    streamed (lex_begin src pl) ts l' /\
    lex src pl = Ret (ts ++ [mkToken SK_EOF STR_ID_NONE (N.of_nat (length src))
                                     (N.of_nat (length src))], l').
Proof.
  intros H. pose proof (lex_begin_wf src pl H) as W.
  destruct (stream_exists _ W eq_refl) as (ts & l' & St).
  exists ts, l'. split; [done|]. unfold lex.
  rewrite (lex_loop_yields _ _ _ (st_yields _ _ _ St)); [done|].
  pose proof (st_length _ _ _ St). simpl in *. rewrite length_app. simpl. lia.
Qed.

End Facts.

Create HintDb lexer.
#[export] Hint Resolve adv_refl adv_advance adv_emit : lexer.
#[export] Hint Resolve adv_wf : lexer.
#[export] Hint Resolve lexes_ret : lexer.

End LexerFacts.
