(* ===== verification/LexerTheorems.v ===== *)
(** * The lexer: what it guarantees

    Losslessness and tiling of the token stream, the line table, the optimised
    loops against their plain counterparts, keyword recognition against a table,
    and identifiers and quoted literals. *)

From Stdlib Require Import Sorting.Sorted.
From S2P Require Import Prelude SyntaxKind Token Interner Lexer LexerFacts StringPool.
Import SyntaxKind Token Lexer LexerFacts StringPool.

Module LexerTheorems.

#[local] Open Scope byte_scope.

(** The [SK_EOF] token of a source of this length. *)
Definition eof_token (n : nat) : Token :=
  mkToken SK_EOF STR_ID_NONE (N.of_nat n) (N.of_nat n).

Section Tiles.
Variable src : list byte.

Lemma tiles_le a ts b : tiles a ts b -> (a <= b)%N.
Proof.
  revert a. induction ts as [|t ts IH]; simpl; intros a H; [lia|].
  destruct H as (_ & ? & ?%IH). lia.
Qed.

(** Tokens that tile an interval spell it. *)
Lemma tiles_lexemes a ts b :
  tiles a ts b -> concat (map (lexeme src) ts) = sub_bytes src a (b - a).
Proof.
  revert a. induction ts as [|t ts IH]; simpl; intros a H.
  - subst. by rewrite N.sub_diag.
  - destruct H as (Hs & Hlt & Ht). rewrite (IH _ Ht). unfold lexeme. rewrite Hs.
    apply tiles_le in Ht. apply sub_bytes_split; lia.
Qed.
End Tiles.

Lemma sub_bytes_to_end src a :
  (a <= N.of_nat (length src))%N ->
  sub_bytes src a (N.of_nat (length src) - a) = drop (N.to_nat a) src.
Proof.
  intros. unfold sub_bytes. apply take_ge. rewrite length_drop. lia.
Qed.

(** A strictly increasing list above [a] and up to [b] is short. *)
Lemma increasing_length a b r :
  StronglySorted N.lt (a :: r) -> Forall (fun p => (p <= b)%N) r ->
  (N.of_nat (length r) <= b - a)%N.
Proof.
  revert a. induction r as [|x r IH]; intros a Hs Hf; simpl; [lia|].
  apply StronglySorted_inv in Hs as [Hs [Hx _]%Forall_cons].
  apply Forall_cons in Hf as [Hb Hf]. specialize (IH x Hs Hf). lia.
Qed.

Section Stream.
Context {P : Type} `{!Interner P}.

(** C36: the lexer is total and its tokens tile the source after its byte-order mark, which
    is in no token: for every source whose
    length fits [uint32_t], [lex] returns (its loops never run out), the tokens
    before the final [SK_EOF] are non-empty, adjacent, cover the source from
    after the byte-order mark to its end, and have real (non-virtual, non-EOF)
    token kinds. *)
Theorem lex_total_and_tiles (src : list byte) (pl : P) :
  (N.of_nat (length src) < 2 ^ 32)%N ->
  exists ts l, lex src pl = Ret (ts ++ [eof_token (length src)], l) /\
    tiles (bom_len src) ts (N.of_nat (length src)) /\
    Forall (fun t => real_kind (kind t) = true) ts.
Proof.
  intros H. destruct (lex_streamed src pl H) as (ts & l & [Y T R Len Ls _ _] & E).
  exists ts, l. rewrite <- (proj1 (lex_begin_pos src pl)). done.
Qed.

(** lexing is lossless: the lexemes of the tokens, concatenated, are the
    source bytes after the byte-order mark. *)
Theorem lex_lossless (src : list byte) (pl : P) :
  (N.of_nat (length src) < 2 ^ 32)%N ->
  exists ts l, lex src pl = Ret (ts, l) /\
    concat (map (lexeme src) ts) = drop (N.to_nat (bom_len src)) src.
Proof.
  intros H. destruct (lex_streamed src pl H) as (ts & l & [Y T R Len Ls _ _] & E).
  eexists _, l. split; [exact E|].
  rewrite map_app, concat_app, (tiles_lexemes _ _ _ _ T).
  rewrite (proj1 (lex_begin_pos src pl)) in *.
  cbn [map concat]. unfold lexeme at 1. cbn [start byte_end].
  rewrite N.sub_diag, sub_bytes_nil, !app_nil_r.
  apply sub_bytes_to_end. by apply tiles_le in T.
Qed.

(** the line table is well formed: its entries are strictly increasing, the
    first is the start of the text after the byte-order mark, every other one
    directly follows a [\n] or [\r] byte, all are within the source, and there
    are at most [source_len + 1] of them (the caller reserves [len + 2]). *)
Theorem lex_line_starts_wf (src : list byte) (pl : P) :
  (N.of_nat (length src) < 2 ^ 32)%N ->
  exists ts l rest, lex src pl = Ret (ts, l) /\
    line_starts l = bom_len src :: rest /\
    StronglySorted N.lt (line_starts l) /\
    Forall (fun p => after_newline src p /\ (p <= N.of_nat (length src))%N) rest /\
    (length (line_starts l) <= length src + 1)%nat.
Proof.
  intros H. destruct (lex_streamed src pl H) as (ts & l & [Y T R Len Ls _ _] & E).
  destruct Ls as (rest & Hls & Hinc & Hf).
  change (source_len (lex_begin src pl)) with (N.of_nat (length src)) in *.
  change (source (lex_begin src pl)) with src in *.
  pose proof (lex_begin_pos src pl) as [Hpos Hl0].
  rewrite Hl0 in Hls. rewrite Hpos in *.
  assert (Hs : StronglySorted N.lt (bom_len src :: rest)).
  { constructor; [exact Hinc|]. eapply List.Forall_impl; [|exact Hf]. simpl. intros; lia. }
  eexists _, l, rest. split; [exact E|]. split; [exact Hls|]. rewrite Hls.
  split; [exact Hs|]. split.
  - eapply List.Forall_impl; [|exact Hf]. simpl. intros p [? ?]. split; [done|lia].
  - assert (N.of_nat (length rest) <= N.of_nat (length src) - bom_len src)%N; [|simpl; lia].
    apply increasing_length; [exact Hs|]. eapply List.Forall_impl; [|exact Hf].
    simpl. intros; lia.
Qed.

(** the word-at-a-time loop of [lex_spaces] is equivalent to the byte loop
    alone: skipping whole words of [0x2020202020202020] first changes neither the
    token nor the cursor. *)
Theorem lex_spaces_word_loop_sound (l : LexCursor P) :
  wf l -> lex_spaces l = lex_spaces_scalar l.
Proof. apply lex_spaces_swar. Qed.

(** the sentinel scans are equivalent to bounds-checked ones: for a byte test
    that rejects NUL, the loop [while (f(scur(l))) l->pos++] returns, and it
    returns what [while (f(curr(l))) advance(l)] returns; it never reads past the
    sentinel. *)
Theorem sentinel_scan_sound (f : byte -> bool) (l : LexCursor P) :
  f x00 = false -> wf l ->
  scan_while (fun l => f (scur l)) l = advance_while (fun l => f (curr l)) l /\
  exists l', scan_while (fun l => f (scur l)) l = Ret l' /\
    (pos l' <= source_len l)%N.
Proof.
  intros Hf W.
  assert (G : guarded (fun l : LexCursor P => f (scur l))) by by apply (guarded_scur f).
  assert (Heq : forall n (x : LexCursor P), wf x ->
    while_loop n (fun l => f (scur l)) inc_pos x =
    while_loop n (fun l => f (curr l)) advance x).
  { induction n as [|n IH]; intros x Wx; simpl; [done|].
    rewrite (curr_scur x Wx). destruct (f (scur x)) eqn:E; [|done].
    pose proof (G x Wx E) as Hlt.
    assert (advance x = inc_pos x) as ->
      by (unfold advance; by rewrite (proj2 (N.ltb_lt _ _) Hlt)).
    apply IH. apply wf_set_pos; [done|lia]. }
  split; [by apply Heq|].
  destruct (scan_while_spec _ l G W) as (p & -> & Hp & _).
  exists (set_pos p l). split; [done|]. simpl. lia.
Qed.

(** The test for a bare underscore looks at the whole text. *)
Lemma bare_underscore (l : LexCursor P) p :
  wf l -> (pos l < p)%N -> (p <= source_len l)%N ->
  ((p - pos l =? 1)%N && Byte.eqb (byte_at l (pos l)) "_") =
  bytes_eqb (sub_bytes (source l) (pos l) (p - pos l)) (bs "_").
Proof.
  intros W Hlt Hp. set (text := sub_bytes _ _ _).
  assert (Hlen : length text = N.to_nat (p - pos l)).
  { apply sub_bytes_length. rewrite <- (wf_len _ W). lia. }
  assert (Hhd : text = byte_at l (pos l) :: tail text).
  { unfold text, sub_bytes, byte_at.
    destruct (drop (N.to_nat (pos l)) (source l)) as [|b r] eqn:Ed.
    - apply (f_equal length) in Ed. rewrite length_drop in Ed. simpl in Ed.
      pose proof (wf_len _ W). lia.
    - rewrite <- (Nat.add_0_r (N.to_nat (pos l))), nth_lookup, <- lookup_drop, Ed.
      destruct (N.to_nat (p - pos l)) as [|n] eqn:En; [lia|done]. }
  rewrite Hhd. change (bs "_") with ["_"%byte]. unfold bytes_eqb. simpl.
  rewrite Hhd in Hlen. simpl in Hlen. destruct (N.eqb_spec (p - pos l) 1) as [H1|H1].
  - assert (tail text = []) as -> by (apply nil_length_inv; lia).
    simpl. by rewrite andb_true_r.
  - by assert ((length (tail text) =? 0)%nat = false) as -> by (apply Nat.eqb_neq; lia).
Qed.

(** identifiers are the maximal runs of identifier characters (with kebab
    continuations), classified by their text: [_] is the wildcard, a reserved word
    its keyword, and only a real identifier is interned, under exactly its text. *)
Theorem lex_identifier_maximal (l : LexCursor P) :
  wf l -> tok_start l = pos l -> is_id_start (curr l) = true ->
  exists l' p, lex_identifier_or_keyword l = Ret l' /\ pos l' = p /\
    (pos l < p <= source_len l)%N /\
    (forall q, (pos l <= q < p)%N -> id_continues (set_pos q l) = true) /\
    id_continues (set_pos p l) = false /\
    let text := sub_bytes (source l) (pos l) (p - pos l) in
    kind (pending l') =
      (if bytes_eqb text (bs "_") then SK_UNDERSCORE else keyword_kind text) /\
    start (pending l') = pos l /\ byte_end (pending l') = p /\
    (if kind_eqb (kind (pending l')) SK_IDENT
     then pool_intern (pool l) text = (pool l', string_id (pending l'))
     else pool l' = pool l /\ string_id (pending l') = STR_ID_NONE).
Proof.
  intros W Ht Hc.
  destruct (scan_while_spec id_continues l guarded_id_continues W)
    as (p & E & Hp & Hstop & Hrun).
  assert (Hlt : (pos l < p)%N).
  { apply (scan_while_progress id_continues l p); [|done|lia].
    unfold id_continues, is_id_cont. rewrite <- curr_scur by done. by rewrite Hc. }
  unfold lex_identifier_or_keyword. rewrite E. simpl. rewrite Ht.
  set (text := sub_bytes (source l) (pos l) (p - pos l)).
  pose proof (bare_underscore l p W Hlt (proj2 Hp)) as Hund. fold text in Hund.
  change (byte_at (set_pos p l) (pos l)) with (byte_at l (pos l)).
  rewrite Hund. destruct (bytes_eqb text (bs "_")) eqn:Eu.
  - eexists _, p. repeat split; try done; try lia. fold text. by rewrite Eu.
  - destruct (kind_eqb (keyword_kind text) SK_IDENT) eqn:Ek.
    + unfold emit_interned, intern_range. simpl. rewrite Ht. fold text.
      destruct (pool_intern (pool l) text) as [q sid] eqn:Ei.
      eexists _, p. repeat split; try done; try lia. fold text. rewrite Eu.
      symmetry. by apply kind_eqb_eq.
    + eexists _, p. repeat split; try done; try lia; fold text; rewrite ?Eu; [done|].
      simpl. by rewrite Ek.
Qed.

(** The quote loop, when it closes the literal, stops just after a quote byte. *)
Lemma scan_quoted_loop_closed q f (l l' : LexCursor P) :
  q <> x00 -> wf l -> (N.to_nat (source_len l - pos l) < f)%nat ->
  scan_quoted_loop f q l = Ret (true, l') ->
  (pos l < pos l')%N /\ byte_at l (pos l' - 1) = q.
Proof.
  intros Hq. revert l. induction f as [|f IH]; intros l W Hf; [lia|]. simpl.
  destruct (Byte.eqb (curr l) q) eqn:E1.
  { breflect. intros [= <-].
    assert (Hlt : (pos l < source_len l)%N) by (apply curr_in; congruence).
    rewrite pos_advance by done. split; [lia|].
    replace (pos l + 1 - 1)%N with (pos l) by lia. by rewrite <- pos_lt_curr. }
  destruct (Byte.eqb (curr l) x00 || _ || _) eqn:E2; [discriminate|].
  assert (Hlt : (pos l < source_len l)%N).
  { apply curr_in; [done|]. intros E. rewrite E in E2. done. }
  assert (Hrec : forall l2, adv l l2 -> (pos l < pos l2)%N ->
    scan_quoted_loop f q l2 = Ret (true, l') ->
    (pos l < pos l')%N /\ byte_at l (pos l' - 1) = q).
  { intros l2 Ha Hp Hr. apply IH in Hr as [H1 H2];
      [|by eapply adv_wf|by eapply fuel_step].
    split; [lia|]. unfold byte_at in *. by rewrite (adv_source _ _ Ha) in H2. }
  destruct (adv_advance_lt l W Hlt) as [Ha Hp].
  destruct (adv_advance2 l W Hlt) as [Ha2 Hp2].
  assert (Hesc : adv l (hex_escape 2 (advance (advance l))) /\
                 (pos l < pos (hex_escape 2 (advance (advance l))))%N).
  { pose proof (adv_hex_escape 2 _ (adv_wf _ _ W Ha2)) as Hx.
    pose proof (adv_pos _ _ Hx). split; [exact (adv_trans _ _ _ Ha2 Hx)|lia]. }
  destruct Hesc as [Hesc Hescp].
  destruct (Byte.eqb (curr l) "\") eqn:E3; [|by apply Hrec].
  destruct (curr (advance l));
    solve [by apply Hrec | discriminate | exact (Hrec _ Hesc Hescp) | exact (Hrec _ Ha2 Hp2)].
Qed.

Lemma pool_advance (l : LexCursor P) : pool (advance l) = pool l.
Proof. unfold advance. by destruct (_ <? _)%N. Qed.

Lemma pool_hex_escape i (l : LexCursor P) : pool (hex_escape i l) = pool l.
Proof.
  revert l. induction i as [|i IH]; intros l; simpl; [done|].
  destruct (negb _); [done|]. by rewrite IH, pool_advance.
Qed.

(** Scanning the body of a literal interns nothing. *)
Lemma scan_quoted_loop_pool q f (l l' : LexCursor P) ok :
  scan_quoted_loop f q l = Ret (ok, l') -> pool l' = pool l.
Proof.
  revert l. induction f as [|f IH]; intros l; [discriminate|]. simpl.
  assert (Hrec : forall l2, pool l2 = pool l ->
    scan_quoted_loop f q l2 = Ret (ok, l') -> pool l' = pool l)
    by (intros l2 <-; apply IH).
  destruct (Byte.eqb (curr l) q); [intros [= <- <-]; apply pool_advance|].
  destruct (Byte.eqb (curr l) x00 || _ || _); [by intros [= <- <-]|].
  pose proof (pool_advance l) as H1.
  pose proof (eq_trans (pool_advance (advance l)) H1) as H2.
  destruct (Byte.eqb (curr l) "\"); [|by apply Hrec].
  pose proof (eq_trans (pool_hex_escape 2 (advance (advance l))) H2) as H3.
  destruct (curr (advance l));
    solve [intros [= <- <-]; exact H1 | exact (Hrec _ H2) | exact (Hrec _ H3)].
Qed.

(** A closed literal spans from its opening quote to its closing one. *)
Lemma scan_quoted_closed q (l l' : LexCursor P) :
  q <> x00 -> wf l -> curr l = q -> scan_quoted q l = Ret (true, l') ->
  adv l l' /\ pool l' = pool l /\ (pos l + 2 <= pos l')%N /\
  sub_bytes (source l) (pos l) (pos l' - pos l) =
    q :: sub_bytes (source l) (pos l + 1) (pos l' - pos l - 2) ++ [q].
Proof.
  intros Hq W Hc Hs.
  assert (Hlt : (pos l < source_len l)%N) by (apply curr_in; congruence).
  destruct (adv_advance_lt l W Hlt) as [Ha Hp].
  destruct (scan_quoted_adv q l Hq W Hlt) as (ok & l2 & E & Hadv & _).
  rewrite Hs in E. injection E as <- <-. unfold scan_quoted in Hs.
  pose proof (scan_quoted_loop_pool _ _ _ _ _ Hs) as Hpool. rewrite pool_advance in Hpool.
  apply scan_quoted_loop_closed in Hs as [Hlt' Hlast];
    [|done|by eapply adv_wf|unfold scan_fuel; lia].
  rewrite pos_advance in Hlt' by done. split; [done|]. split; [done|]. split; [lia|].
  pose proof (adv_bound _ _ Hadv) as Hb. rewrite (wf_len _ W) in *.
  unfold byte_at in Hlast. rewrite (adv_source _ _ Ha) in Hlast.
  rewrite curr_scur in Hc by done. unfold scur, byte_at in Hc.
  rewrite <- (sub_bytes_split _ (pos l) (pos l + 1)) by lia.
  rewrite <- (sub_bytes_split _ (pos l + 1) (pos l' - 1) (pos l')) by lia.
  replace (pos l + 1 - pos l)%N with 1%N by lia.
  replace (pos l' - (pos l' - 1))%N with 1%N by lia.
  replace (pos l' - 1 - (pos l + 1))%N with (pos l' - pos l - 2)%N by lia.
  rewrite !sub_bytes_one by lia. by rewrite Hc, Hlast.
Qed.

(** a closed string literal is delimited by its quotes, and the string its
    [string_id] was interned from is exactly the text between them. *)
Theorem lex_string_body (l l' : LexCursor P) :
  wf l -> tok_start l = pos l -> curr l = x22 ->
  lex_string l = Ret l' -> kind (pending l') = SK_STRING_LIT ->
  exists body, sub_bytes (source l) (pos l) (pos l' - pos l) = x22 :: body ++ [x22] /\
    pool_intern (pool l) body = (pool l', string_id (pending l')).
Proof.
  intros W Ht Hc Hl Hk. unfold lex_string in Hl.
  apply obind_Ret in Hl as ([ok l1] & Es & Hl).
  destruct ok; simpl in Hl; [|injection Hl as <-; discriminate Hk].
  apply scan_quoted_closed in Es as (Ha & Hpool & Hp & Hsub); [|done..].
  unfold intern_quoted_body, intern_range in Hl.
  rewrite (adv_start _ _ Ha), Ht, (adv_source _ _ Ha), Hpool in Hl.
  destruct (_ <? 2)%N eqn:E2; [breflect; lia|].
  destruct (pool_intern _ _) as [q sid] eqn:Ei. injection Hl as <-.
  eexists. split; [exact Hsub|exact Ei].
Qed.

End Stream.
(** ** Keywords *)

(** The reserved words, as one flat table. *)
Definition reserved_words : list (string * OreSyntaxKind) :=
  [("if", SK_IF_KW); ("fn", SK_FN_KW); ("Fn", SK_FN_TYPE_KW); ("nil", SK_NIL_KW);
   ("elif", SK_ELIF_KW); ("else", SK_ELSE_KW); ("enum", SK_ENUM_KW);
   ("true", SK_TRUE_KW); ("loop", SK_LOOP_KW); ("with", SK_WITH_KW);
   ("mask", SK_MASK_KW); ("false", SK_FALSE_KW); ("const", SK_CONST_KW);
   ("break", SK_BREAK_KW); ("defer", SK_DEFER_KW); ("union", SK_UNION_KW);
   ("struct", SK_STRUCT_KW); ("switch", SK_SWITCH_KW); ("effect", SK_EFFECT_KW);
   ("return", SK_RETURN_KW); ("orelse", SK_ORELSE_KW); ("handle", SK_HANDLE_KW);
   ("handler", SK_HANDLER_KW); ("comptime", SK_COMPTIME_KW);
   ("continue", SK_CONTINUE_KW); ("unreachable", SK_UNREACHABLE_KW)]%string.

(** Linear search of the table. *)
Definition keyword_lookup (s : list byte) : OreSyntaxKind :=
  match List.find (fun e => bytes_eqb s (bs e.1)) reserved_words with
  | Some e => e.2
  | None => SK_IDENT
  end.

Lemma MK_not_ident s lit K other :
  MK s lit K other = SK_IDENT \/ s = bs lit \/ MK s lit K other = other.
Proof.
  unfold MK. destruct (bytes_eqb s (bs lit)) eqn:E; [|by right; right].
  right. left. by apply bytes_eqb_eq.
Qed.

(** A text that the dispatch classifies as a keyword is in the table. *)
Lemma keyword_kind_sound s :
  keyword_kind s <> SK_IDENT -> keyword_lookup s = keyword_kind s.
Proof.
  intros H. unfold keyword_kind, MK in *.
  repeat match goal with
  | H : context [if bytes_eqb s ?w then _ else _] |- _ =>
      let E := fresh in destruct (bytes_eqb s w) eqn:E;
      [apply bytes_eqb_eq in E; subst s; vm_compute; reflexivity|]
  | H : context [match ?x with _ => _ end] |- _ =>
      destruct x; try congruence
  end; congruence.
Qed.

Lemma keyword_lookup_complete s k :
  keyword_lookup s = k -> k <> SK_IDENT -> keyword_kind s = k.
Proof.
  unfold keyword_lookup. destruct (List.find _ _) as [[w k']|] eqn:E; simpl; [|congruence].
  intros <- _. apply List.find_some in E as [Hin Hw]. apply bytes_eqb_eq in Hw. subst s.
  simpl in Hin. repeat destruct Hin as [[= <- <-]|Hin]; try reflexivity. done.
Qed.

Lemma keyword_kind_table s : keyword_kind s = keyword_lookup s.
Proof.
  destruct (kind_eq_dec (keyword_kind s) SK_IDENT) as [H|H].
  - destruct (kind_eq_dec (keyword_lookup s) SK_IDENT) as [H'|H']; [congruence|].
    by apply keyword_lookup_complete.
  - symmetry. by apply keyword_kind_sound.
Qed.

(** the length-and-first-byte dispatch of [keyword_kind] is equivalent to a
    linear search of the table of reserved words; the contextual keywords, not
    being in it, lex as identifiers. *)
Theorem keyword_kind_is_table_lookup (s : list byte) :
  keyword_kind s = keyword_lookup s.
Proof. apply keyword_kind_table. Qed.

(** the keyword kinds and their spelling round-trip: [keyword_kind] inverts
    [token_kind_str] on every keyword kind except [SK_UNREACHABLE_KW], for which
    [token_kind_str] answers ["?"]; and it only ever answers a keyword kind or
    [SK_IDENT]. *)
Theorem keyword_spelling_roundtrip :
  (forall k, ore_kind_is_keyword k = true -> k <> SK_UNREACHABLE_KW ->
     keyword_kind (bs (token_kind_str k)) = k) /\
  token_kind_str SK_UNREACHABLE_KW = "?"%string /\
  keyword_kind (bs "unreachable") = SK_UNREACHABLE_KW /\
  (forall s, keyword_kind s = SK_IDENT \/ ore_kind_is_keyword (keyword_kind s) = true).
Proof.
  split; [|split; [done|split; [done|]]].
  - intros k Hk Hne.
    assert (H : implb (ore_kind_is_keyword k && negb (kind_eqb k SK_UNREACHABLE_KW))
                  (kind_eqb (keyword_kind (bs (token_kind_str k))) k) = true).
    { clear Hk Hne. revert k. apply kind_forall. vm_compute. reflexivity. }
    rewrite Hk in H. apply kind_eqb_neq in Hne. rewrite Hne in H.
    by apply kind_eqb_eq.
  - intros s. rewrite keyword_kind_table. unfold keyword_lookup.
    destruct (List.find _ _) as [[w k]|] eqn:E; simpl; [|by left]. right.
    apply List.find_some in E as [Hin _]. simpl in Hin.
    repeat destruct Hin as [[= <- <-]|Hin]; try reflexivity. done.
Qed.

(** a backslash before a line break inside a string literal is consumed as an
    unknown escape, so the literal runs over the line break and the line table
    misses the line that starts there, although no error token is emitted. *)
Theorem escaped_newline_not_in_line_table :
  exists src ts l p,
    lex src fresh_pool = Ret (ts, l) /\
    Forall (fun t => kind t <> SK_LEX_ERROR) ts /\
    after_newline src p /\ (p < N.of_nat (length src))%N /\
    line_starts l = [0%N].
Proof.
  exists [x22; "a"; "\"; x0a; "b"; x22; " "; "c"]%byte. eexists _, _, 4%N.
  split; [vm_compute; reflexivity|]. split.
  - repeat constructor; discriminate.
  - split; [split; [done|left; reflexivity]|]. split; [done|reflexivity].
Qed.

(** ** Instances *)

(** A two-line source and the cursors the theorems below are applied to. *)
Definition sample : list byte := bs "kebab-case := 1" ++ [x0a] ++ bs "x".
Definition sample_cursor : LexCursor StringPool := lex_begin sample fresh_pool.
Definition spaces_cursor : LexCursor StringPool := lex_begin (bs "          x") fresh_pool.
Definition string_cursor : LexCursor StringPool :=
  lex_begin ([x22] ++ bs "hi" ++ [x22]) fresh_pool.

Lemma lex_total_and_tiles_witness :
  exists ts l, lex sample fresh_pool = Ret (ts ++ [eof_token 17], l) /\
    tiles (bom_len sample) ts 17 /\
    Forall (fun t => real_kind (kind t) = true) ts.
Proof. apply (lex_total_and_tiles sample fresh_pool). reflexivity. Defined.

Lemma lex_lossless_witness :
  exists ts l, lex sample fresh_pool = Ret (ts, l) /\
    concat (map (lexeme sample) ts) = sample.
Proof. apply (lex_lossless sample fresh_pool). reflexivity. Defined.

Lemma lex_line_starts_wf_witness :
  exists ts l rest, lex sample fresh_pool = Ret (ts, l) /\
    line_starts l = bom_len sample :: rest /\
    StronglySorted N.lt (line_starts l) /\
    Forall (fun p => after_newline sample p /\ (p <= 17)%N) rest /\
    (length (line_starts l) <= 18)%nat.
Proof. apply (lex_line_starts_wf sample fresh_pool). reflexivity. Defined.

Lemma lex_spaces_word_loop_sound_witness :
  lex_spaces spaces_cursor = lex_spaces_scalar spaces_cursor.
Proof.
  apply (lex_spaces_word_loop_sound spaces_cursor). split; vm_compute; easy.
Defined.

Lemma sentinel_scan_sound_witness :
  scan_while (fun l => is_digit (scur l)) sample_cursor =
    advance_while (fun l => is_digit (curr l)) sample_cursor /\
  exists l', scan_while (fun l => is_digit (scur l)) sample_cursor = Ret l' /\
    (pos l' <= 17)%N.
Proof.
  apply (sentinel_scan_sound is_digit sample_cursor); [reflexivity|].
  split; vm_compute; easy.
Defined.

Lemma lex_identifier_maximal_witness :
  exists l' p, lex_identifier_or_keyword sample_cursor = Ret l' /\ pos l' = p /\
    (0 < p <= 17)%N /\
    (forall q, (0 <= q < p)%N -> id_continues (set_pos q sample_cursor) = true) /\
    id_continues (set_pos p sample_cursor) = false /\
    let text := sub_bytes sample 0 (p - 0) in
    kind (pending l') =
      (if bytes_eqb text (bs "_") then SK_UNDERSCORE else keyword_kind text) /\
    start (pending l') = 0%N /\ byte_end (pending l') = p /\
    (if kind_eqb (kind (pending l')) SK_IDENT
     then pool_intern fresh_pool text = (pool l', string_id (pending l'))
     else pool l' = fresh_pool /\ string_id (pending l') = STR_ID_NONE).
Proof.
  apply (lex_identifier_maximal sample_cursor); [|reflexivity..].
  split; vm_compute; easy.
Defined.

Lemma lex_string_body_witness :
  exists l', lex_string string_cursor = Ret l' /\
  exists body, sub_bytes (source string_cursor) 0 (pos l' - 0) = x22 :: body ++ [x22] /\
    pool_intern fresh_pool body = (pool l', string_id (pending l')).
Proof.
  destruct (lex_string string_cursor) as [l'| |] eqn:E;
    [|vm_compute in E; discriminate E..].
  exists l'. split; [reflexivity|].
  apply (lex_string_body string_cursor l'); [|reflexivity..|exact E|].
  - split; vm_compute; easy.
  - vm_compute in E. injection E as <-. reflexivity.
Defined.

End LexerTheorems.
