(* ===== verification/Layout.v ===== *)
(** * The layout pass: [src/lexer/layout.c]

    The state machine of [layout_stream], fused with the lexer: it pulls one raw
    token at a time and inserts the virtual braces and semicolons.  The frame
    stack is a list with the innermost enclosing frame first; [frames_count] is its
    length.  The caller passes the cursor's own line-start vector, so columns are
    read from [line_starts lc].  Two asserts bound the frame stack and the trivia
    buffer. *)

From S2P Require Import Prelude SyntaxKind Token Interner Lexer.
Import SyntaxKind Token Lexer.

Module Layout.

#[local] Open Scope N_scope.

(** ** Columns *)

(** The monotone cursor into the line starts: the column of [byte_start] and the
    new cursor. *)
Definition col_advance (byte_start : N) (line_starts : list N) (cur : nat)
    : outcome (N * nat) :=
  let n := length line_starts in
  if (n =? 0)%nat then Ret (1, cur)
  else
    let! c := while_loop (S n)
      (fun c => (c + 1 <? n)%nat && (nth (c + 1) line_starts 0 <=? byte_start))
      (fun c => c + 1)%nat cur in
    Ret (u32 (u32_sub byte_start (nth c line_starts 0) + 1), c).

(** ** Synthetic tokens *)

Definition emit_synthetic (out : list Token) (k : OreSyntaxKind) (p : N) : list Token :=
  out ++ [mkToken k STR_ID_NONE p p].

Definition should_emit_semicolon (prev : OreSyntaxKind) : bool :=
  match prev with
  | SK_LBRACE | SK_VIRTUAL_LBRACE | SK_SEMI | SK_VIRTUAL_SEMI | SK_EOF => false
  | _ => true
  end.

(** ** Continuation predicates *)

Definition TF_START : N := N.shiftl 1 0.
Definition TF_END : N := N.shiftl 1 1.
Definition TF_OP : N := N.lor TF_START TF_END.
Definition TF_OP_PREFIXY : N := TF_END.

Definition tok_flags (k : OreSyntaxKind) : N :=
  match k with
  | SK_PLUS | SK_MINUS => TF_OP_PREFIXY
  | SK_STAR | SK_STAR_STAR | SK_SLASH | SK_PERCENT | SK_EQ_EQ | SK_BANG_EQ
  | SK_LE | SK_GE | SK_AMP_AMP | SK_PIPE_PIPE => TF_OP
  | SK_AMP => TF_OP_PREFIXY
  | SK_PIPE | SK_CARET | SK_SHL | SK_SHR | SK_PLUS_EQ | SK_MINUS_EQ | SK_STAR_EQ
  | SK_SLASH_EQ | SK_PERCENT_EQ | SK_EQ | SK_AMP_EQ | SK_PIPE_EQ | SK_TILDE_EQ
  | SK_ORELSE_KW => TF_OP
  | SK_COMMA | SK_LBRACE | SK_VIRTUAL_LBRACE => N.lor TF_START TF_END
  | SK_RPAREN | SK_RBRACKET | SK_RBRACE | SK_VIRTUAL_RBRACE | SK_ELSE_KW
  | SK_ELIF_KW | SK_RARROW | SK_COLON | SK_DOT_DOT | SK_COLON_EQ | SK_GT => TF_START
  | SK_LPAREN | SK_LBRACKET | SK_DOT | SK_LT => TF_END
  | _ => 0
  end.

Definition is_start_continuation (k : OreSyntaxKind) : bool :=
  negb (N.land (tok_flags k) TF_START =? 0).
Definition is_end_continuation (k : OreSyntaxKind) : bool :=
  negb (N.land (tok_flags k) TF_END =? 0).
Definition is_expr_continuation (prev cur : OreSyntaxKind) : bool :=
  is_start_continuation cur || is_end_continuation prev.

(** ** State *)

Inductive FrameKind : Set := FRAME_ROOT | FRAME_LAYOUT | FRAME_EXPLICIT.

Definition frame_kind_eqb (a b : FrameKind) : bool :=
  match a, b with
  | FRAME_ROOT, FRAME_ROOT | FRAME_LAYOUT, FRAME_LAYOUT
  | FRAME_EXPLICIT, FRAME_EXPLICIT => true
  | _, _ => false
  end.

Record LayoutFrame := mkFrame { indent : N; frame_kind : FrameKind }.

Definition LAYOUT_MAX_FRAMES : nat := 256.
Definition LAYOUT_TRIVIA_SCRATCH : nat := 256.
Definition INDENT_UNRESOLVED : N := 0.

Section Stream.
Context {P : Type} `{!Interner P}.

(** The locals of [layout_stream]. *)
Record LayoutState := mkLayout {
  lc : LexCursor P;
  out_tokens : list Token;
  frames : list LayoutFrame;
  current : LayoutFrame;
  prev_kind : OreSyntaxKind;
  prev_byte_end : N;
  newline_seen : bool;
  line_cur : nat;
  trivia_buf : list Token;
  held : Token
}.

Definition with_out (o : list Token) (s : LayoutState) : LayoutState :=
  mkLayout (lc s) o (frames s) (current s) (prev_kind s) (prev_byte_end s)
           (newline_seen s) (line_cur s) (trivia_buf s) (held s).
Definition with_prev_kind (k : OreSyntaxKind) (s : LayoutState) : LayoutState :=
  mkLayout (lc s) (out_tokens s) (frames s) (current s) k (prev_byte_end s)
           (newline_seen s) (line_cur s) (trivia_buf s) (held s).
Definition with_newline_seen (b : bool) (s : LayoutState) : LayoutState :=
  mkLayout (lc s) (out_tokens s) (frames s) (current s) (prev_kind s)
           (prev_byte_end s) b (line_cur s) (trivia_buf s) (held s).
Definition with_line_cur (c : nat) (s : LayoutState) : LayoutState :=
  mkLayout (lc s) (out_tokens s) (frames s) (current s) (prev_kind s)
           (prev_byte_end s) (newline_seen s) c (trivia_buf s) (held s).
Definition with_current (f : LayoutFrame) (s : LayoutState) : LayoutState :=
  mkLayout (lc s) (out_tokens s) (frames s) f (prev_kind s) (prev_byte_end s)
           (newline_seen s) (line_cur s) (trivia_buf s) (held s).

(** [emit_synthetic(out_tokens, k, prev_byte_end)]. *)
Definition synth (k : OreSyntaxKind) (s : LayoutState) : LayoutState :=
  with_out (emit_synthetic (out_tokens s) k (prev_byte_end s)) s.

Definition synth_semi_if (s : LayoutState) : LayoutState :=
  if should_emit_semicolon (prev_kind s) then synth SK_VIRTUAL_SEMI s else s.

(** [EMIT_REAL(&held)]: flush the trivia, then the token. *)
Definition emit_real (s : LayoutState) : LayoutState :=
  mkLayout (lc s) (out_tokens s ++ trivia_buf s ++ [held s]) (frames s) (current s)
           (prev_kind s) (prev_byte_end s) (newline_seen s) (line_cur s) [] (held s).

(** [prev_kind = held.kind; prev_byte_end = held.byte_end; newline_seen = false]. *)
Definition note_prev (s : LayoutState) : LayoutState :=
  mkLayout (lc s) (out_tokens s) (frames s) (current s) (kind (held s))
           (byte_end (held s)) false (line_cur s) (trivia_buf s) (held s).

(** [frames[frames_count++] = current], then the new current frame. *)
Definition push_frame (f : LayoutFrame) (s : LayoutState) : outcome LayoutState :=
  let! _ := oassert (length (frames s) <? LAYOUT_MAX_FRAMES)%nat
              "layout frame stack overflow" in
  Ret (mkLayout (lc s) (out_tokens s) (current s :: frames s) f (prev_kind s)
         (prev_byte_end s) (newline_seen s) (line_cur s) (trivia_buf s) (held s)).

(** [if (frames_count > 0) current = frames[--frames_count]]. *)
Definition pop_frame (s : LayoutState) : LayoutState :=
  match frames s with
  | [] => s
  | f :: fs =>
      mkLayout (lc s) (out_tokens s) fs f (prev_kind s) (prev_byte_end s)
               (newline_seen s) (line_cur s) (trivia_buf s) (held s)
  end.

(** [held = lex_next(lc)]. *)
Definition next_token (s : LayoutState) : outcome LayoutState :=
  let! (t, l) := lex_next (lc s) in
  Ret (mkLayout l (out_tokens s) (frames s) (current s) (prev_kind s)
         (prev_byte_end s) (newline_seen s) (line_cur s) (trivia_buf s) t).

(** The column of [held], advancing the line cursor. *)
Definition held_column (s : LayoutState) : outcome (N * LayoutState) :=
  let! (col, c) := col_advance (start (held s)) (line_starts (lc s)) (line_cur s) in
  Ret (col, with_line_cur c s).

(** ** Steps *)

(** A trivia token: buffer it. *)
Definition buffer_trivia (s : LayoutState) : outcome LayoutState :=
  let s := if kind_eqb (kind (held s)) SK_NEWLINE then with_newline_seen true s else s in
  let! _ := oassert (length (trivia_buf s) <? LAYOUT_TRIVIA_SCRATCH)%nat
              "layout trivia scratch overflow" in
  Ret (mkLayout (lc s) (out_tokens s) (frames s) (current s) (prev_kind s)
         (prev_byte_end s) (newline_seen s) (line_cur s)
         (trivia_buf s ++ [held s]) (held s)).

(** The first non-trivia token after an explicit [{] resolves its column. *)
Definition resolve_indent (s : LayoutState) : outcome LayoutState :=
  if frame_kind_eqb (frame_kind (current s)) FRAME_EXPLICIT &&
     (indent (current s) =? INDENT_UNRESOLVED)
  then
    let! (col, s) := held_column s in
    Ret (with_current (mkFrame col (frame_kind (current s))) s)
  else Ret s.

(** [while (frames_count > 0)] at [SK_EOF]: structural on the frame stack. *)
Fixpoint close_all (fs : list LayoutFrame) (s : LayoutState) : LayoutState :=
  match fs with
  | [] => s
  | _ :: fs => close_all fs (pop_frame (synth SK_VIRTUAL_SEMI (synth SK_VIRTUAL_RBRACE s)))
  end.

Definition at_eof (s : LayoutState) : LayoutState :=
  let s := synth_semi_if s in
  emit_real (close_all (frames s) s).

(** [while (current.kind == FRAME_LAYOUT && frames_count > 0)] of rule (4). *)
Fixpoint pop_layouts (fs : list LayoutFrame) (s : LayoutState) : LayoutState :=
  match fs with
  | [] => s
  | _ :: fs =>
      if frame_kind_eqb (frame_kind (current s)) FRAME_LAYOUT
      then pop_layouts fs (pop_frame (synth SK_VIRTUAL_RBRACE s))
      else s
  end.

(** The re-examination loop on one held token: rules (1) to (6). *)
Fixpoint reexamine (fuel : nat) (s : LayoutState) : outcome LayoutState :=
  match fuel with
  | O => OutOfFuel
  | S f =>
      let! (ind, s) := held_column s in
      let layout_col := indent (current s) in
      if newline_seen s && (layout_col <? ind) &&
         negb (is_expr_continuation (prev_kind s) (kind (held s))) then
        (* (1) open a virtual block *)
        let s := synth SK_VIRTUAL_LBRACE s in
        let! s := push_frame (mkFrame ind FRAME_LAYOUT) s in
        reexamine f (with_newline_seen false (with_prev_kind SK_VIRTUAL_LBRACE s))
      else if newline_seen s && (ind <? layout_col) &&
              negb (kind_eqb (kind (held s)) SK_RBRACE &&
                    frame_kind_eqb (frame_kind (current s)) FRAME_EXPLICIT) then
        (* (2) close a block *)
        let s := synth_semi_if s in
        let s := synth SK_VIRTUAL_RBRACE s in
        reexamine f (with_prev_kind SK_VIRTUAL_RBRACE (pop_frame s))
      else if kind_eqb (kind (held s)) SK_LBRACE then
        (* (3) explicit open *)
        let s := emit_real s in
        let! s := push_frame (mkFrame INDENT_UNRESOLVED FRAME_EXPLICIT) s in
        Ret (note_prev s)
      else if kind_eqb (kind (held s)) SK_RBRACE then
        (* (4) explicit close *)
        let s := pop_layouts (frames s) s in
        let s := synth_semi_if s in
        let s := emit_real s in
        Ret (note_prev (pop_frame s))
      else if newline_seen s && (ind =? layout_col) &&
              negb (is_expr_continuation (prev_kind s) (kind (held s))) then
        (* (5) sibling *)
        Ret (note_prev (emit_real (synth_semi_if s)))
      else
        (* (6) pass through *)
        Ret (note_prev (emit_real s))
  end.

Definition reexamine_fuel (s : LayoutState) : nat := S (S (length (frames s))).

(** The main loop; one iteration per raw token. *)
Fixpoint layout_loop (fuel : nat) (s : LayoutState) : outcome LayoutState :=
  match fuel with
  | O => OutOfFuel
  | S f =>
      if token_is_trivia (kind (held s)) then
        let! s := buffer_trivia s in
        let! s := next_token s in
        layout_loop f s
      else
        let! s := resolve_indent s in
        if kind_eqb (kind (held s)) SK_EOF then Ret (at_eof s)
        else if kind_eqb (kind (held s)) SK_LEX_ERROR then
          let! s := next_token (note_prev (emit_real s)) in
          layout_loop f s
        else
          let! s := reexamine (reexamine_fuel s) s in
          let! s := next_token s in
          layout_loop f s
  end.

(** [layout_stream]: the unified token vector and the final cursor. *)
Definition layout_stream (l : LexCursor P) : outcome (list Token * LexCursor P) :=
  let! (t, l) := lex_next l in
  let s := mkLayout l [] [] (mkFrame 1 FRAME_ROOT) SK_EOF (start t) false 0 [] t in
  let! s := layout_loop (S (S (length (source l)))) s in
  Ret (out_tokens s, lc s).

End Stream.
Arguments LayoutState P : clear implicits.

End Layout.
