(* ===== verification/LayoutTheorems.v ===== *)
(** * The layout pass: what it guarantees

    Totality up to the two fixed-size buffers, losslessness, contiguity, balanced
    braces, no empty statements, the size of the output, and the column lookup
    against its specification. *)

From Stdlib Require Import Sorting.Sorted.
From S2P Require Import Prelude SyntaxKind Token Interner Lexer LexerFacts Layout StringPool.

(** ** The layout pass: its invariant

    [linv] relates a state of [layout_stream] to the token stream of the lexer: it
    holds at the start of every iteration, and [pinv] once the held token has been
    consumed.  [layout_loop] always returns or trips one of its two asserts
    ([layout_loop_outcome]). *)

Import SyntaxKind Token Lexer LexerFacts Layout.

Module LayoutFacts.

#[local] Open Scope N_scope.

(** ** What is said about an output vector *)

(** Virtual tokens and [SK_EOF] have no width; every other token has some. *)
Definition zero_width (k : OreSyntaxKind) : bool :=
  ore_kind_is_virtual_layout k || kind_eqb k SK_EOF.

(** Each token starts where the previous one ends. *)
Fixpoint contig (a : N) (ts : list Token) (b : N) : Prop :=
  match ts with
  | [] => a = b
  | t :: ts =>
      start t = a /\
      (if zero_width (kind t) then byte_end t = a else a < byte_end t) /\
      contig (byte_end t) ts b
  end.

(** The depth of open braces after [ts].  A virtual [}] needs an open brace; a
    written [}] without one is tolerated, as the code tolerates it. *)
Fixpoint brace_scan (d : nat) (ts : list Token) : option nat :=
  match ts with
  | [] => Some d
  | t :: ts =>
      match kind t with
      | SK_LBRACE | SK_VIRTUAL_LBRACE => brace_scan (S d) ts
      | SK_RBRACE => brace_scan (pred d) ts
      | SK_VIRTUAL_RBRACE =>
          match d with O => None | S d => brace_scan d ts end
      | _ => brace_scan d ts
      end
  end.

(** The kind of the last token that is not trivia. *)
Definition last_sig (k : OreSyntaxKind) (ts : list Token) : OreSyntaxKind :=
  foldl (fun k t => if token_is_trivia (kind t) then k else kind t) k ts.

(** A statement can end after a token of this kind: it neither opens a block nor
    separates statements, nor is it the beginning of the file. *)
Definition ends_statement (k : OreSyntaxKind) : bool :=
  negb (existsb (kind_eqb k)
          [SK_LBRACE; SK_VIRTUAL_LBRACE; SK_SEMI; SK_VIRTUAL_SEMI; SK_EOF]).

(** Every virtual [;] follows a token that ends a statement. *)
Fixpoint semis_ok (prev : OreSyntaxKind) (ts : list Token) : Prop :=
  match ts with
  | [] => True
  | t :: ts =>
      (kind t = SK_VIRTUAL_SEMI -> ends_statement prev = true) /\
      semis_ok (if token_is_trivia (kind t) then prev else kind t) ts
  end.

(** The tokens that came from the lexer. *)
Definition strip (ts : list Token) : list Token :=
  List.filter (fun t => negb (token_is_synthetic t)) ts.

Lemma contig_app a x y c :
  contig a (x ++ y) c <-> exists b, contig a x b /\ contig b y c.
Proof.
  revert a. induction x as [|t x IH]; intros a; simpl.
  - split; [by exists a|]. by intros (b & <- & H).
  - rewrite IH. split.
    + intros (H1 & H2 & b & H3 & H4). by exists b.
    + intros (b & (H1 & H2 & H3) & H4). eauto.
Qed.

Lemma brace_scan_app d x y :
  brace_scan d (x ++ y) =
  match brace_scan d x with Some d' => brace_scan d' y | None => None end.
Proof.
  revert d. induction x as [|t x IH]; intros d; simpl; [done|].
  destruct (kind t); try apply IH. by destruct d.
Qed.

Lemma brace_scan_then d x y d' :
  brace_scan d x = Some d' -> brace_scan d (x ++ y) = brace_scan d' y.
Proof. intros H. by rewrite brace_scan_app, H. Qed.

Lemma last_sig_app k x y : last_sig k (x ++ y) = last_sig (last_sig k x) y.
Proof. apply foldl_app. Qed.

Lemma strip_app x y : strip (x ++ y) = strip x ++ strip y.
Proof. apply List.filter_app. Qed.

Lemma semis_ok_app k x y :
  semis_ok k (x ++ y) <-> semis_ok k x /\ semis_ok (last_sig k x) y.
Proof.
  revert k. induction x as [|t x IH]; intros k; simpl; [tauto|].
  rewrite IH. unfold last_sig at 2. simpl. tauto.
Qed.

Lemma ends_statement_should_emit k : ends_statement k = should_emit_semicolon k.
Proof. by destruct k. Qed.

(** ** Runs of trivia *)

Definition trivia_run (ts : list Token) : Prop :=
  Forall (fun t => token_is_trivia (kind t) = true) ts.

Lemma trivia_inert k :
  token_is_trivia k = true ->
  zero_width k = false /\ ore_kind_is_virtual_layout k = false /\
  k <> SK_VIRTUAL_SEMI.
Proof. by destruct k. Qed.

Lemma trivia_run_facts ts :
  trivia_run ts ->
  strip ts = ts /\ (forall d, brace_scan d ts = Some d) /\
  (forall k, last_sig k ts = k) /\ (forall k, semis_ok k ts) /\
  (forall a b, tiles a ts b -> contig a ts b).
Proof.
  induction 1 as [|t ts Ht _ (IH1 & IH2 & IH3 & IH4 & IH5)]; simpl; [done|].
  pose proof (trivia_inert _ Ht) as (Hz & Hv & Hs). repeat split.
  - unfold token_is_synthetic. rewrite Hv. simpl. by rewrite IH1.
  - intros d. by destruct (kind t).
  - intros k. unfold last_sig. simpl. rewrite Ht. apply IH3.
  - done.
  - apply IH4.
  - by destruct H.
  - rewrite Hz. by destruct H as (_ & ? & _).
  - apply IH5. by destruct H as (_ & _ & ?).
Qed.

Lemma tiles_snoc a ts b t c :
  tiles a ts b -> start t = b -> b < c -> byte_end t = c -> tiles a (ts ++ [t]) c.
Proof.
  revert a. induction ts as [|u ts IH]; simpl; intros a.
  - by intros <- -> ? ->.
  - intros (? & ? & ?) ? ? ?. eauto.
Qed.

(** ** Columns *)

(** [c] is the line of byte [b]: the last line start not after it. *)
Definition line_at (ls : list N) (b : N) (c : nat) : Prop :=
  (c < length ls)%nat /\ nth c ls 0 <= b /\
  ((c + 1 < length ls)%nat -> b < nth (c + 1) ls 0).

Lemma col_advance_line ls b cur :
  (cur < length ls)%nat -> nth cur ls 0 <= b ->
  exists c, col_advance b ls cur = Ret (u32 (u32_sub b (nth c ls 0) + 1), c) /\
    line_at ls b c /\ (cur <= c)%nat.
Proof.
  intros Hc Hb. unfold col_advance.
  destruct (length ls =? 0)%nat eqn:E; [breflect; lia|].
  destruct (while_loop_done
    (fun c => (cur <= c)%nat /\ (c < length ls)%nat /\ nth c ls 0 <= b)
    (fun c => length ls - c)%nat
    (fun c => (c + 1 <? length ls)%nat && (nth (c + 1) ls 0 <=? b))
    (fun c => c + 1)%nat) with (fuel := S (length ls)) (s := cur)
    as (c & -> & (H1 & H2 & H3) & Hs).
  - intros c (? & ? & ?) Hcond. breflect. repeat split; try lia; done.
  - repeat split; [reflexivity|exact Hc|exact Hb].
  - lia.
  - exists c. split; [done|]. repeat split; try done.
    intros Hl. apply andb_false_iff in Hs as [Hs|Hs]; breflect; lia.
Qed.

Lemma increasing_nth ls i j :
  increasing ls -> (i < j)%nat -> (j < length ls)%nat -> nth i ls 0 < nth j ls 0.
Proof.
  intros H. revert i j. induction H as [|x ls H IH Hx]; intros i j Hij Hj; simpl in *; [lia|].
  destruct j as [|j]; [lia|]. destruct i as [|i]; [|apply IH; lia].
  rewrite List.Forall_forall in Hx. apply Hx, nth_In. lia.
Qed.

(** The line of a byte is unique, so the cursor's answer does not depend on where
    it started. *)
Lemma line_at_unique ls b c c' :
  increasing ls -> line_at ls b c -> line_at ls b c' -> c = c'.
Proof.
  intros Hs (H1 & H2 & H3) (H1' & H2' & H3').
  destruct (Nat.lt_trichotomy c c') as [Hlt|[->|Hlt]]; [|done|]; exfalso.
  - assert (b < nth (c + 1) ls 0) by (apply H3; lia).
    destruct (Nat.eq_dec (c + 1)%nat c') as [<-|]; [lia|].
    pose proof (increasing_nth ls (c + 1)%nat c' Hs ltac:(lia) H1'). lia.
  - assert (b < nth (c' + 1) ls 0) by (apply H3'; lia).
    destruct (Nat.eq_dec (c' + 1)%nat c) as [<-|]; [lia|].
    pose proof (increasing_nth ls (c' + 1)%nat c Hs ltac:(lia) H1). lia.
Qed.

Section Machine.
Context {P : Type} `{!Interner P}.
Implicit Types s : LayoutState P.

(** ** The invariant

    [p0] is where lexing starts; [all] is the token vector of the lexer, ended by
    [SK_EOF], and [l'] its final cursor. *)

Context (p0 : N) (all : list Token) (l' : LexCursor P).

(** The frame stack ends in the root frame. *)
Fixpoint stack_ok (cur : LayoutFrame) (fs : list LayoutFrame) : Prop :=
  match fs with
  | [] => cur = mkFrame 1 FRAME_ROOT
  | f :: fs => stack_ok f fs
  end.

(** The number of raw tokens consumed. *)
Definition consumed s : nat := length (strip (out_tokens s)) + length (trivia_buf s).

Definition nl s : nat := if newline_seen s then 1 else 0.

(** What holds of a state whose next token starts at [b]. *)
Record base s (b : N) : Prop := {
  bs_wf : wf (lc s);
  bs_inc : increasing (line_starts (lc s));
  bs_stack : stack_ok (current s) (frames s);
  bs_line : (line_cur s < length (line_starts (lc s)))%nat /\
            nth (line_cur s) (line_starts (lc s)) 0 <= b;
  bs_lines : Forall (fun p => p <= pos (lc s)) (line_starts (lc s));
  bs_trivia : trivia_run (trivia_buf s);
  bs_contig : contig p0 (out_tokens s) (prev_byte_end s);
  bs_tiles : tiles (prev_byte_end s) (trivia_buf s) b;
  bs_braces : brace_scan 0 (out_tokens s) = Some (length (frames s));
  bs_last : last_sig SK_EOF (out_tokens s) = prev_kind s;
  bs_semis : semis_ok SK_EOF (out_tokens s);
  bs_size : (length (out_tokens s) + length (trivia_buf s) +
             2 * length (frames s) + 3 * nl s <= 4 * consumed s)%nat;
  bs_frames : (length (frames s) + nl s <= consumed s)%nat
}.

Definition held_ok s : Prop :=
  (real_kind (kind (held s)) = true /\ start (held s) < byte_end (held s) /\
   byte_end (held s) = pos (lc s) /\ eof_emitted (lc s) = false) \/
  (kind (held s) = SK_EOF /\ byte_end (held s) = start (held s) /\
   start (held s) = source_len (lc s)).

(** The invariant of the main loop. *)
Record linv (rest : list Token) s : Prop := {
  li_base : base s (start (held s));
  li_held : held_ok s;
  li_tokens : strip (out_tokens s) ++ trivia_buf s ++ held s :: rest = all;
  li_rest :
    if kind_eqb (kind (held s)) SK_EOF then rest = [] /\ lc s = l'
    else yields (lc s) rest l'
}.

(** After the held token has been consumed. *)
Record pinv (rest : list Token) s : Prop := {
  pi_base : base s (pos (lc s));
  pi_eof : eof_emitted (lc s) = false;
  pi_tokens : strip (out_tokens s) ++ trivia_buf s ++ rest = all;
  pi_rest : yields (lc s) rest l'
}.

(** The two asserts, and what tripping one says about the length of the input. *)
Definition overflow (site : string) : Prop :=
  (site = "layout frame stack overflow"%string \/
   site = "layout trivia scratch overflow"%string) /\ (256 < length all)%nat.

Lemma yields_inv l ts m :
  yields l ts m -> exists t l1 rest, lex_next l = Ret (t, l1) /\ ts = t :: rest /\
    (if kind_eqb (kind t) SK_EOF then rest = [] /\ l1 = m else yields l1 rest m).
Proof.
  destruct 1 as [l t m E Hk|l t l1 ts m E Hk Hy].
  - exists t, m, []. by rewrite (proj2 (kind_eqb_eq _ _) Hk).
  - exists t, l1, ts. by rewrite (proj2 (kind_eqb_neq _ _) Hk).
Qed.

Lemma real_not_eof k : real_kind k = true -> kind_eqb k SK_EOF = false.
Proof. by destruct k. Qed.

(** Growing the line table keeps the cursor valid. *)
Lemma lines_grow ls ms c b b' :
  (c < length ls)%nat /\ nth c ls 0 <= b -> b <= b' ->
  (c < length (ls ++ ms))%nat /\ nth c (ls ++ ms) 0 <= b'.
Proof. intros [Hc Hb] Hle. rewrite length_app, app_nth1 by done. lia. Qed.

Lemma increasing_grow src ls ms a b :
  increasing ls -> Forall (fun p => p <= a) ls -> starts_within src a b ms -> a <= b ->
  increasing (ls ++ ms) /\ Forall (fun p => p <= b) (ls ++ ms).
Proof.
  intros Hi Hf [Hm Hfm] Hab. split.
  - induction Hi as [|x ls Hi IH Hx]; simpl; [done|].
    apply Forall_cons in Hf as [Hx1 Hf]. constructor; [by apply IH|].
    apply Forall_app. split; [done|].
    eapply Forall_impl; [exact Hfm|]. simpl. intros; lia.
  - apply Forall_app. split; [eapply Forall_impl; [exact Hf|]|
      eapply Forall_impl; [exact Hfm|]]; simpl; intros; lia.
Qed.

Lemma next_token_linv rest s :
  pinv rest s -> exists s2 rest', next_token s = Ret s2 /\ rest = held s2 :: rest' /\
    linv rest' s2.
Proof.
  intros [[W I K L Ls T C Ti B La Se Sz Fr] E Hall Hy].
  apply yields_inv in Hy as (t & l1 & rest' & En & -> & Hrest).
  unfold next_token. rewrite En. simpl. eexists _, rest'. split; [reflexivity|].
  split; [reflexivity|].
  destruct (N.lt_ge_cases (pos (lc s)) (source_len (lc s))) as [Hlt|Hge].
  - destruct (lex_next_real _ W E Hlt)
      as (t1 & l2 & E1 & W1 & (HS & HL & HP & ls & Hls & Hw) & He1 & Hp & Hk & Hst & Hen & _).
    rewrite En in E1. injection E1 as <- <-.
    destruct (increasing_grow _ _ _ _ _ I Ls Hw (proj1 HP)) as [I' Ls'].
    split; [split|..]; simpl; rewrite ?Hls, ?Hst; try done.
    + apply (lines_grow _ _ _ _ _ L). lia.
    + left. simpl. by rewrite Hst, Hen.
  - unfold lex_next in En. rewrite E, (proj2 (N.leb_le _ _) Hge) in En.
    injection En as <- <-. pose proof (wf_pos _ W) as Hpos.
    split; [split|..]; simpl; try done.
    + by destruct W.
    + right. simpl. split; [done|]. split; [done|]. lia.
Qed.

Section Step.
Context (rest : list Token).

(** ** Emitting *)

(** Virtual tokens at [p]. *)
Definition virtual_run (p : N) (ts : list Token) : Prop :=
  Forall (fun t => ore_kind_is_virtual_layout (kind t) = true /\
                   start t = p /\ byte_end t = p) ts.

Lemma virtual_zero_width k : ore_kind_is_virtual_layout k = true -> zero_width k = true.
Proof. intros H. unfold zero_width. by rewrite H. Qed.

Lemma virtual_run_facts p ts :
  virtual_run p ts -> strip ts = [] /\ contig p ts p.
Proof.
  induction 1 as [|t ts (Hv & Hs & He) _ [IH1 IH2]]; simpl; [done|].
  unfold token_is_synthetic. rewrite Hv, (virtual_zero_width _ Hv), He. simpl. auto.
Qed.

(** Insert virtual tokens before the held one and change the frames. *)
Definition inserted (extra : list Token) (cur : LayoutFrame) (fs : list LayoutFrame)
    (pk : OreSyntaxKind) (b : bool) s : LayoutState P :=
  mkLayout (lc s) (out_tokens s ++ extra) fs cur pk (prev_byte_end s) b (line_cur s)
           (trivia_buf s) (held s).

Lemma inserted_linv extra cur fs pk (b : bool) s :
  linv rest s -> virtual_run (prev_byte_end s) extra ->
  brace_scan (length (frames s)) extra = Some (length fs) ->
  semis_ok (prev_kind s) extra -> last_sig (prev_kind s) extra = pk ->
  stack_ok cur fs ->
  (length extra + 2 * length fs + 3 * (if b then 1 else 0) <=
   2 * length (frames s) + 3 * nl s)%nat ->
  (length fs + (if b then 1 else 0) <= length (frames s) + nl s)%nat ->
  linv rest (inserted extra cur fs pk b s).
Proof.
  intros [[W I K L Ls T C Ti B La Se Sz Fr] Hh Hall Hy] Hv Hb Hs Hl Hst Hsz Hfr.
  destruct (virtual_run_facts _ _ Hv) as [Hstrip Hcontig].
  assert (Hc : consumed (inserted extra cur fs pk b s) = consumed s)
    by (unfold consumed; simpl; rewrite strip_app, Hstrip, app_nil_r; done).
  split; [split|..]; rewrite ?Hc; simpl; try done.
  - apply contig_app. eauto.
  - by rewrite (brace_scan_then _ _ _ _ B).
  - by rewrite last_sig_app, La.
  - apply semis_ok_app. by rewrite La.
  - rewrite length_app. unfold nl in *. simpl. lia.
  - unfold nl in *. simpl. lia.
  - by rewrite strip_app, Hstrip, app_nil_r.
Qed.

(** Insert virtual tokens, flush the trivia, emit the held token. *)
Definition emitted (extra : list Token) (cur : LayoutFrame) (fs : list LayoutFrame) s
    : LayoutState P :=
  mkLayout (lc s) ((out_tokens s ++ extra) ++ trivia_buf s ++ [held s]) fs cur
           (kind (held s)) (byte_end (held s)) false (line_cur s) [] (held s).

Lemma real_kind_facts k :
  real_kind k = true -> zero_width k = false /\ ore_kind_is_virtual_layout k = false /\
  k <> SK_VIRTUAL_SEMI.
Proof. by destruct k. Qed.

Lemma emitted_pinv extra cur fs s :
  linv rest s -> real_kind (kind (held s)) = true -> token_is_trivia (kind (held s)) = false ->
  virtual_run (prev_byte_end s) extra ->
  brace_scan (length (frames s)) (extra ++ [held s]) = Some (length fs) ->
  semis_ok (prev_kind s) extra -> stack_ok cur fs ->
  (length extra + 2 * length fs <= 2 * length (frames s) + 3 * nl s + 3)%nat ->
  (length fs <= length (frames s) + nl s + 1)%nat ->
  pinv rest (emitted extra cur fs s).
Proof.
  intros [[W I K L Ls T C Ti B La Se Sz Fr] Hh Hall Hy]
    Hk Htr Hv Hb Hs Hst Hsz Hfr.
  destruct Hh as [(_ & Hlt & Hpos & He)|[Heof _]]; [|by rewrite Heof in Hk].
  destruct (virtual_run_facts _ _ Hv) as [Hstrip Hcontig].
  destruct (trivia_run_facts _ T) as (T1 & T2 & T3 & T4 & T5).
  destruct (real_kind_facts _ Hk) as (Hz & Hnv & Hns).
  assert (Hso : strip (out_tokens (emitted extra cur fs s)) =
                (strip (out_tokens s) ++ trivia_buf s) ++ [held s]).
  { simpl. rewrite !strip_app, Hstrip, T1, app_nil_r. simpl.
    unfold token_is_synthetic. rewrite Hnv. simpl. by rewrite app_assoc. }
  assert (Hc : consumed (emitted extra cur fs s) = S (consumed s)).
  { unfold consumed. rewrite Hso. simpl. rewrite !length_app. simpl. lia. }
  split; [split|..]; rewrite ?Hc; simpl; try done.
  - destruct L as [L1 L2]. split; [done|]. lia.
  - constructor.
  - apply contig_app. exists (prev_byte_end s). split; [apply contig_app; eauto|].
    apply contig_app. exists (start (held s)). split; [by apply T5|]. simpl.
    by rewrite Hz.
  - rewrite brace_scan_app in Hb.
    destruct (brace_scan (length (frames s)) extra) as [d|] eqn:Hd; [|done].
    rewrite <- app_assoc, (brace_scan_then _ _ _ _ B), (brace_scan_then _ _ _ _ Hd).
    by rewrite (brace_scan_then _ _ _ _ (T2 d)).
  - rewrite !last_sig_app. unfold last_sig at 1. simpl. by rewrite Htr.
  - rewrite !semis_ok_app, La. by repeat split.
  - rewrite !length_app. simpl. unfold nl in *. simpl. lia.
  - unfold nl in *. simpl. lia.
  - simpl in Hso. by rewrite Hso, <- !app_assoc.
  - by rewrite (real_not_eof _ Hk) in Hy.
Qed.

(** ** The steps *)

Lemma buffer_trivia_step s :
  linv rest s -> token_is_trivia (kind (held s)) = true ->
  (exists s1, buffer_trivia s = Ret s1 /\ pinv rest s1) \/
  (exists site, buffer_trivia s = AssertFailed site /\ overflow site).
Proof.
  intros [[W I K L Ls T C Ti B La Se Sz Fr] Hh Hall Hy] Ht.
  assert (Hk : real_kind (kind (held s)) = true) by by destruct (kind (held s)).
  rewrite (real_not_eof _ Hk) in Hy.
  destruct Hh as [(_ & Hlt & Hpos & He)|[Heof _]]; [|by rewrite Heof in Hk].
  unfold buffer_trivia.
  set (s0 := if kind_eqb (kind (held s)) SK_NEWLINE then with_newline_seen true s else s).
  assert (Hs0 : lc s0 = lc s /\ out_tokens s0 = out_tokens s /\ frames s0 = frames s /\
    current s0 = current s /\ prev_kind s0 = prev_kind s /\ line_cur s0 = line_cur s /\
    prev_byte_end s0 = prev_byte_end s /\ trivia_buf s0 = trivia_buf s /\
    held s0 = held s /\ (nl s0 <= nl s + 1)%nat).
  { unfold s0. destruct (kind_eqb _ _); repeat split; unfold nl; simpl;
      destruct (newline_seen s); lia. }
  destruct Hs0 as (E1 & E2 & E3 & E4 & E5 & E6 & E7 & E8 & E9 & Hnl).
  rewrite E8. destruct (_ <? _)%nat eqn:Hlen; simpl.
  - left. eexists. split; [reflexivity|].
    split; [split|..]; unfold consumed; simpl; rewrite ?E1, ?E2, ?E3, ?E4, ?E5, ?E6, ?E7,
      ?E9 in *; try done.
    + destruct L. split; [done|lia].
    + apply Forall_app. split; [done|]. by constructor.
    + apply tiles_snoc with (start (held s)); [done|done|by rewrite <- Hpos|done].
    + unfold nl, consumed in *. simpl in *. rewrite !length_app. simpl. lia.
    + unfold nl, consumed in *. simpl in *. rewrite !length_app. simpl. lia.
    + by rewrite <- app_assoc.
  - right. exists "layout trivia scratch overflow"%string. split; [done|].
    split; [by right|]. breflect. rewrite <- Hall, !length_app.
    unfold LAYOUT_TRIVIA_SCRATCH in *. simpl. lia.
Qed.

Lemma held_start_u32 s :
  linv rest s -> start (held s) < 2 ^ 32.
Proof.
  intros [[W I K L Ls T C Ti B La Se Sz Fr] Hh _ _].
  pose proof (wf_pos _ W). pose proof (wf_u32 _ W). destruct Hh as [?|?]; deex; lia.
Qed.

(** The column of the held token is found, and is 1-based. *)
Lemma held_column_step s :
  linv rest s -> exists c ind, held_column s = Ret (ind, with_line_cur c s) /\
    linv rest (with_line_cur c s) /\ (real_kind (kind (held s)) = true -> 1 <= ind).
Proof.
  intros Hl. pose proof (held_start_u32 s Hl) as Hu. pose proof Hl as Hl0.
  destruct Hl as [[W I K [L1 L2] Ls T C Ti B La Se Sz Fr] Hh Ht Hr].
  destruct (col_advance_line _ (start (held s)) _ L1 L2) as (c & E & (H1 & H2 & H3) & _).
  exists c. eexists. unfold held_column. rewrite E. simpl. split; [reflexivity|].
  split; [split; [split|..]; done|].
  intros Hk. rewrite u32_sub_small by done.
  destruct Hh as [(_ & Hlt & Hpos & _)|[Heof _]]; [|by rewrite Heof in Hk].
  pose proof (wf_pos _ W). pose proof (wf_u32 _ W). rewrite u32_small; lia.
Qed.

Lemma resolve_indent_step s :
  linv rest s -> exists s1, resolve_indent s = Ret s1 /\ linv rest s1 /\ held s1 = held s.
Proof.
  intros Hl. unfold resolve_indent.
  destruct (frame_kind_eqb _ _ && _) eqn:E; [|by exists s].
  destruct (held_column_step s Hl) as (c & ind & -> & Hl1 & _). simpl.
  eexists. split; [reflexivity|]. split; [|done].
  destruct Hl1 as [[W I K L Ls T C Ti B La Se Sz Fr] Hh Ht Hr].
  split; [split; try done|done..]. simpl in *.
  destruct (frames s); [|done]. simpl in K. by rewrite K in E.
Qed.

Lemma virtual_token k p :
  ore_kind_is_virtual_layout k = true -> virtual_run p [mkToken k STR_ID_NONE p p].
Proof. intros H. by repeat constructor. Qed.

(** The virtual [;] of [synth_semi_if]. *)
Definition semi_if (k : OreSyntaxKind) (p : N) : list Token :=
  if should_emit_semicolon k then [mkToken SK_VIRTUAL_SEMI STR_ID_NONE p p] else [].

Lemma synth_semi_if_inserted s :
  synth_semi_if s =
  inserted (semi_if (prev_kind s) (prev_byte_end s)) (current s) (frames s) (prev_kind s)
           (newline_seen s) s.
Proof.
  unfold synth_semi_if, semi_if, inserted. destruct (should_emit_semicolon _).
  - done.
  - rewrite app_nil_r. by destruct s.
Qed.

Lemma semi_if_facts k p :
  virtual_run p (semi_if k p) /\ (forall d, brace_scan d (semi_if k p) = Some d) /\
  (length (semi_if k p) <= 1)%nat /\ semis_ok k (semi_if k p).
Proof.
  unfold semi_if. destruct (should_emit_semicolon k) eqn:E; simpl.
  - split; [by apply virtual_token|]. rewrite ends_statement_should_emit. auto.
  - repeat split; [constructor|lia].
Qed.

(** Popping the layout frames of rule (4). *)
Lemma pop_layouts_inserted s :
  stack_ok (current s) (frames s) ->
  exists extra cur fs,
    pop_layouts (frames s) s = inserted extra cur fs (prev_kind s) (newline_seen s) s /\
    virtual_run (prev_byte_end s) extra /\
    brace_scan (length (frames s)) extra = Some (length fs) /\
    (forall k, semis_ok k extra /\
               (last_sig k extra = k \/ last_sig k extra = SK_VIRTUAL_RBRACE)) /\
    stack_ok cur fs /\ (length extra + length fs = length (frames s))%nat.
Proof.
  remember (frames s) as l eqn:El. revert s El.
  induction l as [|f l IH]; intros s El Hst; simpl.
  - exists [], (current s), []. unfold inserted. rewrite app_nil_r.
    split; [rewrite El; by destruct s|]. split; [constructor|]. split; [done|].
    split; [intros k; split; [done|by left]|]. by split.
  - destruct (frame_kind_eqb _ _).
    + unfold pop_frame at 1. simpl. rewrite <- El. simpl.
      edestruct (IH (mkLayout (lc s)
        (emit_synthetic (out_tokens s) SK_VIRTUAL_RBRACE (prev_byte_end s)) l f
        (prev_kind s) (prev_byte_end s) (newline_seen s) (line_cur s) (trivia_buf s)
        (held s))) as (extra & cur & fs & E & Hv & Hb & Hs & Hst' & Hlen); [done|done|].
      exists (mkToken SK_VIRTUAL_RBRACE STR_ID_NONE (prev_byte_end s) (prev_byte_end s) :: extra),
        cur, fs. rewrite E. split.
      { unfold inserted, emit_synthetic. simpl. by rewrite <- app_assoc. }
      split; [by constructor|]. split; [done|]. split.
      { intros k. simpl. destruct (Hs SK_VIRTUAL_RBRACE) as [H1 H2]. split; [done|].
        unfold last_sig in *. simpl. destruct H2; auto. }
      split; [done|]. simpl. lia.
    + exists [], (current s), (f :: l). unfold inserted. rewrite app_nil_r.
      split; [by rewrite El; destruct s|]. split; [constructor|]. split; [done|].
      split; [intros k; split; [done|by left]|]. by split.
Qed.

(** What a step that consumes the held token does: it leaves a consumed state, or
    trips one of the asserts. *)
Definition consumes (m : outcome (LayoutState P)) : Prop :=
  (exists s1, m = Ret s1 /\ pinv rest s1) \/
  (exists site, m = AssertFailed site /\ overflow site).

Lemma consumed_lt s : linv rest s -> (consumed s < length all)%nat.
Proof.
  intros [_ _ <- _]. unfold consumed. rewrite !length_app. simpl. lia.
Qed.

Lemma brace_scan_plain d t :
  real_kind (kind t) = true -> kind_eqb (kind t) SK_LBRACE = false ->
  kind_eqb (kind t) SK_RBRACE = false -> brace_scan d [t] = Some d.
Proof. simpl. by destruct (kind t). Qed.

(** Rules (5), (6) and error tokens: an optional [;], then the token. *)
Lemma emit_plain_pinv extra s :
  linv rest s -> real_kind (kind (held s)) = true -> token_is_trivia (kind (held s)) = false ->
  kind_eqb (kind (held s)) SK_LBRACE = false -> kind_eqb (kind (held s)) SK_RBRACE = false ->
  (extra = [] \/ extra = semi_if (prev_kind s) (prev_byte_end s)) ->
  pinv rest (emitted extra (current s) (frames s) s).
Proof.
  intros Hl Hk Ht H1 H2 He.
  destruct (semi_if_facts (prev_kind s) (prev_byte_end s)) as (S1 & S2 & S3 & S4).
  assert (Hx : virtual_run (prev_byte_end s) extra /\
    brace_scan (length (frames s)) extra = Some (length (frames s)) /\
    (length extra <= 1)%nat /\ semis_ok (prev_kind s) extra).
  { destruct He as [-> | ->]; [|done]. repeat split; [constructor|simpl; lia]. }
  destruct Hx as (X1 & X2 & X3 & X4).
  apply emitted_pinv; try done; try lia; [|by destruct Hl as [[] _ _ _]].
  rewrite (brace_scan_then _ _ _ _ X2). by apply brace_scan_plain.
Qed.

(** Rule (3). *)
Lemma explicit_open_consumes s :
  linv rest s -> kind_eqb (kind (held s)) SK_LBRACE = true ->
  consumes (let! s := push_frame (mkFrame INDENT_UNRESOLVED FRAME_EXPLICIT) (emit_real s) in
            Ret (note_prev s)).
Proof.
  intros Hl Hk. apply kind_eqb_eq in Hk. unfold push_frame. simpl.
  destruct (_ <? _)%nat eqn:Hlt; simpl.
  - left. eexists. split; [reflexivity|].
    assert (Hp : pinv rest (emitted [] (mkFrame INDENT_UNRESOLVED FRAME_EXPLICIT)
                         (current s :: frames s) s)).
    { apply emitted_pinv; rewrite ?Hk; try done; simpl; try lia; [constructor| |].
      - by rewrite Hk.
      - by destruct Hl as [[] _ _ _]. }
    unfold emitted in Hp. rewrite app_nil_r in Hp. exact Hp.
  - right. eexists. split; [reflexivity|]. split; [by left|].
    pose proof (consumed_lt s Hl). destruct Hl as [[] _ _ _]. breflect.
    unfold LAYOUT_MAX_FRAMES in *. lia.
Qed.

(** Rule (4). *)
Lemma explicit_close_pinv s :
  linv rest s -> kind_eqb (kind (held s)) SK_RBRACE = true ->
  pinv rest (note_prev (pop_frame (emit_real (synth_semi_if (pop_layouts (frames s) s))))).
Proof.
  intros Hl Hk. apply kind_eqb_eq in Hk.
  destruct (pop_layouts_inserted s) as (extra & cur & fs & -> & Hv & Hb & Hs & Hst & Hlen);
    [by destruct Hl as [[] _ _ _]|].
  rewrite synth_semi_if_inserted. simpl.
  destruct (semi_if_facts (prev_kind s) (prev_byte_end s)) as (S1 & S2 & S3 & S4).
  set (semi := semi_if _ _) in *.
  assert (Hsemi : semis_ok (last_sig (prev_kind s) extra) semi).
  { destruct (Hs (prev_kind s)) as [_ [->| ->]]; [done|].
    unfold semi, semi_if. by destruct (should_emit_semicolon _). }
  assert (Hp : pinv rest (emitted (extra ++ semi) (match fs with [] => cur | f :: _ => f end)
                       (tail fs) s)).
  { apply emitted_pinv; rewrite ?Hk; try done.
    - apply Forall_app. by split.
    - rewrite <- app_assoc, (brace_scan_then _ _ _ _ Hb), (brace_scan_then _ _ _ _ (S2 _)).
      simpl. rewrite Hk. by destruct fs.
    - apply semis_ok_app. split; [apply Hs|done].
    - by destruct fs.
    - rewrite length_app. destruct fs; simpl in *; lia.
    - destruct fs; simpl in *; lia. }
  unfold emitted in Hp. rewrite (app_assoc _ extra) in Hp. by destruct fs.
Qed.

(** ** The re-examination loop *)

(** Rule (1). *)
Lemma open_layout_linv ind s :
  linv rest s -> newline_seen s = true ->
  linv rest (inserted [mkToken SK_VIRTUAL_LBRACE STR_ID_NONE (prev_byte_end s) (prev_byte_end s)]
          (mkFrame ind FRAME_LAYOUT) (current s :: frames s) SK_VIRTUAL_LBRACE false s).
Proof.
  intros Hl Hn. pose proof (bs_stack _ _ (li_base _ _ Hl)) as Hst.
  apply inserted_linv; try done; [by apply virtual_token|..];
    unfold nl; simpl; rewrite ?Hn; lia.
Qed.

(** Rule (2). *)
Lemma close_layout_linv s fr fs :
  linv rest s -> newline_seen s = true -> frames s = fr :: fs ->
  linv rest (inserted (semi_if (prev_kind s) (prev_byte_end s) ++
                  [mkToken SK_VIRTUAL_RBRACE STR_ID_NONE (prev_byte_end s) (prev_byte_end s)])
          fr fs SK_VIRTUAL_RBRACE true s).
Proof.
  intros Hl Hn Efs. pose proof (bs_stack _ _ (li_base _ _ Hl)) as Hst. rewrite Efs in Hst.
  destruct (semi_if_facts (prev_kind s) (prev_byte_end s)) as (S1 & S2 & S3 & S4).
  apply inserted_linv; try done.
  - apply Forall_app. split; [done|by apply virtual_token].
  - by rewrite (brace_scan_then _ _ _ _ (S2 _)), Efs.
  - apply semis_ok_app. by split.
  - by rewrite last_sig_app.
  - rewrite length_app, Efs. unfold nl. simpl. rewrite Hn. lia.
  - rewrite Efs. unfold nl. simpl. rewrite Hn. lia.
Qed.

Lemma push_overflow f s :
  linv rest s -> (length (frames s) <? LAYOUT_MAX_FRAMES)%nat = false ->
  consumes (let! s := push_frame f s in reexamine 0 s).
Proof.
  intros Hl Hlen. unfold push_frame. rewrite Hlen. simpl.
  right. eexists. split; [reflexivity|]. split; [by left|].
  pose proof (consumed_lt s Hl). destruct Hl as [[] _ _ _]. breflect.
  unfold LAYOUT_MAX_FRAMES in *. lia.
Qed.

(** The rules that consume the held token. *)
Lemma consuming_rules s (b : bool) :
  linv rest s -> real_kind (kind (held s)) = true -> token_is_trivia (kind (held s)) = false ->
  consumes
    (if kind_eqb (kind (held s)) SK_LBRACE then
       let s := emit_real s in
       let! s := push_frame (mkFrame INDENT_UNRESOLVED FRAME_EXPLICIT) s in
       Ret (note_prev s)
     else if kind_eqb (kind (held s)) SK_RBRACE then
       let s := pop_layouts (frames s) s in
       let s := synth_semi_if s in
       let s := emit_real s in
       Ret (note_prev (pop_frame s))
     else if b then Ret (note_prev (emit_real (synth_semi_if s)))
     else Ret (note_prev (emit_real s))).
Proof.
  intros Hl Hk Ht.
  destruct (kind_eqb (kind (held s)) SK_LBRACE) eqn:E3; [by apply explicit_open_consumes|].
  destruct (kind_eqb (kind (held s)) SK_RBRACE) eqn:E4.
  { left. eexists. split; [reflexivity|]. by apply explicit_close_pinv. }
  destruct b; left; eexists; (split; [reflexivity|]).
  - rewrite synth_semi_if_inserted.
    exact (emit_plain_pinv (semi_if (prev_kind s) (prev_byte_end s)) s Hl Hk Ht E3 E4
             (or_intror eq_refl)).
  - pose proof (emit_plain_pinv [] s Hl Hk Ht E3 E4 (or_introl eq_refl)) as Hp.
    unfold emitted in Hp. rewrite app_nil_r in Hp. exact Hp.
Qed.

Lemma reexamine_consumes f s :
  linv rest s -> real_kind (kind (held s)) = true -> token_is_trivia (kind (held s)) = false ->
  ((if newline_seen s then S (S (length (frames s))) else 1) <= f)%nat ->
  consumes (reexamine f s).
Proof.
  revert s. induction f as [|f IH]; intros s0 Hl0 Hk Ht Hf; [destruct (newline_seen s0); lia|].
  destruct (held_column_step s0 Hl0) as (c & ind & E & Hl & Hind).
  specialize (Hind Hk). cbn [reexamine]. rewrite E. cbn beta iota delta [obind].
  change (held s0) with (held (with_line_cur c s0)) in Hk, Ht.
  change (newline_seen s0) with (newline_seen (with_line_cur c s0)) in Hf.
  change (frames s0) with (frames (with_line_cur c s0)) in Hf.
  remember (with_line_cur c s0) as s eqn:Es. clear Es E Hl0 s0.
  destruct (newline_seen s && (indent (current s) <? ind) && _) eqn:E1.
  { breflect. rewrite H in Hf. unfold push_frame.
    destruct (length (frames (synth SK_VIRTUAL_LBRACE s)) <? LAYOUT_MAX_FRAMES)%nat eqn:Hlt.
    - apply IH; [exact (open_layout_linv ind s Hl H)|done|done|]. simpl. lia.
    - pose proof (push_overflow (mkFrame ind FRAME_LAYOUT) s Hl Hlt) as Ho.
      unfold push_frame in Ho. simpl in Hlt. rewrite Hlt in Ho. exact Ho. }
  destruct (newline_seen s && (ind <? indent (current s)) && _) eqn:E2.
  { breflect. pose proof (bs_stack _ _ (li_base _ _ Hl)) as Hst. rewrite H in Hf.
    destruct (frames s) as [|fr fs] eqn:Efs; simpl in Hst.
    { rewrite Hst in H1. simpl in H1. lia. }
    rewrite synth_semi_if_inserted. apply IH; unfold pop_frame; simpl; rewrite Efs; simpl;
      [|done|done|rewrite H; simpl in Hf; lia].
    pose proof (close_layout_linv s fr fs Hl H Efs) as Hp.
    unfold inserted in Hp. rewrite app_assoc in Hp. rewrite H. exact Hp. }
  by apply consuming_rules.
Qed.

(** ** The end of the stream *)

(** The virtual tokens that close [n] frames at the end of the file. *)
Fixpoint closers (n : nat) (p : N) : list Token :=
  match n with
  | O => []
  | S n => mkToken SK_VIRTUAL_RBRACE STR_ID_NONE p p ::
           mkToken SK_VIRTUAL_SEMI STR_ID_NONE p p :: closers n p
  end.

Lemma closers_facts n p k :
  virtual_run p (closers n p) /\ brace_scan n (closers n p) = Some 0%nat /\
  semis_ok k (closers n p) /\ length (closers n p) = (2 * n)%nat.
Proof.
  revert k. induction n as [|n IH]; intros k; simpl; [by repeat constructor|].
  destruct (IH SK_VIRTUAL_SEMI) as (I1 & I2 & I3 & I4). rewrite I4.
  split; [by repeat constructor|]. split; [done|]. split; [by repeat split|lia].
Qed.

Lemma close_all_out s :
  let s' := close_all (frames s) s in
  out_tokens s' = out_tokens s ++ closers (length (frames s)) (prev_byte_end s) /\
  trivia_buf s' = trivia_buf s /\ held s' = held s /\ lc s' = lc s.
Proof.
  simpl. remember (frames s) as l eqn:El. revert s El.
  induction l as [|f l IH]; intros s El; simpl; [by rewrite app_nil_r|].
  unfold pop_frame. simpl. rewrite <- El. simpl.
  edestruct IH as (H1 & H2 & H3 & H4); [|rewrite H1, H2, H3, H4; simpl]; [done|].
  split; [|done]. unfold emit_synthetic. by rewrite <- !app_assoc.
Qed.

(** What [layout_stream] promises of its output. *)
Record laid_out (out : list Token) (b : N) : Prop := {
  lo_strip : strip out = all;
  lo_contig : contig p0 out b;
  lo_braces : brace_scan 0 out = Some 0%nat;
  lo_semis : semis_ok SK_EOF out;
  lo_size : (length out <= 4 * length all)%nat;
  lo_last : exists init e, out = init ++ [e] /\ token_is_synthetic e = false
}.

Lemma at_eof_laid_out s :
  linv rest s -> kind (held s) = SK_EOF ->
  lc (at_eof s) = l' /\ laid_out (out_tokens (at_eof s)) (source_len l').
Proof.
  intros [[W I K L Ls T C Ti B La Se Sz Fr] Hh Hall Hr] Hk.
  rewrite Hk in Hr. simpl in Hr. destruct Hr as [-> Hlc].
  destruct Hh as [(Hreal & _)|(_ & Hz & Hsrc)]; [by rewrite Hk in Hreal|].
  unfold at_eof. rewrite synth_semi_if_inserted.
  set (semi := semi_if (prev_kind s) (prev_byte_end s)).
  set (s1 := inserted semi _ _ _ _ s).
  destruct (close_all_out s1) as (H1 & H2 & H3 & H4).
  unfold emit_real. cbn [lc out_tokens].
  rewrite H1, H2, H3, H4. split; [exact Hlc|].
  destruct (semi_if_facts (prev_kind s) (prev_byte_end s)) as (S1 & S2 & S3 & S4).
  destruct (closers_facts (length (frames s)) (prev_byte_end s) (last_sig (prev_kind s) semi))
    as (C1 & C2 & C3 & C4).
  destruct (trivia_run_facts _ T) as (T1 & T2 & T3 & T4 & T5).
  destruct (virtual_run_facts _ _ S1) as [V1 V2]. destruct (virtual_run_facts _ _ C1) as [V3 V4].
  assert (Hstr : strip [held s] = [held s])
    by (unfold strip, token_is_synthetic; simpl; by rewrite Hk).
  simpl. rewrite <- Hlc, <- Hsrc. rewrite <- (app_assoc (out_tokens s)).
  split.
  - rewrite !strip_app, Hstr, T1. fold semi in V1. rewrite V1, V3. simpl.
    by rewrite app_nil_r.
  - apply contig_app. exists (prev_byte_end s). split.
    + apply contig_app. exists (prev_byte_end s). split; [done|].
      apply contig_app. by exists (prev_byte_end s).
    + apply contig_app. exists (start (held s)). split; [by apply T5|]. simpl.
      by rewrite Hk.
  - rewrite <- !app_assoc, (brace_scan_then _ _ _ _ B), (brace_scan_then _ _ _ _ (S2 _)).
    rewrite (brace_scan_then _ _ _ _ C2), (brace_scan_then _ _ _ _ (T2 _)).
    simpl. by rewrite Hk.
  - rewrite !semis_ok_app, La. repeat split; try done. simpl. by rewrite Hk.
  - rewrite <- Hall, !length_app. unfold consumed in Sz. fold semi in S3.
    rewrite C4. simpl. lia.
  - eexists _, (held s). split; [by rewrite !app_assoc|].
    unfold token_is_synthetic. by rewrite Hk.
Qed.

End Step.

(** ** The main loop *)

Definition finishes (m : outcome (LayoutState P)) : Prop :=
  (exists s', m = Ret s' /\ lc s' = l' /\ laid_out (out_tokens s') (source_len l')) \/
  (exists site, m = AssertFailed site /\ overflow site).

Lemma consumes_finishes rest m f :
  consumes rest m ->
  (forall rest' s, rest = held s :: rest' -> linv rest' s -> finishes (layout_loop f s)) ->
  finishes (let! s := m in let! s := next_token s in layout_loop f s).
Proof.
  intros [(s1 & -> & Hp)|(site & -> & Ho)] Hf; simpl; [|right; by exists site].
  destruct (next_token_linv rest s1 Hp) as (s2 & rest' & -> & Er & Hl2). by eapply Hf.
Qed.

Lemma layout_loop_outcome f rest s :
  linv rest s -> (length rest < f)%nat -> finishes (layout_loop f s).
Proof.
  revert rest s. induction f as [|f IH]; intros rest s Hl Hf; [lia|]. cbn [layout_loop].
  assert (Hrec : forall rest' s1, rest = held s1 :: rest' -> linv rest' s1 ->
    finishes (layout_loop f s1)).
  { intros rest' s1 -> Hl1. apply (IH rest'); [done|]. simpl in Hf. lia. }
  destruct (token_is_trivia (kind (held s))) eqn:Ht.
  { by apply (consumes_finishes rest), Hrec; apply buffer_trivia_step. }
  destruct (resolve_indent_step rest s Hl) as (s1 & -> & Hl1 & Hh).
  cbn beta iota delta [obind]. rewrite <- Hh in Ht. clear Hl Hh s.
  destruct (kind_eqb (kind (held s1)) SK_EOF) eqn:E1.
  { left. eexists. split; [reflexivity|]. apply kind_eqb_eq in E1.
    by apply (at_eof_laid_out rest). }
  assert (Hk : real_kind (kind (held s1)) = true).
  { destruct (li_held _ _ Hl1) as [[Hk _]|[Hk _]]; [done|by rewrite Hk in E1]. }
  destruct (kind_eqb (kind (held s1)) SK_LEX_ERROR) eqn:E2.
  - apply kind_eqb_eq in E2.
    apply (consumes_finishes rest (Ret (note_prev (emit_real s1)))); [|done].
    left. eexists. split; [reflexivity|].
    pose proof (emit_plain_pinv rest [] s1 Hl1 Hk Ht) as Hp. rewrite E2 in Hp.
    specialize (Hp eq_refl eq_refl (or_introl eq_refl)).
    unfold emitted in Hp. rewrite app_nil_r in Hp. exact Hp.
  - apply (consumes_finishes rest); [|done]. apply (reexamine_consumes rest); [done..|].
    unfold reexamine_fuel. destruct (newline_seen s1); lia.
Qed.

End Machine.

(** ** The whole pass *)

Section Stream.
Context {P : Type} `{!Interner P}.

(** Pulling a token leaves the source alone. *)
Lemma lex_next_source (l : LexCursor P) t l1 :
  wf l -> eof_emitted l = false -> lex_next l = Ret (t, l1) ->
  source l1 = source l /\ source_len l1 = source_len l /\
  (kind t <> SK_EOF -> wf l1 /\ eof_emitted l1 = false).
Proof.
  intros W E En. destruct (N.lt_ge_cases (pos l) (source_len l)) as [Hlt|Hge].
  - destruct (lex_next_real l W E Hlt)
      as (t1 & l2 & E1 & W1 & (HS & HL & _) & He1 & _).
    rewrite En in E1. injection E1 as <- <-. done.
  - unfold lex_next in En. rewrite E, (proj2 (N.leb_le _ _) Hge) in En.
    injection En as <- <-. done.
Qed.

Lemma yields_source (l : LexCursor P) ts l' :
  yields l ts l' -> wf l -> eof_emitted l = false -> source_len l' = source_len l.
Proof.
  induction 1 as [l t l' E Hk|l t l1 ts l' E Hk Hy IH]; intros W He;
    destruct (lex_next_source _ _ _ W He E) as (_ & HL & Hn); [done|].
  destruct (Hn Hk). rewrite IH; done.
Qed.

(** The state before the first token is pulled. *)
Lemma begin_pinv src (pl : P) ts l' :
  wf (lex_begin src pl) -> streamed (lex_begin src pl) ts l' ->
  let all := ts ++ [mkToken SK_EOF STR_ID_NONE (N.of_nat (length src)) (N.of_nat (length src))] in
  pinv (bom_len src) all l' all
    (mkLayout (lex_begin src pl) [] [] (mkFrame 1 FRAME_ROOT) SK_EOF (bom_len src) false 0 []
       zero_token).
Proof.
  intros W [Y T R Len Ls _ _]. destruct (lex_begin_pos src pl) as [Hpos Hl0].
  split; [split|..]; cbn [lc out_tokens frames current prev_kind prev_byte_end newline_seen
    line_cur trivia_buf]; rewrite ?Hl0, ?Hpos; try done.
  - by repeat constructor.
  - split; [simpl; lia|]. simpl. lia.
  - constructor; [lia|constructor].
  - constructor.
Qed.

Lemma layout_stream_outcome (src : list byte) (pl : P) :
  (N.of_nat (length src) < 2 ^ 32) ->
  exists all l', lex src pl = Ret (all, l') /\ (length all <= length src + 1)%nat /\
    ((exists out, layout_stream (lex_begin src pl) = Ret (out, l') /\
        laid_out (bom_len src) all out (N.of_nat (length src))) \/
     (exists site, layout_stream (lex_begin src pl) = AssertFailed site /\
        overflow all site)).
Proof.
  intros H. pose proof (lex_begin_wf src pl H) as W.
  destruct (lex_streamed src pl H) as (ts & l' & St & E).
  pose proof (begin_pinv src pl ts l' W St) as Hp. simpl in Hp.
  pose proof (yields_source _ _ _ (st_yields _ _ _ St) W eq_refl) as Hsl.
  pose proof (st_length _ _ _ St) as Hlen.
  set (all := ts ++ _) in *. exists all, l'. split; [exact E|].
  assert (Hall : (length all <= length src + 1)%nat).
  { unfold all. rewrite length_app. simpl in *. lia. }
  split; [exact Hall|]. change (source_len (lex_begin src pl)) with (N.of_nat (length src)) in Hsl.
  destruct (next_token_linv _ _ _ _ _ Hp) as (s2 & rest & En & Er & Hl).
  unfold next_token in En. simpl lc in En. unfold layout_stream.
  destruct (lex_next (lex_begin src pl)) as [[t l1]| |] eqn:El; try discriminate En.
  destruct (lex_next_source _ _ _ W eq_refl El) as (Hsrc & _ & _).
  cbn beta iota delta [obind] in En |- *. injection En as <-.
  pose proof (bs_tiles _ _ _ (li_base _ _ _ _ _ Hl)) as Hst. simpl in Hst.
  rewrite <- Hst, Hsrc. simpl in Er.
  edestruct (layout_loop_outcome _ _ _ (S (S (length src))) rest _ Hl)
    as [(s' & Es & Hlc & Ho)|(site & Es & Ho)].
  - assert (length all = S (length rest)) by (rewrite Er; done). lia.
  - left. exists (out_tokens s').
    change (source (lex_begin src pl)) with src. rewrite Es. simpl.
    rewrite Hlc, <- Hsl. by split.
  - right. exists site. change (source (lex_begin src pl)) with src. by rewrite Es.
Qed.

End Stream.
End LayoutFacts.

Import SyntaxKind Token StringPool Lexer LexerFacts Layout LayoutFacts.

Module LayoutTheorems.

#[local] Open Scope N_scope.

(** ** Columns *)

(** The start of the line of byte [b]: the last line start not after [b]. *)
Definition line_start_of (ls : list N) (b : N) : N :=
  List.last (List.filter (fun p => p <=? b) ls) 0.

Lemma filter_none ls b :
  Forall (fun p => b < p) ls -> List.filter (fun p => p <=? b) ls = [].
Proof.
  induction 1 as [|x ls Hx _ IH]; simpl; [done|].
  by rewrite (proj2 (N.leb_gt x b) Hx).
Qed.

Lemma line_at_last ls b c :
  increasing ls -> line_at ls b c -> line_start_of ls b = nth c ls 0.
Proof.
  intros Hs. revert c. unfold line_start_of.
  induction Hs as [|x ls Hs IH Hx]; intros c (Hc & Hle & Hnext); simpl in *; [lia|].
  destruct c as [|c].
  - rewrite (proj2 (N.leb_le x b) Hle). destruct ls as [|y ls]; [done|].
    rewrite filter_none; [done|]. simpl in Hnext.
    assert (b < y) by (apply Hnext; lia). constructor; [done|].
    apply StronglySorted_inv in Hs as [_ Hf].
    eapply Forall_impl; [exact Hf|]. simpl. intros; lia.
  - assert (Hl : line_at ls b c).
    { split; [lia|]. split; [done|]. intros. apply Hnext. lia. }
    specialize (IH c Hl). rewrite List.Forall_forall in Hx.
    assert (x < nth c ls 0) by (apply Hx, nth_In; lia).
    rewrite (proj2 (N.leb_le x b)) by lia. rewrite <- IH.
    assert (Hin : In (nth c ls 0) (List.filter (fun p => p <=? b) ls)).
    { apply List.filter_In. split; [apply nth_In; lia|]. by apply N.leb_le. }
    simpl. destruct (List.filter _ ls); [done|reflexivity].
Qed.

(** [col_advance] is the column lookup: from any valid cursor it returns the
    1-based distance to the last line start not after the byte, whatever line the
    cursor was on, and the cursor it returns only moves forward and is valid for
    every later byte. *)
Theorem col_advance_is_lookup (ls : list N) (b : N) (cur : nat) :
  increasing ls -> (cur < length ls)%nat -> nth cur ls 0 <= b -> b < 2 ^ 32 - 1 ->
  exists c, col_advance b ls cur = Ret (b - line_start_of ls b + 1, c) /\
    (cur <= c < length ls)%nat /\ nth c ls 0 = line_start_of ls b.
Proof.
  intros Hs Hc Hb Hu.
  destruct (col_advance_line ls b cur Hc Hb) as (c & E & Hl & Hle).
  exists c. rewrite (line_at_last ls b c Hs Hl). destruct Hl as (H1 & H2 & _).
  rewrite E, u32_sub_small by lia. rewrite u32_small by lia. done.
Qed.

Section Stream.
Context {P : Type} `{!Interner P}.

(** the layout pass is total up to its two fixed-size buffers: on a source
    whose length fits [uint32_t] neither loop runs forever, and the only way not
    to return is to trip one of the two overflow asserts, which takes more than
    256 raw tokens. *)
Theorem layout_total (src : list byte) (pl : P) :
  N.of_nat (length src) < 2 ^ 32 ->
  exists raw l, lex src pl = Ret (raw, l) /\
    ((exists out, layout_stream (lex_begin src pl) = Ret (out, l)) \/
     ((layout_stream (lex_begin src pl) = AssertFailed "layout frame stack overflow" \/
       layout_stream (lex_begin src pl) = AssertFailed "layout trivia scratch overflow") /\
      (256 < length raw)%nat)).
Proof.
  intros H. destruct (layout_stream_outcome src pl H) as (raw & l & E & _ & Ho).
  exists raw, l. split; [exact E|].
  destruct Ho as [(out & -> & _)|(site & -> & [[-> | ->] Hlt])]; eauto.
Qed.

(** layout loses nothing and keeps the order: without its virtual tokens the
    output is the token vector of [lex], trivia included, and the cursor ends
    where [lex]'s does. *)
Theorem layout_lossless (src : list byte) (pl : P) out l :
  N.of_nat (length src) < 2 ^ 32 -> layout_stream (lex_begin src pl) = Ret (out, l) ->
  lex src pl = Ret (List.filter (fun t => negb (token_is_synthetic t)) out, l).
Proof.
  intros H Hr. destruct (layout_stream_outcome src pl H) as (raw & l' & E & _ & Ho).
  rewrite Hr in Ho. destruct Ho as [(out' & [= <- <-] & Lo)|(site & ? & _)]; [|done].
  rewrite E. pose proof (lo_strip _ _ _ _ Lo) as Hs. unfold strip in Hs. by rewrite Hs.
Qed.

(** the output is contiguous: every token starts where the previous one ends,
    from the byte-order mark to the end of the source; virtual tokens and the
    final [SK_EOF] are empty and every other token is not. *)
Theorem layout_contiguous (src : list byte) (pl : P) out l :
  N.of_nat (length src) < 2 ^ 32 -> layout_stream (lex_begin src pl) = Ret (out, l) ->
  contig (bom_len src) out (N.of_nat (length src)).
Proof.
  intros H Hr. destruct (layout_stream_outcome src pl H) as (raw & l' & E & _ & Ho).
  rewrite Hr in Ho. destruct Ho as [(out' & [= <- <-] & Lo)|(site & ? & _)]; [|done].
  apply (lo_contig _ _ _ _ Lo).
Qed.

(** braces balance: every virtual [}] closes an open brace, virtual or
    written, and at the end of the file every brace is closed. *)
Theorem layout_braces_balanced (src : list byte) (pl : P) out l :
  N.of_nat (length src) < 2 ^ 32 -> layout_stream (lex_begin src pl) = Ret (out, l) ->
  brace_scan 0 out = Some 0%nat.
Proof.
  intros H Hr. destruct (layout_stream_outcome src pl H) as (raw & l' & E & _ & Ho).
  rewrite Hr in Ho. destruct Ho as [(out' & [= <- <-] & Lo)|(site & ? & _)]; [|done].
  apply (lo_braces _ _ _ _ Lo).
Qed.

(** layout never inserts an empty statement: trivia aside, a virtual [;]
    never comes first and never follows an opening brace or another separator. *)
Theorem layout_no_empty_statement (src : list byte) (pl : P) out l :
  N.of_nat (length src) < 2 ^ 32 -> layout_stream (lex_begin src pl) = Ret (out, l) ->
  semis_ok SK_EOF out.
Proof.
  intros H Hr. destruct (layout_stream_outcome src pl H) as (raw & l' & E & _ & Ho).
  rewrite Hr in Ho. destruct Ho as [(out' & [= <- <-] & Lo)|(site & ? & _)]; [|done].
  apply (lo_semis _ _ _ _ Lo).
Qed.

(** the output has at most four tokens per raw token, so at most
    [4 * (source_len + 1)]: the [4 * len + 64] slots the caller reserves are
    enough. *)
Theorem layout_output_bound (src : list byte) (pl : P) out l :
  N.of_nat (length src) < 2 ^ 32 -> layout_stream (lex_begin src pl) = Ret (out, l) ->
  (length out <= 4 * (length src + 1))%nat.
Proof.
  intros H Hr. destruct (layout_stream_outcome src pl H) as (raw & l' & E & Hlen & Ho).
  rewrite Hr in Ho. destruct Ho as [(out' & [= <- <-] & Lo)|(site & ? & _)]; [|done].
  pose proof (lo_size _ _ _ _ Lo). lia.
Qed.

End Stream.

(** ** Instances *)

(** A block opened and closed by indentation, with an explicit block inside. *)
Definition sample : list byte :=
  bs "f :: fn()" ++ [x0a] ++ bs "  a" ++ [x0a] ++ bs "  { b; c }" ++ [x0a] ++ bs "g".

(** The layout of the sample, as a computed value. *)
Definition sample_out : list Token * LexCursor StringPool :=
  match layout_stream (lex_begin sample fresh_pool) with
  | Ret r => r
  | _ => ([], lex_begin [] fresh_pool)
  end.

Lemma col_advance_is_lookup_witness :
  exists c, col_advance 12 [0; 4; 9; 20] 1 = Ret (12 - line_start_of [0; 4; 9; 20] 12 + 1, c) /\
    (1 <= c < 4)%nat /\ nth c [0; 4; 9; 20] 0 = line_start_of [0; 4; 9; 20] 12.
Proof.
  apply (col_advance_is_lookup [0; 4; 9; 20] 12 1).
  - repeat constructor.
  - simpl. lia.
  - simpl. lia.
  - reflexivity.
Defined.

Lemma layout_total_witness :
  exists raw l, lex sample fresh_pool = Ret (raw, l) /\
    ((exists out, layout_stream (lex_begin sample fresh_pool) = Ret (out, l)) \/
     ((layout_stream (lex_begin sample fresh_pool) =
         AssertFailed "layout frame stack overflow" \/
       layout_stream (lex_begin sample fresh_pool) =
         AssertFailed "layout trivia scratch overflow") /\
      (256 < length raw)%nat)).
Proof. apply (layout_total sample fresh_pool). reflexivity. Defined.

Lemma layout_lossless_witness :
  lex sample fresh_pool =
    Ret (List.filter (fun t => negb (token_is_synthetic t)) sample_out.1, sample_out.2).
Proof.
  apply (layout_lossless sample fresh_pool sample_out.1 sample_out.2);
    vm_compute; reflexivity.
Defined.

Lemma layout_contiguous_witness : contig 0 sample_out.1 26.
Proof.
  apply (layout_contiguous sample fresh_pool sample_out.1 sample_out.2);
    vm_compute; reflexivity.
Defined.

Lemma layout_braces_balanced_witness : brace_scan 0 sample_out.1 = Some 0%nat.
Proof.
  apply (layout_braces_balanced sample fresh_pool sample_out.1 sample_out.2);
    vm_compute; reflexivity.
Defined.

Lemma layout_no_empty_statement_witness : semis_ok SK_EOF sample_out.1.
Proof.
  apply (layout_no_empty_statement sample fresh_pool sample_out.1 sample_out.2);
    vm_compute; reflexivity.
Defined.

Lemma layout_output_bound_witness : (length sample_out.1 <= 108)%nat.
Proof.
  apply (layout_output_bound sample fresh_pool sample_out.1 sample_out.2);
    vm_compute; reflexivity.
Defined.

End LayoutTheorems.
