(* ===== verification/Green.v ===== *)
(** * The green tree: [src/syntax/green.c]

    Immutable nodes and tokens.  A node or token is modelled by its value; the
    reference counts, the content hashes and the sharing of equal values are in
    [NodeCache].  A [GreenElement] is the child with the byte offset within its
    parent. *)

From S2P Require Import Prelude SyntaxKind.
Import SyntaxKind.

Module Green.

#[local] Open Scope N_scope.

(** [struct GreenNode] and [struct GreenToken]; the constructor is the element
    kind.  A token's [text_len] is the length of its text. *)
Inductive Green : Type :=
  | GreenNode (kind : OreSyntaxKind) (text_len : N) (children : list (N * Green))
  | GreenToken (kind : OreSyntaxKind) (text : list byte).

Notation GreenElement := (N * Green)%type.

Definition green_kind (g : Green) : OreSyntaxKind :=
  match g with GreenNode k _ _ | GreenToken k _ => k end.

Definition green_is_node (g : Green) : bool :=
  match g with GreenNode _ _ _ => true | GreenToken _ _ => false end.

Definition green_text_len (g : Green) : N :=
  match g with
  | GreenNode _ n _ => n
  | GreenToken _ t => u32 (N.of_nat (length t))
  end.

Definition green_children (g : Green) : list GreenElement :=
  match g with GreenNode _ _ cs => cs | GreenToken _ _ => [] end.

Definition green_node_num_children (g : Green) : N := N.of_nat (length (green_children g)).

(** An index out of range gives the null element. *)
Definition green_node_child (g : Green) (i : N) : option GreenElement :=
  nth_error (green_children g) (N.to_nat i).

(** The loop of [green_node_alloc]: child [i] starts where the children before it
    end; the result is the children and the total width. *)
Fixpoint assign_offsets (off : N) (cs : list GreenElement) : list GreenElement * N :=
  match cs with
  | [] => ([], off)
  | (_, g) :: cs =>
      let '(cs', total) := assign_offsets (u32 (off + green_text_len g)) cs in
      ((off, g) :: cs', total)
  end.

Definition green_node_alloc (k : OreSyntaxKind) (cs : list GreenElement) : Green :=
  let '(cs, n) := assign_offsets 0 cs in GreenNode k n cs.

(** ** Hashing: [support/data_structure/fxhash.h], on the state of the hasher *)

Definition FXHASH_SEED : N := 0xcbf29ce484222325.
Definition fxhash_u64 (h v : N) : N := u64 (N.lxor h v * 0x517cc1b727220a95).

(** ** Edits, each building a fresh node *)

Definition green_node_replace_child (n : Green) (idx : nat) (e : GreenElement)
    : outcome Green :=
  let! _ := oassert (idx <? length (green_children n))%nat
              "replace_child: idx out of range" in
  Ret (green_node_alloc (green_kind n) (<[idx := e]> (green_children n))).

Definition green_node_splice_children (n : Green) (from to : nat)
    (replace : list GreenElement) : outcome Green :=
  let! _ := oassert (from <=? to)%nat "splice_children: from > to" in
  let! _ := oassert (to <=? length (green_children n))%nat
              "splice_children: to out of range" in
  Ret (green_node_alloc (green_kind n)
         (take from (green_children n) ++ replace ++ drop to (green_children n))).

Definition green_node_insert_child (n : Green) (idx : nat) (e : GreenElement)
    : outcome Green :=
  let! _ := oassert (idx <=? length (green_children n))%nat
              "insert_child: idx out of range" in
  green_node_splice_children n idx idx [e].

Definition green_node_remove_child (n : Green) (idx : nat) : outcome Green :=
  let! _ := oassert (idx <? length (green_children n))%nat
              "remove_child: idx out of range" in
  green_node_splice_children n idx (idx + 1) [].

End Green.
