(* ===== verification/Builder.v ===== *)
(** * The green-tree builder: [src/syntax/builder.c]

    A stack of open frames and the flat vector of elements emitted so far.  The
    frame stack has the innermost frame first; the elements are in document order,
    so a checkpoint is a length.  The node cache is the identity on values (see
    [NodeCache]), and growing the two arrays has no counterpart. *)

From S2P Require Import Prelude SyntaxKind Green.
Import SyntaxKind Green.

Module Builder.

Record BuilderFrame := mkFrame { frame_kind : OreSyntaxKind; first_child : nat }.

Record GreenBuilder := mkBuilder {
  parents : list BuilderFrame;
  children : list (N * Green)
}.

Definition green_builder_new : GreenBuilder := mkBuilder [] [].

Definition green_builder_start_node (k : OreSyntaxKind) (b : GreenBuilder) : GreenBuilder :=
  mkBuilder (mkFrame k (length (children b)) :: parents b) (children b).

Definition green_builder_open_count (b : GreenBuilder) : nat := length (parents b).

(** Frame 0 is the outermost one. *)
Definition green_builder_open_kind_at (b : GreenBuilder) (i : nat) : OreSyntaxKind :=
  match nth_error (rev (parents b)) i with
  | Some f => frame_kind f
  | None => SK_NONE
  end.

Definition green_builder_token (k : OreSyntaxKind) (text : list byte) (b : GreenBuilder)
    : GreenBuilder :=
  mkBuilder (parents b) (children b ++ [(0%N, GreenToken k text)]).

(** The children from the frame's first one on become one node.  builder.c has no assert on
    [first]: for a frame whose first child lies beyond the end, [count] wraps around and
    reading the children from there is out of bounds, where the model stops. *)
Definition green_builder_finish_node (b : GreenBuilder) : outcome GreenBuilder :=
  match parents b with
  | [] => AssertFailed "finish_node without matching start_node"
  | f :: ps =>
      let first := first_child f in
      let! _ := in_bounds (first <=? length (children b))%nat
                  "builder children, from first_child" in
      let node := green_node_alloc (frame_kind f) (drop first (children b)) in
      Ret (mkBuilder ps (take first (children b) ++ [(0%N, node)]))
  end.

Definition green_builder_checkpoint (b : GreenBuilder) : nat := length (children b).

Definition green_builder_start_node_at (cp : nat) (k : OreSyntaxKind) (b : GreenBuilder)
    : outcome GreenBuilder :=
  let! _ := oassert (cp <=? length (children b))%nat "checkpoint after end of children" in
  Ret (mkBuilder (mkFrame k cp :: parents b) (children b)).

(** The root, and the emptied builder. *)
Definition green_builder_finish (b : GreenBuilder) : outcome (Green * GreenBuilder) :=
  let! _ := oassert (length (parents b) =? 0)%nat
              "green_builder_finish: builder has open nodes" in
  let! _ := oassert (length (children b) =? 1)%nat
              "green_builder_finish: builder produced != 1 top-level node" in
  match children b with
  | (_, GreenNode k n cs) :: _ => Ret (GreenNode k n cs, mkBuilder (parents b) [])
  | _ => AssertFailed "green_builder_finish: top-level element must be a node"
  end.

End Builder.
