(* ===== verification/GreenFacts.v ===== *)
(** * Green trees: text, well-formedness, edits

    The leaves and the text of a tree, what a well-formed node is (its width and
    the offsets of its children are those of its text), and that allocation, the
    builder and the edits keep it. *)

From S2P Require Import Prelude SyntaxKind Green Builder.
Import SyntaxKind Green Builder.

Module GreenFacts.

#[local] Open Scope N_scope.

(** ** Leaves and text *)

(** The tokens of a tree in document order. *)
Fixpoint leaves (g : Green) : list (OreSyntaxKind * list byte) :=
  match g with
  | GreenToken k t => [(k, t)]
  | GreenNode _ _ cs => concat (map (fun c => leaves c.2) cs)
  end.

Definition elem_leaves (cs : list (N * Green)) : list (OreSyntaxKind * list byte) :=
  concat (map (fun c => leaves c.2) cs).

Definition green_text (g : Green) : list byte := concat (map snd (leaves g)).

Definition elem_text (cs : list (N * Green)) : list byte :=
  concat (map (fun c => green_text c.2) cs).

Lemma elem_leaves_app xs ys : elem_leaves (xs ++ ys) = elem_leaves xs ++ elem_leaves ys.
Proof. unfold elem_leaves. by rewrite map_app, concat_app. Qed.

Lemma elem_text_app xs ys : elem_text (xs ++ ys) = elem_text xs ++ elem_text ys.
Proof. unfold elem_text. by rewrite map_app, concat_app. Qed.

Lemma elem_text_leaves cs : elem_text cs = concat (map snd (elem_leaves cs)).
Proof.
  induction cs as [|c cs IH]; [done|]. unfold elem_text, elem_leaves in *. simpl.
  rewrite IH, map_app, concat_app. done.
Qed.

Lemma green_text_node k n cs : green_text (GreenNode k n cs) = elem_text cs.
Proof. symmetry. apply elem_text_leaves. Qed.

(** ** Well-formed trees *)

(** Every node of the tree carries the width and the child offsets that
    [green_node_alloc] computes. *)
Fixpoint green_ok (g : Green) : Prop :=
  match g with
  | GreenToken _ _ => True
  | GreenNode _ n cs =>
      assign_offsets 0 cs = (cs, n) /\
      fold_right (fun c acc => green_ok c.2 /\ acc) True cs
  end.

Definition elems_ok (cs : list (N * Green)) : Prop := Forall (fun c => green_ok c.2) cs.

Lemma elems_ok_fold cs : fold_right (fun c acc => green_ok c.2 /\ acc) True cs <-> elems_ok cs.
Proof.
  unfold elems_ok. induction cs as [|c cs IH]; simpl.
  - by rewrite Forall_nil.
  - by rewrite Forall_cons, IH.
Qed.

Lemma assign_offsets_spec off cs cs' n :
  assign_offsets off cs = (cs', n) -> map snd cs' = map snd cs /\ assign_offsets off cs' = (cs', n).
Proof.
  revert off cs' n. induction cs as [|[o g] cs IH]; simpl; intros off cs' n H.
  - by injection H as <- <-.
  - destruct (assign_offsets _ cs) as [cs1 n1] eqn:E1. injection H as <- <-.
    destruct (IH _ _ _ E1) as [H1 H2]. simpl. by rewrite H1, H2.
Qed.

Lemma map_snd_leaves cs cs' : map snd cs' = map snd cs -> elem_leaves cs' = elem_leaves cs.
Proof.
  intros H. unfold elem_leaves.
  change (fun c : N * Green => leaves c.2) with (fun c : N * Green => leaves (snd c)).
  by rewrite <- !(map_map snd leaves), H.
Qed.

Lemma elems_ok_snd cs cs' : map snd cs' = map snd cs -> elems_ok cs -> elems_ok cs'.
Proof.
  unfold elems_ok. intros H Hc. apply (Forall_map snd green_ok).
  rewrite H. by apply (Forall_map snd green_ok).
Qed.

Lemma alloc_leaves k cs : leaves (green_node_alloc k cs) = elem_leaves cs.
Proof.
  unfold green_node_alloc. destruct (assign_offsets 0 cs) as [cs' n] eqn:E.
  simpl. by apply map_snd_leaves, (assign_offsets_spec _ _ _ _ E).
Qed.

Lemma alloc_ok k cs : elems_ok cs -> green_ok (green_node_alloc k cs).
Proof.
  intros H. unfold green_node_alloc. destruct (assign_offsets 0 cs) as [cs' n] eqn:E.
  destruct (assign_offsets_spec _ _ _ _ E) as [H1 H2]. simpl.
  split; [done|]. apply elems_ok_fold. by eapply elems_ok_snd.
Qed.

Lemma alloc_text k cs : green_text (green_node_alloc k cs) = elem_text cs.
Proof. unfold green_text. by rewrite alloc_leaves, elem_text_leaves. Qed.

Lemma alloc_kind k cs : green_kind (green_node_alloc k cs) = k.
Proof. unfold green_node_alloc. by destruct (assign_offsets 0 cs). Qed.

(** Structural induction on trees. *)
Lemma green_rect_elems (Q : Green -> Prop) :
  (forall k t, Q (GreenToken k t)) ->
  (forall k n cs, Forall (fun c => Q c.2) cs -> Q (GreenNode k n cs)) ->
  forall g, Q g.
Proof.
  intros Ht Hn. fix IH 1. intros [k n cs|k t]; [|apply Ht].
  apply Hn. induction cs as [|[o g] cs IHcs]; constructor; [apply IH|exact IHcs].
Qed.

Lemma u32_length_app {A} (x y : list A) :
  u32 (N.of_nat (length (x ++ y))) =
  u32 (u32 (N.of_nat (length x)) + u32 (N.of_nat (length y))).
Proof. rewrite length_app, Nat2N.inj_add, u32_add_l, u32_add_r. done. Qed.

Lemma assign_offsets_width off cs cs' n :
  Forall (fun c => green_text_len c.2 = u32 (N.of_nat (length (green_text c.2)))) cs ->
  assign_offsets (u32 off) cs = (cs', n) ->
  n = u32 (off + N.of_nat (length (elem_text cs))) /\
  forall i o g, nth_error cs' i = Some (o, g) ->
    o = u32 (off + N.of_nat (length (elem_text (take i cs)))).
Proof.
  intros H. revert off cs' n. induction H as [|[o g] cs Hg _ IH]; simpl; intros off cs' n E.
  - injection E as <- <-. unfold elem_text. simpl. rewrite N.add_0_r. split; [done|].
    by intros [|i] ? ?.
  - rewrite u32_add_l in E.
    destruct (assign_offsets _ cs) as [cs1 n1] eqn:E1. injection E as <- <-.
    simpl in Hg. destruct (IH _ _ _ E1) as [-> H2].
    unfold elem_text in *. simpl. split.
    + rewrite Hg, length_app, Nat2N.inj_add.
      rewrite <- (u32_add_l (off + _)), u32_add_r, u32_add_l. f_equal. lia.
    + intros [|i] o' g' Hn; simpl in Hn.
      * injection Hn as <- <-. simpl. by rewrite N.add_0_r.
      * rewrite (H2 _ _ _ Hn), Hg. simpl. rewrite length_app, Nat2N.inj_add.
        rewrite <- (u32_add_l (off + _)), u32_add_r, u32_add_l. f_equal. lia.
Qed.

Lemma green_ok_width g :
  green_ok g -> green_text_len g = u32 (N.of_nat (length (green_text g))).
Proof.
  induction g as [k t|k n cs IH] using green_rect_elems.
  - intros _. unfold green_text. simpl. by rewrite app_nil_r.
  - intros [E Hc]. rewrite elems_ok_fold in Hc. unfold elems_ok in Hc. rewrite green_text_node. simpl.
    assert (Hw : Forall (fun c => green_text_len c.2 = u32 (N.of_nat (length (green_text c.2)))) cs).
    { rewrite List.Forall_forall in *. intros c Hin. apply IH; [done|by apply Hc]. }
    change 0 with (u32 0) in E. by destruct (assign_offsets_width _ _ _ _ Hw E) as [-> _].
Qed.

(** a well-formed tree knows its text: the width of a node is the length of
    its text, and the offset of child [i] is the length of the text of the children
    before it (modulo 2^32). *)
Theorem green_widths_and_offsets (g : Green) :
  green_ok g ->
  green_text_len g = u32 (N.of_nat (length (green_text g))) /\
  forall i o c, nth_error (green_children g) i = Some (o, c) ->
    o = u32 (N.of_nat (length (elem_text (take i (green_children g))))) /\ green_ok c.
Proof.
  intros H. split; [by apply green_ok_width|]. destruct g as [k n cs|k t]; [|by intros [|i]].
  destruct H as [E Hc]. rewrite elems_ok_fold in Hc. unfold elems_ok in Hc. simpl.
  intros i o c Hi. rewrite List.Forall_forall in Hc. split.
  - assert (Hw : Forall (fun c => green_text_len c.2 = u32 (N.of_nat (length (green_text c.2)))) cs).
    { apply List.Forall_forall. intros x Hx. by apply green_ok_width, Hc. }
    change 0 with (u32 0) in E. destruct (assign_offsets_width _ _ _ _ Hw E) as [_ Ho].
    by apply (Ho i o c).
  - apply nth_error_In in Hi. apply (Hc _ Hi).
Qed.

(** ** Edits *)

(** splicing replaces exactly the text of the children [from, to): the kind is
    kept, the text is that of the kept children around that of the inserted ones,
    and the result is well formed with recomputed width and offsets.  The two
    range asserts are the only failures. *)
Theorem green_splice_text (n : Green) (from to : nat) (rep : list (N * Green)) :
  green_ok n -> elems_ok rep ->
  (from <= to <= length (green_children n))%nat ->
  exists n', green_node_splice_children n from to rep = Ret n' /\
    green_ok n' /\ green_kind n' = green_kind n /\
    green_text n' = elem_text (take from (green_children n)) ++ elem_text rep ++
                    elem_text (drop to (green_children n)).
Proof.
  intros Hn Hr [H1 H2]. unfold green_node_splice_children.
  rewrite (proj2 (Nat.leb_le _ _) H1), (proj2 (Nat.leb_le _ _) H2). simpl.
  eexists. split; [reflexivity|].
  assert (Hc : elems_ok (green_children n)).
  { destruct n; [|constructor]. destruct Hn as [_ Hc]. by apply elems_ok_fold in Hc. }
  split; [|split; [apply alloc_kind|]].
  - apply alloc_ok. unfold elems_ok in *. rewrite !Forall_app.
    split; [by apply Forall_take|]. split; [done|by apply Forall_drop].
  - by rewrite alloc_text, !elem_text_app.
Qed.

(** inserting a child and removing it again gives back a well-formed node:
    [green_node_remove_child] inverts [green_node_insert_child] at the same index,
    and both stay within their asserts. *)
Theorem green_insert_remove (n : Green) (i : nat) (e : N * Green) :
  green_ok n -> green_is_node n = true -> (i <= length (green_children n))%nat ->
  exists n', green_node_insert_child n i e = Ret n' /\
    green_node_remove_child n' i = Ret n.
Proof.
  intros Hn Hk Hi. destruct n as [k w cs|]; [|done]. destruct Hn as [E Hc]. simpl in Hi.
  unfold green_node_insert_child, green_node_splice_children. simpl.
  rewrite (proj2 (Nat.leb_le _ _) Hi), Nat.leb_refl. simpl.
  eexists. split; [reflexivity|].
  unfold green_node_alloc at 1.
  destruct (assign_offsets 0 (take i cs ++ e :: drop i cs)) as [cs1 w1] eqn:E1.
  destruct (assign_offsets_spec _ _ _ _ E1) as [Hm _].
  assert (Hl : length cs1 = S (length cs)).
  { apply (f_equal length) in Hm. rewrite !length_map, length_app in Hm. simpl in Hm.
    rewrite length_take, length_drop in Hm. lia. }
  unfold green_node_remove_child, green_node_splice_children. simpl.
  rewrite (proj2 (Nat.ltb_lt _ _)) by lia. simpl.
  rewrite (proj2 (Nat.leb_le _ _)) by lia. simpl.
  rewrite (proj2 (Nat.leb_le _ _)) by lia. simpl.
  f_equal. unfold green_node_alloc.
  assert (Hs : map snd (take i cs1 ++ drop (i + 1) cs1) = map snd cs).
  { rewrite map_app, <- firstn_map, <- skipn_map.
    change (@firstn Green) with (@take Green). change (@skipn Green) with (@drop Green).
    rewrite Hm, !map_app. simpl. rewrite <- firstn_map, <- skipn_map.
    change (@firstn Green) with (@take Green). change (@skipn Green) with (@drop Green).
    rewrite take_app_le, take_take, Nat.min_id by (rewrite length_take, length_map; lia).
    rewrite drop_app_ge by (rewrite length_take, length_map; lia).
    rewrite length_take, length_map. replace (i + 1 - i `min` length cs)%nat with 1%nat by lia.
    simpl. rewrite drop_0. apply take_drop. }
  assert (Hd : forall xs ys off, map snd xs = map (snd (A := N) (B := Green)) ys ->
    assign_offsets off xs = assign_offsets off ys).
  { clear. induction xs as [|[o g] xs IH]; intros [|[o' g'] ys] off H; simpl in *;
      try discriminate H; [done|]. injection H as -> H. by rewrite (IH ys). }
  rewrite (Hd _ _ 0 Hs), E. done.
Qed.

(** ** The builder *)

Definition append (es : list (N * Green)) (b : GreenBuilder) : GreenBuilder :=
  mkBuilder (parents b) (children b ++ es).

(** a bracket of the builder wraps exactly what is emitted inside: closing a
    node opened by [start_node] or, retroactively, by [start_node_at] at an earlier
    checkpoint turns the elements since then, and no other, into one node, and
    restores the frame stack. *)
Theorem builder_bracket (b : GreenBuilder) (k : OreSyntaxKind) (es fs : list (N * Green)) :
  green_builder_finish_node (append es (green_builder_start_node k b)) =
    Ret (append [(0, green_node_alloc k es)] b) /\
  (let! b' := green_builder_start_node_at (green_builder_checkpoint b) k (append es b) in
   green_builder_finish_node (append fs b')) =
    Ret (append [(0, green_node_alloc k (es ++ fs))] b).
Proof.
  unfold green_builder_finish_node, green_builder_start_node, green_builder_start_node_at,
    append, green_builder_checkpoint. simpl.
  assert (H : forall n m, (n <=? n + m)%nat = true) by (intros; apply Nat.leb_le; lia).
  rewrite !length_app, !H. simpl. split.
  - by rewrite drop_app_length, take_app_length.
  - rewrite !length_app, <- Nat.add_assoc, H. simpl.
    by rewrite <- app_assoc, drop_app_length, take_app_length.
Qed.

(** ** Instances *)

Definition sample_node : Green :=
  green_node_alloc SK_BIN_EXPR
    [(0, GreenToken SK_IDENT (bs "ab")); (0, GreenToken SK_PLUS (bs "+"));
     (0, GreenToken SK_INT_LIT (bs "1"))].

Lemma green_widths_and_offsets_witness :
  green_text_len sample_node = u32 (N.of_nat (length (green_text sample_node))) /\
  forall i o c, nth_error (green_children sample_node) i = Some (o, c) ->
    o = u32 (N.of_nat (length (elem_text (take i (green_children sample_node))))) /\ green_ok c.
Proof. apply (green_widths_and_offsets sample_node). vm_compute. repeat split. Defined.

Lemma green_splice_text_witness :
  exists n', green_node_splice_children sample_node 1 3 [(0, GreenToken SK_SEMI (bs ";"))] = Ret n' /\
    green_ok n' /\ green_kind n' = SK_BIN_EXPR /\ green_text n' = bs "ab;".
Proof.
  apply (green_splice_text sample_node 1 3 [(0, GreenToken SK_SEMI (bs ";"))]).
  - vm_compute. repeat split.
  - repeat constructor.
  - simpl. lia.
Defined.

Lemma green_insert_remove_witness :
  exists n', green_node_insert_child sample_node 1 (0, GreenToken SK_SEMI (bs ";")) = Ret n' /\
    green_node_remove_child n' 1 = Ret sample_node.
Proof.
  apply (green_insert_remove sample_node 1 (0, GreenToken SK_SEMI (bs ";"))).
  - vm_compute. repeat split.
  - reflexivity.
  - simpl. lia.
Defined.

End GreenFacts.
