(* ===== verification/NodeCache.v ===== *)
(** * Counted green nodes and the node cache: [src/src/syntax/green.c], [node_cache.c] and
    [builder.c]

    The green tree as it is in memory: nodes and tokens are counted allocations that point to
    their children, and the builder takes them from a cache that hands out one allocation for
    equal content.  [NodeCacheTheorems] proves that this sharing is invisible: the pointers
    stand for the trees that [Green] and [Builder] compute.

    [malloc] is a parameter, an [Allocator], which may give the address of a cell that was
    freed to a later one.  A [HashMap] is a finite map from keys to values that are not NULL,
    the linked list of a bucket is the list of its elements, newest first. *)

From stdpp Require Import gmap.
From S2P Require Import Prelude SyntaxKind Green Builder.
Import SyntaxKind Green Builder.

Module NodeCache.

#[local] Open Scope N_scope.

(** ** The store *)

(** A [GreenElement] is an [Elem], its kind and its pointer, with its offset. *)
Record Elem : Set := mkElem { e_token : bool; e_addr : N }.

(** [struct GreenNode] and [struct GreenToken]. *)
Inductive Payload : Set :=
  | PNode (children : list (N * Elem))
  | PToken (text : list byte).

Record Cell : Set := mkCell { c_kind : OreSyntaxKind; c_text_len : N; c_refcount : N; c_hash : N; c_payload : Payload }.

(** The cells that are allocated, and how many allocations there have been. *)
Record Store : Type := mkStore { cells : gmap N Cell; allocs : N }.

Definition empty_store : Store := mkStore ∅ 0.

(** [malloc]: the address may depend on the number of the allocation and on what is allocated,
    and no live cell has it.  An address that was freed may come again. *)
Class Allocator : Type := {
  pick : N -> gmap N Cell -> N;
  pick_fresh : forall n m, m !! pick n m = None
}.

Definition malloc `{Allocator} (c : Cell) (st : Store) : N * Store :=
  let a := pick (allocs st) (cells st) in (a, mkStore (<[a := c]> (cells st)) (allocs st + 1)).

(** Reading memory that was freed is a failure. *)
Definition cell_at (a : N) (st : Store) : outcome Cell :=
  match cells st !! a with Some c => Ret c | None => AssertFailed "use of freed memory" end.

Definition set_refcount (a n : N) (st : Store) : outcome Store :=
  let! c := cell_at a st in
  Ret (mkStore (<[a := mkCell (c_kind c) (c_text_len c) n (c_hash c) (c_payload c)]> (cells st)) (allocs st)).

Definition free (a : N) (st : Store) : Store := mkStore (delete a (cells st)) (allocs st).

Definition payload_children (p : Payload) : list (N * Elem) := match p with PNode cs => cs | PToken _ => [] end.

(** ** Hashes *)

(** Little-endian, as [memcpy] into a [uint64_t] reads. *)
Definition read_u64 (p : list byte) : N := foldr (fun x acc => Byte.to_N x + 256 * acc) 0 p.

Fixpoint fxhash_bytes (fuel : nat) (h : N) (p : list byte) : outcome N :=
  match fuel with
  | O => OutOfFuel
  | S fuel =>
      if (8 <=? length p)%nat then fxhash_bytes fuel (fxhash_u64 h (read_u64 (take 8 p))) (drop 8 p)
      else Ret (match p with [] => h | _ => fxhash_u64 h (read_u64 p) end)
  end.

Definition green_token_compute_hash (k : OreSyntaxKind) (text : list byte) : outcome N :=
  fxhash_bytes (S (length text)) (fxhash_u64 FXHASH_SEED (kind_code k)) text.

Definition elem_kind (e : Elem) : N := if e_token e then 1 else 0.

Definition green_node_compute_hash (k : OreSyntaxKind) (children : list Elem) : N :=
  foldl (fun h c => fxhash_u64 (fxhash_u64 h (elem_kind c)) (e_addr c))
    (fxhash_u64 (fxhash_u64 FXHASH_SEED (kind_code k)) (u32 (N.of_nat (length children)))) children.

(** A loop over the children. *)
Definition over {A B} (f : A -> B -> outcome B) : list A -> B -> outcome B :=
  fix go es s :=
    match es with
    | [] => Ret s
    | e :: es => let! s := f e s in go es s
    end.

(** Trivia tokens are skipped; other tokens count by their address. *)
Fixpoint green_structural_hash_rec (fuel : nat) (st : Store) (a : N) (h : N) : outcome N :=
  match fuel with
  | O => OutOfFuel
  | S fuel =>
      let! n := cell_at a st in
      over (fun oc h =>
              let c := oc.2 in
              if e_token c then
                let! t := cell_at (e_addr c) st in
                Ret (if ore_kind_is_trivia (c_kind t) then h else fxhash_u64 h (e_addr c))
              else green_structural_hash_rec fuel st (e_addr c) h)
        (payload_children (c_payload n)) (fxhash_u64 h (kind_code (c_kind n)))
  end.

(** No path in a tree is longer than there are cells. *)
Definition green_structural_hash (a : N) (st : Store) : outcome N :=
  green_structural_hash_rec (S (size (cells st))) st a FXHASH_SEED.

(** ** Equality, for the cache *)

Definition same_elem (a b : Elem) : bool := eqb (e_token a) (e_token b) && (e_addr a =? e_addr b).

Fixpoint same_elems (xs ys : list Elem) : bool :=
  match xs, ys with
  | [], [] => true
  | x :: xs, y :: ys => same_elem x y && same_elems xs ys
  | _, _ => false
  end.

(** Children by pointer. *)
Definition green_node_equals (k : OreSyntaxKind) (children : list Elem) (n : Cell) : bool :=
  match c_payload n with
  | PNode cs => kind_eqb (c_kind n) k && same_elems (map snd cs) children
  | PToken _ => false
  end.

Definition green_token_equals (k : OreSyntaxKind) (text : list byte) (t : Cell) : bool :=
  match c_payload t with
  | PToken x => kind_eqb (c_kind t) k && (c_text_len t =? u32 (N.of_nat (length text))) && bytes_eqb x text
  | PNode _ => false
  end.

(** ** Counting *)

(** [green_node_retain] and [green_token_retain]. *)
Definition green_retain (a : N) (st : Store) : outcome Store :=
  let! c := cell_at a st in set_refcount a (u32 (c_refcount c + 1)) st.

(** [green_node_release] and [green_token_release]. *)
Fixpoint green_release (fuel : nat) (a : N) (st : Store) : outcome Store :=
  match fuel with
  | O => OutOfFuel
  | S fuel =>
      let! c := cell_at a st in
      let! _ := oassert (0 <? c_refcount c) "double-release of GreenNode" in
      let! st := set_refcount a (c_refcount c - 1) st in
      if 0 <? c_refcount c - 1 then Ret st
      else
        let! st := over (fun oc st => green_release fuel (e_addr oc.2) st) (payload_children (c_payload c)) st in
        Ret (free a st)
  end.

(** A release is in no more calls at a time than there are cells. *)
Definition release (a : N) (st : Store) : outcome Store := green_release (S (size (cells st))) a st.

(** ** Construction *)

Definition counted_token_alloc `{Allocator} (k : OreSyntaxKind) (text : list byte) (st : Store) : outcome (N * Store) :=
  let! h := green_token_compute_hash k text in
  Ret (malloc (mkCell k (u32 (N.of_nat (length text))) 1 h (PToken text)) st).

(** The loop of [green_node_alloc]: offsets, and a reference to each child. *)
Fixpoint place_children (text_len : N) (children : list Elem) (st : Store) : outcome (list (N * Elem) * N * Store) :=
  match children with
  | [] => Ret ([], text_len, st)
  | c :: cs =>
      let! g := cell_at (e_addr c) st in
      let! st := green_retain (e_addr c) st in
      let! (placed, total, st) := place_children (u32 (text_len + c_text_len g)) cs st in
      Ret ((text_len, c) :: placed, total, st)
  end.

Definition counted_node_alloc `{Allocator} (k : OreSyntaxKind) (children : list Elem) (st : Store) : outcome (N * Store) :=
  let! (placed, text_len, st) := place_children 0 children st in
  Ret (malloc (mkCell k text_len 1 (green_node_compute_hash k children) (PNode placed)) st).

(** ** The cache *)

Record NodeCache : Type := mkCache { nodes : gmap N (list N); tokens : gmap N (list N) }.

Definition node_cache_new : NodeCache := mkCache ∅ ∅.

Definition ORE_NODE_DEDUP_MAX_CHILDREN : N := 32.

Definition bucket (m : gmap N (list N)) (h : N) : list N := default [] (m !! h).

Fixpoint bucket_find (test : Cell -> bool) (st : Store) (bs : list N) : outcome (option N) :=
  match bs with
  | [] => Ret None
  | b :: bs => let! c := cell_at b st in if test c then Ret (Some b) else bucket_find test st bs
  end.

Definition node_cache_intern_token `{Allocator} (k : OreSyntaxKind) (text : list byte) (c : NodeCache) (st : Store) : outcome (N * NodeCache * Store) :=
  let! hash := green_token_compute_hash k text in
  let head := bucket (tokens c) hash in
  let! hit := bucket_find (green_token_equals k text) st head in
  match hit with
  | Some t => let! st := green_retain t st in Ret (t, c, st)
  | None =>
      let! (fresh, st) := counted_token_alloc k text st in
      let! st := green_retain fresh st in
      Ret (fresh, mkCache (nodes c) (<[hash := fresh :: head]> (tokens c)), st)
  end.

Definition node_cache_intern_node `{Allocator} (k : OreSyntaxKind) (children : list Elem) (c : NodeCache) (st : Store) : outcome (N * NodeCache * Store) :=
  if ORE_NODE_DEDUP_MAX_CHILDREN <? N.of_nat (length children) then
    let! (n, st) := counted_node_alloc k children st in Ret (n, c, st)
  else
    let hash := green_node_compute_hash k children in
    let head := bucket (nodes c) hash in
    let! hit := bucket_find (green_node_equals k children) st head in
    match hit with
    | Some n => let! st := green_retain n st in Ret (n, c, st)
    | None =>
        let! (fresh, st) := counted_node_alloc k children st in
        let! st := green_retain fresh st in
        Ret (fresh, mkCache (<[hash := fresh :: head]> (nodes c)) (tokens c), st)
    end.

(** The order in which [hashmap_foreach] visits the buckets is that of the list of the map. *)
Definition release_buckets (m : gmap N (list N)) (st : Store) : outcome Store :=
  over (fun b st => over release b.2 st) (map_to_list m) st.

Definition node_cache_destroy (c : NodeCache) (st : Store) : outcome Store :=
  let! st := release_buckets (nodes c) st in release_buckets (tokens c) st.

(** ** The builder on pointers *)

(** The frames and the elements of a builder, with the cache it borrows and the store. *)
Record Session : Type := mkSession { frames : list BuilderFrame; elems : list Elem; cache : NodeCache; store : Store }.

Definition counted_builder_new (c : NodeCache) (st : Store) : Session := mkSession [] [] c st.

Definition counted_builder_start_node (k : OreSyntaxKind) (s : Session) : Session :=
  mkSession (mkFrame k (length (elems s)) :: frames s) (elems s) (cache s) (store s).

Definition counted_builder_token `{Allocator} (k : OreSyntaxKind) (text : list byte) (s : Session) : outcome Session :=
  let! (t, c, st) := node_cache_intern_token k text (cache s) (store s) in
  Ret (mkSession (frames s) (elems s ++ [mkElem true t]) c st).

(** As in [Builder], children that would be read out of bounds are where the model stops. *)
Definition counted_builder_finish_node `{Allocator} (s : Session) : outcome Session :=
  match frames s with
  | [] => AssertFailed "finish_node without matching start_node"
  | f :: fs =>
      let first := first_child f in
      let! _ := in_bounds (first <=? length (elems s))%nat "builder children, from first_child" in
      let mine := drop first (elems s) in
      let! (n, c, st) := node_cache_intern_node (frame_kind f) mine (cache s) (store s) in
      let! st := over (fun e st => release (e_addr e) st) mine st in
      Ret (mkSession fs (take first (elems s) ++ [mkElem false n]) c st)
  end.

Definition counted_builder_start_node_at (cp : nat) (k : OreSyntaxKind) (s : Session) : outcome Session :=
  let! _ := oassert (cp <=? length (elems s))%nat "checkpoint after end of children" in
  Ret (mkSession (mkFrame k cp :: frames s) (elems s) (cache s) (store s)).

(** The root, which the caller owns, and the emptied builder. *)
Definition counted_builder_finish (s : Session) : outcome (N * Session) :=
  let! _ := oassert (length (frames s) =? 0)%nat "green_builder_finish: builder has open nodes" in
  let! _ := oassert (length (elems s) =? 1)%nat "green_builder_finish: builder produced != 1 top-level node" in
  match elems s with
  | mkElem false n :: _ => Ret (n, mkSession (frames s) [] (cache s) (store s))
  | _ => AssertFailed "green_builder_finish: top-level element must be a node"
  end.

(** What is left of an unfinished build is released. *)
Definition counted_builder_destroy (s : Session) : outcome (NodeCache * Store) :=
  let! st := over (fun e st => release (e_addr e) st) (elems s) (store s) in Ret (cache s, st).

End NodeCache.
