(* ===== verification/NodeCacheFacts.v ===== *)
(** * The counted store: invariant, trees, simulation

    The invariant of the counted store: a count is the number of references, from other cells,
    from the cache and from outside.  On it rest the specifications of retaining, releasing and
    allocating, of the cache, and of the builder on pointers against the builder on trees. *)

From stdpp Require Import gmap gmultiset.
From S2P Require Import Prelude SyntaxKind Green GreenFacts Builder NodeCache.
Import SyntaxKind Green GreenFacts Builder NodeCache.

Module NodeCacheFacts.

#[local] Open Scope N_scope.
#[local] Open Scope ore_scope.

(** ** References *)

Definition addrs (es : list Elem) : gmultiset N := list_to_set_disj (map e_addr es).
Definition kids (c : Cell) : gmultiset N := addrs (map snd (payload_children (c_payload c))).

(** What the entries of a map refer to. *)
Definition gather {A} (f : A -> list N) (m : gmap N A) : gmultiset N := list_to_set_disj (flat_map (fun p => f p.2) (map_to_list m)).

(** All references from a node to a child. *)
Definition kids_list (c : Cell) : list N := map e_addr (map snd (payload_children (c_payload c))).
Definition links (m : gmap N Cell) : gmultiset N := gather kids_list m.

Lemma gather_new {A} (f : A -> list N) m a x : m !! a = None -> gather f (<[a := x]> m) = list_to_set_disj (f x) ⊎ gather f m.
Proof.
  intros Ha. unfold gather. rewrite <- list_to_set_disj_app. apply list_to_set_disj_perm.
  change (f x ++ _) with (flat_map (fun p : N * A => f p.2) ((a, x) :: map_to_list m)). by apply Permutation_flat_map, map_to_list_insert.
Qed.

Lemma gather_delete {A} (f : A -> list N) m a x : m !! a = Some x -> gather f m = list_to_set_disj (f x) ⊎ gather f (delete a m).
Proof. intros Ha. rewrite <- (insert_delete_id m a x Ha) at 1. apply gather_new. apply lookup_delete_eq. Qed.

Lemma gather_fmap {A} (f : A -> list N) m : gather f m = gather id (f <$> m).
Proof. unfold gather. rewrite map_to_list_fmap. f_equal. f_equal. induction (map_to_list m) as [|[a x] l IH]; [done|]. cbn. by rewrite IH. Qed.

Lemma links_new m a c : m !! a = None -> links (<[a := c]> m) = kids c ⊎ links m.
Proof. apply gather_new. Qed.

Lemma links_delete m a c : m !! a = Some c -> links m = kids c ⊎ links (delete a m).
Proof. apply gather_delete. Qed.

(** What a cell holds, without its count. *)
Definition content (c : Cell) : Cell := mkCell (c_kind c) (c_text_len c) 0 (c_hash c) (c_payload c).

Definition same_content (st st' : Store) : Prop := allocs st' = allocs st /\ forall a, content <$> cells st' !! a = content <$> cells st !! a.

Lemma content_kids c c' : content c = content c' -> kids c = kids c'.
Proof. intros E. injection E as _ _ _ E. unfold kids. by rewrite E. Qed.

Lemma same_links st st' : same_content st st' -> links (cells st') = links (cells st).
Proof.
  intros [_ H]. unfold links. rewrite (gather_fmap _ (cells st')), (gather_fmap _ (cells st)). f_equal. apply map_eq. intros a. rewrite !lookup_fmap. specialize (H a).
  destruct (cells st !! a) as [c|], (cells st' !! a) as [c'|]; cbn in *; try done. injection H as _ _ _ E. unfold kids_list. by rewrite E.
Qed.

Definition is_token (c : Cell) : bool := match c_payload c with PToken _ => true | PNode _ => false end.

(** The offsets and the width that [green_node_alloc] computes. *)
Fixpoint placed (m : gmap N Cell) (off : N) (cs : list (N * Elem)) (total : N) : Prop :=
  match cs with
  | [] => total = off
  | (o, e) :: cs => o = off /\ exists c, m !! e_addr e = Some c /\ placed m (u32 (off + c_text_len c)) cs total
  end.

Definition cell_ok (m : gmap N Cell) (c : Cell) : Prop :=
  match c_payload c with
  | PToken t => c_text_len c = u32 (N.of_nat (length t)) /\ green_token_compute_hash (c_kind c) t = Ret (c_hash c)
  | PNode cs => placed m 0 cs (c_text_len c) /\ c_hash c = green_node_compute_hash (c_kind c) (map snd cs)
  end.

(** A pointer to a live cell of its kind. *)
Definition points (m : gmap N Cell) (e : Elem) : Prop := exists c, m !! e_addr e = Some c /\ e_token e = is_token c.

(** A cell is above its children. *)
Definition ranked (m : gmap N Cell) (rank : N -> nat) : Prop :=
  forall a c e, m !! a = Some c -> e ∈ map snd (payload_children (c_payload c)) -> (rank (e_addr e) < rank a)%nat.

(** [E] are the references held from outside: by callers, builders and caches. *)
Record inv (st : Store) (E : gmultiset N) : Prop := {
  i_count : forall a c, cells st !! a = Some c -> c_refcount c = N.of_nat (multiplicity a (E ⊎ links (cells st))) /\ 0 < c_refcount c;
  i_live : forall a, a ∈ E -> is_Some (cells st !! a);
  i_rank : exists rank, ranked (cells st) rank;
  i_kids : forall a c e, cells st !! a = Some c -> e ∈ map snd (payload_children (c_payload c)) -> points (cells st) e;
  i_ok : forall a c, cells st !! a = Some c -> cell_ok (cells st) c
}.

Definition refs (st : Store) (E : gmultiset N) : nat := size (E ⊎ links (cells st)).

(** [n] more references can be counted. *)
Definition room (st : Store) (E : gmultiset N) (n : nat) : Prop := N.of_nat (refs st E + n) < 2 ^ 32.

Lemma count_le_size (a : N) (X : gmultiset N) : (multiplicity a X <= size X)%nat.
Proof.
  induction X as [|b X IH] using gmultiset_ind; [rewrite multiplicity_empty; lia|]. rewrite multiplicity_disj_union, gmultiset_size_disj_union, gmultiset_size_singleton.
  rewrite multiplicity_singleton. case_decide; lia.
Qed.

Lemma placed_local m m' off cs total :
  (forall e c, e ∈ map snd cs -> m !! e_addr e = Some c -> exists c', m' !! e_addr e = Some c' /\ content c' = content c) -> placed m off cs total -> placed m' off cs total.
Proof.
  revert off. induction cs as [|[o e] cs IH]; intros off Hm; [done|]. cbn. intros (-> & c & Hc & Hp). split; [done|].
  destruct (Hm e c ltac:(left) Hc) as (c' & Hc' & E). exists c'. split; [done|]. injection E as _ -> _ _. apply IH; [|done]. intros e' d He. apply Hm. by right.
Qed.

(** Cells stay, with what they hold. *)
Definition keeps (m m' : gmap N Cell) : Prop := forall a c, m !! a = Some c -> exists c', m' !! a = Some c' /\ content c' = content c.

Lemma keeps_refl m : keeps m m.
Proof. intros a c Hc. by exists c. Qed.

Lemma keeps_trans m1 m2 m3 : keeps m1 m2 -> keeps m2 m3 -> keeps m1 m3.
Proof. intros H1 H2 a c Hc. destruct (H1 _ _ Hc) as (c2 & Hc2 & E2). destruct (H2 _ _ Hc2) as (c3 & Hc3 & E3). exists c3. split; [done|]. congruence. Qed.

Lemma same_keeps st st' : same_content st st' -> keeps (cells st) (cells st') /\ keeps (cells st') (cells st).
Proof.
  intros [_ H]. split; intros a c Hc; specialize (H a); rewrite Hc in H; cbn in H.
  - destruct (cells st' !! a) as [c'|]; [|done]. exists c'. split; [done|]. by injection H as ????; destruct c, c'; cbn in *; subst.
  - destruct (cells st !! a) as [c'|]; [|done]. exists c'. split; [done|]. by injection H as ????; destruct c, c'; cbn in *; subst.
Qed.

Lemma content_token c c' : content c = content c' -> is_token c = is_token c'.
Proof. intros E. injection E as _ _ _ E. unfold is_token. by rewrite E. Qed.

Lemma points_keeps m m' e : keeps m m' -> points m e -> points m' e.
Proof. intros Hm (c & Hc & Ht). destruct (Hm _ _ Hc) as (c' & Hc' & E). exists c'. split; [done|]. by rewrite (content_token _ _ E). Qed.

Lemma ok_local m m' c c' :
  (forall e d, e ∈ map snd (payload_children (c_payload c)) -> m !! e_addr e = Some d -> exists d', m' !! e_addr e = Some d' /\ content d' = content d) ->
  content c' = content c -> cell_ok m c -> cell_ok m' c'.
Proof.
  intros Hm E. injection E as Ek El Eh Ep. unfold cell_ok. rewrite Ek, El, Eh, Ep. destruct (c_payload c); [|done]. intros [H1 H2]. split; [|done]. by eapply placed_local.
Qed.

Lemma ok_keeps m m' c c' : keeps m m' -> content c' = content c -> cell_ok m c -> cell_ok m' c'.
Proof. intros Hm. apply ok_local. intros e d _. apply Hm. Qed.

(** Fewer cells are ranked the same. *)
Lemma ranked_keeps m m' rank : keeps m' m -> ranked m rank -> ranked m' rank.
Proof. intros Hk Hr a c e Hc He. destruct (Hk _ _ Hc) as (d & Hd & E). injection E as _ _ _ E. eapply Hr; [done|]. by rewrite E. Qed.

(** Cells can be ranked below their number. *)
Lemma ranked_size m rank : ranked m rank -> (forall a c e, m !! a = Some c -> e ∈ map snd (payload_children (c_payload c)) -> is_Some (m !! e_addr e)) ->
  exists rank', ranked m rank' /\ forall a, is_Some (m !! a) -> (rank' a < size m)%nat.
Proof.
  intros Hr Hk. set (below a := filter (fun b => (rank b < rank a)%nat) (dom m)). exists (fun a => size (below a)).
  assert (Hin : forall a b, b ∈ below a <-> (rank b < rank a)%nat /\ is_Some (m !! b)) by (intros a b; unfold below; by rewrite elem_of_filter, elem_of_dom). split.
  - intros a c e Hc He. pose proof (Hr _ _ _ Hc He) as Hlt. apply subset_size. split.
    + intros b [H1 H2]%Hin. apply Hin. split; [lia|done].
    + intros Hs. assert (He' : e_addr e ∈ below a) by (apply Hin; split; [done|by eapply Hk]). apply Hs, Hin in He' as [H1 _]. lia.
  - intros a Ha. rewrite <- (size_dom m). apply subset_size. split.
    + intros b [_ Hb]%Hin. by apply elem_of_dom.
    + intros Hs. apply elem_of_dom in Ha. apply Hs, Hin in Ha as [H1 _]. lia.
Qed.

(** ** Counting *)

(** The store with another count in a cell. *)
Definition recount (a n : N) (c : Cell) (st : Store) : Store := mkStore (<[a := mkCell (c_kind c) (c_text_len c) n (c_hash c) (c_payload c)]> (cells st)) (allocs st).

Lemma set_refcount_ok a n c st : cells st !! a = Some c -> set_refcount a n st = Ret (recount a n c st).
Proof. intros Hc. unfold set_refcount, cell_at. by rewrite Hc. Qed.

Lemma recount_same a n c st : cells st !! a = Some c -> same_content st (recount a n c st).
Proof. intros Hc. split; [done|]. intros b. cbn. destruct (decide (b = a)) as [->|Hn]; [by rewrite lookup_insert_eq, Hc|by rewrite lookup_insert_ne]. Qed.

Lemma inv_recount a n c st E E' : inv st E -> cells st !! a = Some c -> 0 < n -> n = N.of_nat (multiplicity a (E' ⊎ links (cells st))) ->
  (forall b, b <> a -> multiplicity b E' = multiplicity b E) -> inv (recount a n c st) E'.
Proof.
  intros [Ic Il [rank Ib] Ik Io] Hc Hn En Hb. pose proof (recount_same a n c st Hc) as Hs. destruct (same_keeps _ _ Hs) as [K1 K2]. split.
  - intros b d Hd. rewrite (same_links _ _ Hs). cbn in Hd. apply lookup_insert_Some in Hd as [[<- <-]|[Hne Hd]]; [by split|].
    destruct (Ic _ _ Hd) as [-> H0]. rewrite !multiplicity_disj_union in *. by rewrite (Hb b) by done.
  - intros b Hb'. cbn. destruct (decide (b = a)) as [->|Hne]; [rewrite lookup_insert_eq; by eexists|]. rewrite lookup_insert_ne by done. apply Il.
    rewrite elem_of_multiplicity in *. by rewrite <- (Hb b).
  - exists rank. by eapply ranked_keeps.
  - intros b d e Hd He. destruct (K2 _ _ Hd) as (d' & Hd' & Ed). injection Ed as _ _ _ Ed. rewrite <- Ed in He. eapply points_keeps; [done|]. by eapply Ik.
  - intros b d Hd. destruct (K2 _ _ Hd) as (d' & Hd' & Ed). eapply ok_keeps; [done| |by eapply Io]. done.
Qed.

Lemma green_retain_ok st E a : inv st E -> is_Some (cells st !! a) -> room st E 1 ->
  exists st', green_retain a st = Ret st' /\ inv st' (E ⊎ {[+ a +]}) /\ same_content st st'.
Proof.
  intros Hi (c & Hc) Hr. unfold green_retain, cell_at. rewrite Hc. cbn [obind]. rewrite (set_refcount_ok _ _ _ _ Hc). eexists. split; [done|]. split; [|by apply recount_same].
  destruct (i_count _ _ Hi _ _ Hc) as [Hn H0]. unfold room, refs in Hr. pose proof (count_le_size a (E ⊎ links (cells st))). rewrite u32_small by lia.
  eapply inv_recount; [done..|lia| |].
  - rewrite Hn, !multiplicity_disj_union, multiplicity_singleton. case_decide; [lia|done].
  - intros b Hb. rewrite multiplicity_disj_union, multiplicity_singleton_ne by done. lia.
Qed.

(** ** Releasing *)

(** The store without the cells of [Z], whose release has begun. *)
Definition hide (Z : gset N) (st : Store) : Store := mkStore (filter (fun p => p.1 ∉ Z) (cells st)) (allocs st).

Lemma hide_lookup Z st a c : cells (hide Z st) !! a = Some c <-> cells st !! a = Some c /\ a ∉ Z.
Proof. cbn. apply map_lookup_filter_Some. Qed.

Lemma hide_recount Z a n c st : a ∉ Z -> hide Z (recount a n c st) = recount a n c (hide Z st).
Proof. intros Ha. unfold hide, recount. cbn. f_equal. by rewrite map_filter_insert_True. Qed.

Lemma hide_more Z a n c st : hide (Z ∪ {[a]}) (recount a n c st) = free a (hide Z st).
Proof.
  unfold hide, recount, free. cbn. f_equal. apply map_eq. intros b. apply option_eq. intros d. rewrite lookup_delete_Some, !map_lookup_filter_Some. cbn.
  destruct (decide (b = a)) as [->|Hn]; [set_solver|]. rewrite lookup_insert_ne by done. set_solver.
Qed.

Lemma hide_free Z a st : hide Z (free a st) = hide (Z ∪ {[a]}) st.
Proof.
  unfold hide, free. cbn. f_equal. apply map_eq. intros b. apply option_eq. intros d. rewrite !map_lookup_filter_Some, lookup_delete_Some. cbn. set_solver.
Qed.

Lemma hide_none st : hide ∅ st = st.
Proof. destruct st. unfold hide. cbn. f_equal. apply map_filter_id. set_solver. Qed.

Lemma links_elem m b : b ∈ links m -> exists a c e, m !! a = Some c /\ e ∈ map snd (payload_children (c_payload c)) /\ e_addr e = b.
Proof.
  intros H. apply elem_of_list_to_set_disj, list_elem_of_In, in_flat_map in H as ([a d] & Hd & He). apply list_elem_of_In, elem_of_map_to_list in Hd.
  apply list_elem_of_In, list_elem_of_fmap in He as (e & Ea & He). by exists a, d, e.
Qed.

Lemma kids_links m a c e : m !! a = Some c -> e ∈ map snd (payload_children (c_payload c)) -> e_addr e ∈ links m.
Proof.
  intros Hc He. rewrite (links_delete _ _ _ Hc). apply gmultiset_elem_of_disj_union. left. apply elem_of_list_to_set_disj. apply list_elem_of_fmap. by exists e.
Qed.

Lemma inv_free st E a c : inv st (E ⊎ {[+ a +]}) -> cells st !! a = Some c -> c_refcount c = 1 -> inv (free a st) (E ⊎ kids c).
Proof.
  intros [Ic Il [rank Ib] Ik Io] Hc H1. destruct (Ic _ _ Hc) as [Hn _]. rewrite H1, !multiplicity_disj_union, multiplicity_singleton in Hn. case_decide; [|done].
  assert (HE : a ∉ E) by (apply not_elem_of_multiplicity; lia). assert (HL : a ∉ links (cells st)) by (apply not_elem_of_multiplicity; lia).
  assert (Hk : forall b d e, cells st !! b = Some d -> e ∈ map snd (payload_children (c_payload d)) -> e_addr e <> a) by (intros b d e Hb He Ea; destruct HL; rewrite <- Ea; by eapply kids_links).
  split.
  - cbn. intros b d [Hne Hb]%lookup_delete_Some. destruct (Ic _ _ Hb) as [-> H0]. split; [|done]. rewrite (links_delete _ _ _ Hc), !multiplicity_disj_union, multiplicity_singleton.
    rewrite decide_False by done. lia.
  - cbn. intros b Hb. rewrite gmultiset_elem_of_disj_union in Hb. assert (b <> a /\ is_Some (cells st !! b)) as [Hne Hs]; [|by rewrite lookup_delete_ne].
    destruct Hb as [Hb|Hb].
    + split; [by intros ->|]. apply Il. multiset_solver.
    + apply elem_of_list_to_set_disj, list_elem_of_fmap in Hb as (e & -> & He). split; [by eapply Hk|]. destruct (Ik _ _ _ Hc He) as (d & Hd & _). by eexists.
  - exists rank. eapply ranked_keeps; [|done]. cbn. intros b d [_ Hb]%lookup_delete_Some. by exists d.
  - cbn. intros b d e [_ Hb]%lookup_delete_Some He. destruct (Ik _ _ _ Hb He) as (d' & Hd & Ht). exists d'. split; [|done]. rewrite lookup_delete_ne; [done|]. intros E'. by apply (Hk _ _ _ Hb He).
  - cbn. intros b d [_ Hb]%lookup_delete_Some. eapply ok_local; [|done|by eapply Io]. intros e d' He Hd'. exists d'. split; [|done]. rewrite lookup_delete_ne; [done|]. intros E'. by apply (Hk _ _ _ Hb He).
Qed.

(** What giving back the references [X] does to the store. *)
Record released (Z : gset N) (E X : gmultiset N) (st st' : Store) : Prop := {
  r_keeps : keeps (cells st') (cells st);
  r_inv : inv (hide Z st') E;
  r_refs : (refs (hide Z st') E + size X <= refs (hide Z st) (E ⊎ X))%nat
}.

Lemma refs_more st E X : refs st (E ⊎ X) = (refs st E + size X)%nat.
Proof. unfold refs. rewrite !gmultiset_size_disj_union. lia. Qed.

Lemma released_seq Z E X Y st1 st2 st3 : released Z (E ⊎ Y) X st1 st2 -> released Z E Y st2 st3 -> released Z E (X ⊎ Y) st1 st3.
Proof.
  intros [K1 I1 R1] [K2 I2 R2]. split; [by eapply keeps_trans|done|].
  rewrite !refs_more in *. rewrite gmultiset_size_disj_union. lia.
Qed.

Lemma release_each {B} (key : B -> N) (f : N -> Store -> outcome Store) (P : Store -> Prop) Z :
  (forall st st', keeps (cells st') (cells st) -> P st -> P st') ->
  (forall st E a, P st -> inv (hide Z st) (E ⊎ {[+ a +]}) -> exists st', f a st = Ret st' /\ released Z E {[+ a +]} st st') ->
  forall (xs : list B) st E, P st -> inv (hide Z st) (E ⊎ list_to_set_disj (map key xs)) ->
  exists st', over (fun x st => f (key x) st) xs st = Ret st' /\ released Z E (list_to_set_disj (map key xs)) st st'.
Proof.
  intros HP Hf xs. induction xs as [|x xs IH]; intros st E Hst Hi.
  - exists st. split; [done|]. cbn in *. rewrite gmultiset_disj_union_right_id in Hi. split; [apply keeps_refl|done..|]. rewrite gmultiset_disj_union_right_id, gmultiset_size_empty. lia.
  - cbn [map] in *. rewrite list_to_set_disj_cons in *.
    destruct (Hf st (E ⊎ list_to_set_disj (map key xs)) (key x) Hst) as (st1 & E1 & R1); [by rewrite <- gmultiset_disj_union_assoc, (gmultiset_disj_union_comm (list_to_set_disj _))|].
    destruct (IH st1 E (HP _ _ (r_keeps _ _ _ _ _ R1) Hst) (r_inv _ _ _ _ _ R1)) as (st2 & E2 & R2). exists st2. cbn [over]. rewrite E1. split; [done|]. by eapply released_seq.
Qed.

(** The cells whose release has not begun bound the depth of a release. *)
Lemma hide_keeps Z st st' : keeps (cells st') (cells st) -> (size (cells (hide Z st')) <= size (cells (hide Z st)))%nat.
Proof.
  intros Hk. rewrite <- !size_dom. apply subseteq_size. intros a. rewrite !elem_of_dom. intros [c [Hc Hz]%hide_lookup].
  destruct (Hk _ _ Hc) as (d & Hd & _). exists d. by apply hide_lookup.
Qed.

Lemma free_size a c st : cells st !! a = Some c -> (size (cells (free a st)) < size (cells st))%nat.
Proof. intros Hc. unfold free. cbn [cells]. rewrite <- (insert_delete_id _ _ _ Hc) at 2. rewrite map_size_insert_None by apply lookup_delete_eq. lia. Qed.

Lemma green_release_ok fuel : forall Z st E a, (size (cells (hide Z st)) < fuel)%nat -> inv (hide Z st) (E ⊎ {[+ a +]}) ->
  exists st', green_release fuel a st = Ret st' /\ released Z E {[+ a +]} st st'.
Proof.
  induction fuel as [|fuel IH]; intros Z st E a Hf Hi; [lia|].
  destruct (i_live _ _ Hi a) as (c & Hc); [multiset_solver|]. destruct (proj1 (hide_lookup _ _ _ _) Hc) as [Hs Hz]. destruct (i_count _ _ Hi _ _ Hc) as [Hn H0].
  cbn [green_release]. unfold cell_at. rewrite Hs. cbn [obind]. rewrite (proj2 (N.ltb_lt _ _) H0). cbn [obind oassert]. rewrite (set_refcount_ok _ _ _ _ Hs). cbn [obind].
  pose proof (recount_same a (c_refcount c - 1) c st Hs) as Hsame. destruct (N.ltb_spec 0 (c_refcount c - 1)) as [Hm|Hm].
  - eexists. split; [done|]. split; [apply (same_keeps _ _ Hsame)|..].
    + rewrite hide_recount by done. eapply inv_recount; [done..| |].
      * rewrite Hn, !multiplicity_disj_union, multiplicity_singleton. case_decide; [lia|done].
      * intros b Hb. rewrite multiplicity_disj_union, multiplicity_singleton_ne by done. lia.
    + rewrite hide_recount by done. unfold refs. rewrite (same_links _ _ (recount_same _ _ _ _ Hc)), !gmultiset_size_disj_union. lia.
  - set (st1 := recount a (c_refcount c - 1) c st) in *. pose proof (inv_free _ _ _ _ Hi Hc ltac:(lia)) as Hf1. rewrite <- (hide_more Z a (c_refcount c - 1) c st) in Hf1. fold st1 in Hf1.
    assert (Hsize : (size (cells (hide (Z ∪ {[a]}) st1)) < fuel)%nat) by (unfold st1; rewrite hide_more; pose proof (free_size _ _ _ Hc); lia).
    destruct (release_each (fun oc : N * Elem => e_addr oc.2) (green_release fuel) (fun st => (size (cells (hide (Z ∪ {[a]}) st)) < fuel)%nat) (Z ∪ {[a]})
      ltac:(intros ? ? Hk ?; pose proof (hide_keeps (Z ∪ {[a]}) _ _ Hk); simpl in *; lia) ltac:(intros; by apply IH) (payload_children (c_payload c)) st1 E Hsize) as (st2 & E2 & [K2 I2 R2]).
    { unfold kids, addrs in Hf1. by rewrite map_map in Hf1. }
    rewrite E2. cbn [obind]. eexists. split; [done|]. split; [|by rewrite hide_free|].
    + eapply keeps_trans; [|eapply keeps_trans; [exact K2|apply (same_keeps _ _ Hsame)]]. intros b d Hb. unfold free in Hb. cbn [cells] in Hb. apply lookup_delete_Some in Hb as [_ Hb]. by exists d.
    + rewrite hide_free. revert R2. unfold st1. rewrite !refs_more, hide_more. unfold refs. rewrite (links_delete _ _ _ Hc), !gmultiset_size_disj_union, gmultiset_size_singleton.
      unfold kids, addrs. rewrite map_map. cbn. lia.
Qed.

(** A reference can be given back; what it alone kept alive goes with it. *)
Lemma release_one_ok st E a : inv st (E ⊎ {[+ a +]}) -> exists st', release a st = Ret st' /\ released ∅ E {[+ a +]} st st'.
Proof. intros Hi. apply green_release_ok; rewrite hide_none; [lia|done]. Qed.

Lemma release_all_ok {B} (key : B -> N) xs st E : inv st (E ⊎ list_to_set_disj (map key xs)) ->
  exists st', over (fun x st => release (key x) st) xs st = Ret st' /\ released ∅ E (list_to_set_disj (map key xs)) st st'.
Proof.
  intros Hi. apply (release_each key release (fun _ => True) ∅); [done| |done|by rewrite hide_none].
  intros st0 E0 a _ H. apply release_one_ok. by rewrite hide_none in H.
Qed.

(** ** The trees that pointers stand for *)

Fixpoint tree_of (fuel : nat) (m : gmap N Cell) (e : Elem) : option Green :=
  match fuel with
  | O => None
  | S fuel =>
      c ← m !! e_addr e;
      match c_payload c with
      | PToken t => if e_token e then Some (GreenToken (c_kind c) t) else None
      | PNode cs =>
          if e_token e then None
          else gs ← mapM (fun oc => g ← tree_of fuel m oc.2; Some (oc.1, g)) cs; Some (GreenNode (c_kind c) (c_text_len c) gs)
      end
  end.

Definition stands (m : gmap N Cell) (e : Elem) (g : Green) : Prop := exists fuel, tree_of fuel m e = Some g.

(** The placed children stand for the children of a tree. *)
Definition stand_all (m : gmap N Cell) : list (N * Elem) -> list (N * Green) -> Prop := Forall2 (fun oc og => oc.1 = og.1 /\ stands m oc.2 og.2).

Lemma tree_of_kids fuel m cs gs :
  mapM (fun oc : N * Elem => g ← tree_of fuel m oc.2; Some (oc.1, g)) cs = Some gs <-> Forall2 (fun oc og => oc.1 = og.1 /\ tree_of fuel m oc.2 = Some og.2) cs gs.
Proof.
  rewrite mapM_Some. split; intros H; eapply Forall2_impl; try done; intros [o e] [o' g]; cbn.
  - intros (g' & Hg & [= -> ->])%bind_Some. done.
  - intros [-> ->]. done.
Qed.

Lemma tree_of_more m f f' e g : (f <= f')%nat -> tree_of f m e = Some g -> tree_of f' m e = Some g.
Proof.
  revert f' e g. induction f as [|f IH]; intros f' e g Hf H; [done|]. destruct f' as [|f']; [lia|]. cbn [tree_of] in *.
  destruct (m !! e_addr e) as [c|]; [|done]. cbn [mbind option_bind] in *. destruct (c_payload c) as [cs|t]; [|done]. destruct (e_token e); [done|].
  apply bind_Some in H as (gs & Hgs & H). apply tree_of_kids in Hgs. rewrite (proj2 (tree_of_kids f' m cs gs)); [done|].
  eapply Forall2_impl; [done|]. intros oc og [H1 H2]. split; [done|]. apply IH; [lia|done].
Qed.

Lemma stands_det m e g g' : stands m e g -> stands m e g' -> g = g'.
Proof.
  intros [f H] [f' H']. apply (tree_of_more _ _ (f `max` f')) in H; [|lia]. apply (tree_of_more _ _ (f `max` f')) in H'; [|lia]. congruence.
Qed.

Lemma stands_node m a c cs gs : m !! a = Some c -> c_payload c = PNode cs -> stand_all m cs gs -> stands m (mkElem false a) (GreenNode (c_kind c) (c_text_len c) gs).
Proof.
  intros Hc Hp Hs. assert (exists f, Forall2 (fun oc og => oc.1 = og.1 /\ tree_of f m oc.2 = Some og.2) cs gs) as [f Hf].
  { clear Hp. induction Hs as [|oc og cs gs [Ho [f Hf]] Hs [f' IH]]; [by exists 0%nat|]. exists (f `max` f')%nat. constructor.
    - split; [done|]. eapply tree_of_more; [|done]. lia.
    - eapply Forall2_impl; [done|]. intros x y [H1 H2]. split; [done|]. eapply tree_of_more; [|done]. lia. }
  exists (S f). cbn. rewrite Hc. cbn. rewrite Hp. by rewrite (proj2 (tree_of_kids f m cs gs)).
Qed.

Lemma stands_token m a c t : m !! a = Some c -> c_payload c = PToken t -> stands m (mkElem true a) (GreenToken (c_kind c) t).
Proof. intros Hc Hp. exists 1%nat. cbn. rewrite Hc. cbn. by rewrite Hp. Qed.

Lemma stands_cell m e g : stands m e g -> exists c, m !! e_addr e = Some c /\ e_token e = is_token c /\
  match g with
  | GreenToken k t => c_kind c = k /\ c_payload c = PToken t
  | GreenNode k n gs => c_kind c = k /\ c_text_len c = n /\ exists cs, c_payload c = PNode cs /\ stand_all m cs gs
  end.
Proof.
  intros [[|f] H]; [done|]. cbn in H. destruct (m !! e_addr e) as [c|]; [|done]. exists c. split; [done|]. cbn in H. unfold is_token. destruct (c_payload c) as [cs|t], (e_token e); try done.
  - apply bind_Some in H as (gs & Hgs%tree_of_kids & [= <-]). split_and!; try done. exists cs. split; [done|]. eapply Forall2_impl; [done|]. intros x y [H1 H2]. split; [done|by exists f].
  - by injection H as <-.
Qed.

(** A tree depends only on the cells reached. *)
Lemma stands_local (P : N -> Prop) m m' :
  (forall a c, P a -> m !! a = Some c -> exists c', m' !! a = Some c' /\ content c' = content c /\ forall e, e ∈ map snd (payload_children (c_payload c)) -> P (e_addr e)) ->
  forall g e, P (e_addr e) -> stands m e g -> stands m' e g.
Proof.
  intros Hm g. induction g as [k t|k n gs IH] using green_rect_elems; intros e He Hs; destruct (stands_cell _ _ _ Hs) as (c & Hc & Et & H);
    destruct (Hm _ _ He Hc) as (c' & Hc' & E & Hk); destruct e as [b a]; cbn in *; subst b; unfold is_token; pose proof E as Ec; injection Ec as Ek El _ Ep.
  - destruct H as [<- Hp]. rewrite Hp, <- Ek. apply stands_token; [done|congruence].
  - destruct H as (<- & <- & cs & Hp & Hs'). rewrite Hp, <- Ek, <- El. eapply stands_node; [done|by rewrite Ep|]. rewrite Hp in Hk. cbn in Hk.
    clear -IH Hs' Hk. induction Hs' as [|oc og cs gs [Ho Hs] Hs' IHs]; [constructor|]. apply Forall_cons in IH as [I1 I2]. constructor.
    + split; [done|]. apply I1; [apply Hk; left|done].
    + apply IHs; [done|]. intros e He. apply Hk. by right.
Qed.

Lemma stands_grow m m' e g : keeps m m' -> stands m e g -> stands m' e g.
Proof. intros Hk. apply (stands_local (fun _ => True)); [|done]. intros a c _ Hc. destruct (Hk _ _ Hc) as (c' & Hc' & E). by exists c'. Qed.

Lemma stands_shrink st st' E e g : inv st' E -> keeps (cells st') (cells st) -> is_Some (cells st' !! e_addr e) -> stands (cells st) e g -> stands (cells st') e g.
Proof.
  intros Hi Hk. apply (stands_local (fun a => is_Some (cells st' !! a))). intros a c [c' Hc'] Hc. exists c'. destruct (Hk _ _ Hc') as (d & Hd & Ed).
  assert (d = c) as -> by congruence. split; [done|]. split; [done|]. intros e0 He. injection Ed as _ _ _ Ep. rewrite Ep in He. destruct (i_kids _ _ Hi _ _ _ Hc' He) as (d & Hd' & _). by eexists.
Qed.

(** Every pointer to a live cell stands for a tree. *)
Lemma stands_exists st E e : inv st E -> points (cells st) e -> exists g, stands (cells st) e g.
Proof.
  intros Hi. destruct (i_rank _ _ Hi) as [rank Hrank]. remember (rank (e_addr e)) as n eqn:En. revert e En. induction (Nat.lt_wf_0 n) as [n _ IH]. intros [b a'] -> (c & Hc & Hb). cbn in *. subst b. unfold is_token. destruct (c_payload c) as [cs|t] eqn:Ep.
  - assert (exists gs, stand_all (cells st) cs gs) as [gs Hgs]; [|eexists; by eapply stands_node].
    assert (Hk : forall e, e ∈ map snd cs -> (rank (e_addr e) < rank a')%nat /\ points (cells st) e).
    { intros e He. split; [apply (Hrank _ _ _ Hc)|apply (i_kids _ _ Hi _ _ _ Hc)]; by rewrite Ep. }
    clear Ep. induction cs as [|[o e] cs IHcs]; [exists []; constructor|]. destruct (Hk e ltac:(left)) as [Hlt He]. destruct (IH _ Hlt e eq_refl He) as [g Hg].
    destruct IHcs as [gs Hgs]; [intros e' He'; apply Hk; by right|]. exists ((o, g) :: gs). by constructor.
  - eexists. by eapply stands_token.
Qed.

(** ** Allocation *)

Section Allocation.
Context {alloc : Allocator}.

(** Where the next allocation goes. *)
Definition next (st : Store) : N := pick (allocs st) (cells st).

Lemma next_fresh st : cells st !! next st = None.
Proof. apply pick_fresh. Qed.

Lemma malloc_keeps st c : keeps (cells st) (cells (malloc c st).2).
Proof.
  intros a d Hd. exists d. split; [|done]. cbn. rewrite lookup_insert_ne; [done|]. intros <-. by rewrite pick_fresh in Hd.
Qed.

(** A new cell is above what it points to. *)
Lemma ranked_new m a c : m !! a = None -> (exists rank, ranked m rank) -> (forall b d e, m !! b = Some d -> e ∈ map snd (payload_children (c_payload d)) -> is_Some (m !! e_addr e)) ->
  (forall e, e ∈ map snd (payload_children (c_payload c)) -> is_Some (m !! e_addr e)) -> exists rank, ranked (<[a := c]> m) rank.
Proof.
  intros Ha [rank Hr] Hm Hc. exists (fun b => if decide (b = a) then S (max_list (map (fun e => rank (e_addr e)) (map snd (payload_children (c_payload c))))) else rank b).
  assert (Hne : forall e, is_Some (m !! e_addr e) -> e_addr e <> a) by (intros e [d Hd] E; congruence).
  intros b d e [[<- <-]|[Hb Hd]]%lookup_insert_Some He.
  - rewrite decide_False by (by apply Hne, Hc). rewrite decide_True by done. apply Nat.lt_succ_r, max_list_elem_of_le, list_elem_of_fmap. by exists e.
  - rewrite decide_False by (by eapply Hne, Hm). rewrite decide_False by done. by eapply Hr.
Qed.

Lemma inv_malloc st E c :
  inv st (E ⊎ kids c) -> c_refcount c = 1 -> cell_ok (cells st) c -> (forall e, e ∈ map snd (payload_children (c_payload c)) -> points (cells st) e) ->
  inv (malloc c st).2 (E ⊎ {[+ next st +]}).
Proof.
  intros Hi Hr Hok Hp. pose proof (next_fresh st) as Hf. pose proof (malloc_keeps st c) as Hk.
  assert (Hl : forall a, is_Some (cells st !! a) -> a <> next st) by (intros a [d Hd] ->; congruence).
  assert (HE : multiplicity (next st) (E ⊎ kids c) = 0%nat). { apply not_elem_of_multiplicity. intros H. by eapply Hl; [by eapply i_live|]. }
  assert (HL : multiplicity (next st) (links (cells st)) = 0%nat).
  { apply not_elem_of_multiplicity. intros (a & d & e & Hd & He & Ea)%links_elem. destruct (i_kids _ _ Hi _ _ _ Hd He) as (d' & Hd' & _). congruence. }
  rewrite multiplicity_disj_union in HE. destruct Hi as [Ic Il Ib Ik Io]. split; cbn; fold (next st).
  - intros a d [[<- <-]|[Hne Hd]]%lookup_insert_Some.
    + rewrite Hr, links_new, !multiplicity_disj_union, multiplicity_singleton by done. case_decide; [lia|done].
    + destruct (Ic _ _ Hd) as [-> H0]. split; [|done]. rewrite links_new, !multiplicity_disj_union, multiplicity_singleton_ne by done. lia.
  - intros a Ha. destruct (decide (a = next st)) as [->|Hne]; [rewrite lookup_insert_eq; by eexists|]. rewrite lookup_insert_ne by done. apply Il. multiset_solver.
  - apply ranked_new; [done..| |]; [intros b d e Hd He; by destruct (Ik _ _ _ Hd He) as (d' & Hd' & _)|]. intros e He. by destruct (Hp _ He) as (d & Hd & _).
  - intros a d e [[<- <-]|[Hne Hd]]%lookup_insert_Some He; (eapply points_keeps; [exact Hk|]); [by apply Hp|by eapply Ik].
  - intros a d [[<- <-]|[Hne Hd]]%lookup_insert_Some; [by eapply ok_keeps|]. eapply ok_keeps; [done..|by eapply Io].
Qed.

Lemma size_addrs es : size (addrs es) = length es.
Proof. unfold addrs. induction es as [|e es IH]; [done|]. cbn [map]. rewrite list_to_set_disj_cons, gmultiset_size_disj_union, gmultiset_size_singleton, IH. done. Qed.

Lemma refs_malloc st E c : refs (malloc c st).2 (E ⊎ {[+ next st +]}) = (refs st E + length (payload_children (c_payload c)) + 1)%nat.
Proof.
  rewrite refs_more, gmultiset_size_singleton. unfold refs. cbn. rewrite links_new by apply pick_fresh. rewrite !gmultiset_size_disj_union. unfold kids. rewrite size_addrs, length_map. lia.
Qed.

Lemma fxhash_bytes_total fuel h p : (length p < fuel)%nat -> exists h', fxhash_bytes fuel h p = Ret h'.
Proof.
  revert h p. induction fuel as [|fuel IH]; intros h p Hf; [lia|]. cbn [fxhash_bytes]. destruct (8 <=? length p)%nat eqn:E8; [|by eexists].
  apply Nat.leb_le in E8. apply IH. rewrite length_drop. lia.
Qed.

Lemma token_hash_total k t : exists h, green_token_compute_hash k t = Ret h.
Proof. apply fxhash_bytes_total. lia. Qed.

(** A new cell, with one reference for the caller. *)
Record fresh_cell (st : Store) (E : gmultiset N) (n : nat) (a : N) (c : Cell) (st' : Store) : Prop := {
  f_inv : inv st' (E ⊎ {[+ a +]});
  f_keeps : keeps (cells st) (cells st');
  f_cell : cells st' !! a = Some c;
  f_new : cells st !! a = None;
  f_only : forall b d, cells st' !! b = Some d -> b <> a -> exists d', cells st !! b = Some d' /\ content d' = content d;
  f_refs : refs st' (E ⊎ {[+ a +]}) = (refs st E + n)%nat
}.

Lemma token_alloc_ok st E k t h : inv st E -> green_token_compute_hash k t = Ret h ->
  exists a st', counted_token_alloc k t st = Ret (a, st') /\ fresh_cell st E 1 a (mkCell k (u32 (N.of_nat (length t))) 1 h (PToken t)) st'.
Proof.
  intros Hi Hh. unfold counted_token_alloc. rewrite Hh. cbn [obind]. set (c := mkCell _ _ _ _ _). exists (next st), (malloc c st).2. split; [done|].
  assert (Hi' : inv st (E ⊎ kids c)) by (unfold kids; cbn; by rewrite gmultiset_disj_union_right_id).
  split.
  - apply inv_malloc; [done..|]. intros e He. by apply elem_of_nil in He.
  - apply malloc_keeps.
  - apply lookup_insert_eq.
  - apply next_fresh.
  - cbn. intros b d [[<- <-]|[_ Hd]]%lookup_insert_Some ?; [done|by exists d].
  - rewrite refs_malloc. cbn. lia.
Qed.

Lemma same_trans st1 st2 st3 : same_content st1 st2 -> same_content st2 st3 -> same_content st1 st3.
Proof. intros [B1 H1] [B2 H2]. split; [congruence|]. intros a. by rewrite H2. Qed.

Lemma same_refs st st' E : same_content st st' -> refs st' E = refs st E.
Proof. intros H. unfold refs. by rewrite (same_links _ _ H). Qed.

Lemma place_children_ok es : forall off st E, inv st E -> Forall (points (cells st)) es -> room st E (length es) ->
  exists cs total st', place_children off es st = Ret (cs, total, st') /\ inv st' (E ⊎ addrs es) /\ same_content st st' /\ placed (cells st) off cs total /\ map snd cs = es.
Proof.
  induction es as [|e es IH]; intros off st E Hi Hp Hr.
  - exists [], off, st. unfold addrs. cbn. rewrite gmultiset_disj_union_right_id. done.
  - apply Forall_cons in Hp as [(c & Hc & _) Hp]. unfold room in *. cbn [length] in Hr. cbn [place_children]. unfold cell_at at 1. rewrite Hc. cbn [obind].
    destruct (green_retain_ok st E (e_addr e) Hi ltac:(by eexists)) as (st1 & E1 & I1 & S1); [unfold room; lia|]. rewrite E1. cbn [obind]. destruct (same_keeps _ _ S1) as [K1 K2].
    destruct (IH (u32 (off + c_text_len c)) st1 _ I1) as (cs & total & st2 & E2 & I2 & S2 & P2 & M2).
    { eapply Forall_impl; [done|]. intros x. by apply points_keeps. }
    { rewrite refs_more, (same_refs _ _ _ S1), gmultiset_size_singleton. lia. }
    rewrite E2. cbn [obind]. exists ((off, e) :: cs), total, st2. split_and!; [done| |by eapply same_trans| |cbn; by rewrite M2].
    + unfold addrs in *. cbn [map]. rewrite list_to_set_disj_cons. by rewrite gmultiset_disj_union_assoc.
    + cbn. split; [done|]. exists c. split; [done|]. eapply placed_local; [|done]. intros e' d _. apply K2.
Qed.

(** The offsets and the width of [green_node_alloc] on trees. *)
Lemma placed_offsets st E off cs total gs : inv st E -> placed (cells st) off cs total -> Forall2 (fun oc og => stands (cells st) oc.2 og.2) cs gs ->
  exists gs', assign_offsets off gs = (gs', total) /\ stand_all (cells st) cs gs'.
Proof.
  intros Hi. revert off gs. induction cs as [|[o e] cs IH]; intros off gs Hp Hs; inversion Hs as [|? [o' g] ? gs0 Hg Hs0]; subst; cbn in *.
  - subst. exists []. split; [done|constructor].
  - destruct Hp as (-> & c & Hc & Hp). assert (green_text_len g = c_text_len c) as ->.
    { destruct (stands_cell _ _ _ Hg) as (c' & Hc' & _ & H). replace c' with c in * by congruence. destruct g as [k n gs|k t]; cbn; [by destruct H as (_ & -> & _)|].
      destruct H as [_ Hpay]. pose proof (i_ok _ _ Hi _ _ Hc) as Hok. unfold cell_ok in Hok. rewrite Hpay in Hok. by destruct Hok as [-> _]. }
    destruct (IH _ _ Hp Hs0) as (gs' & -> & Hs'). exists ((off, g) :: gs'). split; [done|]. by constructor.
Qed.

(** A cell with the children [es] stands for the node of their trees. *)
Lemma stands_alloc st E a c cs gs : inv st E -> cells st !! a = Some c -> c_payload c = PNode cs -> Forall2 (fun e og => stands (cells st) e og.2) (map snd cs) gs ->
  stands (cells st) (mkElem false a) (green_node_alloc (c_kind c) gs).
Proof.
  intros Hi Hc Hp Hs. pose proof (i_ok _ _ Hi _ _ Hc) as Hok. unfold cell_ok in Hok. rewrite Hp in Hok. destruct Hok as [Hpl _]. apply Forall2_fmap_l in Hs.
  destruct (placed_offsets _ _ _ _ _ _ Hi Hpl Hs) as (gs' & Ea & Hs'). unfold green_node_alloc. rewrite Ea. by eapply stands_node.
Qed.

Lemma node_alloc_ok st E k es : inv st E -> Forall (points (cells st)) es -> room st E (length es) ->
  exists a st' c cs, counted_node_alloc k es st = Ret (a, st') /\ fresh_cell st E (length es + 1) a c st' /\
    c_kind c = k /\ c_payload c = PNode cs /\ map snd cs = es /\ c_hash c = green_node_compute_hash k es.
Proof.
  intros Hi Hp Hr. unfold counted_node_alloc. destruct (place_children_ok es 0 st E Hi Hp Hr) as (cs & total & st1 & E1 & I1 & S1 & P1 & M1). rewrite E1. cbn [obind].
  set (c := mkCell _ _ _ _ _). exists (next st1), (malloc c st1).2, c, cs. split; [done|]. destruct (same_keeps _ _ S1) as [K1 K2].
  assert (Hk : kids c = addrs es) by (unfold kids; cbn; by rewrite M1). split; [|done]. split.
  - apply inv_malloc; [by rewrite Hk|done|..].
    + unfold cell_ok. cbn. rewrite M1. split; [|done]. eapply placed_local; [|done]. intros e d _. apply K1.
    + cbn. rewrite M1. intros e He. eapply points_keeps; [done|]. rewrite Forall_forall in Hp. by apply Hp.
  - eapply keeps_trans; [done|]. apply malloc_keeps.
  - apply lookup_insert_eq.
  - destruct (cells st !! next st1) as [d|] eqn:Hd; [|done]. destruct (K1 _ _ Hd) as (d' & Hd' & _). by rewrite next_fresh in Hd'.
  - cbn. intros b d [[<- <-]|[_ Hd]]%lookup_insert_Some ?; [done|]. by apply K2.
  - rewrite refs_malloc, (same_refs _ _ _ S1). cbn. rewrite <- (length_map snd cs), M1. lia.
Qed.

(** ** The cache *)

Definition table (tok : bool) (c : NodeCache) : gmap N (list N) := if tok then tokens c else nodes c.

(** The references that a cache holds. *)
Definition cached (c : NodeCache) : gmultiset N := gather id (nodes c) ⊎ gather id (tokens c).

(** What the cache compares. *)
Definition key (c : Cell) : OreSyntaxKind * (list byte + list Elem) :=
  (c_kind c, match c_payload c with PToken t => inl t | PNode cs => inr (map snd cs) end).

(** The cells that are in the cache: tokens and the nodes with few children. *)
Definition shared (c : Cell) : Prop := N.of_nat (length (payload_children (c_payload c))) <= ORE_NODE_DEDUP_MAX_CHILDREN.

Record cache_ok (st : Store) (c : NodeCache) : Prop := {
  k_in : forall tok h b, b ∈ bucket (table tok c) h -> exists d, cells st !! b = Some d /\ is_token d = tok /\ c_hash d = h;
  k_all : forall a d, cells st !! a = Some d -> shared d -> a ∈ bucket (table (is_token d) c) (c_hash d);
  k_one : forall a b d d', cells st !! a = Some d -> cells st !! b = Some d' -> shared d -> key d = key d' -> a = b
}.

Lemma content_key d d' : content d = content d' -> key d = key d' /\ c_hash d = c_hash d' /\ (shared d -> shared d').
Proof. intros E. injection E as Ek _ Eh Ep. unfold key, shared. by rewrite Ek, Eh, Ep. Qed.

Lemma key_token d d' : key d = key d' -> is_token d = is_token d'.
Proof. intros [= _ H]. unfold is_token. by destruct (c_payload d), (c_payload d'). Qed.

Lemma key_shared d d' : key d = key d' -> shared d -> shared d'.
Proof.
  intros [= _ H]. unfold shared. destruct (c_payload d) as [cs|t], (c_payload d') as [cs'|t']; try done. injection H as H. apply (f_equal length) in H. rewrite !length_map in H. cbn. by rewrite H.
Qed.

Lemma key_hash m d d' : cell_ok m d -> cell_ok m d' -> key d = key d' -> c_hash d = c_hash d'.
Proof.
  intros H1 H2 [= Ek Ep]. unfold cell_ok in *. destruct (c_payload d) as [cs|t], (c_payload d') as [cs'|t']; try done; injection Ep as Ep.
  - destruct H1 as [_ ->], H2 as [_ ->]. by rewrite Ek, Ep.
  - destruct H1 as [_ H1], H2 as [_ H2]. rewrite Ek, Ep in H1. congruence.
Qed.

Lemma bucket_gather m h b : b ∈ bucket m h -> b ∈ gather id m.
Proof.
  unfold bucket. destruct (m !! h) as [bs|] eqn:Hm; cbn; [|by intros ?%elem_of_nil]. intros Hb. rewrite (gather_delete _ _ _ _ Hm). apply gmultiset_elem_of_disj_union. left. by apply elem_of_list_to_set_disj.
Qed.

Lemma gather_put m h a : gather id (<[h := a :: bucket m h]> m) = {[+ a +]} ⊎ gather id m.
Proof.
  unfold bucket. destruct (m !! h) as [bs|] eqn:Hm; cbn [default from_option].
  - rewrite <- insert_delete_eq, gather_new by apply lookup_delete_eq. rewrite (gather_delete id m h bs Hm). unfold id at 1. rewrite list_to_set_disj_cons. by rewrite gmultiset_disj_union_assoc.
  - rewrite gather_new by done. unfold id at 1. rewrite list_to_set_disj_cons, list_to_set_disj_nil. by rewrite gmultiset_disj_union_right_id.
Qed.

Lemma bucket_put m h h' a b : b ∈ bucket (<[h := a :: bucket m h]> m) h' <-> (b = a /\ h' = h) \/ b ∈ bucket m h'.
Proof.
  unfold bucket at 1. destruct (decide (h' = h)) as [->|Hn].
  - rewrite lookup_insert_eq. cbn. rewrite elem_of_cons. naive_solver.
  - rewrite lookup_insert_ne by done. fold (bucket m h'). naive_solver.
Qed.

Lemma table_cached tok c b h : b ∈ bucket (table tok c) h -> b ∈ cached c.
Proof. intros Hb. apply gmultiset_elem_of_disj_union. destruct tok; [right|left]; by eapply bucket_gather. Qed.

Lemma cache_new_ok : cache_ok empty_store node_cache_new /\ cached node_cache_new = ∅.
Proof.
  split; [|done]. split; cbn; [|intros a d; by rewrite lookup_empty..]. intros [] h b; unfold bucket, node_cache_new; cbn; rewrite lookup_empty; cbn; by intros ?%elem_of_nil.
Qed.

(** Giving back references the cache does not hold leaves it alone. *)
Lemma cache_shrink st st' c E : cache_ok st c -> inv st' (cached c ⊎ E) -> keeps (cells st') (cells st) -> cache_ok st' c.
Proof.
  intros [Hin Hall Hone] Hi Hk. split.
  - intros tok h b Hb. destruct (Hin _ _ _ Hb) as (d & Hd & Ht & Hh). destruct (i_live _ _ Hi b) as [d' Hd']; [apply gmultiset_elem_of_disj_union; left; by eapply table_cached|].
    exists d'. split; [done|]. destruct (Hk _ _ Hd') as (d0 & Hd0 & E0). replace d0 with d in * by congruence. destruct (content_key _ _ E0) as (_ & <- & _). by rewrite <- (content_token _ _ E0).
  - intros a d Hd Hs. destruct (Hk _ _ Hd) as (d0 & Hd0 & E0). destruct (content_key _ _ (eq_sym E0)) as (_ & -> & Hs'). rewrite <- (content_token _ _ E0). apply Hall; [done|]. by apply Hs'.
  - intros a b d d' Ha Hb Hs Ek. destruct (Hk _ _ Ha) as (d0 & Hd0 & E0). destruct (Hk _ _ Hb) as (d1 & Hd1 & E1). destruct (content_key _ _ E0) as (K0 & _ & _).
    destruct (content_key _ _ E1) as (K1 & _ & _). destruct (content_key _ _ (eq_sym E0)) as (_ & _ & Hs'). eapply Hone; [done..|by apply Hs'|congruence].
Qed.

Lemma bucket_find_ok test st bs : Forall (fun b => is_Some (cells st !! b)) bs ->
  exists r, bucket_find test st bs = Ret r /\
    match r with
    | Some b => b ∈ bs /\ exists d, cells st !! b = Some d /\ test d = true
    | None => forall b d, b ∈ bs -> cells st !! b = Some d -> test d = false
    end.
Proof.
  induction 1 as [|b bs [d Hd] _ (r & IH & Hr)]; [exists None; split; [done|]; intros b d Hb; by apply elem_of_nil in Hb|].
  cbn [bucket_find]. unfold cell_at. rewrite Hd. cbn [obind]. destruct (test d) eqn:Et.
  - exists (Some b). split; [done|]. split; [left|by exists d].
  - exists r. split; [done|]. destruct r as [b'|]; [destruct Hr as [H1 H2]; split; [by right|done]|]. intros b' d' [->|Hb]%elem_of_cons Hd'; [congruence|by eapply Hr].
Qed.

(** A fresh cell that no cell equals, when the cache does not take it. *)
Lemma cache_unshared st E n a d st' c : fresh_cell st E n a d st' -> cache_ok st c -> ~ shared d -> cache_ok st' c.
Proof.
  intros [Fi Fk Fc Fn Fo _] [Hin Hall Hone] Hs. split.
  - intros tok h b Hb. destruct (Hin _ _ _ Hb) as (d0 & Hd & Ht & Hh). destruct (Fk _ _ Hd) as (d1 & Hd1 & E1). exists d1. destruct (content_key _ _ E1) as (_ & -> & _). by rewrite (content_token _ _ E1).
  - intros b d1 Hd1 Hs1. destruct (decide (b = a)) as [->|Hne]; [destruct Hs; congruence|]. destruct (Fo _ _ Hd1 Hne) as (d0 & Hd & E0). destruct (content_key _ _ (eq_sym E0)) as (_ & -> & Hs0).
    rewrite <- (content_token _ _ E0). apply Hall; [done|by apply Hs0].
  - intros b b' d1 d1' Hb Hb' Hs1 Ek. assert (Hs1' := key_shared _ _ Ek Hs1).
    destruct (decide (b = a)) as [->|Hne]; [destruct Hs; congruence|]. destruct (decide (b' = a)) as [->|Hne']; [destruct Hs; congruence|].
    destruct (Fo _ _ Hb Hne) as (d0 & Hd & E0), (Fo _ _ Hb' Hne') as (d0' & Hd' & E0'). destruct (content_key _ _ E0) as (K0 & _ & _), (content_key _ _ E0') as (K0' & _ & _), (content_key _ _ (eq_sym E0)) as (_ & _ & S0).
    eapply Hone; [done..|by apply S0|congruence].
Qed.

Definition put (d : Cell) (a : N) (c : NodeCache) : NodeCache :=
  let m := table (is_token d) c in
  let m' := <[c_hash d := a :: bucket m (c_hash d)]> m in
  if is_token d then mkCache (nodes c) m' else mkCache m' (tokens c).

Lemma put_table d a c tok h b : b ∈ bucket (table tok (put d a c)) h <-> (b = a /\ tok = is_token d /\ h = c_hash d) \/ b ∈ bucket (table tok c) h.
Proof. unfold put. destruct (is_token d), tok; cbn [table nodes tokens]; rewrite ?bucket_put; naive_solver. Qed.

Lemma put_cached d a c : cached (put d a c) = {[+ a +]} ⊎ cached c.
Proof. unfold put, cached. destruct (is_token d); cbn [table nodes tokens]; rewrite gather_put; multiset_solver. Qed.

(** One that the cache takes. *)
Lemma cache_put st E n a d st' c : fresh_cell st E n a d st' -> cache_ok st c -> (forall b d', b ∈ bucket (table (is_token d) c) (c_hash d) -> cells st !! b = Some d' -> key d' <> key d) ->
  cache_ok st' (put d a c).
Proof.
  intros [Fi Fk Fc Fn Fo _] [Hin Hall Hone] Hno. split.
  - intros tok h b [(-> & -> & ->)|Hb]%put_table; [by exists d|]. destruct (Hin _ _ _ Hb) as (d0 & Hd & Ht & Hh). destruct (Fk _ _ Hd) as (d1 & Hd1 & E1). exists d1.
    destruct (content_key _ _ E1) as (_ & -> & _). by rewrite (content_token _ _ E1).
  - intros b d1 Hd1 Hs1. apply put_table. destruct (decide (b = a)) as [->|Hne]; [left; by replace d1 with d by congruence|]. right. destruct (Fo _ _ Hd1 Hne) as (d0 & Hd & E0).
    destruct (content_key _ _ (eq_sym E0)) as (_ & -> & Hs0). rewrite <- (content_token _ _ E0). apply Hall; [done|by apply Hs0].
  - assert (Hnew : forall b d1, cells st' !! b = Some d1 -> b <> a -> shared d1 -> key d1 <> key d).
    { intros b d1 Hd1 Hne Hs1 Ek. destruct (Fo _ _ Hd1 Hne) as (d0 & Hd & E0). destruct (content_key _ _ E0) as (K0 & H0 & _), (content_key _ _ (eq_sym E0)) as (_ & _ & S0).
      apply (Hno b d0); [|done|congruence]. rewrite <- (key_token _ _ Ek), <- (key_hash _ _ _ (i_ok _ _ Fi _ _ Hd1) (i_ok _ _ Fi _ _ Fc) Ek), <- (content_token _ _ E0), <- H0. apply Hall; [done|by apply S0]. }
    intros b b' d1 d1' Hb Hb' Hs1 Ek. assert (Hs1' := key_shared _ _ Ek Hs1).
    destruct (decide (b = a)) as [->|Hne], (decide (b' = a)) as [->|Hne']; [done|..].
    + replace d1 with d in * by congruence. by destruct (Hnew _ _ Hb' Hne' Hs1').
    + replace d1' with d in * by congruence. by destruct (Hnew _ _ Hb Hne Hs1).
    + destruct (Fo _ _ Hb Hne) as (d0 & Hd & E0), (Fo _ _ Hb' Hne') as (d0' & Hd' & E0'). destruct (content_key _ _ E0) as (K0 & _ & _), (content_key _ _ E0') as (K0' & _ & _), (content_key _ _ (eq_sym E0)) as (_ & _ & S0).
      eapply Hone; [done..|by apply S0|congruence].
Qed.

(** What an intern call gives: a reference to a cell that stands for [g]. *)
Record interned (st : Store) (c : NodeCache) (E : gmultiset N) (n : nat) (e : Elem) (g : Green) (c' : NodeCache) (st' : Store) : Prop := {
  t_inv : inv st' (cached c' ⊎ (E ⊎ {[+ e_addr e +]}));
  t_cache : cache_ok st' c';
  t_keeps : keeps (cells st) (cells st');
  t_stands : stands (cells st') e g;
  t_refs : (refs st' (cached c' ⊎ (E ⊎ {[+ e_addr e +]})) <= refs st (cached c ⊎ E) + n)%nat
}.

(** A hit. *)
Lemma interned_hit st c E n a tok g : inv st (cached c ⊎ E) -> cache_ok st c -> room st (cached c ⊎ E) 1 -> (1 <= n)%nat -> stands (cells st) (mkElem tok a) g ->
  exists st', green_retain a st = Ret st' /\ interned st c E n (mkElem tok a) g c st'.
Proof.
  intros Hi Hc Hr Hn Hs. destruct (stands_cell _ _ _ Hs) as (d & Hd & _). destruct (green_retain_ok st _ a Hi ltac:(by eexists) Hr) as (st' & E1 & I1 & S1). destruct (same_keeps _ _ S1) as [K1 K2].
  rewrite <- gmultiset_disj_union_assoc in I1. exists st'. split; [done|]. split; [done|by eapply cache_shrink|done|by eapply stands_grow|].
  rewrite (same_refs _ _ _ S1). cbn [e_addr]. rewrite gmultiset_disj_union_assoc, refs_more, gmultiset_size_singleton. lia.
Qed.

(** A miss, from the fresh cell on. *)
Lemma interned_miss st c E n a d st1 g : fresh_cell st (cached c ⊎ E) n a d st1 -> cache_ok st c -> room st (cached c ⊎ E) (S n) ->
  (forall b d', b ∈ bucket (table (is_token d) c) (c_hash d) -> cells st !! b = Some d' -> key d' <> key d) ->
  stands (cells st1) (mkElem (is_token d) a) g ->
  exists st', green_retain a st1 = Ret st' /\ interned st c E (S n) (mkElem (is_token d) a) g (put d a c) st'.
Proof.
  intros Hf Hc Hr Hno Hs. pose proof (cache_put _ _ _ _ _ _ _ Hf Hc Hno) as Hc1. destruct Hf as [Fi Fk Fc Fn Fo Fr].
  destruct (green_retain_ok st1 _ a Fi ltac:(by eexists)) as (st' & E1 & I1 & S1); [unfold room in *; rewrite Fr; lia|]. destruct (same_keeps _ _ S1) as [K1 K2].
  assert (EE : cached c ⊎ E ⊎ {[+ a +]} ⊎ {[+ a +]} = cached (put d a c) ⊎ (E ⊎ {[+ a +]})) by (rewrite put_cached; multiset_solver).
  rewrite EE in I1. exists st'. split; [done|]. split; [done|by eapply cache_shrink|by eapply keeps_trans|by eapply stands_grow|].
  cbn [e_addr]. rewrite <- EE, refs_more, (same_refs _ _ _ S1), Fr, gmultiset_size_singleton. lia.
Qed.

Lemma same_elems_eq xs ys : same_elems xs ys = true <-> xs = ys.
Proof.
  revert ys. induction xs as [|[t a] xs IH]; intros [|[t' a'] ys]; cbn [same_elems]; try done. unfold same_elem. cbn [e_token e_addr]. rewrite !andb_true_iff, eqb_true_iff, N.eqb_eq, IH. naive_solver.
Qed.

Lemma token_equals_key m k t d : cell_ok m d -> green_token_equals k t d = true <-> key d = (k, inl t).
Proof.
  intros Hok. unfold green_token_equals, key. unfold cell_ok in Hok. destruct (c_payload d) as [cs|x]; [naive_solver|]. destruct Hok as [Hl _].
  rewrite !andb_true_iff, kind_eqb_eq, N.eqb_eq, bytes_eqb_eq, Hl. naive_solver.
Qed.

Lemma node_equals_key k es d : green_node_equals k es d = true <-> key d = (k, inr es).
Proof.
  unfold green_node_equals, key. destruct (c_payload d) as [cs|x]; [|naive_solver]. rewrite andb_true_iff, kind_eqb_eq, same_elems_eq. naive_solver.
Qed.

Lemma bucket_live st c E tok h : inv st (cached c ⊎ E) -> Forall (fun b => is_Some (cells st !! b)) (bucket (table tok c) h).
Proof. intros Hi. rewrite List.Forall_forall. intros b Hb%list_elem_of_In. apply (i_live _ _ Hi), gmultiset_elem_of_disj_union. left. by eapply table_cached. Qed.

Lemma room_less st E n n' : room st E n -> (n' <= n)%nat -> room st E n'.
Proof. unfold room. lia. Qed.

Lemma intern_token_ok st c E k t : inv st (cached c ⊎ E) -> cache_ok st c -> room st (cached c ⊎ E) 2 ->
  exists a c' st', node_cache_intern_token k t c st = Ret (a, c', st') /\ interned st c E 2 (mkElem true a) (GreenToken k t) c' st'.
Proof.
  intros Hi Hc Hr. unfold node_cache_intern_token. destruct (token_hash_total k t) as [h Hh]. rewrite Hh. cbn [obind]. change (tokens c) with (table true c).
  destruct (bucket_find_ok (green_token_equals k t) st _ (bucket_live st c E true h Hi)) as (r & Er & Hr'). rewrite Er. cbn [obind]. destruct r as [b|].
  - destruct Hr' as (_ & d & Hd & [= Ek Ep]%(token_equals_key _ _ _ _ (i_ok _ _ Hi _ _ Hd))). destruct (c_payload d) as [|x] eqn:Epay; [done|]. injection Ep as ->.
    destruct (interned_hit st c E 2 b true (GreenToken k t) Hi Hc) as (st' & E1 & H1); [apply (room_less _ _ _ _ Hr); lia|lia|rewrite <- Ek; by apply stands_token|]. rewrite E1. by eexists _, _, _.
  - destruct (token_alloc_ok st _ k t h Hi Hh) as (a & st1 & E1 & F1). rewrite E1. cbn [obind]. set (d := mkCell _ _ _ _ _) in F1.
    destruct (interned_miss st c E 1 a d st1 (GreenToken k t) F1 Hc Hr) as (st' & E2 & H2).
    + intros b d' Hb Hd' Ek. pose proof (Hr' _ _ Hb Hd') as Hf. by rewrite (proj2 (token_equals_key _ k t d' (i_ok _ _ Hi _ _ Hd')) Ek) in Hf.
    + apply (stands_token _ a d t); [apply F1|done].
    + rewrite E2. cbn [obind]. by eexists _, _, _.
Qed.

Lemma intern_node_ok st c E k es gs : inv st (cached c ⊎ E) -> cache_ok st c -> room st (cached c ⊎ E) (length es + 2) ->
  Forall2 (fun e og => stands (cells st) e og.2) es gs ->
  exists a c' st', node_cache_intern_node k es c st = Ret (a, c', st') /\ interned st c E (length es + 2) (mkElem false a) (green_node_alloc k gs) c' st'.
Proof.
  intros Hi Hc Hr Hs. assert (Hp : Forall (points (cells st)) es).
  { clear -Hs. induction Hs as [|e g es gs Hg _ IH]; [constructor|]. constructor; [|done]. destruct (stands_cell _ _ _ Hg) as (d & Hd & Ht & _). by exists d. }
  assert (Hal : forall st1 a d cs, fresh_cell st (cached c ⊎ E) (length es + 1) a d st1 -> c_kind d = k -> c_payload d = PNode cs -> map snd cs = es -> stands (cells st1) (mkElem false a) (green_node_alloc k gs)).
  { intros st1 a d cs F1 <- Ep Em. eapply stands_alloc; [apply F1|apply F1|done|]. rewrite Em. eapply Forall2_impl; [done|]. intros e og. apply stands_grow, F1. }
  unfold node_cache_intern_node. destruct (N.ltb_spec ORE_NODE_DEDUP_MAX_CHILDREN (N.of_nat (length es))) as [Hbig|Hsmall].
  - destruct (node_alloc_ok st _ k es Hi Hp) as (a & st1 & d & cs & E1 & F1 & Ek & Ep & Em & Eh); [apply (room_less _ _ _ _ Hr); lia|]. rewrite E1. cbn [obind]. exists a, c, st1. split; [done|].
    pose proof F1 as [Fi Fk Fc Fn Fo Fr]. rewrite <- gmultiset_disj_union_assoc in Fi, Fr. split; [done| |done|by eapply Hal|cbn [e_addr]; lia].
    eapply cache_unshared; [done..|]. unfold shared. rewrite Ep. cbn. rewrite <- (length_map snd cs), Em. lia.
  - change (nodes c) with (table false c). set (h := green_node_compute_hash k es).
    destruct (bucket_find_ok (green_node_equals k es) st _ (bucket_live st c E false h Hi)) as (r & Er & Hr'). rewrite Er. cbn [obind]. destruct r as [b|].
    + destruct Hr' as (_ & d & Hd & [= Ek Ep]%node_equals_key). destruct (c_payload d) as [cs|] eqn:Epay; [|done]. injection Ep as Em.
      destruct (interned_hit st c E (length es + 2) b false (green_node_alloc k gs) Hi Hc) as (st' & E1 & H1); [apply (room_less _ _ _ _ Hr); lia|lia| |rewrite E1; by eexists _, _, _].
      rewrite <- Ek. eapply stands_alloc; [done..|]. by rewrite Em.
    + destruct (node_alloc_ok st _ k es Hi Hp) as (a & st1 & d & cs & E1 & F1 & Ek & Ep & Em & Eh); [apply (room_less _ _ _ _ Hr); lia|]. rewrite E1. cbn [obind].
      assert (Ht : is_token d = false) by (unfold is_token; by rewrite Ep). assert (Ekey : key d = (k, inr es)) by (unfold key; by rewrite Ek, Ep, Em).
      replace (length es + 2)%nat with (S (length es + 1)) in * by lia. destruct (interned_miss st c E (length es + 1) a d st1 (green_node_alloc k gs) F1 Hc Hr) as (st' & E2 & H2).
      * rewrite Ht, Eh, Ekey. intros b d' Hb Hd' Ek'. rewrite <- node_equals_key in Ek'. by rewrite (Hr' _ _ Hb Hd') in Ek'.
      * rewrite Ht. by eapply Hal.
      * rewrite E2. cbn [obind]. rewrite Ht in H2. unfold put in H2. rewrite Ht, Eh in H2. by eexists _, _, _.
Qed.

(** ** The builder *)

Inductive BuildOp : Type :=
  | OpStart (k : OreSyntaxKind)
  | OpToken (k : OreSyntaxKind) (text : list byte)
  | OpFinish
  | OpStartAt (cp : nat) (k : OreSyntaxKind).

Definition tree_op (o : BuildOp) (b : GreenBuilder) : outcome GreenBuilder :=
  match o with
  | OpStart k => Ret (green_builder_start_node k b)
  | OpToken k t => Ret (green_builder_token k t b)
  | OpFinish => green_builder_finish_node b
  | OpStartAt cp k => green_builder_start_node_at cp k b
  end.

Definition counted_op (o : BuildOp) (s : Session) : outcome Session :=
  match o with
  | OpStart k => Ret (counted_builder_start_node k s)
  | OpToken k t => counted_builder_token k t s
  | OpFinish => counted_builder_finish_node s
  | OpStartAt cp k => counted_builder_start_node_at cp k s
  end.

(** A whole build, on trees and on pointers. *)
Definition tree_build (ops : list BuildOp) : outcome (Green * GreenBuilder) :=
  let! b := over tree_op ops green_builder_new in green_builder_finish b.

Definition counted_build (ops : list BuildOp) (c : NodeCache) (st : Store) : outcome (N * Session) :=
  let! s := over counted_op ops (counted_builder_new c st) in counted_builder_finish s.

(** The pointers of a session stand for the trees of a builder; [E] are references of others. *)
Record standing (E : gmultiset N) (s : Session) (b : GreenBuilder) : Prop := {
  s_inv : inv (store s) (cached (cache s) ⊎ (E ⊎ addrs (elems s)));
  s_cache : cache_ok (store s) (cache s);
  s_frames : frames s = parents b;
  s_elems : Forall2 (fun e og => stands (cells (store s)) e og.2) (elems s) (children b)
}.

Definition session_refs (E : gmultiset N) (s : Session) : nat := refs (store s) (cached (cache s) ⊎ (E ⊎ addrs (elems s))).

(** What others hold stands for the same trees. *)
Definition undisturbed (E : gmultiset N) (st st' : Store) : Prop := forall e g, e_addr e ∈ E -> stands (cells st) e g -> stands (cells st') e g.

Lemma undisturbed_refl E st : undisturbed E st st.
Proof. by intros e g _. Qed.

Lemma undisturbed_trans E st1 st2 st3 : undisturbed E st1 st2 -> undisturbed E st2 st3 -> undisturbed E st1 st3.
Proof. intros H1 H2 e g He Hs. by apply H2, H1. Qed.

(** A step of the session against the step of the builder. *)
Definition simulates (E : gmultiset N) (n : nat) (s : Session) (m : outcome Session) (r : outcome GreenBuilder) : Prop :=
  match r with
  | Ret b => exists s', m = Ret s' /\ standing E s' b /\ (session_refs E s' <= session_refs E s + n)%nat /\ undisturbed E (store s) (store s')
  | AssertFailed site => m = AssertFailed site
  | OutOfFuel => False
  end.

Lemma addrs_app xs ys : addrs (xs ++ ys) = addrs xs ⊎ addrs ys.
Proof. unfold addrs. by rewrite map_app, list_to_set_disj_app. Qed.

Lemma addrs_none X : X ⊎ addrs [] = X.
Proof. apply gmultiset_disj_union_right_id. Qed.

Lemma addrs_one tok a : addrs [mkElem tok a] = {[+ a +]}.
Proof. unfold addrs. cbn [map]. rewrite list_to_set_disj_cons, list_to_set_disj_nil. apply gmultiset_disj_union_right_id. Qed.

Lemma elem_addrs e es : e ∈ es -> e_addr e ∈ addrs es.
Proof. intros He. apply elem_of_list_to_set_disj, list_elem_of_fmap. by exists e. Qed.

Lemma elems_move m m' es (gs : list (N * Green)) : (forall e g, e ∈ es -> stands m e g -> stands m' e g) -> Forall2 (fun e og => stands m e og.2) es gs -> Forall2 (fun e og => stands m' e og.2) es gs.
Proof.
  intros Hm H. induction H as [|e og es gs Hs H IH]; [constructor|]. constructor; [apply Hm; [left|done]|]. apply IH. intros e' g He. apply Hm. by right.
Qed.

Lemma token_simulates E s b k t : standing E s b -> N.of_nat (2 * session_refs E s) + 2 < 2 ^ 32 ->
  simulates E 2 s (counted_builder_token k t s) (Ret (green_builder_token k t b)).
Proof.
  intros [Hi Hc Hf He] Hr. unfold counted_builder_token. destruct (intern_token_ok _ _ _ k t Hi Hc) as (a & c' & st' & Ei & [Ti Tc Tk Ts Tr]); [unfold room, session_refs in *; lia|].
  rewrite Ei. cbn [obind]. cbn [e_addr] in *. rewrite <- gmultiset_disj_union_assoc, <- (addrs_one true a), <- addrs_app in Ti, Tr. eexists. split; [done|]. split_and!.
  - split; cbn; [done..|]. apply Forall2_app; [eapply Forall2_impl; [done|]; intros e og; by apply stands_grow|by repeat constructor].
  - done.
  - intros e g _. by apply stands_grow.
Qed.

Lemma finish_node_simulates E s b : standing E s b -> N.of_nat (2 * session_refs E s) + 2 < 2 ^ 32 ->
  simulates E 2 s (counted_builder_finish_node s) (green_builder_finish_node b).
Proof.
  intros [Hi Hc Hf He] Hr. unfold counted_builder_finish_node, green_builder_finish_node. rewrite Hf. destruct (parents b) as [|f ps]; [done|].
  rewrite <- (Forall2_length _ _ _ He). destruct (first_child f <=? length (elems s))%nat eqn:Hle; [|done]. apply Nat.leb_le in Hle. cbn [oassert obind]. set (n := first_child f) in *.
  pose proof (Forall2_drop _ _ _ n He) as Hd. pose proof (Forall2_take _ _ _ n He) as Ht.
  assert (Hlen : (length (drop n (elems s)) <= session_refs E s)%nat) by (unfold session_refs, refs; rewrite !gmultiset_size_disj_union, size_addrs, length_drop; lia).
  destruct (intern_node_ok _ _ _ (frame_kind f) (drop n (elems s)) _ Hi Hc ltac:(unfold room, session_refs in *; lia) Hd) as (a & c' & st1 & Ei & [Ti Tc Tk Ts Tr]).
  rewrite Ei. cbn [obind e_addr] in *.
  assert (EE : cached c' ⊎ (E ⊎ addrs (elems s) ⊎ {[+ a +]}) = cached c' ⊎ (E ⊎ addrs (take n (elems s) ++ [mkElem false a])) ⊎ addrs (drop n (elems s))).
  { rewrite <- (take_drop n (elems s)) at 1. rewrite !addrs_app, addrs_one. multiset_solver. }
  rewrite EE in Ti, Tr. destruct (release_all_ok e_addr (drop n (elems s)) st1 _ Ti) as (st2 & E2 & [Rk Ri Rr]). fold (addrs (drop n (elems s))) in Rr. rewrite E2. cbn [obind]. rewrite !hide_none in *.
  rewrite size_addrs in Rr. eexists. split; [done|].
  assert (Hlive : forall e g, e_addr e ∈ E ⊎ addrs (take n (elems s) ++ [mkElem false a]) -> stands (cells st1) e g -> stands (cells st2) e g).
  { intros e g Hin. eapply stands_shrink; [done..|]. apply (i_live _ _ Ri). by apply gmultiset_elem_of_disj_union; right. }
  split_and!.
  - split; cbn; [done|by eapply cache_shrink|done|].
    apply (elems_move (cells st1)); [|apply Forall2_app; [eapply Forall2_impl; [done|]; intros e og; by apply stands_grow|by repeat constructor]].
    intros e g Hin. apply Hlive, gmultiset_elem_of_disj_union. right. by apply elem_addrs.
  - unfold session_refs. cbn [store cache elems]. unfold session_refs in *. lia.
  - intros e g Hin Hs. apply Hlive; [by apply gmultiset_elem_of_disj_union; left|]. exact (stands_grow _ _ _ _ Tk Hs).
Qed.

Lemma op_simulates E o s b : standing E s b -> N.of_nat (2 * session_refs E s) + 2 < 2 ^ 32 -> simulates E 2 s (counted_op o s) (tree_op o b).
Proof.
  intros Hs Hr. destruct o as [k|k t| |cp k]; [|by apply token_simulates|by apply finish_node_simulates|]; destruct Hs as [Hi Hc Hf He]; cbn.
  - eexists. split; [done|]. split_and!; [|unfold session_refs, counted_builder_start_node; cbn [store cache elems]; lia|apply undisturbed_refl]. split; cbn; [done..| |done]. by rewrite Hf, (Forall2_length _ _ _ He).
  - unfold counted_builder_start_node_at, green_builder_start_node_at. rewrite <- (Forall2_length _ _ _ He). destruct (cp <=? length (elems s))%nat; [|done]. cbn.
    eexists. split; [done|]. split_and!; [|unfold session_refs, counted_builder_start_node; cbn [store cache elems]; lia|apply undisturbed_refl]. split; cbn; [done..| |done]. by rewrite Hf.
Qed.

Lemma ops_simulate E ops : forall s b, standing E s b -> N.of_nat (2 * (session_refs E s + 2 * length ops)) + 2 < 2 ^ 32 ->
  simulates E (2 * length ops) s (over counted_op ops s) (over tree_op ops b).
Proof.
  induction ops as [|o ops IH]; intros s b Hs Hr; [exists s; split_and!; [done..|lia|apply undisturbed_refl]|]. cbn [over length] in *.
  pose proof (op_simulates E o s b Hs ltac:(lia)) as Ho. destruct (tree_op o b) as [b1|site|]; cbn in Ho; [|by rewrite Ho|done]. destruct Ho as (s1 & -> & Hs1 & Hr1 & Hu1). cbn [obind].
  pose proof (IH s1 b1 Hs1 ltac:(lia)) as Hr2. destruct (over tree_op ops b1) as [b2|site|]; cbn in Hr2 |- *; [|done..]. destruct Hr2 as (s2 & -> & Hs2 & Hr2 & Hu2).
  exists s2. split; [done|]. split; [done|]. split; [lia|]. by eapply undisturbed_trans.
Qed.

(** A store with a cache and with references of others. *)
Definition good (E : gmultiset N) (c : NodeCache) (st : Store) : Prop := inv st (cached c ⊎ E) /\ cache_ok st c.

(** The counts of [n] more operations fit. *)
Definition roomy (E : gmultiset N) (c : NodeCache) (st : Store) (n : nat) : Prop := N.of_nat (2 * (refs st (cached c ⊎ E) + 2 * n)) + 2 < 2 ^ 32.

Definition builds (E : gmultiset N) (n : nat) (c : NodeCache) (st : Store) (g : Green) (a : N) (s : Session) : Prop :=
  good (E ⊎ {[+ a +]}) (cache s) (store s) /\ stands (cells (store s)) (mkElem false a) g /\ undisturbed E st (store s) /\
  frames s = [] /\ elems s = [] /\ (refs (store s) (cached (cache s) ⊎ (E ⊎ {[+ a +]})) <= refs st (cached c ⊎ E) + 2 * n)%nat.

Lemma build_simulates E c st ops : good E c st -> roomy E c st (length ops) ->
  match tree_build ops with
  | Ret (g, _) => exists a s, counted_build ops c st = Ret (a, s) /\ builds E (length ops) c st g a s
  | AssertFailed site => counted_build ops c st = AssertFailed site
  | OutOfFuel => False
  end.
Proof.
  intros [Hi Hc] Hr. assert (Hs : standing E (counted_builder_new c st) green_builder_new).
  { split; cbn [store cache frames elems counted_builder_new]; [by rewrite addrs_none|done..|constructor]. }
  assert (Hr0 : session_refs E (counted_builder_new c st) = refs st (cached c ⊎ E)).
  { unfold session_refs. cbn [store cache elems counted_builder_new]. by rewrite addrs_none. }
  pose proof (ops_simulate E ops _ _ Hs) as Ho. rewrite Hr0 in Ho. specialize (Ho Hr). unfold tree_build, counted_build.
  destruct (over tree_op ops green_builder_new) as [b|site|]; cbn in Ho |- *; [|by rewrite Ho|done]. destruct Ho as (s & -> & [Hi' Hc' Hf He] & Hr' & Hu). cbn [obind].
  unfold green_builder_finish, counted_builder_finish. rewrite Hf, <- (Forall2_length _ _ _ He). destruct (length (parents b) =? 0)%nat eqn:E1; [|done]. cbn [oassert obind].
  assert (Hr2 : (session_refs E s <= refs st (cached c ⊎ E) + 2 * length ops)%nat) by (rewrite <- Hr0; exact Hr'). unfold session_refs in Hr2. clear Hr' Hr0 Hs.
  destruct (length (elems s) =? 1)%nat eqn:E2; [|done]. cbn [oassert obind]. apply Nat.eqb_eq in E1, E2.
  destruct (elems s) as [|[tok a] [|]] eqn:Ee; try discriminate. inversion He as [|? [o g] ? gs Hg Hgs Hx Hy]. inversion Hgs. subst. cbn [snd] in *.
  destruct (stands_cell _ _ _ Hg) as (d & Hd & Et & H). cbn in Et, Hd. rewrite addrs_one in *.
  destruct g as [k n cs|k t]; destruct H as (H1 & H2); [destruct H2 as (_ & cs' & H2 & _)|]; unfold is_token in Et; rewrite H2 in Et; subst tok; [|done].
  exists a. eexists. split; [done|]. unfold builds. cbn [store cache frames elems]. split_and!; try done. by apply nil_length_inv.
Qed.

(** A build that is given up: [green_builder_destroy]. *)
Lemma builder_destroy_ok E s b : standing E s b -> exists st', counted_builder_destroy s = Ret (cache s, st') /\ good E (cache s) st' /\ undisturbed E (store s) st'.
Proof.
  intros [Hi Hc Hf He]. rewrite gmultiset_disj_union_assoc in Hi. destruct (release_all_ok e_addr (elems s) (store s) _ Hi) as (st' & E1 & [Rk Ri _]). rewrite hide_none in Ri.
  unfold counted_builder_destroy. rewrite E1. exists st'. split; [done|]. split; [split; [done|by eapply cache_shrink]|].
  intros e g Hin. eapply stands_shrink; [done..|]. apply (i_live _ _ Ri), gmultiset_elem_of_disj_union. by right.
Qed.

(** ** Many builds with one cache *)

Fixpoint tree_builds (files : list (list BuildOp)) : outcome (list Green) :=
  match files with
  | [] => Ret []
  | ops :: files => let! (g, _) := tree_build ops in let! gs := tree_builds files in Ret (g :: gs)
  end.

Fixpoint counted_builds (files : list (list BuildOp)) (c : NodeCache) (st : Store) : outcome (list N * NodeCache * Store) :=
  match files with
  | [] => Ret ([], c, st)
  | ops :: files =>
      let! (a, s) := counted_build ops c st in
      let! (roots, c, st) := counted_builds files (cache s) (store s) in
      Ret (a :: roots, c, st)
  end.

Definition root_refs (roots : list N) : gmultiset N := list_to_set_disj roots.
Definition roots_stand (st : Store) : list N -> list Green -> Prop := Forall2 (fun a g => stands (cells st) (mkElem false a) g).
Definition op_count (files : list (list BuildOp)) : nat := length (concat files).

Lemma builds_simulate files : forall E c st, good E c st -> roomy E c st (op_count files) ->
  match tree_builds files with
  | Ret gs => exists roots c' st', counted_builds files c st = Ret (roots, c', st') /\ good (E ⊎ root_refs roots) c' st' /\ roots_stand st' roots gs /\ undisturbed E st st'
  | AssertFailed site => counted_builds files c st = AssertFailed site
  | OutOfFuel => False
  end.
Proof.
  unfold op_count, roomy. induction files as [|ops files IH]; intros E c st Hg Hr.
  - exists [], c, st. unfold root_refs. rewrite list_to_set_disj_nil, gmultiset_disj_union_right_id. split_and!; [done..|constructor|apply undisturbed_refl].
  - cbn [concat tree_builds counted_builds] in *. rewrite length_app in Hr. pose proof (build_simulates E c st ops Hg ltac:(unfold roomy; lia)) as Hb.
    destruct (tree_build ops) as [[g b]|site|]; [|by rewrite Hb|done]. destruct Hb as (a & s & -> & Hg1 & Hs1 & Hu1 & _ & _ & Hr1). cbn [obind].
    pose proof (IH (E ⊎ {[+ a +]}) (cache s) (store s) Hg1 ltac:(lia)) as Hbs. destruct (tree_builds files) as [gs|site|]; [|by rewrite Hbs|done].
    destruct Hbs as (roots & c' & st' & -> & Hg2 & Hs2 & Hu2). cbn [obind]. exists (a :: roots), c', st'. split; [done|]. unfold root_refs in *. rewrite list_to_set_disj_cons, gmultiset_disj_union_assoc.
    split_and!; [done|constructor; [|done]|]; [apply Hu2; [multiset_solver|done]|]. intros e' g' Hin Hs. apply Hu2; [multiset_solver|]. by apply Hu1.
Qed.

Lemma good_new : good ∅ node_cache_new empty_store.
Proof.
  destruct cache_new_ok as [Hc Ec]. split; [|done]. rewrite Ec. assert (Hn : forall a c, cells empty_store !! a <> Some c) by (intros a c; unfold empty_store; cbn; by rewrite lookup_empty).
  split; [intros a c H| |exists (fun _ => 0%nat); intros a c e H|intros a c e H|intros a c H]; try (by destruct (Hn _ _ H)). intros a Ha. by apply gmultiset_elem_of_disj_union in Ha as [Ha%gmultiset_not_elem_of_empty|Ha%gmultiset_not_elem_of_empty].
Qed.

Lemma roomy_new n : N.of_nat (4 * n) + 2 < 2 ^ 32 -> roomy ∅ node_cache_new empty_store n.
Proof. intros H. unfold roomy. change (refs empty_store (cached node_cache_new ⊎ ∅)) with 0%nat. lia. Qed.

(** ** The end *)

Lemma release_buckets_ok m : forall st E, inv st (gather id m ⊎ E) -> exists st', release_buckets m st = Ret st' /\ inv st' E /\ keeps (cells st') (cells st).
Proof.
  unfold release_buckets, gather. induction (map_to_list m) as [|[h bs] l IH]; intros st E Hi; cbn [over flat_map] in *.
  - exists st. split; [done|]. split; [by rewrite list_to_set_disj_nil, gmultiset_disj_union_left_id in Hi|apply keeps_refl].
  - unfold id at 1 in Hi. cbn [snd] in *. rewrite list_to_set_disj_app in Hi. rewrite <- gmultiset_disj_union_assoc, gmultiset_disj_union_comm in Hi. rewrite <- (map_id bs) in Hi at 1.
    destruct (release_all_ok (fun x => x) bs st _ Hi) as (st1 & E1 & [Rk Ri _]). rewrite hide_none in Ri.
    change (over release bs st) with (over (fun x st => release x st) bs st). rewrite E1. cbn [obind]. destruct (IH st1 E Ri) as (st2 & E2 & I2 & K2). exists st2. split; [done|]. split; [done|]. by eapply keeps_trans.
Qed.

Lemma destroy_ok E c st : good E c st -> exists st', node_cache_destroy c st = Ret st' /\ inv st' E /\ undisturbed E st st'.
Proof.
  intros [Hi _]. unfold cached in Hi. rewrite <- gmultiset_disj_union_assoc in Hi. destruct (release_buckets_ok _ _ _ Hi) as (st1 & E1 & I1 & K1).
  destruct (release_buckets_ok _ _ _ I1) as (st2 & E2 & I2 & K2). unfold node_cache_destroy. rewrite E1. cbn [obind]. exists st2. split; [done|]. split; [done|].
  intros e g He. eapply stands_shrink; [done|by eapply keeps_trans|by apply (i_live _ _ I2)].
Qed.

(** A store without references from outside is empty. *)
Lemma store_emptied st : inv st ∅ -> cells st = ∅.
Proof.
  intros Hi. destruct (i_rank _ _ Hi) as [rank0 Hrank0].
  destruct (ranked_size _ _ Hrank0) as (rank & Hrank & Hlt); [intros a c e Hc He; by destruct (i_kids _ _ Hi _ _ _ Hc He) as (d & Hd & _)|].
  apply map_empty. intros a. destruct (cells st !! a) as [c|] eqn:Hc; [|done]. exfalso.
  remember (size (cells st) - rank a)%nat as n eqn:En. revert a c Hc En. induction (Nat.lt_wf_0 n) as [n _ IH]. intros a c Hc ->.
  destruct (i_count _ _ Hi _ _ Hc) as [Hn H0]. rewrite gmultiset_disj_union_left_id in Hn.
  assert (Ha : a ∈ links (cells st)) by (apply elem_of_multiplicity; lia). apply links_elem in Ha as (b & d & e & Hd & He & <-).
  pose proof (Hrank _ _ _ Hd He). pose proof (Hlt b ltac:(by eexists)). eapply (IH (size (cells st) - rank b)%nat); [lia|exact Hd|done].
Qed.

End Allocation.

End NodeCacheFacts.
