(* ===== verification/NodeCacheTheorems.v ===== *)
(** * The node cache is invisible, and nothing leaks

    The properties of the counted green tree: builds on pointers give the trees that [Builder]
    gives, equal trees share their pointer, the cache can go before the trees, and at the end
    the store is empty. *)

From stdpp Require Import gmap gmultiset.
From S2P Require Import Prelude SyntaxKind Green GreenFacts Builder NodeCache NodeCacheFacts.
Import SyntaxKind Green GreenFacts Builder NodeCache NodeCacheFacts.

Module NodeCacheTheorems.

#[local] Open Scope N_scope.

Section Properties.
Context {alloc : Allocator}.

(** ** Builds *)

(** C12: building with counted nodes from one cache is the builder on trees: whatever
    addresses the allocator picks, freed ones again among them, in any
    state of the store that other code may hold references into, the parses of several files
    end in a failed assertion where the builder on trees ends in it, and otherwise each root
    stands for the tree of its file, one reference to each root is the caller's, and all that
    others hold still stands for the same trees.  No memory is read after it was freed and no
    count overflows. *)
Theorem counted_builds_refine (E : gmultiset N) (c : NodeCache) (st : Store) (files : list (list BuildOp)) :
  good E c st -> roomy E c st (op_count files) ->
  match tree_builds files with
  | Ret gs => exists roots c' st', counted_builds files c st = Ret (roots, c', st') /\ good (E ⊎ root_refs roots) c' st' /\ roots_stand st' roots gs /\ undisturbed E st st'
  | AssertFailed site => counted_builds files c st = AssertFailed site
  | OutOfFuel => False
  end.
Proof. apply builds_simulate. Qed.

(** ** Sharing *)

(** No node has more children than the cache takes. *)
Fixpoint narrow (g : Green) : Prop :=
  match g with
  | GreenToken _ _ => True
  | GreenNode _ _ cs => N.of_nat (length cs) <= ORE_NODE_DEDUP_MAX_CHILDREN /\ fold_right (fun c acc => narrow c.2 /\ acc) True cs
  end.

Lemma shared_pointer E c st : good E c st -> forall g e1 e2, narrow g -> stands (cells st) e1 g -> stands (cells st) e2 g -> e1 = e2.
Proof.
  intros [Hi Hc] g. induction g as [k t|k n gs IH] using green_rect_elems; intros e1 e2 Hg H1 H2;
    destruct (stands_cell _ _ _ H1) as (d1 & Hd1 & T1 & K1), (stands_cell _ _ _ H2) as (d2 & Hd2 & T2 & K2).
  - destruct K1 as [K1 P1], K2 as [K2 P2]. assert (Ek : key d1 = key d2) by (unfold key; by rewrite K1, K2, P1, P2).
    assert (Hs : shared d1) by (unfold shared; by rewrite P1). pose proof (k_one _ _ Hc _ _ _ _ Hd1 Hd2 Hs Ek). rewrite (key_token _ _ Ek) in T1. destruct e1, e2; cbn in *; congruence.
  - destruct K1 as (K1 & _ & cs1 & P1 & S1), K2 as (K2 & _ & cs2 & P2 & S2). destruct Hg as [Hw Hn].
    assert (Em : map snd cs1 = map snd cs2).
    { clear -IH Hn S1 S2. revert cs2 S2. induction S1 as [|[o1 e1] [o g] cs1 gs [_ H1] S1 IHs]; intros cs2 S2; inversion S2 as [|[o2 e2] ? cs2' ? [_ H2] S2']; subst; [done|].
      apply Forall_cons in IH as [I1 I2]. destruct Hn as [N1 N2]. cbn in *. rewrite (I1 e1 e2 N1 H1 H2). f_equal. by apply IHs. }
    assert (Ek : key d1 = key d2) by (unfold key; by rewrite K1, K2, P1, P2, Em).
    assert (Hs : shared d1) by (unfold shared; rewrite P1; cbn; by rewrite (Forall2_length _ _ _ S1)).
    pose proof (k_one _ _ Hc _ _ _ _ Hd1 Hd2 Hs Ek). rewrite (key_token _ _ Ek) in T1. destruct e1, e2; cbn in *; congruence.
Qed.

(** C14: equality of trees is equality of pointers: after any builds with one cache, two
    pointers into the store, from whatever builds, are equal exactly when the trees they stand
    for are, as far as no node of them has more children than [ORE_NODE_DEDUP_MAX_CHILDREN]. *)
Theorem equal_trees_share (E : gmultiset N) (c0 : NodeCache) (st0 : Store) (files : list (list BuildOp)) (roots : list N) (c : NodeCache) (st : Store) (e1 e2 : Elem) (g1 g2 : Green) :
  good E c0 st0 -> roomy E c0 st0 (op_count files) -> counted_builds files c0 st0 = Ret (roots, c, st) ->
  stands (cells st) e1 g1 -> stands (cells st) e2 g2 -> narrow g1 -> e1 = e2 <-> g1 = g2.
Proof.
  intros Hg Hr Eb H1 H2 Hn. pose proof (builds_simulate files E c0 st0 Hg Hr) as Hb. destruct (tree_builds files); [|congruence|done].
  destruct Hb as (roots' & c' & st' & Eb' & Hg' & _). rewrite Eb in Eb'. injection Eb' as <- <- <-. split; intros <-; [by eapply stands_det|by eapply shared_pointer].
Qed.

(** ** The end *)

(** C13: nothing leaks and nothing is freed early: after any successful parses from an
    empty store, the cache can be destroyed while the roots are in use, they stand for the same
    trees, and releasing them leaves no allocation; neither runs into the double-release
    assertion. *)
Theorem nothing_leaks (files : list (list BuildOp)) (gs : list Green) :
  tree_builds files = Ret gs -> N.of_nat (4 * op_count files) + 2 < 2 ^ 32 ->
  exists roots c st st1 st2,
    counted_builds files node_cache_new empty_store = Ret (roots, c, st) /\
    node_cache_destroy c st = Ret st1 /\ roots_stand st1 roots gs /\
    over release roots st1 = Ret st2 /\ cells st2 = ∅.
Proof.
  intros Ht Hr. pose proof (builds_simulate files ∅ node_cache_new empty_store good_new (roomy_new _ Hr)) as H. rewrite Ht in H.
  destruct H as (roots & c & st & E1 & Hg & Hs & _). rewrite gmultiset_disj_union_left_id in Hg. destruct (destroy_ok _ _ _ Hg) as (st1 & E2 & I1 & U1).
  rewrite <- (gmultiset_disj_union_left_id (root_refs roots)) in I1. unfold root_refs in *. rewrite <- (map_id roots) in I1.
  destruct (release_all_ok (fun x => x) roots st1 ∅ I1) as (st2 & E3 & [_ I2 _]). rewrite hide_none in I2. exists roots, c, st, st1, st2. split_and!; [done..| |exact E3|by apply store_emptied].
  assert (Hin : Forall (fun a => a ∈ (list_to_set_disj roots : gmultiset N)) roots) by (apply Forall_forall; intros a; by rewrite elem_of_list_to_set_disj).
  unfold roots_stand in *. clear -Hs Hin U1. revert Hin U1. generalize (list_to_set_disj roots : gmultiset N) as X. intros X Hin U1.
  induction Hs as [|a g roots gs Ha Hs IH]; [constructor|]. apply Forall_cons in Hin as [H1 H2]. constructor; [by apply U1|by apply IH].
Qed.

(** ** The structural hash *)

(** What [green_structural_hash] folds: the kinds of the nodes and the tokens that are not
    trivia, in document order; where a node ends is not among it. *)
Fixpoint hash_items (g : Green) : list (OreSyntaxKind + OreSyntaxKind * list byte) :=
  match g with
  | GreenToken k t => if ore_kind_is_trivia k then [] else [inr (k, t)]
  | GreenNode k _ cs => inl k :: concat (map (fun c => hash_items c.2) cs)
  end.

(** An item enters as a number, a token as its address. *)
Definition item_code (m : gmap N Cell) (i : OreSyntaxKind + OreSyntaxKind * list byte) (v : N) : Prop :=
  match i with
  | inl k => v = kind_code k
  | inr (k, t) => stands m (mkElem true v) (GreenToken k t)
  end.

Lemma structural_rec_ok st E rank : inv st E -> ranked (cells st) rank -> forall fuel a g, (rank a < fuel)%nat -> stands (cells st) (mkElem false a) g ->
  exists vs, Forall2 (item_code (cells st)) (hash_items g) vs /\ forall h, green_structural_hash_rec fuel st a h = Ret (foldl fxhash_u64 h vs).
Proof.
  intros Hi Hrank. induction fuel as [|fuel IH]; intros a g Hf Hs; [lia|]. destruct (stands_cell _ _ _ Hs) as (d & Hd & Ht & H). cbn in Hd, Ht.
  destruct g as [k n gs|k t]; [|destruct H as [_ P]; unfold is_token in Ht; by rewrite P in Ht]. destruct H as (<- & _ & cs & P & Hss).
  assert (Hk : forall e, e ∈ map snd cs -> (rank (e_addr e) < fuel)%nat).
  { intros e He. assert (rank (e_addr e) < rank a)%nat by (apply (Hrank _ _ e Hd); by rewrite P). lia. }
  cbn [green_structural_hash_rec]. unfold cell_at at 1. rewrite Hd. cbn [obind]. rewrite P. cbn [payload_children]. set (f := fun (oc : N * Elem) h => _).
  assert (exists vs, Forall2 (item_code (cells st)) (concat (map (fun c => hash_items c.2) gs)) vs /\ forall h, over f cs h = Ret (foldl fxhash_u64 h vs)) as (vs & Hv & Hh).
  { clear Hs P. induction Hss as [|[o e] [o' g] cs gs [_ He] Hss IHs]; [by exists []|].
    destruct IHs as (vs & Hv & Hh); [intros e' He'; apply Hk; by right|]. cbn [fst snd] in *.
    assert (exists us, Forall2 (item_code (cells st)) (hash_items g) us /\ forall h, f (o, e) h = Ret (foldl fxhash_u64 h us)) as (us & Hu & Hg).
    { specialize (Hk e ltac:(left)). destruct (stands_cell _ _ _ He) as (d' & Hd' & Ht' & H'). destruct e as [tok b]. unfold f. cbn [fst snd e_token e_addr] in *. destruct g as [k n0 gs0|k t].
      - destruct H' as (_ & _ & cs' & P' & _). assert (tok = false) as -> by (rewrite Ht'; unfold is_token; by rewrite P'). by apply IH.
      - destruct H' as [Ek P']. assert (tok = true) as -> by (rewrite Ht'; unfold is_token; by rewrite P'). unfold cell_at. rewrite Hd'. cbn [obind]. rewrite Ek. cbn [hash_items].
        destruct (ore_kind_is_trivia k); [by exists []|]. exists [b]. by repeat constructor. }
    exists (us ++ vs). split; [by apply Forall2_app|]. intros h. cbn [over]. rewrite Hg. cbn [obind]. by rewrite Hh, foldl_app. }
  exists (kind_code (c_kind d) :: vs). split; [by constructor|]. intros h. by rewrite Hh.
Qed.

Lemma codes_same E c st items : good E c st -> forall vs1 vs2, Forall2 (item_code (cells st)) items vs1 -> Forall2 (item_code (cells st)) items vs2 -> vs1 = vs2.
Proof.
  intros Hg. induction items as [|i items IH]; intros vs1 vs2 V1 V2; inversion V1 as [|? v1 ? vs1' Hv1 V1']; inversion V2 as [|? v2 ? vs2' Hv2 V2']; subst; [done|].
  f_equal; [|by apply IH]. destruct i as [k| [k t] ]; cbn in Hv1, Hv2; [congruence|]. by injection (shared_pointer _ _ _ Hg (GreenToken k t) _ _ I Hv1 Hv2).
Qed.

Lemma structural_hash_ok st E a g : inv st E -> stands (cells st) (mkElem false a) g ->
  exists vs, Forall2 (item_code (cells st)) (hash_items g) vs /\ green_structural_hash a st = Ret (foldl fxhash_u64 FXHASH_SEED vs).
Proof.
  intros Hi Hs. destruct (i_rank _ _ Hi) as [rank0 Hr0].
  destruct (ranked_size _ _ Hr0) as (rank & Hr & Hlt); [intros b c e Hc He; by destruct (i_kids _ _ Hi _ _ _ Hc He) as (d & Hd & _)|].
  destruct (stands_cell _ _ _ Hs) as (c & Hc & _). destruct (structural_rec_ok _ _ rank Hi Hr (S (size (cells st))) a g) as (vs & Hv & Hh); [|done|].
  - pose proof (Hlt a ltac:(by eexists)). lia.
  - exists vs. split; [done|]. apply Hh.
Qed.

(** C34: the structural hash does not see trivia: nodes whose kinds and tokens agree but
    for whitespace, newlines and comments have the same hash, wherever they were parsed, so an
    edit of trivia does not change the fingerprint of a declaration. *)
Theorem structural_hash_skips_trivia (E : gmultiset N) (c : NodeCache) (st : Store) (a1 a2 : N) (g1 g2 : Green) :
  good E c st -> stands (cells st) (mkElem false a1) g1 -> stands (cells st) (mkElem false a2) g2 -> hash_items g1 = hash_items g2 ->
  exists h, green_structural_hash a1 st = Ret h /\ green_structural_hash a2 st = Ret h.
Proof.
  intros Hg H1 H2 Ei. pose proof Hg as [Hi _].
  destruct (structural_hash_ok _ _ _ _ Hi H1) as (vs1 & V1 & E1), (structural_hash_ok _ _ _ _ Hi H2) as (vs2 & V2 & E2).
  rewrite <- Ei in V2. rewrite (codes_same _ _ _ _ Hg _ _ V2 V1) in E2. rewrite E1, E2. by eexists.
Qed.

End Properties.

(** ** Instances *)

(** The allocator of the instances: some address that is free, so one that was given back is
    given out again. *)
#[local] Instance free_addresses : Allocator := {
  pick n m := fresh (dom m);
  pick_fresh n m := proj1 (not_elem_of_dom m _) (is_fresh (dom m))
}.

Example address_again : let (a, st) := malloc (mkCell SK_PLUS 1 1 0 (PToken (bs "+"))) empty_store in
  (malloc (mkCell SK_IDENT 1 1 0 (PToken (bs "a"))) (free a st)).1 = a.
Proof. vm_compute. reflexivity. Qed.

(** [a + 1;] as it is parsed, the same text twice and once without its blanks. *)
Definition blank : BuildOp := OpToken SK_WHITESPACE (bs " ").

Definition sample_file (gap : list BuildOp) : list BuildOp :=
  [OpStart SK_SOURCE_FILE; OpStart SK_BIN_EXPR; OpToken SK_IDENT (bs "a")] ++ gap ++ [OpToken SK_PLUS (bs "+")] ++ gap ++
  [OpToken SK_INT_LIT (bs "1"); OpFinish; OpToken SK_SEMI (bs ";"); OpFinish].

Definition sample_files : list (list BuildOp) := [sample_file [blank]; sample_file [blank]; sample_file []].

Definition sample_trees : list Green := Eval vm_compute in match tree_builds sample_files with Ret gs => gs | _ => [] end.

Lemma sample_built : tree_builds sample_files = Ret sample_trees.
Proof. reflexivity. Qed.

Lemma sample_files_fit : N.of_nat (4 * op_count sample_files) + 2 < 2 ^ 32.
Proof. by vm_compute. Qed.

(** The store after these builds. *)
Lemma sample_store : exists a1 a2 a3 c st g1 g2, counted_builds sample_files node_cache_new empty_store = Ret ([a1; a2; a3], c, st) /\ sample_trees = [g1; g1; g2] /\
  good (root_refs [a1; a2; a3]) c st /\ stands (cells st) (mkElem false a1) g1 /\ stands (cells st) (mkElem false a2) g1 /\ stands (cells st) (mkElem false a3) g2 /\ narrow g1 /\ hash_items g1 = hash_items g2.
Proof.
  pose proof (builds_simulate sample_files ∅ node_cache_new empty_store good_new (roomy_new _ sample_files_fit)) as H. rewrite sample_built in H. destruct H as (roots & c & st & E1 & Hg & Hs & _).
  rewrite gmultiset_disj_union_left_id in Hg. unfold roots_stand, sample_trees in Hs. inversion Hs as [|a1 g1 r1 gs1 H1 Hs1]; subst. inversion Hs1 as [|a2 g2 r2 gs2 H2 Hs2]; subst. inversion Hs2 as [|a3 g3 r3 gs3 H3 Hs3]; subst. inversion Hs3; subst.
  eexists a1, a2, a3, c, st, _, _. split; [exact E1|]. split; [reflexivity|]. split; [exact Hg|]. split; [exact H1|]. split; [exact H2|]. split; [exact H3|]. split; [repeat split; discriminate|reflexivity].
Qed.

Lemma counted_builds_refine_witness :
  match tree_builds sample_files with
  | Ret gs => exists roots c' st', counted_builds sample_files node_cache_new empty_store = Ret (roots, c', st') /\ good (∅ ⊎ root_refs roots) c' st' /\ roots_stand st' roots gs /\ undisturbed ∅ empty_store st'
  | AssertFailed site => counted_builds sample_files node_cache_new empty_store = AssertFailed site
  | OutOfFuel => False
  end.
Proof. exact (counted_builds_refine ∅ node_cache_new empty_store sample_files good_new (roomy_new _ sample_files_fit)). Defined.

Lemma equal_trees_share_witness :
  exists a1 a2 a3 c st, counted_builds sample_files node_cache_new empty_store = Ret ([a1; a2; a3], c, st) /\ a1 = a2 /\ a1 <> a3.
Proof.
  destruct sample_store as (a1 & a2 & a3 & c & st & g1 & g2 & E1 & Es & Hg & H1 & H2 & H3 & Hn & _). exists a1, a2, a3, c, st. split; [exact E1|].
  pose proof (equal_trees_share _ _ _ _ _ _ _ _ _ _ _ good_new (roomy_new _ sample_files_fit) E1 H1 H2 Hn) as Hs.
  pose proof (equal_trees_share _ _ _ _ _ _ _ _ _ _ _ good_new (roomy_new _ sample_files_fit) E1 H1 H3 Hn) as Hd. split.
  - by injection (proj2 Hs eq_refl).
  - intros ->. assert (Eg : g1 = g2) by (by apply Hd). subst g2. assert (Hw : map green_text_len sample_trees = [6; 6; 4]) by reflexivity. rewrite Es in Hw. injection Hw as Hw _ Hw'. congruence.
Defined.

Lemma nothing_leaks_witness :
  exists roots c st st1 st2,
    counted_builds sample_files node_cache_new empty_store = Ret (roots, c, st) /\
    node_cache_destroy c st = Ret st1 /\ roots_stand st1 roots sample_trees /\
    over release roots st1 = Ret st2 /\ cells st2 = ∅.
Proof. exact (nothing_leaks sample_files sample_trees sample_built sample_files_fit). Defined.

Lemma structural_hash_skips_trivia_witness :
  exists a1 a2 a3 c st h, counted_builds sample_files node_cache_new empty_store = Ret ([a1; a2; a3], c, st) /\ green_structural_hash a1 st = Ret h /\ green_structural_hash a3 st = Ret h.
Proof.
  destruct sample_store as (a1 & a2 & a3 & c & st & g1 & g2 & E1 & _ & Hg & H1 & _ & H3 & _ & Ei). destruct (structural_hash_skips_trivia _ c st a1 a3 g1 g2 Hg H1 H3 Ei) as (h & Eh1 & Eh3).
  exists a1, a2, a3, c, st, h. split; [exact E1|]. by split.
Defined.

End NodeCacheTheorems.
