(* ===== verification/Sll.v ===== *)
(** * The sorted sibling ring: [src/src/syntax/sll.c]

    An intrusive circular list, doubly linked and ascending in its keys.  The links live in
    the elements: the store [Slls] maps the address of an element to its [SllNode].  A head
    slot, [SllNode **] in the code, is passed as its value and returned when it changes. *)

From stdpp Require Import gmap.
From S2P Require Import Prelude.

Module Sll.

#[local] Open Scope N_scope.

Abbreviation ptr := N.

Record SllNode : Type := mkSll { prev : ptr; next : ptr; key : N }.

Abbreviation Slls := (gmap ptr SllNode).

Definition set_prev (q : ptr) (n : SllNode) : SllNode := mkSll q (next n) (key n).
Definition set_next (q : ptr) (n : SllNode) : SllNode := mkSll (prev n) q (key n).
Definition set_key (k : N) (n : SllNode) : SllNode := mkSll (prev n) (next n) k.

Definition sll_at (m : Slls) (p : ptr) : outcome SllNode :=
  match m !! p with Some n => Ret n | None => AssertFailed "dangling pointer" end.

Definition sll_update (f : SllNode -> SllNode) (p : ptr) (m : Slls) : outcome Slls :=
  let! n := sll_at m p in Ret (<[p := f n]> m).

(** [SllAddResult]: the kind with the fields that are valid for it; the head slot is that of
    the call. *)
Inductive SllAddResult : Set :=
  | SLL_ADD_EMPTY_HEAD
  | SLL_ADD_SMALLER_THAN_HEAD
  | SLL_ADD_SMALLER_THAN_NOT_HEAD (curr : ptr)
  | SLL_ADD_ALREADY_IN_SLL (curr : ptr).

(** The walk backwards from the largest element. *)
Fixpoint link_back (fuel : nat) (m : Slls) (k : N) (curr : ptr) : outcome SllAddResult :=
  match fuel with
  | O => OutOfFuel
  | S fuel =>
      let! n := sll_at m curr in
      if key n <? k then Ret (SLL_ADD_SMALLER_THAN_NOT_HEAD curr)
      else if key n =? k then Ret (SLL_ADD_ALREADY_IN_SLL curr)
      else link_back fuel m k (prev n)
  end.

(** [sll_link], for an element of key [k]. *)
Definition sll_link (m : Slls) (head : option ptr) (k : N) : outcome SllAddResult :=
  match head with
  | None => Ret SLL_ADD_EMPTY_HEAD
  | Some old_head =>
      let! h := sll_at m old_head in
      if k <? key h then Ret SLL_ADD_SMALLER_THAN_HEAD
      else link_back (S (size m)) m k (prev h)
  end.

Definition self_link (elem : ptr) (m : Slls) : outcome Slls :=
  let! m := sll_update (set_prev elem) elem m in sll_update (set_next elem) elem m.

Definition sll_add (m : Slls) (head : option ptr) (res : SllAddResult) (elem : ptr)
    : outcome (option ptr * Slls) :=
  let! m := self_link elem m in
  match res with
  | SLL_ADD_EMPTY_HEAD => Ret (Some elem, m)
  | SLL_ADD_SMALLER_THAN_HEAD =>
      match head with
      | None => AssertFailed "dangling pointer"
      | Some old_head =>
          let! h := sll_at m old_head in
          let prev_of_head := prev h in
          let! m := sll_update (set_prev prev_of_head) elem m in
          let! m := sll_update (set_next old_head) elem m in
          let! m := sll_update (set_next elem) prev_of_head m in
          let! m := sll_update (set_prev elem) old_head m in
          Ret (Some elem, m)
      end
  | SLL_ADD_SMALLER_THAN_NOT_HEAD curr =>
      let! c := sll_at m curr in
      let nxt := next c in
      let! m := sll_update (set_prev curr) elem m in
      let! m := sll_update (set_next nxt) elem m in
      let! m := sll_update (set_next elem) curr m in
      let! m := sll_update (set_prev elem) nxt m in
      Ret (head, m)
  | SLL_ADD_ALREADY_IN_SLL _ => Ret (head, m)
  end.

(** [sll_init]. *)
Definition sll_init (m : Slls) (head : option ptr) (elem : ptr) : outcome (SllAddResult * option ptr * Slls) :=
  let! e := sll_at m elem in
  let! r := sll_link m head (key e) in
  let! (head, m) := sll_add m head r elem in
  Ret (r, head, m).

Definition sll_unlink (m : Slls) (head : option ptr) (elem : ptr) : outcome (option ptr * Slls) :=
  match head with
  | None => AssertFailed "sll_unlink: ring is empty"
  | Some hd =>
      let! e := sll_at m elem in
      let prv := prev e in
      let nxt := next e in
      let! m := self_link elem m in
      if prv =? elem then
        let! _ := oassert (nxt =? elem) "next == elem" in
        let! _ := oassert (hd =? elem) "*head == elem" in
        Ret (None, m)
      else
        let! pn := sll_at m prv in
        let! _ := oassert (next pn =? elem) "sll_unlink: corrupt ring (prev->next)" in
        let! nn := sll_at m nxt in
        let! _ := oassert (prev nn =? elem) "sll_unlink: corrupt ring (next->prev)" in
        let! m := sll_update (set_next nxt) prv m in
        let! m := sll_update (set_prev prv) nxt m in
        Ret (Some (if hd =? elem then nxt else hd), m)
  end.

(** The [do .. while] loop, from [curr] until [elem] comes round again. *)
Fixpoint adjust_loop (fuel : nat) (m : Slls) (elem curr : ptr) (from : N) (delta : Z) : outcome Slls :=
  match fuel with
  | O => OutOfFuel
  | S fuel =>
      let! n := sll_at m curr in
      let! m :=
        if from <=? key n then
          let k := (Z.of_N (key n) + delta)%Z in
          let! _ := oassert (0 <=? k)%Z "sll_adjust: key would underflow" in
          sll_update (set_key (u32 (Z.to_N k))) curr m
        else Ret m in
      if next n =? elem then Ret m else adjust_loop fuel m elem (next n) from delta
  end.

Definition sll_adjust (m : Slls) (elem : ptr) (from : N) (delta : Z) : outcome Slls :=
  adjust_loop (S (size m)) m elem elem from delta.

End Sll.
