(* ===== verification/SllFacts.v ===== *)
(** * The sibling ring: its invariant and its operations

    [wired m head s]: from [head] the links of [m] run once through the elements of [s], in
    both directions, and the keys are those of [s]; [ring_rep] adds that they ascend. *)

From stdpp Require Import gmap sorting.
From S2P Require Import Prelude Sll.

Import Sll.

Module SllFacts.

#[local] Open Scope N_scope.

Implicit Types (m : Slls) (p q x : ptr) (f : SllNode -> SllNode) (s : list (N * ptr)).

(** ** The three fields *)

Definition nx (m : Slls) (p : ptr) : option ptr := next <$> m !! p.
Definition pv (m : Slls) (p : ptr) : option ptr := prev <$> m !! p.
Definition ky (m : Slls) (p : ptr) : option N := key <$> m !! p.

Lemma update_ok f p m : is_Some (m !! p) -> sll_update f p m = Ret (alter f p m).
Proof.
  intros [n Hn]. unfold sll_update, sll_at. rewrite Hn. cbn [obind]. f_equal.
  apply map_eq. intros q. destruct (decide (q = p)) as [->|Hne].
  - by rewrite lookup_insert_eq, lookup_alter_eq, Hn.
  - by rewrite lookup_insert_ne, lookup_alter_ne.
Qed.

Lemma alter_live f p m q : is_Some (alter f p m !! q) <-> is_Some (m !! q).
Proof. apply lookup_alter_is_Some. Qed.

(** A field after the update of a node, by the field it updates. *)
Lemma field_alter {A} (get : SllNode -> A) f p m q :
  get <$> alter f p m !! q = if decide (q = p) then (fun n => get (f n)) <$> m !! q else get <$> m !! q.
Proof.
  destruct (decide (q = p)) as [->|Hne]; [|by rewrite lookup_alter_ne].
  rewrite lookup_alter_eq. by destruct (m !! p).
Qed.

Lemma live_field {A} (get : SllNode -> A) m p : is_Some (m !! p) <-> exists y : A, get <$> m !! p = Some y.
Proof. split; [intros [n ->]; by exists (get n)|intros [y (n & -> & _)%fmap_Some]; by eexists]. Qed.

Lemma nx_set_next q p m x : is_Some (m !! p) -> nx (alter (set_next q) p m) x = if decide (x = p) then Some q else nx m x.
Proof. intros [n Hn]. unfold nx. rewrite field_alter. destruct (decide (x = p)) as [->|]; [by rewrite Hn|done]. Qed.
Lemma nx_set_prev q p m x : nx (alter (set_prev q) p m) x = nx m x.
Proof. unfold nx. rewrite field_alter. by destruct (decide (x = p)). Qed.
Lemma nx_set_key q p m x : nx (alter (set_key q) p m) x = nx m x.
Proof. unfold nx. rewrite field_alter. by destruct (decide (x = p)). Qed.
Lemma pv_set_prev q p m x : is_Some (m !! p) -> pv (alter (set_prev q) p m) x = if decide (x = p) then Some q else pv m x.
Proof. intros [n Hn]. unfold pv. rewrite field_alter. destruct (decide (x = p)) as [->|]; [by rewrite Hn|done]. Qed.
Lemma pv_set_next q p m x : pv (alter (set_next q) p m) x = pv m x.
Proof. unfold pv. rewrite field_alter. by destruct (decide (x = p)). Qed.
Lemma pv_set_key q p m x : pv (alter (set_key q) p m) x = pv m x.
Proof. unfold pv. rewrite field_alter. by destruct (decide (x = p)). Qed.
Lemma ky_set_prev q p m x : ky (alter (set_prev q) p m) x = ky m x.
Proof. unfold ky. rewrite field_alter. by destruct (decide (x = p)). Qed.
Lemma ky_set_next q p m x : ky (alter (set_next q) p m) x = ky m x.
Proof. unfold ky. rewrite field_alter. by destruct (decide (x = p)). Qed.
Lemma ky_set_key q p m x : is_Some (m !! p) -> ky (alter (set_key q) p m) x = if decide (x = p) then Some q else ky m x.
Proof. intros [n Hn]. unfold ky. rewrite field_alter. destruct (decide (x = p)) as [->|]; [by rewrite Hn|done]. Qed.

Create Rewrite HintDb sll.
#[export] Hint Rewrite nx_set_prev nx_set_key pv_set_next pv_set_key ky_set_prev ky_set_next : sll.
#[export] Hint Rewrite nx_set_next pv_set_prev ky_set_key using (rewrite ?alter_live; done) : sll.

(** ** Chains and rings *)

Definition link (m : Slls) (a b : ptr) : Prop := nx m a = Some b /\ pv m b = Some a.

Fixpoint chain (m : Slls) (a : ptr) (l : list ptr) : Prop :=
  match l with [] => True | b :: l => link m a b /\ chain m b l end.

Definition ring (m : Slls) (l : list ptr) : Prop :=
  match l with [] => True | a :: l' => chain m a l' /\ link m (List.last l' a) a end.

Lemma tail_cons {A} (c : A) l a : List.last (c :: l) a = List.last l c.
Proof. revert a c. induction l as [|d l IH]; intros a c; [done|]. change (List.last (d :: l) a = List.last (d :: l) c). by rewrite !IH. Qed.

Lemma chain_app m a l1 b l2 : chain m a (l1 ++ b :: l2) <-> chain m a l1 /\ link m (List.last l1 a) b /\ chain m b l2.
Proof.
  revert a. induction l1 as [|c l1 IH]; intros a; cbn [app chain].
  - tauto.
  - rewrite IH. rewrite (tail_cons c l1 a). tauto.
Qed.

Lemma tail_app {A} (l1 : list A) b l2 a : List.last (l1 ++ b :: l2) a = List.last l2 b.
Proof. revert a. induction l1 as [|c l1 IH]; intros a; cbn [app]; by rewrite tail_cons, ?IH. Qed.

Lemma ring_rotate m l1 l2 : ring m (l1 ++ l2) -> ring m (l2 ++ l1).
Proof.
  destruct l1 as [|a l1], l2 as [|b l2]; rewrite ?app_nil_r; try done.
  cbn [app ring]. rewrite !chain_app, !tail_app. tauto.
Qed.

Lemma ring_live m l p : ring m l -> p ∈ l -> is_Some (nx m p) /\ is_Some (pv m p).
Proof.
  intros Hr (l1 & l2 & ->)%list_elem_of_split. apply ring_rotate in Hr. cbn [app ring] in Hr. destruct Hr as [Hc [Hn Hp]].
  rewrite Hp. split; [|done]. destruct (l2 ++ l1) as [|b l]; cbn [List.last chain] in *; [by rewrite Hn|].
  destruct Hc as [[-> _] _]. done.
Qed.

(** Links are kept by what leaves these two fields of the elements alone. *)
Lemma chain_keep m m' a l : chain m a l ->
  (forall x, x ∈ removelast (a :: l) -> nx m' x = nx m x) -> (forall x, x ∈ l -> pv m' x = pv m x) -> chain m' a l.
Proof.
  revert a. induction l as [|b l IH]; intros a; [done|]. intros [[Hn Hp] Hc] Hnx Hpv. split.
  - split; [rewrite Hnx|rewrite Hpv]; [done|set_solver|done|set_solver].
  - apply IH; [done| |]; intros x Hx; [apply Hnx|apply Hpv]; [|set_solver]. change (x ∈ a :: removelast (b :: l)). set_solver.
Qed.

Lemma ring_keep m m' l : ring m l -> (forall x, x ∈ l -> nx m' x = nx m x /\ pv m' x = pv m x) -> ring m' l.
Proof.
  destruct l as [|a l]; [done|]. intros [Hc [Hn Hp]] H. split.
  - eapply chain_keep; [exact Hc| |]; intros x Hx; apply H; [|set_solver].
    clear -Hx. revert a Hx. induction l as [|b l IH]; intros a; cbn [removelast]; [set_solver|].
    intros [->|Hx]%elem_of_cons; [set_solver|]. specialize (IH b Hx). set_solver.
  - assert (Hl : List.last l a ∈ a :: l).
    { clear. revert a. induction l as [|b l IH]; intros a; [set_solver|]. rewrite tail_cons. specialize (IH b). set_solver. }
    split; [rewrite (proj1 (H _ Hl))|rewrite (proj2 (H a ltac:(set_solver)))]; done.
Qed.

(** ** The representation *)

Definition first_of s : option ptr := snd <$> head s.

Definition wired m (hd : option ptr) s : Prop :=
  hd = first_of s /\ ring m s.*2 /\ Forall (fun e => ky m e.2 = Some e.1) s /\ NoDup s.*2.

Definition ring_rep m (hd : option ptr) s : Prop := wired m hd s /\ StronglySorted N.lt s.*1.

Lemma ky_live m p k : ky m p = Some k -> exists n, m !! p = Some n /\ key n = k.
Proof. intros (n & -> & ->)%fmap_Some. by exists n. Qed.

Lemma wired_key m hd s1 k p s2 : wired m hd (s1 ++ (k, p) :: s2) -> exists n, m !! p = Some n /\ key n = k.
Proof. intros (_ & _ & Hk & _). apply Forall_app in Hk as [_ Hk]. inversion Hk; subst. by apply ky_live. Qed.

Lemma wired_length m hd s : wired m hd s -> (length s <= size m)%nat.
Proof.
  intros (_ & _ & Hk & Hnd). rewrite <- (length_fmap snd s), <- (size_dom m), <- (size_list_to_set (C := gset ptr) _ Hnd).
  apply subseteq_size. intros p (e & -> & He)%elem_of_list_to_set%list_elem_of_fmap.
  rewrite Forall_forall in Hk. apply elem_of_dom. destruct (ky_live _ _ _ (Hk e He)) as (n & -> & _). done.
Qed.

(** Two neighbours of the ring. *)
Lemma wired_link m hd s1 e1 e2 s2 : wired m hd (s1 ++ e1 :: e2 :: s2) -> link m e1.2 e2.2.
Proof.
  intros (_ & Hr & _). rewrite fmap_app in Hr. cbn [fmap list_fmap] in Hr. apply ring_rotate in Hr.
  cbn [app ring chain] in Hr. tauto.
Qed.

(** The neighbours at the ends. *)
Lemma wired_ends m hd e s e' : wired m hd (e :: s) -> last (e :: s) = Some e' -> link m e'.2 e.2.
Proof.
  intros (_ & [_ Hr] & _) Hl. apply last_Some in Hl as [s' Hs].
  assert (List.last s.*2 e.2 = e'.2) as <-; [|done].
  destruct s as [|e1 s]; [destruct s' as [|? [|]]; by simplify_eq/=|]. destruct s' as [|e0 s']; [by simplify_eq/=|].
  injection Hs as <- Hs. rewrite Hs, fmap_app. cbn. apply List.last_last.
Qed.

(** ** Finding the place *)

Definition place (s s1 : list (N * ptr)) : SllAddResult :=
  match s, last s1 with
  | [], _ => SLL_ADD_EMPTY_HEAD
  | _, None => SLL_ADD_SMALLER_THAN_HEAD
  | _, Some e => SLL_ADD_SMALLER_THAN_NOT_HEAD e.2
  end.

(** The walk passes the elements above the key. *)
Lemma link_back_skip m hd k s1 e s2 e' fuel : wired m hd (s1 ++ e :: s2) -> Forall (fun e => k < e.1) s2 ->
  last (e :: s2) = Some e' -> link_back (length s2 + fuel) m k e'.2 = link_back fuel m k e.2.
Proof.
  revert s1 e fuel. induction s2 as [|e2 s2 IH]; intros s1 e fuel Hw Hlt Hl; [by injection Hl as <-|].
  inversion Hlt as [|? ? H2 Hlt']; subst. cbn [length Nat.add]. replace (S (length s2 + fuel))%nat with (length s2 + S fuel)%nat by lia.
  rewrite (IH (s1 ++ [e]) e2); [|by rewrite <- app_assoc|done|by rewrite <- Hl].
  cbn [link_back]. destruct (wired_link _ _ _ _ _ _ Hw) as [_ Hp].
  destruct e2 as [k2 p2]. destruct (wired_key m hd (s1 ++ [e]) k2 p2 s2) as (n & Hn & Hk2); [by rewrite <- app_assoc|].
  unfold sll_at. cbn [snd] in *. rewrite Hn. cbn [obind]. unfold pv in Hp. rewrite Hn in Hp. injection Hp as ->. cbn [fst] in *.
  rewrite Hk2, (proj2 (N.ltb_ge _ _)), (proj2 (N.eqb_neq _ _)) by lia. done.
Qed.

(** One step of the walk, at the last element below the key or at the key itself. *)
Lemma link_back_at m hd k s1 k0 p0 s2 fuel : wired m hd (s1 ++ (k0, p0) :: s2) ->
  link_back (S fuel) m k p0 = if k0 <? k then Ret (SLL_ADD_SMALLER_THAN_NOT_HEAD p0)
                              else if k0 =? k then Ret (SLL_ADD_ALREADY_IN_SLL p0)
                              else link_back fuel m k (default 0 (pv m p0)).
Proof.
  intros Hw. destruct (wired_key _ _ _ _ _ _ Hw) as (n & Hn & <-).
  cbn [link_back]. unfold sll_at, pv. by rewrite Hn.
Qed.

(** The walk starts at the last element. *)
Lemma sll_link_start m hd k e s e' : wired m hd (e :: s) -> last (e :: s) = Some e' -> e.1 <= k ->
  sll_link m hd k = link_back (S (size m)) m k e'.2.
Proof.
  intros Hw Hl Hk. pose proof Hw as (Hhd & _). cbn in Hhd. subst hd.
  destruct e as [k0 p0]. destruct (wired_key _ _ [] _ _ _ Hw) as (n & Hn & Hkn). unfold sll_link, sll_at. cbn [snd].
  rewrite Hn. cbn [obind]. cbn [fst] in Hk. rewrite Hkn, (proj2 (N.ltb_ge _ _)) by done.
  destruct (wired_ends _ _ _ _ _ Hw Hl) as [_ Hp]. unfold pv in Hp. cbn [snd] in Hp. rewrite Hn in Hp. by injection Hp as ->.
Qed.

Lemma sll_link_present m hd k s1 q s2' : ring_rep m hd (s1 ++ (k, q) :: s2') -> Forall (fun e => e.1 < k) s1 -> sll_link m hd k = Ret (SLL_ADD_ALREADY_IN_SLL q).
Proof.
  intros [Hw Hs] Hlt.
  assert (Hgt : Forall (fun e => k < e.1) s2').
  { rewrite fmap_app in Hs. cbn in Hs. apply StronglySorted_app in Hs as (_ & _ & Hs). inversion Hs as [|? ? _ H]; subst.
    by rewrite Forall_fmap in H. }
  destruct (last ((k, q) :: s2')) as [e'|] eqn:El; [|by apply last_None in El].
  assert (exists e s, s1 ++ (k, q) :: s2' = e :: s /\ e.1 <= k /\ last (e :: s) = Some e') as (e & s & E & Hle & Hl).
  { destruct s1 as [|e s1']; [by exists (k, q), s2'|]. exists e, (s1' ++ (k, q) :: s2'). split; [done|]. split.
    - inversion Hlt; subst. by apply N.lt_le_incl.
    - change (last ((e :: s1') ++ (k, q) :: s2') = Some e'). by rewrite last_app_cons. }
  pose proof Hw as Hw'. rewrite E in Hw'. rewrite (sll_link_start m hd k e s e' Hw' Hl Hle). clear Hw'.
  pose proof (wired_length _ _ _ Hw) as Hlen. rewrite length_app in Hlen. cbn [length] in Hlen.
  replace (S (size m)) with (length s2' + S (size m - length s2'))%nat by lia.
  rewrite (link_back_skip m hd k s1 (k, q) s2' e' _ Hw Hgt El).
  rewrite (link_back_at m hd k s1 k q s2' _ Hw). by rewrite N.ltb_irrefl, N.eqb_refl.
Qed.

Lemma sll_link_absent m hd k s1 s2 : ring_rep m hd (s1 ++ s2) -> Forall (fun e => e.1 < k) s1 -> Forall (fun e => k < e.1) s2 -> sll_link m hd k = Ret (place (s1 ++ s2) s1).
Proof.
  intros [Hw Hs] Hlt Hgt.
  destruct (last s1) as [[k0 p0]|] eqn:El.
  - apply last_Some in El as [s1' Es]. pose proof Es as Es'.
    assert (Hwa : wired m hd (s1' ++ (k0, p0) :: s2)) by (by rewrite Es, <- app_assoc in Hw).
    assert (exists e s, s1 ++ s2 = e :: s /\ e.1 <= k) as (e & s & E & Hle).
    { destruct s1 as [|e s]; [by destruct s1'|]. exists e, (s ++ s2). split; [done|]. inversion Hlt; subst. by apply N.lt_le_incl. }
    destruct (last (e :: s)) as [e'|] eqn:El; [|by apply last_None in El].
    pose proof Hw as Hw'. rewrite E in Hw'. rewrite (sll_link_start m hd k e s e' Hw' El Hle). clear Hw'. pose proof (wired_length _ _ _ Hwa) as Hlen. rewrite length_app in Hlen. cbn [length] in Hlen.
    replace (S (size m)) with (length s2 + S (size m - length s2))%nat by lia.
    rewrite (link_back_skip m hd k s1' (k0, p0) s2 e' _ Hwa Hgt).
    2: { rewrite <- El, <- E, Es, <- app_assoc. cbn [app]. by rewrite last_app_cons. }
    rewrite (link_back_at m hd k s1' k0 p0 s2 _ Hwa).
    assert (k0 < k). { rewrite Es in Hlt. apply Forall_app in Hlt as [_ H]. by inversion H. }
    rewrite (proj2 (N.ltb_lt _ _)) by done. unfold place. rewrite E. by rewrite Es, last_snoc.
  - apply last_None in El. unfold place. rewrite El. cbn [app last]. rewrite El in Hw. cbn [app] in Hw.
    destruct s2 as [|[k0 p0] s]; destruct Hw as (-> & Hw); [done|]. inversion Hgt; subst.
    destruct Hw as (_ & Hk & _). inversion Hk as [|? ? Hk0 _]; subst. destruct (ky_live _ _ _ Hk0) as (n & Hn & Hkn).
    unfold sll_link, first_of, sll_at. cbn [head fmap option_fmap option_map snd] in *. rewrite Hn. cbn [obind fst] in *.
    by rewrite Hkn, (proj2 (N.ltb_lt _ _)).
Qed.

(** ** Insertion *)

(** The writes of [sll_add] that put [e] between [c] and [n]. *)
Definition splice (c n e : ptr) m : Slls :=
  alter (set_prev e) n (alter (set_next e) c (alter (set_next n) e (alter (set_prev c) e
    (alter (set_next e) e (alter (set_prev e) e m))))).

Lemma nx_splice c n e m x : is_Some (m !! c) -> is_Some (m !! e) -> c <> e ->
  nx (splice c n e m) x = if decide (x = e) then Some n else if decide (x = c) then Some e else nx m x.
Proof.
  intros Hc He Hne. unfold splice. autorewrite with sll. repeat destruct (decide _); congruence.
Qed.

Lemma pv_splice c n e m x : is_Some (m !! n) -> is_Some (m !! e) -> n <> e ->
  pv (splice c n e m) x = if decide (x = e) then Some c else if decide (x = n) then Some e else pv m x.
Proof.
  intros Hn He Hne. unfold splice. autorewrite with sll. repeat destruct (decide _); congruence.
Qed.

Lemma ky_splice c n e m x : ky (splice c n e m) x = ky m x.
Proof. unfold splice. by autorewrite with sll. Qed.

Lemma live_splice c n e m x : is_Some (splice c n e m !! x) <-> is_Some (m !! x).
Proof. unfold splice. by rewrite !alter_live. Qed.

Lemma self_link_ok e m : is_Some (m !! e) -> self_link e m = Ret (alter (set_next e) e (alter (set_prev e) e m)).
Proof. intros He. unfold self_link. rewrite update_ok by done. cbn [obind]. by rewrite update_ok by by rewrite alter_live. Qed.

Ltac live := repeat rewrite alter_live; assumption.

Lemma last_in {A} (l : list A) a : List.last l a ∈ a :: l.
Proof. revert a. induction l as [|b l IH]; intros a; [set_solver|]. rewrite tail_cons. specialize (IH b). set_solver. Qed.

Lemma ring_last_split {A} (l : list A) a : a :: l = removelast (a :: l) ++ [List.last l a].
Proof. rewrite <- (tail_cons a l a). by apply List.app_removelast_last. Qed.

Lemma removelast_in {A} (l : list A) (y : A) : y ∈ removelast l -> y ∈ l.
Proof. destruct l as [|a l]; [done|]. intros Hy. rewrite ring_last_split. set_solver. Qed.

Lemma last_not_before {A} (l : list A) a : NoDup (a :: l) -> List.last l a ∉ removelast (a :: l).
Proof. rewrite ring_last_split at 1. intros (_ & Hnd & _)%NoDup_app Hin. by apply (Hnd _ Hin), list_elem_of_singleton. Qed.

Lemma splice_ring m n l e : ring m (n :: l) -> e ∉ n :: l -> is_Some (m !! e) -> NoDup (n :: l) ->
  (forall x, x ∈ n :: l -> is_Some (m !! x)) -> ring (splice (List.last l n) n e m) (e :: n :: l).
Proof.
  intros [Hc Hl] Hni He Hnd Hlive. pose proof (last_in l n) as Hcin. pose proof (last_not_before l n Hnd) as Hlast.
  assert (Hce := Hlive _ Hcin). assert (Hne := Hlive n ltac:(set_solver)).
  assert (List.last l n <> e) by congruence. assert (n <> e) by set_solver.
  cbn [ring chain]. rewrite tail_cons. split; [split|].
  - split; [rewrite nx_splice by done|rewrite pv_splice by done]; repeat destruct (decide _); congruence.
  - eapply chain_keep; [exact Hc| |]; intros x Hx; [rewrite nx_splice by done|rewrite pv_splice by done].
    + apply removelast_in in Hx as Hx'. repeat destruct (decide _); congruence.
    + inversion Hnd; subst. repeat destruct (decide _); subst; set_solver.
  - split; [rewrite nx_splice by done|rewrite pv_splice by done]; repeat destruct (decide _); congruence.
Qed.

(** The writes of the two branches of [sll_add]. *)
Lemma sll_add_head m e n c : is_Some (m !! e) -> is_Some (m !! n) -> is_Some (m !! c) -> e <> n -> pv m n = Some c ->
  sll_add m (Some n) SLL_ADD_SMALLER_THAN_HEAD e = Ret (Some e, splice c n e m).
Proof.
  intros He Hn Hc Hne Hp. unfold sll_add. rewrite self_link_ok by done. cbn [obind].
  set (m1 := alter (set_next e) e (alter (set_prev e) e m)).
  assert (H1 : forall x, is_Some (m1 !! x) <-> is_Some (m !! x)) by (intros x; unfold m1; by rewrite !alter_live).
  assert (exists nn, m1 !! n = Some nn /\ prev nn = c) as (nn & En & <-).
  { assert (Hp1 : pv m1 n = Some c) by (unfold m1; autorewrite with sll; by rewrite decide_False).
    unfold pv in Hp1. apply fmap_Some in Hp1 as (nn & -> & ->). by exists nn. }
  unfold sll_at at 1. rewrite En. cbn [obind].
  repeat (rewrite update_ok by (rewrite ?alter_live; by apply H1); cbn [obind]). done.
Qed.

Lemma sll_add_after m hd e n c : is_Some (m !! e) -> is_Some (m !! n) -> is_Some (m !! c) -> e <> c -> nx m c = Some n ->
  sll_add m hd (SLL_ADD_SMALLER_THAN_NOT_HEAD c) e = Ret (hd, splice c n e m).
Proof.
  intros He Hn Hc Hne Hp. unfold sll_add. rewrite self_link_ok by done. cbn [obind].
  set (m1 := alter (set_next e) e (alter (set_prev e) e m)).
  assert (H1 : forall x, is_Some (m1 !! x) <-> is_Some (m !! x)) by (intros x; unfold m1; by rewrite !alter_live).
  assert (exists nc, m1 !! c = Some nc /\ next nc = n) as (nc & Ec & <-).
  { assert (Hp1 : nx m1 c = Some n) by (unfold m1; autorewrite with sll; by rewrite decide_False).
    unfold nx in Hp1. apply fmap_Some in Hp1 as (nc & -> & ->). by exists nc. }
  unfold sll_at at 1. rewrite Ec. cbn [obind].
  repeat (rewrite update_ok by (rewrite ?alter_live; by apply H1); cbn [obind]). done.
Qed.

Lemma splice_frame c n e m x : x <> c -> x <> n -> x <> e -> splice c n e m !! x = m !! x.
Proof. intros. unfold splice. by rewrite !lookup_alter_ne by done. Qed.

Lemma self_ring m e k : ky m e = Some k ->
  exists m', self_link e m = Ret m' /\ wired m' (Some e) [(k, e)] /\ (forall x, ky m' x = ky m x) /\
    (forall x, x <> e -> m' !! x = m !! x).
Proof.
  intros Hk. destruct (ky_live _ _ _ Hk) as (ne & Hne & _). pose proof (mk_is_Some _ _ Hne) as He.
  rewrite self_link_ok by done. eexists. split; [done|]. split; [|split].
  - split; [done|]. split; [split; [done|]|].
    + cbn. split; autorewrite with sll; by rewrite decide_True.
    + split; [|apply NoDup_singleton]. constructor; [|done]. cbn. by autorewrite with sll.
  - intros x. by autorewrite with sll.
  - intros x Hx. by rewrite !lookup_alter_ne by done.
Qed.

(** [sll_add] at a place found by [sll_link]. *)
Lemma sll_add_ok m hd s1 s2 k e : wired m hd (s1 ++ s2) -> ky m e = Some k -> e ∉ (s1 ++ s2).*2 ->
  exists hd' m', sll_add m hd (place (s1 ++ s2) s1) e = Ret (hd', m') /\ wired m' hd' (s1 ++ (k, e) :: s2) /\
    (forall x, ky m' x = ky m x) /\ (forall x, x ∉ e :: (s1 ++ s2).*2 -> m' !! x = m !! x).
Proof.
  intros Hw Hk Hni. destruct (ky_live _ _ _ Hk) as (ne & Hne & _). pose proof (mk_is_Some _ _ Hne) as He.
  pose proof Hw as (Hhd & Hr & Hks & Hnd).
  assert (Hlive : forall x, x ∈ (s1 ++ s2).*2 -> is_Some (m !! x)).
  { intros x ([k0 p0] & -> & Hx)%list_elem_of_fmap. rewrite Forall_forall in Hks.
    destruct (ky_live _ _ _ (Hks _ Hx)) as (n0 & Hn0 & _). by exists n0. }
  rewrite fmap_app in Hr, Hnd. apply ring_rotate in Hr.
  destruct (s2.*2 ++ s1.*2) as [|n l] eqn:E.
  { destruct s2; [|done]. destruct s1; [|done]. destruct (self_ring m e k Hk) as (m' & E' & H1 & H2 & H3).
    exists (Some e), m'. cbn. unfold sll_add. rewrite E'. cbn. split; [done|]. split; [done|]. split; [done|].
    intros x Hx. apply H3. set_solver. }
  assert (Hp : s1.*2 ++ s2.*2 ≡ₚ n :: l) by (rewrite <- E; apply Permutation_app_comm).
  rewrite Hp in Hnd. rewrite fmap_app in Hni, Hlive.
  assert (Hni' : e ∉ n :: l) by (by rewrite <- Hp). assert (Hlive' : forall x, x ∈ n :: l -> is_Some (m !! x)).
  { intros x Hx. apply Hlive. by rewrite Hp. }
  set (c := List.last l n). pose proof (last_in l n : c ∈ n :: l) as Hc.
  assert (exists hd', sll_add m hd (place (s1 ++ s2) s1) e = Ret (hd', splice c n e m) /\ hd' = first_of (s1 ++ (k, e) :: s2))
    as (hd' & Eadd & Hhd').
  { destruct Hr as [_ Hcn]. fold c in Hcn. destruct (last s1) as [[kc c']|] eqn:El.
    - apply last_Some in El as [s1' Es]. assert (c' = c) as ->.
      { assert (Ec : List.last (n :: l) n = c) by apply tail_cons. rewrite <- E, Es, fmap_app, app_assoc in Ec. cbn in Ec.
        by rewrite List.last_last in Ec. }
      exists hd. unfold place. rewrite Es, last_snoc. rewrite <- app_assoc. cbn [app snd].
      destruct (s1' ++ (kc, c) :: s2) as [|e0 s0] eqn:E0; [by destruct s1'|].
      rewrite (sll_add_after m hd e n c); [|done|apply Hlive'; set_solver|by apply Hlive'|congruence|apply Hcn].
      split; [done|]. rewrite Hhd, Es. by destruct s1'.
    - apply last_None in El. rewrite El in *. cbn [app fmap list_fmap] in *. rewrite app_nil_r in E.
      exists (Some e). destruct s2 as [|[kn n'] s2]; [done|]. cbn in E. injection E as -> E. split; [|done].
      cbn [place]. unfold place. rewrite Hhd. cbn. apply sll_add_head; [done|apply Hlive'; set_solver|by apply Hlive'|set_solver|apply Hcn]. }
  exists hd', (splice c n e m). split; [done|]. split; [|split].
  - split; [done|]. split; [|split].
    + rewrite fmap_app. cbn [fmap list_fmap snd]. apply ring_rotate. cbn [app]. rewrite E. by apply splice_ring.
    + apply Forall_app in Hks as [H1 H2]. apply Forall_app. split; [|constructor; [by rewrite ky_splice|]];
        eapply Forall_impl; try eassumption; intros; cbn; by rewrite ky_splice.
    + rewrite fmap_app. cbn [fmap list_fmap snd]. rewrite <- Permutation_middle, Hp. by constructor.
  - intros x. apply ky_splice.
  - intros x Hx. rewrite fmap_app, Hp in Hx. apply splice_frame; set_solver.
Qed.

(** ** Removal *)

Definition cut (c n e : ptr) m : Slls :=
  alter (set_prev c) n (alter (set_next n) c (alter (set_next e) e (alter (set_prev e) e m))).

Lemma cut_ring m e n l : ring m (e :: n :: l) -> NoDup (e :: n :: l) -> (forall x, x ∈ e :: n :: l -> is_Some (m !! x)) ->
  ring (cut (List.last l n) n e m) (n :: l).
Proof.
  intros Hr Hnd Hlive. apply NoDup_cons in Hnd as [Hni Hnd].
  cbn [ring chain] in Hr. rewrite tail_cons in Hr. destruct Hr as [[_ Hc] [Hcn _]].
  pose proof (last_in l n) as Hcin. pose proof (last_not_before l n Hnd) as Hlast.
  assert (Hce := Hlive (List.last l n) ltac:(set_solver)). assert (Hne := Hlive n ltac:(set_solver)).
  assert (Hee := Hlive e ltac:(set_solver)). assert (List.last l n <> e) by congruence. assert (n <> e) by set_solver.
  unfold cut. split.
  - eapply chain_keep; [exact Hc| |]; intros x Hx; autorewrite with sll.
    + apply removelast_in in Hx as Hx'. repeat destruct (decide _); congruence.
    + inversion Hnd; subst. repeat destruct (decide _); subst; set_solver.
  - split; autorewrite with sll; by rewrite decide_True.
Qed.

Lemma sll_unlink_ok m hd s1 k e s2 : wired m hd (s1 ++ (k, e) :: s2) ->
  exists hd' m', sll_unlink m hd e = Ret (hd', m') /\ wired m' hd' (s1 ++ s2) /\ (forall x, ky m' x = ky m x) /\
    m' !! e = Some (mkSll e e k) /\ (forall x, x ∉ (s1 ++ (k, e) :: s2).*2 -> m' !! x = m !! x).
Proof.
  intros Hw. destruct (wired_key _ _ _ _ _ _ Hw) as (ne & Hne & Hkn). pose proof (mk_is_Some _ _ Hne) as He.
  pose proof Hw as (Hhd & Hr & Hks & Hnd).
  assert (Hlive : forall x, x ∈ (s1 ++ (k, e) :: s2).*2 -> is_Some (m !! x)).
  { intros x ([k0 p0] & -> & Hx)%list_elem_of_fmap. rewrite Forall_forall in Hks.
    destruct (ky_live _ _ _ (Hks _ Hx)) as (n0 & Hn0 & _). by exists n0. }
  rewrite fmap_app in Hr, Hnd, Hlive. cbn [fmap list_fmap snd] in Hr, Hnd, Hlive. apply ring_rotate in Hr. cbn [app] in Hr.
  unfold sll_unlink, sll_at. rewrite Hhd, Hne.
  assert (exists h, first_of (s1 ++ (k, e) :: s2) = Some h) as [h Hh] by (destruct s1; by eexists). rewrite Hh. cbn [obind].
  rewrite self_link_ok by done. cbn [obind]. set (m1 := alter (set_next e) e (alter (set_prev e) e m)).
  assert (H1 : forall x, is_Some (m1 !! x) <-> is_Some (m !! x)) by (intros x; unfold m1; by rewrite !alter_live).
  assert (Hme : forall f, m1 !! e = Some (mkSll e e k)).
  { intros _. unfold m1. rewrite !lookup_alter_eq, Hne. cbn. unfold set_next, set_prev. cbn. by rewrite Hkn. }
  destruct (s2.*2 ++ s1.*2) as [|n l] eqn:E.
  - destruct s2; [|done]. destruct s1; [|done]. cbn in Hr, Hh. injection Hh as <-. destruct Hr as [_ [Hn0 Hp0]].
    unfold nx, pv in Hn0, Hp0. rewrite Hne in Hn0, Hp0. injection Hn0 as ->. injection Hp0 as ->.
    rewrite !N.eqb_refl. cbn [obind oassert]. exists None, m1. split; [done|]. split; [split; [done|split; [done|split; constructor]]|].
    split; [intros x; unfold m1; by autorewrite with sll|]. split; [by apply Hme|]. intros x Hx. unfold m1.
    rewrite !lookup_alter_ne by set_solver. done.
  - assert (Hp : s1.*2 ++ e :: s2.*2 ≡ₚ e :: n :: l) by (rewrite <- E, <- Permutation_middle; apply Permutation_skip, Permutation_app_comm).
    rewrite Hp in Hnd. assert (Hlive' : forall x, x ∈ e :: n :: l -> is_Some (m !! x)) by (intros x Hx; apply Hlive; by rewrite Hp).
    set (c := List.last l n). pose proof (last_in l n : c ∈ n :: l) as Hc. pose proof Hnd as [Hni Hnd']%NoDup_cons.
    pose proof Hr as Hr'. cbn [ring chain] in Hr'. rewrite tail_cons in Hr'. fold c in Hr'. destruct Hr' as [[[Hen Hne'] _] [Hce Hec]].
    assert (next ne = n) as Hnn by (unfold nx in Hen; rewrite Hne in Hen; by injection Hen).
    assert (prev ne = c) as Hpc by (unfold pv in Hec; rewrite Hne in Hec; by injection Hec).
    rewrite Hnn, Hpc. rewrite (proj2 (N.eqb_neq c e)) by set_solver.
    assert (exists nc, m1 !! c = Some nc /\ next nc = e) as (nc & Ec & Enc).
    { assert (Hc1 : nx m1 c = Some e) by (unfold m1; autorewrite with sll; by rewrite decide_False by set_solver).
      unfold nx in Hc1. apply fmap_Some in Hc1 as (nc & -> & ->). by exists nc. }
    assert (exists nn, m1 !! n = Some nn /\ prev nn = e) as (nn & En & Enn).
    { assert (Hc1 : pv m1 n = Some e) by (unfold m1; autorewrite with sll; by rewrite decide_False by set_solver).
      unfold pv in Hc1. apply fmap_Some in Hc1 as (nn & -> & ->). by exists nn. }
    rewrite Ec. cbn [obind]. rewrite Enc, N.eqb_refl. cbn [obind oassert]. rewrite En. cbn [obind].
    rewrite Enn, N.eqb_refl. cbn [obind oassert].
    repeat (rewrite update_ok by (rewrite ?alter_live; apply H1, Hlive'; set_solver); cbn [obind]).
    eexists _, (cut c n e m). split; [done|]. split; [split|split; [|split]].
    + destruct s1 as [|e1 s1].
      * cbn in Hh. injection Hh as <-. rewrite N.eqb_refl. cbn [app fmap list_fmap] in E. rewrite app_nil_r in E.
        destruct s2; [done|]. cbn in E. by injection E as <- _.
      * cbn in Hh. injection Hh as <-. rewrite (proj2 (N.eqb_neq _ _)); [done|]. intros <-.
        assert (e1.2 ∈ n :: l) by (rewrite <- E; set_solver). done.
    + split; [|split].
      * rewrite fmap_app. apply ring_rotate. rewrite E. by apply cut_ring.
      * apply Forall_app in Hks as [Hk1 Hk2]. inversion Hk2; subst. apply Forall_app.
        split; eapply Forall_impl; try eassumption; intros; cbn; unfold cut; by autorewrite with sll.
      * rewrite fmap_app, Permutation_app_comm, E. done.
    + intros x. unfold cut. by autorewrite with sll.
    + assert (e <> c) by (intros ->; done). assert (e <> n) by (intros ->; apply Hni; left).
      unfold cut. rewrite !lookup_alter_ne by done. apply (Hme id).
    + intros x Hx. rewrite fmap_app in Hx. cbn [fmap list_fmap snd] in Hx. rewrite Hp in Hx. apply not_elem_of_cons in Hx as [Hxe Hx].
      unfold cut. rewrite !lookup_alter_ne; [done|done|done|congruence|]. intros ->. apply Hx. left.
Qed.

(** ** Shifting keys *)

Definition shift (from : N) (delta : Z) (k : N) : N :=
  if from <=? k then Z.to_N (Z.of_N k + delta) else k.

Definition shift_ok (from : N) (delta : Z) (k : N) : Prop :=
  from <= k -> (0 <= Z.of_N k + delta < 2 ^ 32)%Z.

Lemma adjust_loop_ok e from delta rest fuel m curr : chain m curr rest -> link m (List.last rest curr) e ->
  NoDup (curr :: rest) -> e ∉ rest -> (forall x, x ∈ curr :: rest -> is_Some (m !! x)) ->
  (forall x k, x ∈ curr :: rest -> ky m x = Some k -> shift_ok from delta k) -> (length rest < fuel)%nat ->
  exists m', adjust_loop fuel m e curr from delta = Ret m' /\ (forall x, nx m' x = nx m x /\ pv m' x = pv m x) /\
    (forall x, ky m' x = if decide (x ∈ curr :: rest) then shift from delta <$> ky m x else ky m x) /\
    (forall x, x ∉ curr :: rest -> m' !! x = m !! x).
Proof.
  revert m curr fuel. induction rest as [|b rest IH]; intros m curr fuel Hc Hl Hnd Hni Hlive Hok Hf; (destruct fuel as [|fuel]; [lia|]).
  all: destruct (Hlive curr ltac:(set_solver)) as [n Hn].
  all: assert (exists m1, (if from <=? key n then
        let! _ := oassert (0 <=? (Z.of_N (key n) + delta))%Z "sll_adjust: key would underflow" in
        sll_update (set_key (u32 (Z.to_N (Z.of_N (key n) + delta)))) curr m else Ret m) = Ret m1 /\
        (forall x, nx m1 x = nx m x /\ pv m1 x = pv m x) /\
        (forall x, ky m1 x = if decide (x = curr) then shift from delta <$> ky m x else ky m x) /\
        (forall x, x <> curr -> m1 !! x = m !! x) /\ (forall x, is_Some (m1 !! x) <-> is_Some (m !! x))) as
      (m1 & E1 & F1 & K1 & L1 & S1) by (
    pose proof (Hok curr (key n) ltac:(set_solver) ltac:(unfold ky; by rewrite Hn)) as Hk; unfold shift_ok, shift in *;
    destruct (N.leb_spec from (key n)) as [Hle|Hgt];
    [specialize (Hk Hle); rewrite (proj2 (Z.leb_le _ _)) by lia; cbn [obind oassert]; rewrite update_ok by done;
     eexists; split; [done|]; split; [intros x; by autorewrite with sll|]; split; [|split; [intros; by rewrite lookup_alter_ne|intros; apply alter_live]];
     intros x; unfold ky; rewrite field_alter; destruct (decide (x = curr)) as [->|]; [|done]; rewrite Hn; cbn;
     rewrite (proj2 (N.leb_le _ _)) by done; rewrite u32_small by lia; done
    |exists m; split; [done|]; split; [done|]; split; [|done]; intros x; destruct (decide (x = curr)) as [->|]; [|done];
     unfold ky; rewrite Hn; cbn; by rewrite (proj2 (N.leb_gt _ _))]).
  all: cbn [adjust_loop]; unfold sll_at; rewrite Hn; cbn [obind]; rewrite E1; cbn [obind].
  - destruct Hl as [Hl _]. unfold nx in Hl. cbn in Hl. rewrite Hn in Hl. injection Hl as ->. rewrite N.eqb_refl.
    exists m1. split; [done|]. split; [done|]. split; [|intros x Hx; apply L1; set_solver].
    intros x. rewrite K1. destruct (decide (x = curr)), (decide (x ∈ [curr])); set_solver.
  - destruct Hc as [Hcb Hc]. rewrite tail_cons in Hl. pose proof (proj1 Hcb) as Hnb. unfold nx in Hnb. rewrite Hn in Hnb. injection Hnb as ->.
    rewrite (proj2 (N.eqb_neq b e)) by set_solver. apply NoDup_cons in Hnd as [Hcn Hnd].
    destruct (IH m1 b fuel) as (m' & E & F & K & L).
    + eapply chain_keep; [exact Hc| |]; intros x _; apply F1.
    + destruct Hl as [H1 H2]. split; [by rewrite (proj1 (F1 _))|by rewrite (proj2 (F1 _))].
    + done.
    + set_solver.
    + intros x Hx. apply S1, Hlive. set_solver.
    + intros x k Hx. rewrite K1, decide_False by congruence. apply Hok. set_solver.
    + cbn in Hf. lia.
    + exists m'. split; [done|]. split; [intros x; by rewrite (proj1 (F x)), (proj2 (F x)), (proj1 (F1 x)), (proj2 (F1 x))|].
      split; [|intros x Hx; rewrite L, L1; [done|set_solver..]].
      intros x. rewrite K, K1. destruct (decide (x ∈ b :: rest)), (decide (x = curr)), (decide (x ∈ curr :: b :: rest)); set_solver.
Qed.

Definition shifted (from : N) (delta : Z) s : list (N * ptr) := map (fun e => (shift from delta e.1, e.2)) s.

Lemma shifted_snd from delta s : (shifted from delta s).*2 = s.*2.
Proof. unfold shifted. rewrite <- list_fmap_compose. by apply list_fmap_ext. Qed.

Lemma sll_adjust_ok m hd s e from delta : wired m hd s -> e ∈ s.*2 -> Forall (fun e => shift_ok from delta e.1) s ->
  exists m', sll_adjust m e from delta = Ret m' /\ wired m' hd (shifted from delta s) /\
    (forall x, nx m' x = nx m x /\ pv m' x = pv m x) /\ (forall x, x ∉ s.*2 -> m' !! x = m !! x).
Proof.
  intros Hw Hin Hok. pose proof (wired_length _ _ _ Hw) as Hlen. pose proof Hw as (Hhd & Hr & Hks & Hnd).
  apply list_elem_of_split in Hin as (l1 & l2 & E). assert (Hp : s.*2 ≡ₚ e :: l2 ++ l1).
  { rewrite E, <- Permutation_middle. apply Permutation_skip, Permutation_app_comm. }
  rewrite E in Hr. apply ring_rotate in Hr. cbn [app ring] in Hr.
  destruct (adjust_loop_ok e from delta (l2 ++ l1) (S (size m)) m e) as (m' & Em & F & K & L).
  - apply Hr.
  - apply Hr.
  - by rewrite <- Hp.
  - rewrite Hp in Hnd. by apply NoDup_cons in Hnd as [? _].
  - intros x. rewrite <- Hp. intros ([k0 p0] & -> & Hx)%list_elem_of_fmap. rewrite Forall_forall in Hks.
    destruct (ky_live _ _ _ (Hks _ Hx)) as (n0 & Hn0 & _). by exists n0.
  - intros x k. rewrite <- Hp. intros ([k0 p0] & -> & Hx)%list_elem_of_fmap Hk. rewrite Forall_forall in Hks, Hok.
    pose proof (Hks _ Hx) as Hk0. cbn in Hk0, Hk. rewrite Hk in Hk0. injection Hk0 as ->. apply (Hok _ Hx).
  - apply Permutation_length in Hp. rewrite length_fmap in Hp. cbn in Hp. lia.
  - exists m'. split; [done|]. split; [|split; [done|intros x Hx; apply L; by rewrite <- Hp]].
    split; [|split; [|split]].
    + rewrite Hhd. by destruct s.
    + rewrite shifted_snd. eapply ring_keep; [|intros x _; apply F]. apply Hw.
    + unfold shifted. apply Forall_map. rewrite Forall_forall in *. intros [k p] Hx. cbn. rewrite K, decide_True.
      * pose proof (Hks _ Hx) as H0. cbn in H0. by rewrite H0.
      * rewrite <- Hp. by apply list_elem_of_fmap_2 with (f := snd) in Hx.
    + by rewrite shifted_snd.
Qed.

(** ** Sorted lists *)

Definition below (k : N) (s : list (N * ptr)) : list (N * ptr) := filter (fun e => e.1 < k) s.
Definition above (k : N) (s : list (N * ptr)) : list (N * ptr) := filter (fun e => k < e.1) s.
Definition at_key (k : N) (s : list (N * ptr)) : option ptr := snd <$> List.find (fun e => e.1 =? k) s.

Lemma keys_filter_none {A} (P : A -> Prop) `{!forall y, Decision (P y)} (l : list A) : Forall (fun y => ~ P y) l -> filter P l = [].
Proof. induction 1; [done|]. by rewrite filter_cons_False. Qed.

Lemma filter_all {A} (P : A -> Prop) `{!forall y, Decision (P y)} (l : list A) : Forall P l -> filter P l = l.
Proof. induction 1 as [|y l Hy _ IH]; [done|]. by rewrite filter_cons_True, IH. Qed.

Lemma sorted_split k s : StronglySorted N.lt s.*1 -> at_key k s = None -> s = below k s ++ above k s.
Proof.
  induction s as [|[k0 p0] s IH]; intros Hs Hk; [done|]. cbn [fmap list_fmap fst] in Hs. apply StronglySorted_inv in Hs as [Hs Hlt].
  unfold at_key in Hk. cbn [List.find fst] in Hk. destruct (N.eqb_spec k0 k) as [->|Hne]; [done|].
  specialize (IH Hs Hk). unfold below, above. rewrite !filter_cons. cbn [fst].
  destruct (decide (k0 < k)).
  - rewrite decide_False by lia. cbn [app]. by f_equal.
  - rewrite decide_True by lia. rewrite Forall_fmap in Hlt. rewrite keys_filter_none, filter_all; [done|..];
      eapply Forall_impl; try exact Hlt; intros e He; cbn in *; lia.
Qed.

Lemma sorted_at k q s : StronglySorted N.lt s.*1 -> at_key k s = Some q ->
  exists s1 s2, s = s1 ++ (k, q) :: s2 /\ Forall (fun e => e.1 < k) s1.
Proof.
  induction s as [|[k0 p0] s IH]; intros Hs Hk; [done|]. cbn [fmap list_fmap fst] in Hs. apply StronglySorted_inv in Hs as [Hs Hlt].
  unfold at_key in Hk. cbn [List.find fst] in Hk. destruct (N.eqb_spec k0 k) as [->|Hne].
  - injection Hk as ->. by exists [], s.
  - destruct (IH Hs Hk) as (s1 & s2 & -> & H1). exists ((k0, p0) :: s1), s2. split; [done|]. constructor; [|done].
    cbn. rewrite fmap_app in Hlt. cbn in Hlt. apply Forall_app in Hlt as [_ Hlt]. by inversion Hlt.
Qed.

End SllFacts.

(** ** The sibling ring implements a sorted association list *)

Import Sll SllFacts.

Module SllTheorems.

#[local] Open Scope N_scope.

(** ** The specification: elements by ascending key, and the ones outside *)

Record Spec : Type := mkSpec { inside : list (N * ptr); outside : gmap ptr N }.

Inductive SllOp : Set :=
  | OpInit (e : ptr)
  | OpUnlink (e : ptr)
  | OpAdjust (e : ptr) (from : N) (delta : Z).

Definition without (e : ptr) (s : list (N * ptr)) : list (N * ptr) := filter (fun x => x.2 <> e) s.
Definition key_of (e : ptr) (s : list (N * ptr)) : N := default 0 (fst <$> List.find (fun x => x.2 =? e) s).

(** The element that already has the key, and the new state. *)
Definition spec_op (op : SllOp) (S : Spec) : option ptr * Spec :=
  match op with
  | OpInit e =>
      let k := default 0 (outside S !! e) in
      match at_key k (inside S) with
      | Some q => (Some q, S)
      | None => (None, mkSpec (below k (inside S) ++ (k, e) :: above k (inside S)) (delete e (outside S)))
      end
  | OpUnlink e => (None, mkSpec (without e (inside S)) (<[e := key_of e (inside S)]> (outside S)))
  | OpAdjust e from delta => (None, mkSpec (shifted from delta (inside S)) (outside S))
  end.

(** An element is linked once, unlinked where it is, and keys are shifted so that their
    order stays and they fit. *)
Definition allowed (op : SllOp) (S : Spec) : Prop :=
  match op with
  | OpInit e => is_Some (outside S !! e)
  | OpUnlink e => e ∈ (inside S).*2
  | OpAdjust e from delta => e ∈ (inside S).*2 /\ Forall (fun e => shift_ok from delta e.1) (inside S) /\
      StronglySorted N.lt (shifted from delta (inside S)).*1
  end.

Fixpoint session_ok (ops : list SllOp) (S : Spec) : Prop :=
  match ops with [] => True | op :: ops => allowed op S /\ session_ok ops (spec_op op S).2 end.

Fixpoint spec_run (ops : list SllOp) (S : Spec) : list (option ptr) * Spec :=
  match ops with
  | [] => ([], S)
  | op :: ops => let (r, S) := spec_op op S in let (rs, S) := spec_run ops S in (r :: rs, S)
  end.

(** ** The code *)

Definition code_op (op : SllOp) (m : Slls) (hd : option ptr) : outcome (option ptr * option ptr * Slls) :=
  match op with
  | OpInit e =>
      let! (r, hd, m) := sll_init m hd e in
      Ret (match r with SLL_ADD_ALREADY_IN_SLL q => Some q | _ => None end, hd, m)
  | OpUnlink e => let! (hd, m) := sll_unlink m hd e in Ret (None, hd, m)
  | OpAdjust e from delta => let! m := sll_adjust m e from delta in Ret (None, hd, m)
  end.

Fixpoint code_run (ops : list SllOp) (m : Slls) (hd : option ptr) : outcome (list (option ptr) * option ptr * Slls) :=
  match ops with
  | [] => Ret ([], hd, m)
  | op :: ops =>
      let! (r, hd, m) := code_op op m hd in
      let! (rs, hd, m) := code_run ops m hd in Ret (r :: rs, hd, m)
  end.

(** The store holds the ring of the elements inside and, apart from it, those outside. *)
Definition implements (m : Slls) (hd : option ptr) (S : Spec) : Prop :=
  ring_rep m hd (inside S) /\ forall e k, outside S !! e = Some k -> ky m e = Some k /\ e ∉ (inside S).*2.

(** ** Sorted lists *)

Lemma without_split k e s1 s2 : NoDup (s1 ++ (k, e) :: s2).*2 -> without e (s1 ++ (k, e) :: s2) = s1 ++ s2 /\
  key_of e (s1 ++ (k, e) :: s2) = k.
Proof.
  intros Hnd. rewrite fmap_app in Hnd. cbn [fmap list_fmap snd] in Hnd. rewrite <- Permutation_middle in Hnd.
  apply NoDup_cons in Hnd as [Hni _]. rewrite <- fmap_app in Hni.
  assert (Hne : Forall (fun x => x.2 <> e) (s1 ++ s2)).
  { apply Forall_forall. intros x Hx <-. apply Hni. by apply list_elem_of_fmap_2. }
  apply Forall_app in Hne as [H1 H2]. split.
  - unfold without. rewrite filter_app, filter_cons_False, !filter_all by (done || (intros H; by apply H)). done.
  - unfold key_of. clear -H1. induction H1 as [|x s1 Hx _ IH]; cbn [app List.find snd].
    + by rewrite N.eqb_refl.
    + by rewrite (proj2 (N.eqb_neq _ _)).
Qed.

(** ** Each operation *)

Lemma op_ok op m hd S : implements m hd S -> allowed op S ->
  exists hd' m', code_op op m hd = Ret ((spec_op op S).1, hd', m') /\ implements m' hd' (spec_op op S).2.
Proof.
  destruct S as [s d]. intros [Hr Ho] Ha. cbn in Hr, Ho. destruct op as [e|e|e from delta]; cbn in Ha.
  - destruct Ha as [k Hk]. destruct (Ho e k Hk) as [Hke Hni]. destruct (ky_live _ _ _ Hke) as (n & Hn & <-).
    unfold code_op, sll_init, sll_at. rewrite Hn. cbn [obind spec_op outside inside]. rewrite Hk. cbn [default id].
    pose proof Hr as [Hw Hs]. destruct (at_key (key n) s) as [q|] eqn:Eq.
    + destruct (sorted_at _ _ _ Hs Eq) as (s1 & s2 & -> & H1). rewrite (sll_link_present m hd (key n) s1 q s2 Hr H1). cbn [obind].
      unfold sll_add. destruct (self_ring m e (key n) Hke) as (m' & -> & _ & K & L). cbn [obind].
      exists hd, m'. split; [done|]. split; [|intros e' k' Hk'; rewrite K; by apply Ho].
      split; [|done]. destruct Hw as (Hhd & Hri & Hks & Hnd). split; [done|]. split; [|split; [|done]].
      * eapply ring_keep; [exact Hri|]. intros x Hx. unfold nx, pv. rewrite (L x) by (by intros ->). done.
      * eapply Forall_impl; [exact Hks|]. intros x Hx. cbn. by rewrite K.
    + pose proof (sorted_split _ _ Hs Eq) as Es. set (s1 := below (key n) s) in *. set (s2 := above (key n) s) in *.
      assert (H1 : Forall (fun e => e.1 < key n) s1) by (apply Forall_forall; intros x [Hx _]%list_elem_of_filter; done).
      assert (H2 : Forall (fun e => key n < e.1) s2) by (apply Forall_forall; intros x [Hx _]%list_elem_of_filter; done).
      clearbody s1 s2. subst s. rewrite (sll_link_absent m hd (key n) s1 s2 Hr H1 H2). cbn [obind].
      destruct (sll_add_ok m hd s1 s2 (key n) e Hw Hke Hni) as (hd' & m' & -> & Hw' & K & L). cbn [obind].
      exists hd', m'. split; [by unfold place; destruct (s1 ++ s2), (last s1)|]. cbn [snd]. split; cbn [inside outside]; [split; [done|]|].
      * rewrite fmap_app in *. cbn [fmap list_fmap fst] in *. apply StronglySorted_app in Hs as (Hx & Hs1 & Hs2).
        apply StronglySorted_app. split; [|split; [done|constructor; [done|by rewrite Forall_fmap]]].
        intros k1 k2 Hk1 [->|Hk2]%elem_of_cons; [|by apply Hx].
        apply list_elem_of_fmap in Hk1 as (x & -> & Hx1). rewrite Forall_forall in H1. by apply H1.
      * intros e' k' [Hne He']%lookup_delete_Some. destruct (Ho e' k' He') as [Hke' Hni']. rewrite K. split; [done|].
        rewrite fmap_app in *. cbn [fmap list_fmap snd]. rewrite <- Permutation_middle. intros [->|H]%elem_of_cons; done.
  - apply list_elem_of_fmap in Ha as ([k e'] & -> & (s1 & s2 & ->)%list_elem_of_split). cbn [snd].
    pose proof Hr as [Hw Hs]. destruct (without_split k e' s1 s2) as [Ew Ek]; [apply Hw|].
    destruct (sll_unlink_ok m hd s1 k e' s2 Hw) as (hd' & m' & E & Hw' & K & L & F). cbn [code_op]. rewrite E. cbn [obind spec_op outside inside].
    exists hd', m'. split; [done|]. cbn [snd]. rewrite Ew, Ek. split; cbn [inside outside]; [split; [done|]|].
    + rewrite fmap_app in *. cbn [fmap list_fmap fst] in Hs. apply StronglySorted_app in Hs as (Hx & Hs1 & Hs2).
      apply StronglySorted_inv in Hs2 as [Hs2 _]. apply StronglySorted_app. split; [|done]. intros k1 k2 Hk1 Hk2. apply Hx; [done|by right].
    + cbn. intros e k0. assert (Hni : e' ∉ (s1 ++ s2).*2).
      { destruct Hw as (_ & _ & _ & Hnd). rewrite fmap_app in Hnd. cbn [fmap list_fmap snd] in Hnd.
        rewrite <- Permutation_middle, <- fmap_app in Hnd. by apply NoDup_cons in Hnd as [Hnd _]. }
      intros [[-> ->]|[Hne He]]%lookup_insert_Some.
      * split; [|done]. unfold ky. by rewrite L.
      * destruct (Ho e k0 He) as [Hk0 Hni0]. rewrite K. split; [done|]. intros H. apply Hni0. rewrite fmap_app in *. cbn [fmap list_fmap snd].
        rewrite <- Permutation_middle. by right.
  - destruct Ha as (Hin & Hok & Hs'). pose proof Hr as [Hw Hs].
    destruct (sll_adjust_ok m hd s e from delta Hw Hin Hok) as (m' & E & Hw' & F & L). cbn [code_op]. rewrite E. cbn [obind spec_op outside inside].
    exists hd, m'. split; [done|]. split; [by split|]. cbn. intros e' k' He'. rewrite shifted_snd. destruct (Ho e' k' He') as [Hk' Hni].
    split; [|done]. unfold ky in *. by rewrite L.
Qed.

(** ** Sessions *)

(** C23: The sibling ring is a sorted association list: any session of insertions, removals and
    shifts of keys that keep the order returns without tripping an assertion or walking for
    ever, answers an insertion with the element that already has the key, if there is one,
    and leaves the elements linked in both directions in the order of their keys. *)
Theorem sll_refines_sorted_list ops m hd S : implements m hd S -> session_ok ops S ->
  exists hd' m', code_run ops m hd = Ret ((spec_run ops S).1, hd', m') /\ implements m' hd' (spec_run ops S).2.
Proof.
  revert m hd S. induction ops as [|op ops IH]; intros m hd S Hi Hok; [by exists hd, m|]. destruct Hok as [Ha Hok].
  destruct (op_ok op m hd S Hi Ha) as (hd1 & m1 & E1 & Hi1). cbn [code_run spec_run]. rewrite E1. cbn [obind].
  destruct (spec_op op S) as [r S1]. cbn [fst snd] in *. destruct (IH m1 hd1 S1 Hi1 Hok) as (hd2 & m2 & E2 & Hi2). rewrite E2. cbn [obind].
  destruct (spec_run ops S1) as [rs S2]. by exists hd2, m2.
Qed.

(** Four elements with keys 3, 1, 2 and 1 again; the one with 1 leaves and the keys above shift. *)
Definition sample_slls : Slls := list_to_map [(10, mkSll 10 10 3); (11, mkSll 11 11 1); (12, mkSll 12 12 2); (13, mkSll 13 13 1)].

Lemma sll_refines_sorted_list_witness : exists hd m,
  code_run [OpInit 10; OpInit 11; OpInit 12; OpInit 13; OpUnlink 11; OpAdjust 12 2 (-1)] sample_slls None =
    Ret ([None; None; None; Some 11; None; None], hd, m) /\ ring_rep m hd [(1, 12); (2, 10)].
Proof.
  set (S := mkSpec [] (list_to_map [(10, 3); (11, 1); (12, 2); (13, 1)])).
  destruct (sll_refines_sorted_list [OpInit 10; OpInit 11; OpInit 12; OpInit 13; OpUnlink 11; OpAdjust 12 2 (-1)] sample_slls None S)
    as (hd & m & E & [Hr _]).
  - split.
    + split; [|by constructor]. split; [done|]. split; [done|]. split; constructor.
    + intros e k H. split; [|by apply not_elem_of_nil]. apply elem_of_list_to_map_2 in H. cbn in H.
      repeat (apply elem_of_cons in H as [[= -> ->]|H]; [done|]). by apply elem_of_nil in H.
  - cbn [session_ok allowed].
    repeat match goal with
    | |- context [outside ?S] => let v := eval vm_compute in (outside S) in replace (outside S) with v by (vm_compute; reflexivity)
    | |- context [inside ?S] => let v := eval vm_compute in (inside S) in replace (inside S) with v by (vm_compute; reflexivity)
    end.
    repeat (apply conj; [by eexists|]). split; [set_solver|]. split; [|done].
    split; [set_solver|]. split; [|by repeat constructor].
    repeat constructor; cbn; lia.
  - exists hd, m. split; [rewrite E; vm_compute; reflexivity|]. exact Hr.
Defined.

End SllTheorems.
