(* ===== verification/Red.v ===== *)
(** * The red tree: [src/src/syntax/red.c]

    Handles over a green tree: a node or token with its parent, its index there and its
    absolute offset, counted by reference.  In a mutable tree a parent keeps the ring of its
    live children, so that there is one handle per position and every handle sees an edit.

    - The heap maps addresses to the structs.  [SyntaxNode] and [SyntaxToken] have one layout,
      so both are a [Cell], told apart by [is_token]; the embedded [SllNode] of every cell is
      kept in the store [slls], under the address of the cell.
    - An address is never given out twice; a read or write of a freed cell is an error.
    - A green pointer is modelled by the tree it points to: the reference counts of green
      nodes are left out, and the assertions on equal green pointers compare trees.
    - [malloc] does not fail. *)

From stdpp Require Import gmap.
From S2P Require Import Prelude SyntaxKind Green Sll.
Import SyntaxKind Green Sll.

Module Red.

#[local] Open Scope N_scope.

Record Cell : Type := mkCell {
  refcount : N;
  parent : option ptr;
  index : N;
  is_token : bool;
  mutable_ : bool;
  green : Green;
  offset : N;
  first : option ptr
}.

Definition set_refcount (n : N) (c : Cell) : Cell :=
  mkCell n (parent c) (index c) (is_token c) (mutable_ c) (green c) (offset c) (first c).
Definition set_parent (p : option ptr) (c : Cell) : Cell :=
  mkCell (refcount c) p (index c) (is_token c) (mutable_ c) (green c) (offset c) (first c).
Definition set_index (i : N) (c : Cell) : Cell :=
  mkCell (refcount c) (parent c) i (is_token c) (mutable_ c) (green c) (offset c) (first c).
Definition set_green (g : Green) (c : Cell) : Cell :=
  mkCell (refcount c) (parent c) (index c) (is_token c) (mutable_ c) g (offset c) (first c).
Definition set_first (p : option ptr) (c : Cell) : Cell :=
  mkCell (refcount c) (parent c) (index c) (is_token c) (mutable_ c) (green c) (offset c) p.

(** [brk] is the next address. *)
Record Heap : Type := mkHeap { cells : gmap ptr Cell; slls : Slls; brk : ptr }.

Definition empty_heap : Heap := mkHeap ∅ ∅ 1.

Definition put_cells (m : gmap ptr Cell) (h : Heap) : Heap := mkHeap m (slls h) (brk h).
Definition put_slls (m : Slls) (h : Heap) : Heap := mkHeap (cells h) m (brk h).

(** ** The monad *)

Definition M (A : Type) : Type := Heap -> outcome (A * Heap).

Definition ret {A} (a : A) : M A := fun h => Ret (a, h).
Definition bind {A B} (m : M A) (k : A -> M B) : M B := fun h => let! (a, h) := m h in k a h.
Definition lift {A} (m : outcome A) : M A := fun h => let! a := m in Ret (a, h).
Definition gets {A} (f : Heap -> A) : M A := fun h => Ret (f h, h).
Definition assert_ (b : bool) (site : string) : M unit := lift (oassert b site).

End Red.

Declare Scope red_scope.
Delimit Scope red_scope with red.

Notation "'let*' x ':=' m 'in' k" := (Red.bind m (fun x => k))
  (at level 10, x pattern, m at level 100, k at level 200,
   format "'[v' 'let*'  x  ':='  m  'in' '/' k ']'") : red_scope.
Notation "m ;;; k" := (Red.bind m (fun _ => k))
  (at level 100, right associativity, format "'[v' m  ;;; '/' k ']'") : red_scope.

Module RedTree.
Import Red.

#[local] Open Scope N_scope.
#[local] Open Scope red_scope.

Definition when (b : bool) (m : M unit) : M unit := if b then m else ret tt.

(** Read and write a struct. *)
Definition cell_at (p : ptr) : M Cell :=
  fun h => match cells h !! p with Some c => Ret (c, h) | None => AssertFailed "dangling pointer" end.

Definition update (f : Cell -> Cell) (p : ptr) : M unit :=
  let* c := cell_at p in fun h => Ret (tt, put_cells (<[p := f c]> (cells h)) h).

(** [malloc] and [init_common]. *)
Definition alloc (parent : option ptr) (index offset : N) (is_token mutable_ : bool) (g : Green) : M ptr :=
  fun h =>
    let p := brk h in
    Ret (p, mkHeap (<[p := mkCell 1 parent index is_token mutable_ g offset None]> (cells h))
                   (<[p := mkSll p p index]> (slls h)) (p + 1)).

Definition free (p : ptr) : M unit :=
  fun h => Ret (tt, mkHeap (delete p (cells h)) (delete p (slls h)) (brk h)).

(** The loops that climb parents or turn round a ring. *)
Definition steps : M nat := gets (fun h => S (size (cells h))).

(** ** [SyntaxTree] *)

Record SyntaxTree : Type := mkTree { root_green : Green; tree_mutable : bool }.

Definition syntax_tree_new (root : Green) : SyntaxTree := mkTree root false.
Definition syntax_tree_new_mut (root : Green) : SyntaxTree := mkTree root true.
Definition syntax_tree_root (t : SyntaxTree) : M ptr := alloc None 0 0 false (tree_mutable t) (root_green t).

(** ** Children *)

Definition syntax_node_retain (n : ptr) : M unit := update (fun c => set_refcount (u32 (refcount c + 1)) c) n.
Definition syntax_token_retain : ptr -> M unit := syntax_node_retain.

(** Equality of green trees, for the assertions. *)
Fixpoint green_eqb (a b : Green) : bool :=
  match a, b with
  | GreenToken k t, GreenToken k' t' => kind_eqb k k' && bool_decide (t = t')
  | GreenNode k n cs, GreenNode k' n' cs' =>
      kind_eqb k k' && (n =? n') &&
      (fix go (cs cs' : list (N * Green)) : bool :=
         match cs, cs' with
         | [], [] => true
         | (o, g) :: cs, (o', g') :: cs' => (o =? o') && green_eqb g g' && go cs cs'
         | _, _ => false
         end) cs cs'
  | _, _ => false
  end.

(** [node_child] and [token_child], which differ in the type of the green pointer. *)
Definition child (token : bool) (par : ptr) (g : Green) (index offset : N) : M ptr :=
  let* c := cell_at par in
  if mutable_ c then
    let* m := gets slls in
    let* r := lift (sll_link m (first c) index) in
    match r with
    | SLL_ADD_ALREADY_IN_SLL q =>
        let* existing := cell_at q in
        assert_ (Bool.eqb (is_token existing) token) "SLL slot occupied" ;;;
        assert_ (green_eqb (green existing) g) "SLL slot's green pointer mismatch" ;;;
        update (fun c => set_refcount (u32 (refcount c + 1)) c) q ;;;
        ret q
    | _ =>
        let* n := alloc (Some par) index offset token true g in
        syntax_node_retain par ;;;
        let* m := gets slls in
        let* (hd, m) := lift (sll_add m (first c) r n) in
        (fun h => Ret (tt, put_slls m h)) ;;;
        update (set_first hd) par ;;;
        ret n
    end
  else
    let* n := alloc (Some par) index offset token false g in
    syntax_node_retain par ;;;
    ret n.

Definition node_child : ptr -> Green -> N -> N -> M ptr := child false.
Definition token_child : ptr -> Green -> N -> N -> M ptr := child true.

(** ** Release *)

(** [sll_unlink(&parent->first, &n->sll)]. *)
Definition unlink (par n : ptr) : M unit :=
  let* pc := cell_at par in
  let* m := gets slls in
  let* (hd, m) := lift (sll_unlink m (first pc) n) in
  (fun h => Ret (tt, put_slls m h)) ;;;
  update (set_first hd) par.

(** Drop a reference; the answer is the parent to release when it was the last. *)
Definition drop_ref (n : ptr) (double_release live_children : string) : M (option ptr) :=
  let* c := cell_at n in
  assert_ (0 <? refcount c) double_release ;;;
  update (set_refcount (refcount c - 1)) n ;;;
  if 0 <? refcount c - 1 then ret None
  else
    (match parent c with
     | Some par => when (mutable_ c) (unlink par n)
     | None => ret tt
     end) ;;;
    let* c := cell_at n in
    assert_ (match first c with None => true | _ => false end) live_children ;;;
    free n ;;;
    ret (parent c).

Fixpoint release_from (fuel : nat) (n : ptr) : M unit :=
  match fuel with
  | O => fun _ => OutOfFuel
  | S fuel =>
      let* up := drop_ref n "double-release of SyntaxNode" "SyntaxNode freed with live children in SLL" in
      match up with Some par => release_from fuel par | None => ret tt end
  end.

Definition syntax_node_release (n : ptr) : M unit := let* fuel := steps in release_from fuel n.

Definition syntax_token_release (t : ptr) : M unit :=
  let* up := drop_ref t "double-release of SyntaxToken" "SyntaxToken freed with non-NULL first slot" in
  match up with Some par => syntax_node_release par | None => ret tt end.

Definition syntax_node_is_mutable (n : ptr) : M bool := let* c := cell_at n in ret (mutable_ c).
Definition syntax_token_is_mutable : ptr -> M bool := syntax_node_is_mutable.

(** ** Offsets and plain reads *)

Definition rel_offset (g : Green) (i : N) : N := match green_node_child g i with Some (off, _) => off | None => 0 end.

Fixpoint sum_offsets (fuel : nat) (accum : N) (cur : ptr) : M N :=
  match fuel with
  | O => fun _ => OutOfFuel
  | S fuel =>
      let* c := cell_at cur in
      match parent c with
      | None => ret accum
      | Some par =>
          let* pc := cell_at par in
          sum_offsets fuel (u32 (accum + rel_offset (green pc) (index c))) par
      end
  end.

Definition node_abs_offset (n : ptr) : M N :=
  let* c := cell_at n in
  if mutable_ c then let* fuel := steps in sum_offsets fuel 0 n else ret (offset c).

Definition token_abs_offset (t : ptr) : M N :=
  let* c := cell_at t in
  if mutable_ c then
    match parent c with
    | None => lift (AssertFailed "t->parent")
    | Some par =>
        let* pc := cell_at par in
        let* off := node_abs_offset par in
        ret (u32 (rel_offset (green pc) (index c) + off))
    end
  else ret (offset c).

Record TextRange : Set := mkRange { r_start : N; r_length : N }.

Definition text_range_end (r : TextRange) : N := u32 (r_start r + r_length r).
Definition text_range_contains (outer inner : TextRange) : bool :=
  (r_start outer <=? r_start inner) && (text_range_end inner <=? text_range_end outer).
Definition text_range_eq (a b : TextRange) : bool := (r_start a =? r_start b) && (r_length a =? r_length b).

Definition syntax_node_kind (n : ptr) : M OreSyntaxKind := let* c := cell_at n in ret (green_kind (green c)).
Definition syntax_node_text_range (n : ptr) : M TextRange :=
  let* off := node_abs_offset n in let* c := cell_at n in ret (mkRange off (green_text_len (green c))).
Definition syntax_node_green (n : ptr) : M Green := let* c := cell_at n in ret (green c).
Definition syntax_node_num_children (n : ptr) : M N := let* c := cell_at n in ret (green_node_num_children (green c)).

Definition syntax_token_kind (t : ptr) : M OreSyntaxKind := let* c := cell_at t in ret (green_kind (green c)).
Definition syntax_token_text_range (t : ptr) : M TextRange :=
  let* off := token_abs_offset t in let* c := cell_at t in ret (mkRange off (green_text_len (green c))).
Definition token_text (g : Green) : list byte := match g with GreenToken _ t => t | GreenNode _ _ _ => [] end.
Definition syntax_token_text (t : ptr) : M (list byte) := let* c := cell_at t in ret (token_text (green c)).
Definition syntax_token_green (t : ptr) : M Green := let* c := cell_at t in ret (green c).

End RedTree.
