(* ===== verification/RedNav.v ===== *)
(** * Navigation of the red tree: [src/src/syntax/red.c]

    Parents, children, siblings, tokens in document order, the token at an offset, the element
    that covers a range, and clones.  Each answer is an owned reference. *)

From stdpp Require Import gmap.
From S2P Require Import Prelude SyntaxKind Green Sll Red.
Import SyntaxKind Green Sll Red RedTree.

Module RedNav.

#[local] Open Scope N_scope.
#[local] Open Scope red_scope.

(** [SyntaxElement]: a node, a token, or the null element. *)
Inductive SyntaxElement : Set := ELEM_NONE | ELEM_NODE (n : ptr) | ELEM_TOKEN (t : ptr).

Definition syntax_element_is_none (e : SyntaxElement) : bool := match e with ELEM_NONE => true | _ => false end.

(** [SYN_ELEM_RELEASE]. *)
Definition element_release (e : SyntaxElement) : M unit :=
  match e with ELEM_NONE => ret tt | ELEM_NODE n => syntax_node_release n | ELEM_TOKEN t => syntax_token_release t end.

(** The first child from index [i] on that satisfies [f], and the last one before [i]. *)
Fixpoint find_from (f : Green -> bool) (i : N) (cs : list (N * Green)) : option (N * (N * Green)) :=
  match cs with
  | [] => None
  | (off, g) :: cs => if f g then Some (i, (off, g)) else find_from f (i + 1) cs
  end.

Definition find_next (f : Green -> bool) (i : N) (g : Green) : option (N * (N * Green)) :=
  find_from f i (drop (N.to_nat i) (green_children g)).

Fixpoint find_back (f : Green -> bool) (i : nat) (cs : list (N * Green)) : option (N * (N * Green)) :=
  match i with
  | O => None
  | S i =>
      match nth_error cs i with
      | Some (off, g) => if f g then Some (N.of_nat i, (off, g)) else find_back f i cs
      | None => find_back f i cs
      end
  end.

Definition find_prev (f : Green -> bool) (i : N) (g : Green) : option (N * (N * Green)) :=
  find_back f (N.to_nat i) (green_children g).

(** A handle of the child found. *)
Definition node_at (par : ptr) (found : option (N * (N * Green))) : M (option ptr) :=
  match found with
  | None => ret None
  | Some (i, (off, g)) =>
      let* base := node_abs_offset par in
      let* n := node_child par g i (u32 (base + off)) in
      ret (Some n)
  end.

Definition syntax_node_parent (n : ptr) : M (option ptr) :=
  let* c := cell_at n in
  match parent c with
  | None => ret None
  | Some par => syntax_node_retain par ;;; ret (Some par)
  end.

(** A token is never a root; the parent of a detached one is NULL and retaining it does nothing. *)
Definition syntax_token_parent : ptr -> M (option ptr) := syntax_node_parent.

Definition syntax_node_child (n : ptr) (i : N) : M (option ptr) :=
  let* c := cell_at n in
  match green_node_child (green c) i with
  | Some (off, g) => if green_is_node g then node_at n (Some (i, (off, g))) else ret None
  | None => ret None
  end.

Definition syntax_node_first_child (n : ptr) : M (option ptr) :=
  let* c := cell_at n in node_at n (find_next green_is_node 0 (green c)).

Definition syntax_node_next_sibling (n : ptr) : M (option ptr) :=
  let* c := cell_at n in
  match parent c with
  | None => ret None
  | Some par => let* pc := cell_at par in node_at par (find_next green_is_node (index c + 1) (green pc))
  end.

Definition syntax_node_prev_sibling (n : ptr) : M (option ptr) :=
  let* c := cell_at n in
  match parent c with
  | None => ret None
  | Some par => let* pc := cell_at par in node_at par (find_prev green_is_node (index c) (green pc))
  end.

(** ** Elements *)

Definition wrap_child (par : ptr) (i : N) : M SyntaxElement :=
  let* c := cell_at par in
  match green_node_child (green c) i with
  | None => ret ELEM_NONE
  | Some (off, g) =>
      let* base := node_abs_offset par in
      if green_is_node g
      then let* n := node_child par g i (u32 (base + off)) in ret (ELEM_NODE n)
      else let* t := token_child par g i (u32 (base + off)) in ret (ELEM_TOKEN t)
  end.

Definition syntax_node_child_or_token (n : ptr) (i : N) : M SyntaxElement :=
  let* c := cell_at n in
  if green_node_num_children (green c) <=? i then ret ELEM_NONE else wrap_child n i.

Definition syntax_node_first_child_or_token (n : ptr) : M SyntaxElement :=
  let* c := cell_at n in
  if green_node_num_children (green c) =? 0 then ret ELEM_NONE else wrap_child n 0.

Definition syntax_node_last_child_or_token (n : ptr) : M SyntaxElement :=
  let* c := cell_at n in
  let count := green_node_num_children (green c) in
  if count =? 0 then ret ELEM_NONE else wrap_child n (count - 1).

Definition syntax_node_next_sibling_or_token (n : ptr) : M SyntaxElement :=
  let* c := cell_at n in
  match parent c with
  | None => ret ELEM_NONE
  | Some par =>
      let* pc := cell_at par in
      if green_node_num_children (green pc) <=? index c + 1 then ret ELEM_NONE else wrap_child par (index c + 1)
  end.

Definition syntax_node_prev_sibling_or_token (n : ptr) : M SyntaxElement :=
  let* c := cell_at n in
  match parent c with
  | None => ret ELEM_NONE
  | Some par => if index c =? 0 then ret ELEM_NONE else wrap_child par (index c - 1)
  end.

(** The token functions read the parent without a test. *)
Definition token_par (t : ptr) : M ptr :=
  let* c := cell_at t in
  match parent c with Some par => ret par | None => lift (AssertFailed "t->parent") end.

Definition syntax_token_next_sibling_or_token (t : ptr) : M SyntaxElement :=
  let* c := cell_at t in
  let* par := token_par t in
  let* pc := cell_at par in
  if green_node_num_children (green pc) <=? index c + 1 then ret ELEM_NONE else wrap_child par (index c + 1).

Definition syntax_token_prev_sibling_or_token (t : ptr) : M SyntaxElement :=
  let* c := cell_at t in
  if index c =? 0 then ret ELEM_NONE
  else let* par := token_par t in wrap_child par (index c - 1).

(** ** Tokens in document order *)

(** A descent goes down one level of the tree a turn. *)
Fixpoint green_height (g : Green) : nat :=
  match g with
  | GreenNode _ _ cs => S (foldr (fun c n => Nat.max (green_height c.2) n) 0%nat cs)
  | GreenToken _ _ => 0%nat
  end.

(** Where the scan of a level stops: at a token, or at a node that is not empty. *)
Definition stops_at (g : Green) : bool := negb (green_is_node g) || (0 <? green_text_len g).

Fixpoint leaf_token (fuel : nat) (find : Green -> option (N * (N * Green))) (current : ptr) : M (option ptr) :=
  match fuel with
  | O => fun _ => OutOfFuel
  | S fuel =>
      let* c := cell_at current in
      match find (green c) with
      | None => syntax_node_release current ;;; ret None
      | Some (i, (off, g)) =>
          let* cur_off := node_abs_offset current in
          if green_is_node g then
            let* n := node_child current g i (u32 (cur_off + off)) in
            syntax_node_release current ;;;
            leaf_token fuel find n
          else
            let* t := token_child current g i (u32 (cur_off + off)) in
            syntax_node_release current ;;;
            ret (Some t)
      end
  end.

Definition syntax_node_first_token (n : ptr) : M (option ptr) :=
  let* c := cell_at n in
  syntax_node_retain n ;;; leaf_token (S (green_height (green c))) (find_next stops_at 0) n.

Definition syntax_node_last_token (n : ptr) : M (option ptr) :=
  let* c := cell_at n in
  syntax_node_retain n ;;;
  leaf_token (S (green_height (green c))) (fun g => find_prev stops_at (green_node_num_children g) g) n.

Definition element_leftmost_token (e : SyntaxElement) : M (option ptr) :=
  match e with
  | ELEM_TOKEN t => ret (Some t)
  | ELEM_NODE n => let* t := syntax_node_first_token n in syntax_node_release n ;;; ret t
  | ELEM_NONE => lift (AssertFailed "dangling pointer")
  end.

Definition element_rightmost_token (e : SyntaxElement) : M (option ptr) :=
  match e with
  | ELEM_TOKEN t => ret (Some t)
  | ELEM_NODE n => let* t := syntax_node_last_token n in syntax_node_release n ;;; ret t
  | ELEM_NONE => lift (AssertFailed "dangling pointer")
  end.

(** The climb: the first ancestor with a sibling on the side asked for. *)
Fixpoint climb (fuel : nat) (sibling : ptr -> M SyntaxElement) (leaf : SyntaxElement -> M (option ptr)) (cur : ptr)
    : M (option ptr) :=
  match fuel with
  | O => fun _ => OutOfFuel
  | S fuel =>
      let* sib := sibling cur in
      if syntax_element_is_none sib then
        let* par := syntax_node_parent cur in
        syntax_node_release cur ;;;
        match par with Some par => climb fuel sibling leaf par | None => ret None end
      else syntax_node_release cur ;;; leaf sib
  end.

Definition token_neighbour (token_sibling sibling : ptr -> M SyntaxElement) (leaf : SyntaxElement -> M (option ptr)) (t : ptr)
    : M (option ptr) :=
  let* sib := token_sibling t in
  if syntax_element_is_none sib then
    let* cur := token_par t in
    syntax_node_retain cur ;;;
    let* fuel := steps in climb fuel sibling leaf cur
  else leaf sib.

Definition syntax_token_next_token : ptr -> M (option ptr) :=
  token_neighbour syntax_token_next_sibling_or_token syntax_node_next_sibling_or_token element_leftmost_token.
Definition syntax_token_prev_token : ptr -> M (option ptr) :=
  token_neighbour syntax_token_prev_sibling_or_token syntax_node_prev_sibling_or_token element_rightmost_token.

(** ** Ranges and offsets *)

Definition syntax_node_child_range (n : ptr) (i : N) : M TextRange :=
  let* c := cell_at n in
  match green_node_child (green c) i with
  | None => ret (mkRange 0 0)
  | Some (off, g) => let* base := node_abs_offset n in ret (mkRange (u32 (base + off)) (green_text_len g))
  end.

Definition syntax_node_child_green (n : ptr) (i : N) : M (option (N * Green)) :=
  let* c := cell_at n in ret (green_node_child (green c) i).

(** [TokenAtOffset]. *)
Inductive TokenAtOffset : Set := AT_NONE | AT_SINGLE (t : ptr) | AT_BETWEEN (left right : ptr).

(** The loop over the children that touch the offset: the first two of them. *)
Fixpoint touching (count : nat) (node : ptr) (i off : N) (left : SyntaxElement) : M (SyntaxElement * SyntaxElement) :=
  match count with
  | O => ret (left, ELEM_NONE)
  | S count =>
      let* cr := syntax_node_child_range node i in
      if negb (r_length cr =? 0) && (r_start cr <=? off) && (off <=? text_range_end cr) then
        let* e := syntax_node_child_or_token node i in
        if syntax_element_is_none left then touching count node (i + 1) off e else ret (left, e)
      else touching count node (i + 1) off left
  end.

Definition at_release (r : TokenAtOffset) : M unit :=
  match r with AT_SINGLE t => syntax_token_release t | _ => ret tt end.

Fixpoint token_at_offset_recurse (fuel : nat) (node : ptr) (off : N) : M TokenAtOffset :=
  match fuel with
  | O => fun _ => OutOfFuel
  | S fuel =>
      let recurse_elem (e : SyntaxElement) : M TokenAtOffset :=
        match e with
        | ELEM_TOKEN t => ret (AT_SINGLE t)
        | ELEM_NODE n => let* r := token_at_offset_recurse fuel n off in syntax_node_release n ;;; ret r
        | ELEM_NONE => lift (AssertFailed "dangling pointer")
        end in
      let* c := cell_at node in
      if green_text_len (green c) =? 0 then ret AT_NONE
      else
        let* (left_e, right_e) := touching (N.to_nat (green_node_num_children (green c))) node 0 off ELEM_NONE in
        if syntax_element_is_none left_e then ret AT_NONE
        else if syntax_element_is_none right_e then recurse_elem left_e
        else
          let* left_r := recurse_elem left_e in
          let* right_r := recurse_elem right_e in
          match left_r, right_r with
          | AT_SINGLE l, AT_SINGLE r => ret (AT_BETWEEN l r)
          | _, _ => at_release left_r ;;; at_release right_r ;;; ret AT_NONE
          end
  end.

Definition syntax_token_at_offset (root : ptr) (off : N) : M TokenAtOffset :=
  let* c := cell_at root in
  let* r := syntax_node_text_range root in
  if (off <? r_start r) || (text_range_end r <? off) then ret AT_NONE
  else token_at_offset_recurse (S (green_height (green c))) root off.

Fixpoint child_at_range (count : nat) (n : ptr) (i : N) (range : TextRange) : M SyntaxElement :=
  match count with
  | O => ret ELEM_NONE
  | S count =>
      let* cr := syntax_node_child_range n i in
      if negb (r_length cr =? 0) && text_range_contains cr range then wrap_child n i
      else child_at_range count n (i + 1) range
  end.

Definition syntax_node_child_or_token_at_range (n : ptr) (range : TextRange) : M SyntaxElement :=
  let* c := cell_at n in child_at_range (N.to_nat (green_node_num_children (green c))) n 0 range.

Fixpoint covering (fuel : nat) (cur : SyntaxElement) (range : TextRange) : M SyntaxElement :=
  match cur with
  | ELEM_NODE n =>
      match fuel with
      | O => fun _ => OutOfFuel
      | S fuel =>
          let* child := syntax_node_child_or_token_at_range n range in
          if syntax_element_is_none child then ret cur
          else syntax_node_release n ;;; covering fuel child range
      end
  | _ => ret cur
  end.

Definition syntax_node_covering_element (n : ptr) (range : TextRange) : M SyntaxElement :=
  let* c := cell_at n in
  let* node_range := syntax_node_text_range n in
  if negb (text_range_contains node_range range) then ret ELEM_NONE
  else syntax_node_retain n ;;; covering (S (green_height (green c))) (ELEM_NODE n) range.

(** ** By kind *)

Definition has_kind (k : OreSyntaxKind) (g : Green) : bool := kind_eqb (green_kind g) k.
Definition node_of_kind (k : OreSyntaxKind) (g : Green) : bool := green_is_node g && has_kind k g.

Definition wrap_found (par : ptr) (found : option (N * (N * Green))) : M SyntaxElement :=
  match found with Some (i, _) => wrap_child par i | None => ret ELEM_NONE end.

Definition syntax_node_first_child_by_kind (n : ptr) (k : OreSyntaxKind) : M (option ptr) :=
  let* c := cell_at n in node_at n (find_next (node_of_kind k) 0 (green c)).

Definition syntax_node_first_child_or_token_by_kind (n : ptr) (k : OreSyntaxKind) : M SyntaxElement :=
  let* c := cell_at n in wrap_found n (find_next (has_kind k) 0 (green c)).

Definition syntax_node_next_sibling_by_kind (n : ptr) (k : OreSyntaxKind) : M (option ptr) :=
  let* c := cell_at n in
  match parent c with
  | None => ret None
  | Some par => let* pc := cell_at par in node_at par (find_next (node_of_kind k) (index c + 1) (green pc))
  end.

Definition syntax_node_next_sibling_or_token_by_kind (n : ptr) (k : OreSyntaxKind) : M SyntaxElement :=
  let* c := cell_at n in
  match parent c with
  | None => ret ELEM_NONE
  | Some par => let* pc := cell_at par in wrap_found par (find_next (has_kind k) (index c + 1) (green pc))
  end.

Definition syntax_token_next_sibling_or_token_by_kind (t : ptr) (k : OreSyntaxKind) : M SyntaxElement :=
  let* c := cell_at t in
  let* par := token_par t in
  let* pc := cell_at par in
  wrap_found par (find_next (has_kind k) (index c + 1) (green pc)).

(** ** Clones *)

Fixpoint clone_up (fuel : nat) (node : ptr) : M ptr :=
  match fuel with
  | O => fun _ => OutOfFuel
  | S fuel =>
      let* c := cell_at node in
      assert_ (negb (mutable_ c)) "clone_for_update: input must be immutable" ;;;
      match parent c with
      | None => alloc None 0 0 false true (green c)
      | Some par =>
          let* cloned_parent := clone_up fuel par in
          let* clone := node_child cloned_parent (green c) (index c) (offset c) in
          syntax_node_release cloned_parent ;;;
          ret clone
      end
  end.

Definition syntax_node_clone_for_update (node : ptr) : M ptr := let* fuel := steps in clone_up fuel node.

Definition syntax_node_clone_subtree (node : ptr) : M ptr :=
  let* c := cell_at node in alloc None 0 0 false false (green c).

End RedNav.
