(* ===== verification/RedEdit.v ===== *)
(** * Edits of a mutable red tree: [src/src/syntax/red.c]

    Each edit builds the new green node of one parent and climbs to the root, giving every
    ancestor its new green node ([respine]), and keeps the rings of live children in step
    with the indices. *)

From stdpp Require Import gmap.
From S2P Require Import Prelude SyntaxKind Green Sll Red RedNav.
Import SyntaxKind Green Sll Red RedTree RedNav.

Module RedEdit.

#[local] Open Scope N_scope.
#[local] Open Scope red_scope.

(** The second loop: [outer->index = curr->key] round the ring. *)
Fixpoint sync_loop (fuel : nat) (elem curr : ptr) : M unit :=
  match fuel with
  | O => fun _ => OutOfFuel
  | S fuel =>
      let* m := gets slls in
      let* n := lift (sll_at m curr) in
      update (set_index (key n)) curr ;;;
      if next n =? elem then ret tt else sync_loop fuel elem (next n)
  end.

Definition sll_adjust_and_sync (elem : ptr) (from : N) (delta : Z) : M unit :=
  let* m := gets slls in
  let* m := lift (sll_adjust m elem from delta) in
  (fun h => Ret (tt, put_slls m h)) ;;;
  let* fuel := steps in
  sync_loop fuel elem elem.

Fixpoint respine_from (fuel : nat) (cur : ptr) (new_green : Green) : M unit :=
  match fuel with
  | O => fun _ => OutOfFuel
  | S fuel =>
      update (set_green new_green) cur ;;;
      let* c := cell_at cur in
      match parent c with
      | None => ret tt
      | Some par =>
          let* pc := cell_at par in
          let* new_parent_green := lift (green_node_replace_child (green pc) (N.to_nat (index c)) (0, new_green)) in
          respine_from fuel par new_parent_green
      end
  end.

Definition respine (node : ptr) (new_green : Green) : M unit := let* fuel := steps in respine_from fuel node new_green.

Definition detach_common (node : ptr) : M unit :=
  let* c := cell_at node in
  assert_ (mutable_ c) "detach: node must be mutable" ;;;
  assert_ (0 <? refcount c) "node->refcount > 0" ;;;
  match parent c with
  | None => ret tt
  | Some par =>
      let my_index := index c in
      sll_adjust_and_sync node (my_index + 1) (-1) ;;;
      unlink par node ;;;
      let* pc := cell_at par in
      let* new_parent_green := lift (green_node_remove_child (green pc) (N.to_nat my_index)) in
      respine par new_parent_green ;;;
      update (set_parent None) node ;;;
      syntax_node_release par
  end.

Definition syntax_node_detach : ptr -> M unit := detach_common.
Definition syntax_token_detach : ptr -> M unit := detach_common.

(** [child_data->sll.key = index]. *)
Definition set_sll_key (p : ptr) (k : N) : M unit :=
  let* m := gets slls in
  let* m := lift (sll_update (set_key k) p m) in
  fun h => Ret (tt, put_slls m h).

Definition elem_data (e : SyntaxElement) : M ptr :=
  match e with ELEM_NODE p | ELEM_TOKEN p => ret p | ELEM_NONE => lift (AssertFailed "dangling pointer") end.

Definition attach_child (par : ptr) (idx : N) (child : SyntaxElement) : M unit :=
  let* pc := cell_at par in
  assert_ (mutable_ pc) "attach: parent must be mutable" ;;;
  let* child_data := elem_data child in
  let* cc := cell_at child_data in
  assert_ (mutable_ cc) "attach: child must be mutable" ;;;
  assert_ (match parent cc with None => true | _ => false end) "attach: child must be detached" ;;;
  assert_ (idx <=? green_node_num_children (green pc)) "attach: index out of range" ;;;
  update (set_parent (Some par)) child_data ;;;
  update (set_index idx) child_data ;;;
  set_sll_key child_data idx ;;;
  syntax_node_retain par ;;;
  let* pc := cell_at par in
  match first pc with Some hd => sll_adjust_and_sync hd idx 1 | None => ret tt end ;;;
  let* pc := cell_at par in
  let* m := gets slls in
  let* r := lift (sll_link m (first pc) idx) in
  assert_ (match r with SLL_ADD_ALREADY_IN_SLL _ => false | _ => true end) "attach: index collision" ;;;
  let* (hd, m) := lift (sll_add m (first pc) r child_data) in
  (fun h => Ret (tt, put_slls m h)) ;;;
  update (set_first hd) par ;;;
  let* pc := cell_at par in
  let* cc := cell_at child_data in
  let* new_parent_green := lift (green_node_insert_child (green pc) (N.to_nat idx) (0, green cc)) in
  respine par new_parent_green.

(** The handles of the children [from .. from + count), in order. *)
Fixpoint snapshot (count : nat) (par : ptr) (from : N) : M (list SyntaxElement) :=
  match count with
  | O => ret []
  | S count =>
      let* e := syntax_node_child_or_token par from in
      let* es := snapshot count par (from + 1) in
      ret (e :: es)
  end.

Fixpoint each (f : SyntaxElement -> M unit) (es : list SyntaxElement) : M unit :=
  match es with [] => ret tt | e :: es => f e ;;; each f es end.

Fixpoint attach_all (par : ptr) (idx : N) (es : list SyntaxElement) : M unit :=
  match es with [] => ret tt | e :: es => attach_child par idx e ;;; attach_all par (idx + 1) es end.

Definition syntax_node_splice_children (par : ptr) (from to : N) (replace : list SyntaxElement) : M unit :=
  let* pc := cell_at par in
  assert_ (mutable_ pc) "splice: parent must be mutable" ;;;
  assert_ (from <=? to) "from <= to" ;;;
  assert_ (to <=? green_node_num_children (green pc)) "to <= green_node_num_children(parent->green)" ;;;
  let* snap := snapshot (N.to_nat (to - from)) par from in
  each (fun e => let* p := elem_data e in detach_common p) (reverse snap) ;;;
  each element_release snap ;;;
  attach_all par from replace.

(** The root of a tree. *)
Fixpoint root_of (fuel : nat) (n : ptr) : M ptr :=
  match fuel with
  | O => fun _ => OutOfFuel
  | S fuel => let* c := cell_at n in match parent c with None => ret n | Some par => root_of fuel par end
  end.

(** The green tree of the root with [current] in the place of [cur]'s. *)
Fixpoint bubble (fuel : nat) (cur : ptr) (current : Green) : M Green :=
  match fuel with
  | O => fun _ => OutOfFuel
  | S fuel =>
      let* c := cell_at cur in
      match parent c with
      | None => ret current
      | Some par =>
          let* pc := cell_at par in
          let* up := lift (green_node_replace_child (green pc) (N.to_nat (index c)) (0, current)) in
          bubble fuel par up
      end
  end.

Definition syntax_node_replace_with (node : ptr) (replacement : Green) : M Green :=
  let* c := cell_at node in
  assert_ (kind_eqb (green_kind replacement) (green_kind (green c))) "replace_with: kind mismatch" ;;;
  if mutable_ c then
    respine node replacement ;;;
    let* fuel := steps in
    let* root := root_of fuel node in
    let* rc := cell_at root in
    ret (green rc)
  else let* fuel := steps in bubble fuel node replacement.

Definition syntax_token_replace_with (tok : ptr) (replacement : Green) : M Green :=
  let* c := cell_at tok in
  assert_ (kind_eqb (green_kind replacement) (green_kind (green c))) "replace_with: kind mismatch" ;;;
  match parent c with
  | None => lift (AssertFailed "token has no parent")
  | Some par =>
      let* pc := cell_at par in
      let* new_parent_green := lift (green_node_replace_child (green pc) (N.to_nat (index c)) (0, replacement)) in
      let* fuel := steps in
      if mutable_ c then
        respine par new_parent_green ;;;
        let* root := root_of fuel par in
        let* rc := cell_at root in
        ret (green rc)
      else bubble fuel par new_parent_green
  end.

End RedEdit.
