(* ===== verification/RedPtr.v ===== *)
(** * Stable node pointers: [src/src/syntax/ptr.c]

    A node is named by its kind and range and found again in a tree by a descent with a
    binary search at each level.  [Handle] has the handles of an immutable tree as values. *)

From stdpp Require Import gmap.
From S2P Require Import Prelude SyntaxKind Green Sll Red RedNav.
Import SyntaxKind Green Sll Red RedTree RedNav.

Module RedPtr.

#[local] Open Scope N_scope.
#[local] Open Scope red_scope.

Record SyntaxNodePtr : Set := mkNodePtr { ptr_kind : OreSyntaxKind; ptr_range : TextRange }.

Definition syntax_node_ptr_new (node : ptr) : M SyntaxNodePtr :=
  let* k := syntax_node_kind node in
  let* r := syntax_node_text_range node in
  ret (mkNodePtr k r).

(** The binary search; [UINT32_MAX] is [None]. *)
Fixpoint search_child (fuel : nat) (par : ptr) (target : TextRange) (lo hi : N) : M (option N) :=
  match fuel with
  | O => fun _ => OutOfFuel
  | S fuel =>
      if lo <? hi then
        let mid := lo + (hi - lo) / 2 in
        let* child := syntax_node_child_range par mid in
        if text_range_end child <=? r_start target then search_child fuel par target (mid + 1) hi
        else if r_start target <? r_start child then search_child fuel par target lo mid
        else ret (if text_range_contains child target then Some mid else None)
      else ret None
  end.

Definition find_child_containing (par : ptr) (target : TextRange) : M (option N) :=
  let* count := syntax_node_num_children par in
  search_child (S (N.to_nat count)) par target 0 count.

Definition matches (p : SyntaxNodePtr) (n : ptr) : M bool :=
  let* k := syntax_node_kind n in
  let* r := syntax_node_text_range n in
  ret (kind_eqb k (ptr_kind p) && text_range_eq r (ptr_range p)).

Fixpoint resolve_from (fuel : nat) (p : SyntaxNodePtr) (current : ptr) : M (option ptr) :=
  match fuel with
  | O => fun _ => OutOfFuel
  | S fuel =>
      let* current_range := syntax_node_text_range current in
      if text_range_eq current_range (ptr_range p) then syntax_node_release current ;;; ret None
      else
        let* idx := find_child_containing current (ptr_range p) in
        match idx with
        | None => syntax_node_release current ;;; ret None
        | Some idx =>
            let* child := syntax_node_child_green current idx in
            match child with
            | Some (_, g) =>
                if green_is_node g then
                  let* nxt := syntax_node_child current idx in
                  match nxt with
                  | None => lift (AssertFailed "child returned NULL despite green peek showing a node")
                  | Some nxt =>
                      let* found := matches p nxt in
                      syntax_node_release current ;;;
                      if found : bool then ret (Some nxt) else resolve_from fuel p nxt
                  end
                else syntax_node_release current ;;; ret None
            | None => syntax_node_release current ;;; ret None
            end
        end
  end.

Definition syntax_node_ptr_resolve (p : SyntaxNodePtr) (root : ptr) : M (option ptr) :=
  let* found := matches p root in
  if found : bool then syntax_node_retain root ;;; ret (Some root)
  else
    let* c := cell_at root in
    syntax_node_retain root ;;;
    resolve_from (S (green_height (green c))) p root.

End RedPtr.

(** ** Immutable handles as values: [src/src/syntax/red.c], [ptr.c]

    A handle of an immutable tree never changes: it is its green tree, its absolute offset,
    and its parent with its index there.  Code that only reads, the typed accessors and the
    queries, is modelled on such values; the references it retains and releases have no
    trace here.  [HandleRefine] proves that the calls on the heap of [Red] read these values. *)

Module Handle.

Import RedPtr.

#[local] Open Scope N_scope.

(** A [SyntaxNode] or a [SyntaxToken]. *)
Inductive Node : Type := mkNode { tree : Green; start : N; above : option (Node * N) }.

(** [syntax_tree_root] of an immutable tree. *)
Definition tree_root (g : Green) : Node := mkNode g 0 None.

Definition is_node (n : Node) : bool := green_is_node (tree n).
Definition node_kind (n : Node) : OreSyntaxKind := green_kind (tree n).
Definition node_range (n : Node) : TextRange := mkRange (start n) (green_text_len (tree n)).
Definition text_of (n : Node) : list byte := token_text (tree n).

(** The child at [i], where element [e] is. *)
Definition child_node (n : Node) (i : N) (e : N * Green) : Node := mkNode e.2 (u32 (start n + e.1)) (Some (n, i)).

Definition child_or_token (n : Node) (i : N) : option Node := child_node n i <$> green_node_child (tree n) i.

(** What the loops over [syntax_node_child_or_token(n, i)] visit, from index [i] on. *)
Fixpoint children_from (n : Node) (i : N) (cs : list (N * Green)) : list Node :=
  match cs with
  | [] => []
  | e :: cs => child_node n i e :: children_from n (i + 1) cs
  end.

Definition children (n : Node) : list Node := children_from n 0 (green_children (tree n)).
Definition node_children (n : Node) : list Node := filter is_node (children n).

(** The siblings after a handle, nearest first. *)
Definition siblings_after (n : Node) : list Node :=
  match above n with
  | None => []
  | Some (par, i) => drop (S (N.to_nat i)) (children par)
  end.

Definition of_kind (k : OreSyntaxKind) (n : Node) : bool := kind_eqb (node_kind n) k.

Definition first_child_by_kind (n : Node) (k : OreSyntaxKind) : option Node :=
  List.find (fun e => is_node e && of_kind k e) (children n).

Definition first_child_or_token_by_kind (n : Node) (k : OreSyntaxKind) : option Node := List.find (of_kind k) (children n).

Definition next_sibling (n : Node) : option Node := List.find is_node (siblings_after n).

Definition next_sibling_by_kind (n : Node) (k : OreSyntaxKind) : option Node :=
  List.find (fun e => is_node e && of_kind k e) (siblings_after n).

Definition first_node (n : Node) : option Node := List.find is_node (children n).

(** ** Stable pointers *)

Definition ptr_of (n : Node) : SyntaxNodePtr := mkNodePtr (node_kind n) (node_range n).

Definition syntax_node_ptr_eq (a b : SyntaxNodePtr) : bool :=
  kind_eqb (ptr_kind a) (ptr_kind b) && text_range_eq (ptr_range a) (ptr_range b).

Definition syntax_node_ptr_hash (p : SyntaxNodePtr) : N :=
  fxhash_u64 (fxhash_u64 (fxhash_u64 FXHASH_SEED (kind_code (ptr_kind p))) (r_start (ptr_range p))) (r_length (ptr_range p)).

End Handle.
