(* ===== verification/RedIter.v ===== *)
(** * Iterators over the red tree: [src/src/syntax/iter.c]

    Cursors driven by a [next] function; each element they yield is an owned reference and
    the cursor owns what it stands on. *)

From stdpp Require Import gmap.
From S2P Require Import Prelude SyntaxKind Green Sll Red RedNav.
Import SyntaxKind Green Sll Red RedTree RedNav.

Module RedIter.

#[local] Open Scope N_scope.
#[local] Open Scope red_scope.

Definition retain_opt (n : option ptr) : M unit := match n with Some n => syntax_node_retain n | None => ret tt end.
Definition release_opt (n : option ptr) : M unit := match n with Some n => syntax_node_release n | None => ret tt end.

(** ** [SyntaxAncestors] *)

Record SyntaxAncestors : Set := mkAncestors { current : option ptr; emitted_first : bool }.

Definition syntax_ancestors_init (start : option ptr) : M SyntaxAncestors :=
  retain_opt start ;;; ret (mkAncestors start false).

Definition syntax_ancestors_next (it : SyntaxAncestors) : M (option ptr * SyntaxAncestors) :=
  match current it with
  | None => ret (None, it)
  | Some cur =>
      if emitted_first it then
        let* par := syntax_node_parent cur in
        syntax_node_release cur ;;;
        retain_opt par ;;;
        ret (par, mkAncestors par true)
      else
        syntax_node_retain cur ;;;
        ret (Some cur, mkAncestors (Some cur) true)
  end.

Definition syntax_ancestors_free (it : SyntaxAncestors) : M SyntaxAncestors :=
  release_opt (current it) ;;; ret (mkAncestors None (emitted_first it)).

Definition syntax_token_ancestors_init (start : option ptr) : M SyntaxAncestors :=
  let* par := match start with Some t => syntax_token_parent t | None => ret None end in
  let* it := syntax_ancestors_init par in
  release_opt par ;;;
  ret it.

(** ** [SyntaxChildren] and [SyntaxChildrenElem] *)

Inductive SyntaxDirection : Set := SYNTAX_DIR_NEXT | SYNTAX_DIR_PREV.

Record SyntaxChildren : Set := mkChildren { of_parent : option ptr; next_index : N; dir : SyntaxDirection }.

Definition syntax_children_init (par : ptr) (d : SyntaxDirection) : M SyntaxChildren :=
  syntax_node_retain par ;;;
  let* count := syntax_node_num_children par in
  ret (mkChildren (Some par) (match d with SYNTAX_DIR_NEXT => 0 | SYNTAX_DIR_PREV => count end) d).

Definition cursor_parent (it : SyntaxChildren) : M ptr :=
  match of_parent it with Some par => ret par | None => lift (AssertFailed "dangling pointer") end.

(** The next index, and the cursor behind it. *)
Definition children_step (it : SyntaxChildren) (count : N) : option (N * SyntaxChildren) :=
  match dir it with
  | SYNTAX_DIR_NEXT =>
      if count <=? next_index it then None else Some (next_index it, mkChildren (of_parent it) (next_index it + 1) (dir it))
  | SYNTAX_DIR_PREV =>
      if next_index it =? 0 then None else Some (next_index it - 1, mkChildren (of_parent it) (next_index it - 1) (dir it))
  end.

Fixpoint children_loop (fuel : nat) (par : ptr) (count : N) (it : SyntaxChildren) : M (option ptr * SyntaxChildren) :=
  match fuel with
  | O => fun _ => OutOfFuel
  | S fuel =>
      match children_step it count with
      | None => ret (None, it)
      | Some (idx, it) =>
          let* child := syntax_node_child par idx in
          match child with Some c => ret (Some c, it) | None => children_loop fuel par count it end
      end
  end.

Definition syntax_children_next (it : SyntaxChildren) : M (option ptr * SyntaxChildren) :=
  let* par := cursor_parent it in
  let* count := syntax_node_num_children par in
  children_loop (S (N.to_nat count)) par count it.

Definition syntax_children_elem_next (it : SyntaxChildren) : M (SyntaxElement * SyntaxChildren) :=
  let* par := cursor_parent it in
  let* count := syntax_node_num_children par in
  match children_step it count with
  | None => ret (ELEM_NONE, it)
  | Some (idx, it) => let* e := syntax_node_child_or_token par idx in ret (e, it)
  end.

Definition syntax_children_free (it : SyntaxChildren) : M SyntaxChildren :=
  release_opt (of_parent it) ;;; ret (mkChildren None (next_index it) (dir it)).

Definition syntax_children_elem_init : ptr -> SyntaxDirection -> M SyntaxChildren := syntax_children_init.
Definition syntax_children_elem_free : SyntaxChildren -> M SyntaxChildren := syntax_children_free.

(** ** [SyntaxPreorder] *)

Record SyntaxPreorder : Set := mkPreorder {
  po_current : SyntaxElement;
  descending : bool;
  po_root : option ptr;
  started : bool;
  finished : bool;
  skip_pending : bool
}.

Inductive SyntaxWalkEvent : Set :=
  | EVENT_NONE
  | WALK_ENTER (e : SyntaxElement)
  | WALK_LEAVE (e : SyntaxElement).

Definition syntax_preorder_init (root : ptr) : M SyntaxPreorder :=
  syntax_node_retain root ;;; ret (mkPreorder ELEM_NONE false (Some root) false false false).

Definition syntax_preorder_skip_subtree (it : SyntaxPreorder) : SyntaxPreorder :=
  if descending it && negb (finished it) && negb (syntax_element_is_none (po_current it))
  then mkPreorder (po_current it) (descending it) (po_root it) (started it) (finished it) true
  else it.

Definition preorder_first_child (e : SyntaxElement) : M SyntaxElement :=
  match e with ELEM_NODE n => syntax_node_first_child_or_token n | _ => ret ELEM_NONE end.

Definition preorder_next_sibling (e : SyntaxElement) : M SyntaxElement :=
  match e with
  | ELEM_NODE n => syntax_node_next_sibling_or_token n
  | ELEM_TOKEN t => syntax_token_next_sibling_or_token t
  | ELEM_NONE => ret ELEM_NONE
  end.

Definition preorder_parent (root : ptr) (e : SyntaxElement) : M SyntaxElement :=
  let* par :=
    match e with
    | ELEM_NODE n => if n =? root then ret None else syntax_node_parent n
    | ELEM_TOKEN t => syntax_token_parent t
    | ELEM_NONE => lift (AssertFailed "dangling pointer")
    end in
  ret (match par with Some par => ELEM_NODE par | None => ELEM_NONE end).

(** The same kind and range. *)
Definition same_place (a b : ptr) : M bool :=
  let* ka := syntax_node_kind a in
  let* kb := syntax_node_kind b in
  let* ra := syntax_node_text_range a in
  let* rb := syntax_node_text_range b in
  ret (kind_eqb ka kb && text_range_eq ra rb).

Definition preorder_is_root (root : ptr) (e : SyntaxElement) : M bool :=
  match e with ELEM_NODE n => same_place n root | _ => ret false end.

Definition retain_elem (e : SyntaxElement) : M SyntaxElement :=
  match e with
  | ELEM_NODE n => syntax_node_retain n
  | ELEM_TOKEN t => syntax_token_retain t
  | ELEM_NONE => ret tt
  end ;;; ret e.

Definition cursor_root (it : SyntaxPreorder) : M ptr :=
  match po_root it with Some root => ret root | None => lift (AssertFailed "dangling pointer") end.

(** The cursor on [e]; [d] when it descends next. *)
Definition on (it : SyntaxPreorder) (e : SyntaxElement) (d : bool) : SyntaxPreorder :=
  mkPreorder e d (po_root it) (started it) (finished it) (skip_pending it).

Definition clear_skip (it : SyntaxPreorder) : SyntaxPreorder :=
  mkPreorder (po_current it) (descending it) (po_root it) (started it) (finished it) false.

Definition done_at (it : SyntaxPreorder) : SyntaxPreorder :=
  mkPreorder ELEM_NONE (descending it) (po_root it) (started it) true (skip_pending it).

Definition syntax_preorder_next (it : SyntaxPreorder) : M (SyntaxWalkEvent * SyntaxPreorder) :=
  if finished it then ret (EVENT_NONE, it)
  else
    let* root := cursor_root it in
    if negb (started it) then
      syntax_node_retain root ;;;
      let* e := retain_elem (ELEM_NODE root) in
      ret (WALK_ENTER e, mkPreorder (ELEM_NODE root) true (po_root it) true (finished it) (skip_pending it))
    else if descending it then
      if skip_pending it then
        let* e := retain_elem (po_current it) in ret (WALK_LEAVE e, on (clear_skip it) (po_current it) false)
      else
        let* child := preorder_first_child (po_current it) in
        if syntax_element_is_none child then
          let* e := retain_elem (po_current it) in ret (WALK_LEAVE e, on it (po_current it) false)
        else
          element_release (po_current it) ;;;
          let* e := retain_elem child in ret (WALK_ENTER e, on it child true)
    else
      let* at_root := preorder_is_root root (po_current it) in
      if at_root : bool then element_release (po_current it) ;;; ret (EVENT_NONE, done_at it)
      else
        let* sibling := preorder_next_sibling (po_current it) in
        if syntax_element_is_none sibling then
          let* par := preorder_parent root (po_current it) in
          element_release (po_current it) ;;;
          if syntax_element_is_none par then ret (EVENT_NONE, done_at it)
          else let* e := retain_elem par in ret (WALK_LEAVE e, on it par false)
        else
          element_release (po_current it) ;;;
          let* e := retain_elem sibling in ret (WALK_ENTER e, on it sibling true).

Definition syntax_preorder_free (it : SyntaxPreorder) : M SyntaxPreorder :=
  element_release (po_current it) ;;;
  release_opt (po_root it) ;;;
  ret (mkPreorder ELEM_NONE (descending it) None (started it) (finished it) (skip_pending it)).

(** ** Descendants: the elements entered, the root left out *)

Definition event_elem (ev : SyntaxWalkEvent) : SyntaxElement :=
  match ev with EVENT_NONE => ELEM_NONE | WALK_ENTER e | WALK_LEAVE e => e end.

(** [with_tokens] for [SyntaxDescendantsElem].  A walk of a subtree emits no more events than
    twice its elements. *)
Fixpoint descendants_loop (fuel : nat) (with_tokens : bool) (it : SyntaxPreorder) : M (SyntaxElement * SyntaxPreorder) :=
  match fuel with
  | O => fun _ => OutOfFuel
  | S fuel =>
      let* (ev, it) := syntax_preorder_next it in
      match ev with
      | EVENT_NONE => ret (ELEM_NONE, it)
      | WALK_LEAVE e => element_release e ;;; descendants_loop fuel with_tokens it
      | WALK_ENTER (ELEM_NODE n) =>
          let* root := cursor_root it in
          let* at_root := same_place n root in
          if at_root : bool then element_release (ELEM_NODE n) ;;; descendants_loop fuel with_tokens it
          else ret (ELEM_NODE n, it)
      | WALK_ENTER e =>
          if with_tokens then ret (e, it) else element_release e ;;; descendants_loop fuel with_tokens it
      end
  end.

Fixpoint green_size (g : Green) : nat :=
  match g with
  | GreenNode _ _ cs => S (foldr (fun c n => (green_size c.2 + n)%nat) 0%nat cs)
  | GreenToken _ _ => 1%nat
  end.

Definition descendants_next (with_tokens : bool) (it : SyntaxPreorder) : M (SyntaxElement * SyntaxPreorder) :=
  let* root := cursor_root it in
  let* g := syntax_node_green root in
  descendants_loop (S (2 * green_size g)) with_tokens it.

Definition syntax_descendants_init : ptr -> M SyntaxPreorder := syntax_preorder_init.
Definition syntax_descendants_next : SyntaxPreorder -> M (SyntaxElement * SyntaxPreorder) := descendants_next false.
Definition syntax_descendants_free : SyntaxPreorder -> M SyntaxPreorder := syntax_preorder_free.
Definition syntax_descendants_elem_init : ptr -> M SyntaxPreorder := syntax_preorder_init.
Definition syntax_descendants_elem_next : SyntaxPreorder -> M (SyntaxElement * SyntaxPreorder) := descendants_next true.
Definition syntax_descendants_elem_free : SyntaxPreorder -> M SyntaxPreorder := syntax_preorder_free.

(** ** Siblings *)

Record SyntaxSiblings : Set := mkSiblings { cur : option ptr; sib_dir : SyntaxDirection; sib_emitted : bool }.

Definition syntax_siblings_init (start : option ptr) (d : SyntaxDirection) : M SyntaxSiblings :=
  retain_opt start ;;; ret (mkSiblings start d false).

Definition syntax_siblings_next (it : SyntaxSiblings) : M (option ptr * SyntaxSiblings) :=
  match cur it with
  | None => ret (None, it)
  | Some c =>
      if sib_emitted it then
        let* nxt := match sib_dir it with
                    | SYNTAX_DIR_NEXT => syntax_node_next_sibling c
                    | SYNTAX_DIR_PREV => syntax_node_prev_sibling c
                    end in
        syntax_node_release c ;;;
        retain_opt nxt ;;;
        ret (nxt, mkSiblings nxt (sib_dir it) true)
      else syntax_node_retain c ;;; ret (Some c, mkSiblings (Some c) (sib_dir it) true)
  end.

Definition syntax_siblings_free (it : SyntaxSiblings) : M SyntaxSiblings :=
  release_opt (cur it) ;;; ret (mkSiblings None (sib_dir it) (sib_emitted it)).

Record SyntaxSiblingsElem : Set := mkSiblingsElem { ecur : SyntaxElement; edir : SyntaxDirection; e_emitted : bool }.

Definition siblings_elem_init_common (start : SyntaxElement) (d : SyntaxDirection) : M SyntaxSiblingsElem :=
  let* e := retain_elem start in ret (mkSiblingsElem e d false).
Definition syntax_siblings_elem_init_node (start : ptr) : SyntaxDirection -> M SyntaxSiblingsElem :=
  siblings_elem_init_common (ELEM_NODE start).
Definition syntax_siblings_elem_init_token (start : ptr) : SyntaxDirection -> M SyntaxSiblingsElem :=
  siblings_elem_init_common (ELEM_TOKEN start).

Definition elem_next_sibling_or_token (e : SyntaxElement) (d : SyntaxDirection) : M SyntaxElement :=
  match e, d with
  | ELEM_NONE, _ => ret ELEM_NONE
  | ELEM_NODE n, SYNTAX_DIR_NEXT => syntax_node_next_sibling_or_token n
  | ELEM_NODE n, SYNTAX_DIR_PREV => syntax_node_prev_sibling_or_token n
  | ELEM_TOKEN t, SYNTAX_DIR_NEXT => syntax_token_next_sibling_or_token t
  | ELEM_TOKEN t, SYNTAX_DIR_PREV => syntax_token_prev_sibling_or_token t
  end.

Definition syntax_siblings_elem_next (it : SyntaxSiblingsElem) : M (SyntaxElement * SyntaxSiblingsElem) :=
  if syntax_element_is_none (ecur it) then ret (ELEM_NONE, it)
  else if e_emitted it then
    let* nxt := elem_next_sibling_or_token (ecur it) (edir it) in
    element_release (ecur it) ;;;
    let* e := retain_elem nxt in
    ret (e, mkSiblingsElem nxt (edir it) true)
  else let* e := retain_elem (ecur it) in ret (e, mkSiblingsElem (ecur it) (edir it) true).

Definition syntax_siblings_elem_free (it : SyntaxSiblingsElem) : M SyntaxSiblingsElem :=
  element_release (ecur it) ;;; ret (mkSiblingsElem ELEM_NONE (edir it) (e_emitted it)).

End RedIter.
