(* ===== verification/RedInv.v ===== *)
(** * The invariant of the red tree's heap

    [inv h O]: the heap [h] when the references held outside it are [O].  Reference counts are
    exact, parents are live and above their children, a handle shows the child of its parent's
    green node at its index, and the ring of a mutable node is its live children. *)

From stdpp Require Import gmap gmultiset sorting.
From S2P Require Import Prelude SyntaxKind Green GreenFacts Sll SllFacts Red RedNav.

Import SyntaxKind Green GreenFacts Sll SllFacts Red RedTree.

Module RedInv.

#[local] Open Scope N_scope.

(** ** Live children *)

Definition nch (m : gmap ptr Cell) (p : ptr) : nat := size (filter (fun kc => parent kc.2 = Some p) m).

Lemma nch_insert_new m q c p : m !! q = None ->
  nch (<[q := c]> m) p = (nch m p + if decide (parent c = Some p) then 1 else 0)%nat.
Proof.
  intros Hq. unfold nch. destruct (decide (parent c = Some p)) as [Hp|Hp].
  - rewrite map_filter_insert_True by done. rewrite map_size_insert_None; [lia|]. apply map_lookup_filter_None. by left.
  - rewrite map_filter_insert_False by done. rewrite delete_id by done. lia.
Qed.

Lemma nch_delete m q c p : m !! q = Some c ->
  nch m p = (nch (delete q m) p + if decide (parent c = Some p) then 1 else 0)%nat.
Proof.
  intros Hq. rewrite <- (insert_delete_id m q c Hq) at 1. apply nch_insert_new. apply lookup_delete_eq.
Qed.

Lemma nch_update m q c c' p : m !! q = Some c -> parent c' = parent c -> nch (<[q := c']> m) p = nch m p.
Proof.
  intros Hq Hc. rewrite (nch_delete m q c p Hq), <- insert_delete_eq, nch_insert_new, Hc by apply lookup_delete_eq. done.
Qed.

Lemma nch_none m p : nch m p = 0%nat <-> forall q c, m !! q = Some c -> parent c <> Some p.
Proof.
  unfold nch. rewrite map_size_empty_iff, map_empty_filter. split; intros H q c Hq; [by apply (H q c)|exact (H q c Hq)].
Qed.

Lemma nch_size m p : (nch m p <= size m)%nat.
Proof. apply map_size_filter. Qed.

(** ** What a handle shows *)

(** A cell without its count and its ring. *)
Record Info : Type := mkInfo {
  i_parent : option ptr;
  i_index : N;
  i_token : bool;
  i_mutable : bool;
  i_green : Green;
  i_offset : N
}.

Definition info (c : Cell) : Info := mkInfo (parent c) (index c) (is_token c) (mutable_ c) (green c) (offset c).
Definition lk (h : Heap) (p : ptr) : option Info := info <$> cells h !! p.

Definition info_ok (c : Info) : Prop :=
  green_ok (i_green c) /\
  i_token c = negb (green_is_node (i_green c)) /\
  (i_parent c = None -> i_mutable c = false -> i_offset c = 0 /\ i_token c = false).

(** [c] shows the child of [pc]'s green node at its index. *)
Definition child_ok (pc c : Info) : Prop :=
  i_token pc = false /\ i_mutable pc = i_mutable c /\
  exists off, green_node_child (i_green pc) (i_index c) = Some (off, i_green c) /\
    (i_mutable c = false -> i_offset c = u32 (i_offset pc + off)).

Record tree_ok (L : ptr -> option Info) (b : ptr) : Prop := {
  t_fresh : forall p c, L p = Some c -> p < b;
  t_info : forall p c, L p = Some c -> info_ok c;
  t_parent : forall q c p, L q = Some c -> i_parent c = Some p -> exists pc, L p = Some pc /\ child_ok pc c;
  t_rank : exists rank : ptr -> nat, forall q c p, L q = Some c -> i_parent c = Some p -> (rank p < rank q)%nat
}.

(** [s] has the live children of [p], by their indices. *)
Definition children_of (L : ptr -> option Info) (p : ptr) (s : list (N * ptr)) : Prop :=
  forall k q, (k, q) ∈ s <-> exists c, L q = Some c /\ i_parent c = Some p /\ i_index c = k.

Definition ring_of (h : Heap) (p : ptr) (c : Cell) : Prop :=
  if mutable_ c && negb (is_token c)
  then exists s, ring_rep (slls h) (first c) s /\ children_of (lk h) p s
  else first c = None.

Definition rings_ok (h : Heap) : Prop := forall p c, cells h !! p = Some c -> ring_of h p c.

Definition refs_ok (h : Heap) (O : gmultiset ptr) : Prop :=
  (forall p c, cells h !! p = Some c ->
     refcount c = N.of_nat (multiplicity p O + nch (cells h) p) /\ 0 < refcount c < 2 ^ 32) /\
  forall p, p ∈ O -> is_Some (cells h !! p).

Record inv (h : Heap) (O : gmultiset ptr) : Prop := {
  inv_tree : tree_ok (lk h) (brk h);
  inv_slls : forall p, is_Some (slls h !! p) <-> is_Some (cells h !! p);
  inv_rings : rings_ok h;
  inv_refs : refs_ok h O
}.

(** Room for [n] more references. *)
Definition fits (n : nat) (h : Heap) (O : gmultiset ptr) : Prop := N.of_nat (size O + size (cells h) + n) < 2 ^ 32.

(** Nothing that was live shows anything else, and no address comes back. *)
Definition keeps (h h' : Heap) : Prop :=
  brk h <= brk h' /\ forall p c, p < brk h -> lk h' p = Some c -> lk h p = Some c.

#[export] Instance keeps_refl : Reflexive keeps.
Proof. intros h. split; [done|]. done. Qed.

#[export] Instance keeps_trans : Transitive keeps.
Proof. intros h1 h2 h3 [Hb1 H1] [Hb2 H2]. split; [lia|]. intros p c Hp Hc. apply H1, H2; [done|lia|done]. Qed.

(** ** Transport *)

Lemma tree_ok_ext L L' b b' : (forall p, L' p = L p) -> b <= b' -> tree_ok L b -> tree_ok L' b'.
Proof.
  intros HL Hb [Hf Hi Hp [rank Hr]]. split.
  - intros p c. rewrite HL. intros H. apply Hf in H. lia.
  - intros p c. rewrite HL. apply Hi.
  - intros q c p. rewrite HL. intros Hq Hc. destruct (Hp q c p Hq Hc) as (pc & H1 & H2). exists pc. by rewrite HL.
  - exists rank. intros q c p. rewrite HL. apply Hr.
Qed.

Lemma children_of_ext L L' p s : (forall q, L' q = L q) -> children_of L p s -> children_of L' p s.
Proof. intros HL H k q. rewrite (H k q). split; intros (c & Hc & H1); exists c; by rewrite ?HL in *. Qed.

Lemma ring_rep_frame m m' hd s : (forall x, x ∈ s.*2 -> m' !! x = m !! x) -> ring_rep m hd s -> ring_rep m' hd s.
Proof.
  intros Hm [(Hhd & Hr & Hk & Hnd) Hs]. split; [|done]. split; [done|]. split; [|split; [|done]].
  - eapply ring_keep; [exact Hr|]. intros x Hx. unfold nx, pv. by rewrite (Hm x Hx).
  - apply Forall_forall. intros e He. rewrite Forall_forall in Hk. unfold ky.
    rewrite Hm; [by apply Hk|]. by apply list_elem_of_fmap_2.
Qed.

Lemma lk_Some h p c : lk h p = Some c <-> exists c', cells h !! p = Some c' /\ c = info c'.
Proof. unfold lk. rewrite fmap_Some. naive_solver. Qed.

Lemma lk_cell h p c : cells h !! p = Some c -> lk h p = Some (info c).
Proof. unfold lk. by intros ->. Qed.

(** The cell of [p] replaced by one with other counts or ring. *)
Lemma lk_update h p c c' q : cells h !! p = Some c -> info c' = info c -> lk (put_cells (<[p := c']> (cells h)) h) q = lk h q.
Proof.
  intros Hc Hi. unfold lk. cbn. destruct (decide (q = p)) as [->|Hne].
  - rewrite lookup_insert_eq, Hc. cbn. by rewrite Hi.
  - by rewrite lookup_insert_ne.
Qed.

(** ** References *)

Lemma multiplicity_size p (O : gmultiset ptr) : (multiplicity p O <= size O)%nat.
Proof.
  assert (H : (multiplicity p O *: {[+ p +]}) ⊆ O).
  { intros q. rewrite multiplicity_scalar_mul. destruct (decide (q = p)) as [->|Hne]; [rewrite multiplicity_singleton_eq; lia|rewrite multiplicity_singleton_ne by done; lia]. }
  apply gmultiset_subseteq_size in H. rewrite gmultiset_size_scalar_mul, gmultiset_size_singleton in H. lia.
Qed.

Lemma refs_bound h O p : (multiplicity p O + nch (cells h) p <= size O + size (cells h))%nat.
Proof. pose proof (nch_size (cells h) p). pose proof (multiplicity_size p O). lia. Qed.

Lemma inv_owned h O p : inv h O -> p ∈ O -> exists c, cells h !! p = Some c.
Proof. intros [_ _ _ [_ Ho]] Hp. by apply Ho. Qed.

Lemma fits_le n n' h O : (n' <= n)%nat -> fits n h O -> fits n' h O.
Proof. unfold fits. lia. Qed.

(** The outcome of an operation: [n] more references or cells at most. *)
Definition after (h : Heap) (O : gmultiset ptr) (n : nat) (h' : Heap) (O' : gmultiset ptr) : Prop :=
  inv h' O' /\ keeps h h' /\ (size O' + size (cells h') <= size O + size (cells h) + n)%nat.

Lemma after_refl h O : inv h O -> after h O 0 h O.
Proof. intros H. split; [done|]. split; [done|lia]. Qed.

Lemma after_trans h1 O1 n1 h2 O2 n2 h3 O3 n : after h1 O1 n1 h2 O2 -> after h2 O2 n2 h3 O3 -> (n1 + n2 <= n)%nat -> after h1 O1 n h3 O3.
Proof. intros (_ & K1 & S1) (I2 & K2 & S2) Hn. split; [done|]. split; [by etrans|lia]. Qed.

Lemma after_fits h O n h' O' k : after h O n h' O' -> fits (n + k) h O -> fits k h' O'.
Proof. intros (_ & _ & Hs). unfold fits. lia. Qed.

Lemma cell_at_ok h p c : cells h !! p = Some c -> cell_at p h = Ret (c, h).
Proof. unfold cell_at. by intros ->. Qed.

Lemma update_cell f h p c : cells h !! p = Some c -> update f p h = Ret (tt, put_cells (<[p := f c]> (cells h)) h).
Proof. intros Hc. unfold update, bind. by rewrite (cell_at_ok _ _ _ Hc). Qed.

(** A new count, for other outside references to [p]. *)
Lemma inv_set_count h O O' p c n : inv h O -> cells h !! p = Some c ->
  n = N.of_nat (multiplicity p O' + nch (cells h) p) -> 0 < n < 2 ^ 32 ->
  (forall q, q <> p -> multiplicity q O' = multiplicity q O) ->
  inv (put_cells (<[p := set_refcount n c]> (cells h)) h) O'.
Proof.
  intros [Ht Hs Hr [Hc Ho]] Hp Hn Hb HO.
  assert (HL : forall q, lk (put_cells (<[p := set_refcount n c]> (cells h)) h) q = lk h q) by (intros q; by eapply lk_update).
  split.
  - by eapply tree_ok_ext.
  - intros q. cbn. rewrite (Hs q). destruct (decide (q = p)) as [->|]; [rewrite lookup_insert_eq, Hp; by split|by rewrite lookup_insert_ne].
  - intros q d Hq. cbn in Hq. assert (Hd : exists d', cells h !! q = Some d' /\ first d = first d' /\ mutable_ d = mutable_ d' /\ is_token d = is_token d').
    { apply lookup_insert_Some in Hq as [[<- <-]|[Hne Hq]]; [by exists c|by exists d]. }
    destruct Hd as (d' & Hd' & E1 & E2 & E3). specialize (Hr q d' Hd'). unfold ring_of in *. rewrite E1, E2, E3.
    destruct (mutable_ d' && negb (is_token d')); [|done]. destruct Hr as (s & H1 & H2). exists s. split; [done|].
    by eapply children_of_ext.
  - split.
    + intros q d Hq. cbn in *. rewrite (nch_update _ _ _ _ _ Hp) by done. apply lookup_insert_Some in Hq as [[<- <-]|[Hne Hq]]; [done|].
      rewrite (HO q) by done. by apply Hc.
    + intros q Hq. cbn. destruct (decide (q = p)) as [->|Hne]; [by rewrite lookup_insert_eq|]. rewrite lookup_insert_ne by done.
      apply Ho. apply elem_of_multiplicity. rewrite <- (HO q Hne). by apply elem_of_multiplicity.
Qed.

Lemma retain_ok h O p c : inv h O -> cells h !! p = Some c -> fits 1 h O ->
  exists h', syntax_node_retain p h = Ret (tt, h') /\ after h O 1 h' (O ⊎ {[+ p +]}) /\ cells h' = <[p := set_refcount (refcount c + 1) c]> (cells h) /\
    slls h' = slls h /\ brk h' = brk h.
Proof.
  intros Hi Hp Hf. pose proof (refs_bound h O p) as Hb. destruct (inv_refs _ _ Hi) as [Hc _]. destruct (Hc p c Hp) as [Hn Hn'].
  unfold syntax_node_retain. rewrite (update_cell _ _ _ _ Hp). unfold fits in Hf. rewrite u32_small by lia.
  eexists. split; [done|]. split; [|done]. split; [|split].
  - eapply inv_set_count; [done..| | |].
    + rewrite multiplicity_disj_union, multiplicity_singleton_eq. lia.
    + lia.
    + intros q Hq. rewrite multiplicity_disj_union, multiplicity_singleton_ne by done. lia.
  - split; [done|]. intros q d _ Hd. by erewrite <- (lk_update h p c).
  - cbn. rewrite map_size_insert_Some by done. rewrite gmultiset_size_disj_union, gmultiset_size_singleton. lia.
Qed.

(** ** Release *)

Lemma nch_fmap m p : nch m p = size (filter (fun kv => kv.2 = Some p) (parent <$> m)).
Proof. unfold nch. by rewrite map_filter_fmap, map_size_fmap. Qed.

Lemma nch_ext m m' p : (forall q, parent <$> m' !! q = parent <$> m !! q) -> nch m' p = nch m p.
Proof.
  intros H. rewrite !nch_fmap. do 2 f_equal. apply map_eq. intros q. by rewrite !lookup_fmap.
Qed.

Definition opt_ref (p : option ptr) : gmultiset ptr := match p with Some p => {[+ p +]} | None => ∅ end.

(** A live cell without children and other references is gone. *)
Lemma inv_removed h O n c h' : inv h (O ⊎ {[+ n +]}) -> cells h !! n = Some c -> refcount c = 1 ->
  brk h' = brk h -> (forall q, lk h' q = if decide (q = n) then None else lk h q) ->
  (forall q c', cells h' !! q = Some c' -> exists c0, cells h !! q = Some c0 /\ refcount c' = refcount c0) ->
  (forall p, is_Some (slls h' !! p) <-> is_Some (cells h' !! p)) -> rings_ok h' ->
  inv h' (O ⊎ opt_ref (parent c)).
Proof.
  intros [[Tf Ti Tp [rank Tr]] Hs Hr [Hc Ho]] Hn H1 Hb HL Href Hs' Hr'.
  assert (Hnch : forall p, (nch (cells h) p = nch (cells h') p + if decide (parent c = Some p) then 1 else 0)%nat).
  { intros p. rewrite (nch_delete _ _ _ p Hn). f_equal. apply nch_ext. intros q. pose proof (HL q) as Hq. unfold lk in Hq.
    destruct (decide (q = n)) as [->|Hne].
    - rewrite lookup_delete_eq. by destruct (cells h' !! n).
    - rewrite lookup_delete_ne by done. destruct (cells h' !! q), (cells h !! q); try done. cbn in Hq |- *.
      injection Hq as E _. by rewrite E. }
  destruct (Hc n c Hn) as [Hn1 _]. rewrite H1, multiplicity_disj_union, multiplicity_singleton_eq in Hn1.
  assert (Hn0 : nch (cells h) n = 0%nat /\ multiplicity n O = 0%nat) by lia. destruct Hn0 as [Hn0 HnO].
  split.
  - split.
    + intros p i. rewrite HL, Hb. destruct (decide (p = n)); [done|apply Tf].
    + intros p i. rewrite HL. destruct (decide (p = n)); [done|apply Ti].
    + intros q i p. rewrite !HL. destruct (decide (q = n)); [done|]. intros Hq Hp. destruct (decide (p = n)) as [->|]; [|by apply (Tp q)].
      apply lk_Some in Hq as (d & Hd & ->). rewrite nch_none in Hn0. by destruct (Hn0 q d Hd).
    + exists rank. intros q i p. rewrite HL. destruct (decide (q = n)); [done|apply Tr].
  - done.
  - done.
  - split.
    + intros q c' Hq. destruct (Href q c' Hq) as (c0 & H0 & ->). destruct (Hc q c0 H0) as [Hq1 Hq2]. split; [|done].
      rewrite Hq1. f_equal. rewrite (Hnch q), !multiplicity_disj_union.
      assert (Hqn : q <> n) by (intros ->; pose proof (HL n) as E; unfold lk in E; rewrite decide_True, Hq in E by done; done).
      rewrite multiplicity_singleton_ne by done. destruct (parent c) as [p|]; cbn [opt_ref].
      * destruct (decide (q = p)) as [->|]; [rewrite multiplicity_singleton_eq, decide_True by done; lia|].
        rewrite multiplicity_singleton_ne, decide_False by congruence. lia.
      * rewrite multiplicity_empty. rewrite decide_False by done. lia.
    + intros q Hq. assert (Hl : is_Some (lk h' q)).
      { rewrite HL. apply gmultiset_elem_of_disj_union in Hq as [Hq|Hq].
        - rewrite decide_False by (intros ->; rewrite elem_of_multiplicity in Hq; lia).
          unfold lk. rewrite fmap_is_Some. apply Ho, gmultiset_elem_of_disj_union. by left.
        - destruct (parent c) as [p|] eqn:Ep; cbn [opt_ref] in Hq; [|by apply gmultiset_not_elem_of_empty in Hq].
          apply gmultiset_elem_of_singleton in Hq as ->. destruct (Tp n (info c) p) as (pc & Hpc & _); [by apply lk_cell|done|].
          rewrite decide_False; [by rewrite Hpc|]. intros ->. specialize (Tr n (info c) n (lk_cell _ _ _ Hn) Ep). lia. }
      unfold lk in Hl. by rewrite fmap_is_Some in Hl.
Qed.

Lemma children_in L p s x : children_of L p s -> x ∈ s.*2 -> exists c, L x = Some c /\ i_parent c = Some p.
Proof. intros Hs ([k y] & -> & Hx)%list_elem_of_fmap. apply Hs in Hx as (c & Hc & Hp & _). by exists c. Qed.

(** The last reference to a cell outside any ring. *)
Lemma free_plain h O n c : inv h (O ⊎ {[+ n +]}) -> cells h !! n = Some c -> refcount c = 1 ->
  (parent c = None \/ mutable_ c = false) ->
  inv (mkHeap (delete n (cells h)) (delete n (slls h)) (brk h)) (O ⊎ opt_ref (parent c)).
Proof.
  intros Hi Hn H1 Hpar. pose proof Hi as [[Tf Ti Tp _] Hs Hr _].
  set (h' := mkHeap _ _ _). assert (HL : forall q, lk h' q = if decide (q = n) then None else lk h q).
  { intros q. unfold lk. cbn. destruct (decide (q = n)) as [->|]; [by rewrite lookup_delete_eq|by rewrite lookup_delete_ne]. }
  eapply inv_removed; [exact Hi|exact Hn|done|done|done|..].
  - intros q c' Hq. cbn in Hq. apply lookup_delete_Some in Hq as [_ Hq]. by exists c'.
  - intros p. cbn. destruct (decide (p = n)) as [->|]; [by rewrite !lookup_delete_eq|by rewrite !lookup_delete_ne].
  - intros q d Hq. cbn in Hq. apply lookup_delete_Some in Hq as [Hne Hq]. specialize (Hr q d Hq). unfold ring_of in *.
    destruct (mutable_ d && negb (is_token d)) eqn:Em; [|done]. destruct Hr as (s & R1 & R2). exists s.
    assert (Hns : n ∉ s.*2).
    { intros (i & Hin & Hip)%(children_in _ _ _ _ R2). rewrite (lk_cell _ _ _ Hn) in Hin. injection Hin as <-. cbn in Hip.
      destruct Hpar as [Hpar|Hpar]; [congruence|]. destruct (Tp n (info c) q (lk_cell _ _ _ Hn) Hip) as (pc & Hpc & _ & Hm & _).
      rewrite (lk_cell _ _ _ Hq) in Hpc. injection Hpc as <-. cbn in Hm. by rewrite Hm, Hpar in Em. }
    split.
    + eapply ring_rep_frame; [|exact R1]. intros x Hx. cbn. rewrite lookup_delete_ne; [done|]. by intros ->.
    + intros k x. rewrite (R2 k x), HL. destruct (decide (x = n)) as [->|]; [|done]. split; [|by intros (? & ? & _)].
      intros (i & H2 & H3 & H4). exfalso. apply Hns. apply list_elem_of_fmap. exists (k, n). split; [done|]. apply R2. by exists i.
Qed.

(** The last reference to a child of a mutable node. *)
Lemma free_child h O n c par : inv h (O ⊎ {[+ n +]}) -> cells h !! n = Some c -> refcount c = 1 ->
  parent c = Some par -> mutable_ c = true ->
  exists pc hd m, cells h !! par = Some pc /\ n <> par /\ sll_unlink (slls h) (first pc) n = Ret (hd, m) /\
    inv (mkHeap (delete n (<[par := set_first hd pc]> (cells h))) (delete n m) (brk h)) (O ⊎ {[+ par +]}).
Proof.
  intros Hi Hn H1 Hpar Hmut. pose proof Hi as [[Tf Ti Tp [rank Tr]] Hs Hr _].
  destruct (Tp n (info c) par (lk_cell _ _ _ Hn) Hpar) as (ipc & Hipc & Htok & Hpm & _).
  pose proof Hipc as Hipc'. apply lk_Some in Hipc' as (pc & Hpc & ->). cbn in Htok, Hpm.
  assert (Hne : n <> par) by (intros ->; specialize (Tr par (info c) par (lk_cell _ _ _ Hn) Hpar); lia).
  pose proof (Hr par pc Hpc) as Hring. unfold ring_of in Hring. rewrite Hpm, Hmut, Htok in Hring. cbn in Hring.
  destruct Hring as (s & [Hw Hsort] & Hch).
  assert (Hin : (index c, n) ∈ s) by (apply Hch; exists (info c); by split; [apply lk_cell|]).
  apply list_elem_of_split in Hin as (s1 & s2 & ->).
  destruct (sll_unlink_ok _ _ _ _ _ _ Hw) as (hd & m & E & Hw' & K & Ln & F).
  exists pc, hd, m. split; [done|]. split; [done|]. split; [done|].
  set (h' := mkHeap _ _ _). assert (HL : forall q, lk h' q = if decide (q = n) then None else lk h q).
  { intros q. unfold lk. cbn. destruct (decide (q = n)) as [->|]; [by rewrite lookup_delete_eq|]. rewrite lookup_delete_ne by done.
    destruct (decide (q = par)) as [->|]; [by rewrite lookup_insert_eq, Hpc|by rewrite lookup_insert_ne]. }
  assert (Hns : n ∉ (s1 ++ s2).*2).
  { destruct Hw as (_ & _ & _ & Hnd). rewrite fmap_app in Hnd |- *. cbn in Hnd. rewrite <- Permutation_middle in Hnd. by apply NoDup_cons in Hnd as [? _]. }
  assert (Hopt : {[+ par +]} = opt_ref (parent c)) by (by rewrite Hpar). rewrite Hopt.
  eapply inv_removed; [exact Hi|exact Hn|done|done|done|..].
  - intros q c' Hq. cbn in Hq. apply lookup_delete_Some in Hq as [_ Hq]. apply lookup_insert_Some in Hq as [[<- <-]|[_ Hq]]; [by exists pc|by exists c'].
  - intros p. cbn. destruct (decide (p = n)) as [->|]; [by rewrite !lookup_delete_eq|]. rewrite !lookup_delete_ne by done.
    assert (Hm : is_Some (m !! p) <-> is_Some (slls h !! p)).
    { destruct (decide (p ∈ (s1 ++ (index c, n) :: s2).*2)) as [Hp|Hp]; [|by rewrite (F p Hp)]. pose proof (K p) as Kp. unfold ky in Kp.
      split; intros [y Hy]; rewrite Hy in Kp; [by destruct (slls h !! p)|by destruct (m !! p)]. }
    rewrite Hm, (Hs p). destruct (decide (p = par)) as [->|]; [by rewrite lookup_insert_eq, Hpc|by rewrite lookup_insert_ne].
  - intros q d Hq. cbn in Hq. apply lookup_delete_Some in Hq as [Hqn Hq]. apply lookup_insert_Some in Hq as [[<- <-]|[Hqp Hq]].
    + unfold ring_of. cbn. rewrite Hpm, Hmut, Htok. cbn. exists (s1 ++ s2). split.
      * eapply ring_rep_frame; [|split; [exact Hw'|]].
        -- intros x Hx. cbn. rewrite lookup_delete_ne; [done|]. by intros ->.
        -- rewrite fmap_app in Hsort |- *. cbn in Hsort. apply StronglySorted_app in Hsort as (Hx & Hs1 & Hs2).
           apply StronglySorted_inv in Hs2 as [Hs2 _]. apply StronglySorted_app. split; [|done]. intros k1 k2 Hk1 Hk2. apply Hx; [done|by right].
      * intros k x. rewrite HL. destruct (decide (x = n)) as [->|Hxn].
        -- split; [|by intros (? & ? & _)]. intros Hx. exfalso. apply Hns. apply list_elem_of_fmap. by exists (k, n).
        -- rewrite <- (Hch k x). rewrite !elem_of_app, elem_of_cons. split; [tauto|]. intros [|[[= _ ->]|]]; tauto.
    + specialize (Hr q d Hq). unfold ring_of in *. destruct (mutable_ d && negb (is_token d)); [|done]. destruct Hr as (s' & R1 & R2). exists s'.
      assert (Hdis : forall x, x ∈ s'.*2 -> x <> n /\ x ∉ (s1 ++ (index c, n) :: s2).*2).
      { intros x Hx. assert (Hx2 : x ∉ (s1 ++ (index c, n) :: s2).*2).
        { destruct (children_in _ _ _ _ R2 Hx) as (i & Hi1 & Hi2). intros Hx2. destruct (children_in _ _ _ _ Hch Hx2) as (i' & Hi1' & Hi2'). congruence. }
        split; [|done]. intros ->. apply Hx2. rewrite fmap_app. apply elem_of_app. right. cbn. left. }
      split.
      * eapply ring_rep_frame; [|exact R1]. intros x Hx. destruct (Hdis x Hx) as [Hx1 Hx2]. cbn. rewrite lookup_delete_ne by done. by apply F.
      * intros k x. rewrite (R2 k x), HL. destruct (decide (x = n)) as [->|]; [|done]. split; [|by intros (? & ? & _)].
        intros (i & H2 & H3 & H4). exfalso. destruct (Hdis n) as [Hx1 _]; [|done]. apply list_elem_of_fmap. exists (k, n). split; [done|]. apply R2. by exists i.
Qed.

Lemma first_none h O n c : inv h (O ⊎ {[+ n +]}) -> cells h !! n = Some c -> refcount c = 1 -> first c = None.
Proof.
  intros [_ _ Hr [Hc _]] Hn H1. destruct (Hc n c Hn) as [Hn1 _]. rewrite H1, multiplicity_disj_union, multiplicity_singleton_eq in Hn1.
  assert (Hn0 : nch (cells h) n = 0%nat) by lia. specialize (Hr n c Hn). unfold ring_of in Hr.
  destruct (mutable_ c && negb (is_token c)); [|done]. destruct Hr as (s & [[-> _] _] & Hch). destruct s as [|[k q] s]; [done|].
  destruct (proj1 (Hch k q) ltac:(left)) as (i & Hq & Hp & _). apply lk_Some in Hq as (d & Hd & ->).
  by destruct (proj1 (nch_none _ _) Hn0 q d Hd).
Qed.

Lemma keeps_sub h h' : brk h' = brk h -> (forall q c, lk h' q = Some c -> lk h q = Some c) -> keeps h h'.
Proof. intros Hb HL. split; [lia|]. intros p c _. apply HL. Qed.

Lemma live_count h O n c : inv h O -> cells h !! n = Some c -> 0 < refcount c < 2 ^ 32.
Proof. intros [_ _ _ [Hc _]] Hn. by apply (Hc n c). Qed.

Lemma drop_ref_more h O n c a b : inv h (O ⊎ {[+ n +]}) -> cells h !! n = Some c -> refcount c <> 1 ->
  exists h', drop_ref n a b h = Ret (None, h') /\ inv h' O /\ keeps h h' /\ size (cells h') = size (cells h) /\
    forall q, lk h' q = lk h q.
Proof.
  intros Hi Hn H1. pose proof (live_count _ _ _ _ Hi Hn) as Hb. unfold drop_ref, bind.
  rewrite (cell_at_ok _ _ _ Hn). cbn [obind]. unfold assert_, lift. rewrite (proj2 (N.ltb_lt _ _)) by lia. cbn [obind oassert].
  rewrite (update_cell _ _ _ _ Hn). cbn [obind]. rewrite (proj2 (N.ltb_lt _ _)) by lia. eexists. split; [done|].
  assert (HL : forall q, lk (put_cells (<[n := set_refcount (refcount c - 1) c]> (cells h)) h) q = lk h q) by (intros q; by eapply lk_update).
  split; [|split; [|split; [|done]]].
  - eapply inv_set_count; [done..| | |].
    + destruct (inv_refs _ _ Hi) as [Hc _]. destruct (Hc n c Hn) as [-> _]. rewrite multiplicity_disj_union, multiplicity_singleton_eq. lia.
    + lia.
    + intros q Hq. rewrite multiplicity_disj_union, multiplicity_singleton_ne by done. lia.
  - apply keeps_sub; [done|]. intros q d. by rewrite HL.
  - cbn. by rewrite map_size_insert_Some.
Qed.

Lemma drop_ref_last h O n c a b : inv h (O ⊎ {[+ n +]}) -> cells h !! n = Some c -> refcount c = 1 ->
  exists h', drop_ref n a b h = Ret (parent c, h') /\ inv h' (O ⊎ opt_ref (parent c)) /\ keeps h h' /\
    S (size (cells h')) = size (cells h) /\ lk h' n = None.
Proof.
  intros Hi Hn H1. pose proof (first_none _ _ _ _ Hi Hn H1) as Hfirst. unfold drop_ref, bind.
  rewrite (cell_at_ok _ _ _ Hn). cbn [obind]. unfold assert_, lift. rewrite (proj2 (N.ltb_lt _ _)) by lia. cbn [obind oassert].
  rewrite (update_cell _ _ _ _ Hn). cbn [obind]. rewrite (proj2 (N.ltb_ge _ _)) by lia.
  set (h1 := put_cells _ _). assert (Hn1 : cells h1 !! n = Some (set_refcount (refcount c - 1) c)) by apply lookup_insert_eq.
  destruct (decide (parent c = None \/ mutable_ c = false)) as [Hpl|Hpl].
  - assert (Hskip : match parent c with Some par => when (mutable_ c) (unlink par n) | None => ret tt end h1 = Ret (tt, h1)).
    { destruct (parent c); [|done]. destruct Hpl as [?| ->]; done. }
    rewrite Hskip. cbn [obind]. rewrite (cell_at_ok _ _ _ Hn1). cbn [obind first set_refcount]. rewrite Hfirst. cbn [obind oassert].
    unfold free, ret. cbn [obind slls brk h1]. eexists. split; [done|]. cbn.
    replace (delete n (<[n := set_refcount (refcount c - 1) c]> (cells h))) with (delete n (cells h)) by (by rewrite delete_insert_eq).
    pose proof (free_plain h O n c Hi Hn H1 Hpl) as Hfree. split; [done|]. split; [|split].
    + apply keeps_sub; [done|]. intros q d Hq. apply lk_Some in Hq as (d' & Hd & ->). cbn in Hd. apply lookup_delete_Some in Hd as [_ Hd].
      by apply lk_cell.
    + cbn. rewrite map_size_delete_Some by done. pose proof (map_size_non_empty_iff (cells h)). assert (size (cells h) <> 0)%nat; [|lia].
      rewrite map_size_non_empty_iff. intros E. by rewrite E in Hn.
    + unfold lk. cbn. by rewrite lookup_delete_eq.
  - destruct (parent c) as [par|] eqn:Ep; [|tauto]. assert (Em : mutable_ c = true) by (destruct (mutable_ c); tauto). rewrite Em. cbn [when].
    destruct (free_child h O n c par Hi Hn H1 Ep Em) as (pc & hd & m & Hpc & Hne & Eu & Hfree).
    assert (Hpc1 : cells h1 !! par = Some pc) by (unfold h1; cbn; by rewrite lookup_insert_ne).
    unfold unlink, bind. rewrite (cell_at_ok _ _ _ Hpc1). cbn [obind]. unfold gets, lift. cbn [obind h1 slls put_cells]. rewrite Eu. cbn [obind].
    set (h2 := put_slls m _). assert (Hpc2 : cells h2 !! par = Some pc) by done. rewrite (update_cell _ _ _ _ Hpc2). cbn [obind].
    set (h3 := put_cells _ h2). assert (Hn3 : cells h3 !! n = Some (set_refcount (refcount c - 1) c)).
    { unfold h3. cbn. rewrite lookup_insert_ne by done. apply lookup_insert_eq. }
    rewrite (cell_at_ok _ _ _ Hn3). cbn [obind first set_refcount]. rewrite Hfirst. cbn [obind oassert].
    unfold free, ret. cbn [obind]. eexists. split; [cbn; by rewrite Ep|]. cbn [slls brk cells h3 h2 h1 put_cells put_slls].
    replace (delete n (<[par := set_first hd pc]> (<[n := set_refcount (refcount c - 1) c]> (cells h))))
      with (delete n (<[par := set_first hd pc]> (cells h))).
    2: { apply map_eq. intros q. destruct (decide (q = n)) as [->|]; [by rewrite !lookup_delete_eq|]. rewrite !lookup_delete_ne by done.
         destruct (decide (q = par)) as [->|]; [by rewrite !lookup_insert_eq|by rewrite !lookup_insert_ne]. }
    split; [done|]. split; [|split].
    + apply keeps_sub; [done|]. intros q d Hq. apply lk_Some in Hq as (d' & Hd & ->). cbn in Hd. apply lookup_delete_Some in Hd as [_ Hd].
      apply lookup_insert_Some in Hd as [[<- <-]|[_ Hd]]; [by rewrite (lk_cell _ _ _ Hpc)|by apply lk_cell].
    + cbn. rewrite map_size_delete_Some by (rewrite lookup_insert_ne by done; by eexists). rewrite map_size_insert_Some by done.
      assert (size (cells h) <> 0)%nat; [|lia]. rewrite map_size_non_empty_iff. intros E. by rewrite E in Hn.
    + unfold lk. cbn. by rewrite lookup_delete_eq.
Qed.

Lemma release_from_ok fuel h O n : inv h (O ⊎ {[+ n +]}) -> (size (cells h) < fuel)%nat ->
  exists h', release_from fuel n h = Ret (tt, h') /\ inv h' O /\ keeps h h' /\ (size (cells h') <= size (cells h))%nat.
Proof.
  revert h O n. induction fuel as [|fuel IH]; intros h O n Hi Hf; [lia|].
  destruct (inv_owned h _ n Hi) as [c Hn]; [apply gmultiset_elem_of_disj_union; right; by apply gmultiset_elem_of_singleton|].
  cbn [release_from]. unfold bind at 1. destruct (decide (refcount c = 1)) as [H1|H1].
  - destruct (drop_ref_last h O n c "double-release of SyntaxNode" "SyntaxNode freed with live children in SLL" Hi Hn H1)
      as (h1 & -> & Hi1 & Hk1 & Hs1 & _). cbn [obind]. destruct (parent c) as [par|]; cbn [opt_ref] in Hi1.
    + destruct (IH h1 O par Hi1) as (h2 & E & Hi2 & Hk2 & Hs2); [lia|]. exists h2. split; [done|]. split; [done|]. split; [by etrans|lia].
    + rewrite right_id_L in Hi1 by apply _. exists h1. split; [done|]. split; [done|]. split; [done|lia].
  - destruct (drop_ref_more h O n c "double-release of SyntaxNode" "SyntaxNode freed with live children in SLL" Hi Hn H1)
      as (h1 & -> & Hi1 & Hk1 & Hs1 & _). cbn [obind]. exists h1. split; [done|]. split; [done|]. split; [done|lia].
Qed.

Lemma release_ok h O n : inv h (O ⊎ {[+ n +]}) -> exists h', syntax_node_release n h = Ret (tt, h') /\ after h (O ⊎ {[+ n +]}) 0 h' O /\
  (size (cells h') <= size (cells h))%nat.
Proof.
  intros Hi. unfold syntax_node_release, bind, steps, gets. cbn [obind].
  destruct (release_from_ok (S (size (cells h))) h O n Hi) as (h' & -> & Hi' & Hk & Hs); [lia|]. exists h'. split; [done|]. split; [|done].
  split; [done|]. split; [done|]. rewrite gmultiset_size_disj_union. lia.
Qed.

Lemma release_token_ok h O t : inv h (O ⊎ {[+ t +]}) -> exists h', syntax_token_release t h = Ret (tt, h') /\ after h (O ⊎ {[+ t +]}) 0 h' O.
Proof.
  intros Hi. destruct (inv_owned h _ t Hi) as [c Ht]; [apply gmultiset_elem_of_disj_union; right; by apply gmultiset_elem_of_singleton|].
  unfold syntax_token_release, bind. rewrite gmultiset_size_disj_union || idtac.
  destruct (decide (refcount c = 1)) as [H1|H1].
  - destruct (drop_ref_last h O t c "double-release of SyntaxToken" "SyntaxToken freed with non-NULL first slot" Hi Ht H1)
      as (h1 & -> & Hi1 & Hk1 & Hs1 & _). cbn [obind]. destruct (parent c) as [par|]; cbn [opt_ref] in Hi1.
    + destruct (release_ok h1 O par Hi1) as (h2 & E & (Hi2 & Hk2 & Hs2) & _). exists h2. split; [done|]. split; [done|]. split; [by etrans|].
      rewrite !gmultiset_size_disj_union, !gmultiset_size_singleton in *. lia.
    + rewrite right_id_L in Hi1 by apply _. exists h1. split; [done|]. split; [done|]. split; [done|]. rewrite gmultiset_size_disj_union. lia.
  - destruct (drop_ref_more h O t c "double-release of SyntaxToken" "SyntaxToken freed with non-NULL first slot" Hi Ht H1)
      as (h1 & -> & Hi1 & Hk1 & Hs1 & _). cbn [obind]. exists h1. split; [done|]. split; [done|]. split; [done|]. rewrite gmultiset_size_disj_union. lia.
Qed.

End RedInv.

(** ** Handles: what each operation of the red tree does to the heap *)

Import SyntaxKind Green GreenFacts Sll SllFacts Red RedTree RedNav RedInv.

Module RedOps.

#[local] Open Scope N_scope.

(** ** New handles *)

Lemma fresh_count h O n : inv h O -> lk h n = None -> multiplicity n O = 0%nat /\ nch (cells h) n = 0%nat.
Proof.
  intros [[_ _ Tp _] _ _ [_ Ho]] Hn. split.
  - destruct (multiplicity n O) eqn:E; [done|]. destruct (Ho n) as [c Hc]; [rewrite elem_of_multiplicity; lia|].
    by rewrite (lk_cell _ _ _ Hc) in Hn.
  - apply nch_none. intros q c Hq Hp. destruct (Tp q (info c) n (lk_cell _ _ _ Hq) Hp) as (pc & E & _). congruence.
Qed.

Lemma brk_fresh h O : inv h O -> lk h (brk h) = None.
Proof. intros [[Tf _ _ _] _ _ _]. destruct (lk h (brk h)) as [c|] eqn:E; [|done]. apply Tf in E. lia. Qed.

Lemma fits_count h O p c n : inv h O -> cells h !! p = Some c -> fits n h O -> refcount c + N.of_nat n < 2 ^ 32.
Proof.
  intros Hi Hp. destruct (inv_refs _ _ Hi) as [Hc _]. destruct (Hc p c Hp) as [-> _]. pose proof (refs_bound h O p). unfold fits. lia.
Qed.

Lemma inv_added h O h' i : inv h O -> fits 1 h O -> brk h' = brk h + 1 ->
  (forall q, lk h' q = if decide (q = brk h) then Some i else lk h q) -> info_ok i ->
  (forall par, i_parent i = Some par -> exists pc, lk h par = Some pc /\ child_ok pc i) ->
  (forall q c', cells h' !! q = Some c' -> if decide (q = brk h) then refcount c' = 1 else
     exists c0, cells h !! q = Some c0 /\ refcount c' = refcount c0 + (if decide (i_parent i = Some q) then 1 else 0)) ->
  (forall p, is_Some (slls h' !! p) <-> is_Some (cells h' !! p)) -> rings_ok h' ->
  inv h' (O ⊎ {[+ brk h +]}).
Proof.
  intros Hinv Hf Hb HL Hio Hpar Href Hs' Hr'. pose proof (brk_fresh h O Hinv) as Hfresh. set (n := brk h) in *.
  destruct (fresh_count h O n Hinv Hfresh) as [Hm0 Hn0]. pose proof Hinv as [[Tf Ti Tp [rank Tr]] Hs Hr [Hc Ho]].
  assert (Hcn : cells h !! n = None) by (unfold lk in Hfresh; by destruct (cells h !! n)).
  assert (Hnew : exists cn, cells h' !! n = Some cn /\ info cn = i).
  { pose proof (HL n) as E. rewrite decide_True in E by done. apply lk_Some in E as (cn & E & ->). by exists cn. }
  destruct Hnew as (cn & Hcn' & Hci).
  assert (Hnch : forall p, (nch (cells h') p = nch (cells h) p + if decide (i_parent i = Some p) then 1 else 0)%nat).
  { intros p. rewrite <- (insert_delete_id _ _ _ Hcn'), nch_insert_new by apply lookup_delete_eq. subst i. cbn [i_parent info]. f_equal.
    apply nch_ext. intros q. pose proof (HL q) as Hq. unfold lk in Hq. destruct (decide (q = n)) as [->|Hne].
    - rewrite lookup_delete_eq. by rewrite Hcn.
    - rewrite lookup_delete_ne by done. destruct (cells h' !! q), (cells h !! q); try done. cbn in Hq |- *. injection Hq as E _. by rewrite E. }
  split.
  - split.
    + intros p d. rewrite HL, Hb. destruct (decide (p = n)) as [->|]; [intros _; unfold n; lia|intros H; apply Tf in H; lia].
    + intros p d. rewrite HL. destruct (decide (p = n)); [by intros [= <-]|apply Ti].
    + intros q d p. rewrite (HL q). destruct (decide (q = n)) as [->|Hqn].
      * intros [= <-] Hp. destruct (Hpar p Hp) as (pc & H1 & H2). exists pc. rewrite HL, decide_False; [done|]. intros ->. congruence.
      * intros Hq Hp. destruct (Tp q d p Hq Hp) as (pc & H1 & H2). exists pc. rewrite HL, decide_False; [done|]. intros ->. congruence.
    + exists (fun q => if decide (q = n) then S (default 0%nat (rank <$> i_parent i)) else rank q). intros q d p. rewrite HL.
      destruct (decide (q = n)) as [->|Hqn].
      * intros [= <-] Hp. rewrite Hp. cbn. rewrite decide_False; [lia|]. intros ->. destruct (Hpar n Hp) as (pc & H1 & _). congruence.
      * intros Hq Hp. rewrite decide_False; [by eapply Tr|]. intros ->. destruct (Tp q d n Hq Hp) as (pc & H1 & _). congruence.
  - done.
  - done.
  - split.
    + intros q c' Hq. specialize (Href q c' Hq). rewrite (Hnch q), multiplicity_disj_union. destruct (decide (q = n)) as [->|Hqn].
      * rewrite multiplicity_singleton_eq, Hm0, Hn0, Href. rewrite decide_False; [split; lia|]. intros Hp. destruct (Hpar n Hp) as (pc & H1 & _). congruence.
      * destruct Href as (c0 & H0 & ->). rewrite multiplicity_singleton_ne by done. destruct (Hc q c0 H0) as [H1 H2].
        pose proof (fits_count _ _ _ _ _ Hinv H0 Hf). destruct (decide (i_parent i = Some q)); lia.
    + intros q Hq. assert (Hl : is_Some (lk h' q)).
      { rewrite HL. destruct (decide (q = n)) as [->|Hne]; [done|]. apply gmultiset_elem_of_disj_union in Hq as [Hq|Hq].
        - unfold lk. rewrite fmap_is_Some. by apply Ho.
        - by apply gmultiset_elem_of_singleton in Hq. }
      unfold lk in Hl. by rewrite fmap_is_Some in Hl.
Qed.

Lemma keeps_fresh h h' i : brk h' = brk h + 1 -> (forall q, lk h' q = if decide (q = brk h) then Some i else lk h q) -> keeps h h'.
Proof. intros Hb HL. split; [lia|]. intros p c Hp. rewrite HL, decide_False by lia. done. Qed.

(** A root. *)
Lemma root_ok h O t : inv h O -> fits 2 h O -> green_is_node (root_green t) = true -> green_ok (root_green t) ->
  exists n h', syntax_tree_root t h = Ret (n, h') /\ after h O 2 h' (O ⊎ {[+ n +]}) /\
    lk h' n = Some (mkInfo None 0 false (tree_mutable t) (root_green t) 0) /\ forall q, q <> n -> lk h' q = lk h q.
Proof.
  intros Hi Hf Hg Hgok. unfold syntax_tree_root, alloc. eexists (brk h), _. split; [done|].
  set (h' := mkHeap _ _ _). set (i := mkInfo None 0 false (tree_mutable t) (root_green t) 0).
  assert (HL : forall q, lk h' q = if decide (q = brk h) then Some i else lk h q).
  { intros q. unfold lk. cbn. destruct (decide (q = brk h)) as [->|]; [by rewrite lookup_insert_eq|by rewrite lookup_insert_ne]. }
  pose proof (brk_fresh h O Hi) as Hfr. assert (Hcn : cells h !! brk h = None) by (unfold lk in Hfr; by destruct (cells h !! brk h)).
  pose proof (inv_slls _ _ Hi) as Hs. assert (Hsn : slls h !! brk h = None).
  { apply eq_None_not_Some. rewrite Hs, Hcn. by intros [? [=]]. }
  split; [split; [|split]|split].
  - eapply inv_added with (i := i); [done|by eapply fits_le; [|exact Hf]; lia|done|done| |by intros par [=]| | |].
    + split; [done|]. split; [cbn; by rewrite Hg|done].
    + intros q c' Hq. cbn in Hq. apply lookup_insert_Some in Hq as [[<- <-]|[Hne Hq]]; [by rewrite decide_True|].
      rewrite decide_False by done. exists c'. split; [done|]. rewrite (decide_False (P := i_parent i = Some q)) by done. lia.
    + intros p. cbn. destruct (decide (p = brk h)) as [->|]; [by rewrite !lookup_insert_eq|by rewrite !lookup_insert_ne].
    + intros q c Hq. cbn in Hq. apply lookup_insert_Some in Hq as [[<- <-]|[Hne Hq]].
      * unfold ring_of. cbn. destruct (tree_mutable t); [|done]. cbn. exists []. split.
        -- split; [|constructor]. split; [done|]. split; [done|]. split; constructor.
        -- intros k x. split; [by intros ?%elem_of_nil|]. intros (d & Hd & Hp & _). exfalso. rewrite HL in Hd.
           destruct (decide (x = brk h)); [by injection Hd as <-|]. apply lk_Some in Hd as (d' & Hd' & ->).
           destruct (fresh_count h O (brk h) Hi Hfr) as [_ Hn0]. by destruct (proj1 (nch_none _ _) Hn0 x d' Hd').
      * pose proof (inv_rings _ _ Hi q c Hq) as Hr. unfold ring_of in *. destruct (mutable_ c && negb (is_token c)); [|done].
        destruct Hr as (s & R1 & R2). exists s. assert (Hns : brk h ∉ s.*2).
        { intros Hx. destruct (children_in _ _ _ _ R2 Hx) as (d & Hd & _). congruence. }
        split.
        -- eapply ring_rep_frame; [|exact R1]. intros x Hx. cbn. rewrite lookup_insert_ne; [done|]. by intros <-.
        -- intros k x. rewrite (R2 k x), HL. destruct (decide (x = brk h)) as [->|]; [|done]. rewrite Hfr.
           split; [by intros (? & ? & _)|]. by intros (? & [= <-] & [=] & _).
  - by eapply keeps_fresh.
  - cbn. rewrite map_size_insert_None by done. rewrite gmultiset_size_disj_union, gmultiset_size_singleton. lia.
  - rewrite HL. by rewrite decide_True.
  - intros q Hq. rewrite HL. by rewrite decide_False.
Qed.

(** ** Children *)

Definition child_info (par i : N) (c : Cell) (g : Green) (o : N) : Info :=
  mkInfo (Some par) i (negb (green_is_node g)) (mutable_ c) g o.

(** Everything that was live still shows what it did. *)
Definition grows (h h' : Heap) : Prop := forall q d, lk h q = Some d -> lk h' q = Some d.

Lemma green_eqb_refl g : green_eqb g g = true.
Proof.
  induction g as [k t|k w cs IH] using green_rect_elems; cbn [green_eqb]; rewrite kind_eqb_refl; [by rewrite bool_decide_true|].
  rewrite N.eqb_refl. cbn. induction IH as [|[off g] cs Hg _ IHcs]; [done|]. cbn in Hg. by rewrite N.eqb_refl, Hg, IHcs.
Qed.

Section Child.
Context (h : Heap) (O : gmultiset ptr) (par : ptr) (c : Cell) (i off : N) (g : Green) (o : N).
Context (Hi : inv h O) (Hpar : cells h !! par = Some c) (Htok : is_token c = false).
Context (Hg : green_node_child (green c) i = Some (off, g)) (Ho : mutable_ c = false -> o = u32 (offset c + off)).
Context (Hf : fits 2 h O).

Let n := brk h.
Let new := mkCell 1 (Some par) i (negb (green_is_node g)) (mutable_ c) g o None.

Lemma par_not_new : par <> n.
Proof. intros ->. pose proof (brk_fresh h O Hi) as E. unfold lk in E. fold n in E. by rewrite Hpar in E. Qed.

Lemma new_free : cells h !! n = None /\ slls h !! n = None.
Proof.
  pose proof (brk_fresh h O Hi) as E. unfold lk in E. fold n in E. destruct (cells h !! n) eqn:En; [done|]. split; [done|].
  apply eq_None_not_Some. rewrite (inv_slls _ _ Hi), En. by intros [? [=]].
Qed.

Lemma child_green_ok : green_ok g.
Proof.
  destruct (t_info _ _ (inv_tree _ _ Hi) par (info c) (lk_cell _ _ _ Hpar)) as [Hgok _].
  unfold green_node_child in Hg. by destruct (proj2 (green_widths_and_offsets _ Hgok) _ _ _ Hg).
Qed.

(** The heap with the new cell, the parent's count raised, and new links [m] from [hd]. *)
Definition grown (hd : option ptr) (m : Slls) : Heap :=
  mkHeap (<[par := set_first hd (set_refcount (refcount c + 1) c)]> (<[n := new]> (cells h))) m (n + 1).

Lemma lk_grown hd m q : lk (grown hd m) q = if decide (q = n) then Some (info new) else lk h q.
Proof.
  pose proof par_not_new. unfold lk, grown. cbn. destruct (decide (q = n)) as [->|Hne].
  - rewrite lookup_insert_ne by done. by rewrite lookup_insert_eq.
  - destruct (decide (q = par)) as [->|]; [by rewrite lookup_insert_eq, Hpar|by rewrite !lookup_insert_ne].
Qed.

Lemma size_grown hd m : size (cells (grown hd m)) = S (size (cells h)).
Proof.
  pose proof par_not_new. destruct new_free as [Hn _]. cbn. rewrite map_size_insert_Some by (rewrite lookup_insert_ne by done; by eexists).
  by rewrite map_size_insert_None.
Qed.

Lemma inv_grown hd m : (forall p, is_Some (m !! p) <-> is_Some (cells (grown hd m) !! p)) -> rings_ok (grown hd m) ->
  after h O 2 (grown hd m) (O ⊎ {[+ n +]}).
Proof.
  intros Hs Hr. pose proof par_not_new as Hpn. split; [|split].
  - eapply inv_added with (i := info new); [done|by eapply fits_le; [|exact Hf]; lia|done|apply lk_grown| | | |done|done].
    + split; [by apply child_green_ok|]. split; [done|]. by intros [=].
    + intros p [= <-]. exists (info c). split; [by apply lk_cell|]. split; [done|]. split; [done|]. exists off. by split.
    + intros q c' Hq. fold n. cbn in Hq. apply lookup_insert_Some in Hq as [[<- <-]|[Hne Hq]].
      * rewrite decide_False by done. exists c. split; [done|]. cbn [i_parent info new parent]. by rewrite decide_True.
      * destruct (decide (q = n)) as [->|Hqn]; [rewrite lookup_insert_eq in Hq; by injection Hq as <-|].
        rewrite lookup_insert_ne in Hq by done. exists c'. split; [done|]. cbn [i_parent info new parent]. rewrite decide_False by congruence. lia.
  - eapply keeps_fresh; [done|]. apply lk_grown.
  - rewrite size_grown, gmultiset_size_disj_union, gmultiset_size_singleton. lia.
Qed.

(** The other rings of a grown heap. *)
Lemma other_ring hd m q d : q <> n -> q <> par -> cells h !! q = Some d ->
  (forall x, x <> n -> (forall dx, lk h x = Some dx -> i_parent dx <> Some par) -> m !! x = slls h !! x) ->
  ring_of (grown hd m) q d.
Proof.
  intros Hqn Hqp Hq Hm. pose proof (inv_rings _ _ Hi q d Hq) as Hr. pose proof (brk_fresh h O Hi) as Hfr. fold n in Hfr.
  unfold ring_of in *. destruct (mutable_ d && negb (is_token d)); [|done]. destruct Hr as (s & R1 & R2). exists s. split.
  - eapply ring_rep_frame; [|exact R1]. intros x Hx. cbn. destruct (children_in _ _ _ _ R2 Hx) as (dx & H1 & H2).
    apply Hm; [intros ->; congruence|]. intros dx' H3. congruence.
  - intros k x. rewrite (R2 k x), lk_grown. destruct (decide (x = n)) as [->|]; [|done]. rewrite Hfr.
    split; [by intros (? & ? & _)|]. intros (? & [= <-] & [= Hp] & _). congruence.
Qed.

(** A new link outside every ring. *)
Lemma alone_ring hd k q d : q <> n -> q <> par -> cells h !! q = Some d -> ring_of (grown hd (<[n := mkSll n n k]> (slls h))) q d.
Proof.
  intros Hqn Hqp Hq. apply other_ring; [done|done|done|]. intros x Hx _. by rewrite lookup_insert_ne.
Qed.

Lemma grown_keys hd m : (forall p, is_Some (m !! p) <-> is_Some (slls h !! p) \/ p = n) ->
  forall p, is_Some (m !! p) <-> is_Some (cells (grown hd m) !! p).
Proof.
  intros Hm p. rewrite (Hm p), (inv_slls _ _ Hi p). cbn. destruct (decide (p = par)) as [->|Hpp].
  - rewrite lookup_insert_eq, Hpar. split; [by intros _|by left].
  - rewrite lookup_insert_ne by done. destruct (decide (p = n)) as [->|Hpn].
    + rewrite lookup_insert_eq. split; [by intros _|by right].
    + rewrite lookup_insert_ne by done. tauto.
Qed.

Lemma insert_keys (m : Slls) k p : is_Some (<[n := mkSll n n k]> m !! p) <-> is_Some (m !! p) \/ p = n.
Proof.
  destruct (decide (p = n)) as [->|Hp]; [rewrite lookup_insert_eq; split; [by right|done]|].
  rewrite lookup_insert_ne by done. tauto.
Qed.

Lemma new_ring hd m : ring_of (grown hd m) n new.
Proof.
  unfold ring_of. cbn. destruct (mutable_ c && negb (negb (green_is_node g))); [|done]. exists []. split.
  - split; [|constructor]. split; [done|]. split; [done|]. split; constructor.
  - intros k x. split; [by intros ?%elem_of_nil|]. intros (d & Hd & Hp & _). exfalso. rewrite lk_grown in Hd.
    destruct (decide (x = n)) as [->|]; [injection Hd as <-; cbn in Hp; injection Hp as Hp; by destruct par_not_new|].
    apply lk_Some in Hd as (d' & Hd' & ->). destruct (fresh_count h O n Hi (brk_fresh h O Hi)) as [_ Hn0].
    by destruct (proj1 (nch_none _ _) Hn0 x d' Hd').
Qed.

(** The rings of a grown heap, when that of the parent is in order. *)
Lemma grown_rings hd m : ring_of (grown hd m) par (set_first hd (set_refcount (refcount c + 1) c)) ->
  (forall q d, q <> n -> q <> par -> cells h !! q = Some d -> ring_of (grown hd m) q d) -> rings_ok (grown hd m).
Proof.
  intros Hp Ho' q d Hq. cbn in Hq. apply lookup_insert_Some in Hq as [[<- <-]|[Hqp Hq]]; [done|].
  apply lookup_insert_Some in Hq as [[<- <-]|[Hqn Hq]]; [apply new_ring|by apply Ho'].
Qed.

Lemma after_alloc : mutable_ c = false -> after h O 2 (grown (first c) (<[n := mkSll n n i]> (slls h))) (O ⊎ {[+ n +]}).
Proof.
  intros Hm. apply inv_grown.
  - apply grown_keys. intros p. apply insert_keys.
  - apply grown_rings.
    + pose proof (inv_rings _ _ Hi par c Hpar) as Hr. unfold ring_of in *. cbn. by rewrite Hm in *.
    + intros q d. apply alone_ring.
Qed.

(** The new cell in its place in the parent's ring. *)
Lemma after_add s1 s2 hd m : mutable_ c = true ->
  ring_rep (slls h) (first c) (s1 ++ s2) -> children_of (lk h) par (s1 ++ s2) ->
  Forall (fun e => e.1 < i) s1 -> Forall (fun e => i < e.1) s2 -> wired m hd (s1 ++ (i, n) :: s2) ->
  (forall x, ky m x = ky (<[n := mkSll n n i]> (slls h)) x) ->
  (forall x, x ∉ n :: (s1 ++ s2).*2 -> m !! x = <[n := mkSll n n i]> (slls h) !! x) ->
  after h O 2 (grown hd m) (O ⊎ {[+ n +]}).
Proof.
  intros Hm [Hw Hs] Hch H1 H2 Hw' K F. apply inv_grown; [apply grown_keys|apply grown_rings].
  - intros p. rewrite <- insert_keys with (k := i). pose proof (K p) as Kp. unfold ky in Kp.
    split; intros [y Hy]; rewrite Hy in Kp; [by destruct (<[n := mkSll n n i]> (slls h) !! p)|by destruct (m !! p)].
  - unfold ring_of. cbn. rewrite Hm, Htok. cbn. exists (s1 ++ (i, n) :: s2). split.
    + split; [done|]. rewrite fmap_app in *. cbn [fmap list_fmap fst]. apply StronglySorted_app in Hs as (Hx & Hs1 & Hs2).
      apply StronglySorted_app. split; [|split; [done|constructor; [done|by rewrite Forall_fmap]]].
      intros k1 k2 Hk1 [->|Hk2]%elem_of_cons; [|by apply Hx].
      apply list_elem_of_fmap in Hk1 as (x & -> & Hx1). rewrite Forall_forall in H1. by apply H1.
    + intros k x. rewrite elem_of_app, elem_of_cons, lk_grown. pose proof (Hch k x) as Hkx. rewrite elem_of_app in Hkx.
      destruct (decide (x = n)) as [->|Hx].
      * split.
        -- intros [Hin|[[= ->]|Hin]]; [|by exists (info new)|]; destruct (proj1 Hkx ltac:(tauto)) as (d & Hd & _);
             pose proof (brk_fresh h O Hi) as Hfr; fold n in Hfr; congruence.
        -- intros (d & [= <-] & _ & <-). cbn. tauto.
      * rewrite <- Hkx. split; [intros [?|[[= ? ?]|?]]; [tauto|done|tauto]|tauto].
  - intros q d Hqn Hqp Hq. apply other_ring; [done|done|done|]. intros x Hx Hxp.
    rewrite F, lookup_insert_ne; [done|done|]. intros [->|Hin]%elem_of_cons; [done|].
    destruct (children_in _ _ _ _ Hch Hin) as (d' & H3 & H4). by apply (Hxp d').
Qed.

(** A live child, taken once more. *)
Lemma old_child q : mutable_ c = true -> forall s1 s2, ring_rep (slls h) (first c) (s1 ++ (i, q) :: s2) ->
  children_of (lk h) par (s1 ++ (i, q) :: s2) -> exists d, cells h !! q = Some d /\ green d = g /\
    is_token d = negb (green_is_node g) /\ parent d = Some par /\ index d = i /\ mutable_ d = mutable_ c.
Proof.
  intros Hm s1 s2 _ Hch. destruct (proj1 (Hch i q)) as (d & Hd & Hp & Hx); [apply elem_of_app; right; by left|].
  pose proof Hi as [[_ Ti Tp _] _ _ _]. destruct (Tp q d par Hd Hp) as (pc & Hpc & _ & Hmm & off' & Hgc & _).
  rewrite (lk_cell _ _ _ Hpar) in Hpc. injection Hpc as <-. cbn in Hgc, Hmm. rewrite Hx, Hg in Hgc. injection Hgc as _ Hgr.
  destruct (Ti q d Hd) as (_ & Ht & _). apply lk_Some in Hd as (d' & Hd & ->). cbn in *. exists d'. rewrite Hgr in *. done.
Qed.

Definition child_result (token : bool) : Prop := exists q h', child token par g i o h = Ret (q, h') /\
  after h O 2 h' (O ⊎ {[+ q +]}) /\ grows h h' /\ exists o', lk h' q = Some (mkInfo (Some par) i token (mutable_ c) g o').

Lemma par_count : u32 (refcount c + 1) = refcount c + 1.
Proof. apply u32_small. pose proof (fits_count h O par c 2 Hi Hpar Hf). lia. Qed.

Lemma grown_grows hd m : grows h (grown hd m).
Proof. intros q d Hq. rewrite lk_grown, decide_False; [done|]. intros ->. pose proof (brk_fresh h O Hi) as Hfr. fold n in Hfr. congruence. Qed.

Lemma child_immutable : mutable_ c = false -> child_result (negb (green_is_node g)).
Proof.
  intros Em. unfold child_result, child, bind at 1. rewrite (cell_at_ok _ _ _ Hpar). cbn [obind]. rewrite Em.
  unfold alloc, bind. cbn [obind]. unfold syntax_node_retain.
  erewrite update_cell by (cbn; rewrite lookup_insert_ne; [exact Hpar|apply not_eq_sym, par_not_new]).
  cbn [obind]. unfold ret. rewrite par_count. exists n, (grown (first c) (<[n := mkSll n n i]> (slls h))). split.
  - unfold grown, put_cells, new. rewrite Em. by destruct c.
  - split; [by apply after_alloc|]. split; [apply grown_grows|]. exists o. rewrite lk_grown, decide_True by done. unfold new, info. cbn. by rewrite Em.
Qed.

Lemma child_live s1 q s2 : mutable_ c = true -> ring_rep (slls h) (first c) (s1 ++ (i, q) :: s2) ->
  children_of (lk h) par (s1 ++ (i, q) :: s2) -> Forall (fun e => e.1 < i) s1 -> child_result (negb (green_is_node g)).
Proof.
  intros Em Hr Hch H1. unfold child_result, child, bind at 1. rewrite (cell_at_ok _ _ _ Hpar). cbn [obind]. rewrite Em.
  unfold bind at 1, gets. cbn [obind]. unfold bind at 1, lift at 1. rewrite (sll_link_present _ _ _ _ _ _ Hr H1). cbn [obind].
  destruct (old_child q Em s1 s2 Hr Hch) as (d & Hd & Hdg & Hdt & Hdp & Hdi & Hdm).
  unfold bind, assert_, lift. rewrite (cell_at_ok _ _ _ Hd). cbn [obind]. rewrite Hdt, eqb_reflx. cbn [obind oassert].
  rewrite Hdg, green_eqb_refl. cbn [obind oassert].
  destruct (retain_ok h O q d Hi Hd) as (h' & E & Ha & Hc' & _); [by eapply fits_le; [|exact Hf]; lia|].
  unfold syntax_node_retain in E. rewrite E. cbn [obind]. exists q, h'. split; [done|].
  assert (HL : forall x, lk h' x = lk h x).
  { intros x. unfold lk. rewrite Hc'. destruct (decide (x = q)) as [->|]; [by rewrite lookup_insert_eq, Hd|by rewrite lookup_insert_ne]. }
  split; [by eapply after_trans; [exact Ha|apply after_refl, Ha|]; lia|]. split; [intros x dx; by rewrite HL|].
  exists (offset d). rewrite HL, (lk_cell _ _ _ Hd). unfold info. by rewrite Hdp, Hdi, Hdt, Hdm, Hdg, Em.
Qed.

Lemma child_added s1 s2 : mutable_ c = true -> ring_rep (slls h) (first c) (s1 ++ s2) ->
  children_of (lk h) par (s1 ++ s2) -> Forall (fun e => e.1 < i) s1 -> Forall (fun e => i < e.1) s2 ->
  child_result (negb (green_is_node g)).
Proof.
  intros Em Hr Hch H1 H2. unfold child_result, child, bind at 1. rewrite (cell_at_ok _ _ _ Hpar). cbn [obind]. rewrite Em.
  unfold bind at 1, gets. cbn [obind]. unfold bind at 1, lift at 1. rewrite (sll_link_absent _ _ i s1 s2 Hr H1 H2). cbn [obind].
  assert (Hns : n ∉ (s1 ++ s2).*2).
  { intros Hx. destruct (children_in _ _ _ _ Hch Hx) as (d & Hd & _). pose proof (brk_fresh h O Hi) as Hfr. fold n in Hfr. congruence. }
  assert (Hk : ky (<[n := mkSll n n i]> (slls h)) n = Some i) by (unfold ky; by rewrite lookup_insert_eq).
  destruct (sll_add_ok (<[n := mkSll n n i]> (slls h)) (first c) s1 s2 i n) as (hd & m & Eadd & Hw & K & F); [|done|done|].
  { eapply (ring_rep_frame (slls h)); [|exact Hr]. intros x Hx. rewrite lookup_insert_ne; [done|]. by intros <-. }
  assert (Hplace : match place (s1 ++ s2) s1 with SLL_ADD_ALREADY_IN_SLL _ => False | _ => True end).
  { unfold place. destruct (s1 ++ s2); [done|]. by destruct (last s1). }
  set (r := place (s1 ++ s2) s1) in *.
  assert (E : (let* n := alloc (Some par) i o (negb (green_is_node g)) true g in
      syntax_node_retain par ;;;
      let* m := gets slls in
      let* (hd, m) := lift (sll_add m (first c) r n) in
      (fun h => Ret (tt, put_slls m h)) ;;; update (set_first hd) par ;;; ret n)%red h = Ret (n, grown hd m)).
  { unfold alloc, bind, syntax_node_retain. cbn [obind].
    erewrite update_cell by (cbn; rewrite lookup_insert_ne; [exact Hpar|apply not_eq_sym, par_not_new]).
    cbn [obind]. unfold gets, lift. cbn [obind slls put_cells]. fold n. rewrite Eadd. cbn [obind].
    erewrite update_cell by (cbn; apply lookup_insert_eq). cbn [obind]. unfold ret. rewrite par_count.
    unfold grown, put_cells, put_slls, new. cbn. rewrite insert_insert_eq, Em. done. }
  exists n, (grown hd m). split; [by destruct r|]. split; [by eapply after_add|]. split; [apply grown_grows|].
  exists o. rewrite lk_grown, decide_True by done. unfold new, info. cbn. by rewrite Em.
Qed.

Lemma child_spec token : token = negb (green_is_node g) -> child_result token.
Proof.
  intros ->. destruct (Bool.bool_dec (mutable_ c) true) as [Em|Em%not_true_is_false]; [|by apply child_immutable].
  pose proof (inv_rings _ _ Hi par c Hpar) as Hr. unfold ring_of in Hr. rewrite Em, Htok in Hr. cbn in Hr. destruct Hr as (s & Hr & Hch).
  destruct (at_key i s) as [q|] eqn:Eq.
  - destruct (sorted_at _ _ _ (proj2 Hr) Eq) as (s1 & s2 & -> & H1). by eapply child_live.
  - pose proof (sorted_split _ _ (proj2 Hr) Eq) as Es. rewrite Es in Hr, Hch. eapply child_added; [done|done|done|..].
    + apply Forall_forall. intros x [Hx _]%list_elem_of_filter. done.
    + apply Forall_forall. intros x [Hx _]%list_elem_of_filter. done.
Qed.

End Child.

End RedOps.
