(* ===== verification/RedCalls.v ===== *)
(** * Navigation on the red tree's heap

    What each call answers and what it does to the references: [gives h O n m Q] says that
    [m] returns from a heap in order, to a heap in order, with [n] more cells and references
    at most. *)

From stdpp Require Import gmap gmultiset.
From S2P Require Import Prelude SyntaxKind Green GreenFacts Sll SllFacts Red RedInv RedNav.

(** ** Where a handle stands

    The path of a handle from an ancestor, the green tree under that path, and the place of
    its text.  The offset a handle computes, or has cached, is that of its path. *)

Import SyntaxKind Green GreenFacts Sll SllFacts Red RedTree RedInv.

Module RedPath.

#[local] Open Scope N_scope.

Implicit Types (L : ptr -> option Info) (pi : list N).

(** [pi] leads from [r] down to [q]. *)
Inductive at_path L (r : ptr) : list N -> ptr -> Prop :=
  | at_here c : L r = Some c -> at_path L r [] r
  | at_down pi p q c : at_path L r pi p -> L q = Some c -> i_parent c = Some p -> at_path L r (pi ++ [i_index c]) q.

Lemma at_down_to L r pi p q c i : at_path L r pi p -> L q = Some c -> i_parent c = Some p -> i_index c = i -> at_path L r (pi ++ [i]) q.
Proof. intros H Hq Hp <-. by eapply at_down. Qed.

Definition is_root L (r : ptr) : Prop := exists c, L r = Some c /\ i_parent c = None.

Definition path_to (h : Heap) (r : ptr) (rc : Info) (pi : list N) (q : ptr) : Prop :=
  lk h r = Some rc /\ i_parent rc = None /\ at_path (lk h) r pi q.

(** The tree under a path, and its offset from [off]. *)
Fixpoint green_at (off : N) (g : Green) pi : option (N * Green) :=
  match pi with
  | [] => Some (off, g)
  | i :: pi =>
      match green_node_child g i with Some (o, g) => green_at (u32 (off + o)) g pi | None => None end
  end.

Lemma green_at_snoc off g pi i : green_at off g (pi ++ [i]) =
  match green_at off g pi with
  | Some (o, g) => match green_node_child g i with Some (o', g) => Some (u32 (o + o'), g) | None => None end
  | None => None
  end.
Proof.
  revert off g. induction pi as [|j pi IH]; intros off g; cbn [app green_at]; [done|].
  destruct (green_node_child g j) as [[o' g']|]; [apply IH|done].
Qed.

Lemma at_path_live L r pi q : at_path L r pi q -> is_Some (L q).
Proof. by intros [c H|? ? ? c _ H _]; rewrite H. Qed.

Lemma at_path_top L r pi q : at_path L r pi q -> is_Some (L r).
Proof. induction 1 as [c H|]; [by rewrite H|done]. Qed.

Lemma at_path_trans L a pi b pi' c : at_path L a pi b -> at_path L b pi' c -> at_path L a (pi ++ pi') c.
Proof.
  intros H1 H2. induction H2 as [d H|pi' p q d _ IH Hq Hp]; [by rewrite app_nil_r|].
  rewrite app_assoc. by eapply at_down.
Qed.

(** Paths stay while their handles do. *)
Lemma at_path_keep L L' r pi q : (forall p c, L p = Some c -> is_Some (L' p) -> L' p = Some c) ->
  (forall q c p, L' q = Some c -> i_parent c = Some p -> is_Some (L' p)) ->
  at_path L r pi q -> is_Some (L' q) -> at_path L' r pi q.
Proof.
  intros Hsame Hpar H. induction H as [c Hc|pi p q c Hp IH Hq Hqp]; intros Hl.
  - eapply at_here. by apply Hsame.
  - pose proof (Hsame q c Hq Hl) as Hq'. eapply at_down; [|exact Hq'|exact Hqp]. apply IH. by eapply Hpar.
Qed.

(** ** Text *)

Lemma elem_split cs i o (g : Green) : nth_error cs i = Some (o, g) ->
  elem_text cs = elem_text (take i cs) ++ green_text g ++ elem_text (drop (S i) cs).
Proof.
  intros H. apply nth_error_split in H as (l1 & l2 & -> & <-). rewrite take_app_length, drop_app_ge by lia.
  replace (S (length l1) - length l1)%nat with 1%nat by lia. rewrite elem_text_app. done.
Qed.

(** The tree at a path has its text where the offset says. *)
Lemma green_at_text off g pi off' g' : green_ok g -> green_at off g pi = Some (off', g') ->
  green_ok g' /\ exists pre post, green_text g = pre ++ green_text g' ++ post /\ (off < 2 ^ 32 -> off' = u32 (off + N.of_nat (length pre))).
Proof.
  revert off g. induction pi as [|i pi IH]; intros off g Hg; cbn [green_at].
  - intros [= -> ->]. split; [done|]. exists [], []. rewrite app_nil_r. split; [done|]. intros H. by rewrite N.add_0_r, u32_small.
  - unfold green_node_child. destruct (nth_error (green_children g) (N.to_nat i)) as [[o c]|] eqn:E; [|done].
    intros H. destruct (proj2 (green_widths_and_offsets g Hg) _ _ _ E) as [-> Hc].
    destruct (IH _ _ Hc H) as (Hg' & pre & post & Et & Eo). split; [done|].
    exists (elem_text (take (N.to_nat i) (green_children g)) ++ pre), (post ++ elem_text (drop (S (N.to_nat i)) (green_children g))).
    destruct g as [k n cs|k t]; [|by destruct (N.to_nat i)]. rewrite green_text_node. cbn [green_children] in *. split.
    + rewrite (elem_split _ _ _ _ E), Et, <- !app_assoc. done.
    + intros _. rewrite Eo by apply u32_lt. rewrite u32_add_l.
      rewrite <- N.add_assoc, (N.add_comm (u32 _)), N.add_assoc, u32_add_r. f_equal. rewrite length_app. lia.
Qed.

(** A child is one step down. *)
Lemma child_path h O q c p i : inv h O -> lk h q = Some c -> i_parent c = Some p -> i_index c = i -> at_path (lk h) p [i] q.
Proof.
  intros Hi Hq Hp <-. destruct (t_parent _ _ (inv_tree _ _ Hi) q c p Hq Hp) as (pc & Hpc & _).
  eapply (at_down (lk h) p [] p); [by eapply at_here|done|done].
Qed.

(** ** Every live handle has a path from a root *)

Section Paths.
Context (h : Heap) (O : gmultiset ptr) (Hi : inv h O).

Lemma path_exists q c : lk h q = Some c -> exists r pi, is_root (lk h) r /\ at_path (lk h) r pi q.
Proof using Hi.
  destruct (inv_tree _ _ Hi) as [_ _ Tp [rank Tr]].
  cut (forall n q c, (rank q < n)%nat -> lk h q = Some c -> exists r pi, is_root (lk h) r /\ at_path (lk h) r pi q); [by eauto|].
  clear q c. induction n as [|n IH]; intros q c Hn Hq; [lia|]. destruct (i_parent c) as [p|] eqn:Ep.
  - destruct (Tp q c p Hq Ep) as (pc & Hpc & _). destruct (IH p pc) as (r & pi & Hr & Hp); [|done|].
    + specialize (Tr q c p Hq Ep). lia.
    + exists r, (pi ++ [i_index c]). split; [done|]. by eapply at_down.
  - exists q, []. split; [by exists c|]. by eapply at_here.
Qed.

Lemma live_length (l : list ptr) : NoDup l -> (forall x, x ∈ l -> is_Some (cells h !! x)) -> (length l <= size (cells h))%nat.
Proof using.
  intros Hnd Hall. assert (Hs : (size (list_to_set l : gset ptr) <= size (dom (cells h)))%nat).
  { apply subseteq_size. intros x Hx%elem_of_list_to_set. apply elem_of_dom. by apply Hall. }
  by rewrite size_list_to_set, size_dom in Hs.
Qed.

Lemma path_length r pi q : at_path (lk h) r pi q -> (length pi < size (cells h))%nat.
Proof using Hi.
  destruct (inv_tree _ _ Hi) as [_ _ Tp [rank Tr]]. intros Hp.
  assert (H : exists l : list ptr, length l = S (length pi) /\ NoDup l /\ forall x, x ∈ l -> is_Some (cells h !! x) /\ (rank x <= rank q)%nat).
  { induction Hp as [c Hc|pi p q c Hp (l & Hl & Hnd & Hall) Hq Hpar].
    - exists [r]. split; [done|]. split; [apply NoDup_singleton|]. intros x ->%list_elem_of_singleton. apply lk_Some in Hc as (? & ? & _). by split.
    - specialize (Tr q c p Hq Hpar). exists (q :: l). split; [rewrite length_app; cbn; lia|]. split.
      + apply NoDup_cons. split; [|done]. intros Hin. destruct (Hall q Hin). lia.
      + intros x [->|Hx]%elem_of_cons; [apply lk_Some in Hq as (? & ? & _); by split|]. destruct (Hall x Hx). split; [done|lia]. }
  destruct H as (l & Hl & Hnd & Hall). pose proof (live_length l Hnd (fun x Hx => proj1 (Hall x Hx))). lia.
Qed.

(** The offset of the path, cached or summed. *)
Lemma path_offset r rc pi q : lk h r = Some rc -> i_parent rc = None -> at_path (lk h) r pi q ->
  exists c off, lk h q = Some c /\ green_at 0 (i_green rc) pi = Some (off, i_green c) /\ off < 2 ^ 32 /\
    (i_mutable c = false -> i_offset c = off) /\
    forall fuel acc, (length pi < fuel)%nat -> acc < 2 ^ 32 -> sum_offsets fuel acc q h = Ret (u32 (acc + off), h).
Proof using Hi.
  destruct (inv_tree _ _ Hi) as [_ Ti Tp _]. intros Hr Hroot Hp. induction Hp as [c Hc|pi p q c Hp (pc & poff & Hpc & Hat & Hlt & Hoff & Hsum) Hq Hpar].
  - rewrite Hr in Hc. injection Hc as <-. exists rc, 0. split; [done|]. split; [done|]. split; [lia|]. split.
    + intros Hm. by apply (Ti r rc Hr).
    + intros fuel acc Hf Ha. destruct fuel as [|fuel]; [cbn in Hf; lia|]. apply lk_Some in Hr as (cc & Hcc & ->). cbn [sum_offsets]. unfold bind.
      rewrite (cell_at_ok _ _ _ Hcc). cbn [obind i_parent info] in *. rewrite Hroot. unfold ret. by rewrite N.add_0_r, u32_small.
  - destruct (Tp q c p Hq Hpar) as (pc' & Hpc' & _ & Hm & o & Hg & Hco). rewrite Hpc in Hpc'. injection Hpc' as <-.
    exists c, (u32 (poff + o)). split; [done|]. split; [by rewrite green_at_snoc, Hat, Hg|]. split; [apply u32_lt|]. split.
    + intros Hcm. rewrite (Hco Hcm). f_equal. f_equal. apply Hoff. by rewrite Hm.
    + intros fuel acc Hf Ha. rewrite length_app in Hf. cbn in Hf. destruct fuel as [|fuel]; [lia|]. pose proof Hq as Hq'. pose proof Hpc as Hpc'.
      apply lk_Some in Hq' as (cc & Hcc & ->). apply lk_Some in Hpc' as (pcc & Hpcc & ->). cbn [sum_offsets]. unfold bind.
      rewrite (cell_at_ok _ _ _ Hcc). cbn [obind i_parent info i_index i_green] in *. rewrite Hpar. rewrite (cell_at_ok _ _ _ Hpcc). cbn [obind].
      unfold rel_offset. rewrite Hg, Hsum; [|lia|apply u32_lt]. do 2 f_equal. rewrite u32_add_l, u32_add_r. f_equal. lia.
Qed.

(** [node_abs_offset] at a live handle. *)
Lemma path_abs_offset r rc pi q c off g : lk h r = Some rc -> i_parent rc = None -> at_path (lk h) r pi q -> lk h q = Some c ->
  green_at 0 (i_green rc) pi = Some (off, g) -> node_abs_offset q h = Ret (off, h).
Proof using Hi.
  intros Hr Hroot Hp Hq Hat. destruct (path_offset r rc pi q Hr Hroot Hp) as (c' & off' & Hq' & Hat' & Hlt & Hoff & Hsum).
  rewrite Hq in Hq'. injection Hq' as <-. rewrite Hat in Hat'. injection Hat' as -> _.
  apply lk_Some in Hq as (cc & Hcc & ->). unfold node_abs_offset, bind at 1. rewrite (cell_at_ok _ _ _ Hcc). cbn [obind i_mutable i_offset info] in *.
  destruct (mutable_ cc).
  - unfold steps, gets, bind. cbn [obind]. rewrite Hsum; [|apply path_length in Hp; lia|lia]. by rewrite u32_small.
  - unfold ret. by rewrite Hoff.
Qed.

Lemma abs_offset_ok q c : lk h q = Some c ->
  exists r rc pi off, lk h r = Some rc /\ i_parent rc = None /\ at_path (lk h) r pi q /\
    green_at 0 (i_green rc) pi = Some (off, i_green c) /\ node_abs_offset q h = Ret (off, h).
Proof using Hi.
  intros Hq. destruct (path_exists q c Hq) as (r & pi & (rc & Hr & Hroot) & Hp).
  destruct (path_offset r rc pi q Hr Hroot Hp) as (c' & off & Hq' & Hat & _). rewrite Hq in Hq'. injection Hq' as <-.
  exists r, rc, pi, off. split; [done|]. split; [done|]. split; [done|]. split; [done|]. by eapply path_abs_offset.
Qed.

End Paths.

Lemma path_root h O q c : inv h O -> lk h q = Some c -> exists r rc pi, path_to h r rc pi q.
Proof. intros Hi Hq. destruct (path_exists h O Hi q c Hq) as (r & pi & (rc & Hr & Hrn) & Hp). exists r, rc, pi. by split. Qed.

End RedPath.

Import SyntaxKind Green GreenFacts Sll SllFacts Red RedTree RedNav RedInv RedOps RedPath.

Module RedCalls.

#[local] Open Scope N_scope.

Definition gives {A} (h : Heap) (O : gmultiset ptr) (n : nat) (m : M A) (Q : A -> gmultiset ptr -> Heap -> Prop) : Prop :=
  exists a h' O', m h = Ret (a, h') /\ after h O n h' O' /\ Q a O' h'.

Lemma gives_ret {A} h O n (a : A) (Q : A -> gmultiset ptr -> Heap -> Prop) : inv h O -> Q a O h -> gives h O n (ret a) Q.
Proof.
  intros Hi HQ. exists a, h, O. split; [done|]. split; [|done]. destruct (after_refl h O Hi) as (H1 & H2 & H3).
  split; [done|]. split; [done|lia].
Qed.

Lemma gives_bind {A B} h O n1 n2 n (m : M A) (k : A -> M B) (Q : A -> gmultiset ptr -> Heap -> Prop) R :
  gives h O n1 m Q -> (n1 + n2 <= n)%nat ->
  (forall a O' h', after h O n1 h' O' -> Q a O' h' -> gives h' O' n2 (k a) R) -> gives h O n (bind m k) R.
Proof.
  intros (a & h1 & O1 & E1 & A1 & HQ) Hn Hk. destruct (Hk a O1 h1 A1 HQ) as (b & h2 & O2 & E2 & A2 & HR).
  exists b, h2, O2. unfold bind. rewrite E1. cbn [obind]. split; [done|]. split; [|done]. by eapply after_trans.
Qed.

(** A step that only reads. *)
Lemma gives_read {A B} h O n (m : M A) (k : A -> M B) a R : m h = Ret (a, h) -> gives h O n (k a) R -> gives h O n (bind m k) R.
Proof. intros E (b & h2 & O2 & E2 & H). exists b, h2, O2. unfold bind. by rewrite E. Qed.

Lemma gives_mono {A} h O n n' (m : M A) (Q R : A -> gmultiset ptr -> Heap -> Prop) : gives h O n m Q -> (n <= n')%nat ->
  (forall a O' h', after h O n h' O' -> Q a O' h' -> R a O' h') -> gives h O n' m R.
Proof.
  intros (a & h1 & O1 & E1 & A1 & HQ) Hn HR. exists a, h1, O1. split; [done|]. split; [|by apply HR].
  destruct A1 as (H1 & H2 & H3). split; [done|]. split; [done|lia].
Qed.

Lemma gives_cell {B} h O n p c (k : Cell -> M B) R : lk h p = Some c ->
  (forall d, cells h !! p = Some d -> c = info d -> gives h O n (k d) R) -> gives h O n (bind (cell_at p) k) R.
Proof. intros (d & Hd & ->)%lk_Some Hk. eapply gives_read; [by apply cell_at_ok|]. by apply Hk. Qed.

(** What is live before and after an operation shows the same. *)
Lemma after_same h O n h' O' p c : inv h O -> after h O n h' O' -> lk h p = Some c -> is_Some (lk h' p) -> lk h' p = Some c.
Proof.
  intros Hi (_ & [_ Hk] & _) Hp [c' Hp']. rewrite Hp'. apply Hk in Hp'; [congruence|]. apply (t_fresh _ _ (inv_tree _ _ Hi) _ _ Hp).
Qed.

Lemma after_owned h O n h' O' p c : inv h O -> after h O n h' O' -> lk h p = Some c -> p ∈ O' -> lk h' p = Some c.
Proof.
  intros Hi Ha Hp Hin. eapply after_same; [done|done|done|]. destruct (inv_owned h' O' p (proj1 Ha) Hin) as [d Hd]. by rewrite (lk_cell _ _ _ Hd).
Qed.

(** The parent of what is live is live. *)
Lemma after_parent h O n h' O' q c p pc : inv h O -> after h O n h' O' -> lk h' q = Some c -> i_parent c = Some p -> lk h p = Some pc -> lk h' p = Some pc.
Proof.
  intros Hi Ha Hq Hp Hpc. eapply after_same; [done|done|done|]. destruct (t_parent _ _ (inv_tree _ _ (proj1 Ha)) q c p Hq Hp) as (pc' & -> & _). done.
Qed.

Lemma after_path h O n h' O' r pi q : inv h O -> after h O n h' O' -> at_path (lk h) r pi q -> is_Some (lk h' q) -> at_path (lk h') r pi q.
Proof.
  intros Hi Ha. apply at_path_keep.
  - intros p c. by eapply after_same.
  - intros x c p Hx Hp. by destruct (t_parent _ _ (inv_tree _ _ (proj1 Ha)) x c p Hx Hp) as (pc & -> & _).
Qed.

Lemma release_gives h O p : inv h (O ⊎ {[+ p +]}) ->
  gives h (O ⊎ {[+ p +]}) 0 (syntax_node_release p) (fun _ O' _ => O' = O).
Proof. intros Hi. destruct (release_ok h O p Hi) as (h' & E & Ha & _). by exists tt, h', O. Qed.

(** A reference passed on: a retained one taken for a released one. *)
Lemma pass_gives {B} h O p h1 q n (k : M B) R : inv h (O ⊎ {[+ p +]}) -> after h (O ⊎ {[+ p +]}) 1 h1 (O ⊎ {[+ q +]} ⊎ {[+ p +]}) ->
  (forall h2, after h (O ⊎ {[+ p +]}) 0 h2 (O ⊎ {[+ q +]}) -> after h1 (O ⊎ {[+ q +]} ⊎ {[+ p +]}) 0 h2 (O ⊎ {[+ q +]}) ->
    exists a h' O', k h2 = Ret (a, h') /\ after h (O ⊎ {[+ p +]}) n h' O' /\ R a O' h') ->
  exists a h' O', bind (syntax_node_release p) (fun _ => k) h1 = Ret (a, h') /\ after h (O ⊎ {[+ p +]}) n h' O' /\ R a O' h'.
Proof.
  intros Hi (Hi1 & Hk1 & Hs1) Hk. destruct (release_ok h1 (O ⊎ {[+ q +]}) p Hi1) as (h2 & E & Ha & Hs).
  unfold bind. rewrite E. cbn [obind]. apply Hk; [|done]. split; [apply Ha|]. split; [etrans; [exact Hk1|apply Ha]|].
  rewrite !gmultiset_size_disj_union, !gmultiset_size_singleton in *. lia.
Qed.

Lemma release_token_gives h O p : inv h (O ⊎ {[+ p +]}) ->
  gives h (O ⊎ {[+ p +]}) 0 (syntax_token_release p) (fun _ O' _ => O' = O).
Proof. intros Hi. destruct (release_token_ok h O p Hi) as (h' & E & Ha). by exists tt, h', O. Qed.

(** ** Scans of a level *)

Lemma find_from_spec f i cs k x : find_from f i cs = Some (k, x) ->
  i <= k /\ nth_error cs (N.to_nat (k - i)) = Some x /\ f x.2 = true /\
  forall j y, (j < N.to_nat (k - i))%nat -> nth_error cs j = Some y -> f y.2 = false.
Proof.
  revert i. induction cs as [|[off g] cs IH]; intros i; cbn [find_from]; [done|]. destruct (f g) eqn:Ef.
  - intros [= -> <-]. rewrite N.sub_diag. split; [done|]. split; [done|]. split; [done|]. intros j y Hj. cbn in Hj. lia.
  - intros (Hk & Hn & Hf & Hb)%IH. replace (N.to_nat (k - i)) with (S (N.to_nat (k - (i + 1)))) by lia.
    split; [lia|]. split; [done|]. split; [done|]. intros [|j] y Hj; [by intros [= <-]|]. apply Hb. lia.
Qed.

Lemma find_from_none f i cs : find_from f i cs = None <-> Forall (fun x => f x.2 = false) cs.
Proof.
  revert i. induction cs as [|[off g] cs IH]; intros i; cbn [find_from]; [by split|]. rewrite Forall_cons. cbn.
  destruct (f g); [split; [done|by intros []]|]. rewrite IH. by split; [intros ?; split|intros []].
Qed.

Lemma nth_lookup {A} (l : list A) i : nth_error l i = l !! i.
Proof. revert i. induction l as [|x l IH]; intros [|i]; cbn; [done..|]. apply IH. Qed.

Lemma nth_error_drop {A} (l : list A) i j : nth_error (drop i l) j = nth_error l (i + j).
Proof. revert l. induction i as [|i IH]; intros [|x l]; cbn; [done..|by destruct j|apply IH]. Qed.

Lemma find_next_spec f i g k x : find_next f i g = Some (k, x) ->
  i <= k /\ green_node_child g k = Some x /\ f x.2 = true /\
  forall j y, i <= j < k -> green_node_child g j = Some y -> f y.2 = false.
Proof.
  unfold find_next, green_node_child. intros (H1 & H2 & H3 & H4)%find_from_spec. rewrite nth_error_drop in H2.
  replace (N.to_nat i + N.to_nat (k - i))%nat with (N.to_nat k) in H2 by lia. split; [done|]. split; [done|]. split; [done|].
  intros j y Hj Hy. apply (H4 (N.to_nat j - N.to_nat i)%nat); [lia|]. rewrite nth_error_drop.
  by replace (N.to_nat i + (N.to_nat j - N.to_nat i))%nat with (N.to_nat j) by lia.
Qed.

Lemma find_back_spec f i cs k x : find_back f i cs = Some (k, x) ->
  (N.to_nat k < i)%nat /\ nth_error cs (N.to_nat k) = Some x /\ f x.2 = true /\
  forall j y, (N.to_nat k < j < i)%nat -> nth_error cs j = Some y -> f y.2 = false.
Proof.
  induction i as [|i IH]; cbn [find_back]; [done|]. destruct (nth_error cs i) as [[off g]|] eqn:E; [destruct (f g) eqn:Ef|].
  - intros [= <- <-]. rewrite Nat2N.id. split; [lia|]. split; [done|]. split; [done|]. intros j y Hj. lia.
  - intros (H1 & H2 & H3 & H4)%IH. split; [lia|]. split; [done|]. split; [done|]. intros j y Hj Hy.
    destruct (decide (j = i)) as [->|]; [rewrite E in Hy; by injection Hy as <-|]. apply (H4 j y); [lia|done].
  - intros (H1 & H2 & H3 & H4)%IH. split; [lia|]. split; [done|]. split; [done|]. intros j y Hj Hy.
    destruct (decide (j = i)) as [->|]; [congruence|]. apply (H4 j y); [lia|done].
Qed.

Lemma find_prev_spec f i g k x : find_prev f i g = Some (k, x) -> k < i /\ green_node_child g k = Some x /\ f x.2 = true /\
  forall j y, k < j < i -> green_node_child g j = Some y -> f y.2 = false.
Proof.
  unfold find_prev, green_node_child. intros (H1 & H2 & H3 & H4)%find_back_spec. split; [lia|]. split; [done|]. split; [done|].
  intros j y Hj. apply H4. lia.
Qed.

Section Calls.
Context (h : Heap) (O : gmultiset ptr) (Hi : inv h O).

Lemma retain_gives p c : lk h p = Some c -> fits 1 h O ->
  gives h O 1 (syntax_node_retain p) (fun _ O' h' => O' = O ⊎ {[+ p +]} /\ forall q, lk h' q = lk h q).
Proof using Hi.
  intros (d & Hd & ->)%lk_Some Hf. destruct (retain_ok h O p d Hi Hd Hf) as (h' & E & Ha & Hc & _).
  exists tt, h', (O ⊎ {[+ p +]}). split; [done|]. split; [done|]. split; [done|]. intros q. unfold lk. rewrite Hc.
  destruct (decide (q = p)) as [->|]; [by rewrite lookup_insert_eq, Hd|by rewrite lookup_insert_ne].
Qed.

Lemma abs_offset_gives {B} n p c (k : N -> M B) R : lk h p = Some c ->
  (forall off, (i_mutable c = false -> off = i_offset c) -> gives h O n (k off) R) -> gives h O n (bind (node_abs_offset p) k) R.
Proof using Hi.
  intros Hp Hk. destruct (abs_offset_ok h O Hi p c Hp) as (_ & _ & _ & off & _ & _ & _ & _ & E).
  eapply gives_read; [exact E|]. apply Hk. intros Hm. apply lk_Some in Hp as (d & Hd & ->). cbn in *.
  unfold node_abs_offset, bind in E. rewrite (cell_at_ok _ _ _ Hd) in E. cbn [obind] in E. rewrite Hm in E. unfold ret in E. congruence.
Qed.

(** [q] shows child [i] of [par], which shows [c]. *)
Definition shows_child (h' : Heap) (par i : N) (c : Info) (g : Green) (q : ptr) : Prop :=
  exists o', lk h' q = Some (mkInfo (Some par) i (negb (green_is_node g)) (i_mutable c) g o').

Lemma child_gives token par c i off g o : lk h par = Some c -> i_token c = false -> green_node_child (i_green c) i = Some (off, g) ->
  token = negb (green_is_node g) -> (i_mutable c = false -> o = u32 (i_offset c + off)) -> fits 2 h O ->
  gives h O 2 (child token par g i o) (fun q O' h' => O' = O ⊎ {[+ q +]} /\ shows_child h' par i c g q /\ grows h h').
Proof using Hi.
  intros (d & Hd & ->)%lk_Some Ht Hg Htok Ho Hf.
  destruct (child_spec h O par d i off g o Hi Hd Ht Hg Ho Hf token Htok) as (q & h' & E & Ha & Hgr & o' & Hq).
  exists q, h', (O ⊎ {[+ q +]}). split; [done|]. split; [done|]. split; [done|]. split; [|done]. exists o'. by rewrite <- Htok.
Qed.

(** The child of [par] at [i], as an element. *)
Definition elem_at (h' : Heap) (par i : N) (c : Info) (e : SyntaxElement) : Prop :=
  match green_node_child (i_green c) i with
  | None => e = ELEM_NONE
  | Some (off, g) => exists q, e = (if green_is_node g then ELEM_NODE q else ELEM_TOKEN q) /\ shows_child h' par i c g q
  end.

(** Without an element nothing has changed. *)
Definition idle_or_grown (h' : Heap) (e : SyntaxElement) : Prop := grows h h' /\ (e = ELEM_NONE -> h' = h).

Definition elem_ref (e : SyntaxElement) : gmultiset ptr :=
  match e with ELEM_NONE => ∅ | ELEM_NODE q | ELEM_TOKEN q => {[+ q +]} end.

Lemma wrap_child_gives par c i : lk h par = Some c -> i_token c = false -> fits 2 h O ->
  gives h O 2 (wrap_child par i) (fun e O' h' => O' = O ⊎ elem_ref e /\ elem_at h' par i c e /\ idle_or_grown h' e).
Proof using Hi.
  intros Hp Ht Hf. unfold wrap_child. eapply gives_cell; [exact Hp|]. intros d Hd ->. unfold elem_at. cbn [i_green info] in *.
  destruct (green_node_child (green d) i) as [[off g]|] eqn:Eg.
  - eapply abs_offset_gives; [exact Hp|]. intros base Hb. destruct (green_is_node g) eqn:En.
    all: eapply gives_bind with (n1 := 2%nat) (n2 := 0%nat); [eapply child_gives; [exact Hp|done|exact Eg|by rewrite En| |done]|done|].
    all: try (intros Hm; by rewrite Hb).
    all: intros q O' h' Ha (-> & Hs & Hgr); apply gives_ret; [apply Ha|]; split; [done|]; split; [by exists q|by split].
  - apply gives_ret; [done|]. split; [cbn; by rewrite right_id_L by apply _|]. split; [done|]. split; [by intros q|done].
Qed.

(** A handle of the child a scan found. *)
Definition found_at (h' : Heap) (par : ptr) (c : Info) (found : option (N * (N * Green))) (n : option ptr) : Prop :=
  match found with
  | None => n = None
  | Some (i, (_, g)) => exists q, n = Some q /\ shows_child h' par i c g q
  end.

Lemma node_at_gives par c found : lk h par = Some c -> i_token c = false -> fits 2 h O ->
  (forall i off g, found = Some (i, (off, g)) -> green_node_child (i_green c) i = Some (off, g) /\ green_is_node g = true) ->
  gives h O 2 (node_at par found) (fun n O' h' => O' = O ⊎ opt_ref n /\ found_at h' par c found n /\ grows h h').
Proof using Hi.
  intros Hp Ht Hf Hfound. destruct found as [[i [off g]]|]; cbn [node_at].
  - destruct (Hfound _ _ _ eq_refl) as [Hg Hn]. eapply abs_offset_gives; [exact Hp|]. intros base Hb.
    eapply gives_bind with (n1 := 2%nat) (n2 := 0%nat); [eapply child_gives; [exact Hp|done|exact Hg|by rewrite Hn| |done]|done|].
    + intros Hm. by rewrite Hb.
    + intros q O' h' Ha (-> & Hs & Hgr). apply gives_ret; [apply Ha|]. split; [done|]. split; [by exists q|done].
  - apply gives_ret; [done|]. split; [cbn; by rewrite right_id_L by apply _|]. split; [done|]. intros q; done.
Qed.

Lemma parent_gives q c : lk h q = Some c -> fits 1 h O ->
  gives h O 1 (syntax_node_parent q) (fun p O' h' => p = i_parent c /\ O' = O ⊎ opt_ref p /\ forall x, lk h' x = lk h x).
Proof using Hi.
  intros Hq Hf. unfold syntax_node_parent. eapply gives_cell; [exact Hq|]. intros d Hd ->. cbn. destruct (parent d) as [par|] eqn:Ep.
  - destruct (t_parent _ _ (inv_tree _ _ Hi) q (info d) par Hq Ep) as (pc & Hpc & _).
    eapply gives_bind with (n1 := 1%nat) (n2 := 0%nat); [by eapply retain_gives|done|]. intros _ O' h' Ha (-> & HL). apply gives_ret; [apply Ha|done].
  - apply gives_ret; [done|]. split; [done|]. split; [cbn; by rewrite right_id_L by apply _|done].
Qed.

(** Nothing at the index, or out of the level. *)
Lemma no_elem par i c : green_node_child (i_green c) i = None -> elem_at h par i c ELEM_NONE.
Proof. unfold elem_at. by intros ->. Qed.

Lemma nothing_gives (Q : SyntaxElement -> gmultiset ptr -> Heap -> Prop) : Q ELEM_NONE O h -> gives h O 2 (ret ELEM_NONE) Q.
Proof using Hi. apply gives_ret, Hi. Qed.

Definition sibling_at (h' : Heap) (q : ptr) (c : Info) (i : option N) (e : SyntaxElement) : Prop :=
  match i_parent c, i with
  | Some par, Some i => exists pc, lk h par = Some pc /\ elem_at h' par i pc e
  | _, _ => e = ELEM_NONE
  end.

Definition before (i : N) : option N := if i =? 0 then None else Some (i - 1).

Lemma none_ref O' : O' = O -> O' = O ⊎ elem_ref ELEM_NONE.
Proof. intros ->. cbn. by rewrite right_id_L by apply _. Qed.

Lemma num_children_none g i : (green_node_num_children g <=? i) = true -> green_node_child g i = None.
Proof. unfold green_node_num_children, green_node_child. intros ?%N.leb_le. apply nth_error_None. lia. Qed.

Lemma next_elem_gives par pc i : lk h par = Some pc -> i_token pc = false -> fits 2 h O ->
  gives h O 2 (if green_node_num_children (i_green pc) <=? i then ret ELEM_NONE else wrap_child par i)
    (fun e O' h' => O' = O ⊎ elem_ref e /\ elem_at h' par i pc e /\ idle_or_grown h' e).
Proof using Hi.
  intros Hp Ht Hf. destruct (_ <=? i) eqn:E; [|by apply wrap_child_gives].
  apply nothing_gives. split; [by apply none_ref|]. split; [apply no_elem, num_children_none, E|]. split; [by intros x|done].
Qed.

Definition sibling_post (q : ptr) (c : Info) (i : option N) (e : SyntaxElement) (O' : gmultiset ptr) (h' : Heap) : Prop :=
  O' = O ⊎ elem_ref e /\ sibling_at h' q c i e /\ idle_or_grown h' e.

Lemma par_info q c par : lk h q = Some c -> i_parent c = Some par -> exists pc, lk h par = Some pc /\ child_ok pc c.
Proof using Hi. apply (t_parent _ _ (inv_tree _ _ Hi)). Qed.

Lemma no_sibling q c i : i_parent c = None \/ i = None -> sibling_post q c i ELEM_NONE O h.
Proof.
  intros H. split; [by apply none_ref|]. split; [|split; [by intros x|done]]. unfold sibling_at. destruct H as [-> | ->]; [done|by destruct (i_parent c)].
Qed.

Lemma next_sibling_gives q c : lk h q = Some c -> fits 2 h O ->
  gives h O 2 (syntax_node_next_sibling_or_token q) (sibling_post q c (Some (i_index c + 1))).
Proof using Hi.
  intros Hq Hf. unfold syntax_node_next_sibling_or_token. eapply gives_cell; [exact Hq|]. intros d Hd ->.
  destruct (parent d) as [par|] eqn:Ep; [|apply nothing_gives, no_sibling; by left].
  destruct (par_info q (info d) par Hq Ep) as (pc & Hpc & Ht & _). eapply gives_cell; [exact Hpc|]. intros pd Hpd ->.
  eapply gives_mono; [exact (next_elem_gives par (info pd) _ Hpc Ht Hf)|done|]. intros e O' h' _ (-> & He & Hg).
  split; [done|]. split; [|done]. unfold sibling_at. cbn [i_parent info]. rewrite Ep. by exists (info pd).
Qed.

Lemma prev_sibling_gives q c : lk h q = Some c -> fits 2 h O ->
  gives h O 2 (syntax_node_prev_sibling_or_token q) (sibling_post q c (before (i_index c))).
Proof using Hi.
  intros Hq Hf. unfold syntax_node_prev_sibling_or_token. eapply gives_cell; [exact Hq|]. intros d Hd ->. unfold before. cbn [i_index info].
  destruct (parent d) as [par|] eqn:Ep; [|apply nothing_gives, no_sibling; by left].
  destruct (par_info q (info d) par Hq Ep) as (pc & Hpc & Ht & _).
  destruct (index d =? 0); [apply nothing_gives, no_sibling; by right|].
  eapply gives_mono; [exact (wrap_child_gives par pc _ Hpc Ht Hf)|done|]. intros e O' h' _ (-> & He & Hg).
  split; [done|]. split; [|done]. unfold sibling_at. cbn [i_parent info]. rewrite Ep. by exists pc.
Qed.

Lemma token_par_gives {B} n q c par (k : ptr -> M B) R : lk h q = Some c -> i_parent c = Some par ->
  gives h O n (k par) R -> gives h O n (bind (token_par q) k) R.
Proof.
  intros (d & Hd & ->)%lk_Some Hp Hk. cbn in Hp. eapply gives_read; [|exact Hk]. unfold token_par, bind.
  rewrite (cell_at_ok _ _ _ Hd). cbn [obind]. by rewrite Hp.
Qed.

Lemma token_next_sibling_gives q c : lk h q = Some c -> is_Some (i_parent c) -> fits 2 h O ->
  gives h O 2 (syntax_token_next_sibling_or_token q) (sibling_post q c (Some (i_index c + 1))).
Proof using Hi.
  intros Hq [par Ep] Hf. unfold syntax_token_next_sibling_or_token. eapply gives_cell; [exact Hq|]. intros d Hd ->.
  eapply token_par_gives; [exact Hq|exact Ep|]. destruct (par_info q (info d) par Hq Ep) as (pc & Hpc & Ht & _).
  eapply gives_cell; [exact Hpc|]. intros pd Hpd ->.
  eapply gives_mono; [exact (next_elem_gives par (info pd) _ Hpc Ht Hf)|done|]. intros e O' h' _ (-> & He & Hg).
  split; [done|]. split; [|done]. unfold sibling_at. rewrite Ep. by exists (info pd).
Qed.

Lemma token_prev_sibling_gives q c : lk h q = Some c -> is_Some (i_parent c) -> fits 2 h O ->
  gives h O 2 (syntax_token_prev_sibling_or_token q) (sibling_post q c (before (i_index c))).
Proof using Hi.
  intros Hq [par Ep] Hf. unfold syntax_token_prev_sibling_or_token. eapply gives_cell; [exact Hq|]. intros d Hd ->. unfold before. cbn [i_index info].
  destruct (index d =? 0); [apply nothing_gives, no_sibling; by right|].
  eapply token_par_gives; [exact Hq|exact Ep|]. destruct (par_info q (info d) par Hq Ep) as (pc & Hpc & Ht & _).
  eapply gives_mono; [exact (wrap_child_gives par pc _ Hpc Ht Hf)|done|]. intros e O' h' _ (-> & He & Hg).
  split; [done|]. split; [|done]. unfold sibling_at. rewrite Ep. by exists pc.
Qed.

End Calls.

End RedCalls.
