(* ===== verification/RedTokens.v ===== *)
(** * Tokens in document order *)

From stdpp Require Import gmap gmultiset.
From S2P Require Import Prelude SyntaxKind Green GreenFacts Sll SllFacts Red RedNav RedInv RedCalls.

Import SyntaxKind Green GreenFacts Sll SllFacts Red RedTree RedNav RedInv RedOps RedPath RedCalls.

Module RedTokens.

#[local] Open Scope N_scope.

(** ** The first and the last token under a node *)

Fixpoint leaf_path (fuel : nat) (find : Green -> option (N * (N * Green))) (g : Green) : option (list N) :=
  match fuel with
  | O => None
  | S fuel =>
      match find g with
      | None => None
      | Some (i, (_, c)) => if green_is_node c then cons i <$> leaf_path fuel find c else Some [i]
      end
  end.

Lemma green_height_child g i o c : green_node_child g i = Some (o, c) -> (green_height c < green_height g)%nat.
Proof.
  unfold green_node_child. destruct g as [k n cs|k t]; cbn [green_children green_height]; [|by destruct (N.to_nat i)].
  generalize (N.to_nat i). induction cs as [|[o' c'] cs IH]; intros [|j]; cbn; [done..| |].
  - intros [= _ ->]. lia.
  - intros H. specialize (IH j H). lia.
Qed.

(** The token a search ended at. *)
Definition token_at (h' : Heap) (n : ptr) (pi : option (list N)) (t : option ptr) : Prop :=
  match t with
  | Some t => exists p c, pi = Some p /\ at_path (lk h') n p t /\ lk h' t = Some c /\ i_token c = true
  | None => pi = None
  end.

Lemma swap_refs (O A B : gmultiset ptr) : O ⊎ A ⊎ B = O ⊎ B ⊎ A.
Proof. multiset_solver. Qed.

(** Down to a child, leaving the parent. *)
Lemma step_down {B} h O n c i off g o token m (k : ptr -> M B) R : inv h (O ⊎ {[+ n +]}) -> lk h n = Some c -> i_token c = false ->
  green_node_child (i_green c) i = Some (off, g) -> token = negb (green_is_node g) -> (i_mutable c = false -> o = u32 (i_offset c + off)) ->
  fits 2 h (O ⊎ {[+ n +]}) ->
  (forall q h2, after h (O ⊎ {[+ n +]}) 2 h2 (O ⊎ {[+ q +]}) -> shows_child h2 n i c g q -> gives h2 (O ⊎ {[+ q +]}) m (k q) R) ->
  gives h (O ⊎ {[+ n +]}) (2 + m) (let* q := child token n g i o in syntax_node_release n ;;; k q)%red R.
Proof.
  intros Hi Hn Ht Hg Htok Ho Hf Hk. eapply gives_bind with (n1 := 2%nat) (n2 := m); [by eapply child_gives|lia|].
  intros q O1 h1 A1 (-> & [o' Hq] & _). rewrite swap_refs. rewrite swap_refs in A1.
  destruct (release_ok h1 (O ⊎ {[+ q +]}) n (proj1 A1)) as (h2 & E & A2 & _). eapply gives_bind with (n1 := 0%nat) (n2 := m) (Q := fun _ O' h' => O' = O ⊎ {[+ q +]} /\ h' = h2).
  - by exists tt, h2, (O ⊎ {[+ q +]}).
  - lia.
  - intros _ O2 h2' _ [-> ->]. apply Hk; [by eapply after_trans|]. exists o'.
    eapply after_owned; [apply A1|exact A2|exact Hq|]. apply gmultiset_elem_of_disj_union. right. by apply gmultiset_elem_of_singleton.
Qed.

Section Leaf.
Context (find : Green -> option (N * (N * Green))).
Context (find_ok : forall g i x, find g = Some (i, x) -> green_node_child g i = Some x).

Lemma leaf_token_gives fuel h O n c : inv h (O ⊎ {[+ n +]}) -> lk h n = Some c -> i_token c = false ->
  (green_height (i_green c) < fuel)%nat -> fits (2 * fuel) h (O ⊎ {[+ n +]}) ->
  gives h (O ⊎ {[+ n +]}) (2 * fuel) (leaf_token fuel find n)
    (fun t O' h' => O' = O ⊎ opt_ref t /\ token_at h' n (leaf_path fuel find (i_green c)) t).
Proof using find_ok.
  revert h O n c. induction fuel as [|fuel IH]; intros h O n c Hi Hn Ht Hh Hf; [lia|]. cbn [leaf_token leaf_path].
  eapply gives_cell; [exact Hn|]. intros d Hd ->. cbn [i_green info] in *. replace (2 * S fuel)%nat with (2 + 2 * fuel)%nat in * by lia.
  destruct (find (green d)) as [[i [off g]]|] eqn:E.
  2: { eapply gives_bind with (n1 := 0%nat) (n2 := 0%nat); [by apply release_gives|lia|]. intros _ O' h' Ha ->.
       apply gives_ret; [apply Ha|]. split; [cbn; by rewrite right_id_L by apply _|done]. }
  apply find_ok in E. pose proof (green_height_child _ _ _ _ E) as Hhc. eapply abs_offset_gives; [done|exact Hn|]. intros base Hb.
  destruct (green_is_node g) eqn:En; (eapply step_down; [done|exact Hn|done|exact E|by rewrite En| |eapply fits_le; [|exact Hf]; lia|]); try (intros Hm; by rewrite Hb).
  - intros q h2 A2 [o' Hq]. eapply gives_mono; [apply (IH h2 O q _ (proj1 A2) Hq)|lia|].
    + cbn. by rewrite En.
    + cbn. lia.
    + by eapply after_fits.
    + intros [t|] O3 h3 A3 [-> Ht3]; (split; [done|]); cbn [token_at i_green] in Ht3 |- *; [|by rewrite Ht3].
      destruct Ht3 as (p & tc & -> & Hp & Htc & Hto). exists (i :: p), tc. split; [done|]. split; [|done].
      pose proof (after_same _ _ _ _ _ _ _ (proj1 A2) A3 Hq (at_path_top _ _ _ _ Hp)) as Hq3.
      apply (at_path_trans _ n [i] q p t); [|done]. by eapply child_path; [apply A3|exact Hq3|..].
  - intros q h2 A2 [o' Hq]. apply gives_ret; [apply A2|]. split; [done|]. eexists [i], _. split; [done|].
    split; [by eapply child_path; [apply A2|exact Hq|..]|]. split; [exact Hq|cbn; by rewrite En].
Qed.

End Leaf.

Definition first_path (g : Green) : option (list N) := leaf_path (S (green_height g)) (find_next stops_at 0) g.
Definition last_path (g : Green) : option (list N) :=
  leaf_path (S (green_height g)) (fun g => find_prev stops_at (green_node_num_children g) g) g.

Lemma green_at_height off g pi o g' : green_at off g pi = Some (o, g') -> (green_height g' <= green_height g)%nat.
Proof.
  revert off g. induction pi as [|i pi IH]; intros off g; cbn [green_at]; [by intros [= _ ->]|].
  destruct (green_node_child g i) as [[o' c]|] eqn:E; [|done]. apply green_height_child in E. intros Hp%IH. lia.
Qed.

(** The token that a search [leaf] of child [i] ends at. *)
Definition down (leaf : Green -> option (list N)) (g : Green) (i : N) : option (list N) :=
  match green_node_child g i with
  | Some (_, c) => if green_is_node c then cons i <$> leaf c else Some [i]
  | None => None
  end.

Definition node_cost (g : Green) : nat := 3 + 2 * green_height g.

Lemma node_is_node h O n c : inv h O -> lk h n = Some c -> i_token c = negb (green_is_node (i_green c)).
Proof. intros Hi Hn. by destruct (t_info _ _ (inv_tree _ _ Hi) n c Hn) as (_ & ? & _). Qed.

Lemma leaf_gives (m : ptr -> M (option ptr)) leaf find :
  (forall n, m n = (let* c := cell_at n in syntax_node_retain n ;;; leaf_token (S (green_height (green c))) find n)%red) ->
  (forall g, leaf g = leaf_path (S (green_height g)) find g) ->
  (forall g i x, find g = Some (i, x) -> green_node_child g i = Some x) ->
  forall h O n c, inv h O -> lk h n = Some c -> i_token c = false -> fits (node_cost (i_green c)) h O ->
  gives h O (node_cost (i_green c)) (m n) (fun t O' h' => O' = O ⊎ opt_ref t /\ token_at h' n (leaf (i_green c)) t).
Proof.
  intros Hm Hleaf Hfind h O n c Hi Hn Ht Hf. unfold node_cost in *. rewrite Hm. eapply gives_cell; [exact Hn|]. intros d Hd ->. cbn [i_green info] in *.
  eapply gives_bind with (n1 := 1%nat) (n2 := (2 * S (green_height (green d)))%nat); [eapply retain_gives; [done|exact Hn|eapply fits_le; [|exact Hf]; lia]|lia|].
  intros _ O1 h1 A1 (-> & HL). rewrite Hleaf. eapply leaf_token_gives with (c := info d); [done|apply A1|by rewrite HL|done|cbn; lia|].
  eapply after_fits; [exact A1|]. eapply fits_le; [|exact Hf]. lia.
Qed.

Lemma first_token_gives h O n c : inv h O -> lk h n = Some c -> i_token c = false -> fits (node_cost (i_green c)) h O ->
  gives h O (node_cost (i_green c)) (syntax_node_first_token n) (fun t O' h' => O' = O ⊎ opt_ref t /\ token_at h' n (first_path (i_green c)) t).
Proof. apply (leaf_gives _ _ _ (fun n => eq_refl) (fun g => eq_refl)). by intros g i x (_ & ? & _)%find_next_spec. Qed.

Lemma last_token_gives h O n c : inv h O -> lk h n = Some c -> i_token c = false -> fits (node_cost (i_green c)) h O ->
  gives h O (node_cost (i_green c)) (syntax_node_last_token n) (fun t O' h' => O' = O ⊎ opt_ref t /\ token_at h' n (last_path (i_green c)) t).
Proof. apply (leaf_gives _ _ _ (fun n => eq_refl) (fun g => eq_refl)). by intros g i x (_ & ? & _)%find_prev_spec. Qed.

(** ** From an element on the way down *)

Definition leaf_spec (m : ptr -> M (option ptr)) (leaf : Green -> option (list N)) : Prop :=
  forall h O n c, inv h O -> lk h n = Some c -> i_token c = false -> fits (node_cost (i_green c)) h O ->
  gives h O (node_cost (i_green c)) (m n) (fun t O' h' => O' = O ⊎ opt_ref t /\ token_at h' n (leaf (i_green c)) t).

Lemma elem_leaf_gives m leaf h O e par i pc : leaf_spec m leaf -> inv h (O ⊎ elem_ref e) -> lk h par = Some pc -> elem_at h par i pc e ->
  e <> ELEM_NONE -> fits (node_cost (i_green pc)) h (O ⊎ elem_ref e) ->
  gives h (O ⊎ elem_ref e) (node_cost (i_green pc))
    match e with
    | ELEM_TOKEN t => ret (Some t)
    | ELEM_NODE n => (let* t := m n in syntax_node_release n ;;; ret t)%red
    | ELEM_NONE => lift (AssertFailed "dangling pointer")
    end (fun t O' h' => O' = O ⊎ opt_ref t /\ token_at h' par (down leaf (i_green pc) i) t).
Proof.
  intros Hm Hi Hpar He Hne Hf. unfold elem_at, down in *. destruct (green_node_child (i_green pc) i) as [[off g]|] eqn:Eg; [|done].
  destruct He as (q & -> & o' & Hq). destruct (green_is_node g) eqn:En; cbn [elem_ref] in *.
  - pose proof (green_height_child _ _ _ _ Eg) as Hh. eapply gives_bind with (n1 := node_cost g) (n2 := 0%nat); [|unfold node_cost; lia|].
    + apply (Hm h _ q _ Hi Hq); [done|]. eapply fits_le; [|exact Hf]. unfold node_cost. cbn. lia.
    + intros t O1 h1 A1 [-> Ht]. cbn [i_green] in Ht. rewrite swap_refs in A1 |- *. eapply gives_bind with (n1 := 0%nat) (n2 := 0%nat); [apply release_gives, A1|lia|].
      intros _ O2 h2 A2 ->. apply gives_ret; [apply A2|]. split; [done|]. destruct t as [t|]; cbn [token_at opt_ref] in *; [|by rewrite Ht].
      destruct Ht as (p & tc & -> & Hp & Htc & Hto). exists (i :: p), tc. split; [done|].
      assert (Htc2 : lk h2 t = Some tc).
      { eapply after_owned; [apply A1|exact A2|done|]. apply gmultiset_elem_of_disj_union. right. by apply gmultiset_elem_of_singleton. }
      split; [|done]. pose proof (after_path _ _ _ _ _ _ _ _ (proj1 A1) A2 Hp ltac:(by rewrite Htc2)) as Hp2.
      assert (A02 : after h (O ⊎ {[+ q +]}) (node_cost g) h2 (O ⊎ {[+ t +]})) by (eapply after_trans; [exact A1|exact A2|]; lia).
      pose proof (after_same _ _ _ _ _ _ _ Hi A02 Hq (at_path_top _ _ _ _ Hp2)) as Hq2.
      apply (at_path_trans _ par [i] q p t); [|done]. by eapply child_path; [apply A2|exact Hq2|..].
  - apply gives_ret; [done|]. split; [done|]. eexists [i], _. split; [done|]. split; [by eapply child_path; [exact Hi|exact Hq|..]|]. by split; [exact Hq|].
Qed.

(** ** The next token, by paths *)

Section Across.
Context (nxt : N -> option N) (leaf : Green -> option (list N)).

(** The search from the sibling after [i]; none when there is no sibling. *)
Definition here (g : Green) (i : N) : option (option (list N)) :=
  match nxt i with
  | Some j => match green_node_child g j with Some _ => Some (down leaf g j) | None => None end
  | None => None
  end.

(** The search after the subtree at a path. *)
Fixpoint across (g : Green) (pi : list N) : option (option (list N)) :=
  match pi with
  | [] => None
  | i :: pi =>
      match green_node_child g i with
      | Some (_, c) => match across c pi with Some r => Some (cons i <$> r) | None => here g i end
      | None => None
      end
  end.

Lemma across_snoc off g pi i o gp : green_at off g pi = Some (o, gp) -> is_Some (green_node_child gp i) ->
  across g (pi ++ [i]) = match here gp i with Some r => Some (app pi <$> r) | None => across g pi end.
Proof.
  revert off g. induction pi as [|k pi IH]; intros off g; cbn [green_at app across].
  - intros [= _ ->] [[o' c] ->]. destruct (here gp i) as [[r|]|]; done.
  - destruct (green_node_child g k) as [[o' c]|]; [|done]. intros H Hi. rewrite (IH _ _ H Hi).
    destruct (here gp i) as [[r|]|]; done.
Qed.

Context (sibling : ptr -> M SyntaxElement) (leafm : SyntaxElement -> M (option ptr)) (H : nat).
Context (sibling_ok : forall h O q c, inv h O -> lk h q = Some c -> i_token c = false -> fits 2 h O ->
  gives h O 2 (sibling q) (sibling_post h O q c (nxt (i_index c)))).
Context (leafm_ok : forall h O e par i pc, inv h (O ⊎ elem_ref e) -> lk h par = Some pc -> elem_at h par i pc e -> e <> ELEM_NONE ->
  (green_height (i_green pc) <= H)%nat -> fits (3 + 2 * H) h (O ⊎ elem_ref e) ->
  gives h (O ⊎ elem_ref e) (3 + 2 * H) (leafm e) (fun t O' h' => O' = O ⊎ opt_ref t /\ token_at h' par (down leaf (i_green pc) i) t)).

(** The token found under the parent is at its place under the root. *)
Lemma token_at_up h O n h' O' r pi par p t : inv h O -> after h O n h' O' -> at_path (lk h) r pi par ->
  token_at h' par p t -> token_at h' r (app pi <$> p) t.
Proof.
  intros Hi Ha Hr Ht. destruct t as [t|]; cbn [token_at] in *; [|by rewrite Ht].
  destruct Ht as (p' & tc & -> & Hp & Htc). exists (pi ++ p'), tc. split; [done|]. split; [|done].
  eapply at_path_trans; [|exact Hp]. eapply after_path; [exact Hi|exact Ha|exact Hr|]. by eapply at_path_top.
Qed.

(** An element found: leave [cur], go down from it. *)
Lemma climb_found h O cur e h1 O1 r pi par pc j : inv h O -> at_path (lk h) r pi par -> lk h par = Some pc ->
  after h O 2 h1 (O1 ⊎ elem_ref e ⊎ {[+ cur +]}) -> elem_at h1 par j pc e -> e <> ELEM_NONE ->
  (green_height (i_green pc) <= H)%nat -> fits (5 + 2 * H) h O ->
  gives h1 (O1 ⊎ elem_ref e ⊎ {[+ cur +]}) (3 + 2 * H) (syntax_node_release cur ;;; leafm e)%red
    (fun t O' h' => O' = O1 ⊎ opt_ref t /\ token_at h' r (app pi <$> down leaf (i_green pc) j) t).
Proof using leafm_ok.
  intros Hi Hp Hpc A1 He Hne Hh Hf. eapply gives_bind with (n1 := 0%nat) (n2 := (3 + 2 * H)%nat); [apply release_gives, A1|lia|].
  intros _ O2 h2 A2 ->. assert (A02 : after h O 2 h2 (O1 ⊎ elem_ref e)) by (eapply after_trans; [exact A1|exact A2|]; lia).
  assert (Hpc2 : lk h2 par = Some pc /\ elem_at h2 par j pc e).
  { unfold elem_at in *. destruct (green_node_child (i_green pc) j) as [[off g]|]; [|done]. destruct He as (q & Eq & o' & Hq).
    assert (Hq2 : lk h2 q = Some (mkInfo (Some par) j (negb (green_is_node g)) (i_mutable pc) g o')).
    { eapply after_owned; [apply A1|exact A2|done|]. apply gmultiset_elem_of_disj_union. right. rewrite Eq. destruct (green_is_node g); by apply gmultiset_elem_of_singleton. }
    split; [by eapply after_parent; [exact Hi|exact A02|exact Hq2|..]|]. exists q. split; [done|]. by exists o'. }
  destruct Hpc2 as [Hpc2 He2].
  eapply gives_mono; [eapply (leafm_ok h2 O1 e par j pc (proj1 A02) Hpc2 He2 Hne Hh)|done|].
  - eapply after_fits; [exact A02|]. eapply fits_le; [|exact Hf]. lia.
  - intros t O3 h3 A3 [-> Ht]. split; [done|]. assert (A03 : after h O (5 + 2 * H) h3 (O1 ⊎ opt_ref t)) by (eapply after_trans; [exact A02|exact A3|]; lia).
    eapply token_at_up; [exact Hi|exact A03|exact Hp|exact Ht].
Qed.

(** No element: go up. *)
Lemma climb_step h O cur c n (k : option ptr -> M (option ptr)) R : inv h (O ⊎ {[+ cur +]}) -> lk h cur = Some c -> fits 1 h (O ⊎ {[+ cur +]}) ->
  (forall h2, after h (O ⊎ {[+ cur +]}) 0 h2 (O ⊎ opt_ref (i_parent c)) -> gives h2 (O ⊎ opt_ref (i_parent c)) n (k (i_parent c)) R) ->
  gives h (O ⊎ {[+ cur +]}) n (let* par := syntax_node_parent cur in syntax_node_release cur ;;; k par)%red R.
Proof.
  intros Hi Hcur Hf Hk. destruct (parent_gives h _ Hi cur c Hcur Hf) as (p & h1 & O1 & E1 & A1 & -> & -> & HL).
  rewrite swap_refs in A1. destruct (release_ok h1 _ cur (proj1 A1)) as (h2 & E2 & A2 & Hs2).
  assert (A02 : after h (O ⊎ {[+ cur +]}) 0 h2 (O ⊎ opt_ref (i_parent c))).
  { destruct A1 as (I1 & K1 & S1), A2 as (I2 & K2 & S2). split; [done|]. split; [by etrans|].
    rewrite !gmultiset_size_disj_union in *. rewrite gmultiset_size_singleton in *. lia. }
  destruct (Hk h2 A02) as (t & h3 & O3 & E3 & A3 & HR). exists t, h3, O3. unfold bind. rewrite E1. cbn [obind]. rewrite E2. cbn [obind].
  split; [done|]. split; [|done]. eapply after_trans; [exact A02|exact A3|lia].
Qed.

(** The path of a handle below its parent's. *)
Lemma path_to_parent h O r rc pi q c par : inv h O -> path_to h r rc pi q -> lk h q = Some c -> i_parent c = Some par ->
  exists pi' pc off, pi = pi' ++ [i_index c] /\ path_to h r rc pi' par /\ lk h par = Some pc /\ child_ok pc c /\
    green_at 0 (i_green rc) pi' = Some (off, i_green pc).
Proof using.
  intros Hi (Hr & Hroot & Hp) Hq Hpar. inversion Hp as [d Hd|pi' p q' d Hp' Hd Hdp]; subst; [congruence|].
  rewrite Hq in Hd. injection Hd as <-. rewrite Hpar in Hdp. injection Hdp as <-.
  destruct (path_offset h O Hi r rc pi' par Hr Hroot Hp') as (pc & off & Hpc & Hat & _). exists pi', pc, off.
  split; [done|]. split; [done|]. split; [done|]. split; [|done]. destruct (t_parent _ _ (inv_tree _ _ Hi) q c par Hq Hpar) as (pc' & Hpc' & Hok). congruence.
Qed.

Lemma climb_gives fuel h O cur c r rc pi : inv h (O ⊎ {[+ cur +]}) -> lk h cur = Some c -> i_token c = false -> path_to h r rc pi cur ->
  (length pi < fuel)%nat -> (green_height (i_green rc) <= H)%nat -> fits (5 + 2 * H) h (O ⊎ {[+ cur +]}) ->
  gives h (O ⊎ {[+ cur +]}) (5 + 2 * H) (climb fuel sibling leafm cur)
    (fun t O' h' => O' = O ⊎ opt_ref t /\ token_at h' r (mjoin (across (i_green rc) pi)) t).
Proof using sibling_ok leafm_ok.
  revert h cur c pi. induction fuel as [|fuel IH]; intros h cur c pi Hi Hcur Ht Hpath Hlen HH Hf; [lia|]. cbn [climb].
  destruct (sibling_ok h _ cur c Hi Hcur Ht) as (e & h1 & O1 & E1 & A1 & -> & Hsib & Hgr & Hidle); [eapply fits_le; [|exact Hf]; lia|].
  destruct (i_parent c) as [par|] eqn:Ep.
  - destruct (path_to_parent h _ r rc pi cur c par Hi Hpath Hcur Ep) as (pi' & pc & off & -> & Hpath' & Hpc & Hok & Hat).
    destruct Hok as (Htp & _ & o & Hg & _). rewrite (across_snoc 0 _ _ _ _ _ Hat) by (by rewrite Hg).
    pose proof (green_at_height _ _ _ _ _ Hat) as Hht. unfold sibling_at in Hsib. rewrite Ep in Hsib. unfold here.
    destruct (syntax_element_is_none e) eqn:En.
    + assert (e = ELEM_NONE) as -> by (by destruct e). specialize (Hidle eq_refl) as ->.
      assert (Hnone : match nxt (i_index c) with Some j => match green_node_child (i_green pc) j with Some _ => Some (down leaf (i_green pc) j) | None => None end | None => None end = None).
      { destruct (nxt (i_index c)) as [j|]; [|done]. destruct Hsib as (pc' & Hpc' & Hel). rewrite Hpc in Hpc'. injection Hpc' as <-.
        unfold elem_at in Hel. destruct (green_node_child (i_green pc) j) as [[? g]|]; [|done]. destruct Hel as (q & Hq & _). by destruct (green_is_node g). }
      rewrite Hnone. eapply gives_read; [exact E1|]. cbn [syntax_element_is_none].
      eapply climb_step; [exact Hi|exact Hcur|eapply fits_le; [|exact Hf]; lia|]. intros h2 A2. rewrite Ep in *. cbn [opt_ref] in *.
      assert (Hpc2 : lk h2 par = Some pc).
      { eapply after_owned; [exact Hi|exact A2|exact Hpc|]. apply gmultiset_elem_of_disj_union. right. by apply gmultiset_elem_of_singleton. }
      destruct Hpath' as (Hr & Hroot & Hp'). pose proof (after_path _ _ _ _ _ _ _ _ Hi A2 Hp' ltac:(by rewrite Hpc2)) as Hp2.
      apply (IH h2 par pc pi' (proj1 A2) Hpc2 Htp); [|rewrite length_app in Hlen; cbn in Hlen; lia|done|].
      * split; [|done]. eapply after_same; [exact Hi|exact A2|exact Hr|]. by eapply at_path_top.
      * eapply after_fits; [exact A2|]. exact Hf.
    + destruct (nxt (i_index c)) as [j|]; [|by rewrite Hsib in En]. destruct Hsib as (pc' & Hpc' & Hel). rewrite Hpc in Hpc'. injection Hpc' as <-.
      assert (Hne : e <> ELEM_NONE) by (by intros ->). destruct (green_node_child (i_green pc) j) as [x|] eqn:Ej; [|unfold elem_at in Hel; by rewrite Ej in Hel].
      cbn [mjoin option_join]. rewrite swap_refs in A1. eapply gives_bind with (n1 := 2%nat) (n2 := (3 + 2 * H)%nat) (Q := fun a O' h' => a = e /\ O' = O ⊎ elem_ref e ⊎ {[+ cur +]} /\ h' = h1); [by exists e, h1, (O ⊎ elem_ref e ⊎ {[+ cur +]})|lia|].
      intros _ _ _ _ (-> & -> & ->). rewrite En. eapply climb_found; [exact Hi|apply Hpath'|exact Hpc|exact A1|exact Hel|done|lia|done].
  - unfold sibling_at in Hsib. rewrite Ep in Hsib. subst e. specialize (Hidle eq_refl) as ->.
    eapply gives_read; [exact E1|]. cbn [syntax_element_is_none]. eapply climb_step; [exact Hi|exact Hcur|eapply fits_le; [|exact Hf]; lia|].
    intros h2 A2. rewrite Ep in *. apply gives_ret; [apply A2|]. split; [done|]. cbn [token_at].
    destruct Hpath as (Hr & _ & Hp). inversion Hp as [d Hd|pi' p q' d Hp' Hd Hdp]; subst; [done|congruence].
Qed.

Context (token_sibling : ptr -> M SyntaxElement).
Context (token_sibling_ok : forall h O q c, inv h O -> lk h q = Some c -> is_Some (i_parent c) -> fits 2 h O ->
  gives h O 2 (token_sibling q) (sibling_post h O q c (nxt (i_index c)))).

Lemma here_none h h' par pc j : lk h par = Some pc -> (forall i, nxt i = Some j -> False) \/ elem_at h' par j pc ELEM_NONE ->
  forall i, nxt i = Some j -> green_node_child (i_green pc) j = None.
Proof using.
  intros Hpc [Hf|Hel] i Hi; [by destruct (Hf i)|]. unfold elem_at in Hel. destruct (green_node_child (i_green pc) j) as [[? g]|]; [|done].
  destruct Hel as (q & Hq & _). by destruct (green_is_node g).
Qed.

Lemma neighbour_gives h O t c r rc pi : inv h O -> lk h t = Some c -> is_Some (i_parent c) -> path_to h r rc pi t ->
  (green_height (i_green rc) <= H)%nat -> fits (6 + 2 * H) h O ->
  gives h O (6 + 2 * H) (token_neighbour token_sibling sibling leafm t)
    (fun t' O' h' => O' = O ⊎ opt_ref t' /\ token_at h' r (mjoin (across (i_green rc) pi)) t').
Proof using sibling_ok leafm_ok token_sibling_ok.
  intros Hi Ht [par Ep] Hpath HH Hf. unfold token_neighbour.
  destruct (token_sibling_ok h O t c Hi Ht) as (e & h1 & O1 & E1 & A1 & -> & Hsib & Hgr & Hidle); [by exists par|eapply fits_le; [|exact Hf]; lia|].
  destruct (path_to_parent h _ r rc pi t c par Hi Hpath Ht Ep) as (pi' & pc & off & -> & Hpath' & Hpc & Hok & Hat).
  destruct Hok as (Htp & _ & o & Hg & _). rewrite (across_snoc 0 _ _ _ _ _ Hat) by (by rewrite Hg).
  pose proof (green_at_height _ _ _ _ _ Hat) as Hht. unfold sibling_at in Hsib. rewrite Ep in Hsib. unfold here.
  destruct (syntax_element_is_none e) eqn:En.
  - assert (e = ELEM_NONE) as -> by (by destruct e). specialize (Hidle eq_refl) as ->. eapply gives_read; [exact E1|]. cbn [syntax_element_is_none].
    eapply token_par_gives; [exact Ht|exact Ep|]. eapply gives_bind with (n1 := 1%nat) (n2 := (5 + 2 * H)%nat); [eapply retain_gives; [exact Hi|exact Hpc|eapply fits_le; [|exact Hf]; lia]|lia|].
    intros _ O2 h2 A2 (-> & HL). unfold steps. eapply gives_read; [done|].
    replace (match nxt (i_index c) with Some _ => _ | None => _ end) with (@None (option (list N))).
    + destruct Hpath' as (Hr & Hroot & Hp'). pose proof (after_path _ _ _ _ _ _ _ _ Hi A2 Hp' ltac:(by rewrite HL, Hpc)) as Hp2.
      eapply climb_gives; [apply A2|by rewrite HL|done| | |done|].
      * split; [by rewrite HL|]. by split.
      * pose proof (path_length _ _ (proj1 A2) _ _ _ Hp2). lia.
      * eapply after_fits; [exact A2|]. eapply fits_le; [|exact Hf]. lia.
    + destruct (nxt (i_index c)) as [j|] eqn:Ej; [|done]. destruct Hsib as (pc' & Hpc' & Hel). rewrite Hpc in Hpc'. injection Hpc' as <-.
      by rewrite (here_none h h par pc j Hpc (or_intror Hel) _ Ej).
  - destruct (nxt (i_index c)) as [j|]; [|by rewrite Hsib in En]. destruct Hsib as (pc' & Hpc' & Hel). rewrite Hpc in Hpc'. injection Hpc' as <-.
    assert (Hne : e <> ELEM_NONE) by (by intros ->). destruct (green_node_child (i_green pc) j) as [x|] eqn:Ej; [|unfold elem_at in Hel; by rewrite Ej in Hel].
    cbn [mjoin option_join]. eapply gives_bind with (n1 := 2%nat) (n2 := (3 + 2 * H)%nat) (Q := fun a O' h' => a = e /\ O' = O ⊎ elem_ref e /\ h' = h1); [by exists e, h1, (O ⊎ elem_ref e)|lia|].
    intros _ _ _ _ (-> & -> & ->). rewrite En. eapply gives_mono; [eapply (leafm_ok h1 O e par j pc (proj1 A1))|done|].
    + by apply Hgr.
    + done.
    + done.
    + lia.
    + eapply after_fits; [exact A1|]. eapply fits_le; [|exact Hf]. lia.
    + intros t' O3 h3 A3 [-> Ht']. split; [done|]. eapply (token_at_up h1); [apply A1|exact A3| |exact Ht'].
      eapply after_path; [exact Hi|exact A1|apply Hpath'|]. by rewrite (Hgr _ _ Hpc).
Qed.

End Across.

Definition succ (i : N) : option N := Some (i + 1).

Lemma next_token_gives h O t c r rc pi : inv h O -> lk h t = Some c -> is_Some (i_parent c) -> path_to h r rc pi t ->
  fits (6 + 2 * green_height (i_green rc)) h O ->
  gives h O (6 + 2 * green_height (i_green rc)) (syntax_token_next_token t)
    (fun t' O' h' => O' = O ⊎ opt_ref t' /\ token_at h' r (mjoin (across succ first_path (i_green rc) pi)) t').
Proof.
  intros Hi Ht Hp Hpath Hf. eapply neighbour_gives; [..|exact Hi|exact Ht|done|done|done|done].
  - intros h' O' q d Hi' Hq _. by apply next_sibling_gives.
  - intros h' O' e par i pc Hi' Hpar He Hne Hh Hf'. unfold node_cost in *. eapply gives_mono.
    + apply (elem_leaf_gives syntax_node_first_token first_path h' O' e par i pc); try done; [exact first_token_gives|].
      eapply fits_le; [|exact Hf']. unfold node_cost. lia.
    + unfold node_cost. lia.
    + done.
  - intros h' O' q d Hi' Hq Hd. by apply token_next_sibling_gives.
Qed.

Lemma prev_token_gives h O t c r rc pi : inv h O -> lk h t = Some c -> is_Some (i_parent c) -> path_to h r rc pi t ->
  fits (6 + 2 * green_height (i_green rc)) h O ->
  gives h O (6 + 2 * green_height (i_green rc)) (syntax_token_prev_token t)
    (fun t' O' h' => O' = O ⊎ opt_ref t' /\ token_at h' r (mjoin (across before last_path (i_green rc) pi)) t').
Proof.
  intros Hi Ht Hp Hpath Hf. eapply neighbour_gives; [..|exact Hi|exact Ht|done|done|done|done].
  - intros h' O' q d Hi' Hq _. by apply prev_sibling_gives.
  - intros h' O' e par i pc Hi' Hpar He Hne Hh Hf'. eapply gives_mono.
    + apply (elem_leaf_gives syntax_node_last_token last_path h' O' e par i pc); try done; [exact last_token_gives|].
      eapply fits_le; [|exact Hf']. unfold node_cost. lia.
    + unfold node_cost. lia.
    + done.
  - intros h' O' q d Hi' Hq Hd. by apply token_prev_sibling_gives.
Qed.

End RedTokens.

(** ** The order of the tokens

    The paths of the tokens of a tree in document order, and that the search for the next
    token follows it in a tree without empty nodes. *)

Import SyntaxKind Green GreenFacts Sll SllFacts Red RedTree RedNav RedInv RedOps RedPath RedCalls RedTokens.

Module RedOrder.

#[local] Open Scope N_scope.

Fixpoint leaf_paths (g : Green) : list (list N) :=
  match g with
  | GreenToken _ _ => [[]]
  | GreenNode _ _ cs =>
      (fix go (i : N) (cs : list (N * Green)) : list (list N) :=
         match cs with [] => [] | c :: cs => map (cons i) (leaf_paths c.2) ++ go (i + 1) cs end) 0 cs
  end.

Fixpoint paths_from (i : N) (cs : list (N * Green)) : list (list N) :=
  match cs with [] => [] | c :: cs => map (cons i) (leaf_paths c.2) ++ paths_from (i + 1) cs end.

Lemma leaf_paths_node k w cs : leaf_paths (GreenNode k w cs) = paths_from 0 cs.
Proof. cbn. generalize 0. induction cs as [|c cs IH]; intros i; [done|]. cbn. by rewrite IH. Qed.

(** Every node below has text. *)
Fixpoint full (g : Green) : Prop :=
  match g with
  | GreenToken _ _ => True
  | GreenNode _ _ cs => fold_right (fun c P => (green_is_node c.2 = true -> 0 < green_text_len c.2) /\ full c.2 /\ P) True cs
  end.

Lemma full_child g i o c : full g -> green_node_child g i = Some (o, c) -> stops_at c = true /\ full c.
Proof.
  unfold green_node_child, stops_at. destruct g as [k w cs|k t]; cbn [green_children full]; [|by destruct (N.to_nat i)].
  generalize (N.to_nat i). induction cs as [|c' cs IH]; intros [|j]; [done..| |].
  - intros (H1 & H2 & _) [= ->]. cbn in *. split; [|done]. destruct (green_is_node c); [|done]. cbn. apply N.ltb_lt. by apply H1.
  - intros (_ & _ & H) Hj. by apply (IH j).
Qed.

Lemma leaf_paths_length g : length (leaf_paths g) = length (leaves g).
Proof.
  induction g as [k t|k w cs IH] using green_rect_elems; [done|]. rewrite leaf_paths_node. cbn [leaves]. generalize 0.
  induction IH as [|c cs Hc _ IHcs]; intros i; [done|]. cbn. by rewrite !length_app, length_map, Hc, IHcs.
Qed.

(** ** The first token *)

Lemma find_next_full g : full g -> find_next stops_at 0 g = match green_node_child g 0 with Some x => Some (0, x) | None => None end.
Proof.
  intros Hf. unfold find_next, green_node_child. change (N.to_nat 0) with 0%nat. rewrite drop_0.
  destruct (green_children g) as [|[o c] cs] eqn:E; [done|]. cbn. destruct (full_child g 0 o c Hf) as [-> _]; [|done].
  unfold green_node_child. by rewrite E.
Qed.

(** A node with text has children. *)
Lemma width_children k w cs : green_ok (GreenNode k w cs) -> 0 < w -> cs <> [].
Proof. intros [H _] Hw ->. cbn in H. injection H as <-. lia. Qed.

Definition has_text (g : Green) : Prop := green_is_node g = true -> 0 < green_text_len g.

Lemma first_leaf fuel g : full g -> green_ok g -> has_text g -> (green_height g < fuel)%nat -> green_is_node g = true ->
  leaf_path fuel (find_next stops_at 0) g = head (leaf_paths g) /\ leaf_paths g <> [].
Proof.
  revert g. induction fuel as [|fuel IH]; intros g Hf Hok Ht Hh Hn; [lia|]. cbn [leaf_path]. rewrite (find_next_full g Hf).
  destruct g as [k w cs|]; [|done]. pose proof (width_children k w cs Hok (Ht eq_refl)) as Hne. destruct cs as [|[o c] cs]; [done|].
  assert (Hc : green_node_child (GreenNode k w ((o, c) :: cs)) 0 = Some (o, c)) by done. rewrite Hc.
  destruct (full_child _ _ _ _ Hf Hc) as [Hst Hfc]. pose proof (green_height_child _ _ _ _ Hc) as Hhc.
  destruct (proj2 (green_widths_and_offsets _ Hok) _ _ _ Hc) as [_ Hokc]. rewrite leaf_paths_node. cbn [paths_from snd].
  destruct (green_is_node c) eqn:En.
  - destruct (IH c Hfc Hokc) as [-> Hl]; [| |done|].
    + intros _. unfold stops_at in Hst. rewrite En in Hst. by apply N.ltb_lt.
    + lia.
    + destruct (leaf_paths c) as [|p l]; [done|]. done.
  - destruct c; [done|]. done.
Qed.

(** ** The next token *)

Lemma paths_from_split i cs l1 pi l2 : paths_from i cs = l1 ++ pi :: l2 -> exists j c p l1' l2',
  nth_error cs j = Some c /\ pi = (i + N.of_nat j) :: p /\ leaf_paths c.2 = l1' ++ p :: l2' /\
  l1 = paths_from i (take j cs) ++ map (cons (i + N.of_nat j)) l1' /\
  l2 = map (cons (i + N.of_nat j)) l2' ++ paths_from (i + N.of_nat j + 1) (drop (S j) cs).
Proof.
  revert i l1. induction cs as [|c cs IH]; intros i l1; cbn [paths_from]; [by destruct l1|]. intros E.
  destruct (app_eq_inv _ _ _ _ E) as [(l & E1 & E2)|(l & E1 & E2)].
  - destruct l as [|y l].
    + cbn in E2. destruct (IH (i + 1) [] (eq_sym E2)) as (j & c' & p & l1' & l2' & Hj & -> & Hl & Hl1 & ->).
      exists (S j), c', p, l1', l2'. replace (i + N.of_nat (S j)) with (i + 1 + N.of_nat j) by lia.
      split; [done|]. split; [done|]. split; [done|]. split; [|done]. cbn. rewrite app_nil_r in E1. rewrite <- app_assoc, <- Hl1, app_nil_r. by rewrite E1.
    + injection E2 as <- ->. apply map_eq_app in E1 as (a & b & Ea & <- & Eb). apply map_eq_cons in Eb as (p & l2' & -> & <- & <-).
      exists 0%nat, c, p, a, l2'. cbn. rewrite N.add_0_r. done.
  - destruct (IH (i + 1) l E2) as (j & c' & p & l1' & l2' & Hj & -> & Hl & -> & ->).
    exists (S j), c', p, l1', l2'. replace (i + N.of_nat (S j)) with (i + 1 + N.of_nat j) by lia. cbn. by rewrite E1, <- app_assoc.
Qed.

(** A token's successor, among the children after [j]. *)
Lemma here_next g j : full g -> green_ok g -> 
  here succ first_path g j = Some <$> head (paths_from (j + 1) (drop (S (N.to_nat j)) (green_children g))).
Proof.
  intros Hf Hok. unfold here, succ, down, green_node_child. replace (N.to_nat (j + 1)) with (S (N.to_nat j)) by lia.
  destruct (nth_error (green_children g) (S (N.to_nat j))) as [[o c]|] eqn:E.
  - assert (Hc : green_node_child g (j + 1) = Some (o, c)) by (unfold green_node_child; by replace (N.to_nat (j + 1)) with (S (N.to_nat j)) by lia).
    destruct (full_child _ _ _ _ Hf Hc) as [Hst Hfc]. destruct (proj2 (green_widths_and_offsets _ Hok) _ _ _ E) as [_ Hokc].
    rewrite nth_lookup in E. rewrite (drop_S _ _ _ E). cbn [paths_from snd]. destruct (green_is_node c) eqn:En.
    + destruct (first_leaf (S (green_height c)) c Hfc Hokc) as [Hp Hl]; [|lia|done|].
      * intros _. unfold stops_at in Hst. rewrite En in Hst. by apply N.ltb_lt.
      * unfold first_path. rewrite Hp. by destruct (leaf_paths c).
    + destruct c; [done|]. done.
  - rewrite drop_ge; [done|]. by apply nth_error_None.
Qed.

Lemma across_next g l1 pi l2 : full g -> green_ok g -> leaf_paths g = l1 ++ pi :: l2 -> across succ first_path g pi = Some <$> head l2.
Proof.
  revert l1 pi l2. induction g as [k t|k w cs IH] using green_rect_elems; intros l1 pi l2 Hf Hok E.
  - cbn in E. destruct l1 as [|y l1]; [injection E as <- <-; done|by destruct l1].
  - rewrite leaf_paths_node in E. apply paths_from_split in E as (j & [o c] & p & l1' & l2' & Hj & -> & Hl & -> & ->).
    rewrite N.add_0_l in *. cbn [across]. assert (Hc : green_node_child (GreenNode k w cs) (N.of_nat j) = Some (o, c)).
    { unfold green_node_child. rewrite Nat2N.id. done. }
    rewrite Hc. destruct (full_child _ _ _ _ Hf Hc) as [_ Hfc]. destruct (proj2 (green_widths_and_offsets _ Hok) _ _ _ Hc) as [_ Hokc].
    rewrite List.Forall_forall in IH. pose proof (IH _ (nth_error_In _ _ Hj) _ _ _ Hfc Hokc Hl) as IHc. cbn [snd] in IHc. rewrite IHc.
    destruct l2' as [|p' l2']; cbn [head fmap option_fmap option_map map app]; [|done].
    rewrite (here_next _ _ Hf Hok). cbn [green_children]. by rewrite Nat2N.id.
Qed.

(** The paths lead to the leaves. *)
Lemma leaf_paths_at g off k pi : leaf_paths g !! k = Some pi ->
  exists o kind text, green_at off g pi = Some (o, GreenToken kind text) /\ leaves g !! k = Some (kind, text).
Proof.
  revert off k pi. induction g as [kd t|kd w cs IH] using green_rect_elems; intros off k pi H.
  - destruct k as [|k]; [|done]. injection H as <-. by exists off, kd, t.
  - rewrite leaf_paths_node in H. cbn [leaves]. assert (Hgen : forall i cs' k, (forall j c, nth_error cs' j = Some c -> nth_error cs (N.to_nat i + j) = Some c) ->
      Forall (fun c => forall off k pi, leaf_paths c.2 !! k = Some pi -> exists o kind text, green_at off c.2 pi = Some (o, GreenToken kind text) /\ leaves c.2 !! k = Some (kind, text)) cs' ->
      paths_from i cs' !! k = Some pi -> exists o kind text, green_at off (GreenNode kd w cs) pi = Some (o, GreenToken kind text) /\ concat (map (fun c => leaves c.2) cs') !! k = Some (kind, text)).
    { clear k H. intros i cs'. revert i. induction cs' as [|[o c] cs' IHc]; intros i k Hcs HF H; [done|]. cbn [paths_from snd] in H.
      inversion HF as [|? ? Hhd Htl]; subst. assert (Hlen : length (leaf_paths c) = length (leaves c)) by apply leaf_paths_length.
      cbn [map concat snd]. apply lookup_app_Some in H as [H|[Hge H]].
      - rewrite list_lookup_fmap in H. apply fmap_Some in H as (p & Hp & ->). destruct (Hhd (u32 (off + o)) k p Hp) as (o' & kind & text & Hat & Hl).
        exists o', kind, text. split; [|by apply lookup_app_l_Some]. cbn [green_at]. unfold green_node_child. cbn [green_children].
        rewrite (Hcs 0%nat (o, c) eq_refl) || (specialize (Hcs 0%nat (o, c) eq_refl); rewrite Nat.add_0_r in Hcs; rewrite Hcs). done.
      - rewrite length_map in *. destruct (IHc (i + 1) (k - length (leaf_paths c))%nat) as (o' & kind & text & Hat & Hl); [|done|done|].
        + intros j c' Hj. replace (N.to_nat (i + 1) + j)%nat with (N.to_nat i + S j)%nat by lia. by apply Hcs.
        + exists o', kind, text. split; [done|]. rewrite lookup_app_r by lia. by rewrite <- Hlen. }
    by apply (Hgen 0 cs k).
Qed.

End RedOrder.
