(* ===== verification/RedSpine.v ===== *)
(** * What an edit does to the ancestors

    [respine] gives a node a new green node and every ancestor the green node that follows. *)

From stdpp Require Import gmap gmultiset sorting.
From S2P Require Import Prelude SyntaxKind Green GreenFacts Sll SllFacts Red RedNav RedEdit RedInv RedCalls.

Import SyntaxKind Green GreenFacts Sll SllFacts Red RedTree RedNav RedEdit RedInv RedOps RedPath RedCalls.

Module RedSpine.

#[local] Open Scope N_scope.

(** [l] has [p] and its ancestors with their new green nodes, that of [p] being [G]. *)
Inductive spine (C : gmap ptr Cell) : ptr -> list (ptr * Green) -> Green -> Prop :=
  | spine_root r c G : C !! r = Some c -> parent c = None -> spine C r [(r, G)] G
  | spine_up p c a ac G Ga l :
      C !! p = Some c -> parent c = Some a -> C !! a = Some ac ->
      green_node_replace_child (green ac) (N.to_nat (index c)) (0, G) = Ret Ga ->
      p ∉ l.*1 -> spine C a l Ga -> spine C p ((p, G) :: l) G.

Definition regreen (l : list (ptr * Green)) (m : gmap ptr Cell) : gmap ptr Cell :=
  foldl (fun m e => alter (set_green e.2) e.1 m) m l.

Lemma spine_head C p l G : spine C p l G -> exists l', l = (p, G) :: l'.
Proof. destruct 1; by eexists. Qed.

Lemma spine_nodup C p l G : spine C p l G -> NoDup l.*1.
Proof. induction 1; [apply NoDup_singleton|]. cbn. by apply NoDup_cons. Qed.

Lemma spine_live C p l G x : spine C p l G -> x ∈ l.*1 -> is_Some (C !! x).
Proof.
  induction 1 as [r c G Hr _|p c a ac G Ga l Hp _ _ _ _ _ IH]; cbn.
  - intros ->%list_elem_of_singleton. by eexists.
  - intros [->|Hx]%elem_of_cons; [by eexists|by apply IH].
Qed.

Lemma regreen_notin l m x : x ∉ l.*1 -> regreen l m !! x = m !! x.
Proof.
  revert m. induction l as [|[y g] l IH]; intros m; cbn; [done|]. intros [Hne Hni]%not_elem_of_cons.
  unfold regreen in *. cbn. rewrite IH by done. by rewrite lookup_alter_ne.
Qed.

Lemma regreen_in l m x g : NoDup l.*1 -> (x, g) ∈ l -> regreen l m !! x = set_green g <$> m !! x.
Proof.
  revert m. induction l as [|[y g'] l IH]; intros m Hnd; [by intros ?%elem_of_nil|]. cbn in Hnd. apply NoDup_cons in Hnd as [Hni Hnd].
  unfold regreen in *. cbn. intros [[= -> ->]|Hx]%elem_of_cons.
  - etransitivity; [exact (regreen_notin l _ y Hni)|apply lookup_alter_eq].
  - rewrite IH by done. rewrite lookup_alter_ne; [done|]. intros ->. apply Hni. by apply (list_elem_of_fmap_2 fst) in Hx.
Qed.

(** The loop follows the spine. *)
Lemma spine_exec C p l G : spine C p l G -> forall fuel h, (length l <= fuel)%nat -> (forall x, x ∈ l.*1 -> cells h !! x = C !! x) ->
  respine_from fuel p G h = Ret (tt, put_cells (regreen l (cells h)) h).
Proof.
  induction 1 as [r c G Hr Hroot|p c a ac G Ga l Hp Hpar Ha Hrep Hni Hs IH]; intros fuel h Hf Hagree; (destruct fuel as [|fuel]; [cbn in Hf; lia|]);
    cbn [respine_from]; unfold bind.
  - assert (Hr' : cells h !! r = Some c) by (rewrite Hagree; [done|by left]). rewrite (update_cell _ _ _ _ Hr'). cbn [obind].
    erewrite cell_at_ok by (cbn; apply lookup_insert_eq). cbn [obind parent set_green]. rewrite Hroot. unfold ret. do 2 f_equal.
    unfold regreen. cbn. f_equal. apply map_eq. intros x. destruct (decide (x = r)) as [->|]; [by rewrite lookup_insert_eq, lookup_alter_eq, Hr'|].
    by rewrite lookup_insert_ne, lookup_alter_ne.
  - assert (Hp' : cells h !! p = Some c) by (rewrite Hagree; [done|by left]). rewrite (update_cell _ _ _ _ Hp'). cbn [obind].
    set (h1 := put_cells _ h). assert (H1 : forall x, cells h1 !! x = alter (set_green G) p (cells h) !! x).
    { intros x. unfold h1. cbn. destruct (decide (x = p)) as [->|]; [by rewrite lookup_insert_eq, lookup_alter_eq, Hp'|by rewrite lookup_insert_ne, lookup_alter_ne]. }
    rewrite (cell_at_ok _ p (set_green G c)) by (rewrite H1, lookup_alter_eq, Hp'; done). cbn [obind parent set_green index]. rewrite Hpar.
    destruct (spine_head _ _ _ _ Hs) as [l' El]. assert (Hin : a ∈ l.*1) by (rewrite El; by left).
    assert (Ha1 : cells h1 !! a = Some ac).
    { rewrite H1, lookup_alter_ne by (intros ->; done). rewrite Hagree; [done|by right]. }
    rewrite (cell_at_ok _ _ _ Ha1). cbn [obind]. unfold lift. rewrite Hrep. cbn [obind].
    rewrite (IH fuel h1); [|cbn in Hf; lia|].
    + unfold regreen. cbn. do 2 f_equal. unfold put_cells. cbn. f_equal. f_equal. apply map_eq. intros x. apply H1.
    + intros x Hx. rewrite H1, lookup_alter_ne by (intros ->; done). apply Hagree. by right.
Qed.

(** Cells that agree on the spine have the same one. *)
Lemma spine_ext C C' p l G : spine C p l G -> (forall x c, x ∈ l.*1 -> C !! x = Some c -> exists c', C' !! x = Some c' /\
  parent c' = parent c /\ index c' = index c /\ (x = p \/ green c' = green c)) -> spine C' p l G.
Proof.
  induction 1 as [r c G Hr Hroot|p c a ac G Ga l Hp Hpar Ha Hrep Hni Hs IH]; intros Hagree.
  - destruct (Hagree r c ltac:(by left) Hr) as (c' & Hc' & E & _). eapply spine_root; [done|congruence].
  - destruct (Hagree p c ltac:(by left) Hp) as (c' & Hc' & E1 & E2 & _). destruct (spine_head _ _ _ _ Hs) as [l' El].
    assert (Hin : a ∈ l.*1) by (rewrite El; by left).
    destruct (Hagree a ac ltac:(by right) Ha) as (ac' & Hac' & _ & _ & [->|E3]); [done|].
    eapply (spine_up _ p c' a ac'); [exact Hc'|congruence|exact Hac'|rewrite E2, E3; exact Hrep|done|]. apply IH. intros x d Hx Hd.
    destruct (Hagree x d ltac:(by right) Hd) as (d' & Hd' & F1 & F2 & F3). exists d'. split; [done|]. split; [done|]. split; [done|].
    destruct F3 as [->|F3]; [done|by right].
Qed.

(** ** Children of the new green nodes *)

Definition kid (g : Green) (i : N) : option Green := snd <$> green_node_child g i.

Lemma kid_child g i c : kid g i = Some c <-> exists off, green_node_child g i = Some (off, c).
Proof.
  unfold kid. rewrite fmap_Some. split; [intros ([o c'] & -> & ->); by exists o|intros [o ->]; by exists (o, c)].
Qed.

Lemma alloc_kid k cs i : kid (green_node_alloc k cs) i = snd <$> cs !! N.to_nat i.
Proof.
  unfold kid, green_node_child, green_node_alloc. destruct (assign_offsets 0 cs) as [cs' n] eqn:E. cbn [green_children].
  destruct (assign_offsets_spec _ _ _ _ E) as [H _]. rewrite <- !list_lookup_fmap. change (snd <$> cs) with (map snd cs). rewrite <- H.
  unfold fmap. rewrite nth_lookup. symmetry. apply (list_lookup_fmap snd).
Qed.

Lemma alloc_is_node k cs : green_is_node (green_node_alloc k cs) = true.
Proof. unfold green_node_alloc. by destruct (assign_offsets 0 cs). Qed.

Lemma children_ok g : green_ok g -> elems_ok (green_children g).
Proof. destruct g as [k w cs|]; [|constructor]. intros [_ H]. by apply elems_ok_fold in H. Qed.

Lemma kid_lookup g i : kid g i = snd <$> green_children g !! N.to_nat i.
Proof. unfold kid, green_node_child. by rewrite nth_lookup. Qed.

Lemma replace_kid g i G g' : green_node_replace_child g (N.to_nat i) (0, G) = Ret g' ->
  green_kind g' = green_kind g /\ green_is_node g' = true /\ (green_ok g -> green_ok G -> green_ok g') /\
  forall j, kid g' j = if decide (j = i) then Some G else kid g j.
Proof.
  unfold green_node_replace_child. destruct (Nat.ltb_spec (N.to_nat i) (length (green_children g))) as [Hlt|]; [|done].
  intros [= <-]. split; [apply alloc_kind|]. split; [apply alloc_is_node|]. split.
  - intros Hg HG. apply alloc_ok. unfold elems_ok. apply Forall_insert; [by apply children_ok|done].
  - intros j. rewrite alloc_kid, kid_lookup. destruct (decide (j = i)) as [->|Hne].
    + by rewrite list_lookup_insert_eq.
    + rewrite list_lookup_insert_ne; [done|lia].
Qed.

Lemma replace_ret g i G c : kid g i = Some c -> exists g', green_node_replace_child g (N.to_nat i) (0, G) = Ret g'.
Proof.
  rewrite kid_lookup. intros (x & Hx & _)%fmap_Some. unfold green_node_replace_child.
  apply lookup_lt_Some in Hx. rewrite (proj2 (Nat.ltb_lt _ _) Hx). by eexists.
Qed.

(** ** The spine of a heap in order *)

Section Spine.
Context (h : Heap) (O : gmultiset ptr) (Hi : inv h O).
Context (rank : ptr -> nat) (Hrank : forall q c p, lk h q = Some c -> i_parent c = Some p -> (rank p < rank q)%nat).

Lemma spine_exists p c G : lk h p = Some c -> exists l, spine (cells h) p l G /\ forall x, x ∈ l.*1 -> (rank x <= rank p)%nat.
Proof using Hi Hrank.
  cut (forall n p c G, (rank p < n)%nat -> lk h p = Some c -> exists l, spine (cells h) p l G /\ forall x, x ∈ l.*1 -> (rank x <= rank p)%nat); [by eauto|].
  clear p c G. induction n as [|n IH]; intros p c G Hn Hp; [lia|]. pose proof Hp as Hp'. apply lk_Some in Hp' as (d & Hd & ->). cbn in *.
  destruct (parent d) as [a|] eqn:Ep.
  - pose proof (Hrank p _ a Hp Ep) as Hr. destruct (t_parent _ _ (inv_tree _ _ Hi) p _ a Hp Ep) as (ac & Hac & _ & _ & off & Hg & _).
    pose proof Hac as Hac'. apply lk_Some in Hac' as (ad & Had & ->). cbn in Hg.
    destruct (replace_ret (green ad) (index d) G (green d)) as [Ga Hrep]; [apply kid_child; by exists off|].
    destruct (IH a (info ad) Ga) as (l & Hl & Hall); [lia|done|]. exists ((p, G) :: l). split.
    + eapply spine_up; [exact Hd|exact Ep|exact Had|exact Hrep| |exact Hl]. intros Hin. specialize (Hall p Hin). lia.
    + cbn. intros x [->|Hx]%elem_of_cons; [done|]. specialize (Hall x Hx). lia.
  - exists [(p, G)]. split; [by eapply spine_root|]. cbn. intros x ->%list_elem_of_singleton. done.
Qed.

Lemma spine_length p l G : spine (cells h) p l G -> (length l <= size (cells h))%nat.
Proof using.
  intros Hl. rewrite <- (length_fmap fst). apply live_length; [by eapply spine_nodup|]. intros x. by eapply spine_live.
Qed.

Lemma spine_rank p l G x : spine (cells h) p l G -> x ∈ l.*1 -> x = p \/ (rank x < rank p)%nat.
Proof using Hrank.
  induction 1 as [r c G Hr _|p c a ac G Ga l Hp Hpar _ _ _ _ IH]; cbn.
  - intros ->%list_elem_of_singleton. by left.
  - intros [->|Hx]%elem_of_cons; [by left|right]. pose proof (Hrank p _ a (lk_cell _ _ _ Hp) Hpar). destruct (IH Hx) as [->|]; lia.
Qed.

Lemma spine_closed p l G x c y : spine (cells h) p l G -> x ∈ l.*1 -> lk h x = Some c -> i_parent c = Some y -> y ∈ l.*1.
Proof using.
  induction 1 as [r d G Hr Hroot|p d a ac G Ga l Hp Hpar _ _ _ Hs IH]; cbn; intros Hx Hc Hy.
  - apply list_elem_of_singleton in Hx as ->. rewrite (lk_cell _ _ _ Hr) in Hc. injection Hc as <-. cbn in Hy. congruence.
  - apply elem_of_cons in Hx as [->|Hx]; [|right; by apply IH]. rewrite (lk_cell _ _ _ Hp) in Hc. injection Hc as <-. cbn in Hy.
    rewrite Hpar in Hy. injection Hy as <-. destruct (spine_head _ _ _ _ Hs) as [l' ->]. right. by left.
Qed.

(** The mode is that of the tree, and the ancestors are nodes. *)
Lemma spine_mode p pc l G x c : spine (cells h) p l G -> lk h p = Some pc -> x ∈ l.*1 -> lk h x = Some c ->
  i_mutable c = i_mutable pc /\ (x = p \/ i_token c = false).
Proof using Hi.
  intros Hs. revert pc. induction Hs as [r d G Hr _|p d a ac G Ga l Hp Hpar Ha _ _ Hs IH]; cbn; intros pc Hpc Hx Hc.
  - apply list_elem_of_singleton in Hx as ->. rewrite Hpc in Hc. injection Hc as <-. split; [done|by left].
  - apply elem_of_cons in Hx as [->|Hx]; [rewrite Hpc in Hc; injection Hc as <-; split; [done|by left]|].
    rewrite (lk_cell _ _ _ Hp) in Hpc. injection Hpc as <-.
    destruct (t_parent _ _ (inv_tree _ _ Hi) p _ a (lk_cell _ _ _ Hp) Hpar) as (ai & Hai & Ht & Hm & _).
    destruct (IH ai Hai Hx Hc) as [E1 E2]. split; [congruence|]. right. destruct E2 as [->|]; [|done]. rewrite Hai in Hc. by injection Hc as <-.
Qed.

Lemma spine_ok p l G x g : spine (cells h) p l G -> green_ok G -> green_is_node G = true -> (x, g) ∈ l -> green_ok g /\ green_is_node g = true.
Proof using Hi.
  intros Hs. induction Hs as [r d G Hr _|p d a ac G Ga l Hp Hpar Ha Hrep _ Hs IH]; intros Hok Hn Hx.
  - apply list_elem_of_singleton in Hx as [= -> ->]. done.
  - apply elem_of_cons in Hx as [[= -> ->]|Hx]; [done|]. destruct (replace_kid _ _ _ _ Hrep) as (_ & H1 & H2 & _).
    apply IH; [|done|done]. apply H2; [|done]. apply (t_info _ _ (inv_tree _ _ Hi) a _ (lk_cell _ _ _ Ha)).
Qed.

(** Live children of a mutable node stand at different places. *)
Lemma sibling_distinct x xc y yc p : lk h x = Some xc -> lk h y = Some yc -> i_parent xc = Some p -> i_parent yc = Some p ->
  i_index xc = i_index yc -> i_mutable xc = true -> x = y.
Proof using Hi.
  intros Hx Hy Hxp Hyp Hidx Hm. destruct (t_parent _ _ (inv_tree _ _ Hi) x xc p Hx Hxp) as (pc & Hpc & Ht & Hpm & _).
  apply lk_Some in Hpc as (pd & Hpd & ->). pose proof (inv_rings _ _ Hi p pd Hpd) as Hr. unfold ring_of in Hr. cbn in Ht, Hpm. rewrite Hpm, Hm, Ht in Hr.
  destruct Hr as (s & [_ Hs] & Hch). assert (H1 : (i_index xc, x) ∈ s) by (apply Hch; by exists xc). assert (H2 : (i_index xc, y) ∈ s) by (apply Hch; by exists yc).
  revert Hs H1 H2. generalize (i_index xc) as k. clear. intros k. induction s as [|[k0 p0] s IH]; [intros _ H; by apply elem_of_nil in H|].
  cbn. intros [Hs Hlt]%StronglySorted_inv H1 H2. rewrite Forall_fmap, Forall_forall in Hlt.
  apply elem_of_cons in H1 as [[= -> ->]|H1]; apply elem_of_cons in H2 as [E2|H2].
  - by injection E2 as ->.
  - specialize (Hlt _ H2). cbn in Hlt. lia.
  - injection E2 as -> ->. specialize (Hlt _ H1). cbn in Hlt. lia.
  - by apply IH.
Qed.

Definition new_green (l : list (ptr * Green)) (x : ptr) (old : Green) : Green :=
  match (list_to_map l : gmap ptr Green) !! x with Some g => g | None => old end.

Lemma new_green_in l x g old : NoDup l.*1 -> (x, g) ∈ l -> new_green l x old = g.
Proof using. intros Hnd Hx. unfold new_green. by rewrite (proj1 (elem_of_list_to_map l x g Hnd) Hx). Qed.

Lemma new_green_notin l x old : x ∉ l.*1 -> new_green l x old = old.
Proof using. intros Hx. unfold new_green. by rewrite (proj1 (not_elem_of_list_to_map l x) Hx). Qed.

Lemma in_pair (l : list (ptr * Green)) x : x ∈ l.*1 -> exists g, (x, g) ∈ l.
Proof using. intros ([y g] & -> & H)%list_elem_of_fmap. by exists g. Qed.

(** A strict ancestor's new green node shows its live children as they are now. *)
Lemma spine_kids p l G y gy x xc : spine (cells h) p l G -> (y, gy) ∈ l -> y <> p -> lk h x = Some xc -> i_parent xc = Some y ->
  i_mutable xc = true -> kid gy (i_index xc) = Some (new_green l x (i_green xc)).
Proof using Hi Hrank.
  intros Hs. induction Hs as [r d G Hr _|p d a ac G Ga l Hp Hpar Ha Hrep Hni Hs IH]; intros Hy Hne Hx Hxp Hm.
  - apply list_elem_of_singleton in Hy as [= -> ->]. done.
  - apply elem_of_cons in Hy as [[= -> ->]|Hy]; [done|]. destruct (replace_kid _ _ _ _ Hrep) as (_ & _ & _ & Hkid).
    destruct (decide (y = a)) as [->|Hya].
    + assert (gy = Ga) as ->.
      { pose proof (spine_nodup _ _ _ _ Hs) as Hnd. destruct (spine_head _ _ _ _ Hs) as [l' El]. rewrite El in Hy, Hnd. cbn in Hnd. apply NoDup_cons in Hnd as [Hna _].
        apply elem_of_cons in Hy as [[= ->]|Hy]; [done|]. exfalso. apply Hna. by apply (list_elem_of_fmap_2 fst) in Hy. }
      rewrite Hkid. pose proof (lk_cell _ _ _ Hp) as Hlp. destruct (decide (x = p)) as [->|Hxne].
      * rewrite Hlp in Hx. injection Hx as <-. cbn. rewrite decide_True by done. f_equal. symmetry. apply new_green_in; [|by left].
        cbn. apply NoDup_cons. split; [done|by eapply spine_nodup].
      * rewrite decide_False.
        -- destruct (t_parent _ _ (inv_tree _ _ Hi) x xc a Hx Hxp) as (ai & Hai & _ & _ & off & Hg & _). rewrite (lk_cell _ _ _ Ha) in Hai. injection Hai as <-.
           cbn in Hg. rewrite (proj2 (kid_child (green ac) (i_index xc) (i_green xc))); [|by exists off]. f_equal. symmetry. apply new_green_notin. cbn. intros [->|Hin]%elem_of_cons; [done|].
           pose proof (Hrank x xc a Hx Hxp). destruct (spine_rank _ _ _ x Hs Hin) as [->|]; lia.
        -- intros E. apply Hxne. by eapply (sibling_distinct x xc p (info d) a).
    + rewrite IH by done. f_equal. unfold new_green. cbn. rewrite lookup_insert_ne; [done|]. intros ->. rewrite (lk_cell _ _ _ Hp) in Hx.
      injection Hx as <-. cbn in Hxp. congruence.
Qed.

(** ** An edit under [par] *)

Section Edit.
Context (par : ptr) (pc : Info) (l : list (ptr * Green)) (G : Green).
Context (Hs : spine (cells h) par l G) (Hpar : lk h par = Some pc) (Htok : i_token pc = false) (Hmut : i_mutable pc = true).
Context (HG : green_ok G) (HGn : green_is_node G = true).
Context (np : ptr -> Info -> option ptr) (ni : ptr -> Info -> N).

Definition edited (x : ptr) (c : Info) : Info :=
  mkInfo (np x c) (ni x c) (i_token c) (i_mutable c) (new_green l x (i_green c)) (i_offset c).

Definition kept (x : ptr) (c : Info) : Prop := np x c = i_parent c /\ ni x c = i_index c /\ i_parent c <> Some par.
Definition placed (x : ptr) (c : Info) : Prop := np x c = Some par /\ ~ (x ∈ l.*1) /\ i_mutable c = true /\ kid G (ni x c) = Some (i_green c).
Definition cut_off (x : ptr) (c : Info) : Prop := np x c = None /\ i_mutable c = true.

Context (Hcases : forall x c, lk h x = Some c -> kept x c \/ placed x c \/ cut_off x c).

Lemma par_in : (par, G) ∈ l.
Proof using Hs. destruct (spine_head _ _ _ _ Hs) as [l' ->]. by left. Qed.

Lemma edited_info x c : lk h x = Some c -> info_ok (edited x c).
Proof using Hi Hs Hpar Htok Hmut HG HGn Hcases.
  intros Hx. destruct (t_info _ _ (inv_tree _ _ Hi) x c Hx) as (H1 & H2 & H3).
  assert (Hoff : np x c = None -> i_mutable c = false -> i_offset c = 0 /\ i_token c = false).
  { intros Hn Hm. destruct (Hcases x c Hx) as [(E & _ & _)|[(E & _)|(_ & E)]]; [|congruence..]. apply H3; congruence. }
  unfold info_ok, edited. cbn. destruct (decide (x ∈ l.*1)) as [Hin|Hni].
  - destruct (in_pair l x Hin) as [g Hg]. rewrite (new_green_in l x g _ (spine_nodup _ _ _ _ Hs) Hg).
    destruct (spine_ok _ _ _ _ _ Hs HG HGn Hg) as [E1 E2]. split; [done|]. split; [|done]. rewrite E2.
    destruct (spine_mode _ _ _ _ _ _ Hs Hpar Hin Hx) as [_ [->|]]; [|done]. rewrite Hpar in Hx. injection Hx as <-. done.
  - by rewrite new_green_notin.
Qed.

Lemma edited_child q c p : lk h q = Some c -> np q c = Some p -> exists d, lk h p = Some d /\ child_ok (edited p d) (edited q c).
Proof using All.
  intros Hq Hp. destruct (Hcases q c Hq) as [(E1 & E2 & E3)|[(E1 & E2 & E3 & E4)|(E1 & _)]]; [| |congruence].
  - rewrite E1 in Hp. destruct (t_parent _ _ (inv_tree _ _ Hi) q c p Hq Hp) as (d & Hd & Ht & Hm & off & Hg & Ho). exists d. split; [done|].
    unfold child_ok, edited. cbn. split; [done|]. split; [done|]. rewrite E2. destruct (decide (p ∈ l.*1)) as [Hin|Hni].
    + destruct (in_pair l p Hin) as [g Hgp]. rewrite (new_green_in l p g _ (spine_nodup _ _ _ _ Hs) Hgp).
      destruct (spine_mode _ _ _ _ _ _ Hs Hpar Hin Hd) as [Hmp _]. assert (Hqm : i_mutable c = true) by congruence.
      assert (Hne : p <> par) by (intros ->; congruence).
      destruct (proj1 (kid_child _ _ _) (spine_kids _ _ _ _ _ _ _ Hs Hgp Hne Hq Hp Hqm)) as [off' Hk]. exists off'. split; [done|]. congruence.
    + assert (Hnq : q ∉ l.*1) by (intros Hin; apply Hni; by eapply spine_closed). rewrite !new_green_notin by done. by exists off.
  - rewrite E1 in Hp. injection Hp as <-. exists pc. split; [done|]. unfold child_ok, edited. cbn. split; [done|]. split; [congruence|].
    rewrite (new_green_in l par G _ (spine_nodup _ _ _ _ Hs) par_in), (new_green_notin l q) by done. apply kid_child in E4 as [off E4].
    exists off. split; [done|]. congruence.
Qed.

Lemma edited_tree L' : (forall x, L' x = (edited x <$> lk h x)) ->
  (exists rank' : ptr -> nat, forall q c p, lk h q = Some c -> np q c = Some p -> (rank' p < rank' q)%nat) -> tree_ok L' (brk h).
Proof using All.
  intros HL [rank' Hr']. assert (Hsome : forall x c', L' x = Some c' -> exists c, lk h x = Some c /\ c' = edited x c).
  { intros x c'. rewrite HL. intros (c & Hc & ->)%fmap_Some. by exists c. }
  split.
  - intros x c' (c & Hc & ->)%Hsome. by apply (t_fresh _ _ (inv_tree _ _ Hi) x c).
  - intros x c' (c & Hc & ->)%Hsome. by apply edited_info.
  - intros q c' p (c & Hc & ->)%Hsome Hp. destruct (edited_child q c p Hc Hp) as (d & Hd & Hok). exists (edited p d). by rewrite HL, Hd.
  - exists rank'. intros q c' p (c & Hc & ->)%Hsome Hp. by eapply Hr'.
Qed.

End Edit.

End Spine.

End RedSpine.

(** ** Keys and indices shifted together *)

Import SyntaxKind Green GreenFacts Sll SllFacts Red RedTree RedNav RedEdit RedInv RedPath.

Module RedSync.

#[local] Open Scope N_scope.

Definition synced (m : Slls) (x : ptr) (c : Cell) : Cell := set_index (default (index c) (ky m x)) c.

(** The loop gives every element of the ring the index that is its key. *)
Lemma sync_loop_ok e rest fuel h curr : chain (slls h) curr rest -> link (slls h) (List.last rest curr) e ->
  NoDup (curr :: rest) -> e ∉ rest -> (forall x, x ∈ curr :: rest -> is_Some (cells h !! x)) -> (length rest < fuel)%nat ->
  exists m, sync_loop fuel e curr h = Ret (tt, put_cells m h) /\
    forall x, m !! x = if decide (x ∈ curr :: rest) then synced (slls h) x <$> cells h !! x else cells h !! x.
Proof.
  revert h curr fuel. induction rest as [|b rest IH]; intros h curr fuel Hc Hl Hnd He Hlive Hf; (destruct fuel as [|fuel]; [cbn in Hf; lia|]).
  all: destruct (Hlive curr ltac:(by left)) as [d Hd].
  all: assert (exists n, slls h !! curr = Some n) as [n Hn].
  1: { destruct Hl as [Hl _]. unfold nx in Hl. cbn in Hl. destruct (slls h !! curr); [by eexists|done]. }
  2: { destruct Hc as [[Hc0 _] _]. unfold nx in Hc0. destruct (slls h !! curr); [by eexists|done]. }
  all: cbn [sync_loop]; unfold bind at 1, gets; cbn [obind]; unfold bind at 1, lift, sll_at at 1; rewrite Hn; cbn [obind];
    unfold bind; rewrite (update_cell _ _ _ _ Hd); cbn [obind].
  all: assert (Hsy : set_index (key n) d = synced (slls h) curr d) by (unfold synced, ky; rewrite Hn; done).
  - destruct Hl as [Hl _]. unfold nx in Hl. cbn in Hl. rewrite Hn in Hl. injection Hl as ->. rewrite N.eqb_refl.
    eexists. split; [done|]. intros x. destruct (decide (x = curr)) as [->|Hne].
    + rewrite lookup_insert_eq, decide_True by (by left). by rewrite Hd, Hsy.
    + rewrite lookup_insert_ne, decide_False by (set_solver || done). done.
  - destruct Hc as [Hcb Hc]. rewrite tail_cons in Hl. pose proof (proj1 Hcb) as Hnb. unfold nx in Hnb. rewrite Hn in Hnb. injection Hnb as ->.
    rewrite (proj2 (N.eqb_neq b e)) by set_solver. apply NoDup_cons in Hnd as [Hcn Hnd].
    set (h1 := put_cells _ h). destruct (IH h1 b fuel Hc Hl Hnd) as (m & E & Hm).
    + set_solver.
    + intros x Hx. unfold h1. cbn. destruct (decide (x = curr)) as [->|Hne]; [by rewrite lookup_insert_eq|]. rewrite lookup_insert_ne by done. apply Hlive. by right.
    + cbn in Hf. lia.
    + exists m. split; [exact E|]. intros x. rewrite Hm. unfold h1. cbn [slls cells put_cells].
      destruct (decide (x = curr)) as [->|Hne].
      * rewrite decide_False by done. rewrite lookup_insert_eq, decide_True by (by left). by rewrite Hd, Hsy.
      * rewrite lookup_insert_ne by done. destruct (decide (x ∈ b :: rest)), (decide (x ∈ curr :: b :: rest)); set_solver.
Qed.

(** The shift of a ring: the store, and the cells of the ring with their new indices. *)
Lemma adjust_sync_ok h hd s e from delta : wired (slls h) hd s -> e ∈ s.*2 -> Forall (fun x => shift_ok from delta x.1) s ->
  (forall x, x ∈ s.*2 -> is_Some (cells h !! x)) ->
  exists m c', sll_adjust_and_sync e from delta h = Ret (tt, mkHeap c' m (brk h)) /\ wired m hd (shifted from delta s) /\
    (forall x, is_Some (m !! x) <-> is_Some (slls h !! x)) /\ (forall x, x ∉ s.*2 -> m !! x = slls h !! x) /\
    (forall k x, (k, x) ∈ s -> c' !! x = set_index (shift from delta k) <$> cells h !! x) /\
    (forall x, x ∉ s.*2 -> c' !! x = cells h !! x).
Proof.
  intros Hw He Hok Hlive. destruct (sll_adjust_ok _ _ _ _ _ _ Hw He Hok) as (m & E & Hw' & Hnp & F).
  unfold sll_adjust_and_sync, bind, gets. cbn [obind]. unfold lift. rewrite E. cbn [obind].
  set (h1 := put_slls m h). unfold steps, gets. cbn [obind]. pose proof Hw' as (_ & Hr & Hk & Hnd). rewrite shifted_snd in Hr, Hnd.
  apply list_elem_of_split in He as (l1 & l2 & El). assert (Hp : s.*2 ≡ₚ e :: l2 ++ l1).
  { rewrite El, <- Permutation_middle. apply Permutation_skip, Permutation_app_comm. }
  rewrite El in Hr. apply ring_rotate in Hr. cbn [app ring] in Hr.
  destruct (sync_loop_ok e (l2 ++ l1) (S (size (cells h1))) h1 e) as (c' & Ec & Hc).
  - apply Hr.
  - apply Hr.
  - by rewrite <- Hp.
  - rewrite Hp in Hnd. by apply NoDup_cons in Hnd as [? _].
  - intros x. rewrite <- Hp. apply Hlive.
  - pose proof (live_length h s.*2 Hnd Hlive) as Hlen. apply Permutation_length in Hp. cbn [cells h1 put_slls] in *. rewrite Hp in Hlen. cbn [length] in Hlen. lia.
  - exists m, c'. split; [exact Ec|]. split; [done|]. split.
    { intros x. pose proof (proj1 (Hnp x)) as Hx. unfold nx in Hx. split; intros [y Hy]; rewrite Hy in Hx; [by destruct (slls h !! x)|by destruct (m !! x)]. }
    split; [done|]. split.
    + intros k x Hkx. assert (Hxin : x ∈ s.*2) by (by apply (list_elem_of_fmap_2 snd) in Hkx). rewrite Hc, decide_True by (by rewrite <- Hp).
      destruct (Hlive x Hxin) as [d Hd]. cbn [cells h1 put_slls]. rewrite Hd. cbn. unfold synced. rewrite Forall_forall in Hk.
      assert (Hin : (shift from delta k, x) ∈ shifted from delta s) by (apply (list_elem_of_fmap_2 (fun e => (shift from delta e.1, e.2)) _ _ Hkx)).
      pose proof (Hk _ Hin) as H2. cbn in H2 |- *. by rewrite H2.
    + intros x Hx. rewrite Hc, decide_False; [done|]. by rewrite <- Hp.
Qed.

End RedSync.
