(* ===== verification/RedSplice.v ===== *)
(** * Splicing children *)

From stdpp Require Import gmap gmultiset sorting.
From S2P Require Import Prelude SyntaxKind Green GreenFacts Sll SllFacts Red RedNav RedEdit RedInv RedCalls RedSpine.

(** ** Detaching a child keeps the heap in order *)

Import SyntaxKind Green GreenFacts Sll SllFacts Red RedTree RedNav RedEdit RedInv RedOps RedPath RedCalls RedSpine RedSync.

Module RedDetach.

#[local] Open Scope N_scope.

(** ** Green nodes with a child less or more *)

Lemma remove_kid g i c : kid g i = Some c -> exists G, green_node_remove_child g (N.to_nat i) = Ret G /\
  green_is_node G = true /\ (green_ok g -> green_ok G) /\
  green_text G = elem_text (take (N.to_nat i) (green_children g)) ++ elem_text (drop (S (N.to_nat i)) (green_children g)) /\
  forall j, j <> i -> kid G (shift (i + 1) (-1) j) = kid g j.
Proof.
  rewrite kid_lookup. intros (x & Hx & _)%fmap_Some. apply lookup_lt_Some in Hx as Hlt.
  unfold green_node_remove_child, green_node_splice_children. rewrite (proj2 (Nat.ltb_lt _ _)), (proj2 (Nat.leb_le _ _)), (proj2 (Nat.leb_le _ _)) by lia.
  cbn [oassert obind]. eexists. split; [done|]. split; [apply alloc_is_node|]. split; [|split].
  - intros Hg. apply alloc_ok. unfold elems_ok. pose proof (children_ok _ Hg). apply Forall_app. split; [by apply Forall_take|]. by apply Forall_drop.
  - rewrite alloc_text, elem_text_app. cbn [app]. by rewrite Nat.add_1_r.
  - intros j Hj. rewrite alloc_kid, kid_lookup. cbn [app]. f_equal. unfold shift. destruct (N.leb_spec (i + 1) j).
    + rewrite lookup_app_r by (rewrite length_take; lia). rewrite length_take, lookup_drop. f_equal. lia.
    + rewrite lookup_app_l by (rewrite length_take; lia). rewrite lookup_take_lt by lia. done.
Qed.

Lemma insert_kid g i e : (N.to_nat i <= length (green_children g))%nat -> exists G, green_node_insert_child g (N.to_nat i) (0, e) = Ret G /\
  green_is_node G = true /\ (green_ok g -> green_ok e -> green_ok G) /\
  green_text G = elem_text (take (N.to_nat i) (green_children g)) ++ green_text e ++ elem_text (drop (N.to_nat i) (green_children g)) /\
  kid G i = Some e /\ forall j, kid G (shift i 1 j) = kid g j.
Proof.
  intros Hlt. unfold green_node_insert_child, green_node_splice_children. rewrite !(proj2 (Nat.leb_le _ _)) by lia.
  cbn [oassert obind]. eexists. split; [done|]. split; [apply alloc_is_node|]. split; [|split; [|split]].
  - intros Hg He. apply alloc_ok. unfold elems_ok. pose proof (children_ok _ Hg). apply Forall_app. split; [by apply Forall_take|].
    constructor; [done|]. by apply Forall_drop.
  - rewrite alloc_text, elem_text_app. cbn [app]. done.
  - rewrite alloc_kid, lookup_app_r by (rewrite length_take; lia). rewrite length_take. by replace (N.to_nat i - (N.to_nat i `min` length (green_children g)))%nat with 0%nat by lia.
  - intros j. rewrite alloc_kid, kid_lookup. f_equal. unfold shift. destruct (N.leb_spec i j).
    + rewrite lookup_app_r by (rewrite length_take; lia). rewrite length_take.
      replace (N.to_nat (Z.to_N (Z.of_N j + 1)) - (N.to_nat i `min` length (green_children g)))%nat with (S (N.to_nat j - N.to_nat i)) by lia.
      transitivity (drop (N.to_nat i) (green_children g) !! (N.to_nat j - N.to_nat i)%nat); [done|].
      rewrite lookup_drop. f_equal. lia.
    + rewrite lookup_app_l by (rewrite length_take; lia). rewrite lookup_take_lt by lia. done.
Qed.

(** ** Lookups *)

Lemma regreen_lookup l m x : NoDup l.*1 -> regreen l m !! x = (fun c => set_green (new_green l x (green c)) c) <$> m !! x.
Proof.
  intros Hnd. destruct (decide (x ∈ l.*1)) as [Hin|Hni].
  - destruct (in_pair l x Hin) as [g Hg]. rewrite (regreen_in l m x g Hnd Hg). destruct (m !! x); [|done]. cbn. by rewrite (new_green_in l x g _ Hnd Hg).
  - rewrite regreen_notin by done. destruct (m !! x) as [[]|]; [|done]. cbn. by rewrite new_green_notin.
Qed.

(** The other rings of an edited heap. *)
Lemma other_children L L' (np : ptr -> Info -> option ptr) (ni : ptr -> Info -> N) l p s : (forall x, L' x = (edited l np ni x <$> L x)) ->
  (forall q c, L q = Some c -> (np q c = Some p <-> i_parent c = Some p) /\ (i_parent c = Some p -> ni q c = i_index c)) ->
  children_of L p s -> children_of L' p s.
Proof.
  intros HL H Hch k q. rewrite (Hch k q), HL. split.
  - intros (c & Hc & Hp & Hk). exists (edited l np ni q c). rewrite Hc. destruct (H q c Hc) as [H1 H2]. split; [done|]. cbn. split; [by apply H1|]. by rewrite H2.
  - intros (c' & (c & Hc & ->)%fmap_Some & Hp & Hk). cbn in Hp, Hk. destruct (H q c Hc) as [H1 H2]. apply H1 in Hp. exists c. split; [done|]. split; [done|]. by rewrite <- H2.
Qed.

Section Detach.
Context (h : Heap) (O : gmultiset ptr) (Hi : inv h O).
Context (rank : ptr -> nat) (Hrank : forall q c p, lk h q = Some c -> i_parent c = Some p -> (rank p < rank q)%nat).
Context (n par : ptr) (c pc : Cell) (Hn : cells h !! n = Some c) (Hcp : parent c = Some par) (Hpar : cells h !! par = Some pc) (Hm : mutable_ c = true).
Context (small : (N.of_nat (length (green_children (green pc))) < 2 ^ 32)).
Context (G : Green) (l : list (ptr * Green)) (Hl : spine (cells h) par l G).
Context (HG : green_is_node G = true) (HGok : green_ok G) (HGk : forall j, j <> index c -> kid G (shift (index c + 1) (-1) j) = kid (green pc) j).

Let shift' := shift (index c + 1) (-1).

Lemma par_facts : is_token pc = false /\ mutable_ pc = true /\ n <> par /\ parent pc <> Some par /\ kid (green pc) (index c) = Some (green c) /\ index c < 2 ^ 32.
Proof.
  destruct (t_parent _ _ (inv_tree _ _ Hi) n (info c) par (lk_cell _ _ _ Hn) Hcp) as (pi & Hpi & Ht & Hmm & off & Hg & _).
  rewrite (lk_cell _ _ _ Hpar) in Hpi. injection Hpi as <-. cbn in *. split; [done|]. split; [congruence|].
  pose proof (Hrank n _ par (lk_cell _ _ _ Hn) Hcp) as Hr. split; [intros ->; lia|]. split; [|split].
  - intros E. pose proof (Hrank par _ par (lk_cell _ _ _ Hpar) E). lia.
  - apply kid_child. by exists off.
  - unfold green_node_child in Hg. assert (N.to_nat (index c) < length (green_children (green pc)))%nat; [|lia].
    apply nth_error_Some. by rewrite Hg.
Qed.

(** Where each handle is afterwards. *)
Definition d_np (x : ptr) (d : Info) : option ptr := if decide (x = n) then None else i_parent d.
Definition d_ni (x : ptr) (d : Info) : N := if decide (i_parent d = Some par) then shift' (i_index d) else i_index d.

Lemma n_index : shift' (index c) = index c.
Proof. unfold shift', shift. by rewrite (proj2 (N.leb_gt _ _)) by lia. Qed.

Lemma d_cases x d : lk h x = Some d -> kept par d_np d_ni x d \/ placed par l G d_np d_ni x d \/ cut_off d_np x d.
Proof.
  intros Hx. destruct par_facts as (Ht & Hpm & Hne & Hpp & Hk & _). unfold kept, placed, cut_off, d_np, d_ni. destruct (decide (x = n)) as [->|Hxn].
  - right. right. rewrite (lk_cell _ _ _ Hn) in Hx. injection Hx as <-. done.
  - destruct (decide (i_parent d = Some par)) as [Hp|Hp]; [|by left]. right. left. split; [done|].
    destruct (t_parent _ _ (inv_tree _ _ Hi) x d par Hx Hp) as (pi & Hpi & _ & Hmm & off & Hg & _). rewrite (lk_cell _ _ _ Hpar) in Hpi. injection Hpi as <-. cbn in *.
    split; [|split; [congruence|]].
    + intros Hin. pose proof (Hrank x d par Hx Hp). destruct (spine_rank h rank Hrank _ _ _ _ Hl Hin) as [->|]; lia.
    + unfold shift'. rewrite HGk; [apply kid_child; by exists off|]. intros E. apply Hxn.
      apply (sibling_distinct h O Hi x d n (info c) par Hx (lk_cell _ _ _ Hn) Hp Hcp E). congruence.
Qed.

(** Each cell afterwards; [hd] is the parent's new head. *)
Definition d_cell (hd : option ptr) (x : ptr) (d : Cell) : Cell :=
  mkCell (refcount d) (d_np x (info d)) (d_ni x (info d)) (is_token d) (mutable_ d) (new_green l x (green d)) (offset d)
    (if decide (x = par) then hd else first d).

Lemma d_tree L' : (forall x, L' x = (edited l d_np d_ni x <$> lk h x)) -> tree_ok L' (brk h).
Proof.
  intros HL. destruct par_facts as (Ht & Hpm & _). eapply (edited_tree h O Hi rank Hrank par (info pc) l G Hl (lk_cell _ _ _ Hpar)); try done.
  - apply d_cases.
  - exists rank. intros q d p Hq Hp. unfold d_np in Hp. destruct (decide (q = n)); [done|]. by eapply Hrank.
Qed.

Lemma d_children L' s1 s2 : (forall x, L' x = (edited l d_np d_ni x <$> lk h x)) -> children_of (lk h) par (s1 ++ (index c, n) :: s2) ->
  NoDup (s1 ++ (index c, n) :: s2).*2 -> children_of L' par (shifted (index c + 1) (-1) (s1 ++ s2)).
Proof.
  intros HL Hch Hnd k q. rewrite HL. unfold shifted. rewrite (list_elem_of_fmap (fun e => (shift (index c + 1) (-1) e.1, e.2))). split.
  - intros ([k0 q0] & [= -> ->] & Hin). cbn. assert (Hin' : (k0, q0) ∈ s1 ++ (index c, n) :: s2) by set_solver.
    destruct (proj1 (Hch k0 q0) Hin') as (d & Hd & Hp & Hk). exists (edited l d_np d_ni q0 d). rewrite Hd. split; [done|]. cbn. unfold d_np, d_ni.
    assert (Hqn : q0 <> n).
    { intros ->. rewrite fmap_app in Hnd. cbn in Hnd. rewrite <- Permutation_middle in Hnd. apply NoDup_cons in Hnd as [Hnn _]. apply Hnn.
      rewrite <- fmap_app. by apply (list_elem_of_fmap_2 snd) in Hin. }
    rewrite decide_False by done. split; [done|]. rewrite decide_True by done. by rewrite Hk.
  - intros (d' & (d & Hd & ->)%fmap_Some & Hp & Hk). cbn in Hp, Hk. unfold d_np, d_ni in Hp, Hk. destruct (decide (q = n)) as [|Hqn]; [done|].
    rewrite decide_True in Hk by done. exists (i_index d, q). split; [cbn; by rewrite <- Hk|].
    assert (Hin : (i_index d, q) ∈ s1 ++ (index c, n) :: s2) by (apply Hch; by exists d). apply elem_of_app in Hin as [|[[= _ ->]|]%elem_of_cons]; set_solver.
Qed.

Lemma shifted_sorted s1 s2 : StronglySorted N.lt (s1 ++ (index c, n) :: s2).*1 -> StronglySorted N.lt (shifted (index c + 1) (-1) (s1 ++ s2)).*1.
Proof.
  unfold shifted. rewrite <- (list_fmap_compose (fun e => (shift (index c + 1) (-1) e.1, e.2)) fst). rewrite !fmap_app. cbn [fmap list_fmap fst].
  intros (Hx & Hs1 & (Hs2 & Hlt)%StronglySorted_inv)%StronglySorted_app.
  assert (H1 : forall k, k ∈ s1.*1 -> k < index c) by (intros k Hk; apply Hx; [done|by left]).
  assert (H2 : forall k, k ∈ s2.*1 -> index c < k) by (rewrite Forall_forall in Hlt; done).
  assert (E1 : forall k, k < index c -> shift (index c + 1) (-1) k = k) by (intros k Hk; unfold shift; by rewrite (proj2 (N.leb_gt _ _)) by lia).
  assert (E2 : forall k, index c < k -> shift (index c + 1) (-1) k = k - 1) by (intros k Hk; unfold shift; rewrite (proj2 (N.leb_le _ _)) by lia; lia).
  assert (F1 : (fst ∘ (fun e : N * ptr => (shift (index c + 1) (-1) e.1, e.2))) <$> s1 = s1.*1).
  { apply list_fmap_ext. intros i [k p] Hk. cbn. apply E1, H1. apply list_elem_of_lookup_2 in Hk. by apply (list_elem_of_fmap_2 fst) in Hk. }
  assert (F2 : (fst ∘ (fun e : N * ptr => (shift (index c + 1) (-1) e.1, e.2))) <$> s2 = (fun k => k - 1) <$> s2.*1).
  { rewrite <- list_fmap_compose. apply list_fmap_ext. intros i [k p] Hk. cbn. apply E2, H2. apply list_elem_of_lookup_2 in Hk. by apply (list_elem_of_fmap_2 fst) in Hk. }
  rewrite F1, F2. apply StronglySorted_app. split; [|split; [done|]].
  - intros k1 k2 Hk1 (k & -> & Hk)%list_elem_of_fmap. specialize (H1 k1 Hk1). specialize (H2 k Hk). lia.
  - clear -Hs2 H2. induction s2.*1 as [|k s IH]; [constructor|]. cbn. apply StronglySorted_inv in Hs2 as [Hs Hlt]. constructor; [apply IH; [done|set_solver]|].
    apply Forall_fmap. rewrite Forall_forall in *. intros k' Hk'. cbn. specialize (Hlt k' Hk'). specialize (H2 k ltac:(by left)). lia.
Qed.

Context (HGr : green_node_remove_child (green pc) (N.to_nat (index c)) = Ret G).

Record d_ring (hd : option ptr) (m : Slls) (s1 s2 : list (N * ptr)) : Prop := {
  dr_children : children_of (lk h) par (s1 ++ (index c, n) :: s2);
  dr_nodup : NoDup (s1 ++ (index c, n) :: s2).*2;
  dr_rep : ring_rep m hd (shifted (index c + 1) (-1) (s1 ++ s2));
  dr_live : forall x, is_Some (m !! x) <-> is_Some (slls h !! x);
  dr_frame : forall x, x ∉ (s1 ++ (index c, n) :: s2).*2 -> m !! x = slls h !! x
}.

Lemma par_ring : exists s1 s2, ring_rep (slls h) (first pc) (s1 ++ (index c, n) :: s2) /\ children_of (lk h) par (s1 ++ (index c, n) :: s2).
Proof.
  destruct par_facts as (Ht & Hpm & _). pose proof (inv_rings _ _ Hi par pc Hpar) as Hr. unfold ring_of in Hr. rewrite Hpm, Ht in Hr.
  destruct Hr as (s & Hr & Hch). assert (Hin : (index c, n) ∈ s) by (apply Hch; exists (info c); by split; [apply lk_cell|]).
  apply list_elem_of_split in Hin as (s1 & s2 & ->). by exists s1, s2.
Qed.

Lemma index_small s k x : children_of (lk h) par s -> (k, x) ∈ s -> k < 2 ^ 32.
Proof.
  intros Hch Hin. apply Hch in Hin as (d & Hd & Hp & <-). destruct (t_parent _ _ (inv_tree _ _ Hi) x d par Hd Hp) as (pi & Hpi & _ & _ & off & Hg & _).
  rewrite (lk_cell _ _ _ Hpar) in Hpi. injection Hpi as <-. unfold green_node_child in Hg. cbn in Hg.
  assert (N.to_nat (i_index d) < length (green_children (green pc)))%nat; [|lia]. apply nth_error_Some. by rewrite Hg.
Qed.

Lemma children_live s x : children_of (lk h) par s -> x ∈ s.*2 -> exists d, cells h !! x = Some d /\ parent d = Some par.
Proof. intros Hch Hx. destruct (children_in _ _ _ _ Hch Hx) as (d & (d' & Hd' & ->)%lk_Some & Hp). by exists d'. Qed.

Lemma detach_run : exists hd m C s1 s2, detach_common n h = syntax_node_release par (mkHeap C m (brk h)) /\
  (forall x, C !! x = (d_cell hd x <$> cells h !! x)) /\ d_ring hd m s1 s2.
Proof.
  destruct par_facts as (Ht & Hpm & Hne & Hpp & _). destruct par_ring as (s1 & s2 & [Hw Hsort] & Hch). set (s := s1 ++ (index c, n) :: s2) in *.
  destruct (adjust_sync_ok h (first pc) s n (index c + 1) (-1) Hw) as (m1 & C1 & E1 & Hw1 & Hlive1 & F1 & K1 & U1).
  { unfold s. rewrite fmap_app. apply elem_of_app. right. by left. }
  { apply Forall_forall. intros [k x] Hin. cbn. unfold shift_ok. intros Hle. pose proof (index_small s k x Hch Hin). lia. }
  { intros x Hx. destruct (children_live s x Hch Hx) as (d & -> & _). done. }
  assert (HC1 : forall x, C1 !! x = ((fun d => set_index (d_ni x (info d)) d) <$> cells h !! x)).
  { intros x. destruct (decide (x ∈ s.*2)) as [Hx|Hx].
    - destruct (children_live s x Hch Hx) as (d & Hd & Hdp). assert (Hin : (index d, x) ∈ s) by (apply Hch; exists (info d); by split; [apply lk_cell|]).
      rewrite (K1 _ _ Hin), Hd. cbn. unfold d_ni. cbn. by rewrite decide_True.
    - rewrite (U1 x Hx). destruct (cells h !! x) as [d|] eqn:Hd; [|done]. cbn. f_equal. unfold d_ni. cbn. rewrite decide_False; [by destruct d|].
      intros Hp. apply Hx. apply list_elem_of_fmap. exists (index d, x). split; [done|]. apply Hch. exists (info d). by split; [apply lk_cell|]. }
  assert (HC1p : C1 !! par = Some pc).
  { rewrite HC1, Hpar. cbn. unfold d_ni. cbn. rewrite decide_False by done. by destruct pc. }
  assert (Hsh : shifted (index c + 1) (-1) s = shifted (index c + 1) (-1) s1 ++ (index c, n) :: shifted (index c + 1) (-1) s2).
  { unfold s, shifted. rewrite map_app. cbn. do 3 f_equal. apply n_index. }
  rewrite Hsh in Hw1. destruct (sll_unlink_ok _ _ _ _ _ _ Hw1) as (hd & m2 & E2 & Hw2 & Ky2 & _ & F2).
  assert (Hsnd : (shifted (index c + 1) (-1) s1 ++ (index c, n) :: shifted (index c + 1) (-1) s2).*2 = s.*2) by (rewrite <- Hsh; apply shifted_snd).
  set (C2 := <[par := set_first hd pc]> C1). set (h2 := mkHeap C2 m2 (brk h)).
  assert (Hl2 : spine C2 par l G).
  { apply (spine_ext (cells h)); [done|]. intros x d Hx Hd. unfold C2. destruct (decide (x = par)) as [->|Hxp].
    - rewrite lookup_insert_eq. exists (set_first hd pc). rewrite Hpar in Hd. injection Hd as <-. split; [done|]. split; [done|]. split; [done|]. by left.
    - rewrite lookup_insert_ne, HC1, Hd by done. cbn. eexists. split; [done|]. split; [done|]. split; [|by right]. cbn. unfold d_ni. cbn.
      rewrite decide_False; [done|]. intros Hp. pose proof (Hrank x (info d) par (lk_cell _ _ _ Hd) Hp).
      destruct (spine_rank h rank Hrank _ _ _ _ Hl Hx) as [->|]; [done|lia]. }
  pose proof (spine_nodup _ _ _ _ Hl) as Hnd. set (C3 := regreen l C2).
  assert (HC3n : exists c3, C3 !! n = Some c3).
  { unfold C3. rewrite regreen_lookup by done. unfold C2. rewrite lookup_insert_ne, HC1, Hn by done. by eexists. }
  destruct HC3n as [c3 Hc3]. exists hd, m2, (<[n := set_parent None c3]> C3), s1, s2. split; [|split].
  - unfold detach_common, bind, assert_, lift, unlink, bind, respine, steps, gets. rewrite (cell_at_ok _ _ _ Hn). cbn [obind]. rewrite Hm. cbn [obind oassert].
    pose proof (live_count _ _ _ _ Hi Hn) as Hcnt. rewrite (proj2 (N.ltb_lt _ _)) by lia. cbn [obind oassert]. rewrite Hcp, E1. cbn [obind].
    unfold bind. rewrite (cell_at_ok _ par pc) by done. cbn [obind slls]. unfold lift. rewrite E2. cbn [obind].
    rewrite (update_cell _ _ par pc) by done. cbn [obind]. rewrite (cell_at_ok _ par (set_first hd pc)) by (cbn; apply lookup_insert_eq). cbn [obind green set_first].
    rewrite HGr. cbn [obind]. change (put_cells _ _) with h2. rewrite (spine_exec _ _ _ _ Hl2); [|pose proof (spine_length h2 _ _ _ Hl2); cbn [cells h2] in *; lia|done].
    cbn [obind cells h2]. fold C3. rewrite (update_cell _ _ n c3) by done. done.
  - intros x. destruct (decide (x = n)) as [->|Hxn].
    + rewrite lookup_insert_eq, Hn. cbn. unfold C3 in Hc3. rewrite regreen_lookup in Hc3 by done. unfold C2 in Hc3. rewrite lookup_insert_ne, HC1, Hn in Hc3 by done.
      cbn in Hc3. injection Hc3 as <-. unfold d_cell, set_parent, set_green, set_index. cbn.
      unfold d_np. rewrite (decide_True (P := n = n)), (decide_False (P := n = par)) by done. done.
    + rewrite lookup_insert_ne by done. unfold C3. rewrite regreen_lookup by done. unfold C2. destruct (decide (x = par)) as [->|Hxp].
      * rewrite lookup_insert_eq, Hpar. cbn. unfold d_cell, set_green, set_first, d_np, d_ni. cbn.
        rewrite (decide_False (P := par = n)), (decide_False (P := parent pc = Some par)), (decide_True (P := par = par)) by congruence. done.
      * rewrite lookup_insert_ne, HC1 by done. destruct (cells h !! x) as [d|]; [|done]. cbn. unfold d_cell, set_green, set_index, d_np. cbn.
        by rewrite (decide_False (P := x = n)), (decide_False (P := x = par)) by done.
  - split; [done|apply Hw| | |].
    + unfold shifted in Hw2 |- *. rewrite map_app. split; [done|]. rewrite <- map_app. by apply shifted_sorted.
    + intros x. rewrite <- Hlive1. pose proof (Ky2 x) as Kp. unfold ky in Kp.
      split; intros [y Hy]; rewrite Hy in Kp; [by destruct (m1 !! x)|by destruct (m2 !! x)].
    + intros x Hx. rewrite F2, F1; [done|done|]. by rewrite Hsnd.
Qed.

Section Final.
Context (hd : option ptr) (m : Slls) (C : gmap ptr Cell) (s1 s2 : list (N * ptr)).
Context (HC : forall x, C !! x = (d_cell hd x <$> cells h !! x)) (Hd : d_ring hd m s1 s2).

Let h' := mkHeap C m (brk h).

Lemma d_lk x : lk h' x = (edited l d_np d_ni x <$> lk h x).
Proof. unfold lk, h'. cbn. rewrite HC. by destruct (cells h !! x). Qed.

Lemma d_rings : rings_ok h'.
Proof.
  destruct par_facts as (Ht & Hpm & Hne & Hpp & _). destruct Hd as [Hch Hnd Hrep _ Hframe].
  intros p d' Hp. cbn in Hp. rewrite HC in Hp. apply fmap_Some in Hp as (d & Hp & ->). unfold ring_of. cbn. destruct (decide (p = par)) as [->|Hpne].
  - rewrite Hpar in Hp. injection Hp as <-. rewrite Hpm, Ht. cbn. eexists. split; [exact Hrep|]. eapply d_children; [apply d_lk|done|done].
  - pose proof (inv_rings _ _ Hi p d Hp) as Hr. unfold ring_of in Hr. destruct (mutable_ d && negb (is_token d)); [|done].
    destruct Hr as (s & R1 & R2). exists s. split.
    + eapply ring_rep_frame; [|exact R1]. intros x Hx. apply Hframe. intros Hx2. destruct (children_in _ _ _ _ R2 Hx) as (d1 & H1 & H2).
      destruct (children_in _ _ _ _ Hch Hx2) as (d2 & H3 & H4). congruence.
    + eapply other_children; [apply d_lk| |exact R2]. intros q qc Hq. unfold d_np, d_ni. split.
      * destruct (decide (q = n)) as [->|]; [|done]. rewrite (lk_cell _ _ _ Hn) in Hq. injection Hq as <-. cbn. rewrite Hcp. split; [done|congruence].
      * intros Hqp. rewrite decide_False; [done|congruence].
Qed.

Lemma d_nch p : (nch (cells h) p = nch C p + if decide (p = par) then 1 else 0)%nat.
Proof.
  rewrite (nch_delete _ _ _ p Hn), Hcp. f_equal.
  - rewrite (nch_ext (<[n := set_parent None c]> (cells h)) C).
    + rewrite <- insert_delete_eq, nch_insert_new by apply lookup_delete_eq. rewrite (decide_False (P := parent (set_parent None c) = Some p)) by done. lia.
    + intros q. rewrite HC. destruct (decide (q = n)) as [->|Hq].
      * rewrite lookup_insert_eq, Hn. cbn. unfold d_np. by rewrite decide_True.
      * rewrite lookup_insert_ne by done. destruct (cells h !! q); [|done]. cbn. unfold d_np. by rewrite decide_False.
  - destruct (decide (Some par = Some p)), (decide (p = par)); congruence.
Qed.

Lemma d_inv : inv h' (O ⊎ {[+ par +]}).
Proof.
  destruct (inv_refs _ _ Hi) as [Hc Ho]. split.
  - apply d_tree, d_lk.
  - intros p. unfold h'. cbn. rewrite (dr_live _ _ _ _ Hd), (inv_slls _ _ Hi), HC. by destruct (cells h !! p); split; intros [? ?].
  - apply d_rings.
  - split.
    + intros p d' Hp. cbn in Hp |- *. rewrite HC in Hp. apply fmap_Some in Hp as (d & Hp & ->). cbn. destruct (Hc p d Hp) as [-> Hb].
      rewrite (d_nch p), multiplicity_disj_union in *. split; [|done]. destruct (decide (p = par)) as [->|].
      * rewrite multiplicity_singleton_eq. lia.
      * rewrite multiplicity_singleton_ne by done. lia.
    + intros p Hp. cbn. rewrite HC. apply gmultiset_elem_of_disj_union in Hp as [Hp|Hp].
      * destruct (Ho p Hp) as [d ->]. done.
      * apply gmultiset_elem_of_singleton in Hp as ->. rewrite Hpar. done.
Qed.

End Final.

Lemma detach_some : exists h', detach_common n h = Ret (tt, h') /\ inv h' O /\ (size (cells h') <= size (cells h))%nat /\ brk h <= brk h' /\
  forall x d, lk h x = Some d -> is_Some (lk h' x) -> lk h' x = Some (edited l d_np d_ni x d).
Proof.
  destruct detach_run as (hd & m & C & s1 & s2 & E & HC & Hd). pose proof (d_inv hd m C s1 s2 HC Hd) as Hinv.
  destruct (release_ok _ O par Hinv) as (h' & E' & Ha & Hs). exists h'. rewrite E, E'. split; [done|]. split; [apply Ha|]. split.
  - assert (size C = size (cells h)) as <-; [|done]. rewrite <- !size_dom. f_equal. apply set_eq. intros x. rewrite !elem_of_dom, HC. by destruct (cells h !! x); split; intros [? ?].
  - split; [apply Ha|]. intros x d Hx Hx'. eapply after_same; [exact Hinv|exact Ha| |done]. by rewrite (d_lk hd m C HC), Hx.
Qed.

End Detach.

End RedDetach.

(** ** Attaching a detached child keeps the heap in order *)

Import SyntaxKind Green GreenFacts Sll SllFacts Red RedTree RedNav RedEdit RedInv RedOps RedPath RedCalls RedSpine RedSync RedDetach.

Module RedAttach.

#[local] Open Scope N_scope.

(** ** The new rank *)

(** [ch] is [q] or above it. *)
Fixpoint under (L : ptr -> option Info) (ch : ptr) (fuel : nat) (q : ptr) : bool :=
  bool_decide (q = ch) ||
  match fuel with
  | O => false
  | S fuel => match L q with Some c => match i_parent c with Some p => under L ch fuel p | None => false end | None => false end
  end.

Section Rank.
Context (L : ptr -> option Info) (ch : ptr) (rank : ptr -> nat) (Hrank : forall q c p, L q = Some c -> i_parent c = Some p -> (rank p < rank q)%nat).

Lemma under_enough f1 f2 q : (rank q <= f1)%nat -> (rank q <= f2)%nat -> under L ch f1 q = under L ch f2 q.
Proof.
  revert f2 q. induction f1 as [|f1 IH]; intros [|f2] q H1 H2; [done| | |]; cbn [under]; f_equal.
  1, 2: destruct (L q) as [c|] eqn:E; [|done]; destruct (i_parent c) as [p|] eqn:Ep; [|done]; specialize (Hrank q c p E Ep); lia.
  destruct (L q) as [c|] eqn:E; [|done]. destruct (i_parent c) as [p|] eqn:Ep; [|done]. specialize (Hrank q c p E Ep). apply IH; lia.
Qed.

Lemma under_parent q c p : L q = Some c -> i_parent c = Some p -> q <> ch -> under L ch (rank q) q = under L ch (rank p) p.
Proof.
  intros Hq Hp Hne. pose proof (Hrank q c p Hq Hp) as Hr. destruct (rank q) as [|f] eqn:Ef; [lia|]. cbn [under].
  rewrite bool_decide_false, Hq, Hp by done. cbn. apply under_enough; lia.
Qed.

Lemma under_self : under L ch (rank ch) ch = true.
Proof. destruct (rank ch); cbn; by rewrite bool_decide_true. Qed.

(** A tree under [ch] moved below [par], which is not in it. *)
Definition moved_rank (par q : ptr) : nat := rank q + if under L ch (rank q) q then S (rank par) else 0.

Lemma moved_rank_ok par q c p : L q = Some c -> under L ch (rank par) par = false -> (forall c, L ch = Some c -> i_parent c = None) ->
  (if decide (q = ch) then Some par else i_parent c) = Some p -> (moved_rank par p < moved_rank par q)%nat.
Proof.
  intros Hq Hpar Hroot. unfold moved_rank. destruct (decide (q = ch)) as [->|Hne].
  - intros [= ->]. rewrite Hpar, under_self. lia.
  - intros Hp. rewrite (under_parent q c p Hq Hp Hne). pose proof (Hrank q c p Hq Hp). lia.
Qed.

End Rank.

Lemma spine_under h O (Hi : inv h O) rank (Hrank : forall q c p, lk h q = Some c -> i_parent c = Some p -> (rank p < rank q)%nat) ch p l G :
  spine (cells h) p l G -> ch ∉ l.*1 -> under (lk h) ch (rank p) p = false.
Proof.
  induction 1 as [r c G Hr Hroot|p c a ac G Ga l Hp Hpar Ha Hrep Hni Hs IH]; cbn; intros Hch.
  - assert (Hne : r <> ch) by set_solver. destruct (rank r) as [|f]; cbn; rewrite bool_decide_false by done; [done|].
    rewrite (lk_cell _ _ _ Hr). cbn. by rewrite Hroot.
  - assert (Hne : p <> ch) by set_solver. rewrite (under_parent (lk h) ch rank Hrank p (info c) a (lk_cell _ _ _ Hp) Hpar Hne). apply IH. set_solver.
Qed.

(** ** Rings with a gap *)

Lemma sorted_gap k (s : list (N * ptr)) : StronglySorted N.lt s.*1 ->
  exists s1 s2, s = s1 ++ s2 /\ Forall (fun e => e.1 < k) s1 /\ Forall (fun e => k <= e.1) s2.
Proof.
  induction s as [|[k0 p0] s IH]; intros Hs; [by exists [], []|]. cbn in Hs. apply StronglySorted_inv in Hs as [Hs Hlt].
  destruct (N.lt_ge_cases k0 k) as [H|H].
  - destruct (IH Hs) as (s1 & s2 & -> & H1 & H2). exists ((k0, p0) :: s1), s2. split; [done|]. split; [by constructor|done].
  - exists [], ((k0, p0) :: s). split; [done|]. split; [done|]. constructor; [done|]. rewrite Forall_fmap in Hlt.
    eapply Forall_impl; [exact Hlt|]. intros e He. cbn in He. lia.
Qed.

Lemma shift_gap k (s : list (N * ptr)) : StronglySorted N.lt s.*1 -> StronglySorted N.lt (shifted k 1 s).*1.
Proof.
  induction s as [|[k0 p0] s IH]; intros Hs; [constructor|]. cbn in Hs |- *. apply StronglySorted_inv in Hs as [Hs Hlt].
  constructor; [by apply IH|]. unfold shifted. apply Forall_fmap, Forall_map. rewrite Forall_fmap in Hlt. eapply Forall_impl; [exact Hlt|].
  intros e He. cbn in *. unfold shift. destruct (N.leb_spec k k0), (N.leb_spec k e.1); lia.
Qed.

Lemma shift_sides k (s1 s2 : list (N * ptr)) : Forall (fun e => e.1 < k) s1 -> Forall (fun e => k <= e.1) s2 ->
  Forall (fun e => e.1 < k) (shifted k 1 s1) /\ Forall (fun e => k < e.1) (shifted k 1 s2).
Proof.
  intros H1 H2. unfold shifted. split; apply Forall_map; [eapply Forall_impl; [exact H1|]|eapply Forall_impl; [exact H2|]]; intros e He; cbn in *; unfold shift.
  - by rewrite (proj2 (N.leb_gt _ _)).
  - rewrite (proj2 (N.leb_le _ _)) by done. lia.
Qed.

Lemma sorted_insert k p (s1 s2 : list (N * ptr)) : StronglySorted N.lt (s1 ++ s2).*1 -> Forall (fun e => e.1 < k) s1 -> Forall (fun e => k < e.1) s2 ->
  StronglySorted N.lt (s1 ++ (k, p) :: s2).*1.
Proof.
  rewrite !fmap_app. cbn [fmap list_fmap fst]. intros (Hx & Hs1 & Hs2)%StronglySorted_app H1 H2.
  apply StronglySorted_app. split; [|split; [done|constructor; [done|by rewrite Forall_fmap]]].
  intros k1 k2 Hk1 [->|Hk2]%elem_of_cons; [|by apply Hx].
  apply list_elem_of_fmap in Hk1 as (x & -> & Hx1). rewrite Forall_forall in H1. by apply H1.
Qed.

Section Attach.
Context (h : Heap) (O : gmultiset ptr) (Hi : inv h O).
Context (rank : ptr -> nat) (Hrank : forall q c p, lk h q = Some c -> i_parent c = Some p -> (rank p < rank q)%nat).
Context (par ch : ptr) (pc cc : Cell) (Hpar : cells h !! par = Some pc) (Hch : cells h !! ch = Some cc).
Context (Hptok : is_token pc = false) (Hpm : mutable_ pc = true) (Hcm : mutable_ cc = true) (Hcroot : parent cc = None).
Context (idx : N) (Hidx : idx <= green_node_num_children (green pc)) (small : N.of_nat (length (green_children (green pc))) < 2 ^ 32).
Context (Hf : fits 1 h O).
Context (G : Green) (l : list (ptr * Green)) (Hl : spine (cells h) par l G) (Hchl : ch ∉ l.*1).
Context (HG : green_is_node G = true) (HGok : green_ok G) (HGi : kid G idx = Some (green cc)) (HGk : forall j, kid G (shift idx 1 j) = kid (green pc) j).
Context (HGr : green_node_insert_child (green pc) (N.to_nat idx) (0, green cc) = Ret G).

Definition a_np (x : ptr) (d : Info) : option ptr := if decide (x = ch) then Some par else i_parent d.
Definition a_ni (x : ptr) (d : Info) : N :=
  if decide (x = ch) then idx else if decide (i_parent d = Some par) then shift idx 1 (i_index d) else i_index d.

Lemma ch_not_par : ch <> par.
Proof. intros ->. apply Hchl. destruct (spine_head _ _ _ _ Hl) as [l' ->]. by left. Qed.

Lemma par_not_self : parent pc <> Some par.
Proof. intros E. pose proof (Hrank par _ par (lk_cell _ _ _ Hpar) E). lia. Qed.

Lemma a_cases x d : lk h x = Some d -> kept par a_np a_ni x d \/ placed par l G a_np a_ni x d \/ cut_off a_np x d.
Proof.
  intros Hx. unfold kept, placed, cut_off, a_np, a_ni. destruct (decide (x = ch)) as [->|Hxn].
  - right. left. rewrite (lk_cell _ _ _ Hch) in Hx. injection Hx as <-. done.
  - destruct (decide (i_parent d = Some par)) as [Hp|Hp]; [|by left]. right. left. split; [done|].
    destruct (t_parent _ _ (inv_tree _ _ Hi) x d par Hx Hp) as (pi & Hpi & _ & Hmm & off & Hg & _). rewrite (lk_cell _ _ _ Hpar) in Hpi. injection Hpi as <-. cbn in *.
    split; [|split; [congruence|]].
    + intros Hin. pose proof (Hrank x d par Hx Hp). destruct (spine_rank h rank Hrank _ _ _ _ Hl Hin) as [->|]; lia.
    + rewrite HGk. apply kid_child. by exists off.
Qed.

Definition a_cell (hd : option ptr) (x : ptr) (d : Cell) : Cell :=
  mkCell (refcount d + if decide (x = par) then 1 else 0) (a_np x (info d)) (a_ni x (info d)) (is_token d) (mutable_ d)
    (new_green l x (green d)) (offset d) (if decide (x = par) then hd else first d).

Lemma a_tree L' : (forall x, L' x = (edited l a_np a_ni x <$> lk h x)) -> tree_ok L' (brk h).
Proof.
  intros HL. eapply (edited_tree h O Hi rank Hrank par (info pc) l G Hl (lk_cell _ _ _ Hpar)); try done.
  - apply a_cases.
  - exists (moved_rank (lk h) ch rank par). intros q d p Hq Hp. eapply moved_rank_ok; [exact Hrank|exact Hq| | |exact Hp].
    + by eapply spine_under.
    + intros d' Hd'. rewrite (lk_cell _ _ _ Hch) in Hd'. by injection Hd' as <-.
Qed.

Lemma a_children L' s1 s2 : (forall x, L' x = (edited l a_np a_ni x <$> lk h x)) -> children_of (lk h) par (s1 ++ s2) ->
  children_of L' par (shifted idx 1 s1 ++ (idx, ch) :: shifted idx 1 s2).
Proof.
  intros HL Hch' k q. rewrite HL. assert (Hsh : (k, q) ∈ shifted idx 1 s1 ++ (idx, ch) :: shifted idx 1 s2 <-> (k, q) = (idx, ch) \/ exists k0, k = shift idx 1 k0 /\ (k0, q) ∈ s1 ++ s2).
  { unfold shifted. rewrite elem_of_app, elem_of_cons, !(list_elem_of_fmap (fun e => (shift idx 1 e.1, e.2))). setoid_rewrite elem_of_app. split.
    - intros [([k0 q0] & [= -> ->] & H)|[H|([k0 q0] & [= -> ->] & H)]]; [right; exists k0; tauto|by left|right; exists k0; tauto].
    - intros [H|(k0 & -> & [H|H])]; [tauto|left; by exists (k0, q)|right; right; by exists (k0, q)]. }
  rewrite Hsh. split.
  - intros [[= -> ->]|(k0 & -> & Hin)].
    + exists (edited l a_np a_ni ch (info cc)). rewrite (lk_cell _ _ _ Hch). split; [done|]. cbn. unfold a_np, a_ni. by rewrite !decide_True.
    + destruct (proj1 (Hch' k0 q) Hin) as (d & Hd & Hp & Hk). exists (edited l a_np a_ni q d). rewrite Hd. split; [done|]. cbn. unfold a_np, a_ni.
      assert (Hqn : q <> ch) by (intros ->; rewrite (lk_cell _ _ _ Hch) in Hd; injection Hd as <-; cbn in Hp; congruence).
      rewrite !(decide_False (P := q = ch)) by done. split; [done|]. rewrite decide_True by done. by rewrite Hk.
  - intros (d' & (d & Hd & ->)%fmap_Some & Hp & Hk). cbn in Hp, Hk. unfold a_np, a_ni in Hp, Hk. destruct (decide (q = ch)) as [->|Hqn]; [left; by rewrite <- Hk|].
    right. rewrite decide_True in Hk by done. exists (i_index d). split; [done|]. apply Hch'. by exists d.
Qed.

(** The cells before the ring and the green nodes change. *)
Definition b_cell (x : ptr) (d : Cell) : Cell :=
  mkCell (refcount d + if decide (x = par) then 1 else 0) (a_np x (info d)) (a_ni x (info d)) (is_token d) (mutable_ d) (green d) (offset d) (first d).

Lemma attach_ring : exists s1 s2, ring_rep (slls h) (first pc) (s1 ++ s2) /\ children_of (lk h) par (s1 ++ s2) /\
  Forall (fun e => e.1 < idx) s1 /\ Forall (fun e => idx <= e.1) s2.
Proof.
  pose proof (inv_rings _ _ Hi par pc Hpar) as Hr. unfold ring_of in Hr. rewrite Hpm, Hptok in Hr. destruct Hr as (s & Hr & Hc).
  destruct (sorted_gap idx s (proj2 Hr)) as (s1 & s2 & -> & H1 & H2). by exists s1, s2.
Qed.

Lemma ch_not_child s : children_of (lk h) par s -> ch ∉ s.*2.
Proof.
  intros Hc Hin. destruct (children_live h par s ch Hc Hin) as (d & Hd & Hp). rewrite Hch in Hd. injection Hd as <-. congruence.
Qed.

(** The first steps: the child takes its place, the parent a reference, and the siblings move up. *)
Definition start (C : gmap ptr Cell) (m : Slls) : Prop :=
  (forall x, C !! x = if decide (x = ch) then Some (b_cell ch cc) else if decide (x = par) then Some (set_refcount (refcount pc + 1) pc) else cells h !! x) /\
  (forall x, x <> ch -> m !! x = slls h !! x) /\ ky m ch = Some idx.

Lemma siblings_up C m s : start C m -> ring_rep (slls h) (first pc) s -> children_of (lk h) par s ->
  exists C' m', match first pc with Some hd => sll_adjust_and_sync hd idx 1 | None => ret tt end (mkHeap C m (brk h)) = Ret (tt, mkHeap C' m' (brk h)) /\
    ring_rep m' (first pc) (shifted idx 1 s) /\ (forall x, C' !! x = (b_cell x <$> cells h !! x)) /\
    (forall x, x ∉ ch :: s.*2 -> m' !! x = slls h !! x) /\ ky m' ch = Some idx /\ (forall x, is_Some (m' !! x) <-> is_Some (m !! x)).
Proof.
  intros (HC & Hm & Hk) Hr Hc. pose proof (ch_not_child s Hc) as Hcs. pose proof ch_not_par as Hcp. pose proof par_not_self as Hpp.
  assert (HCb : forall x, x ∉ s.*2 -> C !! x = (b_cell x <$> cells h !! x)).
  { intros x Hx. rewrite HC. destruct (decide (x = ch)) as [->|Hxc]; [by rewrite Hch|]. destruct (decide (x = par)) as [->|Hxp].
    - rewrite Hpar. cbn. unfold b_cell, a_np, a_ni. cbn. rewrite (decide_True (P := par = par)), !(decide_False (P := par = ch)), (decide_False (P := parent pc = Some par)) by congruence. done.
    - destruct (cells h !! x) as [d|] eqn:Hd; [|done]. cbn. unfold b_cell, a_np, a_ni. cbn. rewrite !(decide_False (P := x = ch)), (decide_False (P := x = par)) by done.
      rewrite (decide_False (P := parent d = Some par)); [rewrite N.add_0_r; by destruct d|]. intros Hp. apply Hx. apply list_elem_of_fmap.
      exists (index d, x). split; [done|]. apply Hc. exists (info d). by split; [apply lk_cell|]. }
  assert (Hr1 : ring_rep m (first pc) s) by (eapply ring_rep_frame; [|exact Hr]; intros x Hx; apply Hm; by intros ->).
  assert (Hhd : first pc = first_of s) by apply Hr. destruct s as [|[k0 p0] s'] eqn:Es.
  - rewrite Hhd. cbn. exists C, m. split; [done|]. rewrite Hhd in Hr1. split; [done|]. split; [intros x; apply HCb; by apply not_elem_of_nil|].
    split; [|done]. intros x Hx. apply Hm. set_solver.
  - rewrite <- Es in *. assert (E : first pc = Some p0) by (rewrite Hhd, Es; done). rewrite E.
    destruct (adjust_sync_ok (mkHeap C m (brk h)) (first pc) s p0 idx 1 (proj1 Hr1)) as (m' & C' & E1 & Hw & Hlive & F & K & U).
    { rewrite Es. by left. }
    { apply Forall_forall. intros [k x] Hin. cbn. unfold shift_ok. intros _.
      apply Hc in Hin as (d & Hd & Hp & <-). destruct (t_parent _ _ (inv_tree _ _ Hi) x d par Hd Hp) as (pi & Hpi & _ & _ & off & Hg & _).
      rewrite (lk_cell _ _ _ Hpar) in Hpi. injection Hpi as <-. unfold green_node_child in Hg. cbn in Hg.
      assert (N.to_nat (i_index d) < length (green_children (green pc)))%nat by (apply nth_error_Some; by rewrite Hg). lia. }
    { intros x Hx. cbn. rewrite HC. destruct (decide (x = ch)); [done|]. destruct (decide (x = par)); [done|]. destruct (children_live h par s x Hc Hx) as (d & -> & _). done. }
    exists C', m'. split; [exact E1|]. split; [split; [by rewrite <- E|apply shift_gap, Hr]|]. cbn [cells slls] in *. split; [|split; [|split]].
    + intros x. destruct (decide (x ∈ s.*2)) as [Hx|Hx]; [|rewrite (U x Hx); by apply HCb].
      destruct (children_live h par s x Hc Hx) as (d & Hd & Hdp). assert (Hin : (index d, x) ∈ s) by (apply Hc; exists (info d); by split; [apply lk_cell|]).
      assert (Hxc : x <> ch) by (by intros ->). assert (Hxp : x <> par) by (intros ->; congruence).
      rewrite (K _ _ Hin), HC, (decide_False (P := x = ch)), (decide_False (P := x = par)), Hd by done. cbn. unfold b_cell, a_np, a_ni. cbn.
      rewrite !(decide_False (P := x = ch)), (decide_False (P := x = par)), (decide_True (P := parent d = Some par)), N.add_0_r by done. by destruct d.
    + intros x [Hxc Hx]%not_elem_of_cons. rewrite (F x Hx). by apply Hm.
    + unfold ky. rewrite (F ch Hcs). exact Hk.
    + done.
Qed.

Record a_ring (hd : option ptr) (m : Slls) (s1 s2 : list (N * ptr)) : Prop := {
  ar_children : children_of (lk h) par (s1 ++ s2);
  ar_rep : ring_rep m hd (shifted idx 1 s1 ++ (idx, ch) :: shifted idx 1 s2);
  ar_live : forall x, is_Some (m !! x) <-> is_Some (slls h !! x);
  ar_frame : forall x, x ∉ ch :: (s1 ++ s2).*2 -> m !! x = slls h !! x
}.

(** The new cell in the ring, then the green nodes. *)
Lemma link_in m s1 s2 : ring_rep m (first pc) (shifted idx 1 (s1 ++ s2)) -> children_of (lk h) par (s1 ++ s2) ->
  Forall (fun e => e.1 < idx) s1 -> Forall (fun e => idx <= e.1) s2 -> ky m ch = Some idx ->
  (forall x, x ∉ ch :: (s1 ++ s2).*2 -> m !! x = slls h !! x) -> (forall x, is_Some (m !! x) <-> is_Some (slls h !! x)) ->
  exists r hd m', sll_link m (first pc) idx = Ret r /\ match r with SLL_ADD_ALREADY_IN_SLL _ => false | _ => true end = true /\
    sll_add m (first pc) r ch = Ret (hd, m') /\ a_ring hd m' s1 s2.
Proof.
  intros Hr Hc H1 H2 Hk F Hlive. unfold shifted in Hr. rewrite map_app in Hr. change (ring_rep m (first pc) (shifted idx 1 s1 ++ shifted idx 1 s2)) in Hr.
  destruct (shift_sides idx s1 s2 H1 H2) as [K1 K2]. pose proof (sll_link_absent _ _ _ _ _ Hr K1 K2) as El.
  assert (Hsnd : (shifted idx 1 s1 ++ shifted idx 1 s2).*2 = (s1 ++ s2).*2) by (rewrite !fmap_app, !shifted_snd; done).
  destruct (sll_add_ok m (first pc) _ _ idx ch (proj1 Hr) Hk) as (hd & m' & Ea & Hw & Ky & F').
  { rewrite Hsnd. by apply ch_not_child. }
  eexists _, hd, m'. split; [exact El|]. split; [unfold place; destruct (shifted idx 1 s1 ++ shifted idx 1 s2); [done|]; by destruct (last (shifted idx 1 s1))|].
  split; [exact Ea|]. split; [done| | |].
  - split; [done|]. apply sorted_insert; [apply Hr|done|done].
  - intros x. rewrite <- Hlive. pose proof (Ky x) as Kp. unfold ky in Kp. split; intros [y Hy]; rewrite Hy in Kp; [by destruct (m !! x)|by destruct (m' !! x)].
  - intros x Hx. rewrite F'; [by apply F|]. by rewrite Hsnd.
Qed.

Definition start_cells : gmap ptr Cell :=
  <[par := set_refcount (refcount pc + 1) pc]> (<[ch := set_index idx (set_parent (Some par) cc)]> (<[ch := set_parent (Some par) cc]> (cells h))).

Lemma start_ok nch : slls h !! ch = Some nch -> start start_cells (<[ch := set_key idx nch]> (slls h)).
Proof.
  intros Hn. pose proof ch_not_par. split; [|split].
  - intros x. unfold start_cells. destruct (decide (x = ch)) as [->|Hxc].
    + rewrite lookup_insert_ne, lookup_insert_eq by congruence. f_equal. unfold b_cell, a_np, a_ni, set_index, set_parent. cbn.
      rewrite !(decide_True (P := ch = ch)), (decide_False (P := ch = par)), N.add_0_r by done. done.
    + destruct (decide (x = par)) as [->|Hxp]; [by rewrite lookup_insert_eq|by rewrite !lookup_insert_ne].
  - intros x Hx. by rewrite lookup_insert_ne.
  - unfold ky. rewrite lookup_insert_eq. done.
Qed.

Lemma attach_run e : elem_data e = ret ch -> exists hd m C s1 s2, attach_child par idx e h = Ret (tt, mkHeap C m (brk h)) /\
  (forall x, C !! x = (a_cell hd x <$> cells h !! x)) /\ a_ring hd m s1 s2.
Proof.
  intros He. destruct attach_ring as (s1 & s2 & Hr & Hc & H1 & H2). pose proof ch_not_par as Hcp.
  destruct (proj2 (inv_slls _ _ Hi ch) (mk_is_Some _ _ Hch)) as [nch Hn]. pose proof (start_ok nch Hn) as Hst.
  destruct (siblings_up _ _ _ Hst Hr Hc) as (C1 & m1 & E1 & Hr1 & HC1 & F1 & K1 & L1).
  destruct (link_in m1 s1 s2 Hr1 Hc H1 H2 K1 F1) as (r & hd & m2 & E2 & Enot & E3 & Hring).
  { intros x. rewrite L1. destruct (decide (x = ch)) as [->|]; [by rewrite lookup_insert_eq, Hn; split|by rewrite lookup_insert_ne]. }
  assert (Hp1 : C1 !! par = Some (set_refcount (refcount pc + 1) pc)).
  { rewrite HC1, Hpar. cbn. unfold b_cell, a_np, a_ni. cbn. rewrite (decide_True (P := par = par)), !(decide_False (P := par = ch)), (decide_False (P := parent pc = Some par)) by (try apply par_not_self; congruence). done. }
  set (C2 := <[par := set_first hd (set_refcount (refcount pc + 1) pc)]> C1). set (h2 := mkHeap C2 m2 (brk h)).
  assert (Hc2 : C2 !! ch = Some (b_cell ch cc)) by (unfold C2; rewrite lookup_insert_ne, HC1, Hch by congruence; done).
  assert (Hl2 : spine C2 par l G).
  { apply (spine_ext (cells h)); [done|]. intros x d Hx Hd. unfold C2. destruct (decide (x = par)) as [->|Hxp].
    - rewrite lookup_insert_eq. eexists. rewrite Hpar in Hd. injection Hd as <-. split; [done|]. split; [done|]. split; [done|]. by left.
    - assert (Hxc : x <> ch) by (by intros ->). rewrite lookup_insert_ne, HC1, Hd by done. cbn. eexists. split; [done|]. cbn. unfold a_np, a_ni. cbn.
      rewrite !(decide_False (P := x = ch)) by done. split; [done|]. split; [|by right]. rewrite decide_False; [done|]. intros Hp.
      pose proof (Hrank x (info d) par (lk_cell _ _ _ Hd) Hp). destruct (spine_rank h rank Hrank _ _ _ _ Hl Hx) as [->|]; [done|lia]. }
  exists hd, m2, (regreen l C2), s1, s2. split; [|split; [|done]].
  - unfold attach_child. rewrite He. unfold bind, assert_, lift, ret. rewrite (cell_at_ok _ _ _ Hpar). cbn [obind]. rewrite Hpm. cbn [obind oassert].
    rewrite (cell_at_ok _ _ _ Hch). cbn [obind]. rewrite Hcm, Hcroot. cbn [obind oassert]. rewrite (proj2 (N.leb_le _ _) Hidx). cbn [obind oassert].
    rewrite (update_cell _ _ _ _ Hch). cbn [obind]. erewrite update_cell by (cbn; apply lookup_insert_eq). cbn [obind].
    unfold set_sll_key, bind, gets, lift, sll_update, sll_at. cbn [obind slls put_cells]. rewrite Hn. cbn [obind].
    unfold syntax_node_retain. erewrite update_cell by (cbn; rewrite !lookup_insert_ne by congruence; exact Hpar). cbn [obind].
    pose proof (fits_count h O par pc 1 Hi Hpar Hf). rewrite u32_small by lia.
    change (put_cells _ _) with (mkHeap start_cells (<[ch := set_key idx nch]> (slls h)) (brk h)).
    rewrite (cell_at_ok _ par (set_refcount (refcount pc + 1) pc)) by (cbn; apply lookup_insert_eq). cbn [obind first set_refcount].
    unfold ret in E1. rewrite E1. cbn [obind]. rewrite (cell_at_ok (mkHeap C1 m1 (brk h)) _ _ Hp1). cbn [obind slls first set_refcount]. rewrite E2. cbn [obind]. rewrite Enot. cbn [obind oassert].
    rewrite E3. cbn [obind]. change (put_slls m2 _) with (mkHeap C1 m2 (brk h)). rewrite (update_cell _ (mkHeap C1 m2 (brk h)) _ _ Hp1). cbn [obind]. change (put_cells _ _) with h2.
    rewrite (cell_at_ok h2 par (set_first hd (set_refcount (refcount pc + 1) pc))) by apply lookup_insert_eq. cbn [obind]. rewrite (cell_at_ok h2 _ _ Hc2). cbn [obind green set_first set_refcount b_cell].
    rewrite HGr. cbn [obind]. unfold respine, bind, steps, gets. cbn [obind].
    rewrite (spine_exec _ _ _ _ Hl2); [done| |done]. pose proof (spine_length h2 _ _ _ Hl2). lia.
  - intros x. rewrite regreen_lookup by (by eapply spine_nodup). unfold C2. destruct (decide (x = par)) as [->|Hxp].
    + rewrite lookup_insert_eq, Hpar. cbn. unfold a_cell, set_green, set_first, a_np, a_ni. cbn. pose proof par_not_self.
      rewrite !(decide_True (P := par = par)), !(decide_False (P := par = ch)), (decide_False (P := parent pc = Some par)) by congruence. done.
    + rewrite lookup_insert_ne, HC1 by done. destruct (cells h !! x) as [d|]; [|done]. cbn. unfold a_cell, b_cell, set_green. cbn.
      by rewrite !(decide_False (P := x = par)).
Qed.

Section Final.
Context (hd : option ptr) (m : Slls) (C : gmap ptr Cell) (s1 s2 : list (N * ptr)).
Context (HC : forall x, C !! x = (a_cell hd x <$> cells h !! x)) (Hd : a_ring hd m s1 s2).

Let h' := mkHeap C m (brk h).

Lemma a_lk x : lk h' x = (edited l a_np a_ni x <$> lk h x).
Proof. unfold lk, h'. cbn. rewrite HC. by destruct (cells h !! x). Qed.

Lemma a_rings : rings_ok h'.
Proof.
  destruct Hd as [Hc Hrep _ Hframe]. intros p d' Hp. cbn in Hp. rewrite HC in Hp. apply fmap_Some in Hp as (d & Hp & ->).
  unfold ring_of. cbn. destruct (decide (p = par)) as [->|Hpne].
  - rewrite Hpar in Hp. injection Hp as <-. rewrite Hpm, Hptok. cbn. eexists. split; [exact Hrep|]. eapply a_children; [apply a_lk|done].
  - pose proof (inv_rings _ _ Hi p d Hp) as Hr. unfold ring_of in Hr. destruct (mutable_ d && negb (is_token d)); [|done].
    destruct Hr as (s & R1 & R2). exists s. split.
    + eapply ring_rep_frame; [|exact R1]. intros x Hx. apply Hframe. destruct (children_in _ _ _ _ R2 Hx) as (d1 & H1 & H2). intros [->|Hx2]%elem_of_cons.
      * rewrite (lk_cell _ _ _ Hch) in H1. injection H1 as <-. cbn in H2. congruence.
      * destruct (children_in _ _ _ _ Hc Hx2) as (d2 & H3 & H4). congruence.
    + eapply other_children; [apply a_lk| |exact R2]. intros q qc Hq. unfold a_np, a_ni. destruct (decide (q = ch)) as [->|].
      * rewrite (lk_cell _ _ _ Hch) in Hq. injection Hq as <-. cbn. rewrite Hcroot. split; [|done]. split; [congruence|done].
      * split; [done|]. intros Hqp. rewrite decide_False; [done|congruence].
Qed.

Lemma a_nch p : (nch C p = nch (cells h) p + if decide (p = par) then 1 else 0)%nat.
Proof.
  rewrite (nch_delete _ _ _ p Hch). rewrite Hcroot, (decide_False (P := None = Some p)), Nat.add_0_r by done.
  rewrite (nch_ext (<[ch := set_parent (Some par) cc]> (cells h)) C).
  - rewrite <- insert_delete_eq, nch_insert_new by apply lookup_delete_eq. cbn [parent set_parent]. destruct (decide (Some par = Some p)), (decide (p = par)); congruence.
  - intros q. rewrite HC. destruct (decide (q = ch)) as [->|Hq].
    + rewrite lookup_insert_eq, Hch. cbn. unfold a_np. by rewrite decide_True.
    + rewrite lookup_insert_ne by done. destruct (cells h !! q); [|done]. cbn. unfold a_np. by rewrite decide_False.
Qed.

Lemma a_inv : inv h' O.
Proof.
  destruct (inv_refs _ _ Hi) as [Hc Ho]. split.
  - apply a_tree, a_lk.
  - intros p. unfold h'. cbn. rewrite (ar_live _ _ _ _ Hd), (inv_slls _ _ Hi), HC. by destruct (cells h !! p); split; intros [? ?].
  - apply a_rings.
  - split.
    + intros p d' Hp. cbn in Hp |- *. rewrite HC in Hp. apply fmap_Some in Hp as (d & Hp & ->). cbn. destruct (Hc p d Hp) as [E Hb].
      pose proof (fits_count h O p d 1 Hi Hp Hf). rewrite (a_nch p). destruct (decide (p = par)); lia.
    + intros p Hp. cbn. rewrite HC. destruct (Ho p Hp) as [d ->]. done.
Qed.

End Final.

Lemma attach_some e : elem_data e = ret ch -> exists h', attach_child par idx e h = Ret (tt, h') /\ inv h' O /\
  size (cells h') = size (cells h) /\ brk h' = brk h /\ forall x, lk h' x = (edited l a_np a_ni x <$> lk h x).
Proof.
  intros He. destruct (attach_run e He) as (hd & m & C & s1 & s2 & E & HC & Hd). eexists. split; [exact E|].
  split; [by eapply a_inv|]. split; [|split; [done|by eapply a_lk]].
  cbn. rewrite <- !size_dom. f_equal. apply set_eq. intros x. rewrite !elem_of_dom, HC. by destruct (cells h !! x); split; intros [? ?].
Qed.

End Attach.

End RedAttach.

Import SyntaxKind Green GreenFacts Sll SllFacts Red RedTree RedNav RedEdit RedInv RedOps RedPath RedCalls RedSpine RedSync RedDetach RedAttach.

Module RedSplice.

#[local] Open Scope N_scope.

(** ** The children of a green node, without offsets *)

Definition kids (g : Green) : list Green := map snd (green_children g).

Lemma alloc_kids k cs : kids (green_node_alloc k cs) = map snd cs.
Proof.
  unfold kids, green_node_alloc. destruct (assign_offsets 0 cs) as [cs' n] eqn:E. cbn [green_children].
  by destruct (assign_offsets_spec _ _ _ _ E) as [H _].
Qed.

Lemma kids_length g : N.of_nat (length (kids g)) = green_node_num_children g.
Proof. unfold kids. by rewrite length_map. Qed.

Lemma kids_kid g i : kid g i = kids g !! N.to_nat i.
Proof. rewrite kid_lookup. unfold kids. symmetry. apply (list_lookup_fmap snd). Qed.

Lemma kids_text g : green_is_node g = true -> green_text g = concat (map green_text (kids g)).
Proof. destruct g as [k w cs|]; [|done]. intros _. rewrite green_text_node. unfold elem_text, kids. cbn. by rewrite map_map. Qed.

Lemma remove_kids g i G : green_node_remove_child g i = Ret G -> kids G = take i (kids g) ++ drop (S i) (kids g).
Proof.
  unfold green_node_remove_child, green_node_splice_children. destruct (i <? _)%nat; [|done]. destruct (i <=? i + 1)%nat; [|done]. destruct (i + 1 <=? _)%nat; [|done].
  intros [= <-]. rewrite alloc_kids. cbn [app]. rewrite map_app. unfold kids. by rewrite firstn_map, skipn_map, Nat.add_1_r.
Qed.

Lemma insert_kids g i e G : green_node_insert_child g i (0, e) = Ret G -> kids G = take i (kids g) ++ e :: drop i (kids g).
Proof.
  unfold green_node_insert_child, green_node_splice_children. destruct (i <=? length (green_children g))%nat; [|done]. cbn [oassert obind]. destruct (i <=? i)%nat; [|done]. intros [= <-]. rewrite alloc_kids. unfold kids. cbn [app]. rewrite map_app, firstn_map, skipn_map. done.
Qed.

(** ** The text around a path *)

Fixpoint around (g : Green) (pi : list N) : list byte * list byte :=
  match pi with
  | [] => ([], [])
  | i :: pi =>
      match green_node_child g i with
      | Some (_, c) =>
          let (a, b) := around c pi in
          (elem_text (take (N.to_nat i) (green_children g)) ++ a, b ++ elem_text (drop (S (N.to_nat i)) (green_children g)))
      | None => ([], [])
      end
  end.

Lemma around_text off g pi o c : green_at off g pi = Some (o, c) -> green_text g = (around g pi).1 ++ green_text c ++ (around g pi).2.
Proof.
  revert off g. induction pi as [|i pi IH]; intros off g; cbn [green_at around]; [intros [= _ ->]; by rewrite app_nil_r|].
  destruct (green_node_child g i) as [[o' d]|] eqn:E; [|done]. intros H%IH. unfold green_node_child in E.
  destruct g as [k w cs|]; [|by destruct (N.to_nat i)]. cbn [green_children] in *. rewrite green_text_node, (elem_split _ _ _ _ E), H.
  destruct (around d pi). cbn. by rewrite <- !app_assoc.
Qed.

Lemma around_snoc off g pi i o c : green_at off g pi = Some (o, c) -> is_Some (green_node_child c i) ->
  around g (pi ++ [i]) = ((around g pi).1 ++ elem_text (take (N.to_nat i) (green_children c)), elem_text (drop (S (N.to_nat i)) (green_children c)) ++ (around g pi).2).
Proof.
  revert off g. induction pi as [|j pi IH]; intros off g; cbn [green_at around app].
  - intros [= _ ->] [[o' d] ->]. cbn. by rewrite !app_nil_r.
  - destruct (green_node_child g j) as [[o' d]|]; [|done]. intros H Hi. rewrite (IH _ _ H Hi). destruct (around d pi). cbn. by rewrite <- !app_assoc.
Qed.

(** ** The root above a spine *)

Section Root.
Context (h : Heap) (O : gmultiset ptr) (Hi : inv h O).

Lemma spine_root_is p l G r pi x c : spine (cells h) p l G -> at_path (lk h) r pi p -> is_root (lk h) r ->
  x ∈ l.*1 -> lk h x = Some c -> i_parent c = None -> x = r.
Proof using.
  intros Hs. revert pi. induction Hs as [r' d G Hr' Hroot|p d a ac G Ga l Hp Hpar Ha Hrep Hni Hs IH]; intros pi Hat Hr Hx Hc Hn; cbn in Hx.
  - apply list_elem_of_singleton in Hx as ->. inversion Hat as [|pi' p q e Hat' He Hep]; subst; [done|]. rewrite (lk_cell _ _ _ Hr') in He. injection He as <-. cbn in Hep. congruence.
  - apply elem_of_cons in Hx as [->|Hx].
    + rewrite (lk_cell _ _ _ Hp) in Hc. injection Hc as <-. cbn in Hn. congruence.
    + inversion Hat as [|pi' p' q e Hat' He Hep]; subst.
      * destruct Hr as (rc & Hrc & Hrn). rewrite (lk_cell _ _ _ Hp) in Hrc. injection Hrc as <-. cbn in Hrn. congruence.
      * rewrite (lk_cell _ _ _ Hp) in He. injection He as <-. cbn in Hep. rewrite Hpar in Hep. injection Hep as <-. by eapply IH.
Qed.

Lemma spine_path p l G r pi q L' : spine (cells h) p l G -> at_path (lk h) r pi q -> q ∈ l.*1 ->
  (forall x c, x ∈ l.*1 -> lk h x = Some c -> exists c', L' x = Some c' /\ i_parent c' = i_parent c /\ i_index c' = i_index c) -> at_path L' r pi q.
Proof using.
  intros Hs Hat. induction Hat as [c Hc|pi p' q c Hat IH Hq Hqp]; intros Hin HL.
  - destruct (HL r c Hin Hc) as (c' & Hc' & _). by eapply at_here.
  - destruct (HL q c Hin Hq) as (c' & Hc' & E1 & <-). eapply (at_down L' r pi p' q c'); [|exact Hc'|congruence]. apply IH; [|done]. by eapply spine_closed.
Qed.

(** The new root: [G] stands at the path, and the text around it is as before. *)
Lemma spine_around p l G r rc pi : spine (cells h) p l G -> at_path (lk h) r pi p -> lk h r = Some rc -> i_parent rc = None ->
  exists off, green_at 0 (new_green l r (i_green rc)) pi = Some (off, G) /\ around (new_green l r (i_green rc)) pi = around (i_green rc) pi.
Proof using Hi.
  intros Hs. revert pi. induction Hs as [r' d G Hr' Hroot|p d a ac G Ga l Hp Hpar Ha Hrep Hni Hs IH]; intros pi Hat Hr Hrn.
  - inversion Hat as [|pi' p q e Hat' He Hep]; subst; [|rewrite (lk_cell _ _ _ Hr') in He; injection He as <-; cbn in Hep; congruence].
    exists 0. unfold new_green. cbn. by rewrite lookup_insert_eq.
  - inversion Hat as [|pi' p' q e Hat' He Hep]; subst; [rewrite (lk_cell _ _ _ Hp) in Hr; injection Hr as <-; cbn in Hrn; congruence|].
    rewrite (lk_cell _ _ _ Hp) in He. injection He as <-. cbn in Hep. rewrite Hpar in Hep. injection Hep as <-. cbn [i_index info] in *.
    destruct (IH pi' Hat' Hr Hrn) as (off & Hoff & Haro).
    assert (Enew : new_green ((p, G) :: l) r (i_green rc) = new_green l r (i_green rc)).
    { unfold new_green. cbn. rewrite lookup_insert_ne; [done|]. intros ->. rewrite (lk_cell _ _ _ Hp) in Hr. injection Hr as <-. cbn in Hrn. congruence. }
    rewrite Enew. destruct (replace_kid _ _ _ _ Hrep) as (_ & _ & _ & Hkid). pose proof (Hkid (index d)) as Hk. rewrite decide_True in Hk by done.
    apply kid_child in Hk as [o' Hk]. exists (u32 (off + o')). rewrite green_at_snoc, Hoff, Hk. split; [done|].
    rewrite (around_snoc _ _ _ _ _ _ Hoff) by (by rewrite Hk). rewrite Haro.
    destruct (path_offset h O Hi r rc pi' a Hr Hrn Hat') as (ai & off' & Hai & Hat0 & _). rewrite (lk_cell _ _ _ Ha) in Hai. injection Hai as <-. cbn in Hat0.
    destruct (t_parent _ _ (inv_tree _ _ Hi) p _ a (lk_cell _ _ _ Hp) Hpar) as (ai & Hai & _ & _ & o0 & Hg0 & _). rewrite (lk_cell _ _ _ Ha) in Hai. injection Hai as <-. cbn in Hg0.
    rewrite (around_snoc _ _ _ _ _ _ Hat0) by (by rewrite Hg0).
    assert (Hsides : take (N.to_nat (index d)) (kids Ga) = take (N.to_nat (index d)) (kids (green ac)) /\ drop (S (N.to_nat (index d))) (kids Ga) = drop (S (N.to_nat (index d))) (kids (green ac))).
    { split; apply list_eq; intros k.
      - destruct (decide (k < N.to_nat (index d))%nat); [|by rewrite !lookup_take_ge by lia]. rewrite !lookup_take_lt by done.
        replace k with (N.to_nat (N.of_nat k)) by lia. rewrite <- !kids_kid, Hkid, decide_False by lia. done.
      - rewrite !lookup_drop. replace (S (N.to_nat (index d)) + k)%nat with (N.to_nat (index d + 1 + N.of_nat k)) by lia. rewrite <- !kids_kid, Hkid, decide_False by lia. done. }
    destruct Hsides as [E1 E2]. unfold kids in E1, E2. rewrite !firstn_map, !skipn_map in *. assert (Ht : forall xs ys : list (N * Green), map snd xs = map snd ys -> elem_text xs = elem_text ys).
    { intros xs ys H. unfold elem_text. assert (forall zs : list (N * Green), map (fun c => green_text c.2) zs = map green_text (map snd zs)) as Hm by (intros zs; by rewrite map_map). by rewrite !Hm, H. }
    by rewrite (Ht _ _ E1), (Ht _ _ E2).
Qed.

End Root.

(** ** One edit *)

(** [par] is a mutable node at [pi] under the root [r]. *)
Record stands (h : Heap) (r : ptr) (rc : Info) (pi : list N) (par : ptr) (pc : Info) : Prop := {
  st_path : path_to h r rc pi par;
  st_par : lk h par = Some pc;
  st_node : i_token pc = false;
  st_mutable : i_mutable pc = true
}.

Definition few (pc : Info) : Prop := N.of_nat (length (kids (i_green pc))) < 2 ^ 32.

Lemma few_children pc : few pc -> N.of_nat (length (green_children (i_green pc))) < 2 ^ 32.
Proof. unfold few, kids. by rewrite length_map. Qed.

(** What an edit under [par] leaves as it was. *)
Definition aside (r par : ptr) (k : N) (x : ptr) (d : Info) : Prop :=
  (i_parent d = None /\ x <> r) \/ (i_parent d = Some par /\ i_index d < k).

Lemma edited_same l np ni x d : np x d = i_parent d -> ni x d = i_index d -> x ∉ l.*1 -> edited l np ni x d = d.
Proof. intros E1 E2 H. unfold edited. rewrite E1, E2, new_green_notin by done. by destruct d. Qed.

Lemma aside_off h O rank l G r rc pi par k x d : inv h O -> (forall q c p, lk h q = Some c -> i_parent c = Some p -> (rank p < rank q)%nat) ->
  spine (cells h) par l G -> path_to h r rc pi par -> lk h x = Some d -> aside r par k x d -> x ∉ l.*1.
Proof.
  intros Hi Hrank Hl (Hr & Hrn & Hp) Hx Ha Hin. destruct Ha as [[Hn Hne]|[Hpx _]].
  - apply Hne. eapply spine_root_is; [exact Hl|exact Hp|by exists rc|exact Hin|exact Hx|done].
  - pose proof (Hrank x d par Hx Hpx). destruct (spine_rank h rank Hrank _ _ _ _ Hl Hin) as [->|]; lia.
Qed.

Lemma spine_top C h p l G r pi q : C = cells h -> spine C p l G -> at_path (lk h) r pi q -> q ∈ l.*1 -> r ∈ l.*1.
Proof. intros -> Hs. induction 1 as [c Hc|pi p' q c Hat IH Hq Hqp]; intros Hin; [done|]. apply IH. by eapply spine_closed. Qed.

(** What [par] and the root show after an edit that puts [G] at [par]. *)
Lemma stands_after h O l G r rc pi par pc h' np ni : inv h O -> spine (cells h) par l G -> stands h r rc pi par pc ->
  (forall x d, x ∈ l.*1 -> lk h x = Some d -> lk h' x = Some (edited l np ni x d) /\ np x d = i_parent d /\ ni x d = i_index d) ->
  exists rc' pc', stands h' r rc' pi par pc' /\ i_green pc' = G /\ around (i_green rc') pi = around (i_green rc) pi.
Proof.
  intros Hi Hl [(Hr & Hrn & Hp) Hpar Hnode Hmut] HL. destruct (spine_head _ _ _ _ Hl) as [l' El].
  assert (Hin : par ∈ l.*1) by (rewrite El; by left). assert (Hrin : r ∈ l.*1) by (by eapply spine_top).
  destruct (HL _ _ Hin Hpar) as (Hpar' & _). destruct (HL _ _ Hrin Hr) as (Hr' & E1 & E2).
  destruct (spine_around h O Hi par l G r rc pi Hl Hp Hr Hrn) as (off & _ & Har).
  exists (edited l np ni r rc), (edited l np ni par pc). split; [split|]; [split; [exact Hr'|split; [cbn; congruence|]]|exact Hpar'|done|done|].
  - eapply spine_path; [exact Hl|exact Hp|exact Hin|]. intros x c Hx Hc. destruct (HL _ _ Hx Hc) as (Hc' & F1 & F2). eexists. split; [exact Hc'|]. by cbn.
  - cbn. split; [|done]. apply (new_green_in l par G); [by eapply spine_nodup|]. rewrite El. by left.
Qed.

(** The ancestors of what is live are live. *)
Lemma spine_alive C h h' O' p l G : C = cells h -> inv h' O' -> spine C p l G -> is_Some (lk h' p) ->
  (forall x d, x ∈ l.*1 -> lk h x = Some d -> is_Some (lk h' x) -> exists d', lk h' x = Some d' /\ i_parent d' = i_parent d) ->
  forall x, x ∈ l.*1 -> is_Some (lk h' x).
Proof.
  intros -> Hi'. induction 1 as [r c G Hr Hroot|p c a ac G Ga l Hp Hpar Ha Hrep Hni Hs IH]; intros Hlive HL x Hx; cbn in Hx.
  - by apply list_elem_of_singleton in Hx as ->.
  - apply elem_of_cons in Hx as [->|Hx]; [done|]. apply IH; [|intros y d Hy; apply HL; by right|done].
    destruct (HL p (info c) ltac:(by left) (lk_cell _ _ _ Hp) Hlive) as (d' & Hd' & E). cbn in E. rewrite Hpar in E.
    by destruct (t_parent _ _ (inv_tree _ _ Hi') p d' a Hd' E) as (pc & -> & _).
Qed.

Lemma detach_step h O r rc pi par pc n c : inv h O -> stands h r rc pi par pc -> few pc -> par ∈ O ->
  lk h n = Some c -> i_parent c = Some par ->
  exists h' rc' pc', detach_common n h = Ret (tt, h') /\ inv h' O /\ (size (cells h') <= size (cells h))%nat /\ brk h <= brk h' /\
    stands h' r rc' pi par pc' /\ around (i_green rc') pi = around (i_green rc) pi /\
    kids (i_green pc') = take (N.to_nat (i_index c)) (kids (i_green pc)) ++ drop (S (N.to_nat (i_index c))) (kids (i_green pc)) /\
    (forall x d, x ∈ O -> lk h x = Some d -> x <> n -> aside r par (i_index c) x d -> lk h' x = Some d) /\
    (n ∈ O -> exists d, lk h' n = Some d /\ i_parent d = None /\ i_mutable d = true).
Proof.
  intros Hi Hst Hfew HparO Hn Hnp. pose proof Hst as [Hpath Hpar Hnode Hmut]. destruct (t_rank _ _ (inv_tree _ _ Hi)) as [rank Hrank].
  destruct (t_parent _ _ (inv_tree _ _ Hi) n c par Hn Hnp) as (pc0 & Hpc0 & _ & Hmm & off & Hg & _). rewrite Hpar in Hpc0. injection Hpc0 as <-.
  destruct (remove_kid (i_green pc) (i_index c) (i_green c)) as (G & HGr & HGn & HGok & _ & HGk); [apply kid_child; by exists off|].
  destruct (spine_exists h O Hi rank Hrank par pc G Hpar) as (l & Hl & _).
  pose proof Hn as (nc & Hnc & ->)%lk_Some. pose proof Hpar as (pcc & Hpcc & ->)%lk_Some. cbn in *.
  destruct (t_info _ _ (inv_tree _ _ Hi) par _ Hpar) as [Hgok _].
  destruct (detach_some h O Hi rank Hrank n par nc pcc Hnc Hnp Hpcc (eq_trans (eq_sym Hmm) Hmut) (few_children _ Hfew) G l Hl HGn (HGok Hgok) HGk HGr) as (h' & E & Hi' & Hs & Hb & HL).
  assert (Hpar' : is_Some (lk h' par)) by (destruct (inv_owned _ _ _ Hi' HparO) as [d Hd]; by rewrite (lk_cell _ _ _ Hd)).
  assert (Hon : forall x d, x ∈ l.*1 -> lk h x = Some d -> d_np n x d = i_parent d /\ d_ni par nc x d = i_index d).
  { intros x d Hx Hd. unfold d_np, d_ni. destruct (spine_rank h rank Hrank _ _ _ _ Hl Hx) as [->|Hrx].
    - rewrite Hpar in Hd. injection Hd as <-. pose proof (Hrank n _ par Hn Hnp). rewrite decide_False by (intros ->; lia).
      rewrite decide_False; [done|]. intros Hpp. pose proof (Hrank par _ par Hpar Hpp). lia.
    - pose proof (Hrank n _ par Hn Hnp). rewrite decide_False by (intros ->; lia). rewrite decide_False; [done|]. intros Hpp. pose proof (Hrank x d par Hd Hpp). lia. }
  assert (Hlive : forall x, x ∈ l.*1 -> is_Some (lk h' x)).
  { eapply spine_alive; [done|exact Hi'|exact Hl|done|]. intros x d Hx Hd Hx'. eexists. split; [by apply HL|]. cbn. by apply Hon. }
  destruct (stands_after h O l G r rc pi par _ h' (d_np n) (d_ni par nc) Hi Hl Hst) as (rc' & pc' & Hst' & Hgr & Har).
  { intros x d Hx Hd. split; [apply HL; [done|by apply Hlive]|by apply Hon]. }
  exists h', rc', pc'. split; [done|]. split; [done|]. split; [done|]. split; [done|]. split; [done|]. split; [done|]. split; [|split].
  - rewrite Hgr. by apply remove_kids.
  - intros x d HxO Hd Hxn Ha. destruct (inv_owned _ _ _ Hi' HxO) as [d' Hd']. rewrite (HL x d Hd) by (by rewrite (lk_cell _ _ _ Hd')). f_equal.
    apply edited_same; [| |by eapply (aside_off h O rank); [..|exact Ha]].
    + unfold d_np. by rewrite decide_False.
    + unfold d_ni. destruct (decide (i_parent d = Some par)); [|done]. destruct Ha as [[Hnone _]|[_ Hlt]]; [congruence|].
      unfold shift. by rewrite (proj2 (N.leb_gt _ _)) by lia.
  - intros HnO. destruct (inv_owned _ _ _ Hi' HnO) as [d' Hd']. eexists. split; [apply (HL n _ Hn); by rewrite (lk_cell _ _ _ Hd')|]. cbn.
    unfold d_np. rewrite decide_True by done. split; [done|]. congruence.
Qed.

Lemma attach_step h O r rc pi par pc ch cc idx e : inv h O -> stands h r rc pi par pc -> few pc -> fits 1 h O ->
  lk h ch = Some cc -> i_parent cc = None -> i_mutable cc = true -> ch <> r -> elem_data e = ret ch -> idx <= N.of_nat (length (kids (i_green pc))) ->
  exists h' rc' pc', attach_child par idx e h = Ret (tt, h') /\ inv h' O /\ size (cells h') = size (cells h) /\ brk h' = brk h /\
    stands h' r rc' pi par pc' /\ around (i_green rc') pi = around (i_green rc) pi /\
    kids (i_green pc') = take (N.to_nat idx) (kids (i_green pc)) ++ i_green cc :: drop (N.to_nat idx) (kids (i_green pc)) /\
    (forall x d, lk h x = Some d -> x <> ch -> i_parent d = None -> x <> r -> lk h' x = Some d).
Proof.
  intros Hi Hst Hfew Hf Hch Hcn Hcm Hcr He Hidx. pose proof Hst as [Hpath Hpar Hnode Hmut]. destruct (t_rank _ _ (inv_tree _ _ Hi)) as [rank Hrank].
  rewrite kids_length in Hidx. pose proof Hch as (ccc & Hccc & ->)%lk_Some. pose proof Hpar as (pcc & Hpcc & ->)%lk_Some. cbn in *.
  destruct (insert_kid (green pcc) idx (green ccc)) as (G & HGr & HGn & HGok & _ & HGi & HGk); [unfold green_node_num_children in Hidx; lia|].
  destruct (spine_exists h O Hi rank Hrank par _ G Hpar) as (l & Hl & _).
  assert (Hchl : ch ∉ l.*1) by (eapply (aside_off h O rank l G r rc pi par 0); [done|exact Hrank|exact Hl|exact Hpath|exact Hch|left; by split]).
  pose proof (proj1 (t_info _ _ (inv_tree _ _ Hi) par _ Hpar)) as Hg1. pose proof (proj1 (t_info _ _ (inv_tree _ _ Hi) ch _ Hch)) as Hg2.
  destruct (attach_some h O Hi rank Hrank par ch pcc ccc Hpcc Hccc Hnode Hmut Hcm Hcn idx Hidx (few_children _ Hfew) Hf G l Hl Hchl HGn (HGok Hg1 Hg2) HGi HGk HGr e He)
    as (h' & E & Hi' & Hs & Hb & HL).
  destruct (stands_after h O l G r rc pi par _ h' (a_np par ch) (a_ni par ch idx) Hi Hl Hst) as (rc' & pc' & Hst' & Hgr & Har).
  { intros x d Hx Hd. rewrite HL, Hd. split; [done|]. unfold a_np, a_ni. rewrite !(decide_False (P := x = ch)) by (by intros ->). split; [done|].
    rewrite decide_False; [done|]. intros Hpp. pose proof (Hrank x d par Hd Hpp). destruct (spine_rank h rank Hrank _ _ _ _ Hl Hx) as [->|]; lia. }
  exists h', rc', pc'. split; [done|]. split; [done|]. split; [done|]. split; [done|]. split; [done|]. split; [done|]. split.
  - rewrite Hgr. by apply insert_kids.
  - intros x d Hd Hxn Hdn Hxr. rewrite HL, Hd. cbn. f_equal. apply edited_same.
    + unfold a_np. by rewrite decide_False.
    + unfold a_ni. rewrite !decide_False by congruence. done.
    + eapply (aside_off h O rank l G r rc pi par 0); [done|exact Hrank|exact Hl|exact Hpath|exact Hd|left; by split].
Qed.

(** ** The handles of the children to remove *)

Fixpoint refs (es : list SyntaxElement) : gmultiset ptr := match es with [] => ∅ | e :: es => elem_ref e ⊎ refs es end.

(** [e] is a handle of child [i] of [par]. *)
Definition handle_at (h : Heap) (O : gmultiset ptr) (par : ptr) (i : N) (e : SyntaxElement) : Prop :=
  exists q d, elem_data e = ret q /\ elem_ref e = {[+ q +]} /\ q ∈ O /\ lk h q = Some d /\ i_parent d = Some par /\ i_index d = i.

Definition handles_at (h : Heap) (O : gmultiset ptr) (par from : N) (es : list SyntaxElement) : Prop :=
  forall k e, es !! k = Some e -> handle_at h O par (from + N.of_nat k) e.

Lemma handle_keep h O h' O' par i e : (forall q d, q ∈ O -> lk h q = Some d -> q ∈ O' /\ lk h' q = Some d) -> handle_at h O par i e -> handle_at h' O' par i e.
Proof. intros H (q & d & E1 & E2 & Hq & Hd & Hr). destruct (H q d Hq Hd) as [H1 H2]. by exists q, d. Qed.

Lemma in_refs_r (O A : gmultiset ptr) q : q ∈ A -> q ∈ O ⊎ A.
Proof. intros H. apply gmultiset_elem_of_disj_union. by right. Qed.

Lemma in_refs_l (O A : gmultiset ptr) q : q ∈ O -> q ∈ O ⊎ A.
Proof. intros H. apply gmultiset_elem_of_disj_union. by left. Qed.

Lemma child_or_token_gives h O par c i : inv h O -> lk h par = Some c -> i_token c = false -> fits 2 h O ->
  gives h O 2 (syntax_node_child_or_token par i) (fun e O' h' => O' = O ⊎ elem_ref e /\ elem_at h' par i c e /\ idle_or_grown h h' e).
Proof.
  intros Hi Hp Ht Hf. unfold syntax_node_child_or_token. eapply gives_cell; [exact Hp|]. intros d Hd ->.
  by apply (next_elem_gives h O Hi par (info d) i).
Qed.

Lemma snapshot_gives count h O par c from : inv h O -> lk h par = Some c -> i_token c = false ->
  from + N.of_nat count <= N.of_nat (length (kids (i_green c))) -> fits (2 * count) h O ->
  gives h O (2 * count) (snapshot count par from) (fun es O' h' => O' = O ⊎ refs es /\ length es = count /\ handles_at h' O' par from es /\ grows h h').
Proof.
  revert h O from. induction count as [|count IH]; intros h O from Hi Hp Ht Hle Hf; cbn [snapshot].
  - apply gives_ret; [done|]. split; [cbn; by rewrite right_id_L by apply _|]. split; [done|]. split; [done|by intros q].
  - eapply gives_bind with (n1 := 2%nat) (n2 := (2 * count)%nat); [by eapply child_or_token_gives; [..|eapply fits_le; [|exact Hf]; lia]|lia|].
    intros e O1 h1 A1 (-> & He & Hg & _). eapply gives_bind with (n1 := (2 * count)%nat) (n2 := 0%nat); [apply (IH h1 _ (from + 1) (proj1 A1) (Hg _ _ Hp) Ht)|lia|].
    { lia. } { eapply after_fits; [exact A1|]. eapply fits_le; [|exact Hf]. lia. }
    intros es O2 h2 A2 (-> & Hlen & Hes & Hg2). apply gives_ret; [apply A2|]. split; [cbn; by rewrite (assoc_L _)|]. split; [cbn; lia|].
    split; [|intros q d Hq; by apply Hg2, Hg]. intros [|k] e' Hk; cbn in Hk.
    + injection Hk as <-. rewrite N.add_0_r. unfold elem_at in He. assert (Hkid : is_Some (kid (i_green c) from)).
      { rewrite kids_kid. apply lookup_lt_is_Some. lia. }
      destruct (green_node_child (i_green c) from) as [[off g]|] eqn:E; [|unfold kid in Hkid; rewrite E in Hkid; by destruct Hkid].
      destruct He as (q & -> & o' & Hq). eexists q, _. split; [by destruct (green_is_node g)|].
      assert (Er : elem_ref (if green_is_node g then ELEM_NODE q else ELEM_TOKEN q) = {[+ q +]}) by (by destruct (green_is_node g)).
      split; [done|]. rewrite Er. split; [apply in_refs_l, in_refs_r; by apply gmultiset_elem_of_singleton|]. split; [by apply Hg2|done].
    + replace (from + N.of_nat (S k)) with (from + 1 + N.of_nat k) by lia. by apply Hes.
Qed.

(** ** Removing them, from the last *)

Lemma detach_all_ok es h O r rc pi par pc from : inv h O -> stands h r rc pi par pc -> few pc -> par ∈ O -> handles_at h O par from es ->
  exists h' rc' pc', each (fun e => let* p := elem_data e in detach_common p)%red (reverse es) h = Ret (tt, h') /\ inv h' O /\
    (size (cells h') <= size (cells h))%nat /\ brk h <= brk h' /\ stands h' r rc' pi par pc' /\ around (i_green rc') pi = around (i_green rc) pi /\
    kids (i_green pc') = take (N.to_nat from) (kids (i_green pc)) ++ drop (N.to_nat from + length es) (kids (i_green pc)) /\
    (forall x d, x ∈ O -> lk h x = Some d -> i_parent d = None -> x <> r -> lk h' x = Some d).
Proof.
  revert h rc pc. induction es as [|e es IH] using rev_ind; intros h rc pc Hi Hst Hfew HparO Hes.
  - exists h, rc, pc. split; [done|]. split; [done|]. split; [done|]. split; [done|]. split; [done|]. split; [done|].
    split; [by rewrite Nat.add_0_r, take_drop|done].
  - rewrite reverse_snoc. cbn [each].
    destruct (Hes (length es) e) as (q & d & Eq & _ & HqO & Hq & Hqp & Hqi); [by rewrite list_lookup_middle|].
    destruct (detach_step h O r rc pi par pc q d Hi Hst Hfew HparO Hq Hqp) as (h1 & rc1 & pc1 & E1 & Hi1 & Hs1 & Hb1 & Hst1 & Har1 & Hk1 & Hrest & _).
    assert (Hlt : (N.to_nat from + length es < length (kids (i_green pc)))%nat).
    { destruct (t_parent _ _ (inv_tree _ _ Hi) q d par Hq Hqp) as (pc0 & Hpc0 & _ & _ & off & Hg & _). rewrite (st_par _ _ _ _ _ _ Hst) in Hpc0. injection Hpc0 as <-.
      unfold kids, green_node_child in *. rewrite length_map. assert (N.to_nat (i_index d) < length (green_children (i_green pc)))%nat; [|lia]. apply nth_error_Some. by rewrite Hg. }
    assert (Hm : N.to_nat (i_index d) = (N.to_nat from + length es)%nat) by lia. rewrite Hm in Hk1.
    destruct (IH h1 rc1 pc1 Hi1 Hst1) as (h2 & rc2 & pc2 & E2 & Hi2 & Hs2 & Hb2 & Hst2 & Har2 & Hk2 & Hrest2).
    + unfold few in *. rewrite Hk1, length_app, length_take, length_drop. lia.
    + done.
    + intros k e' Hk. destruct (Hes k e') as (q' & d' & F1 & F2 & F3 & F4 & F5 & F6); [rewrite lookup_app_l; [done|by eapply lookup_lt_Some]|].
      apply lookup_lt_Some in Hk as Hkl. exists q', d'. split; [done|]. split; [done|]. split; [done|]. split; [|done]. apply Hrest; [done|done| |].
      * intros ->. rewrite F4 in Hq. injection Hq as ->. lia.
      * right. split; [done|lia].
    + exists h2, rc2, pc2. unfold bind at 1. unfold bind at 1. rewrite Eq. unfold ret at 1. cbn [obind]. rewrite E1. cbn [obind]. rewrite E2.
      split; [done|]. split; [done|]. split; [lia|]. split; [lia|]. split; [done|]. split; [congruence|]. split.
      * rewrite Hk2, Hk1, length_app. cbn. rewrite take_app_le, take_take by (rewrite length_take; lia). f_equal; [f_equal; lia|].
        rewrite drop_app_ge by (rewrite length_take; lia). rewrite length_take, drop_drop. f_equal. lia.
      * intros x d' Hx Hd Hn Hxr. apply Hrest2; [done| |done|done]. apply Hrest; [done|done| |left; by split]. intros ->. congruence.
Qed.

Lemma element_release_gives h O e : inv h (O ⊎ elem_ref e) -> gives h (O ⊎ elem_ref e) 0 (element_release e) (fun _ O' _ => O' = O).
Proof.
  destruct e as [|n|t]; cbn [elem_ref element_release]; intros Hi; [|by apply release_gives|by apply release_token_gives].
  rewrite right_id_L in Hi |- * by apply _. by apply gives_ret.
Qed.

Lemma release_all_gives es h O : inv h (O ⊎ refs es) -> gives h (O ⊎ refs es) 0 (each element_release es) (fun _ O' _ => O' = O).
Proof.
  revert h. induction es as [|e es IH]; intros h Hi; cbn [refs each] in *.
  - rewrite right_id_L in Hi |- * by apply _. by apply gives_ret.
  - assert (E : O ⊎ (elem_ref e ⊎ refs es) = O ⊎ refs es ⊎ elem_ref e) by multiset_solver. rewrite E in *.
    eapply gives_bind with (n1 := 0%nat) (n2 := 0%nat); [by apply element_release_gives|done|]. intros _ O1 h1 A1 ->. apply IH, A1.
Qed.

Lemma stands_keep h O n h' O' r rc pi par pc : inv h O -> after h O n h' O' -> par ∈ O' -> stands h r rc pi par pc -> stands h' r rc pi par pc.
Proof.
  intros Hi Ha Hin [(Hr & Hrn & Hp) Hpar Hn Hm]. pose proof (after_owned _ _ _ _ _ _ _ Hi Ha Hpar Hin) as Hpar'.
  assert (Hp' : at_path (lk h') r pi par) by (eapply after_path; [exact Hi|exact Ha|exact Hp|by rewrite Hpar']).
  split; [|done..]. split; [|by split]. eapply after_same; [exact Hi|exact Ha|exact Hr|]. by eapply at_path_top.
Qed.

(** ** The new children *)

(** A detached element outside the tree of the root [r], with its green tree. *)
Definition detached (h : Heap) (r : ptr) (q : ptr) (g : Green) : Prop :=
  exists c, lk h q = Some c /\ i_parent c = None /\ i_mutable c = true /\ q <> r /\ i_green c = g.

Lemma attach_all_ok es qs gs h O r rc pi par pc idx : inv h O -> stands h r rc pi par pc -> fits 1 h O ->
  N.of_nat (length (kids (i_green pc)) + length es) < 2 ^ 32 -> idx <= N.of_nat (length (kids (i_green pc))) ->
  Forall2 (fun e q => elem_data e = ret q) es qs -> Forall2 (detached h r) qs gs -> NoDup qs ->
  exists h' rc' pc', attach_all par idx es h = Ret (tt, h') /\ inv h' O /\ size (cells h') = size (cells h) /\ brk h' = brk h /\
    stands h' r rc' pi par pc' /\ around (i_green rc') pi = around (i_green rc) pi /\
    kids (i_green pc') = take (N.to_nat idx) (kids (i_green pc)) ++ gs ++ drop (N.to_nat idx) (kids (i_green pc)).
Proof.
  revert qs gs h rc pc idx. induction es as [|e es IH]; intros qs gs h rc pc idx Hi Hst Hf Hfew Hidx Hes Hqs Hnd.
  - inversion Hes; subst. inversion Hqs; subst. exists h, rc, pc. repeat (split; [done|]). cbn. by rewrite take_drop.
  - inversion Hes as [|? q ? qs' He Hes']; subst. inversion Hqs as [|? g ? gs' Hq Hqs']; subst. apply NoDup_cons in Hnd as [Hni Hnd].
    destruct Hq as (c & Hc & Hcn & Hcm & Hcr & <-). cbn [attach_all length] in *.
    destruct (attach_step h O r rc pi par pc q c idx e Hi Hst) as (h1 & rc1 & pc1 & E1 & Hi1 & Hs1 & Hb1 & Hst1 & Har1 & Hk1 & Hrest); [unfold few; lia|done..|].
    assert (Hlen : length (kids (i_green pc1)) = S (length (kids (i_green pc)))) by (rewrite Hk1, length_app, length_take; cbn; rewrite length_drop; lia).
    destruct (IH qs' gs' h1 rc1 pc1 (idx + 1) Hi1 Hst1) as (h2 & rc2 & pc2 & E2 & Hi2 & Hs2 & Hb2 & Hst2 & Har2 & Hk2).
    + unfold fits in *. by rewrite Hs1.
    + rewrite Hlen. lia.
    + rewrite Hlen. lia.
    + done.
    + apply Forall2_same_length_lookup_2; [by eapply Forall2_length|]. intros i q' g' Hq' Hg'.
      destruct (Forall2_lookup_lr _ _ _ _ _ _ Hqs' Hq' Hg') as (c' & Hc' & Hcn' & Hcm' & Hcr' & Hgr'). exists c'. split; [|done].
      apply Hrest; [done| |done|done]. intros ->. apply Hni. by apply list_elem_of_lookup_2 in Hq'.
    + done.
    + exists h2, rc2, pc2. unfold bind. rewrite E1. cbn [obind]. rewrite E2. split; [done|]. split; [done|]. split; [congruence|]. split; [congruence|].
      split; [done|]. split; [congruence|]. rewrite Hk2, Hk1. replace (N.to_nat (idx + 1)) with (S (N.to_nat idx)) by lia.
      assert (Hl : length (take (N.to_nat idx) (kids (i_green pc))) = N.to_nat idx) by (rewrite length_take; lia).
      rewrite (take_app_ge _ _ (S (N.to_nat idx))), (drop_app_ge _ _ (S (N.to_nat idx))) by (rewrite Hl; lia). rewrite Hl.
      replace (S (N.to_nat idx) - N.to_nat idx)%nat with 1%nat by lia. cbn. by rewrite take_0, drop_0, <- app_assoc.
Qed.

(** ** The splice *)

Lemma splice_ok es qs gs h O r rc pi par pc from to : inv h O -> stands h r rc pi par pc -> par ∈ O -> from <= to -> to <= N.of_nat (length (kids (i_green pc))) ->
  fits (2 * N.to_nat (to - from) + 1) h O -> N.of_nat (length (kids (i_green pc)) + length es) < 2 ^ 32 ->
  Forall2 (fun e q => elem_data e = ret q) es qs -> Forall2 (detached h r) qs gs -> NoDup qs -> Forall (fun q => q ∈ O) qs ->
  exists h' rc' pc', syntax_node_splice_children par from to es h = Ret (tt, h') /\ inv h' O /\
    (size (cells h') <= size (cells h) + 2 * N.to_nat (to - from))%nat /\
    stands h' r rc' pi par pc' /\ around (i_green rc') pi = around (i_green rc) pi /\
    kids (i_green pc') = take (N.to_nat from) (kids (i_green pc)) ++ gs ++ drop (N.to_nat to) (kids (i_green pc)).
Proof.
  intros Hi Hst HparO Hft Hto Hf Hfew Hes Hqs Hnd HqO. set (count := N.to_nat (to - from)) in *. pose proof Hst as [_ Hpar Hnode Hmut].
  destruct (snapshot_gives count h O par pc from Hi Hpar Hnode) as (snap & h1 & O1 & E1 & A1 & -> & Hlen & Hsnap & Hg1); [lia|eapply fits_le; [|exact Hf]; lia|].
  assert (HparO1 : par ∈ O ⊎ refs snap) by (by apply in_refs_l). pose proof (stands_keep _ _ _ _ _ _ _ _ _ _ Hi A1 HparO1 Hst) as Hst1.
  destruct (detach_all_ok snap h1 _ r rc pi par pc from (proj1 A1) Hst1) as (h2 & rc2 & pc2 & E2 & Hi2 & Hs2 & Hb2 & Hst2 & Har2 & Hk2 & Hrest2); [unfold few; lia|done|done|].
  destruct (release_all_gives snap h2 O Hi2) as (u & h3 & O3 & E3 & A3 & ->). pose proof (stands_keep _ _ _ _ _ _ _ _ _ _ Hi2 A3 HparO Hst2) as Hst3.
  rewrite Hlen in Hk2. replace (N.to_nat from + count)%nat with (N.to_nat to) in Hk2 by lia.
  assert (Hk2len : length (kids (i_green pc2)) = (N.to_nat from + (length (kids (i_green pc)) - N.to_nat to))%nat) by (rewrite Hk2, length_app, length_take, length_drop; lia).
  assert (Hsize3 : (size O + size (cells h3) <= size O + size (cells h) + 2 * count)%nat).
  { destruct A1 as (_ & _ & S1), A3 as (_ & _ & S3). rewrite !gmultiset_size_disj_union in *. lia. }
  destruct (attach_all_ok es qs gs h3 O r rc2 pi par pc2 from (proj1 A3) Hst3) as (h4 & rc4 & pc4 & E4 & Hi4 & Hs4 & Hb4 & Hst4 & Har4 & Hk4); try done.
  - unfold fits in *. lia.
  - lia.
  - lia.
  - apply Forall2_same_length_lookup_2; [by eapply Forall2_length|]. intros i q g Hq Hg.
    destruct (Forall2_lookup_lr _ _ _ _ _ _ Hqs Hq Hg) as (c & Hc & Hcn & Hcm & Hcr & Hgr). exists c. split; [|done].
    rewrite Forall_lookup in HqO. specialize (HqO _ _ Hq). eapply after_owned; [exact Hi2|exact A3| |done].
    apply Hrest2; [by apply in_refs_l|by apply Hg1|done|done].
  - exists h4, rc4, pc4. split.
    + unfold syntax_node_splice_children. apply lk_Some in Hpar as (pcc & Hpcc & ->). cbn in Hmut. unfold bind, assert_, lift.
      rewrite (cell_at_ok _ _ _ Hpcc). cbn [obind]. rewrite Hmut. cbn [obind oassert]. rewrite (proj2 (N.leb_le _ _) Hft). cbn [obind oassert].
      cbn [i_green info] in Hto. rewrite kids_length in Hto. rewrite (proj2 (N.leb_le _ _) Hto). cbn [obind oassert].
      change (N.to_nat (to - from)) with count. rewrite E1. cbn [obind]. unfold bind in E2. rewrite E2. cbn [obind]. rewrite E3. cbn [obind]. exact E4.
    + split; [done|]. split; [lia|]. split; [done|]. split; [congruence|]. rewrite Hk4, Hk2.
      assert (Hl : length (take (N.to_nat from) (kids (i_green pc))) = N.to_nat from) by (rewrite length_take; lia).
      rewrite take_app_le, drop_app_ge by lia. rewrite Hl, Nat.sub_diag, drop_0, take_take. do 2 f_equal. lia.
Qed.

End RedSplice.
