(* ===== verification/RedSession.v ===== *)
(** * Sessions of a client

    What a client may do with the references it holds, and that it then never trips an
    assertion, reads a freed handle, or leaves anything behind. *)

From stdpp Require Import gmap gmultiset sorting.
From S2P Require Import Prelude SyntaxKind Green GreenFacts Sll SllFacts Red RedNav RedEdit RedInv RedCalls RedTokens RedSpine RedSplice.

(** ** Replacing a node, in both modes

    A mutable tree gives the ancestors new green nodes; an immutable one builds the green
    nodes up to a new root.  Both build the root with the subtree at the path replaced. *)

Import SyntaxKind Green GreenFacts Sll SllFacts Red RedTree RedNav RedEdit RedInv RedOps RedPath RedCalls RedSpine RedDetach RedSplice.

Module RedReplace.

#[local] Open Scope N_scope.

(** The tree with [G] at the path. *)
Fixpoint green_put (g : Green) (pi : list N) (G : Green) : outcome Green :=
  match pi with
  | [] => Ret G
  | i :: pi =>
      match green_node_child g i with
      | Some (_, c) => let! c' := green_put c pi G in green_node_replace_child g (N.to_nat i) (0, c')
      | None => AssertFailed "replace_child: idx out of range"
      end
  end.

Lemma green_put_snoc off g pi i o a c G : green_at off g pi = Some (o, a) -> green_node_child a i = Some c ->
  green_put g (pi ++ [i]) G = let! a' := green_node_replace_child a (N.to_nat i) (0, G) in green_put g pi a'.
Proof.
  revert off g. induction pi as [|j pi IH]; intros off g; cbn [green_at green_put app].
  - intros [= _ ->] Hc. rewrite Hc. destruct c. cbn. by destruct (green_node_replace_child a (N.to_nat i) (0, G)).
  - destruct (green_node_child g j) as [[o' d]|]; [|done]. intros H Hc. rewrite (IH _ _ H Hc).
    by destruct (green_node_replace_child a (N.to_nat i) (0, G)).
Qed.

Lemma green_put_text g pi G G' off o c : green_put g pi G = Ret G' -> green_at off g pi = Some (o, c) ->
  green_text G' = (around g pi).1 ++ green_text G ++ (around g pi).2.
Proof.
  revert off g G'. induction pi as [|i pi IH]; intros off g G'; cbn [green_put green_at around].
  - intros [= ->] _. by rewrite app_nil_r.
  - destruct (green_node_child g i) as [[o' d]|] eqn:E; [|done]. destruct (green_put d pi G) as [d'|?|] eqn:Ed; [|done..]. cbn [obind]. intros Hr Hat.
    specialize (IH _ _ _ Ed Hat). unfold green_node_replace_child in Hr. destruct (N.to_nat i <? length (green_children g))%nat eqn:Hlt; [|done]. cbn [oassert obind] in Hr. injection Hr as <-.
    apply Nat.ltb_lt in Hlt. rewrite alloc_text. rewrite insert_take_drop by done. rewrite elem_text_app. unfold elem_text at 2. cbn [map concat snd].
    fold (elem_text (drop (S (N.to_nat i)) (green_children g))). rewrite IH. destruct (around d pi). cbn. by rewrite <- !app_assoc.
Qed.

Section Replace.
Context (h : Heap) (O : gmultiset ptr) (Hi : inv h O).
Context (r : ptr) (rc : Info) (Hr : lk h r = Some rc) (Hrn : i_parent rc = None).

(** One step up the path. *)
Lemma put_up pi p pc q c G : at_path (lk h) r pi p -> lk h p = Some pc -> lk h q = Some c -> i_parent c = Some p ->
  green_put (i_green rc) (pi ++ [i_index c]) G = let! a := green_node_replace_child (i_green pc) (N.to_nat (i_index c)) (0, G) in green_put (i_green rc) pi a.
Proof using Hi Hr Hrn.
  intros Hp Hpc Hq Hqp. destruct (path_offset h O Hi r rc pi p Hr Hrn Hp) as (pc' & off & Hpc' & Hat & _). rewrite Hpc in Hpc'. injection Hpc' as <-.
  destruct (t_parent _ _ (inv_tree _ _ Hi) q c p Hq Hqp) as (pc' & Hpc' & _ & _ & o & Hg & _). rewrite Hpc in Hpc'. injection Hpc' as <-.
  by eapply green_put_snoc.
Qed.

Lemma put_total pi q G : at_path (lk h) r pi q -> exists G', green_put (i_green rc) pi G = Ret G'.
Proof using Hi Hr Hrn.
  intros Hp. revert G. induction Hp as [c Hc|pi p q c Hp IH Hq Hqp]; intros G; [by exists G|].
  destruct (t_parent _ _ (inv_tree _ _ Hi) q c p Hq Hqp) as (pc & Hpc & _ & _ & o & Hg & _). rewrite (put_up pi p pc q c G Hp Hpc Hq Hqp).
  destruct (replace_ret (i_green pc) (i_index c) G (i_green c)) as [a Ha]; [apply kid_child; by exists o|]. rewrite Ha. cbn [obind]. apply IH.
Qed.

Lemma bubble_ok pi q G G' fuel : at_path (lk h) r pi q -> green_put (i_green rc) pi G = Ret G' -> (length pi < fuel)%nat ->
  bubble fuel q G h = Ret (G', h).
Proof using Hi Hr Hrn.
  intros Hp. revert G fuel. induction Hp as [c Hc|pi p q c Hp IH Hq Hqp]; intros G fuel HG Hf; (destruct fuel as [|fuel]; [lia|]); cbn [bubble]; unfold bind.
  - cbn in HG. injection HG as ->. rewrite Hr in Hc. injection Hc as <-. apply lk_Some in Hr as (d & Hd & ->). rewrite (cell_at_ok _ _ _ Hd). cbn [obind] in *. cbn in Hrn. by rewrite Hrn.
  - destruct (t_parent _ _ (inv_tree _ _ Hi) q c p Hq Hqp) as (pc & Hpc & _). rewrite (put_up pi p pc q c G Hp Hpc Hq Hqp) in HG.
    apply lk_Some in Hq as (d & Hd & ->). apply lk_Some in Hpc as (pd & Hpd & ->). cbn in *. rewrite (cell_at_ok _ _ _ Hd). cbn [obind]. rewrite Hqp, (cell_at_ok _ _ _ Hpd).
    cbn [obind]. unfold lift. destruct (green_node_replace_child (green pd) (N.to_nat (index d)) (0, G)) as [a|?|]; [|done..]. cbn [obind] in *.
    rewrite length_app in Hf. cbn in Hf. apply IH; [done|lia].
Qed.

Lemma spine_put pi p l G G' : spine (cells h) p l G -> at_path (lk h) r pi p -> green_put (i_green rc) pi G = Ret G' -> new_green l r (i_green rc) = G'.
Proof using Hi Hr Hrn.
  intros Hs. revert pi. induction Hs as [r' d G Hr' Hroot|p d a ac G Ga l Hp Hpar Ha Hrep Hni Hs IH]; intros pi Hat HG.
  - inversion Hat as [|pi' p q e Hat' He Hep]; subst; [|rewrite (lk_cell _ _ _ Hr') in He; injection He as <-; cbn in Hep; congruence].
    cbn in HG. injection HG as ->. unfold new_green. cbn. by rewrite lookup_insert_eq.
  - inversion Hat as [|pi' p' q e Hat' He Hep]; subst; [rewrite (lk_cell _ _ _ Hp) in Hr; injection Hr as E; rewrite <- E in Hrn; cbn in Hrn; congruence|].
    rewrite (lk_cell _ _ _ Hp) in He. injection He as <-. cbn in Hep. rewrite Hpar in Hep. injection Hep as <-. cbn [i_index info] in *.
    rewrite <- (IH pi' Hat').
    + unfold new_green. cbn. rewrite lookup_insert_ne; [done|]. intros ->. rewrite (lk_cell _ _ _ Hp) in Hr. injection Hr as E. rewrite <- E in Hrn. cbn in Hrn. congruence.
    + pose proof (put_up pi' a (info ac) p (info d) G Hat' (lk_cell _ _ _ Ha) (lk_cell _ _ _ Hp) Hpar) as E. cbn in E. rewrite E, Hrep in HG. exact HG.
Qed.

(** The climb to the root, in a heap with the same parents. *)
Lemma root_of_ok h' pi q fuel : (forall x d, cells h !! x = Some d -> exists d', cells h' !! x = Some d' /\ parent d' = parent d) ->
  at_path (lk h) r pi q -> (length pi < fuel)%nat -> root_of fuel q h' = Ret (r, h').
Proof using Hr Hrn.
  intros HL Hp. revert fuel. induction Hp as [c Hc|pi p q c Hp IH Hq Hqp]; intros fuel Hf; (destruct fuel as [|fuel]; [lia|]); cbn [root_of]; unfold bind.
  - apply lk_Some in Hr as (d & Hd & ->). cbn in Hrn. destruct (HL _ _ Hd) as (d' & Hd' & E). rewrite (cell_at_ok _ _ _ Hd'). cbn [obind]. by rewrite E, Hrn.
  - apply lk_Some in Hq as (d & Hd & ->). cbn in Hqp. destruct (HL _ _ Hd) as (d' & Hd' & E). rewrite (cell_at_ok _ _ _ Hd'). cbn [obind]. rewrite E, Hqp.
    rewrite length_app in Hf. cbn in Hf. apply IH. lia.
Qed.

Lemma replace_with_ok pi n c G : at_path (lk h) r pi n -> lk h n = Some c -> green_kind G = green_kind (i_green c) ->
  exists G' h', green_put (i_green rc) pi G = Ret G' /\ syntax_node_replace_with n G h = Ret (G', h') /\ (i_mutable c = false -> h' = h) /\
    (i_mutable c = true -> option_map i_green (lk h' r) = Some G' /\ exists l, spine (cells h) n l G /\ h' = put_cells (regreen l (cells h)) h).
Proof using Hi Hr Hrn.
  intros Hp Hn Hk. destruct (put_total pi n G Hp) as [G' HG]. pose proof (path_length h O Hi r pi n Hp) as Hlen. pose proof Hn as (d & Hd & ->)%lk_Some. cbn in *.
  exists G'. unfold syntax_node_replace_with, bind, assert_, lift. rewrite (cell_at_ok _ _ _ Hd). cbn [obind]. rewrite Hk, kind_eqb_refl. cbn [obind oassert].
  destruct (mutable_ d) eqn:Em.
  - destruct (t_rank _ _ (inv_tree _ _ Hi)) as [rank Hrank]. destruct (spine_exists h O Hi rank Hrank n _ G Hn) as (l & Hl & _).
    set (h' := put_cells (regreen l (cells h)) h). pose proof (spine_nodup _ _ _ _ Hl) as Hnd.
    assert (HC : forall x, cells h' !! x = ((fun c => set_green (new_green l x (green c)) c) <$> cells h !! x)) by (intros x; by apply regreen_lookup).
    exists h'. unfold respine, bind, steps, gets. cbn [obind]. rewrite (spine_exec _ _ _ _ Hl); [|pose proof (spine_length h _ _ _ Hl); lia|done]. cbn [obind].
    assert (Hsize : size (cells h') = size (cells h)).
    { rewrite <- !size_dom. f_equal. apply set_eq. intros x. rewrite !elem_of_dom, HC. by destruct (cells h !! x); split; intros [? ?]. }
    fold h'. rewrite (root_of_ok h' pi n _) by (done || lia || (intros x e He; rewrite HC, He; by eexists)). cbn [obind].
    pose proof Hr as (rd & Hrd & Erd)%lk_Some. assert (Hr' : cells h' !! r = Some (set_green G' rd)).
    { rewrite HC, Hrd. cbn. do 2 f_equal. pose proof (spine_put pi n l G G' Hl Hp HG) as E. by rewrite Erd in E. }
    rewrite (cell_at_ok _ _ _ Hr'). cbn [obind]. unfold ret. split; [done|]. split; [done|]. split; [done|]. intros _. unfold lk. rewrite Hr'. split; [done|by exists l].
  - exists h. unfold bind, steps, gets. cbn [obind]. rewrite (bubble_ok pi n G G' _ Hp HG) by lia. done.
Qed.

End Replace.

(** A new green tree leaves a heap in order if it has the live children of the node. *)
Section Regreened.
Context (h : Heap) (O : gmultiset ptr) (Hi : inv h O) (n : ptr) (c : Info) (G : Green) (l : list (ptr * Green)).
Context (Hn : lk h n = Some c) (Ht : i_token c = false) (Hm : i_mutable c = true) (HG : green_ok G) (HGn : green_is_node G = true).
Context (Hl : spine (cells h) n l G) (Hkids : forall q d, lk h q = Some d -> i_parent d = Some n -> kid G (i_index d) = Some (i_green d)).

Lemma regreened_lk q : lk (put_cells (regreen l (cells h)) h) q = edited l (fun _ => i_parent) (fun _ => i_index) q <$> lk h q.
Proof using Hl. unfold lk. cbn. rewrite regreen_lookup by (by eapply spine_nodup). by destruct (cells h !! q). Qed.

Lemma regreened_inv : inv (put_cells (regreen l (cells h)) h) O.
Proof using All.
  pose proof (spine_nodup _ _ _ _ Hl) as Hnd. destruct (t_rank _ _ (inv_tree _ _ Hi)) as [rank Hrank].
  assert (HC : forall x, regreen l (cells h) !! x = (fun c => set_green (new_green l x (green c)) c) <$> cells h !! x) by (intros x; by apply regreen_lookup).
  assert (Hback : forall x d, regreen l (cells h) !! x = Some d -> exists d0, cells h !! x = Some d0 /\ d = set_green (new_green l x (green d0)) d0).
  { intros x d. rewrite HC. intros (d0 & Hd & ->)%fmap_Some. by exists d0. }
  destruct (inv_refs _ _ Hi) as [Hcount Howned]. split.
  - eapply (edited_tree h O Hi rank Hrank n c l G Hl Hn Ht Hm HG HGn (fun _ => i_parent) (fun _ => i_index)); [|intros q; apply regreened_lk|by exists rank].
    intros x d Hx. destruct (decide (i_parent d = Some n)) as [Hp|Hp]; [|by left]. right. left. split; [done|]. split; [|split].
    + intros Hin. pose proof (Hrank x d n Hx Hp). destruct (spine_rank h rank Hrank _ _ _ _ Hl Hin) as [->|]; lia.
    + destruct (t_parent _ _ (inv_tree _ _ Hi) x d n Hx Hp) as (pc & Hpc & _ & Hpm & _). congruence.
    + by apply (Hkids x).
  - intros x. cbn. rewrite (inv_slls _ _ Hi x), HC. by destruct (cells h !! x); split; intros [? ?].
  - intros x d (d0 & Hd & ->)%Hback. pose proof (inv_rings _ _ Hi x d0 Hd) as Hr. unfold ring_of in *. cbn. destruct (mutable_ d0 && negb (is_token d0)); [|done].
    destruct Hr as (s & H1 & H2). exists s. split; [done|]. intros k q. rewrite (H2 k q), regreened_lk. split.
    + intros (e & -> & He). by exists (edited l (fun _ => i_parent) (fun _ => i_index) q e).
    + intros (e & (e0 & -> & ->)%fmap_Some & He). by exists e0.
  - split.
    + intros x d (d0 & Hd & ->)%Hback. cbn. destruct (Hcount x d0 Hd) as [E Hpos]. rewrite E. split; [|by rewrite E in Hpos]. do 2 f_equal. symmetry.
      apply nch_ext. intros q. rewrite HC. by destruct (cells h !! q).
    + intros x Hx. cbn. rewrite HC. destruct (Howned x Hx) as [d ->]. by eexists.
Qed.

End Regreened.

Lemma replace_node_ok h O n c G : inv h O -> lk h n = Some c -> i_token c = false -> green_ok G -> green_is_node G = true -> green_kind G = green_kind (i_green c) ->
  (i_mutable c = true -> forall q d, lk h q = Some d -> i_parent d = Some n -> kid G (i_index d) = Some (i_green d)) ->
  exists G' h', syntax_node_replace_with n G h = Ret (G', h') /\ inv h' O.
Proof.
  intros Hi Hn Ht HG HGn Hk Hkids. destruct (path_root h O n c Hi Hn) as (r & rc & pi & Hr & Hrn & Hp).
  destruct (replace_with_ok h O Hi r rc Hr Hrn pi n c G Hp Hn Hk) as (G' & h' & _ & E & H1 & H2). exists G', h'. split; [done|].
  destruct (i_mutable c) eqn:Em; [|by rewrite H1]. destruct (H2 eq_refl) as (_ & l & Hl & ->). by eapply regreened_inv, Hkids.
Qed.

(** A token of an immutable tree. *)
Lemma replace_token_ok h O t c par G : inv h O -> lk h t = Some c -> i_parent c = Some par -> i_mutable c = false -> green_kind G = green_kind (i_green c) ->
  exists G', syntax_token_replace_with t G h = Ret (G', h).
Proof.
  intros Hi Hq Hpar Hm Hk. destruct (t_parent _ _ (inv_tree _ _ Hi) t c par Hq Hpar) as (pc & Hpc & _ & _ & off & Hg & _).
  destruct (path_root h O par pc Hi Hpc) as (r & rc & pi & Hr & Hrn & Hp). pose proof (path_length h O Hi r pi par Hp) as Hlen.
  destruct (replace_ret (i_green pc) (i_index c) G (i_green c)) as [a Ha]; [apply kid_child; by exists off|].
  destruct (put_total h O Hi r rc Hr Hrn pi par a Hp) as [G' HG]. exists G'.
  apply lk_Some in Hq as (d & Hd & ->). apply lk_Some in Hpc as (pd & Hpd & ->). cbn in *.
  unfold syntax_token_replace_with, bind, assert_, lift. rewrite (cell_at_ok _ _ _ Hd). cbn [obind]. rewrite Hk, kind_eqb_refl. cbn [obind oassert].
  rewrite Hpar, (cell_at_ok _ _ _ Hpd). cbn [obind]. rewrite Ha. cbn [obind]. unfold steps, gets. cbn [obind]. rewrite Hm.
  apply (bubble_ok h O Hi r rc Hr Hrn pi par a G' _ Hp HG). lia.
Qed.

End RedReplace.


(** ** Sessions *)

Import SyntaxKind Green GreenFacts Sll SllFacts Red RedTree RedNav RedEdit RedInv RedOps RedPath RedCalls RedTokens RedSpine RedDetach RedAttach RedSplice RedReplace.

Module RedSession.

#[local] Open Scope N_scope.
#[local] Open Scope red_scope.

Inductive Call : Type :=
  | CallRoot (t : SyntaxTree)
  | CallRetain (e : SyntaxElement)
  | CallRelease (e : SyntaxElement)
  | CallParent (e : SyntaxElement)
  | CallChild (n : ptr) (i : N)
  | CallNext (e : SyntaxElement)
  | CallPrev (e : SyntaxElement)
  | CallFirstToken (n : ptr)
  | CallLastToken (n : ptr)
  | CallNextToken (t : ptr)
  | CallPrevToken (t : ptr)
  | CallDetach (e : SyntaxElement)
  | CallSplice (par from to : N) (es : list SyntaxElement)
  | CallReplace (e : SyntaxElement) (g : Green).

Definition as_node (n : option ptr) : SyntaxElement := match n with Some n => ELEM_NODE n | None => ELEM_NONE end.
Definition as_token (t : option ptr) : SyntaxElement := match t with Some t => ELEM_TOKEN t | None => ELEM_NONE end.

(** The call, and the reference it answers with. *)
Definition perform (c : Call) : M SyntaxElement :=
  match c with
  | CallRoot t => let* n := syntax_tree_root t in ret (ELEM_NODE n)
  | CallRetain (ELEM_NODE n) => syntax_node_retain n ;;; ret (ELEM_NODE n)
  | CallRetain (ELEM_TOKEN t) => syntax_token_retain t ;;; ret (ELEM_TOKEN t)
  | CallRelease e => element_release e ;;; ret ELEM_NONE
  | CallParent (ELEM_NODE n) => let* p := syntax_node_parent n in ret (as_node p)
  | CallParent (ELEM_TOKEN t) => let* p := syntax_token_parent t in ret (as_node p)
  | CallChild n i => syntax_node_child_or_token n i
  | CallNext (ELEM_NODE n) => syntax_node_next_sibling_or_token n
  | CallNext (ELEM_TOKEN t) => syntax_token_next_sibling_or_token t
  | CallPrev (ELEM_NODE n) => syntax_node_prev_sibling_or_token n
  | CallPrev (ELEM_TOKEN t) => syntax_token_prev_sibling_or_token t
  | CallFirstToken n => let* t := syntax_node_first_token n in ret (as_token t)
  | CallLastToken n => let* t := syntax_node_last_token n in ret (as_token t)
  | CallNextToken t => let* t := syntax_token_next_token t in ret (as_token t)
  | CallPrevToken t => let* t := syntax_token_prev_token t in ret (as_token t)
  | CallDetach (ELEM_NODE n) => syntax_node_detach n ;;; ret ELEM_NONE
  | CallDetach (ELEM_TOKEN t) => syntax_token_detach t ;;; ret ELEM_NONE
  | CallSplice par from to es => syntax_node_splice_children par from to es ;;; ret ELEM_NONE
  | CallReplace (ELEM_NODE n) g => let* _ := syntax_node_replace_with n g in ret ELEM_NONE
  | CallReplace (ELEM_TOKEN t) g => let* _ := syntax_token_replace_with t g in ret ELEM_NONE
  | CallReplace ELEM_NONE _ | CallRetain ELEM_NONE | CallParent ELEM_NONE | CallNext ELEM_NONE | CallPrev ELEM_NONE | CallDetach ELEM_NONE => ret ELEM_NONE
  end.

(** ** What is allowed *)

(** A reference the client holds, of the right type. *)
Definition holds (h : Heap) (O : gmultiset ptr) (e : SyntaxElement) (c : Info) : Prop :=
  match e with
  | ELEM_NODE q => q ∈ O /\ lk h q = Some c /\ i_token c = false
  | ELEM_TOKEN q => q ∈ O /\ lk h q = Some c /\ i_token c = true
  | ELEM_NONE => False
  end.

(** Nodes have siblings; a token asked for its own stands somewhere. *)
Definition placed_token (e : SyntaxElement) (c : Info) : Prop := match e with ELEM_TOKEN _ => is_Some (i_parent c) | _ => True end.

(** The parent has less than 2^32 children. *)
Definition few_siblings (h : Heap) (c : Info) : Prop := forall par pc, i_parent c = Some par -> lk h par = Some pc -> few pc.

(** Elements to insert under [par]: detached, distinct, and none of them the root above [par]. *)
Definition insertable (h : Heap) (O : gmultiset ptr) (par : ptr) (es : list SyntaxElement) : Prop :=
  exists qs, Forall2 (fun e q => elem_data e = ret q) es qs /\ NoDup qs /\
    forall q, q ∈ qs -> q ∈ O /\ exists c, lk h q = Some c /\ i_parent c = None /\ i_mutable c = true /\ ~ exists pi, at_path (lk h) q pi par.

(** A replacement for a node of a mutable tree has the children of the node that have handles,
    where they are.  A token is replaced in an immutable tree: in a mutable one its handle
    would go on to show the old token. *)
Definition replaceable (h : Heap) (e : SyntaxElement) (c : Info) (g : Green) : Prop :=
  green_ok g /\ green_is_node g = negb (i_token c) /\ green_kind g = green_kind (i_green c) /\
  if i_mutable c then exists n, e = ELEM_NODE n /\ forall q d, lk h q = Some d -> i_parent d = Some n -> kid g (i_index d) = Some (i_green d)
  else placed_token e c.

Definition allowed (h : Heap) (O : gmultiset ptr) (c : Call) : Prop :=
  match c with
  | CallRoot t => green_is_node (root_green t) = true /\ green_ok (root_green t)
  | CallRetain e | CallRelease e | CallParent e => exists c, holds h O e c
  | CallChild n _ | CallFirstToken n | CallLastToken n => exists c, holds h O (ELEM_NODE n) c
  | CallNext e | CallPrev e => exists c, holds h O e c /\ placed_token e c
  | CallNextToken t | CallPrevToken t => exists c, holds h O (ELEM_TOKEN t) c /\ is_Some (i_parent c)
  | CallDetach e => exists c, holds h O e c /\ i_mutable c = true /\ few_siblings h c
  | CallSplice par from to es => exists c, holds h O (ELEM_NODE par) c /\ i_mutable c = true /\ from <= to /\
      to <= green_node_num_children (i_green c) /\ green_node_num_children (i_green c) + N.of_nat (length es) < 2 ^ 32 /\
      insertable h O par es
  | CallReplace e g => exists c, holds h O e c /\ replaceable h e c g
  end.

(** Room for the references of the call. *)
Definition roomy (h : Heap) (O : gmultiset ptr) (c : Call) : Prop :=
  fits 6 h O /\ (forall p i, lk h p = Some i -> fits (6 + 2 * green_height (i_green i)) h O) /\
  match c with CallSplice _ from to _ => fits (2 * N.to_nat (to - from) + 1) h O | _ => True end.

Definition consumed (c : Call) : gmultiset ptr := match c with CallRelease e => elem_ref e | _ => ∅ end.

(** The heaps and the references held in them that sessions reach. *)
Inductive session : Heap -> gmultiset ptr -> Prop :=
  | session_start : session empty_heap ∅
  | session_call h O c e h' : session h O -> allowed h O c -> roomy h O c -> perform c h = Ret (e, h') ->
      session h' (O ∖ consumed c ⊎ elem_ref e).

(** ** Each call *)

Definition call_ok (h : Heap) (O : gmultiset ptr) (c : Call) : Prop :=
  exists e h', perform c h = Ret (e, h') /\ inv h' (O ∖ consumed c ⊎ elem_ref e).

Lemma inv_empty : inv empty_heap ∅.
Proof.
  assert (Hl : forall p, lk empty_heap p = None) by (intros p; unfold lk; cbn; by rewrite lookup_empty).
  split; [split| | |split].
  - intros p c. by rewrite Hl.
  - intros p c. by rewrite Hl.
  - intros q c p. by rewrite Hl.
  - exists (fun _ => 0%nat). intros q c p. by rewrite Hl.
  - intros p. cbn. by rewrite !lookup_empty.
  - intros p c H. cbn in H. by rewrite lookup_empty in H.
  - intros p c H. cbn in H. by rewrite lookup_empty in H.
  - intros p H. by apply gmultiset_not_elem_of_empty in H.
Qed.

Lemma nothing_consumed (O : gmultiset ptr) e : O ∖ ∅ ⊎ elem_ref e = O ⊎ elem_ref e.
Proof. multiset_solver. Qed.

Lemma gives_call h O c n (Q : SyntaxElement -> gmultiset ptr -> Heap -> Prop) : consumed c = ∅ -> gives h O n (perform c) Q ->
  (forall e O' h', Q e O' h' -> O' = O ⊎ elem_ref e) -> call_ok h O c.
Proof.
  intros Hc (e & h' & O' & E & A & HQ) HO. exists e, h'. split; [done|]. rewrite Hc, nothing_consumed, <- (HO _ _ _ HQ). apply A.
Qed.

Lemma gives_token h O n (m : M (option ptr)) (Q : option ptr -> Heap -> Prop) : gives h O n m (fun t O' h' => O' = O ⊎ opt_ref t /\ Q t h') ->
  gives h O n (let* t := m in ret (as_token t)) (fun e O' _ => O' = O ⊎ elem_ref e).
Proof.
  intros H. eapply gives_bind with (n2 := 0%nat); [exact H|lia|]. intros t O' h' A [-> _]. apply gives_ret; [apply A|]. by destruct t.
Qed.

Lemma gives_parent h O n q : gives h O n (syntax_node_parent q) (fun p O' h' => O' = O ⊎ opt_ref p) ->
  gives h O n (let* p := syntax_node_parent q in ret (as_node p)) (fun e O' _ => O' = O ⊎ elem_ref e).
Proof.
  intros H. eapply gives_bind with (n2 := 0%nat); [exact H|lia|]. intros p O' h' A ->. apply gives_ret; [apply A|]. by destruct p.
Qed.

Lemma holds_ptr h O e c : holds h O e c -> exists q, elem_data e = ret q /\ elem_ref e = {[+ q +]} /\ q ∈ O /\ lk h q = Some c.
Proof. destruct e as [|q|q]; [done|..]; intros (H1 & H2 & _); by exists q. Qed.

Lemma detach_ok h O n c : inv h O -> lk h n = Some c -> i_mutable c = true -> few_siblings h c ->
  exists h', detach_common n h = Ret (tt, h') /\ inv h' O.
Proof.
  intros Hi Hn Hm Hfew. destruct (i_parent c) as [par|] eqn:Ep.
  - destruct (t_rank _ _ (inv_tree _ _ Hi)) as [rank Hrank]. destruct (t_parent _ _ (inv_tree _ _ Hi) n c par Hn Ep) as (pc & Hpar & _ & _ & off & Hg & _).
    destruct (remove_kid (i_green pc) (i_index c) (i_green c)) as (G & HGr & HGn & HGok & _ & HGk); [apply kid_child; by exists off|].
    destruct (spine_exists h O Hi rank Hrank par pc G Hpar) as (l & Hl & _). pose proof (few_children _ (Hfew par pc Ep Hpar)) as Hs.
    pose proof (proj1 (t_info _ _ (inv_tree _ _ Hi) par _ Hpar)) as Hgok.
    apply lk_Some in Hn as (nc & Hnc & ->). apply lk_Some in Hpar as (pcc & Hpcc & ->). cbn in *.
    destruct (detach_some h O Hi rank Hrank n par nc pcc Hnc Ep Hpcc Hm Hs G l Hl HGn (HGok Hgok) HGk HGr) as (h' & E & Hi' & _). by exists h'.
  - apply lk_Some in Hn as (nc & Hnc & ->). cbn in *. exists h. split; [|done]. unfold detach_common, bind, assert_, lift.
    rewrite (cell_at_ok _ _ _ Hnc). cbn [obind]. rewrite Hm. cbn [obind oassert]. pose proof (live_count _ _ _ _ Hi Hnc). rewrite (proj2 (N.ltb_lt _ _)) by lia.
    cbn [obind oassert]. by rewrite Ep.
Qed.

Lemma gives_just {A B} h O n (m : M A) (Q : A -> gmultiset ptr -> Heap -> Prop) (b : B) (R : B -> gmultiset ptr -> Heap -> Prop) :
  gives h O n m Q -> (forall a O' h', Q a O' h' -> R b O' h') -> gives h O n (m ;;; ret b) R.
Proof. intros H HR. eapply gives_bind with (n2 := 0%nat); [exact H|lia|]. intros a O' h' A' HQ. apply gives_ret; [apply A'|by eapply HR]. Qed.

Lemma release_call h O e c : inv h O -> holds h O e c -> call_ok h O (CallRelease e).
Proof.
  intros Hi He. destruct (holds_ptr _ _ _ _ He) as (q & _ & Er & Hq & _). assert (E : O = O ∖ elem_ref e ⊎ elem_ref e).
  { rewrite Er. multiset_solver. }
  rewrite E in Hi. destruct (element_release_gives h _ e Hi) as (u & h' & O' & E1 & A & ->). exists ELEM_NONE, h'. split.
  - cbn [perform]. unfold bind. by rewrite E1.
  - cbn. rewrite right_id_L by apply _. apply A.
Qed.

Lemma idle_call h O c h' : consumed c = ∅ -> perform c h = Ret (ELEM_NONE, h') -> inv h' O -> call_ok h O c.
Proof. intros Hc E Hi. exists ELEM_NONE, h'. split; [done|]. rewrite Hc, nothing_consumed. cbn. by rewrite right_id_L by apply _. Qed.

Lemma splice_call h O par from to es : inv h O -> allowed h O (CallSplice par from to es) -> roomy h O (CallSplice par from to es) -> call_ok h O (CallSplice par from to es).
Proof.
  intros Hi (c & (HparO & Hpar & Ht) & Hm & Hft & Hto & Hfew & qs & Hes & Hnd & Hqs) (_ & _ & Hf).
  destruct (path_root h O par c Hi Hpar) as (r & rc & pi & Hp). rewrite <- kids_length in *.
  assert (Hgs : exists gs, Forall2 (detached h r) qs gs).
  { clear Hes Hnd. induction qs as [|q qs IH]; [by exists []|]. destruct (Hqs q ltac:(by left)) as (_ & d & Hd & Hdn & Hdm & Hnot).
    destruct IH as [gs Hgs]; [intros x Hx; apply Hqs; by right|]. exists (i_green d :: gs). constructor; [|done]. exists d.
    repeat (split; [done|]). split; [|done]. intros ->. apply Hnot. exists pi. apply Hp. }
  destruct Hgs as [gs Hgs].
  destruct (splice_ok es qs gs h O r rc pi par c from to Hi) as (h' & rc' & pc' & E & Hi' & _); try done.
  - lia.
  - by apply Forall_forall; intros q Hq; apply Hqs.
  - eapply idle_call; [done|cbn [perform]; unfold bind; by rewrite E|done].
Qed.

Lemma detach_call h O e c : inv h O -> holds h O e c -> i_mutable c = true -> few_siblings h c -> call_ok h O (CallDetach e).
Proof.
  intros Hi He Hm Hfew. destruct e as [|q|q]; [done|..]; destruct He as (_ & Hq & _);
    destruct (detach_ok h O q c Hi Hq Hm Hfew) as (h' & E & Hi'); (eapply idle_call; [done|cbn [perform]; unfold bind, syntax_node_detach, syntax_token_detach; by rewrite E|done]).
Qed.

Lemma replace_call h O e g c : inv h O -> holds h O e c -> replaceable h e c g -> call_ok h O (CallReplace e g).
Proof.
  intros Hi He (Hg & Hn & Hk & Hr). destruct e as [|q|q]; [done|..]; destruct He as (_ & Hq & Ht); rewrite Ht in Hn.
  - destruct (replace_node_ok h O q c g Hi Hq Ht Hg Hn Hk) as (G' & h' & E & Hi').
    { intros Hm. rewrite Hm in Hr. by destruct Hr as (n & [= <-] & Hr). }
    eapply idle_call; [done|cbn [perform]; unfold bind; by rewrite E|done].
  - destruct (i_mutable c) eqn:Hm; [by destruct Hr as (n & [=] & _)|]. destruct Hr as [par Hp].
    destruct (replace_token_ok h O q c par g Hi Hq Hp Hm Hk) as (G' & E). eapply idle_call; [done|cbn [perform]; unfold bind; by rewrite E|done].
Qed.

(** Every call that is allowed returns, from a heap in order to a heap in order. *)
Lemma every_call h O c : inv h O -> allowed h O c -> roomy h O c -> call_ok h O c.
Proof.
  intros Hi Ha Hroom. pose proof Hroom as (H6 & Hh & _). assert (H2 : fits 2 h O) by (eapply fits_le; [|exact H6]; lia).
  assert (H1 : fits 1 h O) by (eapply fits_le; [|exact H6]; lia).
  assert (Hnc : forall p i, lk h p = Some i -> fits (node_cost (i_green i)) h O).
  { intros p i Hp. eapply fits_le; [|exact (Hh p i Hp)]. unfold node_cost. lia. }
  destruct c as [t|e|e|e|n i|e|e|n|n|t|t|e|par from to es|e g].
  - destruct Ha as [Ha Hb]. destruct (root_ok h O t Hi H2 Ha Hb) as (n & h' & E & A & _). eapply gives_call with (n := 2%nat) (Q := fun e O' _ => O' = O ⊎ elem_ref e); [done| |done].
    exists (ELEM_NODE n), h', (O ⊎ {[+ n +]}). cbn [perform]. unfold bind. rewrite E. done.
  - destruct Ha as [c He]. destruct e as [|q|q]; [done|..]; destruct He as (_ & Hq & _);
      (eapply gives_call with (n := 1%nat) (Q := fun e O' _ => O' = O ⊎ elem_ref e); [done|cbn [perform]; eapply gives_just; [by eapply retain_gives|intros _ O' h' [-> _]; done]|done]).
  - destruct Ha as [c He]. by eapply release_call.
  - destruct Ha as [c He]. destruct e as [|q|q]; [done|..]; destruct He as (_ & Hq & _);
      (eapply gives_call with (n := 1%nat) (Q := fun e O' _ => O' = O ⊎ elem_ref e); [done|cbn [perform]; unfold syntax_token_parent; apply gives_parent; eapply gives_mono; [by eapply parent_gives|done|by intros p O' h' _ (-> & -> & _)]|done]).
  - destruct Ha as (c & _ & Hn & Ht). eapply gives_call; [done|by eapply child_or_token_gives|by intros e O' h' [-> _]].
  - destruct Ha as (c & He & Hp). destruct e as [|q|q]; [done|..]; destruct He as (_ & Hq & _);
      (eapply gives_call; [done|cbn [perform]; (by eapply next_sibling_gives) || (by eapply token_next_sibling_gives)|by intros e O' h' [-> _]]).
  - destruct Ha as (c & He & Hp). destruct e as [|q|q]; [done|..]; destruct He as (_ & Hq & _);
      (eapply gives_call; [done|cbn [perform]; (by eapply prev_sibling_gives) || (by eapply token_prev_sibling_gives)|by intros e O' h' [-> _]]).
  - destruct Ha as (c & _ & Hn & Ht). eapply (gives_call _ _ _ _ (fun e O' _ => O' = O ⊎ elem_ref e)); [done|cbn [perform]; eapply gives_token, first_token_gives; [done|exact Hn|done|by eapply Hnc]|done].
  - destruct Ha as (c & _ & Hn & Ht). eapply (gives_call _ _ _ _ (fun e O' _ => O' = O ⊎ elem_ref e)); [done|cbn [perform]; eapply gives_token, last_token_gives; [done|exact Hn|done|by eapply Hnc]|done].
  - destruct Ha as (c & (_ & Hq & _) & Hp). destruct (path_root h O t c Hi Hq) as (r & rc & pi & Hpath).
    eapply (gives_call _ _ _ _ (fun e O' _ => O' = O ⊎ elem_ref e)); [done|cbn [perform]; eapply gives_token, next_token_gives; [done|exact Hq|done|exact Hpath|by eapply Hh, Hpath]|done].
  - destruct Ha as (c & (_ & Hq & _) & Hp). destruct (path_root h O t c Hi Hq) as (r & rc & pi & Hpath).
    eapply (gives_call _ _ _ _ (fun e O' _ => O' = O ⊎ elem_ref e)); [done|cbn [perform]; eapply gives_token, prev_token_gives; [done|exact Hq|done|exact Hpath|by eapply Hh, Hpath]|done].
  - destruct Ha as (c & He & Hm & Hfew). by eapply detach_call.
  - by apply splice_call.
  - destruct Ha as (c & He & Hr). by eapply replace_call.
Qed.

Lemma session_inv h O : session h O -> inv h O.
Proof.
  induction 1 as [|h O c e h' _ Hi Ha Hr E]; [apply inv_empty|]. destruct (every_call h O c Hi Ha Hr) as (e' & h'' & E' & Hi').
  rewrite E in E'. by injection E' as <- <-.
Qed.

(** A live handle without references from outside has a child; so there is none without references. *)
Lemma no_leak h : inv h ∅ -> cells h = ∅.
Proof.
  intros Hi. apply map_empty. intros p. destruct (cells h !! p) as [c|] eqn:Hp; [|done]. exfalso.
  assert (Hchild : forall q, is_Some (lk h q) -> exists x xc, lk h x = Some xc /\ i_parent xc = Some q).
  { intros q [d (d' & Hd & ->)%lk_Some]. destruct (inv_refs _ _ Hi) as [Hc _]. destruct (Hc q d' Hd) as [E Hpos].
    rewrite multiplicity_empty in E. assert (Hn : nch (cells h) q <> 0%nat) by lia. unfold nch in Hn. apply map_size_non_empty_iff in Hn.
    apply map_choose in Hn as (x & xc & [Hx Hxp]%map_lookup_filter_Some). exists x, (info xc). split; [by apply lk_cell|done]. }
  assert (Hlong : forall k, exists pi q, at_path (lk h) p pi q /\ length pi = k).
  { induction k as [|k (pi & q & Hpath & Hlen)].
    - exists [], p. split; [by eapply at_here, lk_cell|done].
    - destruct (Hchild q (at_path_live _ _ _ _ Hpath)) as (x & xc & Hx & Hxp). exists (pi ++ [i_index xc]), x.
      split; [by eapply at_down|]. rewrite length_app. cbn. lia. }
  destruct (Hlong (size (cells h))) as (pi & q & Hpath & Hlen). pose proof (path_length h ∅ Hi p pi q Hpath). lia.
Qed.

End RedSession.

(** ** The token at an offset *)

Import SyntaxKind Green GreenFacts Sll SllFacts Red RedTree RedNav RedInv RedOps RedPath RedCalls RedTokens RedSpine RedSplice.

Module RedOffset.

#[local] Open Scope N_scope.

(** ** The children that touch an offset, by their lengths *)

Definition hits (s l off : N) : bool := negb (l =? 0) && (s <=? off) && (off <=? s + l).

Fixpoint touch (s off i : N) (ls : list N) : list N :=
  match ls with
  | [] => []
  | l :: ls => (if hits s l off then [i] else []) ++ touch (s + l) off (i + 1) ls
  end.

Definition total (ls : list N) : N := foldr N.add 0 ls.

Lemma total_app ls ls' : total (ls ++ ls') = total ls + total ls'.
Proof. unfold total. induction ls as [|l ls IH]; [done|]. cbn. rewrite IH. lia. Qed.

Lemma touch_before s off i ls : off < s -> touch s off i ls = [].
Proof.
  revert s i. induction ls as [|l ls IH]; intros s i H; [done|]. cbn. unfold hits. rewrite (proj2 (N.leb_gt s off)) by lia.
  rewrite andb_false_r. cbn. apply IH. lia.
Qed.

(** Child [j] of the lengths [ls], from offset [s] and index [i], has the range [a], [a + l]. *)
Definition lies (s i : N) (ls : list N) (j a l : N) : Prop :=
  i <= j /\ ls !! N.to_nat (j - i) = Some l /\ a = s + total (take (N.to_nat (j - i)) ls).

Lemma lies_here s i l ls : lies s i (l :: ls) i s l.
Proof. unfold lies. rewrite N.sub_diag. change (N.to_nat 0) with 0%nat. split; [done|]. split; [done|]. rewrite take_0. cbn. lia. Qed.

Lemma lies_next s i l0 ls j a l : lies (s + l0) (i + 1) ls j a l -> lies s i (l0 :: ls) j a l.
Proof.
  intros (H1 & H2 & ->). unfold lies. replace (N.to_nat (j - i)) with (S (N.to_nat (j - (i + 1)))) by lia. unfold total. cbn.
  split; [lia|]. split; [done|lia].
Qed.

(** At the left end, the first child with text. *)
Lemma touch_start s i ls : 0 < total ls -> exists j l, touch s s i ls = [j] /\ lies s i ls j s l /\ 0 < l.
Proof.
  revert s i. induction ls as [|l ls IH]; intros s i; cbn [total foldr touch]; [lia|]. unfold hits. intros H.
  rewrite N.leb_refl, (proj2 (N.leb_le s (s + l))) by lia. destruct (N.eqb_spec l 0) as [->|Hl]; cbn.
  - rewrite N.add_0_r. destruct (IH s (i + 1)) as (j & l' & E & Hj & Hl'); [done|]. exists j, l'. split; [done|]. split; [|done].
    apply lies_next. by rewrite N.add_0_r.
  - rewrite touch_before by lia. exists i, l. split; [done|]. split; [apply lies_here|lia].
Qed.

(** One child, or two that meet at the offset. *)
Lemma touch_cases s off i ls : s <= off -> off <= s + total ls -> 0 < total ls ->
  (exists j a l, touch s off i ls = [j] /\ lies s i ls j a l /\ 0 < l /\ a <= off <= a + l /\ (a = off -> off = s) /\ (a + l = off -> off = s + total ls)) \/
  (exists j k a l l', touch s off i ls = [j; k] /\ lies s i ls j a l /\ lies s i ls k off l' /\ j < k /\ 0 < l /\ 0 < l' /\ a + l = off).
Proof.
  revert s i. induction ls as [|l ls IH]; intros s i; cbn [total foldr touch]; [lia|]. fold (total ls). intros H1 H2 H3. unfold hits.
  rewrite (proj2 (N.leb_le s off)) by done. destruct (N.eqb_spec l 0) as [->|Hl]; cbn.
  - rewrite N.add_0_r. destruct (IH s (i + 1)) as [(j & a & l & E & Hj & R)|(j & k & a & l & l' & E & Hj & Hk & R)]; [lia..| |].
    + left. exists j, a, l. split; [done|]. split; [apply lies_next; by rewrite N.add_0_r|]. destruct R as (R1 & R2 & R3 & R4).
      split; [done|]. split; [done|]. split; [done|]. intros E'. specialize (R4 E'). lia.
    + right. exists j, k, a, l, l'. split; [done|]. split; [apply lies_next; by rewrite N.add_0_r|]. split; [apply lies_next; by rewrite N.add_0_r|done].
  - destruct (N.leb_spec off (s + l)) as [Hle|Hgt]; cbn.
    + destruct (N.eq_dec off (s + l)) as [->|Hne].
      * destruct (N.eq_dec (total ls) 0) as [Ht|Ht].
        -- left. assert (E : touch (s + l) (s + l) (i + 1) ls = []).
           { clear -Ht. generalize (s + l). generalize (i + 1). induction ls as [|x ls IHl]; intros i' s'; [done|]. cbn in Ht |- *. fold (total ls) in Ht.
             assert (x = 0) as -> by lia. cbn. rewrite N.add_0_r. apply IHl. lia. }
           rewrite E. exists i, s, l. split; [done|]. split; [apply lies_here|]. split; [lia|]. split; [lia|]. split; [lia|]. lia.
        -- right. destruct (touch_start (s + l) (i + 1) ls) as (k & l' & E & Hk & Hl'); [lia|]. rewrite E. exists i, k, s, l, l'.
           split; [done|]. split; [apply lies_here|]. split; [by apply lies_next|]. destruct Hk as [Hk _]. split; [lia|]. split; [lia|done].
      * left. rewrite touch_before by lia. exists i, s, l. split; [done|]. split; [apply lies_here|]. split; [lia|]. split; [lia|]. split; lia.
    + destruct (IH (s + l) (i + 1)) as [(j & a & l1 & E & Hj & R1 & R2 & R3 & R4)|(j & k & a & l1 & l' & E & Hj & Hk & R)]; [lia..| |].
      * left. exists j, a, l1. split; [done|]. split; [by apply lies_next|]. split; [done|]. split; [done|]. split; [lia|]. intros E'. specialize (R4 E'). lia.
      * right. exists j, k, a, l1, l'. split; [done|]. split; [by apply lies_next|]. split; [by apply lies_next|done].
Qed.

(** ** The children of a node *)

Definition blen (g : Green) : N := N.of_nat (length (green_text g)).
Definition lens (g : Green) : list N := map blen (kids g).

Lemma total_lens gs : total (map blen gs) = N.of_nat (length (concat (map green_text gs))).
Proof. unfold total, blen. induction gs as [|g gs IH]; [done|]. cbn. rewrite length_app, IH. lia. Qed.

Lemma total_text g : green_is_node g = true -> total (lens g) = blen g.
Proof. intros Hn. unfold lens, blen. rewrite total_lens, <- kids_text by done. done. Qed.

Lemma elem_text_kids cs : elem_text cs = concat (map green_text (map snd cs)).
Proof. unfold elem_text. by rewrite map_map. Qed.

Lemma total_le ls i l : ls !! i = Some l -> total (take i ls) + l <= total ls.
Proof.
  intros H. rewrite <- (take_drop_middle _ _ _ H) at 2. rewrite total_app. unfold total at 3. cbn. fold (total (drop (S i) ls)). lia.
Qed.

(** A node whose text ends below 2^32, at the offset [base]. *)
Record node_at_offset (h : Heap) (n : ptr) (c : Info) (base : N) : Prop := {
  no_info : lk h n = Some c;
  no_node : i_token c = false;
  no_ok : green_ok (i_green c);
  no_is_node : green_is_node (i_green c) = true;
  no_base : node_abs_offset n h = Ret (base, h);
  no_small : base + blen (i_green c) < 2 ^ 32
}.

Lemma child_green g i l : green_ok g -> green_is_node g = true -> blen g < 2 ^ 32 -> lens g !! N.to_nat i = Some l -> exists k,
  green_node_child g i = Some (total (take (N.to_nat i) (lens g)), k) /\ blen k = l /\ green_text_len k = l /\ green_ok k.
Proof.
  intros Hok Hn Hlt Hl. unfold lens in Hl. rewrite <- (list_lookup_fmap blen) in Hl || idtac. change (map blen (kids g)) with (blen <$> kids g) in Hl.
  rewrite list_lookup_fmap in Hl. apply fmap_Some in Hl as (k & Hk & ->). unfold kids in Hk. change (map snd (green_children g)) with (snd <$> green_children g) in Hk.
  rewrite list_lookup_fmap in Hk. apply fmap_Some in Hk as ([o k'] & Hk & ->). cbn. exists k'. unfold green_node_child. rewrite nth_lookup, Hk.
  assert (Hnth : nth_error (green_children g) (N.to_nat i) = Some (o, k')) by (by rewrite nth_lookup).
  destruct (proj2 (green_widths_and_offsets g Hok) _ _ _ Hnth) as [-> Hk'].
  assert (Htot : total (take (N.to_nat i) (lens g)) + blen k' <= blen g).
  { rewrite <- (total_text g Hn). apply total_le. unfold lens, kids. rewrite map_map. change (map (fun x => blen x.2) (green_children g)) with ((fun x => blen x.2) <$> green_children g).
    by rewrite list_lookup_fmap, Hk. }
  assert (Hpre : N.of_nat (length (elem_text (take (N.to_nat i) (green_children g)))) = total (take (N.to_nat i) (lens g))).
  { rewrite elem_text_kids, <- total_lens. unfold lens, kids. by rewrite <- !firstn_map. }
  rewrite Hpre, u32_small by lia. split; [done|]. split; [done|]. split; [|done]. rewrite (green_ok_width _ Hk'). apply u32_small. unfold blen in *. lia.
Qed.

(** A child of it is at the offset of its place. *)
Lemma child_base h O n c base q cq j a g : inv h O -> node_at_offset h n c base -> lk h q = Some cq -> i_parent cq = Some n -> i_index cq = j ->
  green_node_child (i_green c) j = Some (a, g) -> base + a < 2 ^ 32 -> node_abs_offset q h = Ret (base + a, h).
Proof.
  intros Hi Hno Hq Hp Hj Hg Hlt. pose proof Hno as [Hn _ _ _ Hb _]. destruct (abs_offset_ok h O Hi n c Hn) as (r & rc & pi & o & Hr & Hrn & Hpi & Hat & E).
  rewrite Hb in E. injection E as <-. eapply (path_abs_offset h O Hi r rc (pi ++ [j])); [done|done|by eapply at_down_to|done|].
  rewrite green_at_snoc, Hat, Hg. by rewrite u32_small.
Qed.

Section Node.
Context (off : N).

(** What the test on a child reads. *)
Lemma child_range_ok h n c base i l : node_at_offset h n c base -> lens (i_green c) !! N.to_nat i = Some l ->
  exists cr, syntax_node_child_range n i h = Ret (cr, h) /\
    cr = mkRange (base + total (take (N.to_nat i) (lens (i_green c)))) l /\
    negb (r_length cr =? 0) && (r_start cr <=? off) && (off <=? text_range_end cr) = hits (base + total (take (N.to_nat i) (lens (i_green c)))) l off.
Proof.
  intros [Hn Ht Hok Hnode Hb Hs] Hl. destruct (child_green _ _ _ Hok Hnode ltac:(lia) Hl) as (k & Hk & Hbk & Hlk & _).
  pose proof (total_le _ _ _ Hl) as Hle. rewrite (total_text _ Hnode) in Hle. apply lk_Some in Hn as (d & Hd & ->). cbn in *.
  eexists. split; [unfold syntax_node_child_range, bind; rewrite (cell_at_ok _ _ _ Hd); cbn [obind]; rewrite Hk, Hb; cbn [obind]; unfold ret; rewrite Hlk; reflexivity|].
  rewrite u32_small by lia. split; [done|]. unfold hits, text_range_end. cbn. by rewrite u32_small by lia.
Qed.

Definition found (h' : Heap) (n : ptr) (c : Info) (j : option N) (e : SyntaxElement) : Prop :=
  match j with None => e = ELEM_NONE | Some j => e <> ELEM_NONE /\ elem_at h' n j c e end.

Lemma found_grows h h' n c j e : grows h h' -> found h n c j e -> found h' n c j e.
Proof.
  intros Hg. destruct j as [j|]; [|done]. intros [Hne He]. split; [done|]. unfold elem_at in *. destruct (green_node_child (i_green c) j) as [[o g]|]; [|done].
  destruct He as (q & E & o' & Hq). exists q. split; [done|]. exists o'. by apply Hg.
Qed.

(** The element of a child that exists. *)
Lemma elem_some h O n c i l : inv h O -> lk h n = Some c -> i_token c = false -> lens (i_green c) !! N.to_nat i = Some l -> fits 2 h O ->
  gives h O 2 (syntax_node_child_or_token n i) (fun e O' h' => O' = O ⊎ elem_ref e /\ found h' n c (Some i) e /\ grows h h').
Proof.
  intros Hi Hn Ht Hl Hf. eapply gives_mono; [by eapply child_or_token_gives|done|]. intros e O' h' _ (-> & He & Hg & _). split; [done|]. split; [|done].
  split; [|done]. unfold lens, kids in Hl. rewrite map_map in Hl. change (map (fun x => blen x.2) (green_children (i_green c))) with ((fun x => blen x.2) <$> green_children (i_green c)) in Hl.
  rewrite list_lookup_fmap in Hl. apply fmap_Some in Hl as ([o g] & Hk & _). unfold elem_at, green_node_child in He. rewrite nth_lookup, Hk in He.
  destruct He as (q & -> & _). by destruct (green_is_node g).
Qed.

(** The offset stays while the node is live. *)
Lemma base_after h O m h' O' n c base : inv h O -> after h O m h' O' -> is_Some (lk h' n) -> node_at_offset h n c base -> node_at_offset h' n c base.
Proof.
  intros Hi Ha Hlive [Hn Ht Hok Hnode Hb Hs]. pose proof (proj1 Ha) as Hi'. pose proof (after_same _ _ _ _ _ _ _ Hi Ha Hn Hlive) as Hn'.
  destruct (abs_offset_ok h O Hi n c Hn) as (r & rc & pi & o & Hr & Hrn & Hp & Hat & E). rewrite Hb in E. injection E as <-.
  pose proof (after_path _ _ _ _ _ _ _ _ Hi Ha Hp Hlive) as Hp'. pose proof (after_same _ _ _ _ _ _ _ Hi Ha Hr (at_path_top _ _ _ _ Hp')) as Hr'.
  split; try done. by eapply path_abs_offset.
Qed.

Definition from_touch (g : Green) (base i : N) : list N := touch (base + total (take (N.to_nat i) (lens g))) off i (drop (N.to_nat i) (lens g)).

Lemma from_touch_step g base i l : lens g !! N.to_nat i = Some l ->
  from_touch g base i = (if hits (base + total (take (N.to_nat i) (lens g))) l off then [i] else []) ++ from_touch g base (i + 1).
Proof.
  intros Hl. unfold from_touch. rewrite (drop_S _ _ _ Hl). cbn [touch]. replace (N.to_nat (i + 1)) with (S (N.to_nat i)) by lia.
  rewrite (take_S_r _ _ _ Hl), total_app. unfold total at 5. cbn. by rewrite N.add_0_r, N.add_assoc.
Qed.

Lemma from_touch_end g base i : (length (lens g) <= N.to_nat i)%nat -> from_touch g base i = [].
Proof. intros H. unfold from_touch. by rewrite drop_ge. Qed.

(** The loop with the left child found. *)
Lemma touching_right count h O n c base i left : inv h O -> node_at_offset h n c base -> (N.to_nat i + count = length (lens (i_green c)))%nat ->
  left <> ELEM_NONE -> fits (2 * length (take 1 (from_touch (i_green c) base i))) h O ->
  gives h O (2 * length (take 1 (from_touch (i_green c) base i))) (touching count n i off left)
    (fun lr O' h' => exists e, lr = (left, e) /\ O' = O ⊎ elem_ref e /\ found h' n c (head (from_touch (i_green c) base i)) e /\ grows h h').
Proof.
  intros Hi Hno. revert i. induction count as [|count IH]; intros i Hlen Hleft Hf; cbn [touching].
  - rewrite from_touch_end by lia. apply gives_ret; [done|]. exists ELEM_NONE. split; [done|]. split; [cbn; by rewrite right_id_L by apply _|]. split; [done|by intros x].
  - destruct (lookup_lt_is_Some_2 (lens (i_green c)) (N.to_nat i)) as [l Hl]; [lia|]. revert Hf. rewrite (from_touch_step _ _ _ _ Hl).
    destruct (child_range_ok h n c base i l Hno Hl) as (cr & E & _ & Ehit). intros Hf. eapply gives_read; [exact E|]. rewrite Ehit. revert Hf. destruct (hits _ l off); intros Hf.
    + cbn [app head take length Nat.mul] in *. eapply gives_bind with (n1 := 2%nat) (n2 := 0%nat); [eapply elem_some; [done|apply Hno|apply Hno|exact Hl|done]|done|].
      intros e O' h' A (-> & He & Hg). destruct (syntax_element_is_none left) eqn:En; [by destruct left|]. apply gives_ret; [apply A|]. by exists e.
    + apply IH; [lia|done|done].
Qed.

Lemma touching_left count h O n c base i : inv h O -> node_at_offset h n c base -> (N.to_nat i + count = length (lens (i_green c)))%nat -> fits (2 * length (take 2 (from_touch (i_green c) base i))) h O ->
  gives h O (2 * length (take 2 (from_touch (i_green c) base i))) (touching count n i off ELEM_NONE)
    (fun lr O' h' => O' = O ⊎ elem_ref lr.1 ⊎ elem_ref lr.2 /\ found h' n c (head (from_touch (i_green c) base i)) lr.1 /\
       found h' n c (from_touch (i_green c) base i !! 1%nat) lr.2 /\ grows h h').
Proof.
  intros Hi Hno. revert i. induction count as [|count IH]; intros i Hlen Hf; cbn [touching].
  - rewrite from_touch_end by lia. apply gives_ret; [done|]. split; [cbn; by rewrite !right_id_L by apply _|]. split; [done|]. split; [done|by intros x].
  - destruct (lookup_lt_is_Some_2 (lens (i_green c)) (N.to_nat i)) as [l Hl]; [lia|]. revert Hf. rewrite (from_touch_step _ _ _ _ Hl).
    destruct (child_range_ok h n c base i l Hno Hl) as (cr & E & _ & Ehit). intros Hf. eapply gives_read; [exact E|]. rewrite Ehit. revert Hf. destruct (hits _ l off); intros Hf.
    + cbn [app head] in *. eapply gives_bind with (n1 := 2%nat) (n2 := (2 * length (take 1 (from_touch (i_green c) base (i + 1))))%nat);
        [eapply elem_some; [done|apply Hno|apply Hno|exact Hl|eapply fits_le; [|exact Hf]; cbn; lia]|cbn; destruct (from_touch (i_green c) base (i + 1)); cbn; lia|].
      intros e O' h' A (-> & [Hne He] & Hg). cbn [syntax_element_is_none].
      eapply gives_mono; [apply (touching_right count h' _ n c base (i + 1) e (proj1 A))|done|].
      * eapply base_after; [exact Hi|exact A|rewrite (Hg _ _ (no_info _ _ _ _ Hno)); done|exact Hno].
      * lia.
      * done.
      * eapply after_fits; [exact A|]. eapply fits_le; [|exact Hf]. cbn. destruct (from_touch (i_green c) base (i + 1)); cbn; lia.
      * intros lr O2 h2 A2 (e2 & -> & -> & He2 & Hg2). cbn [fst snd]. split; [done|]. split; [|split].
        -- eapply (found_grows h' h2 n c (Some i)); [done|by split].
        -- cbn. by destruct (from_touch (i_green c) base (i + 1)).
        -- intros x d Hx. by apply Hg2, Hg.
    + apply IH; [lia|done].
Qed.

(** ** The answer *)

(** [t] is a token with text [tx] under [n], after [pre] and before [post]. *)
Definition token_here (h' : Heap) (n : ptr) (c : Info) (pre : list byte) (t : ptr) (tx post : list byte) : Prop :=
  exists p tc k, at_path (lk h') n p t /\ lk h' t = Some tc /\ i_green tc = GreenToken k tx /\ tx <> [] /\ green_text (i_green c) = pre ++ tx ++ post.

Definition size_of (t : list byte) : N := N.of_nat (length t).

(** The answer for the text [g] that stands between [A] and [B] in the text of [n]. *)
Definition answers (h' : Heap) (n : ptr) (c : Info) (A : list byte) (g : list byte) (B : list byte) (x : N) (r : TokenAtOffset) : Prop :=
  match r with
  | AT_NONE => g = []
  | AT_SINGLE t => exists pre tx post, g = pre ++ tx ++ post /\ token_here h' n c (A ++ pre) t tx (post ++ B) /\
      size_of pre <= x <= size_of pre + size_of tx /\ (size_of pre = x -> pre = []) /\ (size_of pre + size_of tx = x -> post = [])
  | AT_BETWEEN l r => exists pre tl tr post, g = pre ++ tl ++ tr ++ post /\ token_here h' n c (A ++ pre) l tl (tr ++ post ++ B) /\
      token_here h' n c (A ++ pre ++ tl) r tr (post ++ B) /\ size_of pre + size_of tl = x
  end.

Definition at_refs (r : TokenAtOffset) : gmultiset ptr :=
  match r with AT_NONE => ∅ | AT_SINGLE t => {[+ t +]} | AT_BETWEEN l r => {[+ l +]} ⊎ {[+ r +]} end.

Definition cost (ht : nat) (x len : N) : nat := if (0 <? x) && (x <? len) then 4 * ht else 2 * ht.

Definition recurses (m : ptr -> M TokenAtOffset) (H : nat) : Prop := forall h O n c base, inv h O -> n ∈ O -> node_at_offset h n c base ->
  (green_height (i_green c) < H)%nat -> base <= off -> off <= base + blen (i_green c) ->
  fits (cost (green_height (i_green c)) (off - base) (blen (i_green c))) h O ->
  gives h O (cost (green_height (i_green c)) (off - base) (blen (i_green c))) (m n)
    (fun r O' h' => O' = O ⊎ at_refs r /\ answers h' n c [] (green_text (i_green c)) [] (off - base) r).

Definition of_elem (m : ptr -> M TokenAtOffset) (e : SyntaxElement) : M TokenAtOffset :=
  match e with
  | ELEM_TOKEN t => ret (AT_SINGLE t)
  | ELEM_NODE n => (let* r := m n in syntax_node_release n ;;; ret r)%red
  | ELEM_NONE => lift (AssertFailed "dangling pointer")
  end.

(** A token stays where it is while it is live. *)
Lemma token_here_after h O m h' O' n c pre t tx post : inv h O -> after h O m h' O' -> t ∈ O' -> token_here h n c pre t tx post -> token_here h' n c pre t tx post.
Proof.
  intros Hi Ha Hin (p & tc & k & Hp & Ht & R). pose proof (after_owned _ _ _ _ _ _ _ Hi Ha Ht Hin) as Ht'. exists p, tc, k.
  split; [|by split]. eapply after_path; [exact Hi|exact Ha|exact Hp|by rewrite Ht'].
Qed.

Lemma answers_after h O m h' O' n c A g B x r : inv h O -> after h O m h' O' -> (forall t, t ∈ at_refs r -> t ∈ O') ->
  answers h n c A g B x r -> answers h' n c A g B x r.
Proof.
  intros Hi Ha Hin. destruct r as [|t|l r]; cbn [answers at_refs] in *; [done| |].
  - intros (pre & tx & post & E & Ht & R). exists pre, tx, post. split; [done|]. split; [|done]. eapply token_here_after; [exact Hi|exact Ha| |exact Ht].
    apply Hin. by apply gmultiset_elem_of_singleton.
  - intros (pre & tl & tr & post & E & Hl & Hr & R). exists pre, tl, tr, post. split; [done|].
    split; [|split; [|done]]; (eapply token_here_after; [exact Hi|exact Ha| |eassumption]); apply Hin.
    + apply in_refs_l. by apply gmultiset_elem_of_singleton.
    + apply in_refs_r. by apply gmultiset_elem_of_singleton.
Qed.

(** The answer under a child is one under its parent. *)
Lemma answers_up h n c j q cq A B x r : at_path (lk h) n [j] q -> green_text (i_green c) = A ++ green_text (i_green cq) ++ B ->
  answers h q cq [] (green_text (i_green cq)) [] x r -> answers h n c A (green_text (i_green cq)) B x r.
Proof.
  intros Hq Et. assert (Hup : forall pre t tx post, token_here h q cq pre t tx post -> token_here h n c (A ++ pre) t tx (post ++ B)).
  { intros pre t tx post (p & tc & k & Hp & Ht & Hg & Hne & E). exists ([j] ++ p), tc, k. split; [by eapply at_path_trans|].
    split; [done|]. split; [done|]. split; [done|]. rewrite Et, E, <- !app_assoc. done. }
  destruct r as [|t|l r]; cbn [answers]; [done| |].
  - intros (pre & tx & post & E & Ht & R). exists pre, tx, post. split; [done|]. rewrite app_nil_r in Ht. split; [by apply (Hup _ _ _ _ Ht)|done].
  - intros (pre & tl & tr & post & E & Hl & Hr & R). exists pre, tl, tr, post. split; [done|]. rewrite app_nil_r in Hl, Hr. cbn [app] in Hl, Hr.
    split; [|split; [by apply (Hup _ _ _ _ Hr)|done]]. pose proof (Hup _ _ _ _ Hl) as Hl'. by rewrite <- app_assoc in Hl'.
Qed.

Lemma size_app x y : size_of (x ++ y) = size_of x + size_of y.
Proof. unfold size_of. rewrite length_app. lia. Qed.

Lemma size_nil x : size_of x = 0 -> x = [].
Proof. destruct x; [done|]. unfold size_of. cbn. lia. Qed.

(** The answer for one child that touches the offset. *)
Lemma of_elem_gives m H h O n c base j l a e : recurses m H -> inv h (O ⊎ elem_ref e) -> n ∈ O -> node_at_offset h n c base ->
  found h n c (Some j) e -> lens (i_green c) !! N.to_nat j = Some l -> (green_height (i_green c) <= H)%nat -> 0 < l ->
  a = base + total (take (N.to_nat j) (lens (i_green c))) -> a <= off -> off <= a + l ->
  fits (cost (pred (green_height (i_green c))) (off - a) l) h (O ⊎ elem_ref e) ->
  gives h (O ⊎ elem_ref e) (cost (pred (green_height (i_green c))) (off - a) l) (of_elem m e)
    (fun r O' h' => O' = O ⊎ at_refs r /\ exists A g B, green_text (i_green c) = A ++ g ++ B /\ size_of A = a - base /\ size_of g = l /\ answers h' n c A g B (off - a) r).
Proof.
  intros Hm Hi HnO Hno [Hne He] Hl HH Hl0 Ha Ha1 Ha2 Hf. pose proof Hno as [Hn Ht Hok Hnode Hb Hs].
  destruct (child_green _ _ _ Hok Hnode ltac:(lia) Hl) as (k & Hk & Hbk & Hlk & Hokk).
  pose proof (green_height_child _ _ _ _ Hk) as Hht. unfold elem_at in He. rewrite Hk in He. destruct He as (q & -> & o' & Hq).
  assert (Htext : green_text (i_green c) = elem_text (take (N.to_nat j) (green_children (i_green c))) ++ green_text k ++ elem_text (drop (S (N.to_nat j)) (green_children (i_green c)))).
  { destruct (i_green c) as [kd w cs|]; [|done]. rewrite green_text_node. by eapply elem_split. }
  assert (HA : size_of (elem_text (take (N.to_nat j) (green_children (i_green c)))) = a - base).
  { rewrite Ha. unfold size_of. rewrite elem_text_kids, <- total_lens. unfold lens, kids. rewrite <- !firstn_map. lia. }
  assert (Hle : a + l <= base + blen (i_green c)).
  { rewrite Ha. pose proof (total_le _ _ _ Hl) as Hle. rewrite (total_text _ Hnode) in Hle. lia. }
  set (A := elem_text (take _ _)) in *. set (B := elem_text (drop _ _)) in *. destruct (green_is_node k) eqn:En; cbn [elem_ref of_elem] in *.
  - set (cq := mkInfo (Some n) j (negb true) (i_mutable c) k o') in *.
    assert (Hnoq : node_at_offset h q cq a).
    { split; [exact Hq|done|done|done| |cbn; lia]. rewrite Ha. eapply (child_base h _ n c base q cq j); [exact Hi|exact Hno|exact Hq|done|done|exact Hk|]. lia. }
    assert (Hmono : (cost (green_height k) (off - a) l <= cost (pred (green_height (i_green c))) (off - a) l)%nat).
    { unfold cost. destruct ((0 <? off - a) && (off - a <? l)); lia. }
    eapply gives_bind with (n1 := cost (green_height k) (off - a) l) (n2 := 0%nat); [|lia|].
    + pose proof (Hm h _ q cq a Hi (in_refs_r _ _ _ (proj2 (gmultiset_elem_of_singleton q q) eq_refl)) Hnoq) as Hg. cbn [i_green cq] in Hg. rewrite Hbk in Hg.
      apply Hg; [lia|done|done|]. by eapply fits_le.
    + intros r O1 h1 A1 (-> & Hans). rewrite swap_refs in A1 |- *. eapply gives_bind with (n1 := 0%nat) (n2 := 0%nat); [apply release_gives, A1|done|].
      intros _ O2 h2 A2 ->. apply gives_ret; [apply A2|]. split; [done|]. exists A, (green_text k), B. split; [done|]. split; [done|]. split; [exact Hbk|].
      assert (Hq1 : lk h1 q = Some cq) by (eapply after_owned; [exact Hi|exact A1|exact Hq|]; apply in_refs_r; by apply gmultiset_elem_of_singleton).
      eapply (answers_after h1); [apply A1|exact A2|by intros t Htr; apply in_refs_r|].
      eapply (answers_up h1 n c j q cq); [by eapply child_path; [apply A1|exact Hq1|..]|exact Htext|exact Hans].
  - apply gives_ret; [done|]. split; [done|]. exists A, (green_text k), B. split; [done|]. split; [done|]. split; [exact Hbk|].
    destruct k as [|kd tx]; [done|]. assert (Etx : green_text (GreenToken kd tx) = tx) by (unfold green_text; cbn; by rewrite app_nil_r). rewrite Etx in *.
    assert (Hsz : size_of tx = l) by (unfold blen in Hbk; rewrite Etx in Hbk; exact Hbk).
    exists [], tx, []. rewrite !app_nil_r. split; [done|]. split; [|split; [change (size_of []) with 0; rewrite Hsz; lia|by split]].
    eexists [j], _, kd. split; [by eapply child_path; [exact Hi|exact Hq|..]|]. split; [exact Hq|]. split; [done|]. split; [|exact Htext].
    intros ->. change (size_of []) with 0 in Hsz. lia.
Qed.

(** One child answers for the node. *)
Lemma answers_widen h n c a base l A g B r : green_text (i_green c) = A ++ g ++ B -> size_of A = a - base -> size_of g = l -> 0 < l -> base <= a -> a <= off ->
  (a = off -> off = base) -> (a + l = off -> off = base + size_of (green_text (i_green c))) ->
  answers h n c A g B (off - a) r -> answers h n c [] (green_text (i_green c)) [] (off - base) r.
Proof.
  intros Et HA Hg Hl Hba Hao Hleft Hright. destruct r as [|t|lt rt]; cbn [answers].
  - intros ->. change (size_of []) with 0 in Hg. lia.
  - intros (pre & tx & post & E & Ht & Hin & Hl0 & Hr0). exists (A ++ pre), tx, (post ++ B). rewrite app_nil_r. split; [by rewrite Et, E, <- !app_assoc|].
    split; [done|]. rewrite size_app, HA. pose proof (f_equal size_of E) as Es. rewrite !size_app, Hg in Es. pose proof (f_equal size_of Et) as Ess.
    rewrite !size_app, HA, Hg in Ess. split; [lia|]. split.
    + intros Ho. assert (pre = []) as -> by (apply Hl0; lia). change (size_of []) with 0 in *. rewrite app_nil_r. apply size_nil. lia.
    + intros Ho. assert (post = []) as -> by (apply Hr0; lia). change (size_of []) with 0 in *. cbn. apply size_nil. lia.
  - intros (pre & tl & tr & post & E & Hlt & Hrt & Hsz). exists (A ++ pre), tl, tr, (post ++ B). rewrite app_nil_r. split; [by rewrite Et, E, <- !app_assoc|].
    split; [done|]. split; [by rewrite <- app_assoc|]. rewrite size_app, HA. lia.
Qed.

(** At the right end, the last token; at the left end, the first. *)
Lemma answers_end h n c A g B r : 0 < size_of g -> answers h n c A g B (size_of g) r ->
  exists t pre tx, r = AT_SINGLE t /\ g = pre ++ tx /\ token_here h n c (A ++ pre) t tx B.
Proof.
  intros Hg. destruct r as [|t|lt rt]; cbn [answers].
  - intros ->. by change (size_of []) with 0 in Hg.
  - intros (pre & tx & post & E & Ht & Hin & _ & Hr0). pose proof (f_equal size_of E) as Es. rewrite !size_app in Es.
    assert (post = []) as -> by (apply size_nil; lia). rewrite app_nil_r in E. by exists t, pre, tx.
  - intros (pre & tl & tr & post & E & _ & (_ & _ & _ & _ & _ & _ & Hne & _) & Hsz). pose proof (f_equal size_of E) as Es. rewrite !size_app in Es.
    destruct Hne. apply size_nil. lia.
Qed.

Lemma answers_begin h n c A g B r : 0 < size_of g -> answers h n c A g B 0 r ->
  exists t tx post, r = AT_SINGLE t /\ g = tx ++ post /\ token_here h n c A t tx (post ++ B).
Proof.
  intros Hg. destruct r as [|t|lt rt]; cbn [answers].
  - intros ->. by change (size_of []) with 0 in Hg.
  - intros (pre & tx & post & E & Ht & Hin & _ & _). assert (pre = []) as -> by (apply size_nil; lia). rewrite app_nil_r in Ht. by exists t, tx, post.
  - intros (pre & tl & tr & post & E & (_ & _ & _ & _ & _ & _ & Hne & _) & _ & Hsz). destruct Hne. apply size_nil. lia.
Qed.

Lemma found_after h O m h' O' n c j e : inv h O -> after h O m h' O' -> (forall t, t ∈ elem_ref e -> t ∈ O') -> found h n c (Some j) e -> found h' n c (Some j) e.
Proof.
  intros Hi Ha Hin [Hne He]. split; [done|]. unfold elem_at in *. destruct (green_node_child (i_green c) j) as [[o g]|]; [|done].
  destruct He as (q & -> & o' & Hq). exists q. split; [done|]. exists o'. eapply after_owned; [exact Hi|exact Ha|exact Hq|]. apply Hin.
  destruct (green_is_node g); by apply gmultiset_elem_of_singleton.
Qed.

Lemma lies_lens g base j a l : lies base 0 (lens g) j a l -> lens g !! N.to_nat j = Some l /\ a = base + total (take (N.to_nat j) (lens g)).
Proof. intros (_ & H1 & H2). rewrite N.sub_0_r in H1, H2. by split. Qed.

Lemma height_pos g j l : lens g !! j = Some l -> (0 < green_height g)%nat.
Proof. intros H. destruct g as [k w [|x cs]|k t]; [done| |done]. cbn. lia. Qed.

(** Two children that meet at the offset. *)
Lemma meeting_gives m H h O n c base j k a l l' e1 e2 : recurses m H -> inv h (O ⊎ elem_ref e1 ⊎ elem_ref e2) -> n ∈ O -> node_at_offset h n c base ->
  (green_height (i_green c) <= H)%nat ->
  found h n c (Some j) e1 -> found h n c (Some k) e2 -> lies base 0 (lens (i_green c)) j a l -> lies base 0 (lens (i_green c)) k off l' ->
  0 < l -> 0 < l' -> a + l = off -> fits (4 * pred (green_height (i_green c))) h (O ⊎ elem_ref e1 ⊎ elem_ref e2) ->
  gives h (O ⊎ elem_ref e1 ⊎ elem_ref e2) (4 * pred (green_height (i_green c)))
    (let* left_r := of_elem m e1 in
     let* right_r := of_elem m e2 in
     match left_r, right_r with
     | AT_SINGLE l, AT_SINGLE r => ret (AT_BETWEEN l r)
     | _, _ => at_release left_r ;;; at_release right_r ;;; ret AT_NONE
     end)%red
    (fun r O' h' => O' = O ⊎ at_refs r /\ answers h' n c [] (green_text (i_green c)) [] (off - base) r).
Proof.
  intros Hm Hi HnO Hno HH Hf1 Hf2 (Hj & Ha)%lies_lens (Hk & Hoff)%lies_lens Hl Hl' Hmeet Hf. set (ht := pred (green_height (i_green c))) in *.
  assert (Hc1 : cost ht (off - a) l = (2 * ht)%nat) by (unfold cost; replace (off - a <? l) with false by (symmetry; apply N.ltb_ge; lia); by rewrite andb_false_r).
  assert (Hc2 : cost ht (off - off) l' = (2 * ht)%nat) by (unfold cost; by rewrite N.sub_diag).
  rewrite swap_refs in Hi, Hf |- *. assert (HnO1 : forall X, n ∈ O ⊎ X) by (intros X; by apply in_refs_l).
  eapply gives_bind with (n1 := (2 * ht)%nat) (n2 := (2 * ht)%nat); [|lia|].
  { rewrite <- Hc1. eapply (of_elem_gives m H h _ n c base j l a e1 Hm Hi (HnO1 _) Hno Hf1 Hj HH Hl Ha); [lia|lia|]. fold ht. rewrite Hc1. eapply fits_le; [|exact Hf]. lia. }
  intros r1 O1 h1 A1 (-> & A & g & B & Et & HA & Hg & Hans).
  assert (Hno1 : node_at_offset h1 n c base).
  { eapply base_after; [exact Hi|exact A1| |exact Hno]. rewrite (after_owned _ _ _ _ _ n c Hi A1); [done|apply Hno|]. apply in_refs_l, HnO1. }
  replace (off - a) with (size_of g) in Hans by (rewrite Hg; lia).
  apply answers_end in Hans as (t1 & pre & tx & -> & -> & Ht1); [|lia]. cbn [at_refs] in *.
  assert (Hf2' : found h1 n c (Some k) e2) by (eapply found_after; [exact Hi|exact A1| |exact Hf2]; intros t Hin; by apply in_refs_l, in_refs_r).
  rewrite (swap_refs O (elem_ref e2) {[+ t1 +]}) in A1 |- *. eapply gives_bind with (n1 := (2 * ht)%nat) (n2 := 0%nat); [|lia|].
  { rewrite <- Hc2. eapply (of_elem_gives m H h1 _ n c base k l' off e2 Hm (proj1 A1) (HnO1 _) Hno1 Hf2' Hk HH Hl' Hoff); [lia|lia|]. fold ht. rewrite Hc2.
    eapply after_fits; [exact A1|]. eapply fits_le; [|exact Hf]. lia. }
  intros r2 O2 h2 A2 (-> & A' & g' & B' & Et' & HA' & Hg' & Hans').
  rewrite N.sub_diag in Hans'. apply answers_begin in Hans' as (t2 & tx' & post & -> & -> & Ht2); [|lia]. cbn [at_refs].
  apply gives_ret; [apply A2|]. split; [symmetry; apply (assoc_L (⊎))|]. cbn [answers].
  assert (Ht1' : token_here h2 n c (A ++ pre) t1 tx B).
  { eapply token_here_after; [apply A1|exact A2| |exact Ht1]. apply in_refs_l, in_refs_r. by apply gmultiset_elem_of_singleton. }
  rewrite Et in Et'. rewrite size_app in Hg. rewrite (app_assoc A) in Et'. apply app_inj_1 in Et' as [<- ->];
    [|apply Nat2N.inj; fold (size_of (A ++ pre ++ tx)); fold (size_of A'); rewrite !size_app; lia].
  rewrite <- app_assoc in Ht1'. exists (A ++ pre), tx, tx', (post ++ B'). rewrite !app_nil_r. cbn [app]. split; [by rewrite Et, <- !app_assoc|].
  split; [done|]. split; [by rewrite <- (app_assoc A)|]. rewrite size_app. lia.
Qed.

Lemma recurse_gives fuel : recurses (fun n => token_at_offset_recurse fuel n off) fuel.
Proof.
  induction fuel as [|fuel IH]; intros h O n c base Hi HnO Hno HH H1 H2 Hf; [lia|]. pose proof Hno as [Hn Ht Hok Hnode Hb Hs].
  assert (Hw : green_text_len (i_green c) = blen (i_green c)).
  { pose proof (green_ok_width _ Hok) as ->. unfold blen in *. apply u32_small. lia. }
  change (token_at_offset_recurse (S fuel) n off) with (let* cn := cell_at n in
    if green_text_len (green cn) =? 0 then ret AT_NONE
    else let* (left_e, right_e) := touching (N.to_nat (green_node_num_children (green cn))) n 0 off ELEM_NONE in
      if syntax_element_is_none left_e then ret AT_NONE
      else if syntax_element_is_none right_e then of_elem (fun n => token_at_offset_recurse fuel n off) left_e
      else let* left_r := of_elem (fun n => token_at_offset_recurse fuel n off) left_e in
           let* right_r := of_elem (fun n => token_at_offset_recurse fuel n off) right_e in
           match left_r, right_r with
           | AT_SINGLE l, AT_SINGLE r => ret (AT_BETWEEN l r)
           | _, _ => at_release left_r ;;; at_release right_r ;;; ret AT_NONE
           end)%red.
  pose proof Hn as (d & Hd & ->)%lk_Some. eapply gives_read; [by apply cell_at_ok|]. cbn [i_green info i_token] in *.
  set (g := green d) in *. set (c := info d) in *. rewrite Hw. destruct (N.eqb_spec (blen g) 0) as [Hz|Hz].
  { apply gives_ret; [done|]. split; [by rewrite right_id_L by apply _|]. cbn. by apply size_nil. }
  assert (Htot : total (lens g) = blen g) by (by apply total_text).
  assert (Hcount : N.to_nat (green_node_num_children g) = length (lens g)).
  { unfold lens, kids. rewrite !length_map. unfold green_node_num_children. lia. }
  assert (Hft : from_touch g base 0 = touch base off 0 (lens g)).
  { unfold from_touch. change (N.to_nat 0) with 0%nat. rewrite take_0, drop_0. unfold total. cbn. by rewrite N.add_0_r. }
  assert (Hgives : fits (2 * length (take 2 (from_touch g base 0))) h O -> _) by
    exact (touching_left (N.to_nat (green_node_num_children g)) h O n c base 0 Hi Hno (eq_trans (f_equal (Nat.add 0) Hcount) eq_refl)).
  change (i_green c) with g in Hgives. rewrite Hft in Hgives.
  destruct (touch_cases base off 0 (lens g)) as [(j & a & l & E & Hlies & Hl & [Ha1 Ha2] & Hel & Her)|(j & k & a & l & l' & E & Hj & Hk & Hjk & Hl & Hl' & Hmeet)]; [lia..| |];
    rewrite E in Hgives; cbn [take length head lookup list_lookup Nat.mul Nat.add] in Hgives.
  - pose proof (lies_lens _ _ _ _ _ Hlies) as [Hlj Ha]. pose proof (height_pos _ _ _ Hlj) as Hpos.
    assert (Hcost : (2 + cost (pred (green_height g)) (off - a) l <= cost (green_height g) (off - base) (blen g))%nat).
    { pose proof (total_le _ _ _ Hlj) as Hle. rewrite Htot in Hle. unfold cost. destruct (N.ltb_spec 0 (off - a)), (N.ltb_spec (off - a) l); cbn.
      1: rewrite (proj2 (N.ltb_lt 0 (off - base))), (proj2 (N.ltb_lt (off - base) (blen g))) by lia; cbn; lia.
      all: destruct ((0 <? off - base) && (off - base <? blen g)); lia. }
    eapply gives_bind; [apply Hgives; eapply fits_le; [|exact Hf]; lia|exact Hcost|].
    intros [e1 e2] O1 h1 A1 (-> & Hf1 & Hf2 & Hg). cbn [fst snd] in *. cbn [found] in Hf2. subst e2. cbn [syntax_element_is_none elem_ref] in *.
    rewrite right_id_L in A1 |- * by apply _. destruct (syntax_element_is_none e1) eqn:En; [by destruct Hf1 as [? _]; destruct e1|].
    assert (Hno1 : node_at_offset h1 n c base) by (eapply base_after; [exact Hi|exact A1|by rewrite (Hg _ _ Hn)|exact Hno]).
    eapply gives_mono; [eapply (of_elem_gives _ fuel h1 O n c base j l a e1 IH (proj1 A1) HnO Hno1 Hf1 Hlj); [change (i_green c) with g; lia|done|exact Ha|done|done|]|done|].
    + eapply after_fits; [exact A1|]. eapply fits_le; [|exact Hf]. exact Hcost.
    + intros r O2 h2 A2 (-> & A & gt & B & Et & HA & Hgt & Hans). split; [done|]. change (i_green c) with g in Et.
      eapply (answers_widen h2 n c a base l A gt B r Et HA Hgt Hl); [lia|done|done| |exact Hans].
      intros Ho. change (size_of _) with (blen g). rewrite <- Htot. by apply Her.
  - pose proof (lies_lens _ _ _ _ _ Hj) as [Hlj Ha]. pose proof (lies_lens _ _ _ _ _ Hk) as [Hlk Hoff]. pose proof (height_pos _ _ _ Hlj) as Hpos.
    assert (Hcost : cost (green_height g) (off - base) (blen g) = (4 * green_height g)%nat).
    { pose proof (total_le _ _ _ Hlk) as Hle. rewrite Htot in Hle. unfold cost. rewrite (proj2 (N.ltb_lt 0 (off - base))), (proj2 (N.ltb_lt (off - base) (blen g))) by lia. done. }
    rewrite Hcost in *. eapply gives_bind with (n2 := (4 * pred (green_height g))%nat); [apply Hgives; eapply fits_le; [|exact Hf]; lia|lia|].
    intros [e1 e2] O1 h1 A1 (-> & Hf1 & Hf2 & Hg). cbn [fst snd] in *.
    destruct (syntax_element_is_none e1) eqn:En1; [by destruct Hf1 as [? _]; destruct e1|]. destruct (syntax_element_is_none e2) eqn:En2; [by destruct Hf2 as [? _]; destruct e2|].
    assert (Hno1 : node_at_offset h1 n c base) by (eapply base_after; [exact Hi|exact A1|by rewrite (Hg _ _ Hn)|exact Hno]).
    eapply (meeting_gives _ fuel h1 O n c base j k a l l' e1 e2 IH (proj1 A1) HnO Hno1); try done; [change (i_green c) with g; lia|].
    eapply after_fits; [exact A1|]. eapply fits_le; [|exact Hf]. change (i_green c) with g. lia.
Qed.

End Node.

End RedOffset.
