(* ===== verification/RedTheorems.v ===== *)
(** * What the red tree promises *)

From stdpp Require Import gmap gmultiset sorting.
From S2P Require Import Prelude SyntaxKind Green GreenFacts Sll Red RedNav RedEdit RedPtr RedIter SllFacts RedInv RedCalls RedTokens RedSpine RedSplice RedSession.

(** ** Where the red tree does not do what it says *)

Import SyntaxKind Green GreenFacts Sll Red RedTree RedNav RedEdit RedPtr RedIter.

Module RedQuirks.

#[local] Open Scope N_scope.
#[local] Open Scope red_scope.

Definition run {A} (m : M A) : outcome A := let! (a, _) := m empty_heap in Ret a.

Definition tok (k : OreSyntaxKind) (t : string) : N * Green := (0, GreenToken k (bs t)).
Definition nod (k : OreSyntaxKind) (cs : list (N * Green)) : N * Green := (0, green_node_alloc k cs).

(** [ab+1;] *)
Definition sum_tree : Green := (nod SK_SOURCE_FILE [nod SK_BIN_EXPR [tok SK_IDENT "ab"; tok SK_PLUS "+"; tok SK_INT_LIT "1"]; tok SK_SEMI ";"]).2.

(** A token, an empty node, a token. *)
Definition gap_tree : Green := (nod SK_SOURCE_FILE [tok SK_IDENT "a"; nod SK_ERROR_NODE []; tok SK_IDENT "b"]).2.

(** A node with a single child of its own kind. *)
Definition nest_tree : Green :=
  (nod SK_SOURCE_FILE [nod SK_ERROR_NODE [nod SK_ERROR_NODE [tok SK_IDENT "a"]]; tok SK_SEMI ";"]).2.

Definition the {A} (o : option A) : M A := match o with Some a => ret a | None => lift (AssertFailed "none") end.
Definition the_token (e : SyntaxElement) : M ptr := match e with ELEM_TOKEN t => ret t | _ => lift (AssertFailed "none") end.
Definition the_node (e : SyntaxElement) : M ptr := match e with ELEM_NODE n => ret n | _ => lift (AssertFailed "none") end.

Definition param_tree : Green := (nod SK_SOURCE_FILE [nod SK_PARAM [nod SK_REF_EXPR [tok SK_IDENT "a"]]; tok SK_SEMI ";"]).2.

(** The kinds of the events of a walk. *)
Inductive Seen : Set := Enter (k : OreSyntaxKind) | Leave (k : OreSyntaxKind).

Definition elem_kind (e : SyntaxElement) : M OreSyntaxKind :=
  match e with ELEM_NODE n => syntax_node_kind n | ELEM_TOKEN t => syntax_token_kind t | ELEM_NONE => ret SK_NONE end.

Fixpoint walk (fuel : nat) (it : SyntaxPreorder) : M (list Seen) :=
  match fuel with
  | O => fun _ => OutOfFuel
  | S fuel =>
      let* (ev, it) := syntax_preorder_next it in
      match ev with
      | EVENT_NONE => ret []
      | WALK_ENTER e => let* k := elem_kind e in let* l := walk fuel it in ret (Enter k :: l)
      | WALK_LEAVE e => let* k := elem_kind e in let* l := walk fuel it in ret (Leave k :: l)
      end
  end.

(** The token of a mutable tree replaced, and its slot asked for again. *)
Definition replace_then_ask : M SyntaxElement :=
  let* root := syntax_tree_root (syntax_tree_new_mut sum_tree) in
  let* e := syntax_node_child_or_token root 0 in
  let* n := the_node e in
  let* e := syntax_node_child_or_token n 2 in
  let* t := the_token e in
  let* _ := syntax_token_replace_with t (GreenToken SK_INT_LIT (bs "2")) in
  syntax_node_child_or_token n 2.

(** The token after the first one. *)
Definition second_token (g : Green) : M (option ptr) :=
  let* root := syntax_tree_root (syntax_tree_new g) in
  let* t := syntax_node_first_token root in
  let* t := the t in
  syntax_token_next_token t.

(** The text of the token that stands last. *)
Definition last_text (g : Green) : M (list byte) :=
  let* root := syntax_tree_root (syntax_tree_new g) in
  let* t := syntax_node_last_token root in
  let* t := the t in
  syntax_token_text t.

(** A pointer to the first child of the first child, resolved in its own tree. *)
Definition resolve_inner (g : Green) : M (option ptr) :=
  let* root := syntax_tree_root (syntax_tree_new g) in
  let* n := syntax_node_child root 0 in
  let* n := the n in
  let* i := syntax_node_child n 0 in
  let* i := the i in
  let* p := syntax_node_ptr_new i in
  syntax_node_ptr_resolve p root.

Definition walk_first (g : Green) : M (list Seen) :=
  let* root := syntax_tree_root (syntax_tree_new g) in
  let* n := syntax_node_child root 0 in
  let* n := the n in
  let* it := syntax_preorder_init n in
  walk 20 it.

Definition detached_sibling : M SyntaxElement :=
  let* root := syntax_tree_root (syntax_tree_new_mut sum_tree) in
  let* t := syntax_node_last_token root in
  let* t := the t in
  syntax_token_detach t ;;;
  syntax_token_next_sibling_or_token t.

(** C37: The red tree's surprises, on trees of three or four tokens.  After
    [syntax_token_replace_with] on a mutable tree, asking for the slot of the token again
    trips an assertion while the old handle lives; [syntax_token_next_token] answers that
    nothing follows when the next sibling is an empty node, although a token stands after it;
    [syntax_node_ptr_resolve] does not find a node that is the only child of its parent; a
    preorder walk ends, without leaving its root, at a descendant of the root's kind and
    range; and the next sibling of a detached token is read through a null parent. *)
Theorem red_tree_surprises :
  run replace_then_ask = AssertFailed "SLL slot's green pointer mismatch" /\
  (run (second_token gap_tree) = Ret None /\ run (last_text gap_tree) = Ret (bs "b")) /\
  run (resolve_inner param_tree) = Ret None /\
  run (walk_first nest_tree) = Ret [Enter SK_ERROR_NODE; Enter SK_ERROR_NODE; Enter SK_IDENT; Leave SK_IDENT; Leave SK_ERROR_NODE] /\
  run detached_sibling = AssertFailed "t->parent".
Proof. vm_compute. repeat split. Qed.

End RedQuirks.

Import SyntaxKind Green GreenFacts Sll SllFacts Red RedTree RedNav RedEdit RedInv RedOps RedPath RedCalls RedTokens RedOrder RedSpine RedSplice RedSession RedReplace RedQuirks RedOffset.

Module RedTheorems.

#[local] Open Scope N_scope.

(** ** A sample session: the root of a mutable tree, its first child, that child's first token *)

Definition sample_calls : list Call := [CallRoot (mkTree sum_tree true); CallChild 1 0; CallFirstToken 2].

Fixpoint heap_after (cs : list Call) (h : Heap) : Heap :=
  match cs with
  | [] => h
  | c :: cs => match perform c h with Ret (_, h) => heap_after cs h | _ => h end
  end.

Definition h1 : Heap := heap_after (take 1 sample_calls) empty_heap.
Definition h2 : Heap := heap_after (take 2 sample_calls) empty_heap.
Definition h3 : Heap := heap_after sample_calls empty_heap.

Lemma roomy_small h O c : bool_decide (map_Forall (fun _ d => (green_height (green d) <= 100)%nat) (cells h)) = true ->
  (size (cells h) <= 100)%nat -> (size O <= 100)%nat ->
  match c with CallSplice _ from to _ => to - from < 100 | _ => True end -> roomy h O c.
Proof.
  intros Hh%bool_decide_eq_true_1 H1 H2 Hc. split; [unfold fits; lia|]. split; [|unfold fits; destruct c; try done; lia].
  intros p i (d & Hd & ->)%lk_Some. specialize (Hh p d Hd). cbn in *. unfold fits. lia.
Qed.

Lemma few_small h c : bool_decide (map_Forall (fun _ d => (length (kids (green d)) <= 100)%nat) (cells h)) = true -> few_siblings h c.
Proof. intros Hh%bool_decide_eq_true_1 par pc _ (d & Hd & ->)%lk_Some. specialize (Hh par d Hd). cbn in *. unfold few. cbn. lia. Qed.

Ltac small_room := apply roomy_small; [vm_compute; reflexivity|vm_compute; lia|rewrite ?gmultiset_size_disj_union, ?gmultiset_size_singleton, ?gmultiset_size_empty; lia|done].

Lemma session_1 : session h1 {[+ 1 +]}.
Proof.
  assert (E : {[+ 1 +]} = ∅ ∖ ∅ ⊎ elem_ref (ELEM_NODE 1)) by multiset_solver. rewrite E.
  apply (session_call empty_heap ∅ (CallRoot (mkTree sum_tree true)) (ELEM_NODE 1)); [constructor|vm_compute; repeat split|small_room|vm_compute; reflexivity].
Qed.

Lemma session_2 : session h2 ({[+ 1 +]} ⊎ {[+ 2 +]}).
Proof.
  assert (E : {[+ 1 +]} ⊎ {[+ 2 +]} = {[+ 1 +]} ∖ ∅ ⊎ elem_ref (ELEM_NODE 2)) by multiset_solver. rewrite E.
  apply (session_call h1 {[+ 1 +]} (CallChild 1 0) (ELEM_NODE 2)); [apply session_1| |small_room|vm_compute; reflexivity].
  eexists. split; [by apply gmultiset_elem_of_singleton|]. split; vm_compute; reflexivity.
Qed.

Lemma session_3 : session h3 ({[+ 1 +]} ⊎ {[+ 2 +]} ⊎ {[+ 3 +]}).
Proof.
  assert (E : {[+ 1 +]} ⊎ {[+ 2 +]} ⊎ {[+ 3 +]} = ({[+ 1 +]} ⊎ {[+ 2 +]}) ∖ ∅ ⊎ elem_ref (ELEM_TOKEN 3)) by multiset_solver. rewrite E.
  apply (session_call h2 _ (CallFirstToken 2) (ELEM_TOKEN 3)); [apply session_2| |small_room|vm_compute; reflexivity].
  eexists. split; [apply in_refs_r; by apply gmultiset_elem_of_singleton|]. split; vm_compute; reflexivity.
Qed.

(** The places of the sample's handles. *)
Definition sample_root : Info := mkInfo None 0 false true sum_tree 0.

Lemma sample_path_2 : path_to h3 1 sample_root [0] 2.
Proof.
  split; [vm_compute; reflexivity|]. split; [done|]. change [0] with ([] ++ [0]).
  eapply at_down_to; [eapply at_here; vm_compute; reflexivity|vm_compute; reflexivity|reflexivity|reflexivity].
Qed.

Lemma sample_path_3 : path_to h3 1 sample_root [0; 0] 3.
Proof.
  split; [vm_compute; reflexivity|]. split; [done|]. change [0; 0] with ([0] ++ [0]).
  eapply at_down_to; [apply sample_path_2|vm_compute; reflexivity|reflexivity|reflexivity].
Qed.

(** ** Safety *)

(** C15: Sessions of a client are safe: after any sequence of the calls of [Call] that
    [allowed] admits (asking for roots, retaining, releasing, navigating, detaching, splicing
    and replacing), every further call that is allowed returns, without an assertion failing,
    a freed handle being read, or a loop running on; every reference held is to a live handle;
    and when all are released no handle is left.  What is allowed: the handles passed are
    owned; roots and replacements are well-formed green trees; a token asked for its siblings
    or neighbours has a parent; what is detached, spliced or spliced in is of a mutable tree;
    the range of a splice is within the children, and the elements spliced in are detached,
    distinct and not above the place; a replacement has the kind of what it replaces, has the
    live children of a mutable node in their places, and is not for a token of a mutable tree;
    and there is room for the counts, of references and of children, in 32 bits ([roomy]).
    The assertions on slots are on the values of the green trees there, not on their pointers. *)
Theorem red_session_safe h O : session h O ->
  (forall c, allowed h O c -> roomy h O c -> exists e h', perform c h = Ret (e, h')) /\
  (forall p, p ∈ O -> is_Some (cells h !! p)) /\
  (O = ∅ -> cells h = ∅ /\ slls h = ∅).
Proof.
  intros Hi%session_inv. split; [|split].
  - intros c Ha Hr. destruct (every_call h O c Hi Ha Hr) as (e & h' & E & _). by exists e, h'.
  - intros p Hp. destruct (inv_owned h O p Hi Hp) as [c Hc]. by exists c.
  - intros ->. pose proof (no_leak h Hi) as Hc. split; [done|]. apply map_empty. intros p. apply eq_None_not_Some. rewrite (inv_slls _ _ Hi p), Hc, lookup_empty. by intros [? ?].
Qed.

(** [ab-2] for [ab+1], whose first token has a handle. *)
Definition sample_difference : Green := green_node_alloc SK_BIN_EXPR [tok SK_IDENT "ab"; tok SK_MINUS "-"; tok SK_INT_LIT "2"].

Lemma sample_replace : allowed h3 ({[+ 1 +]} ⊎ {[+ 2 +]} ⊎ {[+ 3 +]}) (CallReplace (ELEM_NODE 2) sample_difference).
Proof.
  eexists. split; [split; [apply in_refs_l, in_refs_r; by apply gmultiset_elem_of_singleton|split; vm_compute; reflexivity]|].
  split; [apply alloc_ok; repeat constructor|]. split; [reflexivity|]. split; [reflexivity|]. exists 2. split; [done|].
  intros q d (c & Hc & ->)%lk_Some. apply elem_of_map_to_list in Hc. vm_compute in Hc.
  repeat (apply elem_of_cons in Hc as [[= -> ->]|Hc]; [by intros [=]|]); by apply elem_of_nil in Hc.
Qed.

(** The token of the sample detached, or its parent replaced, while the handles are held. *)
Lemma red_session_safe_witness : (exists e h', perform (CallDetach (ELEM_TOKEN 3)) h3 = Ret (e, h')) /\
  (exists e h', perform (CallReplace (ELEM_NODE 2) sample_difference) h3 = Ret (e, h')) /\ is_Some (cells h3 !! 2).
Proof.
  destruct (red_session_safe h3 _ session_3) as (H1 & H2 & _). split; [|split].
  - apply (H1 (CallDetach (ELEM_TOKEN 3))); [|small_room].
    eexists. split; [split; [apply in_refs_r; by apply gmultiset_elem_of_singleton|split; vm_compute; reflexivity]|].
    split; [vm_compute; reflexivity|]. apply few_small. vm_compute. reflexivity.
  - apply H1; [exact sample_replace|small_room].
  - apply H2, in_refs_l, in_refs_r. by apply gmultiset_elem_of_singleton.
Defined.

(** C16: What every session of these calls keeps: the count of a handle is the references held to it plus its
    live children; its parent is live, in the same mode, and has at the handle's index the
    green tree that the handle shows, also after edits; the ring of a mutable node is its
    live children in the order of their indices; and a mutable tree has one handle per place. *)
Theorem red_tree_invariant h O : session h O ->
  (forall p c, cells h !! p = Some c -> refcount c = N.of_nat (multiplicity p O + nch (cells h) p) /\ 0 < refcount c < 2 ^ 32) /\
  (forall q c p, cells h !! q = Some c -> parent c = Some p -> exists pc off, cells h !! p = Some pc /\
     mutable_ pc = mutable_ c /\ green_node_child (green pc) (index c) = Some (off, green c)) /\
  (forall p c, cells h !! p = Some c -> mutable_ c = true -> is_token c = false -> exists s, ring_rep (slls h) (first c) s /\
     forall k q, (k, q) ∈ s <-> exists d, cells h !! q = Some d /\ parent d = Some p /\ index d = k) /\
  (forall q q' c c', cells h !! q = Some c -> cells h !! q' = Some c' -> mutable_ c = true -> is_Some (parent c) -> parent c' = parent c ->
     index c' = index c -> q' = q).
Proof.
  intros Hi%session_inv. split; [apply (inv_refs _ _ Hi)|]. split; [|split].
  - intros q c p Hq Hp. destruct (t_parent _ _ (inv_tree _ _ Hi) q (info c) p (lk_cell _ _ _ Hq) Hp) as (i & (pc & Hpc & ->)%lk_Some & _ & Hm & off & Hg & _).
    by exists pc, off.
  - intros p c Hp Hm Ht. pose proof (inv_rings _ _ Hi p c Hp) as Hr. unfold ring_of in Hr. rewrite Hm, Ht in Hr. destruct Hr as (s & H1 & H2).
    exists s. split; [done|]. intros k q. rewrite (H2 k q). split.
    + intros (i & (d & Hd & ->)%lk_Some & Hi1 & Hi2). by exists d.
    + intros (d & Hd & Hp1 & Hp2). exists (info d). by split; [apply lk_cell|].
  - intros q q' c c' Hq Hq' Hm [p Hp] Hpp Hii. symmetry.
    apply (sibling_distinct h O Hi q (info c) q' (info c') p (lk_cell _ _ _ Hq) (lk_cell _ _ _ Hq')); [done|cbn; congruence|done|done].
Qed.

Lemma red_tree_invariant_witness : exists pc off, cells h3 !! 2 = Some pc /\ mutable_ pc = true /\
  green_node_child (green pc) 0 = Some (off, GreenToken SK_IDENT (bs "ab")).
Proof.
  destruct (red_tree_invariant h3 _ session_3) as (_ & H & _).
  exact (H 3 (mkCell 1 (Some 2) 0 true true (GreenToken SK_IDENT (bs "ab")) 0 None) 2 eq_refl eq_refl).
Defined.

(** ** Where a handle's text is *)

Lemma range_small (pre t post : list byte) : N.of_nat (length (pre ++ t ++ post)) < 2 ^ 32 ->
  u32 (N.of_nat (length pre)) = N.of_nat (length pre) /\ u32 (N.of_nat (length t)) = N.of_nat (length t).
Proof. rewrite !length_app. intros H. split; apply u32_small; lia. Qed.

(** The offset of a token, by its parent's. *)
Lemma token_offset_ok h O q c off : inv h O -> cells h !! q = Some c -> is_Some (parent c) -> node_abs_offset q h = Ret (off, h) ->
  token_abs_offset q h = Ret (off, h).
Proof.
  intros Hi Hq [par Ep]. unfold node_abs_offset, token_abs_offset, bind. rewrite (cell_at_ok _ _ _ Hq). cbn [obind]. destruct (mutable_ c) eqn:Em; [|done]. rewrite Ep.
  destruct (abs_offset_ok h O Hi q (info c) (lk_cell _ _ _ Hq)) as (r & rc & pi & o & Hr & Hrn & Hp & Hat & E).
  unfold node_abs_offset, bind in E. rewrite (cell_at_ok _ _ _ Hq) in E. cbn [obind] in E. rewrite Em in E. intros E'. rewrite E' in E. injection E as ->.
  assert (Hpath : path_to h r rc pi q) by done.
  destruct (path_to_parent h O r rc pi q (info c) par Hi Hpath (lk_cell _ _ _ Hq) Ep) as (pi' & pc & po & -> & (_ & _ & Hp') & Hpc & (_ & Hpm & o' & Hg & _) & Hat').
  rewrite green_at_snoc, Hat', Hg in Hat. injection Hat as Ho.
  destruct (path_offset h O Hi r rc pi' par Hr Hrn Hp') as (pc' & off' & Hpc' & Hat0 & Hlt & _ & Hsum). rewrite Hat0 in Hat'. injection Hat' as -> Hgp.
  apply lk_Some in Hpc as (pd & Hpd & ->). cbn in Hg, Hpm. rewrite (cell_at_ok _ _ _ Hpd). cbn [obind].
  unfold node_abs_offset, bind. rewrite (cell_at_ok _ _ _ Hpd). cbn [obind]. rewrite Hpm, Em.
  unfold steps, gets, bind. cbn [obind]. rewrite Hsum; [|pose proof (path_length h O Hi r pi' par Hp'); lia|lia]. cbn [obind]. unfold ret.
  unfold rel_offset. rewrite Hg, N.add_0_l, (u32_small po) by done. by rewrite N.add_comm, Ho.
Qed.

(** C18: A handle knows where it is: in both modes, and also after edits, the text of a live
    handle stands in the text of the root above it at the range that the handle reports,
    whether it is read as a node or, when it has a parent, as a token. *)
Theorem handle_range_exact h O q c : session h O -> cells h !! q = Some c -> exists r rc pi, cells h !! r = Some rc /\ parent rc = None /\
  at_path (lk h) r pi q /\
  (N.of_nat (length (green_text (green rc))) < 2 ^ 32 -> exists pre post, green_text (green rc) = pre ++ green_text (green c) ++ post /\
     let range := mkRange (N.of_nat (length pre)) (N.of_nat (length (green_text (green c)))) in
     syntax_node_text_range q h = Ret (range, h) /\ (is_Some (parent c) -> syntax_token_text_range q h = Ret (range, h))).
Proof.
  intros Hi%session_inv Hq. destruct (abs_offset_ok h O Hi q (info c) (lk_cell _ _ _ Hq)) as (r & ri & pi & off & (rc & Hr & ->)%lk_Some & Hrn & Hp & Hat & E).
  exists r, rc, pi. split; [done|]. split; [done|]. split; [done|]. intros Hlen. cbn in Hat, Hrn.
  pose proof (proj1 (t_info _ _ (inv_tree _ _ Hi) r _ (lk_cell _ _ _ Hr))) as Hok.
  destruct (green_at_text 0 (green rc) pi off (green c) Hok Hat) as (Hokc & pre & post & Et & Eo). exists pre, post. split; [done|].
  rewrite Et in Hlen. destruct (range_small _ _ _ Hlen) as [E1 E2]. rewrite (Eo ltac:(lia)), N.add_0_l, E1 in E.
  pose proof (green_ok_width _ Hokc) as Hw. rewrite E2 in Hw. split.
  - unfold syntax_node_text_range, bind. rewrite E. cbn [obind]. rewrite (cell_at_ok _ _ _ Hq). cbn [obind]. unfold ret. by rewrite Hw.
  - intros Hpar. unfold syntax_token_text_range, bind. rewrite (token_offset_ok h O q c _ Hi Hq Hpar E). cbn [obind]. rewrite (cell_at_ok _ _ _ Hq). cbn [obind]. unfold ret. by rewrite Hw.
Qed.

(** The second leaf of the sample, [+]. *)
Lemma handle_range_exact_witness : exists r rc pi, cells h3 !! r = Some rc /\ at_path (lk h3) r pi 3 /\
  (N.of_nat (length (green_text (green rc))) < 2 ^ 32 -> exists pre post, green_text (green rc) = pre ++ bs "ab" ++ post /\
    syntax_token_text_range 3 h3 = Ret (mkRange (N.of_nat (length pre)) 2, h3)).
Proof.
  destruct (handle_range_exact h3 _ 3 (mkCell 1 (Some 2) 0 true true (GreenToken SK_IDENT (bs "ab")) 0 None) session_3 eq_refl)
    as (r & rc & pi & Hr & _ & Hp & H). exists r, rc, pi. split; [exact Hr|]. split; [exact Hp|]. intros Hlen.
  destruct (H Hlen) as (pre & post & E & _ & E2). exists pre, post. split; [exact E|]. apply E2. by exists 2.
Defined.

(** ** The next token *)

(** C19: [syntax_token_next_token] follows the text: in a tree in which no node is empty, the
    token after the [k]-th leaf is a handle, owned by the caller, of leaf [k + 1], and there
    is none after the last leaf. *)
Theorem next_token_in_order h O t c r rc pi k : session h O -> cells h !! t = Some c -> is_Some (parent c) -> path_to h r rc pi t ->
  full (i_green rc) -> leaf_paths (i_green rc) !! k = Some pi -> fits (6 + 2 * green_height (i_green rc)) h O ->
  exists t' h', syntax_token_next_token t h = Ret (t', h') /\ inv h' (O ⊎ opt_ref t') /\
    match leaf_paths (i_green rc) !! S k with
    | Some pi' => exists q d kind text, t' = Some q /\ at_path (lk h') r pi' q /\ cells h' !! q = Some d /\
        green d = GreenToken kind text /\ leaves (i_green rc) !! S k = Some (kind, text)
    | None => t' = None
    end.
Proof.
  intros Hi%session_inv Ht Hpar Hpath Hfull Hk Hf.
  destruct (next_token_gives h O t (info c) r rc pi Hi (lk_cell _ _ _ Ht) Hpar Hpath Hf) as (t' & h' & O' & E & A & -> & Htok).
  exists t', h'. split; [done|]. split; [apply A|]. destruct Hpath as (Hr & Hrn & _).
  pose proof (proj1 (t_info _ _ (inv_tree _ _ Hi) r rc Hr)) as Hok.
  pose proof (take_drop_middle _ _ _ Hk) as Esplit. rewrite (across_next _ _ _ _ Hfull Hok (eq_sym Esplit)) in Htok.
  assert (Ehd : head (drop (S k) (leaf_paths (i_green rc))) = leaf_paths (i_green rc) !! S k).
  { rewrite <- (Nat.add_0_r (S k)) at 2. rewrite <- lookup_drop. by destruct (drop (S k) (leaf_paths (i_green rc))). }
  rewrite Ehd in Htok. destruct (leaf_paths (i_green rc) !! S k) as [pi'|] eqn:Ek; cbn in Htok.
  - destruct t' as [q|]; [|done]. destruct Htok as (p & d & [= <-] & Hp & Hq & _).
    destruct (leaf_paths_at _ 0 _ _ Ek) as (o & kind & text & Hat & Hl).
    pose proof (after_same _ _ _ _ _ _ _ Hi A Hr (at_path_top _ _ _ _ Hp)) as Hr'.
    destruct (path_offset h' _ (proj1 A) r rc pi' q Hr' Hrn Hp) as (d' & off & Hq' & Hat' & _). rewrite Hq in Hq'. injection Hq' as <-.
    apply lk_Some in Hq as (dd & Hdd & ->). exists q, dd, kind, text. split; [done|]. split; [done|]. split; [done|].
    rewrite Hat in Hat'. injection Hat' as _ <-. done.
  - by destruct t' as [q|]; [destruct Htok as (? & ? & ? & _)|].
Qed.

(** [ab] is leaf 0 of the sample and [+] leaf 1. *)
Lemma next_token_in_order_witness : exists t' h', syntax_token_next_token 3 h3 = Ret (t', h') /\
  exists q d, t' = Some q /\ at_path (lk h') 1 [0; 1] q /\ cells h' !! q = Some d /\ green d = GreenToken SK_PLUS (bs "+").
Proof.
  destruct (next_token_in_order h3 _ 3 (mkCell 1 (Some 2) 0 true true (GreenToken SK_IDENT (bs "ab")) 0 None) 1
    sample_root [0; 0] 0 session_3 eq_refl) as (t' & h' & E & _ & H).
  - by exists 2.
  - exact sample_path_3.
  - cbn. repeat split; lia.
  - reflexivity.
  - unfold fits. vm_compute. reflexivity.
  - exists t', h'. split; [exact E|]. cbn in H. destruct H as (q & d & kind & text & -> & Hp & Hd & Hg & Hl). exists q, d.
    split; [done|]. split; [exact Hp|]. split; [exact Hd|]. rewrite Hg. by injection Hl as <- <-.
Defined.

(** C20: [syntax_token_at_offset] answers for every offset.  Outside of the node's range it finds
    nothing and leaves the heap as it is.  In it, ends included, it finds nothing only when the
    node has no text; it finds one token that has text when the offset is in its text or at
    the node's own end; and it finds two tokens, one after the other, when they meet there.
    The caller gets one reference for each token, and the elements on the way are released. *)
Theorem token_at_offset_finds h O n c base off : session h O -> n ∈ O -> cells h !! n = Some c -> is_token c = false ->
  node_abs_offset n h = Ret (base, h) -> base + size_of (green_text (green c)) < 2 ^ 32 -> fits (4 * green_height (green c)) h O ->
  exists ans h', syntax_token_at_offset n off h = Ret (ans, h') /\ inv h' (O ⊎ at_refs ans) /\
    (off < base \/ base + size_of (green_text (green c)) < off -> ans = AT_NONE /\ h' = h) /\
    (base <= off <= base + size_of (green_text (green c)) -> answers h' n (info c) [] (green_text (green c)) [] (off - base) ans).
Proof.
  intros Hi%session_inv HnO Hn Ht Hb Hs Hf. pose proof (lk_cell _ _ _ Hn) as Hlk. pose proof (proj1 (t_info _ _ (inv_tree _ _ Hi) n _ Hlk)) as Hok.
  assert (Hw : green_text_len (green c) = size_of (green_text (green c))).
  { pose proof (green_ok_width _ Hok) as E. change (i_green (info c)) with (green c) in E. rewrite E. unfold size_of in *. apply u32_small. lia. }
  assert (Hno : node_at_offset h n (info c) base).
  { split; [done|done|done| |done|exact Hs]. pose proof (node_is_node h O n (info c) Hi Hlk) as E. cbn in E. rewrite Ht in E. by apply negb_false_iff. }
  assert (E : syntax_token_at_offset n off h = (if (off <? base) || (base + size_of (green_text (green c)) <? off) then ret AT_NONE
    else token_at_offset_recurse (S (green_height (green c))) n off) h).
  { unfold syntax_token_at_offset, syntax_node_text_range, bind. rewrite (cell_at_ok _ _ _ Hn). cbn [obind]. rewrite Hb. cbn [obind]. rewrite (cell_at_ok _ _ _ Hn).
    cbn [obind]. unfold ret at 1. cbn [obind]. unfold text_range_end. cbn [r_start r_length]. by rewrite Hw, u32_small. }
  rewrite E. destruct (N.ltb_spec off base), (N.ltb_spec (base + size_of (green_text (green c))) off); cbn [orb];
    try (exists AT_NONE, h; split; [done|]; split; [cbn; by rewrite right_id_L by apply _|]; split; [done|lia]).
  assert (Hf' : fits (cost (green_height (green c)) (off - base) (blen (green c))) h O) by (eapply fits_le; [|exact Hf]; unfold cost; destruct (_ && _); lia).
  destruct (recurse_gives off (S (green_height (green c))) h O n (info c) base Hi HnO Hno) as (ans & h' & O' & E' & A & -> & Hans);
    [cbn; lia|done|done|exact Hf'|].
  exists ans, h'. split; [done|]. split; [apply A|]. split; [lia|done].
Qed.

(** [ab] and [+] of the sample meet at offset 2. *)
Lemma token_at_offset_finds_witness : exists l r h' pre tl tr post, syntax_token_at_offset 1 2 h3 = Ret (AT_BETWEEN l r, h') /\
  bs "ab+1;" = pre ++ tl ++ tr ++ post /\ size_of pre + size_of tl = 2.
Proof.
  destruct (token_at_offset_finds h3 _ 1 (mkCell 2 None 0 false true sum_tree 0 (Some 2)) 0 2 session_3) as (ans & h' & E & _ & _ & H).
  - apply in_refs_l, in_refs_l. by apply gmultiset_elem_of_singleton.
  - vm_compute. reflexivity.
  - reflexivity.
  - vm_compute. reflexivity.
  - vm_compute. reflexivity.
  - unfold fits. vm_compute. reflexivity.
  - pose proof E as E2. vm_compute in E2. injection E2 as <- _. specialize (H ltac:(vm_compute; split; discriminate)).
    cbn [answers] in H. destruct H as (pre & tl & tr & post & Et & _ & _ & Hsz). eexists _, _, h', pre, tl, tr, post. split; [exact E|]. by split.
Defined.

(** ** Splicing *)

(** C21: [syntax_node_splice_children] on a mutable node returns with the heap in order; the
    children of the node are then the old ones before [from], the trees of the elements given,
    and the old ones from [to]; the node stands where it stood; and the text of the root is
    the text before and after the node as it was, around the text of the new children. *)
Theorem splice_children_text h O r rc pi par pc from to es qs gs : session h O -> stands h r rc pi par pc -> par ∈ O ->
  from <= to -> to <= N.of_nat (length (kids (i_green pc))) -> fits (2 * N.to_nat (to - from) + 1) h O ->
  N.of_nat (length (kids (i_green pc)) + length es) < 2 ^ 32 ->
  Forall2 (fun e q => elem_data e = ret q) es qs -> Forall2 (detached h r) qs gs -> NoDup qs -> Forall (fun q => q ∈ O) qs ->
  exists h' rc' pc' pre post, syntax_node_splice_children par from to es h = Ret (tt, h') /\ inv h' O /\ stands h' r rc' pi par pc' /\
    kids (i_green pc') = take (N.to_nat from) (kids (i_green pc)) ++ gs ++ drop (N.to_nat to) (kids (i_green pc)) /\
    green_text (i_green rc) = pre ++ concat (map green_text (kids (i_green pc))) ++ post /\
    green_text (i_green rc') = pre ++ concat (map green_text (kids (i_green pc'))) ++ post.
Proof.
  intros Hi%session_inv Hst HparO Hft Hto Hf Hfew Hes Hqs Hnd HqO.
  destruct (splice_ok es qs gs h O r rc pi par pc from to Hi Hst HparO Hft Hto Hf Hfew Hes Hqs Hnd HqO) as (h' & rc' & pc' & E & Hi' & _ & Hst' & Har & Hk).
  exists h', rc', pc', (around (i_green rc) pi).1, (around (i_green rc) pi).2. split; [done|]. split; [done|]. split; [done|]. split; [done|].
  assert (Htext : forall h O rc pc, inv h O -> stands h r rc pi par pc ->
    green_text (i_green rc) = (around (i_green rc) pi).1 ++ concat (map green_text (kids (i_green pc))) ++ (around (i_green rc) pi).2).
  { clear. intros h O rc pc Hi [(Hr & Hrn & Hp) Hpar Hn _]. destruct (path_offset h O Hi r rc pi par Hr Hrn Hp) as (pc' & off & Hpc' & Hat & _).
    rewrite Hpar in Hpc'. injection Hpc' as <-. rewrite <- kids_text; [by eapply around_text|]. rewrite (node_is_node h O par pc Hi Hpar) in Hn. by apply negb_false_iff. }
  split; [exact (Htext h O rc pc Hi Hst)|]. rewrite <- Har. exact (Htext h' O rc' pc' Hi' Hst').
Qed.

(** The [1] of the sample removed. *)
Lemma splice_children_text_witness : exists h' rc' pc' pre post, syntax_node_splice_children 2 1 3 [] h3 = Ret (tt, h') /\
  stands h' 1 rc' [0] 2 pc' /\ kids (i_green pc') = [GreenToken SK_IDENT (bs "ab")] /\ bs "ab+1;" = pre ++ bs "ab+1" ++ post /\
  green_text (i_green rc') = pre ++ bs "ab" ++ post.
Proof.
  set (g := green_node_alloc SK_BIN_EXPR [tok SK_IDENT "ab"; tok SK_PLUS "+"; tok SK_INT_LIT "1"]).
  destruct (splice_children_text h3 _ 1 sample_root [0] 2 (mkInfo (Some 1) 0 false true g 0) 1 3 [] [] [] session_3)
    as (h' & rc' & pc' & pre & post & E & _ & Hst & Hk & Ht & Ht').
  - split; [exact sample_path_2|vm_compute; reflexivity|reflexivity..].
  - apply in_refs_l, in_refs_r. by apply gmultiset_elem_of_singleton.
  - lia.
  - cbn. lia.
  - unfold fits. vm_compute. reflexivity.
  - cbn. lia.
  - constructor.
  - constructor.
  - constructor.
  - constructor.
  - exists h', rc', pc', pre, post. split; [exact E|]. split; [exact Hst|]. rewrite Hk in Ht'. split; [rewrite Hk; reflexivity|]. split; [exact Ht|exact Ht'].
Defined.

(** ** Replacing *)

(** C22: [syntax_node_replace_with] gives the same root in both modes: the root above the node
    with the tree at the node's path replaced by one of the same kind, so that the text is
    that of the replacement between the texts before and after the node.  An immutable tree
    is left as it was; in a mutable one the root shows the new tree. *)
Theorem replace_with_either_mode h O r rc pi n c G : session h O -> path_to h r rc pi n -> cells h !! n = Some c -> green_kind G = green_kind (green c) ->
  exists G' h' pre post, syntax_node_replace_with n G h = Ret (G', h') /\ green_put (i_green rc) pi G = Ret G' /\
    green_text (i_green rc) = pre ++ green_text (green c) ++ post /\ green_text G' = pre ++ green_text G ++ post /\
    (mutable_ c = false -> h' = h) /\ (mutable_ c = true -> option_map i_green (lk h' r) = Some G').
Proof.
  intros Hi%session_inv (Hr & Hrn & Hp) Hn Hk.
  destruct (replace_with_ok h O Hi r rc Hr Hrn pi n (info c) G Hp (lk_cell _ _ _ Hn) Hk) as (G' & h' & HG & E & H1 & H2).
  destruct (path_offset h O Hi r rc pi n Hr Hrn Hp) as (c' & off & Hc' & Hat & _). rewrite (lk_cell _ _ _ Hn) in Hc'. injection Hc' as <-. cbn in Hat.
  exists G', h', (around (i_green rc) pi).1, (around (i_green rc) pi).2. split; [done|]. split; [done|]. split; [by eapply around_text|].
  split; [by eapply green_put_text|]. split; [done|]. intros Hm. by destruct (H2 Hm).
Qed.

Lemma replace_with_either_mode_witness : exists G' h' pre post, syntax_node_replace_with 2 (green_node_alloc SK_BIN_EXPR [tok SK_INT_LIT "7"]) h3 = Ret (G', h') /\
  bs "ab+1;" = pre ++ bs "ab+1" ++ post /\ green_text G' = pre ++ bs "7" ++ post.
Proof.
  set (g := green_node_alloc SK_BIN_EXPR [tok SK_IDENT "ab"; tok SK_PLUS "+"; tok SK_INT_LIT "1"]).
  destruct (replace_with_either_mode h3 _ 1 sample_root [0] 2 (mkCell 2 (Some 1) 0 false true g 0 (Some 3))
    (green_node_alloc SK_BIN_EXPR [tok SK_INT_LIT "7"]) session_3) as (G' & h' & pre & post & E & _ & Ht & Ht' & _).
  - exact sample_path_2.
  - vm_compute. reflexivity.
  - reflexivity.
  - exists G', h', pre, post. split; [exact E|]. split; [exact Ht|exact Ht'].
Defined.

End RedTheorems.
