(* ===== verification/HandleRefine.v ===== *)
(** * The values read by the red tree

    An immutable handle on the heap shows a [Node]; each navigation call on it answers with a
    handle that shows what the function of [Handle] computes. *)

From stdpp Require Import gmap gmultiset.
From S2P Require Import Prelude SyntaxKind Green GreenFacts Sll SllFacts Red RedNav RedInv RedCalls RedSession RedTheorems RedPtr.
Import SyntaxKind Green GreenFacts Sll Red RedTree RedNav RedInv RedOps RedPath RedCalls RedSession RedQuirks RedTheorems RedPtr Handle.

Module HandleRefine.

#[local] Open Scope N_scope.

(** [q] is a live immutable handle of the green tree, offset and parents of [n]. *)
Fixpoint shows (h : Heap) (q : ptr) (n : Node) {struct n} : Prop :=
  match n with
  | mkNode g s a =>
      exists par i, lk h q = Some (mkInfo par i (negb (green_is_node g)) false g s) /\
      match a with
      | None => par = None
      | Some (pn, j) => i = j /\ exists p, par = Some p /\ shows h p pn
      end
  end.

Definition elem_shows (h : Heap) (e : SyntaxElement) (n : option Node) : Prop :=
  match e, n with
  | ELEM_NONE, None => True
  | ELEM_NODE q, Some n => is_node n = true /\ shows h q n
  | ELEM_TOKEN q, Some n => is_node n = false /\ shows h q n
  | _, _ => False
  end.

Definition opt_shows (h : Heap) (p : option ptr) (n : option Node) : Prop :=
  match p, n with None, None => True | Some q, Some n => shows h q n | _, _ => False end.

Lemma shows_info h q n : shows h q n -> exists c, lk h q = Some c /\ i_token c = negb (is_node n) /\ i_mutable c = false /\ i_green c = tree n /\ i_offset c = start n.
Proof. destruct n as [g s a]. intros (par & i & H & _). eexists. split; [exact H|]. done. Qed.

Lemma shows_grows h h' q n : grows h h' -> shows h q n -> shows h' q n.
Proof.
  intros Hg. revert q n. fix IH 2. intros q [g s a] (par & i & H & Ha). exists par, i. split; [by apply Hg|]. destruct a as [[pn j]|]; [|done].
  destruct Ha as (Hi & p & Hp & Hs). split; [done|]. exists p. split; [done|]. by apply IH.
Qed.

(** The cached offset of a child is its place after its parent's. *)
Lemma child_offset h O q c p pc o g : inv h O -> lk h q = Some c -> i_parent c = Some p -> lk h p = Some pc -> i_mutable c = false ->
  green_node_child (i_green pc) (i_index c) = Some (o, g) -> i_offset c = u32 (i_offset pc + o).
Proof.
  intros Hi Hq Hp Hpc Hm Hg. destruct (path_exists h O Hi p pc Hpc) as (r & pi & (rc & Hr & Hroot) & Hpath).
  destruct (path_offset h O Hi r rc pi p Hr Hroot Hpath) as (pc' & offp & Hpc' & Hatp & _ & Hoffp & _). rewrite Hpc in Hpc'. injection Hpc' as <-.
  assert (Hpq : at_path (lk h) r (pi ++ [i_index c]) q) by (by eapply at_down).
  destruct (path_offset h O Hi r rc _ q Hr Hroot Hpq) as (c' & offq & Hc' & Hatq & _ & Hoffq & _). rewrite Hq in Hc'. injection Hc' as <-.
  destruct (t_parent _ _ (inv_tree _ _ Hi) q c p Hq Hp) as (pc' & Hpc' & _ & Hmp & _). rewrite Hpc in Hpc'. injection Hpc' as <-.
  rewrite green_at_snoc, Hatp, Hg in Hatq. injection Hatq as <- _. rewrite Hoffq by done. by rewrite Hoffp by congruence.
Qed.

Lemma shows_child_shows h O p n pc i o g q : inv h O -> shows h p n -> lk h p = Some pc -> green_node_child (tree n) i = Some (o, g) ->
  shows_child h p i pc g q -> shows h q (child_node n i (o, g)).
Proof.
  intros Hi Hs Hpc Hg (o' & Hq). destruct (shows_info _ _ _ Hs) as (pc' & Hpc' & _ & Hm & Hgr & Hst). rewrite Hpc in Hpc'. injection Hpc' as <-.
  rewrite Hm in Hq. assert (Ho : o' = u32 (start n + o)).
  { rewrite <- Hst. eapply (child_offset h O q _ p pc o g Hi Hq); try done. cbn. by rewrite Hgr. }
  unfold child_node. cbn [fst snd shows]. exists (Some p), i. rewrite Ho in Hq. split; [exact Hq|]. split; [done|]. exists p. by split.
Qed.

(** ** Scans *)

Lemma children_from_lookup n i cs j : children_from n i cs !! j = child_node n (i + N.of_nat j) <$> cs !! j.
Proof.
  revert i j. induction cs as [|e cs IH]; intros i [|j]; cbn [children_from lookup list_lookup]; [done|done|by rewrite N.add_0_r|].
  rewrite IH. by replace (i + 1 + N.of_nat j) with (i + N.of_nat (S j)) by lia.
Qed.

Lemma child_or_token_lookup n i : child_or_token n i = children n !! N.to_nat i.
Proof.
  unfold child_or_token, children. rewrite children_from_lookup, N.add_0_l, N2Nat.id. unfold green_node_child. by rewrite nth_lookup.
Qed.

Definition found_node (n : Node) (x : option (N * (N * Green))) : option Node := (fun y => child_node n y.1 y.2) <$> x.

Lemma find_children_from f n i cs : List.find (fun e => f (tree e)) (children_from n i cs) = found_node n (find_from f i cs).
Proof. revert i. induction cs as [|[o g] cs IH]; intros i; [done|]. cbn. by destruct (f g). Qed.

Lemma drop_children_from n i j cs : drop j (children_from n i cs) = children_from n (i + N.of_nat j) (drop j cs).
Proof.
  revert i j. induction cs as [|e cs IH]; intros i [|j]; cbn [children_from drop]; [done|done|by rewrite N.add_0_r|].
  rewrite IH. by replace (i + 1 + N.of_nat j) with (i + N.of_nat (S j)) by lia.
Qed.

Lemma find_after f n i : List.find (fun e => f (tree e)) (drop (N.to_nat i) (children n)) = found_node n (find_next f i (tree n)).
Proof. unfold children, find_next. rewrite drop_children_from, N.add_0_l, N2Nat.id. apply find_children_from. Qed.

Lemma find_first f n : List.find (fun e => f (tree e)) (children n) = found_node n (find_next f 0 (tree n)).
Proof. rewrite <- find_after. by change (N.to_nat 0) with 0%nat; rewrite drop_0. Qed.

(** ** The calls *)

Section Calls.
Context (h : Heap) (O : gmultiset ptr) (Hi : inv h O).

(** What a call that reads [n] must answer. *)
Definition answers_elem (m : M SyntaxElement) (n : option Node) : Prop :=
  gives h O 2 m (fun e O' h' => O' = O ⊎ elem_ref e /\ elem_shows h' e n /\ grows h h').

Definition answers_node (m : M (option ptr)) (n : option Node) : Prop :=
  gives h O 2 m (fun p O' h' => O' = O ⊎ opt_ref p /\ opt_shows h' p n /\ grows h h').

Lemma wrap_answers q n i : shows h q n -> is_node n = true -> fits 2 h O -> answers_elem (wrap_child q i) (child_or_token n i).
Proof using Hi.
  intros Hs Hn Hf. destruct (shows_info _ _ _ Hs) as (c & Hc & Ht & Hm & Hg & Ho). rewrite Hn in Ht.
  eapply gives_mono; [exact (wrap_child_gives h O Hi q c i Hc Ht Hf)|done|]. intros e O' h' A (-> & He & Hgr & _). split; [done|]. split; [|done].
  unfold elem_at in He. rewrite Hg in He. unfold child_or_token. destruct (green_node_child (tree n) i) as [[o g]|] eqn:Eg; [|by subst e].
  destruct He as (x & -> & Hx). assert (Hx' : shows h' x (child_node n i (o, g))).
  { eapply (shows_child_shows h' _ q n c); [apply A|by eapply shows_grows|by apply Hgr|done|done]. }
  cbn [fmap option_fmap option_map elem_shows]. destruct (green_is_node g) eqn:En; cbn [elem_shows]; by split.
Qed.

Lemma node_at_answers q n f i : shows h q n -> is_node n = true -> (forall g, f g = true -> green_is_node g = true) -> fits 2 h O ->
  answers_node (node_at q (find_next f i (tree n))) (found_node n (find_next f i (tree n))).
Proof using Hi.
  intros Hs Hn Hfn Hf. destruct (shows_info _ _ _ Hs) as (c & Hc & Ht & Hm & Hg & Ho). rewrite Hn in Ht.
  assert (Hspec : forall j off g, find_next f i (tree n) = Some (j, (off, g)) -> green_node_child (tree n) j = Some (off, g) /\ f g = true).
  { intros j off g E. destruct (find_next_spec _ _ _ _ _ E) as (_ & H1 & H2 & _). by split. }
  eapply gives_mono; [apply (node_at_gives h O Hi q c _ Hc Ht Hf)|done|].
  - intros j off g E. rewrite Hg. destruct (Hspec _ _ _ E) as [H1 H2]. split; [done|]. by apply Hfn.
  - intros p O' h' A (-> & Hp & Hgr). split; [done|]. split; [|done]. unfold found_at in Hp.
    destruct (find_next f i (tree n)) as [[j [o g]]|] eqn:E; [|by subst p]. destruct Hp as (x & -> & Hx). destruct (Hspec _ _ _ eq_refl) as [H1 _]. cbn.
    eapply (shows_child_shows h' _ q n c); [apply A|by eapply shows_grows|by apply Hgr|done|done].
Qed.

(** The parent that a handle shows. *)
Lemma shows_above q n : shows h q n -> match above n with
  | None => exists c, lk h q = Some c /\ i_parent c = None
  | Some (par, i) => exists c p, lk h q = Some c /\ i_parent c = Some p /\ i_index c = i /\ shows h p par /\ is_node par = true
  end.
Proof using Hi.
  destruct n as [g s [[par i]|]]; cbn [shows above].
  - intros (pp & j & Hq & -> & p & -> & Hs). eexists _, p. split; [exact Hq|]. split; [done|]. split; [done|]. split; [done|].
    destruct (t_parent _ _ (inv_tree _ _ Hi) q _ p Hq eq_refl) as (pc & Hpc & Ht & _). destruct (shows_info _ _ _ Hs) as (pc' & Hpc' & Ht' & _).
    rewrite Hpc in Hpc'. injection Hpc' as <-. rewrite Ht in Ht'. symmetry in Ht'. by apply negb_false_iff in Ht'.
  - intros (pp & j & Hq & ->). eexists. split; [exact Hq|done].
Qed.

Lemma sibling_answers q n f : shows h q n -> (forall g, f g = true -> green_is_node g = true) -> fits 2 h O ->
  answers_node (let* c := cell_at q in
                match parent c with None => ret None | Some par => let* pc := cell_at par in node_at par (find_next f (index c + 1) (green pc)) end)%red
    (List.find (fun e => f (tree e)) (siblings_after n)).
Proof using Hi.
  intros Hs Hfn Hf. pose proof (shows_above q n Hs) as Ha. unfold siblings_after. destruct (above n) as [[par i]|].
  - destruct Ha as (c & p & Hc & Hp & <- & Hsp & Hn). destruct (shows_info _ _ _ Hsp) as (pc & Hpc & _ & _ & Hg & _).
    eapply gives_cell; [exact Hc|]. intros d Hd ->. cbn [i_parent i_index info] in *. rewrite Hp. eapply gives_cell; [exact Hpc|]. intros pd Hpd ->.
    cbn [i_green info] in Hg. rewrite Hg. replace (S (N.to_nat (index d))) with (N.to_nat (index d + 1)) by lia. rewrite find_after. by apply node_at_answers.
  - destruct Ha as (c & Hc & Hp). eapply gives_cell; [exact Hc|]. intros d Hd ->. cbn [i_parent info] in Hp. rewrite Hp. apply gives_ret; [done|].
    split; [cbn; by rewrite right_id_L by apply _|]. split; [done|by intros x].
Qed.

Lemma child_or_token_answers q n i : shows h q n -> is_node n = true -> fits 2 h O -> answers_elem (syntax_node_child_or_token q i) (child_or_token n i).
Proof using Hi.
  intros Hs Hn Hf. destruct (shows_info _ _ _ Hs) as (c & Hc & Ht & Hm & Hg & Ho). unfold syntax_node_child_or_token. eapply gives_cell; [exact Hc|].
  intros d Hd ->. cbn [i_green info] in Hg. destruct (green_node_num_children (green d) <=? i) eqn:E; [|by apply wrap_answers].
  apply gives_ret; [done|]. split; [by apply none_ref|]. split; [|by intros x]. unfold child_or_token. rewrite <- Hg, num_children_none by done. done.
Qed.

Lemma first_child_by_kind_answers q n k : shows h q n -> is_node n = true -> fits 2 h O ->
  answers_node (syntax_node_first_child_by_kind q k) (first_child_by_kind n k).
Proof using Hi.
  intros Hs Hn Hf. destruct (shows_info _ _ _ Hs) as (c & Hc & Ht & Hm & Hg & Ho). unfold syntax_node_first_child_by_kind. eapply gives_cell; [exact Hc|].
  intros d Hd ->. cbn [i_green info] in Hg. rewrite Hg. change (first_child_by_kind n k) with (List.find (fun e => node_of_kind k (tree e)) (children n)). rewrite find_first.
  apply node_at_answers; try done. by intros g [? _]%andb_true_iff.
Qed.

Lemma first_element_by_kind_answers q n k : shows h q n -> is_node n = true -> fits 2 h O ->
  answers_elem (syntax_node_first_child_or_token_by_kind q k) (first_child_or_token_by_kind n k).
Proof using Hi.
  intros Hs Hn Hf. destruct (shows_info _ _ _ Hs) as (c & Hc & Ht & Hm & Hg & Ho). unfold syntax_node_first_child_or_token_by_kind. eapply gives_cell; [exact Hc|].
  intros d Hd ->. cbn [i_green info] in Hg. rewrite Hg. change (first_child_or_token_by_kind n k) with (List.find (fun e => has_kind k (tree e)) (children n)). rewrite find_first.
  destruct (find_next (has_kind k) 0 (tree n)) as [[i [o g]]|] eqn:E; cbn [wrap_found].
  - destruct (find_next_spec _ _ _ _ _ E) as (_ & H1 & _). pose proof (wrap_answers q n i Hs Hn Hf) as H. unfold child_or_token in H. by rewrite H1 in H.
  - apply gives_ret; [done|]. split; [by apply none_ref|]. split; [done|by intros x].
Qed.

End Calls.

(** C17: An immutable handle is the value it shows: a child, the first child or element of a
    kind, and the next sibling, of any kind or of one, are answered on the heap by owned
    handles that show the values [Handle] computes, while every handle keeps what it shows;
    and the kind, the range and the text are read from the value. *)
Theorem handles_are_values h O q n i k : session h O -> shows h q n -> fits 2 h O ->
  (is_node n = true -> answers_elem h O (syntax_node_child_or_token q i) (child_or_token n i) /\
     answers_node h O (syntax_node_first_child_by_kind q k) (first_child_by_kind n k) /\
     answers_elem h O (syntax_node_first_child_or_token_by_kind q k) (first_child_or_token_by_kind n k)) /\
  answers_node h O (syntax_node_next_sibling q) (next_sibling n) /\
  answers_node h O (syntax_node_next_sibling_by_kind q k) (next_sibling_by_kind n k) /\
  syntax_node_kind q h = Ret (node_kind n, h) /\ syntax_node_text_range q h = Ret (node_range n, h) /\ syntax_token_text q h = Ret (text_of n, h).
Proof.
  intros Hi%session_inv Hs Hf. split; [intros Hn; split; [|split]; [by apply child_or_token_answers|by apply first_child_by_kind_answers|by apply first_element_by_kind_answers]|].
  split; [by apply (sibling_answers h O Hi q n green_is_node)|]. split; [apply (sibling_answers h O Hi q n (node_of_kind k)); try done; by intros g [? _]%andb_true_iff|].
  destruct (shows_info _ _ _ Hs) as (c & (d & Hd & ->)%lk_Some & Ht & Hm & Hg & Ho). cbn in Hm, Hg, Ho.
  unfold syntax_node_kind, syntax_node_text_range, syntax_token_text, node_abs_offset, bind. rewrite (cell_at_ok _ _ _ Hd). cbn [obind]. rewrite Hm.
  unfold ret. cbn [obind]. rewrite (cell_at_ok _ _ _ Hd). cbn [obind]. rewrite Hg, Ho. done.
Qed.

(** The root of the sample tree, immutable. *)
Definition fixed_heap : Heap := heap_after [CallRoot (mkTree sum_tree false)] empty_heap.

Lemma fixed_session : session fixed_heap {[+ 1 +]}.
Proof.
  assert (E : {[+ 1 +]} = ∅ ∖ ∅ ⊎ elem_ref (ELEM_NODE 1)) by multiset_solver. rewrite E.
  apply (session_call empty_heap ∅ (CallRoot (mkTree sum_tree false)) (ELEM_NODE 1)); [constructor|vm_compute; repeat split|small_room|vm_compute; reflexivity].
Qed.

Lemma handles_are_values_witness : exists q n h', syntax_node_first_child_by_kind 1 SK_BIN_EXPR fixed_heap = Ret (Some q, h') /\
  first_child_by_kind (tree_root sum_tree) SK_BIN_EXPR = Some n /\ shows h' q n /\ node_range n = mkRange 0 4.
Proof.
  destruct (handles_are_values fixed_heap _ 1 (tree_root sum_tree) 0 SK_BIN_EXPR fixed_session) as [H _].
  - eexists None, 0. split; [vm_compute; reflexivity|done].
  - unfold fits. vm_compute. reflexivity.
  - destruct (H eq_refl) as (_ & (p & h' & O' & E & _ & _ & Hs & _) & _). vm_compute in Hs. destruct p as [q|]; [|done].
    eexists q, _, h'. split; [exact E|]. split; [vm_compute; reflexivity|]. split; [exact Hs|vm_compute; reflexivity].
Defined.

End HandleRefine.
