(* ===== verification/Ast.v ===== *)
(** * Typed accessors: [src/src/ast/]

    The wrappers of [ast.c], [ast_decl.c], [ast_expr.c], [ast_stmt.c] and [ast_type.c]: a cast tests the
    kind of a node, an accessor finds a child by kind, by position or after a token.  A
    wrapper struct holds nothing but its node, so it is the node; handles are the values of
    [Handle], and NULL is [None].  The loops over the children of a node run over the list
    [children]. *)

From S2P Require Import Prelude SyntaxKind Green RedPtr.
Import SyntaxKind Green Handle.

Module Ast.

#[local] Open Scope N_scope.

(** ** [ast.c] *)

Definition ast_first_child (n : Node) (k : OreSyntaxKind) : option Node := first_child_by_kind n k.

(** The first element of the kind, when it is a token. *)
Definition ast_first_token (n : Node) (k : OreSyntaxKind) : option Node :=
  match first_child_or_token_by_kind n k with
  | Some e => if is_node e then None else Some e
  | None => None
  end.

(** [nth] more siblings of the kind. *)
Fixpoint skip_siblings (cur : option Node) (k : OreSyntaxKind) (nth : nat) : option Node :=
  match nth with
  | O => cur
  | S nth => match cur with Some n => skip_siblings (next_sibling_by_kind n k) k nth | None => None end
  end.

Definition ast_nth_child (n : Node) (k : OreSyntaxKind) (nth : N) : option Node :=
  skip_siblings (first_child_by_kind n k) k (N.to_nat nth).

Definition ast_first_token_pred (n : Node) (pred : OreSyntaxKind -> bool) : option Node :=
  List.find (fun e => negb (is_node e) && pred (node_kind e)) (children n).

Definition ast_first_token_any (n : Node) (kinds : list OreSyntaxKind) : option Node :=
  ast_first_token_pred n (fun tk => existsb (kind_eqb tk) kinds).

Definition ast_first_child_pred (n : Node) (pred : OreSyntaxKind -> bool) : option Node :=
  List.find (fun e => is_node e && pred (node_kind e)) (children n).

Definition ast_nth_node (n : Node) (nth : N) : option Node := nth_error (node_children n) (N.to_nat nth).

(** [seen] the token. *)
Fixpoint node_after (tok : OreSyntaxKind) (seen : bool) (es : list Node) : option Node :=
  match es with
  | [] => None
  | e :: es =>
      if is_node e then if seen then Some e else node_after tok seen es
      else node_after tok (seen || of_kind tok e) es
  end.

Definition ast_first_node_after_token (n : Node) (tok : OreSyntaxKind) : option Node := node_after tok false (children n).

(** [DEFINE_CAST]. *)
Definition cast (k : OreSyntaxKind) (n : Node) : option Node := if of_kind k n then Some n else None.

(** ** [ast_decl.c] *)

Definition FnDef_cast : Node -> option Node := cast SK_FN_DECL.
Definition StructDef_cast : Node -> option Node := cast SK_STRUCT_DECL.
Definition EnumDef_cast : Node -> option Node := cast SK_ENUM_DECL.
Definition UnionDef_cast : Node -> option Node := cast SK_UNION_DECL.
Definition EffectDef_cast : Node -> option Node := cast SK_EFFECT_DECL.
Definition BindDef_cast : Node -> option Node := cast SK_BIND_DECL.
Definition Param_cast : Node -> option Node := cast SK_PARAM.
Definition Field_cast : Node -> option Node := cast SK_FIELD.
Definition Variant_cast : Node -> option Node := cast SK_VARIANT.

Definition is_type_node (k : OreSyntaxKind) : bool := ore_kind_is_type_node k.

(** The value of a bind: an expression, or a type former in its place. *)
Definition is_bind_rhs_node (k : OreSyntaxKind) : bool :=
  ore_kind_is_expr_node k || existsb (kind_eqb k) [SK_STRUCT_DECL; SK_UNION_DECL; SK_ENUM_DECL; SK_EFFECT_DECL; SK_DISTINCT_TYPE; SK_BIT_FIELD_TYPE].

Definition FnDef_name (n : Node) : option Node := ast_first_token n SK_IDENT.
Definition FnDef_params (n : Node) : option Node := ast_first_child n SK_PARAM_LIST.
Definition FnDef_return_type (n : Node) : option Node := ast_first_child_pred n is_type_node.
Definition FnDef_body (n : Node) : option Node := ast_first_child n SK_BLOCK_STMT.
Definition StructDef_name (n : Node) : option Node := ast_first_token n SK_IDENT.
Definition StructDef_fields (n : Node) : option Node := ast_first_child n SK_FIELD_LIST.
Definition EnumDef_name (n : Node) : option Node := ast_first_token n SK_IDENT.
Definition EnumDef_variants (n : Node) : option Node := ast_first_child n SK_VARIANT_LIST.
Definition UnionDef_name (n : Node) : option Node := ast_first_token n SK_IDENT.
Definition UnionDef_variants (n : Node) : option Node := ast_first_child n SK_FIELD_LIST.
Definition EffectDef_name (n : Node) : option Node := ast_first_token n SK_IDENT.
Definition EffectDef_ops (n : Node) : option Node := ast_first_child n SK_FIELD_LIST.
Definition BindDef_name (n : Node) : option Node := ast_first_token n SK_IDENT.
Definition BindDef_type (n : Node) : option Node := ast_first_child_pred n is_type_node.
Definition BindDef_value (n : Node) : option Node := ast_first_child_pred n is_bind_rhs_node.
Definition Param_name (n : Node) : option Node := ast_first_token n SK_IDENT.
Definition Param_type (n : Node) : option Node := ast_first_child_pred n is_type_node.
Definition Field_name (n : Node) : option Node := ast_first_token n SK_IDENT.
Definition Field_type (n : Node) : option Node := ast_first_child_pred n is_type_node.
Definition Field_default (n : Node) : option Node := ast_first_child_pred n ore_kind_is_value_node.
Definition Variant_name (n : Node) : option Node := ast_first_token n SK_IDENT.

(** [::], or the second [:]. *)
Fixpoint const_bind (colons : nat) (es : list Node) : bool :=
  match es with
  | [] => false
  | e :: es =>
      if is_node e then const_bind colons es
      else if of_kind SK_COLON_COLON e then true
      else if of_kind SK_COLON e then if (S colons =? 2)%nat then true else const_bind (S colons) es
      else const_bind colons es
  end.

Definition BindDef_is_const (n : Node) : bool := const_bind 0 (children n).

Definition Variant_payload (n : Node) : option Node :=
  match ast_first_child n SK_PARAM_LIST with Some p => Some p | None => ast_first_child n SK_FIELD_LIST end.

Definition Variant_value (n : Node) : option Node := node_after SK_EQ false (children n).

(** ** [ast_expr.c] *)

Definition BinExpr_cast : Node -> option Node := cast SK_BIN_EXPR.
Definition AssignExpr_cast : Node -> option Node := cast SK_ASSIGN_EXPR.
Definition PrefixExpr_cast : Node -> option Node := cast SK_PREFIX_EXPR.
Definition PostfixExpr_cast : Node -> option Node := cast SK_POSTFIX_EXPR.
Definition CallExpr_cast : Node -> option Node := cast SK_CALL_EXPR.
Definition IndexExpr_cast : Node -> option Node := cast SK_INDEX_EXPR.
Definition SliceExpr_cast : Node -> option Node := cast SK_SLICE_EXPR.
Definition FieldExpr_cast : Node -> option Node := cast SK_FIELD_EXPR.
Definition PathExpr_cast : Node -> option Node := cast SK_PATH_EXPR.
Definition RefExpr_cast : Node -> option Node := cast SK_REF_EXPR.
Definition ParenExpr_cast : Node -> option Node := cast SK_PAREN_EXPR.
Definition Literal_cast : Node -> option Node := cast SK_LITERAL_EXPR.
Definition IfExpr_cast : Node -> option Node := cast SK_IF_EXPR.
Definition LoopExpr_cast : Node -> option Node := cast SK_LOOP_EXPR.
Definition SwitchExpr_cast : Node -> option Node := cast SK_SWITCH_EXPR.
Definition HandlerExpr_cast : Node -> option Node := cast SK_HANDLER_EXPR.
Definition MaskExpr_cast : Node -> option Node := cast SK_MASK_EXPR.
Definition ProductExpr_cast : Node -> option Node := cast SK_PRODUCT_EXPR.
Definition EnumRefExpr_cast : Node -> option Node := cast SK_ENUM_REF_EXPR.
Definition BuiltinExpr_cast : Node -> option Node := cast SK_BUILTIN_EXPR.
Definition ComptimeExpr_cast : Node -> option Node := cast SK_COMPTIME_EXPR.
Definition InitField_cast : Node -> option Node := cast SK_INIT_FIELD.
Definition Capture_cast : Node -> option Node := cast SK_CAPTURE.
Definition ReturnClause_cast : Node -> option Node := cast SK_RETURN_CLAUSE.

Definition LambdaExpr_cast (n : Node) : option Node := if ore_kind_is_lambda (node_kind n) then Some n else None.

Definition is_bin_op (k : OreSyntaxKind) : bool := ore_kind_is_bin_op_token k.
Definition is_assign_op (k : OreSyntaxKind) : bool := ore_kind_is_assign_op_token k.
Definition is_prefix_op (k : OreSyntaxKind) : bool := ore_kind_is_prefix_op_token k.
Definition is_postfix_op (k : OreSyntaxKind) : bool := ore_kind_is_postfix_op_token k.
Definition is_literal_tok (k : OreSyntaxKind) : bool :=
  ore_kind_is_literal_token k || existsb (kind_eqb k) [SK_TRUE_KW; SK_FALSE_KW; SK_NIL_KW; SK_UNREACHABLE_KW].

Definition BinExpr_lhs (n : Node) : option Node := ast_nth_node n 0.
Definition BinExpr_rhs (n : Node) : option Node := ast_nth_node n 1.
Definition BinExpr_op (n : Node) : option Node := ast_first_token_pred n is_bin_op.
Definition AssignExpr_lhs (n : Node) : option Node := ast_nth_node n 0.
Definition AssignExpr_rhs (n : Node) : option Node := ast_nth_node n 1.
Definition AssignExpr_op (n : Node) : option Node := ast_first_token_pred n is_assign_op.
Definition PrefixExpr_op (n : Node) : option Node := ast_first_token_pred n is_prefix_op.
Definition PrefixExpr_operand (n : Node) : option Node := ast_nth_node n 0.
Definition PostfixExpr_operand (n : Node) : option Node := ast_nth_node n 0.
Definition PostfixExpr_op (n : Node) : option Node := ast_first_token_pred n is_postfix_op.
Definition CallExpr_callee (n : Node) : option Node := ast_nth_node n 0.
Definition CallExpr_args (n : Node) : option Node := ast_first_child n SK_ARG_LIST.
Definition CallExpr_with_binder (n : Node) : option Node := ast_first_child n SK_PARAM.
Definition IndexExpr_base (n : Node) : option Node := ast_nth_node n 0.
Definition IndexExpr_index (n : Node) : option Node := ast_nth_node n 1.
Definition SliceExpr_base (n : Node) : option Node := ast_nth_node n 0.
Definition FieldExpr_base (n : Node) : option Node := ast_nth_node n 0.
Definition FieldExpr_field (n : Node) : option Node := ast_first_token n SK_IDENT.
Definition RefExpr_name (n : Node) : option Node := ast_first_token n SK_IDENT.
Definition ParenExpr_inner (n : Node) : option Node := ast_nth_node n 0.
Definition ComptimeExpr_inner (n : Node) : option Node := ast_nth_node n 0.
Definition Literal_token (n : Node) : option Node := ast_first_token_pred n is_literal_tok.
Definition IfExpr_condition (n : Node) : option Node := ast_nth_node n 0.
Definition IfExpr_capture (n : Node) : option Node := ast_first_child n SK_CAPTURE.
Definition LoopExpr_condition (n : Node) : option Node := ast_first_node_after_token n SK_LPAREN.
Definition LoopExpr_capture (n : Node) : option Node := ast_first_child n SK_CAPTURE.
Definition LoopExpr_continue (n : Node) : option Node := ast_first_child n SK_LOOP_CONTINUE.
Definition LoopExpr_else_branch (n : Node) : option Node := ast_first_node_after_token n SK_ELSE_KW.
Definition Capture_name (n : Node) : option Node := ast_first_token n SK_IDENT.
Definition SwitchExpr_scrutinee (n : Node) : option Node := ast_nth_node n 0.
Definition SwitchExpr_arms (n : Node) : option Node := ast_first_child n SK_STMT_LIST.
Definition LambdaExpr_params (n : Node) : option Node := ast_first_child n SK_PARAM_LIST.
Definition LambdaExpr_effect_row (n : Node) : option Node := ast_first_child n SK_EFFECT_ROW_TYPE.
Definition HandlerExpr_effect (n : Node) : option Node := ast_first_child n SK_EFFECT_ROW_TYPE.
Definition MaskExpr_effect (n : Node) : option Node := ast_first_child_pred n is_type_node.
Definition MaskExpr_body (n : Node) : option Node := ast_nth_node n 1.
Definition ProductExpr_type (n : Node) : option Node := ast_first_child_pred n is_type_node.
Definition ProductExpr_init (n : Node) : option Node := ast_first_child n SK_INIT_LIST.
Definition EnumRefExpr_variant (n : Node) : option Node := ast_first_token n SK_IDENT.
Definition BuiltinExpr_name (n : Node) : option Node := ast_first_token n SK_IDENT.
Definition BuiltinExpr_args (n : Node) : option Node := ast_first_child n SK_ARG_LIST.
Definition InitField_name (n : Node) : option Node := ast_first_token n SK_IDENT.
Definition InitField_value (n : Node) : option Node := ast_first_child_pred n ore_kind_is_value_node.
Definition ReturnClause_params (n : Node) : option Node := ast_first_child n SK_PARAM_LIST.
Definition ReturnClause_body (n : Node) : option Node := ast_first_child_pred n ore_kind_is_value_node.

(** The kind of an operator token; [SYNTAX_KIND_NONE] is [None]. *)
Definition BinExpr_op_kind (n : Node) : option OreSyntaxKind := node_kind <$> BinExpr_op n.
Definition AssignExpr_op_kind (n : Node) : option OreSyntaxKind := node_kind <$> AssignExpr_op n.
Definition PrefixExpr_op_kind (n : Node) : option OreSyntaxKind := node_kind <$> PrefixExpr_op n.
Definition PostfixExpr_op_kind (n : Node) : option OreSyntaxKind := node_kind <$> PostfixExpr_op n.
Definition Literal_kind (n : Node) : option OreSyntaxKind := node_kind <$> Literal_token n.

Definition CallExpr_is_with (n : Node) : bool := match ast_first_token n SK_WITH_KW with Some _ => true | None => false end.
Definition CallExpr_is_handle (n : Node) : bool := match ast_first_token n SK_HANDLE_KW with Some _ => true | None => false end.

Definition CallExpr_head (n : Node) : option Node :=
  List.find (fun e => is_node e && negb (of_kind SK_PARAM e) && negb (of_kind SK_ARG_LIST e)) (children n).

(** The last lambda of the arguments. *)
Definition CallExpr_with_continuation (n : Node) : option Node :=
  match ast_first_child n SK_ARG_LIST with
  | None => None
  | Some args => fold_left (fun cont e => if is_node e && of_kind SK_LAMBDA_EXPR e then Some e else cont) (children args) None
  end.

(** [lo] is between the bracket and the range operator, [hi] after it. *)
Fixpoint slice_bound (want_hi seen_lbracket seen_op : bool) (es : list Node) : option Node :=
  match es with
  | [] => None
  | e :: es =>
      if is_node e then
        if (if want_hi then seen_op else seen_lbracket && negb seen_op) then Some e
        else slice_bound want_hi seen_lbracket seen_op es
      else if of_kind SK_LBRACKET e then slice_bound want_hi true seen_op es
      else if of_kind SK_DOT_DOT_LT e || of_kind SK_DOT_DOT_EQ e then slice_bound want_hi seen_lbracket true es
      else slice_bound want_hi seen_lbracket seen_op es
  end.

Definition SliceExpr_lo (n : Node) : option Node := slice_bound false false false (children n).
Definition SliceExpr_hi (n : Node) : option Node := slice_bound true false false (children n).

(** The text of a string literal without its quotes. *)
Definition ast_string_literal_text (n : Node) : option (list byte) :=
  match Literal_cast n with
  | None => None
  | Some lit =>
      match Literal_token lit with
      | None => None
      | Some tok =>
          if of_kind SK_STRING_LIT tok then
            let txt := text_of tok in
            if (2 <=? length txt)%nat && bool_decide (head txt = Some x22) && bool_decide (last txt = Some x22)
            then Some (take (length txt - 2) (drop 1 txt)) else Some txt
          else None
      end
  end.

Definition IfExpr_then_branch (n : Node) : option Node :=
  match ast_first_node_after_token n SK_RPAREN with
  | Some t => if of_kind SK_CAPTURE t then next_sibling t else Some t
  | None => None
  end.

Definition IfExpr_else_branch (n : Node) : option Node :=
  match IfExpr_then_branch n with Some t => next_sibling t | None => None end.

(** The last node before [else]. *)
Fixpoint loop_body (body : option Node) (es : list Node) : option Node :=
  match es with
  | [] => body
  | e :: es =>
      if is_node e then loop_body (Some e) es
      else if of_kind SK_ELSE_KW e then body else loop_body body es
  end.

Definition LoopExpr_body (n : Node) : option Node := loop_body None (children n).

(** After the parameters and an effect row, what is not the body block. *)
Fixpoint return_type_from (past_params skipped_effect_row : bool) (es : list Node) : option Node :=
  match es with
  | [] => None
  | e :: es =>
      if negb (is_node e) then return_type_from past_params skipped_effect_row es
      else if negb past_params then return_type_from (of_kind SK_PARAM_LIST e) skipped_effect_row es
      else if negb skipped_effect_row && of_kind SK_EFFECT_ROW_TYPE e then return_type_from past_params true es
      else if of_kind SK_BLOCK_STMT e then None else Some e
  end.

Definition LambdaExpr_return_type (n : Node) : option Node := return_type_from false false (children n).

(** The last value among the children. *)
Definition LambdaExpr_body (n : Node) : option Node :=
  List.find (fun e => is_node e && ore_kind_is_value_node (node_kind e)) (reverse (children n)).

(** ** [ast_stmt.c] *)

Definition BlockStmt_cast : Node -> option Node := cast SK_BLOCK_STMT.
Definition ReturnStmt_cast : Node -> option Node := cast SK_RETURN_STMT.
Definition SwitchArm_cast : Node -> option Node := cast SK_SWITCH_ARM.
Definition BreakStmt_cast : Node -> option Node := cast SK_BREAK_STMT.
Definition ContinueStmt_cast : Node -> option Node := cast SK_CONTINUE_STMT.
Definition DeferStmt_cast : Node -> option Node := cast SK_DEFER_STMT.
Definition ExprStmt_cast : Node -> option Node := cast SK_EXPR_STMT.

Definition BlockStmt_stmts (n : Node) : option Node := ast_first_child n SK_STMT_LIST.
Definition ReturnStmt_value (n : Node) : option Node := ast_first_child_pred n ore_kind_is_value_node.
Definition SwitchArm_patterns (n : Node) : option Node := ast_first_child n SK_SWITCH_PATTERN_LIST.

(** The first pattern of the list. *)
Definition SwitchArm_pattern (n : Node) : option Node :=
  match ast_first_child n SK_SWITCH_PATTERN_LIST with Some list => first_node list | None => None end.

Definition SwitchArm_body (n : Node) : option Node := node_after SK_FATARROW false (children n).
Definition BreakStmt_label (n : Node) : option Node := ast_first_token n SK_IDENT.
Definition ContinueStmt_label (n : Node) : option Node := ast_first_token n SK_IDENT.
Definition DeferStmt_body (n : Node) : option Node := ast_first_child_pred n ore_kind_is_value_node.
Definition ExprStmt_expr (n : Node) : option Node := ast_first_child_pred n ore_kind_is_value_node.

(** ** [ast_type.c] *)

Definition RefType_cast : Node -> option Node := cast SK_REF_TYPE.
Definition PtrType_cast : Node -> option Node := cast SK_PTR_TYPE.
Definition SliceType_cast : Node -> option Node := cast SK_SLICE_TYPE.
Definition ArrayType_cast : Node -> option Node := cast SK_ARRAY_TYPE.
Definition ManyPtrType_cast : Node -> option Node := cast SK_MANY_PTR_TYPE.
Definition FnType_cast : Node -> option Node := cast SK_FN_TYPE.
Definition OptionalType_cast : Node -> option Node := cast SK_OPTIONAL_TYPE.
Definition ConstType_cast : Node -> option Node := cast SK_CONST_TYPE.
Definition HandlerTypeRef_cast : Node -> option Node := cast SK_HANDLER_TYPE.
Definition DistinctType_cast : Node -> option Node := cast SK_DISTINCT_TYPE.
Definition BitFieldType_cast : Node -> option Node := cast SK_BIT_FIELD_TYPE.
Definition EffectRowType_cast : Node -> option Node := cast SK_EFFECT_ROW_TYPE.

Definition RefType_name (n : Node) : option Node := ast_first_token n SK_IDENT.
Definition HandlerTypeRef_name (n : Node) : option Node := ast_first_token n SK_IDENT.
Definition DistinctType_backing (n : Node) : option Node := ast_first_child_pred n is_type_node.
Definition BitFieldType_backing (n : Node) : option Node := ast_first_child_pred n is_type_node.
Definition BitFieldType_fields (n : Node) : option Node := ast_first_child n SK_BIT_FIELD_LIST.
Definition PtrType_pointee (n : Node) : option Node := ast_first_child_pred n is_type_node.
Definition SliceType_element (n : Node) : option Node := ast_first_child_pred n is_type_node.
Definition ArrayType_size (n : Node) : option Node := ast_first_child_pred n ore_kind_is_value_node.
Definition ArrayType_element (n : Node) : option Node := ast_first_child_pred n is_type_node.
Definition ManyPtrType_element (n : Node) : option Node := ast_first_child_pred n is_type_node.
Definition FnType_params (n : Node) : option Node := ast_first_child n SK_PARAM_LIST.
Definition FnType_effect_row (n : Node) : option Node := ast_first_child n SK_EFFECT_ROW_TYPE.
Definition EffectRowType_labels (n : Node) : option Node := ast_first_child n SK_EFFECT_LABEL_LIST.
Definition EffectRowType_tail (n : Node) : option Node := ast_first_child n SK_EFFECT_ROW_TAIL.
Definition OptionalType_inner (n : Node) : option Node := ast_first_child_pred n is_type_node.
Definition ConstType_inner (n : Node) : option Node := ast_first_child_pred n is_type_node.

Definition FnType_return_type (n : Node) : option Node :=
  List.find (fun e => is_node e && negb (of_kind SK_PARAM_LIST e) && negb (of_kind SK_EFFECT_ROW_TYPE e) && is_type_node (node_kind e)) (children n).

Definition EffectRowType_tail_var (n : Node) : option Node :=
  match ast_first_child n SK_EFFECT_ROW_TAIL with Some tail => ast_first_token tail SK_IDENT | None => None end.

End Ast.
