(* ===== verification/Parser.v ===== *)
(** * Parser state, cursor and recovery: [src/parser_new/parser.c], [parser.h]

    A parse function is a state transformer [M A].  The fields of [struct Parser]
    that never change are the environment [ParserEnv]; the others are the record
    [Parser].  [source] is not NULL and [gb] is always present, as in
    [parse_file_green].  Loops run on a fuel of one more than the tokens left, and
    the recursive descent on an explicit fuel (see [ParseExpr.v]). *)

From S2P Require Import Prelude SyntaxKind Token Interner Green Builder.
Import SyntaxKind Token Green Builder.

Module Parser.

#[local] Open Scope string_scope.

Record ParseError := mkError { tok_pos : nat; msg : string }.

(** The [StrId]s of the contextual keywords. *)
Record ParserKws := mkKws {
  named : N; scoped : N; pub : N; pvt : N;
  abstract_ : N; distinct_ : N; bit_field_ : N; linear : N;
  ctl : N; val_ : N; final_ctl : N; direct : N;
  override_ : N; in_ : N
}.

Record ParserEnv := mkEnv {
  tokens : list Token;
  source : list byte;
  kws : ParserKws
}.

Record Parser := mkParser {
  gb : GreenBuilder;
  pos : nat;
  errors : list ParseError;
  parsing_type : bool;
  no_trailing_lambda : bool;
  fix_count : nat;
  in_recovery : bool
}.

Definition set_gb (b : GreenBuilder) (p : Parser) : Parser :=
  mkParser b (pos p) (errors p) (parsing_type p) (no_trailing_lambda p) (fix_count p)
           (in_recovery p).
Definition set_pos (n : nat) (p : Parser) : Parser :=
  mkParser (gb p) n (errors p) (parsing_type p) (no_trailing_lambda p) (fix_count p)
           (in_recovery p).
Definition set_parsing_type (b : bool) (p : Parser) : Parser :=
  mkParser (gb p) (pos p) (errors p) b (no_trailing_lambda p) (fix_count p) (in_recovery p).
Definition set_no_trailing_lambda (b : bool) (p : Parser) : Parser :=
  mkParser (gb p) (pos p) (errors p) (parsing_type p) b (fix_count p) (in_recovery p).
Definition set_fix_count (n : nat) (p : Parser) : Parser :=
  mkParser (gb p) (pos p) (errors p) (parsing_type p) (no_trailing_lambda p) n
           (in_recovery p).
Definition set_in_recovery (b : bool) (p : Parser) : Parser :=
  mkParser (gb p) (pos p) (errors p) (parsing_type p) (no_trailing_lambda p) (fix_count p) b.
Definition add_error (e : ParseError) (p : Parser) : Parser :=
  mkParser (gb p) (pos p) (errors p ++ [e]) (parsing_type p) (no_trailing_lambda p)
           (fix_count p) (in_recovery p).

(** ** The monad *)

Definition M (A : Type) : Type := Parser -> outcome (A * Parser).

Definition ret {A} (a : A) : M A := fun p => Ret (a, p).
Definition bind {A B} (m : M A) (k : A -> M B) : M B :=
  fun p => let! (a, p) := m p in k a p.
Definition gets {A} (f : Parser -> A) : M A := fun p => Ret (f p, p).
Definition modify (f : Parser -> Parser) : M unit := fun p => Ret (tt, f p).

End Parser.

Declare Scope parse_scope.
Delimit Scope parse_scope with parse.

Notation "'let*' x ':=' m 'in' k" := (Parser.bind m (fun x => k))
  (at level 10, x pattern, m at level 100, k at level 200,
   format "'[v' 'let*'  x  ':='  m  'in' '/' k ']'") : parse_scope.
Notation "m ;;; k" := (Parser.bind m (fun _ => k))
  (at level 100, right associativity, format "'[v' m  ;;; '/' k ']'") : parse_scope.

Module Cursor.
Import Parser.

#[local] Open Scope string_scope.
#[local] Open Scope parse_scope.

(** A command run on a condition. *)
Definition when (b : bool) (m : M unit) : M unit := if b then m else ret tt.

(** [while]: the body says whether to go round again. *)
Fixpoint loop_fuel (fuel : nat) (body : M bool) : M unit :=
  match fuel with
  | O => fun _ => OutOfFuel
  | S f => let* again := body in if again : bool then loop_fuel f body else ret tt
  end.

Section Cursor.
Context (E : ParserEnv).

Definition loop (body : M bool) : M unit :=
  fun p => loop_fuel (S (length (tokens E) - pos p)) body p.

(** ** Lookahead: no effect on the state *)

Definition count : nat := length (tokens E).

Definition p_current (p : Parser) : option Token :=
  if (count <=? pos p)%nat then last (tokens E) else nth_error (tokens E) (pos p).

Definition p_peek (p : Parser) : OreSyntaxKind :=
  match p_current p with Some t => kind t | None => SK_EOF end.

Definition p_is_eof (p : Parser) : bool := kind_eqb (p_peek p) SK_EOF.

(** The first index from [i] that is not trivia; structural on the tokens from
    [i]. *)
Fixpoint skip_trivia_from (ts : list Token) (i : nat) : nat :=
  match ts with
  | t :: ts => if token_is_trivia (kind t) then skip_trivia_from ts (S i) else i
  | [] => i
  end.

Fixpoint logical_index_from (offset i : nat) : nat :=
  match offset with
  | O => i
  | S n =>
      if (i <? count)%nat
      then logical_index_from n (skip_trivia_from (drop (S i) (tokens E)) (S i))
      else i
  end.

Definition p_logical_index (p : Parser) (offset : nat) : nat :=
  logical_index_from offset (pos p).

Definition p_peek_at (offset : nat) (p : Parser) : OreSyntaxKind :=
  let i := p_logical_index p offset in
  if (count <=? i)%nat then
    match last (tokens E) with Some t => kind t | None => SK_EOF end
  else match nth_error (tokens E) i with Some t => kind t | None => SK_EOF end.

Definition p_token_at (p : Parser) (offset : nat) : option Token :=
  let i := p_logical_index p offset in
  if (count <=? i)%nat then None else nth_error (tokens E) i.

(** The brace and semicolon pairs also accept the virtual sibling. *)
Definition kind_matches_with_virtual (asked cur : OreSyntaxKind) : bool :=
  if kind_eqb asked cur then true
  else if kind_eqb asked SK_LBRACE && kind_eqb cur SK_VIRTUAL_LBRACE then true
  else if kind_eqb asked SK_RBRACE && kind_eqb cur SK_VIRTUAL_RBRACE then true
  else if kind_eqb asked SK_SEMI && kind_eqb cur SK_VIRTUAL_SEMI then true
  else false.

Definition p_check (k : OreSyntaxKind) (p : Parser) : bool :=
  kind_matches_with_virtual k (p_peek p).

Definition tok_is_kw (t : option Token) (kw : N) : bool :=
  match t with
  | Some t => kind_eqb (kind t) SK_IDENT && (string_id t =? kw)%N
  | None => false
  end.

Definition p_at_kw (kw : N) (p : Parser) : bool := tok_is_kw (p_current p) kw.

(** ** Moving *)

(** [green_builder_token(gb, t->kind, source + t->start, token_len(t))]. *)
Definition token_text (t : Token) : list byte :=
  sub_bytes (source E) (start t) (token_len t).

Definition emit_token (t : Token) (p : Parser) : Parser :=
  set_gb (green_builder_token (kind t) (token_text t) (gb p)) p.

(** Emits the run of trivia at the cursor; [ts] is the tokens from the cursor. *)
Fixpoint skip_trivia_run (ts : list Token) (p : Parser) : Parser :=
  match ts with
  | t :: ts =>
      if token_is_trivia (kind t)
      then skip_trivia_run ts (set_pos (S (pos p)) (emit_token t p))
      else p
  | [] => p
  end.

Definition skip_trivia : M unit :=
  modify (fun p => skip_trivia_run (drop (pos p) (tokens E)) p).

(** A [;] or [}], written or virtual. *)
Definition ends_unit (k : OreSyntaxKind) : bool :=
  ore_kind_is_stmt_sep k || ore_kind_is_close_brace k.

Definition p_advance : M (option Token) := fun p =>
  let t := p_current p in
  if p_is_eof p then Ret (t, p)
  else
    match t with
    | None => Ret (None, set_pos (S (pos p)) p)
    | Some t =>
        let p := emit_token t p in
        let p := if ends_unit (kind t) then set_in_recovery false p else p in
        let! (_, p) := skip_trivia (set_pos (S (pos p)) p) in
        Ret (Some t, p)
    end.

Definition p_error (m : string) : M unit := modify (fun p =>
  if in_recovery p then p
  else set_in_recovery true (add_error (mkError (pos p) m) p)).

Definition p_match (k : OreSyntaxKind) : M bool :=
  let* b := gets (p_check k) in
  if b : bool then p_advance ;;; ret true else ret false.

Definition p_consume (k : OreSyntaxKind) (err_msg : string) : M (option Token) :=
  let* b := gets (p_check k) in
  if b : bool then p_advance else p_error err_msg ;;; ret None.

Definition p_match_kw (kw : N) : M bool :=
  let* b := gets (p_at_kw kw) in
  if b : bool then p_advance ;;; ret true else ret false.

(** ** Nodes *)

Definition p_start_node (k : OreSyntaxKind) : M unit :=
  modify (fun p => set_gb (green_builder_start_node k (gb p)) p).

Definition p_finish_node : M unit := fun p =>
  let! b := green_builder_finish_node (gb p) in Ret (tt, set_gb b p).

Definition p_checkpoint : M nat := gets (fun p => green_builder_checkpoint (gb p)).

Definition p_start_node_at (cp : nat) (k : OreSyntaxKind) : M unit := fun p =>
  let! b := green_builder_start_node_at cp k (gb p) in Ret (tt, set_gb b p).

(** ** Recovery *)

(** [SyncSet]: a set of bits. *)
Definition SYNC_SEMI : N := N.shiftl 1 0.
Definition SYNC_RBRACE : N := N.shiftl 1 1.
Definition SYNC_RPAREN : N := N.shiftl 1 2.
Definition SYNC_RBRACKET : N := N.shiftl 1 3.
Definition SYNC_GT : N := N.shiftl 1 4.
Definition SYNC_COMMA : N := N.shiftl 1 5.
Definition SYNC_PIPE : N := N.shiftl 1 6.
Definition SYNC_LBRACE : N := N.shiftl 1 7.

Definition PARSE_FIX_CAP : nat := 1000.

Definition has_bit (sync bit : N) : bool := negb (N.land sync bit =? 0)%N.

Definition at_sync (sync : N) (p : Parser) : bool :=
  if has_bit sync SYNC_SEMI && p_check SK_SEMI p then true
  else if has_bit sync SYNC_RBRACE && p_check SK_RBRACE p then true
  else
    let k := p_peek p in
    if has_bit sync SYNC_RPAREN && kind_eqb k SK_RPAREN then true
    else if has_bit sync SYNC_RBRACKET && kind_eqb k SK_RBRACKET then true
    else if has_bit sync SYNC_GT && kind_eqb k SK_GT then true
    else if has_bit sync SYNC_COMMA && kind_eqb k SK_COMMA then true
    else if has_bit sync SYNC_PIPE && kind_eqb k SK_PIPE then true
    else if has_bit sync SYNC_LBRACE && ore_kind_is_open_brace k then true
    else false.

(** [p_advance(p); p->fix_count++]. *)
Definition skip_one : M unit :=
  p_advance ;;; modify (fun p => set_fix_count (S (fix_count p)) p).

Definition p_recover (sync : N) (m : string) : M unit :=
  let* capped := gets (fun p => (fix_count p <? PARSE_FIX_CAP)%nat) in
  when capped (p_error m) ;;;
  p_start_node SK_ERROR_NODE ;;;
  let* start := gets pos in
  loop (let* go := gets (fun p => negb (p_is_eof p) && negb (at_sync sync p) &&
                                  (fix_count p <? PARSE_FIX_CAP)%nat) in
        if go : bool then skip_one ;;; ret true else ret false) ;;;
  let* stuck := gets (fun p => (pos p =? start)%nat && negb (p_is_eof p)) in
  when stuck skip_one ;;;
  p_finish_node.

(** The bits one open frame adds. *)
Definition sync_of_frame (k : OreSyntaxKind) : N :=
  match k with
  | SK_ARG_LIST => N.lor SYNC_RPAREN SYNC_COMMA
  | SK_PARAM_LIST => N.lor (N.lor SYNC_RPAREN SYNC_COMMA) SYNC_LBRACE
  | SK_EFFECT_ROW_TYPE | SK_EFFECT_LABEL_LIST => N.lor SYNC_GT SYNC_COMMA
  | SK_INIT_LIST | SK_SWITCH_PATTERN_LIST => SYNC_COMMA
  | _ => 0
  end.

Definition compute_sync (p : Parser) : N :=
  fold_left (fun s i => N.lor s (sync_of_frame (green_builder_open_kind_at (gb p) i)))
            (seq 0 (green_builder_open_count (gb p)))
            (N.lor SYNC_SEMI SYNC_RBRACE).

Definition p_recover_auto (m : string) : M unit :=
  let* sync := gets compute_sync in p_recover sync m.

End Cursor.

(** [init_parser_kws]: interning in the order of the C code. *)
Definition init_parser_kws {P} `{!Interner P} (pl : P) : ParserKws * P :=
  let kw (s : string) (pl : P) := pool_intern pl (bs s) in
  let '(pl, k1) := kw "named" pl in
  let '(pl, k2) := kw "scoped" pl in
  let '(pl, k3) := kw "pub" pl in
  let '(pl, k4) := kw "pvt" pl in
  let '(pl, k5) := kw "abstract" pl in
  let '(pl, k6) := kw "distinct" pl in
  let '(pl, k7) := kw "bit-field" pl in
  let '(pl, k8) := kw "linear" pl in
  let '(pl, k9) := kw "ctl" pl in
  let '(pl, k10) := kw "val" pl in
  let '(pl, k11) := kw "final-ctl" pl in
  let '(pl, k12) := kw "direct" pl in
  let '(pl, k13) := kw "override" pl in
  let '(pl, k14) := kw "in" pl in
  (mkKws k1 k2 k3 k4 k5 k6 k7 k8 k9 k10 k11 k12 k13 k14, pl).

End Cursor.
