(* ===== verification/ParseExpr.v ===== *)
(** * The recursive descent: [src/parser_new/parse_expr.c], [parse_stmt.c],
    [parse_handler.c], [parse_decl.c]

    One definition per C function, in an order that follows the calls.  The
    functions call one another in a cycle through [parse_expr], [parse_prefix] and
    [parse_if_expr]; those three are the cases of [call], and every other function
    takes the interpreter of calls [rec] as a parameter.  [run] ties the knot on a
    fuel; [parse_fuel] is enough for any token vector. *)

From S2P Require Import Prelude SyntaxKind Token Interner Green Builder Parser.
Import SyntaxKind Token Green Builder Parser Cursor.

Module ParseExpr.

#[local] Open Scope string_scope.
#[local] Open Scope parse_scope.

(** ** Precedences: [enum Precedence] *)

Definition PREC_NONE : nat := 0.
Definition PREC_BIND : nat := 1.
Definition PREC_LAMBDA : nat := 2.
Definition PREC_ASSIGN : nat := 3.
Definition PREC_OR : nat := 4.
Definition PREC_AND : nat := 5.
Definition PREC_EQUALITY : nat := 6.
Definition PREC_COMPARISON : nat := 7.
Definition PREC_RANGE : nat := 8.
Definition PREC_BITWISE : nat := 9.
Definition PREC_SHIFT : nat := 10.
Definition PREC_TERM : nat := 11.
Definition PREC_FACTOR : nat := 12.
Definition PREC_POWER : nat := 13.
Definition PREC_UNARY : nat := 14.
Definition PREC_POSTFIX : nat := 15.

Definition get_infix_precedence (k : OreSyntaxKind) : nat :=
  match k with
  | SK_EQ | SK_PLUS_EQ | SK_MINUS_EQ | SK_STAR_EQ | SK_SLASH_EQ | SK_PERCENT_EQ
  | SK_AMP_EQ | SK_PIPE_EQ | SK_TILDE_EQ => PREC_ASSIGN
  | SK_PIPE_PIPE | SK_ORELSE_KW => PREC_OR
  | SK_AMP_AMP => PREC_AND
  | SK_EQ_EQ | SK_BANG_EQ => PREC_EQUALITY
  | SK_LT | SK_LE | SK_GT | SK_GE => PREC_COMPARISON
  | SK_DOT_DOT_LT | SK_DOT_DOT_EQ => PREC_RANGE
  | SK_PIPE | SK_AMP | SK_TILDE => PREC_BITWISE
  | SK_SHL | SK_SHR => PREC_SHIFT
  | SK_PLUS | SK_MINUS => PREC_TERM
  | SK_STAR | SK_SLASH | SK_PERCENT => PREC_FACTOR
  | SK_STAR_STAR => PREC_POWER
  | _ => PREC_NONE
  end.

Definition is_right_associative (k : OreSyntaxKind) : bool :=
  match k with
  | SK_STAR_STAR | SK_EQ | SK_PLUS_EQ | SK_MINUS_EQ | SK_STAR_EQ | SK_SLASH_EQ
  | SK_PERCENT_EQ | SK_AMP_EQ | SK_PIPE_EQ | SK_TILDE_EQ => true
  | _ => false
  end.

(** ** The calls that close the cycle *)

Inductive call : Set :=
  | CExpr (precedence : nat)
  | CPrefix
  | CIf.

Section Descent.
Context (E : ParserEnv) (rec : call -> M unit).

#[local] Notation peek := (gets (p_peek E)).
#[local] Notation peek_at n := (gets (p_peek_at E n)).
#[local] Notation is_eof := (gets (p_is_eof E)).
#[local] Notation check k := (gets (p_check E k)).
#[local] Notation at_kw f := (gets (p_at_kw E (f (kws E)))).
#[local] Notation advance := (p_advance E).
#[local] Notation match_ k := (p_match E k).
#[local] Notation consume k m := (p_consume E k m).
#[local] Notation start k := (p_start_node k).
#[local] Notation finish := p_finish_node.
#[local] Notation "k == k'" := (kind_eqb k k') (at level 70) : parse_scope.

Definition parse_expr (precedence : nat) : M unit := rec (CExpr precedence).
Definition parse_prefix : M unit := rec CPrefix.
Definition parse_if_expr : M unit := rec CIf.

(** [while (cond) body]. *)
Definition while_ (cond : M bool) (body : M unit) : M unit :=
  loop E (let* c := cond in if c : bool then body ;;; ret true else ret false).

(** [while (cond) { body; if (!p_match(SK_COMMA)) break; }]. *)
Definition comma_loop (cond : M bool) (body : M unit) : M unit :=
  loop E (let* c := cond in
          if c : bool then body ;;; match_ SK_COMMA else ret false).

(** [!p_is_eof(p) && p_peek(p) != k]. *)
Definition before (k : OreSyntaxKind) : M bool :=
  let* e := is_eof in let* k' := peek in ret (negb e && negb (k' == k)).

(** [!p_is_eof(p) && !p_check(p, k)]. *)
Definition inside (k : OreSyntaxKind) : M bool :=
  let* e := is_eof in let* c := check k in ret (negb e && negb c).

(** [if (p->pos == before) p_recover_auto(p, msg)]. *)
Definition recover_if_stuck (before : nat) (m : string) : M unit :=
  let* pos := gets pos in
  when (pos =? before)%nat (p_recover_auto E m).

(** Save, set and restore one of the two context flags around a command. *)
Definition with_parsing_type (b : bool) (m : M unit) : M unit :=
  let* saved := gets parsing_type in
  modify (set_parsing_type b) ;;; m ;;; modify (set_parsing_type saved).
Definition with_no_trailing_lambda (b : bool) (m : M unit) : M unit :=
  let* saved := gets no_trailing_lambda in
  modify (set_no_trailing_lambda b) ;;; m ;;; modify (set_no_trailing_lambda saved).

(** ** Types *)

(** The [while (depth > 0 && !p_is_eof(p))] loop that skips a bracket group. *)
Fixpoint skip_angles (fuel depth : nat) : M unit :=
  match fuel with
  | O => fun _ => OutOfFuel
  | S f =>
      let* e := is_eof in
      if (0 <? depth)%nat && negb e then
        let* k := peek in
        let depth := if k == SK_LT then S depth
                     else if k == SK_GT then pred depth else depth in
        advance ;;; skip_angles f depth
      else ret tt
  end.

Definition parse_type_expr : M unit :=
  with_parsing_type true (
    parse_expr PREC_BITWISE ;;;
    let* pt := gets parsing_type in
    let* k := peek in
    when (pt && (k == SK_LT)) (
      p_error "generic type application is not supported (ore has no generics)" ;;;
      advance ;;;
      fun p => skip_angles (S (count E - pos p)) 1 p)).

Definition parse_qualified_type (kind : OreSyntaxKind) : M unit :=
  start kind ;;;
  advance ;;;
  consume SK_IDENT "expected a type name after the type keyword" ;;;
  finish.

Definition parse_distinct_type : M unit :=
  start SK_DISTINCT_TYPE ;;;
  advance ;;;
  parse_type_expr ;;;
  finish.

(** One turn of the field loop. *)
Definition parse_bit_field : M unit :=
  let* named := check SK_IDENT in
  if negb named then p_recover_auto E "expected bit-field field name"
  else
    start SK_BIT_FIELD ;;;
    advance ;;;
    consume SK_COLON "expected ':' after field name" ;;;
    parse_type_expr ;;;
    let* pipe := consume SK_PIPE "expected '|' before bit width" in
    when (match pipe with Some _ => true | None => false end) (parse_expr PREC_BITWISE) ;;;
    finish ;;;
    match_ SK_SEMI ;;; ret tt.

Definition parse_bit_field_type : M unit :=
  start SK_BIT_FIELD_TYPE ;;;
  advance ;;;
  parse_type_expr ;;;
  consume SK_LBRACE "expected '{' after bit-field backing type" ;;;
  with_parsing_type false (
    start SK_BIT_FIELD_LIST ;;;
    while_ (inside SK_RBRACE) parse_bit_field ;;;
    finish) ;;;
  consume SK_RBRACE "expected '}' to close bit-field" ;;;
  finish.

Definition parse_effect_row : M unit :=
  start SK_EFFECT_ROW_TYPE ;;;
  consume SK_LT "expected '<' to start effect row" ;;;
  start SK_EFFECT_LABEL_LIST ;;;
  loop E (
    let* c := before SK_GT in
    if negb c then ret false else
    let* k := peek in
    if (k == SK_DOT_DOT_DOT) || (k == SK_DOT_DOT) then ret false else
    parse_type_expr ;;;
    match_ SK_COMMA) ;;;
  finish ;;;
  let* k := peek in
  (if k == SK_DOT_DOT_DOT then
     start SK_EFFECT_ROW_TAIL ;;; advance ;;; finish
   else if k == SK_DOT_DOT then
     start SK_EFFECT_ROW_TAIL ;;; advance ;;;
     consume SK_IDENT "expected effect-variable name after '..'" ;;; finish
   else ret tt) ;;;
  consume SK_GT "expected '>' to close effect row" ;;;
  finish.

(** ** Parameters, labels, captures *)

Definition parse_optional_label : M unit := match_ SK_LABEL ;;; ret tt.

Definition parse_param (name_required : bool) : M unit :=
  start SK_PARAM ;;;
  match_ SK_COMPTIME_KW ;;;
  (if name_required then
     let* name := consume SK_IDENT "expected parameter name" in
     match name with
     | Some _ => let* b := match_ SK_COLON in when b parse_type_expr
     | None => ret tt
     end
   else parse_type_expr) ;;;
  finish.

Definition parse_optional_capture : M bool :=
  let* k := peek in
  if negb (k == SK_LT) then ret false else
  start SK_CAPTURE ;;;
  advance ;;;
  consume SK_IDENT "expected capture name after '<'" ;;;
  consume SK_GT "expected '>' after capture name" ;;;
  finish ;;;
  ret true.

(** ** Bind declarations *)

Definition at_modifier_kw (t : option Token) : bool :=
  match t with
  | None => false
  | Some tk =>
      if kind tk == SK_COMPTIME_KW then true
      else if negb (kind tk == SK_IDENT) then false
      else
        tok_is_kw t (pub (kws E)) || tok_is_kw t (pvt (kws E)) ||
        tok_is_kw t (abstract_ (kws E)) || tok_is_kw t (named (kws E)) ||
        tok_is_kw t (scoped (kws E)) || tok_is_kw t (linear (kws E))
  end.

Definition emit_bind_decl_tail (bind_op : OreSyntaxKind) (lhs_cp : nat)
    (is_destructure : bool) : M unit :=
  let is_typed := bind_op == SK_COLON in
  let wrap := if is_destructure then SK_DESTRUCTURE_DECL else SK_BIND_DECL in
  p_start_node_at lhs_cp wrap ;;;
  advance ;;;
  let* bare :=
    if is_typed then
      parse_type_expr ;;;
      let* c := match_ SK_COLON in
      if c : bool then ret false else
      let* e := match_ SK_EQ in
      ret (negb e)
    else ret false in
  if bare : bool then finish else
  while_ (gets (fun p => at_modifier_kw (p_current E p))) (advance ;;; ret tt) ;;;
  let* d := at_kw distinct_ in
  let* bf := at_kw bit_field_ in
  (if d || bf then parse_type_expr else parse_expr PREC_BIND) ;;;
  finish.

Definition parse_named_bind_decl : M unit :=
  let* cp := p_checkpoint in
  advance ;;;
  let* bind_op := peek in
  emit_bind_decl_tail bind_op cp false.

Definition parse_bare_destructure_tail (lhs_cp : nat) : M unit :=
  p_start_node_at lhs_cp SK_PRODUCT_EXPR ;;;
  while_ (match_ SK_COMMA) (parse_expr PREC_NONE) ;;;
  finish ;;;
  let* op := peek in
  if (op == SK_COLON_COLON) || (op == SK_COLON_EQ)
  then emit_bind_decl_tail op lhs_cp true
  else p_error "expected `::` or `:=` after comma-separated destructure targets".

(** ** Statements and blocks *)

Definition is_bind_op (k : OreSyntaxKind) : bool :=
  (k == SK_COLON_COLON) || (k == SK_COLON_EQ) || (k == SK_COLON).

Definition parse_stmt : M unit :=
  let* k := peek in
  let* nx := peek_at 1 in
  if (k == SK_IDENT) && is_bind_op nx then parse_named_bind_decl
  else
    let* cp := p_checkpoint in
    parse_expr PREC_NONE ;;;
    let* k := peek in
    when (k == SK_COMMA) (parse_bare_destructure_tail cp).

(** The statement loop of a block. *)
Definition stmt_loop (stmt_parser : M unit) : M unit :=
  while_ (inside SK_RBRACE) (
    let* before := gets pos in
    stmt_parser ;;;
    match_ SK_SEMI ;;;
    recover_if_stuck before "expected statement").

Definition parse_block (stmt_parser : M unit) : M bool :=
  start SK_BLOCK_STMT ;;;
  match_ SK_LABEL ;;;
  let* open := consume SK_LBRACE "expected '{' to start block" in
  match open with
  | None => finish ;;; ret false
  | Some _ =>
      start SK_STMT_LIST ;;;
      stmt_loop stmt_parser ;;;
      finish ;;;
      consume SK_RBRACE "expected '}' to end block" ;;;
      finish ;;;
      ret true
  end.

Definition parse_body (stmt_parser : M unit) : M bool :=
  let* l := check SK_LABEL in
  let* b := check SK_LBRACE in
  let* v := check SK_VIRTUAL_LBRACE in
  if l || b || v then parse_block stmt_parser
  else parse_expr PREC_NONE ;;; ret true.

(** ** Lambdas and function types *)

Definition fn_lambda_body_starts : M bool :=
  let* rk := peek in
  ret (if (rk == SK_RPAREN) || (rk == SK_COMMA) || (rk == SK_GT) || (rk == SK_RBRACKET) ||
          (rk == SK_PIPE) || (rk == SK_EOF)
       then false
       else if ore_kind_is_stmt_sep rk || ore_kind_is_close_brace rk then false
       else true).

Definition parse_lambda (kind : OreSyntaxKind) : M unit :=
  start kind ;;;
  advance ;;;
  consume SK_LPAREN "expected '(' to start lambda parameters" ;;;
  start SK_PARAM_LIST ;;;
  comma_loop (before SK_RPAREN) (parse_param true) ;;;
  consume SK_RPAREN "expected ')' after parameters" ;;;
  finish ;;;
  let* k := peek in
  when (k == SK_LT) parse_effect_row ;;;
  let* arrow := match_ SK_RARROW in
  when arrow parse_type_expr ;;;
  let* body := fn_lambda_body_starts in
  when body (parse_body parse_stmt ;;; ret tt) ;;;
  finish.

Definition parse_fn_lambda : M unit := parse_lambda SK_LAMBDA_EXPR.

Definition parse_fn_type : M unit :=
  start SK_FN_TYPE ;;;
  advance ;;;
  consume SK_LPAREN "expected '(' after Fn" ;;;
  start SK_PARAM_LIST ;;;
  comma_loop (before SK_RPAREN) (parse_param false) ;;;
  consume SK_RPAREN "expected ')'" ;;;
  finish ;;;
  let* k := peek in
  when (k == SK_LT) parse_effect_row ;;;
  let* arrow := match_ SK_RARROW in
  when arrow parse_type_expr ;;;
  finish.

Definition emit_trailing_thunk_lambda : M unit :=
  let* k := peek in
  if k == SK_FN_KW then parse_fn_lambda
  else
    start SK_LAMBDA_EXPR ;;;
    start SK_PARAM_LIST ;;;
    finish ;;;
    parse_body parse_stmt ;;;
    finish.

(** ** Postfix and infix *)

Definition infix_call (left_cp : nat) : M unit :=
  p_start_node_at left_cp SK_CALL_EXPR ;;;
  start SK_ARG_LIST ;;;
  advance ;;;
  with_no_trailing_lambda false (comma_loop (before SK_RPAREN) (parse_expr PREC_NONE)) ;;;
  consume SK_RPAREN "expected ')' after arguments" ;;;
  let* nx := peek in
  let* pt := gets parsing_type in
  let* ntl := gets no_trailing_lambda in
  when (negb pt && negb ntl &&
        ((nx == SK_FN_KW) || (nx == SK_LBRACE) || (nx == SK_VIRTUAL_LBRACE)))
    emit_trailing_thunk_lambda ;;;
  finish ;;;
  finish.

Definition infix_thunk (left_cp : nat) : M unit :=
  p_start_node_at left_cp SK_CALL_EXPR ;;;
  start SK_ARG_LIST ;;;
  emit_trailing_thunk_lambda ;;;
  finish ;;;
  finish.

Definition infix_bracket (left_cp : nat) : M unit :=
  let cp := left_cp in
  advance ;;;
  let* k := peek in
  if (k == SK_DOT_DOT_LT) || (k == SK_DOT_DOT_EQ) then
    p_error "open-left slice not allowed; write `[0..<hi]`" ;;;
    advance ;;;
    let* k := peek in
    when (negb (k == SK_RBRACKET)) (parse_expr PREC_RANGE) ;;;
    consume SK_RBRACKET "expected ']' to close slice" ;;;
    p_start_node_at cp SK_SLICE_EXPR ;;;
    finish
  else
    parse_expr PREC_RANGE ;;;
    let* lt := match_ SK_DOT_DOT_LT in
    let* is_slice := if lt : bool then ret true else match_ SK_DOT_DOT_EQ in
    if is_slice : bool then
      let* k := peek in
      when (negb (k == SK_RBRACKET)) (parse_expr PREC_RANGE) ;;;
      consume SK_RBRACKET "expected ']' to close slice" ;;;
      p_start_node_at cp SK_SLICE_EXPR ;;;
      finish
    else
      consume SK_RBRACKET "expected ']' after index" ;;;
      p_start_node_at cp SK_INDEX_EXPR ;;;
      finish.

Definition infix_field (left_cp : nat) : M unit :=
  let* pt := gets parsing_type in
  p_start_node_at left_cp (if pt : bool then SK_PATH_TYPE else SK_FIELD_EXPR) ;;;
  advance ;;;
  consume SK_IDENT "expected field name after '.'" ;;;
  finish.

Definition infix_postfix (left_cp : nat) : M unit :=
  p_start_node_at left_cp SK_POSTFIX_EXPR ;;;
  advance ;;;
  finish.

Definition infix_binary (op_kind : OreSyntaxKind) (left_cp : nat) : M unit :=
  let prec := get_infix_precedence op_kind in
  let next_prec := if is_right_associative op_kind then (prec - 1)%nat else prec in
  let wrap := if ore_kind_is_assign_op_token op_kind then SK_ASSIGN_EXPR else SK_BIN_EXPR in
  p_start_node_at left_cp wrap ;;;
  advance ;;;
  parse_expr next_prec ;;;
  finish.

Definition parse_infix (op_kind : OreSyntaxKind) (left_cp : nat) : M unit :=
  if op_kind == SK_LPAREN then infix_call left_cp
  else if (op_kind == SK_FN_KW) || (op_kind == SK_LBRACE) || (op_kind == SK_VIRTUAL_LBRACE)
  then infix_thunk left_cp
  else if op_kind == SK_LBRACKET then infix_bracket left_cp
  else if op_kind == SK_DOT then infix_field left_cp
  else if (op_kind == SK_CARET) || (op_kind == SK_QUESTION) || (op_kind == SK_PLUS_PLUS) ||
          (op_kind == SK_MINUS_MINUS)
  then infix_postfix left_cp
  else infix_binary op_kind left_cp.

(** ** Simple prefix forms *)

Definition parse_prefix_unary (wrap_kind : OreSyntaxKind) : M unit :=
  start wrap_kind ;;;
  advance ;;;
  let* pt := gets parsing_type in
  with_parsing_type
    (if (wrap_kind == SK_PTR_TYPE) || (wrap_kind == SK_OPTIONAL_TYPE) ||
        (wrap_kind == SK_CONST_TYPE) then true else pt)
    (parse_expr PREC_UNARY) ;;;
  finish.

Definition parse_return_expr : M unit :=
  start SK_RETURN_STMT ;;;
  advance ;;;
  let* body := fn_lambda_body_starts in
  when body (parse_body parse_stmt ;;; ret tt) ;;;
  finish.

Definition parse_defer_expr : M unit :=
  start SK_DEFER_STMT ;;;
  advance ;;;
  parse_body parse_stmt ;;;
  finish.

Definition parse_break_or_continue (wrap_kind : OreSyntaxKind) : M unit :=
  start wrap_kind ;;;
  advance ;;;
  parse_optional_label ;;;
  let* body := fn_lambda_body_starts in
  when ((wrap_kind == SK_BREAK_STMT) && body) (parse_body parse_stmt ;;; ret tt) ;;;
  finish.

(** ** Control flow *)

Definition parse_if_expr_body : M unit :=
  start SK_IF_EXPR ;;;
  advance ;;;
  consume SK_LPAREN "expected '(' after if" ;;;
  with_no_trailing_lambda true (parse_expr PREC_NONE) ;;;
  consume SK_RPAREN "expected ')' after if condition" ;;;
  parse_optional_capture ;;;
  parse_body parse_stmt ;;;
  let* k := peek in
  (if k == SK_ELIF_KW then parse_if_expr
   else
     let* els := match_ SK_ELSE_KW in
     when els (parse_body parse_stmt ;;; ret tt)) ;;;
  finish.

Definition loop_continue : M unit :=
  start SK_LOOP_CONTINUE ;;;
  advance ;;;
  consume SK_LPAREN "expected '(' after ':' continue-expr" ;;;
  with_no_trailing_lambda true (parse_expr PREC_NONE) ;;;
  consume SK_RPAREN "expected ')' after loop continue-expr" ;;;
  finish.

Definition parse_loop_expr : M unit :=
  start SK_LOOP_EXPR ;;;
  advance ;;;
  parse_optional_label ;;;
  let* header := match_ SK_LPAREN in
  when header (
    with_no_trailing_lambda true (parse_expr PREC_NONE) ;;;
    consume SK_RPAREN "expected ')' after loop header" ;;;
    parse_optional_capture ;;;
    let* k := peek in
    when (k == SK_COLON) loop_continue) ;;;
  parse_body parse_stmt ;;;
  let* els := match_ SK_ELSE_KW in
  when els (parse_body parse_stmt ;;; ret tt) ;;;
  finish.

(** One pattern of a switch arm, and whether a [,] follows. *)
Definition switch_pattern : M bool :=
  let* pat_cp := p_checkpoint in
  parse_expr (PREC_BITWISE + 1) ;;;
  let* k := peek in
  when ((k == SK_DOT_DOT_LT) || (k == SK_DOT_DOT_EQ)) (
    p_start_node_at pat_cp SK_BIN_EXPR ;;;
    advance ;;;
    parse_expr (PREC_BITWISE + 1) ;;;
    finish) ;;;
  match_ SK_COMMA.

Definition switch_arm : M unit :=
  let* before := gets pos in
  start SK_SWITCH_ARM ;;;
  start SK_SWITCH_PATTERN_LIST ;;;
  loop E switch_pattern ;;;
  finish ;;;
  consume SK_FATARROW "expected '=>' in switch arm" ;;;
  parse_body parse_stmt ;;;
  finish ;;;
  match_ SK_SEMI ;;;
  recover_if_stuck before "expected switch arm".

Definition parse_switch_expr : M unit :=
  start SK_SWITCH_EXPR ;;;
  advance ;;;
  consume SK_LPAREN "expected '(' after switch" ;;;
  with_no_trailing_lambda true (parse_expr PREC_NONE) ;;;
  consume SK_RPAREN "expected ')' after switch scrutinee" ;;;
  consume SK_LBRACE "expected '{' to open switch body" ;;;
  start SK_STMT_LIST ;;;
  while_ (inside SK_RBRACE) switch_arm ;;;
  finish ;;;
  consume SK_RBRACE "expected '}' to close switch" ;;;
  finish.

(** ** Aggregates *)

(** One turn of the field loop. *)
Definition aggregate_field : M unit :=
  let* before := gets pos in
  let* is_pub := at_kw pub in
  let* after_pub := peek_at (if is_pub : bool then 1 else 0)%nat in
  if (after_pub == SK_STRUCT_KW) || (after_pub == SK_UNION_KW) || (after_pub == SK_ENUM_KW)
  then
    start SK_FIELD ;;;
    when is_pub (advance ;;; ret tt) ;;;
    parse_type_expr ;;;
    finish ;;;
    match_ SK_SEMI ;;;
    recover_if_stuck before "expected field"
  else
    start SK_FIELD ;;;
    when is_pub (advance ;;; ret tt) ;;;
    let* named := check SK_IDENT in
    if negb named then p_recover_auto E "expected field name" ;;; finish
    else
      advance ;;;
      consume SK_COLON "expected ':' after field name" ;;;
      parse_type_expr ;;;
      let* eq := match_ SK_EQ in
      when eq (parse_expr PREC_BITWISE) ;;;
      finish ;;;
      match_ SK_SEMI ;;; ret tt.

Definition parse_aggregate_expr (kind : OreSyntaxKind) (consume_kw : bool) : M unit :=
  start kind ;;;
  when consume_kw (advance ;;; ret tt) ;;;
  consume SK_LBRACE "expected '{' after struct/union" ;;;
  start SK_FIELD_LIST ;;;
  while_ (inside SK_RBRACE) aggregate_field ;;;
  finish ;;;
  consume SK_RBRACE "expected '}' to close struct/union" ;;;
  finish.

Definition enum_variant : M unit :=
  let* named := check SK_IDENT in
  if negb named then p_recover_auto E "expected variant name"
  else
    start SK_VARIANT ;;;
    advance ;;;
    let* eq := match_ SK_EQ in
    when eq (parse_expr PREC_BITWISE) ;;;
    finish ;;;
    match_ SK_SEMI ;;; ret tt.

Definition parse_enum_expr : M unit :=
  start SK_ENUM_DECL ;;;
  advance ;;;
  consume SK_LBRACE "expected '{' after enum" ;;;
  start SK_VARIANT_LIST ;;;
  while_ (inside SK_RBRACE) enum_variant ;;;
  finish ;;;
  consume SK_RBRACE "expected '}' to close enum" ;;;
  finish.

(** One field of a [{ .field = value, ... }] list, and whether a [,] follows; the
    loops of [parse_init_list_body] and [parse_dot_expr] are the same code. *)
Definition init_field : M bool :=
  let* before := gets pos in
  start SK_INIT_FIELD ;;;
  let* k := peek in
  let* nx := peek_at 1 in
  when ((k == SK_DOT) && (nx == SK_IDENT)) (
    advance ;;;
    advance ;;;
    consume SK_EQ "expected '=' after field name" ;;; ret tt) ;;;
  parse_expr PREC_NONE ;;;
  let* k := peek in
  when (k == SK_DOT_DOT_DOT) (advance ;;; ret tt) ;;;
  finish ;;;
  let* comma := match_ SK_COMMA in
  if comma : bool then
    recover_if_stuck before "expected initializer field" ;;; ret true
  else ret false.

Definition init_fields : M unit :=
  loop E (let* c := inside SK_RBRACE in if c : bool then init_field else ret false) ;;;
  while_ (match_ SK_SEMI) (ret tt).

Definition parse_init_list_body : M unit :=
  start SK_INIT_LIST ;;;
  advance ;;;
  init_fields ;;;
  consume SK_RBRACE "expected '}' to close construction" ;;;
  finish.

Definition parse_struct_construction : M unit :=
  start SK_PRODUCT_EXPR ;;;
  advance ;;;
  start SK_REF_EXPR ;;;
  consume SK_IDENT "expected type name after `struct` keyword" ;;;
  finish ;;;
  let* b := check SK_LBRACE in
  if negb b then
    p_error "expected '{' to open struct construction" ;;; finish
  else parse_init_list_body ;;; finish.

(** ** Bracket and dot forms *)

(** The init-list that may follow an array type in value position. *)
Definition array_literal_tail (cp : nat) : M unit :=
  let* pt := gets parsing_type in
  let* b := check SK_LBRACE in
  when (negb pt && b) (
    p_start_node_at cp SK_PRODUCT_EXPR ;;;
    parse_init_list_body ;;;
    finish).

Definition parse_bracket_expr : M unit :=
  let* k1 := peek_at 1 in
  let* k2 := peek_at 2 in
  if k1 == SK_CARET then
    start SK_MANY_PTR_TYPE ;;;
    advance ;;;
    advance ;;;
    consume SK_RBRACKET "expected ']' after '[^'" ;;;
    parse_type_expr ;;;
    finish
  else if k1 == SK_RBRACKET then
    start SK_SLICE_TYPE ;;;
    advance ;;;
    advance ;;;
    parse_type_expr ;;;
    finish
  else if (k1 == SK_UNDERSCORE) && (k2 == SK_RBRACKET) then
    let* cp := p_checkpoint in
    start SK_ARRAY_TYPE ;;;
    advance ;;;
    advance ;;;
    advance ;;;
    parse_type_expr ;;;
    finish ;;;
    array_literal_tail cp
  else
    let* cp := p_checkpoint in
    start SK_ARRAY_TYPE ;;;
    advance ;;;
    with_parsing_type false (parse_expr PREC_BITWISE) ;;;
    consume SK_RBRACKET "expected ']' after array size" ;;;
    parse_type_expr ;;;
    finish ;;;
    array_literal_tail cp.

Definition parse_dot_expr : M unit :=
  let* next := peek_at 1 in
  if (next == SK_LBRACE) || (next == SK_VIRTUAL_LBRACE) then
    start SK_PRODUCT_EXPR ;;;
    advance ;;;
    start SK_INIT_LIST ;;;
    advance ;;;
    init_fields ;;;
    consume SK_RBRACE "expected '}' to close product literal" ;;;
    finish ;;;
    finish
  else if next == SK_IDENT then
    start SK_ENUM_REF_EXPR ;;;
    advance ;;;
    advance ;;;
    finish
  else
    p_error "unexpected '.'" ;;;
    advance ;;; ret tt.

Definition parse_builtin_expr : M unit :=
  start SK_BUILTIN_EXPR ;;;
  advance ;;;
  let* name := consume SK_IDENT "expected builtin name after '@'" in
  match name with
  | None => finish
  | Some _ =>
      let* args := match_ SK_LPAREN in
      when args (
        start SK_ARG_LIST ;;;
        comma_loop (before SK_RPAREN) (parse_expr PREC_NONE) ;;;
        consume SK_RPAREN "expected ')' after builtin args" ;;;
        finish) ;;;
      finish
  end.

(** ** Handlers, [mask], [with], effects *)

Definition parse_handler_clause_stmt : M unit :=
  let* k := peek in
  if k == SK_RETURN_KW then
    start SK_RETURN_CLAUSE ;;;
    advance ;;;
    consume SK_LPAREN "expected '(' after 'return' clause keyword" ;;;
    start SK_PARAM_LIST ;;;
    parse_param true ;;;
    finish ;;;
    consume SK_RPAREN "expected ')' after return-clause param" ;;;
    parse_body parse_stmt ;;;
    finish
  else parse_stmt.

Definition parse_handler_clauses : M unit :=
  parse_block parse_handler_clause_stmt ;;; ret tt.

Definition parse_handler_expr_x : M unit :=
  let* o := at_kw override_ in
  when o (advance ;;; ret tt) ;;;
  let* k := peek in
  when (k == SK_LT) parse_effect_row ;;;
  parse_handler_clauses.

Definition parse_handler_expr : M unit :=
  let* k := peek in
  if k == SK_HANDLE_KW then
    let* outer_cp := p_checkpoint in
    advance ;;;
    start SK_ARG_LIST ;;;
    consume SK_LPAREN "expected '(' after handle" ;;;
    parse_expr PREC_NONE ;;;
    consume SK_RPAREN "expected ')' after handle action" ;;;
    finish ;;;
    start SK_HANDLER_EXPR ;;;
    parse_handler_expr_x ;;;
    finish ;;;
    p_start_node_at outer_cp SK_CALL_EXPR ;;;
    finish
  else
    start SK_HANDLER_EXPR ;;;
    advance ;;;
    parse_handler_expr_x ;;;
    finish.

Definition parse_mask_expr : M unit :=
  start SK_MASK_EXPR ;;;
  advance ;;;
  parse_effect_row ;;;
  parse_expr PREC_NONE ;;;
  finish.

(** The optional [x :=] binding. *)
Definition with_binding : M unit :=
  let* k := peek in
  let* nx := peek_at 1 in
  when ((k == SK_IDENT) && (nx == SK_COLON_EQ)) (
    start SK_PARAM ;;;
    advance ;;;
    finish ;;;
    advance ;;; ret tt).

Definition is_with_postfix (tk : OreSyntaxKind) : bool :=
  (tk == SK_DOT) || (tk == SK_LBRACKET) || (tk == SK_CARET) || (tk == SK_QUESTION) ||
  (tk == SK_PLUS_PLUS) || (tk == SK_MINUS_MINUS).

Definition with_head : M unit :=
  let* head_cp := p_checkpoint in
  let* o := at_kw override_ in
  let* nx := peek_at 1 in
  let elided_override :=
    o && ((nx == SK_LT) || (nx == SK_LBRACE) || (nx == SK_VIRTUAL_LBRACE)) in
  let* k := peek in
  if (k == SK_LT) || elided_override then
    start SK_HANDLER_EXPR ;;;
    parse_handler_expr_x ;;;
    finish
  else
    parse_prefix ;;;
    loop E (
      let* tk := peek in
      if negb (is_with_postfix tk) then ret false
      else parse_infix tk head_cp ;;; ret true).

(** The cursor is on a [;] that the close of the block or the end of the file
    follows. *)
Definition at_last_semi : M bool :=
  let* s := check SK_SEMI in
  let* nx := peek_at 1 in
  ret (s && (ore_kind_is_close_brace nx || (nx == SK_EOF))).

Definition with_tail : M unit :=
  let* last := at_last_semi in
  let has_tail := negb last in
  when has_tail (match_ SK_SEMI ;;; ret tt) ;;;
  start SK_LAMBDA_EXPR ;;;
  start SK_PARAM_LIST ;;;
  finish ;;;
  start SK_BLOCK_STMT ;;;
  start SK_STMT_LIST ;;;
  when has_tail (
    loop E (
      let* c := inside SK_RBRACE in
      if negb c then ret false else
      let* before := gets pos in
      parse_stmt ;;;
      let* last := at_last_semi in
      if last : bool then ret false else
      match_ SK_SEMI ;;;
      recover_if_stuck before "expected statement" ;;;
      ret true)) ;;;
  finish ;;;
  finish ;;;
  finish.

Definition parse_with_stmt : M unit :=
  let* outer_cp := p_checkpoint in
  advance ;;;
  with_binding ;;;
  with_head ;;;
  p_start_node_at outer_cp SK_CALL_EXPR ;;;
  start SK_ARG_LIST ;;;
  let* args := match_ SK_LPAREN in
  when args (
    comma_loop (before SK_RPAREN) (parse_expr PREC_NONE) ;;;
    consume SK_RPAREN "expected ')' after with-call arguments" ;;; ret tt) ;;;
  with_tail ;;;
  finish ;;;
  finish.

Definition effect_op_kind : M unit :=
  start SK_OP_KIND ;;;
  let* kt := gets (p_current E) in
  let* k := peek in
  (if (k == SK_IDENT) &&
      (tok_is_kw kt (ctl (kws E)) || tok_is_kw kt (val_ (kws E)) ||
       tok_is_kw kt (final_ctl (kws E)) || tok_is_kw kt (direct (kws E)))
   then advance ;;; ret tt
   else p_error "expected direct/ctl/val/final-ctl in op signature") ;;;
  finish.

Definition effect_op : M unit :=
  let* before_ := gets pos in
  start SK_FIELD ;;;
  consume SK_IDENT "expected operation name" ;;;
  consume SK_COLON_COLON "expected '::' in operation signature" ;;;
  effect_op_kind ;;;
  let* params := match_ SK_LPAREN in
  when params (
    start SK_PARAM_LIST ;;;
    comma_loop (before SK_RPAREN) (parse_param true) ;;;
    consume SK_RPAREN "expected ')' after op params" ;;;
    finish) ;;;
  let* rk := peek in
  when (negb (ore_kind_is_stmt_sep rk) && negb (ore_kind_is_close_brace rk) &&
        negb (rk == SK_EOF) && negb (rk == SK_COMMA)) parse_type_expr ;;;
  finish ;;;
  consume SK_SEMI "expected ';' after operation signature" ;;;
  recover_if_stuck before_ "expected operation signature".

Definition parse_effect_decl : M unit :=
  start SK_EFFECT_DECL ;;;
  advance ;;;
  let* in_type := p_match_kw E (in_ (kws E)) in
  when in_type parse_type_expr ;;;
  consume SK_LBRACE "expected '{' to start effect body" ;;;
  start SK_FIELD_LIST ;;;
  while_ (inside SK_RBRACE) effect_op ;;;
  finish ;;;
  consume SK_RBRACE "expected '}' to end effect body" ;;;
  finish.

(** ** The prefix dispatcher *)

Definition leaf_node (k : OreSyntaxKind) : M unit := start k ;;; advance ;;; finish.

Definition prefix_ident : M unit :=
  let* pt := gets parsing_type in
  let* is_ctl := at_kw ctl in
  let* is_final := at_kw final_ctl in
  let* is_direct := at_kw direct in
  let* is_distinct := at_kw distinct_ in
  let* is_bit_field := at_kw bit_field_ in
  if negb pt && is_ctl then parse_lambda SK_CTL_LAMBDA
  else if negb pt && is_final then parse_lambda SK_FINAL_CTL_LAMBDA
  else if negb pt && is_direct then parse_lambda SK_DIRECT_LAMBDA
  else if pt && is_distinct then parse_distinct_type
  else if pt && is_bit_field then parse_bit_field_type
  else leaf_node (if pt : bool then SK_REF_TYPE else SK_REF_EXPR).

Definition prefix_paren : M unit :=
  start SK_PAREN_EXPR ;;;
  advance ;;;
  with_no_trailing_lambda false (parse_expr PREC_NONE) ;;;
  consume SK_RPAREN "expected ')' after expression" ;;;
  finish.

Definition prefix_fn : M unit :=
  let* pt := gets parsing_type in
  if pt : bool then
    p_error "expected type; lowercase 'fn' starts a lambda expression — use 'Fn' for a function type" ;;;
    advance ;;; ret tt
  else parse_fn_lambda.

Definition prefix_struct : M unit :=
  let* pt := gets parsing_type in
  let* nx := peek_at 1 in
  if negb pt && (nx == SK_IDENT) then parse_struct_construction
  else parse_aggregate_expr SK_STRUCT_DECL true.

Definition prefix_handler : M unit :=
  let* pt := gets parsing_type in
  if pt : bool then parse_qualified_type SK_HANDLER_TYPE else parse_handler_expr.

(** The sync set of the default case. *)
Definition prefix_sync : N :=
  N.lor (N.lor (N.lor (N.lor (N.lor (N.lor SYNC_SEMI SYNC_RBRACE) SYNC_RPAREN) SYNC_RBRACKET)
    SYNC_COMMA) SYNC_GT) SYNC_PIPE.

Definition parse_prefix_body : M unit :=
  let* kind := peek in
  match kind with
  | SK_INT_LIT | SK_FLOAT_LIT | SK_STRING_LIT | SK_BYTE_LIT | SK_ASM_LIT | SK_TRUE_KW
  | SK_FALSE_KW | SK_NIL_KW | SK_UNREACHABLE_KW | SK_UNDERSCORE => leaf_node SK_LITERAL_EXPR
  | SK_IDENT => prefix_ident
  | SK_LPAREN => prefix_paren
  | SK_LABEL | SK_LBRACE | SK_VIRTUAL_LBRACE => parse_block parse_stmt ;;; ret tt
  | SK_MINUS | SK_BANG | SK_TILDE | SK_AMP => parse_prefix_unary SK_PREFIX_EXPR
  | SK_CARET => parse_prefix_unary SK_PTR_TYPE
  | SK_QUESTION => parse_prefix_unary SK_OPTIONAL_TYPE
  | SK_CONST_KW => parse_prefix_unary SK_CONST_TYPE
  | SK_FN_KW => prefix_fn
  | SK_FN_TYPE_KW => parse_fn_type
  | SK_STRUCT_KW => prefix_struct
  | SK_UNION_KW => parse_aggregate_expr SK_UNION_DECL true
  | SK_ENUM_KW => parse_enum_expr
  | SK_SWITCH_KW => parse_switch_expr
  | SK_IF_KW | SK_ELIF_KW => parse_if_expr_body
  | SK_LOOP_KW => parse_loop_expr
  | SK_RETURN_KW => parse_return_expr
  | SK_DEFER_KW => parse_defer_expr
  | SK_BREAK_KW => parse_break_or_continue SK_BREAK_STMT
  | SK_CONTINUE_KW => parse_break_or_continue SK_CONTINUE_STMT
  | SK_LBRACKET => parse_bracket_expr
  | SK_DOT => parse_dot_expr
  | SK_AT => parse_builtin_expr
  | SK_COMPTIME_KW => start SK_COMPTIME_EXPR ;;; advance ;;; parse_prefix ;;; finish
  | SK_WITH_KW => parse_with_stmt
  | SK_EFFECT_KW => parse_effect_decl
  | SK_HANDLER_KW | SK_HANDLE_KW => prefix_handler
  | SK_MASK_KW => parse_mask_expr
  | SK_LT => parse_effect_row
  | _ => p_recover E prefix_sync "expected expression"
  end.

(** ** The Pratt loop *)

Definition is_postfix_start (tk : OreSyntaxKind) : bool :=
  (tk == SK_LPAREN) || (tk == SK_LBRACKET) || (tk == SK_DOT) || (tk == SK_CARET) ||
  (tk == SK_QUESTION) || (tk == SK_PLUS_PLUS) || (tk == SK_MINUS_MINUS).

Definition is_thunk_start (tk : OreSyntaxKind) : bool :=
  (tk == SK_LBRACE) || (tk == SK_VIRTUAL_LBRACE) || (tk == SK_FN_KW).

(** One turn: whether an operator was taken. *)
Definition pratt_step (precedence left_cp : nat) : M bool :=
  let* tk := peek in
  let* pt := gets parsing_type in
  let* ntl := gets no_trailing_lambda in
  if (precedence <? PREC_POSTFIX)%nat && is_postfix_start tk then
    parse_infix tk left_cp ;;; ret true
  else if (precedence <? PREC_POSTFIX)%nat && negb pt && negb ntl && is_thunk_start tk then
    parse_infix tk left_cp ;;; ret true
  else if pt then ret false
  else
    let prec := get_infix_precedence tk in
    if (prec =? PREC_NONE)%nat || (prec <=? precedence)%nat then ret false
    else parse_infix tk left_cp ;;; ret true.

Definition parse_expr_body (precedence : nat) : M unit :=
  let* left_cp := p_checkpoint in
  parse_prefix ;;;
  loop E (pratt_step precedence left_cp).

Definition call_body (c : call) : M unit :=
  match c with
  | CExpr prec => parse_expr_body prec
  | CPrefix => parse_prefix_body
  | CIf => parse_if_expr_body
  end.

(** ** Top-level declarations *)

Definition top_level_decl : M unit :=
  let* before := gets pos in
  let* k := peek in
  let* nx := peek_at 1 in
  (if (k == SK_IDENT) && is_bind_op nx then parse_named_bind_decl
   else if (k == SK_IDENT) && (nx == SK_COMMA) then
     let* cp := p_checkpoint in
     parse_expr PREC_NONE ;;;
     parse_bare_destructure_tail cp
   else
     p_recover_auto E
       "expected a top-level declaration (fn / struct / enum / const / var); execution statements are only allowed inside function bodies") ;;;
  consume SK_SEMI "expected ';' after top-level declaration" ;;;
  let* pos := gets pos in
  when (pos =? before)%nat (advance ;;; ret tt).

Definition parse_top_level_decls : M unit :=
  while_ (let* e := is_eof in ret (negb e)) top_level_decl.

End Descent.

(** ** Tying the knot *)

Fixpoint run (E : ParserEnv) (fuel : nat) (c : call) : M unit :=
  match fuel with
  | O => fun _ => OutOfFuel
  | S f => call_body E (run E f) c
  end.

(** Two calls per token, and two more. *)
Definition parse_fuel (E : ParserEnv) : nat := 2 * count E + 2.

Definition initial_parser : Parser :=
  mkParser green_builder_new 0 [] false false 0 false.

Definition parse_source_file (E : ParserEnv) : M unit :=
  p_start_node SK_SOURCE_FILE ;;;
  skip_trivia E ;;;
  parse_top_level_decls E (run E (parse_fuel E)) ;;;
  skip_trivia E ;;;
  p_finish_node.

(** [parse_file_green]: the root, the errors in order, and the pool with the
    contextual keywords. *)
Definition parse_file_green {P} `{!Interner P} (tokens : list Token) (source : list byte)
    (pool : P) : outcome (Green * list ParseError * P) :=
  let '(kws, pool) := init_parser_kws pool in
  let! (_, p) := parse_source_file (mkEnv tokens source kws) initial_parser in
  let! (root, _) := green_builder_finish (gb p) in
  Ret (root, errors p, pool).

End ParseExpr.
