(* ===== verification/ParserFacts.v ===== *)
(** * The parser: a program logic for parse functions

    [ext fs p0 p] says how a parser state [p] extends an earlier one [p0]: the
    frames [fs] have been opened on top of those of [p0], the elements emitted since
    are well formed and spell exactly the tokens between the two positions, errors
    were only added, at positions in between, and paid for.  [At] adds the context
    flags, a lower bound of the position and the current kind.  [wp] is total
    correctness: the command returns and its result satisfies the postcondition.
    Each primitive of [Parser.v] gets a rule. *)

From S2P Require Import Prelude SyntaxKind Token Interner Green Builder Parser GreenFacts.
Import SyntaxKind Token Green Builder Parser Cursor GreenFacts.

Module ParserFacts.

#[local] Open Scope parse_scope.

Section Facts.
Context (E : ParserEnv).

(** ** The token vector *)

(** [SK_EOF] is the last token and no other. *)
Definition tokens_ok : Prop :=
  exists body eof, tokens E = body ++ [eof] /\ kind eof = SK_EOF /\
    Forall (fun t => kind t <> SK_EOF) body.

(** A cursor position: on a token that is not trivia. *)
Definition pos_ok (i : nat) : Prop :=
  exists t, nth_error (tokens E) i = Some t /\ token_is_trivia (kind t) = false.

Definition emitted (t : Token) : OreSyntaxKind * list byte := (kind t, token_text E t).

(** The tokens of indices [i .. j). *)
Definition slice (i j : nat) : list Token := take (j - i) (drop i (tokens E)).

(** The [;] and [}] among them. *)
Definition boundaries (ts : list Token) : nat :=
  length (List.filter (fun t => ends_unit (kind t)) ts).

Lemma slice_app i j k : (i <= j <= k)%nat -> slice i j ++ slice j k = slice i k.
Proof. intros. apply take_drop_app; lia. Qed.

Lemma slice_nil i : slice i i = [].
Proof. unfold slice. by rewrite Nat.sub_diag. Qed.

Lemma boundaries_app x y : boundaries (x ++ y) = (boundaries x + boundaries y)%nat.
Proof. unfold boundaries. by rewrite List.filter_app, length_app. Qed.

(** ** How a state extends another *)

(** Frames, innermost first, start between [lo] and [hi], outer ones earlier. *)
Fixpoint frames_ok (lo : nat) (fs : list BuilderFrame) (hi : nat) : Prop :=
  match fs with
  | [] => (lo <= hi)%nat
  | f :: fs => (first_child f <= hi)%nat /\ frames_ok lo fs (first_child f)
  end.

(** Errors reported, plus one if another may be reported right now. *)
Definition pot (p : Parser) : nat :=
  length (errors p) + (if in_recovery p then 0 else 1).

Record ext (fs : list BuilderFrame) (p0 p : Parser) : Prop := {
  e_parents : parents (gb p) = fs ++ parents (gb p0);
  e_children : exists new, children (gb p) = children (gb p0) ++ new /\
    elem_leaves new = map emitted (slice (pos p0) (pos p)) /\ elems_ok new;
  e_frames : frames_ok (length (children (gb p0))) fs (length (children (gb p)));
  e_le : (pos p0 <= pos p)%nat;
  e_ok : pos_ok (pos p);
  e_errors : exists es, errors p = errors p0 ++ es /\
    Forall (fun e => (pos p0 <= tok_pos e <= pos p)%nat) es;
  e_pot : (pot p <= pot p0 + boundaries (slice (pos p0) (pos p)))%nat;
  e_fix : (fix_count p + pos p0 <= fix_count p0 + pos p)%nat
}.

Lemma frames_ok_mono lo fs hi hi' :
  frames_ok lo fs hi -> (hi <= hi')%nat -> frames_ok lo fs hi'.
Proof. destruct fs as [|f fs]; simpl; [lia|]. intros [? ?] ?. split; [lia|done]. Qed.

Lemma frames_ok_le lo fs hi : frames_ok lo fs hi -> (lo <= hi)%nat.
Proof.
  revert hi. induction fs as [|f fs IH]; simpl; intros hi; [done|]. intros [? ?%IH]. lia.
Qed.

Lemma ext_refl p : pos_ok (pos p) -> ext [] p p.
Proof.
  intros H. split; try done.
  - exists []. rewrite app_nil_r, slice_nil. by repeat constructor.
  - simpl. lia.
  - exists []. rewrite app_nil_r. by split.
  - rewrite slice_nil. unfold boundaries. simpl. lia.
Qed.

Lemma ext_compose fs p0 q p : ext fs p0 q -> ext [] q p -> ext fs p0 p.
Proof.
  intros [P1 (n1 & C1 & L1 & K1) F1 Le1 O1 (e1 & R1 & W1) T1 X1]
         [P2 (n2 & C2 & L2 & K2) F2 Le2 O2 (e2 & R2 & W2) T2 X2].
  split; try lia; try done.
  - by rewrite P2.
  - exists (n1 ++ n2). rewrite C2, C1, app_assoc. split; [done|].
    rewrite elem_leaves_app, L1, L2, <- map_app, slice_app by lia.
    split; [done|]. by apply Forall_app.
  - eapply frames_ok_mono; [exact F1|]. rewrite C2, length_app. lia.
  - exists (e1 ++ e2). rewrite R2, R1, app_assoc. split; [done|].
    apply Forall_app. split; (eapply Forall_impl; [eassumption|]); simpl; lia.
  - rewrite <- (slice_app _ (pos q)), boundaries_app by lia. lia.
Qed.

(** [At fs p0 p pt nt lo k]: in state [p], reached from [p0] with [fs] open, the
    context flags are [pt] and [nt], the position is at least [lo] and the current
    kind is [k]. *)
Record At (fs : list BuilderFrame) (p0 p : Parser) (pt nt : bool) (lo : nat)
    (k : OreSyntaxKind) : Prop := {
  at_ext : ext fs p0 p;
  at_pt : parsing_type p = pt;
  at_nt : no_trailing_lambda p = nt;
  at_lo : (lo <= pos p)%nat;
  at_kind : p_peek E p = k
}.

Lemma pos_ok_lt i : pos_ok i -> (i < count E)%nat.
Proof. intros (t & H & _). apply nth_error_Some. by rewrite H. Qed.

Lemma At_pos fs p0 p pt nt lo k :
  At fs p0 p pt nt lo k -> (lo <= pos p < count E)%nat.
Proof. intros [[] ? ? ? ?]. split; [done|]. by apply pos_ok_lt. Qed.

Lemma At_weaken fs p0 p pt nt lo lo' k :
  At fs p0 p pt nt lo k -> (lo' <= lo)%nat -> At fs p0 p pt nt lo' k.
Proof. intros [] ?. split; try done. lia. Qed.

Lemma At_here fs p0 p pt nt lo k :
  At fs p0 p pt nt lo k -> At fs p0 p pt nt (pos p) k.
Proof. by intros []. Qed.

(** Start again from the current state. *)
Lemma At_rebase fs p0 p pt nt lo k : At fs p0 p pt nt lo k -> At [] p p pt nt lo k.
Proof. intros [X ? ? ? ?]. split; try done. apply ext_refl, X. Qed.

Lemma At_compose fs p0 q pt nt lo k p pt' nt' lo' k' :
  At fs p0 q pt nt lo k -> At [] q p pt' nt' lo' k' -> At fs p0 p pt' nt' lo' k'.
Proof. intros [X _ _ _ _] [Y ? ? ? ?]. split; try done. by eapply ext_compose. Qed.

(** ** Reading the cursor *)

Lemma current_ok p :
  pos_ok (pos p) -> exists t, nth_error (tokens E) (pos p) = Some t /\
    p_current E p = Some t /\ token_is_trivia (kind t) = false /\ p_peek E p = kind t.
Proof.
  intros H. pose proof (pos_ok_lt _ H) as Hlt. destruct H as (t & Ht & Htr).
  exists t. unfold p_peek, p_current.
  assert (Hn : (count E <=? pos p)%nat = false) by (apply Nat.leb_gt; done).
  rewrite Hn, Ht. done.
Qed.

Lemma peek_pos p p' : pos p = pos p' -> p_peek E p = p_peek E p'.
Proof. intros H. unfold p_peek, p_current. by rewrite H. Qed.

Context (Htoks : tokens_ok).

Lemma eof_last i t :
  nth_error (tokens E) i = Some t -> kind t = SK_EOF -> S i = count E.
Proof.
  destruct Htoks as (body & eof & Ht & He & Hb). unfold count. rewrite Ht, length_app.
  intros Hn Hk. simpl. destruct (Nat.lt_ge_cases i (length body)) as [Hlt|Hge].
  - rewrite nth_error_app1 in Hn by done. apply nth_error_In in Hn.
    rewrite List.Forall_forall in Hb. by destruct (Hb t Hn).
  - assert (i < length (body ++ [eof]))%nat
      by (apply nth_error_Some; by rewrite Hn).
    rewrite length_app in *. simpl in *. lia.
Qed.

Lemma not_eof_next i t :
  nth_error (tokens E) i = Some t -> kind t <> SK_EOF -> (S i < count E)%nat.
Proof.
  destruct Htoks as (body & eof & Ht & He & Hb). unfold count. rewrite Ht, length_app.
  intros Hn Hk. assert (i < length (body ++ [eof]))%nat
    by (apply nth_error_Some; by rewrite Hn).
  rewrite length_app in *. simpl in *.
  destruct (Nat.eq_dec i (length body)) as [->|]; [|lia].
  rewrite nth_error_app2, Nat.sub_diag in Hn by lia. injection Hn as <-. done.
Qed.

(** At the end of the file the cursor stays. *)
Lemma At_eof fs p0 p pt nt lo fs' p0' p' pt' nt' k' :
  At fs p0 p pt nt lo SK_EOF -> At fs' p0' p' pt' nt' (pos p) k' -> k' = SK_EOF.
Proof.
  intros [X _ _ _ Hk] H'. pose proof (At_pos _ _ _ _ _ _ _ H') as Hp.
  destruct (current_ok p (e_ok _ _ _ X)) as (t & Ht & _ & _ & Hk2).
  rewrite Hk in Hk2. apply eof_last in Ht; [|done].
  rewrite <- (at_kind _ _ _ _ _ _ _ H'), <- Hk. apply peek_pos. lia.
Qed.

(** ** Skipping trivia *)

Definition token_elem (t : Token) : N * Green := (0%N, GreenToken (kind t) (token_text E t)).

Lemma token_elems_leaves ts :
  elem_leaves (map token_elem ts) = map emitted ts /\ elems_ok (map token_elem ts).
Proof.
  split.
  - unfold elem_leaves. induction ts as [|t ts IH]; simpl; [done|]. by rewrite IH.
  - unfold elems_ok. rewrite List.Forall_map. apply List.Forall_forall. done.
Qed.

(** The state after emitting the [n] tokens [ts] from the cursor. *)
Definition after (ts : list Token) (p : Parser) : Parser :=
  set_pos (pos p + length ts)
    (set_gb (mkBuilder (parents (gb p)) (children (gb p) ++ map token_elem ts)) p).

Lemma skip_trivia_run_after ts p :
  exists xs ys, ts = xs ++ ys /\ skip_trivia_run E ts p = after xs p /\
    Forall (fun t => token_is_trivia (kind t) = true) xs /\
    match ys with t :: _ => token_is_trivia (kind t) = false | [] => True end.
Proof.
  revert p. induction ts as [|t ts IH]; intros p; simpl.
  - exists [], []. unfold after. simpl. rewrite app_nil_r, Nat.add_0_r.
    by destruct p as [[] ? ? ? ? ? ?].
  - destruct (token_is_trivia (kind t)) eqn:Ht.
    + destruct (IH (set_pos (S (pos p)) (emit_token E t p))) as (xs & ys & -> & -> & Hx & Hy).
      exists (t :: xs), ys. split; [done|]. split; [|split; [by constructor|done]].
      unfold after, emit_token, set_pos, set_gb. simpl. rewrite <- app_assoc. simpl.
      f_equal. lia.
    + exists [], (t :: ts). unfold after. simpl. rewrite app_nil_r, Nat.add_0_r.
      by destruct p as [[] ? ? ? ? ? ?].
Qed.

Lemma drop_cons_nth {A} (l : list A) i x :
  nth_error l i = Some x -> drop i l = x :: drop (S i) l.
Proof. revert i. induction l as [|y l IH]; intros [|i] H; simpl in *; try discriminate H; [by injection H as ->|by apply IH]. Qed.

Lemma slice_prefix i xs ys : drop i (tokens E) = xs ++ ys -> slice i (i + length xs) = xs.
Proof.
  intros H. unfold slice. rewrite H. replace (i + length xs - i)%nat with (length xs) by lia.
  apply take_app_length.
Qed.

Lemma drop_prefix_nth i xs y ys :
  drop i (tokens E) = xs ++ y :: ys -> nth_error (tokens E) (i + length xs) = Some y.
Proof.
  intros H. rewrite <- nth_error_skipn, H, nth_error_app2, Nat.sub_diag by lia. done.
Qed.

(** From any index up to that of [SK_EOF], skipping trivia stops on a token. *)
Lemma skip_run_ok i xs ys :
  (i < count E)%nat -> drop i (tokens E) = xs ++ ys ->
  Forall (fun t => token_is_trivia (kind t) = true) xs ->
  match ys with t :: _ => token_is_trivia (kind t) = false | [] => True end ->
  pos_ok (i + length xs).
Proof.
  intros Hi Hd Hx Hy. destruct ys as [|y ys].
  - exfalso. rewrite app_nil_r in Hd.
    destruct Htoks as (body & eof & Ht & He & _).
    assert (Hin : In eof (drop i (tokens E))).
    { unfold count in Hi. rewrite Ht, length_app in *. simpl in Hi.
      rewrite drop_app_le by lia. apply in_or_app. right. by left. }
    rewrite Hd in Hin. rewrite List.Forall_forall in Hx. specialize (Hx _ Hin).
    by rewrite He in Hx.
  - exists y. split; [by eapply drop_prefix_nth|done].
Qed.

(** ** Total correctness *)

Definition wp {A} (m : M A) (Q : A -> Parser -> Prop) (p : Parser) : Prop :=
  exists a p', m p = Ret (a, p') /\ Q a p'.

Lemma wp_bind {A B} (m : M A) (k : A -> M B) Q p :
  wp m (fun a p' => wp (k a) Q p') p -> wp (bind m k) Q p.
Proof.
  intros (a & p1 & E1 & b & p2 & E2 & HQ). exists b, p2. split; [|done].
  unfold bind. rewrite E1. exact E2.
Qed.

Lemma wp_ret {A} (a : A) (Q : A -> Parser -> Prop) p : Q a p -> wp (ret a) Q p.
Proof. intros H. by exists a, p. Qed.

Lemma wp_gets {A} (f : Parser -> A) (Q : A -> Parser -> Prop) p : Q (f p) p -> wp (gets f) Q p.
Proof. intros H. by exists (f p), p. Qed.

Lemma wp_modify f (Q : unit -> Parser -> Prop) p : Q tt (f p) -> wp (modify f) Q p.
Proof. intros H. by exists tt, (f p). Qed.

Lemma wp_mono {A} (m : M A) (Q R : A -> Parser -> Prop) p :
  (forall a p', Q a p' -> R a p') -> wp m Q p -> wp m R p.
Proof. intros H (a & p' & Em & HQ). exists a, p'. auto. Qed.

(** ** Advancing *)

(** Emitting the tokens [ts] at the cursor extends a state. *)
Lemma ext_emit p p' ts ys :
  drop (pos p) (tokens E) = ts ++ ys ->
  gb p' = mkBuilder (parents (gb p)) (children (gb p) ++ map token_elem ts) ->
  pos p' = (pos p + length ts)%nat -> pos_ok (pos p') ->
  errors p' = errors p -> (fix_count p' <= fix_count p + length ts)%nat ->
  (pot p' <= pot p + boundaries ts)%nat ->
  ext [] p p'.
Proof.
  intros Hd Hg Hp Ho He Hf Ht. split; rewrite ?Hg; simpl; try done; try lia.
  - exists (map token_elem ts). split; [done|]. rewrite Hp, (slice_prefix _ _ _ Hd).
    apply token_elems_leaves.
  - rewrite length_app. lia.
  - exists []. rewrite app_nil_r. by split.
  - by rewrite Hp, (slice_prefix _ _ _ Hd).
Qed.

Lemma ends_unit_pot p (b : bool) :
  (pot (if b then set_in_recovery false p else p) <= pot p + (if b then 1 else 0))%nat.
Proof. destruct b; unfold pot; simpl; destruct (in_recovery p); lia. Qed.

(** Away from the end of the file [p_advance] emits the token and the trivia after
    it. *)
Lemma advance_ext p t :
  nth_error (tokens E) (pos p) = Some t -> kind t <> SK_EOF ->
  token_is_trivia (kind t) = false ->
  exists p', p_advance E p = Ret (Some t, p') /\ ext [] p p' /\ (pos p < pos p')%nat /\
    parsing_type p' = parsing_type p /\ no_trailing_lambda p' = no_trailing_lambda p /\
    ext [] p (set_fix_count (S (fix_count p')) p').
Proof.
  intros Hn Hk Htr.
  assert (Hok : pos_ok (pos p)) by by exists t.
  destruct (current_ok p Hok) as (t' & Hn' & Hc & _ & Hpk).
  rewrite Hn in Hn'. injection Hn' as <-.
  set (p1 := if ends_unit (kind t) then set_in_recovery false (emit_token E t p)
             else emit_token E t p).
  set (p2 := set_pos (S (pos p)) p1).
  destruct (skip_trivia_run_after (drop (S (pos p)) (tokens E)) p2) as (xs & ys & Hd & Hr & Hx & Hy).
  assert (Ep : p_advance E p = Ret (Some t, after xs p2)).
  { unfold p_advance, p_is_eof. rewrite Hpk, Hc, (proj2 (kind_eqb_neq _ _) Hk).
    fold p1. unfold skip_trivia, modify. simpl.
    assert (pos p1 = pos p) as -> by (unfold p1; by destruct (ends_unit _)).
    fold p2. by rewrite Hr. }
  assert (H1 : parents (gb p1) = parents (gb p) /\
    children (gb p1) = children (gb p) ++ [token_elem t] /\ errors p1 = errors p /\
    parsing_type p1 = parsing_type p /\ no_trailing_lambda p1 = no_trailing_lambda p /\
    fix_count p1 = fix_count p /\
    (pot p1 <= pot p + (if ends_unit (kind t) then 1 else 0))%nat).
  { pose proof (ends_unit_pot (emit_token E t p) (ends_unit (kind t))) as Hpot.
    fold p1 in Hpot. unfold p1 in *. by destruct (ends_unit _). }
  destruct H1 as (G1 & G2 & G3 & G4 & G5 & G6 & G7).
  assert (Hdp : drop (pos p) (tokens E) = (t :: xs) ++ ys)
    by (rewrite (drop_cons_nth _ _ _ Hn), Hd; done).
  assert (Hpos : pos_ok (pos p + length (t :: xs))).
  { replace (pos p + length (t :: xs))%nat with (S (pos p) + length xs)%nat by (simpl; lia).
    eapply skip_run_ok; [by eapply not_eof_next|exact Hd|done|done]. }
  assert (Hb : (pot (after xs p2) <= pot p + boundaries (t :: xs))%nat).
  { change (t :: xs) with ([t] ++ xs). rewrite boundaries_app. unfold boundaries at 1. simpl.
    change (pot (after xs p2)) with (pot p1). destruct (ends_unit (kind t)); simpl in *; lia. }
  exists (after xs p2). split; [exact Ep|].
  assert (Hext : forall p', gb p' = gb (after xs p2) -> pos p' = pos (after xs p2) ->
    errors p' = errors p -> (fix_count p' <= S (fix_count p))%nat ->
    pot p' = pot (after xs p2) -> ext [] p p').
  { intros p' E1 E2 E3 E4 E5. apply (ext_emit p p' (t :: xs) ys); try done.
    - rewrite E1. simpl. by rewrite G1, G2, <- app_assoc.
    - rewrite E2. simpl. lia.
    - rewrite E2. simpl in *. by rewrite Nat.add_succ_r in Hpos.
    - simpl. lia.
    - by rewrite E5. }
  split; [apply Hext; simpl; try done; rewrite ?G3, ?G6; auto; lia|].
  split; [simpl; lia|]. split; [exact G4|]. split; [exact G5|].
  apply Hext; simpl; try done. by rewrite G6.
Qed.

(** ** Rules for the primitives *)

(** The bound after a command that makes progress unless at the end of the file. *)
Definition up (k : OreSyntaxKind) (lo : nat) : nat :=
  if kind_eqb k SK_EOF then lo else S lo.

Lemma up_le k lo : (lo <= up k lo)%nat.
Proof. unfold up. destruct (kind_eqb k SK_EOF); lia. Qed.

Lemma At_step fs p0 p p' pt nt lo lo' k :
  At fs p0 p pt nt lo k -> ext [] p p' -> parsing_type p' = pt ->
  no_trailing_lambda p' = nt -> (lo' <= pos p')%nat -> At fs p0 p' pt nt lo' (p_peek E p').
Proof. intros [X ? ? ? ?] Y ? ? ?. split; try done. by eapply ext_compose. Qed.

Lemma wp_advance fs p0 p pt nt lo k Q :
  At fs p0 p pt nt lo k ->
  (forall t p' k', At fs p0 p' pt nt (up k lo) k' -> Q (Some t) p') ->
  wp (p_advance E) Q p.
Proof.
  intros HA HQ. destruct (current_ok p (e_ok _ _ _ (at_ext _ _ _ _ _ _ _ HA)))
    as (t & Hn & Hc & Htr & Hpk).
  assert (Hk : kind t = k) by (rewrite <- Hpk; apply HA). subst k. unfold up in HQ.
  destruct (kind_eqb (kind t) SK_EOF) eqn:Hk.
  - exists (Some t), p. split; [|by eapply HQ].
    unfold p_advance, p_is_eof. by rewrite Hpk, Hk, Hc.
  - apply kind_eqb_neq in Hk.
    destruct (advance_ext p t Hn Hk Htr) as (p' & Ep & X & Hlt & Hpt & Hnt & _).
    exists (Some t), p'. split; [exact Ep|]. eapply HQ.
    destruct HA as [X0 <- <- Hlo _].
    eapply (At_step fs p0 p); [by split|exact X|done|done|lia].
Qed.

Lemma wp_skip_one fs p0 p pt nt lo k Q :
  At fs p0 p pt nt lo k -> k <> SK_EOF ->
  (forall p' k', At fs p0 p' pt nt (S lo) k' -> Q tt p') -> wp (skip_one E) Q p.
Proof.
  intros HA Hk HQ. destruct (current_ok p (e_ok _ _ _ (at_ext _ _ _ _ _ _ _ HA)))
    as (t & Hn & Hc & Htr & Hpk).
  assert (Hkt : kind t = k) by (rewrite <- Hpk; apply HA). subst k.
  destruct (advance_ext p t Hn Hk Htr) as (p' & Ep & _ & Hlt & Hpt & Hnt & X).
  exists tt, (set_fix_count (S (fix_count p')) p'). split.
  { unfold skip_one, bind. rewrite Ep. done. }
  eapply HQ. destruct HA as [X0 <- <- Hlo _].
  eapply (At_step fs p0 p); [by split|exact X|done|done|]. simpl. lia.
Qed.

Lemma kind_matches_eof K : K <> SK_EOF -> kind_matches_with_virtual K SK_EOF = false.
Proof. by destruct K. Qed.

Lemma p_check_kind fs p0 p pt nt lo k K :
  At fs p0 p pt nt lo k -> p_check E K p = kind_matches_with_virtual K k.
Proof. intros H. unfold p_check. by rewrite (at_kind _ _ _ _ _ _ _ H). Qed.

Lemma wp_error fs p0 p pt nt lo k m Q :
  At fs p0 p pt nt lo k -> (forall p', At fs p0 p' pt nt lo k -> Q tt p') ->
  wp (p_error m) Q p.
Proof.
  intros HA HQ. apply wp_modify, HQ. destruct (in_recovery p) eqn:Hr; [done|].
  pose proof (at_kind _ _ _ _ _ _ _ HA) as Hk. destruct HA as [X <- <- Hlo _].
  destruct X as [P1 C1 F1 Le1 O1 (es & R1 & W1) T1 X1].
  split; [split|..]; try done.
  - exists (es ++ [mkError (pos p) m]). simpl. rewrite R1, <- app_assoc. split; [done|].
    apply Forall_app. split; [done|]. constructor; [simpl; lia|constructor].
  - unfold pot in *. simpl. rewrite length_app. simpl. rewrite Hr in T1. lia.
Qed.

Lemma wp_match fs p0 p pt nt lo k K (Q : bool -> Parser -> Prop) :
  At fs p0 p pt nt lo k -> K <> SK_EOF ->
  (kind_matches_with_virtual K k = true ->
   forall p' k', At fs p0 p' pt nt (S lo) k' -> Q true p') ->
  (kind_matches_with_virtual K k = false -> Q false p) ->
  wp (p_match E K) Q p.
Proof.
  intros HA HK H1 H2. apply wp_bind, wp_gets. rewrite (p_check_kind _ _ _ _ _ _ _ _ HA).
  destruct (kind_matches_with_virtual K k) eqn:Hm; [|by apply wp_ret, H2].
  apply wp_bind. eapply wp_advance; [exact HA|]. intros t p' k' HA'.
  apply wp_ret. eapply H1; [done|]. unfold up in HA'.
  destruct (kind_eqb k SK_EOF) eqn:Hk; [|exact HA'].
  apply kind_eqb_eq in Hk. subst k. by rewrite kind_matches_eof in Hm.
Qed.

Lemma wp_consume fs p0 p pt nt lo k K m Q :
  At fs p0 p pt nt lo k -> K <> SK_EOF ->
  (kind_matches_with_virtual K k = true ->
   forall t p' k', At fs p0 p' pt nt (S lo) k' -> Q (Some t) p') ->
  (kind_matches_with_virtual K k = false ->
   forall p', At fs p0 p' pt nt lo k -> Q None p') ->
  wp (p_consume E K m) Q p.
Proof.
  intros HA HK H1 H2. apply wp_bind, wp_gets. rewrite (p_check_kind _ _ _ _ _ _ _ _ HA).
  destruct (kind_matches_with_virtual K k) eqn:Hm.
  - eapply wp_advance; [exact HA|]. intros t p' k' HA'.
    eapply H1; [done|]. unfold up in HA'. destruct (kind_eqb k SK_EOF) eqn:Hk; [|exact HA'].
    apply kind_eqb_eq in Hk. subst k. by rewrite kind_matches_eof in Hm.
  - apply wp_bind. eapply wp_error; [exact HA|]. intros p' HA'. apply wp_ret. by apply H2.
Qed.

(** ** Rules for nodes *)

Lemma wp_start fs p0 p pt nt lo k K Q :
  At fs p0 p pt nt lo k ->
  (forall f p', At (f :: fs) p0 p' pt nt lo k -> Q tt p') -> wp (p_start_node K) Q p.
Proof.
  intros HA HQ. apply wp_modify. eapply (HQ (mkFrame K (length (children (gb p))))).
  destruct HA as [X ? ? ? Hk]. destruct X as [P1 C1 F1 Le1 O1 R1 T1 X1].
  split; [split|..]; simpl; try done. by rewrite P1.
Qed.

(** A retroactive start: the checkpoint is that of the base state. *)
Lemma wp_start_at p0 p pt nt lo k K Q :
  At [] p0 p pt nt lo k ->
  (forall f p', At [f] p0 p' pt nt lo k -> Q tt p') ->
  wp (p_start_node_at (length (children (gb p0))) K) Q p.
Proof.
  intros HA HQ. destruct HA as [X ? ? ? Hk]. destruct X as [P1 C1 F1 Le1 O1 R1 T1 X1].
  simpl in F1. eexists tt, _. split.
  { unfold p_start_node_at, green_builder_start_node_at.
    rewrite (proj2 (Nat.leb_le _ _) F1). simpl. reflexivity. }
  eapply (HQ (mkFrame K (length (children (gb p0))))).
  split; [split|..]; simpl; try done. by rewrite P1.
Qed.

Lemma finish_elems c0 new first (K : OreSyntaxKind) :
  (length c0 <= first <= length (c0 ++ new))%nat -> elems_ok new ->
  exists new', take first (c0 ++ new) ++ [(0%N, green_node_alloc K (drop first (c0 ++ new)))] =
                c0 ++ new' /\
    elem_leaves new' = elem_leaves new /\ elems_ok new'.
Proof.
  intros [H1 H2] Hok. exists (take (first - length c0) new ++
    [(0%N, green_node_alloc K (drop (first - length c0) new))]).
  rewrite take_app_ge, drop_app_ge by done. split; [by rewrite <- app_assoc|]. split.
  - rewrite elem_leaves_app. unfold elem_leaves at 2. simpl.
    rewrite app_nil_r, alloc_leaves, <- elem_leaves_app. by rewrite take_drop.
  - apply Forall_app. split; [by apply Forall_take|]. constructor; [|constructor].
    apply alloc_ok. by apply Forall_drop.
Qed.

Lemma wp_finish f fs p0 p pt nt lo k Q :
  At (f :: fs) p0 p pt nt lo k ->
  (forall p', At fs p0 p' pt nt lo k -> Q tt p') -> wp p_finish_node Q p.
Proof.
  intros HA HQ. destruct HA as [X ? ? ? Hk].
  destruct X as [P1 (new & C1 & L1 & K1) [F1 F2] Le1 O1 R1 T1 X1].
  pose proof (frames_ok_le _ _ _ F2) as Hle. rewrite C1 in F1.
  destruct (finish_elems _ new (first_child f) (frame_kind f) (conj Hle F1) K1)
    as (new' & En & Ln & Kn).
  eexists tt, _. split.
  { unfold p_finish_node, green_builder_finish_node. rewrite P1. simpl. rewrite C1.
    rewrite (proj2 (Nat.leb_le _ _) F1). simpl. rewrite En. reflexivity. }
  apply HQ. split; [split|..]; simpl; try done.
  - exists new'. rewrite Ln. done.
  - eapply frames_ok_mono; [exact F2|]. rewrite <- En, length_app, length_take. simpl. lia.
Qed.

(** ** Rules for control *)

(** A command with no result of interest keeps the bound. *)
Lemma wp_seq {A B} (m : M A) (g : A -> M B) fs p0 pt nt lo p Q :
  wp m (fun _ p' => exists k', At fs p0 p' pt nt lo k') p ->
  (forall a p' k', At fs p0 p' pt nt lo k' -> wp (g a) Q p') ->
  wp (bind m g) Q p.
Proof.
  intros Hm Hg. apply wp_bind. eapply wp_mono; [|exact Hm]. intros a p' (k' & HA). by eapply Hg.
Qed.

Lemma wp_when fs p0 p pt nt lo k (b : bool) m Q :
  At fs p0 p pt nt lo k ->
  (b = true -> wp m (fun _ p' => exists k', At fs p0 p' pt nt lo k') p) ->
  (forall p' k', At fs p0 p' pt nt lo k' -> Q tt p') ->
  wp (when b m) Q p.
Proof.
  intros HA Hm HQ. destruct b; simpl.
  - eapply wp_mono; [|by apply Hm]. intros [] p' (k' & HA'). by eapply HQ.
  - apply wp_ret. by eapply HQ.
Qed.

Lemma wp_loop fs p0 p pt nt lo k body Q :
  At fs p0 p pt nt lo k ->
  (forall p1 k1, At fs p0 p1 pt nt (pos p1) k1 -> (lo <= pos p1)%nat ->
     wp body (fun b p' => exists k',
       At fs p0 p' pt nt (if b : bool then S (pos p1) else pos p1) k') p1) ->
  (forall p' k', At fs p0 p' pt nt lo k' -> Q tt p') ->
  wp (loop E body) Q p.
Proof.
  intros HA Hb HQ.
  assert (Hf : forall f p1 k1, At fs p0 p1 pt nt lo k1 -> (count E - pos p1 < f)%nat ->
    wp (loop_fuel f body) Q p1).
  { induction f as [|f IH]; intros p1 k1 HA1 Hlt; [lia|]. simpl.
    pose proof (At_pos _ _ _ _ _ _ _ HA1) as Hp.
    apply wp_bind. eapply wp_mono; [|apply (Hb p1 k1); [by eapply At_here|lia]].
    intros [] p2 (k2 & HA2); cbn beta iota.
    - pose proof (At_pos _ _ _ _ _ _ _ HA2). eapply IH; [|lia].
      by eapply At_weaken; [exact HA2|lia].
    - apply wp_ret. eapply HQ, At_weaken; [exact HA2|lia]. }
  unfold wp, loop. change (wp (loop_fuel (S (length (tokens E) - pos p)) body) Q p).
  eapply Hf; [exact HA|]. unfold count. lia.
Qed.

Lemma wp_call {A} (m : M A) (Q R : A -> Parser -> Prop) p :
  wp m Q p -> (forall a p', Q a p' -> R a p') -> wp m R p.
Proof. intros H HR. by eapply wp_mono. Qed.

(** ** Recovery *)

(** The tokens an error node swallows: progress unless at the end of the file. *)
Lemma wp_recover_skip fs p0 p pt nt lo k sync (m : M unit) Q :
  At fs p0 p pt nt lo k ->
  (forall p' k', At fs p0 p' pt nt (up k lo) k' -> wp m Q p') ->
  wp (let* start := gets pos in
      loop E (let* go := gets (fun p => negb (p_is_eof E p) && negb (at_sync E sync p) &&
                                        (fix_count p <? PARSE_FIX_CAP)%nat) in
              if go : bool then skip_one E ;;; ret true else ret false) ;;;
      let* stuck := gets (fun p => (pos p =? start)%nat && negb (p_is_eof E p)) in
      when stuck (skip_one E) ;;; m) Q p.
Proof.
  intros HA2 HQ. apply wp_bind, wp_gets, wp_bind.
  (* the skipped run *)
  eapply wp_call.
  { eapply (wp_loop _ _ _ _ _ (pos p)
      _ _ (fun _ p' => exists k', At fs p0 p' pt nt (pos p) k'));
      [eapply At_here; exact HA2| |by eauto].
    intros p3 k3 HA3 _. apply wp_bind, wp_gets. unfold p_is_eof.
    rewrite (at_kind _ _ _ _ _ _ _ HA3).
    destruct (kind_eqb k3 SK_EOF) eqn:Hk3; simpl; [apply wp_ret; by exists k3|].
    apply kind_eqb_neq in Hk3.
    destruct (negb _ && _)%bool; [|apply wp_ret; by exists k3].
    apply wp_bind. eapply wp_skip_one; [exact HA3|done|]. intros p4 k4 HA4.
    apply wp_ret. by exists k4. }
  intros [] p3 (k3 & HA3). pose proof (at_lo _ _ _ _ _ _ _ HA2) as Hlo.
  pose proof (at_lo _ _ _ _ _ _ _ HA3) as Hlo3.
  apply wp_bind, wp_gets, wp_bind.
  (* progress *)
  assert (H4 : wp (when ((pos p3 =? pos p)%nat && negb (p_is_eof E p3)) (skip_one E))
                 (fun _ p' => exists k', At fs p0 p' pt nt (up k lo) k') p3).
  { assert (Hstay : pos p3 = pos p -> k3 = k).
    { intros Hp. rewrite <- (at_kind _ _ _ _ _ _ _ HA3), <- (at_kind _ _ _ _ _ _ _ HA2).
      by apply peek_pos. }
    unfold p_is_eof. rewrite (at_kind _ _ _ _ _ _ _ HA3).
    destruct (pos p3 =? pos p)%nat eqn:Hp; simpl.
    - apply Nat.eqb_eq in Hp. rewrite (Hstay Hp) in *. unfold up.
      destruct (kind_eqb k SK_EOF) eqn:Hk; simpl.
      + apply wp_ret. exists k. by eapply At_weaken; [exact HA3|lia].
      + apply kind_eqb_neq in Hk. eapply wp_skip_one; [exact HA3|done|].
        intros p' k' HA'. exists k'. eapply At_weaken; [exact HA'|lia].
    - apply Nat.eqb_neq in Hp. apply wp_ret. exists k3.
      eapply At_weaken; [by eapply At_here|]. unfold up. destruct (kind_eqb _ _); lia. }
  eapply wp_call; [exact H4|]. intros [] p4 (k4 & HA4). by eapply HQ.
Qed.

Lemma wp_recover_error fs p0 p pt nt lo k m :
  At fs p0 p pt nt lo k ->
  wp (when (fix_count p <? PARSE_FIX_CAP)%nat (p_error m))
     (fun _ p' => At fs p0 p' pt nt lo k) p.
Proof.
  intros HA. destruct (_ <? _)%nat; simpl; [by eapply wp_error|by apply wp_ret].
Qed.

Lemma wp_recover fs p0 p pt nt lo k sync m Q :
  At fs p0 p pt nt lo k ->
  (forall p' k', At fs p0 p' pt nt (up k lo) k' -> Q tt p') ->
  wp (p_recover E sync m) Q p.
Proof.
  intros HA HQ. apply wp_bind, wp_gets, wp_bind.
  eapply wp_call; [by eapply wp_recover_error|]. intros [] p1 HA1.
  apply wp_bind. eapply wp_start; [exact HA1|]. intros f p2 HA2.
  eapply wp_recover_skip; [exact HA2|]. intros p4 k4 HA4.
  eapply wp_finish; [exact HA4|]. intros p5 HA5. by eapply HQ.
Qed.

Lemma wp_recover_auto fs p0 p pt nt lo k m Q :
  At fs p0 p pt nt lo k ->
  (forall p' k', At fs p0 p' pt nt (up k lo) k' -> Q tt p') ->
  wp (p_recover_auto E m) Q p.
Proof. intros HA HQ. apply wp_bind, wp_gets. by eapply wp_recover. Qed.

End Facts.
End ParserFacts.
