(* ===== verification/ParseExprFacts.v ===== *)
(** * The recursive descent: every parse function is total and lossless

    Given an interpreter [rec] of the three recursive calls that is good for any
    position a fuel [n] can pay for ([rec_ok]), each function of [ParseExpr.v]
    returns, restores the context flags and the frame stack, and emits exactly the
    tokens it consumes ([keeps]); those that start on their own token consume it
    ([eats]).  [run_ok] closes the recursion: a call at a position with [r] tokens
    left is paid for by fuel [2 * r + 2]. *)

From S2P Require Import Prelude SyntaxKind Token Interner Green Builder Parser ParseExpr.
From S2P Require Import GreenFacts ParserFacts.
Import SyntaxKind Token Green Builder Parser Cursor ParseExpr GreenFacts ParserFacts.

Module ParseExprFacts.

#[local] Open Scope parse_scope.

Section Descent.
Context (E : ParserEnv) (Htoks : tokens_ok E).
#[local] Abbreviation At := (At E).

(** ** The recursive calls *)

(** Fuel [n] pays for a [CExpr] at a position that is at least [lo]. *)
Definition fits (n lo : nat) : Prop := (2 * (count E - lo) + 2 <= n)%nat.

Definition affordable (n : nat) (c : call) (k : OreSyntaxKind) (lo : nat) : Prop :=
  match c with
  | CExpr _ => fits n lo
  | CPrefix => fits (S n) lo
  | CIf => k <> SK_EOF /\ fits (S n) lo
  end.

Definition rec_ok (n : nat) (rec : call -> M unit) : Prop :=
  forall c fs p0 p pt nt lo k, At fs p0 p pt nt lo k -> affordable n c k lo ->
  wp (rec c) (fun _ p' => exists k', At fs p0 p' pt nt (up k lo) k') p.

Context (n : nat) (rec : call -> M unit) (Hrec : rec_ok n rec).

Definition keeps {A} (m : M A) : Prop :=
  forall fs p0 p pt nt lo k, At fs p0 p pt nt lo k -> fits n lo ->
  wp m (fun _ p' => exists k', At fs p0 p' pt nt lo k') p.

Definition moves {A} (m : M A) : Prop :=
  forall fs p0 p pt nt lo k, At fs p0 p pt nt lo k -> fits n lo ->
  wp m (fun _ p' => exists k', At fs p0 p' pt nt (up k lo) k') p.

(** On a token satisfying [K], which is not [SK_EOF]. *)
Definition eats {A} (K : OreSyntaxKind -> Prop) (m : M A) : Prop :=
  forall fs p0 p pt nt lo k, At fs p0 p pt nt lo k -> K k -> k <> SK_EOF ->
  fits n (S lo) ->
  wp m (fun _ p' => exists k', At fs p0 p' pt nt (S lo) k') p.

(** Away from the end of the file. *)
Definition goes {A} (m : M A) : Prop :=
  forall fs p0 p pt nt lo k, At fs p0 p pt nt lo k -> k <> SK_EOF -> fits n lo ->
  wp m (fun _ p' => exists k', At fs p0 p' pt nt (S lo) k') p.

(** The same for functions that wrap what follows a checkpoint. *)
Definition keeps_at (m : nat -> M unit) : Prop :=
  forall p0 p pt nt lo k, At [] p0 p pt nt lo k -> fits n lo ->
  wp (m (length (children (gb p0)))) (fun _ p' => exists k', At [] p0 p' pt nt lo k') p.

Definition eats_at (K : OreSyntaxKind -> Prop) (m : nat -> M unit) : Prop :=
  forall p0 p pt nt lo k, At [] p0 p pt nt lo k -> K k -> k <> SK_EOF -> fits n (S lo) ->
  wp (m (length (children (gb p0)))) (fun _ p' => exists k', At [] p0 p' pt nt (S lo) k') p.

Lemma fits_mono a b lo lo' : fits a lo -> (a <= b)%nat -> (lo <= lo')%nat -> fits b lo'.
Proof. unfold fits. lia. Qed.

Lemma up_ne k lo : k <> SK_EOF -> up k lo = S lo.
Proof. intros H. unfold up. by rewrite (proj2 (kind_eqb_neq _ _) H). Qed.

Lemma keeps_moves {A} (m : M A) : moves m -> keeps m.
Proof.
  intros H fs p0 p pt nt lo k HA Hf. eapply wp_call; [by eapply H|].
  intros a p' (k' & HA'). exists k'. eapply At_weaken; [exact HA'|apply up_le].
Qed.

Lemma moves_goes {A} (m : M A) : moves m -> goes m.
Proof.
  intros H fs p0 p pt nt lo k HA Hk Hf. rewrite <- (up_ne k lo Hk). by eapply H.
Qed.

(** A round of a loop that compares positions. *)
Lemma goes_here {A} (m : M A) :
  (forall fs p0 p pt nt k, At fs p0 p pt nt (pos p) k -> p_peek E p = k -> k <> SK_EOF ->
     fits n (pos p) -> wp m (fun _ p' => exists k', At fs p0 p' pt nt (S (pos p)) k') p) ->
  goes m.
Proof.
  intros H fs p0 p pt nt lo k HA Hk Hf. pose proof (at_lo _ _ _ _ _ _ _ _ HA) as Hlo.
  eapply wp_call; [eapply H; [eapply At_here; exact HA|apply HA|done|]|].
  - eapply fits_mono; [exact Hf|lia|lia].
  - intros a p' (k' & HA'). exists k'. eapply At_weaken; [exact HA'|lia].
Qed.

Lemma wp_rebase {A} (m : M A) fs p0 p pt nt lo (lo' : A -> nat) k :
  At fs p0 p pt nt lo k ->
  (At [] p p pt nt lo k -> wp m (fun a p' => exists k', At [] p p' pt nt (lo' a) k') p) ->
  wp m (fun a p' => exists k', At fs p0 p' pt nt (lo' a) k') p.
Proof.
  intros HA Hm. eapply wp_call; [apply Hm; by eapply At_rebase|].
  intros a p' (k' & HA'). exists k'. by eapply At_compose.
Qed.

Lemma wp_tail {A} (m : M A) Q p : wp (bind m ret) Q p -> wp m Q p.
Proof.
  intros (a & p' & Em & HQ). unfold bind in Em.
  destruct (m p) as [[b p1]| |] eqn:Ep; try discriminate Em.
  exists b, p1. simpl in Em. injection Em as <- <-. done.
Qed.

Lemma wp_assoc {A B C} (m : M A) (f : A -> M B) (g : B -> M C) Q p :
  wp (bind m (fun a => bind (f a) g)) Q p -> wp (bind (bind m f) g) Q p.
Proof.
  intros (c & p' & Em & HQ). exists c, p'. split; [|done]. unfold bind in *.
  by destruct (m p) as [[a p1]| |].
Qed.

(** ** Flags, matches, loops *)

Lemma wp_with_parsing_type fs p0 p pt nt lo lo' k b m :
  At fs p0 p pt nt lo k ->
  (forall p1, At fs p0 p1 b nt lo k ->
     wp m (fun _ p' => exists k', At fs p0 p' b nt lo' k') p1) ->
  wp (with_parsing_type b m) (fun _ p' => exists k', At fs p0 p' pt nt lo' k') p.
Proof.
  intros HA Hm. unfold with_parsing_type. apply wp_bind, wp_gets, wp_bind, wp_modify, wp_bind.
  eapply wp_call; [apply Hm; destruct HA as [[] ? ? ? ?]; split; [split|..]; done|].
  intros [] p1 (k' & [[] ? ? ? ?]). apply wp_modify. exists k'.
  rewrite (at_pt _ _ _ _ _ _ _ _ HA). split; [split|..]; done.
Qed.

Lemma wp_with_no_trailing_lambda fs p0 p pt nt lo lo' k b m :
  At fs p0 p pt nt lo k ->
  (forall p1, At fs p0 p1 pt b lo k ->
     wp m (fun _ p' => exists k', At fs p0 p' pt b lo' k') p1) ->
  wp (with_no_trailing_lambda b m) (fun _ p' => exists k', At fs p0 p' pt nt lo' k') p.
Proof.
  intros HA Hm. unfold with_no_trailing_lambda.
  apply wp_bind, wp_gets, wp_bind, wp_modify, wp_bind.
  eapply wp_call; [apply Hm; destruct HA as [[] ? ? ? ?]; split; [split|..]; done|].
  intros [] p1 (k' & [[] ? ? ? ?]). apply wp_modify. exists k'.
  rewrite (at_nt _ _ _ _ _ _ _ _ HA). split; [split|..]; done.
Qed.

(** A match or a consume whose result is dropped, or used to stop. *)
Lemma wp_match_bool fs p0 p pt nt lo k K :
  At fs p0 p pt nt lo k -> K <> SK_EOF ->
  wp (p_match E K) (fun b p' => exists k', At fs p0 p' pt nt (if b : bool then S lo else lo) k') p.
Proof.
  intros HA HK. eapply wp_match; [exact Htoks|exact HA|done| |].
  - intros _ p' k' HA'. by exists k'.
  - intros _. by exists k.
Qed.

Lemma match_keeps K : K <> SK_EOF -> keeps (p_match E K).
Proof.
  intros HK fs p0 p pt nt lo k HA _.
  eapply wp_call; [by eapply wp_match_bool|]. intros [] p' (k' & HA'); exists k'; [|done].
  eapply At_weaken; [exact HA'|lia].
Qed.

Lemma consume_keeps K m : K <> SK_EOF -> keeps (p_consume E K m).
Proof.
  intros HK fs p0 p pt nt lo k HA _. eapply wp_consume; [exact Htoks|exact HA|done| |].
  - intros _ t p' k' HA'. exists k'. eapply At_weaken; [exact HA'|lia].
  - intros _ p' HA'. by exists k.
Qed.

Lemma advance_moves : moves (p_advance E).
Proof.
  intros fs p0 p pt nt lo k HA _. eapply wp_advance; [exact Htoks|exact HA|].
  intros t p' k' HA'. by exists k'.
Qed.

Lemma ret_keeps {A} (a : A) : keeps (ret a).
Proof. intros fs p0 p pt nt lo k HA _. apply wp_ret. by exists k. Qed.

Lemma error_keeps m : keeps (p_error m).
Proof. intros fs p0 p pt nt lo k HA _. eapply wp_error; [exact HA|]. intros p' HA'. by exists k. Qed.

Lemma recover_auto_moves m : moves (p_recover_auto E m).
Proof.
  intros fs p0 p pt nt lo k HA _. eapply wp_recover_auto; [exact Htoks|exact HA|].
  intros p' k' HA'. by exists k'.
Qed.

Lemma recover_if_stuck_keeps b m : keeps (recover_if_stuck E b m).
Proof.
  intros fs p0 p pt nt lo k HA Hf. apply wp_bind, wp_gets. eapply wp_when; [exact HA| |].
  - intros _. by apply (keeps_moves _ (recover_auto_moves m)) with k.
  - intros p' k' HA'. by exists k'.
Qed.

(** After [recover_if_stuck] the cursor is past the position [pos p1], which was not
    the end of the file. *)
Lemma wp_recover_if_stuck fs p0 p1 p pt nt k1 k m :
  p_peek E p1 = k1 -> k1 <> SK_EOF -> At fs p0 p pt nt (pos p1) k ->
  wp (recover_if_stuck E (pos p1) m)
     (fun _ p' => exists k', At fs p0 p' pt nt (S (pos p1)) k') p.
Proof.
  intros Hk1 Hne HA. apply wp_bind, wp_gets.
  pose proof (at_lo _ _ _ _ _ _ _ _ HA) as Hlo.
  destruct (pos p =? pos p1)%nat eqn:Hp; simpl.
  - apply Nat.eqb_eq in Hp. eapply wp_recover_auto; [exact Htoks|exact HA|].
    intros p' k' HA'. exists k'. rewrite up_ne in HA'; [exact HA'|].
    rewrite <- (at_kind _ _ _ _ _ _ _ _ HA), (peek_pos E p p1 Hp). congruence.
  - apply Nat.eqb_neq in Hp. apply wp_ret. exists k.
    eapply At_weaken; [eapply At_here; exact HA|lia].
Qed.

(** [while (cond) body] where a true [cond] only reads, and says the cursor is not
    at the end. *)
Lemma wp_while fs p0 p pt nt lo k (cond : Parser -> bool) body :
  At fs p0 p pt nt lo k ->
  (forall p, cond p = true -> p_peek E p <> SK_EOF) ->
  (forall p1 k1, At fs p0 p1 pt nt (pos p1) k1 -> (lo <= pos p1)%nat -> k1 <> SK_EOF ->
     cond p1 = true ->
     wp body (fun _ p' => exists k', At fs p0 p' pt nt (S (pos p1)) k') p1) ->
  wp (while_ E (gets cond) body) (fun _ p' => exists k', At fs p0 p' pt nt lo k') p.
Proof.
  intros HA Hc Hb. eapply wp_loop; [exact HA| |by eauto].
  intros p1 k1 HA1 Hlo. apply wp_bind, wp_gets. destruct (cond p1) eqn:Hc1.
  - apply wp_bind. eapply wp_call; [apply (Hb p1 k1); try done|].
    + rewrite <- (at_kind _ _ _ _ _ _ _ _ HA1). by apply Hc.
    + intros a p' (k' & HA'). apply wp_ret. by exists k'.
  - apply wp_ret. by exists k1.
Qed.

(** [inside] and [before] only read. *)
Definition inside_b (k : OreSyntaxKind) (p : Parser) : bool :=
  negb (p_is_eof E p) && negb (p_check E k p).
Definition before_b (k : OreSyntaxKind) (p : Parser) : bool :=
  negb (p_is_eof E p) && negb (kind_eqb (p_peek E p) k).

Lemma not_eof_peek p : negb (p_is_eof E p) = true -> p_peek E p <> SK_EOF.
Proof.
  intros H Hk. unfold p_is_eof in H. by rewrite Hk in H.
Qed.

Lemma inside_eof k p : inside_b k p = true -> p_peek E p <> SK_EOF.
Proof. intros H. apply andb_prop in H as [H _]. by apply not_eof_peek. Qed.

Lemma before_eof k p : before_b k p = true -> p_peek E p <> SK_EOF.
Proof. intros H. apply andb_prop in H as [H _]. by apply not_eof_peek. Qed.

Lemma inside_gets k : inside E k = gets (inside_b k).
Proof. reflexivity. Qed.

Lemma before_gets k : before E k = gets (before_b k).
Proof. reflexivity. Qed.

(** A block-like loop: each round makes progress. *)
Lemma while_inside_keeps k body : goes body -> keeps (while_ E (inside E k) body).
Proof.
  intros Hb fs p0 p pt nt lo k0 HA Hf. rewrite inside_gets.
  eapply wp_while; [exact HA|apply inside_eof|].
  intros p1 k1 HA1 Hlo Hne _. eapply Hb; [exact HA1|exact Hne|].
  eapply fits_mono; [exact Hf|lia|lia].
Qed.

Lemma after_comma fs p0 pt nt (p1 : Parser) lo k p :
  At fs p0 p pt nt lo k -> lo = pos p1 ->
  wp (p_match E SK_COMMA) (fun b p' => exists k',
    At fs p0 p' pt nt (if b : bool then S (pos p1) else pos p1) k') p.
Proof. intros HA ->. by eapply wp_match_bool. Qed.

(** A separated list: each round ends with a comma or is the last. *)
Lemma comma_loop_keeps k (body : M unit) :
  keeps body -> keeps (comma_loop E (before E k) body).
Proof.
  intros Hb fs p0 p pt nt lo k0 HA Hf. unfold comma_loop. rewrite before_gets.
  eapply wp_loop; [exact HA| |by eauto].
  intros p1 k1 HA1 Hlo. apply wp_bind, wp_gets. destruct (before_b k p1).
  - apply wp_bind. eapply wp_call; [eapply Hb; [exact HA1|]|].
    + eapply fits_mono; [exact Hf|lia|lia].
    + intros a p' (k' & HA'). by eapply after_comma.
  - apply wp_ret. by exists k1.
Qed.

(** A loop on a leading token. *)
Lemma while_match_keeps K body :
  K <> SK_EOF -> keeps body -> keeps (while_ E (p_match E K) body).
Proof.
  intros HK Hb fs p0 p pt nt lo k0 HA Hf. eapply wp_loop; [exact HA| |by eauto].
  intros p1 k1 HA1 Hlo. apply wp_bind. eapply wp_match; [exact Htoks|exact HA1|done| |].
  - intros _ p' k' HA'. apply wp_bind. eapply wp_call; [eapply Hb; [exact HA'|]|].
    + eapply fits_mono; [exact Hf|lia|lia].
    + intros a p2 (k2 & HA2). apply wp_ret. by exists k2.
  - intros _. apply wp_ret. by exists k1.
Qed.

End Descent.

(** ** Automation

    [pgo] runs a parse function symbolically, one command at a time, keeping one
    [At] hypothesis for the current state; the hint database [parse] holds the
    specifications of the functions it calls. *)

Create HintDb parse discriminated.
#[export] Hint Extern 1 (_ <> SK_EOF) => (discriminate || assumption) : parse.
#[export] Hint Resolve keeps_moves moves_goes advance_moves ret_keeps match_keeps consume_keeps
  error_keeps recover_auto_moves recover_if_stuck_keeps while_inside_keeps
  comma_loop_keeps while_match_keeps : parse.

Ltac fit :=
  solve [ eassumption
        | eapply fits_mono; [eassumption | lia
                            | unfold up; repeat split_if; lia] ].

(** Replace reads of the state by what the hypothesis says. *)
Ltac reads HA :=
  rewrite ?(p_check_kind _ _ _ _ _ _ _ _ _ HA), ?(at_kind _ _ _ _ _ _ _ _ HA),
    ?(at_pt _ _ _ _ _ _ _ _ HA), ?(at_nt _ _ _ _ _ _ _ _ HA).

(** Close a goal [exists k', At ...]. *)
Ltac pend :=
  lazymatch goal with
  | HA : ParserFacts.At _ _ _ ?p _ _ _ _ |- exists _, ParserFacts.At _ _ _ ?p _ _ _ _ =>
      eexists; eapply At_weaken; [exact HA | unfold up; repeat split_if; lia]
  end.

Ltac next HA :=
  clear HA; let a := fresh "a" in let p := fresh "p" in let k := fresh "k" in
  intros a p k HA.

(** The specification of a command, from the hint database. *)
Ltac pspec HA m :=
  lazymatch type of HA with
  | ParserFacts.At ?E _ _ _ _ _ _ _ =>
      match goal with
      | Hf : fits E ?n _ |- _ =>
          let H := fresh in
          assert (H : keeps E n m) by (solve [eauto 5 with parse nocore]);
          eapply wp_call; [eapply H; [exact HA | fit] |]
      end
  end.

Ltac pstep :=
  cbv beta;
  lazymatch goal with
  | HA : ParserFacts.At ?E ?fs ?p0 ?p ?pt ?nt ?lo ?k |- wp ?c _ ?p =>
      lazymatch c with
      | bind ?m _ =>
          lazymatch m with
          | gets _ => apply wp_bind, wp_gets; cbv beta; reads HA
          | ret _ => apply wp_bind, wp_ret; cbv beta
          | bind _ _ => apply wp_assoc
          | p_checkpoint =>
              eapply wp_rebase; [exact HA|]; clear HA; intros HA;
              apply wp_bind, wp_gets; unfold green_builder_checkpoint
          | p_error _ =>
              apply wp_bind; eapply wp_error; [exact HA|]; clear HA;
              let p := fresh "p" in intros p HA
          | p_start_node _ =>
              apply wp_bind; eapply wp_start; [exact HA|]; clear HA;
              let f := fresh "f" in let p := fresh "p" in intros f p HA
          | p_finish_node =>
              apply wp_bind; eapply wp_finish; [exact HA|]; clear HA;
              let p := fresh "p" in intros p HA
          | p_start_node_at _ _ =>
              apply wp_bind; eapply wp_start_at; [exact HA|]; clear HA;
              let f := fresh "f" in let p := fresh "p" in intros f p HA
          | p_advance _ =>
              apply wp_bind; eapply wp_advance; [eassumption|exact HA|]; next HA;
              first [ rewrite up_ne in HA by (discriminate || assumption)
                    | eapply At_weaken in HA; [|apply up_le] ]
          | with_parsing_type _ _ =>
              eapply (wp_seq E _ _ fs p0 pt nt lo);
              [ eapply wp_with_parsing_type; [exact HA|]; clear HA;
                let p := fresh "p" in intros p HA
              | next HA ]
          | with_no_trailing_lambda _ _ =>
              eapply (wp_seq E _ _ fs p0 pt nt lo);
              [ eapply wp_with_no_trailing_lambda; [exact HA|]; clear HA;
                let p := fresh "p" in intros p HA
              | next HA ]
          | when _ _ =>
              eapply (wp_seq E _ _ fs p0 pt nt lo);
              [ eapply wp_when; [exact HA | intros _ | intros; by eexists]
              | next HA ]
          | (if ?b then _ else _) => eapply (wp_seq E _ _ fs p0 pt nt lo); [destruct b | next HA]
          | (match ?o with Some _ => _ | None => _ end) =>
              eapply (wp_seq E _ _ fs p0 pt nt lo); [destruct o | next HA]
          | _ =>
              eapply (wp_seq E _ _ fs p0 pt nt lo);
              [ pspec HA m; let Hx := fresh in intros ? ? (? & Hx); by eexists
              | next HA ]
          end
      | ret _ => apply wp_ret; try pend
      | when ?b _ => destruct b; cbv beta iota delta [when]
      | (if ?b then _ else _) => destruct b
      | (match ?o with Some _ => _ | None => _ end) => destruct o
      | recover_if_stuck _ (pos _) _ =>
          first [ eapply wp_recover_if_stuck; [eassumption | eassumption | eassumption | exact HA]
                | pspec HA c; clear HA; let a := fresh "a" in let p := fresh "p" in
                  let k := fresh "k" in intros a p (k & HA); try pend ]
      | gets _ => apply wp_tail
      | p_start_node _ => apply wp_tail
      | p_finish_node => apply wp_tail
      | p_start_node_at _ _ => apply wp_tail
      | p_advance _ => apply wp_tail
      | with_parsing_type _ _ => apply wp_tail
      | with_no_trailing_lambda _ _ => apply wp_tail
      | _ => pspec HA c; clear HA; let a := fresh "a" in let p := fresh "p" in
             let k := fresh "k" in intros a p (k & HA); try pend
      end
  end.

Ltac pgo := repeat pstep.

(** Enter a specification. *)
Ltac penter := intros fs p0 p pt nt lo k HA; intros.
Ltac penter_here := apply goes_here; intros fs p0 p pt nt k HA Hk Hne Hf.

End ParseExprFacts.
