(* ===== verification/ParseTotal.v ===== *)
(** * The parse functions are total and lossless

    The specification of each function of [ParseExpr.v] in the terms of
    [ParseExprFacts.v], then [run_ok], which closes the recursion, and the result of
    [parse_source_file]. *)

From S2P Require Import Prelude SyntaxKind Token Interner Green Builder Parser ParseExpr.
From S2P Require Import GreenFacts ParserFacts ParseExprFacts.
Import SyntaxKind Token Green Builder Parser Cursor ParseExpr GreenFacts ParserFacts.
Import ParseExprFacts.

Module ParseTotal.

#[local] Open Scope parse_scope.

Section Descent.
Context (E : ParserEnv) (Htoks : tokens_ok E).
Context (n : nat) (rec : call -> M unit) (Hrec : rec_ok E n rec).
#[local] Abbreviation At := (At E).
#[local] Abbreviation keeps := (keeps E n).
#[local] Abbreviation moves := (moves E n).
#[local] Abbreviation goes := (goes E n).
#[local] Abbreviation eats := (eats E n).
#[local] Abbreviation keeps_at := (keeps_at E n).
#[local] Abbreviation eats_at := (eats_at E n).

(** ** The calls *)

Lemma parse_expr_moves prec : moves (parse_expr rec prec).
Proof. penter. by eapply Hrec. Qed.

Lemma parse_prefix_moves : moves (parse_prefix rec).
Proof. penter. eapply Hrec; [exact HA|]. by eapply fits_mono; [eassumption|lia|lia]. Qed.

Lemma parse_if_expr_goes : goes (parse_if_expr rec).
Proof.
  penter. rewrite <- (up_ne k lo) by done. eapply Hrec; [exact HA|]. split; [done|].
  by eapply fits_mono; [eassumption|lia|lia].
Qed.
#[local] Hint Resolve parse_expr_moves parse_prefix_moves : parse.

(** ** Types *)

Lemma skip_angles_keeps fuel depth : forall fs p0 p pt nt lo k,
  At fs p0 p pt nt lo k -> (count E - pos p < fuel)%nat ->
  wp (skip_angles E fuel depth) (fun _ p' => exists k', At fs p0 p' pt nt lo k') p.
Proof.
  revert depth. induction fuel as [|fuel IH]; intros depth; penter; [lia|].
  simpl. pstep. destruct ((0 <? depth)%nat && negb (p_is_eof E p)) eqn:Hc; [|pgo].
  apply andb_prop in Hc as [_ Hc]. apply not_eof_peek in Hc.
  rewrite (at_kind _ _ _ _ _ _ _ _ HA) in Hc.
  pose proof (At_pos _ _ _ _ _ _ _ _ HA) as Hp. pstep. apply wp_bind.
  eapply wp_advance; [done|eapply At_here; exact HA|].
  intros t p' k' HA'. rewrite up_ne in HA' by done.
  pose proof (At_pos _ _ _ _ _ _ _ _ HA') as Hp'.
  eapply IH; [eapply At_weaken; [exact HA'|lia]|lia].
Qed.

Lemma parse_type_expr_moves : moves (parse_type_expr E rec).
Proof.
  penter. unfold parse_type_expr. eapply wp_with_parsing_type; [exact HA|]. clear HA. intros p1 HA.
  apply wp_bind. eapply wp_call; [by eapply parse_expr_moves|]. intros _ p2 (k2 & HA2).
  clear HA. pgo. eapply wp_call.
  - eapply skip_angles_keeps; [exact HA2|unfold count; lia].
  - cbv beta. by intros _ p' H'.
Qed.

#[local] Hint Resolve parse_type_expr_moves : parse.

(** On any token. *)
Definition takes {A} (m : M A) : Prop := eats (fun _ => True) m.

Lemma parse_qualified_type_takes K : takes (parse_qualified_type E K).
Proof. penter. unfold parse_qualified_type. pgo. Qed.

Lemma parse_distinct_type_takes : takes (parse_distinct_type E rec).
Proof. penter. unfold parse_distinct_type. pgo. Qed.

Lemma parse_bit_field_goes : goes (parse_bit_field E rec).
Proof.
  penter. unfold parse_bit_field. pstep. destruct (negb _).
  - eapply moves_goes; [by apply recover_auto_moves|done|done|done].
  - pgo.
Qed.
#[local] Hint Resolve parse_bit_field_goes : parse.

Lemma parse_bit_field_type_takes : takes (parse_bit_field_type E rec).
Proof. penter. unfold parse_bit_field_type. pgo. Qed.

Lemma effect_labels_keeps : keeps (loop E (
    let* c := before E SK_GT in
    if negb c then ret false else
    let* k := gets (p_peek E) in
    if kind_eqb k SK_DOT_DOT_DOT || kind_eqb k SK_DOT_DOT then ret false else
    parse_type_expr E rec ;;;
    p_match E SK_COMMA)).
Proof.
  penter. rewrite before_gets. eapply wp_loop; [exact HA| |by eauto].
  clear p k HA. intros p k HA Hlo. pstep. destruct (negb _); [by pgo|]. pstep.
  destruct (_ || _)%bool; [by pgo|]. apply wp_bind. eapply wp_call.
  - eapply keeps_moves; [by apply parse_type_expr_moves|exact HA|fit].
  - intros a p' (k' & HA'). by eapply after_comma.
Qed.
#[local] Hint Resolve effect_labels_keeps : parse.

Lemma parse_effect_row_keeps : keeps (parse_effect_row E rec).
Proof. penter. unfold parse_effect_row. pgo. Qed.

#[local] Hint Resolve parse_effect_row_keeps : parse.

(** A consume that succeeds. *)
Lemma wp_consume_hit K m fs p0 p pt nt lo k Q :
  At fs p0 p pt nt lo k -> K <> SK_EOF -> kind_matches_with_virtual K k = true ->
  (forall t p' k', At fs p0 p' pt nt (S lo) k' -> Q (Some t) p') ->
  wp (p_consume E K m) Q p.
Proof.
  intros HA HK Hm HQ. eapply wp_consume; [done|exact HA|done|intros _; exact HQ|].
  by rewrite Hm.
Qed.

Lemma parse_effect_row_eats : eats (fun k => k = SK_LT) (parse_effect_row E rec).
Proof.
  penter. subst k. unfold parse_effect_row. pstep. apply wp_bind.
  eapply wp_consume_hit; [exact HA|done|done|]. clear HA. intros t p' k1 HA. pgo.
Qed.

(** ** Parameters, labels, captures *)

Lemma parse_optional_label_keeps : keeps (parse_optional_label E).
Proof. penter. unfold parse_optional_label. pgo. Qed.

Lemma parse_param_keeps b : keeps (parse_param E rec b).
Proof. penter. unfold parse_param. pgo. Qed.

Lemma parse_optional_capture_keeps : keeps (parse_optional_capture E).
Proof. penter. unfold parse_optional_capture. pgo. Qed.
#[local] Hint Resolve parse_optional_label_keeps parse_param_keeps
  parse_optional_capture_keeps : parse.

(** ** Bind declarations *)

Lemma at_modifier_kw_eof t : at_modifier_kw E (Some t) = true -> kind t <> SK_EOF.
Proof. intros H Hk. unfold at_modifier_kw in H. rewrite Hk in H. discriminate H. Qed.

Lemma modifiers_keeps :
  keeps (while_ E (gets (fun p => at_modifier_kw E (p_current E p))) (p_advance E ;;; ret tt)).
Proof.
  penter. eapply wp_while; [exact HA| |].
  - intros p1 Hc. unfold p_peek. destruct (p_current E p1) as [t|]; [|done].
    by apply at_modifier_kw_eof.
  - clear p k HA. intros p k HA Hlo Hk _. pgo.
Qed.
#[local] Hint Resolve modifiers_keeps : parse.

Lemma emit_bind_decl_tail_keeps_at op d :
  keeps_at (fun cp => emit_bind_decl_tail E rec op cp d).
Proof. intros p0 p pt nt lo k HA Hf. unfold emit_bind_decl_tail. pgo. Qed.

Lemma parse_named_bind_decl_keeps : keeps (parse_named_bind_decl E rec).
Proof.
  penter. unfold parse_named_bind_decl. do 3 pstep.
  eapply (emit_bind_decl_tail_keeps_at _ _); [exact HA|fit].
Qed.

Lemma parse_bare_destructure_tail_keeps_at : keeps_at (parse_bare_destructure_tail E rec).
Proof.
  intros p0 p pt nt lo k HA Hf. unfold parse_bare_destructure_tail. do 4 pstep.
  pstep; [|pgo]. eapply (emit_bind_decl_tail_keeps_at _ _); [exact HA|fit].
Qed.
#[local] Hint Resolve parse_named_bind_decl_keeps : parse.

(** ** Statements and blocks *)

Lemma parse_stmt_keeps : keeps (parse_stmt E rec).
Proof.
  penter. unfold parse_stmt. do 3 pstep; [pgo|]. do 4 pstep; [|pgo].
  by eapply parse_bare_destructure_tail_keeps_at.
Qed.
#[local] Hint Resolve parse_stmt_keeps : parse.

Lemma stmt_loop_keeps sp : keeps sp -> keeps (stmt_loop E sp).
Proof.
  intros Hsp. apply while_inside_keeps. penter_here. pgo.
Qed.
#[local] Hint Resolve stmt_loop_keeps : parse.

Lemma parse_block_keeps sp : keeps sp -> keeps (parse_block E sp).
Proof. intros Hsp. penter. unfold parse_block. pgo. Qed.
#[local] Hint Resolve parse_block_keeps : parse.

(** A block on its own first token consumes it. *)
Lemma parse_block_eats sp : keeps sp ->
  eats (fun k => k = SK_LABEL \/ k = SK_LBRACE \/ k = SK_VIRTUAL_LBRACE) (parse_block E sp).
Proof.
  intros Hsp. penter. unfold parse_block. pstep. apply wp_bind.
  eapply wp_match; [done|exact HA|done| |].
  - clear HA. intros _ p' k' HA. pgo.
  - intros Hm. apply wp_bind. eapply wp_consume_hit; [exact HA|done| |].
    + destruct H as [->|[->| ->]]; [discriminate Hm|done|done].
    + clear HA. intros t p' k' HA. pgo.
Qed.

Lemma parse_body_keeps sp : keeps sp -> keeps (parse_body E rec sp).
Proof. intros Hsp. penter. unfold parse_body. pgo. Qed.
#[local] Hint Resolve parse_body_keeps : parse.

(** ** Lambdas and function types *)

Lemma fn_lambda_body_starts_keeps : keeps (fn_lambda_body_starts E).
Proof. penter. unfold fn_lambda_body_starts. pgo. Qed.
#[local] Hint Resolve fn_lambda_body_starts_keeps : parse.

Lemma parse_lambda_takes K : takes (parse_lambda E rec K).
Proof. penter. unfold parse_lambda. pgo. Qed.

Lemma parse_fn_type_takes : takes (parse_fn_type E rec).
Proof. penter. unfold parse_fn_type. pgo. Qed.

Lemma emit_trailing_thunk_lambda_keeps : keeps (emit_trailing_thunk_lambda E rec).
Proof.
  penter. unfold emit_trailing_thunk_lambda. pstep. destruct (kind_eqb k SK_FN_KW) eqn:Hk.
  - apply kind_eqb_eq in Hk. subst k.
    eapply wp_call; [eapply parse_lambda_takes; [exact HA|done|done|fit]|].
    intros _ p' (k' & HA'). exists k'. eapply At_weaken; [exact HA'|lia].
  - pgo.
Qed.
#[local] Hint Resolve emit_trailing_thunk_lambda_keeps : parse.

Lemma emit_trailing_thunk_lambda_eats :
  eats (fun k => is_thunk_start k = true) (emit_trailing_thunk_lambda E rec).
Proof.
  penter. unfold emit_trailing_thunk_lambda. pstep. destruct (kind_eqb k SK_FN_KW) eqn:Hk.
  - by eapply parse_lambda_takes.
  - do 3 pstep. assert (Hk' : k = SK_LBRACE \/ k = SK_VIRTUAL_LBRACE).
    { unfold is_thunk_start in H. rewrite Hk, orb_false_r in H.
      apply orb_prop in H as [H|H]; apply kind_eqb_eq in H; auto. }
    eapply (wp_seq E _ _ (f :: fs) p0 pt nt (S lo)); [|clear HA; intros a p' k' HA; pgo].
    unfold parse_body. do 3 pstep.
    replace (_ || _ || _)%bool with true by (by destruct Hk' as [-> | ->]).
    eapply parse_block_eats; [by apply parse_stmt_keeps|exact HA|tauto|done|done].
Qed.

(** ** Postfix and infix *)

Lemma infix_call_eats_at K : eats_at K (infix_call E rec).
Proof. intros p0 p pt nt lo k HA HK Hk Hf. unfold infix_call. pgo. Qed.

Lemma infix_bracket_eats_at K : eats_at K (infix_bracket E rec).
Proof. intros p0 p pt nt lo k HA HK Hk Hf. unfold infix_bracket. pgo. Qed.

Lemma infix_field_eats_at K : eats_at K (infix_field E).
Proof. intros p0 p pt nt lo k HA HK Hk Hf. unfold infix_field. pgo. Qed.

Lemma infix_postfix_eats_at K : eats_at K (infix_postfix E).
Proof. intros p0 p pt nt lo k HA HK Hk Hf. unfold infix_postfix. pgo. Qed.

Lemma infix_binary_eats_at op K : eats_at K (infix_binary E rec op).
Proof. intros p0 p pt nt lo k HA HK Hk Hf. unfold infix_binary. pgo. Qed.

Lemma infix_thunk_eats_at :
  eats_at (fun k => is_thunk_start k = true) (infix_thunk E rec).
Proof.
  intros p0 p pt nt lo k HA HK Hk Hf. unfold infix_thunk. do 2 pstep.
  eapply wp_seq; [by eapply emit_trailing_thunk_lambda_eats|].
  clear HA. intros a p' k' HA. pgo.
Qed.

(** The operator is the token under the cursor. *)
Lemma parse_infix_eats_at op : eats_at (fun k => k = op) (parse_infix E rec op).
Proof.
  intros p0 p pt nt lo k HA <- Hk Hf. unfold parse_infix.
  pstep; [by eapply (infix_call_eats_at (fun _ => True))|].
  destruct (_ || _ || _)%bool eqn:Ht.
  { eapply infix_thunk_eats_at; try done. unfold is_thunk_start.
    by destruct k. }
  pstep; [by eapply (infix_bracket_eats_at (fun _ => True))|].
  pstep; [by eapply (infix_field_eats_at (fun _ => True))|].
  pstep; [by eapply (infix_postfix_eats_at (fun _ => True))|].
  by eapply (infix_binary_eats_at _ (fun _ => True)).
Qed.

(** ** Simple prefix forms *)

Lemma parse_prefix_unary_takes K : takes (parse_prefix_unary E rec K).
Proof. penter. unfold parse_prefix_unary. pgo. Qed.

Lemma parse_return_expr_takes : takes (parse_return_expr E rec).
Proof. penter. unfold parse_return_expr. pgo. Qed.

Lemma parse_defer_expr_takes : takes (parse_defer_expr E rec).
Proof. penter. unfold parse_defer_expr. pgo. Qed.

Lemma parse_break_or_continue_takes K : takes (parse_break_or_continue E rec K).
Proof. penter. unfold parse_break_or_continue. pgo. Qed.

(** ** Control flow *)

Lemma parse_if_expr_body_takes : takes (parse_if_expr_body E rec).
Proof.
  penter. unfold parse_if_expr_body. do 8 pstep.
  eapply (wp_seq E _ _ (f :: fs) p0 pt nt (S lo)); [|clear HA; intros [] p' k' HA; pgo].
  destruct (kind_eqb _ SK_ELIF_KW) eqn:Hk; [|pgo]. apply kind_eqb_eq in Hk.
  eapply wp_call; [eapply parse_if_expr_goes; [exact HA|by rewrite Hk|fit]|].
  intros _ p' (k' & HA'). exists k'. eapply At_weaken; [exact HA'|lia].
Qed.

Lemma loop_continue_takes : takes (loop_continue E rec).
Proof. penter. unfold loop_continue. pgo. Qed.

Lemma loop_continue_keeps : keeps (loop_continue E rec).
Proof. penter. unfold loop_continue. pgo. Qed.
#[local] Hint Resolve loop_continue_keeps : parse.

Lemma parse_loop_expr_takes : takes (parse_loop_expr E rec).
Proof. penter. unfold parse_loop_expr. pgo. Qed.

Lemma switch_patterns_keeps : keeps (loop E (switch_pattern E rec)).
Proof.
  penter. eapply wp_loop; [exact HA| |by eauto]. clear p k HA. intros p k HA Hlo.
  unfold switch_pattern. do 4 pstep. { pgo. } by eapply wp_match_bool.
Qed.
#[local] Hint Resolve switch_patterns_keeps : parse.

Lemma switch_arm_goes : goes (switch_arm E rec).
Proof. penter_here. unfold switch_arm. pgo. Qed.
#[local] Hint Resolve switch_arm_goes : parse.

Lemma parse_switch_expr_takes : takes (parse_switch_expr E rec).
Proof. penter. unfold parse_switch_expr. pgo. Qed.

(** ** Aggregates *)

Lemma aggregate_field_goes : goes (aggregate_field E rec).
Proof.
  penter_here. unfold aggregate_field. do 3 pstep.
  destruct (p_at_kw E _ p); cbn [when]; [by pgo|]. pstep; [by pgo|]. do 3 pstep.
  destruct (negb _); [|by pgo]. apply wp_bind.
  eapply wp_recover_auto; [done|exact HA|]. rewrite up_ne by done.
  clear HA. intros p' k' HA. pgo.
Qed.
#[local] Hint Resolve aggregate_field_goes : parse.

Lemma parse_aggregate_expr_takes K : takes (parse_aggregate_expr E rec K true).
Proof. penter. unfold parse_aggregate_expr. cbn [when]. pgo. Qed.

Lemma enum_variant_goes : goes (enum_variant E rec).
Proof.
  penter. unfold enum_variant. pstep. destruct (negb _).
  - eapply moves_goes; [by apply recover_auto_moves|done|done|done].
  - pgo.
Qed.
#[local] Hint Resolve enum_variant_goes : parse.

Lemma parse_enum_expr_takes : takes (parse_enum_expr E rec).
Proof. penter. unfold parse_enum_expr. pgo. Qed.

(** The loop of an init list goes round again only after a comma. *)
Lemma init_fields_keeps : keeps (init_fields E rec).
Proof.
  penter. unfold init_fields. eapply (wp_seq E _ _ fs p0 pt nt lo); [|clear HA; intros a p' k' HA; pgo].
  rewrite inside_gets. eapply wp_loop; [exact HA| |by eauto].
  clear p k HA. intros p k HA Hlo. pstep. destruct (inside_b E SK_RBRACE p) eqn:Hc; [|pgo].
  unfold init_field. do 6 pstep; [by pgo..|]. do 2 pstep; [by pgo..|]. pstep.
  apply wp_bind. eapply wp_call; [by eapply wp_match_bool|].
  clear HA. intros [] p' (k' & HA); pgo.
Qed.
#[local] Hint Resolve init_fields_keeps : parse.

Lemma parse_init_list_body_keeps : keeps (parse_init_list_body E rec).
Proof. penter. unfold parse_init_list_body. pgo. Qed.
#[local] Hint Resolve parse_init_list_body_keeps : parse.

Lemma parse_struct_construction_takes : takes (parse_struct_construction E rec).
Proof. penter. unfold parse_struct_construction. pgo. Qed.

(** ** Bracket and dot forms *)

Lemma array_literal_tail_keeps_at : keeps_at (array_literal_tail E rec).
Proof. intros p0 p pt nt lo k HA Hf. unfold array_literal_tail. pgo. Qed.

Lemma parse_bracket_expr_takes : takes (parse_bracket_expr E rec).
Proof.
  penter. unfold parse_bracket_expr. do 2 pstep. pstep; [pgo|]. pstep; [pgo|].
  pstep.
  - pgo. eapply array_literal_tail_keeps_at; [exact HA|fit].
  - pgo. eapply array_literal_tail_keeps_at; [exact HA|fit].
Qed.

Lemma parse_dot_expr_takes : takes (parse_dot_expr E rec).
Proof. penter. unfold parse_dot_expr. pgo. Qed.

Lemma parse_builtin_expr_takes : takes (parse_builtin_expr E rec).
Proof. penter. unfold parse_builtin_expr. pgo. Qed.

(** ** Handlers, [mask], [with], effects *)

Lemma parse_handler_clause_stmt_keeps : keeps (parse_handler_clause_stmt E rec).
Proof. penter. unfold parse_handler_clause_stmt. pgo. Qed.
#[local] Hint Resolve parse_handler_clause_stmt_keeps : parse.

Lemma parse_handler_clauses_keeps : keeps (parse_handler_clauses E rec).
Proof. penter. unfold parse_handler_clauses. pgo. Qed.
#[local] Hint Resolve parse_handler_clauses_keeps : parse.

Lemma parse_handler_expr_x_keeps : keeps (parse_handler_expr_x E rec).
Proof. penter. unfold parse_handler_expr_x. pgo. Qed.
#[local] Hint Resolve parse_handler_expr_x_keeps : parse.

Lemma parse_handler_expr_takes : takes (parse_handler_expr E rec).
Proof. penter. unfold parse_handler_expr. pgo. Qed.

Lemma parse_mask_expr_takes : takes (parse_mask_expr E rec).
Proof. penter. unfold parse_mask_expr. pgo. Qed.

Lemma with_binding_keeps : keeps (with_binding E).
Proof. penter. unfold with_binding. pgo. Qed.
#[local] Hint Resolve with_binding_keeps : parse.

Lemma is_with_postfix_eof k : is_with_postfix k = true -> k <> SK_EOF.
Proof. by intros H ->. Qed.

Lemma with_head_keeps : keeps (with_head E rec).
Proof.
  penter. unfold with_head. do 4 pstep. pstep; [pgo|]. pstep.
  eapply wp_loop; [exact HA| |by eauto].
  clear k k0 HA. intros p2 k HA Hlo. pstep. destruct (is_with_postfix k) eqn:Hk; cbn [negb]; [|by pgo].
  apply wp_bind. apply is_with_postfix_eof in Hk.
  eapply wp_call; [by eapply parse_infix_eats_at; [exact HA|done|done|fit]|].
  clear HA. intros _ p' (k' & HA). pgo.
Qed.
#[local] Hint Resolve with_head_keeps : parse.

Lemma at_last_semi_keeps : keeps (at_last_semi E).
Proof. penter. unfold at_last_semi. pgo. Qed.
#[local] Hint Resolve at_last_semi_keeps : parse.

Lemma with_stmts_keeps : keeps (loop E (
      let* c := inside E SK_RBRACE in
      if negb c then ret false else
      let* before := gets pos in
      parse_stmt E rec ;;;
      let* last := at_last_semi E in
      if last : bool then ret false else
      p_match E SK_SEMI ;;;
      recover_if_stuck E before "expected statement"%string ;;;
      ret true)).
Proof.
  penter. rewrite inside_gets. eapply wp_loop; [exact HA| |by eauto].
  clear p k HA. intros p k HA Hlo. pstep.
  destruct (inside_b E SK_RBRACE p) eqn:Hc; cbn [negb]; [|by pgo].
  apply inside_eof in Hc. do 4 pstep; [by pgo|]. pstep. apply wp_bind.
  eapply wp_call; [by eapply wp_recover_if_stuck|].
  clear HA. intros _ p' (k' & HA). pgo.
Qed.
#[local] Hint Resolve with_stmts_keeps : parse.

Lemma with_tail_keeps : keeps (with_tail E rec).
Proof. penter. unfold with_tail. pgo. Qed.
#[local] Hint Resolve with_tail_keeps : parse.

Lemma parse_with_stmt_takes : takes (parse_with_stmt E rec).
Proof. penter. unfold parse_with_stmt. pgo. Qed.

Lemma effect_op_kind_keeps : keeps (effect_op_kind E).
Proof. penter. unfold effect_op_kind. pgo. Qed.
#[local] Hint Resolve effect_op_kind_keeps : parse.

Lemma effect_op_goes : goes (effect_op E rec).
Proof. penter_here. unfold effect_op. pgo. Qed.
#[local] Hint Resolve effect_op_goes : parse.

Lemma p_match_kw_keeps kw : keeps (p_match_kw E kw).
Proof. penter. unfold p_match_kw. pgo. Qed.
#[local] Hint Resolve p_match_kw_keeps : parse.

Lemma parse_effect_decl_takes : takes (parse_effect_decl E rec).
Proof. penter. unfold parse_effect_decl. pgo. Qed.

(** ** The prefix dispatcher *)

Lemma leaf_node_takes K : takes (leaf_node E K).
Proof. penter. unfold leaf_node. pgo. Qed.

Lemma prefix_ident_takes : takes (prefix_ident E rec).
Proof.
  penter. unfold prefix_ident. do 6 pstep.
  repeat lazymatch goal with |- wp (if _ then _ else _) _ _ => pstep end;
  first [by eapply parse_lambda_takes | by eapply parse_distinct_type_takes
        | by eapply parse_bit_field_type_takes | by eapply leaf_node_takes].
Qed.

Lemma prefix_paren_takes : takes (prefix_paren E rec).
Proof. penter. unfold prefix_paren. pgo. Qed.

Lemma prefix_fn_takes : takes (prefix_fn E rec).
Proof. penter. unfold prefix_fn. pstep. pstep; [pgo|]. by eapply parse_lambda_takes. Qed.

Lemma prefix_struct_takes : takes (prefix_struct E rec).
Proof.
  penter. unfold prefix_struct. do 2 pstep. pstep.
  - by eapply parse_struct_construction_takes.
  - by eapply parse_aggregate_expr_takes.
Qed.

Lemma prefix_handler_takes : takes (prefix_handler E rec).
Proof.
  penter. unfold prefix_handler. pstep. pstep.
  - by eapply parse_qualified_type_takes.
  - by eapply parse_handler_expr_takes.
Qed.

Lemma comptime_takes : takes (
  p_start_node SK_COMPTIME_EXPR ;;; p_advance E ;;; parse_prefix rec ;;; p_finish_node).
Proof. penter. pgo. Qed.

Lemma block_stmt_eats :
  eats (fun k => k = SK_LABEL \/ k = SK_LBRACE \/ k = SK_VIRTUAL_LBRACE)
    (parse_block E (parse_stmt E rec) ;;; ret tt).
Proof.
  penter. apply wp_bind.
  eapply wp_call; [by eapply parse_block_eats; [apply parse_stmt_keeps|..]|].
  clear HA. intros _ p' (k' & HA). pgo.
Qed.

Lemma parse_prefix_body_up fs p0 p pt nt lo k :
  At fs p0 p pt nt lo k -> fits E (S (S n)) lo ->
  wp (parse_prefix_body E rec) (fun _ p' => exists k', At fs p0 p' pt nt (up k lo) k') p.
Proof.
  intros HA Hf. pose proof (At_pos _ _ _ _ _ _ _ _ HA) as Hp.
  assert (Hf' : fits E n (S lo)) by (unfold fits in *; lia).
  unfold parse_prefix_body. pstep.
  destruct (kind_eqb k SK_EOF) eqn:Hk.
  { apply kind_eqb_eq in Hk. subst k. eapply wp_recover; [done|exact HA|]. by eauto. }
  apply kind_eqb_neq in Hk. rewrite up_ne by done.
  assert (Hrecover : wp (p_recover E prefix_sync "expected expression"%string)
            (fun _ p' => exists k', At fs p0 p' pt nt (S lo) k') p).
  { eapply wp_recover; [done|exact HA|]. rewrite up_ne by done. by eauto. }
  destruct k;
    first [ exact Hrecover
          | by eapply leaf_node_takes | by eapply prefix_ident_takes
          | by eapply prefix_paren_takes | by eapply prefix_fn_takes
          | by eapply prefix_struct_takes | by eapply prefix_handler_takes
          | by eapply parse_prefix_unary_takes | by eapply parse_fn_type_takes
          | by eapply parse_aggregate_expr_takes | by eapply parse_enum_expr_takes
          | by eapply parse_switch_expr_takes | by eapply parse_if_expr_body_takes
          | by eapply parse_loop_expr_takes | by eapply parse_return_expr_takes
          | by eapply parse_defer_expr_takes | by eapply parse_break_or_continue_takes
          | by eapply parse_bracket_expr_takes | by eapply parse_dot_expr_takes
          | by eapply parse_builtin_expr_takes | by eapply parse_with_stmt_takes
          | by eapply parse_effect_decl_takes | by eapply parse_mask_expr_takes
          | by eapply comptime_takes | by eapply parse_effect_row_eats
          | by eapply block_stmt_eats; eauto ].
Qed.

(** ** The Pratt loop *)

Lemma is_postfix_start_eof k : is_postfix_start k = true -> k <> SK_EOF.
Proof. by intros H ->. Qed.

Lemma is_thunk_start_eof k : is_thunk_start k = true -> k <> SK_EOF.
Proof. by intros H ->. Qed.

Lemma pratt_step_ok prec p0 p pt nt lo k :
  At [] p0 p pt nt lo k -> fits E n (S lo) ->
  wp (pratt_step E rec prec (length (children (gb p0))))
     (fun b p' => exists k', At [] p0 p' pt nt (if b : bool then S lo else lo) k') p.
Proof.
  intros HA Hf. unfold pratt_step. do 3 pstep.
  assert (Hinfix : k <> SK_EOF ->
    wp (parse_infix E rec k (length (children (gb p0))) ;;; ret true)
      (fun b p' => exists k', At [] p0 p' pt nt (if b : bool then S lo else lo) k') p).
  { intros Hk. apply wp_bind.
    eapply wp_call; [by eapply parse_infix_eats_at|].
    clear HA. intros _ p' (k' & HA). pgo. }
  destruct (_ && is_postfix_start k)%bool eqn:H1.
  { apply andb_prop in H1 as [_ H1]. by apply Hinfix, is_postfix_start_eof. }
  destruct (_ && is_thunk_start k)%bool eqn:H2.
  { apply andb_prop in H2 as [_ H2]. by apply Hinfix, is_thunk_start_eof. }
  destruct pt; [pgo|].
  destruct (_ || _)%bool eqn:H3; [pgo|]. apply Hinfix. intros ->. discriminate H3.
Qed.

Lemma parse_expr_body_up prec fs p0 p pt nt lo k :
  At fs p0 p pt nt lo k -> fits E (S n) lo ->
  wp (parse_expr_body E rec prec) (fun _ p' => exists k', At fs p0 p' pt nt (up k lo) k') p.
Proof.
  intros HA Hf. unfold parse_expr_body. pstep. apply wp_bind.
  eapply wp_call; [eapply Hrec; [exact HA|done]|].
  clear HA. intros _ p1 (k1 & HA).
  eapply wp_loop; [exact HA| |by eauto]. clear p1 k1 HA. intros p1 k1 HA Hlo.
  pose proof (up_le k lo). pose proof (At_pos _ _ _ _ _ _ _ _ HA).
  eapply pratt_step_ok; [exact HA|]. unfold fits in *. lia.
Qed.

Lemma call_body_ok : rec_ok E (S n) (call_body E rec).
Proof.
  intros [prec| |] fs p0 p pt nt lo k HA Ha; simpl in Ha |- *.
  - by eapply parse_expr_body_up.
  - by eapply parse_prefix_body_up.
  - destruct Ha as [Hk Hf]. rewrite up_ne by done.
    eapply parse_if_expr_body_takes; [exact HA|done|done|].
    pose proof (At_pos _ _ _ _ _ _ _ _ HA). unfold fits in *. lia.
Qed.

(** ** Top-level declarations *)

Lemma advance_if_stuck p fs p0 p1 pt nt k k1 :
  At fs p0 p1 pt nt (pos p) k1 -> p_peek E p = k -> k <> SK_EOF ->
  wp (let* pos := gets pos in when (pos =? Parser.pos p)%nat (p_advance E ;;; ret tt))
     (fun _ p' => exists k', At fs p0 p' pt nt (S (pos p)) k') p1.
Proof.
  intros HA Hk Hne. pstep. destruct (pos p1 =? pos p)%nat eqn:He; cbn [when].
  - apply Nat.eqb_eq in He.
    assert (k1 <> SK_EOF).
    { rewrite <- (at_kind _ _ _ _ _ _ _ _ HA), (peek_pos E p1 p He). congruence. }
    pgo.
  - apply Nat.eqb_neq in He. pose proof (at_lo _ _ _ _ _ _ _ _ HA).
    apply At_here in HA. pgo.
Qed.

Lemma top_level_decl_goes : goes (top_level_decl E rec).
Proof.
  penter_here. unfold top_level_decl. do 3 pstep.
  eapply (wp_seq E _ _ fs p0 pt nt (pos p)).
  - pgo. by eapply parse_bare_destructure_tail_keeps_at.
  - clear HA. intros a p1 k1 HA. pstep. by eapply advance_if_stuck.
Qed.

Lemma parse_top_level_decls_keeps : keeps (parse_top_level_decls E rec).
Proof.
  penter. unfold parse_top_level_decls.
  eapply (wp_while E fs p0 p pt nt lo k (fun p => negb (p_is_eof E p))); [exact HA|..].
  - intros q Hq. by apply not_eof_peek.
  - intros q kq HA' Hlo Hk _. eapply top_level_decl_goes; [exact HA'|done|].
    eapply fits_mono; [eassumption|lia|lia].
Qed.

End Descent.

(** ** Closing the recursion *)

Lemma run_ok E (Htoks : tokens_ok E) n : rec_ok E n (run E n).
Proof.
  induction n as [|n IH]; [|by apply call_body_ok].
  intros [prec| |] fs p0 p pt nt lo k HA Ha; simpl in Ha; unfold fits in Ha;
    [lia..|]. destruct Ha. lia.
Qed.

(** A loop that returns has seen its condition fail. *)
Lemma loop_fuel_exit body fuel p p' :
  loop_fuel fuel body p = Ret (tt, p') -> exists p1, body p1 = Ret (false, p').
Proof.
  revert p. induction fuel as [|fuel IH]; intros p; simpl; [done|].
  unfold bind. destruct (body p) as [[b p1]| |] eqn:Hb; try done.
  destruct b; [apply IH|]. intros [= <-]. by exists p.
Qed.

Lemma while_exit E cond body p p' :
  while_ E (gets cond) body p = Ret (tt, p') -> cond p' = false.
Proof.
  intros (p1 & H)%loop_fuel_exit. unfold bind, gets in H. simpl in H.
  destruct (cond p1) eqn:Hc.
  - destruct (body p1) as [[[] p2]| |]; discriminate H.
  - injection H as <-. exact Hc.
Qed.

(** ** The whole file *)

(** Emitting below a fresh frame. *)
Lemma ext_of_start E K p0 p :
  ext E [] (set_gb (green_builder_start_node K (gb p0)) p0) p ->
  ext E [mkFrame K (length (children (gb p0)))] p0 p.
Proof.
  intros [P C F Le O R T X]. split; try done. simpl in *. split; [|lia]. exact F.
Qed.

Lemma skip_trivia_enter E (Htoks : tokens_ok E) f p0 p pt nt :
  p = set_gb (green_builder_start_node f (gb p0)) p0 -> (pos p0 < count E)%nat ->
  parsing_type p0 = pt -> no_trailing_lambda p0 = nt ->
  wp (skip_trivia E)
     (fun _ p' => exists k', At E [mkFrame f (length (children (gb p0)))] p0 p' pt nt (pos p0) k') p.
Proof.
  intros -> Hlt Hpt Hnt.
  destruct (skip_trivia_run_after E (drop (pos p0) (tokens E))
    (set_gb (green_builder_start_node f (gb p0)) p0)) as (xs & ys & Hd & Hr & Hx & Hy).
  eexists tt, _. split; [unfold skip_trivia, modify; cbn [pos set_gb]; rewrite Hr; reflexivity|].
  eexists. split; [| done | done | simpl; lia | reflexivity].
  apply ext_of_start. eapply (ext_emit E _ _ xs ys); try done; simpl; try lia.
  - by eapply skip_run_ok.
  - unfold pot. simpl. lia.
Qed.

(** At the end of the file there is no trivia to skip. *)
Lemma skip_trivia_still E fs p0 p pt nt lo k :
  At E fs p0 p pt nt lo k -> skip_trivia E p = Ret (tt, p).
Proof.
  intros HA. destruct (e_ok _ _ _ _ (at_ext _ _ _ _ _ _ _ _ HA)) as (t & Ht & Htr).
  unfold skip_trivia, modify. rewrite (drop_cons_nth _ _ _ Ht). simpl. by rewrite Htr.
Qed.

Lemma slice_to_eof E i t :
  nth_error (tokens E) i = Some t -> S i = count E -> slice E 0 i = removelast (tokens E).
Proof.
  intros Hn Hc. unfold slice. rewrite Nat.sub_0_r, drop_0.
  rewrite removelast_firstn_len. unfold count in Hc. by rewrite <- Hc.
Qed.

(** What holds when the file has been parsed. *)
Record parsed (E : ParserEnv) (new : list (N * Green)) (p : Parser) : Prop := {
  parsed_gb : gb p = mkBuilder [] [(0%N, green_node_alloc SK_SOURCE_FILE new)];
  parsed_leaves : elem_leaves new = map (emitted E) (removelast (tokens E));
  parsed_ok : elems_ok new;
  parsed_errors : (length (errors p) <= 1 + boundaries (removelast (tokens E)))%nat;
  parsed_at : Forall (fun e => (tok_pos e < count E)%nat) (errors p);
  parsed_flags : parsing_type p = false /\ no_trailing_lambda p = false;
  parsed_fix : (fix_count p < count E)%nat
}.

Lemma parsed_finish E (Htoks : tokens_ok E) p lo :
  At E [mkFrame SK_SOURCE_FILE 0] initial_parser p false false lo SK_EOF ->
  exists new p', p_finish_node p = Ret (tt, p') /\ parsed E new p'.
Proof.
  intros HA. destruct HA as [X Hpt Hnt Hlo Hk].
  destruct X as [P1 (new & C1 & L1 & K1) _ Le1 O1 (es & R1 & W1) T1 X1].
  pose proof (pos_ok_lt _ _ O1) as Hlt.
  destruct (current_ok E p O1) as (t & Hn & _ & _ & Hkt).
  pose proof (eof_last E Htoks _ _ Hn (eq_trans (eq_sym Hkt) Hk)) as Hlast.
  simpl in P1, C1, L1, R1, W1, T1, X1. rewrite (slice_to_eof _ _ _ Hn Hlast) in L1, T1.
  exists new. eexists. split.
  { unfold p_finish_node, green_builder_finish_node. rewrite P1, C1. simpl. reflexivity. }
  split; cbn [gb errors fix_count set_gb parsing_type no_trailing_lambda]; try done.
  - unfold pot in T1. simpl in T1. lia.
  - rewrite R1. eapply Forall_impl; [exact W1|]. simpl. lia.
  - lia.
Qed.

(** [parse_source_file] returns. *)
Lemma parse_source_file_ok E : tokens_ok E ->
  exists new p', parse_source_file E initial_parser = Ret (tt, p') /\ parsed E new p'.
Proof.
  intros Htoks. assert (Hc : (0 < count E)%nat).
  { destruct Htoks as (b & e & Ht & _). unfold count. rewrite Ht, length_app. simpl. lia. }
  destruct (skip_trivia_enter E Htoks SK_SOURCE_FILE initial_parser _ false false eq_refl
              Hc eq_refl eq_refl) as ([] & p1 & E1 & k1 & HA1).
  destruct (parse_top_level_decls_keeps E Htoks (parse_fuel E) _ (run_ok E Htoks _)
              _ _ _ _ _ _ _ HA1) as ([] & p2 & E2 & k2 & HA2).
  { unfold fits, parse_fuel. lia. }
  pose proof (while_exit _ _ _ _ _ E2) as Heof.
  assert (k2 = SK_EOF) as ->.
  { unfold p_is_eof in Heof. rewrite (at_kind _ _ _ _ _ _ _ _ HA2) in Heof.
    apply kind_eqb_eq. by destruct (kind_eqb k2 SK_EOF). }
  destruct (parsed_finish E Htoks p2 _ HA2) as (new & p3 & E3 & H3).
  assert (W : wp (parse_source_file E) (fun _ p' => p' = p3) initial_parser).
  { apply wp_bind, wp_modify, wp_bind. exists tt, p1. split; [exact E1|].
    apply wp_bind. exists tt, p2. split; [exact E2|].
    apply wp_bind. exists tt, p2. split; [by eapply skip_trivia_still|].
    by exists tt, p3. }
  destruct W as ([] & p' & E4 & ->). by exists new, p3.
Qed.

End ParseTotal.
