(* ===== verification/ParserTheorems.v ===== *)
(** * The parser: what it guarantees

    The front end as a whole (lexer, layout, parser) keeps every byte of the source;
    the parser is total, its tree well formed and its diagnostics bounded; every
    recursive call keeps its contract; recovery and lookahead do what their comments
    say. *)

From S2P Require Import Prelude SyntaxKind Token Interner StringPool.
From S2P Require Import Green Builder Parser ParseExpr GreenFacts ParserFacts.
From S2P Require Import ParseExprFacts ParseTotal.
From S2P Require Lexer LexerFacts Layout LayoutTheorems.
Import SyntaxKind Token StringPool Green Builder Parser Cursor ParseExpr.
Import GreenFacts ParserFacts ParseExprFacts ParseTotal.

Module ParserTheorems.

#[local] Open Scope parse_scope.

(** ** One file *)

(** What [parse_file_green] answers for the environment it builds. *)
Lemma parse_file_green_ok {P} `{!Interner P} body eof src (pl : P) :
  kind eof = SK_EOF -> Forall (fun t => kind t <> SK_EOF) body ->
  exists kws pl' new p',
    parse_file_green (body ++ [eof]) src pl =
      Ret (green_node_alloc SK_SOURCE_FILE new, errors p', pl') /\
    parsed (mkEnv (body ++ [eof]) src kws) new p'.
Proof.
  intros He Hb. unfold parse_file_green.
  destruct (init_parser_kws pl) as [kws pl']. exists kws, pl'.
  destruct (parse_source_file_ok (mkEnv (body ++ [eof]) src kws)) as (new & p' & Ep & Hp).
  { by exists body, eof. }
  exists new, p'. rewrite Ep. cbn [obind]. rewrite (parsed_gb _ _ _ Hp).
  unfold green_builder_finish. cbn [parents children length Nat.eqb oassert obind].
  pose proof (alloc_kind SK_SOURCE_FILE new) as Hk.
  destruct (green_node_alloc SK_SOURCE_FILE new) as [k n cs|k t] eqn:Ea; [by split|].
  unfold green_node_alloc in Ea. by destruct (assign_offsets 0 new).
Qed.

Lemma parse_file_green_tree {P} `{!Interner P} (body : list Token) (eof : Token)
    (src : list byte) (pl : P) :
  kind eof = SK_EOF -> Forall (fun t => kind t <> SK_EOF) body ->
  exists root errs pl',
    parse_file_green (body ++ [eof]) src pl = Ret (root, errs, pl') /\
    green_kind root = SK_SOURCE_FILE /\ green_ok root /\
    leaves root = map (fun t => (kind t, sub_bytes src (start t) (token_len t))) body.
Proof.
  intros He Hb. destruct (parse_file_green_ok body eof src pl He Hb)
    as (kws & pl' & new & p' & Ep & Hp).
  eexists _, _, _. split; [exact Ep|]. split; [apply alloc_kind|].
  split; [apply alloc_ok, Hp|]. rewrite alloc_leaves, (parsed_leaves _ _ _ Hp).
  cbn [tokens]. by rewrite removelast_last.
Qed.

(** C5: the parser is total and lossless: on every token vector that ends in its
    only [SK_EOF], with the fuel [parse_fuel], [parse_file_green] returns (no loop
    or recursion runs out, no builder assert fails, whatever the errors in the
    source) a well-formed [SK_SOURCE_FILE] tree whose leaves are exactly the
    tokens before [SK_EOF], in order, virtual tokens and trivia included. *)
Theorem parse_total_lossless {P} `{!Interner P} (body : list Token) (eof : Token)
    (src : list byte) (pl : P) :
  kind eof = SK_EOF -> Forall (fun t => kind t <> SK_EOF) body ->
  exists root errs pl',
    parse_file_green (body ++ [eof]) src pl = Ret (root, errs, pl') /\
    green_kind root = SK_SOURCE_FILE /\ green_ok root /\
    leaves root = map (fun t => (kind t, sub_bytes src (start t) (token_len t))) body.
Proof. apply parse_file_green_tree. Qed.

(** C32: diagnostics do not cascade: whatever the input, the parser reports at most
    one error per [;] or closing brace (written or virtual) and one more, each
    located on a token of the vector, and recovery counts fewer skipped tokens
    than there are tokens. *)
Theorem parse_errors_bounded {P} `{!Interner P} (body : list Token) (eof : Token)
    (src : list byte) (pl : P) root errs pl' :
  kind eof = SK_EOF -> Forall (fun t => kind t <> SK_EOF) body ->
  parse_file_green (body ++ [eof]) src pl = Ret (root, errs, pl') ->
  (length errs <= 1 + boundaries body)%nat /\
  Forall (fun e => (tok_pos e < length (body ++ [eof]))%nat) errs.
Proof.
  intros He Hb Hr. destruct (parse_file_green_ok body eof src pl He Hb)
    as (kws & pl2 & new & p' & Ep & Hp).
  rewrite Ep in Hr. injection Hr as <- <- <-.
  pose proof (parsed_errors _ _ _ Hp) as H1. cbn [tokens] in H1.
  rewrite removelast_last in H1. split; [exact H1|apply Hp].
Qed.

(** ** The front end *)

Lemma contig_le a ts b : LayoutTheorems.LayoutFacts.contig a ts b -> (a <= b)%N.
Proof.
  revert a. induction ts as [|t ts IH]; intros a H; simpl in H; [lia|].
  destruct H as (_ & H & Hc). apply IH in Hc.
  destruct (LayoutTheorems.LayoutFacts.zero_width (kind t)); lia.
Qed.

(** Adjacent tokens spell the bytes they cover. *)
Lemma contig_text src a ts b :
  LayoutTheorems.LayoutFacts.contig a ts b -> (b < 2 ^ 32)%N ->
  concat (map (fun t => sub_bytes src (start t) (token_len t)) ts) = sub_bytes src a (b - a).
Proof.
  revert a. induction ts as [|t ts IH]; intros a H Hb; simpl in H |- *.
  - subst b. by rewrite N.sub_diag, sub_bytes_nil.
  - destruct H as (Hs & H & Hc). pose proof (contig_le _ _ _ Hc).
    rewrite (IH _ Hc Hb). unfold token_len. subst a.
    assert (start t <= byte_end t)%N
      by (destruct (LayoutTheorems.LayoutFacts.zero_width (kind t)); lia).
    rewrite u32_sub_small by lia. by rewrite sub_bytes_split.
Qed.

(** The layout output is a body without [SK_EOF] and the [SK_EOF] at the end of
    the source. *)
Lemma layout_body {P} `{!Interner P} (src : list byte) (pl : P) out l :
  (N.of_nat (length src) < 2 ^ 32)%N ->
  Layout.Layout.layout_stream (Lexer.Lexer.lex_begin src pl) = Ret (out, l) ->
  exists body eof, out = body ++ [eof] /\ kind eof = SK_EOF /\
    Forall (fun t => kind t <> SK_EOF) body /\
    LayoutTheorems.LayoutFacts.contig (LexerFacts.LexerFacts.bom_len src) body
      (N.of_nat (length src)).
Proof.
  intros H Hr. destruct (LexerFacts.LexerFacts.lex_streamed src pl H) as (ts & l0 & St & E).
  destruct (LayoutTheorems.LayoutFacts.layout_stream_outcome src pl H) as (raw & l' & E' & _ & Ho).
  rewrite E in E'. injection E' as <- <-.
  rewrite Hr in Ho. destruct Ho as [(out' & [= <- <-] & Lo)|(site & ? & _)]; [|done].
  destruct Lo as [Hs Hc _ _ _ (body & e & -> & He)].
  unfold LayoutTheorems.LayoutFacts.strip in Hs. rewrite List.filter_app in Hs. simpl in Hs.
  rewrite He in Hs. simpl in Hs. apply app_inj_tail in Hs as [Hs ->].
  exists body, (mkToken SK_EOF STR_ID_NONE (N.of_nat (length src)) (N.of_nat (length src))).
  split; [done|]. split; [done|]. split.
  - apply List.Forall_forall. intros t Hin Hk.
    assert (Hin' : In t (List.filter (fun t => negb (token_is_synthetic t)) body)).
    { apply List.filter_In. split; [done|]. unfold token_is_synthetic. by rewrite Hk. }
    rewrite Hs in Hin'. pose proof (LexerFacts.LexerFacts.st_real _ _ _ St) as Hreal.
    rewrite List.Forall_forall in Hreal. apply Hreal in Hin'. by rewrite Hk in Hin'.
  - apply LayoutTheorems.LayoutFacts.contig_app in Hc as (b & Hc & Hb & _).
    simpl in Hb. by rewrite Hb.
Qed.

(** From the output of the layout pass on. *)
Lemma parsed_lossless {P} `{!Interner P} (src : list byte) (pl : P) out l :
  (N.of_nat (length src) < 2 ^ 32)%N ->
  Layout.Layout.layout_stream (Lexer.Lexer.lex_begin src pl) = Ret (out, l) ->
  exists root errs pl',
    parse_file_green out src (Lexer.Lexer.pool l) = Ret (root, errs, pl') /\
    green_text root = drop (N.to_nat (LexerFacts.LexerFacts.bom_len src)) src /\
    (green_text_len root + LexerFacts.LexerFacts.bom_len src = N.of_nat (length src))%N.
Proof.
  intros H Hr. destruct (layout_body src pl out l H Hr) as (body & eof & -> & He & Hb & Hc).
  destruct (parse_file_green_tree body eof src (Lexer.Lexer.pool l) He Hb)
    as (root & errs & pl' & Ep & _ & Hok & Hl).
  exists root, errs, pl'. split; [exact Ep|].
  assert (Ht : green_text root = drop (N.to_nat (LexerFacts.LexerFacts.bom_len src)) src).
  { unfold green_text. rewrite Hl, map_map. cbn [snd]. rewrite (contig_text _ _ _ _ Hc H).
    unfold sub_bytes. apply take_ge. rewrite length_drop. lia. }
  split; [exact Ht|]. pose proof (contig_le _ _ _ Hc).
  rewrite (green_ok_width _ Hok), Ht, length_drop, u32_small; lia.
Qed.

(** C4: the front end is lossless end to end: on every source whose length fits
    [uint32_t] the lexer returns; then either the layout pass and the parser return as
    well, and the text of the green tree is the source, byte for byte, without the
    byte-order mark, or the layout pass fails the assert on the depth of its frames or
    the one on its trivia buffer, which takes a source of more than 256 tokens. *)
Theorem front_end_lossless {P} `{!Interner P} (src : list byte) (pl : P) :
  (N.of_nat (length src) < 2 ^ 32)%N ->
  exists raw l, Lexer.Lexer.lex src pl = Ret (raw, l) /\
    ((exists out root errs pl',
        Layout.Layout.layout_stream (Lexer.Lexer.lex_begin src pl) = Ret (out, l) /\
        parse_file_green out src (Lexer.Lexer.pool l) = Ret (root, errs, pl') /\
        green_text root = drop (N.to_nat (LexerFacts.LexerFacts.bom_len src)) src /\
        (green_text_len root + LexerFacts.LexerFacts.bom_len src = N.of_nat (length src))%N) \/
     ((Layout.Layout.layout_stream (Lexer.Lexer.lex_begin src pl) = AssertFailed "layout frame stack overflow" \/
       Layout.Layout.layout_stream (Lexer.Lexer.lex_begin src pl) = AssertFailed "layout trivia scratch overflow") /\
      (256 < length raw)%nat)).
Proof.
  intros H. destruct (LayoutTheorems.LayoutTheorems.layout_total src pl H) as (raw & l & E & [(out & Eo)|Hf]); exists raw, l;
    (split; [exact E|]); [left|by right].
  destruct (parsed_lossless src pl out l H Eo) as (root & errs & pl' & Hp). by exists out, root, errs, pl'.
Qed.

(** ** Every call *)

(** C31: the contract of [parse_expr], [parse_prefix] and [parse_if_expr], the three
    recursive entry points: on a cursor that is on a token, with fuel
    [2 * tokens_left + 2], the call returns; the frames open before it are open
    after it and no others; the children emitted before it are kept, and those it
    adds are well formed and spell exactly the tokens it moved over; the context
    flags are restored; and it moves past at least one token, unless at the end
    of the file. *)
Theorem parse_call_contract (E : ParserEnv) (n : nat) (c : call) (p : Parser) :
  tokens_ok E -> pos_ok E (pos p) -> (2 * (count E - pos p) + 2 <= n)%nat ->
  (c = CIf -> p_is_eof E p = false) ->
  exists p', run E n c p = Ret (tt, p') /\
    parents (gb p') = parents (gb p) /\
    (exists new, children (gb p') = children (gb p) ++ new /\ elems_ok new /\
       elem_leaves new = map (emitted E) (slice E (pos p) (pos p'))) /\
    parsing_type p' = parsing_type p /\
    no_trailing_lambda p' = no_trailing_lambda p /\
    (if p_is_eof E p then pos p' = pos p else (pos p < pos p')%nat).
Proof.
  intros Htoks Hok Hn Hif.
  assert (HA : At E [] p p (parsing_type p) (no_trailing_lambda p) (pos p) (p_peek E p)).
  { split; try done. by apply ext_refl. }
  destruct (run_ok E Htoks n c _ _ _ _ _ _ _ HA) as ([] & p' & Ep & k' & HA').
  { unfold p_is_eof in Hif. destruct c; simpl; unfold fits; [done|lia|].
    split; [|lia]. by apply kind_eqb_neq, Hif. }
  exists p'. split; [exact Ep|]. destruct HA' as [X Hpt Hnt Hlo Hk].
  split; [apply (e_parents _ _ _ _ X)|]. split.
  { destruct (e_children _ _ _ _ X) as (new & ? & ? & ?). by exists new. }
  split; [done|]. split; [done|]. unfold up in Hlo. unfold p_is_eof.
  destruct (kind_eqb (p_peek E p) SK_EOF) eqn:He; [|done].
  apply kind_eqb_eq in He. pose proof (pos_ok_lt _ _ (e_ok _ _ _ _ X)).
  destruct (current_ok E p Hok) as (t & Hn1 & _ & _ & Hk1).
  rewrite He in Hk1. symmetry in Hk1. apply (eof_last E Htoks) in Hn1; [lia|done].
Qed.

(** ** Recovery *)

(** Commands that report nothing. *)
Definition quiet {A} (m : M A) : Prop :=
  forall p a p', m p = Ret (a, p') -> errors p' = errors p.

Lemma quiet_ret {A} (a : A) : quiet (ret a).
Proof. by intros p b p' [= <- <-]. Qed.

Lemma quiet_gets {A} (f : Parser -> A) : quiet (gets f).
Proof. by intros p b p' [= <- <-]. Qed.

Lemma quiet_bind {A B} (m : M A) (k : A -> M B) :
  quiet m -> (forall a, quiet (k a)) -> quiet (bind m k).
Proof.
  intros Hm Hk p b p' H. unfold bind in H.
  destruct (m p) as [[a p1]| |] eqn:E; try discriminate H. simpl in H.
  apply Hk in H. apply Hm in E. congruence.
Qed.

Lemma quiet_loop E body : quiet body -> quiet (loop E body).
Proof.
  intros Hb p a p'. unfold loop. generalize (S (length (tokens E) - pos p)). intros f.
  revert p a p'. induction f as [|f IH]; intros p a p' H; [discriminate H|].
  simpl in H. revert H. eapply (quiet_bind body); [done|].
  intros []; [exact IH|apply quiet_ret].
Qed.

Lemma skip_run_errors E ts p : errors (skip_trivia_run E ts p) = errors p.
Proof.
  revert p. induction ts as [|t ts IH]; intros p; simpl; [done|].
  destruct (token_is_trivia (kind t)); [by rewrite IH|done].
Qed.

Lemma quiet_advance E : quiet (p_advance E).
Proof.
  intros p a p' H. unfold p_advance in H.
  destruct (p_is_eof E p); [by injection H as <- <-|].
  destruct (p_current E p) as [t|]; [|by injection H as <- <-].
  simpl in H. injection H as <- <-. rewrite skip_run_errors.
  by destruct (ends_unit (kind t)).
Qed.

Lemma quiet_skip_one E : quiet (skip_one E).
Proof.
  apply quiet_bind; [apply quiet_advance|]. intros _ p a p' H. by injection H as <- <-.
Qed.

Lemma quiet_finish : quiet p_finish_node.
Proof.
  intros p a p' H. unfold p_finish_node in H.
  destruct (green_builder_finish_node (gb p)); try discriminate H. by injection H as <- <-.
Qed.

Lemma quiet_when b m : quiet m -> quiet (when b m).
Proof. intros H. destruct b; [exact H|apply quiet_ret]. Qed.

Create HintDb quiet.
#[local] Hint Resolve quiet_ret quiet_gets quiet_bind quiet_loop quiet_advance
  quiet_skip_one quiet_finish quiet_when : quiet.

(** Everything [p_recover] does after its diagnostic and the start of the node. *)
Lemma quiet_recover_skip E sync : quiet (
  let* start := gets pos in
  loop E (let* go := gets (fun p => negb (p_is_eof E p) && negb (at_sync E sync p) &&
                                    (fix_count p <? PARSE_FIX_CAP)%nat) in
          if go : bool then skip_one E ;;; ret true else ret false) ;;;
  let* stuck := gets (fun p => (pos p =? start)%nat && negb (p_is_eof E p)) in
  when stuck (skip_one E) ;;; p_finish_node).
Proof.
  apply quiet_bind; [auto with quiet|]. intros start.
  apply quiet_bind; [apply quiet_loop|auto with quiet].
  - apply quiet_bind; [auto with quiet|]. intros []; auto with quiet.
Qed.

Lemma recover_diagnostic (p : Parser) (b : bool) m :
  exists p1, when b (p_error m) p = Ret (tt, p1) /\ gb p1 = gb p /\ pos p1 = pos p /\
    parsing_type p1 = parsing_type p /\ no_trailing_lambda p1 = no_trailing_lambda p /\
    (length (errors p) <= length (errors p1) <= S (length (errors p)))%nat.
Proof.
  destruct b; simpl; [|exists p; repeat split; lia]. unfold p_error, modify.
  eexists. split; [reflexivity|]. destruct (in_recovery p); simpl;
    rewrite ?length_app; simpl; repeat split; lia.
Qed.

Lemma finish_error_node E p1 p4 pt nt lo k :
  At E [] (set_gb (green_builder_start_node SK_ERROR_NODE (gb p1)) p1) p4 pt nt lo k ->
  wp p_finish_node (fun _ p' => exists inner,
    parents (gb p') = parents (gb p1) /\
    children (gb p') = children (gb p1) ++ [(0%N, green_node_alloc SK_ERROR_NODE inner)] /\
    elem_leaves inner = map (emitted E) (slice E (pos p1) (pos p')) /\
    (lo <= pos p')%nat /\ parsing_type p' = pt /\ no_trailing_lambda p' = nt) p4.
Proof.
  intros [[Pa (new & C & L & K) F Le O R T X] Hpt Hnt Hlo Hk]. simpl in *.
  eexists tt, _. split.
  { unfold p_finish_node, green_builder_finish_node. rewrite Pa, C. cbn [first_child].
    rewrite (proj2 (Nat.leb_le _ _)) by (rewrite length_app; lia). reflexivity. }
  exists new. cbn [gb set_gb parents children frame_kind].
  by rewrite drop_app_length, take_app_length.
Qed.

(** recovery makes progress and is contained: from any cursor position and for
    any synchronisation set, [p_recover] returns, adds exactly one child, an
    [SK_ERROR_NODE] that holds exactly the tokens skipped, at least one of them
    unless at the end of the file; it leaves the open frames and the context flags
    alone and reports at most one error. *)
Theorem recover_one_error_node (E : ParserEnv) (sync : N) (m : string) (p : Parser) :
  tokens_ok E -> pos_ok E (pos p) ->
  exists p' inner, p_recover E sync m p = Ret (tt, p') /\
    parents (gb p') = parents (gb p) /\
    children (gb p') = children (gb p) ++ [(0%N, green_node_alloc SK_ERROR_NODE inner)] /\
    elem_leaves inner = map (emitted E) (slice E (pos p) (pos p')) /\
    (p_is_eof E p = false -> (pos p < pos p')%nat) /\
    parsing_type p' = parsing_type p /\ no_trailing_lambda p' = no_trailing_lambda p /\
    (length (errors p) <= length (errors p') <= S (length (errors p)))%nat.
Proof.
  intros Htoks Hok.
  destruct (recover_diagnostic p (fix_count p <? PARSE_FIX_CAP)%nat m)
    as (p1 & E1 & G1 & P1 & T1 & N1 & L1).
  set (q := set_gb (green_builder_start_node SK_ERROR_NODE (gb p1)) p1).
  assert (HA : At E [] q q (parsing_type p) (no_trailing_lambda p) (pos p) (p_peek E p)).
  { split; simpl; rewrite ?P1; try done; [by apply ext_refl; simpl; rewrite P1|].
    by apply peek_pos. }
  pose proof (wp_recover_skip E Htoks [] q q _ _ _ _ sync p_finish_node _ HA
    (fun p4 k4 HA4 => finish_error_node E p1 p4 _ _ _ _ HA4))
    as ([] & p' & E2 & inner & H1 & H2 & H3 & H4 & H5 & H6).
  exists p', inner. pose proof (quiet_recover_skip _ _ _ _ _ E2) as Hq. cbn [errors q set_gb] in Hq.
  rewrite Hq, <- G1. rewrite P1 in H3.
  split; [|repeat split; try done; [|apply L1|apply L1]].
  - unfold p_recover, bind at 1, gets at 1. cbn [obind]. unfold bind at 1. rewrite E1.
    cbn [obind]. exact E2.
  - intros He. unfold up in H4. unfold p_is_eof in He. rewrite He in H4. lia.
Qed.

(** ** Lookahead *)

(** The tokens that are not trivia. *)
Definition significant (ts : list Token) : list Token :=
  List.filter (fun t => negb (token_is_trivia (kind t))) ts.

Lemma skip_trivia_from_spec ts i :
  exists k, skip_trivia_from ts i = (i + k)%nat /\ (k <= length ts)%nat /\
    significant (drop k ts) = significant ts /\
    match drop k ts with t :: _ => token_is_trivia (kind t) = false | [] => True end.
Proof.
  revert i. induction ts as [|t ts IH]; intros i; simpl.
  - exists 0%nat. by rewrite Nat.add_0_r.
  - destruct (token_is_trivia (kind t)) eqn:Ht; simpl.
    + destruct (IH (S i)) as (k & -> & Hk & Hs & Hm). exists (S k).
      split; [lia|]. split; [lia|]. done.
    + exists 0%nat. simpl. rewrite Ht. simpl. split; [lia|]. split; [lia|done].
Qed.

(** A position on a token that is not trivia, or at the end. *)
Definition stands (E : ParserEnv) (i : nat) : Prop :=
  (i <= count E)%nat /\
  match drop i (tokens E) with t :: _ => token_is_trivia (kind t) = false | [] => True end.

Lemma logical_index_spec E n i : stands E i ->
  stands E (logical_index_from E n i) /\
  significant (drop (logical_index_from E n i) (tokens E)) =
    drop n (significant (drop i (tokens E))).
Proof.
  revert i. induction n as [|n IH]; intros i Hi; simpl; [done|].
  destruct (i <? count E)%nat eqn:Hlt.
  - apply Nat.ltb_lt in Hlt. destruct Hi as [_ Hi].
    destruct (nth_error (tokens E) i) as [t|] eqn:Hn; [|by apply nth_error_Some in Hlt].
    rewrite (drop_cons_nth _ _ _ Hn) in Hi |- *. simpl. rewrite Hi. simpl.
    destruct (skip_trivia_from_spec (drop (S i) (tokens E)) (S i)) as (k & -> & Hk & Hs & Hm).
    rewrite length_drop in Hk. fold (count E) in Hk. rewrite drop_drop in Hs, Hm.
    rewrite <- Hs. apply IH. split; [|done]. lia.
  - apply Nat.ltb_ge in Hlt. unfold count in Hlt. split; [done|].
    rewrite (drop_ge (tokens E)) by done. simpl. by destruct n.
Qed.

(** lookahead skips trivia: from a cursor on a token, [p_peek_at(n)] is the
    kind of the [n]-th following token that is not trivia (whitespace, comments,
    newlines), and [SK_EOF] beyond the last one; [p_peek_at(0)] is [p_peek]. *)
Theorem peek_at_is_nth_significant (E : ParserEnv) (n : nat) (p : Parser) :
  tokens_ok E -> pos_ok E (pos p) ->
  p_peek_at E n p = nth n (map kind (significant (drop (pos p) (tokens E)))) SK_EOF /\
  p_peek_at E 0 p = p_peek E p.
Proof.
  intros Htoks Hok. destruct (current_ok E p Hok) as (t0 & Hn0 & _ & Ht0 & Hk0).
  pose proof (pos_ok_lt _ _ Hok) as Hlt.
  assert (Hst : stands E (pos p)).
  { split; [lia|]. by rewrite (drop_cons_nth _ _ _ Hn0). }
  destruct (logical_index_spec E n _ Hst) as [[Hle Hi] Hs].
  split.
  - replace n with (n + 0)%nat at 2 by lia. rewrite <- nth_skipn, skipn_map.
    change (skipn n) with (@drop Token n). rewrite <- Hs. unfold p_peek_at, p_logical_index.
    set (i := logical_index_from E n (pos p)) in *.
    destruct (count E <=? i)%nat eqn:Hc.
    + apply Nat.leb_le in Hc. unfold count in Hc. rewrite (drop_ge (tokens E)) by done. simpl.
      destruct Htoks as (body & eof & -> & He & _). by rewrite last_snoc.
    + apply Nat.leb_gt in Hc.
      destruct (nth_error (tokens E) i) as [t|] eqn:Hn; [|by apply nth_error_Some in Hc].
      rewrite (drop_cons_nth _ _ _ Hn) in Hi |- *. simpl. by rewrite Hi.
  - unfold p_peek_at, p_logical_index. simpl. rewrite (proj2 (Nat.leb_gt _ _) Hlt).
    by rewrite Hn0, Hk0.
Qed.

(** ** Instances *)

(** A function with an indented block, and a declaration with a syntax error. *)
Definition sample : list byte :=
  bs "f :: fn(x: i32) -> i32" ++ [x0a] ++ bs "  g(x) + 1 // tail" ++ [x0a] ++ bs "b :: = )".

Definition sample_layout : list Token * Lexer.Lexer.LexCursor StringPool :=
  match Layout.Layout.layout_stream (Lexer.Lexer.lex_begin sample fresh_pool) with
  | Ret r => r
  | _ => ([], Lexer.Lexer.lex_begin [] fresh_pool)
  end.

Definition sample_body : list Token := removelast sample_layout.1.
Definition sample_eof : Token :=
  List.last sample_layout.1 (mkToken SK_NONE 0 0 0).
Definition sample_pool : StringPool := Lexer.Lexer.pool sample_layout.2.
Definition sample_env : ParserEnv :=
  mkEnv (sample_body ++ [sample_eof]) sample (init_parser_kws sample_pool).1.

(** Before the [=] of the second declaration. *)
Definition sample_state : Parser := mkParser green_builder_new 36 [] false false 0 false.

Lemma no_eof_spec ts :
  forallb (fun t => negb (kind_eqb (kind t) SK_EOF)) ts = true ->
  Forall (fun t => kind t <> SK_EOF) ts.
Proof.
  rewrite forallb_forall. intros H. apply List.Forall_forall. intros t Hin.
  apply H in Hin. apply kind_eqb_neq. by destruct (kind_eqb (kind t) SK_EOF).
Qed.

Lemma sample_no_eof : Forall (fun t => kind t <> SK_EOF) sample_body.
Proof. apply no_eof_spec. vm_compute. reflexivity. Qed.

Lemma sample_tokens_ok : tokens_ok sample_env.
Proof.
  exists sample_body, sample_eof. split; [done|]. split; [by vm_compute|exact sample_no_eof].
Qed.

Lemma sample_state_ok : pos_ok sample_env (pos sample_state).
Proof. eexists. split; vm_compute; reflexivity. Qed.

Lemma parse_total_lossless_witness :
  exists root errs pl',
    parse_file_green (sample_body ++ [sample_eof]) sample sample_pool = Ret (root, errs, pl') /\
    green_kind root = SK_SOURCE_FILE /\ green_ok root /\
    leaves root = map (fun t => (kind t, sub_bytes sample (start t) (token_len t))) sample_body.
Proof.
  apply (parse_total_lossless sample_body sample_eof sample sample_pool);
    [by vm_compute|exact sample_no_eof].
Defined.

(** What the parser answers on the sample. *)
Definition sample_parse : Green * list ParseError * StringPool :=
  match parse_file_green (sample_body ++ [sample_eof]) sample sample_pool with
  | Ret r => r
  | _ => (GreenToken SK_NONE [], [], fresh_pool)
  end.

Lemma parse_errors_bounded_witness :
  (length sample_parse.1.2 = 1)%nat /\
  (length sample_parse.1.2 <= 1 + boundaries sample_body)%nat /\
  Forall (fun e => (tok_pos e < length (sample_body ++ [sample_eof]))%nat) sample_parse.1.2.
Proof.
  split; [vm_compute; reflexivity|].
  apply (parse_errors_bounded sample_body sample_eof sample sample_pool
           sample_parse.1.1 sample_parse.1.2 sample_parse.2);
    [by vm_compute|exact sample_no_eof|vm_compute; reflexivity].
Defined.

(** A source of fewer tokens leaves the first case. *)
Lemma front_end_lossless_witness :
  exists root errs pl',
    parse_file_green sample_layout.1 sample (Lexer.Lexer.pool sample_layout.2) =
      Ret (root, errs, pl') /\
    green_text root = drop (N.to_nat (LexerFacts.LexerFacts.bom_len sample)) sample /\
    (green_text_len root + LexerFacts.LexerFacts.bom_len sample = N.of_nat (length sample))%N.
Proof.
  assert (Er : Layout.Layout.layout_stream (Lexer.Lexer.lex_begin sample fresh_pool) = Ret sample_layout) by (vm_compute; reflexivity).
  destruct (front_end_lossless sample fresh_pool ltac:(reflexivity)) as (raw & l & _ & [(out & root & errs & pl' & Eo & Hp)|[[Eo|Eo] _] ]);
    rewrite Er in Eo; [|discriminate Eo..].
  replace sample_layout with (out, l) by congruence. by exists root, errs, pl'.
Defined.

Lemma parse_call_contract_witness :
  exists p', run sample_env 100 (CExpr PREC_BIND) sample_state = Ret (tt, p') /\
    parents (gb p') = parents (gb sample_state) /\
    (exists new, children (gb p') = children (gb sample_state) ++ new /\ elems_ok new /\
       elem_leaves new = map (emitted sample_env) (slice sample_env 36 (pos p'))) /\
    parsing_type p' = false /\ no_trailing_lambda p' = false /\
    (if p_is_eof sample_env sample_state then pos p' = 36%nat else (36 < pos p')%nat).
Proof.
  apply (parse_call_contract sample_env 100 (CExpr PREC_BIND) sample_state);
    [exact sample_tokens_ok|exact sample_state_ok|vm_compute; lia|discriminate].
Defined.

Lemma recover_one_error_node_witness :
  exists p' inner,
    p_recover sample_env SYNC_SEMI "expected expression" sample_state = Ret (tt, p') /\
    parents (gb p') = [] /\
    children (gb p') = [] ++ [(0%N, green_node_alloc SK_ERROR_NODE inner)] /\
    elem_leaves inner = map (emitted sample_env) (slice sample_env 36 (pos p')) /\
    (p_is_eof sample_env sample_state = false -> (36 < pos p')%nat) /\
    parsing_type p' = false /\ no_trailing_lambda p' = false /\
    (0 <= length (errors p') <= 1)%nat.
Proof.
  apply (recover_one_error_node sample_env SYNC_SEMI "expected expression" sample_state);
    [exact sample_tokens_ok|exact sample_state_ok].
Defined.

Lemma peek_at_is_nth_significant_witness :
  p_peek_at sample_env 1 sample_state =
    nth 1 (map kind (significant (drop 36 (tokens sample_env)))) SK_EOF /\
  p_peek_at sample_env 0 sample_state = p_peek sample_env sample_state.
Proof.
  apply (peek_at_is_nth_significant sample_env 1 sample_state);
    [exact sample_tokens_ok|exact sample_state_ok].
Defined.

End ParserTheorems.
