(* ===== verification/Pratt.v ===== *)
(** * Operator expressions: precedence and associativity

    A syntax of operator expressions, the token list and the green tree of each, and
    the declarative rule for which of them need no parentheses.  The Pratt loop of
    [parse_expr] inverts the token list: what it builds from the tokens of an
    expression is that expression's tree. *)

From S2P Require Import Prelude SyntaxKind Token Interner StringPool.
From S2P Require Import Green Builder Parser ParseExpr GreenFacts ParserFacts.
Import SyntaxKind Token StringPool Green Builder Parser Cursor ParseExpr.
Import GreenFacts ParserFacts.

Module Pratt.

#[local] Open Scope parse_scope.

(** ** Expressions *)

(** A token and the trivia that follows it. *)
Definition word : Set := Token * list Token.

Inductive expr : Set :=
  | Atom (w : word)
  | Paren (l : word) (e : expr) (r : word)
  | Unary (op : word) (e : expr)
  | Bin (l : expr) (op : word) (r : expr).

Definition kind_of (w : word) : OreSyntaxKind := kind w.1.
Definition word_tokens (w : word) : list Token := w.1 :: w.2.

Fixpoint flatten (e : expr) : list Token :=
  match e with
  | Atom w => word_tokens w
  | Paren l e r => word_tokens l ++ flatten e ++ word_tokens r
  | Unary op e => word_tokens op ++ flatten e
  | Bin l op r => flatten l ++ word_tokens op ++ flatten r
  end.

Definition prec (w : word) : nat := get_infix_precedence (kind_of w).
Definition right_assoc (w : word) : bool := is_right_associative (kind_of w).

(** Operands that bind at least as tightly as an operator needs. *)
Definition left_ok (l : expr) (op : word) : Prop :=
  match l with
  | Bin _ o _ => (prec op < prec o)%nat \/ (prec op = prec o /\ right_assoc op = false)
  | _ => True
  end.
Definition right_ok (op : word) (r : expr) : Prop :=
  match r with
  | Bin _ o _ => (prec op < prec o)%nat \/ (prec op = prec o /\ right_assoc op = true)
  | _ => True
  end.
Definition is_bin (e : expr) : bool := match e with Bin _ _ _ => true | _ => false end.

(** No parentheses are missing. *)
Fixpoint canonical (e : expr) : Prop :=
  match e with
  | Atom _ => True
  | Paren _ e _ => canonical e
  | Unary _ e => canonical e /\ is_bin e = false
  | Bin l op r => canonical l /\ canonical r /\ left_ok l op /\ right_ok op r
  end.

(** An expression that [parse_expr(p, q)] takes whole. *)
Definition admissible (q : nat) (e : expr) : Prop :=
  match e with Bin _ op _ => (q < prec op)%nat | _ => True end.

Section Env.
Context (E : ParserEnv).

(** ** The tokens are what the syntax says *)

Definition is_literal (k : OreSyntaxKind) : bool :=
  match k with
  | SK_INT_LIT | SK_FLOAT_LIT | SK_STRING_LIT | SK_BYTE_LIT | SK_ASM_LIT | SK_TRUE_KW
  | SK_FALSE_KW | SK_NIL_KW | SK_UNREACHABLE_KW | SK_UNDERSCORE => true
  | _ => false
  end.

(** A name that does not start a [ctl], [final-ctl] or [direct] lambda. *)
Definition is_name (t : Token) : bool :=
  kind_eqb (kind t) SK_IDENT &&
  negb (tok_is_kw (Some t) (ctl (kws E)) || tok_is_kw (Some t) (final_ctl (kws E)) ||
        tok_is_kw (Some t) (direct (kws E))).

Definition is_unary (k : OreSyntaxKind) : bool :=
  match k with SK_MINUS | SK_BANG | SK_TILDE | SK_AMP => true | _ => false end.

Definition word_ok (w : word) : Prop :=
  Forall (fun t => token_is_trivia (kind t) = true) w.2.

Fixpoint lexed (e : expr) : Prop :=
  match e with
  | Atom w => word_ok w /\ is_literal (kind_of w) || is_name w.1 = true
  | Paren l e r => word_ok l /\ kind_of l = SK_LPAREN /\ lexed e /\
                   word_ok r /\ kind_of r = SK_RPAREN
  | Unary op e => word_ok op /\ is_unary (kind_of op) = true /\ lexed e
  | Bin l op r => lexed l /\ word_ok op /\ prec op <> PREC_NONE /\ lexed r
  end.

(** ** Their trees *)

Definition elems (w : word) : list (N * Green) := map (token_elem E) (word_tokens w).

Definition wrap_kind (op : word) : OreSyntaxKind :=
  if ore_kind_is_assign_op_token (kind_of op) then SK_ASSIGN_EXPR else SK_BIN_EXPR.

Fixpoint tree (e : expr) : Green :=
  match e with
  | Atom w => green_node_alloc
      (if kind_eqb (kind_of w) SK_IDENT then SK_REF_EXPR else SK_LITERAL_EXPR) (elems w)
  | Paren l e r => green_node_alloc SK_PAREN_EXPR (elems l ++ (0%N, tree e) :: elems r)
  | Unary op e => green_node_alloc SK_PREFIX_EXPR (elems op ++ [(0%N, tree e)])
  | Bin l op r => green_node_alloc (wrap_kind op)
                    ((0%N, tree l) :: elems op ++ [(0%N, tree r)])
  end.

(** ** Moving over known tokens *)

(** The state after emitting elements for [n] tokens. *)
Definition put (els : list (N * Green)) (n : nat) (p : Parser) : Parser :=
  set_pos (pos p + n)
    (set_gb (mkBuilder (parents (gb p)) (children (gb p) ++ els)) p).

(** The tokens from the cursor: [ts], then a token of kind [k] that is not
    trivia. *)
Definition ahead (p : Parser) (ts : list Token) (k : OreSyntaxKind) : Prop :=
  exists t rest, drop (pos p) (tokens E) = ts ++ t :: rest /\
    kind t = k /\ token_is_trivia k = false.

Lemma ahead_put p xs ys k els :
  ahead p (xs ++ ys) k -> ahead (put els (length xs) p) ys k.
Proof.
  intros (t & rest & Hd & Hk). exists t, rest. split; [|done].
  unfold put. cbn [pos set_pos]. rewrite <- drop_drop, Hd, <- app_assoc.
  apply drop_app_length.
Qed.

Lemma ahead_current p t ts k :
  ahead p (t :: ts) k -> p_current E p = Some t /\ p_peek E p = kind t.
Proof.
  intros (t' & rest & Hd & _). assert (Hn : nth_error (tokens E) (pos p) = Some t).
  { rewrite <- (Nat.add_0_r (pos p)), <- nth_error_skipn, Hd. done. }
  assert (Hlt : (pos p < count E)%nat) by (apply nth_error_Some; by rewrite Hn).
  unfold p_peek, p_current. rewrite (proj2 (Nat.leb_gt _ _) Hlt), Hn. done.
Qed.

Lemma ahead_end p k : ahead p [] k -> p_peek E p = k /\ (pos p < count E)%nat.
Proof.
  intros (t & rest & Hd & Hk & _). simpl in Hd.
  assert (Hn : nth_error (tokens E) (pos p) = Some t).
  { rewrite <- (Nat.add_0_r (pos p)), <- nth_error_skipn, Hd. done. }
  assert (Hlt : (pos p < count E)%nat) by (apply nth_error_Some; by rewrite Hn).
  split; [|done]. unfold p_peek, p_current. by rewrite (proj2 (Nat.leb_gt _ _) Hlt), Hn.
Qed.

Lemma skip_run_trivia ws rest p :
  Forall (fun t => token_is_trivia (kind t) = true) ws ->
  match rest with t :: _ => token_is_trivia (kind t) = false | [] => True end ->
  skip_trivia_run E (ws ++ rest) p = put (map (token_elem E) ws) (length ws) p.
Proof.
  intros H Hr. revert p. induction H as [|t ws Ht _ IH]; intros p; simpl.
  - unfold put. destruct p as [[] ? ? ? ? ? ?]; simpl.
    rewrite app_nil_r, Nat.add_0_r. destruct rest as [|t rest]; [done|].
    simpl. by rewrite Hr.
  - rewrite Ht, IH. unfold put, emit_token, green_builder_token.
    cbn [set_pos set_gb pos gb parents children]. rewrite <- app_assoc. simpl.
    by rewrite Nat.add_succ_r.
Qed.

(** [p_advance] over a word. *)
Lemma advance_word p w ts k :
  ahead p (word_tokens w ++ ts) k -> word_ok w -> kind_of w <> SK_EOF ->
  ends_unit (kind_of w) = false ->
  match ts with t :: _ => token_is_trivia (kind t) = false | [] => True end ->
  p_advance E p = Ret (Some w.1, put (elems w) (length (word_tokens w)) p).
Proof.
  intros Ha Hw Hk Hu Hts. destruct w as [t ws]. unfold word_tokens in *. cbn [fst snd] in *.
  destruct (ahead_current p t (ws ++ ts) k Ha) as [Hc Hp].
  destruct Ha as (t' & rest & Hd & Ht' & Htr).
  unfold p_advance, p_is_eof. rewrite Hp, Hc. unfold kind_of in *. cbn [fst] in *.
  rewrite (proj2 (kind_eqb_neq _ _) Hk), Hu. unfold skip_trivia, modify.
  cbn [obind pos set_pos emit_token set_gb].
  assert (Hd' : drop (S (pos p)) (tokens E) = ws ++ (ts ++ t' :: rest)).
  { replace (S (pos p)) with (pos p + 1)%nat by lia. rewrite <- drop_drop, Hd. simpl.
    by rewrite <- app_assoc. }
  rewrite Hd', skip_run_trivia; [|exact Hw|].
  - unfold put, emit_token, green_builder_token, elems, word_tokens.
    cbn [set_pos set_gb pos gb parents children fst snd]. rewrite <- app_assoc. simpl.
    by rewrite Nat.add_succ_r.
  - destruct ts; simpl; [|done]. by rewrite Ht'.
Qed.

(** ** Nodes and flags over known states *)

Lemma put_put a b n m p : put b m (put a n p) = put (a ++ b) (n + m) p.
Proof.
  unfold put. cbn [set_pos set_gb pos gb parents children].
  by rewrite <- app_assoc, Nat.add_assoc.
Qed.

(** A state with one more open frame. *)
Definition opened (K : OreSyntaxKind) (cp : nat) (p : Parser) : Parser :=
  set_gb (mkBuilder (mkFrame K cp :: parents (gb p)) (children (gb p))) p.

Lemma ahead_opened K cp p ts k : ahead p ts k -> ahead (opened K cp p) ts k.
Proof. done. Qed.

Lemma start_opened K p :
  p_start_node K p = Ret (tt, opened K (length (children (gb p))) p).
Proof. reflexivity. Qed.

Lemma start_at_opened K p els n :
  p_start_node_at (length (children (gb p))) K (put els n p) =
    Ret (tt, opened K (length (children (gb p))) (put els n p)).
Proof.
  unfold p_start_node_at, green_builder_start_node_at. cbn [gb put set_pos set_gb children].
  rewrite (proj2 (Nat.leb_le _ _)) by (rewrite length_app; lia). reflexivity.
Qed.

(** What was emitted since the frame, before it and after it, becomes the node. *)
Lemma finish_opened K p a b n m :
  p_finish_node (put b m (opened K (length (children (gb p))) (put a n p))) =
    Ret (tt, put [(0%N, green_node_alloc K (a ++ b))] (n + m) p).
Proof.
  unfold p_finish_node, green_builder_finish_node.
  cbn [gb put set_pos set_gb parents children opened first_child frame_kind].
  rewrite (proj2 (Nat.leb_le _ _)) by (rewrite !length_app; lia). cbn [oassert obind].
  rewrite <- app_assoc, drop_app_length, take_app_length. unfold put, opened, set_gb, set_pos.
  cbn [parents children gb pos]. by rewrite Nat.add_assoc.
Qed.

Lemma put_nil p : put [] 0 p = p.
Proof. destruct p as [[] ? ? ? ? ? ?]. unfold put. simpl. by rewrite app_nil_r, Nat.add_0_r. Qed.

Lemma finish_node_put K p b m :
  p_finish_node (put b m (opened K (length (children (gb p))) p)) =
    Ret (tt, put [(0%N, green_node_alloc K b)] m p).
Proof. pose proof (finish_opened K p [] b 0 m) as H. by rewrite put_nil in H. Qed.

Lemma bind_Ret {A B} (m : M A) (k : A -> M B) p a p' :
  m p = Ret (a, p') -> bind m k p = k a p'.
Proof. intros H. unfold bind. by rewrite H. Qed.

(** ** Operators *)

(** What the Pratt loop asks of an infix operator. *)
Lemma operator_facts k : get_infix_precedence k <> PREC_NONE ->
  k <> SK_EOF /\ ends_unit k = false /\ token_is_trivia k = false /\
  is_postfix_start k = false /\ is_thunk_start k = false /\
  (get_infix_precedence k < PREC_UNARY)%nat /\
  forall rec cp, parse_infix E rec k cp = infix_binary E rec k cp.
Proof.
  unfold PREC_UNARY. destruct k; intros H; try (exfalso; by apply H);
    (split; [done|]); do 4 (split; [done|]); (split; [simpl; repeat constructor|done]).
Qed.

(** A token at which [parse_expr(p, q)] stops. *)
Definition stops (ntl : bool) (q : nat) (k : OreSyntaxKind) : Prop :=
  is_postfix_start k = false /\ (is_thunk_start k = false \/ ntl = true) /\
  (get_infix_precedence k = PREC_NONE \/ get_infix_precedence k <= q)%nat.

Lemma stops_operator ntl q op :
  prec op <> PREC_NONE -> (prec op <= q)%nat -> stops ntl q (kind_of op).
Proof.
  intros Hp Hq. destruct (operator_facts _ Hp) as (_ & _ & _ & H1 & H2 & _).
  split; [done|]. split; [by left|by right].
Qed.

(** [parse_expr] passes its right operand this bound. *)
Definition next_prec (op : word) : nat :=
  if right_assoc op then (prec op - 1)%nat else prec op.

Lemma step_stops rec q cp p k :
  p_peek E p = k -> parsing_type p = false -> stops (no_trailing_lambda p) q k ->
  pratt_step E rec q cp p = Ret (false, p).
Proof.
  intros Hk Hpt (H1 & H2 & H3). unfold pratt_step, bind, gets. cbn [obind].
  rewrite Hk, Hpt, H1, andb_false_r.
  assert ((q <? PREC_POSTFIX)%nat && negb false && negb (no_trailing_lambda p) &&
          is_thunk_start k = false)%bool as ->.
  { destruct H2 as [-> | ->]; [by rewrite andb_false_r|by rewrite andb_false_r]. }
  destruct H3 as [-> | H3]; [done|].
  by rewrite (proj2 (Nat.leb_le _ _) H3), orb_true_r.
Qed.

(** One turn on an operator whose right operand parses. *)
Lemma step_operator rec q op l nl r nr k p :
  prec op <> PREC_NONE -> (q < prec op)%nat -> word_ok op ->
  parsing_type p = false ->
  ahead (put [(0%N, l)] nl p) (word_tokens op ++ r) k ->
  match r with t :: _ => token_is_trivia (kind t) = false | [] => True end ->
  (forall s, parsing_type s = false -> no_trailing_lambda s = no_trailing_lambda p ->
     ahead s r k ->
     rec (CExpr (next_prec op)) s = Ret (tt, put [(0%N, nr)] (length r) s)) ->
  pratt_step E rec q (length (children (gb p))) (put [(0%N, l)] nl p) =
    Ret (true, put [(0%N, green_node_alloc (wrap_kind op)
                            ((0%N, l) :: elems op ++ [(0%N, nr)]))]
                   (nl + (length (word_tokens op) + length r)) p).
Proof.
  intros Hop Hq Hw Hpt Ha Hr Hrec.
  destruct (operator_facts _ Hop) as (F1 & F2 & F3 & F4 & F5 & _ & F7).
  pose proof Ha as Ha'. unfold word_tokens in Ha'. simpl in Ha'.
  destruct (ahead_current _ _ _ _ Ha') as [_ Hp]. fold (kind_of op) in Hp.
  unfold pratt_step, bind at 1 2 3, gets. cbn [obind]. rewrite Hp.
  change (parsing_type (put [(0%N, l)] nl p)) with (parsing_type p).
  rewrite Hpt, F4, F5, !andb_false_r. cbn [negb].
  assert ((get_infix_precedence (kind_of op) =? PREC_NONE)%nat ||
          (get_infix_precedence (kind_of op) <=? q)%nat = false)%bool as ->.
  { apply orb_false_intro; [by apply Nat.eqb_neq|by apply Nat.leb_gt]. }
  rewrite F7. unfold infix_binary. fold (wrap_kind op) (right_assoc op) (prec op).
  fold (next_prec op). erewrite bind_Ret; [reflexivity|].
  erewrite bind_Ret by apply start_at_opened.
  erewrite bind_Ret by (eapply advance_word; [by apply ahead_opened|done..]).
  unfold parse_expr. erewrite bind_Ret.
  2: { apply Hrec; [done|done|]. by apply ahead_put, ahead_opened. }
  rewrite put_put. apply finish_opened.
Qed.

(** ** The loop *)

Inductive steps (rec : call -> M unit) (q cp : nat) : Parser -> Parser -> Prop :=
  | steps_refl p : steps rec q cp p p
  | steps_next p p1 p2 :
      pratt_step E rec q cp p = Ret (true, p1) -> (pos p < pos p1)%nat ->
      steps rec q cp p1 p2 -> steps rec q cp p p2.

Lemma steps_snoc rec q cp p p1 p2 :
  steps rec q cp p p1 -> pratt_step E rec q cp p1 = Ret (true, p2) ->
  (pos p1 < pos p2)%nat -> steps rec q cp p p2.
Proof.
  induction 1 as [|p p' p1 H Hlt _ IH]; intros H2 Hlt2.
  - eapply steps_next; [exact H2|done|apply steps_refl].
  - eapply steps_next; [exact H|done|by apply IH].
Qed.

Lemma steps_loop rec q cp p p2 :
  steps rec q cp p p2 -> pratt_step E rec q cp p2 = Ret (false, p2) ->
  (pos p2 < count E)%nat -> loop E (pratt_step E rec q cp) p = Ret (tt, p2).
Proof.
  intros Hs Hend Hlt.
  assert (Hf : forall f, (count E - pos p < f)%nat ->
            loop_fuel f (pratt_step E rec q cp) p = Ret (tt, p2)).
  { induction Hs as [|p p1 p2 H Hp Hs IH]; intros f Hf; (destruct f as [|f]; [lia|]).
    - simpl. unfold bind. by rewrite Hend.
    - simpl. rewrite (bind_Ret _ _ _ _ _ H). apply IH; try done.
      assert (pos p1 <= pos p2)%nat.
      { clear - Hs. induction Hs; lia. }
      lia. }
  apply Hf. unfold count. lia.
Qed.

(** ** Operands *)

Definition follows (ts : list Token) (k : OreSyntaxKind) : OreSyntaxKind :=
  match ts with t :: _ => kind t | [] => k end.

Lemma ahead_prefix p xs ys k :
  ahead p (xs ++ ys) k ->
  match ys with t :: _ => token_is_trivia (kind t) = false | [] => True end ->
  ahead p xs (follows ys k).
Proof.
  intros (t & rest & Hd & Hk & Ht) Hy. destruct ys as [|y ys]; simpl.
  - rewrite app_nil_r in Hd. by exists t, rest.
  - exists y, (ys ++ t :: rest). rewrite Hd, <- app_assoc. done.
Qed.

Lemma lexed_head e : lexed e ->
  exists t ts, flatten e = t :: ts /\ token_is_trivia (kind t) = false.
Proof.
  induction e as [w|l e IH r|op e IH|l IHl op r IHr]; simpl.
  - intros [_ H]. exists w.1, w.2. split; [done|]. unfold kind_of in H. unfold is_name in H.
    by destruct (kind w.1).
  - intros (_ & H & _). eexists l.1, _. split; [reflexivity|].
    unfold kind_of in H. by rewrite H.
  - intros (_ & H & _). eexists op.1, _. split; [reflexivity|].
    unfold kind_of in H. by destruct (kind op.1).
  - intros (Hl & _). destruct (IHl Hl) as (t & ts & -> & Ht). eexists t, _. by split.
Qed.

Lemma lexed_starts e ys : lexed e ->
  match flatten e ++ ys with t :: _ => token_is_trivia (kind t) = false | [] => True end.
Proof. intros H. destruct (lexed_head e H) as (t & ts & -> & Ht). exact Ht. Qed.

Lemma lexed_length e : lexed e -> (1 <= length (flatten e))%nat.
Proof. intros H. destruct (lexed_head e H) as (t & ts & -> & _). simpl. lia. Qed.

Lemma leaf_node_word K w k p :
  ahead p (word_tokens w) k -> word_ok w -> kind_of w <> SK_EOF ->
  ends_unit (kind_of w) = false ->
  leaf_node E K p =
    Ret (tt, put [(0%N, green_node_alloc K (elems w))] (length (word_tokens w)) p).
Proof.
  intros Ha Hw Hk Hu. unfold leaf_node. erewrite bind_Ret by apply start_opened.
  erewrite bind_Ret; [apply finish_node_put|].
  eapply advance_word; [rewrite app_nil_r; by apply ahead_opened|done..].
Qed.

Lemma prefix_dispatch rec p :
  parse_prefix_body E rec p =
    (match p_peek E p with
     | SK_IDENT => prefix_ident E rec
     | SK_LPAREN => prefix_paren E rec
     | k => if is_literal k then leaf_node E SK_LITERAL_EXPR
            else if is_unary k then parse_prefix_unary E rec SK_PREFIX_EXPR
            else parse_prefix_body E rec
     end) p.
Proof.
  destruct (p_peek E p) eqn:Hk; try reflexivity;
    unfold parse_prefix_body, bind, gets; cbn [obind]; rewrite Hk; reflexivity.
Qed.

Lemma prefix_atom rec w k p :
  lexed (Atom w) -> parsing_type p = false -> ahead p (word_tokens w) k ->
  parse_prefix_body E rec p =
    Ret (tt, put [(0%N, tree (Atom w))] (length (word_tokens w)) p).
Proof.
  intros [Hw H] Hpt Ha. destruct (ahead_current p w.1 w.2 k Ha) as [Hc Hp].
  rewrite prefix_dispatch, Hp. cbn [tree]. fold (kind_of w).
  destruct (is_literal (kind_of w)) eqn:Hl.
  - assert (kind_eqb (kind_of w) SK_IDENT = false) as -> by by destruct (kind_of w).
    rewrite <- (leaf_node_word SK_LITERAL_EXPR w k p) by by destruct (kind_of w).
    by destruct (kind_of w).
  - simpl in H. unfold is_name in H. apply andb_prop in H as [Hi Hn].
    fold (kind_of w) in Hi. rewrite Hi. apply kind_eqb_eq in Hi. rewrite Hi.
    unfold prefix_ident, bind at 1 2 3 4 5 6, gets. cbn [obind]. unfold p_at_kw.
    rewrite Hc, Hpt. apply negb_true_iff in Hn.
    apply orb_false_iff in Hn as [Hn ->]. apply orb_false_iff in Hn as [-> ->].
    cbn [negb andb]. by apply (leaf_node_word _ _ k); rewrite ?Hi.
Qed.

(** ** The round trip *)

(** [parse_expr(p, q)] takes the tokens of [e] and builds its tree. *)
Definition parses (e : expr) : Prop := forall q k n p,
  admissible q e -> parsing_type p = false -> stops (no_trailing_lambda p) q k ->
  ahead p (flatten e) k -> (2 * length (flatten e) <= n)%nat ->
  run E n (CExpr q) p = Ret (tt, put [(0%N, tree e)] (length (flatten e)) p).

(** The token after an expression does not extend its last operand. *)
Definition right_stops (ntl : bool) (e : expr) (k : OreSyntaxKind) : Prop :=
  match e with
  | Bin _ op _ => stops ntl (next_prec op) k
  | Unary _ _ => stops ntl PREC_UNARY k
  | _ => True
  end.

(** Its first operand and then the loop do. *)
Definition climbs (e : expr) : Prop := forall q k n p,
  admissible q e -> parsing_type p = false -> right_stops (no_trailing_lambda p) e k ->
  ahead p (flatten e) k -> (2 * length (flatten e) <= S n)%nat ->
  exists p1, run E n CPrefix p = Ret (tt, p1) /\
    steps (run E n) q (length (children (gb p))) p1
      (put [(0%N, tree e)] (length (flatten e)) p).

Lemma stops_unary ntl q k : stops ntl q k -> stops ntl PREC_UNARY k.
Proof.
  intros (H1 & H2 & _). split; [done|]. split; [done|].
  destruct (Nat.eq_dec (get_infix_precedence k) PREC_NONE) as [|H]; [by left|right].
  destruct (operator_facts k H) as (_ & _ & _ & _ & _ & H3 & _). lia.
Qed.

Lemma stops_right_stops ntl q e k : admissible q e -> stops ntl q k -> right_stops ntl e k.
Proof.
  intros Ha Hs. destruct e as [w|l e r|op e|l op r]; simpl in *; try done.
  - by eapply stops_unary.
  - destruct Hs as (H1 & H2 & H3). split; [done|]. split; [done|].
    destruct H3 as [H3|H3]; [by left|right]. unfold next_prec.
    destruct (right_assoc op); lia.
Qed.

Lemma climbs_parses e : lexed e -> climbs e -> parses e.
Proof.
  intros Hx Hc q k n p Ha Hpt Hs Hah Hn.
  pose proof (lexed_length e Hx) as Hlen. destruct n as [|n]; [lia|].
  destruct (Hc q k n p Ha Hpt (stops_right_stops _ _ _ _ Ha Hs) Hah Hn) as (p1 & E1 & S1).
  cbn [run call_body]. unfold parse_expr_body, p_checkpoint, bind at 1, gets. cbn [obind].
  unfold green_builder_checkpoint, parse_prefix. rewrite (bind_Ret _ _ _ _ _ E1).
  rewrite <- (app_nil_r (flatten e)) in Hah. apply (ahead_put _ _ _ _ [(0%N, tree e)]) in Hah.
  destruct (ahead_end _ _ Hah) as [Hk Hlt].
  eapply steps_loop; [exact S1| |exact Hlt]. by eapply step_stops.
Qed.

(** An expression that is a prefix form needs no turn of the loop. *)
Lemma prefix_climbs e :
  (forall k n p, parsing_type p = false -> right_stops (no_trailing_lambda p) e k ->
     ahead p (flatten e) k -> (2 * length (flatten e) <= S (S n))%nat ->
     parse_prefix_body E (run E n) p =
       Ret (tt, put [(0%N, tree e)] (length (flatten e)) p)) ->
  lexed e -> climbs e.
Proof.
  intros H Hx q k n p _ Hpt Hs Hah Hn. pose proof (lexed_length e Hx).
  destruct n as [|n]; [lia|]. eexists. split; [|apply steps_refl]. cbn [run call_body].
  by eapply H.
Qed.

Lemma with_no_trailing_lambda_put b m els n p :
  m (set_no_trailing_lambda b p) = Ret (tt, put els n (set_no_trailing_lambda b p)) ->
  with_no_trailing_lambda b m p = Ret (tt, put els n p).
Proof.
  intros H. unfold with_no_trailing_lambda, gets, modify, bind. cbn [obind]. rewrite H.
  cbn [obind]. by destruct p.
Qed.

Lemma with_parsing_type_put m els n p :
  m p = Ret (tt, put els n p) ->
  with_parsing_type (parsing_type p) m p = Ret (tt, put els n p).
Proof.
  intros H. unfold with_parsing_type, gets, modify, bind. cbn [obind].
  replace (set_parsing_type (parsing_type p) p) with p by (by destruct p).
  rewrite H. cbn [obind]. by destruct p.
Qed.

Lemma admissible_none e : lexed e -> admissible PREC_NONE e.
Proof.
  destruct e as [| | |l op r]; try done. simpl. intros (_ & _ & H & _).
  unfold PREC_NONE in *. lia.
Qed.

(** A consume of the word under the cursor. *)
Lemma consume_word p w k K m :
  ahead p (word_tokens w) k -> word_ok w -> kind_of w = K -> K <> SK_EOF ->
  ends_unit K = false ->
  p_consume E K m p = Ret (Some w.1, put (elems w) (length (word_tokens w)) p).
Proof.
  intros Ha Hw <- Hk Hu. destruct (ahead_current p w.1 w.2 k Ha) as [_ Hp].
  unfold p_consume, bind at 1, gets. cbn [obind]. unfold p_check.
  rewrite Hp. fold (kind_of w). unfold kind_matches_with_virtual.
  rewrite (proj2 (kind_eqb_eq _ _) eq_refl).
  eapply (advance_word p w [] k); try done. by rewrite app_nil_r.
Qed.

Lemma paren_climbs l e r :
  lexed (Paren l e r) -> parses e -> climbs (Paren l e r).
Proof.
  intros Hx He. apply prefix_climbs; [|exact Hx].
  destruct Hx as (Hwl & Hkl & Hxe & Hwr & Hkr).
  intros k n p Hpt _ Hah Hn. cbn [flatten] in Hah, Hn |- *.
  rewrite !length_app in Hn |- *. cbn [length word_tokens] in Hn.
  destruct (ahead_current p l.1 (l.2 ++ flatten e ++ word_tokens r) k Hah) as [_ Hp].
  rewrite prefix_dispatch, Hp. fold (kind_of l). rewrite Hkl. unfold prefix_paren.
  erewrite bind_Ret by apply start_opened.
  assert (Hr : token_is_trivia (kind r.1) = false) by (fold (kind_of r); by rewrite Hkr).
  erewrite bind_Ret.
  2: { eapply advance_word; [by apply ahead_opened|done|by rewrite Hkl..|].
       by apply lexed_starts. }
  apply (ahead_opened SK_PAREN_EXPR (length (children (gb p)))) in Hah.
  apply (ahead_put _ _ _ _ (elems l)) in Hah.
  erewrite bind_Ret.
  2: { apply with_no_trailing_lambda_put, (He PREC_NONE SK_RPAREN).
       - by apply admissible_none.
       - done.
       - by repeat split; left.
       - fold (kind_of r) in Hr. rewrite <- Hkr.
         by apply (ahead_prefix _ _ (word_tokens r) _ Hah).
       - lia. }
  rewrite put_put. apply (ahead_put _ _ _ _ [(0%N, tree e)]) in Hah. rewrite put_put in Hah.
  erewrite bind_Ret by (eapply consume_word; [exact Hah|done..]).
  rewrite put_put, finish_node_put. cbn [tree]. by rewrite <- app_assoc, Nat.add_assoc.
Qed.

Lemma unary_climbs op e :
  lexed (Unary op e) -> is_bin e = false -> parses e -> climbs (Unary op e).
Proof.
  intros Hx Hb He. apply prefix_climbs; [|exact Hx].
  destruct Hx as (Hw & Hk & Hxe).
  intros k n p Hpt Hs Hah Hn. cbn [flatten right_stops] in Hah, Hn, Hs |- *.
  rewrite !length_app in Hn |- *. cbn [length word_tokens] in Hn.
  destruct (ahead_current p op.1 (op.2 ++ flatten e) k Hah) as [_ Hp].
  rewrite prefix_dispatch, Hp. fold (kind_of op).
  replace (match kind_of op with SK_IDENT => _ | _ => _ end)
    with (parse_prefix_unary E (run E n) SK_PREFIX_EXPR) by by destruct (kind_of op).
  unfold parse_prefix_unary. erewrite bind_Ret by apply start_opened.
  pose proof (lexed_starts e [] Hxe) as Hst. rewrite app_nil_r in Hst.
  erewrite bind_Ret.
  2: { eapply advance_word; [by apply ahead_opened|done|by destruct (kind_of op)..|done]. }
  apply (ahead_opened SK_PREFIX_EXPR (length (children (gb p)))) in Hah.
  apply (ahead_put _ _ _ _ (elems op)) in Hah. rewrite (bind_Ret _ _ _ _ _ eq_refl).
  cbn [kind_eqb orb]. erewrite bind_Ret.
  2: { cbv iota. apply with_parsing_type_put, (He PREC_UNARY k); try done; [by destruct e|lia]. }
  rewrite put_put, finish_node_put. done.
Qed.

(** Associativity is a property of the level. *)
Lemma right_assoc_level w :
  right_assoc w = ((prec w =? PREC_POWER) || (prec w =? PREC_ASSIGN))%nat.
Proof. unfold right_assoc, prec. by destruct (kind_of w). Qed.

Lemma left_ok_stops ntl l op :
  lexed l -> prec op <> PREC_NONE -> left_ok l op -> right_stops ntl l (kind_of op).
Proof.
  intros Hx Hop Hlo. destruct (operator_facts _ Hop) as (_ & _ & _ & _ & _ & Hlt & _).
  fold (prec op) in Hlt. destruct l as [| | |l1 o l2]; try done; simpl;
    apply stops_operator; try done; [lia|]. simpl in Hlo. unfold next_prec.
  destruct Hlo as [Hlo|[Hlo Ha]]; [destruct (right_assoc o); lia|].
  rewrite right_assoc_level in *. rewrite <- Hlo, Ha. lia.
Qed.

Lemma right_ok_admissible op r :
  prec op <> PREC_NONE -> right_ok op r -> admissible (next_prec op) r.
Proof.
  unfold PREC_NONE, next_prec. destruct r as [| | |r1 o r2]; try done. simpl.
  intros Hop [H|[H ->]]; [destruct (right_assoc op)|]; lia.
Qed.

Lemma bin_climbs l op r :
  lexed (Bin l op r) -> left_ok l op -> right_ok op r -> climbs l -> parses r ->
  climbs (Bin l op r).
Proof.
  intros (Hxl & Hw & Hop & Hxr) Hlo Hro Hl Hr q k n p Hq Hpt Hs Hah Hn.
  cbn [flatten admissible right_stops] in *.
  rewrite !length_app in Hn |- *. cbn [length word_tokens] in Hn.
  pose proof (lexed_length l Hxl).
  destruct (operator_facts _ Hop) as (_ & _ & Htr & _ & _ & Hlt & _). fold (prec op) in Hlt.
  assert (Hal : ahead p (flatten l) (kind_of op))
    by (apply (ahead_prefix _ _ (word_tokens op ++ flatten r) _ Hah), Htr).
  destruct (Hl q (kind_of op) n p) as (p1 & E1 & S1); try done; [..|lia|].
  - destruct l; try done. simpl in *. lia.
  - by apply left_ok_stops.
  - exists p1. split; [exact E1|]. eapply steps_snoc; [exact S1|..].
    + cbn [tree]. eapply step_operator; try done.
      * by apply ahead_put.
      * pose proof (lexed_starts r [] Hxr) as Hst. by rewrite app_nil_r in Hst.
      * intros s Hps Hns Has. eapply Hr; try done; [by apply right_ok_admissible| |lia].
        by rewrite Hns.
    + unfold put. cbn [pos set_pos]. cbn [length word_tokens]. lia.
Qed.

Lemma all_climb e : lexed e -> canonical e -> climbs e.
Proof.
  induction e as [w|l e IH r|op e IH|l IHl op r IHr]; intros Hx Hc.
  - apply prefix_climbs; [|done]. intros k n p Hpt _ Hah _. by eapply prefix_atom.
  - apply paren_climbs; [done|]. apply climbs_parses; [|apply IH; [|done]]; apply Hx.
  - destruct Hc as [Hc Hb]. apply unary_climbs; [done..|].
    apply climbs_parses; [|apply IH; [|done]]; apply Hx.
  - destruct Hc as (Hcl & Hcr & Hlo & Hro). pose proof Hx as (Hxl & _ & _ & Hxr).
    apply bin_climbs; [done..|by apply IHl|]. apply climbs_parses; [done|by apply IHr].
Qed.

(** C9: precedence and associativity round trip: take any operator expression in
    which an operand binds more tightly than its operator (or equally, on the side
    the operator associates to), anything looser being parenthesised.  On its
    tokens, whatever trivia lies between them, followed by a token that does not
    continue it, [parse_expr(p, q)] builds exactly its tree, consumes exactly its
    tokens, reports nothing and changes nothing else. *)
Theorem parse_expr_inverts_flatten (e : expr) (q n : nat) (k : OreSyntaxKind) (p : Parser) :
  lexed e -> canonical e -> admissible q e ->
  parsing_type p = false -> stops (no_trailing_lambda p) q k ->
  ahead p (flatten e) k -> (2 * length (flatten e) <= n)%nat ->
  run E n (CExpr q) p = Ret (tt, put [(0%N, tree e)] (length (flatten e)) p).
Proof.
  intros Hx Hc Ha Hpt Hs Hah Hn.
  by apply (climbs_parses e Hx (all_climb e Hx Hc) q k n p).
Qed.

End Env.
(** ** An instance *)

Definition sample : list byte := bs "1 + 2*-(3-4-5)**6**x;".

Definition w (k : OreSyntaxKind) (a b : N) : word := (mkToken k 0 a b, []).

(** [1 + (2 * ((-((3 - 4) - 5)) ** (6 ** x)))]. *)
Definition sample_expr : expr :=
  Bin (Atom (mkToken SK_INT_LIT 0 0 1, [mkToken SK_WHITESPACE 0 1 2]))
      (mkToken SK_PLUS 0 2 3, [mkToken SK_WHITESPACE 0 3 4])
      (Bin (Atom (w SK_INT_LIT 4 5)) (w SK_STAR 5 6)
           (Bin (Unary (w SK_MINUS 6 7)
                   (Paren (w SK_LPAREN 7 8)
                      (Bin (Bin (Atom (w SK_INT_LIT 8 9)) (w SK_MINUS 9 10)
                                (Atom (w SK_INT_LIT 10 11)))
                           (w SK_MINUS 11 12) (Atom (w SK_INT_LIT 12 13)))
                      (w SK_RPAREN 13 14)))
                (w SK_STAR_STAR 14 16)
                (Bin (Atom (w SK_INT_LIT 16 17)) (w SK_STAR_STAR 17 19)
                     (Atom (w SK_IDENT 19 20))))).

Definition sample_env : ParserEnv :=
  mkEnv (flatten sample_expr ++ [mkToken SK_SEMI 0 20 21; mkToken SK_EOF 0 21 21])
        sample (init_parser_kws fresh_pool).1.

Lemma parse_expr_inverts_flatten_witness :
  run sample_env 40 (CExpr PREC_NONE) initial_parser =
    Ret (tt, put [(0%N, tree sample_env sample_expr)] 18 initial_parser).
Proof.
  apply (parse_expr_inverts_flatten sample_env sample_expr PREC_NONE 40 SK_SEMI
           initial_parser).
  - repeat split; repeat constructor; discriminate.
  - vm_compute. repeat split; try exact I; lia.
  - vm_compute. lia.
  - reflexivity.
  - repeat split; left; reflexivity.
  - exists (mkToken SK_SEMI 0 20 21), [mkToken SK_EOF 0 21 21]. repeat split.
  - simpl. lia.
Defined.

End Pratt.
