(* ===== verification/AstTheorems.v ===== *)
(** * The typed accessors read what the parser builds

    Operator expressions: the tree that [parse_expr] builds from an expression ([Pratt]) is
    read back by the accessors to that expression. *)

From S2P Require Import Prelude SyntaxKind Token Green Parser ParseExpr ParserFacts Pratt RedPtr Ast.
Import SyntaxKind Token Green Parser Cursor ParseExpr ParserFacts Pratt Handle Ast.

Module AstTheorems.

#[local] Open Scope N_scope.

(** An expression without its trivia: operator kinds, and the texts of names. *)
Inductive shape : Type :=
  | SName (text : list byte)
  | SLiteral (kind : option OreSyntaxKind)
  | SParen (s : shape)
  | SPrefix (op : OreSyntaxKind) (s : shape)
  | SAssign (l : shape) (op : OreSyntaxKind) (r : shape)
  | SBinary (l : shape) (op : OreSyntaxKind) (r : shape).

(** What a client of the accessors reads; the fuel bounds the depth. *)
Fixpoint read_expr (fuel : nat) (n : Node) : option shape :=
  match fuel with
  | O => None
  | S fuel =>
      match RefExpr_cast n, Literal_cast n, ParenExpr_cast n, PrefixExpr_cast n, AssignExpr_cast n, BinExpr_cast n with
      | Some r, _, _, _, _, _ => t ← RefExpr_name r; Some (SName (text_of t))
      | _, Some l, _, _, _, _ => Some (SLiteral (Literal_kind l))
      | _, _, Some p, _, _, _ => e ← ParenExpr_inner p; s ← read_expr fuel e; Some (SParen s)
      | _, _, _, Some p, _, _ => k ← PrefixExpr_op_kind p; e ← PrefixExpr_operand p; s ← read_expr fuel e; Some (SPrefix k s)
      | _, _, _, _, Some a, _ =>
          k ← AssignExpr_op_kind a; l ← AssignExpr_lhs a; r ← AssignExpr_rhs a;
          sl ← read_expr fuel l; sr ← read_expr fuel r; Some (SAssign sl k sr)
      | _, _, _, _, _, Some b =>
          k ← BinExpr_op_kind b; l ← BinExpr_lhs b; r ← BinExpr_rhs b;
          sl ← read_expr fuel l; sr ← read_expr fuel r; Some (SBinary sl k sr)
      | _, _, _, _, _, _ => None
      end
  end.

Fixpoint depth (e : expr) : nat :=
  match e with
  | Atom _ => 1
  | Paren _ e _ | Unary _ e => S (depth e)
  | Bin l _ r => S (Nat.max (depth l) (depth r))
  end.

(** ** Accessors as functions of the children's trees *)

Definition kid_trees (g : Green) : list Green := map snd (green_children g).

Lemma trees_of_children n : map tree (children n) = kid_trees (tree n).
Proof.
  unfold children, kid_trees. generalize 0. induction (green_children (tree n)) as [|e cs IH]; intros i; [done|]. cbn. by rewrite IH.
Qed.

Lemma alloc_kid_trees k cs : kid_trees (green_node_alloc k cs) = map snd cs.
Proof.
  unfold kid_trees, green_node_alloc. enough (H : forall off, map snd (assign_offsets off cs).1 = map snd cs).
  { specialize (H 0). by destruct (assign_offsets 0 cs). }
  induction cs as [|[o g] cs IH]; intros off; [done|]. cbn. specialize (IH (u32 (off + green_text_len g))). destruct (assign_offsets _ cs). cbn in *. by rewrite IH.
Qed.

Lemma find_tree (f : Green -> bool) l : tree <$> List.find (fun e => f (tree e)) l = List.find f (map tree l).
Proof. induction l as [|x l IH]; [done|]. cbn. by destruct (f (tree x)). Qed.

Lemma filter_tree l : map tree (filter is_node l) = filter (fun g => green_is_node g) (map tree l).
Proof. induction l as [|x l IH]; [done|]. cbn [map]. rewrite !filter_cons. repeat case_decide; try done; cbn [map]; by rewrite IH. Qed.

Lemma token_pred_tree n pred : tree <$> ast_first_token_pred n pred = List.find (fun g => negb (green_is_node g) && pred (green_kind g)) (kid_trees (tree n)).
Proof. unfold ast_first_token_pred. rewrite <- trees_of_children. exact (find_tree (fun g => negb (green_is_node g) && pred (green_kind g)) _). Qed.

Lemma nth_node_tree n i : tree <$> ast_nth_node n i = nth_error (filter (fun g => green_is_node g) (kid_trees (tree n))) (N.to_nat i).
Proof. unfold ast_nth_node, node_children. rewrite <- trees_of_children, <- filter_tree. by rewrite nth_error_map. Qed.

Lemma first_token_tree n k : tree <$> first_child_or_token_by_kind n k = List.find (fun g => kind_eqb (green_kind g) k) (kid_trees (tree n)).
Proof. unfold first_child_or_token_by_kind. rewrite <- trees_of_children. exact (find_tree (fun g => kind_eqb (green_kind g) k) _). Qed.

Section Reads.
Context (E : ParserEnv).

Lemma word_trees w : map snd (elems E w) = map (fun t => (token_elem E t).2) (word_tokens w).
Proof. unfold elems. by rewrite map_map. Qed.

Lemma no_nodes w : filter (fun g => green_is_node g) (map (fun t => (token_elem E t).2) w) = [].
Proof. induction w as [|t w IH]; [done|]. cbn [map]. rewrite filter_cons. case_decide; [done|exact IH]. Qed.

(** The trees of the operands of a node, and its first token that satisfies [pred]. *)
Lemma operands_atom w : filter (fun g => green_is_node g) (map snd (elems E w)) = [].
Proof. rewrite word_trees. apply no_nodes. Qed.

Lemma tree_is_node e : green_is_node (Pratt.tree E e) = true.
Proof. destruct e; cbn; unfold green_node_alloc; by destruct (assign_offsets _ _). Qed.

Lemma filter_node g gs : green_is_node g = true -> filter (fun g => green_is_node g) (g :: gs) = g :: filter (fun g => green_is_node g) gs.
Proof. intros Hg. rewrite filter_cons. case_decide as Hd; [done|]. by rewrite Hg in Hd. Qed.

Lemma operands_one op g r : green_is_node g = true -> filter (fun g => green_is_node g) (map snd (elems E op ++ (0, g) :: elems E r)) = [g].
Proof.
  intros Hg. rewrite map_app, filter_app, operands_atom. cbn [map app snd]. by rewrite filter_node, operands_atom.
Qed.

Lemma operands_last op g : green_is_node g = true -> filter (fun g => green_is_node g) (map snd (elems E op ++ [(0, g)])) = [g].
Proof. intros Hg. rewrite map_app, filter_app, operands_atom. cbn [map app snd]. by rewrite filter_node. Qed.

Lemma first_op op g rest pred : pred (kind_of op) = true -> green_is_node g = true ->
  List.find (fun g => negb (green_is_node g) && pred (green_kind g)) (g :: map snd (elems E op ++ rest)) = Some (token_elem E op.1).2.
Proof. intros Hp Hg. cbn [List.find]. rewrite Hg. cbn [negb andb]. rewrite map_app, word_trees. cbn. change (kind op.1) with (kind_of op). by rewrite Hp. Qed.

Lemma read_kind n k cs : tree n = green_node_alloc k cs -> node_kind n = k.
Proof. unfold node_kind, green_node_alloc. intros ->. by destruct (assign_offsets 0 cs). Qed.

Lemma kids_of n k cs : tree n = green_node_alloc k cs -> kid_trees (tree n) = map snd cs.
Proof. intros ->. apply alloc_kid_trees. Qed.

Lemma fmap_tree_Some (x : option Node) g : tree <$> x = Some g -> exists n, x = Some n /\ tree n = g.
Proof. destruct x as [n|]; [|done]. intros [= <-]. by exists n. Qed.

Definition literal_kind (k : OreSyntaxKind) : option OreSyntaxKind := if is_literal_tok k then Some k else None.

(** The shape of an expression. *)
Fixpoint shape_of (e : expr) : shape :=
  match e with
  | Atom w => if kind_eqb (kind_of w) SK_IDENT then SName (token_text E w.1) else SLiteral (literal_kind (kind_of w))
  | Paren _ e _ => SParen (shape_of e)
  | Unary op e => SPrefix (kind_of op) (shape_of e)
  | Bin l op r => if ore_kind_is_assign_op_token (kind_of op) then SAssign (shape_of l) (kind_of op) (shape_of r) else SBinary (shape_of l) (kind_of op) (shape_of r)
  end.

Lemma operator_flagged : forallb (fun k => (get_infix_precedence k =? PREC_NONE)%nat || ore_kind_is_assign_op_token k || is_bin_op k) all_kinds = true.
Proof. vm_compute. reflexivity. Qed.

Lemma trivia_no_literal : forallb (fun k => negb (token_is_trivia k && is_literal_tok k)) all_kinds = true.
Proof. vm_compute. reflexivity. Qed.


Lemma atom_literal w : word_ok w -> List.find (fun g => negb (green_is_node g) && is_literal_tok (green_kind g)) (map snd (elems E w)) =
  if is_literal_tok (kind_of w) then Some (token_elem E w.1).2 else None.
Proof.
  intros Hw. rewrite word_trees. cbn. change (kind w.1) with (kind_of w). destruct (is_literal_tok (kind_of w)); [done|].
  unfold word_ok in Hw. induction Hw as [|t ts Ht _ IH]; [done|]. cbn. pose proof (kind_forall _ trivia_no_literal (kind t)) as H. cbv beta in H. rewrite Ht in H. cbn in H.
  apply negb_true_iff in H. by rewrite H.
Qed.

Lemma operator_op op : prec op <> PREC_NONE -> ore_kind_is_assign_op_token (kind_of op) = false -> is_bin_op (kind_of op) = true.
Proof.
  intros Hp Ha. pose proof (kind_forall _ operator_flagged (kind_of op)) as H. cbv beta in H. rewrite Ha, orb_false_r in H. apply orb_true_iff in H as [H|H]; [|done].
  apply Nat.eqb_eq in H. by destruct Hp.
Qed.

Lemma unary_prefix k : is_unary k = true -> is_prefix_op k = true.
Proof. by destruct k. Qed.

(** The accessors of a binary or assignment node with two operands. *)
Lemma infix_parts n k l op r pred : tree n = green_node_alloc k ((0, Pratt.tree E l) :: elems E op ++ [(0, Pratt.tree E r)]) -> pred (kind_of op) = true ->
  (exists t, ast_first_token_pred n pred = Some t /\ node_kind t = kind_of op) /\
  (exists a, ast_nth_node n 0 = Some a /\ tree a = Pratt.tree E l) /\ (exists b, ast_nth_node n 1 = Some b /\ tree b = Pratt.tree E r).
Proof.
  intros Hn Hp. split; [|split].
  - destruct (fmap_tree_Some (ast_first_token_pred n pred) (token_elem E op.1).2) as (t & -> & Ht); [|exists t; split; [done|unfold node_kind; by rewrite Ht]].
    rewrite token_pred_tree, (kids_of _ _ _ Hn). cbn [map snd]. apply first_op; [done|apply tree_is_node].
  - apply fmap_tree_Some. rewrite nth_node_tree, (kids_of _ _ _ Hn). cbn [map snd]. by rewrite filter_node by apply tree_is_node.
  - apply fmap_tree_Some. rewrite nth_node_tree, (kids_of _ _ _ Hn). cbn [map snd]. rewrite filter_node by apply tree_is_node.
    by rewrite operands_last by apply tree_is_node.
Qed.

Lemma cast_kind k n : node_kind n = k -> cast k n = Some n.
Proof. unfold cast, of_kind. intros ->. unfold kind_eqb. by rewrite N.eqb_refl. Qed.

Ltac read_node H :=
  cbn [read_expr]; unfold RefExpr_cast, Literal_cast, ParenExpr_cast, PrefixExpr_cast, AssignExpr_cast, BinExpr_cast, cast, of_kind;
  rewrite H; cbn [kind_eqb kind_code N.eqb Pos.eqb].

Lemma read_tree fuel e n : lexed E e -> tree n = Pratt.tree E e -> (depth e <= fuel)%nat -> read_expr fuel n = Some (shape_of e).
Proof.
  revert e n. induction fuel as [|fuel IH]; intros e n He Hn Hd; [by destruct e; cbn in Hd; lia|].
  destruct e as [w|l e r|op e|l op r]; cbn [Pratt.tree shape_of lexed depth] in *; pose proof (read_kind _ _ _ Hn) as Hk.
  - destruct He as [Hw Hl]. destruct (kind_eqb (kind_of w) SK_IDENT) eqn:Ei; read_node Hk.
    + destruct (fmap_tree_Some (first_child_or_token_by_kind n SK_IDENT) (token_elem E w.1).2) as (t & Et & Ht).
      { rewrite first_token_tree, (kids_of _ _ _ Hn), word_trees. cbn. change (kind w.1) with (kind_of w). by rewrite Ei. }
      unfold RefExpr_name, ast_first_token. rewrite Et. unfold is_node. rewrite Ht. cbn. unfold text_of. by rewrite Ht.
    + f_equal. f_equal. unfold Literal_kind, Literal_token, literal_kind. pose proof (token_pred_tree n is_literal_tok) as H.
      rewrite (kids_of _ _ _ Hn), (atom_literal _ Hw) in H. destruct (is_literal_tok (kind_of w)).
      * apply fmap_tree_Some in H as (t & -> & Ht). cbn. unfold node_kind. by rewrite Ht.
      * by destruct (ast_first_token_pred n is_literal_tok).
  - destruct He as (_ & _ & He & _). read_node Hk.
    destruct (fmap_tree_Some (ast_nth_node n 0) (Pratt.tree E e)) as (a & Ea & Ha).
    { rewrite nth_node_tree, (kids_of _ _ _ Hn). by rewrite operands_one by apply tree_is_node. }
    unfold ParenExpr_inner. rewrite Ea. cbn. by rewrite (IH e a He Ha) by lia.
  - destruct He as (_ & Hu & He). read_node Hk.
    destruct (fmap_tree_Some (ast_nth_node n 0) (Pratt.tree E e)) as (a & Ea & Ha).
    { rewrite nth_node_tree, (kids_of _ _ _ Hn). by rewrite operands_last by apply tree_is_node. }
    destruct (fmap_tree_Some (ast_first_token_pred n is_prefix_op) (token_elem E op.1).2) as (t & Et & Ht).
    { rewrite token_pred_tree, (kids_of _ _ _ Hn), map_app, word_trees. cbn. change (kind op.1) with (kind_of op). by rewrite unary_prefix. }
    unfold PrefixExpr_op_kind, PrefixExpr_op, PrefixExpr_operand. rewrite Et, Ea. cbn. rewrite (IH e a He Ha) by lia. unfold node_kind. by rewrite Ht.
  - destruct He as (Hl & _ & Hp & Hr). unfold wrap_kind in *. destruct (ore_kind_is_assign_op_token (kind_of op)) eqn:Ea; read_node Hk.
    + destruct (infix_parts n _ l op r is_assign_op Hn Ea) as ((t & Et & Ht) & (a & E1 & Ha) & (b & E2 & Hb)).
      unfold AssignExpr_op_kind, AssignExpr_op, AssignExpr_lhs, AssignExpr_rhs. rewrite Et, E1, E2. cbn.
      rewrite (IH l a Hl Ha), (IH r b Hr Hb) by lia. cbn. by rewrite Ht.
    + destruct (infix_parts n _ l op r is_bin_op Hn (operator_op op Hp Ea)) as ((t & Et & Ht) & (a & E1 & Ha) & (b & E2 & Hb)).
      unfold BinExpr_op_kind, BinExpr_op, BinExpr_lhs, BinExpr_rhs. rewrite Et, E1, E2. cbn.
      rewrite (IH l a Hl Ha), (IH r b Hr Hb) by lia. cbn. by rewrite Ht.
Qed.

End Reads.

(** C10: The typed accessors read back what the parser builds of an operator expression: from
    the tree of any expression, whatever trivia follows its tokens, a client that casts each
    node, asks for its operator and descends to its operands reads that expression, with
    every infix operator found, assignments apart from the others. *)
Theorem accessors_read_back E e : lexed E e -> read_expr (depth e) (tree_root (Pratt.tree E e)) = Some (shape_of E e).
Proof. intros He. by apply read_tree. Qed.

(** [1 + 2*-(3-4-5)**6**x]. *)
Lemma accessors_read_back_witness : exists s, read_expr (depth sample_expr) (tree_root (Pratt.tree sample_env sample_expr)) = Some (SBinary (SLiteral (Some SK_INT_LIT)) SK_PLUS s).
Proof.
  eexists. rewrite (accessors_read_back sample_env sample_expr); [reflexivity|]. repeat split; repeat constructor; discriminate.
Defined.

End AstTheorems.
