(* ===== verification/Keywords.v ===== *)
(** * Contextual keywords are recognised by their text

    The lexer and the parser meet at the string pool: the lexer interns identifiers,
    [init_parser_kws] interns the spellings of the contextual keywords, and the
    parser compares ids.  The theorem is proved against the interface
    [InternerLaws], which [StringPoolTheorems.v] discharges for the real pool. *)

From stdpp Require Import relations.
From S2P Require Import Prelude SyntaxKind Token Interner StringPool Lexer LexerFacts.
From S2P Require Import Green Builder Parser StringPoolTheorems.

Import SyntaxKind Token Lexer LexerFacts Parser Cursor StringPool StringPoolTheorems.

Module Keywords.

(** The fields of [ParserKws] and their spellings, in the order they are interned. *)
Definition contextual_keywords : list ((ParserKws -> N) * string) :=
  [(named, "named"); (scoped, "scoped"); (pub, "pub"); (pvt, "pvt");
   (abstract_, "abstract"); (distinct_, "distinct"); (bit_field_, "bit-field");
   (linear, "linear"); (ctl, "ctl"); (val_, "val"); (final_ctl, "final-ctl");
   (direct, "direct"); (override_, "override"); (in_, "in")]%string.

Section Client.
Context {P : Type} `{InternerLaws P}.

Definition short (n : nat) : Prop := (N.of_nat n + 5 < 2 ^ 32)%N.

Lemma interns_fits n p q : interns n p q -> pool_fits q -> pool_fits p.
Proof.
  induction 1 as [p|p p1 q (s & Hs & ->) _ IH]; intros Hf; [done|].
  by eapply intern_fits, IH.
Qed.

(** Interning keeps a pool well formed and every name it has. *)
Lemma interns_keeps n p q : short n -> interns n p q -> pool_wf p -> pool_fits q ->
  pool_wf q /\ forall id s, denotes p id s -> denotes q id s.
Proof.
  intros Hn. induction 1 as [p|p p1 q (s & Hs & ->) Hr IH]; intros W Hf; [done|].
  pose proof (interns_fits n _ _ Hr Hf) as Hf1.
  destruct (pool_intern p s) as [p1 i] eqn:E. simpl in *.
  destruct (intern_denotes p s p1 i W) as (W1 & _ & K1); [|done|done|].
  { unfold short in Hn. lia. }
  destruct (IH W1 Hf) as [W2 K2]. split; [done|]. intros id s' Hd. by apply K2, K1.
Qed.

Lemma interned_as_denotes n p text id q :
  short n -> (length text <= n)%nat -> interned_as n p text id q -> pool_wf p -> pool_fits q ->
  pool_wf q /\ denotes q id text.
Proof.
  intros Hn Ht (q0 & Hq & E) W Hf.
  assert (Hf0 : pool_fits q0) by (eapply intern_fits; by rewrite E).
  destruct (interns_keeps n p q0 Hn Hq W Hf0) as [W0 _].
  destruct (intern_denotes q0 text q id W0) as (W1 & D & _); [|done|done|done].
  unfold short in Hn. lia.
Qed.

(** ** Interning a list of spellings *)

Fixpoint intern_list (p : P) (ss : list (list byte)) : list N * P :=
  match ss with
  | [] => ([], p)
  | s :: ss =>
      let '(p, id) := pool_intern p s in
      let '(ids, p) := intern_list p ss in (id :: ids, p)
  end.

Lemma intern_list_interns n ss p : Forall (fun s => (length s <= n)%nat) ss ->
  interns n p (snd (intern_list p ss)).
Proof.
  revert p. induction ss as [|s ss IH]; intros p Hs; [apply interns_refl|].
  apply Forall_cons in Hs as [Hs Hss]. simpl. pose proof (interns_once n p s Hs) as H1.
  destruct (pool_intern p s) as [p1 i]. specialize (IH p1 Hss).
  destruct (intern_list p1 ss) as [ids p2]. by eapply interns_trans.
Qed.

Lemma intern_list_denotes n ss p ids q :
  short n -> Forall (fun s => (length s <= n)%nat) ss -> intern_list p ss = (ids, q) ->
  pool_wf p -> pool_fits q -> Forall2 (denotes q) ids ss.
Proof.
  intros Hn. revert p ids. induction ss as [|s ss IH]; intros p ids Hs E W Hf.
  - injection E as <- <-. constructor.
  - apply Forall_cons in Hs as [Hs Hss]. simpl in E.
    destruct (pool_intern p s) as [p1 i] eqn:E1.
    pose proof (intern_list_interns n ss p1 Hss) as Hr.
    destruct (intern_list p1 ss) as [ids' p2] eqn:E2. injection E as <- <-. simpl in Hr.
    pose proof (interns_fits n _ _ Hr Hf) as Hf1.
    destruct (intern_denotes p s p1 i W) as (W1 & D1 & _); [unfold short in Hn; lia|done|done|].
    constructor; [|by eapply IH]. by apply (interns_keeps n p1 p2 Hn Hr W1 Hf).
Qed.

Lemma init_parser_kws_list pl k pl' : init_parser_kws pl = (k, pl') ->
  intern_list pl (map (fun c => bs (snd c)) contextual_keywords) =
    (map (fun c => fst c k) contextual_keywords, pl').
Proof.
  unfold init_parser_kws. cbn [map contextual_keywords fst snd intern_list].
  repeat match goal with
  | |- context [pool_intern ?p (bs ?s)] => destruct (pool_intern p (bs s)) as [? ?]
  end.
  by intros [= <- <-].
Qed.

Lemma keyword_lengths :
  Forall (fun s => (length s <= 20)%nat) (map (fun c => bs (snd c)) contextual_keywords).
Proof. repeat constructor; simpl; lia. Qed.

(** The ids of the contextual keywords name their spellings. *)
Lemma init_parser_kws_denotes pl k pl' f s :
  init_parser_kws pl = (k, pl') -> pool_wf pl -> pool_fits pl' ->
  In (f, s) contextual_keywords -> denotes pl' (f k) (bs s).
Proof.
  intros E%init_parser_kws_list W Hf Hin.
  pose proof (intern_list_denotes 20 _ _ _ _ eq_refl keyword_lengths E W Hf) as HF.
  apply list_elem_of_In, list_elem_of_lookup in Hin as [i Hi].
  refine (Forall2_lookup_lr _ _ _ i _ _ HF _ _); rewrite list_lookup_fmap, Hi; done.
Qed.

Lemma init_parser_kws_interns pl k pl' : init_parser_kws pl = (k, pl') -> interns 20 pl pl'.
Proof.
  intros E%init_parser_kws_list. pose proof (intern_list_interns 20 _ pl keyword_lengths) as Hi.
  by rewrite E in Hi.
Qed.

(** Every identifier of the lexer's output carries the id of its text. *)
Lemma lex_identifiers_denote src pl ts l t :
  (N.of_nat (length src) + 5 < 2 ^ 32)%N -> lex src pl = Ret (ts, l) ->
  pool_wf pl -> pool_fits (pool l) -> In t ts -> kind t = SK_IDENT ->
  pool_wf (pool l) /\ denotes (pool l) (string_id t) (lexeme src t).
Proof.
  intros Hs E W Hf Hin Hk. destruct (lex_streamed src pl) as (ts' & l' & St & E'); [lia|].
  rewrite E' in E. injection E as <- <-. apply in_app_or in Hin as [Hin|[<-|[]]]; [|done].
  pose proof (proj1 (List.Forall_forall _ _) (st_idents _ _ _ St) t Hin Hk) as (q & Ha & Hi).
  change (Lexer.source (lex_begin src pl)) with src in *. change (pool (lex_begin src pl)) with pl in *.
  pose proof (interns_fits _ _ _ Hi Hf) as Hq.
  destruct (interned_as_denotes (length src) pl (lexeme src t) (string_id t) q) as [Wq D]; try done.
  { apply sub_bytes_le. }
  destruct (interns_keeps (length src) q (pool l') Hs Hi Wq Hf) as [Wl K]. split; [done|by apply K].
Qed.

(** contextual keywords are recognised by their text.  Lex a source, then intern the
    contextual keywords into the same pool: for each of the fourteen keywords and each
    token of the source, the parser's test by id ([tok_is_kw], behind [p_at_kw]) answers
    whether the token is an identifier spelled like the keyword.  It holds of every
    interner that satisfies [InternerLaws]. *)
Theorem contextual_keyword_by_text (src : list byte) (pl pl' : P) (ts : list Token)
    (l : LexCursor P) (k : ParserKws) (f : ParserKws -> N) (s : string) (t : Token) :
  (N.of_nat (length src) + 5 < 2 ^ 32)%N -> pool_wf pl ->
  lex src pl = Ret (ts, l) -> init_parser_kws (pool l) = (k, pl') -> pool_fits pl' ->
  In (f, s) contextual_keywords -> In t ts ->
  tok_is_kw (Some t) (f k) = kind_eqb (kind t) SK_IDENT && bytes_eqb (lexeme src t) (bs s).
Proof.
  intros Hs W E Ek Hf Hin Ht. unfold tok_is_kw.
  destruct (kind_eqb (kind t) SK_IDENT) eqn:Hk; [|done]. apply kind_eqb_eq in Hk. simpl.
  pose proof (init_parser_kws_interns _ _ _ Ek) as Hi. pose proof (interns_fits _ _ _ Hi Hf) as Hl.
  destruct (lex_identifiers_denote src pl ts l t Hs E W Hl Ht Hk) as [Wl D].
  destruct (interns_keeps 20 _ _ eq_refl Hi Wl Hf) as [Wk K]. apply K in D.
  pose proof (init_parser_kws_denotes _ _ _ f s Ek Wl Hf Hin) as Dk.
  destruct (bytes_eqb (lexeme src t) (bs s)) eqn:Eb.
  - apply bytes_eqb_eq in Eb. rewrite <- Eb in Dk. apply N.eqb_eq.
    by apply (denotes_injective pl' _ _ (lexeme src t)).
  - apply N.eqb_neq. intros Heq. rewrite Heq in D.
    pose proof (denotes_functional pl' _ _ _ Wk D Dk) as Hx. apply bytes_eqb_eq in Hx. congruence.
Qed.

End Client.

(** [pub], then another identifier. *)
Definition kw_source : list byte := bs "pub public".

Lemma contextual_keyword_by_text_witness :
  exists ts l k pl', lex kw_source fresh_pool = Ret (ts, l) /\
    init_parser_kws (pool l) = (k, pl') /\
    map (fun t => tok_is_kw (Some t) (pub k)) ts =
    map (fun t => kind_eqb (kind t) SK_IDENT && bytes_eqb (lexeme kw_source t) (bs "pub")) ts /\
    map (fun t => tok_is_kw (Some t) (pub k)) ts = [true; false; false; false].
Proof.
  destruct (lex kw_source fresh_pool) as [[ts l]| |] eqn:E; [|vm_compute in E; discriminate E..].
  destruct (init_parser_kws (pool l)) as [k pl'] eqn:Ek.
  exists ts, l, k, pl'. split; [reflexivity|]. split; [exact Ek|]. split.
  - apply map_ext_in. intros t Ht.
    apply (contextual_keyword_by_text kw_source fresh_pool pl' ts l k pub "pub"%string t);
      [reflexivity|exact (proj1 fresh_pool_wf)|exact E|exact Ek| |right; right; left; reflexivity
      |exact Ht].
    vm_compute in E. injection E as <- <-. vm_compute in Ek. injection Ek as <- <-.
    vm_compute. reflexivity.
  - vm_compute in E. injection E as <- <-. vm_compute in Ek. injection Ek as <- <-.
    vm_compute. reflexivity.
Defined.

End Keywords.
