(* ===== verification/Position.v ===== *)
(** * Lines, columns and offsets: [src/db/getters/diag.c], [src/db/getters/position.c]

    The packed source span ([src/db/db.h]), the line index that [db_query_line_index]
    computes ([src/db/query/parse.c]), [db_resolve_span], [db_byte_offset_at] and
    [db_node_at_offset].  [PosDb] has the columns of the database these read; a column
    is a list, and a read the code does without a bounds check takes a default out of
    range.  The memoisation around [db_query_line_index] is not modelled. *)

From S2P Require Import Prelude StringPool Green.

Import Green.

Module Position.

#[local] Open Scope N_scope.

Definition UINT32_MAX : N := 2 ^ 32 - 1.

(** ** File ids *)

Definition FILE_ID_VIRTUAL_BIT : N := 2147483648.

Definition file_id_local (f : N) : N := N.ldiff (u32 f) FILE_ID_VIRTUAL_BIT.
Definition file_id_make_physical (local : N) : N := N.ldiff (u32 local) FILE_ID_VIRTUAL_BIT.
Definition file_id_make_virtual (local : N) : N := N.lor (u32 local) FILE_ID_VIRTUAL_BIT.
Definition file_id_is_virtual (f : N) : bool := negb (N.land f FILE_ID_VIRTUAL_BIT =? 0).
Definition file_id_valid (f : N) : bool := negb (f =? 0).

(** ** Packed spans *)

Definition TINYSPAN_FILE_MASK : N := 65535.
Definition TINYSPAN_OFFSET_MASK : N := 16777215.

Definition span_file (s : N) : N := N.land s TINYSPAN_FILE_MASK.
Definition span_start (s : N) : N := N.land (N.shiftr s 16) TINYSPAN_OFFSET_MASK.
Definition span_length (s : N) : N := N.land (N.shiftr s 40) TINYSPAN_OFFSET_MASK.
Definition span_end (s : N) : N := u32 (span_start s + span_length s).

Definition span_make (file start length : N) : outcome N :=
  let! _ := oassert (start <=? TINYSPAN_OFFSET_MASK) "span start  > 24 bits" in
  let! _ := oassert (length <=? TINYSPAN_OFFSET_MASK) "span length > 24 bits" in
  Ret (N.lor (N.lor (N.land file TINYSPAN_FILE_MASK)
                    (N.shiftl (N.land start TINYSPAN_OFFSET_MASK) 16))
             (N.shiftl (N.land length TINYSPAN_OFFSET_MASK) 40)).

(** ** The line index *)

Definition byte_nth (src : list byte) (i : N) : byte := nth (N.to_nat i) src x00.

Definition is_break (c : byte) : bool := Byte.eqb c x0a || Byte.eqb c x0d.

(** One pass of [for (i = 0; i < len; i++)], which both scans share: [at_break] runs
    on the offset just past each line break. *)
Fixpoint break_pass {A} (fuel : nat) (src : list byte) (len : N) (at_break : N -> A -> outcome A)
    (i : N) (st : A) : outcome A :=
  match fuel with
  | O => OutOfFuel
  | S f =>
      if negb (i <? len) then Ret st
      else
        let c := byte_nth src i in
        if is_break c then
          let i := if Byte.eqb c x0d && (i + 1 <? len) && Byte.eqb (byte_nth src (i + 1)) x0a
                   then i + 1 else i in
          let! st := at_break (i + 1) st in
          break_pass f src len at_break (i + 1) st
        else break_pass f src len at_break (i + 1) st
  end.

(** [arr[w++] = x], in the array allocated for exactly [lines] entries. *)
Definition arr_push (x : N) (aw : list N * N) : outcome (list N * N) :=
  let '(arr, w) := aw in
  let! _ := oassert (w <? N.of_nat (length arr)) "line index: write past the array" in
  Ret (<[N.to_nat w := x]> arr, w + 1).

Definition line_index (src : list byte) : outcome (list N) :=
  let len := N.of_nat (length src) in
  let fuel := S (length src) in
  let! lines := break_pass fuel src len (fun _ lines => Ret (u32 (lines + 1))) 0 1 in
  let! aw := arr_push 0 (replicate (N.to_nat lines) 0, 0) in
  let! (arr, _) := break_pass fuel src len arr_push 0 aw in
  Ret arr.

(** ** The columns of the database *)

Record PosDb := mkPosDb {
  file_source : list N;                 (* files.source_id *)
  file_lines : list (option (list N));  (* files.line_starts; None before the query ran *)
  file_roots : list (option Green);     (* files.green_roots *)
  source_paths : list N;                (* sources.paths *)
  source_texts : list (option (list byte));
  source_lens : list N;                 (* sources.text_lens *)
  source_evicted : list N;
  strings : StringPool.StringPool
}.

Definition col_get {A} (l : list A) (i : N) : option A := nth_error l (N.to_nat i).
Definition col_has {A} (l : list A) (i : N) : bool := i <? N.of_nat (length l).

Definition db_get_source_evicted (s : PosDb) (src : N) : bool :=
  if (src =? 0) || negb (col_has (source_evicted s) src) then false
  else match col_get (source_evicted s) src with Some e => negb (e =? 0) | None => false end.

Record ResolvedSpan := mkResolved {
  path : list byte;
  line : N;
  col_start : N;
  col_end : N;
  line_text : list byte;
  line_text_len : N
}.

(** ** From a span to a line *)

(** The binary search for the first line that starts after [b]. *)
Fixpoint line_search (fuel : nat) (starts : list N) (b lo hi : N) : outcome N :=
  match fuel with
  | O => OutOfFuel
  | S f =>
      if negb (lo <? hi) then Ret lo
      else
        let mid := lo + (hi - lo) / 2 in
        if nth (N.to_nat mid) starts 0 <=? b then line_search f starts b (mid + 1) hi
        else line_search f starts b lo mid
  end.

(** The end of the line without its line break. *)
Fixpoint trim_breaks (fuel : nat) (text : list byte) (start stop : N) : outcome N :=
  match fuel with
  | O => OutOfFuel
  | S f =>
      if (start <? stop) && is_break (byte_nth text (stop - 1))
      then trim_breaks f text start (stop - 1) else Ret stop
  end.

Definition unknown_span : ResolvedSpan := mkResolved (bs "<unknown>") 0 0 0 [] 0.

Definition resolve_line (text : list byte) (text_len : N) (starts : list N) (out_path : list byte)
    (byte_start byte_end : N) : outcome (bool * ResolvedSpan) :=
  let n := N.of_nat (length starts) in
  let! lo := line_search (S (length starts)) starts byte_start 0 n in
  let line_idx := if lo =? 0 then 0 else lo - 1 in
  let line_start_byte := nth (N.to_nat line_idx) starts 0 in
  let out_col_start := u32 (u32_sub byte_start line_start_byte + 1) in
  let line_end_byte := if line_idx + 1 <? n then nth (N.to_nat (line_idx + 1)) starts 0
                       else text_len in
  let! line_end_byte := trim_breaks (S (N.to_nat line_end_byte)) text line_start_byte line_end_byte in
  let len := u32_sub line_end_byte line_start_byte in
  let end_clamped := if line_end_byte <? byte_end then line_end_byte else byte_end in
  let out_col_end := if line_start_byte <? end_clamped
                     then u32 (u32_sub end_clamped line_start_byte + 1)
                     else u32 (out_col_start + 1) in
  let out_col_end := if out_col_end <=? out_col_start then u32 (out_col_start + 1)
                     else out_col_end in
  Ret (true, mkResolved out_path (u32 (u32 line_idx + 1)) out_col_start out_col_end
               (sub_bytes text line_start_byte len) len).

Definition db_resolve_span (s : PosDb) (span : N) : outcome (bool * ResolvedSpan) :=
  let file_id_raw := span_file span in
  if file_id_raw =? 0 then Ret (false, unknown_span)
  else
    let local := file_id_local (file_id_make_physical file_id_raw) in
    if (local =? 0) || negb (col_has (file_source s) local) then Ret (false, unknown_span)
    else
      let sid := nth (N.to_nat local) (file_source s) 0 in
      if (sid =? 0) || negb (col_has (source_paths s) sid) then Ret (false, unknown_span)
      else if db_get_source_evicted s sid then Ret (false, unknown_span)
      else
        let p := StringPool.pool_get (strings s) (nth (N.to_nat sid) (source_paths s) 0) in
        let out_path := match p with [] => bs "<unknown>" | _ => p end in
        let failed := Ret (false, mkResolved out_path 0 0 0 [] 0) in
        match nth (N.to_nat sid) (source_texts s) None with
        | None => failed
        | Some text =>
            let text_len := nth (N.to_nat sid) (source_lens s) 0 in
            match nth (N.to_nat local) (file_lines s) None with
            | None | Some [] => failed
            | Some starts =>
                if text_len <? span_start span then failed
                else resolve_line text text_len starts out_path (span_start span) (span_end span)
            end
        end.

(** ** From a line and a column to an offset *)

Definition db_byte_offset_at (s : PosDb) (fid line0 char0 : N) : N :=
  if negb (file_id_valid fid) then UINT32_MAX
  else
    let local := file_id_local fid in
    if negb (col_has (file_source s) local) then UINT32_MAX
    else
      let sid := nth (N.to_nat local) (file_source s) 0 in
      if db_get_source_evicted s sid then UINT32_MAX
      else
        match nth (N.to_nat local) (file_lines s) None with
        | None => UINT32_MAX
        | Some starts =>
            let n := N.of_nat (length starts) in
            if negb (line0 <? n) then UINT32_MAX
            else
              let line_start := nth (N.to_nat line0) starts 0 in
              let line_end := if u32 (line0 + 1) <? n then nth (N.to_nat (u32 (line0 + 1))) starts 0
                              else u32 (line_start + char0 + 1) in
              let line_end :=
                if col_has (source_lens s) sid then
                  let text_len := nth (N.to_nat sid) (source_lens s) 0 in
                  if text_len <? line_end then text_len else line_end
                else line_end in
              let off := u32 (line_start + char0) in
              if line_end <? off then line_end else off
        end.

(** ** From an offset to a node *)

(** The loop over the children of the node at [start]: the first node child whose
    range has the offset, and where it starts. *)
Fixpoint child_at (start off : N) (cs : list (N * Green)) : option (N * Green) :=
  match cs with
  | [] => None
  | (rel, g) :: cs =>
      if negb (green_is_node g) then child_at start off cs
      else
        let child_start := u32 (start + rel) in
        let child_end := u32 (child_start + green_text_len g) in
        if (child_start <=? off) && (off <? child_end) then Some (child_start, g)
        else child_at start off cs
  end.

(** The descent from a node: the innermost node, and where it starts. *)
Fixpoint descend (fuel : nat) (start off : N) (g : Green) : outcome (N * Green) :=
  match fuel with
  | O => OutOfFuel
  | S f =>
      match child_at start off (green_children g) with
      | None => Ret (start, g)
      | Some (child_start, c) => descend f child_start off c
      end
  end.

(** The height of a tree bounds the descent. *)
Fixpoint height (g : Green) : nat :=
  match g with
  | GreenToken _ _ => 1
  | GreenNode _ _ cs => S (fold_right (fun c n => Nat.max (height c.2) n) 0%nat cs)
  end.

Definition db_node_at_offset (s : PosDb) (fid off : N) : outcome (option (N * Green)) :=
  if negb (file_id_valid fid) then Ret None
  else
    let local := file_id_local fid in
    if negb (col_has (file_roots s) local) then Ret None
    else if col_has (file_source s) local &&
            db_get_source_evicted s (nth (N.to_nat local) (file_source s) 0) then Ret None
    else
      match nth (N.to_nat local) (file_roots s) None with
      | None => Ret None
      | Some root =>
          if (off <? 0) || (u32 (0 + green_text_len root) <=? off) then Ret None
          else let! r := descend (height root) 0 off root in Ret (Some r)
      end.

End Position.
