(* ===== verification/PositionTheorems.v ===== *)
(** * Lines, columns and offsets: what they guarantee

    The line index lists exactly the line starts; a span resolves to the line that has
    its first byte, whose text holds no line break; the offset of the resolved line and
    column is the span's first byte again; and the node at an offset is the innermost
    one. *)

From Stdlib Require Import Sorting.Sorted.
From S2P Require Import Prelude StringPool Green Position SyntaxKind GreenFacts.

(** ** Lines and columns: the loops

    The line scan against a structural definition of the line starts, the binary
    search and the trimming loop, each total and with what it returns, and that a line
    contains no line break. *)

Module PositionFacts.

Import Position.

#[local] Open Scope N_scope.

(** ** The line starts *)

(** The offsets just past the line breaks of [src], the first byte being at [i]: LF ends
    a line, and so does CR unless LF follows. *)
Fixpoint breaks_from (i : N) (src : list byte) : list N :=
  match src with
  | [] => []
  | c :: rest =>
      if Byte.eqb c x0a || (Byte.eqb c x0d && negb (Byte.eqb (nth 0 rest x00) x0a))
      then (i + 1) :: breaks_from (i + 1) rest
      else breaks_from (i + 1) rest
  end.

Fixpoint ofold {A} (f : N -> A -> outcome A) (l : list N) (st : A) : outcome A :=
  match l with
  | [] => Ret st
  | x :: l => let! st := f x st in ofold f l st
  end.

Lemma drop_nth (src : list byte) i : i < N.of_nat (length src) ->
  drop (N.to_nat i) src = byte_nth src i :: drop (N.to_nat (i + 1)) src.
Proof.
  intros H. destruct (lookup_lt_is_Some_2 src (N.to_nat i)) as [b Hb]; [lia|].
  rewrite (drop_S _ _ _ Hb). unfold byte_nth. rewrite nth_lookup, Hb.
  by replace (N.to_nat (i + 1)) with (S (N.to_nat i)) by lia.
Qed.

Lemma nth_0_drop (src : list byte) i : nth 0 (drop (N.to_nat i) src) x00 = byte_nth src i.
Proof. unfold byte_nth. rewrite !nth_lookup, lookup_drop. by rewrite Nat.add_0_r. Qed.

(** Both passes visit exactly the line starts, in order. *)
Lemma break_pass_fold {A} src (f : N -> A -> outcome A) fuel i st :
  i <= N.of_nat (length src) -> (length src - N.to_nat i < fuel)%nat ->
  break_pass fuel src (N.of_nat (length src)) f i st =
    ofold f (breaks_from i (drop (N.to_nat i) src)) st.
Proof.
  revert i st. induction fuel as [|fuel IH]; intros i st Hi Hf; [lia|]. cbn [break_pass].
  destruct (N.ltb_spec i (N.of_nat (length src))) as [Hlt|Hge]; cbn [negb].
  2: { rewrite drop_ge by lia. done. }
  rewrite (drop_nth src i Hlt). cbn [breaks_from]. rewrite nth_0_drop.
  unfold is_break. destruct (Byte.eqb (byte_nth src i) x0a) eqn:Ea.
  { apply byte_eqb_eq in Ea. rewrite Ea. cbn [orb]. change (Byte.eqb x0a x0d) with false.
    cbn [andb ofold]. destruct (f (i + 1) st); cbn [obind]; try done. apply IH; lia. }
  cbn [orb]. destruct (Byte.eqb (byte_nth src i) x0d) eqn:Ed; cbn [andb]; [|apply IH; lia].
  destruct (N.ltb_spec (i + 1) (N.of_nat (length src))) as [Hl|Hl]; cbn [andb].
  - destruct (Byte.eqb (byte_nth src (i + 1)) x0a) eqn:En; cbn [negb].
    + rewrite (drop_nth src (i + 1) Hl). cbn [breaks_from]. rewrite En. cbn [orb ofold].
      destruct (f (i + 1 + 1) st); cbn [obind]; try done. apply IH; lia.
    + cbn [ofold]. destruct (f (i + 1) st); cbn [obind]; try done. apply IH; lia.
  - assert (byte_nth src (i + 1) = x00) as ->.
    { unfold byte_nth. apply nth_overflow. lia. }
    cbn [negb Byte.eqb]. change (Byte.eqb x00 x0a) with false. cbn [negb ofold].
    destruct (f (i + 1) st); cbn [obind]; try done. apply IH; lia.
Qed.

Lemma ofold_count l n : n + N.of_nat (length l) < 2 ^ 32 ->
  ofold (fun _ lines => Ret (u32 (lines + 1))) l n = Ret (n + N.of_nat (length l)).
Proof.
  revert n. induction l as [|x l IH]; intros n H; cbn [ofold obind length] in *; [f_equal; lia|].
  rewrite u32_small by lia. rewrite IH by lia. f_equal. lia.
Qed.

Lemma ofold_push l pre rest : length l = length rest ->
  ofold arr_push l (pre ++ rest, N.of_nat (length pre)) =
    Ret (pre ++ l, N.of_nat (length pre + length l)).
Proof.
  revert pre rest. induction l as [|x l IH]; intros pre [|r rest] H; try discriminate H.
  - cbn [ofold length]. by rewrite Nat.add_0_r.
  - cbn [ofold]. unfold arr_push at 1.
    rewrite (proj2 (N.ltb_lt _ _)) by (rewrite length_app; simpl; lia). cbn [oassert obind].
    rewrite Nat2N.id, insert_app_r_alt, Nat.sub_diag by lia. cbn [insert list_insert].
    replace (pre ++ x :: rest) with ((pre ++ [x]) ++ rest) by by rewrite <- app_assoc.
    replace (N.of_nat (length pre) + 1) with (N.of_nat (length (pre ++ [x])))
      by (rewrite length_app; simpl; lia).
    rewrite IH by (simpl in H; lia). rewrite <- app_assoc, length_app. simpl.
    do 2 f_equal. lia.
Qed.

Lemma breaks_length i src : (length (breaks_from i src) <= length src)%nat.
Proof.
  revert i. induction src as [|c src IH]; intros i; simpl; [lia|].
  destruct (_ || _); simpl; specialize (IH (i + 1)); lia.
Qed.

(** The two passes agree: the array is exactly filled. *)
Lemma line_index_ok src : N.of_nat (length src) + 1 < 2 ^ 32 ->
  line_index src = Ret (0 :: breaks_from 0 src).
Proof.
  intros Hs. unfold line_index. pose proof (breaks_length 0 src) as Hl.
  rewrite break_pass_fold by lia. change (drop (N.to_nat 0) src) with src.
  rewrite ofold_count by lia. cbn [obind].
  replace (N.to_nat (1 + N.of_nat (length (breaks_from 0 src)))) with (S (length (breaks_from 0 src))) by lia.
  unfold arr_push at 1. cbn [replicate length].
  rewrite (proj2 (N.ltb_lt _ _)) by lia. cbn [oassert obind]. change (N.to_nat 0) with 0%nat.
  cbn [insert list_insert]. rewrite break_pass_fold by lia. change (drop (N.to_nat 0) src) with src.
  pose proof (ofold_push (breaks_from 0 src) [0] (replicate (length (breaks_from 0 src)) 0)) as Hp.
  rewrite length_replicate in Hp. specialize (Hp eq_refl). simpl in Hp.
  change (0 + 1) with (N.of_nat 1). by rewrite Hp.
Qed.

(** Offset [p] is just past a line break of [src]. *)
Definition ends_line (src : list byte) (p : N) : Prop :=
  0 < p <= N.of_nat (length src) /\
  (byte_nth src (p - 1) = x0a \/ (byte_nth src (p - 1) = x0d /\ byte_nth src p <> x0a)).

Lemma breaks_in i src p : In p (breaks_from i src) <-> i <= p - 1 /\ 0 < p /\ ends_line src (p - i).
Proof.
  revert i. induction src as [|c src IH]; intros i.
  - split; [done|]. intros (_ & _ & (H & _)). simpl in H. lia.
  - assert (Hs : p <> i + 1 -> ends_line src (p - (i + 1)) <-> ends_line (c :: src) (p - i) /\ i + 1 < p).
    { intros Hne. unfold ends_line, byte_nth. cbn [length].
      split.
      - intros (Hp & Hb). replace (N.to_nat (p - i - 1)) with (S (N.to_nat (p - (i + 1) - 1))) by lia.
        replace (N.to_nat (p - i)) with (S (N.to_nat (p - (i + 1)))) by lia. simpl. split; [|lia].
        split; [lia|done].
      - intros ((Hp & Hb) & Hlt). replace (N.to_nat (p - i - 1)) with (S (N.to_nat (p - (i + 1) - 1))) in Hb by lia.
        replace (N.to_nat (p - i)) with (S (N.to_nat (p - (i + 1)))) in Hb by lia. simpl in Hb.
        split; [lia|done]. }
    assert (H1 : ends_line (c :: src) 1 <->
      (Byte.eqb c x0a || (Byte.eqb c x0d && negb (Byte.eqb (nth 0 src x00) x0a))) = true).
    { unfold ends_line, byte_nth. simpl.
      rewrite orb_true_iff, andb_true_iff, negb_true_iff, !byte_eqb_eq, byte_eqb_neq.
      split; [by intros [_ ?]|]. intros H. split; [lia|done]. }
    cbn [breaks_from]. destruct (_ || _) eqn:Hc.
    + cbn [In]. rewrite IH. destruct (N.eq_dec p (i + 1)) as [->|Hne].
      * split; [|by left]. intros _. replace (i + 1 - i) with 1 by lia. split; [lia|]. split; [lia|].
        by apply H1.
      * rewrite (Hs Hne). split; [intros [Hx|(? & ? & ? & ?)]; [lia|split; [lia|by split; [lia|]]]|].
        intros (? & ? & Hp). right. split; [lia|]. split; [lia|]. split; [done|lia].
    + rewrite IH. destruct (N.eq_dec p (i + 1)) as [->|Hne].
      * split; [intros (? & _); lia|]. intros (_ & _ & Hp). replace (i + 1 - i) with 1 in Hp by lia.
        apply H1 in Hp. congruence.
      * rewrite (Hs Hne). split; [intros (? & ? & ? & ?); split; [lia|by split; [lia|]]|].
        intros (? & ? & Hp). split; [lia|]. split; [lia|]. split; [done|lia].
Qed.

Lemma breaks_sorted i src : StronglySorted N.lt (breaks_from i src).
Proof.
  revert i. induction src as [|c src IH]; intros i; simpl; [constructor|].
  destruct (_ || _); [|apply IH]. constructor; [apply IH|]. apply List.Forall_forall.
  intros p (Hp & Hq & _)%breaks_in. lia.
Qed.

Definition starts_of (src : list byte) : list N := 0 :: breaks_from 0 src.

Lemma starts_sorted src : StronglySorted N.lt (starts_of src).
Proof.
  constructor; [apply breaks_sorted|]. apply List.Forall_forall.
  intros p (Hp & Hq & _)%breaks_in. lia.
Qed.

Lemma starts_in src p : In p (starts_of src) <-> p = 0 \/ ends_line src p.
Proof.
  unfold starts_of. simpl. rewrite breaks_in, N.sub_0_r. split.
  - intros [<-|(_ & _ & H)]; [by left|by right].
  - intros [->|H]; [by left|right]. destruct H as [H ?]. split; [lia|]. split; [lia|done].
Qed.

Lemma sorted_nth l i j : StronglySorted N.lt l -> (i < j)%nat -> (j < length l)%nat ->
  nth i l 0 < nth j l 0.
Proof.
  intros Hs. revert i j. induction Hs as [|x l Hs IH Hx]; intros i j Hij Hj; [simpl in Hj; lia|].
  destruct j as [|j]; [lia|]. simpl in Hj. destruct i as [|i]; simpl.
  - apply (proj1 (List.Forall_forall _ _) Hx). apply nth_In. lia.
  - apply IH; lia.
Qed.

(** ** The binary search *)

Lemma line_search_ok starts b f lo hi :
  StronglySorted N.lt starts -> lo <= hi -> hi <= N.of_nat (length starts) ->
  (N.to_nat (hi - lo) < f)%nat ->
  (forall k, k < lo -> nth (N.to_nat k) starts 0 <= b) ->
  (forall k, hi <= k -> k < N.of_nat (length starts) -> b < nth (N.to_nat k) starts 0) ->
  exists r, line_search f starts b lo hi = Ret r /\ r <= N.of_nat (length starts) /\
    (forall k, k < r -> nth (N.to_nat k) starts 0 <= b) /\
    (forall k, r <= k -> k < N.of_nat (length starts) -> b < nth (N.to_nat k) starts 0).
Proof.
  intros Hs. revert lo hi. induction f as [|f IH]; intros lo hi Hle Hn Hf Hlo Hhi; [lia|].
  cbn [line_search]. destruct (N.ltb_spec lo hi) as [Hlt|Hge]; cbn [negb].
  2: { exists lo. split; [done|]. split; [lia|]. split; [done|]. intros k Hk. apply Hhi. lia. }
  set (mid := lo + (hi - lo) / 2).
  assert (Hmid : lo <= mid < hi).
  { unfold mid. clear - Hlt. zify. Z.to_euclidean_division_equations. lia. }
  destruct (N.leb_spec (nth (N.to_nat mid) starts 0) b) as [Hb|Hb].
  - apply IH; try lia; [|done]. intros k Hk. destruct (N.eq_dec k mid) as [->|]; [done|].
    pose proof (sorted_nth starts (N.to_nat k) (N.to_nat mid) Hs). lia.
  - apply IH; try lia; [done|]. intros k Hk Hkn. destruct (N.eq_dec k mid) as [->|]; [done|].
    pose proof (sorted_nth starts (N.to_nat mid) (N.to_nat k) Hs). lia.
Qed.

(** ** Trimming *)

Lemma trim_breaks_ok text a f z : (N.to_nat (z - a) < f)%nat -> a <= z ->
  exists r, trim_breaks f text a z = Ret r /\ a <= r <= z /\
    (forall i, r <= i < z -> is_break (byte_nth text i) = true) /\
    (a < r -> is_break (byte_nth text (r - 1)) = false).
Proof.
  revert z. induction f as [|f IH]; intros z Hf Hz; [lia|]. cbn [trim_breaks].
  destruct (N.ltb_spec a z) as [Hlt|Hge]; cbn [andb].
  - destruct (is_break (byte_nth text (z - 1))) eqn:Hb.
    + destruct (IH (z - 1)) as (r & E & Hr & Hi & Hl); [lia|lia|]. exists r. split; [done|].
      split; [lia|]. split; [|done]. intros i Hi'. destruct (N.eq_dec i (z - 1)) as [->|]; [done|].
      apply Hi. lia.
    + exists z. split; [done|]. split; [lia|]. split; [lia|done].
  - exists z. split; [done|]. split; [lia|]. split; lia.
Qed.

Lemma byte_nth_in text i : byte_nth text i <> x00 -> i < N.of_nat (length text).
Proof.
  intros H. apply N.lt_nge. intros Hge. apply H. unfold byte_nth. apply nth_overflow. lia.
Qed.

(** A line, trimmed, has no line break: [z] is where the next line starts, or the end of
    the text. *)
Lemma line_no_break text a z r :
  z <= N.of_nat (length text) ->
  (forall p, In p (starts_of text) -> a < p -> z <= p) ->
  a <= r <= z -> (forall i, r <= i < z -> is_break (byte_nth text i) = true) ->
  (a < r -> is_break (byte_nth text (r - 1)) = false) ->
  forall i, a <= i < r -> is_break (byte_nth text i) = false.
Proof.
  intros Hz Hnext Hr Htrim Hlast i Hi.
  destruct (is_break (byte_nth text i)) eqn:Hb; [exfalso|done].
  assert (Hstart : forall p, i < p -> p <= N.of_nat (length text) -> ends_line text p -> z <= p).
  { intros p Hp Hl He. apply Hnext; [apply starts_in; by right|lia]. }
  assert (Hne : i <> r - 1) by (intros ->; rewrite Hlast in Hb by lia; done).
  assert (Hcr : byte_nth text i = x0d /\ byte_nth text (i + 1) = x0a).
  { unfold is_break in Hb. apply orb_true_iff in Hb as [Hb|Hb]; apply byte_eqb_eq in Hb.
    - exfalso. assert (z <= i + 1); [|lia]. apply Hstart; [lia|lia|]. split; [lia|left].
      by replace (i + 1 - 1) with i by lia.
    - split; [done|]. destruct (byte_eq_dec (byte_nth text (i + 1)) x0a) as [|Hn]; [done|].
      exfalso. assert (z <= i + 1); [|lia]. apply Hstart; [lia|lia|]. split; [lia|right].
      by replace (i + 1 - 1) with i by lia. }
  destruct Hcr as [_ Hlf].
  assert (i + 1 < N.of_nat (length text)) by (apply byte_nth_in; by rewrite Hlf).
  assert (z <= i + 2).
  { apply Hstart; [lia|lia|]. split; [lia|left]. by replace (i + 2 - 1) with (i + 1) by lia. }
  assert (r = i + 2) as -> by lia. replace (i + 2 - 1) with (i + 1) in Hlast by lia.
  rewrite Hlf in Hlast. specialize (Hlast ltac:(lia)). discriminate Hlast.
Qed.

End PositionFacts.

Import SyntaxKind Green GreenFacts.

Module PositionTheorems.

Import Position PositionFacts.

#[local] Open Scope N_scope.

(** ** Packed words *)

Lemma lor_shift a b k : a < 2 ^ k -> N.lor a (N.shiftl b k) = a + b * 2 ^ k.
Proof.
  intros Ha. assert (Hz : N.land a (N.shiftl b k) = 0).
  { apply N.bits_inj. intros n. rewrite N.land_spec, N.bits_0.
    destruct (N.lt_ge_cases n k) as [Hn|Hn].
    - by rewrite N.shiftl_spec_low, andb_false_r.
    - rewrite <- (N.mod_small a (2 ^ k)) by done. by rewrite N.mod_pow2_bits_high. }
  rewrite <- N.shiftl_mul_pow2, N.add_nocarry_lxor by done. symmetry. by apply N.lxor_lor.
Qed.

Lemma file_mask x : N.land x TINYSPAN_FILE_MASK = x mod 2 ^ 16.
Proof. change TINYSPAN_FILE_MASK with (N.ones 16). apply N.land_ones. Qed.

Lemma offset_mask x : N.land x TINYSPAN_OFFSET_MASK = x mod 2 ^ 24.
Proof. change TINYSPAN_OFFSET_MASK with (N.ones 24). apply N.land_ones. Qed.

(** [span_make] packs the three fields, and the accessors read them back. *)
Lemma span_make_fields file b n : file < 2 ^ 16 -> b < 2 ^ 24 -> n < 2 ^ 24 ->
  exists s, span_make file b n = Ret s /\
    span_file s = file /\ span_start s = b /\ span_length s = n /\ span_end s = b + n.
Proof.
  intros Hf Hb Hn. unfold span_make. rewrite !(proj2 (N.leb_le _ _)) by (unfold TINYSPAN_OFFSET_MASK; lia).
  cbn [oassert obind]. eexists. split; [reflexivity|].
  rewrite file_mask, !offset_mask, !N.mod_small by done.
  rewrite (lor_shift file b 16) by done. rewrite lor_shift by lia.
  assert (H1 : span_start (file + b * 2 ^ 16 + n * 2 ^ 40) = b).
  { unfold span_start. rewrite offset_mask, N.shiftr_div_pow2.
    change (2 ^ 16) with 65536 in *. change (2 ^ 40) with 1099511627776 in *.
    change (2 ^ 24) with 16777216 in *. zify. Z.to_euclidean_division_equations. lia. }
  assert (H2 : span_length (file + b * 2 ^ 16 + n * 2 ^ 40) = n).
  { unfold span_length. rewrite offset_mask, N.shiftr_div_pow2.
    change (2 ^ 16) with 65536 in *. change (2 ^ 40) with 1099511627776 in *.
    change (2 ^ 24) with 16777216 in *. zify. Z.to_euclidean_division_equations. lia. }
  split; [|split; [done|split; [done|]]].
  - unfold span_file. rewrite file_mask. change (2 ^ 16) with 65536 in *.
    change (2 ^ 40) with 1099511627776 in *. zify. Z.to_euclidean_division_equations. lia.
  - unfold span_end. rewrite H1, H2. apply u32_small. lia.
Qed.

Lemma ldiff_virtual a : a < 2 ^ 31 -> N.ldiff (u32 a) FILE_ID_VIRTUAL_BIT = a.
Proof.
  intros Ha. rewrite u32_small by lia. apply N.bits_inj. intros n. rewrite N.ldiff_spec.
  change FILE_ID_VIRTUAL_BIT with (2 ^ 31). rewrite N.pow2_bits_eqb.
  destruct (N.eqb_spec 31 n) as [<-|]; [|by rewrite andb_true_r].
  rewrite <- (N.mod_small a (2 ^ 31)) by done. by rewrite N.mod_pow2_bits_high.
Qed.

(** ** A line of a text *)

(** The line [l] of [text] (from 0) starts at [a] and ends before [z]. *)
Definition line_bounds (text : list byte) (l a z : N) : Prop :=
  a = nth (N.to_nat l) (starts_of text) 0 /\ l < N.of_nat (length (starts_of text)) /\
  z = (if l + 1 <? N.of_nat (length (starts_of text))
       then nth (N.to_nat (l + 1)) (starts_of text) 0 else N.of_nat (length text)).

Lemma start_le text k : k < N.of_nat (length (starts_of text)) ->
  nth (N.to_nat k) (starts_of text) 0 <= N.of_nat (length text).
Proof.
  intros Hk. assert (Hin : In (nth (N.to_nat k) (starts_of text) 0) (starts_of text)).
  { apply nth_In. lia. }
  apply starts_in in Hin as [->|[H _]]; lia.
Qed.

Lemma line_bounds_le text l a z : line_bounds text l a z -> a <= z <= N.of_nat (length text).
Proof.
  intros (-> & Hl & ->). destruct (N.ltb_spec (l + 1) (N.of_nat (length (starts_of text)))) as [H|H].
  - pose proof (sorted_nth _ (N.to_nat l) (N.to_nat (l + 1)) (starts_sorted text)).
    pose proof (start_le text (l + 1) H). lia.
  - pose proof (start_le text l Hl). lia.
Qed.

Lemma line_bounds_next text l a z : line_bounds text l a z ->
  forall p, In p (starts_of text) -> a < p -> z <= p.
Proof.
  intros (-> & Hl & ->) p Hin Hp. apply (In_nth _ _ 0) in Hin as (k & Hk & <-).
  assert (N.to_nat l < k)%nat.
  { apply Nat.nle_gt. intros Hle. apply Nat.lt_eq_cases in Hle as [Hlt|Heq].
    - pose proof (sorted_nth _ k (N.to_nat l) (starts_sorted text)). lia.
    - subst k. lia. }
  rewrite (proj2 (N.ltb_lt _ _)) by lia.
  destruct (Nat.eq_dec k (N.to_nat (l + 1))) as [->|]; [lia|].
  pose proof (sorted_nth _ (N.to_nat (l + 1)) k (starts_sorted text)). lia.
Qed.

(** What a resolved span says of offset [b]. *)
Record resolves (text : list byte) (b : N) (r : ResolvedSpan) (a z : N) : Prop := {
  rs_line : line r <> 0;
  rs_bounds : line_bounds text (line r - 1) a z;
  rs_has : a <= b /\ (b < z \/ (b = z /\ z = N.of_nat (length text)));
  rs_col : col_start r = b - a + 1;
  rs_cols : col_start r < col_end r;
  rs_clamped : col_end r <= N.max (col_start r) (line_text_len r) + 1;
  rs_text : line_text r = sub_bytes text a (line_text_len r);
  rs_len : a + line_text_len r <= z;
  rs_no_break : forall c, In c (line_text r) -> is_break c = false;
  rs_trimmed : forall i, a + line_text_len r <= i < z -> is_break (byte_nth text i) = true
}.

Lemma sub_bytes_in src a n c : In c (sub_bytes src a n) ->
  exists i, a <= i < a + n /\ byte_nth src i = c.
Proof.
  intros (k & Hk & <-)%(In_nth _ _ x00). exists (a + N.of_nat k).
  unfold sub_bytes in *. rewrite length_take, length_drop in Hk. split; [lia|].
  unfold byte_nth. rewrite !nth_lookup, lookup_take_lt, lookup_drop by lia.
  by replace (N.to_nat (a + N.of_nat k)) with (N.to_nat a + k)%nat by lia.
Qed.

Lemma resolve_line_ok text p b e :
  N.of_nat (length text) + 1 < 2 ^ 31 -> b <= N.of_nat (length text) -> e < 2 ^ 31 ->
  exists r a z, resolve_line text (N.of_nat (length text)) (starts_of text) p b e = Ret (true, r) /\
    resolves text b r a z.
Proof.
  intros Ht Hb He. unfold resolve_line. set (n := N.of_nat (length (starts_of text))).
  assert (Hn : 1 <= n <= N.of_nat (length text) + 1).
  { unfold n, starts_of. simpl. pose proof (breaks_length 0 text). lia. }
  destruct (line_search_ok (starts_of text) b (S (length (starts_of text))) 0 n) as
    (lo & -> & Hlo & Hbelow & Habove); try lia; [apply starts_sorted|]. cbn [obind].
  assert (Hlo1 : 1 <= lo).
  { destruct (N.eq_dec lo 0) as [->|]; [|lia]. specialize (Habove 0 ltac:(lia) ltac:(lia)).
    simpl in Habove. lia. }
  rewrite (proj2 (N.eqb_neq lo 0)) by lia. fold n.
  set (l := lo - 1) in *. set (a := nth (N.to_nat l) (starts_of text) 0).
  set (z := if l + 1 <? n then nth (N.to_nat (l + 1)) (starts_of text) 0
            else N.of_nat (length text)).
  assert (HB : line_bounds text l a z) by (split; [done|]; split; [fold n; lia|done]).
  pose proof (line_bounds_le text l a z HB) as Hle.
  assert (Hab : a <= b) by (apply Hbelow; lia).
  assert (Hbz : b < z \/ (b = z /\ z = N.of_nat (length text))).
  { unfold z. destruct (N.ltb_spec (l + 1) n); [|lia]. left. apply Habove; lia. }
  destruct (trim_breaks_ok text a (S (N.to_nat z)) z) as (t & -> & Hta & Htrim & Hlast); [lia..|].
  cbn [obind]. rewrite (u32_sub_small b a), (u32_sub_small t a) by lia.
  rewrite (u32_small l) by lia.
  rewrite (u32_small (l + 1)), (u32_small (b - a + 1)) by lia.
  assert (Hce : u32 (b - a + 1 + 1) = b - a + 1 + 1) by (apply u32_small; lia). rewrite Hce.
  set (ec := if t <? e then t else e).
  assert (Hec : ec <= t) by (unfold ec; destruct (N.ltb_spec t e); lia).
  set (ce := if a <? ec then u32 (u32_sub ec a + 1) else b - a + 1 + 1).
  assert (Hce' : ce <= N.max (b - a + 1) (t - a) + 1).
  { unfold ce. destruct (N.ltb_spec a ec); [|lia]. rewrite u32_sub_small by lia.
    rewrite u32_small by lia. lia. }
  eexists _, a, z. split; [reflexivity|].
  split; cbn [line col_start col_end line_text line_text_len]; try done; try lia.
  - by replace (l + 1 - 1) with l by lia.
  - destruct (N.leb_spec ce (b - a + 1)); lia.
  - destruct (N.leb_spec ce (b - a + 1)); lia.
  - intros c (i & Hi & <-)%sub_bytes_in.
    apply (line_no_break text a z t); try done; [lia| |lia].
    by apply (line_bounds_next text l a z).
  - intros i Hi. apply Htrim. lia.
Qed.

(** the line index is exact.  On every text whose length and line count fit
    [uint32_t] the two scans agree, so that the array allocated for the counted lines
    is exactly filled, never overrun, and it lists in increasing order offset 0 and
    the offsets just past each LF, CR LF or lone CR, and no other. *)
Theorem line_index_exact (text : list byte) :
  N.of_nat (length text) + 1 < 2 ^ 32 ->
  exists ls, line_index text = Ret ls /\ StronglySorted N.lt ls /\
    forall p, In p ls <-> p = 0 \/ ends_line text p.
Proof.
  intros H. exists (starts_of text). split; [by apply line_index_ok|].
  split; [apply starts_sorted|apply starts_in].
Qed.

(** A line feed, a carriage return and line feed, a lone carriage return. *)
Definition sample_text : list byte := bs "ab" ++ [x0a] ++ bs "cd" ++ [x0d; x0a] ++ bs "e" ++ [x0d] ++ bs "fg".

Lemma line_index_exact_witness :
  exists ls, line_index sample_text = Ret ls /\ StronglySorted N.lt ls /\ ls = [0; 3; 7; 9].
Proof.
  destruct (line_index_exact sample_text) as (ls & E & S & _); [vm_compute; reflexivity|].
  exists ls. split; [exact E|]. split; [exact S|]. vm_compute in E. injection E as <-. reflexivity.
Defined.

(** ** In the database *)

(** File [fid] has source [sid], present, with text [text] and its line index. *)
Record indexed (s : PosDb) (fid sid : N) (text : list byte) : Prop := {
  ix_fid : 0 < fid < 2 ^ 16;
  ix_file : nth_error (file_source s) (N.to_nat fid) = Some sid;
  ix_sid : 0 < sid < N.of_nat (length (source_paths s));
  ix_present : db_get_source_evicted s sid = false;
  ix_text : nth_error (source_texts s) (N.to_nat sid) = Some (Some text);
  ix_len : nth_error (source_lens s) (N.to_nat sid) = Some (N.of_nat (length text));
  ix_lines : exists ls, nth_error (file_lines s) (N.to_nat fid) = Some (Some ls) /\
               line_index text = Ret ls;
  ix_small : N.of_nat (length text) < 2 ^ 24
}.

Lemma col_has_some {A} (l : list A) i x : nth_error l (N.to_nat i) = Some x -> col_has l i = true.
Proof.
  intros H. apply N.ltb_lt. assert (N.to_nat i < length l)%nat; [|lia].
  apply nth_error_Some. congruence.
Qed.

Lemma indexed_lines s fid sid text : indexed s fid sid text ->
  nth (N.to_nat fid) (file_lines s) None = Some (starts_of text).
Proof.
  intros X. destruct (ix_lines _ _ _ _ X) as (ls & H & E). apply nth_error_nth with (d := None) in H.
  pose proof (ix_small _ _ _ _ X). rewrite line_index_ok in E by lia. injection E as <-. exact H.
Qed.

Lemma resolve_span_ok s fid sid text b n :
  indexed s fid sid text -> b <= N.of_nat (length text) -> n < 2 ^ 24 ->
  exists span r a z, span_make fid b n = Ret span /\ db_resolve_span s span = Ret (true, r) /\
    resolves text b r a z.
Proof.
  intros X Hb Hn. pose proof (ix_fid _ _ _ _ X) as Hfid. pose proof (ix_small _ _ _ _ X) as Hs.
  destruct (span_make_fields fid b n) as (span & E & Ef & Es & _ & Ee); [lia..|].
  exists span. unfold db_resolve_span. rewrite Ef. rewrite (proj2 (N.eqb_neq fid 0)) by lia.
  unfold file_id_local, file_id_make_physical. rewrite !(ldiff_virtual fid) by lia.
  rewrite (proj2 (N.eqb_neq fid 0)) by lia. rewrite (col_has_some _ _ _ (ix_file _ _ _ _ X)).
  cbn [orb negb]. rewrite (nth_error_nth _ _ 0 (ix_file _ _ _ _ X)).
  pose proof (ix_sid _ _ _ _ X) as Hsid. rewrite (proj2 (N.eqb_neq sid 0)) by lia.
  assert (col_has (source_paths s) sid = true) as -> by (apply N.ltb_lt; lia). cbn [orb negb].
  rewrite (ix_present _ _ _ _ X).
  rewrite (nth_error_nth _ _ None (ix_text _ _ _ _ X)), (nth_error_nth _ _ 0 (ix_len _ _ _ _ X)).
  rewrite (indexed_lines s fid sid text X), Es, Ee. rewrite (proj2 (N.ltb_ge _ b)) by done.
  unfold starts_of at 1.
  match goal with |- context [resolve_line _ _ _ ?p _ _] =>
    destruct (resolve_line_ok text p b (b + n)) as (r & a & z & Er & R); [lia..|] end.
  exists r, a, z. rewrite Er. done.
Qed.

(** resolving a span.  For a file whose line index is in the database and an offset
    of its text, the span that [span_make] packs is resolved by [db_resolve_span] to a
    line [line - 1] that starts at or before the offset and ends after it (or the
    offset is the end of the text); the column is the distance from the line's start,
    from 1; the end column is greater and clamped to the line; the line text is the
    line without its line break, and no byte of it is a line break. *)
Theorem resolve_span_line_column (s : PosDb) (fid sid : N) (text : list byte) (b n : N) :
  indexed s fid sid text -> b <= N.of_nat (length text) -> n < 2 ^ 24 ->
  exists span r a z, span_make fid b n = Ret span /\ db_resolve_span s span = Ret (true, r) /\
    resolves text b r a z.
Proof. apply resolve_span_ok. Qed.

(** One file. *)
Definition sample_db : PosDb :=
  mkPosDb [0; 1] [None; Some [0; 3; 7; 9]] [] [0; 0] [None; Some sample_text]
    [0; N.of_nat (length sample_text)] [0; 0] StringPool.fresh_pool.

Lemma sample_db_indexed : indexed sample_db 1 1 sample_text.
Proof.
  split; try (vm_compute; easy). exists [0; 3; 7; 9]. split; vm_compute; reflexivity.
Qed.

Lemma resolve_span_line_column_witness :
  exists span r, span_make 1 5 1 = Ret span /\ db_resolve_span sample_db span = Ret (true, r) /\
    col_start r < col_end r /\ line r = 2 /\ line_text r = bs "cd".
Proof.
  destruct (resolve_span_line_column sample_db 1 1 sample_text 5 1 sample_db_indexed) as
    (span & r & a & z & E & Er & R); [vm_compute; discriminate|vm_compute; reflexivity|].
  exists span, r. split; [exact E|]. split; [exact Er|]. split; [exact (rs_cols _ _ _ _ _ R)|].
  vm_compute in E. injection E as <-. vm_compute in Er. injection Er as <-.
  split; vm_compute; reflexivity.
Defined.

(** C35: offsets, lines and columns round-trip: the line and the column that a span
    resolves to, counted from 0, are sent back by [db_byte_offset_at] to the offset
    where the span starts. *)
Theorem byte_offset_inverts_resolve (s : PosDb) (fid sid : N) (text : list byte)
    (b n span : N) (r : ResolvedSpan) :
  indexed s fid sid text -> b <= N.of_nat (length text) -> n < 2 ^ 24 ->
  span_make fid b n = Ret span -> db_resolve_span s span = Ret (true, r) ->
  db_byte_offset_at s fid (line r - 1) (col_start r - 1) = b.
Proof.
  intros X Hb Hn E Er.
  destruct (resolve_span_ok s fid sid text b n X Hb Hn) as (span' & r' & a & z & E' & Er' & R).
  rewrite E in E'. injection E' as <-. rewrite Er in Er'. injection Er' as <-.
  pose proof (ix_fid _ _ _ _ X) as Hfid. pose proof (ix_small _ _ _ _ X) as Hs.
  destruct R as [_ HB Hhas Hcol _ _ _ _ _ _]. rewrite Hcol.
  pose proof (line_bounds_le _ _ _ _ HB) as Hle. destruct HB as (Ha & Hl & Hz).
  set (l := line r - 1) in *. unfold db_byte_offset_at, file_id_valid, file_id_local.
  rewrite (proj2 (N.eqb_neq fid 0)), (ldiff_virtual fid) by lia.
  rewrite (col_has_some _ _ _ (ix_file _ _ _ _ X)). cbn [negb].
  rewrite (nth_error_nth _ _ 0 (ix_file _ _ _ _ X)), (ix_present _ _ _ _ X).
  rewrite (indexed_lines s fid sid text X). rewrite (proj2 (N.ltb_lt _ _) Hl). cbn [negb].
  rewrite (col_has_some _ _ _ (ix_len _ _ _ _ X)), (nth_error_nth _ _ 0 (ix_len _ _ _ _ X)), <- Ha.
  assert (Hn' : N.of_nat (length (starts_of text)) <= N.of_nat (length text) + 1).
  { unfold starts_of. simpl. pose proof (breaks_length 0 text). lia. }
  rewrite (u32_small (l + 1)) by lia. replace (b - a + 1 - 1) with (b - a) by lia.
  rewrite (u32_small (a + (b - a) + 1)), (u32_small (a + (b - a))) by lia.
  replace (a + (b - a)) with b by lia.
  destruct (N.ltb_spec (l + 1) (N.of_nat (length (starts_of text)))) as [H|H].
  - rewrite <- Hz. rewrite (proj2 (N.ltb_ge _ z)) by lia. by rewrite (proj2 (N.ltb_ge z b)) by lia.
  - destruct (N.ltb_spec (N.of_nat (length text)) (b + 1)).
    + by rewrite (proj2 (N.ltb_ge _ b)) by lia.
    + by rewrite (proj2 (N.ltb_ge (b + 1) b)) by lia.
Qed.

Lemma byte_offset_inverts_resolve_witness :
  exists span r, span_make 1 8 1 = Ret span /\ db_resolve_span sample_db span = Ret (true, r) /\
    db_byte_offset_at sample_db 1 (line r - 1) (col_start r - 1) = 8.
Proof.
  destruct (span_make 1 8 1) as [span| |] eqn:E; [|vm_compute in E; discriminate E..].
  destruct (db_resolve_span sample_db span) as [[[] r]| |] eqn:Er;
    [|vm_compute in E; injection E as <-; vm_compute in Er; discriminate Er..].
  exists span, r. split; [reflexivity|]. split; [exact Er|].
  apply (byte_offset_inverts_resolve sample_db 1 1 sample_text 8 1 span r sample_db_indexed);
    [vm_compute; discriminate|vm_compute; reflexivity|exact E|exact Er].
Defined.

(** ** The node at an offset *)

Definition width (g : Green) : N := N.of_nat (length (green_text g)).

(** A child of a well-formed node is well formed, and its text is at its offset. *)
Lemma child_text g rel c : green_ok g -> width g < 2 ^ 32 -> In (rel, c) (green_children g) ->
  green_ok c /\ rel + width c <= width g /\ green_text_len c = width c /\
  sub_bytes (green_text g) rel (width c) = green_text c.
Proof.
  intros Hok Hw Hin. destruct g as [k n cs|k t]; [|done]. destruct Hok as [E Hc].
  rewrite elems_ok_fold in Hc. unfold elems_ok in Hc. simpl in Hin.
  assert (HF : Forall (fun c => green_text_len c.2 = u32 (N.of_nat (length (green_text c.2)))) cs).
  { eapply List.Forall_impl; [|exact Hc]. intros. by apply green_ok_width. }
  apply In_nth_error in Hin as [i Hi]. change 0 with (u32 0) in E.
  destruct (assign_offsets_width _ _ _ _ HF E) as [_ Ho]. specialize (Ho i rel c Hi).
  rewrite N.add_0_l in Ho.
  destruct (nth_error_split _ _ Hi) as (l1 & l2 & -> & <-).
  unfold width in *. rewrite green_text_node, elem_text_app in *. rewrite take_app_length in Ho.
  unfold elem_text at 2 in Hw. simpl in Hw. fold (elem_text l2) in Hw. rewrite !length_app in Hw.
  assert (Hrel : rel = N.of_nat (length (elem_text l1))) by (rewrite Ho; apply u32_small; lia).
  assert (Hcok : green_ok c).
  { rewrite List.Forall_forall in Hc. apply (Hc (rel, c)), in_app_iff. right. by left. }
  unfold elem_text at 2 4. simpl. fold (elem_text l2). rewrite !length_app.
  split; [done|]. split; [lia|]. split.
  - rewrite (green_ok_width c Hcok). apply u32_small. lia.
  - rewrite Hrel. unfold sub_bytes. rewrite !Nat2N.id, drop_app_length. apply take_app_length.
Qed.

Definition covers (a off : N) (g : Green) : Prop := a <= off < a + width g.

Lemma child_at_ok a off g : green_ok g -> a + width g < 2 ^ 32 ->
  match child_at a off (green_children g) with
  | Some (b, c) => exists rel, In (rel, c) (green_children g) /\ green_is_node c = true /\
                     b = a + rel /\ covers b off c
  | None => forall rel c, In (rel, c) (green_children g) -> green_is_node c = true ->
              ~ covers (a + rel) off c
  end.
Proof.
  intros Hok Hw.
  assert (Hgo : forall l, (forall x, In x l -> In x (green_children g)) ->
    match child_at a off l with
    | Some (b, c) => exists rel, In (rel, c) l /\ green_is_node c = true /\ b = a + rel /\ covers b off c
    | None => forall rel c, In (rel, c) l -> green_is_node c = true -> ~ covers (a + rel) off c
    end).
  { induction l as [|[rel c] l IH]; intros Hsub; [by intros ? ? []|]. cbn [child_at].
    specialize (IH (fun x Hx => Hsub x (or_intror Hx))).
    destruct (child_text g rel c Hok ltac:(lia) (Hsub _ (or_introl eq_refl))) as (_ & Hle & Hlen & _).
    destruct (green_is_node c) eqn:Hn; cbn [negb].
    2: { destruct (child_at a off l) as [[b d]|].
         - destruct IH as (rel' & ? & ?). exists rel'. split; [by right|done].
         - intros rel' c' [[= <- <-]|Hin]; [congruence|by apply IH]. }
    rewrite Hlen, (u32_small (a + rel)), (u32_small (a + rel + width c)) by lia.
    destruct ((a + rel <=? off) && (off <? a + rel + width c)) eqn:Hcov.
    - breflect. exists rel. split; [by left|]. split; [done|]. by split.
    - assert (Hno : ~ covers (a + rel) off c).
      { intros [H1 H2]. apply N.leb_le in H1. apply N.ltb_lt in H2. by rewrite H1, H2 in Hcov. }
      destruct (child_at a off l) as [[b d]|].
      + destruct IH as (rel' & ? & ?). exists rel'. split; [by right|done].
      + intros rel' c' [[= <- <-]|Hin]; [done|by apply IH]. }
  specialize (Hgo (green_children g) (fun x Hx => Hx)). done.
Qed.

Lemma height_child g rel c : In (rel, c) (green_children g) -> (height c < height g)%nat.
Proof.
  destruct g as [k n cs|]; [|done]. simpl. intros Hin.
  assert (height c <= fold_right (fun c n => Nat.max (height c.2) n) 0 cs)%nat; [|lia].
  induction cs as [|x cs IH]; [done|]. simpl. destruct Hin as [->|Hin]; simpl; [lia|].
  specialize (IH Hin). lia.
Qed.

Lemma sub_bytes_sub_bytes src a n b m : b + m <= n ->
  sub_bytes (sub_bytes src a n) b m = sub_bytes src (a + b) m.
Proof.
  intros H. unfold sub_bytes. rewrite skipn_firstn_comm, firstn_firstn, drop_drop.
  f_equal; [lia|]. f_equal. lia.
Qed.

(** [g] is the innermost node around [off]: it starts at [a] in [root]. *)
Record innermost (root : Green) (off a : N) (g : Green) : Prop := {
  im_node : green_is_node g = true;
  im_covers : covers a off g;
  im_text : sub_bytes (green_text root) a (width g) = green_text g;
  im_deepest : forall rel c, In (rel, c) (green_children g) -> green_is_node c = true ->
                 ~ covers (a + rel) off c
}.

Lemma descend_ok root off f a g :
  green_ok g -> green_is_node g = true -> a + width g < 2 ^ 32 -> covers a off g ->
  sub_bytes (green_text root) a (width g) = green_text g -> (height g <= f)%nat ->
  exists b h, descend f a off g = Ret (b, h) /\ innermost root off b h.
Proof.
  revert a g. induction f as [|f IH]; intros a g Hok Hn Hw Hc Ht Hf.
  { destruct g; simpl in Hf; lia. }
  cbn [descend]. pose proof (child_at_ok a off g Hok Hw) as Hch.
  destruct (child_at a off (green_children g)) as [[b c]|].
  - destruct Hch as (rel & Hin & Hcn & -> & Hcc).
    destruct (child_text g rel c Hok ltac:(lia) Hin) as (Hcok & Hle & _ & Hct).
    apply IH; try done; [lia| |pose proof (height_child g rel c Hin); lia].
    rewrite <- Ht, sub_bytes_sub_bytes in Hct by lia. exact Hct.
  - exists a, g. split; [done|]. by split.
Qed.

(** the node at an offset.  For a file with a well-formed tree and an offset inside
    its text, [db_node_at_offset] returns the innermost node around the offset: the
    node's range has the offset, the range's bytes of the file's text are the node's
    text, and no node child of it has the offset. *)
Theorem node_at_offset_innermost (s : PosDb) (fid sid off : N) (root : Green) :
  0 < fid < 2 ^ 31 -> nth_error (file_source s) (N.to_nat fid) = Some sid ->
  db_get_source_evicted s sid = false ->
  nth_error (file_roots s) (N.to_nat fid) = Some (Some root) ->
  green_ok root -> green_is_node root = true -> off < width root -> width root < 2 ^ 32 ->
  exists a g, db_node_at_offset s fid off = Ret (Some (a, g)) /\ innermost root off a g.
Proof.
  intros Hfid Hsrc Hev Hroot Hok Hn Hoff Hw. unfold db_node_at_offset, file_id_valid, file_id_local.
  rewrite (proj2 (N.eqb_neq fid 0)), (ldiff_virtual fid) by lia. cbn [negb].
  rewrite (col_has_some _ _ _ Hroot), (col_has_some _ _ _ Hsrc), (nth_error_nth _ _ 0 Hsrc), Hev.
  cbn [negb andb]. rewrite (nth_error_nth _ _ None Hroot). rewrite (proj2 (N.ltb_ge off 0)) by lia.
  pose proof (green_ok_width root Hok) as Hlen. fold (width root) in Hlen.
  rewrite Hlen, N.add_0_l, u32_u32, u32_small by done.
  rewrite (proj2 (N.leb_gt _ _) Hoff). cbn [orb].
  destruct (descend_ok root off (height root) 0 root) as (a & g & -> & Hi); try done.
  - unfold covers. lia.
  - unfold sub_bytes, width. change (drop (N.to_nat 0) ?l) with l. rewrite Nat2N.id. apply firstn_all.
  - by exists a, g.
Qed.

(** [f(x)]. *)
Definition sample_root : Green :=
  green_node_alloc SK_SOURCE_FILE
    [(0, green_node_alloc SK_CALL_EXPR
       [(0, green_node_alloc SK_REF_EXPR [(0, GreenToken SK_IDENT (bs "f"))]);
        (0, GreenToken SK_LPAREN (bs "("));
        (0, green_node_alloc SK_REF_EXPR [(0, GreenToken SK_IDENT (bs "x"))]);
        (0, GreenToken SK_RPAREN (bs ")"))])].

Definition tree_db : PosDb :=
  mkPosDb [0; 1] [] [None; Some sample_root] [0; 0] [] [] [0; 0] StringPool.fresh_pool.

Lemma node_at_offset_innermost_witness :
  exists a g, db_node_at_offset tree_db 1 2 = Ret (Some (a, g)) /\ green_text g = bs "x".
Proof.
  destruct (node_at_offset_innermost tree_db 1 1 2 sample_root) as (a & g & E & I);
    try (vm_compute; easy).
  exists a, g. split; [exact E|]. vm_compute in E. injection E as <- <-. vm_compute. reflexivity.
Defined.

End PositionTheorems.
