(* ===== verification/Engine.v ===== *)
(** * The query engine: [src/src/db/query/engine.c], [engine_verify.c], [engine_dispatch.c]

    Memoised queries over a database of slots.  A query is named by a [QueryKind] and a
    64-bit key; its slot records a state, a fingerprint of the value, the revision it was
    last verified at and the dependencies its body recorded; its value is in a result
    column.  [db_query_begin] answers from the slot, verifies it by pulling its
    dependencies, or admits the caller to compute; [db_query_succeed] closes a
    computation.  [query] is the wrapper every layer function is written as (guard, body,
    column write, succeed), and the recursion of the engine.

    How C state is represented:
    - a slot is addressed by its query ([qid]); that the storage of [db_engine_route_slot]
      gives distinct live queries distinct rows is the business of the routing tables.  A
      query absent from [slots] is one that does not route;
    - the Vec of dependencies and its hash index belong to one query for life.  A
      [QueryFrame] and the slot hold pointers to the same objects, so the objects are in
      [dep_vecs] and [dep_indexes] under the query that owns them and a pointer is a
      boolean, [true] when it is not NULL: what is recorded through the frame is seen
      through the slot exactly when the slot's pointer is set;
    - the top of [query_stack] is its head;
    - the arenas and the heap never run out. *)

From stdpp Require Import gmap.
From S2P Require Import Prelude.

Module Engine.

#[local] Open Scope N_scope.

(** ** Query kinds *)

Inductive QueryKind : Set :=
  | QUERY_SOURCE_TEXT | QUERY_FILE_SET | QUERY_FILE_AST | QUERY_LINE_INDEX
  | QUERY_FILE_IMPORTS | QUERY_NAMESPACE_ITEMS | QUERY_TOP_LEVEL_ENTRY
  | QUERY_NAMESPACE_SCOPES | QUERY_DEF_IDENTITY | QUERY_RESOLVE_REF
  | QUERY_TYPE_OF_DECL | QUERY_FN_SIGNATURE | QUERY_FN_SIGNATURE_SHAPE
  | QUERY_INFER_BODY | QUERY_BODY_SCOPES | QUERY_BODY_REFERENCES | QUERY_NAMESPACE_TYPE
  | QUERY_INFER_INSTANCE | QUERY_DECL_AST_MAP | QUERY_CHECK.

#[export] Instance QueryKind_eq_dec : EqDecision QueryKind.
Proof. solve_decision. Defined.

(** The kinds in the order of [ORE_QUERY_KINDS]; the enumerator's value is the position. *)
Definition ORE_QUERY_KINDS : list QueryKind :=
  [QUERY_SOURCE_TEXT; QUERY_FILE_SET; QUERY_FILE_AST; QUERY_LINE_INDEX;
   QUERY_FILE_IMPORTS; QUERY_NAMESPACE_ITEMS; QUERY_TOP_LEVEL_ENTRY;
   QUERY_NAMESPACE_SCOPES; QUERY_DEF_IDENTITY; QUERY_RESOLVE_REF; QUERY_TYPE_OF_DECL;
   QUERY_FN_SIGNATURE; QUERY_FN_SIGNATURE_SHAPE; QUERY_INFER_BODY; QUERY_BODY_SCOPES;
   QUERY_BODY_REFERENCES; QUERY_NAMESPACE_TYPE; QUERY_INFER_INSTANCE;
   QUERY_DECL_AST_MAP; QUERY_CHECK].

Definition kind_index (k : QueryKind) : nat :=
  match k with
  | QUERY_SOURCE_TEXT => 0 | QUERY_FILE_SET => 1 | QUERY_FILE_AST => 2
  | QUERY_LINE_INDEX => 3 | QUERY_FILE_IMPORTS => 4 | QUERY_NAMESPACE_ITEMS => 5
  | QUERY_TOP_LEVEL_ENTRY => 6 | QUERY_NAMESPACE_SCOPES => 7 | QUERY_DEF_IDENTITY => 8
  | QUERY_RESOLVE_REF => 9 | QUERY_TYPE_OF_DECL => 10 | QUERY_FN_SIGNATURE => 11
  | QUERY_FN_SIGNATURE_SHAPE => 12 | QUERY_INFER_BODY => 13 | QUERY_BODY_SCOPES => 14
  | QUERY_BODY_REFERENCES => 15 | QUERY_NAMESPACE_TYPE => 16
  | QUERY_INFER_INSTANCE => 17 | QUERY_DECL_AST_MAP => 18 | QUERY_CHECK => 19
  end%nat.

Lemma kind_of_index k : ORE_QUERY_KINDS !! kind_index k = Some k.
Proof. by destruct k. Qed.

#[export] Instance QueryKind_countable : Countable QueryKind.
Proof.
  refine (inj_countable kind_index (fun n => ORE_QUERY_KINDS !! n) _).
  apply kind_of_index.
Defined.

Definition QUERY_KIND_COUNT : N := 20.

(** A query: a kind and a key. *)
Definition qid : Type := QueryKind * N.

(** The INPUT tag of [ORE_QUERY_KINDS]. *)
Definition db_query_kind_is_input (kind : QueryKind) : bool :=
  match kind with QUERY_SOURCE_TEXT | QUERY_FILE_SET | QUERY_CHECK => true | _ => false end.

Inductive QueryCyclePolicy : Set := CYCLE_BOTTOM | CYCLE_FIXPOINT.

Definition db_query_cycle_policy (kind : QueryKind) : QueryCyclePolicy :=
  match kind with
  | QUERY_FN_SIGNATURE | QUERY_INFER_BODY => CYCLE_FIXPOINT
  | _ => CYCLE_BOTTOM
  end.

Definition is_fixpoint (kind : QueryKind) : bool :=
  match db_query_cycle_policy kind with CYCLE_FIXPOINT => true | CYCLE_BOTTOM => false end.

(** The name table, generated from the same list; [kind] may be any [unsigned]. *)
Definition db_query_kind_name (kind : N) : string :=
  if QUERY_KIND_COUNT <=? kind then "INVALID"
  else match ORE_QUERY_KINDS !! N.to_nat kind with
       | Some QUERY_SOURCE_TEXT => "SOURCE_TEXT"
       | Some QUERY_FILE_SET => "FILE_SET"
       | Some QUERY_FILE_AST => "FILE_AST"
       | Some QUERY_LINE_INDEX => "LINE_INDEX"
       | Some QUERY_FILE_IMPORTS => "FILE_IMPORTS"
       | Some QUERY_NAMESPACE_ITEMS => "NAMESPACE_ITEMS"
       | Some QUERY_TOP_LEVEL_ENTRY => "TOP_LEVEL_ENTRY"
       | Some QUERY_NAMESPACE_SCOPES => "NAMESPACE_SCOPES"
       | Some QUERY_DEF_IDENTITY => "DEF_IDENTITY"
       | Some QUERY_RESOLVE_REF => "RESOLVE_REF"
       | Some QUERY_TYPE_OF_DECL => "TYPE_OF_DECL"
       | Some QUERY_FN_SIGNATURE => "FN_SIGNATURE"
       | Some QUERY_FN_SIGNATURE_SHAPE => "FN_SIGNATURE_SHAPE"
       | Some QUERY_INFER_BODY => "INFER_BODY"
       | Some QUERY_BODY_SCOPES => "BODY_SCOPES"
       | Some QUERY_BODY_REFERENCES => "BODY_REFERENCES"
       | Some QUERY_NAMESPACE_TYPE => "NAMESPACE_TYPE"
       | Some QUERY_INFER_INSTANCE => "INFER_INSTANCE"
       | Some QUERY_DECL_AST_MAP => "DECL_AST_MAP"
       | Some QUERY_CHECK => "CHECK"
       | None => "INVALID"
       end%string.

(** ** Data *)

Definition Fingerprint : Set := N.
Definition FINGERPRINT_NONE : Fingerprint := 0.

Definition Durability : Set := N.
Definition DUR_LOW : Durability := 0.
Definition DUR_MEDIUM : Durability := 1.
Definition DUR_HIGH : Durability := 2.
Definition DUR_COUNT : N := 3.

Inductive QueryState : Set := QUERY_EMPTY | QUERY_RUNNING | QUERY_DONE | QUERY_ERROR.

#[export] Instance QueryState_eq_dec : EqDecision QueryState.
Proof. solve_decision. Defined.

Inductive QueryBeginResult : Set :=
  | QUERY_BEGIN_COMPUTE | QUERY_BEGIN_CACHED | QUERY_BEGIN_CYCLE
  | QUERY_BEGIN_CYCLE_PROVISIONAL | QUERY_BEGIN_ERROR | QUERY_BEGIN_CANCELED.

(** [deps] and [dep_index] are the pointers. *)
Record QuerySlotHot : Set := mkHot {
  state : QueryState;
  durability : Durability;
  fingerprint : Fingerprint;
  verified_rev : N;
  deps : bool;
  dep_index : bool;
  provisional : bool
}.

Record QuerySlotCold : Set := mkCold { computed_rev : N; routing_key : N }.

Record QuerySlot : Set := mkSlot { hot : QuerySlotHot; cold : QuerySlotCold }.

(** A zeroed row. *)
Definition zero_hot : QuerySlotHot := mkHot QUERY_EMPTY DUR_LOW FINGERPRINT_NONE 0 false false false.
Definition zero_slot : QuerySlot := mkSlot zero_hot (mkCold 0 0).

Record QueryDep : Set := mkDep {
  d_kind : QueryKind;
  d_key : N;
  dep_fp : Fingerprint;
  dep_dur : Durability
}.
Definition dep_id (d : QueryDep) : qid := (d_kind d, d_key d).

(** The diagnostic sink is an address. *)
Record QueryFrame : Set := mkFrame {
  f_kind : QueryKind;
  f_key : N;
  f_deps : bool;
  f_dep_index : bool;
  min_input_dur : Durability;
  dur_set : bool;
  sink : option N
}.
Definition frame_id (f : QueryFrame) : qid := (f_kind f, f_key f).

Record QueryStats : Set := mkStats {
  st_begin : N; st_cached_hit : N; st_compute : N; st_cycle : N; st_error : N;
  st_orphan : N
}.
Definition zero_stats : QueryStats := mkStats 0 0 0 0 0 0.

Record SccMember : Set := mkMember { m_kind : QueryKind; m_key : N; m_fp : Fingerprint; m_written : bool }.
Definition member_id (m : SccMember) : qid := (m_kind m, m_key m).

(** ** Revisions: the layout of [rev_control] *)

Definition REV_INVALIDATION_MASK : N := N.shiftl 1 63.
Definition REV_CURRENT_SHIFT : N := 32.
Definition REV_CURRENT_MASK : N := N.shiftl 0x7FFFFFFF 32.
Definition REV_REQUEST_MASK : N := 0xFFFFFFFF.

Definition rev_current (c : N) : N := N.shiftr (N.land c REV_CURRENT_MASK) REV_CURRENT_SHIFT.
Definition rev_request (c : N) : N := N.land c REV_REQUEST_MASK.

(** [(old & ~REV_REQUEST_MASK) | (request_bits & REV_REQUEST_MASK)]. *)
Definition rev_with_request (old request_bits : N) : N :=
  N.lor (N.ldiff old REV_REQUEST_MASK) (N.land request_bits REV_REQUEST_MASK).

(** [(old & ~REV_CURRENT_MASK) | ((new_cur << REV_CURRENT_SHIFT) & REV_CURRENT_MASK)]. *)
Definition rev_with_current (old new_cur : N) : N :=
  N.lor (N.ldiff old REV_CURRENT_MASK)
        (N.land (u64 (N.shiftl new_cur REV_CURRENT_SHIFT)) REV_CURRENT_MASK).

(** ** The database

    [V] is the type of the values in the result columns. *)

Record Db (V : Type) : Type := mkDb {
  slots : gmap qid QuerySlot;
  results : gmap qid V;
  dep_vecs : gmap qid (list QueryDep);
  dep_indexes : gmap qid (gmap N N);
  query_stack : list QueryFrame;
  running_slots : list qid;
  cancel_requested : bool;
  rev_control : N;
  dur_last_changed : list N;
  query_stats : QueryKind -> QueryStats;
  scc_store : option (list SccMember);
  scc_root : qid
}.
Arguments mkDb {V}.
Arguments slots {V} _.
Arguments results {V} _.
Arguments dep_vecs {V} _.
Arguments dep_indexes {V} _.
Arguments query_stack {V} _.
Arguments running_slots {V} _.
Arguments cancel_requested {V} _.
Arguments rev_control {V} _.
Arguments dur_last_changed {V} _.
Arguments query_stats {V} _.
Arguments scc_store {V} _.
Arguments scc_root {V} _.

(** Field updates. *)

Definition set_state (x : QueryState) (r : QuerySlotHot) : QuerySlotHot :=
  mkHot x (durability r) (fingerprint r) (verified_rev r) (deps r) (dep_index r) (provisional r).
Definition set_durability (x : Durability) (r : QuerySlotHot) : QuerySlotHot :=
  mkHot (state r) x (fingerprint r) (verified_rev r) (deps r) (dep_index r) (provisional r).
Definition set_fingerprint (x : Fingerprint) (r : QuerySlotHot) : QuerySlotHot :=
  mkHot (state r) (durability r) x (verified_rev r) (deps r) (dep_index r) (provisional r).
Definition set_verified_rev (x : N) (r : QuerySlotHot) : QuerySlotHot :=
  mkHot (state r) (durability r) (fingerprint r) x (deps r) (dep_index r) (provisional r).
Definition set_deps (x : bool) (r : QuerySlotHot) : QuerySlotHot :=
  mkHot (state r) (durability r) (fingerprint r) (verified_rev r) x (dep_index r) (provisional r).
Definition set_dep_index (x : bool) (r : QuerySlotHot) : QuerySlotHot :=
  mkHot (state r) (durability r) (fingerprint r) (verified_rev r) (deps r) x (provisional r).
Definition set_provisional (x : bool) (r : QuerySlotHot) : QuerySlotHot :=
  mkHot (state r) (durability r) (fingerprint r) (verified_rev r) (deps r) (dep_index r) x.
Definition set_f_deps (x : bool) (r : QueryFrame) : QueryFrame :=
  mkFrame (f_kind r) (f_key r) x (f_dep_index r) (min_input_dur r) (dur_set r) (sink r).
Definition set_f_dep_index (x : bool) (r : QueryFrame) : QueryFrame :=
  mkFrame (f_kind r) (f_key r) (f_deps r) x (min_input_dur r) (dur_set r) (sink r).
Definition set_min_input_dur (x : Durability) (r : QueryFrame) : QueryFrame :=
  mkFrame (f_kind r) (f_key r) (f_deps r) (f_dep_index r) x (dur_set r) (sink r).
Definition set_dur_set (x : bool) (r : QueryFrame) : QueryFrame :=
  mkFrame (f_kind r) (f_key r) (f_deps r) (f_dep_index r) (min_input_dur r) x (sink r).
Definition set_sink (x : option N) (r : QueryFrame) : QueryFrame :=
  mkFrame (f_kind r) (f_key r) (f_deps r) (f_dep_index r) (min_input_dur r) (dur_set r) x.
Definition put_slots {V : Type} (x : gmap qid QuerySlot) (r : Db V) : Db V :=
  mkDb x (results r) (dep_vecs r) (dep_indexes r) (query_stack r) (running_slots r)
  (cancel_requested r) (rev_control r) (dur_last_changed r) (query_stats r)
  (scc_store r) (scc_root r).
Definition put_results {V : Type} (x : gmap qid V) (r : Db V) : Db V :=
  mkDb (slots r) x (dep_vecs r) (dep_indexes r) (query_stack r) (running_slots r)
  (cancel_requested r) (rev_control r) (dur_last_changed r) (query_stats r)
  (scc_store r) (scc_root r).
Definition put_dep_vecs {V : Type} (x : gmap qid (list QueryDep)) (r : Db V) : Db V :=
  mkDb (slots r) (results r) x (dep_indexes r) (query_stack r) (running_slots r)
  (cancel_requested r) (rev_control r) (dur_last_changed r) (query_stats r)
  (scc_store r) (scc_root r).
Definition put_dep_indexes {V : Type} (x : gmap qid (gmap N N)) (r : Db V) : Db V :=
  mkDb (slots r) (results r) (dep_vecs r) x (query_stack r) (running_slots r)
  (cancel_requested r) (rev_control r) (dur_last_changed r) (query_stats r)
  (scc_store r) (scc_root r).
Definition put_query_stack {V : Type} (x : list QueryFrame) (r : Db V) : Db V :=
  mkDb (slots r) (results r) (dep_vecs r) (dep_indexes r) x (running_slots r)
  (cancel_requested r) (rev_control r) (dur_last_changed r) (query_stats r)
  (scc_store r) (scc_root r).
Definition put_running_slots {V : Type} (x : list qid) (r : Db V) : Db V :=
  mkDb (slots r) (results r) (dep_vecs r) (dep_indexes r) (query_stack r) x
  (cancel_requested r) (rev_control r) (dur_last_changed r) (query_stats r)
  (scc_store r) (scc_root r).
Definition put_cancel_requested {V : Type} (x : bool) (r : Db V) : Db V :=
  mkDb (slots r) (results r) (dep_vecs r) (dep_indexes r) (query_stack r)
  (running_slots r) x (rev_control r) (dur_last_changed r) (query_stats r)
  (scc_store r) (scc_root r).
Definition put_rev_control {V : Type} (x : N) (r : Db V) : Db V :=
  mkDb (slots r) (results r) (dep_vecs r) (dep_indexes r) (query_stack r)
  (running_slots r) (cancel_requested r) x (dur_last_changed r) (query_stats r)
  (scc_store r) (scc_root r).
Definition put_dur_last_changed {V : Type} (x : list N) (r : Db V) : Db V :=
  mkDb (slots r) (results r) (dep_vecs r) (dep_indexes r) (query_stack r)
  (running_slots r) (cancel_requested r) (rev_control r) x (query_stats r)
  (scc_store r) (scc_root r).
Definition put_query_stats {V : Type} (x : QueryKind -> QueryStats) (r : Db V) : Db V :=
  mkDb (slots r) (results r) (dep_vecs r) (dep_indexes r) (query_stack r)
  (running_slots r) (cancel_requested r) (rev_control r) (dur_last_changed r) x
  (scc_store r) (scc_root r).
Definition put_scc_store {V : Type} (x : option (list SccMember)) (r : Db V) : Db V :=
  mkDb (slots r) (results r) (dep_vecs r) (dep_indexes r) (query_stack r)
  (running_slots r) (cancel_requested r) (rev_control r) (dur_last_changed r)
  (query_stats r) x (scc_root r).
Definition put_scc_root {V : Type} (x : qid) (r : Db V) : Db V :=
  mkDb (slots r) (results r) (dep_vecs r) (dep_indexes r) (query_stack r)
  (running_slots r) (cancel_requested r) (rev_control r) (dur_last_changed r)
  (query_stats r) (scc_store r) x.

(** ** Accessors *)

Section Ops.
Context {V : Type}.
Implicit Types (d : Db V) (q : qid).

(** [db_engine_route_slot]: the row of a query, if it has one. *)
Definition db_engine_route_slot d q : option QuerySlot := slots d !! q.
Definition db_engine_locate_slot d q : option QuerySlotHot := hot <$> db_engine_route_slot d q.
Definition db_engine_locate_slot_cold d q : option QuerySlotCold := cold <$> db_engine_route_slot d q.

(** Write through the slot pointers. *)
Definition upd_hot q (f : QuerySlotHot -> QuerySlotHot) d : Db V :=
  put_slots (alter (fun sl => mkSlot (f (hot sl)) (cold sl)) q (slots d)) d.
Definition upd_cold q (f : QuerySlotCold -> QuerySlotCold) d : Db V :=
  put_slots (alter (fun sl => mkSlot (hot sl) (f (cold sl))) q (slots d)) d.

Definition set_computed_rev (x : N) (c : QuerySlotCold) : QuerySlotCold := mkCold x (routing_key c).
Definition set_routing_key (x : N) (c : QuerySlotCold) : QuerySlotCold := mkCold (computed_rev c) x.

(** The Vec and the index of a query; read only through a pointer that is set. *)
Definition dep_rows d q : list QueryDep := default [] (dep_vecs d !! q).
Definition dep_idx d q : gmap N N := default ∅ (dep_indexes d !! q).
Definition put_rows q (l : list QueryDep) d : Db V := put_dep_vecs (<[q := l]> (dep_vecs d)) d.
Definition put_idx q (m : gmap N N) d : Db V := put_dep_indexes (<[q := m]> (dep_indexes d)) d.

(** [vec_clear] and [hashmap_clear] through pointers that may be NULL. *)
Definition clear_deps q (has_deps has_index : bool) d : Db V :=
  let d := if has_deps then put_rows q [] d else d in
  if has_index then put_idx q ∅ d else d.

(** [vec_free] and [hashmap_free]. *)
Definition free_deps q (has_deps has_index : bool) d : Db V :=
  let d := if has_deps then put_dep_vecs (delete q (dep_vecs d)) d else d in
  if has_index then put_dep_indexes (delete q (dep_indexes d)) d else d.

Definition upd_stats (k : QueryKind) (f : QueryStats -> QueryStats) d : Db V :=
  put_query_stats (fun k' => if decide (k = k') then f (query_stats d k') else query_stats d k') d.

Definition stat_begin (s : QueryStats) := mkStats (u64 (st_begin s + 1)) (st_cached_hit s) (st_compute s) (st_cycle s) (st_error s) (st_orphan s).
Definition stat_cached (s : QueryStats) := mkStats (st_begin s) (u64 (st_cached_hit s + 1)) (st_compute s) (st_cycle s) (st_error s) (st_orphan s).
Definition stat_compute (s : QueryStats) := mkStats (st_begin s) (st_cached_hit s) (u64 (st_compute s + 1)) (st_cycle s) (st_error s) (st_orphan s).
Definition stat_cycle (s : QueryStats) := mkStats (st_begin s) (st_cached_hit s) (st_compute s) (u64 (st_cycle s + 1)) (st_error s) (st_orphan s).
Definition stat_error (s : QueryStats) := mkStats (st_begin s) (st_cached_hit s) (st_compute s) (st_cycle s) (u64 (st_error s + 1)) (st_orphan s).
Definition stat_orphan (n : N) (s : QueryStats) := mkStats (st_begin s) (st_cached_hit s) (st_compute s) (st_cycle s) (st_error s) (u64 (st_orphan s + n)).

Definition db_query_stats d (k : QueryKind) : QueryStats := query_stats d k.
Definition db_query_stats_reset d : Db V := put_query_stats (fun _ => zero_stats) d.

(** ** Revisions and cancellation *)

Definition db_current_revision d : N := rev_current (rev_control d).

Definition db_effective_revision d : N :=
  let c := rev_control d in
  let r := rev_request c in
  if negb (r =? 0) then r else rev_current c.

Definition db_request_cancel d : Db V := put_cancel_requested true d.
Definition db_check_cancel d : bool := cancel_requested d.

(** [dur_last_changed[dur]], for [dur < DUR_COUNT]. *)
Definition last_changed d (dur : Durability) : N := nth (N.to_nat dur) (dur_last_changed d) 0.

(** ** Slot accessors *)

Definition db_slot_is_live d q : bool :=
  match db_engine_locate_slot d q with
  | None => false
  | Some slot => bool_decide (state slot = QUERY_DONE) && (verified_rev slot =? db_current_revision d)
  end.
Definition db_slot_state d q : QueryState :=
  match db_engine_locate_slot d q with Some slot => state slot | None => QUERY_EMPTY end.
Definition db_slot_fingerprint d q : Fingerprint :=
  match db_engine_locate_slot d q with Some slot => fingerprint slot | None => FINGERPRINT_NONE end.
Definition db_slot_verified_rev d q : N :=
  match db_engine_locate_slot d q with Some slot => verified_rev slot | None => 0 end.
Definition db_slot_computed_rev d q : N :=
  match db_engine_locate_slot_cold d q with Some c => computed_rev c | None => 0 end.

(** The dependencies a slot shows: none when its pointer is NULL. *)
Definition slot_rows d q (slot : QuerySlotHot) : list QueryDep :=
  if deps slot then dep_rows d q else [].

Definition db_slot_dep_count d q : nat :=
  match db_engine_locate_slot d q with Some slot => length (slot_rows d q slot) | None => 0%nat end.

(** [None] is the sentinel [{QUERY_KIND_COUNT, 0}]. *)
Definition db_slot_dep_at d q (i : nat) : option qid :=
  match db_engine_locate_slot d q with
  | None => None
  | Some slot => dep_id <$> slot_rows d q slot !! i
  end.

(** ** Recording a dependency *)

(** The index key squeezes kind and key into 64 bits, and can collide. *)
Definition dep_index_key (kind : QueryKind) (key : N) : N :=
  N.lor (u64 (N.shiftl (N.of_nat (kind_index kind)) 56)) (N.land key 0x00FFFFFFFFFFFFFF).

(** [hashmap_get] answers NULL, that is 0, for an absent key; the index stores a row
    number as a pointer, so row 0 reads back as absent. *)
Definition hashmap_get (m : gmap N N) (k : N) : N := default 0 (m !! k).

(** The row to refresh: the index's answer, if it is not NULL and the dependency there
    is the same query (a row outside the Vec would be a NULL dereference; there is none,
    see [dep_index_ok] in EngineEdges). *)
Definition dedup_row (rows : list QueryDep) (existing : N) (child : qid) : option nat :=
  if existing =? 0 then None
  else let row := N.to_nat (u32 existing) in
       match rows !! row with
       | Some dep => if bool_decide (d_kind dep = child.1) && (d_key dep =? child.2)
                     then Some row else None
       | None => None
       end.

(** The Vec and the index after recording one dependency. *)
Definition record_dep (rows : list QueryDep) (idx : gmap N N) (child : qid)
    (fp : Fingerprint) (dur : Durability) : list QueryDep * gmap N N :=
  let ikey := dep_index_key child.1 child.2 in
  let existing := hashmap_get idx ikey in
  let d := mkDep child.1 child.2 fp dur in
  match dedup_row rows existing child with
  | Some row => (<[row := d]> rows, idx)
  | None =>
      let row := u32 (N.of_nat (length rows)) in
      (rows ++ [d], if existing =? 0 then <[ikey := row]> idx else idx)
  end.

(** Fold a durability into a frame's minimum. *)
Definition fold_durability (dur : Durability) (f : QueryFrame) : QueryFrame :=
  set_dur_set true
    (if negb (dur_set f) || (dur <? min_input_dur f) then set_min_input_dur dur f else f).

Definition record_dep_on_parent (child : qid) (fp : Fingerprint) (dur : Durability)
    (parent_offset : nat) d : Db V :=
  match query_stack d !! parent_offset with
  | None => d
  | Some parent =>
      let p := frame_id parent in
      let d := if f_deps parent then d else put_rows p [] d in
      let d := if f_dep_index parent then d else put_idx p ∅ d in
      let '(rows, idx) := record_dep (dep_rows d p) (dep_idx d p) child fp dur in
      let d := put_idx p idx (put_rows p rows d) in
      let parent := fold_durability dur (set_f_dep_index true (set_f_deps true parent)) in
      put_query_stack (<[parent_offset := parent]> (query_stack d)) d
  end.

Definition db_query_note_input_durability (dur : Durability) d : outcome (Db V) :=
  let! _ := oassert (dur <? DUR_COUNT) "db_query_note_input_durability: durability out of range" in
  match query_stack d with
  | [] => Ret d
  | top :: rest => Ret (put_query_stack (fold_durability dur top :: rest) d)
  end.

(** ** The frame stack

    An arena-backed Vec of 512 frames ([ids.c]): [vec_push] asserts when it is full. *)

Definition QUERY_STACK_CAPACITY : nat := 512.

Definition query_stack_push q (inherited_deps inherited_dep_index : bool) d : outcome (Db V) :=
  let! _ := oassert (length (query_stack d) <? QUERY_STACK_CAPACITY)%nat
                    "vec_push: arena-backed Vec is at capacity" in
  Ret (put_query_stack
         (mkFrame q.1 q.2 inherited_deps inherited_dep_index DUR_HIGH false None
          :: query_stack d) d).

Definition query_stack_pop d : Db V := put_query_stack (tail (query_stack d)) d.

Definition db_query_stack_top d : option QueryFrame := head (query_stack d).

Definition db_query_frame_set_sink (s : option N) d : Db V :=
  match query_stack d with
  | [] => d
  | f :: rest => put_query_stack (set_sink s f :: rest) d
  end.

Definition db_query_frame_sink_top d : option N :=
  match db_query_stack_top d with Some f => sink f | None => None end.

(** ** Running slots *)

Definition db_engine_track_running q d : Db V := put_running_slots (running_slots d ++ [q]) d.

(** One turn of the loop of [db_engine_sweep_running]. *)
Definition sweep_one q d : Db V :=
  match db_engine_locate_slot d q with
  | Some slot =>
      if bool_decide (state slot = QUERY_RUNNING) then
        let d := free_deps q (deps slot) (dep_index slot) d in
        upd_hot q (fun h => set_dep_index false (set_deps false
                     (set_fingerprint FINGERPRINT_NONE (set_state QUERY_EMPTY h)))) d
      else d
  | None => d
  end.

Definition db_engine_sweep_running d : Db V :=
  put_running_slots [] (foldl (fun d q => sweep_one q d) d (running_slots d)).

(** ** Fixpoint members *)

Definition scc_find (store : list SccMember) q : option nat :=
  fst <$> list_find (fun m => member_id m = q) store.

Definition db_query_fixpoint_enrolled d q : bool :=
  match db_engine_locate_slot d q with Some slot => provisional slot | None => false end.

Definition db_query_fixpoint_record q (fp : Fingerprint) d : Db V :=
  match scc_store d with
  | None => d
  | Some store =>
      match scc_find store q with
      | Some i => put_scc_store (Some (<[i := mkMember q.1 q.2 fp true]> store)) d
      | None => d
      end
  end.

Definition db_query_fixpoint_written d q : bool :=
  match scc_store d with
  | None => false
  | Some store =>
      match scc_find store q with
      | Some i => match store !! i with Some m => m_written m | None => false end
      | None => false
      end
  end.

Definition db_query_fixpoint_is_root d q : bool :=
  match scc_store d with
  | None => false
  | Some _ => bool_decide (scc_root d = q)
  end.

(** The pointers of the top frame go to the slot, which stays RUNNING. *)
Definition take_deps (top : QueryFrame) (h : QuerySlotHot) : QuerySlotHot :=
  set_dep_index (f_dep_index top) (set_deps (f_deps top) h).

Definition db_query_provisional_pop q d : Db V :=
  match query_stack d with
  | [] => d
  | top :: _ =>
      if bool_decide (frame_id top = q)
      then query_stack_pop (upd_hot q (take_deps top) d)
      else d
  end.

(** [head]: the first frame, from the bottom, of the re-entered query (0 if none). *)
Definition scc_head (frames : list QueryFrame) q : nat :=
  default 0%nat (fst <$> list_find (fun f => frame_id f = q) frames).

(** One turn of the enrolment loop of [db_query_begin]. *)
Definition enroll (f : QueryFrame) d : Db V :=
  if negb (is_fixpoint (f_kind f)) then d
  else
    let d := upd_hot (frame_id f) (set_provisional true) d in
    let store := default [] (scc_store d) in
    match scc_find store (frame_id f) with
    | Some _ => d
    | None => put_scc_store (Some (store ++ [mkMember (f_kind f) (f_key f) FINGERPRINT_NONE false])) d
    end.

(** A RUNNING slot is entered again. *)
Definition begin_running q d : QueryBeginResult * Db V :=
  let d := upd_stats q.1 stat_cycle d in
  if is_fixpoint q.1 then
    match scc_store d with
    | None =>
        let d := put_scc_root q (put_scc_store (Some []) d) in
        let frames := reverse (query_stack d) in
        (QUERY_BEGIN_CYCLE_PROVISIONAL,
         foldl (fun d f => enroll f d) d (drop (scc_head frames q) frames))
    | Some _ =>
        if db_query_fixpoint_enrolled d q then (QUERY_BEGIN_CYCLE_PROVISIONAL, d)
        else (QUERY_BEGIN_CYCLE, d)
    end
  else (QUERY_BEGIN_CYCLE, d).

(** ** Verification

    [pull] is the entry of the dispatch table.  The number of dependencies is read once,
    each dependency when it is reached: a pull may refresh or append rows of this Vec.
    The dependency's slot is located before its pull and read after. *)

Fixpoint verify_walk (pull : qid -> Db V -> outcome (Db V)) q (todo i : nat) d
    : outcome (bool * Db V) :=
  match todo with
  | O => Ret (true, d)
  | S todo =>
      match dep_rows d q !! i with
      | None => AssertFailed "vec_get: NULL dependency"
      | Some dep =>
          let located := bool_decide (is_Some (db_engine_locate_slot d (dep_id dep))) in
          let! d := pull (dep_id dep) d in
          if located && bool_decide (db_slot_state d (dep_id dep) = QUERY_DONE)
             && (db_slot_fingerprint d (dep_id dep) =? dep_fp dep)
          then verify_walk pull q todo (S i) d
          else Ret (false, d)
      end
  end.

Definition db_engine_verify (pull : qid -> Db V -> outcome (Db V)) q d : outcome (bool * Db V) :=
  match db_engine_locate_slot d q with
  | None => Ret (false, d)
  | Some slot =>
      let eff := db_effective_revision d in
      if verified_rev slot =? eff then Ret (true, d)
      else if (durability slot <? DUR_COUNT)
              && (last_changed d (durability slot) <=? verified_rev slot)
      then Ret (true, upd_hot q (set_verified_rev eff) d)
      else
        let ndeps := length (slot_rows d q slot) in
        let! (ok, d) := verify_walk pull q ndeps 0 d in
        if (ok : bool) then Ret (true, upd_hot q (set_verified_rev eff) d)
        else Ret (false, d)
  end.

(** ** The slot state machine *)

Definition begin_cached (pull : qid -> Db V -> outcome (Db V)) q (slot : QuerySlotHot) d
    : outcome (QueryBeginResult * Db V) :=
  let prev := state slot in
  let cached_result := if bool_decide (prev = QUERY_DONE) then QUERY_BEGIN_CACHED else QUERY_BEGIN_ERROR in
  let d := upd_hot q (set_state QUERY_RUNNING) d in
  let! d := query_stack_push q (deps slot) (dep_index slot) d in
  let! (ok, d) := db_engine_verify pull q d in
  if (ok : bool) then
    let eff := db_effective_revision d in
    let d := upd_hot q (fun h => set_verified_rev eff (set_state prev h)) d in
    let dur := match db_engine_locate_slot d q with Some h => durability h | None => DUR_LOW end in
    let d := record_dep_on_parent q (db_slot_fingerprint d q) dur 1 d in
    let d := query_stack_pop d in
    Ret (cached_result, upd_stats q.1 stat_cached d)
  else
    let d := match db_query_stack_top d with
             | Some top => clear_deps (frame_id top) (f_deps top) (f_dep_index top) d
             | None => d
             end in
    let d := upd_hot q (set_fingerprint FINGERPRINT_NONE) d in
    Ret (QUERY_BEGIN_COMPUTE, db_engine_track_running q d).

Definition db_query_begin (pull : qid -> Db V -> outcome (Db V)) q d
    : outcome (QueryBeginResult * Db V) :=
  if db_check_cancel d then Ret (QUERY_BEGIN_CANCELED, d)
  else
    let d := upd_stats q.1 stat_begin d in
    match db_engine_locate_slot d q with
    | None => AssertFailed "db_query_begin: slot kind not wired"
    | Some slot =>
        match state slot with
        | QUERY_DONE | QUERY_ERROR => begin_cached pull q slot d
        | QUERY_RUNNING => Ret (begin_running q d)
        | QUERY_EMPTY =>
            let d := upd_hot q (set_state QUERY_RUNNING) d in
            let d := upd_cold q (set_routing_key q.2) d in
            let! d := query_stack_push q (deps slot) (dep_index slot) d in
            Ret (QUERY_BEGIN_COMPUTE, db_engine_track_running q d)
        end
    end.

(** The frame on top is the query's own. *)
Definition own_frame q d (site : string) : outcome QueryFrame :=
  match query_stack d with
  | [] => AssertFailed site
  | top :: _ => let! _ := oassert (bool_decide (frame_id top = q)) site in Ret top
  end.

(** [slot->durability] at the end of a computation. *)
Definition frame_durability (top : QueryFrame) : Durability :=
  if dur_set top then min_input_dur top else DUR_LOW.

Definition db_query_succeed q (fp : Fingerprint) d : outcome (Db V) :=
  let! _ := oassert (negb (db_query_kind_is_input q.1)) "db_query_succeed: INPUT kind" in
  let! _ := oassert (bool_decide (is_Some (db_engine_route_slot d q))) "db_query_succeed: slot not located" in
  let! top := own_frame q d "db_query_succeed: top of stack doesn't match (kind, key)" in
  let d := upd_hot q (take_deps top) d in
  if db_check_cancel d then Ret (query_stack_pop d)
  else
    let cur := db_current_revision d in
    let dur := frame_durability top in
    let d := upd_hot q (fun h => set_durability dur (set_verified_rev cur
                          (set_fingerprint fp (set_state QUERY_DONE h)))) d in
    let d := upd_cold q (set_computed_rev cur) d in
    let d := record_dep_on_parent q fp dur 1 d in
    let d := query_stack_pop d in
    Ret (upd_stats q.1 stat_compute d).

Definition db_query_fail q d : outcome (Db V) :=
  let! _ := oassert (bool_decide (is_Some (db_engine_route_slot d q))) "db_query_fail: slot not located" in
  let! top := own_frame q d "db_query_fail: top of stack doesn't match (kind, key)" in
  let d := upd_hot q (take_deps top) d in
  if db_check_cancel d then Ret (query_stack_pop d)
  else
    let cur := db_current_revision d in
    let d := upd_hot q (fun h => set_durability (frame_durability top) (set_verified_rev cur
                          (set_fingerprint FINGERPRINT_NONE (set_state QUERY_ERROR h)))) d in
    let d := upd_cold q (set_computed_rev cur) d in
    let d := query_stack_pop d in
    Ret (upd_stats q.1 stat_error d).

(** ** Inputs *)

Definition db_input_set q (fp : Fingerprint) (dur : Durability) d : outcome (Db V) :=
  let! _ := oassert (db_query_kind_is_input q.1) "db_input_set: kind is not an INPUT kind" in
  let! _ := oassert (bool_decide (is_Some (db_engine_route_slot d q))) "db_input_set: slot not located" in
  let! _ := oassert (dur <? DUR_COUNT) "db_input_set: invalid durability" in
  let cur := db_current_revision d in
  let d := upd_hot q (fun h => set_verified_rev cur (set_durability dur
                        (set_fingerprint fp (set_state QUERY_DONE h)))) d in
  Ret (upd_cold q (fun _ => mkCold cur q.2) d).

(** [for (d = DUR_LOW; d <= dur; d++) dur_last_changed[d] = new_cur]. *)
Definition stamp_changed (new_cur : N) (dur : Durability) (l : list N) : list N :=
  foldl (fun l i => <[i := new_cur]> l) l (seq 0 (S (N.to_nat dur))).

(** Without the atomics: there is one mutator. *)
Definition db_input_changed (dur : Durability) d : outcome (N * Db V) :=
  let! _ := oassert (dur <? DUR_COUNT) "db_input_changed: durability out of range" in
  let! _ := oassert (rev_request (rev_control d) =? 0) "db_input_changed called while a request is open" in
  let old := rev_control d in
  let new_cur := rev_current old + 1 in
  let d := put_rev_control (rev_with_current old new_cur) d in
  Ret (new_cur, put_dur_last_changed (stamp_changed new_cur dur (dur_last_changed d)) d).

(** ** Requests *)

Definition rev_set_request (request_bits : N) d : Db V :=
  put_rev_control (rev_with_request (rev_control d) request_bits) d.

Definition db_request_begin (revision : N) d : outcome (Db V) :=
  let! _ := oassert (negb (revision =? 0)) "revision 0 is unpinned sentinel" in
  let! _ := oassert (bool_decide (query_stack d = [])) "request begin while query on stack" in
  let! _ := oassert (revision <=? rev_current (rev_control d)) "db_request_begin: revision exceeds current" in
  let d := rev_set_request revision d in
  let d := put_cancel_requested false d in
  Ret (put_running_slots [] d).

(** ** Slot allocation and orphan reclamation

    On the level of queries; the rows and free lists are those of the routing tables. *)

(** Kinds routed by a hash map: absent until allocated. *)
Definition hashmap_routed (kind : QueryKind) : bool :=
  match kind with
  | QUERY_TOP_LEVEL_ENTRY | QUERY_DEF_IDENTITY | QUERY_RESOLVE_REF | QUERY_INFER_INSTANCE => true
  | _ => false
  end.

Definition db_query_slot_alloc q d : Db V :=
  if hashmap_routed q.1 then
    match slots d !! q with
    | Some _ => d
    | None => put_slots (<[q := mkSlot zero_hot (mkCold 0 q.2)]> (slots d)) d
    end
  else d.

Definition ENGINE_ORPHAN_THRESHOLD : N := 8.

(** [reclaim_slot], on the row. *)
Definition reclaim_slot (sl : QuerySlot) : QuerySlot :=
  mkSlot (set_dep_index false (set_deps false (set_durability DUR_LOW
            (set_fingerprint FINGERPRINT_NONE (set_state QUERY_EMPTY (hot sl))))))
         (set_computed_rev 0 (cold sl)).

(** A slot the walk of its kind reclaims. *)
Definition orphan (threshold : N) q (sl : QuerySlot) : bool :=
  negb (db_query_kind_is_input q.1) && negb (bool_decide (state (hot sl) = QUERY_EMPTY))
  && (verified_rev (hot sl) <? threshold).

(** What the walk leaves of a slot: a hash-map-routed orphan loses its route. *)
Definition reclaim_one (threshold : N) q (sl : QuerySlot) : option QuerySlot :=
  if orphan threshold q sl
  then if hashmap_routed q.1 then None else Some (reclaim_slot sl)
  else Some sl.

Definition count_orphans (threshold : N) (k : QueryKind) d : N :=
  N.of_nat (size (filter (fun p => p.1.1 = k /\ orphan threshold p.1 p.2 = true) (slots d))).

(** Drop the objects of the reclaimed slots. *)
Definition drop_orphans {A} (threshold : N) d (m : gmap qid A) : gmap qid A :=
  map_imap (fun q a =>
    match slots d !! q with
    | Some sl => if orphan threshold q sl then None else Some a
    | None => Some a
    end) m.

Definition db_engine_reclaim_orphans (threshold : N) d : Db V :=
  let d' := put_query_stats (fun k => stat_orphan (count_orphans threshold k d) (query_stats d k)) d in
  let d' := put_dep_vecs (drop_orphans threshold d (dep_vecs d)) d' in
  let d' := put_dep_indexes (drop_orphans threshold d (dep_indexes d)) d' in
  put_slots (map_imap (reclaim_one threshold) (slots d)) d'.

(** The slot half of [db_engine_compact]; the pools it also compacts hold no slots. *)
Definition db_engine_compact d : Db V :=
  let cur := db_current_revision d in
  let threshold := if ENGINE_ORPHAN_THRESHOLD <? cur then cur - ENGINE_ORPHAN_THRESHOLD else 0 in
  if 0 <? threshold then db_engine_reclaim_orphans threshold d else d.

Definition db_request_end d : outcome (Db V) :=
  let! _ := oassert (bool_decide (query_stack d = [])) "request end while query on stack" in
  let! _ := oassert (negb (rev_request (rev_control d) =? 0))
                    "db_request_end: no request open (begin/end mismatch)" in
  let d := db_engine_sweep_running d in
  let d := rev_set_request 0 d in
  Ret (db_engine_compact d).

End Ops.

End Engine.
