(* ===== verification/Query.v ===== *)
(** * Query bodies and wrappers over the engine

    A layer of the compiler (parse, scope, type, inference) is a family of query bodies.  A
    body is pure computation interleaved with calls to other queries, so it is a tree
    ([prog]): ask a query and continue with its value, publish an early value in its own
    result column, or end with a value and its fingerprint; [PCancel] is the point of the
    run where another thread calls [db_request_cancel].  [query] is the wrapper of
    every layer function, [DB_QUERY_GUARD] included, with the dispatch table that the dep
    walk pulls through; for the kinds with a fixpoint policy it is the wrapper of
    [db_query_fn_signature] and [db_query_infer_body], which drive the fixpoint.

    The nesting of C calls is the recursion of [query] on its fuel. *)

From stdpp Require Import gmap.
From S2P Require Import Prelude Engine.
Import Engine.

Module Query.

#[local] Open Scope N_scope.

Inductive prog (V : Type) : Type :=
  | PRet (v : V) (fp : Fingerprint)
  | PAsk (q : qid) (k : V -> prog V)
  | PWrite (v : V) (p : prog V)
  | PCancel (p : prog V).
Arguments PRet {V} v fp.
Arguments PAsk {V} q k.
Arguments PWrite {V} v p.
Arguments PCancel {V} p.

(** What a layer gives the wrappers: bodies, the value of [on_cycle] (read from the
    columns), of [on_error], a zeroed column cell, and the fingerprint with which a
    setter stores an input. *)
Record Layer (V : Type) : Type := mkLayer {
  body : qid -> prog V;
  on_cycle : qid -> gmap qid V -> V;
  on_error : qid -> V;
  column_zero : V;
  input_fp : qid -> V -> Fingerprint
}.
Arguments mkLayer {V}.
Arguments body {V} _ _.
Arguments on_cycle {V} _ _ _.
Arguments on_error {V} _ _.
Arguments column_zero {V} _.
Arguments input_fp {V} _ _ _.

(** The key a recompute thunk of [engine_dispatch.c] hands to the wrapper: ids are
    decoded as 32-bit, pairs of ids reassembled. *)
Definition dispatch_key (q : qid) : qid :=
  match q.1 with
  | QUERY_TOP_LEVEL_ENTRY | QUERY_DEF_IDENTITY | QUERY_RESOLVE_REF =>
      (q.1, N.lor (N.shiftl (u32 (N.shiftr q.2 32)) 32) (u32 q.2))
  | _ => (q.1, u32 q.2)
  end.

Section Layer.
Context {V : Type} (L : Layer V).
Implicit Types (d : Db V) (q : qid).

Definition read_column d q : V := default (column_zero L) (results d !! q).
Definition write_column q (v : V) d : Db V := put_results (<[q := v]> (results d)) d.

(** Run a body; [ask] is a nested wrapper call. *)
Fixpoint run_prog (ask : qid -> Db V -> outcome (V * Db V)) q (p : prog V) d
    : outcome (V * Fingerprint * Db V) :=
  match p with
  | PRet v fp => Ret (v, fp, d)
  | PWrite v p => run_prog ask q p (write_column q v d)
  | PCancel p => run_prog ask q p (db_request_cancel d)
  | PAsk dep k => let! (v, d) := ask dep d in run_prog ask q (k v) d
  end.

(** [db_query_fn_signature_compute], [db_query_infer_body_compute], and the body of every
    other wrapper: run, write the column, then succeed; mid-fixpoint, record the iterate
    and pop instead. *)
Definition compute (ask : qid -> Db V -> outcome (V * Db V)) q d : outcome (V * Db V) :=
  let! (v, fp, d) := run_prog ask q (body L q) d in
  let d := write_column q v d in
  if is_fixpoint q.1 && db_query_fixpoint_enrolled d q then
    Ret (v, db_query_provisional_pop q (db_query_fixpoint_record q fp d))
  else
    let! d := db_query_succeed q fp d in Ret (v, d).

(** ** The fixpoint driver *)

Definition scc_rerun_member (ask : qid -> Db V -> outcome (V * Db V)) q d : outcome (Db V) :=
  match db_engine_locate_slot d q with
  | None => Ret d
  | Some slot =>
      let d := clear_deps q (deps slot) (dep_index slot) d in
      let! d := query_stack_push q (deps slot) (dep_index slot) d in
      if is_fixpoint q.1 then let! (_, d) := compute ask (dispatch_key q) d in Ret d else Ret d
  end.

(** One pass over the members: the [i] loop. *)
Fixpoint scc_pass (ask : qid -> Db V -> outcome (V * Db V)) (todo i : nat) (changed : bool) d
    : outcome (bool * Db V) :=
  match todo with
  | O => Ret (changed, d)
  | S todo =>
      match default [] (scc_store d) !! i with
      | None => AssertFailed "vec_get: NULL member"
      | Some snapshot =>
          let! d := scc_rerun_member ask (member_id snapshot) d in
          match default [] (scc_store d) !! i with
          | None => AssertFailed "vec_get: NULL member"
          | Some m => scc_pass ask todo (S i) (changed || negb (m_fp m =? m_fp snapshot)) d
          end
      end
  end.

(** The [iter] loop, [cap] turns at most. *)
Fixpoint scc_iterate (ask : qid -> Db V -> outcome (V * Db V)) (cap : nat) d : outcome (Db V) :=
  match cap with
  | O => Ret d
  | S cap =>
      let! (changed, d) := scc_pass ask (length (default [] (scc_store d))) 0 false d in
      if (changed : bool) then scc_iterate ask cap d else Ret d
  end.

Definition finalize_member (m : SccMember) d : outcome (Db V) :=
  match db_engine_locate_slot d (member_id m) with
  | None => Ret d
  | Some slot =>
      let d := upd_hot (member_id m) (set_provisional false) d in
      let! d := query_stack_push (member_id m) (deps slot) (dep_index slot) d in
      db_query_succeed (member_id m) (m_fp m) d
  end.

Fixpoint finalize_members (ms : list SccMember) d : outcome (Db V) :=
  match ms with
  | [] => Ret d
  | m :: ms => let! d := finalize_member m d in finalize_members ms d
  end.

Definition db_query_fixpoint_drive (ask : qid -> Db V -> outcome (V * Db V)) d : outcome (Db V) :=
  match scc_store d with
  | None => Ret d
  | Some store =>
      let cap := (length store * 64 + 32)%nat in
      let! d := scc_iterate ask cap d in
      let! d := finalize_members (default [] (scc_store d)) d in
      Ret (put_scc_store None d)
  end.

(** ** The dispatch table and the wrapper *)

(** [db_engine_recompute_dispatch[kind](ctx, key)]: a no-op for the input kinds. *)
Definition db_engine_recompute_dispatch (wrapper : qid -> Db V -> outcome (V * Db V)) q d
    : outcome (Db V) :=
  if db_query_kind_is_input q.1 then Ret d
  else let! (_, d) := wrapper (dispatch_key q) d in Ret d.

(** The wrapper once the guard has admitted it to compute. *)
Definition wrapper_compute (ask : qid -> Db V -> outcome (V * Db V)) q d : outcome (V * Db V) :=
  if db_query_kind_is_input q.1 then
    AssertFailed "input slot must be pre-set via db_input_set: COMPUTE is unreachable"
  else
    let! (v, d) := compute ask q d in
    if db_query_fixpoint_is_root d q then
      let! d := db_query_fixpoint_drive ask d in
      Ret (read_column d q, d)
    else Ret (v, d).

Fixpoint query (fuel : nat) q d : outcome (V * Db V) :=
  match fuel with
  | O => OutOfFuel
  | S fuel =>
      let ask := query fuel in
      let d := db_query_slot_alloc q d in
      let! (r, d) := db_query_begin (db_engine_recompute_dispatch ask) q d in
      match r with
      | QUERY_BEGIN_CACHED => Ret (read_column d q, d)
      | QUERY_BEGIN_CYCLE | QUERY_BEGIN_CANCELED => Ret (on_cycle L q (results d), d)
      | QUERY_BEGIN_ERROR => Ret (on_error L q, d)
      | QUERY_BEGIN_CYCLE_PROVISIONAL =>
          Ret (if db_query_fixpoint_written d q then read_column d q
               else on_cycle L q (results d), d)
      | QUERY_BEGIN_COMPUTE => wrapper_compute ask q d
      end
  end.

(** ** The input boundary and requests *)

(** A zeroed row in the columns of a kind. *)
Definition push_zero_row q d : Db V := put_slots (<[q := zero_slot]> (slots d)) d.

(** Creating an input, as [create_source_row] does: rows, the value column, the slot. *)
Definition create_input q (v : V) (dur : Durability) d : outcome (Db V) :=
  db_input_set q (input_fp L q v) dur (write_column q v (push_zero_row q d)).

(** Changing one, as [db_set_source_text] does after its early return. *)
Definition change_input q (v : V) (dur : Durability) d : outcome (Db V) :=
  let d := write_column q v d in
  let! (_, d) := db_input_changed dur d in
  db_input_set q (input_fp L q v) dur d.

Fixpoint query_all (fuel : nat) (qs : list qid) d : outcome (list V * Db V) :=
  match qs with
  | [] => Ret ([], d)
  | q :: qs =>
      let! (v, d) := query fuel q d in
      let! (vs, d) := query_all fuel qs d in
      Ret (v :: vs, d)
  end.

(** A request pinned to the current revision, as every consumer opens it. *)
Definition request (fuel : nat) (qs : list qid) d : outcome (list V * Db V) :=
  let! d := db_request_begin (db_current_revision d) d in
  let! (vs, d) := query_all fuel qs d in
  let! d := db_request_end d in
  Ret (vs, d).

End Layer.

(** ** Setting up and using a database *)

(** [db_init]: revision 1, every tier last changed at revision 1, no slots. *)
Definition db_init {V} : Db V :=
  mkDb ∅ ∅ ∅ ∅ [] [] false (N.lor REV_INVALIDATION_MASK (N.shiftl 1 32)) [1; 1; 1]
       (fun _ => zero_stats) None (QUERY_SOURCE_TEXT, 0).

End Query.
