(* ===== verification/EngineSpec.v ===== *)
(** * What the query engine computes: evaluation from scratch

    The reference the memoising engine is compared with: run a query's body, evaluating
    every query it asks in the same way, on the current inputs, with no state at all. *)

From stdpp Require Import gmap.
From S2P Require Import Prelude Engine Query.
Import Engine Query.

Module EngineSpec.

#[local] Open Scope N_scope.

(** ** Bodies *)

Section Bodies.
Context {V : Type}.
Implicit Types (p : prog V) (ans : qid -> V).

(** The value and fingerprint of a body, given what its questions are answered. *)
Fixpoint eval_prog ans p : V * Fingerprint :=
  match p with
  | PRet v fp => (v, fp)
  | PWrite _ p | PCancel p => eval_prog ans p
  | PAsk q k => eval_prog ans (k (ans q))
  end.

(** The questions it asks. *)
Fixpoint asks ans p : list qid :=
  match p with
  | PRet _ _ => []
  | PWrite _ p | PCancel p => asks ans p
  | PAsk q k => q :: asks ans (k (ans q))
  end.

(** Same answers, same run. *)
Lemma same_answers ans ans' p :
  (forall q, q ∈ asks ans p -> ans' q = ans q) ->
  eval_prog ans' p = eval_prog ans p /\ asks ans' p = asks ans p.
Proof.
  induction p as [v fp|q k IH|v p IH|p IH]; intros H; simpl in *; [done| |by apply IH|by apply IH].
  rewrite (H q (list_elem_of_here _ _)). destruct (IH (ans q)) as [-> ->]; [|done].
  intros q' Hq'. apply H. by right.
Qed.

End Bodies.

(** ** From scratch *)

Section Scratch.
Context {V : Type} (L : Layer V) (rank : qid -> nat).
Implicit Types (q : qid) (inp : qid -> V).

Fixpoint scratch_fuel (n : nat) inp q : V * Fingerprint :=
  match n with
  | O => (column_zero L, FINGERPRINT_NONE)
  | S n =>
      if db_query_kind_is_input q.1 then (inp q, input_fp L q (inp q))
      else eval_prog (fun q' => (scratch_fuel n inp q').1) (body L q)
  end.

(** [rank] bounds the nesting of the evaluation. *)
Definition scratch inp q : V * Fingerprint := scratch_fuel (S (rank q)) inp q.

Definition answers inp q : V := (scratch inp q).1.

(** The questions of a body evaluated from scratch. *)
Definition deps_of inp q : list qid := asks (answers inp) (body L q).

(** ** Layers the theorems are about *)

Section WellLayered.
Context (known : qid -> Prop) (tier : qid -> Durability).

(** Every run of a body of [q] on answers that queries can have asks known queries of a
    smaller rank and of a tier at least that of [q], and the least of them (LOW when it
    asks nothing) is the tier of [q].  No cancellation. *)
Inductive prog_ok q : option Durability -> prog V -> Prop :=
  | ok_ret acc v fp :
      default DUR_LOW acc = tier q -> prog_ok q acc (PRet v fp)
  | ok_write acc v p : prog_ok q acc p -> prog_ok q acc (PWrite v p)
  | ok_ask acc dep k :
      known dep -> (rank dep < rank q)%nat -> tier q <= tier dep ->
      (forall inp, prog_ok q (Some (N.min (tier dep) (default (tier dep) acc)))
                             (k (answers inp dep))) ->
      prog_ok q acc (PAsk dep k).

(** - queries do not cycle, and nest at most as deep as the frame stack;
    - the tier of a query does not vary between runs;
    - keys are those the dispatch table can carry;
    - a fingerprint identifies the value (no collision among a query's values). *)
Record well_layered : Prop := {
  wl_body q : known q -> db_query_kind_is_input q.1 = false -> prog_ok q None (body L q);
  wl_rank q : known q -> (rank q < QUERY_STACK_CAPACITY)%nat;
  wl_tier q : known q -> tier q < DUR_COUNT;
  wl_key q : known q -> dispatch_key q = q;
  wl_fp q inp inp' : known q -> (scratch inp q).2 = (scratch inp' q).2 ->
                     (scratch inp q).1 = (scratch inp' q).1
}.

(** ** The abstract machine: a session of edits and requests over the inputs alone *)

Inductive command : Type :=
  | Change (q : qid) (v : V)
  | Request (qs : list qid).

Definition change q (v : V) inp : qid -> V := fun q' => if decide (q' = q) then v else inp q'.

Fixpoint spec_session (cmds : list command) inp : list (list V) :=
  match cmds with
  | [] => []
  | Change q v :: cmds => spec_session cmds (change q v inp)
  | Request qs :: cmds => map (answers inp) qs :: spec_session cmds inp
  end.

(** The same session on the engine. *)
Fixpoint session (fuel : nat) (cmds : list command) (d : Db V) : outcome (list (list V) * Db V) :=
  match cmds with
  | [] => Ret ([], d)
  | Change q v :: cmds =>
      let! d := change_input L q v (tier q) d in session fuel cmds d
  | Request qs :: cmds =>
      let! (vs, d) := request L fuel qs d in
      let! (vss, d) := session fuel cmds d in
      Ret (vs :: vss, d)
  end.

(** A new database: rows for some queries, then the inputs. *)
Fixpoint load_inputs (xs : list qid) inp (d : Db V) : outcome (Db V) :=
  match xs with
  | [] => Ret d
  | x :: xs => let! d := create_input L x (inp x) (tier x) d in load_inputs xs inp d
  end.

Definition load (rows xs : list qid) inp : outcome (Db V) :=
  load_inputs xs inp (foldl (fun d q => push_zero_row q d) db_init rows).

Definition command_ok (c : command) : Prop :=
  match c with
  | Change q _ => known q /\ db_query_kind_is_input q.1 = true
  | Request qs => Forall known qs
  end.

End WellLayered.
End Scratch.

End EngineSpec.
