(* ===== verification/EngineFacts.v ===== *)
(** * Lemmas about the engine's parts

    Evaluation from scratch is independent of fuel; the fields of [rev_control] are
    independent; what recording a dependency does to a Vec; how slots, Vecs and frames
    are read after each write. *)

From stdpp Require Import gmap.
From S2P Require Import Prelude Engine Query EngineSpec.
Import Engine Query EngineSpec.

Module EngineFacts.

#[local] Open Scope N_scope.

(** ** [rev_control] *)

#[global] Arguments rev_current : simpl never.
#[global] Arguments rev_request : simpl never.
#[global] Arguments rev_with_current : simpl never.
#[global] Arguments rev_with_request : simpl never.

Section Rev.

Lemma request_mask_ones : REV_REQUEST_MASK = N.ones 32. Proof. done. Qed.
Lemma current_mask_ones : REV_CURRENT_MASK = N.shiftl (N.ones 31) 32. Proof. done. Qed.

Lemma rev_request_mod c : rev_request c = u32 c.
Proof. unfold rev_request. by rewrite request_mask_ones, N.land_ones. Qed.

Lemma rev_current_div c : rev_current c = (c / 2 ^ 32) mod 2 ^ 31.
Proof.
  unfold rev_current. rewrite current_mask_ones, N.shiftr_land, N.shiftr_shiftl_l by done.
  rewrite N.sub_diag, N.shiftl_0_r, N.land_ones, N.shiftr_div_pow2. done.
Qed.

Lemma rev_current_lt c : rev_current c < 2 ^ 31.
Proof. rewrite rev_current_div. by apply N.mod_lt. Qed.

Lemma rev_request_with_request c r : rev_request (rev_with_request c r) = u32 r.
Proof.
  unfold rev_request, rev_with_request.
  rewrite N.land_lor_distr_l, N.land_ldiff, N.lor_0_l, <- N.land_assoc, N.land_diag.
  apply rev_request_mod.
Qed.

Lemma rev_current_with_request c r : rev_current (rev_with_request c r) = rev_current c.
Proof.
  unfold rev_current, rev_with_request.
  rewrite !N.shiftr_land, N.shiftr_lor, N.shiftr_ldiff, N.shiftr_land.
  replace (N.shiftr REV_REQUEST_MASK REV_CURRENT_SHIFT) with 0 by done.
  by rewrite N.ldiff_0_r, N.land_0_r, N.lor_0_r.
Qed.

Lemma rev_request_with_current c n : rev_request (rev_with_current c n) = rev_request c.
Proof.
  unfold rev_request, rev_with_current.
  rewrite N.land_lor_distr_l, <- N.land_assoc.
  replace (N.land REV_CURRENT_MASK REV_REQUEST_MASK) with 0 by done.
  rewrite N.land_0_r, N.lor_0_r. apply N.bits_inj. intros i.
  rewrite !N.land_spec, N.ldiff_spec. destruct (N.testbit REV_REQUEST_MASK i) eqn:E;
    [|by rewrite !andb_false_r].
  replace (N.testbit REV_CURRENT_MASK i) with false; [by rewrite andb_true_r|].
  rewrite request_mask_ones in E. rewrite current_mask_ones.
  destruct (N.lt_ge_cases i 32) as [Hi|Hi].
  - by rewrite N.shiftl_spec_low.
  - by rewrite N.ones_spec_high in E.
Qed.

Lemma rev_current_with_current c n : n < 2 ^ 31 -> rev_current (rev_with_current c n) = n.
Proof.
  intros Hn. unfold rev_current, rev_with_current, u64.
  rewrite <- N.land_ones.
  rewrite !N.shiftr_land, N.shiftr_lor, N.shiftr_ldiff, !N.shiftr_land.
  rewrite N.land_lor_distr_l, N.land_ldiff, N.lor_0_l.
  rewrite N.shiftr_shiftl_l, N.sub_diag, N.shiftl_0_r by done.
  replace (N.shiftr (N.ones 64) REV_CURRENT_SHIFT) with (N.ones 32) by done.
  replace (N.shiftr REV_CURRENT_MASK REV_CURRENT_SHIFT) with (N.ones 31) by done.
  rewrite <- N.land_assoc, N.land_diag, !N.land_ones.
  rewrite (N.mod_small n (2 ^ 32)) by lia. by apply N.mod_small.
Qed.

End Rev.

(** ** Evaluation from scratch *)

Section Scratch.
Context {V : Type} (L : Layer V) (rank : qid -> nat) (known : qid -> Prop)
        (tier : qid -> Durability).
Context (W : well_layered L rank known tier).
Implicit Types (q : qid) (inp : qid -> V).

Lemma scratch_fuel_enough inp n : forall m q, known q -> (rank q < n)%nat -> (rank q < m)%nat ->
  scratch_fuel L n inp q = scratch_fuel L m inp q.
Proof.
  induction n as [|n IH]; intros [|m] q Hq Hn Hm; try lia. simpl.
  destruct (db_query_kind_is_input q.1) eqn:Ei; [done|].
  pose proof (wl_body _ _ _ _ W q Hq Ei) as Hb. clear Ei.
  revert Hb. generalize (@None Durability). generalize (body L q).
  intros p acc Hp. induction Hp as [|acc v p Hp IHp|acc dep k Hk Hr Ht Hc IHp]; [done|done|].
  simpl. rewrite <- (IH m dep) by (done || lia).
  replace ((scratch_fuel L n inp dep).1) with (answers L rank inp dep); [apply IHp|].
  unfold answers, scratch. f_equal. symmetry. apply IH; [done|lia|lia].
Qed.

Lemma scratch_input inp q : db_query_kind_is_input q.1 = true ->
  scratch L rank inp q = (inp q, input_fp L q (inp q)).
Proof. intros H. unfold scratch. simpl. by rewrite H. Qed.

Lemma scratch_unfold inp q : known q -> db_query_kind_is_input q.1 = false ->
  scratch L rank inp q = eval_prog (answers L rank inp) (body L q).
Proof.
  intros Hq Hi. unfold scratch. simpl. rewrite Hi.
  pose proof (wl_body _ _ _ _ W q Hq Hi) as Hb. clear Hi.
  revert Hb. generalize (@None Durability). generalize (body L q).
  intros p acc Hp. induction Hp as [|acc v p Hp IHp|acc dep k Hk Hr Ht Hc IHp]; [done|done|].
  simpl. replace ((scratch_fuel L (rank q) inp dep).1) with (answers L rank inp dep);
    [apply IHp|].
  unfold answers, scratch. f_equal. by apply scratch_fuel_enough; [|lia|].
Qed.

(** What a run asks satisfies the conditions of [prog_ok]. *)
Lemma prog_ok_asks inp q acc p : prog_ok L rank known tier q acc p ->
  forall dep, dep ∈ asks (answers L rank inp) p ->
  known dep /\ (rank dep < rank q)%nat /\ tier q <= tier dep.
Proof.
  induction 1 as [|acc v p Hp IHp|acc dep k Hk Hr Ht Hc IHp]; simpl; intros dep' Hin.
  - by apply elem_of_nil in Hin.
  - by apply IHp.
  - apply elem_of_cons in Hin as [->|Hin]; [done|]. by apply (IHp inp).
Qed.

Lemma deps_of_ok inp q dep : known q -> db_query_kind_is_input q.1 = false ->
  dep ∈ deps_of L rank inp q -> known dep /\ (rank dep < rank q)%nat /\ tier q <= tier dep.
Proof. intros Hq Hi. apply prog_ok_asks with None. by apply W. Qed.

(** If the questions asked under [inp] have the same fingerprints under [inp'], nothing
    changed: this is what the dep walk checks. *)
Lemma scratch_same inp inp' q : known q -> db_query_kind_is_input q.1 = false ->
  (forall dep, dep ∈ deps_of L rank inp q ->
     (scratch L rank inp' dep).2 = (scratch L rank inp dep).2) ->
  scratch L rank inp' q = scratch L rank inp q /\ deps_of L rank inp' q = deps_of L rank inp q.
Proof.
  intros Hq Hi Hdeps. rewrite !scratch_unfold by done. unfold deps_of.
  apply same_answers. intros dep Hdep.
  apply (wl_fp _ _ _ _ W dep inp' inp); [|by apply Hdeps].
  by apply (deps_of_ok inp q dep).
Qed.

(** A query depends only on the inputs of its tier and above. *)
Lemma scratch_tier inp inp' q : known q ->
  (forall x, known x -> db_query_kind_is_input x.1 = true -> tier q <= tier x -> inp' x = inp x) ->
  scratch L rank inp' q = scratch L rank inp q.
Proof.
  remember (rank q) as n eqn:Hn. revert q Hn.
  induction (lt_wf n) as [n _ IH]. intros q -> Hq Hx.
  destruct (db_query_kind_is_input q.1) eqn:Hi.
  - rewrite !scratch_input by done. by rewrite Hx by done.
  - refine (proj1 (scratch_same inp inp' q Hq Hi _)). intros dep Hdep.
    destruct (deps_of_ok inp q dep Hq Hi Hdep) as (Hk & Hr & Ht).
    rewrite (IH (rank dep) Hr dep eq_refl Hk); [done|].
    intros x Hkx Hix Hlt. apply Hx; [done|done|]. by etrans.
Qed.

End Scratch.

(** ** Recording a dependency *)

Definition idfp (d : QueryDep) : qid * Fingerprint := (dep_id d, dep_fp d).

Lemma dedup_row_Some rows e child r : dedup_row rows e child = Some r ->
  exists old, rows !! r = Some old /\ dep_id old = child.
Proof.
  unfold dedup_row. destruct (e =? 0); [done|].
  destruct (rows !! N.to_nat (u32 e)) as [old|] eqn:Hr; [|done].
  case_bool_decide as Hk; simpl; [|done]. destruct (d_key old =? child.2) eqn:Hkey; [|done].
  intros [= <-]. exists old. split; [done|]. apply N.eqb_eq in Hkey.
  unfold dep_id. rewrite Hk, Hkey. by destruct child.
Qed.

(** The Vec grows by one row, or one row of the same query is overwritten. *)
Lemma record_dep_cases rows idx child fp dur :
  let rows' := (record_dep rows idx child fp dur).1 in
  rows' = rows ++ [mkDep child.1 child.2 fp dur] \/
  exists r old, rows !! r = Some old /\ dep_id old = child /\
                rows' = <[r := mkDep child.1 child.2 fp dur]> rows.
Proof.
  unfold record_dep. destruct (dedup_row _ _ _) as [r|] eqn:Hr; simpl; [right|by left].
  apply dedup_row_Some in Hr as (old & ? & ?). by exists r, old.
Qed.

Lemma dep_id_mk (child : qid) fp dur : dep_id (mkDep child.1 child.2 fp dur) = child.
Proof. by destruct child. Qed.

(** Every row afterwards is the recorded one or an old one; the recorded query has a row;
    old queries keep one. *)
Lemma record_dep_sound rows idx child fp dur row :
  row ∈ (record_dep rows idx child fp dur).1 ->
  row = mkDep child.1 child.2 fp dur \/ row ∈ rows.
Proof.
  destruct (record_dep_cases rows idx child fp dur) as [->|(r & old & Hr & _ & ->)].
  - rewrite elem_of_app, list_elem_of_singleton. tauto.
  - intros [i Hi]%list_elem_of_lookup. apply list_lookup_insert_Some in Hi as [(-> & <- & _)|[_ Hi]].
    + by left.
    + right. by apply list_elem_of_lookup_2 in Hi.
Qed.

Lemma record_dep_ids rows idx child fp dur q :
  q ∈ map dep_id (record_dep rows idx child fp dur).1 <-> q = child \/ q ∈ map dep_id rows.
Proof.
  destruct (record_dep_cases rows idx child fp dur) as [->|(r & old & Hr & Hid & ->)].
  - rewrite map_app, elem_of_app. simpl. rewrite dep_id_mk, list_elem_of_singleton. tauto.
  - change (map dep_id) with (fmap (M:=list) dep_id).
    rewrite list_fmap_insert, dep_id_mk.
    rewrite (list_insert_id (dep_id <$> rows) r child);
      [|by rewrite list_lookup_fmap, Hr; simpl; rewrite Hid].
    split; [by right|]. intros [->|?]; [|done].
    rewrite <- Hid. apply list_elem_of_fmap_2. by apply list_elem_of_lookup_2 in Hr.
Qed.

(** Recording again what the Vec already says changes nothing but durabilities and a
    possible duplicate at the end. *)
Lemma record_dep_again rows idx child fp dur :
  (forall row, row ∈ rows -> dep_id row = child -> dep_fp row = fp) ->
  exists ext, map idfp (record_dep rows idx child fp dur).1 = map idfp rows ++ ext /\
              forall e, e ∈ ext -> e = (child, fp).
Proof.
  intros Hsame. destruct (record_dep_cases rows idx child fp dur) as [->|(r & old & Hr & Hid & ->)].
  - exists [(child, fp)]. rewrite map_app. unfold idfp at 2. simpl. rewrite dep_id_mk.
    split; [done|]. intros e. by rewrite list_elem_of_singleton.
  - exists []. rewrite app_nil_r. split; [|by intros e ?%elem_of_nil].
    change (map idfp) with (fmap (M:=list) idfp). rewrite list_fmap_insert.
    apply list_insert_id. rewrite list_lookup_fmap, Hr. simpl. unfold idfp.
    rewrite dep_id_mk, Hid. simpl. do 2 f_equal. apply Hsame; [|done].
    by apply list_elem_of_lookup_2 in Hr.
Qed.

End EngineFacts.
