(* ===== verification/EngineInv.v ===== *)
(** * The invariant of the query engine, and that a query computes what scratch does

    [Good hist d]: every DONE slot holds what evaluation from scratch gives on the inputs
    of the revision it was last verified at ([hist] gives the inputs of every revision),
    with exactly the dependencies of that evaluation and their fingerprints.  [query_ok]:
    from a good database a query returns the value of scratch evaluation on the current
    inputs, leaves a good database, and touches above its own rank only the frame that
    asked. *)

From stdpp Require Import gmap.
From S2P Require Import Prelude Engine Query EngineSpec EngineFacts.
Import Engine Query EngineSpec EngineFacts.

Module EngineInv.

#[local] Open Scope N_scope.

(** ** Reading after writing *)

Section Reads.
Context {V : Type}.
Implicit Types (d : Db V) (q : qid).

Lemma slots_upd_hot q f d q' :
  slots (upd_hot q f d) !! q' =
  if decide (q = q') then (fun sl => mkSlot (f (hot sl)) (cold sl)) <$> slots d !! q'
  else slots d !! q'.
Proof.
  unfold upd_hot. simpl. destruct (decide (q = q')) as [->|];
    [by rewrite lookup_alter_eq|by rewrite lookup_alter_ne].
Qed.

Lemma slots_upd_cold q f d q' :
  slots (upd_cold q f d) !! q' =
  if decide (q = q') then (fun sl => mkSlot (hot sl) (f (cold sl))) <$> slots d !! q'
  else slots d !! q'.
Proof.
  unfold upd_cold. simpl. destruct (decide (q = q')) as [->|];
    [by rewrite lookup_alter_eq|by rewrite lookup_alter_ne].
Qed.

(** The rows a frame's pointer shows. *)
Definition frame_rows d (f : QueryFrame) : list QueryDep :=
  if f_deps f then dep_rows d (frame_id f) else [].

(** What recording into the frame below the top and popping does. *)
Definition frame_recorded (dur : Durability) (p : QueryFrame) : QueryFrame :=
  fold_durability dur (set_f_dep_index true (set_f_deps true p)).

Lemma frame_recorded_id dur p : frame_id (frame_recorded dur p) = frame_id p.
Proof. unfold frame_recorded, fold_durability. destruct p; simpl. by destruct (_ || _). Qed.

Lemma frame_recorded_deps dur p : f_deps (frame_recorded dur p) = true.
Proof. unfold frame_recorded, fold_durability. destruct p; simpl. by destruct (_ || _). Qed.

Lemma frame_recorded_dur dur p :
  dur_set (frame_recorded dur p) = true /\
  min_input_dur (frame_recorded dur p) =
    if dur_set p then N.min dur (min_input_dur p) else dur.
Proof.
  unfold frame_recorded, fold_durability. destruct p as [k key dp di m s sk]; simpl.
  destruct s; simpl; [|done]. destruct (dur <? m) eqn:E; breflect; simpl; split; [done|lia|done|lia].
Qed.

Lemma pop_recorded q fp dur d f rest : query_stack d = f :: rest ->
  let d' := query_stack_pop (record_dep_on_parent q fp dur 1 d) in
  slots d' = slots d /\ results d' = results d /\ rev_control d' = rev_control d /\
  dur_last_changed d' = dur_last_changed d /\ cancel_requested d' = cancel_requested d /\
  scc_store d' = scc_store d /\
  match rest with
  | [] => query_stack d' = [] /\ dep_vecs d' = dep_vecs d
  | p :: rest' =>
      query_stack d' = frame_recorded dur p :: rest' /\
      (exists idx, dep_rows d' (frame_id p) = (record_dep (frame_rows d p) idx q fp dur).1) /\
      forall q', q' <> frame_id p -> dep_vecs d' !! q' = dep_vecs d !! q'
  end.
Proof.
  intros Hst. unfold record_dep_on_parent. rewrite Hst. simpl.
  destruct rest as [|p rest']; simpl.
  { unfold query_stack_pop. simpl. by rewrite Hst. }
  set (d1 := if f_deps p then d else put_rows (frame_id p) [] d).
  set (d2 := if f_dep_index p then d1 else put_idx (frame_id p) ∅ d1).
  assert (Hrows : dep_rows d2 (frame_id p) = frame_rows d p).
  { unfold d2, d1, frame_rows, dep_rows. destruct (f_dep_index p), (f_deps p); simpl; try done.
    all: by rewrite lookup_insert_eq. }
  assert (Hsame : slots d2 = slots d /\ results d2 = results d /\ rev_control d2 = rev_control d /\
     dur_last_changed d2 = dur_last_changed d /\ cancel_requested d2 = cancel_requested d /\
     scc_store d2 = scc_store d /\ query_stack d2 = query_stack d /\
     forall q', q' <> frame_id p -> dep_vecs d2 !! q' = dep_vecs d !! q').
  { unfold d2, d1. destruct (f_dep_index p), (f_deps p); simpl; repeat (split; [done|]);
      intros q' Hq'; try done; by rewrite lookup_insert_ne. }
  destruct Hsame as (H1 & H2 & H3 & H4 & H5 & H6 & H7 & H8).
  rewrite Hrows. destruct (record_dep (frame_rows d p) (dep_idx d2 (frame_id p)) q fp dur)
    as [rows idx] eqn:Hrec.
  unfold query_stack_pop. simpl. rewrite H7, Hst. simpl. repeat (split; [done|]). split.
  - exists (dep_idx d2 (frame_id p)). rewrite Hrec. simpl. unfold dep_rows. simpl.
    by rewrite lookup_insert_eq.
  - intros q' Hq'. rewrite lookup_insert_ne by done. by apply H8.
Qed.

End Reads.

(** ** The invariant *)

Section Inv.
Context {V : Type} (L : Layer V) (rank : qid -> nat) (known : qid -> Prop)
        (tier : qid -> Durability).
Context (W : well_layered L rank known tier) (hist : N -> qid -> V).
Implicit Types (d : Db V) (q : qid).

#[local] Abbreviation scr := (scratch L rank).
#[local] Abbreviation dps := (deps_of L rank).

Definition now d : qid -> V := hist (db_current_revision d).
Definition ids d : list qid := map frame_id (query_stack d).

(** A recorded dependency is one of the run's, with its fingerprint. *)
Definition dep_ok (inp : qid -> V) q (row : QueryDep) : Prop :=
  dep_id row ∈ dps inp q /\ dep_fp row = (scr inp (dep_id row)).2.

Definition deps_ok (inp : qid -> V) q (rows : list QueryDep) : Prop :=
  (forall row, row ∈ rows -> dep_ok inp q row) /\
  (forall k, k ∈ dps inp q -> k ∈ map dep_id rows).

(** The contents of a DONE slot. *)
Definition value_ok d q (h : QuerySlotHot) : Prop :=
  let inp := hist (verified_rev h) in
  verified_rev h <= db_current_revision d /\ durability h = tier q /\
  results d !! q = Some (scr inp q).1 /\ fingerprint h = (scr inp q).2 /\
  if db_query_kind_is_input q.1
  then deps h = false /\ inp q = now d q
  else deps_ok inp q (slot_rows d q h).

Definition slot_ok d q (sl : QuerySlot) : Prop :=
  known q /\ provisional (hot sl) = false /\
  match state (hot sl) with
  | QUERY_EMPTY => deps (hot sl) = false /\ db_query_kind_is_input q.1 = false
  | QUERY_RUNNING => q ∈ ids d
  | QUERY_DONE => value_ok d q (hot sl)
  | QUERY_ERROR => False
  end.

Record Good d : Prop := {
  g_slot q sl : slots d !! q = Some sl -> slot_ok d q sl;
  g_rows q : known q -> hashmap_routed q.1 = false -> is_Some (slots d !! q);
  g_stack f : f ∈ query_stack d ->
    exists sl, slots d !! frame_id f = Some sl /\ state (hot sl) = QUERY_RUNNING;
  g_hist x r : known x -> db_query_kind_is_input x.1 = true ->
    last_changed d (tier x) <= r -> r <= db_current_revision d -> hist r x = now d x;
  g_tiers (t t' : N) : t <= t' -> t' < DUR_COUNT -> last_changed d t' <= last_changed d t;
  g_cancel : cancel_requested d = false;
  g_scc : scc_store d = None
}.

(** A request is open and pinned to the current revision. *)
Definition Open d : Prop := db_effective_revision d = db_current_revision d.

(** The engine's control state. *)
Definition same_control d d' : Prop :=
  rev_control d' = rev_control d /\ dur_last_changed d' = dur_last_changed d /\
  cancel_requested d' = cancel_requested d /\ scc_store d' = scc_store d.

#[global] Instance same_control_preorder : PreOrder same_control.
Proof.
  split; [by repeat split|].
  intros d1 d2 d3 (A & B & C & D) (A' & B' & C' & D'). repeat split; congruence.
Qed.

Lemma same_control_now d d' : same_control d d' -> now d' = now d.
Proof. intros (H & _). unfold now, db_current_revision. by rewrite H. Qed.

Lemma same_control_cur d d' : same_control d d' ->
  db_current_revision d' = db_current_revision d.
Proof. intros (H & _). unfold db_current_revision. by rewrite H. Qed.

Lemma same_control_Open d d' : same_control d d' -> Open d -> Open d'.
Proof. intros (H & _). unfold Open, db_effective_revision, db_current_revision. by rewrite H. Qed.

(** To see that a database is still good, look at the slots that changed. *)
Lemma good_update (Q : qid -> Prop) d d' :
  Good d -> same_control d d' ->
  (forall q, {Q q} + {~ Q q}) ->
  (forall q, ~ Q q -> slots d' !! q = slots d !! q) ->
  (forall q sl, ~ Q q -> slots d !! q = Some sl -> state (hot sl) = QUERY_DONE ->
     results d' !! q = results d !! q /\ dep_vecs d' !! q = dep_vecs d !! q) ->
  (forall q, ~ Q q -> q ∈ ids d -> q ∈ ids d') ->
  (forall f, f ∈ query_stack d' ->
     exists sl, slots d' !! frame_id f = Some sl /\ state (hot sl) = QUERY_RUNNING) ->
  (forall q, Q q -> exists sl, slots d' !! q = Some sl /\ slot_ok d' q sl) ->
  Good d'.
Proof.
  intros HG Hc Qdec Hs Hd Hids Hst HQ.
  assert (Hcur := same_control_cur _ _ Hc). assert (Hnow := same_control_now _ _ Hc).
  destruct Hc as (Hrev & Hdlc & Hcan & Hscc).
  split.
  - intros q sl Hq. destruct (Qdec q) as [HQq|HQq].
    + destruct (HQ q HQq) as (sl' & Hsl' & Hok). by rewrite Hsl' in Hq; injection Hq as <-.
    + rewrite Hs in Hq by done. destruct (g_slot d HG q sl Hq) as (Hk & Hp & Hok).
      split; [done|]. split; [done|]. destruct (state (hot sl)) eqn:Est; [done|by apply Hids| |done].
      destruct (Hd q sl HQq Hq Est) as [Hr Hv].
      unfold value_ok in *. rewrite Hcur, Hnow, Hr. unfold slot_rows, dep_rows in *.
      by rewrite Hv.
  - intros q Hk Hh. destruct (Qdec q) as [HQq|HQq].
    + destruct (HQ q HQq) as (sl' & Hsl' & _). by exists sl'.
    + rewrite Hs by done. by apply (g_rows d HG).
  - done.
  - intros x r. unfold last_changed. rewrite Hdlc, Hcur, Hnow. apply (g_hist d HG).
  - intros t t'. unfold last_changed. rewrite Hdlc. apply (g_tiers d HG).
  - rewrite Hcan. apply HG.
  - rewrite Hscc. apply HG.
Qed.

(** ** What a query leaves behind *)

(** Above the rank of [q] only the asking frame and its rows change. *)
Definition asked q d d' : Prop :=
  match query_stack d with
  | [] => query_stack d' = [] /\
          forall q', (rank q < rank q')%nat -> dep_vecs d' !! q' = dep_vecs d !! q'
  | p :: rest =>
      query_stack d' = frame_recorded (tier q) p :: rest /\
      (exists idx, dep_rows d' (frame_id p) =
         (record_dep (frame_rows d p) idx q (scr (now d) q).2 (tier q)).1) /\
      forall q', (rank q < rank q')%nat -> q' <> frame_id p ->
                 dep_vecs d' !! q' = dep_vecs d !! q'
  end.

(** The slot of [q] is DONE, at the current revision, with its fingerprint. *)
Definition fresh q d : Prop :=
  exists sl, slots d !! q = Some sl /\ state (hot sl) = QUERY_DONE /\
             fingerprint (hot sl) = (scr (now d) q).2.

Record Pulled q d d' : Prop := {
  pl_good : Good d';
  pl_control : same_control d d';
  pl_fresh : fresh q d';
  pl_above q' : (rank q < rank q')%nat ->
    slots d' !! q' = slots d !! q' /\ results d' !! q' = results d !! q';
  pl_dom q' : is_Some (slots d !! q') -> is_Some (slots d' !! q');
  pl_stack : d' = d \/ asked q d d'
}.

(** What a caller of [query] must provide. *)
Record Callable q d : Prop := {
  c_known : known q;
  c_good : Good d;
  c_open : Open d;
  c_above f : f ∈ query_stack d -> (rank q < rank (frame_id f))%nat;
  c_depth : (length (query_stack d) + rank q < QUERY_STACK_CAPACITY)%nat
}.

(** ** Inside the frame of [q] *)

(** What [low] says of an accumulator: it stays at or above the tier of [q]. *)
Definition low q (f : QueryFrame) : Prop := dur_set f = true -> tier q <= min_input_dur f.

(** [d'] is reached from [d] while the frame of [q] is on top of [rest]. *)
Record Within q rest d d' : Prop := {
  w_good : Good d';
  w_control : same_control d d';
  w_slots q' : (rank q <= rank q')%nat -> slots d' !! q' = slots d !! q';
  w_results q' : (rank q < rank q')%nat -> results d' !! q' = results d !! q';
  w_vecs q' : (rank q <= rank q')%nat -> q' <> q -> dep_vecs d' !! q' = dep_vecs d !! q';
  w_frame : exists f, query_stack d' = f :: rest /\ frame_id f = q /\ low q f;
  w_dom q' : is_Some (slots d !! q') -> is_Some (slots d' !! q')
}.

Lemma Within_trans q rest d1 d2 d3 :
  Within q rest d1 d2 -> Within q rest d2 d3 -> Within q rest d1 d3.
Proof.
  intros [A1 B1 C1 D1 E1 F1 G1] [A2 B2 C2 D2 E2 F2 G2]. split; [done|by etrans|..].
  - intros q' H. by rewrite C2, C1.
  - intros q' H. by rewrite D2, D1.
  - intros q' H Hn. by rewrite E2, E1.
  - done.
  - auto.
Qed.

(** One nested call made from the frame of [q]. *)
Lemma Pulled_Within q dep rest d d' f :
  (rank dep < rank q)%nat -> tier q <= tier dep ->
  query_stack d = f :: rest -> frame_id f = q -> low q f ->
  Pulled dep d d' -> Within q rest d d'.
Proof.
  intros Hr Ht Hst Hf Hlow [HG Hc Hfr Hab Hdom [->|Has]].
  { split; try done. by exists f. }
  unfold asked in Has. rewrite Hst in Has. destruct Has as (Hst' & Hrows & Hv).
  split; [done|done|..].
  - intros q' Hq'. apply Hab. lia.
  - intros q' Hq'. apply Hab. lia.
  - intros q' Hq' Hne. apply Hv; [lia|congruence].
  - exists (frame_recorded (tier dep) f). split; [done|]. split; [by rewrite frame_recorded_id|].
    intros _. destruct (frame_recorded_dur (tier dep) f) as [_ ->].
    destruct (dur_set f) eqn:E; [|done]. specialize (Hlow E). lia.
  - done.
Qed.

(** ** The dep walk *)

Section Verify.
Context (pull : qid -> Db V -> outcome (Db V)).

Definition pull_ok (n : nat) : Prop := forall q d, (rank q < n)%nat -> Callable q d ->
  exists d', pull q d = Ret d' /\ Pulled q d d'.

(** The walk compares what the run at revision [r0] recorded ([o]) with the present. *)
Lemma walk_ok q r0 (o : list (qid * Fingerprint)) rest :
  pull_ok (rank q) -> known q -> db_query_kind_is_input q.1 = false ->
  (length rest + rank q < QUERY_STACK_CAPACITY)%nat ->
  (forall g, g ∈ rest -> (rank q < rank (frame_id g))%nat) ->
  (forall e, e ∈ o -> e.1 ∈ dps (hist r0) q /\ e.2 = (scr (hist r0) e.1).2) ->
  forall todo i d f ext,
  Good d -> Open d -> query_stack d = f :: rest -> frame_id f = q -> f_deps f = true ->
  low q f ->
  map idfp (dep_rows d q) = o ++ ext -> (forall e, e ∈ ext -> e ∈ o) ->
  (i + todo)%nat = length o -> (forall e, e ∈ take i o -> e.2 = (scr (now d) e.1).2) ->
  exists b d', verify_walk pull q todo i d = Ret (b, d') /\ Within q rest d d' /\
    results d' !! q = results d !! q /\
    (b = true -> (exists ext', map idfp (dep_rows d' q) = o ++ ext' /\ forall e, e ∈ ext' -> e ∈ o)
                 /\ forall e, e ∈ o -> e.2 = (scr (now d) e.1).2) /\
    (b = false -> exists e, e ∈ o /\ (slots d !! e.1 = None \/ e.2 <> (scr (now d) e.1).2)).
Proof.
  intros Hpull Hk Hni Hcap Hrest Ho. induction todo as [|todo IH];
    intros i d f ext HG HO Hst Hf Hfd Hlow Hrows Hext Hlen Hdone; simpl.
  { exists true, d. split; [done|]. split; [split; try done; by exists f|]. split; [done|].
    split; [|done]. intros _. split; [by exists ext|]. by rewrite firstn_all2 in Hdone by lia. }
  destruct (lookup_lt_is_Some_2 o i) as [e He]; [lia|].
  assert (Hrow : (map idfp (dep_rows d q)) !! i = Some e).
  { rewrite Hrows. by apply lookup_app_l_Some. }
  rewrite list_lookup_fmap in Hrow. destruct (dep_rows d q !! i) as [dep|] eqn:Hdep; [|done].
  simpl in Hrow. injection Hrow as He'. unfold idfp in He'. subst e.
  destruct (Ho _ (list_elem_of_lookup_2 _ _ _ He)) as [Hin Hfp]. simpl in Hin, Hfp.
  destruct (deps_of_ok L rank known tier W (hist r0) q _ Hk Hni Hin) as (Hdk & Hdr & Hdt).
  assert (Hcall : Callable (dep_id dep) d).
  { split; [done|done|done|..].
    - rewrite Hst. intros g [->|Hg]%elem_of_cons; [by rewrite Hf|]. specialize (Hrest g Hg). lia.
    - rewrite Hst. simpl. lia. }
  destruct (Hpull _ d Hdr Hcall) as (d1 & -> & HP). simpl.
  assert (HW := Pulled_Within q (dep_id dep) rest d d1 f Hdr Hdt Hst Hf Hlow HP).
  destruct (pl_fresh _ _ _ HP) as (sl1 & Hsl1 & Hst1 & Hfp1).
  assert (Hnow : now d1 = now d) by apply same_control_now, HP.
  assert (Hres : results d1 !! q = results d !! q) by by apply (pl_above _ _ _ HP).
  match goal with |- context [if ?b then _ else _] => destruct b eqn:Hb end.
  2:{ exists false, d1. split; [done|]. split; [done|]. split; [done|]. split; [done|]. intros _.
      exists (dep_id dep, dep_fp dep). split; [by apply list_elem_of_lookup_2 in He|]. simpl.
      destruct (slots d !! dep_id dep) as [sl0|] eqn:Hsl0; [right|by left].
      unfold db_engine_locate_slot, db_slot_state, db_slot_fingerprint, db_engine_locate_slot,
        db_engine_route_slot in Hb. rewrite Hsl0, Hsl1 in Hb. simpl in Hb.
      rewrite (bool_decide_true _ Hst1) in Hb. simpl in Hb. apply N.eqb_neq in Hb.
      rewrite <- Hnow, <- Hfp1. congruence. }
  apply andb_true_iff in Hb as [_ Hb%N.eqb_eq].
  unfold db_slot_fingerprint, db_engine_locate_slot, db_engine_route_slot in Hb.
  rewrite Hsl1 in Hb. simpl in Hb. rewrite Hfp1, Hnow in Hb.
  destruct (w_frame _ _ _ _ HW) as (f1 & Hst1' & Hf1 & Hlow1).
  assert (Hrec : f_deps f1 = true /\ exists ext1, map idfp (dep_rows d1 q) = o ++ ext1 /\
            forall e, e ∈ ext1 -> e ∈ o).
  { destruct (pl_stack _ _ _ HP) as [->|Has].
    { rewrite Hst in Hst1'. injection Hst1' as <-. split; [done|]. by exists ext. }
    unfold asked in Has. rewrite Hst in Has. destruct Has as (Hst2 & (idx & Hr2) & _).
    rewrite Hst1' in Hst2. injection Hst2 as ->. split; [apply frame_recorded_deps|].
    unfold frame_rows in Hr2. rewrite Hfd, Hf in Hr2. rewrite Hr2.
    assert (Hin_o : (dep_id dep, dep_fp dep) ∈ o) by by apply list_elem_of_lookup_2 in He.
    assert (Hsame : forall row, row ∈ dep_rows d q -> dep_id row = dep_id dep ->
              dep_fp row = (scr (now d) (dep_id dep)).2).
    { intros row Hrow Hid.
      assert (Hrin : idfp row ∈ o ++ ext)
        by (rewrite <- Hrows; by apply list_elem_of_fmap_2).
      assert (Hro : idfp row ∈ o) by (apply elem_of_app in Hrin as [|]; [done|by apply Hext]).
      destruct (Ho _ Hro) as [_ Hrfp]. simpl in Hrfp. rewrite Hrfp, Hid.
      by rewrite <- Hfp, Hb. }
    destruct (record_dep_again (dep_rows d q) idx (dep_id dep) _ (tier (dep_id dep)) Hsame)
      as (ext1 & -> & Hext1).
    exists (ext ++ ext1). rewrite Hrows, app_assoc. split; [done|].
    intros e [He1|He1]%elem_of_app; [by apply Hext|]. rewrite (Hext1 e He1). by rewrite Hb. }
  destruct Hrec as (Hfd1 & ext1 & Hrows1 & Hext1).
  destruct (IH (S i) d1 f1 ext1) as (b & d' & Hw & HW' & Hr' & Hb' & Hn'); try done.
  - apply HP.
  - eapply same_control_Open; [apply HP|done].
  - lia.
  - intros e. rewrite (take_S_r _ _ _ He), elem_of_app, Hnow, list_elem_of_singleton.
    intros [?| ->]; [by apply Hdone|]. simpl. done.
  - exists b, d'. split; [done|]. split; [by eapply Within_trans|].
    split; [by rewrite Hr'|]. rewrite <- Hnow. split; [done|]. intros Hbf.
    destruct (Hn' Hbf) as (e' & Hin' & [Hno|Hne]); exists e'; (split; [done|]); [left|by right].
    destruct (slots d !! e'.1) eqn:E; [|done].
    destruct (pl_dom _ _ _ HP e'.1) as [? ?]; [by eexists|congruence].
Qed.

(** A value whose dependencies kept their fingerprints is the current one. *)
Lemma value_ok_advance d q h :
  known q -> value_ok d q h ->
  (db_query_kind_is_input q.1 = false -> forall dep, dep ∈ dps (hist (verified_rev h)) q ->
     (scr (now d) dep).2 = (scr (hist (verified_rev h)) dep).2) ->
  value_ok d q (set_verified_rev (db_current_revision d) h).
Proof.
  intros Hk (Hle & Hdur & Hres & Hfp & Hrest) Hdeps. unfold value_ok. simpl.
  change (hist (db_current_revision d)) with (now d).
  destruct (db_query_kind_is_input q.1) eqn:Hi.
  - destruct Hrest as [Hd Hsame]. rewrite !scratch_input in * by done.
    rewrite Hsame in *. done.
  - destruct (scratch_same L rank known tier W _ (now d) q Hk Hi (Hdeps eq_refl)) as [Hs Hds].
    rewrite Hs. repeat (split; [done|]). unfold slot_rows in *. simpl.
    destruct Hrest as [H1 H2]. split; [|by rewrite Hds].
    intros row Hrow. destruct (H1 row Hrow) as [Hin Hrfp]. split; [by rewrite Hds|].
    rewrite Hrfp. by rewrite Hdeps.
Qed.

(** The durability fast path: no input of the tier changed. *)
Lemma fast_path_sound d q h dep :
  Good d -> known q -> value_ok d q h -> last_changed d (durability h) <= verified_rev h ->
  db_query_kind_is_input q.1 = false ->
  dep ∈ dps (hist (verified_rev h)) q ->
  (scr (now d) dep).2 = (scr (hist (verified_rev h)) dep).2.
Proof.
  intros HG Hk (Hle & Hdur & _) Hlast Hi Hdep.
  destruct (deps_of_ok L rank known tier W _ q dep Hk Hi Hdep) as (Hdk & _ & Hdt).
  f_equal. apply (scratch_tier L rank known tier W _ _ dep Hdk).
  intros x Hx Hxi Htx. symmetry. apply (g_hist d HG); [done|done| |done].
  etrans; [|exact Hlast]. rewrite Hdur. apply (g_tiers d HG); [lia|].
  by apply (wl_tier _ _ _ _ W).
Qed.

Fixpoint has_asks (p : prog V) : bool :=
  match p with PRet _ _ => false | PAsk _ _ => true | PWrite _ p | PCancel p => has_asks p end.

Lemma has_asks_of_dep inp q dep : dep ∈ dps inp q -> has_asks (body L q) = true.
Proof.
  unfold deps_of. induction (body L q) as [| |v p IH|p IH]; simpl; [|done|done|done].
  by intros ?%elem_of_nil.
Qed.

Lemma verify_ok q d f rest sl :
  pull_ok (rank q) -> known q -> Good d -> Open d ->
  (length rest + rank q < QUERY_STACK_CAPACITY)%nat ->
  (forall g, g ∈ rest -> (rank q < rank (frame_id g))%nat) ->
  query_stack d = f :: rest -> frame_id f = q -> f_deps f = deps (hot sl) -> dur_set f = false ->
  slots d !! q = Some sl -> value_ok d q (hot sl) ->
  exists b d', db_engine_verify pull q d = Ret (b, d') /\
    if (b : bool) then
      exists d1, Within q rest d d1 /\ results d1 !! q = results d !! q /\
        (d' = d1 \/ d' = upd_hot q (set_verified_rev (db_current_revision d)) d1) /\
        value_ok d1 q (set_verified_rev (db_current_revision d) (hot sl))
    else Within q rest d d' /\ db_query_kind_is_input q.1 = false /\ has_asks (body L q) = true /\
      exists dep, dep ∈ dps (hist (verified_rev (hot sl))) q /\
        (slots d !! dep = None \/
         (scr (now d) dep).2 <> (scr (hist (verified_rev (hot sl))) dep).2).
Proof.
  intros Hpull Hk HG HO Hcap Hrest Hst Hf Hfd Hds Hsl Hok.
  assert (Hlow : low q f) by (unfold low; by rewrite Hds).
  assert (HWd : Within q rest d d) by (split; try done; by exists f).
  unfold db_engine_verify, db_engine_locate_slot, db_engine_route_slot. rewrite Hsl. simpl.
  unfold Open in HO. rewrite HO.
  destruct (N.eqb_spec (verified_rev (hot sl)) (db_current_revision d)) as [Heq|Hne].
  { exists true, d. split; [done|]. exists d. split; [done|]. split; [done|]. split; [by left|].
    apply value_ok_advance; [done|done|]. intros _ dep _. unfold now. by rewrite Heq. }
  destruct ((durability (hot sl) <? DUR_COUNT) && _) eqn:Hfast.
  { breflect. exists true, (upd_hot q (set_verified_rev (db_current_revision d)) d).
    split; [done|]. exists d. split; [done|]. split; [done|]. split; [by right|].
    apply value_ok_advance; [done|done|]. intros Hi dep. by apply fast_path_sound. }
  destruct (db_query_kind_is_input q.1) eqn:Hi.
  { pose proof Hok as (_ & _ & _ & _ & Hin). rewrite Hi in Hin. destruct Hin as [Hnd _].
    unfold slot_rows. rewrite Hnd. simpl.
    exists true, (upd_hot q (set_verified_rev (db_current_revision d)) d).
    split; [done|]. exists d. split; [done|]. split; [done|]. split; [by right|].
    apply value_ok_advance; [done|done|]. by rewrite Hi. }
  pose proof Hok as (Hle & _ & _ & _ & Hdeps). rewrite Hi in Hdeps. destruct Hdeps as [Hd1 Hd2].
  destruct (deps (hot sl)) eqn:Hdeps; unfold slot_rows in *; rewrite Hdeps in *; simpl.
  2:{ exists true, (upd_hot q (set_verified_rev (db_current_revision d)) d).
      split; [done|]. exists d. split; [done|]. split; [done|]. split; [by right|].
      apply value_ok_advance; [done|done|]. intros _ dep Hdep%Hd2. by apply elem_of_nil in Hdep. }
  set (r0 := verified_rev (hot sl)) in *. set (o := map idfp (dep_rows d q)).
  assert (Ho : forall e, e ∈ o -> e.1 ∈ dps (hist r0) q /\ e.2 = (scr (hist r0) e.1).2).
  { intros e (row & -> & Hrow)%list_elem_of_fmap. by apply Hd1. }
  destruct (walk_ok q r0 o rest Hpull Hk Hi Hcap Hrest Ho (length (dep_rows d q)) 0 d f [])
    as (b & d1 & Hw & HW & Hres & Hb & Hnb); try done.
  - by rewrite app_nil_r.
  - by intros e ?%elem_of_nil.
  - unfold o. by rewrite length_map.
  - by intros e ?%elem_of_nil.
  - rewrite Hw. simpl. destruct b.
    + exists true, (upd_hot q (set_verified_rev (db_current_revision d)) d1).
      split; [done|]. exists d1. split; [done|]. split; [done|]. split; [by right|].
      destruct (Hb eq_refl) as [(ext & Hrows & Hext) Hsame].
      assert (Hc := w_control _ _ _ _ HW).
      rewrite <- (same_control_cur _ _ Hc). apply value_ok_advance; [done| |].
      * destruct Hok as (_ & Hdur & Hr & Hfp & _). unfold value_ok. fold r0.
        rewrite (same_control_cur _ _ Hc), Hi, Hres. repeat (split; [done|]).
        unfold slot_rows. rewrite Hdeps.
        assert (Hall : forall e, e ∈ map idfp (dep_rows d1 q) -> e ∈ o).
        { intros e. rewrite Hrows, elem_of_app. intros [?|?]; [done|by apply Hext]. }
        split.
        -- intros row Hrow. apply (Ho (idfp row)). apply Hall. by apply list_elem_of_fmap_2.
        -- intros k (row & -> & Hrow)%Hd2%list_elem_of_fmap.
           assert (Hk' : idfp row ∈ map idfp (dep_rows d1 q)).
           { rewrite Hrows, elem_of_app. left. by apply list_elem_of_fmap_2. }
           apply list_elem_of_fmap in Hk' as (row' & Hid & Hrow').
           apply (f_equal fst) in Hid. simpl in Hid. rewrite Hid. by apply list_elem_of_fmap_2.
      * intros _ dep (row & -> & Hrow)%Hd2%list_elem_of_fmap. fold r0.
        assert (Hro : idfp row ∈ o) by by apply list_elem_of_fmap_2.
        destruct (Ho _ Hro) as [_ H2]. rewrite (same_control_now _ _ Hc).
        specialize (Hsame _ Hro). simpl in H2, Hsame. rewrite <- Hsame. exact H2.
    + exists false, d1. split; [done|]. split; [done|]. split; [done|].
      destruct (dep_rows d q) as [|row rows] eqn:Er; [by simpl in Hw|].
      split; [apply (has_asks_of_dep (hist r0) q (dep_id row)); apply (Hd1 row); by left|].
      destruct (Hnb eq_refl) as (e & Hin & He). exists e.1.
      destruct (Ho e Hin) as [He1 He2]. split; [done|]. rewrite <- He2.
      destruct He as [He|He]; [by left|right; congruence].
Qed.

End Verify.

(** ** Leaving the frame of [q] *)

(** Everything at the rank of [q] or above, [q] apart, is as before; the stack is not
    compared. *)
Record Around q d d' : Prop := {
  a_control : same_control d d';
  a_slots q' : (rank q <= rank q')%nat -> q' <> q -> slots d' !! q' = slots d !! q';
  a_results q' : (rank q < rank q')%nat -> results d' !! q' = results d !! q';
  a_vecs q' : (rank q <= rank q')%nat -> q' <> q -> dep_vecs d' !! q' = dep_vecs d !! q';
  a_dom q' : is_Some (slots d !! q') -> is_Some (slots d' !! q')
}.

Lemma Around_Within q rest d d1 d2 : Around q d d1 -> Within q rest d1 d2 -> Around q d d2.
Proof.
  intros [A B C D E] [_ A' B' C' D' _ E']. split; [by etrans|..].
  - intros q' H Hn. by rewrite B', B.
  - intros q' H. by rewrite C', C.
  - intros q' H Hn. by rewrite D', D.
  - auto.
Qed.

(** The end of [db_query_begin] and of [db_query_succeed]: the slot is DONE and current,
    the dependency is recorded on the parent, the frame popped.  [d2] is the good
    database before the slot of [q] was written, [d1] after. *)
Record Finishing q d d2 d1 (f : QueryFrame) sl : Prop := {
  fi_call : Callable q d;
  fi_good : Good d2;
  fi_stack : query_stack d2 = f :: query_stack d;
  fi_frame : frame_id f = q;
  fi_around : Around q d d2;
  fi_slot : slots d1 !! q = Some sl;
  fi_done : state (hot sl) = QUERY_DONE;
  fi_prov : provisional (hot sl) = false;
  fi_vr : verified_rev (hot sl) = db_current_revision d;
  fi_value : value_ok d1 q (hot sl);
  fi_slots q' : q' <> q -> slots d1 !! q' = slots d2 !! q';
  fi_results q' : q' <> q -> results d1 !! q' = results d2 !! q';
  fi_vecs : dep_vecs d1 = dep_vecs d2;
  fi_stack1 : query_stack d1 = query_stack d2;
  fi_control : same_control d2 d1
}.

Definition finish q d d1 : Db V :=
  query_stack_pop (record_dep_on_parent q (scr (now d) q).2 (tier q) 1 d1).

(** The fields of [finish], compared with those of [d2]. *)
Lemma finish_fields q d d2 d1 f sl : Finishing q d d2 d1 f sl ->
  slots (finish q d d1) = slots d1 /\ results (finish q d d1) = results d1 /\
  same_control d1 (finish q d d1) /\ asked q d (finish q d d1) /\
  dep_vecs (finish q d d1) !! q = dep_vecs d1 !! q /\
  (forall q', q' ∈ ids (finish q d d1) <-> q' ∈ ids d) /\
  forall q', (forall pf, head (query_stack d) = Some pf -> q' <> frame_id pf) ->
             dep_vecs (finish q d d1) !! q' = dep_vecs d2 !! q'.
Proof.
  intros [[Hk HG HO Habove Hdepth] HG2 Hst2 Hf HA Hsl Hdone Hprov Hvr Hok Hos Hor Hv1 Hst1 Hc1].
  rewrite Hst2 in Hst1.
  destruct (pop_recorded q (scr (now d) q).2 (tier q) d1 f (query_stack d) Hst1)
    as (E1 & E2 & E3 & E4 & E5 & E6 & E7).
  fold (finish q d d1) in *.
  assert (Hvec : forall q', (forall pf, head (query_stack d) = Some pf -> q' <> frame_id pf) ->
            dep_vecs (finish q d d1) !! q' = dep_vecs d2 !! q').
  { intros q' Hq'. rewrite <- Hv1. destruct (query_stack d) as [|pf rest'].
    - destruct E7 as [_ E7]. by rewrite E7.
    - destruct E7 as (_ & _ & E7). apply E7. by apply Hq'. }
  assert (Hhead : forall pf, head (query_stack d) = Some pf -> (rank q < rank (frame_id pf))%nat).
  { intros pf Hpf. apply Habove. destruct (query_stack d); [done|]. injection Hpf as ->. by left. }
  split; [done|]. split; [done|]. split; [done|]. split; [|split; [|split; [|done]]].
  - unfold asked. destruct (query_stack d) as [|pf rest'].
    + destruct E7 as [E7 E8]. split; [done|]. intros q' Hq'.
      rewrite Hvec by done. apply HA; [lia|]. intros ->. lia.
    + destruct E7 as (E7 & (idx & E8) & E9). split; [done|].
      specialize (Hhead pf eq_refl). assert (Hne : frame_id pf <> q) by (intros <-; lia).
      split.
      * exists idx. rewrite E8. unfold frame_rows, dep_rows. rewrite Hv1.
        by rewrite (a_vecs _ _ _ HA (frame_id pf)) by (done || lia).
      * intros q' Hq' Hne'. rewrite Hvec by (intros pf' [= ->]; done).
        apply HA; [lia|]. intros ->. lia.
  - rewrite Hvec, Hv1; [done|]. intros pf Hpf%Hhead Heq. rewrite <- Heq in Hpf. lia.
  - intros q'. unfold ids. destruct (query_stack d) as [|pf rest'].
    + by destruct E7 as [-> _].
    + destruct E7 as [-> _]. simpl. by rewrite frame_recorded_id.
Qed.

Lemma finish_good q d d2 d1 f sl : Finishing q d d2 d1 f sl -> Good (finish q d d1).
Proof.
  intros F. destruct (finish_fields _ _ _ _ _ _ F) as (E1 & E2 & E3 & _ & Evq & Eids & Evec).
  destruct F as [[Hk HG HO Habove Hdepth] HG2 Hst2 Hf HA Hsl Hdone Hprov Hvr Hok Hos Hor Hv1 Hst1 Hc1].
  assert (Hcur := same_control_cur _ _ E3). assert (Hnow := same_control_now _ _ E3).
  apply (good_update (fun q' => q' = q) d2 (finish q d d1) HG2).
  - by etrans.
  - intros q'. destruct (decide (q' = q)); [by left|by right].
  - intros q' Hq'. rewrite E1. by apply Hos.
  - intros q' sl' Hq' Hsl' Hd'. split; [rewrite E2; by apply Hor|].
    apply Evec. intros pf Hpf ->.
    destruct (g_stack d2 HG2 pf) as (sl2 & Hsl2 & Hrun); [|congruence].
    rewrite Hst2. right. destruct (query_stack d); [done|]. injection Hpf as ->. by left.
  - intros q' Hq'. rewrite Eids. unfold ids. rewrite Hst2. simpl. rewrite Hf, elem_of_cons.
    by intros [|].
  - intros f' Hf'.
    assert (Hin : frame_id f' ∈ ids (finish q d d1)) by by apply list_elem_of_fmap_2.
    rewrite Eids in Hin. apply list_elem_of_fmap in Hin as (pf & Hpf & Hin). rewrite Hpf.
    destruct (g_stack d2 HG2 pf) as (sl2 & Hsl2 & Hrun); [rewrite Hst2; by right|].
    exists sl2. split; [|done]. rewrite E1, Hos; [done|]. intros Heq.
    apply Habove in Hin. rewrite Heq in Hin. lia.
  - intros q' ->. exists sl. rewrite E1. split; [done|]. split; [done|]. split; [done|].
    rewrite Hdone. unfold value_ok in *. rewrite Hcur, Hnow, E2.
    unfold slot_rows, dep_rows in *. by rewrite Evq.
Qed.

Lemma finish_ok q d d2 d1 f sl : Finishing q d d2 d1 f sl ->
  Pulled q d (finish q d d1) /\ asked q d (finish q d d1).
Proof.
  intros F. assert (HG := finish_good _ _ _ _ _ _ F).
  destruct (finish_fields _ _ _ _ _ _ F) as (E1 & E2 & E3 & Has & Evq & Eids & Evec).
  split; [|done]. split; [done|..].
  - etrans; [apply (fi_around _ _ _ _ _ _ F)|]. etrans; [apply (fi_control _ _ _ _ _ _ F)|done].
  - exists sl. rewrite E1. split; [apply F|]. split; [apply F|].
    destruct (fi_value _ _ _ _ _ _ F) as (_ & _ & _ & -> & _).
    rewrite (fi_vr _ _ _ _ _ _ F). change (hist (db_current_revision d)) with (now d).
    rewrite (same_control_now _ _ E3), (same_control_now _ _ (fi_control _ _ _ _ _ _ F)).
    by rewrite (same_control_now _ _ (a_control _ _ _ (fi_around _ _ _ _ _ _ F))).
  - intros q' Hq'. assert (Hne : q' <> q) by (intros ->; lia).
    rewrite E1, E2, (fi_slots _ _ _ _ _ _ F _ Hne), (fi_results _ _ _ _ _ _ F _ Hne).
    destruct (fi_around _ _ _ _ _ _ F) as [_ B C _ _]. split; [apply B; [lia|done]|by apply C].
  - intros q' Hq'. rewrite E1. destruct (decide (q' = q)) as [->|Hne].
    + exists sl. apply F.
    + rewrite (fi_slots _ _ _ _ _ _ F _ Hne). by apply (a_dom _ _ _ (fi_around _ _ _ _ _ _ F)).
  - by right.
Qed.

(** The telemetry counters are not part of any of this. *)
Lemma Pulled_stats q d d' k g : Pulled q d d' -> asked q d d' -> Pulled q d (upd_stats k g d').
Proof. intros [[] ? ? ? ? _] Has. split; [by split|done|done|done|done|by right]. Qed.

End Inv.
End EngineInv.
