(* ===== verification/EngineRun.v ===== *)
(** * A query returns what scratch evaluation gives

    The steps of the wrapper, one lemma each: admission ([begin_ok]), the body ([body_ok]),
    success ([compute_ok]), and the induction on the nesting of calls ([query_ok]). *)

From stdpp Require Import gmap.
From S2P Require Import Prelude Engine Query EngineSpec EngineFacts EngineInv.
Import Engine Query EngineSpec EngineFacts EngineInv.

Module EngineRun.

#[local] Open Scope N_scope.

Section Run.
Context {V : Type} (L : Layer V) (rank : qid -> nat) (known : qid -> Prop)
        (tier : qid -> Durability).
Context (W : well_layered L rank known tier) (hist : N -> qid -> V).
Implicit Types (d : Db V) (q : qid).

#[local] Abbreviation scr := (scratch L rank).
#[local] Abbreviation dps := (deps_of L rank).
#[local] Abbreviation Good := (Good L rank known tier hist).
#[local] Abbreviation Callable := (Callable L rank known tier hist).
#[local] Abbreviation Pulled := (Pulled L rank known tier hist).
#[local] Abbreviation asked := (asked L rank tier hist).
#[local] Abbreviation Within := (Within L rank known tier hist).
#[local] Abbreviation Around := (Around rank).
#[local] Abbreviation value_ok := (value_ok L rank tier hist).
#[local] Abbreviation now := (now hist).

(** ** Admission *)

(** The caller of [q] may compute: the slot is RUNNING, a frame with no dependencies is
    on top. *)
Record Computing q d d' f : Prop := {
  ad_good : Good d';
  ad_around : Around q d d';
  ad_stack : query_stack d' = f :: query_stack d;
  ad_frame : frame_id f = q;
  ad_low : low tier q f;
  ad_clean : dur_set f = true -> has_asks (body L q) = true;
  ad_rows : frame_rows d' f = [];
  ad_running : exists sl, slots d' !! q = Some sl /\ state (hot sl) = QUERY_RUNNING
}.

(** Entering: the slot becomes RUNNING and its frame is pushed. *)
Definition entered q (f : QueryFrame) d : Db V :=
  put_query_stack (f :: query_stack d) (upd_hot q (set_state QUERY_RUNNING) d).

Lemma entered_good q f d sl : Callable q d -> frame_id f = q ->
  slots d !! q = Some sl -> Good (entered q f d) /\ Around q d (entered q f d) /\
  slots (entered q f d) !! q = Some (mkSlot (set_state QUERY_RUNNING (hot sl)) (cold sl)).
Proof.
  intros [Hk HG HO Hab Hcap] Hf Hsl.
  assert (Hs : forall q', slots (entered q f d) !! q' =
     if decide (q = q') then (fun s => mkSlot (set_state QUERY_RUNNING (hot s)) (cold s)) <$> slots d !! q'
     else slots d !! q') by (intros q'; apply slots_upd_hot).
  assert (Hself : slots (entered q f d) !! q = Some (mkSlot (set_state QUERY_RUNNING (hot sl)) (cold sl))).
  { rewrite Hs, decide_True, Hsl by done. done. }
  split; [|split; [|done]].
  - apply (good_update L rank known tier hist (fun q' => q' = q) d); try done.
    + intros q'. destruct (decide (q' = q)); [by left|by right].
    + intros q' Hq'. rewrite Hs, decide_False by congruence. done.
    + intros q' _ Hq'. unfold ids. simpl. by right.
    + intros f' [->|Hf']%elem_of_cons.
      * rewrite Hf. eexists. split; [exact Hself|done].
      * destruct (g_stack _ _ _ _ _ d HG f' Hf') as (sl' & Hsl' & Hrun).
        rewrite Hs, decide_False; [by exists sl'|]. intros Heq. apply Hab in Hf'.
        rewrite Heq in Hf'. lia.
    + intros q' ->. eexists. split; [exact Hself|].
      destruct (g_slot _ _ _ _ _ d HG q sl Hsl) as (_ & Hp & _). split; [done|]. split; [done|].
      simpl. unfold ids. simpl. rewrite Hf. by left.
  - split; try done.
    + intros q' _ Hne. rewrite Hs, decide_False by congruence. done.
    + intros q'. rewrite Hs. destruct (decide (q = q')); [|done]. by rewrite fmap_is_Some.
Qed.

Lemma push_ok q b1 b2 d : (length (query_stack d) < QUERY_STACK_CAPACITY)%nat ->
  query_stack_push q b1 b2 d =
  Ret (put_query_stack (mkFrame q.1 q.2 b1 b2 DUR_HIGH false None :: query_stack d) d).
Proof. intros H. unfold query_stack_push. apply Nat.ltb_lt in H. by rewrite H. Qed.

(** A slot cleared for recomputation is still a good RUNNING slot. *)
Lemma clear_good q d f rest sl :
  Good d -> query_stack d = f :: rest -> frame_id f = q -> slots d !! q = Some sl ->
  state (hot sl) = QUERY_RUNNING ->
  let d' := db_engine_track_running q (upd_hot q (set_fingerprint FINGERPRINT_NONE)
              (clear_deps (frame_id f) (f_deps f) (f_dep_index f) d)) in
  Good d' /\ Around q d d' /\ query_stack d' = f :: rest /\ frame_rows d' f = [] /\
  exists sl', slots d' !! q = Some sl' /\ state (hot sl') = QUERY_RUNNING.
Proof.
  intros HG Hst Hf Hsl Hrun d'.
  assert (Hstk : query_stack d' = query_stack d).
  { unfold d', clear_deps. by destruct (f_deps f), (f_dep_index f). }
  assert (Hs : forall q', slots d' !! q' =
     if decide (q = q') then (fun s => mkSlot (set_fingerprint FINGERPRINT_NONE (hot s)) (cold s)) <$> slots d !! q'
     else slots d !! q').
  { intros q'. unfold d'. simpl. unfold clear_deps.
    destruct (f_deps f), (f_dep_index f); simpl; apply slots_upd_hot. }
  assert (Hself : slots d' !! q = Some (mkSlot (set_fingerprint FINGERPRINT_NONE (hot sl)) (cold sl))).
  { rewrite Hs, decide_True, Hsl by done. done. }
  assert (Hc : same_control d d').
  { unfold d', clear_deps. by destruct (f_deps f), (f_dep_index f). }
  assert (Hr : results d' = results d).
  { unfold d', clear_deps. by destruct (f_deps f), (f_dep_index f). }
  assert (Hv : forall q', q' <> q -> dep_vecs d' !! q' = dep_vecs d !! q').
  { intros q' Hq'. unfold d', clear_deps. destruct (f_deps f), (f_dep_index f); simpl; try done.
    all: rewrite lookup_insert_ne by congruence; done. }
  split; [|split; [|split; [by rewrite Hstk|split]]].
  - apply (good_update L rank known tier hist (fun q' => q' = q) d); try done.
    + intros q'. destruct (decide (q' = q)); [by left|by right].
    + intros q' Hq'. rewrite Hs, decide_False by congruence. done.
    + intros q' sl' Hq' _ _. split; [by rewrite Hr|by apply Hv].
    + intros q' _. unfold ids. by rewrite Hstk.
    + rewrite Hstk. intros f' Hf'. destruct (g_stack _ _ _ _ _ d HG f' Hf') as (sl' & Hsl' & Hrun').
      rewrite Hs. destruct (decide (q = frame_id f')) as [<-|]; [|by exists sl'].
      rewrite Hsl. simpl. eexists. split; [done|]. done.
    + intros q' ->. eexists. split; [exact Hself|].
      destruct (g_slot _ _ _ _ _ d HG q sl Hsl) as (Hk & Hp & _). split; [done|]. split; [done|].
      simpl. rewrite Hrun. unfold ids. rewrite Hstk, Hst. simpl. rewrite Hf. by left.
  - split; [done|..].
    + intros q' _ Hne. rewrite Hs, decide_False by congruence. done.
    + intros q' _. by rewrite Hr.
    + intros q' _ Hne. by apply Hv.
    + intros q'. rewrite Hs. destruct (decide (q = q')); [|done]. by rewrite fmap_is_Some.
  - unfold frame_rows. destruct (f_deps f) eqn:Hfd; [|done]. unfold dep_rows, d', clear_deps.
    rewrite Hf. destruct (f_dep_index f); simpl; by rewrite lookup_insert_eq.
  - eexists. split; [exact Hself|done].
Qed.

(** The bookkeeping half of a slot is not part of the invariant. *)
Lemma cold_good q g d : Good d -> Good (upd_cold q g d).
Proof.
  intros HG. assert (Hs : forall q', slots (upd_cold q g d) !! q' =
     if decide (q = q') then (fun sl => mkSlot (hot sl) (g (cold sl))) <$> slots d !! q'
     else slots d !! q') by (intros q'; apply slots_upd_cold).
  destruct HG as [H1 H2 H3 H4 H5 H6 H7]. split; try done.
  - intros q' sl'. rewrite Hs. destruct (decide (q = q')); [|apply H1].
    intros (sl & Hsl & ->)%fmap_Some. by apply (H1 q' sl).
  - intros q' Hk Hh. rewrite Hs. destruct (decide (q = q')); [|by apply H2].
    rewrite fmap_is_Some. by apply H2.
  - intros f Hf. destruct (H3 f Hf) as (sl & Hsl & Hrun). rewrite Hs.
    destruct (decide (q = frame_id f)); [|by exists sl]. rewrite Hsl. simpl. by eexists.
Qed.

(** What answering from the slot leaves of it. *)
Definition kept q sl d d' : Prop :=
  exists sl', slots d' !! q = Some sl' /\ cold sl' = cold sl /\
    hot sl' = set_verified_rev (db_current_revision d) (hot sl) /\
    results d' !! q = results d !! q.

(** Why it may not be answered from: a recorded dependency has changed. *)
Definition stale q sl d : Prop :=
  exists row, row ∈ slot_rows d q (hot sl) /\
    (slots d !! dep_id row = None \/ dep_fp row <> (scr (now d) (dep_id row)).2).

Section Begin.
Context (pull : qid -> Db V -> outcome (Db V)).

Lemma begin_cached_ok q d sl : pull_ok L rank known tier hist pull (rank q) -> Callable q d ->
  slots d !! q = Some sl -> state (hot sl) = QUERY_DONE ->
  exists r d', begin_cached pull q (hot sl) d = Ret (r, d') /\
    ((r = QUERY_BEGIN_CACHED /\ Pulled q d d' /\ asked q d d' /\
      results d' !! q = Some (scr (now d) q).1 /\ kept q sl d d') \/
     (r = QUERY_BEGIN_COMPUTE /\ db_query_kind_is_input q.1 = false /\
      (exists f, Computing q d d' f) /\ stale q sl d)).
Proof.
  intros Hpull HC Hsl Hdone. pose proof HC as [Hk HG HO Hab Hcap].
  destruct (g_slot _ _ _ _ _ d HG q sl Hsl) as (_ & Hprov & Hv). rewrite Hdone in Hv.
  unfold begin_cached. rewrite Hdone.
  rewrite push_ok by (simpl; lia). simpl.
  set (f := mkFrame q.1 q.2 (deps (hot sl)) (dep_index (hot sl)) DUR_HIGH false None).
  assert (Hf : frame_id f = q) by by destruct q.
  destruct (entered_good q f d sl HC Hf Hsl) as (HG1 & HA1 & Hsl1).
  change (put_query_stack _ _) with (entered q f d).
  set (sl1 := mkSlot (set_state QUERY_RUNNING (hot sl)) (cold sl)) in *.
  assert (Hst1 : query_stack (entered q f d) = f :: query_stack d) by done.
  assert (Hc1 := a_control _ _ _ _ HA1).
  destruct (verify_ok L rank known tier W hist pull q (entered q f d) f (query_stack d) sl1)
    as (b & d2 & -> & Hb); try done. simpl.
  destruct b.
  - destruct Hb as (d1 & HW & Hres & Hd2 & Hvn).
    assert (Hd1c := w_control _ _ _ _ _ _ _ _ _ HW).
    destruct (w_frame _ _ _ _ _ _ _ _ _ HW) as (f1 & Hst & Hf1 & _).
    assert (Hsl2 : slots d1 !! q = Some sl1).
    { rewrite (w_slots _ _ _ _ _ _ _ _ _ HW) by done. done. }
    set (cur := db_current_revision d) in *.
    assert (Hcur : db_effective_revision d2 = cur).
    { assert (HO1 : db_effective_revision d1 = db_current_revision d1)
        by (eapply same_control_Open; [exact Hd1c|done]).
      transitivity (db_effective_revision d1); [by destruct Hd2 as [->| ->]|].
      rewrite HO1. apply (same_control_cur _ _ Hd1c). }
    rewrite Hcur.
    set (d3 := upd_hot q (fun h => set_verified_rev cur (set_state QUERY_DONE h)) d2).
    set (h3 := set_verified_rev cur (set_state QUERY_DONE (hot sl1))).
    assert (Hsl3 : slots d3 !! q = Some (mkSlot h3 (cold sl1))).
    { unfold d3. rewrite slots_upd_hot, decide_True by done. destruct Hd2 as [->| ->].
      - by rewrite Hsl2.
      - rewrite slots_upd_hot, decide_True, Hsl2 by done. done. }
    assert (Hval : value_ok d3 q h3).
    { change (value_ok d2 q (set_verified_rev cur (hot sl1))).
      by destruct Hd2 as [->| ->]. }
    assert (HF : Finishing L rank known tier hist q d d1 d3 f1 (mkSlot h3 (cold sl1))).
    { split; try done; try apply HW.
      - by eapply Around_Within.
      - intros q' Hq'. unfold d3. rewrite slots_upd_hot, decide_False by congruence.
        destruct Hd2 as [->| ->]; [done|]. by rewrite slots_upd_hot, decide_False by congruence.
      - by destruct Hd2 as [->| ->].
      - by destruct Hd2 as [->| ->].
      - by destruct Hd2 as [->| ->].
      - by destruct Hd2 as [->| ->]. }
    unfold db_engine_locate_slot, db_slot_fingerprint, db_engine_locate_slot, db_engine_route_slot.
    rewrite Hsl3. simpl.
    pose proof Hval as (_ & Hdur & Hr3 & Hfp & _). simpl in Hdur, Hr3, Hfp.
    change (hist cur) with (now d) in Hr3, Hfp. rewrite Hdur, Hfp.
    destruct (finish_ok L rank known tier hist q d d1 d3 f1 _ HF) as [HP Has].
    eexists _, _. split; [done|]. left. split; [done|].
    split; [by apply Pulled_stats|]. split; [done|].
    simpl. destruct (finish_fields L rank known tier hist q d d1 d3 f1 _ HF) as (_ & Er & _).
    unfold finish in Er. simpl in Er. split; [by rewrite Er|].
    destruct (finish_fields L rank known tier hist q d d1 d3 f1 _ HF) as (Es & Er' & _).
    unfold finish in Es, Er'. simpl in Es, Er'. eexists. unfold finish. simpl.
    split; [by rewrite Es|]. split; [done|]. split.
    { simpl. destruct (hot sl). simpl in Hdone. by rewrite Hdone. }
    rewrite Er'. by destruct Hd2 as [->| ->].
  - destruct Hb as (HW & Hi & Hasks & dep & Hdep & Hch).
    destruct (w_frame _ _ _ _ _ _ _ _ _ HW) as (f1 & Hst & Hf1 & Hlow1).
    unfold db_query_stack_top. rewrite Hst. simpl.
    assert (Hsl2 : slots d2 !! q = Some sl1).
    { by rewrite (w_slots _ _ _ _ _ _ _ _ _ HW). }
    destruct (clear_good q d2 f1 (query_stack d) sl1) as (HG3 & HA3 & Hst3 & Hrows3 & Hrun3);
      try done; [apply HW|].
    eexists _, _. split; [done|]. right. split; [done|]. split; [done|]. split; cycle 1.
    { destruct Hv as (_ & _ & _ & _ & Hrows). rewrite Hi in Hrows. destruct Hrows as [Hr1 Hr2].
      apply Hr2 in Hdep as (row & -> & Hrow)%list_elem_of_fmap. exists row. split; [done|].
      destruct (Hr1 row Hrow) as [_ Hfp]. rewrite Hfp. destruct Hch as [Hch|Hch].
      - left. change (slots (upd_hot q (set_state QUERY_RUNNING) d) !! dep_id row = None) in Hch.
        rewrite slots_upd_hot in Hch. case_decide; [|done]. by apply fmap_None in Hch.
      - right. intros Heq. apply Hch. exact (eq_sym Heq). }
    exists f1.
    split; try done. 
    assert (HA12 := Around_Within L rank known tier hist q _ _ _ _ HA1 HW).
    destruct HA12 as [A B C D E], HA3 as [A' B' C' D' E']. split; [by etrans|..].
    + intros q' H Hn. by rewrite B', B.
    + intros q' H. by rewrite C', C.
    + intros q' H Hn. by rewrite D', D.
    + auto.
Qed.

Lemma begin_ok q d : pull_ok L rank known tier hist pull (rank q) -> Callable q d ->
  is_Some (slots d !! q) ->
  exists r d', db_query_begin pull q d = Ret (r, d') /\
    ((r = QUERY_BEGIN_CACHED /\ Pulled q d d' /\ asked q d d' /\
      results d' !! q = Some (scr (now d) q).1) \/
     (r = QUERY_BEGIN_COMPUTE /\ db_query_kind_is_input q.1 = false /\
      exists f, Computing q d d' f)).
Proof.
  intros Hpull HC [sl Hsl]. pose proof HC as [Hk HG HO Hab Hcap].
  unfold db_query_begin, db_check_cancel. rewrite (g_cancel _ _ _ _ _ _ HG).
  unfold db_engine_locate_slot, db_engine_route_slot. simpl. rewrite Hsl. simpl.
  set (d0 := upd_stats q.1 stat_begin d).
  assert (HC0 : Callable q d0).
  { split; try done. destruct HG. by split. }
  destruct (g_slot _ _ _ _ _ d HG q sl Hsl) as (_ & Hprov & Hst).
  destruct (state (hot sl)) eqn:Est; [| | |done].
  - destruct Hst as [Hd Hi].
    rewrite push_ok by (simpl; lia). simpl.
    set (f := mkFrame q.1 q.2 (deps (hot sl)) (dep_index (hot sl)) DUR_HIGH false None).
    assert (Hf : frame_id f = q) by by destruct q.
    destruct (entered_good q f d0 sl HC0 Hf Hsl) as (HG1 & HA1 & Hsl1).
    eexists _, _. split; [done|]. right. split; [done|]. split; [done|]. exists f.
    match goal with |- Computing q d ?x _ => set (d' := x) end.
    assert (HG2 : Good d').
    { destruct (cold_good q (set_routing_key q.2) _ HG1). by split. }
    assert (Hs : forall q', slots d' !! q' =
       if decide (q = q') then (fun s => mkSlot (hot s) (set_routing_key q.2 (cold s))) <$>
                               slots (entered q f d0) !! q'
       else slots (entered q f d0) !! q')
      by exact (slots_upd_cold q (set_routing_key q.2) (entered q f d0)).
    split; try done.
    + destruct HA1 as [A B C D E]. split; try done.
      * intros q' Hr Hne. rewrite Hs, decide_False by congruence. by apply B.
      * intros q' Hq'. rewrite Hs. destruct (decide (q = q')); [rewrite fmap_is_Some|]; by apply E.
    + unfold frame_rows. simpl. by rewrite Hd.
    + rewrite Hs, decide_True, Hsl1 by done. by eexists.
  - apply list_elem_of_fmap in Hst as (f & Hf & Hin). apply Hab in Hin. rewrite <- Hf in Hin. lia.
  - destruct (begin_cached_ok q d0 sl Hpull HC0 Hsl Est) as (r & d' & -> & Hr).
    exists r, d'. split; [done|]. destruct Hr as [(-> & HP & Has & Hr & _)|(-> & Hi & (f & HA) & _)].
    + left. split; [done|]. split; [|done]. destruct HP. split; try done. by right.
    + right. split; [done|]. split; [done|]. exists f. destruct HA as [? [] ?]. by split.
Qed.

End Begin.

(** ** The body *)

Section Ask.
Context (ask : qid -> Db V -> outcome (V * Db V)).

Definition ask_ok (n : nat) : Prop := forall q d, (rank q < n)%nat -> Callable q d ->
  exists d', ask q d = Ret ((scr (now d) q).1, d') /\ Pulled q d d' /\ asked q d d'.

(** The rows of the frame are those of the questions asked so far. *)
Definition rows_are (inp : qid -> V) (done : list qid) (rows : list QueryDep) : Prop :=
  (forall row, row ∈ rows -> dep_id row ∈ done /\ dep_fp row = (scr inp (dep_id row)).2) /\
  (forall k, k ∈ done -> k ∈ map dep_id rows).

Lemma rows_are_record inp done rows idx dep dur : rows_are inp done rows ->
  rows_are inp (done ++ [dep]) (record_dep rows idx dep (scr inp dep).2 dur).1.
Proof.
  intros [H1 H2]. split.
  - intros row Hrow. rewrite elem_of_app, list_elem_of_singleton.
    destruct (record_dep_sound _ _ _ _ _ _ Hrow) as [->|Hin].
    + rewrite dep_id_mk. split; [by right|done].
    + destruct (H1 row Hin). split; [by left|done].
  - intros k. rewrite elem_of_app, list_elem_of_singleton, record_dep_ids.
    intros [Hk| ->]; [right; by apply H2|by left].
Qed.

(** The accumulator of the frame, against that of [prog_ok]. *)
Definition acc_ok (acc : option Durability) (f : QueryFrame) (p : prog V) : Prop :=
  match acc with
  | Some m => dur_set f = true /\ min_input_dur f <= m
  | None => dur_set f = true -> has_asks p = true
  end.

Lemma acc_ok_record acc f p p' t : acc_ok acc f p ->
  acc_ok (Some (N.min t (default t acc))) (frame_recorded t f) p'.
Proof.
  intros H. destruct (frame_recorded_dur t f) as [H1 H2]. split; [done|]. rewrite H2.
  destruct acc as [m|]; simpl in *; [destruct H as [-> Hm]; lia|].
  destruct (dur_set f); lia.
Qed.

Lemma acc_ok_done q acc f v fp : acc_ok acc f (PRet v fp) -> low tier q f ->
  default DUR_LOW acc = tier q -> frame_durability f = tier q.
Proof.
  unfold frame_durability, low. destruct acc as [m|]; simpl.
  - intros [-> Hm] Hlow Ht. rewrite Ht in Hm. specialize (Hlow eq_refl). by apply N.le_antisymm.
  - intros H _ <-. destruct (dur_set f); [by discriminate H|done].
Qed.

(** Writing the column of the running query. *)
Lemma write_column_good q v d f rest : Good d -> query_stack d = f :: rest -> frame_id f = q ->
  low tier q f -> Within q rest d (write_column q v d).
Proof.
  intros HG Hst Hf Hlow. split; try done.
  - apply (good_update L rank known tier hist (fun _ => False) d); try done.
    + intros ?. right. intros [].
    + intros q' sl _ Hsl Hdone. split; [|done]. simpl. rewrite lookup_insert_ne; [done|].
      intros ->. destruct (g_stack _ _ _ _ _ d HG f) as (sl' & Hsl' & Hrun);
        [rewrite Hst; by left|]. congruence.
    + intros f' Hf'. by apply (g_stack _ _ _ _ _ d HG).
  - intros q' Hq'. simpl. rewrite lookup_insert_ne; [done|]. intros ->. lia.
  - by exists f.
Qed.

(** The context of a run: the frame of [q] on top, the current inputs. *)
Record Running q rest d f : Prop := {
  ru_known : known q;
  ru_derived : db_query_kind_is_input q.1 = false;
  ru_good : Good d;
  ru_open : Open d;
  ru_stack : query_stack d = f :: rest;
  ru_frame : frame_id f = q;
  ru_low : low tier q f;
  ru_above g : g ∈ rest -> (rank q < rank (frame_id g))%nat;
  ru_depth : (length rest + rank q < QUERY_STACK_CAPACITY)%nat
}.

Lemma Running_call q rest d f dep : Running q rest d f -> known dep -> (rank dep < rank q)%nat ->
  Callable dep d.
Proof.
  intros [] Hk Hr. split; try done.
  - intros g. rewrite ru_stack0. intros [->|Hg]%elem_of_cons; [by rewrite ru_frame0|].
    specialize (ru_above0 g Hg). lia.
  - rewrite ru_stack0. simpl. lia.
Qed.

Lemma Running_next q rest d d' f f' : Running q rest d f -> Within q rest d d' ->
  query_stack d' = f' :: rest -> low tier q f' -> frame_id f' = q -> Running q rest d' f'.
Proof.
  intros [] HW Hst Hlow Hid. split; try done; [apply HW|].
  eapply same_control_Open; [apply HW|done].
Qed.

Lemma body_ok q rest : ask_ok (rank q) -> forall p acc d f done,
  prog_ok L rank known tier q acc p -> Running q rest d f ->
  rows_are (now d) done (frame_rows d f) -> acc_ok acc f p ->
  exists d' f', run_prog ask q p d =
      Ret (eval_prog (answers L rank (now d)) p, d') /\
    Within q rest d d' /\ Running q rest d' f' /\ frame_durability f' = tier q /\
    rows_are (now d) (done ++ asks (answers L rank (now d)) p) (frame_rows d' f').
Proof.
  intros Hask p acc d f done Hp. revert d f done.
  induction Hp as [acc v fp Hacc|acc v p Hp IH|acc dep k Hk Hr Ht Hc IH];
    intros d f done HR Hrows Hfa; pose proof HR as [Hkq Hi HG HO Hst Hf Hlow Hrest Hcap]; simpl.
  - exists d, f. split; [done|]. split; [split; try done; by exists f|]. split; [done|].
    split; [by eapply acc_ok_done|]. by rewrite app_nil_r.
  - pose proof (write_column_good q v d f rest HG Hst Hf Hlow) as HW.
    destruct (IH (write_column q v d) f done) as (d' & f' & Hrun & HW' & HR' & Hrest').
    + by eapply Running_next.
    + done.
    + done.
    + exists d', f'. split; [exact Hrun|]. split; [by eapply Within_trans|]. by split.
  - destruct (Hask dep d Hr (Running_call _ _ _ _ _ HR Hk Hr)) as (d1 & -> & HP & Has). simpl.
    pose proof (Pulled_Within L rank known tier hist q dep rest d d1 f Hr Ht Hst Hf Hlow HP) as HW.
    assert (Hn := same_control_now hist _ _ (pl_control _ _ _ _ _ _ _ _ HP)).
    unfold EngineInv.asked in Has. rewrite Hst in Has. destruct Has as (Hst1 & (idx & Hr1) & _).
    destruct (w_frame _ _ _ _ _ _ _ _ _ HW) as (f1 & Hst1' & Hf1 & Hlow1).
    assert (Hf1e : f1 = frame_recorded (tier dep) f) by congruence.
    destruct (IH (now d) d1 f1 (done ++ [dep])) as (d' & f' & Hrun & HW' & HR' & Hdur & Hrows').
    + by eapply Running_next.
    + rewrite Hn. subst f1. unfold frame_rows. rewrite frame_recorded_deps, frame_recorded_id, Hr1.
      by apply rows_are_record.
    + subst f1. by eapply acc_ok_record.
    + rewrite Hn in Hrun, Hrows'. exists d', f'. split; [exact Hrun|].
      split; [by eapply Within_trans|]. split; [done|]. split; [done|].
      by rewrite <- app_assoc in Hrows'.
Qed.

(** ** Success *)

Lemma compute_ok q d d1 f : ask_ok (rank q) -> Callable q d ->
  db_query_kind_is_input q.1 = false -> Computing q d d1 f ->
  exists d', wrapper_compute L ask q d1 = Ret ((scr (now d) q).1, d') /\
             Pulled q d d' /\ asked q d d'.
Proof.
  intros Hask HC Hi HA. pose proof HC as [Hk HG HO Hab Hcap].
  destruct HA as [HG1 HA Hst Hf Hlow Hclean Hrows (sl1 & Hsl1 & Hrun1)].
  assert (Hc1 := a_control _ _ _ _ HA). assert (Hn1 := same_control_now hist _ _ Hc1).
  assert (HR : Running q (query_stack d) d1 f).
  { split; try done. by eapply same_control_Open. }
  destruct (body_ok q (query_stack d) Hask (body L q) None d1 f []) as
    (d2 & f2 & Hrun & HW & [_ _ HG2 HO2 Hst2 Hf2 Hlow2 _ _] & Hdur & Hrows2); try done.
  { by apply W. }
  { rewrite Hrows. split; [by intros ? ?%elem_of_nil|by intros ? ?%elem_of_nil]. }
  rewrite Hn1 in Hrun, Hrows2. rewrite <- (scratch_unfold L rank known tier W) in Hrun by done.
  unfold wrapper_compute, compute. rewrite Hi, Hrun. simpl.
  destruct (scr (now d) q) as [v fp] eqn:Hscr. simpl.
  assert (HA2 : Around q d d2) by by eapply Around_Within.
  assert (Hc2 := a_control _ _ _ _ HA2).
  assert (Hsl2 : slots d2 !! q = Some sl1) by by rewrite (w_slots _ _ _ _ _ _ _ _ _ HW).
  destruct (g_slot _ _ _ _ _ d2 HG2 q sl1 Hsl2) as (_ & Hprov & _).
  unfold db_query_fixpoint_enrolled, db_engine_locate_slot, db_engine_route_slot. simpl.
  rewrite Hsl2. simpl. rewrite Hprov, andb_false_r. unfold db_query_succeed. rewrite Hi. simpl.
  unfold db_engine_route_slot. simpl. rewrite Hsl2. rewrite bool_decide_true by by eexists. simpl.
  unfold own_frame. simpl. rewrite Hst2. rewrite bool_decide_true by done. simpl.
  unfold db_check_cancel. simpl. rewrite (g_cancel _ _ _ _ _ _ HG2). simpl.
  rewrite Hdur. unfold db_current_revision. simpl.
  match goal with |- context [record_dep_on_parent q fp (tier q) 1 ?x] => set (d3 := x) end.
  assert (Hs3 : slots d3 !! q = Some (mkSlot
     (set_durability (tier q) (set_verified_rev (rev_current (rev_control d2))
        (set_fingerprint fp (set_state QUERY_DONE (take_deps f2 (hot sl1))))))
     (set_computed_rev (rev_current (rev_control d2)) (cold sl1)))).
  { unfold d3. rewrite slots_upd_cold, decide_True by done.
    rewrite slots_upd_hot, decide_True by done. rewrite slots_upd_hot, decide_True by done.
    simpl. by rewrite Hsl2. }
  assert (Hcur : rev_current (rev_control d2) = db_current_revision d)
    by (unfold db_current_revision; by rewrite (proj1 Hc2)).
  assert (HF : Finishing L rank known tier hist q d d2 d3 f2 (mkSlot
     (set_durability (tier q) (set_verified_rev (rev_current (rev_control d2))
        (set_fingerprint fp (set_state QUERY_DONE (take_deps f2 (hot sl1))))))
     (set_computed_rev (rev_current (rev_control d2)) (cold sl1)))).
  { split; try done.
    - unfold EngineInv.value_ok. simpl. rewrite Hcur. change (hist (db_current_revision d)) with (now d).
      rewrite Hscr, Hi. simpl. split; [|split; [done|split; [|split; [done|]]]].
      + change (db_current_revision d3) with (db_current_revision d2).
        unfold db_current_revision at 2. by rewrite Hcur.
      + by rewrite lookup_insert_eq.
      + unfold slot_rows. simpl. change (dep_rows d3 q) with (dep_rows d2 q).
        unfold frame_rows in Hrows2. rewrite Hf2 in Hrows2. exact Hrows2.
    - intros q' Hq'. unfold d3. rewrite slots_upd_cold, decide_False by congruence.
      rewrite slots_upd_hot, decide_False by congruence.
      by rewrite slots_upd_hot, decide_False by congruence.
    - intros q' Hq'. simpl. by rewrite lookup_insert_ne by congruence. }
  destruct (finish_ok L rank known tier hist q d d2 d3 f2 _ HF) as [HP Has].
  unfold finish in HP, Has. rewrite Hscr in HP, Has. simpl in HP, Has.
  unfold db_query_fixpoint_is_root. simpl.
  pose proof (g_scc _ _ _ _ _ _ (pl_good _ _ _ _ _ _ _ _ HP)) as Hscc. simpl in Hscc. rewrite Hscc.
  eexists. split; [done|]. split; [by apply Pulled_stats|done].
Qed.

End Ask.

(** ** The wrapper *)

Lemma slot_alloc_ok q d : Callable q d ->
  let d' := db_query_slot_alloc q d in
  Callable q d' /\ is_Some (slots d' !! q) /\ query_stack d' = query_stack d /\
  same_control d d' /\ results d' = results d /\ dep_vecs d' = dep_vecs d /\
  forall q', (rank q < rank q')%nat -> slots d' !! q' = slots d !! q'.
Proof.
  intros HC d'. pose proof HC as [Hk HG HO Hab Hcap]. unfold d', db_query_slot_alloc.
  destruct (hashmap_routed q.1) eqn:Hh.
  2:{ split; [done|]. split; [by apply (g_rows _ _ _ _ _ _ HG)|]. by repeat (split; [done|]). }
  destruct (slots d !! q) as [sl|] eqn:Hsl; [split; [done|]; split; [by eexists|]; by repeat (split; [done|])|].
  assert (Hni : db_query_kind_is_input q.1 = false) by by destruct q.1.
  split; [|split; [simpl; rewrite lookup_insert_eq; by eexists|]].
  - split; try done.
    apply (good_update L rank known tier hist (fun q' => q' = q) d); try done.
    + intros q'. destruct (decide (q' = q)); [by left|by right].
    + intros q' Hq'. simpl. by rewrite lookup_insert_ne by congruence.
    + intros f Hf. destruct (g_stack _ _ _ _ _ d HG f Hf) as (sl & Hsl' & Hrun).
      exists sl. split; [|done]. simpl. rewrite lookup_insert_ne; [done|]. congruence.
    + intros q' ->. eexists. simpl. rewrite lookup_insert_eq. split; [done|]. by split.
  - repeat (split; [done|]). intros q' Hq'. simpl. rewrite lookup_insert_ne; [done|].
    intros ->. lia.
Qed.

Lemma alloc_dom q q' d : is_Some (slots d !! q') -> is_Some (slots (db_query_slot_alloc q d) !! q').
Proof.
  unfold db_query_slot_alloc. intros H. destruct (hashmap_routed q.1); [|done].
  destruct (slots d !! q) eqn:E; [done|]. simpl.
  destruct (decide (q = q')) as [<-|]; [rewrite lookup_insert_eq; by eexists|].
  by rewrite lookup_insert_ne.
Qed.

Lemma Pulled_alloc q d d' : Callable q d -> let d0 := db_query_slot_alloc q d in
  Pulled q d0 d' -> asked q d0 d' -> Pulled q d d' /\ asked q d d'.
Proof.
  intros HC d0 [P1 P2 P3 P4 P5 _] Has.
  destruct (slot_alloc_ok q d HC) as (_ & _ & Hst & Hc & Hr & Hv & Hs). fold d0 in Hst, Hc, Hr, Hv, Hs.
  assert (Has' : asked q d d').
  { unfold EngineInv.asked in *. rewrite Hst, (same_control_now hist _ _ Hc) in Has.
    unfold frame_rows, dep_rows in *. by rewrite Hv in Has. }
  split; [|done]. split; [done|by etrans|done| | |by right].
  - intros q' Hq'. destruct (P4 q' Hq') as [-> ->]. by rewrite Hs, Hr.
  - intros q' Hq'. by apply P5, (alloc_dom q q' d).
Qed.

(** The dispatch table pulls as well as the wrapper answers. *)
Lemma dispatch_ok wrapper n : ask_ok wrapper n ->
  pull_ok L rank known tier hist (db_engine_recompute_dispatch wrapper) n.
Proof.
  intros Hask dep d' Hdep HCd. unfold db_engine_recompute_dispatch.
  destruct (db_query_kind_is_input dep.1) eqn:Hi.
  - exists d'. split; [done|]. pose proof HCd as [Hk HG HO Hab Hcap].
    split; try done; [|by left].
    destruct (g_rows _ _ _ _ _ _ HG dep Hk) as [sl Hsl]; [by destruct dep.1|].
    exists sl. split; [done|]. destruct (g_slot _ _ _ _ _ d' HG dep sl Hsl) as (_ & _ & Hst).
    destruct (state (hot sl)); [by destruct Hst as [_ Hst]; rewrite Hi in Hst| | |done].
    + apply list_elem_of_fmap in Hst as (f & Hf & Hin). apply Hab in Hin.
      rewrite <- Hf in Hin. lia.
    + split; [done|]. destruct Hst as (_ & _ & _ & -> & Hst). rewrite Hi in Hst.
      destruct Hst as [_ Hst]. rewrite !scratch_input by done. simpl. by rewrite Hst.
  - rewrite (wl_key _ _ _ _ W dep) by apply HCd.
    destruct (Hask dep d') as (d'' & -> & HP & _); [done|done|]. by exists d''.
Qed.

(** A query returns the value of evaluation from scratch: by induction on the nesting. *)
Theorem query_ok n : ask_ok (query L n) n.
Proof.
  induction n as [|n IH]; intros q d Hq HC; [lia|].
  destruct (slot_alloc_ok q d HC) as (HC0 & Hsl0 & _ & Hc0 & _).
  assert (Hpull : pull_ok L rank known tier hist
                    (db_engine_recompute_dispatch (query L n)) (rank q)).
  { apply dispatch_ok. intros dep d' Hdep. apply IH. lia. }
  simpl. destruct (begin_ok _ q _ Hpull HC0 Hsl0) as (r & d1 & -> & Hr). simpl.
  rewrite <- (same_control_now hist _ _ Hc0).
  destruct Hr as [(-> & HP & Has & Hres)|(-> & Hi & f & HA)].
  - exists d1. unfold read_column. rewrite Hres. split; [done|]. by apply Pulled_alloc.
  - assert (Hask : ask_ok (query L n) (rank q)).
    { intros dep d' Hdep. apply IH. lia. }
    destruct (compute_ok (query L n) q _ d1 f Hask HC0 Hi HA) as (d' & -> & HP & Has).
    exists d'. split; [done|]. by apply Pulled_alloc.
Qed.

(** A DONE query is computed again only when one of its recorded dependencies changed. *)
Lemma query_kept n q d sl : (rank q < S n)%nat -> Callable q d ->
  slots d !! q = Some sl -> state (hot sl) = QUERY_DONE -> ~ stale q sl d ->
  exists d', query L (S n) q d = Ret ((scr (now d) q).1, d') /\ kept q sl d d'.
Proof.
  intros Hq HC Hsl Hdone Hns. pose proof HC as [Hk HG HO Hab Hcap]. simpl.
  assert (Ha : db_query_slot_alloc q d = d)
    by (unfold db_query_slot_alloc; destruct (hashmap_routed q.1); [by rewrite Hsl|done]).
  rewrite Ha. unfold db_query_begin, db_check_cancel. rewrite (g_cancel _ _ _ _ _ _ HG).
  unfold db_engine_locate_slot, db_engine_route_slot. simpl. rewrite Hsl. simpl. rewrite Hdone.
  set (d0 := upd_stats q.1 stat_begin d).
  assert (HC0 : Callable q d0) by (split; try done; destruct HG; by split).
  destruct (begin_cached_ok (db_engine_recompute_dispatch (query L n)) q d0 sl)
    as (r & d' & -> & Hr); [|done..|].
  { apply dispatch_ok. intros dep d' Hdep. apply query_ok. lia. }
  destruct Hr as [(-> & _ & _ & Hr & HK)|(_ & _ & _ & Hs)]; [|done].
  exists d'. split; [|exact HK]. cbn [obind]. unfold read_column. by rewrite Hr.
Qed.

End Run.
End EngineRun.
