(* ===== verification/EngineTheorems.v ===== *)
(** * The query engine refines evaluation from scratch

    A session is a list of input changes and requests.  Over a layer whose queries do not
    cycle and whose tiers are fixed, the engine answers every request of every session as
    evaluation from scratch on the inputs of the moment does: memoisation, the dep walk,
    early cut-off, the durability fast path, the sweep and the orphan reclamation are
    invisible ([session_refines]). *)

From stdpp Require Import gmap.
From S2P Require Import Prelude Engine Query EngineSpec EngineFacts EngineInv EngineRun.
Import Engine Query EngineSpec EngineFacts EngineInv EngineRun.

Module EngineTheorems.

#[local] Open Scope N_scope.

Section Session.
Context {V : Type} (L : Layer V) (rank : qid -> nat) (known : qid -> Prop)
        (tier : qid -> Durability).
Context (W : well_layered L rank known tier).
Implicit Types (d : Db V) (q : qid) (hist : N -> qid -> V).

#[local] Abbreviation scr := (scratch L rank).
#[local] Abbreviation Good := (Good L rank known tier).

(** ** Between requests *)

Record Quiet hist d : Prop := {
  qt_good : Good hist d;
  qt_stack : query_stack d = [];
  qt_closed : rev_request (rev_control d) = 0;
  qt_rev : 1 <= db_current_revision d;
  qt_tiers : length (dur_last_changed d) = 3%nat
}.

(** The request bits are not part of the invariant, and [cancel_requested] is reset. *)
Lemma good_rev hist d rc : Good hist d -> rev_current rc = db_current_revision d ->
  Good hist (put_rev_control rc d).
Proof.
  intros [H1 H2 H3 H4 H5 H6 H7] Hrc.
  assert (Hcur : db_current_revision (put_rev_control rc d) = db_current_revision d) by done.
  split; try done.
  - intros q sl Hsl. destruct (H1 q sl Hsl) as (? & ? & Hst). split; [done|]. split; [done|].
    destruct (state (hot sl)); try done. unfold value_ok, now in *. by rewrite Hcur.
  - intros x r. unfold now. rewrite Hcur. apply H4.
Qed.

Lemma request_begin_ok hist d : Quiet hist d ->
  exists d', db_request_begin (db_current_revision d) d = Ret d' /\ Good hist d' /\
    Open d' /\ query_stack d' = [] /\ db_current_revision d' = db_current_revision d /\
    dur_last_changed d' = dur_last_changed d /\ rev_request (rev_control d') <> 0.
Proof.
  intros [HG Hst Hcl Hrev Hlen]. unfold db_request_begin.
  destruct (N.eqb_spec (db_current_revision d) 0) as [Hz|_]; [lia|]. cbn [obind oassert negb].
  rewrite bool_decide_true by done. cbn [obind oassert].
  unfold db_current_revision at 1. rewrite N.leb_refl. cbn [obind oassert].
  eexists. split; [done|].
  assert (Hlt := rev_current_lt (rev_control d)). fold (db_current_revision d) in Hlt.
  assert (Hcur : db_current_revision (rev_set_request (db_current_revision d) d)
                 = db_current_revision d).
  { unfold db_current_revision, rev_set_request. simpl. apply rev_current_with_request. }
  assert (Hreq : rev_request (rev_control (rev_set_request (db_current_revision d) d))
                 = db_current_revision d).
  { unfold rev_set_request. cbn [rev_control put_rev_control].
    rewrite rev_request_with_request. apply u32_small. lia. }
  split; [|split; [|split; [done|split; [exact Hcur|split; [done|]]]]].
  - destruct (good_rev hist d _ HG (rev_current_with_request _ (db_current_revision d))).
    by split.
  - unfold Open, db_effective_revision. cbn [rev_control put_running_slots put_cancel_requested].
    rewrite Hreq. destruct (N.eqb_spec (db_current_revision d) 0); [lia|]. symmetry. exact Hcur.
  - cbn [rev_control put_running_slots put_cancel_requested]. rewrite Hreq. lia.
Qed.

(** ** The queries of a request *)

Lemma query_all_ok hist fuel qs : (forall q, known q -> (rank q < fuel)%nat) ->
  forall d, Good hist d -> Open d -> query_stack d = [] -> Forall known qs ->
  exists d', query_all L fuel qs d = Ret (map (answers L rank (now hist d)) qs, d') /\
    Good hist d' /\ same_control d d' /\ query_stack d' = [].
Proof.
  intros Hfuel. induction qs as [|q qs IH]; intros d HG HO Hst Hqs; simpl.
  { by exists d. }
  apply Forall_cons in Hqs as [Hq Hqs].
  assert (HC : Callable L rank known tier hist q d).
  { split; try done; rewrite Hst; [by intros f ?%elem_of_nil|]. simpl. by apply (wl_rank _ _ _ _ W). }
  destruct (query_ok L rank known tier W hist fuel q d (Hfuel q Hq) HC) as (d1 & -> & HP & Has).
  simpl. unfold asked in Has. rewrite Hst in Has. destruct Has as [Hst1 _].
  assert (Hc := pl_control _ _ _ _ _ _ _ _ HP).
  destruct (IH d1) as (d2 & -> & HG2 & Hc2 & Hst2); [apply HP|by eapply same_control_Open|done|done|].
  simpl. rewrite (same_control_now hist _ _ Hc). exists d2. split; [done|].
  split; [done|]. split; [by etrans|done].
Qed.

(** ** Sweep and reclamation *)

Lemma sweep_quiet hist d : Good hist d -> query_stack d = [] ->
  db_engine_sweep_running d = put_running_slots [] d.
Proof.
  intros HG Hst. unfold db_engine_sweep_running. f_equal.
  induction (running_slots d) as [|q l IH]; simpl; [done|].
  replace (sweep_one q d) with d; [done|]. unfold sweep_one, db_engine_locate_slot, db_engine_route_slot.
  destruct (slots d !! q) as [sl|] eqn:Hsl; simpl; [|done].
  rewrite bool_decide_false; [done|]. intros Hrun.
  destruct (g_slot _ _ _ _ _ _ HG q sl Hsl) as (_ & _ & Hin). rewrite Hrun in Hin.
  unfold ids in Hin. rewrite Hst in Hin. by apply elem_of_nil in Hin.
Qed.

Lemma reclaim_slots threshold d q :
  slots (db_engine_reclaim_orphans threshold d) !! q = slots d !! q ≫= reclaim_one threshold q.
Proof. unfold db_engine_reclaim_orphans. simpl. by rewrite map_lookup_imap. Qed.

Lemma reclaim_good hist threshold d : Good hist d -> query_stack d = [] ->
  Good hist (db_engine_reclaim_orphans threshold d).
Proof.
  intros HG Hst. split; try by apply HG.
  - intros q sl. rewrite reclaim_slots. intros (sl0 & Hsl & Hone)%bind_Some.
    destruct (g_slot _ _ _ _ _ _ HG q sl0 Hsl) as (Hk & Hp & Hok).
    unfold reclaim_one in Hone. destruct (orphan threshold q sl0) eqn:Ho.
    + destruct (hashmap_routed q.1); [done|]. injection Hone as <-. split; [done|]. split; [done|].
      simpl. split; [done|]. unfold orphan in Ho. breflect. done.
    + injection Hone as <-. split; [done|]. split; [done|].
      destruct (state (hot sl0)); [done|done| |done].
      unfold value_ok, slot_rows, dep_rows in *. simpl.
      unfold drop_orphans. rewrite map_lookup_imap, Hsl. simpl. rewrite Ho.
      destruct Hok as (A & B & C & D & E). do 4 (split; [done|]).
      by destruct (dep_vecs d !! q).
  - intros q Hk Hh. destruct (g_rows _ _ _ _ _ _ HG q Hk Hh) as [sl Hsl].
    rewrite reclaim_slots, Hsl. simpl. unfold reclaim_one. rewrite Hh.
    destruct (orphan threshold q sl); by eexists.
  - simpl. rewrite Hst. by intros f ?%elem_of_nil.
Qed.

Lemma request_end_ok hist d : Good hist d -> Open d -> query_stack d = [] ->
  rev_request (rev_control d) <> 0 ->
  exists d', db_request_end d = Ret d' /\ Good hist d' /\ query_stack d' = [] /\
    rev_request (rev_control d') = 0 /\ db_current_revision d' = db_current_revision d /\
    dur_last_changed d' = dur_last_changed d.
Proof.
  intros HG HO Hst Hreq. unfold db_request_end. rewrite bool_decide_true by done. simpl.
  destruct (N.eqb_spec (rev_request (rev_control d)) 0); [done|]. simpl.
  eexists. split; [done|].
  rewrite (sweep_quiet hist d HG Hst).
  set (d1 := rev_set_request 0 (put_running_slots [] d)).
  assert (Hcur : db_current_revision d1 = db_current_revision d)
    by apply rev_current_with_request.
  assert (HG1 : Good hist d1).
  { destruct (good_rev hist d (rev_control d1) HG Hcur). by split. }
  assert (Hr1 : rev_request (rev_control d1) = 0) by (simpl; by rewrite rev_request_with_request).
  unfold db_engine_compact. destruct (0 <? _).
  - split; [by apply reclaim_good|]. by repeat (split; [done|]).
  - by repeat (split; [done|]).
Qed.

Lemma request_ok hist fuel qs d : (forall q, known q -> (rank q < fuel)%nat) ->
  Quiet hist d -> Forall known qs ->
  exists d', request L fuel qs d = Ret (map (answers L rank (now hist d)) qs, d') /\
    Quiet hist d' /\ now hist d' = now hist d /\
    db_current_revision d' = db_current_revision d /\ dur_last_changed d' = dur_last_changed d.
Proof.
  intros Hfuel HQ Hqs. pose proof HQ as [HG Hst Hcl Hrev Hlen]. unfold request.
  destruct (request_begin_ok hist d HQ) as (d1 & -> & HG1 & HO1 & Hst1 & Hcur1 & Hd1 & Hr1). simpl.
  destruct (query_all_ok hist fuel qs Hfuel d1 HG1 HO1 Hst1 Hqs) as (d2 & -> & HG2 & Hc2 & Hst2).
  simpl.
  assert (Hcur2 := same_control_cur _ _ Hc2).
  assert (Hreq : rev_request (rev_control d2) <> 0).
  { by rewrite (proj1 Hc2). }
  destruct (request_end_ok hist d2) as (d3 & -> & HG3 & Hst3 & Hcl3 & Hcur3 & Hd3); try done.
  { by eapply same_control_Open. }
  simpl.
  assert (Hn : now hist d1 = now hist d) by (unfold now; by rewrite Hcur1).
  rewrite Hn. exists d3. split; [done|].
  assert (Hdlc : dur_last_changed d3 = dur_last_changed d)
    by by rewrite Hd3, (proj1 (proj2 Hc2)), Hd1.
  split; [|split; [|by split; [congruence|]]].
  - split; [done|done|done|congruence|]. by rewrite Hdlc.
  - unfold now. by rewrite Hcur3, Hcur2, Hcur1.
Qed.

(** ** Changing an input *)

Lemma stamp_changed_nth new dur l t : length l = 3%nat -> dur < DUR_COUNT ->
  nth t (stamp_changed new dur l) 0 = (if decide (t <= N.to_nat dur)%nat then new else nth t l 0) /\
  length (stamp_changed new dur l) = 3%nat.
Proof.
  intros Hl Hd. destruct l as [|a [|b [|c [|]]]]; try discriminate.
  assert (Hdur : dur = 0 \/ dur = 1 \/ dur = 2) by (unfold DUR_COUNT in Hd; lia).
  unfold stamp_changed. destruct Hdur as [->|[->| ->]]; simpl; split; try done;
    destruct t as [|[|[|t]]]; simpl; try case_decide; try done; lia.
Qed.

Lemma db_input_set_ok q fp dur d sl : db_query_kind_is_input q.1 = true ->
  slots d !! q = Some sl -> dur < DUR_COUNT ->
  exists d', db_input_set q fp dur d = Ret d' /\
    slots d' = <[q := mkSlot (mkHot QUERY_DONE dur fp (db_current_revision d) (deps (hot sl))
                                   (dep_index (hot sl)) (provisional (hot sl)))
                             (mkCold (db_current_revision d) q.2)]> (slots d) /\
    results d' = results d /\ dep_vecs d' = dep_vecs d /\ query_stack d' = query_stack d /\
    same_control d d'.
Proof.
  intros Hi Hsl Hd. unfold db_input_set. rewrite Hi. cbn [oassert obind].
  unfold db_engine_route_slot. rewrite Hsl, bool_decide_true by by eexists. cbn [oassert obind].
  rewrite (proj2 (N.ltb_lt _ _) Hd). cbn [oassert obind].
  eexists. split; [done|]. split; [|by repeat split].
  apply map_eq. intros q'. rewrite slots_upd_cold, slots_upd_hot.
  destruct (decide (q = q')) as [<-|Hne].
  - by rewrite Hsl, lookup_insert_eq.
  - by rewrite lookup_insert_ne.
Qed.

(** The inputs of a history after one more revision. *)
Definition extend (hist : N -> qid -> V) (cur : N) (inp : qid -> V) : N -> qid -> V :=
  fun r => if r =? cur then inp else hist r.

Lemma change_good hist q v d d' sl :
  Good hist d -> query_stack d = [] -> known q -> db_query_kind_is_input q.1 = true ->
  length (dur_last_changed d) = 3%nat ->
  (forall t, t < DUR_COUNT -> last_changed d t <= db_current_revision d) ->
  slots d !! q = Some sl ->
  let cur := db_current_revision d + 1 in
  slots d' = <[q := mkSlot (mkHot QUERY_DONE (tier q) (input_fp L q v) cur (deps (hot sl))
                                 (dep_index (hot sl)) (provisional (hot sl))) (mkCold cur q.2)]> (slots d) ->
  results d' = <[q := v]> (results d) -> dep_vecs d' = dep_vecs d -> query_stack d' = query_stack d ->
  db_current_revision d' = cur -> dur_last_changed d' = stamp_changed cur (tier q) (dur_last_changed d) ->
  cancel_requested d' = cancel_requested d -> scc_store d' = scc_store d ->
  Good (extend hist cur (change q v (now hist d))) d'.
Proof.
  intros HG Hst Hk Hi Hlen Hlast Hsl cur Es Er Ev Ek Ec Ed Ex Ey.
  assert (Ht := wl_tier _ _ _ _ W q Hk).
  assert (Hnew : extend hist cur (change q v (now hist d)) cur = change q v (now hist d))
    by (unfold extend; by rewrite N.eqb_refl).
  assert (Hnow : now (extend hist cur (change q v (now hist d))) d' = change q v (now hist d))
    by (unfold now at 1; by rewrite Ec).
  assert (Hold : forall r, r <= db_current_revision d ->
            extend hist cur (change q v (now hist d)) r = hist r).
  { intros r Hr. unfold extend. destruct (N.eqb_spec r cur); [lia|done]. }
  assert (Hlc : forall t, last_changed d' t =
            if decide (t <= tier q) then cur else last_changed d t).
  { intros t. unfold last_changed. rewrite Ed.
    rewrite (proj1 (stamp_changed_nth cur (tier q) _ (N.to_nat t) Hlen Ht)).
    repeat case_decide; try done; lia. }
  split.
  - intros q' sl'. rewrite Es. intros [[<- <-]|[Hne Hsl']]%lookup_insert_Some.
    + destruct (g_slot _ _ _ _ _ _ HG q sl Hsl) as (_ & Hp & Hok). split; [done|]. split; [done|].
      simpl. unfold value_ok. simpl. rewrite Hi, Er, lookup_insert_eq, Ec.
      rewrite !scratch_input by done. rewrite Hnow, Hnew. simpl.
      unfold change. rewrite decide_True by done.
      repeat (split; [done|]). split; [|done].
      destruct (state (hot sl)); [by destruct Hok|..|done].
      * unfold ids in Hok. rewrite Hst in Hok. by apply elem_of_nil in Hok.
      * destruct Hok as (_ & _ & _ & _ & Hok). rewrite Hi in Hok. apply Hok.
    + destruct (g_slot _ _ _ _ _ _ HG q' sl' Hsl') as (Hk' & Hp & Hok).
      split; [done|]. split; [done|]. destruct (state (hot sl')); [done| | |done].
      { unfold ids in *. by rewrite Ek. }
      destruct Hok as (A & B & C & D & E). unfold value_ok. rewrite Hold by done.
      rewrite Er, lookup_insert_ne by done. unfold slot_rows, dep_rows in *. rewrite Ev.
      repeat (split; [done || lia|]).
      destruct (db_query_kind_is_input q'.1); [|done]. destruct E as [E1 E2]. split; [done|].
      rewrite Hnow. unfold change. by rewrite decide_False by done.
  - intros q' Hk' Hh'. rewrite Es. destruct (decide (q = q')) as [<-|].
    + rewrite lookup_insert_eq. by eexists.
    + rewrite lookup_insert_ne by done. by apply (g_rows _ _ _ _ _ _ HG).
  - rewrite Ek, Hst. by intros f ?%elem_of_nil.
  - intros x r Hkx Hix. rewrite Hlc, Ec, Hnow. intros Hlow Hr.
    destruct (N.eq_dec r cur) as [->|Hne]; [by rewrite ?Hnew|].
    assert (Hr' : r <= db_current_revision d) by lia. rewrite Hold by done.
    case_decide as Htx; [lia|]. unfold change. rewrite decide_False by (intros ->; lia).
    by apply (g_hist _ _ _ _ _ _ HG).
  - intros t t' Htt Ht'. rewrite !Hlc. repeat case_decide; try done; try lia.
    + specialize (Hlast t' Ht'). lia.
    + by apply (g_tiers _ _ _ _ _ _ HG).
  - rewrite Ex. apply HG.
  - rewrite Ey. apply HG.
Qed.

(** ** Sessions *)

(** Between the commands of a session. *)
Definition Ready hist d : Prop :=
  Quiet hist d /\ forall t, t < DUR_COUNT -> last_changed d t <= db_current_revision d.

Lemma change_input_ok hist q v d : Ready hist d -> known q -> db_query_kind_is_input q.1 = true ->
  db_current_revision d + 1 < 2 ^ 31 ->
  exists hist' d', change_input L q v (tier q) d = Ret d' /\ Ready hist' d' /\
    now hist' d' = change q v (now hist d) /\
    db_current_revision d' = db_current_revision d + 1.
Proof.
  intros [[HG Hst Hcl Hrev Hlen] Hlast] Hk Hi Hbound.
  assert (Ht := wl_tier _ _ _ _ W q Hk).
  unfold change_input, db_input_changed. rewrite (proj2 (N.ltb_lt _ _) Ht).
  cbn [oassert obind rev_control write_column put_results].
  rewrite Hcl. cbn [N.eqb oassert obind].
  set (d1 := put_dur_last_changed _ _).
  assert (Hcur1 : db_current_revision d1 = db_current_revision d + 1).
  { unfold d1, db_current_revision. cbn [rev_control put_dur_last_changed put_rev_control].
    by apply rev_current_with_current. }
  destruct (g_rows _ _ _ _ _ _ HG q Hk) as [sl Hsl]; [by destruct q.1|].
  destruct (db_input_set_ok q (input_fp L q v) (tier q) d1 sl) as
    (d' & -> & Es & Er & Ev & Ek & Ec & Ed & Ex & Ey); [done|exact Hsl|done|].
  rewrite Hcur1 in Es.
  assert (Hcur' : db_current_revision d' = db_current_revision d + 1)
    by (rewrite <- Hcur1; unfold db_current_revision; by rewrite Ec).
  exists (extend hist (db_current_revision d + 1) (change q v (now hist d))), d'.
  split; [done|]. split; [|split; [|done]].
  - assert (Hlast' : forall t, last_changed d' t =
              if decide (t <= tier q) then db_current_revision d + 1 else last_changed d t).
    { intros t. unfold last_changed. rewrite Ed. unfold d1. cbn [dur_last_changed put_dur_last_changed].
      rewrite (proj1 (stamp_changed_nth _ (tier q) (dur_last_changed d) (N.to_nat t) Hlen Ht)).
      repeat case_decide; try done; lia. }
    split; [split|].
    + by eapply (change_good hist q v d d' sl).
    + by rewrite Ek.
    + rewrite Ec. unfold d1. cbn [rev_control put_dur_last_changed put_rev_control].
      by rewrite rev_request_with_current.
    + lia.
    + rewrite Ed. by apply (stamp_changed_nth _ _ _ 0).
    + intros t Htt. rewrite Hlast', Hcur'. case_decide; [lia|]. specialize (Hlast t Htt). lia.
  - unfold now at 1. rewrite Hcur'. unfold extend. by rewrite N.eqb_refl.
Qed.

Lemma session_ok fuel cmds : (forall q, known q -> (rank q < fuel)%nat) ->
  forall hist d, Ready hist d -> Forall (command_ok known) cmds ->
  db_current_revision d + N.of_nat (length cmds) < 2 ^ 31 ->
  exists d', session L tier fuel cmds d = Ret (spec_session L rank cmds (now hist d), d').
Proof.
  intros Hfuel. induction cmds as [|c cmds IH]; intros hist d HR Hok Hb; [by exists d|].
  apply Forall_cons in Hok as [Hc Hcmds]. rewrite length_cons in Hb.
  destruct c as [q v|qs]; cbn [session spec_session].
  - destruct Hc as [Hk Hi].
    destruct (change_input_ok hist q v d HR Hk Hi) as (hist' & d1 & -> & HR1 & Hn1 & Hcur1); [lia|].
    cbn [obind]. rewrite <- Hn1. apply IH; [done|done|lia].
  - destruct HR as [HQ Hlast].
    destruct (request_ok hist fuel qs d Hfuel HQ Hc) as (d1 & -> & HQ1 & Hn1 & Hcur1 & Hdlc). cbn [obind].
    destruct (IH hist d1) as (d2 & ->); [|done|lia|].
    + split; [done|]. intros t. unfold last_changed. rewrite Hdlc, Hcur1. apply Hlast.
    + cbn [obind]. rewrite Hn1. by exists d2.
Qed.

(** ** A new database *)

Record Loading inp d : Prop := {
  ld_slot q sl : slots d !! q = Some sl -> slot_ok L rank known tier (fun _ => inp) d q sl;
  ld_stack : query_stack d = [];
  ld_rev : rev_control d = rev_control (@db_init V);
  ld_tiers : dur_last_changed d = [1; 1; 1];
  ld_cancel : cancel_requested d = false;
  ld_scc : scc_store d = None
}.

(** Adding one slot. *)
Lemma loading_add inp q d d' sl : Loading inp d -> query_stack d' = [] ->
  rev_control d' = rev_control d -> dur_last_changed d' = dur_last_changed d ->
  cancel_requested d' = false -> scc_store d' = None ->
  (forall q', q' <> q -> slots d' !! q' = slots d !! q' /\ results d' !! q' = results d !! q') ->
  dep_vecs d' = dep_vecs d ->
  slots d' !! q = Some sl -> slot_ok L rank known tier (fun _ => inp) d' q sl -> Loading inp d'.
Proof.
  intros [H1 H2 H3 H4 H5 H6] Est Erev Ed Ex Ey Hoth Ev Hsl Hok. split; try done; [|congruence..].
  intros q' sl' Hq'. destruct (decide (q' = q)) as [->|Hne].
  { rewrite Hsl in Hq'. injection Hq' as <-. done. }
  destruct (Hoth q' Hne) as [Es Er]. rewrite Es in Hq'.
  destruct (H1 q' sl' Hq') as (A & B & C). split; [done|]. split; [done|].
  destruct (state (hot sl')); [done| | |done].
  - unfold ids in *. by rewrite Est, <- H2.
  - unfold value_ok, slot_rows, dep_rows, now in *. rewrite Er, Ev. unfold db_current_revision in *.
    by rewrite Erev.
Qed.

Lemma load_rows_ok inp rows : Forall (fun q => known q /\ db_query_kind_is_input q.1 = false) rows ->
  forall d, Loading inp d ->
  let d' := foldl (fun d q => push_zero_row q d) d rows in
  Loading inp d' /\ forall q, q ∈ rows \/ is_Some (slots d !! q) -> is_Some (slots d' !! q).
Proof.
  induction 1 as [|q rows [Hk Hi] _ IH]; intros d HL; simpl.
  { split; [done|]. intros q [Hq|Hq]; [by apply elem_of_nil in Hq|done]. }
  assert (HL' : Loading inp (push_zero_row q d)).
  { apply (loading_add inp q d _ zero_slot); try done; try apply HL.
    - intros q' Hne. simpl. by rewrite lookup_insert_ne by congruence.
    - simpl. by rewrite lookup_insert_eq. }
  destruct (IH _ HL') as [HL2 Hdom]. split; [done|].
  intros q' Hq'. apply Hdom. simpl. destruct (decide (q = q')) as [<-|Hne].
  - right. rewrite lookup_insert_eq. by eexists.
  - rewrite lookup_insert_ne by done. destruct Hq' as [[|]%elem_of_cons|]; [done|by left|by right].
Qed.

Lemma load_inputs_ok inp xs : Forall (fun q => known q /\ db_query_kind_is_input q.1 = true) xs ->
  forall d, Loading inp d ->
  exists d', load_inputs L tier xs inp d = Ret d' /\ Loading inp d' /\
    forall q, q ∈ xs \/ is_Some (slots d !! q) -> is_Some (slots d' !! q).
Proof.
  induction 1 as [|x xs [Hk Hi] _ IH]; intros d HL; cbn [load_inputs].
  { exists d. split; [done|]. split; [done|]. intros q [Hq|Hq]; [by apply elem_of_nil in Hq|done]. }
  unfold create_input.
  destruct (db_input_set_ok x (input_fp L x (inp x)) (tier x)
              (write_column x (inp x) (push_zero_row x d)) zero_slot) as
    (d1 & -> & Es & Er & Ev & Ek & Ec & Ed & Ex & Ey); [done|by apply lookup_insert_eq|by apply W|].
  cbn [obind]. pose proof HL as [H1 H2 H3 H4 H5 H6].
  assert (Hcur1 : db_current_revision d1 = db_current_revision d)
    by (unfold db_current_revision; by rewrite Ec).
  assert (HL' : Loading inp d1).
  { eapply (loading_add inp x d d1); try done; try congruence.
    - by rewrite Ek.
    - by rewrite Ex.
    - by rewrite Ey.
    - intros q' Hne. rewrite Es, Er. simpl.
      by rewrite !lookup_insert_ne by congruence.
    - rewrite Es. by apply lookup_insert_eq.
    - split; [done|]. split; [done|]. simpl. unfold value_ok. simpl.
      rewrite Hi, Er, !scratch_input by done. simpl. rewrite lookup_insert_eq, Hcur1.
      by repeat split. }
  destruct (IH d1 HL') as (d2 & -> & HL2 & Hdom). exists d2. split; [done|]. split; [done|].
  intros q Hq. apply Hdom. rewrite Es. simpl. destruct (decide (x = q)) as [<-|Hne].
  - right. rewrite lookup_insert_eq. by eexists.
  - rewrite !lookup_insert_ne by done. destruct Hq as [[|]%elem_of_cons|]; [done|by left|by right].
Qed.

(** The rows cover the known queries that do not allocate their own slot. *)
Record rows_cover (rows xs : list qid) : Prop := {
  rc_rows : Forall (fun q => known q /\ db_query_kind_is_input q.1 = false) rows;
  rc_inputs : Forall (fun q => known q /\ db_query_kind_is_input q.1 = true) xs;
  rc_all q : known q -> hashmap_routed q.1 = false -> q ∈ rows \/ q ∈ xs
}.

Lemma load_ok rows xs inp : rows_cover rows xs ->
  exists d, load L tier rows xs inp = Ret d /\ Ready (fun _ => inp) d /\
            db_current_revision d = 1.
Proof.
  intros [Hrows Hxs Hall].
  assert (HL0 : Loading inp (@db_init V)) by by split.
  destruct (load_rows_ok inp rows Hrows _ HL0) as [HL1 Hdom1].
  destruct (load_inputs_ok inp xs Hxs _ HL1) as (d & Hload & [H1 H2 H3 H4 H5 H6] & Hdom2).
  exists d. split; [exact Hload|].
  assert (Hcur : db_current_revision d = 1) by (unfold db_current_revision; by rewrite H3).
  assert (Hlast : forall t, t < DUR_COUNT -> last_changed d t = 1).
  { intros t Ht. unfold last_changed. rewrite H4. unfold DUR_COUNT in Ht.
    destruct (N.to_nat t) as [|[|[|n]]] eqn:E; try done. lia. }
  split; [split; [split|]|done].
  - split; try done.
    + intros q Hk Hh. apply Hdom2. destruct (Hall q Hk Hh) as [Hq|Hq]; [right|by left].
      apply Hdom1. by left.
    + rewrite H2. by intros f ?%elem_of_nil.
    + intros t t' Htt Ht'. rewrite !Hlast; [done|lia|done].
  - done.
  - by rewrite H3.
  - by rewrite Hcur.
  - by rewrite H4.
  - intros t Ht. by rewrite Hlast, Hcur.
Qed.

(** C1: Incremental is from scratch, for a [well_layered] query layer: its queries are ranked,
    so they do not cycle, the tier of a query is fixed and not above those of its
    dependencies, fingerprints tell the values of a query apart, and no body cancels.  Then
    on a new database every session of input changes and requests (fewer than 2^31 - 2
    commands) runs without tripping an assert or running out of fuel, and every request
    returns, for every query it makes, the value of evaluating that query from scratch on
    the inputs as they then are. *)
Theorem session_refines fuel cmds rows xs inp :
  (forall q, known q -> (rank q < fuel)%nat) ->
  rows_cover rows xs ->
  Forall (command_ok known) cmds ->
  1 + N.of_nat (length cmds) < 2 ^ 31 ->
  exists d d', load L tier rows xs inp = Ret d /\
    session L tier fuel cmds d = Ret (spec_session L rank cmds inp, d').
Proof.
  intros Hfuel Hcover Hok Hlen.
  destruct (load_ok rows xs inp Hcover) as (d & -> & HR & Hcur).
  destruct (session_ok fuel cmds Hfuel _ d HR Hok) as (d' & Hs); [by rewrite Hcur|].
  exists d, d'. by split.
Qed.

(** ** Early cut-off *)

(** Early cut-off.  When every dependency a DONE query recorded still has a slot and
    evaluates now to the fingerprint recorded, however much changed below it, asking the
    query again runs no body of its: it returns the value in its column, which is the
    value of scratch evaluation, and its slot keeps its [computed_rev], its fingerprint
    and its dependencies; only [verified_rev] moves, to the current revision. *)
Theorem early_cutoff hist fuel q d sl :
  (rank q < fuel)%nat -> Callable L rank known tier hist q d ->
  slots d !! q = Some sl -> state (hot sl) = QUERY_DONE ->
  (forall row, row ∈ slot_rows d q (hot sl) ->
     is_Some (slots d !! dep_id row) /\ dep_fp row = (scr (now hist d) (dep_id row)).2) ->
  exists d', query L fuel q d = Ret ((scr (now hist d) q).1, d') /\
    results d' !! q = results d !! q /\
    slots d' !! q = Some (mkSlot (set_verified_rev (db_current_revision d) (hot sl)) (cold sl)).
Proof.
  intros Hq HC Hsl Hdone Hrows. destruct fuel as [|n]; [lia|].
  destruct (query_kept L rank known tier W hist n q d sl) as (d' & Hrun & sl' & Hs & Hc & Hh & Hr);
    [done..| |].
  - intros (row & Hin & [Hno|Hne]); destruct (Hrows row Hin) as [[sl0 Hs] Hfp]; [congruence|done].
  - exists d'. split; [done|]. split; [done|]. rewrite Hs. destruct sl'. simpl in *. by subst.
Qed.

End Session.
End EngineTheorems.
