(* ===== verification/EngineTotal.v ===== *)
(** * Every query returns: cycles and cancellation included

    No contract on the bodies here: they may cycle, ask anything within a finite set of
    queries, depend on any answers, and be cancelled at any point; the slots may hold
    anything.  A query still returns without tripping an assert, within a nesting bounded
    by the number of queries, and restores the frame stack ([query_total]): a nested call
    either meets a RUNNING slot, and returns, or turns one more slot RUNNING.  The kinds
    with a fixpoint policy are left out. *)

From stdpp Require Import gmap.
From S2P Require Import Prelude Engine Query EngineSpec EngineFacts EngineInv EngineRun.
Import Engine Query EngineSpec EngineFacts EngineInv EngineRun.

Module EngineTotal.

#[local] Open Scope N_scope.

Section Total.
Context {V : Type} (L : Layer V) (K : gset qid).
Implicit Types (d : Db V) (q : qid).

(** ** Layers *)

Inductive closed : prog V -> Prop :=
  | cl_ret v fp : closed (PRet v fp)
  | cl_write v p : closed p -> closed (PWrite v p)
  | cl_cancel p : closed p -> closed (PCancel p)
  | cl_ask q k : q ∈ K -> (forall v, closed (k v)) -> closed (PAsk q k).

Record bounded : Prop := {
  bd_body q : q ∈ K -> db_query_kind_is_input q.1 = false -> closed (body L q);
  bd_policy q : q ∈ K -> is_fixpoint q.1 = false;
  bd_key q : q ∈ K -> dispatch_key q = q;
  bd_size : (size K <= QUERY_STACK_CAPACITY)%nat
}.
Context (B : bounded).

(** ** The invariant *)

Definition running d q : Prop :=
  exists sl, slots d !! q = Some sl /\ state (hot sl) = QUERY_RUNNING.

Record WF d : Prop := {
  wf_rows q : q ∈ K -> hashmap_routed q.1 = false -> is_Some (slots d !! q);
  wf_input q sl : q ∈ K -> db_query_kind_is_input q.1 = true -> slots d !! q = Some sl ->
    state (hot sl) <> QUERY_EMPTY /\ deps (hot sl) = false;
  wf_deps q row : q ∈ K -> row ∈ dep_rows d q -> dep_id row ∈ K;
  wf_ids q : q ∈ ids d -> q ∈ K /\ running d q;
  wf_nodup : NoDup (ids d);
  wf_run q : q ∈ K -> running d q -> q ∈ ids d \/ q ∈ running_slots d;
  wf_tracked q : q ∈ running_slots d -> db_query_kind_is_input q.1 = false;
  wf_scc : scc_store d = None
}.

(** What a call leaves to its caller: the stack, but for the accumulators of the top
    frame; RUNNING slots RUNNING; the Vecs of the frames at least as long. *)
Record Grows d d' : Prop := {
  gr_stack : match query_stack d with
             | [] => query_stack d' = []
             | f :: rest => exists f', query_stack d' = f' :: rest /\ frame_id f' = frame_id f /\
                                       (f_deps f = true -> f_deps f' = true)
             end;
  gr_run q : running d q -> running d' q;
  gr_rows f : f ∈ query_stack d -> f_deps f = true ->
    (length (dep_rows d (frame_id f)) <= length (dep_rows d' (frame_id f)))%nat;
  gr_tracked q : q ∈ running_slots d -> q ∈ running_slots d';
  gr_slots q : is_Some (slots d !! q) -> is_Some (slots d' !! q);
  gr_rev : rev_control d' = rev_control d
}.

#[global] Instance Grows_preorder : PreOrder Grows.
Proof.
  split.
  - intros d. split; try done. destruct (query_stack d) as [|f rest]; [done|]. by exists f.
  - intros d1 d2 d3 [A1 B1 C1 D1 E1 F1] [A2 B2 C2 D2 E2 F2]. split.
    + destruct (query_stack d1) as [|f rest].
      * by rewrite A1 in A2.
      * destruct A1 as (f' & A1 & Hid & Hd). rewrite A1 in A2.
        destruct A2 as (f'' & A2 & Hid' & Hd'). exists f''. split; [done|].
        split; [congruence|]. auto.
    + auto.
    + intros f Hf Hd. etrans; [by apply C1|].
      destruct (query_stack d1) as [|f1 rest]; [by apply elem_of_nil in Hf|].
      destruct A1 as (f' & A1 & Hid & Hdd). rewrite A1 in C2.
      apply elem_of_cons in Hf as [->|Hf].
      * rewrite <- Hid. apply C2; [by left|by apply Hdd].
      * apply C2; [by right|done].
    + auto.
    + auto.
    + congruence.
Qed.

Lemma Grows_ids d d' : Grows d d' -> ids d' = ids d.
Proof.
  intros [H _ _ _ _ _]. unfold ids. destruct (query_stack d) as [|f rest]; [by rewrite H|].
  destruct H as (f' & -> & Hid & _). simpl. by rewrite Hid.
Qed.

#[global] Instance running_dec d q : Decision (running d q).
Proof.
  unfold running. destruct (slots d !! q) as [sl|] eqn:E.
  - destruct (decide (state (hot sl) = QUERY_RUNNING)) as [H|H]; [left; by exists sl|right].
    intros (sl' & Hsl' & H'). injection Hsl' as <-. done.
  - right. by intros (sl & Hsl & _).
Defined.

(** Queries that are not RUNNING: the nesting still possible. *)
Definition idle d : gset qid := filter (fun q => ~ running d q) K.

Lemma idle_shrinks d d' q : q ∈ K -> ~ running d q -> running d' q ->
  (forall q', running d q' -> running d' q') -> (size (idle d') < size (idle d))%nat.
Proof.
  intros Hq Hn Hr Hmono. apply subset_size. split.
  - intros q'. unfold idle. rewrite !elem_of_filter. naive_solver.
  - intros Hsub. assert (Hin : q ∈ idle d) by (unfold idle; by rewrite elem_of_filter).
    apply Hsub in Hin. unfold idle in Hin. rewrite elem_of_filter in Hin. naive_solver.
Qed.

Lemma idle_mono d d' : (forall q', running d q' -> running d' q') ->
  (size (idle d') <= size (idle d))%nat.
Proof.
  intros Hmono. apply subseteq_size. intros q'. unfold idle. rewrite !elem_of_filter. naive_solver.
Qed.

(** Room for one more frame. *)
Lemma room d q : WF d -> q ∈ K -> ~ running d q -> (length (query_stack d) < QUERY_STACK_CAPACITY)%nat.
Proof.
  intros HW Hq Hn. apply Nat.lt_le_trans with (size K); [|apply B].
  replace (length (query_stack d)) with (size (list_to_set (ids d) : gset qid)).
  - apply subset_size. split.
    + intros q'. rewrite elem_of_list_to_set. by intros [? _]%(wf_ids d HW).
    + intros Hsub. apply Hsub in Hq. rewrite elem_of_list_to_set in Hq.
      by apply (wf_ids d HW) in Hq as [_ ?].
  - rewrite size_list_to_set by apply HW. unfold ids. by rewrite length_map.
Qed.

(** ** Leaving a frame *)

(** [d1] is inside a call of [q] made at [d]. *)
Record Inside q d d1 f : Prop := {
  in_K : q ∈ K;
  in_idle : ~ running d q;
  in_wf : WF d1;
  in_stack : query_stack d1 = f :: query_stack d;
  in_frame : frame_id f = q;
  in_run q' : running d q' -> running d1 q';
  in_rows g : g ∈ query_stack d -> f_deps g = true ->
    (length (dep_rows d (frame_id g)) <= length (dep_rows d1 (frame_id g)))%nat;
  in_tracked q' : q' ∈ running_slots d -> q' ∈ running_slots d1;
  in_slots q' : is_Some (slots d !! q') -> is_Some (slots d1 !! q');
  in_rev : rev_control d1 = rev_control d
}.

Lemma Inside_running q d d1 f : Inside q d d1 f -> running d1 q.
Proof.
  intros [_ _ HW Hst Hf _ _ _ _ _]. apply (wf_ids d1 HW). unfold ids. rewrite Hst, <- Hf. by left.
Qed.

Lemma Inside_idle q d d1 f : Inside q d d1 f -> (size (idle d1) < size (idle d))%nat.
Proof.
  intros HI. apply (idle_shrinks d d1 q); [apply HI|apply HI|by eapply Inside_running|apply HI].
Qed.

Lemma Inside_grows q d d1 d2 f : Inside q d d1 f -> WF d2 -> Grows d1 d2 ->
  exists f', Inside q d d2 f' /\ (f_deps f = true -> f_deps f' = true).
Proof.
  intros [HK Hn HW Hst Hf Hrun Hrows Htr Hsl Hrev] HW2 HG2. pose proof HG2 as [A _ C D E F]. rewrite Hst in A.
  destruct A as (f' & A & Hid & Hd). exists f'. split; [|done]. split; try done; auto.
  - congruence.
  - intros q' Hq'. apply (gr_run d1 d2 HG2). auto.
  - intros g Hg Hgd. etrans; [by apply Hrows|]. apply C; [rewrite Hst; by right|done].
  - congruence.
Qed.

(** The slot of [q] is written, giving [d2], to leave.  Popping, with or without recording
    the dependency, is back to the caller. *)
Record Leaving q d d1 d2 f : Prop := {
  lv_inside : Inside q d d1 f;
  lv_same q' : q' <> q -> slots d2 !! q' = slots d1 !! q';
  lv_slot : exists sl, slots d2 !! q = Some sl /\
    (state (hot sl) <> QUERY_RUNNING \/ q ∈ running_slots d1) /\
    (db_query_kind_is_input q.1 = true -> state (hot sl) <> QUERY_EMPTY /\ deps (hot sl) = false);
  lv_vecs : dep_vecs d2 = dep_vecs d1;
  lv_stack2 : query_stack d2 = query_stack d1;
  lv_tracked2 : running_slots d2 = running_slots d1;
  lv_scc : scc_store d2 = scc_store d1;
  lv_rev : rev_control d2 = rev_control d1
}.

Lemma leave_ok q d d1 d2 f d' : Leaving q d d1 d2 f ->
  slots d' = slots d2 -> running_slots d' = running_slots d2 -> scc_store d' = scc_store d2 ->
  rev_control d' = rev_control d2 ->
  map frame_id (query_stack d') = ids d ->
  (match query_stack d with
   | [] => query_stack d' = []
   | p :: rest => exists p', query_stack d' = p' :: rest /\ frame_id p' = frame_id p /\
                             (f_deps p = true -> f_deps p' = true)
   end) ->
  (forall g, g ∈ query_stack d -> f_deps g = true ->
     (length (dep_rows d2 (frame_id g)) <= length (dep_rows d' (frame_id g)))%nat) ->
  (forall q' row, q' ∈ K -> row ∈ dep_rows d' q' -> dep_id row ∈ K) ->
  WF d' /\ Grows d d'.
Proof.
  intros [[HK Hn HW Hst Hf Hrun Hrows Htr Hsl Hrev] Hsame (sl & Hsl2 & Hstate & Hin) Hv Hst2 Htr2 Hscc Hrev2]
    Es Et Ec Er Eids Est Erows Edeps.
  assert (Hr : forall q', q' <> q -> running d' q' <-> running d1 q').
  { intros q' Hne. unfold running. by rewrite Es, Hsame. }
  assert (Hq_ids : q ∉ ids d).
  { pose proof (wf_nodup d1 HW) as Hnd. unfold ids in Hnd. rewrite Hst in Hnd. simpl in Hnd.
    apply NoDup_cons in Hnd as [Hnd _]. by rewrite Hf in Hnd. }
  assert (Hids1 : ids d1 = q :: ids d) by (unfold ids; rewrite Hst; simpl; by rewrite Hf).
  split; split.
  - intros q' Hq' Hh. rewrite Es. destruct (decide (q' = q)) as [->|]; [by exists sl|].
    rewrite Hsame by done. by apply (wf_rows d1 HW).
  - intros q' sl' Hq' Hi. rewrite Es. destruct (decide (q' = q)) as [->|].
    + rewrite Hsl2. intros [= <-]. by apply Hin.
    + rewrite Hsame by done. by apply (wf_input d1 HW).
  - done.
  - intros q' Hq'. unfold ids in Hq'. rewrite Eids in Hq'.
    assert (Hne : q' <> q) by (by intros ->). rewrite Hr by done.
    apply (wf_ids d1 HW). rewrite Hids1. by right.
  - unfold ids. rewrite Eids. pose proof (wf_nodup d1 HW) as Hnd. rewrite Hids1 in Hnd.
    by apply NoDup_cons in Hnd as [_ ?].
  - intros q' Hq' Hrq. unfold ids at 1. rewrite Eids, Et, Htr2.
    destruct (decide (q' = q)) as [->|Hne].
    + right. destruct Hrq as (sl' & Hsl' & Hrq). rewrite Es, Hsl2 in Hsl'.
      injection Hsl' as <-. by destruct Hstate.
    + apply Hr in Hrq; [|done]. destruct (wf_run d1 HW q' Hq' Hrq) as [Hi'|]; [|by right].
      rewrite Hids1 in Hi'. apply elem_of_cons in Hi' as [|]; [done|by left].
  - intros q'. rewrite Et, Htr2. apply (wf_tracked d1 HW).
  - rewrite Ec, Hscc. apply HW.
  - done.
  - intros q' Hq'. assert (Hne : q' <> q) by (by intros ->). rewrite Hr by done. auto.
  - intros g Hg Hd. etrans; [by apply Hrows|]. etrans; [|by apply Erows].
    unfold dep_rows. by rewrite Hv.
  - intros q'. rewrite Et, Htr2. auto.
  - intros q' Hq'. rewrite Es. destruct (decide (q' = q)) as [->|]; [by exists sl|].
    rewrite Hsame by done. auto.
  - congruence.
Qed.

Lemma leave_pop q d d1 d2 f : Leaving q d d1 d2 f ->
  WF (query_stack_pop d2) /\ Grows d (query_stack_pop d2).
Proof.
  intros HL. assert (Hst : query_stack d2 = f :: query_stack d)
    by (rewrite (lv_stack2 _ _ _ _ _ HL); apply (lv_inside _ _ _ _ _ HL)).
  apply (leave_ok q d d1 d2 f _ HL); try done.
  - unfold query_stack_pop. simpl. by rewrite Hst.
  - unfold query_stack_pop. simpl. rewrite Hst. simpl.
    destruct (query_stack d) as [|p rest]; [done|]. by exists p.
  - intros q' row Hq'. unfold dep_rows. simpl. rewrite (lv_vecs _ _ _ _ _ HL).
    apply (wf_deps d1 (in_wf _ _ _ _ (lv_inside _ _ _ _ _ HL)) q' row Hq').
Qed.

Lemma leave_record q d d1 d2 f fp dur k g : Leaving q d d1 d2 f ->
  let d' := upd_stats k g (query_stack_pop (record_dep_on_parent q fp dur 1 d2)) in
  WF d' /\ Grows d d'.
Proof.
  intros HL d'. assert (Hst : query_stack d2 = f :: query_stack d)
    by (rewrite (lv_stack2 _ _ _ _ _ HL); apply (lv_inside _ _ _ _ _ HL)).
  destruct (pop_recorded q fp dur d2 f (query_stack d) Hst) as (E1 & E2 & E3 & E4 & E5 & E6 & E7).
  assert (Htr : running_slots d' = running_slots d2).
  { unfold d'. simpl. unfold record_dep_on_parent. rewrite Hst. simpl.
    destruct (query_stack d) as [|p rest]; simpl; [done|].
    destruct (record_dep _ _ _ _ _). simpl. by destruct (f_deps p), (f_dep_index p). }
  assert (Hdeps : forall q' row, q' ∈ K -> row ∈ dep_rows d2 q' -> dep_id row ∈ K).
  { intros q' row Hq'. unfold dep_rows. rewrite (lv_vecs _ _ _ _ _ HL).
    apply (wf_deps d1 (in_wf _ _ _ _ (lv_inside _ _ _ _ _ HL)) q' row Hq'). }
  destruct (query_stack d) as [|p rest] eqn:Er.
  - destruct E7 as [E7 E8]. apply (leave_ok q d d1 d2 f _ HL); try done.
    + change (query_stack d') with (query_stack (query_stack_pop (record_dep_on_parent q fp dur 1 d2))).
      rewrite E7. unfold ids. by rewrite Er.
    + by rewrite Er.
    + rewrite Er. by intros g' ?%elem_of_nil.
    + intros q' row Hq'. change (dep_rows d' q') with
        (dep_rows (query_stack_pop (record_dep_on_parent q fp dur 1 d2)) q').
      unfold dep_rows. rewrite E8. by apply Hdeps.
  - destruct E7 as (E7 & (idx & E8) & E9). apply (leave_ok q d d1 d2 f _ HL); try done.
    + change (query_stack d') with (query_stack (query_stack_pop (record_dep_on_parent q fp dur 1 d2))).
      rewrite E7. unfold ids. rewrite Er. simpl. by rewrite frame_recorded_id.
    + rewrite Er. exists (frame_recorded dur p). split; [done|].
      split; [apply frame_recorded_id|]. intros _. apply frame_recorded_deps.
    + intros g' Hg' Hd. change (dep_rows d' (frame_id g')) with
        (dep_rows (query_stack_pop (record_dep_on_parent q fp dur 1 d2)) (frame_id g')).
      destruct (decide (frame_id g' = frame_id p)) as [Heq|Hne].
      * assert (g' = p) as ->.
        { rewrite Er in Hg'. apply elem_of_cons in Hg' as [|Hg']; [done|].
          pose proof (wf_nodup d1 (in_wf _ _ _ _ (lv_inside _ _ _ _ _ HL))) as Hnd. unfold ids in Hnd.
          rewrite (in_stack _ _ _ _ (lv_inside _ _ _ _ _ HL)), Er in Hnd. simpl in Hnd.
          apply NoDup_cons in Hnd as [_ Hnd]. apply NoDup_cons in Hnd as [Hnd _].
          destruct Hnd. rewrite <- Heq. by apply list_elem_of_fmap_2. }
        rewrite E8. unfold frame_rows. rewrite Hd.
        destruct (record_dep_cases (dep_rows d2 (frame_id p)) idx q fp dur)
          as [->|(r & old & _ & _ & ->)]; [rewrite length_app; lia|by rewrite length_insert].
      * unfold dep_rows. by rewrite E9.
    + intros q' row Hq'. change (dep_rows d' q') with
        (dep_rows (query_stack_pop (record_dep_on_parent q fp dur 1 d2)) q').
      destruct (decide (q' = frame_id p)) as [->|Hne].
      * rewrite E8. intros [->|Hin]%record_dep_sound; [by rewrite dep_id_mk; apply (lv_inside _ _ _ _ _ HL)|].
        unfold frame_rows in Hin. destruct (f_deps p); [by apply (Hdeps _ _ Hq')|].
        by apply elem_of_nil in Hin.
      * unfold dep_rows. rewrite E9 by done. by apply Hdeps.
Qed.

(** ** Verification *)

Section Verify.
Context (pull : qid -> Db V -> outcome (Db V)) (n : nat).

Definition pull_total : Prop := forall q d, q ∈ K -> WF d -> (size (idle d) < n)%nat ->
  exists d', pull q d = Ret d' /\ WF d' /\ Grows d d'.

Lemma walk_total q d0 : pull_total -> (size (idle d0) <= n)%nat -> forall todo i d f,
  Inside q d0 d f -> f_deps f = true -> (i + todo <= length (dep_rows d q))%nat ->
  exists b d', verify_walk pull q todo i d = Ret (b, d') /\ WF d' /\ Grows d d'.
Proof.
  intros Hpull Hn. induction todo as [|todo IH]; intros i d f HI Hfd Hlen; simpl.
  { exists true, d. split; [done|]. split; [apply HI|done]. }
  destruct (lookup_lt_is_Some_2 (dep_rows d q) i) as [dep Hdep]; [lia|]. rewrite Hdep.
  assert (Hid := Inside_idle _ _ _ _ HI).
  destruct (Hpull (dep_id dep) d) as (d1 & -> & HW1 & HG1).
  { apply (wf_deps d (in_wf _ _ _ _ HI) q); [apply HI|]. by apply list_elem_of_lookup_2 in Hdep. }
  { apply HI. }
  { lia. }
  simpl. match goal with |- context [if ?b then _ else _] => destruct b end.
  2:{ by exists false, d1. }
  destruct (Inside_grows _ _ _ _ _ HI HW1 HG1) as (f1 & HI1 & Hfd1).
  destruct (IH (S i) d1 f1 HI1 (Hfd1 Hfd)) as (b & d' & -> & HW' & HG').
  { assert (length (dep_rows d q) <= length (dep_rows d1 q))%nat; [|lia].
    pose proof (gr_rows _ _ HG1 f) as Hr. rewrite (in_frame _ _ _ _ HI) in Hr.
    apply Hr; [|done]. rewrite (in_stack _ _ _ _ HI). by left. }
  exists b, d'. split; [done|]. split; [done|]. by etrans.
Qed.

Lemma verify_total q d0 d f sl : pull_total -> (size (idle d0) <= n)%nat ->
  Inside q d0 d f -> slots d !! q = Some sl -> f_deps f = deps (hot sl) ->
  exists b d' d1 x, db_engine_verify pull q d = Ret (b, d') /\ WF d1 /\ Grows d d1 /\
    (d' = d1 \/ d' = upd_hot q (set_verified_rev x) d1) /\
    (deps (hot sl) = false -> b = true).
Proof.
  intros Hpull Hn HI Hsl Hfd. unfold db_engine_verify, db_engine_locate_slot, db_engine_route_slot.
  rewrite Hsl. simpl. set (eff := db_effective_revision d).
  assert (HW : WF d) by apply HI.
  destruct (_ =? eff); [exists true, d, d, eff; split; [done|]; repeat (split; [done|]); by split; [left|]|].
  destruct (_ && _).
  { exists true, (upd_hot q (set_verified_rev eff) d), d, eff. split; [done|].
    repeat (split; [done|]). by split; [right|]. }
  unfold slot_rows. destruct (deps (hot sl)) eqn:Hd.
  - destruct (walk_total q d0 Hpull Hn (length (dep_rows d q)) 0 d f HI Hfd) as (b & d1 & -> & HW1 & HG1);
      [lia|]. simpl. destruct b.
    + exists true, (upd_hot q (set_verified_rev eff) d1), d1, eff. split; [done|].
      repeat (split; [done|]). by split; [right|].
    + exists false, d1, d1, eff. split; [done|]. repeat (split; [done|]). by split; [left|].
  - simpl. exists true, (upd_hot q (set_verified_rev eff) d), d, eff. split; [done|].
    repeat (split; [done|]). by split; [right|].
Qed.

(** ** Admission *)

(** Turning the slot RUNNING and pushing the frame. *)
Lemma enter_inside q d f sl d1 :
  q ∈ K -> WF d -> slots d !! q = Some sl -> state (hot sl) <> QUERY_RUNNING ->
  frame_id f = q -> query_stack d1 = f :: query_stack d ->
  (forall q', q' <> q -> slots d1 !! q' = slots d !! q') ->
  (exists sl1, slots d1 !! q = Some sl1 /\ state (hot sl1) = QUERY_RUNNING /\
               deps (hot sl1) = deps (hot sl)) ->
  dep_vecs d1 = dep_vecs d -> running_slots d1 = running_slots d -> scc_store d1 = scc_store d ->
  rev_control d1 = rev_control d ->
  Inside q d d1 f.
Proof.
  intros HK HW Hsl Hst Hf Hstk Hoth (sl1 & Hsl1 & Hrun1 & Hd1) Hv Ht Hc Hrv.
  assert (Hn : ~ running d q) by (intros (sl' & Hsl' & Hr); congruence).
  assert (Hr : forall q', running d1 q' <-> q' = q \/ running d q').
  { intros q'. unfold running. destruct (decide (q' = q)) as [->|Hne].
    - split; [by left|]. intros _. by exists sl1.
    - rewrite Hoth by done. naive_solver. }
  assert (Hids : ids d1 = q :: ids d) by (unfold ids; rewrite Hstk; simpl; by rewrite Hf).
  split; try done.
  - split.
    + intros q' Hq' Hh. destruct (decide (q' = q)) as [->|]; [by exists sl1|].
      rewrite Hoth by done. by apply (wf_rows d HW).
    + intros q' sl' Hq' Hi. destruct (decide (q' = q)) as [->|].
      * rewrite Hsl1. intros [= <-]. rewrite Hrun1, Hd1. split; [done|].
        by apply (wf_input d HW q sl).
      * rewrite Hoth by done. by apply (wf_input d HW).
    + intros q' row Hq'. unfold dep_rows. rewrite Hv. by apply (wf_deps d HW).
    + intros q'. rewrite Hids, elem_of_cons, Hr. intros [->|Hin]; [by split; [|left]|].
      apply (wf_ids d HW) in Hin as [? ?]. by split; [|right].
    + rewrite Hids. apply NoDup_cons. split; [|apply HW]. intros Hin. by apply (wf_ids d HW) in Hin as [_ ?].
    + intros q' Hq'. rewrite Hids, elem_of_cons, Hr, Ht. intros [->|Hrq]; [by left; left|].
      destruct (wf_run d HW q' Hq' Hrq); [by left; right|by right].
    + intros q'. rewrite Ht. apply (wf_tracked d HW).
    + rewrite Hc. apply HW.
  - intros q' Hq'. rewrite Hr. by right.
  - intros g Hg Hgd. unfold dep_rows. by rewrite Hv.
  - intros q'. by rewrite Ht.
  - intros q' Hq'. destruct (decide (q' = q)) as [->|]; [by exists sl1|]. by rewrite Hoth.
Qed.

(** Writing parts of the database that [WF] does not read, or tracking a derived query. *)
Lemma Inside_touch q d d1 d2 f : Inside q d d1 f ->
  query_stack d2 = query_stack d1 -> scc_store d2 = scc_store d1 ->
  rev_control d2 = rev_control d1 ->
  (forall q', q' <> q -> slots d2 !! q' = slots d1 !! q') ->
  (exists sl1 sl2, slots d1 !! q = Some sl1 /\ slots d2 !! q = Some sl2 /\
     state (hot sl2) = state (hot sl1) /\ deps (hot sl2) = deps (hot sl1)) ->
  (forall q', q' <> q -> dep_vecs d2 !! q' = dep_vecs d1 !! q') ->
  (dep_rows d2 q = [] \/ dep_rows d2 q = dep_rows d1 q) ->
  (forall q', q' ∈ running_slots d1 -> q' ∈ running_slots d2) ->
  (forall q', q' ∈ running_slots d2 -> q' ∈ running_slots d1 \/ q' = q) ->
  (db_query_kind_is_input q.1 = true -> running_slots d2 = running_slots d1) ->
  Inside q d d2 f.
Proof.
  intros [HK Hn HW Hst Hf Hrun Hrows Htr Hsl Hrev] Est Ec Erv Es (sl1 & sl2 & Hsl1 & Hsl2 & Est2 & Ed2) Ev Evq
    Et1 Et2 Et3.
  assert (Hr : forall q', running d2 q' <-> running d1 q').
  { intros q'. unfold running. destruct (decide (q' = q)) as [->|Hne]; [|by rewrite Es].
    rewrite Hsl1, Hsl2. split; intros (sl & [= <-] & H); eexists; (split; [done|]); congruence. }
  assert (Hrows2 : forall q' row, q' ∈ K -> row ∈ dep_rows d2 q' -> dep_id row ∈ K).
  { intros q' row Hq'. destruct (decide (q' = q)) as [->|Hne].
    - destruct Evq as [-> | ->]; [by intros ?%elem_of_nil|by apply (wf_deps d1 HW)].
    - unfold dep_rows. rewrite Ev by done. by apply (wf_deps d1 HW). }
  split; try done.
  - split.
    + intros q' Hq' Hh. destruct (decide (q' = q)) as [->|]; [by exists sl2|].
      rewrite Es by done. by apply (wf_rows d1 HW).
    + intros q' sl' Hq' Hi. destruct (decide (q' = q)) as [->|].
      * rewrite Hsl2. intros [= <-]. rewrite Est2, Ed2. by apply (wf_input d1 HW q).
      * rewrite Es by done. by apply (wf_input d1 HW).
    + done.
    + intros q'. unfold ids. rewrite Est, Hr. apply (wf_ids d1 HW).
    + unfold ids. rewrite Est. apply HW.
    + intros q' Hq'. unfold ids. rewrite Est, Hr. intros Hrq.
      destruct (wf_run d1 HW q' Hq' Hrq); [by left|right; auto].
    + intros q' Hin. destruct (Et2 q' Hin) as [Hin'| ->]; [by apply (wf_tracked d1 HW)|].
      destruct (db_query_kind_is_input q.1) eqn:Hi; [|done].
      rewrite (Et3 eq_refl) in Hin. rewrite <- Hi. by apply (wf_tracked d1 HW).
    + rewrite Ec. apply HW.
  - by rewrite Est.
  - intros q' Hq'. rewrite Hr. auto.
  - intros g Hg Hgd. etrans; [by apply Hrows|]. apply Nat.eq_le_incl. unfold dep_rows. rewrite Ev; [done|].
    intros Heq. pose proof (wf_nodup d1 HW) as Hnd. unfold ids in Hnd. rewrite Hst in Hnd.
    simpl in Hnd. apply NoDup_cons in Hnd as [Hnd _]. apply Hnd. rewrite Hf, <- Heq.
    by apply list_elem_of_fmap_2.
  - auto.
  - intros q' Hq'. destruct (decide (q' = q)) as [->|]; [by exists sl2|]. rewrite Es by done. auto.
  - congruence.
Qed.

(** What [db_query_begin] leaves: back at the caller, or inside with the slot tracked. *)
Definition begun q d (r : QueryBeginResult) d' : Prop :=
  (r <> QUERY_BEGIN_COMPUTE /\ r <> QUERY_BEGIN_CYCLE_PROVISIONAL /\ WF d' /\ Grows d d') \/
  (r = QUERY_BEGIN_COMPUTE /\ db_query_kind_is_input q.1 = false /\
   exists f, Inside q d d' f /\ q ∈ running_slots d').

Lemma begin_cached_total q d sl : pull_total -> (size (idle d) <= n)%nat -> q ∈ K -> WF d ->
  slots d !! q = Some sl -> state (hot sl) = QUERY_DONE \/ state (hot sl) = QUERY_ERROR ->
  exists r d', begin_cached pull q (hot sl) d = Ret (r, d') /\ begun q d r d'.
Proof.
  intros Hpull Hn HK HW Hsl Hst.
  assert (Hnr : state (hot sl) <> QUERY_RUNNING) by (destruct Hst; congruence).
  assert (Hni : ~ running d q) by (intros (sl' & Hsl' & Hr); congruence).
  unfold begin_cached. rewrite push_ok by (by apply (room d q)). simpl.
  set (f := mkFrame q.1 q.2 (deps (hot sl)) (dep_index (hot sl)) DUR_HIGH false None).
  assert (Hf : frame_id f = q) by by destruct q.
  set (d0 := put_query_stack (f :: query_stack d) (upd_hot q (set_state QUERY_RUNNING) d)).
  assert (Hsl0 : slots d0 !! q = Some (mkSlot (set_state QUERY_RUNNING (hot sl)) (cold sl))).
  { unfold d0. simpl. by rewrite lookup_alter_eq, Hsl. }
  assert (HI0 : Inside q d d0 f).
  { apply (enter_inside q d f sl d0); try done.
    - intros q' Hne. unfold d0. simpl. by rewrite lookup_alter_ne.
    - eexists. split; [exact Hsl0|done]. }
  destruct (verify_total q d d0 f _ Hpull Hn HI0 Hsl0) as (b & d2 & d1 & x & -> & HW1 & HG1 & Hd2 & Hb); [done|].
  simpl. destruct (Inside_grows _ _ _ _ _ HI0 HW1 HG1) as (f1 & HI1 & Hfd1).
  destruct (gr_slots _ _ HG1 q (ex_intro _ _ Hsl0)) as [sl1 Hsl1].
  destruct b.
  - set (d3 := upd_hot q (fun h => set_verified_rev (db_effective_revision d2)
                            (set_state (state (hot sl)) h)) d2).
    assert (HL : Leaving q d d1 d3 f1).
    { split; try done.
      - intros q' Hne. unfold d3. destruct Hd2 as [->| ->];
          rewrite ?slots_upd_hot, ?decide_False by congruence; done.
      - destruct (gr_run _ _ HG1 q) as (sl1' & Hsl1' & Hr1).
        { by eapply Inside_running. }
        rewrite Hsl1 in Hsl1'. injection Hsl1' as <-.
        assert (Hd3 : exists slx, slots d3 !! q = Some slx /\ state (hot slx) = state (hot sl) /\
                        deps (hot slx) = deps (hot sl1)).
        { unfold d3. destruct Hd2 as [->| ->].
          - rewrite slots_upd_hot, decide_True, Hsl1 by done. by eexists.
          - rewrite !slots_upd_hot, !decide_True, Hsl1 by done. by eexists. }
        destruct Hd3 as (slx & Hslx & Hstx & Hdx). exists slx. rewrite Hstx, Hdx.
        split; [done|]. split; [by left|]. intros Hi.
        split; [destruct Hst as [->| ->]; done|]. by apply (wf_input d1 HW1 q sl1).
      - unfold d3. by destruct Hd2 as [->| ->].
      - unfold d3. by destruct Hd2 as [->| ->].
      - unfold d3. by destruct Hd2 as [->| ->].
      - unfold d3. by destruct Hd2 as [->| ->].
      - unfold d3. by destruct Hd2 as [->| ->]. }
    eexists _, _. split; [done|]. left.
    split; [by case_bool_decide|]. split; [by case_bool_decide|].
    by apply (leave_record q d d1 d3 f1).
  - assert (Hd21 : query_stack d2 = query_stack d1 /\ dep_vecs d2 = dep_vecs d1 /\
      running_slots d2 = running_slots d1 /\ scc_store d2 = scc_store d1 /\
      rev_control d2 = rev_control d1)
      by by destruct Hd2 as [->| ->].
    destruct Hd21 as (Eq1 & Eq2 & Eq3 & Eq4 & Eq5).
    assert (Hs2 : (forall q', q' <> q -> slots d2 !! q' = slots d1 !! q') /\
      exists sl2, slots d2 !! q = Some sl2 /\ state (hot sl2) = state (hot sl1) /\
                  deps (hot sl2) = deps (hot sl1)).
    { destruct Hd2 as [->| ->]; [split; [done|by exists sl1]|]. split.
      - intros q' Hne. by rewrite slots_upd_hot, decide_False by congruence.
      - rewrite slots_upd_hot, decide_True, Hsl1 by done. by eexists. }
    destruct Hs2 as [Hs2 (sl2 & Hsl2 & Es2 & Ed2)].
    assert (Hdi : db_query_kind_is_input q.1 = false).
    { destruct (db_query_kind_is_input q.1) eqn:Hi; [|done].
      apply (wf_input d HW q sl HK Hi) in Hsl as [_ Hdf]. by apply Hb in Hdf. }
    unfold db_query_stack_top. rewrite Eq1, (in_stack _ _ _ _ HI1). simpl.
    rewrite (in_frame _ _ _ _ HI1).
    eexists _, _. split; [done|]. right. split; [done|]. split; [done|]. exists f1.
    split; [|simpl; rewrite elem_of_app, list_elem_of_singleton; by right].
    apply (Inside_touch q d d1); try done.
    + simpl. unfold clear_deps. destruct (f_deps f1), (f_dep_index f1); done.
    + simpl. unfold clear_deps. destruct (f_deps f1), (f_dep_index f1); done.
    + simpl. unfold clear_deps. destruct (f_deps f1), (f_dep_index f1); done.
    + intros q' Hne. simpl. rewrite lookup_alter_ne by done.
      unfold clear_deps. destruct (f_deps f1), (f_dep_index f1); simpl; by apply Hs2.
    + exists sl1. simpl. rewrite lookup_alter_eq.
      replace (slots (clear_deps q (f_deps f1) (f_dep_index f1) d2)) with (slots d2)
        by (unfold clear_deps; by destruct (f_deps f1), (f_dep_index f1)).
      rewrite Hsl2. simpl. eexists. split; [done|]. split; [done|]. done.
    + intros q' Hne. simpl. rewrite <- Eq2.
      unfold clear_deps. destruct (f_deps f1), (f_dep_index f1); simpl; try done.
      all: by rewrite lookup_insert_ne.
    + unfold dep_rows. simpl. rewrite <- Eq2. unfold clear_deps.
      destruct (f_deps f1), (f_dep_index f1); simpl; try (by right); left; by rewrite lookup_insert_eq.
    + intros q' Hin. simpl. rewrite elem_of_app. left. unfold clear_deps.
      destruct (f_deps f1), (f_dep_index f1); simpl; by rewrite Eq3.
    + intros q'. simpl. rewrite elem_of_app, list_elem_of_singleton, <- Eq3. unfold clear_deps.
      destruct (f_deps f1), (f_dep_index f1); simpl; tauto.
    + by rewrite Hdi.
Qed.

Lemma begin_total q d : pull_total -> (size (idle d) <= n)%nat -> q ∈ K -> WF d ->
  is_Some (slots d !! q) ->
  exists r d', db_query_begin pull q d = Ret (r, d') /\ begun q d r d'.
Proof.
  intros Hpull Hn HK HW [sl Hsl]. unfold db_query_begin.
  destruct (db_check_cancel d).
  { exists QUERY_BEGIN_CANCELED, d. split; [done|]. left. by repeat (split; [done|]). }
  set (d0 := upd_stats q.1 stat_begin d).
  assert (HW0 : WF d0) by (destruct HW; by split).
  assert (Hsl0 : slots d0 !! q = Some sl) by done.
  assert (Hb : forall r d', begun q d0 r d' -> begun q d r d').
  { intros r d' [(A & C & D & F)|(A & C & f & F & D)]; [left|right].
    - split; [done|]. split; [done|]. split; [done|]. destruct F. by split.
    - split; [done|]. split; [done|]. exists f. split; [|done]. destruct F. by split. }
  unfold db_engine_locate_slot, db_engine_route_slot. rewrite Hsl0. simpl.
  destruct (state (hot sl)) eqn:Est.
  - assert (Hni : ~ running d q) by (intros (sl' & Hsl' & Hr); congruence).
    rewrite push_ok by (by apply (room d q)). simpl.
    set (f := mkFrame q.1 q.2 (deps (hot sl)) (dep_index (hot sl)) DUR_HIGH false None).
    eexists _, _. split; [done|]. right. split; [done|].
    assert (Hi : db_query_kind_is_input q.1 = false).
    { destruct (db_query_kind_is_input q.1) eqn:Hi; [|done].
      by apply (wf_input d HW q sl HK Hi) in Hsl as [? _]. }
    split; [done|]. exists f. split; [|simpl; rewrite elem_of_app, list_elem_of_singleton; by right].
    assert (HI : Inside q d (put_query_stack (f :: query_stack d)
       (upd_cold q (set_routing_key q.2) (upd_hot q (set_state QUERY_RUNNING) d0))) f).
    { apply (enter_inside q d f sl); try done.
      - congruence.
      - by destruct q.
      - intros q' Hne. simpl. by rewrite !lookup_alter_ne by done.
      - simpl. rewrite !lookup_alter_eq, Hsl. simpl. by eexists. }
    eapply (Inside_touch q d); [exact HI|..]; try done.
    + simpl. rewrite !lookup_alter_eq, Hsl. simpl. eexists _, _. by repeat (split; [done|]).
    + by right.
    + intros q' Hin. simpl. rewrite elem_of_app. by left.
    + intros q'. simpl. by rewrite elem_of_app, list_elem_of_singleton.
    + by rewrite Hi.
  - unfold begin_running. rewrite (bd_policy B q HK).
    eexists _, _. split; [done|]. left. split; [done|]. split; [done|].
    destruct HW0. split; [by split|]. split; try done.
    destruct (query_stack d) as [|f rest] eqn:E; simpl; rewrite E; [done|]. by exists f.
  - destruct (begin_cached_total q d0 sl Hpull Hn HK HW0 Hsl0) as (r & d' & -> & Hr); [by left|].
    exists r, d'. split; [done|]. by apply Hb.
  - destruct (begin_cached_total q d0 sl Hpull Hn HK HW0 Hsl0) as (r & d' & -> & Hr); [by right|].
    exists r, d'. split; [done|]. by apply Hb.
Qed.

End Verify.

(** ** The body and success *)

Section Ask.
Context (ask : qid -> Db V -> outcome (V * Db V)) (n : nat).

Definition ask_total : Prop := forall q d, q ∈ K -> WF d -> (size (idle d) < n)%nat ->
  exists v d', ask q d = Ret (v, d') /\ WF d' /\ Grows d d'.

Lemma run_total q d0 : ask_total -> (size (idle d0) <= n)%nat -> forall p d f,
  closed p -> Inside q d0 d f -> q ∈ running_slots d ->
  exists v fp d' f', run_prog ask q p d = Ret (v, fp, d') /\ Inside q d0 d' f' /\
                     q ∈ running_slots d'.
Proof.
  intros Hask Hn p d f Hp. revert d f.
  induction Hp as [v fp|v p Hp IH|p Hp IH|dep k Hk Hc IH]; intros d f HI Htr; simpl.
  - by exists v, fp, d, f.
  - apply (IH _ f); [|done]. destruct HI as [A0 A1 [] A3 A4 A5 A6 A7 A8 A9]. by split.
  - apply (IH _ f); [|done]. destruct HI as [A0 A1 [] A3 A4 A5 A6 A7 A8 A9]. by split.
  - assert (Hid := Inside_idle _ _ _ _ HI).
    destruct (Hask dep d Hk (in_wf _ _ _ _ HI)) as (v & d1 & -> & HW1 & HG1); [lia|]. simpl.
    destruct (Inside_grows _ _ _ _ _ HI HW1 HG1) as (f1 & HI1 & _).
    apply (IH v d1 f1 HI1). by apply (gr_tracked _ _ HG1).
Qed.

Lemma wrapper_compute_total q d0 d f : ask_total -> (size (idle d0) <= n)%nat ->
  db_query_kind_is_input q.1 = false -> Inside q d0 d f -> q ∈ running_slots d ->
  exists v d', wrapper_compute L ask q d = Ret (v, d') /\ WF d' /\ Grows d0 d'.
Proof.
  intros Hask Hn Hi HI Htr.
  assert (HK : q ∈ K) by apply HI.
  destruct (run_total q d0 Hask Hn (body L q) d f) as (v & fp & d1 & f1 & Hrun & HI1 & Htr1);
    [by apply B|done|done|].
  unfold wrapper_compute, compute. rewrite Hi, Hrun. simpl. rewrite (bd_policy B q HK). simpl.
  destruct (Inside_running _ _ _ _ HI1) as (sl1 & Hsl1 & Hrun1).
  unfold db_query_succeed. rewrite Hi. simpl. unfold db_engine_route_slot. simpl.
  rewrite Hsl1, bool_decide_true by by eexists. simpl.
  unfold own_frame. simpl. rewrite (in_stack _ _ _ _ HI1).
  rewrite bool_decide_true by apply HI1. simpl.
  assert (Hroot : forall d' : Db V, scc_store d' = None -> db_query_fixpoint_is_root d' q = false)
    by (intros d' H; unfold db_query_fixpoint_is_root; by rewrite H).
  unfold db_check_cancel. simpl. destruct (cancel_requested d1).
  - set (d2 := upd_hot q (take_deps f1) (write_column q v d1)).
    assert (HL : Leaving q d0 d1 d2 f1).
    { split; try done.
      - intros q' Hne. unfold d2. simpl. by rewrite lookup_alter_ne.
      - unfold d2. simpl. rewrite lookup_alter_eq, Hsl1. simpl. eexists. split; [done|].
        split; [by right|]. by rewrite Hi. }
    destruct (leave_pop q d0 d1 d2 f1 HL) as [HW2 HG2].
    simpl. rewrite Hroot; [|apply (wf_scc _ HW2)]. eexists _, _. split; [done|]. by split.
  - match goal with |- context [record_dep_on_parent q fp ?dd 1 ?x] =>
      set (d2 := x); set (dur := dd) end.
    assert (HL : Leaving q d0 d1 d2 f1).
    { split; try done.
      - intros q' Hne. unfold d2. simpl. by rewrite !lookup_alter_ne.
      - unfold d2. simpl. rewrite !lookup_alter_eq, Hsl1. simpl. eexists. split; [done|].
        split; [by left|]. by rewrite Hi. }
    destruct (leave_record q d0 d1 d2 f1 fp dur q.1 stat_compute HL) as [HW2 HG2].
    simpl. rewrite Hroot; [|apply (wf_scc _ HW2)]. eexists _, _. split; [done|]. by split.
Qed.

End Ask.

Lemma alloc_total q d : q ∈ K -> WF d -> let d' := db_query_slot_alloc q d in
  WF d' /\ Grows d d' /\ is_Some (slots d' !! q) /\ (forall q', running d' q' <-> running d q').
Proof.
  intros HK HW d'. unfold d', db_query_slot_alloc. destruct (hashmap_routed q.1) eqn:Hh.
  2:{ split; [done|]. split; [done|]. split; [by apply (wf_rows d HW)|done]. }
  destruct (slots d !! q) as [sl|] eqn:Hsl.
  { split; [done|]. split; [done|]. by split; [eexists|]. }
  assert (Hi : db_query_kind_is_input q.1 = false) by by destruct q.1.
  set (d1 := put_slots _ d).
  assert (Hs : forall q', q' <> q -> slots d1 !! q' = slots d !! q')
    by (intros q' Hne; unfold d1; simpl; by rewrite lookup_insert_ne).
  assert (Hq : slots d1 !! q = Some (mkSlot zero_hot (mkCold 0 q.2)))
    by (unfold d1; simpl; by rewrite lookup_insert_eq).
  assert (Hr : forall q', running d1 q' <-> running d q').
  { intros q'. unfold running. destruct (decide (q' = q)) as [->|Hne]; [|by rewrite Hs].
    rewrite Hq, Hsl. split; [by intros (sl & [= <-] & ?)|by intros (sl & ? & _)]. }
  split; [|split; [|split; [by eexists|done]]].
  - destruct HW as [W1 W2 W3 W4 W5 W6 W7 W8]. split; try done.
    + intros q' Hq' Hh'. destruct (decide (q' = q)) as [->|]; [by eexists|]. rewrite Hs by done. by apply W1.
    + intros q' sl' Hq' Hi'. destruct (decide (q' = q)) as [->|]; [congruence|]. rewrite Hs by done. by apply W2.
    + intros q' Hin. rewrite Hr. by apply W4.
    + intros q' Hq'. rewrite Hr. by apply W6.
  - split; try done.
    + change (query_stack d1) with (query_stack d).
      destruct (query_stack d) as [|f rest]; [done|]. by exists f.
    + intros q'. by rewrite Hr.
    + intros q' Hq'. destruct (decide (q' = q)) as [->|]; [by eexists|]. by rewrite Hs.
Qed.

(** ** The wrapper *)

(** A query returns, at a nesting no deeper than the number of idle queries. *)
Lemma query_total_fuel n : ask_total (query L n) n.
Proof.
  induction n as [|n IH]; intros q d HK HW Hn; [lia|].
  destruct (alloc_total q d HK HW) as (HW0 & HG0 & Hsl0 & Hr0).
  assert (Hn0 : (size (idle (db_query_slot_alloc q d)) <= n)%nat).
  { assert (size (idle (db_query_slot_alloc q d)) <= size (idle d))%nat; [|lia].
    apply idle_mono. intros q'. by rewrite Hr0. }
  assert (Hpull : pull_total (db_engine_recompute_dispatch (query L n)) n).
  { intros dep d' Hk' HW' Hn'. unfold db_engine_recompute_dispatch.
    destruct (db_query_kind_is_input dep.1); [by exists d'|].
    rewrite (bd_key B dep Hk'). destruct (IH dep d' Hk' HW' Hn') as (v & d1 & -> & HW1 & HG1).
    by exists d1. }
  simpl. destruct (begin_total _ n q _ Hpull Hn0 HK HW0 Hsl0) as (r & d1 & -> & Hb). simpl.
  destruct Hb as [(H1 & H2 & HW1 & HG1)|(-> & Hi & f & HI & Htr)].
  - destruct r; try done; eexists _, _; (split; [done|]); (split; [done|]); by etrans.
  - destruct (wrapper_compute_total (query L n) n q _ d1 f IH Hn0 Hi HI Htr)
      as (v & d2 & -> & HW2 & HG2).
    eexists _, _. split; [done|]. split; [done|]. by etrans.
Qed.

(** C2: Termination, cycles and cancellation included, but for the fixpoint kinds.  Take a
    finite set of queries, no more than the frame stack has room for and none of a kind that
    iterates on a cycle (FN_SIGNATURE, INFER_BODY), whose bodies ask only queries of the set
    ([bounded]).  Whatever they ask of each other, and whatever the slots hold, a query made
    between requests or inside one returns with as much fuel as there are queries, no assert
    fails, and the frame stack is the caller's. *)
Theorem query_total fuel q d : q ∈ K -> WF d -> (size K < fuel)%nat ->
  exists v d', query L fuel q d = Ret (v, d') /\ WF d' /\ ids d' = ids d.
Proof.
  intros HK HW Hfuel. destruct (query_total_fuel fuel q d HK HW) as (v & d' & Hq & HW' & HG).
  - apply Nat.le_lt_trans with (size K); [|done]. apply subseteq_size. intros q'.
    unfold idle. rewrite elem_of_filter. tauto.
  - exists v, d'. split; [done|]. split; [done|]. by apply Grows_ids.
Qed.

(** ** Requests *)

(** What the sweep and the reclamation preserve, with no frame on the stack. *)
Record Idle d : Prop := {
  id_rows q : q ∈ K -> hashmap_routed q.1 = false -> is_Some (slots d !! q);
  id_input q sl : q ∈ K -> db_query_kind_is_input q.1 = true -> slots d !! q = Some sl ->
    state (hot sl) <> QUERY_EMPTY /\ deps (hot sl) = false;
  id_deps q row : q ∈ K -> row ∈ dep_rows d q -> dep_id row ∈ K;
  id_stack : query_stack d = [];
  id_scc : scc_store d = None
}.

Lemma Idle_WF d : Idle d -> (forall q, q ∈ K -> ~ running d q) -> running_slots d = [] -> WF d.
Proof.
  intros [A C D E F] Hn Ht. split; try done; unfold ids; try rewrite E; simpl.
  - by intros q ?%elem_of_nil.
  - constructor.
  - intros q Hq Hr. by apply Hn in Hr.
  - rewrite Ht. by intros q ?%elem_of_nil.
Qed.

Lemma sweep_one_idle q d : Idle d -> db_query_kind_is_input q.1 = false ->
  Idle (sweep_one q d) /\ running_slots (sweep_one q d) = running_slots d /\
  rev_control (sweep_one q d) = rev_control d /\
  forall q', running (sweep_one q d) q' <-> q' <> q /\ running d q'.
Proof.
  intros HI Hi. unfold sweep_one, db_engine_locate_slot, db_engine_route_slot.
  destruct (slots d !! q) as [sl|] eqn:Hsl; simpl.
  2:{ repeat (split; [done|]). intros q'. split; [|by intros []]. intros Hr. split; [|done].
      intros ->. destruct Hr as (sl' & ? & _). congruence. }
  case_bool_decide as Hst.
  2:{ repeat (split; [done|]). intros q'. split; [|by intros []]. intros Hr. split; [|done].
      intros ->. destruct Hr as (sl' & ? & ?). congruence. }
  set (d1 := free_deps q (deps (hot sl)) (dep_index (hot sl)) d).
  assert (E : slots d1 = slots d /\ query_stack d1 = query_stack d /\ scc_store d1 = scc_store d /\
    running_slots d1 = running_slots d /\ rev_control d1 = rev_control d)
    by (unfold d1, free_deps; by destruct (deps (hot sl)), (dep_index (hot sl))).
  destruct E as (E1 & E2 & E3 & E4 & E5).
  assert (Hv : forall q' row, row ∈ dep_rows d1 q' -> row ∈ dep_rows d q').
  { intros q' row. unfold d1, free_deps, dep_rows.
    destruct (deps (hot sl)), (dep_index (hot sl)); simpl; try done.
    all: destruct (decide (q = q')) as [<-|]; [by rewrite lookup_delete_eq; intros ?%elem_of_nil|];
         by rewrite lookup_delete_ne. }
  split; [|split; [done|split; [done|]]].
  - destruct HI as [A C D F G]. split.
    + intros q' Hq' Hh. rewrite slots_upd_hot, E1. case_decide; [rewrite fmap_is_Some|]; auto.
    + intros q' sl' Hq' Hi'. rewrite slots_upd_hot, E1. case_decide; [congruence|]. by apply C.
    + intros q' row Hq' Hrow. apply (D q' row Hq'). by apply Hv.
    + by rewrite <- F.
    + by rewrite <- G.
  - intros q'. unfold running. rewrite slots_upd_hot, E1. case_decide as Hq'.
    + subst q'. rewrite Hsl. simpl. split; [by intros (? & [= <-] & ?)|by intros []].
    + split; [|by intros []]. intros Hr. split; [congruence|done].
Qed.

Lemma sweep_settles d : Idle d ->
  (forall q, q ∈ running_slots d -> db_query_kind_is_input q.1 = false) ->
  (forall q, q ∈ K -> running d q -> q ∈ running_slots d) ->
  let d' := db_engine_sweep_running d in
  Idle d' /\ running_slots d' = [] /\ rev_control d' = rev_control d /\
  forall q, q ∈ K -> ~ running d' q.
Proof.
  intros HI Hin Hall d'.
  assert (H : forall l d0, Idle d0 -> (forall q, q ∈ l -> db_query_kind_is_input q.1 = false) ->
    let d1 := foldl (fun d q => sweep_one q d) d0 l in
    Idle d1 /\ rev_control d1 = rev_control d0 /\
    forall q, running d1 q <-> (q ∉ l) /\ running d0 q).
  { induction l as [|q l IH]; intros d0 HI0 Hl; simpl.
    - repeat (split; [done|]). intros q. split; [|by intros []]. intros H. split; [|done].
      by intros ?%elem_of_nil.
    - destruct (sweep_one_idle q d0 HI0) as (HI1 & _ & Er & Hr); [apply Hl; by left|].
      destruct (IH (sweep_one q d0) HI1) as (HI2 & Er2 & Hr2); [intros q' Hq'; apply Hl; by right|].
      split; [done|]. split; [congruence|]. intros q'. rewrite Hr2, Hr, elem_of_cons. tauto. }
  destruct (H (running_slots d) d HI Hin) as (HI1 & Er & Hr). unfold d', db_engine_sweep_running.
  split; [by destruct HI1|]. split; [done|]. split; [done|].
  intros q Hq Hrun. assert (Hrun' : running (foldl (fun d q => sweep_one q d) d (running_slots d)) q) by done.
  apply Hr in Hrun' as [Hnin Hrd]. by apply Hnin, Hall.
Qed.

Lemma reclaim_idle threshold d : Idle d -> (forall q, q ∈ K -> ~ running d q) ->
  Idle (db_engine_reclaim_orphans threshold d) /\
  forall q, q ∈ K -> ~ running (db_engine_reclaim_orphans threshold d) q.
Proof.
  intros [A C D F G] Hn.
  assert (Hs : forall q, slots (db_engine_reclaim_orphans threshold d) !! q
                         = slots d !! q ≫= reclaim_one threshold q).
  { intros q. unfold db_engine_reclaim_orphans. simpl. by rewrite map_lookup_imap. }
  split; [split; try done|].
  - intros q Hq Hh. rewrite Hs. destruct (A q Hq Hh) as [sl ->]. simpl. unfold reclaim_one.
    rewrite Hh. destruct (orphan threshold q sl); by eexists.
  - intros q sl Hq Hi. rewrite Hs. intros (sl0 & Hsl0 & Hone)%bind_Some. unfold reclaim_one, orphan in Hone.
    rewrite Hi in Hone. simpl in Hone. injection Hone as <-. by apply (C q).
  - intros q row Hq Hrow. apply (D q row Hq). revert Hrow. unfold dep_rows. simpl.
    unfold drop_orphans. rewrite map_lookup_imap. destruct (dep_vecs d !! q) as [l|]; simpl; [|done].
    destruct (slots d !! q) as [sl|]; [|done].
    destruct (orphan threshold q sl); [by intros ?%elem_of_nil|done].
  - intros q Hq (sl & Hsl & Hr). rewrite Hs in Hsl. apply bind_Some in Hsl as (sl0 & Hsl0 & Hone).
    unfold reclaim_one in Hone. destruct (orphan threshold q sl0).
    + destruct (hashmap_routed q.1); [done|]. injection Hone as <-. done.
    + injection Hone as <-. apply (Hn q Hq). by exists sl0.
Qed.

Lemma query_all_total fuel qs : (size K < fuel)%nat -> forall d, WF d -> query_stack d = [] ->
  Forall (fun q => q ∈ K) qs ->
  exists vs d', query_all L fuel qs d = Ret (vs, d') /\ WF d' /\ query_stack d' = [] /\
                rev_control d' = rev_control d /\ length vs = length qs.
Proof.
  intros Hfuel. induction qs as [|q qs IH]; intros d HW Hst Hqs; simpl; [by exists [], d|].
  apply Forall_cons in Hqs as [Hq Hqs].
  destruct (query_total_fuel fuel q d Hq HW) as (v & d1 & -> & HW1 & HG1).
  { apply Nat.le_lt_trans with (size K); [|done]. apply subseteq_size. intros q'.
    unfold idle. rewrite elem_of_filter. tauto. }
  simpl. pose proof (gr_stack _ _ HG1) as Hst1. rewrite Hst in Hst1.
  destruct (IH d1 HW1 Hst1 Hqs) as (vs & d2 & -> & HW2 & Hst2 & Hr2 & Hlen). simpl.
  exists (v :: vs), d2. split; [done|]. split; [done|]. split; [done|].
  split; [by rewrite Hr2, (gr_rev _ _ HG1)|]. simpl. by rewrite Hlen.
Qed.

(** Between requests: no frame, nothing RUNNING, no request open. *)
Record Settled d : Prop := {
  se_idle : Idle d;
  se_still q : q ∈ K -> ~ running d q;
  se_closed : rev_request (rev_control d) = 0;
  se_rev : 1 <= db_current_revision d
}.

(** C3: A request completes and leaves nothing running.  For the same [bounded] sets of queries,
    of which none iterates on cycles, whatever the bodies do, cycling or being cancelled half
    way, a request for any list of the queries returns an answer for each, and when it has ended no slot is RUNNING, so that the next request
    can compute every one of them: the state it leaves is again one a request can start
    from. *)
Theorem request_settles fuel qs d : Settled d -> Forall (fun q => q ∈ K) qs ->
  (size K < fuel)%nat ->
  exists vs d', request L fuel qs d = Ret (vs, d') /\ length vs = length qs /\ Settled d'.
Proof.
  intros [HI Hstill Hcl Hrev] Hqs Hfuel. unfold request, db_request_begin.
  destruct (N.eqb_spec (db_current_revision d) 0) as [Hz|_]; [lia|]. cbn [obind oassert negb].
  rewrite bool_decide_true by apply HI. cbn [obind oassert].
  unfold db_current_revision at 1. rewrite N.leb_refl. cbn [obind oassert].
  set (d0 := put_running_slots [] _).
  assert (HW0 : WF d0).
  { apply Idle_WF; [destruct HI; by split|exact Hstill|done]. }
  assert (Hlt := rev_current_lt (rev_control d)). fold (db_current_revision d) in Hlt.
  assert (Hr0 : rev_request (rev_control d0) = db_current_revision d).
  { unfold d0, rev_set_request. cbn [rev_control put_running_slots put_cancel_requested put_rev_control].
    rewrite rev_request_with_request. apply u32_small. lia. }
  assert (Hc0 : rev_current (rev_control d0) = db_current_revision d).
  { unfold d0, rev_set_request. cbn [rev_control put_running_slots put_cancel_requested put_rev_control].
    apply rev_current_with_request. }
  destruct (query_all_total fuel qs Hfuel d0 HW0 (id_stack _ HI) Hqs) as (vs & d1 & -> & HW1 & Hst1 & Hr1 & Hlen).
  cbn [obind]. unfold db_request_end. rewrite bool_decide_true by done. cbn [obind oassert].
  rewrite Hr1, Hr0. destruct (N.eqb_spec (db_current_revision d) 0) as [Hz|_]; [lia|].
  cbn [obind oassert negb].
  assert (Hnil : forall q, q ∉ ids d1) by (intros q; unfold ids; rewrite Hst1; by intros ?%elem_of_nil).
  destruct (sweep_settles d1) as (HI2 & Ht2 & Hr2 & Hn2).
  { destruct HW1. by split. }
  { apply HW1. }
  { intros q Hq Hrun. destruct (wf_run d1 HW1 q Hq Hrun) as [Hin|]; [by apply Hnil in Hin|done]. }
  set (d2 := rev_set_request 0 (db_engine_sweep_running d1)).
  assert (HI3 : Idle d2) by (destruct HI2; by split).
  assert (Hn3 : forall q, q ∈ K -> ~ running d2 q) by done.
  assert (Hq3 : rev_request (rev_control d2) = 0).
  { unfold d2, rev_set_request. cbn [rev_control put_rev_control]. by rewrite rev_request_with_request. }
  assert (Hc3 : rev_current (rev_control d2) = db_current_revision d).
  { unfold d2, rev_set_request. cbn [rev_control put_rev_control].
    by rewrite rev_current_with_request, Hr2, Hr1. }
  eexists vs, _. split; [done|]. split; [done|]. unfold db_engine_compact.
  set (d3 := if 0 <? _ then _ else _).
  assert (Hrc : rev_control d3 = rev_control d2) by (unfold d3; by destruct (0 <? _)).
  assert (HI4 : Idle d3 /\ forall q, q ∈ K -> ~ running d3 q).
  { unfold d3. destruct (0 <? _); [by apply reclaim_idle|done]. }
  destruct HI4 as [HI4 Hn4]. split; [done|done|by rewrite Hrc|].
  unfold db_current_revision. rewrite Hrc, Hc3. done.
Qed.

End Total.
End EngineTotal.
