(* ===== verification/EngineEdges.v ===== *)
(** * The engine at its edges: the index of dependencies, input changes, cancellation

    What the refinement does not speak of: that the hash index of a dependency Vec never
    points outside it, what an input change does to the tiers, and what the engine does
    when a request is cancelled or the tier of a query is not fixed. *)

From stdpp Require Import gmap.
From S2P Require Import Prelude Engine Query EngineSpec EngineFacts EngineInv EngineRun EngineTheorems EngineTotal.
Import Engine Query EngineSpec EngineFacts EngineInv EngineRun EngineTheorems.

Module EngineEdges.

#[local] Open Scope N_scope.

(** ** The index of a dependency Vec *)

Definition row_key (row : QueryDep) : N := dep_index_key (d_kind row) (d_key row).

(** Every entry is the number of a row with that index key, and every row's key has one. *)
Record dep_index_ok (rows : list QueryDep) (idx : gmap N N) : Prop := {
  di_sound k r : idx !! k = Some r ->
    exists row, rows !! N.to_nat r = Some row /\ row_key row = k;
  di_total row : row ∈ rows -> is_Some (idx !! row_key row)
}.

Lemma dep_index_ok_nil : dep_index_ok [] ∅.
Proof. split; [by intros k r ?|by intros row ?%elem_of_nil]. Qed.

Lemma row_key_mk (child : qid) fp dur :
  row_key (mkDep child.1 child.2 fp dur) = dep_index_key child.1 child.2.
Proof. done. Qed.

Lemma dep_index_ok_overwrite rows idx r old new : dep_index_ok rows idx ->
  rows !! r = Some old -> row_key new = row_key old -> dep_index_ok (<[r := new]> rows) idx.
Proof.
  intros [H1 H2] Hr Hk. split.
  - intros k r' (row & Hrow & <-)%H1. destruct (decide (r = N.to_nat r')) as [->|Hne].
    + rewrite list_lookup_insert_eq by by eapply lookup_lt_Some. exists new.
      split; [done|]. congruence.
    + rewrite list_lookup_insert_ne by done. by exists row.
  - intros row [i Hi]%list_elem_of_lookup.
    apply list_lookup_insert_Some in Hi as [(-> & <- & _)|[_ Hi]].
    + rewrite Hk. apply H2. by apply list_elem_of_lookup_2 in Hr.
    + apply H2. by apply list_elem_of_lookup_2 in Hi.
Qed.

Lemma dep_index_ok_append rows idx new : dep_index_ok rows idx ->
  dep_index_ok (rows ++ [new]) (<[row_key new := N.of_nat (length rows)]> idx).
Proof.
  intros [H1 H2]. split.
  - intros k r [[<- <-]|[_ (row & Hrow & <-)%H1]]%lookup_insert_Some.
    + exists new. rewrite Nat2N.id, lookup_app_r, Nat.sub_diag by lia. done.
    + exists row. split; [by apply lookup_app_l_Some|done].
  - intros row [Hrow| ->%list_elem_of_singleton]%elem_of_app.
    + destruct (decide (row_key new = row_key row)) as [->|Hne].
      * rewrite lookup_insert_eq. by eexists.
      * rewrite lookup_insert_ne by done. by apply H2.
    + rewrite lookup_insert_eq. by eexists.
Qed.

Lemma dep_index_ok_shared rows idx new : dep_index_ok rows idx ->
  is_Some (idx !! row_key new) -> dep_index_ok (rows ++ [new]) idx.
Proof.
  intros [H1 H2] Hk. split.
  - intros k r (row & Hrow & <-)%H1. exists row. split; [by apply lookup_app_l_Some|done].
  - by intros row [Hrow%H2| ->%list_elem_of_singleton]%elem_of_app.
Qed.

(** The index of a dependency Vec stays consistent: recording a dependency keeps every
    index entry a number below the length of the Vec, of a row with that index key, so
    that the row read back through the index is never a NULL dereference, and keeps an
    entry for every row; the recorded query has a row with the recorded fingerprint and
    no row of another query changes. *)
Theorem record_dep_ok rows idx child fp dur rows' idx' :
  dep_index_ok rows idx -> N.of_nat (length rows) < 2 ^ 32 ->
  record_dep rows idx child fp dur = (rows', idx') ->
  dep_index_ok rows' idx' /\ mkDep child.1 child.2 fp dur ∈ rows' /\
  (length rows <= length rows' <= S (length rows))%nat /\
  forall i row, rows !! i = Some row -> dep_id row <> child -> rows' !! i = Some row.
Proof.
  intros HI Hlen. unfold record_dep. destruct (dedup_row _ _ _) as [r|] eqn:Hr; intros [= <- <-].
  - apply dedup_row_Some in Hr as (old & Hr & Hid).
    split; [|split; [|split]].
    + apply (dep_index_ok_overwrite rows idx r old); [done..|].
      rewrite row_key_mk, <- Hid. done.
    + apply (list_elem_of_lookup_2 _ r), list_lookup_insert_eq. by eapply lookup_lt_Some.
    + rewrite length_insert. lia.
    + intros i row Hi Hne. rewrite list_lookup_insert_ne; [done|]. congruence.
  - split; [|split; [|split]].
    + rewrite u32_small by done.
      destruct (N.eqb_spec (hashmap_get idx (dep_index_key child.1 child.2)) 0) as [Hz|Hnz].
      * by apply (dep_index_ok_append rows idx (mkDep child.1 child.2 fp dur)).
      * apply dep_index_ok_shared; [done|]. rewrite row_key_mk. unfold hashmap_get in Hnz.
        by destruct (idx !! dep_index_key child.1 child.2) eqn:E.
    + rewrite elem_of_app, list_elem_of_singleton. by right.
    + rewrite length_app. simpl. lia.
    + intros i row Hi _. by apply lookup_app_l_Some.
Qed.

(** Recording [(FILE_AST, 3)] again, after another dependency. *)
Lemma record_dep_ok_witness :
  let rows := [mkDep QUERY_SOURCE_TEXT 1 5 0; mkDep QUERY_FILE_AST 3 8 0] in
  let idx := <[dep_index_key QUERY_FILE_AST 3 := 1]> (<[dep_index_key QUERY_SOURCE_TEXT 1 := 0]> ∅) in
  dep_index_ok [mkDep QUERY_SOURCE_TEXT 1 5 0; mkDep QUERY_FILE_AST 3 9 2] idx.
Proof.
  intros rows idx.
  destruct (record_dep_ok rows idx (QUERY_FILE_AST, 3) 9 2
              [mkDep QUERY_SOURCE_TEXT 1 5 0; mkDep QUERY_FILE_AST 3 9 2] idx) as [H _].
  - apply (dep_index_ok_append [mkDep QUERY_SOURCE_TEXT 1 5 0] _ (mkDep QUERY_FILE_AST 3 8 0)).
    apply (dep_index_ok_append [] ∅ (mkDep QUERY_SOURCE_TEXT 1 5 0)), dep_index_ok_nil.
  - done.
  - by vm_compute.
  - exact H.
Defined.

(** Row 0 is stored as a NULL pointer, so the first dependency of a body, asked again, is
    recorded a second time instead of being refreshed. *)
Theorem first_dep_recorded_twice child fp dur fp' dur' :
  let '(rows, idx) := record_dep [] ∅ child fp dur in
  record_dep rows idx child fp' dur' =
    ([mkDep child.1 child.2 fp dur; mkDep child.1 child.2 fp' dur'],
     <[dep_index_key child.1 child.2 := 1]> idx).
Proof.
  assert (H1 : record_dep [] ∅ child fp dur =
    ([mkDep child.1 child.2 fp dur], <[dep_index_key child.1 child.2 := 0]> ∅)).
  { unfold record_dep, hashmap_get. by rewrite lookup_empty. }
  rewrite H1. unfold record_dep, hashmap_get. by rewrite lookup_insert_eq.
Qed.

(** ** Changing inputs *)

(** The two halves of [rev_control] do not disturb each other: opening or closing a
    request sets the request bits, cut to 32 bits, and keeps the current revision;
    advancing the revision (below 2^31) keeps the request bits. *)
Theorem rev_control_fields c :
  (forall r, rev_request (rev_with_request c r) = u32 r /\
             rev_current (rev_with_request c r) = rev_current c) /\
  (forall n, rev_request (rev_with_current c n) = rev_request c /\
             (n < 2 ^ 31 -> rev_current (rev_with_current c n) = n)).
Proof.
  split; intros x; split;
    [apply rev_request_with_request|apply rev_current_with_request
    |apply rev_request_with_current|apply rev_current_with_current].
Qed.

(** An input change opens a new revision: the current revision grows by one (below
    2^31), the tiers up to the input's are stamped with it and the tiers above, whose
    queries can then skip their dep walk, keep their stamp; no slot, value or frame
    changes. *)
Theorem db_input_changed_ok {V} (d : Db V) dur :
  dur < DUR_COUNT -> rev_request (rev_control d) = 0 -> length (dur_last_changed d) = 3%nat ->
  db_current_revision d + 1 < 2 ^ 31 ->
  exists d', db_input_changed dur d = Ret (db_current_revision d + 1, d') /\
    db_current_revision d' = db_current_revision d + 1 /\
    rev_request (rev_control d') = 0 /\
    (forall t, last_changed d' t =
       if t <=? dur then db_current_revision d' else last_changed d t) /\
    slots d' = slots d /\ results d' = results d /\ query_stack d' = query_stack d.
Proof.
  intros Hd Hcl Hlen Hb. unfold db_input_changed. rewrite (proj2 (N.ltb_lt _ _) Hd).
  cbn [oassert obind]. rewrite Hcl. cbn [N.eqb oassert obind].
  eexists. split; [done|].
  set (d' := put_dur_last_changed _ _).
  assert (Hcur : db_current_revision d' = db_current_revision d + 1).
  { unfold d', db_current_revision. cbn [rev_control put_dur_last_changed put_rev_control].
    by apply rev_current_with_current. }
  split; [exact Hcur|]. split; [|split; [|done]].
  - unfold d'. cbn [rev_control put_dur_last_changed put_rev_control].
    by rewrite rev_request_with_current.
  - intros t. rewrite Hcur. unfold last_changed, d'. cbn [dur_last_changed put_dur_last_changed].
    rewrite (proj1 (stamp_changed_nth _ dur (dur_last_changed d) (N.to_nat t) Hlen Hd)).
    destruct (N.leb_spec t dur); case_decide; try done; lia.
Qed.

Lemma db_input_changed_ok_witness : exists d' : Db N,
  db_input_changed DUR_MEDIUM db_init = Ret (2, d') /\ last_changed d' DUR_LOW = 2 /\
  last_changed d' DUR_MEDIUM = 2 /\ last_changed d' DUR_HIGH = 1.
Proof.
  destruct (db_input_changed_ok (@db_init N) DUR_MEDIUM) as (d' & Hd & Hc & _ & Hl & _);
    [done|by vm_compute|done|by vm_compute|].
  exists d'. rewrite !Hl, Hc. split; [exact Hd|]. by vm_compute.
Defined.

(** ** A cancelled walk *)

Section Cancelled.
Context {V : Type} (L : Layer V).
Implicit Types (d : Db V) (q : qid).

(** Once cancellation is requested a pull does nothing. *)
Lemma cancelled_pull fuel q d : cancel_requested d = true -> dispatch_key q = q ->
  is_Some (slots d !! q) -> db_engine_recompute_dispatch (query L (S fuel)) q d = Ret d.
Proof.
  intros Hc Hk [sl Hsl]. unfold db_engine_recompute_dispatch.
  destruct (db_query_kind_is_input q.1); [done|]. rewrite Hk. simpl.
  assert (Ha : db_query_slot_alloc q d = d)
    by (unfold db_query_slot_alloc; destruct (hashmap_routed q.1); [by rewrite Hsl|done]).
  rewrite Ha. unfold db_query_begin, db_check_cancel. by rewrite Hc.
Qed.

(** What the walk then compares: each dependency's slot with the record of it. *)
Definition unmoved d (row : QueryDep) : Prop :=
  dispatch_key (dep_id row) = dep_id row /\
  exists sl, slots d !! dep_id row = Some sl /\ state (hot sl) = QUERY_DONE /\
             fingerprint (hot sl) = dep_fp row.

Lemma cancelled_walk fuel q d : cancel_requested d = true ->
  Forall (unmoved d) (dep_rows d q) -> forall todo i, (i + todo)%nat = length (dep_rows d q) ->
  verify_walk (db_engine_recompute_dispatch (query L (S fuel))) q todo i d = Ret (true, d).
Proof.
  intros Hc Hrows. induction todo as [|todo IH]; intros i Hi; [done|].
  assert (Hlt : (i < length (dep_rows d q))%nat) by lia.
  apply lookup_lt_is_Some_2 in Hlt as [dep Hdep]. cbn [verify_walk]. rewrite Hdep.
  destruct (proj1 (Forall_lookup _ _) Hrows i dep Hdep) as (Hk & sl & Hsl & Hst & Hfp).
  rewrite cancelled_pull; [|done|done|by eexists]. cbn [obind].
  unfold db_slot_state, db_slot_fingerprint, db_engine_locate_slot, db_engine_route_slot.
  rewrite Hsl. cbn [fmap option_fmap option_map]. rewrite Hst, Hfp, N.eqb_refl, !bool_decide_true by (done || by eexists). cbn [andb]. apply IH. lia.
Qed.

(** A walk that is cancelled before its first pull accepts the slot: every dependency is
    compared with the slot it had, not with what it would be now, and the slot is stamped
    verified at the request's revision, whatever the inputs have become. *)
Theorem cancelled_verify_accepts fuel q d sl : cancel_requested d = true ->
  slots d !! q = Some sl -> Forall (unmoved d) (slot_rows d q (hot sl)) ->
  exists d', db_engine_verify (db_engine_recompute_dispatch (query L (S fuel))) q d = Ret (true, d') /\
    db_slot_verified_rev d' q = db_effective_revision d.
Proof.
  intros Hc Hsl Hrows. unfold db_engine_verify, db_engine_locate_slot, db_engine_route_slot.
  rewrite Hsl. simpl.
  assert (Hend : db_slot_verified_rev (upd_hot q (set_verified_rev (db_effective_revision d)) d) q
                 = db_effective_revision d).
  { unfold db_slot_verified_rev, db_engine_locate_slot, db_engine_route_slot.
    by rewrite slots_upd_hot, decide_True, Hsl by done. }
  destruct (N.eqb_spec (verified_rev (hot sl)) (db_effective_revision d)) as [Heq|_].
  { exists d. split; [done|]. unfold db_slot_verified_rev, db_engine_locate_slot, db_engine_route_slot.
    by rewrite Hsl. }
  destruct (_ && _); [by eexists|]. unfold slot_rows in *.
  destruct (deps (hot sl)); [|by eexists].
  rewrite (cancelled_walk fuel q d Hc Hrows) by done. by eexists.
Qed.

End Cancelled.

(** ** A tier that moves *)

(** The parse reads the workspace source only when the library source is not 0; the
    lookup reads the parse. *)
Definition shifting_body (q : qid) : prog N :=
  match q.1 with
  | QUERY_FILE_AST =>
      PAsk (QUERY_SOURCE_TEXT, 2) (fun v =>
        if v =? 0 then PRet 5 6
        else PAsk (QUERY_SOURCE_TEXT, 1) (fun w => if w =? 0 then PRet 5 6 else PRet 9 10))
  | QUERY_TOP_LEVEL_ENTRY => PAsk (QUERY_FILE_AST, 1) (fun v => PRet v (v + 1))
  | _ => PRet 0 1
  end.

Definition Shifting : Layer N :=
  mkLayer shifting_body (fun _ _ => 0) (fun _ => 0) 0 (fun _ v => v + 1).

Definition shifting_tier (q : qid) : Durability :=
  if bool_decide (q = (QUERY_SOURCE_TEXT, 2)) then DUR_HIGH else DUR_LOW.

Definition shifting_session : list (command (V := N)) :=
  let entry := (QUERY_TOP_LEVEL_ENTRY, 7) in
  [Request [entry]; Change (QUERY_SOURCE_TEXT, 2) 1; Request [entry];
   Change (QUERY_SOURCE_TEXT, 1) 1; Request [entry]].

(** C40: The durability fast path can serve a stale value: a parse computed again to the same
    fingerprint but from a lower tier leaves the tier of the lookup above it HIGH, and the
    later edit of the LOW source is skipped: the engine answers 5, scratch evaluation 9. *)
Theorem durability_stale :
  let d := match load Shifting shifting_tier [(QUERY_FILE_AST, 1)]
                   [(QUERY_SOURCE_TEXT, 1); (QUERY_SOURCE_TEXT, 2)] (fun _ => 0) with
           | Ret d => d | _ => db_init end in
  fst <$> (match session Shifting shifting_tier 3 shifting_session d with
           | Ret r => Some r | _ => None end) = Some [[5]; [5]; [5]] /\
  spec_session Shifting (fun q => match q.1 with QUERY_TOP_LEVEL_ENTRY => 2 | QUERY_FILE_AST => 1 | _ => 0 end%nat)
    shifting_session (fun _ => 0) = [[5]; [5]; [9]].
Proof. split; by vm_compute. Qed.

End EngineEdges.

(** ** A small layer over the query engine, and what the engine does outside its contract

    [Demo] is a layer that satisfies the hypotheses of [session_refines]: two sources of
    different tiers, a parse of each that forgets the low bit of the text (so that some
    edits are cut off early), and a lookup that reads the second source only when the
    first parse is empty.  It witnesses the theorems about the engine. *)

Module EngineExamples.

Import EngineTotal EngineEdges.

#[local] Open Scope N_scope.

(** ** The layer *)

Definition src (k : N) : qid := (QUERY_SOURCE_TEXT, k).
Definition ast (k : N) : qid := (QUERY_FILE_AST, k).
Definition entry : qid := (QUERY_TOP_LEVEL_ENTRY, 7).

Definition ret (v : N) : prog N := PRet v (v + 1).

Definition demo_body (q : qid) : prog N :=
  match q.1 with
  | QUERY_FILE_AST => PAsk (src q.2) (fun v => ret (v / 2))
  | QUERY_TOP_LEVEL_ENTRY =>
      PAsk (ast 1) (fun v => if v =? 0 then PAsk (ast 2) (fun w => ret (w + 100)) else ret v)
  | _ => ret 0
  end.

Definition Demo : Layer N :=
  mkLayer demo_body (fun _ _ => 0) (fun _ => 0) 0 (fun _ v => v + 1).

Definition demo_rank (q : qid) : nat :=
  match q.1 with QUERY_TOP_LEVEL_ENTRY => 2 | QUERY_FILE_AST => 1 | _ => 0 end%nat.

Definition demo_queries : list qid := [src 1; src 2; ast 1; ast 2; entry].
Definition demo_known (q : qid) : Prop := q ∈ demo_queries.

(** The second source is a library. *)
Definition demo_tier (q : qid) : Durability :=
  if bool_decide (q = src 2 \/ q = ast 2) then DUR_HIGH else DUR_LOW.

Ltac demo_cases H :=
  unfold demo_known, demo_queries in H; rewrite !elem_of_cons in H;
  destruct H as [->|[->|[->|[->|[->|H]]]]]; [..|by apply elem_of_nil in H].

Ltac demo_known_tac := unfold demo_known; apply (bool_decide_unpack _); by vm_compute.

Lemma demo_well_layered : well_layered Demo demo_rank demo_known demo_tier.
Proof.
  split.
  - intros q Hq Hi. demo_cases Hq; try discriminate Hi; clear Hi.
    + apply ok_ask; [demo_known_tac|by apply Nat.ltb_lt|done|]. intros inp. by apply ok_ret.
    + apply ok_ask; [demo_known_tac|by apply Nat.ltb_lt|done|]. intros inp. by apply ok_ret.
    + apply ok_ask; [demo_known_tac|by apply Nat.ltb_lt|done|]. intros inp.
      destruct (_ =? 0); [|by apply ok_ret].
      apply ok_ask; [demo_known_tac|by apply Nat.ltb_lt|done|]. intros inp'. by apply ok_ret.
  - intros q Hq. unfold QUERY_STACK_CAPACITY. demo_cases Hq; by apply Nat.ltb_lt.
  - intros q Hq. demo_cases Hq; done.
  - intros q Hq. demo_cases Hq; done.
  - intros q inp inp' Hq. demo_cases Hq; unfold scratch; simpl; intros Heq; try lia.
    revert Heq. repeat (destruct (_ =? 0); simpl); lia.
Qed.

Lemma demo_fuel q : demo_known q -> (demo_rank q < 3)%nat.
Proof. intros Hq. demo_cases Hq; by apply Nat.ltb_lt. Qed.

Definition demo_inputs (q : qid) : N := if bool_decide (q = src 1) then 6 else 40.

Lemma demo_cover : rows_cover demo_known [ast 1; ast 2] [src 1; src 2].
Proof.
  split.
  - repeat constructor; demo_known_tac.
  - repeat constructor; demo_known_tac.
  - intros q Hq Hh. demo_cases Hq; [right|right|left|left|done];
      apply (bool_decide_unpack _); by vm_compute.
Qed.

(** Ask twice; an edit that the parse forgets; one that empties the first parse; a library
    edit. *)
Definition demo_session : list (command (V := N)) :=
  [Request [entry; entry]; Change (src 1) 7; Request [entry]; Change (src 1) 1;
   Request [entry; ast 2]; Change (src 2) 50; Request [entry]].

(** The demo session is answered as from scratch. *)
Lemma session_refines_witness : exists d d',
  load Demo demo_tier [ast 1; ast 2] [src 1; src 2] demo_inputs = Ret d /\
  session Demo demo_tier 3 demo_session d = Ret ([[3; 3]; [3]; [120; 20]; [125]], d').
Proof.
  apply (session_refines Demo demo_rank demo_known demo_tier demo_well_layered 3 demo_session
           [ast 1; ast 2] [src 1; src 2] demo_inputs).
  - exact demo_fuel.
  - exact demo_cover.
  - repeat constructor; demo_known_tac.
  - by vm_compute.
Defined.

(** *** An edit the parse forgets *)

Definition demo_edited : Db N :=
  match
    let! d := load Demo demo_tier [ast 1; ast 2] [src 1; src 2] demo_inputs in
    let! (_, d) := request Demo 3 [entry] d in
    let! d := change_input Demo (src 1) 7 DUR_LOW d in
    db_request_begin 2 d
  with Ret d => d | _ => db_init end.

Lemma demo_edited_ok : exists hist,
  Callable Demo demo_rank demo_known demo_tier hist entry demo_edited /\
  now hist demo_edited = change (src 1) 7 demo_inputs.
Proof.
  pose proof demo_well_layered as W.
  assert (Hk : demo_known entry) by demo_known_tac.
  destruct (load_ok _ _ _ _ W _ _ demo_inputs demo_cover) as (d0 & H0 & [HQ0 Hl0] & Hc0).
  destruct (request_ok _ _ _ _ W _ 3 [entry] d0 demo_fuel HQ0) as (d1 & H1 & HQ1 & Hn1 & Hc1 & Hd1);
    [by repeat constructor|].
  destruct (change_input_ok _ _ _ _ W (fun _ => demo_inputs) (src 1) 7 d1) as (hist & d2 & H2 & [HQ2 _] & Hn2 & Hc2).
  { split; [done|]. unfold last_changed. rewrite Hd1, Hc1. exact Hl0. }
  { demo_known_tac. }
  { done. }
  { by rewrite Hc1, Hc0. }
  destruct (request_begin_ok _ _ _ _ hist d2 HQ2) as (d3 & H3 & HG3 & HO3 & Hs3 & Hc3 & _).
  assert (Hcur : db_current_revision d2 = 2) by (rewrite Hc2, Hc1, Hc0; done).
  assert (Hd : demo_edited = d3).
  { unfold demo_edited. rewrite H0. cbn [obind]. rewrite H1. cbn [obind].
    change DUR_LOW with (demo_tier (src 1)). rewrite H2. cbn [obind]. rewrite <- Hcur. by rewrite H3. }
  exists hist. rewrite Hd. clear Hd H0 H1 H2 H3. split.
  - split; try done; rewrite Hs3; [by intros f ?%elem_of_nil|]. by apply Nat.ltb_lt.
  - unfold now. rewrite Hc3. fold (now hist d2). rewrite Hn2, Hn1. done.
Qed.

(** The lookup is not computed again: its slot still says revision 1. *)
Lemma early_cutoff_witness : exists d',
  query Demo 3 entry demo_edited = Ret (3, d') /\
  db_slot_computed_rev d' entry = 1 /\ db_slot_verified_rev d' entry = 2.
Proof.
  destruct demo_edited_ok as (hist & HC & Hn).
  destruct (early_cutoff Demo demo_rank demo_known demo_tier demo_well_layered hist 3 entry
              demo_edited (default zero_slot (slots demo_edited !! entry)))
    as (d' & Hq & Hr & Hs).
  - by apply Nat.ltb_lt.
  - exact HC.
  - by vm_compute.
  - by vm_compute.
  - rewrite Hn. intros row Hrow.
    assert (Hrow' : row ∈ [mkDep QUERY_FILE_AST 1 4 0]) by (revert Hrow; by vm_compute).
    apply list_elem_of_singleton in Hrow' as ->. split; [by eexists; vm_compute|by vm_compute].
  - rewrite Hn in Hq. exists d'. split; [exact Hq|].
    unfold db_slot_computed_rev, db_slot_verified_rev, db_engine_locate_slot_cold,
      db_engine_locate_slot, db_engine_route_slot. rewrite Hs. split; by vm_compute.
Defined.

(** *** A request cancelled after an edit *)

(** Computed once; then the first source is emptied, and the next request cancelled. *)
Definition demo_cancelled : Db N :=
  match
    let! d := load Demo demo_tier [ast 1; ast 2] [src 1; src 2] demo_inputs in
    let! (_, d) := request Demo 3 [entry] d in
    let! d := change_input Demo (src 1) 1 DUR_LOW d in
    let! d := db_request_begin 2 d in
    Ret (db_request_cancel d)
  with Ret d => d | _ => db_init end.

(** The walk of the lookup accepts its value 3, which is no longer right. *)
Lemma cancelled_verify_accepts_witness : exists d',
  db_engine_verify (db_engine_recompute_dispatch (query Demo 3)) entry demo_cancelled
    = Ret (true, d') /\
  db_slot_verified_rev d' entry = 2 /\
  (read_column Demo demo_cancelled entry,
   scratch Demo demo_rank (change (src 1) 1 demo_inputs) entry) = (3, (120, 121)).
Proof.
  destruct (cancelled_verify_accepts Demo 2 entry demo_cancelled
              (default zero_slot (slots demo_cancelled !! entry))) as (d' & Hv & Hr).
  - by vm_compute.
  - by vm_compute.
  - replace (slot_rows demo_cancelled entry _) with [mkDep QUERY_FILE_AST 1 4 0] by by vm_compute.
    constructor; [|constructor]. split; [done|].
    exists (default zero_slot (slots demo_cancelled !! ast 1)). split; [by vm_compute|].
    split; by vm_compute.
  - exists d'. split; [exact Hv|]. rewrite Hr. split; by vm_compute.
Defined.

(** ** A layer that cycles and is cancelled

    [ast 1] and [ast 2] ask each other; [ast 2] is cancelled half way when the source
    reads 9. *)

Definition cyclic_body (q : qid) : prog N :=
  match q with
  | (QUERY_FILE_AST, 1) => PAsk (ast 2) (fun v => PAsk (src 1) (fun w => ret (v + w)))
  | (QUERY_FILE_AST, _) =>
      PAsk (src 1) (fun v => if v =? 9 then PCancel (PAsk (ast 1) ret) else PAsk (ast 1) ret)
  | _ => ret 0
  end.

Definition Cyclic : Layer N := mkLayer cyclic_body (fun _ _ => 70) (fun _ => 0) 0 (fun _ v => v + 1).

Definition cyclic_queries : gset qid := {[src 1; ast 1; ast 2]}.

Ltac cyclic_cases H :=
  unfold cyclic_queries in H; rewrite !elem_of_union, !elem_of_singleton in H;
  destruct H as [[->| ->]| ->].

Lemma cyclic_bounded : bounded Cyclic cyclic_queries.
Proof.
  assert (Hin : forall q, bool_decide (q ∈ cyclic_queries) = true -> q ∈ cyclic_queries)
    by (intros q; apply bool_decide_eq_true).
  split.
  - intros q Hq Hi. cyclic_cases Hq; [done|..]; simpl.
    + apply cl_ask; [by apply Hin|]. intros v. apply cl_ask; [by apply Hin|]. intros w. apply cl_ret.
    + apply cl_ask; [by apply Hin|]. intros v.
      destruct (v =? 9); [apply cl_cancel|]; (apply cl_ask; [by apply Hin|]); intros w; apply cl_ret.
  - intros q Hq. by cyclic_cases Hq.
  - intros q Hq. by cyclic_cases Hq.
  - apply (Nat.leb_le _ QUERY_STACK_CAPACITY). by vm_compute.
Qed.

(** The three rows, the source holding [v]. *)
Definition cyclic_db (v : N) : Db N :=
  match load Cyclic (fun _ => DUR_LOW) [ast 1; ast 2] [src 1] (fun _ => v) with
  | Ret d => d
  | _ => db_init
  end.

Lemma cyclic_settled v : Settled cyclic_queries (cyclic_db v).
Proof.
  split; [split|..]; try done.
  - intros q Hq _. cyclic_cases Hq; by eexists.
  - intros q sl Hq Hi. cyclic_cases Hq; try discriminate Hi. intros [= <-]. by split.
  - intros q row _ Hrow. by apply elem_of_nil in Hrow.
  - intros q Hq (sl & Hsl & Hst). cyclic_cases Hq; injection Hsl as <-; discriminate Hst.
Qed.

(** A query of the cycle returns. *)
Lemma query_total_witness : exists v d',
  query Cyclic 4 (ast 1) (cyclic_db 5) = Ret (v, d') /\ WF cyclic_queries d' /\ ids d' = [].
Proof.
  apply (query_total Cyclic cyclic_queries cyclic_bounded 4 (ast 1) (cyclic_db 5)).
  - apply (bool_decide_unpack _). by vm_compute.
  - pose proof (cyclic_settled 5) as [HI Hs _ _]. by apply Idle_WF.
  - apply Nat.ltb_lt. by vm_compute.
Defined.

(** A request cancelled inside the cycle completes, and the next one can start. *)
Lemma request_settles_witness : exists vs d',
  request Cyclic 4 [ast 1; ast 2] (cyclic_db 9) = Ret (vs, d') /\ length vs = 2%nat /\
  Settled cyclic_queries d'.
Proof.
  apply (request_settles Cyclic cyclic_queries cyclic_bounded 4 [ast 1; ast 2] (cyclic_db 9)).
  - apply cyclic_settled.
  - repeat constructor; apply (bool_decide_unpack _); by vm_compute.
  - apply Nat.ltb_lt. by vm_compute.
Defined.

End EngineExamples.
