(* ===== verification/Fingerprint.v ===== *)
(** * Fingerprints: [src/src/db/query/engine_fingerprint.c] and the content hash of
    [src/src/db/inputs/source.c]

    FNV-1a over 64 bits.  A fingerprint is never [FINGERPRINT_NONE]; folding is injective
    in its seed, so that combining with the same second component never merges two first
    components (the remap of zero apart). *)

From S2P Require Import Prelude StringPool Engine.
Import StringPool Engine.

Module Fingerprint.

#[local] Open Scope N_scope.

Definition FNV_OFFSET_64 : Fingerprint := 0xcbf29ce484222325.
Definition FNV_PRIME_64 : Fingerprint := 0x00000100000001b3.

Definition nonzero (h : Fingerprint) : Fingerprint := if h =? 0 then FNV_PRIME_64 else h.

(** One turn of the inner loop: [h ^= p[i]; h *= FNV_PRIME_64]. *)
Definition fold_byte (h : Fingerprint) (b : byte) : Fingerprint :=
  u64 (N.lxor h (Byte.to_N b) * FNV_PRIME_64).

Definition fold_bytes (seed : Fingerprint) (p : list byte) : Fingerprint := foldl fold_byte seed p.

(** The bytes of a [uint64_t] in memory, little-endian. *)
Definition le64 (x : N) : list byte := le32 (u32 x) ++ le32 (u32 (N.shiftr x 32)).

Definition db_fp_u64 (x : N) : Fingerprint := nonzero (fold_bytes FNV_OFFSET_64 (le64 x)).
Definition db_fp_combine (a b : Fingerprint) : Fingerprint := nonzero (fold_bytes a (le64 b)).
Definition db_fp_bytes (p : list byte) : Fingerprint := nonzero (fold_bytes FNV_OFFSET_64 p).

(** The content hash of a source. *)
Definition source_fnv1a (data : list byte) : N :=
  foldl (fun h b => u64 (N.lxor h (Byte.to_N b) * 0x100000001b3)) 0xcbf29ce484222325 data.

(** ** Lemmas *)

Lemma fold_byte_lt h b : fold_byte h b < 2 ^ 64.
Proof. by apply N.mod_lt. Qed.

Lemma fold_bytes_lt p : forall seed, seed < 2 ^ 64 -> fold_bytes seed p < 2 ^ 64.
Proof.
  induction p as [|b p IH]; intros seed H; [done|]. apply IH, fold_byte_lt.
Qed.

Lemma byte_lt_u64 b : Byte.to_N b < 2 ^ 64.
Proof. pose proof (Byte.to_N_bounded b). lia. Qed.

Lemma lxor_lt a b n : a < 2 ^ n -> b < 2 ^ n -> N.lxor a b < 2 ^ n.
Proof.
  intros Ha Hb. apply N.nle_gt. intros Hge.
  assert (Hz : N.lxor a b <> 0) by (pose proof (N.pow_nonzero 2 n); lia).
  apply N.log2_le_mono in Hge. rewrite N.log2_pow2 in Hge by lia.
  pose proof (N.log2_lxor a b) as Hl.
  assert (forall x, x < 2 ^ n -> N.log2 x < n \/ x = 0) as Hlog.
  { intros x Hx. destruct (N.eq_dec x 0); [by right|left]. apply N.log2_lt_pow2; lia. }
  destruct (Hlog a Ha) as [H1| ->], (Hlog b Hb) as [H2| ->].
  - lia.
  - rewrite N.lxor_0_r in Hge. lia.
  - rewrite N.lxor_0_l in Hge. lia.
  - by rewrite N.lxor_0_r in Hz.
Qed.

(** The inverse of the prime modulo 2^64. *)
Definition prime_inverse : N := 0xce965057aff6957b.

Lemma prime_unit x : x < 2 ^ 64 -> u64 (u64 (x * FNV_PRIME_64) * prime_inverse) = x.
Proof.
  intros Hx. unfold u64. rewrite N.Div0.mul_mod_idemp_l, <- N.mul_assoc.
  replace (FNV_PRIME_64 * prime_inverse) with (1 + FNV_PRIME_64 * prime_inverse / 2 ^ 64 * 2 ^ 64)
    by by vm_compute.
  rewrite N.mul_add_distr_l, N.mul_1_r, N.mul_assoc, N.Div0.mod_add. by apply N.mod_small.
Qed.

Lemma fold_byte_inj h h' b : h < 2 ^ 64 -> h' < 2 ^ 64 ->
  fold_byte h b = fold_byte h' b -> h = h'.
Proof.
  intros Hh Hh' E. unfold fold_byte in E. pose proof (byte_lt_u64 b) as Hb.
  apply (f_equal (fun x => u64 (x * prime_inverse))) in E.
  rewrite !prime_unit in E by by apply lxor_lt.
  apply (f_equal (fun x => N.lxor x (Byte.to_N b))) in E.
  by rewrite !N.lxor_assoc, !N.lxor_nilpotent, !N.lxor_0_r in E.
Qed.

Lemma fold_bytes_inj p : forall h h', h < 2 ^ 64 -> h' < 2 ^ 64 ->
  fold_bytes h p = fold_bytes h' p -> h = h'.
Proof.
  induction p as [|b p IH]; intros h h' Hh Hh' E; [done|]. apply (fold_byte_inj h h' b); [done..|].
  apply IH; [apply fold_byte_lt|apply fold_byte_lt|done].
Qed.

Lemma nonzero_ok h : h < 2 ^ 64 -> nonzero h <> FINGERPRINT_NONE /\ nonzero h < 2 ^ 64.
Proof. unfold nonzero, FINGERPRINT_NONE. destruct (N.eqb_spec h 0); by intros. Qed.

(** ** Properties *)

(** Every fingerprint is a 64-bit word other than [FINGERPRINT_NONE], whatever it is
    computed from, and the fingerprint of a buffer is its content hash but for the remap
    of zero. *)
Theorem fingerprints_nonzero a x p : a < 2 ^ 64 ->
  (db_fp_u64 x <> FINGERPRINT_NONE /\ db_fp_u64 x < 2 ^ 64) /\
  (db_fp_combine a x <> FINGERPRINT_NONE /\ db_fp_combine a x < 2 ^ 64) /\
  (db_fp_bytes p <> FINGERPRINT_NONE /\ db_fp_bytes p < 2 ^ 64) /\
  db_fp_bytes p = nonzero (source_fnv1a p).
Proof.
  intros Ha. split; [by apply nonzero_ok, fold_bytes_lt|].
  split; [by apply nonzero_ok, fold_bytes_lt|].
  split; [by apply nonzero_ok, fold_bytes_lt|done].
Qed.

Lemma fingerprints_nonzero_witness : db_fp_combine (db_fp_u64 1) 0 <> FINGERPRINT_NONE.
Proof. apply (fingerprints_nonzero (db_fp_u64 1) 0 []). by vm_compute. Defined.

(** Combining never merges two first components, unless one of the two folds is 0. *)
Theorem db_fp_combine_inj a a' b : a < 2 ^ 64 -> a' < 2 ^ 64 ->
  db_fp_combine a b = db_fp_combine a' b ->
  a = a' \/ fold_bytes a (le64 b) = 0 \/ fold_bytes a' (le64 b) = 0.
Proof.
  intros Ha Ha'. unfold db_fp_combine, nonzero.
  destruct (N.eqb_spec (fold_bytes a (le64 b)) 0); [by right; left|].
  destruct (N.eqb_spec (fold_bytes a' (le64 b)) 0); [by right; right|].
  intros E. left. by apply (fold_bytes_inj (le64 b)).
Qed.

Lemma db_fp_combine_inj_witness :
  db_fp_combine 1 7 = db_fp_combine 1 7 /\
  (1 = 1 \/ fold_bytes 1 (le64 7) = 0 \/ fold_bytes 1 (le64 7) = 0).
Proof. split; [done|]. by apply (db_fp_combine_inj 1 1 7). Defined.

(** Combining is neither associative nor commutative, but on single bytes it is
    commutative. *)
Theorem db_fp_combine_order :
  db_fp_combine (db_fp_combine 1 2) 3 <> db_fp_combine 1 (db_fp_combine 2 3) /\
  db_fp_combine 300 7 <> db_fp_combine 7 300 /\
  db_fp_combine 1 2 = db_fp_combine 2 1.
Proof. split; [vm_compute; discriminate|]. split; [vm_compute; discriminate|by vm_compute]. Qed.

End Fingerprint.
