(* ===== verification/Arena.v ===== *)
(** * The chunked arena: [src/src/support/data_structure/arena.c]

    A chain of chunks; allocation bumps the last one or opens another.  An allocation has
    an address (chunk and offset) and a linear offset, the bytes used before it, by which
    the intern pool names its payloads: [arena_get_ptr] turns the one into the other.

    A chunk is named by the serial number of its [malloc], so that a freed chunk is never
    mistaken for a later one; the chain is a list, the first chunk first and the current
    one last.  Sizes are [size_t]s as [N]; [malloc] does not fail. *)

From S2P Require Import Prelude.

Module Arena.

#[local] Open Scope N_scope.

Definition SIZE_MAX : N := 2 ^ 64 - 1.

Record ArenaChunk : Set := mkChunk { c_id : N; used : N; capacity : N }.

(** [sizeof(ArenaChunk)]: three words and no data. *)
Definition CHUNK_HEADER : N := 24.

(** The address of a byte: a chunk and an offset in its data. *)
Definition ptr : Set := N * N.

Record Arena : Set := mkArena {
  chunks : list ArenaChunk;
  default_chunk_capacity : N;
  total_prev_capacity : N;
  cached_chunk : option N;
  cached_base : N;
  generation : N;
  mallocs : N
}.

Record ArenaMark : Set := mkMark { mark_chunk : option N; mark_used : N; mark_total : N }.

Definition current (a : Arena) : option ArenaChunk := last (chunks a).

Definition set_used (u : N) (c : ArenaChunk) : ArenaChunk := mkChunk (c_id c) u (capacity c).

(** [(size + 7) & ~7]. *)
Definition align_size (size : N) : N :=
  if SIZE_MAX - 7 <? size then 0 else N.ldiff (size + 7) 7.

Definition arena_chunk_new (id cap : N) : option ArenaChunk :=
  if SIZE_MAX - CHUNK_HEADER <? cap then None else Some (mkChunk id 0 cap).

(** The doubling loop: one turn per bit of a [size_t] at most. *)
Fixpoint double_capacity (fuel : nat) (capacity required_size : N) : outcome N :=
  match fuel with
  | O => OutOfFuel
  | S f =>
      if capacity <? required_size then
        if SIZE_MAX / 2 <? capacity then Ret required_size
        else double_capacity f (capacity * 2) required_size
      else Ret capacity
  end.

Definition next_chunk_capacity (a : Arena) (required_size : N) : outcome N :=
  let cap := match current a with Some c => capacity c | None => default_chunk_capacity a end in
  let cap := if cap <? default_chunk_capacity a then default_chunk_capacity a else cap in
  let cap := if cap =? 0 then 8 else cap in
  double_capacity 65 cap required_size.

Definition arena_init (default_capacity : N) : Arena := mkArena [] default_capacity 0 None 0 1 0.

Definition arena_total_used (a : Arena) : N :=
  match current a with None => 0 | Some c => total_prev_capacity a + used c end.

(** The chunk of an offset and its base, from the chunks left to walk. *)
Fixpoint find_chunk (cs : list ArenaChunk) (base offset : N) : option (ArenaChunk * N) :=
  match cs with
  | [] => None
  | c :: cs =>
      if (base <=? offset) && (offset <? base + used c) then Some (c, base)
      else find_chunk cs (base + used c) offset
  end.

Definition chunk_by_id (a : Arena) (id : N) : option ArenaChunk :=
  snd <$> list_find (fun c => c_id c = id) (chunks a).

(** The cached chunk when the offset is in it. *)
Definition cache_hit (a : Arena) (offset : N) : option ptr :=
  match cached_chunk a with
  | None => None
  | Some id =>
      match chunk_by_id a id with
      | None => None
      | Some c =>
          if (cached_base a <=? offset) && (offset <? cached_base a + used c)
          then Some (id, offset - cached_base a) else None
      end
  end.

Definition arena_get_ptr (a : Arena) (offset : N) : option ptr * Arena :=
  match cache_hit a offset with
  | Some p => (Some p, a)
  | None =>
      match find_chunk (chunks a) 0 offset with
      | Some (c, base) =>
          (Some (c_id c, offset - base),
           mkArena (chunks a) (default_chunk_capacity a) (total_prev_capacity a)
             (Some (c_id c)) base (generation a) (mallocs a))
      | None => (None, a)
      end
  end.

(** Replace the current chunk. *)
Definition upd_current (f : ArenaChunk -> ArenaChunk) (cs : list ArenaChunk) : list ArenaChunk :=
  match last cs with Some c => removelast cs ++ [f c] | None => [] end.

(** Does the current chunk have room? *)
Definition has_room (a : Arena) (size : N) : bool :=
  match current a with Some c => size <=? capacity c - used c | None => false end.

(** Open a chunk that can hold [size] bytes. *)
Definition grow (a : Arena) (size : N) : outcome (option Arena) :=
  let default_cap := if default_chunk_capacity a =? 0 then 4096 else default_chunk_capacity a in
  let! cap := next_chunk_capacity a (if default_cap <? size then size else default_cap) in
  Ret (match arena_chunk_new (mallocs a) cap with
       | None => None
       | Some chunk =>
           Some (mkArena (chunks a ++ [chunk])
                   (if default_chunk_capacity a =? 0 then default_cap else default_chunk_capacity a)
                   (match current a with Some c => total_prev_capacity a + used c
                                       | None => total_prev_capacity a end)
                   (cached_chunk a) (cached_base a) (generation a) (mallocs a + 1))
       end).

(** Take [size] bytes of the current chunk. *)
Definition bump (a : Arena) (size : N) : option ptr * Arena :=
  match current a with
  | None => (None, a)
  | Some c =>
      (Some (c_id c, used c),
       mkArena (upd_current (fun c => set_used (used c + size) c) (chunks a))
         (default_chunk_capacity a) (total_prev_capacity a) (cached_chunk a) (cached_base a)
         (generation a) (mallocs a))
  end.

Definition arena_alloc_raw (a : Arena) (size : N) : outcome (option ptr * Arena) :=
  let size := align_size (if size =? 0 then 8 else size) in
  if has_room a size then Ret (bump a size)
  else
    let! a' := grow a size in
    match a' with
    | None => Ret (None, a)
    | Some a' => Ret (bump a' size)
    end.

Definition arena_mark (a : Arena) : ArenaMark :=
  match current a with
  | None => mkMark None 0 0
  | Some c => mkMark (Some (c_id c)) (used c) (total_prev_capacity a)
  end.

(** The chunks up to the marked one. *)
Fixpoint cut_at (id : N) (cs : list ArenaChunk) : list ArenaChunk :=
  match cs with
  | [] => []
  | c :: cs => if c_id c =? id then [c] else c :: cut_at id cs
  end.

Definition arena_reset_to (a : Arena) (mark : ArenaMark) : Arena :=
  match mark_chunk mark with
  | None => a
  | Some id =>
      match chunk_by_id a id with
      | None => a
      | Some c =>
          if capacity c <? mark_used mark then a
          else mkArena (upd_current (set_used (mark_used mark)) (cut_at id (chunks a)))
                 (default_chunk_capacity a) (mark_total mark) None 0
                 ((generation a + 1) mod 2 ^ 32) (mallocs a)
      end
  end.

Definition arena_reset (a : Arena) : Arena :=
  match chunks a with
  | [] => a
  | c :: _ => mkArena [set_used 0 c] (default_chunk_capacity a) 0 None 0
                ((generation a + 1) mod 2 ^ 32) (mallocs a)
  end.

Definition arena_free (a : Arena) : Arena := mkArena [] 0 0 None 0 (generation a) (mallocs a).

End Arena.
