(* ===== verification/ArenaFacts.v ===== *)
(** * The arena: offsets and addresses

    [placed a off p]: the byte at linear offset [off] has the address [p].  Allocation
    hands out the bytes at the offset [arena_total_used] gave before it, in one chunk, and
    moves nothing ([arena_alloc_ok]); the lookup of an offset is its address, whatever the
    cache holds ([arena_get_ptr_ok]); a reset to a mark gives back what the arena was
    ([arena_mark_reset]). *)

From S2P Require Import Prelude Arena.
Import Arena.

Module ArenaFacts.

#[local] Open Scope N_scope.

(** ** Lists of chunks *)

Fixpoint sum_used (cs : list ArenaChunk) : N :=
  match cs with [] => 0 | c :: cs => used c + sum_used cs end.

Lemma sum_used_app cs cs' : sum_used (cs ++ cs') = sum_used cs + sum_used cs'.
Proof. induction cs as [|c cs IH]; simpl; [done|]. rewrite IH. lia. Qed.

Lemma last_split {A} (l : list A) x : last l = Some x -> l = removelast l ++ [x].
Proof.
  intros H. destruct l as [|y l]; [done|].
  assert (Hne : y :: l <> []) by done. rewrite (List.app_removelast_last y Hne) at 1.
  f_equal. f_equal. apply last_Some in H as [l' Hl]. rewrite Hl. by rewrite List.last_last.
Qed.

Lemma upd_current_snoc f cs c : upd_current f (cs ++ [c]) = cs ++ [f c].
Proof. unfold upd_current. by rewrite last_snoc, List.removelast_last. Qed.

(** [off] is byte [p.2] of the chunk [p.1] of the chain. *)
Definition located (cs : list ArenaChunk) (off : N) (p : ptr) : Prop :=
  exists pre c post, cs = pre ++ c :: post /\ c_id c = p.1 /\ p.2 < used c /\
                     off = sum_used pre + p.2.

Definition placed (a : Arena) (off : N) (p : ptr) : Prop := located (chunks a) off p.

Lemma find_chunk_sound cs : forall base off c b, find_chunk cs base off = Some (c, b) ->
  exists pre post, cs = pre ++ c :: post /\ b = base + sum_used pre /\ b <= off < b + used c.
Proof.
  induction cs as [|c0 cs IH]; intros base off c b; simpl; [done|].
  destruct (_ && _) eqn:E.
  - intros [= <- <-]. apply andb_true_iff in E as [E1 E2]. apply N.leb_le in E1.
    apply N.ltb_lt in E2. exists [], cs. simpl. split; [done|]. lia.
  - intros (pre & post & -> & -> & Hb)%IH. exists (c0 :: pre), post. simpl. split; [done|]. lia.
Qed.

Lemma find_chunk_complete pre : forall c post base o, o < used c ->
  find_chunk (pre ++ c :: post) base (base + sum_used pre + o) = Some (c, base + sum_used pre).
Proof.
  induction pre as [|c0 pre IH]; intros c post base o Ho; simpl.
  - rewrite N.add_0_r. rewrite (proj2 (N.leb_le base (base + o))) by lia.
    rewrite (proj2 (N.ltb_lt (base + o) (base + used c))) by lia. done.
  - rewrite (proj2 (N.ltb_ge (base + (used c0 + sum_used pre) + o) (base + used c0))) by lia.
    rewrite andb_false_r. rewrite !N.add_assoc. by apply IH.
Qed.

(** ** The invariant *)

(** Capacities stay far from the overflow of a [size_t]. *)
Definition CAPACITY_BOUND : N := 2 ^ 62.

Record wf (a : Arena) : Prop := {
  wf_used c : c ∈ chunks a -> used c <= capacity c <= CAPACITY_BOUND;
  wf_default : default_chunk_capacity a <= 2 ^ 61;
  wf_ids : NoDup (map c_id (chunks a));
  wf_fresh c : c ∈ chunks a -> c_id c < mallocs a;
  wf_total : total_prev_capacity a = sum_used (removelast (chunks a));
  wf_cache id : cached_chunk a = Some id -> exists pre c post,
    chunks a = pre ++ c :: post /\ c_id c = id /\ cached_base a = sum_used pre
}.

Lemma wf_init n : n <= 2 ^ 61 -> wf (arena_init n).
Proof.
  intros Hn. split; simpl; try done.
  - by intros c ?%elem_of_nil.
  - constructor.
  - by intros c ?%elem_of_nil.
Qed.

Lemma total_used_sum a : wf a -> arena_total_used a = sum_used (chunks a).
Proof.
  intros W. unfold arena_total_used, current. destruct (last (chunks a)) as [c|] eqn:E.
  - rewrite (wf_total a W). rewrite (last_split _ _ E) at 2. rewrite sum_used_app. simpl. lia.
  - by rewrite (proj1 (last_None _) E).
Qed.

(** In a chain a chunk is at one place. *)
Lemma same_place cs pre c post pre' c' post' : NoDup (map c_id cs) ->
  cs = pre ++ c :: post -> cs = pre' ++ c' :: post' -> c_id c = c_id c' ->
  pre = pre' /\ c = c'.
Proof.
  revert cs pre'. induction pre as [|x pre IH]; intros cs pre' Hnd -> E Hid.
  - destruct pre' as [|y pre']; simpl in E; injection E as <- E; [done|].
    rewrite E in Hnd. simpl in Hnd. apply NoDup_cons in Hnd as [Hn _]. exfalso. apply Hn.
    rewrite Hid. rewrite map_app, elem_of_app. right. by left.
  - destruct pre' as [|y pre']; simpl in E; injection E as <- E.
    + simpl in Hnd. apply NoDup_cons in Hnd as [Hn _]. exfalso. apply Hn. rewrite <- Hid.
      rewrite map_app, elem_of_app. right. by left.
    + simpl in Hnd. apply NoDup_cons in Hnd as [_ Hnd].
      destruct (IH _ pre' Hnd eq_refl E Hid) as [-> ->]. done.
Qed.

Lemma placed_fun a off p p' : wf a -> placed a off p -> placed a off p' -> p = p'.
Proof.
  intros W (pre & c & post & E & Hid & Hlt & ->) (pre' & c' & post' & E' & Hid' & Hlt' & Ho).
  pose proof (find_chunk_complete pre c post 0 p.2 Hlt) as F.
  pose proof (find_chunk_complete pre' c' post' 0 p'.2 Hlt') as F'.
  rewrite <- E in F. rewrite <- E', N.add_0_l, <- Ho in F'. rewrite N.add_0_l in F.
  rewrite F in F'. injection F' as Hc Hs. destruct p, p'. simpl in *. subst. f_equal. lia.
Qed.

Lemma placed_inj a off off' p : wf a -> placed a off p -> placed a off' p -> off = off'.
Proof.
  intros W (pre & c & post & E & Hid & Hlt & ->) (pre' & c' & post' & E' & Hid' & Hlt' & ->).
  destruct (same_place _ _ _ _ _ _ _ (wf_ids a W) E E') as [-> _]; [congruence|done].
Qed.

(** Every offset below the total is a byte. *)
Lemma placed_below a off : wf a -> off < arena_total_used a -> exists p, placed a off p.
Proof.
  intros W. rewrite total_used_sum by done. unfold placed.
  generalize (chunks a). intros cs. revert off. induction cs as [|c cs IH]; simpl; [lia|].
  intros off Ho. destruct (N.lt_ge_cases off (used c)).
  - exists (c_id c, off). by exists [], c, cs.
  - destruct (IH (off - used c)) as [p (pre & c' & post & -> & ? & ? & ?)]; [lia|].
    exists p. exists (c :: pre), c', post. simpl. do 3 (split; [done|]). lia.
Qed.

Lemma placed_lt a off p : wf a -> placed a off p -> off < arena_total_used a.
Proof.
  intros W (pre & c & post & E & _ & Hlt & ->). rewrite total_used_sum, E, sum_used_app by done.
  simpl. lia.
Qed.

Lemma chunk_by_id_at a pre c post : wf a -> chunks a = pre ++ c :: post ->
  chunk_by_id a (c_id c) = Some c.
Proof.
  intros W E. unfold chunk_by_id.
  destruct (list_find (fun x => c_id x = c_id c) (chunks a)) as [[i x]|] eqn:F; simpl.
  - apply list_find_Some in F as (Hi & Hx & _).
    apply list_elem_of_split_length in Hi as (pre' & post' & E' & _).
    destruct (same_place _ _ _ _ _ _ _ (wf_ids a W) E E') as [_ ->]; [by symmetry|done].
  - exfalso. apply list_find_None in F. rewrite E in F.
    apply Forall_app in F as [_ F]. apply Forall_cons in F as [F _]. done.
Qed.

(** ** Lookup *)

Lemma cache_hit_sound a off p : wf a -> cache_hit a off = Some p -> placed a off p.
Proof.
  intros W. unfold cache_hit. destruct (cached_chunk a) as [id|] eqn:Ec; [|done].
  destruct (wf_cache a W id Ec) as (pre & c & post & E & <- & Hb).
  rewrite (chunk_by_id_at a pre c post W E). destruct (_ && _) eqn:Ein; [|done].
  apply andb_true_iff in Ein as [E1 E2]. apply N.leb_le in E1. apply N.ltb_lt in E2.
  intros [= <-]. exists pre, c, post. split; [done|]. split; [done|]. simpl. lia.
Qed.

(** The address of an offset, whatever the cache holds; the cache is all that changes. *)
Lemma arena_get_ptr_ok a off : wf a ->
  (forall p, (arena_get_ptr a off).1 = Some p <-> placed a off p) /\
  wf (arena_get_ptr a off).2 /\ chunks (arena_get_ptr a off).2 = chunks a.
Proof.
  intros W. unfold arena_get_ptr. destruct (cache_hit a off) as [p|] eqn:Eh; simpl.
  { apply cache_hit_sound in Eh; [|done]. split; [|done]. intros p'. split.
    - by intros [= <-].
    - intros Hp'. f_equal. by apply (placed_fun a off). }
  destruct (find_chunk (chunks a) 0 off) as [[c b]|] eqn:Ef; simpl.
  - destruct (find_chunk_sound _ _ _ _ _ Ef) as (pre & post & E & Hb & Hin).
    assert (Hpl : placed a off (c_id c, off - b)).
    { exists pre, c, post. split; [done|]. split; [done|]. simpl. lia. }
    split; [|split; [|done]].
    + intros p'. split; [by intros [= <-]|]. intros Hp'. f_equal. by apply (placed_fun a off).
    + destruct W. split; simpl; try done. intros id [= <-]. exists pre, c, post.
      split; [done|]. split; [done|]. lia.
  - split; [|done]. intros p'. split; [done|]. intros (pre & c & post & E & _ & Hlt & ->).
    pose proof (find_chunk_complete pre c post 0 p'.2 Hlt) as F.
    rewrite <- E, N.add_0_l in F. congruence.
Qed.

(** ** Allocation *)

Lemma align_size_ok size : 0 < size -> size <= 2 ^ 61 ->
  align_size size = (size + 7) / 8 * 8 /\ size <= align_size size < size + 8 /\
  align_size size mod 8 = 0.
Proof.
  intros Hp Hs. assert (E : align_size size = (size + 7) / 8 * 8).
  { unfold align_size, SIZE_MAX. destruct (N.ltb_spec (2 ^ 64 - 1 - 7) size); [lia|].
    change 7 with (N.ones 3) at 2. by rewrite N.ldiff_ones_r, N.shiftl_mul_pow2, N.shiftr_div_pow2. }
  split; [exact E|]. rewrite E.
  pose proof (N.div_mod' (size + 7) 8). pose proof (N.mod_lt (size + 7) 8 ltac:(done)).
  split; [|by rewrite N.Div0.mod_mul]. clear E Hs.
  remember ((size + 7) / 8) as k. remember ((size + 7) mod 8) as m. lia.
Qed.

Lemma double_capacity_ok fuel : forall cap req, 0 < cap -> cap <= CAPACITY_BOUND ->
  2 * req <= CAPACITY_BOUND -> 2 * req <= cap * 2 ^ N.of_nat fuel -> (0 < fuel)%nat ->
  exists c, double_capacity fuel cap req = Ret c /\ req <= c <= CAPACITY_BOUND.
Proof.
  unfold CAPACITY_BOUND. induction fuel as [|fuel IH]; intros cap req Hc Hb Hr Hf H0; [lia|].
  cbn [double_capacity]. destruct (N.ltb_spec cap req) as [Hlt|Hge].
  - rewrite (proj2 (N.ltb_ge (SIZE_MAX / 2) cap)).
    2:{ transitivity (2 ^ 62); [done|by vm_compute]. }
    rewrite Nat2N.inj_succ, N.pow_succ_r' in Hf. destruct fuel as [|fuel].
    { simpl in Hf. lia. }
    apply IH; [lia|lia|lia| |lia]. lia.
  - exists cap. split; [done|]. lia.
Qed.

Lemma next_chunk_capacity_ok a req : wf a -> req <= 2 ^ 61 ->
  exists c, next_chunk_capacity a req = Ret c /\ req <= c <= CAPACITY_BOUND.
Proof.
  intros W Hr. unfold next_chunk_capacity.
  set (c0 := match current a with Some c => capacity c | None => _ end).
  assert (Hc0 : c0 <= CAPACITY_BOUND).
  { unfold c0, current. destruct (last (chunks a)) as [c|] eqn:E;
      [|transitivity (2 ^ 61); [apply W|by vm_compute]].
    apply (wf_used a W). rewrite (last_split _ _ E), elem_of_app. right. by left. }
  set (c1 := if c0 <? _ then _ else c0).
  assert (Hc1 : c1 <= CAPACITY_BOUND) by (unfold c1; destruct (_ <? _);
    [transitivity (2 ^ 61); [apply W|by vm_compute]|done]).
  set (c2 := if c1 =? 0 then 8 else c1).
  assert (Hc2 : 0 < c2 <= CAPACITY_BOUND).
  { unfold c2. destruct (N.eqb_spec c1 0); [by vm_compute|lia]. }
  apply double_capacity_ok; [lia|lia| | |lia].
  - change CAPACITY_BOUND with (2 * 2 ^ 61). lia.
  - transitivity (1 * 2 ^ N.of_nat 65); [|apply N.mul_le_mono_r; lia].
    transitivity (2 * 2 ^ 61); [lia|by vm_compute].
Qed.

(** What a bump of the current chunk does. *)
Lemma bump_ok a size c : wf a -> current a = Some c -> size <= capacity c - used c -> 0 < size ->
  exists a', bump a size = (Some (c_id c, used c), a') /\ wf a' /\
    arena_total_used a' = arena_total_used a + size /\
    (forall off p, placed a off p -> placed a' off p) /\
    (forall o, o < size -> placed a' (arena_total_used a + o) (c_id c, used c + o)) /\
    used c + size <= capacity c.
Proof.
  intros W Hc Hs Hp. unfold bump. rewrite Hc. unfold current in Hc.
  apply last_split in Hc. set (pre := removelast (chunks a)) in *.
  destruct (wf_used a W c) as [Hu Hcap]; [rewrite Hc, elem_of_app; right; by left|].
  set (c' := set_used (used c + size) c).
  assert (Hup : upd_current (fun c => set_used (used c + size) c) (chunks a) = pre ++ [c'])
    by (by rewrite Hc, upd_current_snoc).
  eexists. split; [done|]. rewrite Hup.
  assert (W' : wf (mkArena (pre ++ [c']) (default_chunk_capacity a) (total_prev_capacity a)
                     (cached_chunk a) (cached_base a) (generation a) (mallocs a))).
  { split; simpl.
    - intros x [Hx|Hx]%elem_of_app.
      + apply (wf_used a W). rewrite Hc, elem_of_app. by left.
      + apply list_elem_of_singleton in Hx as ->. simpl. lia.
    - apply W.
    - pose proof (wf_ids a W) as H. rewrite Hc in H. by rewrite !map_app in *.
    - intros x [Hx|Hx]%elem_of_app.
      + apply (wf_fresh a W). rewrite Hc, elem_of_app. by left.
      + apply list_elem_of_singleton in Hx as ->. simpl.
        apply (wf_fresh a W). rewrite Hc, elem_of_app. right. by left.
    - rewrite List.removelast_last. rewrite (wf_total a W). done.
    - intros id (pre0 & c0 & post0 & E & Hid & Hb)%(wf_cache a W).
      destruct post0 as [|y post0].
      + rewrite Hc in E. apply app_inj_tail in E as [<- <-]. by exists pre, c', [].
      + exists pre0, c0.
        destruct (last (y :: post0)) as [z|] eqn:Ez; [|by apply last_None in Ez].
        apply last_split in Ez. rewrite Ez in E.
        assert (E' : pre ++ [c] = (pre0 ++ c0 :: removelast (y :: post0)) ++ [z])
          by (rewrite <- Hc, E, <- app_assoc; done).
        apply app_inj_tail in E' as [-> _]. exists (removelast (y :: post0) ++ [c']).
        split; [by rewrite <- app_assoc|done]. }
  split; [exact W'|].
  assert (Ht : arena_total_used a = sum_used pre + used c).
  { rewrite total_used_sum, Hc, sum_used_app by done. simpl. lia. }
  split; [|split; [|split]].
  - rewrite !total_used_sum by done. simpl. rewrite Hc, !sum_used_app. simpl. lia.
  - intros off p (pre0 & c0 & post0 & E & Hid & Hlt & ->). unfold placed, located. simpl.
    destruct post0 as [|y post0].
    + rewrite Hc in E. apply app_inj_tail in E as [<- <-]. exists pre, c', [].
      split; [done|]. split; [done|]. simpl. lia.
    + destruct (last (y :: post0)) as [z|] eqn:Ez; [|by apply last_None in Ez].
      apply last_split in Ez. rewrite Ez in E.
      assert (E' : pre ++ [c] = (pre0 ++ c0 :: removelast (y :: post0)) ++ [z])
        by (rewrite <- Hc, E, <- app_assoc; done).
      apply app_inj_tail in E' as [E' _]. exists pre0, c0, (removelast (y :: post0) ++ [c']).
      rewrite E'. split; [by rewrite <- app_assoc|done].
  - intros o Ho. exists pre, c', []. split; [done|]. split; [done|]. simpl. lia.
  - lia.
Qed.

Lemma arena_grow_ok a size : wf a -> size <= 2 ^ 61 ->
  exists a' c, grow a size = Ret (Some a') /\ wf a' /\ current a' = Some c /\ used c = 0 /\
    size <= capacity c /\ c_id c = mallocs a /\
    arena_total_used a' = arena_total_used a /\
    (forall off p, placed a off p -> placed a' off p).
Proof.
  intros W Hs. unfold grow.
  set (dc := if default_chunk_capacity a =? 0 then 4096 else default_chunk_capacity a).
  assert (Hdc : dc <= 2 ^ 61).
  { unfold dc. destruct (_ =? 0); [by vm_compute|apply W]. }
  destruct (next_chunk_capacity_ok a (if dc <? size then size else dc) W) as (cap & -> & Hcap);
    [by destruct (_ <? _)|].
  assert (Hsize : size <= cap) by (destruct (N.ltb_spec dc size); lia).
  cbn [obind]. unfold arena_chunk_new. rewrite (proj2 (N.ltb_ge (SIZE_MAX - CHUNK_HEADER) cap)).
  2:{ transitivity CAPACITY_BOUND; [lia|by vm_compute]. }
  set (t := match current a with Some c => total_prev_capacity a + used c | None => _ end).
  assert (Ht : t = sum_used (chunks a)).
  { rewrite <- total_used_sum by done. unfold t, arena_total_used.
    destruct (current a) eqn:E; [done|]. rewrite (wf_total a W). unfold current in E.
    by rewrite (proj1 (last_None _) E). }
  eexists _, (mkChunk (mallocs a) 0 cap). split; [done|].
  match goal with |- wf ?x /\ _ => assert (W' : wf x) end.
  { split; simpl.
    - intros c [Hc|Hc]%elem_of_app; [by apply (wf_used a W)|].
      apply list_elem_of_singleton in Hc as ->. simpl. split; [apply N.le_0_l|apply Hcap].
    - destruct (_ =? 0); [done|apply W].
    - rewrite map_app. apply NoDup_app. split; [apply W|]. split; [|apply NoDup_singleton].
      intros x Hx Hx'. simpl in Hx'. apply list_elem_of_singleton in Hx' as ->.
      change (mallocs a ∈ c_id <$> chunks a) in Hx.
      apply list_elem_of_fmap in Hx as (c & Hid & Hc). apply (wf_fresh a W) in Hc. lia.
    - intros c [Hc|Hc]%elem_of_app; [apply (wf_fresh a W) in Hc; lia|].
      apply list_elem_of_singleton in Hc as ->. simpl. lia.
    - by rewrite List.removelast_last.
    - intros id (pre & c & post & E & Hid & Hb)%(wf_cache a W).
      exists pre, c, (post ++ [mkChunk (mallocs a) 0 cap]). by rewrite E, <- app_assoc. }
  split; [exact W'|]. split; [apply last_snoc|]. do 2 (split; [done|]). split; [done|].
  split.
  - rewrite !total_used_sum by done. simpl. rewrite sum_used_app. simpl. lia.
  - intros off p (pre & c & post & E & Hid & Hlt & ->).
    exists pre, c, (post ++ [mkChunk (mallocs a) 0 cap]). simpl. by rewrite E, <- app_assoc.
Qed.

Lemma arena_alloc_spec a size : wf a -> size <= 2 ^ 60 ->
  exists p a' n, arena_alloc_raw a size = Ret (Some p, a') /\ wf a' /\
    size <= n < size + 9 /\ n mod 8 = 0 /\ arena_total_used a' = arena_total_used a + n /\
    (arena_get_ptr a' (arena_total_used a)).1 = Some p /\
    (forall o, o < n -> placed a' (arena_total_used a + o) (p.1, p.2 + o)) /\
    (forall off q, placed a off q -> placed a' off q) /\
    (forall c, c ∈ chunks a' -> c_id c = p.1 -> p.2 + n <= capacity c).
Proof.
  intros W Hs. unfold arena_alloc_raw.
  set (sz := if size =? 0 then 8 else size).
  assert (Hsz : size <= sz /\ sz < size + 9 /\ 0 < sz /\ sz <= 2 ^ 60 /\ (size = 0 -> sz = 8)).
  { unfold sz. destruct (N.eqb_spec size 0); [by subst|lia]. }
  destruct (align_size_ok sz) as (_ & Hn & Hmod); [lia|lia|].
  set (n := align_size sz) in *.
  assert (Hn9 : size <= n < size + 9).
  { destruct (N.eq_dec size 0) as [Hz|Hz]; [|unfold sz in Hn; rewrite (proj2 (N.eqb_neq _ _) Hz) in Hn; lia].
    unfold n. destruct Hsz as (_ & _ & _ & _ & ->); [subst; by vm_compute|done]. }
  assert (Hgo : forall a1 c, wf a1 -> current a1 = Some c -> n <= capacity c - used c ->
    arena_total_used a1 = arena_total_used a ->
    (forall off q, placed a off q -> placed a1 off q) ->
    exists p a' n', Ret (bump a1 n) = Ret (Some p, a') /\ wf a' /\
      size <= n' < size + 9 /\ n' mod 8 = 0 /\ arena_total_used a' = arena_total_used a + n' /\
      (arena_get_ptr a' (arena_total_used a)).1 = Some p /\
      (forall o, o < n' -> placed a' (arena_total_used a + o) (p.1, p.2 + o)) /\
      (forall off q, placed a off q -> placed a' off q) /\
      (forall c, c ∈ chunks a' -> c_id c = p.1 -> p.2 + n' <= capacity c)).
  { intros a1 c W1 Hc Hfit Ht Hold.
    destruct (bump_ok a1 n c W1 Hc Hfit) as (a' & -> & W' & Ht' & Hold' & Hnew & Hcap); [lia|].
    rewrite Ht in *. eexists (c_id c, used c), a', n. split; [done|]. split; [done|].
    split; [done|]. split; [done|]. split; [done|]. split; [|split; [done|split; [by auto|]]].
    - apply (arena_get_ptr_ok a' _ W'). rewrite <- (N.add_0_r (arena_total_used a)).
      rewrite <- (N.add_0_r (used c)). apply Hnew. lia.
    - intros x Hx Hid. simpl in *.
      destruct (Hnew 0) as (pre & c1 & post & E & Hid1 & Hlt1 & _); [lia|].
      apply list_elem_of_split in Hx as (pre' & post' & E').
      destruct (same_place _ _ _ _ _ _ _ (wf_ids a' W') E E') as [_ <-]; [simpl in *; congruence|].
      clear pre' post' E'. destruct (Hnew (n - 1)) as (pre' & c2 & post' & E' & Hid' & Hlt' & _); [lia|].
      destruct (same_place _ _ _ _ _ _ _ (wf_ids a' W') E E') as [_ <-]; [simpl in *; congruence|].
      simpl in Hlt'. destruct (wf_used a' W' c1); [rewrite E, elem_of_app; right; by left|]. lia. }
  unfold has_room. destruct (current a) as [c|] eqn:Hc; [destruct (N.leb_spec n (capacity c - used c))|].
  - by apply (Hgo a c).
  - destruct (arena_grow_ok a n W) as (a1 & c1 & -> & W1 & Hc1 & Hu & Hcap & _ & Ht & Hold); [lia|].
    cbn [obind]. apply (Hgo a1 c1); try done. lia.
  - destruct (arena_grow_ok a n W) as (a1 & c1 & -> & W1 & Hc1 & Hu & Hcap & _ & Ht & Hold); [lia|].
    cbn [obind]. apply (Hgo a1 c1); try done. lia.
Qed.

(** An allocation of the arena takes [size] bytes, rounded up to a multiple of 8, that
    lie in one chunk within its capacity and overlap no earlier allocation; the offset
    [arena_total_used] gave before it leads to its address, even when the allocation
    opened a new chunk, and every earlier offset still leads to the address it led to. *)
Theorem arena_alloc_ok a size : wf a -> size <= 2 ^ 60 ->
  exists p a' n, arena_alloc_raw a size = Ret (Some p, a') /\ wf a' /\
    size <= n < size + 9 /\ n mod 8 = 0 /\ arena_total_used a' = arena_total_used a + n /\
    (arena_get_ptr a' (arena_total_used a)).1 = Some p /\
    (forall o, o < n -> placed a' (arena_total_used a + o) (p.1, p.2 + o)) /\
    (forall off q, placed a off q -> placed a' off q) /\
    (forall c, c ∈ chunks a' -> c_id c = p.1 -> p.2 + n <= capacity c).
Proof. apply arena_alloc_spec. Qed.

Lemma arena_alloc_ok_witness : exists p a',
  arena_alloc_raw (arena_init 4096) 20 = Ret (Some p, a') /\
  (arena_get_ptr a' 0).1 = Some p /\ arena_total_used a' = 24.
Proof.
  destruct (arena_alloc_ok (arena_init 4096) 20) as (p & a' & n & E & _ & Hn & Hm & Ht & Hp & _).
  - by apply wf_init.
  - by vm_compute.
  - exists p, a'. split; [exact E|]. split; [exact Hp|]. by injection E as <- <-.
Defined.

(** ** Marks *)

(** Reached by allocations. *)
Inductive allocs (a : Arena) : Arena -> Prop :=
  | allocs_nil : allocs a a
  | allocs_snoc a1 size p a2 :
      allocs a a1 -> arena_alloc_raw a1 size = Ret (Some p, a2) -> allocs a a2.

(** Allocation only adds to the chunk that was current and after it. *)
Lemma alloc_chunks a size p a' pre c u post : arena_alloc_raw a size = Ret (Some p, a') ->
  chunks a = pre ++ set_used u c :: post ->
  (exists u' post', chunks a' = pre ++ set_used u' c :: post') /\ generation a' = generation a.
Proof.
  intros Ha E. unfold arena_alloc_raw in Ha. set (n := align_size _) in Ha.
  assert (Hbump : forall a1 post1, chunks a1 = pre ++ set_used u c :: post1 ->
    generation a1 = generation a -> forall p a', bump a1 n = (Some p, a') ->
    (exists u' post', chunks a' = pre ++ set_used u' c :: post') /\ generation a' = generation a).
  { intros a1 post1 E1 Hg p1 a1'. unfold bump. destruct (current a1) as [c1|] eqn:Hc; [|done].
    intros [= <- <-]. simpl. split; [|done]. rewrite E1.
    destruct post1 as [|y post1].
    - rewrite upd_current_snoc. eexists _, []. simpl. unfold set_used. done.
    - destruct (last (y :: post1)) as [z|] eqn:Ez; [|by apply last_None in Ez].
      apply last_split in Ez. rewrite Ez.
      assert (Ec : pre ++ set_used u c :: removelast (y :: post1) ++ [z]
                   = (pre ++ set_used u c :: removelast (y :: post1)) ++ [z])
        by by rewrite <- app_assoc.
      rewrite Ec, upd_current_snoc, <- app_assoc. by eexists u, _. }
  destruct (has_room a n); [injection Ha as Ha; by apply (Hbump a post E eq_refl p)|].
  unfold grow in Ha. destruct (next_chunk_capacity _ _) as [cap| |]; try done. cbn [obind] in Ha.
  destruct (arena_chunk_new _ _) as [c1|]; [|done]. injection Ha as Ha.
  refine (Hbump _ (post ++ [c1]) _ _ p a' Ha); [|done]. simpl. rewrite E. by rewrite <- app_assoc.
Qed.

Lemma allocs_chunks a a' pre c : allocs a a' -> chunks a = pre ++ [c] ->
  (exists u post, chunks a' = pre ++ set_used u c :: post) /\ generation a' = generation a.
Proof.
  intros H E. induction H as [|a1 size p a2 H ((u & post & E1) & Hg) Ha].
  - split; [|done]. exists (used c), []. rewrite E. by destruct c.
  - destruct (alloc_chunks _ _ _ _ _ _ _ _ Ha E1) as [H1 H2]. by rewrite H2.
Qed.

Lemma cut_at_split id pre c post : c_id c = id -> (forall x, x ∈ pre -> c_id x <> id) ->
  cut_at id (pre ++ c :: post) = pre ++ [c].
Proof.
  intros Hc Hpre. induction pre as [|x pre IH]; simpl.
  - by rewrite (proj2 (N.eqb_eq _ _) Hc).
  - rewrite (proj2 (N.eqb_neq _ _) (Hpre x ltac:(by left))). f_equal. apply IH.
    intros y Hy. apply Hpre. by right.
Qed.

(** Resetting to empty keeps the first chunk and gives no offset an address. *)
Lemma reset_ok a : wf a -> wf (arena_reset a) /\ arena_total_used (arena_reset a) = 0.
Proof.
  intros W. unfold arena_reset. destruct (chunks a) as [|c cs] eqn:E.
  { split; [done|]. unfold arena_total_used, current. by rewrite E. }
  split; [|done]. destruct W as [W1 W2 W3 W4 W5 W6]. rewrite E in *. split; simpl; try done.
  - intros x ->%list_elem_of_singleton. destruct (W1 c); [by left|]. simpl. lia.
  - apply NoDup_singleton.
  - intros x ->%list_elem_of_singleton. apply (W4 c). by left.
Qed.

(** Resetting to a mark undoes the allocations since: the chunks, the bytes used and so
    the address of every offset are those of the arena when it was marked, and the
    generation tells that pointers into the arena may be stale. *)
Theorem arena_mark_reset a a' : wf a -> chunks a <> [] -> allocs a a' -> wf a' ->
  let b := arena_reset_to a' (arena_mark a) in
  chunks b = chunks a /\ arena_total_used b = arena_total_used a /\
  (forall off p, placed b off p <-> placed a off p) /\
  generation b = (generation a + 1) mod 2 ^ 32.
Proof.
  intros W Hne Hs W'. destruct (last (chunks a)) as [c|] eqn:E; [|by apply last_None in E].
  assert (Hcur : current a = Some c) by exact E.
  apply last_split in E. set (pre := removelast (chunks a)) in *.
  destruct (allocs_chunks a a' pre c Hs E) as ((u & post & E') & Hg).
  unfold arena_mark. rewrite Hcur. unfold arena_reset_to. simpl.
  change (c_id c) with (c_id (set_used u c)).
  rewrite (chunk_by_id_at a' pre (set_used u c) post W' E'). simpl.
  destruct (wf_used a W c) as [Hu _]; [rewrite E, elem_of_app; right; by left|].
  rewrite (proj2 (N.ltb_ge (capacity c) (used c)) Hu).
  assert (Hcut : cut_at (c_id c) (chunks a') = pre ++ [set_used u c]).
  { rewrite E'. apply cut_at_split; [done|]. intros x Hx Hid.
    pose proof (wf_ids a W) as Hnd. rewrite E, map_app in Hnd. simpl in Hnd.
    apply NoDup_app in Hnd as (_ & Hnd & _). apply (Hnd (c_id x)); [|rewrite Hid; by left].
    change (c_id x ∈ c_id <$> pre). by apply list_elem_of_fmap_2. }
  rewrite Hcut, upd_current_snoc.
  assert (Hb : pre ++ [set_used (used c) (set_used u c)] = chunks a) by (rewrite E; by destruct c).
  rewrite Hb. split; [done|]. unfold arena_total_used, current, placed. simpl.
  fold (current a). rewrite Hcur, Hg. done.
Qed.

Lemma arena_mark_reset_witness : exists p a1 q a2,
  arena_alloc_raw (arena_init 64) 40 = Ret (Some p, a1) /\
  arena_alloc_raw a1 100 = Ret (Some q, a2) /\
  arena_total_used a2 = 144 /\
  arena_total_used (arena_reset_to a2 (arena_mark a1)) = 40.
Proof.
  destruct (arena_alloc_spec (arena_init 64) 40) as (p & a1 & n & E1 & W1 & _);
    [by apply wf_init|by vm_compute|].
  destruct (arena_alloc_spec a1 100) as (q & a2 & n2 & E2 & W2 & _); [done|by vm_compute|].
  exists p, a1, q, a2. split; [exact E1|]. split; [exact E2|].
  destruct (arena_mark_reset a1 a2 W1) as (_ & Ht & _).
  - by injection E1 as <- <-.
  - by eapply allocs_snoc; [constructor|].
  - exact W2.
  - split; [|rewrite Ht]; injection E1 as <- <-; [|done]. by injection E2 as <- <-.
Defined.

End ArenaFacts.
