(* ===== verification/InternPool.v ===== *)
(** * The intern pool of types and values: [src/src/db/intern_pool/intern_pool.c]

    Types, comptime values and effect rows are named by an index; structurally equal keys
    get the same index.  [ip_get] finds or adds a key by linear probing in the bucket map,
    [ip_key] decodes an index: from its 32-bit word for the small tags, from the payload
    that the word gives the arena offset of for the others.

    - An [IpIndex] is its [N]; the arrays [items_tag] and [items_data] are one list.
    - The payload structs in [extra_arena] are a typed memory, by address.  The lookup
      cache of the arena is not threaded: it does not affect what a lookup answers
      ([ArenaFacts.arena_get_ptr_ok]).
    - A [double] is its 64 bits, an [int64_t] a [Z].
    - [src_arena], the guard of keys borrowed from a request arena, is left NULL. *)

From stdpp Require Import gmap.
From S2P Require Import Prelude StringPool Fingerprint Arena.
Import StringPool Fingerprint Arena.

Module InternPool.

#[local] Open Scope N_scope.

(** ** Indices *)

Abbreviation IpIndex := N (only parsing).

(** [IpReservedIndex]; the primitives in the order of [ip_primitives.def]. *)
Definition IP_INDEX_NONE : N := 0.
Definition IP_INDEX_BOOL_TYPE : N := 1.
Definition IP_INDEX_U8_TYPE : N := 2.
Definition IP_INDEX_I8_TYPE : N := 3.
Definition IP_INDEX_U16_TYPE : N := 4.
Definition IP_INDEX_I16_TYPE : N := 5.
Definition IP_INDEX_U32_TYPE : N := 6.
Definition IP_INDEX_I32_TYPE : N := 7.
Definition IP_INDEX_U64_TYPE : N := 8.
Definition IP_INDEX_I64_TYPE : N := 9.
Definition IP_INDEX_F32_TYPE : N := 10.
Definition IP_INDEX_F64_TYPE : N := 11.
Definition IP_INDEX_USIZE_TYPE : N := 12.
Definition IP_INDEX_ISIZE_TYPE : N := 13.
Definition IP_INDEX_VOID_TYPE : N := 14.
Definition IP_INDEX_TYPE_TYPE : N := 15.
Definition IP_INDEX_ANYTYPE_TYPE : N := 16.
Definition IP_INDEX_COMPTIME_INT_TYPE : N := 17.
Definition IP_INDEX_COMPTIME_FLOAT_TYPE : N := 18.
Definition IP_INDEX_NIL_TYPE : N := 19.
Definition IP_INDEX_ERROR_TYPE : N := 20.
Definition IP_INDEX_NORETURN_TYPE : N := 21.
Definition IP_INDEX_BOOL_TRUE : N := 22.
Definition IP_INDEX_BOOL_FALSE : N := 23.
Definition IP_INDEX_VOID_VALUE : N := 24.
Definition IP_INDEX_UNDEF_VALUE : N := 25.
Definition IP_INDEX_ZERO_USIZE : N := 26.
Definition IP_INDEX_ONE_USIZE : N := 27.
Definition IP_INDEX_C_STRING_TYPE : N := 28.
Definition IP_INDEX_OPAQUE_PTR_TYPE : N := 29.
Definition IP_INDEX_CONST_OPAQUE_PTR_TYPE : N := 30.
Definition IP_INDEX_STRING_SLICE_TYPE : N := 31.
Definition IP_INDEX_EMPTY_EFFECT_ROW : N := 32.
Definition IP_RESERVED_COUNT : N := 33.

Definition IP_NONE : IpIndex := 0.
Definition IP_EMPTY_EFFECT_ROW : IpIndex := IP_INDEX_EMPTY_EFFECT_ROW.

Definition ip_index_is_valid (i : IpIndex) : bool := negb (i =? 0).
Definition ip_index_eq (a b : IpIndex) : bool := a =? b.

(** ** Tags and keys *)

Inductive IpTag : Set :=
  | IP_TAG_PRIMITIVE_TYPE | IP_TAG_RESERVED_VALUE
  | IP_TAG_PTR_TYPE | IP_TAG_PTR_CONST_TYPE | IP_TAG_MANY_PTR_TYPE | IP_TAG_MANY_PTR_CONST_TYPE
  | IP_TAG_SLICE_TYPE | IP_TAG_SLICE_CONST_TYPE | IP_TAG_OPTIONAL_TYPE
  | IP_TAG_ARRAY_TYPE | IP_TAG_FN_TYPE | IP_TAG_STRUCT_TYPE | IP_TAG_ENUM_TYPE
  | IP_TAG_EFFECT_ROW | IP_TAG_ROW_VAR | IP_TAG_TYPE_VAR | IP_TAG_EFFECT_TYPE
  | IP_TAG_DISTINCT_TYPE | IP_TAG_INT_VALUE | IP_TAG_FLOAT_VALUE | IP_TAG_NAMESPACE_VALUE
  | IP_TAG_ENUM_VARIANT_VALUE | IP_TAG_FN_VALUE | IP_TAG_NAMESPACE_TYPE | IP_TAG_INSTANCE
  | IP_TAG_NONE | IP_TAG_REMOVED.

#[export] Instance IpTag_eq_dec : EqDecision IpTag.
Proof. solve_decision. Defined.

(** A constructor per kind, with the fields of its member of the union. *)
Inductive IpKey : Set :=
  | IPK_PRIMITIVE_TYPE (primitive_type : N)
  | IPK_RESERVED_VALUE (reserved_value : N)
  | IPK_PTR_TYPE (elem : IpIndex) (is_const : bool)
  | IPK_MANY_PTR_TYPE (elem : IpIndex) (is_const : bool)
  | IPK_SLICE_TYPE (elem : IpIndex) (is_const : bool)
  | IPK_OPTIONAL_TYPE (elem : IpIndex)
  | IPK_ARRAY_TYPE (elem : IpIndex) (size : N)
  | IPK_FN_TYPE (ret : IpIndex) (modifiers comptime_bits typevalued_bits : N)
      (params : list IpIndex) (effect_row : IpIndex)
  | IPK_STRUCT_TYPE (zir_node_id : N)
  | IPK_ENUM_TYPE (zir_node_id : N)
  | IPK_EFFECT_ROW (labels : list N) (tail : IpIndex)
  | IPK_ROW_VAR (id : N)
  | IPK_TYPE_VAR (id : N)
  | IPK_EFFECT_TYPE (zir_node_id : N)
  | IPK_DISTINCT_TYPE (zir_node_id : N) (backing : IpIndex)
  | IPK_INT_VALUE (type : IpIndex) (value : Z)
  | IPK_FLOAT_VALUE (type : IpIndex) (bits : N)
  | IPK_NAMESPACE_VALUE (nsid : N)
  | IPK_ENUM_VARIANT_VALUE (enum_def variant_idx : N)
  | IPK_FN_VALUE (def : N)
  | IPK_NAMESPACE_TYPE (nsid : N)
  | IPK_INSTANCE (def : N) (args : list IpIndex).

#[export] Instance IpKey_eq_dec : EqDecision IpKey.
Proof. solve_decision. Defined.

(** The value of [key.kind]. *)
Definition key_kind (k : IpKey) : N :=
  match k with
  | IPK_PRIMITIVE_TYPE _ => 0 | IPK_RESERVED_VALUE _ => 1 | IPK_PTR_TYPE _ _ => 2
  | IPK_MANY_PTR_TYPE _ _ => 3 | IPK_SLICE_TYPE _ _ => 4 | IPK_OPTIONAL_TYPE _ => 5
  | IPK_ARRAY_TYPE _ _ => 6 | IPK_FN_TYPE _ _ _ _ _ _ => 7 | IPK_STRUCT_TYPE _ => 8
  | IPK_ENUM_TYPE _ => 9 | IPK_EFFECT_ROW _ _ => 10 | IPK_ROW_VAR _ => 11
  | IPK_TYPE_VAR _ => 12 | IPK_EFFECT_TYPE _ => 13 | IPK_DISTINCT_TYPE _ _ => 14
  | IPK_INT_VALUE _ _ => 15 | IPK_FLOAT_VALUE _ _ => 16 | IPK_NAMESPACE_VALUE _ => 17
  | IPK_ENUM_VARIANT_VALUE _ _ => 18 | IPK_FN_VALUE _ => 19 | IPK_NAMESPACE_TYPE _ => 20
  | IPK_INSTANCE _ _ => 21
  end.

(** The payload structs of the arena-stored tags. *)
Inductive Payload : Set :=
  | IpArrayPayload (elem : IpIndex) (size : N)
  | IpFnPayload (ret : IpIndex) (modifiers comptime_bits typevalued_bits n_params : N)
      (effect_row : IpIndex) (params : list IpIndex)
  | IpInstancePayload (def_idx n_args : N) (args : list IpIndex)
  | IpIntPayload (type : IpIndex) (value : Z)
  | IpFloatPayload (type : IpIndex) (bits : N)
  | IpEnumVariantValuePayload (enum_def_idx variant_idx : N)
  | IpEffectRowPayload (n_labels : N) (tail : IpIndex) (labels : list N)
  | IpDistinctPayload (zir_node_id : N) (backing : IpIndex).

(** [sizeof] of the payload, flexible array included. *)
Definition payload_size (pl : Payload) : N :=
  match pl with
  | IpArrayPayload _ _ | IpIntPayload _ _ | IpFloatPayload _ _ => 16
  | IpFnPayload _ _ _ _ _ _ params => 24 + 4 * N.of_nat (length params)
  | IpInstancePayload _ _ args => 8 + 4 * N.of_nat (length args)
  | IpEffectRowPayload _ _ labels => 8 + 4 * N.of_nat (length labels)
  | IpEnumVariantValuePayload _ _ | IpDistinctPayload _ _ => 8
  end.

Record InternPool : Type := mkPool {
  items : list (IpTag * N);
  extra_arena : Arena;
  extra_mem : gmap ptr Payload;
  buckets : list N;
  bucket_used : N;
  next_row_var_id : N;
  next_type_var_id : N
}.

Definition items_count (p : InternPool) : N := N.of_nat (length (items p)).
Definition bucket_count (p : InternPool) : N := N.of_nat (length (buckets p)).

Definition put_items (x : list (IpTag * N)) (p : InternPool) : InternPool :=
  mkPool x (extra_arena p) (extra_mem p) (buckets p) (bucket_used p) (next_row_var_id p)
    (next_type_var_id p).
Definition put_buckets (b : list N) (used : N) (p : InternPool) : InternPool :=
  mkPool (items p) (extra_arena p) (extra_mem p) b used (next_row_var_id p) (next_type_var_id p).
Definition put_extra (a : Arena) (m : gmap ptr Payload) (p : InternPool) : InternPool :=
  mkPool (items p) a m (buckets p) (bucket_used p) (next_row_var_id p) (next_type_var_id p).

(** ** Hashing *)

Definition fnv_init : N := 0xcbf29ce484222325.
Definition fnv_step (h : N) (data : list byte) : N :=
  foldl (fun h b => u64 (N.lxor h (Byte.to_N b) * 0x100000001b3)) h data.
Definition fnv_u32 (h v : N) : N := fnv_step h (le32 v).
Definition fnv_u64 (h v : N) : N := fnv_step h (le64 v).

(** [(uint64_t)value]. *)
Definition u64_of_Z (v : Z) : N := Z.to_N (v mod 2 ^ 64)%Z.

(** [if (r.v == IP_NONE.v) r = IP_EMPTY_EFFECT_ROW]. *)
Definition closed_row (r : IpIndex) : IpIndex := if r =? IP_NONE then IP_EMPTY_EFFECT_ROW else r.

Definition fnv_list (h : N) (l : list N) : N := foldl fnv_u32 h l.

(** The loop of the assert: ascending, duplicates allowed. *)
Fixpoint ascending (l : list N) : bool :=
  match l with
  | x :: ((y :: _) as l') => (x <=? y) && ascending l'
  | _ => true
  end.

Definition hash_key (k : IpKey) : outcome N :=
  let h := fnv_u32 fnv_init (key_kind k) in
  match k with
  | IPK_PRIMITIVE_TYPE v | IPK_RESERVED_VALUE v => Ret (fnv_u32 h v)
  | IPK_PTR_TYPE e c | IPK_MANY_PTR_TYPE e c | IPK_SLICE_TYPE e c =>
      Ret (fnv_u32 (fnv_u32 h e) (if c then 1 else 0))
  | IPK_OPTIONAL_TYPE e => Ret (fnv_u32 h e)
  | IPK_ARRAY_TYPE e size => Ret (fnv_u64 (fnv_u32 h e) size)
  | IPK_FN_TYPE ret m c t params er =>
      let h := fnv_u32 (fnv_u32 (fnv_u32 (fnv_u32 h ret) m) c) t in
      let h := fnv_u32 h (u32 (N.of_nat (length params))) in
      Ret (fnv_u32 (fnv_list h params) (closed_row er))
  | IPK_INSTANCE def args =>
      let h := fnv_u32 (fnv_u32 h def) (u32 (N.of_nat (length args))) in
      Ret (fnv_list h args)
  | IPK_STRUCT_TYPE z | IPK_ENUM_TYPE z | IPK_EFFECT_TYPE z => Ret (fnv_u32 h z)
  | IPK_EFFECT_ROW labels tail =>
      let! _ := oassert (ascending labels) "ip_get: effect_row.labels must be ascending by .idx" in
      let h := fnv_list (fnv_u32 h (u32 (N.of_nat (length labels)))) labels in
      Ret (fnv_u32 h (closed_row tail))
  | IPK_ROW_VAR id | IPK_TYPE_VAR id => Ret (fnv_u32 h id)
  | IPK_DISTINCT_TYPE z b => Ret (fnv_u32 (fnv_u32 h z) b)
  | IPK_INT_VALUE t v => Ret (fnv_u64 (fnv_u32 h t) (u64_of_Z v))
  | IPK_FLOAT_VALUE t bits => Ret (fnv_u64 (fnv_u32 h t) bits)
  | IPK_NAMESPACE_VALUE n | IPK_NAMESPACE_TYPE n => Ret (fnv_u32 h n)
  | IPK_FN_VALUE d => Ret (fnv_u32 h d)
  | IPK_ENUM_VARIANT_VALUE e v => Ret (fnv_u32 (fnv_u32 h e) v)
  end.

(** [n] equal lengths and the loop. *)
Fixpoint words_eqb (a b : list N) : bool :=
  match a, b with
  | [], [] => true
  | x :: a, y :: b => (x =? y) && words_eqb a b
  | _, _ => false
  end.

Definition ip_key_eql (a b : IpKey) : bool :=
  match a, b with
  | IPK_PRIMITIVE_TYPE x, IPK_PRIMITIVE_TYPE y => x =? y
  | IPK_RESERVED_VALUE x, IPK_RESERVED_VALUE y => x =? y
  | IPK_PTR_TYPE e c, IPK_PTR_TYPE e' c' => (e =? e') && Bool.eqb c c'
  | IPK_MANY_PTR_TYPE e c, IPK_MANY_PTR_TYPE e' c' => (e =? e') && Bool.eqb c c'
  | IPK_SLICE_TYPE e c, IPK_SLICE_TYPE e' c' => (e =? e') && Bool.eqb c c'
  | IPK_OPTIONAL_TYPE e, IPK_OPTIONAL_TYPE e' => e =? e'
  | IPK_ARRAY_TYPE e n, IPK_ARRAY_TYPE e' n' => (e =? e') && (n =? n')
  | IPK_FN_TYPE r m c t ps er, IPK_FN_TYPE r' m' c' t' ps' er' =>
      (r =? r') && (m =? m') && (c =? c') && (t =? t') && words_eqb ps ps' &&
      (closed_row er =? closed_row er')
  | IPK_INSTANCE d args, IPK_INSTANCE d' args' => (d =? d') && words_eqb args args'
  | IPK_STRUCT_TYPE z, IPK_STRUCT_TYPE z' => z =? z'
  | IPK_ENUM_TYPE z, IPK_ENUM_TYPE z' => z =? z'
  | IPK_EFFECT_ROW l t, IPK_EFFECT_ROW l' t' => words_eqb l l' && (closed_row t =? closed_row t')
  | IPK_ROW_VAR i, IPK_ROW_VAR i' => i =? i'
  | IPK_TYPE_VAR i, IPK_TYPE_VAR i' => i =? i'
  | IPK_EFFECT_TYPE z, IPK_EFFECT_TYPE z' => z =? z'
  | IPK_DISTINCT_TYPE z b, IPK_DISTINCT_TYPE z' b' => (z =? z') && (b =? b')
  | IPK_INT_VALUE t v, IPK_INT_VALUE t' v' => (t =? t') && (v =? v')%Z
  | IPK_FLOAT_VALUE t x, IPK_FLOAT_VALUE t' x' => (t =? t') && (x =? x')
  | IPK_NAMESPACE_VALUE n, IPK_NAMESPACE_VALUE n' => n =? n'
  | IPK_FN_VALUE d, IPK_FN_VALUE d' => d =? d'
  | IPK_ENUM_VARIANT_VALUE e v, IPK_ENUM_VARIANT_VALUE e' v' => (e =? e') && (v =? v')
  | IPK_NAMESPACE_TYPE n, IPK_NAMESPACE_TYPE n' => n =? n'
  | _, _ => false
  end.

(** ** Decoding *)

Definition error_key : IpKey := IPK_PRIMITIVE_TYPE IP_INDEX_ERROR_TYPE.

(** [arena_get_ptr(&pool->extra_arena, data)], and what the struct there holds. *)
Definition payload_at (p : InternPool) (data : N) : outcome Payload :=
  match (arena_get_ptr (extra_arena p) data).1 with
  | None => AssertFailed "ip_key_internal: payload out of arena range"
  | Some addr =>
      match extra_mem p !! addr with
      | Some pl => Ret pl
      | None => AssertFailed "read of memory that holds no payload"
      end
  end.

Definition ip_key_internal (p : InternPool) (idx : IpIndex) : outcome IpKey :=
  match items p !! N.to_nat idx with
  | None => Ret error_key
  | Some (tag, data) =>
      match tag with
      | IP_TAG_PRIMITIVE_TYPE => Ret (IPK_PRIMITIVE_TYPE idx)
      | IP_TAG_RESERVED_VALUE => Ret (IPK_RESERVED_VALUE idx)
      | IP_TAG_PTR_TYPE => Ret (IPK_PTR_TYPE data false)
      | IP_TAG_PTR_CONST_TYPE => Ret (IPK_PTR_TYPE data true)
      | IP_TAG_MANY_PTR_TYPE => Ret (IPK_MANY_PTR_TYPE data false)
      | IP_TAG_MANY_PTR_CONST_TYPE => Ret (IPK_MANY_PTR_TYPE data true)
      | IP_TAG_SLICE_TYPE => Ret (IPK_SLICE_TYPE data false)
      | IP_TAG_SLICE_CONST_TYPE => Ret (IPK_SLICE_TYPE data true)
      | IP_TAG_OPTIONAL_TYPE => Ret (IPK_OPTIONAL_TYPE data)
      | IP_TAG_STRUCT_TYPE => Ret (IPK_STRUCT_TYPE data)
      | IP_TAG_ENUM_TYPE => Ret (IPK_ENUM_TYPE data)
      | IP_TAG_ROW_VAR => Ret (IPK_ROW_VAR data)
      | IP_TAG_TYPE_VAR => Ret (IPK_TYPE_VAR data)
      | IP_TAG_EFFECT_TYPE => Ret (IPK_EFFECT_TYPE data)
      | IP_TAG_NAMESPACE_VALUE => Ret (IPK_NAMESPACE_VALUE data)
      | IP_TAG_FN_VALUE => Ret (IPK_FN_VALUE data)
      | IP_TAG_NAMESPACE_TYPE => Ret (IPK_NAMESPACE_TYPE data)
      | IP_TAG_NONE | IP_TAG_REMOVED => Ret error_key
      | IP_TAG_ARRAY_TYPE | IP_TAG_FN_TYPE | IP_TAG_INSTANCE | IP_TAG_EFFECT_ROW
      | IP_TAG_DISTINCT_TYPE | IP_TAG_INT_VALUE | IP_TAG_FLOAT_VALUE
      | IP_TAG_ENUM_VARIANT_VALUE =>
          let! pl := payload_at p data in
          match tag, pl with
          | IP_TAG_ARRAY_TYPE, IpArrayPayload e n => Ret (IPK_ARRAY_TYPE e n)
          | IP_TAG_FN_TYPE, IpFnPayload r m c t n er ps =>
              Ret (IPK_FN_TYPE r m c t (take (N.to_nat n) ps) er)
          | IP_TAG_INSTANCE, IpInstancePayload d n args =>
              Ret (IPK_INSTANCE d (take (N.to_nat n) args))
          | IP_TAG_EFFECT_ROW, IpEffectRowPayload n t l =>
              Ret (IPK_EFFECT_ROW (take (N.to_nat n) l) t)
          | IP_TAG_DISTINCT_TYPE, IpDistinctPayload z b => Ret (IPK_DISTINCT_TYPE z b)
          | IP_TAG_INT_VALUE, IpIntPayload t v => Ret (IPK_INT_VALUE t v)
          | IP_TAG_FLOAT_VALUE, IpFloatPayload t x => Ret (IPK_FLOAT_VALUE t x)
          | IP_TAG_ENUM_VARIANT_VALUE, IpEnumVariantValuePayload e v =>
              Ret (IPK_ENUM_VARIANT_VALUE e v)
          | _, _ => AssertFailed "payload read at the wrong type"
          end
      end
  end.

Definition ip_key : InternPool -> IpIndex -> outcome IpKey := ip_key_internal.

Definition ip_tag (p : InternPool) (idx : IpIndex) : IpTag :=
  match items p !! N.to_nat idx with Some (tag, _) => tag | None => IP_TAG_REMOVED end.

Definition ip_is_type (p : InternPool) (idx : IpIndex) : bool :=
  match ip_tag p idx with
  | IP_TAG_PRIMITIVE_TYPE | IP_TAG_PTR_TYPE | IP_TAG_PTR_CONST_TYPE | IP_TAG_MANY_PTR_TYPE
  | IP_TAG_MANY_PTR_CONST_TYPE | IP_TAG_SLICE_TYPE | IP_TAG_SLICE_CONST_TYPE
  | IP_TAG_OPTIONAL_TYPE | IP_TAG_ARRAY_TYPE | IP_TAG_FN_TYPE | IP_TAG_STRUCT_TYPE
  | IP_TAG_ENUM_TYPE | IP_TAG_DISTINCT_TYPE | IP_TAG_NAMESPACE_TYPE | IP_TAG_TYPE_VAR
  | IP_TAG_INSTANCE => true
  | _ => false
  end.

Definition ip_is_value (p : InternPool) (idx : IpIndex) : bool :=
  match ip_tag p idx with
  | IP_TAG_RESERVED_VALUE | IP_TAG_INT_VALUE | IP_TAG_FLOAT_VALUE | IP_TAG_NAMESPACE_VALUE
  | IP_TAG_ENUM_VARIANT_VALUE | IP_TAG_FN_VALUE => true
  | _ => false
  end.

(** ** Encoding *)

Definition tag_for_key (k : IpKey) : IpTag :=
  match k with
  | IPK_PRIMITIVE_TYPE _ => IP_TAG_PRIMITIVE_TYPE
  | IPK_RESERVED_VALUE _ => IP_TAG_RESERVED_VALUE
  | IPK_PTR_TYPE _ c => if c then IP_TAG_PTR_CONST_TYPE else IP_TAG_PTR_TYPE
  | IPK_MANY_PTR_TYPE _ c => if c then IP_TAG_MANY_PTR_CONST_TYPE else IP_TAG_MANY_PTR_TYPE
  | IPK_SLICE_TYPE _ c => if c then IP_TAG_SLICE_CONST_TYPE else IP_TAG_SLICE_TYPE
  | IPK_OPTIONAL_TYPE _ => IP_TAG_OPTIONAL_TYPE
  | IPK_ARRAY_TYPE _ _ => IP_TAG_ARRAY_TYPE
  | IPK_FN_TYPE _ _ _ _ _ _ => IP_TAG_FN_TYPE
  | IPK_STRUCT_TYPE _ => IP_TAG_STRUCT_TYPE
  | IPK_ENUM_TYPE _ => IP_TAG_ENUM_TYPE
  | IPK_EFFECT_ROW _ _ => IP_TAG_EFFECT_ROW
  | IPK_ROW_VAR _ => IP_TAG_ROW_VAR
  | IPK_TYPE_VAR _ => IP_TAG_TYPE_VAR
  | IPK_EFFECT_TYPE _ => IP_TAG_EFFECT_TYPE
  | IPK_DISTINCT_TYPE _ _ => IP_TAG_DISTINCT_TYPE
  | IPK_INT_VALUE _ _ => IP_TAG_INT_VALUE
  | IPK_FLOAT_VALUE _ _ => IP_TAG_FLOAT_VALUE
  | IPK_NAMESPACE_VALUE _ => IP_TAG_NAMESPACE_VALUE
  | IPK_FN_VALUE _ => IP_TAG_FN_VALUE
  | IPK_ENUM_VARIANT_VALUE _ _ => IP_TAG_ENUM_VARIANT_VALUE
  | IPK_NAMESPACE_TYPE _ => IP_TAG_NAMESPACE_TYPE
  | IPK_INSTANCE _ _ => IP_TAG_INSTANCE
  end.

(** The payload of a key that has one; the word of a key that has none. *)
Definition key_payload (k : IpKey) : Payload + N :=
  match k with
  | IPK_ARRAY_TYPE e n => inl (IpArrayPayload e n)
  | IPK_FN_TYPE r m c t ps er =>
      inl (IpFnPayload r m c t (u32 (N.of_nat (length ps))) (closed_row er) ps)
  | IPK_INSTANCE d args => inl (IpInstancePayload d (u32 (N.of_nat (length args))) args)
  | IPK_EFFECT_ROW l t =>
      inl (IpEffectRowPayload (u32 (N.of_nat (length l))) (closed_row t) l)
  | IPK_DISTINCT_TYPE z b => inl (IpDistinctPayload z b)
  | IPK_INT_VALUE t v => inl (IpIntPayload t v)
  | IPK_FLOAT_VALUE t x => inl (IpFloatPayload t x)
  | IPK_ENUM_VARIANT_VALUE e v => inl (IpEnumVariantValuePayload e v)
  | IPK_PTR_TYPE e _ | IPK_MANY_PTR_TYPE e _ | IPK_SLICE_TYPE e _ | IPK_OPTIONAL_TYPE e => inr e
  | IPK_STRUCT_TYPE z | IPK_ENUM_TYPE z | IPK_EFFECT_TYPE z => inr z
  | IPK_NAMESPACE_TYPE n | IPK_NAMESPACE_VALUE n => inr n
  | IPK_FN_VALUE d => inr d
  | IPK_ROW_VAR i | IPK_TYPE_VAR i => inr i
  | IPK_PRIMITIVE_TYPE _ | IPK_RESERVED_VALUE _ => inr 0
  end.

(** Write a payload at the end of the arena; the word is its offset. *)
Definition encode_payload (pl : Payload) (p : InternPool) : outcome (N * InternPool) :=
  let off := u32 (arena_total_used (extra_arena p)) in
  let! (addr, a) := arena_alloc_raw (extra_arena p) (payload_size pl) in
  match addr with
  | None => AssertFailed "write through NULL"
  | Some addr => Ret (off, put_extra a (<[addr := pl]> (extra_mem p)) p)
  end.

Definition encode_items_data (k : IpKey) (p : InternPool) : outcome (N * InternPool) :=
  match key_payload k with
  | inr data => Ret (data, p)
  | inl pl => encode_payload pl p
  end.

Definition append_item (tag : IpTag) (data : N) (p : InternPool) : N * InternPool :=
  (u32 (items_count p), put_items (items p ++ [(tag, data)]) p).

(** ** The bucket map *)

Definition bucket_at (b : list N) (i : N) : N := nth (N.to_nat i) b 0.

(** [(hash_high << 32) | (idx + 1)]. *)
Definition pack_bucket (hh idx : N) : N := N.lor (N.shiftl hh 32) (u32 (idx + 1)).
Definition bucket_hash (e : N) : N := N.shiftr e 32.
Definition bucket_idx (e : N) : N := u32_sub (N.land e 0xFFFFFFFF) 1.

(** [while (buckets[b] != 0) b = (b + 1) & mask]. *)
Fixpoint empty_bucket (fuel : nat) (bs : list N) (mask b : N) : outcome N :=
  match fuel with
  | O => OutOfFuel
  | S f => if bucket_at bs b =? 0 then Ret b else empty_bucket f bs mask (N.land (b + 1) mask)
  end.

(** Insert an index whose hash is [h], in a table known to have room. *)
Definition insert_bucket (h idx : N) (bs : list N) : outcome (list N) :=
  let mask := N.of_nat (length bs) - 1 in
  let! b := empty_bucket (length bs) bs mask (N.land h mask) in
  Ret (<[N.to_nat b := pack_bucket (N.shiftr h 32) idx]> bs).

(** The loop of [buckets_grow] over the old table. *)
Fixpoint rehash_buckets (p : InternPool) (old bs : list N) (used : N) : outcome (list N * N) :=
  match old with
  | [] => Ret (bs, used)
  | e :: old =>
      if e =? 0 then rehash_buckets p old bs used
      else if bool_decide (ip_tag p (bucket_idx e) = IP_TAG_REMOVED) then rehash_buckets p old bs used
      else
        let! k := ip_key_internal p (bucket_idx e) in
        let! h := hash_key k in
        let! bs := insert_bucket h (bucket_idx e) bs in
        rehash_buckets p old bs (used + 1)
  end.

Definition buckets_grow (p : InternPool) : outcome InternPool :=
  let! (bs, used) := rehash_buckets p (buckets p) (replicate (length (buckets p) * 2) 0) 0 in
  Ret (put_buckets bs used p).

(** Grow before an insertion that would pass 75%. *)
Definition maybe_grow (p : InternPool) : outcome InternPool :=
  if bucket_count p * 3 <? (bucket_used p + 1) * 4 then buckets_grow p else Ret p.

(** The probe of [ip_get_compound]: the live index of an equal key, or the first empty
    bucket. *)
Fixpoint probe_key (fuel : nat) (p : InternPool) (k : IpKey) (hh mask b : N)
    : outcome (IpIndex + N) :=
  match fuel with
  | O => OutOfFuel
  | S f =>
      let e := bucket_at (buckets p) b in
      if e =? 0 then Ret (inr b)
      else
        let next := probe_key f p k hh mask (N.land (b + 1) mask) in
        if bucket_hash e =? hh then
          let existing := bucket_idx e in
          if bool_decide (ip_tag p existing = IP_TAG_REMOVED) then next
          else
            let! k' := ip_key_internal p existing in
            if ip_key_eql k' k then Ret (inl existing) else next
        else next
  end.

Definition ip_get_compound (k : IpKey) (p : InternPool) : outcome (IpIndex * InternPool) :=
  let! h := hash_key k in
  let hh := N.shiftr h 32 in
  let! p := maybe_grow p in
  let mask := bucket_count p - 1 in
  let! found := probe_key (length (buckets p)) p k hh mask (N.land h mask) in
  match found with
  | inl existing => Ret (existing, p)
  | inr b =>
      let! (data, p) := encode_items_data k p in
      let (new_idx, p) := append_item (tag_for_key k) data p in
      Ret (new_idx, put_buckets (<[N.to_nat b := pack_bucket hh new_idx]> (buckets p))
                      (bucket_used p + 1) p)
  end.

Definition ip_get (k : IpKey) (p : InternPool) : outcome (IpIndex * InternPool) :=
  match k with
  | IPK_PRIMITIVE_TYPE v | IPK_RESERVED_VALUE v => Ret (v, p)
  | _ => ip_get_compound k p
  end.

Definition ip_remove (idx : IpIndex) (p : InternPool) : InternPool :=
  match items p !! N.to_nat idx with
  | None => p
  | Some (_, data) => put_items (<[N.to_nat idx := (IP_TAG_REMOVED, data)]> (items p)) p
  end.

Definition ip_fresh_row_var (p : InternPool) : outcome (IpIndex * InternPool) :=
  let id := u32 (next_row_var_id p + 1) in
  ip_get (IPK_ROW_VAR id)
    (mkPool (items p) (extra_arena p) (extra_mem p) (buckets p) (bucket_used p) id
       (next_type_var_id p)).

Definition ip_fresh_type_var (p : InternPool) : outcome (IpIndex * InternPool) :=
  let id := u32 (next_type_var_id p + 1) in
  ip_get (IPK_TYPE_VAR id)
    (mkPool (items p) (extra_arena p) (extra_mem p) (buckets p) (bucket_used p)
       (next_row_var_id p) id).

(** ** Initialisation *)

Definition register_bucket (idx : IpIndex) (p : InternPool) : outcome InternPool :=
  let! k := ip_key_internal p idx in
  let! h := hash_key k in
  let! p := maybe_grow p in
  let! bs := insert_bucket h idx (buckets p) in
  Ret (put_buckets bs (bucket_used p + 1) p).

(** Indices 0 to 31. *)
Definition reserved_items : list (IpTag * N) :=
  (IP_TAG_NONE, 0) :: repeat (IP_TAG_PRIMITIVE_TYPE, 0) 21
  ++ repeat (IP_TAG_RESERVED_VALUE, 0) 6
  ++ [(IP_TAG_PTR_CONST_TYPE, IP_INDEX_U8_TYPE); (IP_TAG_PTR_TYPE, IP_INDEX_VOID_TYPE);
      (IP_TAG_PTR_CONST_TYPE, IP_INDEX_VOID_TYPE); (IP_TAG_SLICE_CONST_TYPE, IP_INDEX_U8_TYPE)].

Definition populate_reserved (p : InternPool) : outcome InternPool :=
  let! (off, p) := encode_payload (IpEffectRowPayload 0 IP_EMPTY_EFFECT_ROW []) p in
  let p := put_items (reserved_items ++ [(IP_TAG_EFFECT_ROW, off)]) p in
  let! p := register_bucket IP_INDEX_C_STRING_TYPE p in
  let! p := register_bucket IP_INDEX_OPAQUE_PTR_TYPE p in
  let! p := register_bucket IP_INDEX_CONST_OPAQUE_PTR_TYPE p in
  let! p := register_bucket IP_INDEX_STRING_SLICE_TYPE p in
  register_bucket IP_INDEX_EMPTY_EFFECT_ROW p.

Definition ip_init_with (initial_buckets extra_chunk_size : N) : outcome InternPool :=
  let! _ := oassert ((16 <=? initial_buckets) &&
                     (N.land initial_buckets (initial_buckets - 1) =? 0))
              "ip_init_with: initial_buckets must be power of two >= 16" in
  let! _ := oassert (64 <=? extra_chunk_size) "ip_init_with: extra_chunk_size must be >= 64" in
  populate_reserved
    (mkPool [] (arena_init extra_chunk_size) ∅ (replicate (N.to_nat initial_buckets) 0) 0 0 0).

Definition ip_init : outcome InternPool := ip_init_with 256 4096.

(** The memory of the arena keeps its bytes; the next allocations overwrite them. *)
Definition ip_clear (p : InternPool) : outcome InternPool :=
  populate_reserved
    (mkPool [] (arena_reset (extra_arena p)) (extra_mem p)
       (replicate (length (buckets p)) 0) 0 0 0).

End InternPool.
