(* ===== verification/InternFacts.v ===== *)
(** * The intern pool: keys, buckets and the invariant

    Keys are compared up to [norm], which reads an absent effect row as the empty one.
    [inv p g]: the ghost [g] gives the key of every compound index ever appended, live or
    removed; live ones decode to it, and the bucket map is a well-formed linear-probing
    table that holds them all. *)

From stdpp Require Import gmap.
From S2P Require Import Prelude StringPool StringPoolTheorems Probe Fingerprint Arena ArenaFacts InternPool.

Import StringPool StringPoolFacts Fingerprint Arena InternPool Probe.

Module InternFacts.

#[local] Open Scope N_scope.

(** ** Keys *)

Definition norm (k : IpKey) : IpKey :=
  match k with
  | IPK_FN_TYPE r m c t ps er => IPK_FN_TYPE r m c t ps (closed_row er)
  | IPK_EFFECT_ROW l t => IPK_EFFECT_ROW l (closed_row t)
  | k => k
  end.

Definition compound (k : IpKey) : bool :=
  match k with IPK_PRIMITIVE_TYPE _ | IPK_RESERVED_VALUE _ => false | _ => true end.

(** Keys a caller may intern: the reserved ones name their index, labels are sorted, lists
    fit their 32-bit count. *)
Definition key_ok (k : IpKey) : Prop :=
  match k with
  | IPK_PRIMITIVE_TYPE v => 1 <= v <= 21
  | IPK_RESERVED_VALUE v => 22 <= v <= 27
  | IPK_FN_TYPE _ _ _ _ l _ | IPK_INSTANCE _ l => N.of_nat (length l) < 2 ^ 32
  | IPK_EFFECT_ROW l _ => N.of_nat (length l) < 2 ^ 32 /\ ascending l = true
  | _ => True
  end.

Lemma closed_row_idem r : closed_row (closed_row r) = closed_row r.
Proof. unfold closed_row. by destruct (N.eqb_spec r IP_NONE) as [->|H]; [|apply N.eqb_neq in H as ->]. Qed.

Lemma norm_idem k : norm (norm k) = norm k.
Proof. destruct k; simpl; try done; by rewrite closed_row_idem. Qed.

Lemma norm_compound k : compound (norm k) = compound k.
Proof. by destruct k. Qed.

Lemma norm_ok k : key_ok k -> key_ok (norm k).
Proof. by destruct k. Qed.

Lemma norm_tag k : tag_for_key (norm k) = tag_for_key k.
Proof. by destruct k. Qed.

Lemma norm_payload k : key_payload (norm k) = key_payload k.
Proof. destruct k; simpl; try done; by rewrite closed_row_idem. Qed.

Lemma words_eqb_eq a b : words_eqb a b = true <-> a = b.
Proof.
  revert b. induction a as [|x a IH]; intros [|y b]; simpl; try done.
  rewrite andb_true_iff, N.eqb_eq, IH. split; [by intros [-> ->]|by intros [= -> ->]].
Qed.

Lemma ip_key_eql_norm a b : ip_key_eql a b = true <-> norm a = norm b.
Proof.
  destruct a, b; simpl; try done;
    rewrite ?andb_true_iff, ?N.eqb_eq, ?Z.eqb_eq, ?Bool.eqb_true_iff, ?words_eqb_eq;
    (split; [intros; destruct_and?; congruence|intros E; injection E; intros; subst; repeat split; done]).
Qed.

(** The hash, where the assert holds. *)
Definition hash_of (k : IpKey) : N := match hash_key k with Ret h => h | _ => 0 end.

Lemma hash_key_ok k : key_ok k -> hash_key k = Ret (hash_of k).
Proof. unfold hash_of. destruct k; simpl; try done. by intros [_ ->]. Qed.

Lemma hash_norm k : hash_key (norm k) = hash_key k.
Proof. destruct k; simpl; try done; by rewrite closed_row_idem. Qed.

Lemma hash_of_norm k : hash_of (norm k) = hash_of k.
Proof. unfold hash_of. by rewrite hash_norm. Qed.

Lemma fnv_step_snoc h data b : fnv_step h (data ++ [b]) < 2 ^ 64.
Proof. unfold fnv_step. rewrite foldl_snoc. by apply N.mod_lt. Qed.

Lemma fnv_u32_lt h v : fnv_u32 h v < 2 ^ 64.
Proof. apply (fnv_step_snoc h [_; _; _]). Qed.

Lemma fnv_u64_lt h v : fnv_u64 h v < 2 ^ 64.
Proof. apply (fnv_step_snoc h [_; _; _; _; _; _; _]). Qed.

Lemma fnv_list_lt l : forall h, h < 2 ^ 64 -> fnv_list h l < 2 ^ 64.
Proof. induction l as [|x l IH]; intros h Hh; [done|]. apply IH, fnv_u32_lt. Qed.

#[local] Opaque fnv_u32 fnv_u64 fnv_list.

Lemma hash_of_lt k : hash_of k < 2 ^ 64.
Proof.
  unfold hash_of. destruct k; cbn [hash_key]; try apply fnv_u32_lt; try apply fnv_u64_lt.
  - destruct (ascending _); [apply fnv_u32_lt|by apply N.ltb_lt].
  - apply fnv_list_lt, fnv_u32_lt.
Qed.

Lemma hash_high_lt k : N.shiftr (hash_of k) 32 < 2 ^ 32.
Proof.
  rewrite N.shiftr_div_pow2. apply N.Div0.div_lt_upper_bound.
  pose proof (hash_of_lt k). change (2 ^ 32 * 2 ^ 32) with (2 ^ 64). done.
Qed.

(** ** Buckets *)

Lemma pack_bucket_sum hh idx : idx + 1 < 2 ^ 32 ->
  pack_bucket hh idx = hh * 2 ^ 32 + (idx + 1).
Proof.
  intros Hi. unfold pack_bucket. rewrite u32_small by done.
  assert (Hl : N.land (N.shiftl hh 32) (idx + 1) = 0).
  { apply N.bits_inj_0. intros n. rewrite N.land_spec. destruct (N.lt_ge_cases n 32) as [Hn|Hn].
    - by rewrite N.shiftl_spec_low.
    - rewrite <- (N.mod_small (idx + 1) (2 ^ 32)) by done.
      rewrite N.mod_pow2_bits_high by done. apply andb_false_r. }
  rewrite <- N.shiftl_mul_pow2. symmetry. rewrite <- N.lxor_lor by done. by apply N.add_nocarry_lxor.
Qed.

Lemma bucket_idx_pack hh idx : idx + 1 < 2 ^ 32 -> bucket_idx (pack_bucket hh idx) = idx.
Proof.
  intros Hi. unfold bucket_idx. change 0xFFFFFFFF with (N.ones 32). rewrite N.land_ones.
  rewrite pack_bucket_sum, N.add_comm, N.Div0.mod_add, N.mod_small by done.
  rewrite u32_sub_small; lia.
Qed.

Lemma bucket_hash_pack hh idx : idx + 1 < 2 ^ 32 -> bucket_hash (pack_bucket hh idx) = hh.
Proof.
  intros Hi. unfold bucket_hash. rewrite N.shiftr_div_pow2, pack_bucket_sum by done.
  rewrite N.div_add_l by done. rewrite N.div_small by done. lia.
Qed.

Lemma pack_bucket_nonzero hh idx : idx + 1 < 2 ^ 32 -> pack_bucket hh idx <> 0.
Proof. intros Hi. rewrite pack_bucket_sum by done. lia. Qed.

Definition bucket_table (bs : list N) : table := fun i =>
  if bucket_at bs i =? 0 then None else Some (bucket_at bs i).

Lemma bucket_table_insert bs i e : i < N.of_nat (length bs) -> e <> 0 ->
  pointwise_relation N eq (bucket_table (<[N.to_nat i := e]> bs)) (upd (bucket_table bs) i (Some e)).
Proof.
  intros Hi He j. unfold bucket_table, upd, bucket_at. rewrite !nth_lookup.
  destruct (N.eqb_spec j i) as [->|Hne].
  - rewrite list_lookup_insert_eq by lia. simpl. by rewrite (proj2 (N.eqb_neq _ _) He).
  - by rewrite list_lookup_insert_ne by lia.
Qed.

Lemma bucket_table_empty n : pointwise_relation N eq (bucket_table (replicate n 0)) (fun _ => None).
Proof.
  intros i. unfold bucket_table, bucket_at. rewrite nth_lookup.
  destruct (replicate n 0 !! N.to_nat i) eqn:E; [|done].
  by apply lookup_replicate in E as [-> _].
Qed.

Lemma bucket_table_some bs i e : bucket_table bs i = Some e <-> bucket_at bs i = e /\ e <> 0.
Proof.
  unfold bucket_table. destruct (N.eqb_spec (bucket_at bs i) 0) as [E|E].
  - split; [done|]. by intros [<- ?].
  - split; [by intros [= <-]|]. by intros [<- _].
Qed.

Lemma empty_bucket_probe n bs f j : slots_pow2 n -> j < n ->
  empty_bucket f bs (n - 1) j =
    match probe n f (bucket_table bs) (fun _ => false) j with
    | None => OutOfFuel
    | Some (i, _) => Ret i
    end.
Proof.
  intros Hn. revert j. induction f as [|f IH]; intros j Hj; [done|]. simpl. unfold bucket_table at 1.
  destruct (bucket_at bs j =? 0); [done|]. rewrite next_mask by done. apply IH.
  pose proof (slots_pow2_ge n Hn). apply step_lt; lia.
Qed.

(** *** Tables over the ghost keys *)

Section Ghost.
Context (g : N -> option IpKey).

(** The entry of an index; the home of an entry in a table of [n]. *)
Definition entry (idx : N) (k : IpKey) : N := pack_bucket (N.shiftr (hash_of k) 32) idx.

Definition bucket_home (n e : N) : N :=
  match g (bucket_idx e) with Some k => N.land (hash_of k) (n - 1) | None => 0 end.

Definition size_of (bs : list N) : N := N.of_nat (length bs).

Record tbl (bs : list N) : Prop := {
  tb_pow2 : slots_pow2 (size_of bs);
  tb_entry e : holds (size_of bs) (bucket_table bs) e ->
    exists idx k, g idx = Some k /\ idx + 1 < 2 ^ 32 /\ e = entry idx k;
  tb_chained : chained (size_of bs) (bucket_home (size_of bs)) (bucket_table bs);
  tb_unique : unique (size_of bs) (bucket_table bs)
}.

Definition held (bs : list N) (e : N) : Prop := holds (size_of bs) (bucket_table bs) e.
Definition load_of (bs : list N) : nat := load (size_of bs) (bucket_table bs).

Lemma bucket_home_lt n e : slots_pow2 n -> bucket_home n e < n.
Proof.
  intros Hn. unfold bucket_home. destruct (g _); [by apply land_mask_lt|].
  pose proof (slots_pow2_ge n Hn). lia.
Qed.

Lemma home_entry n idx k : g idx = Some k -> idx + 1 < 2 ^ 32 ->
  bucket_home n (entry idx k) = N.land (hash_of k) (n - 1).
Proof. intros Hg Hi. unfold bucket_home, entry. by rewrite bucket_idx_pack, Hg. Qed.

Lemma entry_inj idx k idx' k' : idx + 1 < 2 ^ 32 -> idx' + 1 < 2 ^ 32 ->
  entry idx k = entry idx' k' -> idx = idx'.
Proof.
  intros Hi Hi' E. apply (f_equal bucket_idx) in E. unfold entry in E.
  by rewrite !bucket_idx_pack in E.
Qed.

Lemma tbl_empty n : slots_pow2 n -> tbl (replicate (N.to_nat n) 0) /\
  load_of (replicate (N.to_nat n) 0) = 0%nat /\ forall e, ~ held (replicate (N.to_nat n) 0) e.
Proof.
  intros Hn. unfold held, load_of, size_of.
  assert (Hlen : N.of_nat (length (replicate (N.to_nat n) 0)) = n) by (rewrite length_replicate; lia).
  assert (Hno : forall e, ~ holds n (bucket_table (replicate (N.to_nat n) 0)) e).
  { intros e. rewrite bucket_table_empty. by intros (j & _ & ?). }
  split; [split|]; unfold size_of; rewrite Hlen.
  - done.
  - by intros e ?%Hno.
  - rewrite bucket_table_empty. by intros ? ? ?.
  - rewrite bucket_table_empty. by intros ? ? ?.
  - split; [|exact Hno]. rewrite bucket_table_empty. apply load_empty.
Qed.

Lemma tbl_room bs : tbl bs -> N.of_nat (load_of bs) < size_of bs ->
  has_room (size_of bs) (bucket_table bs).
Proof.
  intros H Hl. pose proof (slots_pow2_ge _ (tb_pow2 bs H)). apply load_room; [lia|].
  unfold load_of in Hl. lia.
Qed.

(** An entry put in the empty slot where its probe stopped. *)
Lemma tbl_insert bs test idx k d :
  tbl bs -> g idx = Some k -> idx + 1 < 2 ^ 32 ->
  stopped (size_of bs) (bucket_table bs) test (N.land (hash_of k) (size_of bs - 1)) d None ->
  ~ held bs (entry idx k) ->
  let b := step (size_of bs) (N.land (hash_of k) (size_of bs - 1)) d in
  let bs' := <[N.to_nat b := entry idx k]> bs in
  tbl bs' /\ size_of bs' = size_of bs /\ load_of bs' = S (load_of bs) /\
  forall e, held bs' e <-> e = entry idx k \/ held bs e.
Proof.
  intros [Hn He Hc Hu] Hg Hi Hst Hno b bs'.
  assert (Hsz : size_of bs' = size_of bs) by (unfold size_of, bs'; by rewrite length_insert).
  pose proof (slots_pow2_ge _ Hn) as Hge.
  assert (Hb : b < size_of bs).
  { destruct Hst as [Hd _]. apply step_lt; [lia|by apply land_mask_lt|lia]. }
  assert (Hnb : bucket_table bs b = None) by apply Hst.
  assert (Hnz : entry idx k <> 0) by by apply pack_bucket_nonzero.
  pose proof (bucket_table_insert bs b (entry idx k) Hb Hnz) as HT. fold bs' in HT.
  assert (Hheld : forall e, held bs' e <-> e = entry idx k \/ held bs e).
  { intros e. unfold held. rewrite Hsz, HT. by apply holds_insert. }
  assert (Hhome : forall e, bucket_home (size_of bs) e < size_of bs) by (intros; by apply bucket_home_lt).
  split; [|split; [done|split; [|done]]].
  - split; rewrite Hsz.
    + done.
    + rewrite <- Hsz. intros e [->|H]%Hheld; [by exists idx, k|by apply He].
    + rewrite HT. pose proof Hst as Hst'. unfold b.
      rewrite <- (home_entry (size_of bs) idx k Hg Hi) in Hst' |- *.
      by apply (chained_insert (size_of bs) (bucket_home (size_of bs)) ltac:(lia) Hhome _ test).
    + rewrite HT. by apply unique_insert.
  - unfold load_of. rewrite Hsz, HT. by apply load_insert.
Qed.

Lemma insert_bucket_ok bs idx k :
  tbl bs -> N.of_nat (load_of bs) < size_of bs -> g idx = Some k -> idx + 1 < 2 ^ 32 ->
  ~ held bs (entry idx k) ->
  exists bs', insert_bucket (hash_of k) idx bs = Ret bs' /\ tbl bs' /\
    size_of bs' = size_of bs /\ load_of bs' = S (load_of bs) /\
    forall e, held bs' e <-> e = entry idx k \/ held bs e.
Proof.
  intros H Hl Hg Hi Hno. unfold insert_bucket. fold (size_of bs).
  pose proof (tb_pow2 bs H) as Hn. pose proof (slots_pow2_ge _ Hn) as Hge.
  destruct (probe_stops (size_of bs) ltac:(lia) (bucket_table bs) (fun _ => false)
              (N.land (hash_of k) (size_of bs - 1))) as (d & r & Hp & Hst);
    [by apply land_mask_lt|by apply tbl_room|].
  unfold size_of in Hp at 2. rewrite Nat2N.id in Hp.
  rewrite (empty_bucket_probe (size_of bs)), Hp by (done || by apply land_mask_lt). cbn [obind].
  destruct r as [e|]; [by destruct Hst as (_ & _ & ? & _)|].
  destruct (tbl_insert bs _ idx k d H Hg Hi Hst Hno) as (H' & Hs' & Hl' & Hh').
  by eexists.
Qed.

End Ghost.

End InternFacts.

(** ** The invariant of the intern pool

    [inv R p g]: the ghost [g] is the key of every compound index ever appended; live ones
    decode to it; the bucket map is a linear-probing table of entries that holds all the
    live indices of [R] (all of them, once the pool is initialised).  Growth, decoding,
    the probe, and [ip_get], which finds the live index of an equal key or appends one. *)

Import StringPoolFacts Fingerprint Arena ArenaFacts InternPool Probe InternFacts.

Module InternInv.

#[local] Open Scope N_scope.

#[local] Opaque fnv_u32 fnv_u64 fnv_list hash_of.

(** The 32-bit word of an item says its key. *)
Definition encoded (p : InternPool) (k : IpKey) (data : N) : Prop :=
  match key_payload k with
  | inr d => data = d
  | inl pl => exists addr, placed (extra_arena p) data addr /\ extra_mem p !! addr = Some pl
  end.

Definition live (p : InternPool) (i : IpIndex) : Prop := ip_tag p i <> IP_TAG_REMOVED.

(** Indices below have no key of their own in the bucket map. *)
Definition FIRST_COMPOUND : N := 28.

Record inv (R : N -> Prop) (p : InternPool) (g : N -> option IpKey) : Prop := {
  iv_arena : wf (extra_arena p);
  iv_count : FIRST_COMPOUND <= items_count p < 2 ^ 32;
  iv_tbl : tbl g (buckets p);
  iv_reserved i : i < FIRST_COMPOUND ->
    items p !! N.to_nat i = reserved_items !! N.to_nat i /\ g i = None;
  iv_out i : items_count p <= i -> g i = None;
  iv_key i : FIRST_COMPOUND <= i -> i < items_count p -> exists k data,
    g i = Some k /\ key_ok k /\ compound k = true /\ norm k = k /\
    (items p !! N.to_nat i = Some (IP_TAG_REMOVED, data) \/
     items p !! N.to_nat i = Some (tag_for_key k, data) /\ encoded p k data);
  iv_held i k : g i = Some k -> live p i -> R i -> held (buckets p) (entry i k);
  iv_reg e : held (buckets p) e -> R (bucket_idx e);
  iv_nodup i j k : g i = Some k -> g j = Some k -> live p i -> live p j -> i = j;
  iv_used : N.of_nat (load_of (buckets p)) = bucket_used p;
  iv_load : bucket_used p * 4 <= bucket_count p * 3
}.

Definition everything (_ : N) : Prop := True.

(** ** Reading *)

Section Reading.
Context (R : N -> Prop) (p : InternPool) (g : N -> option IpKey) (I : inv R p g).

Lemma compound_range i k : g i = Some k -> FIRST_COMPOUND <= i < items_count p.
Proof.
  intros Hg. destruct (N.lt_ge_cases i FIRST_COMPOUND) as [H|H].
  { apply (iv_reserved R p g I) in H as [_ H]. congruence. }
  destruct (N.lt_ge_cases i (items_count p)) as [H'|H']; [done|].
  apply (iv_out R p g I) in H'. congruence.
Qed.

Lemma compound_fits i k : g i = Some k -> i + 1 < 2 ^ 32.
Proof. intros H%compound_range. pose proof (iv_count R p g I). lia. Qed.

Lemma compound_key i k : g i = Some k -> key_ok k /\ compound k = true /\ norm k = k.
Proof.
  intros Hg. pose proof (compound_range i k Hg) as [H1 H2].
  destruct (iv_key R p g I i H1 H2) as (k' & data & Hg' & H). rewrite Hg in Hg'.
  injection Hg' as <-. by destruct H as (? & ? & ? & _).
Qed.

Lemma live_item i k : g i = Some k -> live p i -> exists data,
  items p !! N.to_nat i = Some (tag_for_key k, data) /\ encoded p k data.
Proof.
  intros Hg Hl. pose proof (compound_range i k Hg) as [H1 H2].
  destruct (iv_key R p g I i H1 H2) as (k' & data & Hg' & _ & _ & _ & [H|H]);
    rewrite Hg in Hg'; injection Hg' as <-.
  - exfalso. apply Hl. unfold ip_tag. by rewrite H.
  - by exists data.
Qed.

Lemma payload_at_placed data addr pl : placed (extra_arena p) data addr ->
  extra_mem p !! addr = Some pl -> payload_at p data = Ret pl.
Proof.
  intros Hp Hm. unfold payload_at.
  rewrite (proj2 (proj1 (arena_get_ptr_ok _ data (iv_arena R p g I)) addr) Hp). by rewrite Hm.
Qed.

(** A live compound index decodes to its key. *)
Lemma decode i k : g i = Some k -> live p i -> ip_key_internal p i = Ret k.
Proof.
  intros Hg Hl. destruct (compound_key i k Hg) as (Hok & Hc & Hn).
  destruct (live_item i k Hg Hl) as (data & Hi & He). unfold ip_key_internal. rewrite Hi.
  assert (Ht : forall l : list N, N.of_nat (length l) < 2 ^ 32 ->
    take (N.to_nat (u32 (N.of_nat (length l)))) l = l).
  { intros l Hlen. rewrite u32_small, Nat2N.id by done. apply firstn_all. }
  unfold encoded in He. destruct k; try done; simpl in *;
    try (subst data; by try destruct is_const);
    destruct He as (addr & Hp & Hm); rewrite (payload_at_placed _ _ _ Hp Hm); simpl; try done.
  - rewrite Ht by done. by injection Hn as ->.
  - rewrite Ht by apply Hok. by injection Hn as ->.
  - by rewrite Ht.
Qed.

End Reading.

(** ** Growth *)

Lemma held_entry R p g e : inv R p g -> held (buckets p) e ->
  exists idx k, g idx = Some k /\ e = entry idx k /\ idx + 1 < 2 ^ 32.
Proof.
  intros I He. destruct (tb_entry _ _ (iv_tbl R p g I) e He) as (idx & k & Hg & Hi & ->).
  by exists idx, k.
Qed.

(** The entries of a table, each once. *)
Definition entries_of (g : N -> option IpKey) (l : list N) : Prop :=
  (forall e, e ∈ l -> e <> 0 -> exists idx k, g idx = Some k /\ idx + 1 < 2 ^ 32 /\ e = entry idx k) /\
  (forall (i j : nat) e, l !! i = Some e -> l !! j = Some e -> e <> 0 -> i = j).

Lemma entries_cons g e l : entries_of g (e :: l) -> entries_of g l /\
  (e <> 0 -> e ∉ l).
Proof.
  intros [H1 H2]. split; [split|].
  - intros e' He'. apply H1. by right.
  - intros i j e' Hi Hj Hne. assert (S i = S j) by by apply (H2 (S i) (S j) e'). lia.
  - intros Hne [i Hi]%list_elem_of_lookup. assert (0%nat = S i) by by apply (H2 0%nat (S i) e). lia.
Qed.

Lemma held_lookup bs e : held bs e <-> e ∈ bs /\ e <> 0.
Proof.
  unfold held, holds, size_of. split.
  - intros (j & Hj & Hk). apply bucket_table_some in Hk as [<- Hne]. split; [|done].
    unfold bucket_at. rewrite list_elem_of_In. apply nth_In. lia.
  - intros [Hin Hne]. rewrite list_elem_of_In in Hin. apply (In_nth _ _ 0) in Hin as (n & Hn & He).
    exists (N.of_nat n). split; [lia|]. apply bucket_table_some. split; [|done].
    unfold bucket_at. by rewrite Nat2N.id.
Qed.

Lemma tbl_entries g bs : tbl g bs -> entries_of g bs.
Proof.
  intros [Hn He Hc Hu]. split.
  - intros e Hin Hne. apply He. by apply held_lookup.
  - intros i j e Hi Hj Hne. pose proof (lookup_lt_Some _ _ _ Hi). pose proof (lookup_lt_Some _ _ _ Hj).
    apply Nat2N.inj. apply (Hu _ _ e); unfold size_of; [lia|lia|..];
      apply bucket_table_some; unfold bucket_at; rewrite Nat2N.id, nth_lookup;
      [by rewrite Hi|by rewrite Hj].
Qed.

(** Live indices that the table at hand may hold decode. *)
Definition decodes (p : InternPool) (g : N -> option IpKey) : Prop :=
  forall i k, g i = Some k -> live p i -> ip_key_internal p i = Ret k /\ key_ok k.

Lemma rehash_buckets_ok p g : decodes p g -> forall old bs used, entries_of g old -> tbl g bs ->
  (forall e, e ∈ old -> e <> 0 -> ~ held bs e) ->
  N.of_nat (load_of bs + length old) < size_of bs -> N.of_nat (load_of bs) = used ->
  exists bs' used', rehash_buckets p old bs used = Ret (bs', used') /\ tbl g bs' /\
    size_of bs' = size_of bs /\ N.of_nat (load_of bs') = used' /\
    used' <= used + N.of_nat (length old) /\
    forall e, held bs' e <-> held bs e \/ (e ∈ old /\ e <> 0 /\ live p (bucket_idx e)).
Proof.
  intros D. induction old as [|e old IH]; intros bs used HE Hb Hno Hl Hu; cbn [rehash_buckets].
  { exists bs, used. repeat (split; [done|]). split; [simpl; lia|]. intros e.
    split; [by left|]. intros [?|[He _]]; [done|]. by apply elem_of_nil in He. }
  destruct (entries_cons _ _ _ HE) as [HE' Hnin]. rewrite length_cons in Hl.
  assert (Hskip : (e = 0 \/ ~ live p (bucket_idx e)) ->
    exists bs' used', rehash_buckets p old bs used = Ret (bs', used') /\ tbl g bs' /\
      size_of bs' = size_of bs /\ N.of_nat (load_of bs') = used' /\
      used' <= used + N.of_nat (length (e :: old)) /\
      forall e', held bs' e' <-> held bs e' \/ (e' ∈ e :: old /\ e' <> 0 /\ live p (bucket_idx e'))).
  { intros Hs. destruct (IH bs used) as (bs' & used' & -> & Hb' & Hs' & Hl' & Hle & Hh'); try done.
    - intros e' He'. apply Hno. by right.
    - lia.
    - exists bs', used'. repeat (split; [done|]). split; [rewrite length_cons; lia|].
      intros e'. rewrite Hh', elem_of_cons. split; [tauto|].
      intros [?|([->|?] & ? & ?)]; [by left| |by right]. by destruct Hs. }
  destruct (N.eqb_spec e 0) as [He0|He0]; [apply Hskip; by left|].
  case_bool_decide as Hrem; [apply Hskip; right; unfold live; tauto|].
  destruct (proj1 HE e (list_elem_of_here _ _) He0) as (idx & k & Hg & Hi & ->).
  assert (Eb : bucket_idx (entry idx k) = idx) by by apply bucket_idx_pack.
  rewrite Eb in Hrem |- *.
  destruct (D idx k Hg Hrem) as [-> Hok]. cbn [obind]. rewrite (hash_key_ok k Hok). cbn [obind].
  destruct (insert_bucket_ok g bs idx k Hb) as (bs1 & -> & Hb1 & Hs1 & Hl1 & Hh1); try done; [lia|..].
  { apply Hno; [by left|done]. }
  cbn [obind].
  destruct (IH bs1 (used + 1)) as (bs' & used' & -> & Hb' & Hs' & Hl' & Hle & Hh'); try done.
  - intros e' He' Hne. rewrite Hh1. intros [->|Hh]; [by apply Hnin|].
    by apply (Hno e'); [right|..].
  - rewrite Hs1. lia.
  - lia.
  - exists bs', used'. split; [done|]. split; [done|]. split; [by rewrite Hs', Hs1|].
    split; [done|]. split; [rewrite length_cons; lia|].
    intros e'. rewrite Hh', Hh1, elem_of_cons. split.
    + intros [[->|?]|(? & ? & ?)]; [right|by left|right; tauto]. split; [by left|].
      split; [done|]. by rewrite Eb.
    + intros [?|([->|?] & ? & ?)]; [left; by right|left; by left|right; tauto].
Qed.

Lemma pow2_double n : slots_pow2 n -> slots_pow2 (n * 2).
Proof.
  intros (e & He & ->). exists (e + 1). split; [lia|]. by rewrite N.pow_add_r.
Qed.

(** Growing before an insertion: the same pool with room in its table. *)
Lemma maybe_grow_ok R p g : inv R p g ->
  exists p', maybe_grow p = Ret p' /\ inv R p' g /\ items p' = items p /\
    extra_arena p' = extra_arena p /\ extra_mem p' = extra_mem p /\
    next_row_var_id p' = next_row_var_id p /\ next_type_var_id p' = next_type_var_id p /\
    (bucket_used p' + 1) * 4 <= bucket_count p' * 3.
Proof.
  intros I. unfold maybe_grow. destruct (N.ltb_spec (bucket_count p * 3) ((bucket_used p + 1) * 4)) as [Hg|Hg].
  2:{ exists p. repeat (split; [done|]). lia. }
  pose proof (tb_pow2 _ _ (iv_tbl R p g I)) as Hn. pose proof (slots_pow2_ge _ Hn) as Hge.
  unfold buckets_grow.
  assert (Hlen : (length (buckets p) * 2)%nat = N.to_nat (size_of (buckets p) * 2)) by (unfold size_of; lia).
  rewrite Hlen. destruct (tbl_empty g (size_of (buckets p) * 2) (pow2_double _ Hn)) as (Hb0 & Hl0 & Hh0).
  set (bs0 := replicate _ 0) in *.
  assert (Hs0 : size_of bs0 = size_of (buckets p) * 2)
    by (unfold size_of at 1, bs0; rewrite length_replicate; lia).
  destruct (rehash_buckets_ok p g) with (old := buckets p) (bs := bs0) (used := 0)
    as (bs' & used' & -> & Hb' & Hs' & Hl' & Hle & Hh').
  - intros i k Hgi Hli. split; [by eapply decode|by eapply compound_key].
  - by apply tbl_entries, (iv_tbl R p g I).
  - done.
  - intros e _ _. apply Hh0.
  - rewrite Hl0, Hs0. unfold size_of in *. lia.
  - by rewrite Hl0.
  - cbn [obind]. eexists. split; [done|].
    assert (Hheld : forall e, held bs' e <-> held (buckets p) e /\ live p (bucket_idx e)).
    { intros e. rewrite Hh', (held_lookup (buckets p)). split; [|tauto].
      intros [H|H]; [by apply Hh0 in H|tauto]. }
    split; [|repeat (split; [done|])].
    + pose proof I as [I1 I2 I3 I4 I5 I6 I7 I8 I9 I10 I11]. split; try done.
      * intros i k Hgi Hli HR. simpl. apply Hheld. split; [by apply I7|].
        unfold entry. rewrite bucket_idx_pack; [done|]. by apply (compound_fits R p g I i k).
      * intros e [He _]%Hheld. by apply I8.
      * simpl. unfold bucket_count. simpl. fold (size_of bs'). rewrite Hs', Hs0. unfold size_of in *. lia.
    + simpl. unfold bucket_count. simpl. fold (size_of bs'). rewrite Hs', Hs0. unfold size_of in *. lia.
Qed.

End InternInv.
