(* ===== verification/InternGet.v ===== *)
(** * Interning: the probe, encoding, [ip_get], [ip_remove] and initialisation

    Each operation of the pool from the invariant [InternInv.inv]: what it answers, and the
    invariant and the ghost keys after it. *)

From stdpp Require Import gmap.
From S2P Require Import Prelude StringPool StringPoolTheorems Fingerprint Arena ArenaFacts InternPool Probe InternFacts.
Import StringPool StringPoolFacts Fingerprint Arena ArenaFacts InternPool Probe InternFacts InternInv.

Module InternGet.

#[local] Open Scope N_scope.

#[local] Opaque fnv_u32 fnv_u64 fnv_list hash_of.

(** ** The probe *)

(** What stops a probe for [k]. *)
Definition matches (p : InternPool) (g : N -> option IpKey) (k : IpKey) (e : N) : bool :=
  match g (bucket_idx e) with
  | Some k' =>
      (bucket_hash e =? N.shiftr (hash_of k) 32) &&
      negb (bool_decide (ip_tag p (bucket_idx e) = IP_TAG_REMOVED)) && ip_key_eql k' k
  | None => false
  end.

Section Lookup.
Context (R : N -> Prop) (p : InternPool) (g : N -> option IpKey) (I : inv R p g).
Context (k : IpKey).

#[local] Abbreviation n := (size_of (buckets p)).
#[local] Abbreviation T := (bucket_table (buckets p)).

Lemma matches_at idx k' : g idx = Some k' -> idx + 1 < 2 ^ 32 ->
  matches p g k (entry idx k') = (bucket_hash (entry idx k') =? N.shiftr (hash_of k) 32) &&
    negb (bool_decide (ip_tag p idx = IP_TAG_REMOVED)) && ip_key_eql k' k.
Proof.
  intros Hg Hi. unfold matches. replace (bucket_idx (entry idx k')) with idx; [by rewrite Hg|].
  symmetry. by apply bucket_idx_pack.
Qed.

Lemma probe_key_probe f b : b < n ->
  probe_key f p k (N.shiftr (hash_of k) 32) (n - 1) b =
    match probe n f T (matches p g k) b with
    | None => OutOfFuel
    | Some (i, None) => Ret (inr i)
    | Some (_, Some e) => Ret (inl (bucket_idx e))
    end.
Proof.
  pose proof (tb_pow2 _ _ (iv_tbl R p g I)) as Hn. pose proof (slots_pow2_ge _ Hn) as Hge.
  revert b. induction f as [|f IH]; intros b Hb; [done|]. cbn [probe_key probe]. unfold bucket_table at 1.
  destruct (N.eqb_spec (bucket_at (buckets p) b) 0) as [E|E]; [done|].
  rewrite next_mask by done. rewrite IH by (apply step_lt; lia).
  destruct (held_entry R p g (bucket_at (buckets p) b) I) as (idx & k' & Hg & -> & Hi).
  { exists b. split; [done|]. by apply bucket_table_some. }
  assert (Ei : bucket_idx (entry idx k') = idx) by by apply bucket_idx_pack.
  rewrite (matches_at idx k') by done. rewrite Ei.
  destruct (bucket_hash _ =? _); [|done]. cbn [andb].
  case_bool_decide as Hl; [done|]. cbn [negb andb]. rewrite (decode R p g I idx k' Hg Hl). cbn [obind].
  destruct (ip_key_eql k' k); [by rewrite Ei|done].
Qed.

Lemma matches_entry i : g i = Some (norm k) -> live p i -> i + 1 < 2 ^ 32 ->
  matches p g k (entry i (norm k)) = true.
Proof.
  intros Hg Hl Hi. rewrite matches_at by done. unfold entry. rewrite bucket_hash_pack by done.
  rewrite hash_of_norm, N.eqb_refl. rewrite bool_decide_eq_false_2 by done.
  apply ip_key_eql_norm, norm_idem.
Qed.

End Lookup.

(** The probe of an initialised pool: the live index of the key, or an empty bucket when
    there is none. *)
Lemma probe_key_ok p g k : inv everything p g -> bucket_used p * 4 < bucket_count p * 4 ->
  exists r, probe_key (length (buckets p)) p k (N.shiftr (hash_of k) 32) (bucket_count p - 1)
      (N.land (hash_of k) (bucket_count p - 1)) = Ret r /\
    match r with
    | inl i => g i = Some (norm k) /\ live p i
    | inr b => (forall i, g i = Some (norm k) -> ~ live p i) /\
        exists d, stopped (size_of (buckets p)) (bucket_table (buckets p)) (matches p g k)
          (N.land (hash_of k) (size_of (buckets p) - 1)) d None /\
          b = step (size_of (buckets p)) (N.land (hash_of k) (size_of (buckets p) - 1)) d
    end.
Proof.
  intros I Hroom. pose proof (iv_tbl _ p g I) as Ht. pose proof (tb_pow2 _ _ Ht) as Hn.
  pose proof (slots_pow2_ge _ Hn) as Hge. change (bucket_count p) with (size_of (buckets p)) in *.
  rewrite (probe_key_probe _ p g I) by by apply land_mask_lt.
  destruct (probe_stops (size_of (buckets p)) ltac:(lia) (bucket_table (buckets p)) (matches p g k)
              (N.land (hash_of k) (size_of (buckets p) - 1))) as (d & r & Hp & Hst).
  { by apply land_mask_lt. }
  { apply (tbl_room g); [done|]. rewrite (iv_used _ p g I). lia. }
  unfold size_of in Hp at 2. rewrite Nat2N.id in Hp. rewrite Hp. destruct r as [e|].
  - eexists. split; [done|]. destruct Hst as (Hd & He & Hm & _). unfold matches in Hm.
    destruct (g (bucket_idx e)) as [k'|] eqn:Hg; [|done].
    apply andb_true_iff in Hm as [[_ Hl]%andb_true_iff Heq].
    apply negb_true_iff, bool_decide_eq_false in Hl. apply ip_key_eql_norm in Heq.
    destruct (compound_key _ p g I _ _ Hg) as (_ & _ & Hk). split; [|done]. congruence.
  - eexists. split; [done|]. split; [|by exists d]. intros i Hg Hl.
    pose proof (iv_held _ p g I i _ Hg Hl Logic.I) as Hh.
    pose proof (compound_fits _ p g I i _ Hg) as Hi.
    revert Hh. unfold held. apply (stopped_absent (size_of (buckets p))) with (home := bucket_home g (size_of (buckets p)))
      (test := matches p g k) (s := N.land (hash_of k) (size_of (buckets p) - 1)) (d := d).
    + lia.
    + intros e. by apply bucket_home_lt.
    + apply Ht.
    + done.
    + by rewrite (home_entry g _ i (norm k)), hash_of_norm.
    + by apply matches_entry.
Qed.

(** ** Encoding *)

(** Nothing a pool can read through its arena changes from [p] to [p']. *)
Definition keeps_payloads (p p' : InternPool) : Prop :=
  forall data addr pl, placed (extra_arena p) data addr -> extra_mem p !! addr = Some pl ->
    placed (extra_arena p') data addr /\ extra_mem p' !! addr = Some pl.

Lemma encoded_kept p p' k data : keeps_payloads p p' -> encoded p k data -> encoded p' k data.
Proof.
  unfold encoded. intros Hk. destruct (key_payload k); [|done].
  intros (addr & Hp & Hm). exists addr. by apply Hk.
Qed.

(** What encoding [k] adds to the arena at most. *)
Definition key_cost (k : IpKey) : N :=
  match key_payload k with inl pl => payload_size pl + 8 | inr _ => 0 end.

(** [p] with another arena. *)
Definition same_but_extra (p p' : InternPool) : Prop :=
  p' = put_extra (extra_arena p') (extra_mem p') p.

Lemma encode_payload_ok pl p : wf (extra_arena p) -> 0 < payload_size pl <= 2 ^ 60 ->
  arena_total_used (extra_arena p) < 2 ^ 32 ->
  exists data p', encode_payload pl p = Ret (data, p') /\ same_but_extra p p' /\
    wf (extra_arena p') /\ keeps_payloads p p' /\
    (exists addr, placed (extra_arena p') data addr /\ extra_mem p' !! addr = Some pl) /\
    arena_total_used (extra_arena p') <= arena_total_used (extra_arena p) + (payload_size pl + 8).
Proof.
  intros W Hsz Ht. unfold encode_payload. rewrite u32_small by done.
  destruct (arena_alloc_spec (extra_arena p) (payload_size pl) W)
    as (addr & a & n & -> & W' & Hn & _ & Ht' & Hget & _ & Hold & _); [lia|].
  cbn [obind]. apply (arena_get_ptr_ok a _ W') in Hget.
  eexists _, _. split; [done|]. split; [done|]. split; [done|]. simpl. split; [|split; [|lia]].
  - intros data q pl' Hpl Hm. simpl. split; [by apply Hold|]. rewrite lookup_insert_ne; [done|].
    intros <-. pose proof (placed_lt _ _ _ W Hpl).
    pose proof (placed_inj a _ _ _ W' Hget (Hold _ _ Hpl)). lia.
  - exists addr. by rewrite lookup_insert_eq.
Qed.

Lemma payload_size_ok k pl : key_ok k -> key_payload k = inl pl -> 0 < payload_size pl <= 2 ^ 60.
Proof. destruct k; simpl; try done; intros H [= <-]; simpl; lia. Qed.

Lemma encode_ok k p : wf (extra_arena p) -> key_ok k ->
  arena_total_used (extra_arena p) < 2 ^ 32 ->
  exists data p', encode_items_data k p = Ret (data, p') /\ same_but_extra p p' /\
    wf (extra_arena p') /\ keeps_payloads p p' /\ encoded p' (norm k) data /\
    arena_total_used (extra_arena p') <= arena_total_used (extra_arena p) + key_cost k.
Proof.
  intros W Hok Ht. unfold encode_items_data, encoded, key_cost. rewrite norm_payload.
  destruct (key_payload k) as [pl|data] eqn:E.
  - destruct (encode_payload_ok pl p W) as (data & p' & H); [by eapply payload_size_ok|done|].
    exists data, p'. tauto.
  - exists data, p. split; [done|]. split; [by destruct p|]. split; [done|]. split; [done|].
    split; [done|]. lia.
Qed.

(** ** [ip_get] *)

(** A table does not look at the key of an index it does not hold. *)
Lemma tbl_extend g i k bs : g i = None -> tbl g bs -> tbl (fun j => if j =? i then Some k else g j) bs.
Proof.
  intros Hi [Hn He Hc Hu]. split; try done.
  - intros e Hh. destruct (He e Hh) as (idx & k' & Hg & Hr). exists idx, k'.
    destruct (N.eqb_spec idx i) as [->|]; [congruence|done].
  - intros j e d Hj Ht. assert (Hh : holds (size_of bs) (bucket_table bs) e) by by exists j.
    destruct (He e Hh) as (idx & k' & Hg & Hr & ->).
    assert (Heq : bucket_home (fun j => if j =? i then Some k else g j) (size_of bs) (entry idx k') =
      bucket_home g (size_of bs) (entry idx k')).
    { unfold bucket_home, entry. rewrite (bucket_idx_pack _ idx) by done.
      destruct (N.eqb_spec idx i) as [->|]; [congruence|done]. }
    rewrite Heq. by apply Hc.
Qed.

Lemma live_out R p g i : inv R p g -> items_count p <= i -> ~ live p i.
Proof.
  intros I Hi. unfold live, ip_tag, items_count in *. rewrite lookup_ge_None_2 by lia. tauto.
Qed.

Definition extended (g : N -> option IpKey) (i : N) (k : IpKey) : N -> option IpKey :=
  fun j => if j =? i then Some k else g j.

(** Appending the item and the bucket of a new key. *)
Lemma append_ok p p1 g k d data :
  inv everything p g -> key_ok k -> compound k = true -> items_count p + 1 < 2 ^ 32 ->
  (bucket_used p + 1) * 4 <= bucket_count p * 3 ->
  (forall i, g i = Some (norm k) -> ~ live p i) ->
  stopped (size_of (buckets p)) (bucket_table (buckets p)) (matches p g k)
    (N.land (hash_of k) (size_of (buckets p) - 1)) d None ->
  same_but_extra p p1 -> wf (extra_arena p1) -> keeps_payloads p p1 -> encoded p1 (norm k) data ->
  let i := items_count p in
  let b := step (size_of (buckets p)) (N.land (hash_of k) (size_of (buckets p) - 1)) d in
  let p2 := put_buckets (<[N.to_nat b := pack_bucket (N.shiftr (hash_of k) 32) i]> (buckets p1))
              (bucket_used p1 + 1) (put_items (items p1 ++ [(tag_for_key k, data)]) p1) in
  inv everything p2 (extended g i (norm k)) /\ live p2 i /\
  (forall j, j <> i -> (live p2 j <-> live p j)) /\ items_count p2 = i + 1.
Proof.
  intros I Hok Hc Hi Hload Hno Hst Hsame W Hkeep Henc i b p2.
  assert (Hbs : buckets p1 = buckets p /\ items p1 = items p /\ bucket_used p1 = bucket_used p)
    by by rewrite Hsame.
  destruct Hbs as (Ebs & Eit & Eus).
  assert (Hgi : g i = None) by by apply (iv_out _ p g I).
  assert (Hcount : items_count p2 = i + 1).
  { unfold items_count, p2. simpl. rewrite Eit, length_app. simpl. unfold i, items_count. lia. }
  assert (Hold : forall j, j < i -> items p2 !! N.to_nat j = items p !! N.to_nat j).
  { intros j Hj. unfold p2. simpl. rewrite Eit. apply lookup_app_l. unfold i, items_count in Hj. lia. }
  assert (Hnew : items p2 !! N.to_nat i = Some (tag_for_key k, data)).
  { unfold p2. simpl. rewrite Eit. unfold i, items_count. rewrite Nat2N.id.
    by rewrite lookup_app_r, Nat.sub_diag. }
  assert (Hlive : forall j, j <> i -> (live p2 j <-> live p j)).
  { intros j Hj. destruct (N.lt_ge_cases j i) as [Hlt|Hge].
    - unfold live, ip_tag. by rewrite Hold.
    - split; [|by intros ?%(live_out _ p g j I)]. intros Hl. exfalso. apply Hl. unfold ip_tag.
      rewrite lookup_ge_None_2; [done|]. unfold items_count in Hcount. lia. }
  assert (Hli : live p2 i).
  { unfold live, ip_tag. rewrite Hnew. by destruct k as [| |? []|? []|? []|? | | | | | | | | | | | | | | | | ]. }
  split; [|done].
  assert (Hge : FIRST_COMPOUND <= i) by apply (iv_count _ p g I).
  destruct (tbl_insert (extended g i (norm k)) (buckets p) (matches p g k) i (norm k) d)
    as (Hb' & Hs' & Hl' & Hh').
  { apply tbl_extend; [done|apply (iv_tbl _ p g I)]. }
  { unfold extended. by rewrite N.eqb_refl. }
  { done. }
  { by rewrite hash_of_norm. }
  { intros He. destruct (held_entry _ p g _ I He) as (idx & k' & Hg & E & Hidx).
    apply entry_inj in E; [|done..]. congruence. }
  assert (Eb : buckets p2 = <[N.to_nat (step (size_of (buckets p))
      (N.land (hash_of (norm k)) (size_of (buckets p) - 1)) d) := entry i (norm k)]> (buckets p)).
  { unfold p2. simpl. rewrite Ebs. unfold b, entry. by rewrite hash_of_norm. }
  assert (Ex : extended g i (norm k) i = Some (norm k)) by (unfold extended; by rewrite N.eqb_refl).
  assert (Ene : forall j, j <> i -> extended g i (norm k) j = g j).
  { intros j Hj. unfold extended. by rewrite (proj2 (N.eqb_neq _ _) Hj). }
  split.
  - done.
  - lia.
  - by rewrite Eb.
  - intros j Hj. rewrite Hold, Ene by lia. by apply (iv_reserved _ p g I).
  - intros j Hj. rewrite Ene by lia. apply (iv_out _ p g I). lia.
  - intros j Hj1 Hj2. destruct (N.eq_dec j i) as [->|Hne].
    + exists (norm k), data. rewrite Hnew, norm_tag. split; [done|]. split; [by apply norm_ok|].
      split; [by rewrite norm_compound|]. split; [apply norm_idem|]. right. by split.
    + rewrite Hold, Ene by lia.
      destruct (iv_key _ p g I j Hj1) as (k' & data' & Hg & Hk1 & Hk2 & Hk3 & Hd); [lia|].
      exists k', data'. split; [done|]. split; [done|]. split; [done|]. split; [done|].
      destruct Hd as [Hd|[Hd He]]; [by left|right]. split; [done|].
      by apply (encoded_kept p p1 k' data' Hkeep).
  - intros j k' Hg Hl _. rewrite Eb. apply Hh'. destruct (N.eq_dec j i) as [->|Hne].
    + left. congruence.
    + right. apply (iv_held _ p g I); [by rewrite <- Ene|by apply Hlive|done].
  - done.
  - intros j1 j2 k' Hg1 Hg2 Hl1 Hl2.
    destruct (N.eq_dec j1 i) as [->|H1]; destruct (N.eq_dec j2 i) as [->|H2]; [done|..].
    + exfalso. apply (Hno j2); [rewrite <- (Ene j2 H2); congruence|by apply Hlive].
    + exfalso. apply (Hno j1); [rewrite <- (Ene j1 H1); congruence|by apply Hlive].
    + rewrite Ene in Hg1, Hg2 by done. apply (iv_nodup _ p g I j1 j2 k'); by try apply Hlive.
  - rewrite Eb. unfold p2. simpl. rewrite Hl', Eus, <- (iv_used _ p g I). lia.
  - unfold bucket_count. fold (size_of (buckets p2)). rewrite Eb, Hs'.
    unfold p2. simpl. rewrite Eus. unfold bucket_count in Hload. unfold size_of. lia.
Qed.

(** The two outcomes of interning a compound key: its live index, or a new one. *)
Lemma ip_get_compound_ok p g k : inv everything p g -> key_ok k -> compound k = true ->
  items_count p + 1 < 2 ^ 32 -> arena_total_used (extra_arena p) < 2 ^ 32 ->
  exists i p', ip_get_compound k p = Ret (i, p') /\
    next_row_var_id p' = next_row_var_id p /\ next_type_var_id p' = next_type_var_id p /\
    arena_total_used (extra_arena p') <= arena_total_used (extra_arena p) + key_cost k /\
    ((g i = Some (norm k) /\ live p i /\ items p' = items p /\ inv everything p' g) \/
     ((forall j, g j = Some (norm k) -> ~ live p j) /\ i = items_count p /\
      inv everything p' (extended g i (norm k)) /\ live p' i /\
      (forall j, j <> i -> (live p' j <-> live p j)) /\ items_count p' = i + 1)).
Proof.
  intros I Hok Hc Hi Ha. unfold ip_get_compound. rewrite (hash_key_ok k Hok). cbn [obind].
  destruct (maybe_grow_ok _ p g I) as (p1 & -> & I1 & Eit & Ear & Emem & Er & Et & Hload).
  cbn [obind].
  assert (Hcount : items_count p1 = items_count p) by (unfold items_count; by rewrite Eit).
  assert (Hlive : forall j, live p1 j <-> live p j) by (intros; unfold live, ip_tag; by rewrite Eit).
  destruct (probe_key_ok p1 g k I1) as (r & -> & Hr); [lia|]. cbn [obind].
  destruct r as [i|b].
  - exists i, p1. split; [done|]. split; [done|]. split; [done|]. rewrite Ear. split; [lia|].
    left. rewrite <- Hlive. tauto.
  - destruct Hr as (Hno & d & Hst & ->).
    destruct (encode_ok k p1) as (data & p2 & -> & Hsame & W & Hkeep & Henc & Hcost);
      [apply (iv_arena _ p1 g I1)|done|by rewrite Ear|]. cbn [obind].
    assert (Hrest : items_count p2 = items_count p /\ next_row_var_id p2 = next_row_var_id p /\
      next_type_var_id p2 = next_type_var_id p).
    { rewrite Hsame. unfold items_count. simpl. by rewrite Eit, Er, Et. }
    destruct Hrest as (Ec2 & Er2 & Et2). unfold append_item. rewrite Ec2, u32_small by lia.
    eexists _, _. split; [done|]. split; [done|]. split; [done|]. split; [simpl; by rewrite <- Ear|].
    right. split; [intros j; rewrite <- Hlive; apply Hno|]. split; [done|].
    destruct (append_ok p1 p2 g k d data) as (I2 & Hl2 & Hlv & Hc2); try done; [lia|].
    rewrite Hcount in *. split; [done|]. split; [done|]. split; [|done].
    intros j Hj. rewrite <- Hlive. by apply Hlv.
Qed.

(** ** [ip_remove] *)

Lemma ip_remove_ok p g i : inv everything p g -> FIRST_COMPOUND <= i ->
  let p' := ip_remove i p in
  inv everything p' g /\ items_count p' = items_count p /\ extra_arena p' = extra_arena p /\
  next_row_var_id p' = next_row_var_id p /\ next_type_var_id p' = next_type_var_id p /\
  ~ live p' i /\ forall j, j <> i -> (live p' j <-> live p j).
Proof.
  intros I Hi p'. unfold p', ip_remove. destruct (items p !! N.to_nat i) as [[t data]|] eqn:E.
  2:{ repeat (split; [done|]). split; [|done]. apply (live_out _ p g i I).
      apply lookup_ge_None in E. unfold items_count. lia. }
  set (p1 := put_items _ p). pose proof (lookup_lt_Some _ _ _ E) as Hlt.
  assert (Hc : items_count p1 = items_count p).
  { unfold items_count, p1. simpl. by rewrite length_insert. }
  assert (Hne : forall j, j <> i -> items p1 !! N.to_nat j = items p !! N.to_nat j).
  { intros j Hj. unfold p1. simpl. apply list_lookup_insert_ne. lia. }
  assert (Heq : items p1 !! N.to_nat i = Some (IP_TAG_REMOVED, data)).
  { unfold p1. simpl. by rewrite list_lookup_insert_eq. }
  assert (Hlive : forall j, j <> i -> (live p1 j <-> live p j)).
  { intros j Hj. unfold live, ip_tag. by rewrite Hne. }
  assert (Hdead : ~ live p1 i) by (unfold live, ip_tag; rewrite Heq; tauto).
  assert (Hback : forall j, live p1 j -> live p j).
  { intros j Hl. destruct (N.eq_dec j i) as [->|]; [done|by apply Hlive]. }
  split; [|by repeat (split; [done|])].
  pose proof I as [I1 I2 I3 I4 I5 I6 I7 I8 I9 I10 I11]. split; try done; rewrite ?Hc; try done.
  - intros j Hj. rewrite Hne by lia. by apply I4.
  - intros j Hj1 Hj2. destruct (I6 j Hj1 Hj2) as (k & data' & Hg & H1 & H2 & H3 & Hd).
    destruct (N.eq_dec j i) as [->|Hji].
    + exists k, data. repeat (split; [done|]). by left.
    + exists k, data'. repeat (split; [done|]). by rewrite Hne.
  - intros j k Hg Hl Hr. by apply I7; [|apply Hback|].
  - intros j1 j2 k Hg1 Hg2 Hl1 Hl2. by apply (I9 j1 j2 k); try apply Hback.
Qed.

End InternGet.
