(* ===== verification/InternTheorems.v ===== *)
(** * The intern pool refines a list of keys

    [Spec] is what the pool promises: the keys of the indices from [FIRST_COMPOUND] on, in
    the order they were appended, [None] where one was removed.  Interning finds the index
    of an equal key or appends the key; an index reads back as its key.  [intern_refines]
    shows that any sequence of operations from [ip_init_with] answers what the list does. *)

From stdpp Require Import gmap.
From S2P Require Import Prelude StringPool StringPoolTheorems Fingerprint Arena ArenaFacts InternPool InternFacts InternGet.
Import StringPool StringPoolFacts Fingerprint Arena ArenaFacts InternPool InternFacts InternInv InternGet.

Module InternTheorems.

#[local] Open Scope N_scope.

(** ** Initialisation *)

(** The compound keys every pool starts with, from index 28. *)
Definition reserved_keys : list IpKey :=
  [IPK_PTR_TYPE IP_INDEX_U8_TYPE true; IPK_PTR_TYPE IP_INDEX_VOID_TYPE false;
   IPK_PTR_TYPE IP_INDEX_VOID_TYPE true; IPK_SLICE_TYPE IP_INDEX_U8_TYPE true;
   IPK_EFFECT_ROW [] IP_EMPTY_EFFECT_ROW].

Definition initial_keys (i : N) : option IpKey :=
  if i <? FIRST_COMPOUND then None else reserved_keys !! N.to_nat (i - FIRST_COMPOUND).

#[local] Opaque fnv_u32 fnv_u64 fnv_list hash_of.

(** Registering an index that no bucket names. *)
Lemma register_bucket_ok R p g i k : inv R p g -> g i = Some k -> live p i -> ~ R i ->
  exists p', register_bucket i p = Ret p' /\ inv (fun j => R j \/ j = i) p' g /\
    items p' = items p /\ extra_arena p' = extra_arena p /\
    next_row_var_id p' = next_row_var_id p /\ next_type_var_id p' = next_type_var_id p.
Proof.
  intros I Hg Hl HR. unfold register_bucket. rewrite (decode R p g I i k Hg Hl). cbn [obind].
  destruct (compound_key R p g I i k Hg) as (Hok & _). rewrite (hash_key_ok k Hok). cbn [obind].
  destruct (maybe_grow_ok R p g I) as (p1 & -> & I1 & Eit & Ear & Emem & Er & Et & Hload).
  cbn [obind]. pose proof (compound_fits R p g I i k Hg) as Hi.
  assert (Hgr : bucket_count p1 = size_of (buckets p1)) by done.
  destruct (insert_bucket_ok g (buckets p1) i k) as (bs & -> & Hb & Hs & Hld & Hh).
  - apply (iv_tbl R p1 g I1).
  - rewrite (iv_used R p1 g I1). lia.
  - done.
  - done.
  - intros He%(iv_reg R p1 g I1). apply HR. revert He. unfold entry. by rewrite bucket_idx_pack.
  - cbn [obind]. eexists. split; [done|]. split; [|done].
    assert (Hlive : forall j, live (put_buckets bs (bucket_used p1 + 1) p1) j <-> live p1 j) by done.
    pose proof I1 as [I2 I3 I4 I5 I6 I7 I8 I9 I10 I11 I12]. split; try done.
    + intros j k' Hgj Hlj [Hr| ->]; simpl; apply Hh; [right; by apply I8|left]. congruence.
    + simpl. intros e [->|He]%Hh; [right|left; by apply I9]. unfold entry. by rewrite bucket_idx_pack.
    + simpl. rewrite Hld, <- I11. lia.
    + unfold bucket_count in Hload |- *. simpl. fold (size_of bs). rewrite Hs. unfold size_of. lia.
Qed.

Lemma initial_keys_bound i k : initial_keys i = Some k ->
  FIRST_COMPOUND <= i < IP_RESERVED_COUNT.
Proof.
  unfold initial_keys. destruct (N.ltb_spec i FIRST_COMPOUND); [done|].
  intros Hl%lookup_lt_Some. unfold reserved_keys, IP_RESERVED_COUNT, FIRST_COMPOUND in *
. change (length _) with 5%nat in Hl. lia.
Qed.

(** The five compound indices. *)
Lemma below_5 (P : N -> Prop) : P 28 -> P 29 -> P 30 -> P 31 -> P 32 ->
  forall i, FIRST_COMPOUND <= i < IP_RESERVED_COUNT -> P i.
Proof.
  unfold FIRST_COMPOUND, IP_RESERVED_COUNT. intros ????? i Hi.
  assert (Hc : i = 28 \/ i = 29 \/ i = 30 \/ i = 31 \/ i = 32) by lia.
  by destruct Hc as [-> | [-> | [-> | [-> | ->]]]].
Qed.

Lemma initial_inv p data : wf (extra_arena p) ->
  items p = reserved_items ++ [(IP_TAG_EFFECT_ROW, data)] ->
  encoded p (IPK_EFFECT_ROW [] IP_EMPTY_EFFECT_ROW) data ->
  (exists n, slots_pow2 n /\ buckets p = replicate (N.to_nat n) 0) -> bucket_used p = 0 ->
  inv (fun _ => False) p initial_keys /\
  forall i, initial_keys i <> None -> live p i.
Proof.
  intros W Eit He (n & Hn & Eb) Hu.
  destruct (tbl_empty initial_keys n Hn) as (Ht & Hl & Hh).
  assert (Hcount : items_count p = IP_RESERVED_COUNT) by (unfold items_count; by rewrite Eit).
  split; [split|].
  - done.
  - by rewrite Hcount.
  - by rewrite Eb.
  - intros i Hi. unfold initial_keys. rewrite (proj2 (N.ltb_lt _ _) Hi). split; [|done].
    rewrite Eit. apply lookup_app_l. unfold FIRST_COMPOUND in Hi. change (length _) with 32%nat. lia.
  - intros i Hi. destruct (initial_keys i) eqn:E; [|done]. apply initial_keys_bound in E. lia.
  - intros i H1 H2. rewrite Hcount in H2. pose proof (conj H1 H2) as Hi. revert i Hi H1 H2.
    refine (below_5 _ _ _ _ _ _); intros _ _; rewrite Eit; eexists _, _;
      (split; [done|]); (split; [done|]); (split; [done|]); (split; [done|]); right; by split.
  - done.
  - intros e. rewrite Eb. apply Hh.
  - intros i j k Hi Hj _ _. pose proof (initial_keys_bound i k Hi) as Bi.
    pose proof (initial_keys_bound j k Hj) as Bj. revert i Bi Hi. revert j Bj Hj.
    refine (below_5 _ _ _ _ _ _); intros [= <-]; refine (below_5 _ _ _ _ _ _); by intros.
  - by rewrite Eb, Hl, Hu.
  - rewrite Hu. lia.
  - intros i Hi. destruct (initial_keys i) as [k|] eqn:E; [|done].
    apply initial_keys_bound in E. revert i E Hi.
    refine (below_5 _ _ _ _ _ _); intros _; unfold live, ip_tag; by rewrite Eit.
Qed.

Lemma inv_all R p g : inv R p g -> (forall i k, g i = Some k -> R i) -> inv everything p g.
Proof.
  intros [I1 I2 I3 I4 I5 I6 I7 I8 I9 I10 I11] HR. split; try done.
  intros i k Hg Hl _. by apply I7; [..|eapply HR].
Qed.

(** Every pool starts with the same keys, its counters those it had. *)
Lemma populate_ok p : items p = [] -> wf (extra_arena p) -> arena_total_used (extra_arena p) = 0 ->
  (exists n, slots_pow2 n /\ buckets p = replicate (N.to_nat n) 0) -> bucket_used p = 0 ->
  exists p', populate_reserved p = Ret p' /\ inv everything p' initial_keys /\
    (forall i, initial_keys i <> None -> live p' i) /\
    items_count p' = IP_RESERVED_COUNT /\ arena_total_used (extra_arena p') <= 16 /\
    next_row_var_id p' = next_row_var_id p /\ next_type_var_id p' = next_type_var_id p.
Proof.
  intros Ei W Ha Hb Hu. unfold populate_reserved.
  destruct (encode_payload_ok (IpEffectRowPayload 0 IP_EMPTY_EFFECT_ROW []) p W)
    as (data & p1 & -> & Hs & W1 & _ & Henc & Hc); [done|by rewrite Ha|]. cbn [obind].
  set (p2 := put_items _ p1).
  destruct (initial_inv p2 data) as [I Hl]; try done.
  { unfold p2. rewrite Hs. done. } { unfold p2. by rewrite Hs. }
  assert (Hgo : forall R q i, inv R q initial_keys -> items q = items p2 ->
    FIRST_COMPOUND <= i < IP_RESERVED_COUNT -> ~ R i -> exists q', register_bucket i q = Ret q' /\
    inv (fun j => R j \/ j = i) q' initial_keys /\ items q' = items p2 /\
    extra_arena q' = extra_arena q /\
    next_row_var_id q' = next_row_var_id q /\ next_type_var_id q' = next_type_var_id q).
  { intros R q i Iq Eq Hi HR.
    assert (Hk : exists k, initial_keys i = Some k).
    { revert i Hi HR. refine (below_5 _ _ _ _ _ _); by eexists. }
    destruct Hk as [k Hk]. destruct (register_bucket_ok R q initial_keys i k Iq Hk) as (q' & H); [|done|].
    - unfold live, ip_tag. rewrite Eq. apply Hl. by rewrite Hk.
    - exists q'. rewrite <- Eq. tauto. }
  destruct (Hgo _ p2 IP_INDEX_C_STRING_TYPE I) as (q1 & -> & I1 & E1 & A1 & C1 & D1); [done..|by intros H|].
  cbn [obind].
  destruct (Hgo _ q1 IP_INDEX_OPAQUE_PTR_TYPE I1) as (q2 & -> & I2 & E2 & A2 & C2 & D2);
    [done..|by intros H; repeat destruct H as [H|H]|]. cbn [obind].
  destruct (Hgo _ q2 IP_INDEX_CONST_OPAQUE_PTR_TYPE I2) as (q3 & -> & I3 & E3 & A3 & C3 & D3);
    [done..|by intros H; repeat destruct H as [H|H]|]. cbn [obind].
  destruct (Hgo _ q3 IP_INDEX_STRING_SLICE_TYPE I3) as (q4 & -> & I4 & E4 & A4 & C4 & D4);
    [done..|by intros H; repeat destruct H as [H|H]|]. cbn [obind].
  destruct (Hgo _ q4 IP_INDEX_EMPTY_EFFECT_ROW I4) as (q5 & -> & I5 & E5 & A5 & C5 & D5);
    [done..|by intros H; repeat destruct H as [H|H]|].
  exists q5. split; [done|]. split.
  { apply (inv_all _ _ _ I5). intros i k Hk. apply initial_keys_bound in Hk.
    revert i Hk. refine (below_5 _ _ _ _ _ _); tauto. }
  split; [|split; [|split]].
  - intros i Hi. unfold live, ip_tag. rewrite E5. by apply Hl.
  - unfold items_count. by rewrite E5.
  - rewrite A5, A4, A3, A2, A1. unfold p2. simpl. simpl in Hc. lia.
  - rewrite C5, C4, C3, C2, C1, D5, D4, D3, D2, D1. unfold p2. by rewrite Hs.
Qed.

(** ** The specification *)

Module Spec.

Record State : Type := mkState {
  keys : list (option IpKey);
  last_row_var : N;
  last_type_var : N
}.

Definition initial : State := mkState (map Some reserved_keys) 0 0.

Definition find (k : IpKey) (s : State) : option N :=
  match list_find (fun o => o = Some (norm k)) (keys s) with
  | Some (i, _) => Some (FIRST_COMPOUND + N.of_nat i)
  | None => None
  end.

Definition next (s : State) : N := FIRST_COMPOUND + N.of_nat (length (keys s)).

Definition get (k : IpKey) (s : State) : N * State :=
  match k with
  | IPK_PRIMITIVE_TYPE v | IPK_RESERVED_VALUE v => (v, s)
  | _ =>
      match find k s with
      | Some i => (i, s)
      | None => (next s, mkState (keys s ++ [Some (norm k)]) (last_row_var s) (last_type_var s))
      end
  end.

(** What an index reads back as. *)
Definition key (i : N) (s : State) : IpKey :=
  if (1 <=? i) && (i <=? 21) then IPK_PRIMITIVE_TYPE i
  else if (22 <=? i) && (i <? FIRST_COMPOUND) then IPK_RESERVED_VALUE i
  else if i <? FIRST_COMPOUND then error_key
  else match keys s !! N.to_nat (i - FIRST_COMPOUND) with Some (Some k) => k | _ => error_key end.

Definition remove (i : N) (s : State) : State :=
  mkState (<[N.to_nat (i - FIRST_COMPOUND) := None]> (keys s)) (last_row_var s) (last_type_var s).

Definition fresh_row_var (s : State) : N * State :=
  get (IPK_ROW_VAR (last_row_var s + 1)) (mkState (keys s) (last_row_var s + 1) (last_type_var s)).

Definition fresh_type_var (s : State) : N * State :=
  get (IPK_TYPE_VAR (last_type_var s + 1)) (mkState (keys s) (last_row_var s) (last_type_var s + 1)).

End Spec.

(** ** Operations *)

Inductive Op : Set :=
  | Get (k : IpKey) | Key (i : IpIndex) | Remove (i : IpIndex)
  | FreshRowVar | FreshTypeVar | Clear.

Inductive Answer : Set := Index (i : IpIndex) | Decoded (k : IpKey) | Done.

Definition run_op (o : Op) (p : InternPool) : outcome (Answer * InternPool) :=
  match o with
  | Get k => let! (i, p) := ip_get k p in Ret (Index i, p)
  | Key i => let! k := ip_key p i in Ret (Decoded k, p)
  | Remove i => Ret (Done, ip_remove i p)
  | FreshRowVar => let! (i, p) := ip_fresh_row_var p in Ret (Index i, p)
  | FreshTypeVar => let! (i, p) := ip_fresh_type_var p in Ret (Index i, p)
  | Clear => let! p := ip_clear p in Ret (Done, p)
  end.

Definition spec_op (o : Op) (s : Spec.State) : Answer * Spec.State :=
  match o with
  | Get k => let (i, s) := Spec.get k s in (Index i, s)
  | Key i => (Decoded (Spec.key i s), s)
  | Remove i => (Done, Spec.remove i s)
  | FreshRowVar => let (i, s) := Spec.fresh_row_var s in (Index i, s)
  | FreshTypeVar => let (i, s) := Spec.fresh_type_var s in (Index i, s)
  | Clear => (Done, Spec.initial)
  end.

Fixpoint run_ops (os : list Op) (p : InternPool) : outcome (list Answer * InternPool) :=
  match os with
  | [] => Ret ([], p)
  | o :: os =>
      let! (a, p) := run_op o p in
      let! (l, p) := run_ops os p in
      Ret (a :: l, p)
  end.

Fixpoint spec_ops (os : list Op) (s : Spec.State) : list Answer * Spec.State :=
  match os with
  | [] => ([], s)
  | o :: os => let (a, s) := spec_op o s in let (l, s) := spec_ops os s in (a :: l, s)
  end.

(** Callers intern well-formed keys and do not remove the primitives. *)
Definition op_ok (o : Op) : Prop :=
  match o with
  | Get k => key_ok k
  | Remove i => FIRST_COMPOUND <= i
  | _ => True
  end.

(** The bytes of the arena an operation may take. *)
Definition op_cost (o : Op) : N := match o with Get k => key_cost k | Clear => 16 | _ => 0 end.
Definition ops_cost (os : list Op) : N := foldr (fun o n => op_cost o + n) 0 os.

(** ** The relation *)

Record refines (p : InternPool) (s : Spec.State) (g : N -> option IpKey) : Prop := {
  rf_inv : inv everything p g;
  rf_next : Spec.next s = items_count p;
  rf_min : IP_RESERVED_COUNT <= items_count p;
  rf_keys i k : Spec.keys s !! i = Some (Some k) <->
    g (FIRST_COMPOUND + N.of_nat i) = Some k /\ live p (FIRST_COMPOUND + N.of_nat i);
  rf_row : next_row_var_id p = Spec.last_row_var s;
  rf_type : next_type_var_id p = Spec.last_type_var s
}.

Definition related (p : InternPool) (s : Spec.State) : Prop := exists g, refines p s g.

(** The live index of a key in the list. *)
Lemma find_live p s g k : refines p s g -> match Spec.find k s with
  | Some i => g i = Some (norm k) /\ live p i
  | None => forall i, g i = Some (norm k) -> ~ live p i
  end.
Proof.
  intros R. unfold Spec.find.
  destruct (list_find _ _) as [[i o]|] eqn:E.
  - apply list_find_Some in E as (Hi & -> & _). by apply (rf_keys p s g R).
  - apply list_find_None in E. intros i Hg Hl.
    pose proof (compound_range _ p g (rf_inv p s g R) i _ Hg) as [H1 _].
    assert (Hk : Spec.keys s !! N.to_nat (i - FIRST_COMPOUND) = Some (Some (norm k))).
    { apply (rf_keys p s g R). rewrite N2Nat.id. by replace (FIRST_COMPOUND + _) with i by lia. }
    rewrite Forall_lookup in E. by apply E in Hk.
Qed.

Lemma get_refines p s g k : refines p s g -> key_ok k ->
  items_count p + 1 < 2 ^ 32 -> arena_total_used (extra_arena p) < 2 ^ 32 ->
  exists p', ip_get k p = Ret ((Spec.get k s).1, p') /\ related p' (Spec.get k s).2 /\
    items_count p' <= items_count p + 1 /\
    arena_total_used (extra_arena p') <= arena_total_used (extra_arena p) + key_cost k.
Proof.
  intros R Hok Hi Ha. destruct (compound k) eqn:Hc.
  2:{ destruct k; try done; exists p; (split; [done|]); (split; [by exists g|]); split; lia. }
  assert (Hget : ip_get k p = ip_get_compound k p) by by destruct k.
  assert (Hs : Spec.get k s = match Spec.find k s with
      | Some i => (i, s)
      | None => (Spec.next s, Spec.mkState (Spec.keys s ++ [Some (norm k)]) (Spec.last_row_var s)
                   (Spec.last_type_var s))
      end) by by destruct k.
  rewrite Hget, Hs. pose proof (find_live p s g k R) as Hf.
  destruct (ip_get_compound_ok p g k (rf_inv p s g R) Hok Hc Hi Ha)
    as (i & p' & -> & Er & Et & Hcost & Hcase).
  exists p'. destruct Hcase as [(Hg & Hl & Eit & I')|(Hno & -> & I' & Hl & Hlv & Hcount)].
  - destruct (Spec.find k s) as [j|]; [|by apply Hf in Hg].
    destruct Hf as [Hgj Hlj]. assert (i = j) as -> by by apply (iv_nodup _ p g (rf_inv p s g R) i j (norm k)).
    split; [done|]. unfold items_count. rewrite Eit. split; [|split; [lia|done]]. exists g.
    destruct R as [R1 R2 Rm R3 R4 R5]. split; simpl; try congruence.
    + unfold items_count. by rewrite Eit.
    + unfold items_count. by rewrite Eit.
    + intros n k'. rewrite R3. unfold live, ip_tag. by rewrite Eit.
  - destruct (Spec.find k s) as [j|]; [exfalso; by apply (Hno j); apply Hf|].
    simpl. rewrite (rf_next p s g R). split; [done|]. split; [|split; [by rewrite Hcount|done]].
    exists (extended g (items_count p) (norm k)). pose proof (rf_next p s g R) as Hn.
    destruct R as [R1 R2 Rm R3 R4 R5]. split; simpl; try congruence.
    + unfold Spec.next in *. simpl. rewrite length_app. simpl. lia.
    + lia.
    + intros n k'. unfold extended.
      destruct (N.eqb_spec (FIRST_COMPOUND + N.of_nat n) (items_count p)) as [En|En].
      * unfold Spec.next in Hn. assert (n = length (Spec.keys s)) as -> by lia. rewrite En.
        rewrite lookup_app_r, Nat.sub_diag by done. simpl. split; [by intros [= ->]|].
        by intros [[= ->] _].
      * rewrite Hlv, <- R3 by done. unfold Spec.next in Hn.
        destruct (Nat.lt_ge_cases n (length (Spec.keys s))); [by rewrite lookup_app_l|].
        rewrite !lookup_ge_None_2; [done|lia|rewrite length_app; simpl; lia].
Qed.

(** The primitives read back as themselves. *)
Lemma below_28 (P : N -> Prop) :
  (forall n : nat, (n < 28)%nat -> P (N.of_nat n)) -> forall i, i < FIRST_COMPOUND -> P i.
Proof.
  unfold FIRST_COMPOUND. intros H i Hi. rewrite <- (N2Nat.id i). apply H. lia.
Qed.

Lemma key_refines p s g i : refines p s g -> ip_key p i = Ret (Spec.key i s).
Proof.
  intros R. pose proof (rf_inv p s g R) as I. unfold ip_key, Spec.key.
  destruct (N.lt_ge_cases i FIRST_COMPOUND) as [Hi|Hi].
  { unfold ip_key_internal. rewrite (proj1 (iv_reserved _ p g I i Hi)).
    revert i Hi. apply below_28. intros n Hn. rewrite Nat2N.id. do 28 (destruct n as [|n]; [done|]). lia. }
  assert (H1 : (i <=? 21) = false) by (apply N.leb_gt; unfold FIRST_COMPOUND in Hi; lia).
  rewrite H1, andb_false_r, (proj2 (N.ltb_ge _ _) Hi), andb_false_r.
  pose proof (rf_keys p s g R (N.to_nat (i - FIRST_COMPOUND))) as Hk. rewrite N2Nat.id in Hk.
  replace (FIRST_COMPOUND + (i - FIRST_COMPOUND)) with i in Hk by lia.
  destruct (Spec.keys s !! N.to_nat (i - FIRST_COMPOUND)) as [[k|]|] eqn:E.
  1: { destruct (proj1 (Hk k) eq_refl) as [Hg Hl]. by apply (decode _ p g I). }
  all: unfold ip_key_internal; destruct (items p !! N.to_nat i) as [[t data]|] eqn:Ei; [|done];
    pose proof (lookup_lt_Some _ _ _ Ei) as Hlt;
    destruct (iv_key _ p g I i Hi) as (k & data' & Hg & _ & _ & _ & Hd); [unfold items_count; lia|];
    (assert (Ht : ip_tag p i = IP_TAG_REMOVED);
     [|unfold ip_tag in Ht; rewrite Ei in Ht; by subst t]);
    destruct (decide (ip_tag p i = IP_TAG_REMOVED)) as [Ht|Ht]; [done|];
    exfalso; by assert (Hx := proj2 (Hk k) (conj Hg Ht)).
Qed.

Lemma remove_refines p s g i : refines p s g -> FIRST_COMPOUND <= i ->
  refines (ip_remove i p) (Spec.remove i s) g.
Proof.
  intros [R1 R2 Rm R3 R4 R5] Hi.
  destruct (ip_remove_ok p g i R1 Hi) as (I' & Hc & _ & Er & Et & Hdead & Hlv).
  split; try (simpl; congruence).
  - unfold Spec.next, Spec.remove in *. cbn [Spec.keys]. by rewrite length_insert, Hc.
  - intros n k. destruct (N.eq_dec (FIRST_COMPOUND + N.of_nat n) i) as [<-|Hne].
    + unfold Spec.remove. cbn [Spec.keys].
      replace (N.to_nat (FIRST_COMPOUND + N.of_nat n - FIRST_COMPOUND)) with n by lia.
      split; [|by intros [_ ?]].
      intros Hl. destruct (Nat.lt_ge_cases n (length (Spec.keys s))) as [Hn|Hn].
      * by rewrite list_lookup_insert_eq in Hl.
      * by rewrite lookup_ge_None_2 in Hl by by rewrite length_insert.
    + unfold Spec.remove. cbn [Spec.keys]. rewrite list_lookup_insert_ne by lia.
      by rewrite Hlv, <- R3.
Qed.

(** The counters are no part of the invariant. *)
Lemma inv_counters p g r t : inv everything p g ->
  inv everything (mkPool (items p) (extra_arena p) (extra_mem p) (buckets p) (bucket_used p) r t) g.
Proof. by intros [I1 I2 I3 I4 I5 I6 I7 I8 I9 I10 I11]; split. Qed.

Lemma counters_refine p s g r t : refines p s g ->
  refines (mkPool (items p) (extra_arena p) (extra_mem p) (buckets p) (bucket_used p) r t)
    (Spec.mkState (Spec.keys s) r t) g.
Proof. by intros [R1 R2 Rm R3 R4 R5]; split; [apply inv_counters|..]. Qed.

Lemma initial_refines p : inv everything p initial_keys ->
  (forall i, initial_keys i <> None -> live p i) -> items_count p = IP_RESERVED_COUNT ->
  next_row_var_id p = 0 -> next_type_var_id p = 0 -> refines p Spec.initial initial_keys.
Proof.
  intros I Hl Hc Hr Ht. split; try done; [by rewrite Hc..|].
  intros i k. unfold Spec.initial. cbn [Spec.keys].
  assert (E : initial_keys (FIRST_COMPOUND + N.of_nat i) = reserved_keys !! i).
  { unfold initial_keys. rewrite (proj2 (N.ltb_ge _ _)) by lia. f_equal. lia. }
  assert (Em : map Some reserved_keys !! i = Some <$> reserved_keys !! i) by apply list_lookup_fmap.
  pose proof (Hl (FIRST_COMPOUND + N.of_nat i)) as Hli. rewrite E in Hli |- *. rewrite Em.
  destruct (reserved_keys !! i) as [k'|]; simpl; [|by split; [|intros []]].
  split; [intros [= ->]; split; [done|by apply Hli]|by intros [[= ->] _]].
Qed.

Lemma clear_refines p s g : refines p s g -> exists p', ip_clear p = Ret p' /\
  refines p' Spec.initial initial_keys /\ items_count p' = IP_RESERVED_COUNT /\
  arena_total_used (extra_arena p') <= 16.
Proof.
  intros R. pose proof (rf_inv p s g R) as I. unfold ip_clear.
  destruct (reset_ok (extra_arena p) (iv_arena _ p g I)) as [W H0].
  destruct (populate_ok (mkPool [] (arena_reset (extra_arena p)) (extra_mem p)
              (replicate (length (buckets p)) 0) 0 0 0))
    as (p' & -> & I' & Hl & Hc & Ha & Hr & Ht); try done.
  { exists (size_of (buckets p)). split; [apply (iv_tbl _ p g I)|].
    unfold size_of. by rewrite Nat2N.id. }
  exists p'. split; [done|]. split; [by apply initial_refines|by split].
Qed.

Lemma init_refines n chunk : slots_pow2 n -> 64 <= chunk <= 2 ^ 61 ->
  exists p, ip_init_with n chunk = Ret p /\ related p Spec.initial /\
    items_count p = IP_RESERVED_COUNT /\ arena_total_used (extra_arena p) <= 16.
Proof.
  intros Hn Hch. unfold ip_init_with. pose proof (slots_pow2_ge _ Hn) as Hge.
  rewrite (proj2 (N.leb_le 16 n)) by done. rewrite (proj2 (N.leb_le 64 chunk)) by lia.
  assert (E : N.land n (n - 1) = 0).
  { rewrite land_mask by done. apply N.Div0.mod_same. }
  rewrite E. cbn [andb oassert obind N.eqb].
  destruct (populate_ok (mkPool [] (arena_init chunk) ∅ (replicate (N.to_nat n) 0) 0 0 0))
    as (p' & -> & I' & Hl & Hc & Ha & Hr & Ht); try done.
  { apply wf_init. lia. }
  { by exists n. }
  exists p'. split; [done|]. split; [exists initial_keys; by apply initial_refines|by split].
Qed.

(** ** Sessions *)

Lemma get_counters k s : Spec.last_row_var (Spec.get k s).2 = Spec.last_row_var s /\
  Spec.last_type_var (Spec.get k s).2 = Spec.last_type_var s.
Proof. destruct k; simpl; try done; by destruct (Spec.find _ s). Qed.

(** One operation, with what it may use up. *)
Lemma op_refines o p s : related p s -> op_ok o ->
  items_count p + 1 < 2 ^ 32 -> arena_total_used (extra_arena p) < 2 ^ 32 ->
  Spec.last_row_var s + 1 < 2 ^ 32 -> Spec.last_type_var s + 1 < 2 ^ 32 ->
  exists p', run_op o p = Ret ((spec_op o s).1, p') /\ related p' (spec_op o s).2 /\
    items_count p' <= items_count p + 1 /\
    arena_total_used (extra_arena p') <= arena_total_used (extra_arena p) + op_cost o /\
    Spec.last_row_var (spec_op o s).2 <= Spec.last_row_var s + 1 /\
    Spec.last_type_var (spec_op o s).2 <= Spec.last_type_var s + 1.
Proof.
  intros [g R] Hok Hi Ha Hr Ht. destruct o as [k|i|i| | |]; simpl in Hok; unfold run_op, spec_op.
  - destruct (get_refines p s g k R Hok Hi Ha) as (p' & -> & R' & Hi' & Ha'). exists p'.
    destruct (get_counters k s) as [<- <-]. destruct (Spec.get k s) as [i s']. simpl in *.
    split; [done|]. split; [done|]. lia.
  - rewrite (key_refines p s g i R). exists p. simpl. split; [done|]. split; [by exists g|]. lia.
  - exists (ip_remove i p). split; [done|]. split; [exists g; by apply remove_refines|].
    destruct (ip_remove_ok p g i (rf_inv p s g R) Hok) as (_ & -> & -> & _). simpl. lia.
  - unfold ip_fresh_row_var, Spec.fresh_row_var. rewrite (rf_row p s g R), (rf_type p s g R), u32_small by done.
    pose proof (counters_refine p s g (Spec.last_row_var s + 1) (Spec.last_type_var s) R) as R1.
    set (k := IPK_ROW_VAR _). set (s1 := Spec.mkState _ _ _) in *.
    destruct (get_refines _ s1 g k R1) as (p' & -> & R' & Hi' & Ha'); [done..|]. exists p'.
    destruct (get_counters k s1) as [Er Et]. destruct (Spec.get k s1) as [i s']. simpl in *.
    split; [done|]. split; [done|]. rewrite Er, Et. change (key_cost k) with 0 in Ha'.
    change (items_count (mkPool _ _ _ _ _ _ _)) with (items_count p) in Hi'. lia.
  - unfold ip_fresh_type_var, Spec.fresh_type_var. rewrite (rf_row p s g R), (rf_type p s g R), u32_small by done.
    pose proof (counters_refine p s g (Spec.last_row_var s) (Spec.last_type_var s + 1) R) as R1.
    set (k := IPK_TYPE_VAR _). set (s1 := Spec.mkState _ _ _) in *.
    destruct (get_refines _ s1 g k R1) as (p' & -> & R' & Hi' & Ha'); [done..|]. exists p'.
    destruct (get_counters k s1) as [Er Et]. destruct (Spec.get k s1) as [i s']. simpl in *.
    split; [done|]. split; [done|]. rewrite Er, Et. change (key_cost k) with 0 in Ha'.
    change (items_count (mkPool _ _ _ _ _ _ _)) with (items_count p) in Hi'. lia.
  - destruct (clear_refines p s g R) as (p' & -> & R' & Hc & Ha'). exists p'. cbn [obind fst snd].
    split; [done|]. split; [by exists initial_keys|]. rewrite Hc.
    pose proof (rf_min p s g R). simpl. lia.
Qed.

Lemma ops_refine os : forall p s, related p s -> Forall op_ok os ->
  items_count p + N.of_nat (length os) < 2 ^ 32 ->
  arena_total_used (extra_arena p) + ops_cost os < 2 ^ 32 ->
  Spec.last_row_var s + N.of_nat (length os) < 2 ^ 32 ->
  Spec.last_type_var s + N.of_nat (length os) < 2 ^ 32 ->
  exists p', run_ops os p = Ret ((spec_ops os s).1, p') /\ related p' (spec_ops os s).2 /\
    items_count p' <= items_count p + N.of_nat (length os) /\
    arena_total_used (extra_arena p') <= arena_total_used (extra_arena p) + ops_cost os.
Proof.
  induction os as [|o os IH]; intros p s R Hok Hi Ha Hr Ht; simpl.
  { exists p. split; [done|]. split; [done|]. lia. }
  apply Forall_cons in Hok as [Ho Hok]. rewrite length_cons in *.
  change (ops_cost (o :: os)) with (op_cost o + ops_cost os) in *.
  destruct (op_refines o p s R Ho) as (p1 & -> & R1 & Hi1 & Ha1 & Hr1 & Ht1); [lia..|].
  cbn [obind]. destruct (spec_op o s) as [a s1]. cbn [fst snd] in *.
  destruct (IH p1 s1 R1 Hok) as (p2 & -> & R2 & Hi2 & Ha2); [lia..|].
  cbn [obind]. destruct (spec_ops os s1) as [l s2]. exists p2. simpl in *.
  split; [done|]. split; [done|]. lia.
Qed.

(** A session: a new pool and the operations on it; within the 32-bit indices and offsets. *)
Definition session (buckets chunk : N) (os : list Op) : outcome (list Answer * InternPool) :=
  let! p := ip_init_with buckets chunk in run_ops os p.

Definition session_fits (buckets chunk : N) (os : list Op) : Prop :=
  slots_pow2 buckets /\ 64 <= chunk <= 2 ^ 61 /\ Forall op_ok os /\
  IP_RESERVED_COUNT + N.of_nat (length os) + 1 < 2 ^ 32 /\ 16 + ops_cost os < 2 ^ 32.

Lemma pool_session_ok n chunk os : session_fits n chunk os ->
  exists p, session n chunk os = Ret ((spec_ops os Spec.initial).1, p) /\
    related p (spec_ops os Spec.initial).2 /\
    items_count p + 1 < 2 ^ 32 /\ arena_total_used (extra_arena p) < 2 ^ 32.
Proof.
  intros (Hn & Hch & Hok & Hi & Ha). unfold session.
  destruct (init_refines n chunk Hn Hch) as (p & -> & R & Hc & Hu). cbn [obind].
  destruct (ops_refine os p Spec.initial R Hok) as (p' & -> & R' & Hi' & Ha');
    [lia|lia|simpl; unfold IP_RESERVED_COUNT in *; lia..|]. exists p'.
  split; [done|]. split; [done|]. lia.
Qed.

(** C11: The intern pool refines a list of keys: from a new pool, any sequence of [ip_get],
    [ip_key], [ip_remove], [ip_fresh_row_var], [ip_fresh_type_var] and [ip_clear] answers
    what the abstract list does (find the index of an equal key or append it, read it back,
    blank it out), through every growth of the bucket map and of the arena. *)
Theorem intern_pool_refines n chunk os : session_fits n chunk os ->
  exists p, session n chunk os = Ret ((spec_ops os Spec.initial).1, p).
Proof. intros H. destruct (pool_session_ok n chunk os H) as (p & E & _). by exists p. Qed.

Lemma intern_pool_refines_witness : exists p,
  session 16 64
    [Get (IPK_ARRAY_TYPE IP_INDEX_U8_TYPE 4);
     Get (IPK_FN_TYPE IP_INDEX_VOID_TYPE 0 0 0 [33] IP_NONE);
     Get (IPK_ARRAY_TYPE IP_INDEX_U8_TYPE 4); Key 34; Remove 33;
     Get (IPK_ARRAY_TYPE IP_INDEX_U8_TYPE 4); FreshRowVar; Get (IPK_EFFECT_ROW [] IP_NONE); Key 33]
  = Ret ([Index 33; Index 34; Index 33;
          Decoded (IPK_FN_TYPE IP_INDEX_VOID_TYPE 0 0 0 [33] IP_EMPTY_EFFECT_ROW); Done;
          Index 35; Index 36; Index 32; Decoded error_key], p).
Proof.
  eapply intern_pool_refines. split; [by exists 4|]. split; [done|]. split; [|done].
  repeat (constructor; [done|]). constructor.
Defined.

(** Interning what an index reads back as gives the index: for every index of the pool
    that is neither [IP_NONE] nor removed, and without adding an item. *)
Theorem ip_key_get_roundtrip n chunk os l p i : session_fits n chunk os ->
  session n chunk os = Ret (l, p) -> ip_tag p i <> IP_TAG_REMOVED -> i <> IP_NONE ->
  exists k p', ip_key p i = Ret k /\ ip_get k p = Ret (i, p') /\ items p' = items p.
Proof.
  intros Hfit Hrun Hl H0. destruct (pool_session_ok n chunk os Hfit) as (p1 & E & [g R] & Hi & Ha).
  rewrite E in Hrun. injection Hrun as _ ->. pose proof (rf_inv _ _ _ R) as I.
  exists (Spec.key i (spec_ops os Spec.initial).2). rewrite (key_refines p _ g i R).
  destruct (N.lt_ge_cases i FIRST_COMPOUND) as [Hlt|Hge].
  { exists p. split; [done|]. unfold Spec.key. rewrite (proj2 (N.ltb_lt _ _) Hlt), andb_true_r.
    unfold IP_NONE, FIRST_COMPOUND in *. rewrite (proj2 (N.leb_le 1 i)) by lia. cbn [andb].
    destruct (N.leb_spec i 21); [done|]. by rewrite (proj2 (N.leb_le 22 i)) by lia. }
  assert (Hc : i < items_count p).
  { destruct (N.lt_ge_cases i (items_count p)); [done|]. by apply (live_out _ p g i I) in Hl. }
  destruct (iv_key _ p g I i Hge Hc) as (k & data & Hg & Hk1 & Hk2 & Hk3 & _).
  pose proof (key_refines p _ g i R) as Hd. unfold ip_key in Hd. rewrite (decode _ p g I i k Hg Hl) in Hd.
  injection Hd as <-.
  destruct (ip_get_compound_ok p g k I Hk1 Hk2 Hi Ha) as (j & p' & Eg & _ & _ & _ & Hcase).
  exists p'. split; [done|]. assert (Hget : ip_get k p = ip_get_compound k p) by by destruct k.
  rewrite Hget, Eg. destruct Hcase as [(Hgj & Hlj & Eit & _)|(Hno & _)].
  - split; [|done]. rewrite Hk3 in Hgj. by rewrite (iv_nodup _ p g I i j k Hg Hgj Hl Hlj).
  - exfalso. apply (Hno i); [by rewrite Hk3|done].
Qed.

(** *** Canonical indices *)

Lemma next_ge s : FIRST_COMPOUND <= Spec.next s.
Proof. unfold Spec.next. lia. Qed.

Lemma key_prim_value v s : 1 <= v <= 21 -> Spec.key v s = IPK_PRIMITIVE_TYPE v.
Proof. intros H. unfold Spec.key. by rewrite (proj2 (N.leb_le 1 v)), (proj2 (N.leb_le v 21)) by lia. Qed.

Lemma key_reserved_value v s : 22 <= v <= 27 -> Spec.key v s = IPK_RESERVED_VALUE v.
Proof.
  intros H. unfold Spec.key, FIRST_COMPOUND. rewrite (proj2 (N.leb_gt v 21)) by lia. rewrite andb_false_r.
  by rewrite (proj2 (N.leb_le 22 v)), (proj2 (N.ltb_lt v 28)) by lia.
Qed.

Lemma key_compound n s : Spec.key (FIRST_COMPOUND + N.of_nat n) s =
  match Spec.keys s !! n with Some (Some k) => k | _ => error_key end.
Proof.
  unfold Spec.key. rewrite (proj2 (N.leb_gt _ 21)) by (unfold FIRST_COMPOUND; lia).
  rewrite (proj2 (N.ltb_ge _ FIRST_COMPOUND)) by lia. rewrite !andb_false_r.
  by replace (N.to_nat _) with n by lia.
Qed.

(** An interned key is found again, under the same index, and reads back. *)
Lemma get_key k s : key_ok k -> let r := Spec.get k s in
  Spec.key r.1 r.2 = norm k /\ r.1 < Spec.next r.2 /\ Spec.get k r.2 = (r.1, r.2) /\
  exists l, Spec.keys r.2 = Spec.keys s ++ l.
Proof.
  intros Hok r. pose proof (next_ge s) as Hge. unfold FIRST_COMPOUND in Hge.
  destruct (compound k) eqn:Hc.
  2:{ destruct k; try done; unfold r; simpl in *.
    - split; [by apply key_prim_value|]. split; [lia|]. split; [done|]. exists []. by rewrite app_nil_r.
    - split; [by apply key_reserved_value|]. split; [lia|]. split; [done|]. exists []. by rewrite app_nil_r. }
  assert (Hs : forall s, Spec.get k s = match Spec.find k s with
      | Some i => (i, s)
      | None => (Spec.next s, Spec.mkState (Spec.keys s ++ [Some (norm k)]) (Spec.last_row_var s)
                   (Spec.last_type_var s))
      end) by by destruct k.
  unfold r. rewrite !Hs. destruct (Spec.find k s) as [i|] eqn:E.
  - simpl. rewrite E. unfold Spec.find in E. destruct (list_find _ _) as [[j o]|] eqn:E'; [|done].
    apply list_find_Some in E' as (Hj & -> & _). injection E as <-. rewrite key_compound, Hj.
    pose proof (lookup_lt_Some _ _ _ Hj). unfold Spec.next.
    split; [done|]. split; [lia|]. split; [done|]. exists []. by rewrite app_nil_r.
  - cbn [fst snd]. unfold Spec.next at 1. rewrite key_compound. cbn [Spec.keys].
    rewrite lookup_app_r, Nat.sub_diag by done. split; [done|]. split.
    { unfold Spec.next. cbn [Spec.keys]. rewrite length_app. simpl. lia. }
    split; [|by eexists]. unfold Spec.find in E |- *. cbn [Spec.keys].
    destruct (list_find _ (Spec.keys s)) as [[j o]|] eqn:E'; [done|].
    rewrite list_find_app_r by done. simpl. rewrite decide_True by done. simpl.
    unfold Spec.next. done.
Qed.

Lemma get_norm k k' s : norm k = norm k' -> Spec.get k s = Spec.get k' s.
Proof.
  intros E. unfold Spec.get, Spec.find. rewrite E. destruct k, k'; try done; by injection E as ->.
Qed.

(** Interning adds keys and changes none. *)
Lemma key_kept k i s : key_ok k -> i < Spec.next s -> Spec.key i (Spec.get k s).2 = Spec.key i s.
Proof.
  intros Hok Hi. destruct (get_key k s Hok) as (_ & _ & _ & l & El).
  destruct (N.lt_ge_cases i FIRST_COMPOUND) as [Hlt|Hge].
  - unfold Spec.key. by rewrite (proj2 (N.ltb_lt _ _) Hlt).
  - replace i with (FIRST_COMPOUND + N.of_nat (N.to_nat (i - FIRST_COMPOUND))) by lia.
    rewrite !key_compound, El, lookup_app_l; [done|]. unfold Spec.next in Hi. lia.
Qed.

(** The index is canonical: in any pool, two keys are interned under the same index if
    and only if they are structurally equal (an absent effect row being the empty one), and
    the index of each reads back as its key. *)
Theorem ip_get_canonical n chunk os k1 k2 : session_fits n chunk (os ++ [Get k1; Get k2]) ->
  exists l i1 i2 p, session n chunk (os ++ [Get k1; Get k2]) = Ret (l ++ [Index i1; Index i2], p) /\
    (i1 = i2 <-> ip_key_eql k1 k2 = true) /\
    ip_key p i1 = Ret (norm k1) /\ ip_key p i2 = Ret (norm k2).
Proof.
  intros Hfit. destruct (pool_session_ok n chunk _ Hfit) as (p & E & [g R] & _).
  assert (Hok : key_ok k1 /\ key_ok k2).
  { destruct Hfit as (_ & _ & Hok & _). apply Forall_app in Hok as [_ Hok].
    apply Forall_cons in Hok as [H1 Hok]. by apply Forall_cons in Hok as [H2 _]. }
  destruct Hok as [Hk1 Hk2].
  assert (Hs : forall os s, spec_ops (os ++ [Get k1; Get k2]) s =
    let r := spec_ops os s in let r1 := Spec.get k1 r.2 in let r2 := Spec.get k2 r1.2 in
    (r.1 ++ [Index r1.1; Index r2.1], r2.2)).
  { intros os'. induction os' as [|o os' IH]; intros s; simpl.
    - destruct (Spec.get k1 s) as [i1 s1]. simpl. by destruct (Spec.get k2 s1).
    - destruct (spec_op o s) as [a s1]. rewrite IH. simpl. by destruct (spec_ops os' s1). }
  rewrite Hs in E, R. cbv zeta in E, R. cbn [fst snd] in E, R. set (s := (spec_ops os Spec.initial).2) in *.
  destruct (get_key k1 s Hk1) as (Hd1 & Hn1 & Hidem & _).
  destruct (get_key k2 (Spec.get k1 s).2 Hk2) as (Hd2 & _ & _ & _).
  eexists _, _, _, p. split; [exact E|]. rewrite !(key_refines p _ g _ R), ip_key_eql_norm.
  rewrite (key_kept k2) by done. rewrite Hd1, Hd2. split; [|done]. split.
  - intros Ei. rewrite <- Ei, (key_kept k2), Hd1 in Hd2 by done. done.
  - intros En. rewrite <- (get_norm k1 k2 _ En). simpl in Hidem. by rewrite Hidem.
Qed.

Lemma ip_get_canonical_witness : exists l i1 i2 p,
  session 16 64 ([Get (IPK_PTR_TYPE 2 true)] ++ [Get (IPK_EFFECT_ROW [3; 7] IP_NONE); Get (IPK_EFFECT_ROW [3; 7] 32)])
    = Ret (l ++ [Index i1; Index i2], p) /\ i1 = i2 /\
  ip_key p i1 = Ret (IPK_EFFECT_ROW [3; 7] IP_EMPTY_EFFECT_ROW).
Proof.
  destruct (ip_get_canonical 16 64 [Get (IPK_PTR_TYPE 2 true)] (IPK_EFFECT_ROW [3; 7] IP_NONE)
    (IPK_EFFECT_ROW [3; 7] 32)) as (l & i1 & i2 & p & E & Hiff & Hk & _).
  - split; [by exists 4|]. split; [done|]. split; [|done]. repeat (constructor; [done|]). constructor.
  - exists l, i1, i2, p. split; [exact E|]. split; [by apply Hiff|exact Hk].
Defined.

Lemma ip_key_get_roundtrip_witness : exists l p k p',
  session 16 64 [Get (IPK_INT_VALUE IP_INDEX_I64_TYPE (-1))] = Ret (l, p) /\
  ip_key p 33 = Ret k /\ ip_get k p = Ret (33, p') /\ items p' = items p.
Proof.
  assert (Hf : session_fits 16 64 [Get (IPK_INT_VALUE IP_INDEX_I64_TYPE (-1))]).
  { split; [by exists 4|]. split; [done|]. split; [|done]. repeat (constructor; [done|]). constructor. }
  assert (Ht : match session 16 64 [Get (IPK_INT_VALUE IP_INDEX_I64_TYPE (-1))] with
    | Ret (_, p) => ip_tag p 33 = IP_TAG_INT_VALUE | _ => False end) by by vm_compute.
  destruct (session _ _ _) as [[l p]| |] eqn:E; [|destruct Ht..].
  destruct (ip_key_get_roundtrip 16 64 [Get (IPK_INT_VALUE IP_INDEX_I64_TYPE (-1))] l p 33)
    as (k & p' & Hk & Hg & Hi).
  - exact Hf.
  - exact E.
  - rewrite Ht. discriminate.
  - discriminate.
  - exists l, p, k, p'. split; [exact eq_refl|]. split; [exact Hk|]. split; [exact Hg|exact Hi].
Defined.

End InternTheorems.
