(* ===== verification/TypeLayout.v ===== *)
(** * The layout of types: [src/src/db/query/layout.c]

    Sizes and alignments of the types of the intern pool, for [@sizeOf], [@alignOf] and the
    range checks of coercion.  The members of structs and unions are read from the columns
    of the database ([db_aggregate_field_count] and [db_aggregate_field_at] of [db.h]).

    - [sizeof(void * )] and its alignment are those of a 64-bit host, as are all of the sizes
      in this development.
    - The cycle stack is the list of its ids up to [depth].
    - A read through the NULL that [vec_get] and [paged_get] answer out of range is
      [AssertFailed]. *)

From S2P Require Import Prelude InternPool Position.
Import InternPool Position.

Module TypeLayout.

#[local] Open Scope N_scope.

(** ** Integer ranges *)

(** The result and the strings left in [*lo] and [*hi], if any. *)
Definition FitResult : Set := bool * option string * option string.

Definition int_fits_signed (v : Z) (bits : N) : FitResult :=
  if bits =? 8 then ((-128 <=? v)%Z && (v <=? 127)%Z, Some "-128"%string, Some "127"%string)
  else if bits =? 16 then ((-32768 <=? v)%Z && (v <=? 32767)%Z, Some "-32768"%string, Some "32767"%string)
  else if bits =? 32 then
    ((-2147483648 <=? v)%Z && (v <=? 2147483647)%Z, Some "-2147483648"%string, Some "2147483647"%string)
  else if bits =? 64 then (true, Some "-9223372036854775808"%string, Some "9223372036854775807"%string)
  else (false, None, None).

Definition unsigned_max (bits : N) : option string :=
  if bits =? 8 then Some "255"%string else if bits =? 16 then Some "65535"%string
  else if bits =? 32 then Some "4294967295"%string
  else if bits =? 64 then Some "18446744073709551615"%string else None.

Definition int_fits_unsigned_u64 (u : N) (bits : N) : FitResult :=
  let fits :=
    if bits =? 8 then u <=? 255 else if bits =? 16 then u <=? 65535
    else if bits =? 32 then u <=? 4294967295 else bits =? 64 in
  (fits, Some "0"%string, unsigned_max bits).

Definition int_fits_unsigned (v : Z) (bits : N) : FitResult :=
  if (v <? 0)%Z then (false, Some "0"%string, unsigned_max bits)
  else int_fits_unsigned_u64 (u64_of_Z v) bits.

(** ** The database columns *)

Inductive DefKind : Set :=
  | KIND_NONE | KIND_FUNCTION | KIND_STRUCT | KIND_UNION | KIND_ENUM | KIND_EFFECT
  | KIND_VARIABLE | KIND_CONSTANT | KIND_DISTINCT.

Record AggregateFieldEntry : Set := mkField { name : N; type : IpIndex }.

Record LayoutDb : Type := mkLayoutDb {
  intern : InternPool;
  kinds : list DefKind;
  kind_row : list N;
  structs_field_lo : list N;
  structs_field_len : list N;
  unions_field_lo : list N;
  unions_field_len : list N;
  aggregate_field_pool : list AggregateFieldEntry
}.

Definition deref {A} (o : option A) : outcome A :=
  match o with Some x => Ret x | None => AssertFailed "read through NULL" end.

Definition db_def_kind (s : LayoutDb) (d : N) : outcome DefKind := deref (col_get (kinds s) d).

Definition db_aggregate_field_count (s : LayoutDb) (d : N) : outcome N :=
  let! k := db_def_kind s d in
  match k with
  | KIND_STRUCT => let! row := deref (col_get (kind_row s) d) in deref (col_get (structs_field_len s) row)
  | KIND_UNION => let! row := deref (col_get (kind_row s) d) in deref (col_get (unions_field_len s) row)
  | _ => Ret 0
  end.

Definition db_aggregate_field_at (s : LayoutDb) (d i : N) : outcome AggregateFieldEntry :=
  let! k := db_def_kind s d in
  let lo_col := match k with KIND_STRUCT => structs_field_lo s | _ => unions_field_lo s end in
  let! row := deref (col_get (kind_row s) d) in
  let! lo := deref (col_get lo_col row) in
  deref (col_get (aggregate_field_pool s) (u32 (lo + i))).

(** ** Layouts *)

Record OreLayout : Set := mkLayout { size : N; align : N; is_known : bool }.

(** [OreLayout L = {0}]. *)
Definition unknown : OreLayout := mkLayout 0 0 false.

Definition LAYOUT_CYCLE_STACK_MAX : N := 32.
Definition PTR_SIZE : N := 8.
Definition PTR_ALIGN : N := 8.

(** [(size + align - 1) & ~(uint64_t)(align - 1)]. *)
Definition pad_to (size align : N) : N := N.ldiff (u64 (size + align - 1)) (align - 1).

Definition primitive_layout (t : IpIndex) : OreLayout :=
  if t =? IP_INDEX_BOOL_TYPE then mkLayout 1 1 true
  else if (t =? IP_INDEX_U8_TYPE) || (t =? IP_INDEX_I8_TYPE) then mkLayout 1 1 true
  else if (t =? IP_INDEX_U16_TYPE) || (t =? IP_INDEX_I16_TYPE) then mkLayout 2 2 true
  else if (t =? IP_INDEX_U32_TYPE) || (t =? IP_INDEX_I32_TYPE) then mkLayout 4 4 true
  else if (t =? IP_INDEX_U64_TYPE) || (t =? IP_INDEX_I64_TYPE) then mkLayout 8 8 true
  else if t =? IP_INDEX_F32_TYPE then mkLayout 4 4 true
  else if t =? IP_INDEX_F64_TYPE then mkLayout 8 8 true
  else if (t =? IP_INDEX_USIZE_TYPE) || (t =? IP_INDEX_ISIZE_TYPE) then mkLayout PTR_SIZE PTR_ALIGN true
  else mkLayout 0 0 false.

(** Take a member into account: the body of the loop of [layout_struct_or_union]. *)
Definition add_field (is_union : bool) (L fl : OreLayout) : OreLayout :=
  let align' := if align L <? align fl then align fl else align L in
  if is_union then mkLayout (if size L <? size fl then size fl else size L) align' true
  else
    let padded := if 0 <? align fl then pad_to (size L) (align fl) else size L in
    mkLayout (u64 (padded + size fl)) align' true.

Definition tail_pad (L : OreLayout) : OreLayout :=
  mkLayout (if 0 <? align L then pad_to (size L) (align L) else size L) (align L) true.

Section Recurse.
(** [layout_recurse], on the types of members; the second result is the cycle stack. *)
Context (rec : IpIndex -> list N -> outcome (OreLayout * list N)).

(** [n] members from [i] on. *)
Fixpoint layout_fields (s : LayoutDb) (def : N) (is_union : bool) (n : nat) (i : N)
    (L : OreLayout) (cyc : list N) : outcome (OreLayout * list N) :=
  match n with
  | O => Ret (L, cyc)
  | S n =>
      let! f := db_aggregate_field_at s def i in
      let! (fl, cyc) := rec (type f) cyc in
      if is_known fl then layout_fields s def is_union n (i + 1) (add_field is_union L fl) cyc
      else Ret (mkLayout (size L) (align L) false, cyc)
  end.

Definition layout_struct_or_union (s : LayoutDb) (def : N) (cyc : list N) (is_union : bool)
    : outcome (OreLayout * list N) :=
  if existsb (N.eqb def) cyc then Ret (unknown, cyc)
  else if LAYOUT_CYCLE_STACK_MAX <=? N.of_nat (length cyc) then Ret (unknown, cyc)
  else
    let! n := db_aggregate_field_count s def in
    let! (L, cyc) := layout_fields s def is_union (N.to_nat n) 0 (mkLayout 0 1 true) (cyc ++ [def]) in
    let cyc := removelast cyc in
    Ret (if is_known L then tail_pad L else L, cyc).

End Recurse.

Definition word_layout (words : N) : OreLayout := mkLayout (words * PTR_SIZE) PTR_ALIGN true.

Definition optional_layout (inner : OreLayout) : OreLayout :=
  let size := u64 (size inner + 1) in
  let size := if 0 <? align inner then pad_to size (align inner) else size in
  mkLayout size (if 0 <? align inner then align inner else 1) true.

Definition array_layout (elem : OreLayout) (n : N) : OreLayout :=
  mkLayout (u64 (size elem * n)) (align elem) true.

Fixpoint layout_recurse (fuel : nat) (s : LayoutDb) (t : IpIndex) (cyc : list N)
    : outcome (OreLayout * list N) :=
  match fuel with
  | O => OutOfFuel
  | S f =>
      if negb (ip_index_is_valid t) then Ret (unknown, cyc)
      else
        match ip_tag (intern s) t with
        | IP_TAG_PRIMITIVE_TYPE => Ret (primitive_layout t, cyc)
        | IP_TAG_PTR_TYPE | IP_TAG_PTR_CONST_TYPE | IP_TAG_MANY_PTR_TYPE
        | IP_TAG_MANY_PTR_CONST_TYPE | IP_TAG_FN_TYPE => Ret (word_layout 1, cyc)
        | IP_TAG_SLICE_TYPE | IP_TAG_SLICE_CONST_TYPE => Ret (word_layout 2, cyc)
        | IP_TAG_ARRAY_TYPE =>
            let! k := ip_key (intern s) t in
            match k with
            | IPK_ARRAY_TYPE elem n =>
                let! (e, cyc) := layout_recurse f s elem cyc in
                Ret (if is_known e then array_layout e n else unknown, cyc)
            | _ => AssertFailed "read of another member of the union"
            end
        | IP_TAG_OPTIONAL_TYPE =>
            let! k := ip_key (intern s) t in
            match k with
            | IPK_OPTIONAL_TYPE elem =>
                let! (e, cyc) := layout_recurse f s elem cyc in
                Ret (if is_known e then optional_layout e else unknown, cyc)
            | _ => AssertFailed "read of another member of the union"
            end
        | IP_TAG_STRUCT_TYPE =>
            let! k := ip_key (intern s) t in
            match k with
            | IPK_STRUCT_TYPE def =>
                let! kind := db_def_kind s def in
                layout_struct_or_union (layout_recurse f s) s def cyc
                  (match kind with KIND_UNION => true | _ => false end)
            | _ => AssertFailed "read of another member of the union"
            end
        | IP_TAG_ENUM_TYPE => Ret (mkLayout 4 4 true, cyc)
        | _ => Ret (unknown, cyc)
        end
  end.

(** At most 32 nested aggregates, with a chain of arrays and optionals in each: those grow
    downwards in the pool. *)
Definition layout_fuel (s : LayoutDb) : nat := 33 * (length (items (intern s)) + 2).

Definition db_layout_of_type (s : LayoutDb) (t : IpIndex) : outcome OreLayout :=
  let! (L, _) := layout_recurse (layout_fuel s) s t [] in Ret L.

End TypeLayout.
