(* ===== verification/TypeLayoutTheorems.v ===== *)
(** * The layout of types: theorems

    The recursion returns, knows exactly the types without by-value cycles (up to 32 nested
    aggregates), and places the members of a struct as the C ABI does. *)

From S2P Require Import Prelude InternPool Position TypeLayout InternFacts InternTheorems.

(** ** The layout of types: what the cycle stack decides, and how members are placed

    [layout_of n t L] is the layout of [t] without a cycle stack: [t] contains its members
    by value in a finite tree with at most [n] nested aggregates.  The recursion of
    [layout.c] returns on every database in order, knows a layout exactly when there is
    such a tree of at most 32 aggregates, and answers it.  Alignments are 1, 2, 4 or 8 and
    sizes are multiples of them, even when the 64-bit arithmetic wraps around; without
    wrap-around the members of a struct lie one after the other, each at its alignment. *)

Import InternPool Position TypeLayout.

Module TypeLayoutFacts.

#[local] Open Scope N_scope.

(** ** Layouts without a cycle stack *)

Definition word_tag (t : IpTag) : option N :=
  match t with
  | IP_TAG_PTR_TYPE | IP_TAG_PTR_CONST_TYPE | IP_TAG_MANY_PTR_TYPE
  | IP_TAG_MANY_PTR_CONST_TYPE | IP_TAG_FN_TYPE => Some 1
  | IP_TAG_SLICE_TYPE | IP_TAG_SLICE_CONST_TYPE => Some 2
  | _ => None
  end.

(** The types of the members of a struct or union. *)
Fixpoint members_from (s : LayoutDb) (def : N) (n : nat) (i : N) : outcome (list IpIndex) :=
  match n with
  | O => Ret []
  | S n =>
      let! f := db_aggregate_field_at s def i in
      let! l := members_from s def n (i + 1) in
      Ret (type f :: l)
  end.

Definition members (s : LayoutDb) (def : N) : outcome (list IpIndex) :=
  let! n := db_aggregate_field_count s def in members_from s def (N.to_nat n) 0.

Definition is_union_kind (k : DefKind) : bool := match k with KIND_UNION => true | _ => false end.

(** A struct or union of members with the layouts [ls]. *)
Definition aggregate_layout (is_union : bool) (ls : list OreLayout) : OreLayout :=
  tail_pad (foldl (add_field is_union) (mkLayout 0 1 true) ls).

Section Spec.
Context (s : LayoutDb).

Inductive layout_of : nat -> IpIndex -> OreLayout -> Prop :=
  | lo_primitive n t : t <> IP_NONE -> ip_tag (intern s) t = IP_TAG_PRIMITIVE_TYPE ->
      is_known (primitive_layout t) = true -> layout_of n t (primitive_layout t)
  | lo_word n t w : t <> IP_NONE -> word_tag (ip_tag (intern s) t) = Some w ->
      layout_of n t (word_layout w)
  | lo_enum n t : t <> IP_NONE -> ip_tag (intern s) t = IP_TAG_ENUM_TYPE ->
      layout_of n t (mkLayout 4 4 true)
  | lo_array n t e k L : t <> IP_NONE -> ip_key (intern s) t = Ret (IPK_ARRAY_TYPE e k) ->
      layout_of n e L -> layout_of n t (array_layout L k)
  | lo_optional n t e L : t <> IP_NONE -> ip_key (intern s) t = Ret (IPK_OPTIONAL_TYPE e) ->
      layout_of n e L -> layout_of n t (optional_layout L)
  | lo_aggregate n t d kind ts ls : t <> IP_NONE -> ip_key (intern s) t = Ret (IPK_STRUCT_TYPE d) ->
      db_def_kind s d = Ret kind -> members s d = Ret ts -> layouts_of n ts ls ->
      layout_of (S n) t (aggregate_layout (is_union_kind kind) ls)
with layouts_of : nat -> list IpIndex -> list OreLayout -> Prop :=
  | los_nil n : layouts_of n [] []
  | los_cons n t ts L ls : layout_of n t L -> layouts_of n ts ls -> layouts_of n (t :: ts) (L :: ls).

End Spec.

Scheme layout_of_mut := Minimality for layout_of Sort Prop
  with layouts_of_mut := Minimality for layouts_of Sort Prop.
Combined Scheme layout_mutind from layout_of_mut, layouts_of_mut.

(** ** Tags and keys *)

Ltac by_tag p t :=
  unfold ip_key, ip_key_internal, ip_tag; destruct (items p !! N.to_nat t) as [[tag data]|]; [|done];
  destruct tag; try done.

(** The tag of an index is that of its key. *)
Lemma array_key p t : ip_tag p t = IP_TAG_ARRAY_TYPE -> forall k, ip_key p t = Ret k ->
  exists e n, k = IPK_ARRAY_TYPE e n.
Proof.
  by_tag p t. intros _ k. destruct (payload_at p data) as [pl| |]; [|done..]. simpl.
  destruct pl; try done. intros [= <-]. by eexists _, _.
Qed.

Lemma optional_key p t : ip_tag p t = IP_TAG_OPTIONAL_TYPE -> forall k, ip_key p t = Ret k ->
  exists e, k = IPK_OPTIONAL_TYPE e.
Proof. by_tag p t. intros _ k [= <-]. by eexists. Qed.

Lemma struct_key p t : ip_tag p t = IP_TAG_STRUCT_TYPE -> forall k, ip_key p t = Ret k ->
  exists d, k = IPK_STRUCT_TYPE d.
Proof. by_tag p t. intros _ k [= <-]. by eexists. Qed.

Ltac by_key p t :=
  unfold ip_key, ip_key_internal, ip_tag; destruct (items p !! N.to_nat t) as [[tag data]|]; [|done];
  destruct tag; try done; destruct (payload_at p data) as [pl| |]; try done; by destruct pl.

Lemma key_array p t e n : ip_key p t = Ret (IPK_ARRAY_TYPE e n) -> ip_tag p t = IP_TAG_ARRAY_TYPE.
Proof. by_key p t. Qed.
Lemma key_optional p t e : ip_key p t = Ret (IPK_OPTIONAL_TYPE e) -> ip_tag p t = IP_TAG_OPTIONAL_TYPE.
Proof. by_key p t. Qed.
Lemma key_struct p t d : ip_key p t = Ret (IPK_STRUCT_TYPE d) -> ip_tag p t = IP_TAG_STRUCT_TYPE.
Proof. by_key p t. Qed.

(** A valid index has some tag. *)
Lemma valid_spec t : ip_index_is_valid t = true <-> t <> IP_NONE.
Proof. unfold ip_index_is_valid, IP_NONE. destruct (N.eqb_spec t 0); simpl; split; done. Qed.

(** ** Determinism *)

(** Two tags for one index. *)
Ltac clash :=
  exfalso;
  repeat match goal with
  | H : ip_key _ _ = Ret (IPK_ARRAY_TYPE _ _) |- _ => apply key_array in H
  | H : ip_key _ _ = Ret (IPK_OPTIONAL_TYPE _) |- _ => apply key_optional in H
  | H : ip_key _ _ = Ret (IPK_STRUCT_TYPE _) |- _ => apply key_struct in H
  end;
  repeat match goal with
  | H : word_tag ?x = Some _, E : ?x = _ |- _ => rewrite E in H; clear E
  end; simpl in *; congruence.

Lemma layout_of_fun s : (forall n t L, layout_of s n t L -> forall n' L', layout_of s n' t L' -> L = L') /\
  (forall n ts ls, layouts_of s n ts ls -> forall n' ls', layouts_of s n' ts ls' -> ls = ls').
Proof.
  apply layout_mutind.
  - intros n t H0 Ht Hk n' L' H'. inversion H'; subst; by try clash.
  - intros n t w H0 Ht n' L' H'. inversion H'; subst; try clash. congruence.
  - intros n t H0 Ht n' L' H'. inversion H'; subst; by try clash.
  - intros n t e k L H0 Ht Hl IH n' L' H'. inversion H'; subst; try clash.
    match goal with H : ip_key _ t = _ |- _ => rewrite Ht in H; injection H as -> -> end.
    f_equal. by eapply IH.
  - intros n t e L H0 Ht Hl IH n' L' H'. inversion H'; subst; try clash.
    match goal with H : ip_key _ t = _ |- _ => rewrite Ht in H; injection H as -> end.
    f_equal. by eapply IH.
  - intros n t d kind ts ls H0 Ht Hkind Hm Hl IH n' L' H'. inversion H'; subst; try clash.
    match goal with H : ip_key _ t = _ |- _ => rewrite Ht in H; injection H as <- end.
    repeat match goal with H : ?x = Ret ?a, H' : ?x = Ret ?b |- _ =>
      assert (a = b) as <- by congruence; clear H' end.
    f_equal. by eapply IH.
  - intros n n' ls' H'. by inversion H'.
  - intros n t ts L ls Hl IH Hls IHs n' ls' H'. inversion H'; subst. f_equal; [by eapply IH|by eapply IHs].
Qed.

(** ** The recursion answers layouts *)

Lemma layouts_members s def n : forall i, (forall ts, members_from s def n i = Ret ts -> length ts = n).
Proof.
  induction n as [|n IH]; intros i ts; simpl; [by intros [= <-]|].
  destruct (db_aggregate_field_at s def i) as [f| |]; [|done..]. simpl.
  destruct (members_from s def n (i + 1)) as [l| |] eqn:E; [|done..]. simpl.
  intros [= <-]. simpl. f_equal. by apply (IH (i + 1)).
Qed.

Section Sound.
Context (s : LayoutDb) (rec : IpIndex -> list N -> outcome (OreLayout * list N)) (m : nat).
(** [rec], below a cycle stack that leaves [m] aggregates to nest. *)
Context (Hrec : forall t cyc L cyc', rec t cyc = Ret (L, cyc') -> (length cyc + m = 32)%nat ->
  cyc' = cyc /\ (is_known L = true -> layout_of s m t L)).

Lemma layout_fields_sound def u n : forall i L0 cyc L cyc',
  layout_fields rec s def u n i L0 cyc = Ret (L, cyc') -> (length cyc + m = 32)%nat ->
  is_known L0 = true ->
  cyc' = cyc /\ (is_known L = true -> exists ts ls, members_from s def n i = Ret ts /\
    layouts_of s m ts ls /\ L = foldl (add_field u) L0 ls).
Proof.
  induction n as [|n IH]; intros i L0 cyc L cyc' H Hm Hk; simpl in *.
  { injection H as <- <-. split; [done|]. intros _. exists [], []. split; [done|].
    split; [constructor|done]. }
  destruct (db_aggregate_field_at s def i) as [f| |]; [|done..]. cbn [obind] in *.
  destruct (rec (type f) cyc) as [[fl c]| |] eqn:E; [|done..]. cbn [obind] in *.
  destruct (Hrec _ _ _ _ E Hm) as [-> Hfl]. destruct (is_known fl) eqn:Efl.
  - destruct (IH _ _ _ _ _ H Hm) as [-> Hl].
    { unfold add_field. by destruct u. }
    split; [done|]. intros HL. destruct (Hl HL) as (ts & ls & -> & Hls & ->).
    exists (type f :: ts), (fl :: ls). split; [done|]. split; [|done]. constructor; [by apply Hfl|done].
  - injection H as <- <-. by split.
Qed.

End Sound.

Lemma layout_recurse_sound s f : forall m t cyc L cyc',
  layout_recurse f s t cyc = Ret (L, cyc') -> (length cyc + m = 32)%nat ->
  cyc' = cyc /\ (is_known L = true -> layout_of s m t L).
Proof.
  induction f as [|f IH]; intros m t cyc L cyc' H Hm; [done|]. cbn [layout_recurse] in H.
  destruct (ip_index_is_valid t) eqn:Hv; [|by injection H as <- <-]. cbn [negb] in H.
  apply valid_spec in Hv.
  destruct (ip_tag (intern s) t) eqn:Et; try (by injection H as <- <-);
    try (injection H as <- <-; split; [done|]; intros _; apply lo_word; [done|by rewrite Et]).
  - injection H as <- <-. split; [done|]. by apply lo_primitive.
  - destruct (ip_key (intern s) t) as [k| |] eqn:Ek; [|done..]. cbn [obind] in H.
    destruct (optional_key _ _ Et k Ek) as (e & ->).
    destruct (layout_recurse f s e cyc) as [[L1 c]| |] eqn:E; [|done..]. cbn [obind] in H.
    injection H as <- <-. destruct (IH m _ _ _ _ E Hm) as [-> HL]. split; [done|].
    destruct (is_known L1) eqn:E1; [|done]. intros _. by apply lo_optional with e; [..|apply HL].
  - destruct (ip_key (intern s) t) as [k| |] eqn:Ek; [|done..]. cbn [obind] in H.
    destruct (array_key _ _ Et k Ek) as (e & n & ->).
    destruct (layout_recurse f s e cyc) as [[L1 c]| |] eqn:E; [|done..]. cbn [obind] in H.
    injection H as <- <-. destruct (IH m _ _ _ _ E Hm) as [-> HL]. split; [done|].
    destruct (is_known L1) eqn:E1; [|done]. intros _. by apply lo_array with e; [..|apply HL].
  - destruct (ip_key (intern s) t) as [k| |] eqn:Ek; [|done..]. cbn [obind] in H.
    destruct (struct_key _ _ Et k Ek) as (d & ->).
    destruct (db_def_kind s d) as [kind| |] eqn:Ekind; [|done..]. cbn [obind] in H.
    unfold layout_struct_or_union in H. destruct (existsb _ _); [by injection H as <- <-|].
    destruct (N.leb_spec LAYOUT_CYCLE_STACK_MAX (N.of_nat (length cyc))) as [Hle|Hlt];
      [by injection H as <- <-|]. unfold LAYOUT_CYCLE_STACK_MAX in Hlt.
    destruct m as [|m]; [lia|].
    destruct (db_aggregate_field_count s d) as [n| |] eqn:En; [|done..]. cbn [obind] in H.
    destruct (layout_fields _ _ _ _ _ _ _ _) as [[L1 c]| |] eqn:E; [|done..]. cbn [obind] in H.
    destruct (layout_fields_sound s _ m (fun t cyc => IH m t cyc) _ _ _ _ _ _ _ _ E) as [-> HL];
      [rewrite length_app; simpl; lia|done|].
    rewrite removelast_last in H. injection H as <- <-. split; [done|].
    destruct (is_known L1) eqn:E1; [|congruence]. intros _. destruct (HL eq_refl) as (ts & ls & Hts & Hls & ->).
    apply (lo_aggregate s m t d kind ts ls); try done. unfold members. by rewrite En.
  - injection H as <- <-. split; [done|]. intros _. by apply lo_enum.
Qed.

(** ** What it does not know has no layout *)

(** The members of [d] have layouts with at most [m] nested aggregates. *)
Definition sized_def (s : LayoutDb) (m : nat) (d : N) : Prop :=
  exists ts ls, members s d = Ret ts /\ layouts_of s m ts ls.

Lemma layout_fields_unknown s rec m def u n cyc : 
  (forall t L c, rec t cyc = Ret (L, c) -> c = cyc /\
    (is_known L = false -> forall L', ~ layout_of s m t L')) ->
  forall i L0 L c, layout_fields rec s def u n i L0 cyc = Ret (L, c) ->
  is_known L0 = true -> is_known L = false ->
  forall ts ls, members_from s def n i = Ret ts -> ~ layouts_of s m ts ls.
Proof.
  intros Hrec. induction n as [|n IH]; intros i L0 L c H Hk Hu ts ls; simpl in *.
  { injection H as <- _. congruence. }
  destruct (db_aggregate_field_at s def i) as [f| |]; [|done..]. cbn [obind] in *.
  destruct (rec (type f) cyc) as [[fl c1]| |] eqn:E; [|done..]. cbn [obind] in *.
  destruct (Hrec _ _ _ E) as [-> Hfl].
  destruct (members_from s def n (i + 1)) as [ts'| |] eqn:Em; [|done..]. simpl. intros [= <-] Hls.
  inversion Hls; subst. destruct (is_known fl) eqn:Efl; [|by eapply Hfl].
  eapply (IH (i + 1) _ L c H); [by destruct u|done|exact Em|done].
Qed.

(** A type that is not an array, optional or aggregate has a layout only through its tag. *)
Ltac by_inversion := let L' := fresh in let H := fresh in intros L' H; inversion H; subst; clash.

Lemma layout_recurse_complete s f : forall n t cyc L cyc',
  layout_recurse f s t cyc = Ret (L, cyc') -> (length cyc + n <= 32)%nat ->
  (forall d m, In d cyc -> (m < n)%nat -> ~ sized_def s m d) ->
  is_known L = false -> forall L', ~ layout_of s n t L'.
Proof.
  induction f as [|f IH]; intros n t cyc L cyc' H Hn Hcyc Hu; [done|]. cbn [layout_recurse] in H.
  destruct (ip_index_is_valid t) eqn:Hv.
  2:{ intros L' H'. assert (Ht : t <> IP_NONE) by by inversion H'. apply valid_spec in Ht. congruence. }
  cbn [negb] in H. apply valid_spec in Hv.
  destruct (ip_tag (intern s) t) eqn:Et; try by_inversion; try (by injection H as <- _).
  - destruct (ip_key (intern s) t) as [k| |] eqn:Ek; [|done..]. cbn [obind] in H.
    destruct (optional_key _ _ Et k Ek) as (e & ->).
    destruct (layout_recurse f s e cyc) as [[L1 c]| |] eqn:E; [|done..]. cbn [obind] in H.
    injection H as <- _. destruct (is_known L1) eqn:E1; [done|]. intros L' H'.
    inversion H'; subst; try clash. eapply (IH n e cyc L1 c E Hn Hcyc E1).
    match goal with H : ip_key _ t = _ |- _ => rewrite Ek in H; injection H as -> end. done.
  - destruct (ip_key (intern s) t) as [k| |] eqn:Ek; [|done..]. cbn [obind] in H.
    destruct (array_key _ _ Et k Ek) as (e & cnt & ->).
    destruct (layout_recurse f s e cyc) as [[L1 c]| |] eqn:E; [|done..]. cbn [obind] in H.
    injection H as <- _. destruct (is_known L1) eqn:E1; [done|]. intros L' H'.
    inversion H'; subst; try clash. eapply (IH n e cyc L1 c E Hn Hcyc E1).
    match goal with H : ip_key _ t = _ |- _ => rewrite Ek in H; injection H as -> -> end. done.
  - destruct (ip_key (intern s) t) as [k| |] eqn:Ek; [|done..]. cbn [obind] in H.
    destruct (struct_key _ _ Et k Ek) as (d & ->).
    destruct (db_def_kind s d) as [kind| |] eqn:Ekind; [|done..]. cbn [obind] in H.
    assert (Hno : forall m, (m < n)%nat -> ~ sized_def s m d).
    2:{ intros L' H'. inversion H'; subst; try clash.
        match goal with H : ip_key _ t = _ |- _ => rewrite Ek in H; injection H as <- end.
        eapply (Hno n0); [lia|]. by eexists _, _. }
    unfold layout_struct_or_union in H.
    destruct (existsb (N.eqb d) cyc) eqn:Ex.
    { apply existsb_exists in Ex as (d' & Hd' & ->%N.eqb_eq). intros m Hm. by apply Hcyc. }
    destruct (N.leb_spec LAYOUT_CYCLE_STACK_MAX (N.of_nat (length cyc))) as [Hle|Hlt];
      unfold LAYOUT_CYCLE_STACK_MAX in *; [intros m Hm; lia|].
    destruct (db_aggregate_field_count s d) as [cnt| |] eqn:En; [|done..]. cbn [obind] in H.
    destruct (layout_fields _ _ _ _ _ _ _ _) as [[L1 c]| |] eqn:E; [|done..]. cbn [obind] in H.
    injection H as <- _. destruct (is_known L1) eqn:E1; [done|].
    intros m. induction m as [m IHm] using lt_wf_ind. intros Hm (ts & ls & Hts & Hls).
    unfold members in Hts. rewrite En in Hts. cbn [obind] in Hts. revert Hts Hls.
    refine (layout_fields_unknown s _ m d _ _ (cyc ++ [d]) _ _ _ _ _ E eq_refl E1 ts ls).
    intros t' L' c' Hr.
    destruct (layout_recurse_sound s f (32 - length (cyc ++ [d])) _ _ _ _ Hr) as [-> _];
      [rewrite length_app; simpl; lia|]. split; [done|].
    apply (IH m _ _ _ _ Hr); [rewrite length_app; simpl; lia|].
    intros d' m' Hin Hm'. apply in_app_or in Hin as [Hin|[<-|[]]]; [apply Hcyc; [done|lia]|].
    apply IHm; lia.
Qed.

(** ** It returns *)

Definition elem_of_key (k : IpKey) : option IpIndex :=
  match k with IPK_ARRAY_TYPE e _ | IPK_OPTIONAL_TYPE e => Some e | _ => None end.

(** A database whose columns are in order: indices read back, arrays and optionals are
    interned after their element, the members of aggregates are in the pool. *)
Record layout_wf (s : LayoutDb) : Prop := {
  lw_key t : exists k, ip_key (intern s) t = Ret k;
  lw_below t k e : ip_key (intern s) t = Ret k -> elem_of_key k = Some e -> e < t;
  lw_def t d : ip_key (intern s) t = Ret (IPK_STRUCT_TYPE d) ->
    exists kind ts, db_def_kind s d = Ret kind /\ members s d = Ret ts
}.

(** How deep the calls from [t] nest. *)
Definition depth_from (s : LayoutDb) (t : IpIndex) (cyc : list N) : nat :=
  let c := length (items (intern s)) in
  (32 - length cyc) * (c + 2) + Nat.min (N.to_nat t) c + 1.

Lemma layout_fields_total s rec def u n cyc : (forall t, exists L, rec t cyc = Ret (L, cyc)) ->
  forall i L0 ts, members_from s def n i = Ret ts ->
  exists L, layout_fields rec s def u n i L0 cyc = Ret (L, cyc).
Proof.
  intros Hrec. induction n as [|n IH]; intros i L0 ts; simpl; [by eexists|].
  destruct (db_aggregate_field_at s def i) as [f| |]; [|done..]. cbn [obind].
  destruct (members_from s def n (i + 1)) as [ts'| |] eqn:E; [|done..]. intros _.
  destruct (Hrec (type f)) as (fl & ->). cbn [obind]. destruct (is_known fl); [|by eexists].
  by apply (IH (i + 1) _ ts').
Qed.

Lemma ip_tag_bound p t : ip_tag p t <> IP_TAG_REMOVED -> (N.to_nat t < length (items p))%nat.
Proof.
  unfold ip_tag. destruct (items p !! N.to_nat t) as [[tag data]|] eqn:E; [|done].
  intros _. by apply lookup_lt_Some in E.
Qed.

Lemma layout_recurse_total s : layout_wf s -> forall f t cyc, (length cyc <= 32)%nat ->
  (depth_from s t cyc <= f)%nat -> exists L, layout_recurse f s t cyc = Ret (L, cyc).
Proof.
  intros W. induction f as [|f IH]; intros t cyc Hc Hf; [unfold depth_from in Hf; by apply Nat.le_0_r in Hf; rewrite Nat.add_comm in Hf|].
  cbn [layout_recurse]. destruct (ip_index_is_valid t); [|by eexists]. cbn [negb].
  assert (Helem : forall e, ip_tag (intern s) t <> IP_TAG_REMOVED -> e < t ->
    exists L, layout_recurse f s e cyc = Ret (L, cyc)).
  { intros e Ht He. apply ip_tag_bound in Ht. apply IH; [done|]. unfold depth_from in *.
    remember ((32 - length cyc) * _)%nat as base. lia. }
  destruct (lw_key s W t) as [k Hk].
  destruct (ip_tag (intern s) t) eqn:Et; try by eexists.
  - destruct (optional_key _ _ Et k Hk) as (e & ->). rewrite Hk. cbn [obind].
    destruct (Helem e) as (L & ->); [done|by apply (lw_below s W t _ e Hk)|]. by eexists.
  - destruct (array_key _ _ Et k Hk) as (e & n & ->). rewrite Hk. cbn [obind].
    destruct (Helem e) as (L & ->); [done|by apply (lw_below s W t _ e Hk)|]. by eexists.
  - destruct (struct_key _ _ Et k Hk) as (d & ->). rewrite Hk. cbn [obind].
    destruct (lw_def s W t d Hk) as (kind & ts & -> & Hm). cbn [obind].
    unfold layout_struct_or_union. destruct (existsb _ _); [by eexists|].
    destruct (N.leb_spec LAYOUT_CYCLE_STACK_MAX (N.of_nat (length cyc))) as [Hle|Hlt];
      [by eexists|]. unfold LAYOUT_CYCLE_STACK_MAX in Hlt.
    unfold members in Hm. destruct (db_aggregate_field_count s d) as [n| |]; [|done..].
    cbn [obind] in *.
    destruct (layout_fields_total s (layout_recurse f s) d
      (match kind with KIND_UNION => true | _ => false end) (N.to_nat n) (cyc ++ [d])) with
      (i := 0) (L0 := mkLayout 0 1 true) (ts := ts) as (L & ->); [|done|].
    + intros t'. apply IH; [rewrite length_app; simpl; lia|]. unfold depth_from in *.
      rewrite length_app. simpl.
      assert (Hd : (32 - length cyc = S (32 - (length cyc + 1)))%nat) by lia. rewrite Hd, Nat.mul_succ_l in Hf.
      pose proof (Nat.le_min_r (N.to_nat t') (length (items (intern s)))).
      remember ((32 - (length cyc + 1)) * _)%nat as base. lia.
    + cbn [obind]. rewrite removelast_last. by eexists.
Qed.

Lemma layout_fuel_enough s t : (depth_from s t [] <= layout_fuel s)%nat.
Proof.
  unfold depth_from, layout_fuel. simpl length.
  pose proof (Nat.le_min_r (N.to_nat t) (length (items (intern s)))). lia.
Qed.

End TypeLayoutFacts.

Import InternPool InternFacts InternInv InternTheorems Position TypeLayout TypeLayoutFacts.

Module TypeLayoutTheorems.

#[local] Open Scope N_scope.

(** C24: On a database in order the layout of a type returns, and is known exactly when the
    type contains its members by value in a finite tree of at most 32 nested aggregates: the
    cycle stack rejects no type that has a layout, and the answer does not depend on it. *)
Theorem layout_decided s t : layout_wf s -> exists L, db_layout_of_type s t = Ret L /\
  (is_known L = true <-> exists L', layout_of s 32 t L') /\
  (forall n L', (n <= 32)%nat -> layout_of s n t L' -> L = L').
Proof.
  intros W. unfold db_layout_of_type.
  destruct (layout_recurse_total s W (layout_fuel s) t []) as (L & E); [simpl; lia|apply layout_fuel_enough|].
  rewrite E. exists L. split; [done|].
  destruct (layout_recurse_sound s _ 32 _ _ _ _ E eq_refl) as [_ Hs].
  pose proof (fun n Hn => layout_recurse_complete s _ n t [] _ _ E Hn ltac:(by intros)) as Hc.
  destruct (is_known L) eqn:EL.
  - specialize (Hs eq_refl). split; [split; [by exists L|done]|].
    intros n L' _ HL'. by eapply (layout_of_fun s).
  - split; [split; [done|]|].
    + intros [L' HL']. by destruct (Hc 32%nat ltac:(simpl; lia) eq_refl L').
    + intros n L' Hn HL'. by destruct (Hc n ltac:(simpl; lia) eq_refl L').
Qed.

(** ** Alignment *)

Definition good_align (a : N) : Prop := a = 1 \/ a = 2 \/ a = 4 \/ a = 8.

Lemma good_align_pos a : good_align a -> 0 < a.
Proof. unfold good_align. lia. Qed.

Lemma good_align_pow a : good_align a -> exists k, a = 2 ^ k /\ k <= 3.
Proof. intros [-> | [-> | [-> | ->]]]; [by exists 0|by exists 1|by exists 2|by exists 3]. Qed.

Lemma good_align_max a b : good_align a -> good_align b -> good_align (if a <? b then b else a).
Proof. by destruct (a <? b). Qed.

(** Reducing modulo 2^64 keeps the residue. *)
Lemma u64_mod a x : good_align a -> u64 x mod a = x mod a.
Proof.
  intros (k & -> & Hk)%good_align_pow. unfold u64.
  assert (E : x = x mod 2 ^ 64 + 2 ^ (64 - k) * (x / 2 ^ 64) * 2 ^ k).
  { assert (Hp : 2 ^ (64 - k) * 2 ^ k = 2 ^ 64) by (rewrite <- N.pow_add_r; f_equal; lia).
    rewrite (N.div_mod' x (2 ^ 64)) at 1. rewrite <- Hp. lia. }
  rewrite E at 2. by rewrite N.Div0.mod_add.
Qed.

Lemma pad_to_div x a : good_align a -> pad_to x a = u64 (x + a - 1) / a * a.
Proof.
  intros (k & -> & _)%good_align_pow. unfold pad_to.
  replace (2 ^ k - 1) with (N.ones k) by by rewrite N.ones_equiv, N.sub_1_r.
  by rewrite N.ldiff_ones_r, N.shiftl_mul_pow2, N.shiftr_div_pow2.
Qed.

Lemma pad_to_mod x a : good_align a -> pad_to x a mod a = 0.
Proof. intros Ha. rewrite pad_to_div by done. apply N.Div0.mod_mul. Qed.

Lemma pad_to_exact x a : good_align a -> x + 8 < 2 ^ 64 -> x <= pad_to x a < x + a.
Proof.
  intros Ha Hx. rewrite pad_to_div by done. pose proof (good_align_pos a Ha).
  assert (Hle : a <= 8) by (unfold good_align in Ha; lia).
  unfold u64. rewrite N.mod_small by lia.
  pose proof (N.div_mod' (x + a - 1) a). pose proof (N.mod_lt (x + a - 1) a ltac:(lia)).
  remember ((x + a - 1) / a) as q. remember ((x + a - 1) mod a) as r. nia.
Qed.

(** A layout the code answers as known. *)
Definition good_layout (L : OreLayout) : Prop :=
  is_known L = true /\ good_align (align L) /\ size L mod align L = 0.

Lemma primitive_good t : is_known (primitive_layout t) = true -> good_layout (primitive_layout t).
Proof.
  unfold primitive_layout, good_layout, good_align.
  repeat match goal with |- context [if ?b then _ else _] => destruct b end; simpl; try done; auto 10.
Qed.

Lemma add_field_align u ls : forall L, good_align (align L) -> Forall good_layout ls ->
  good_align (align (foldl (add_field u) L ls)).
Proof.
  induction ls as [|l ls IH]; intros L HL Hls; [done|]. apply Forall_cons in Hls as [Hl Hls].
  simpl. apply IH; [|done]. unfold add_field. destruct u; by apply good_align_max, Hl.
Qed.

Lemma tail_pad_good L : good_align (align L) -> good_layout (tail_pad L).
Proof.
  intros Ha. unfold tail_pad, good_layout. simpl.
  rewrite (proj2 (N.ltb_lt 0 (align L))) by by apply good_align_pos.
  split; [done|]. split; [done|]. by apply pad_to_mod.
Qed.

Lemma array_good L n : good_layout L -> good_layout (array_layout L n).
Proof.
  intros (Hk & Ha & Hm). split; [done|]. split; [done|]. unfold array_layout. simpl.
  rewrite u64_mod by done. apply N.Div0.mod_divides in Hm as [c ->].
  replace (align L * c * n) with (c * n * align L) by lia. apply N.Div0.mod_mul.
Qed.

Lemma optional_good L : good_layout L -> good_layout (optional_layout L).
Proof.
  intros (Hk & Ha & Hm). unfold optional_layout, good_layout. simpl.
  rewrite (proj2 (N.ltb_lt 0 (align L))) by by apply good_align_pos.
  split; [done|]. split; [done|]. by apply pad_to_mod.
Qed.

Lemma layout_of_good s : (forall n t L, layout_of s n t L -> good_layout L) /\
  (forall n ts ls, layouts_of s n ts ls -> Forall good_layout ls).
Proof.
  apply layout_mutind; intros.
  - by apply primitive_good.
  - split; [done|]. split; [unfold good_align, word_layout, PTR_ALIGN; simpl; auto|].
    unfold word_layout, PTR_SIZE, PTR_ALIGN. simpl. apply N.Div0.mod_mul.
  - split; [done|]. split; [unfold good_align; simpl; auto|done].
  - by apply array_good.
  - by apply optional_good.
  - apply tail_pad_good, add_field_align; [left; done|done].
  - constructor.
  - by constructor.
Qed.

(** ** Members of a struct *)

(** From [pos] on, each member starts at the first multiple of its alignment that is not
    below the end of the member before it; [e] is the end of the last. *)
Inductive Placed : N -> list OreLayout -> list N -> N -> Prop :=
  | placed_nil pos : Placed pos [] [] pos
  | placed_cons pos L ls o offs e :
      pos <= o < pos + align L -> o mod align L = 0 ->
      Placed (o + size L) ls offs e -> Placed pos (L :: ls) (o :: offs) e.

(** What the members take at most, padding included. *)
Definition room (ls : list OreLayout) : N := foldr (fun L n => size L + 8 + n) 0 ls.

Lemma add_fields_placed ls : forall L0, Forall good_layout ls -> size L0 + room ls + 8 < 2 ^ 64 ->
  let L := foldl (add_field false) L0 ls in
  (exists offs, Placed (size L0) ls offs (size L)) /\ size L <= size L0 + room ls /\
  align L0 <= align L /\ forall l, l ∈ ls -> align l <= align L.
Proof.
  induction ls as [|l ls IH]; intros L0 Hls Hr; cbn [foldl].
  { simpl. split; [by eexists; constructor|]. split; [lia|]. split; [done|]. by intros l ?%elem_of_nil. }
  apply Forall_cons in Hls as [(Hk & Ha & _) Hls].
  change (room (l :: ls)) with (size l + 8 + room ls) in *.
  pose proof (good_align_pos _ Ha) as Hpos.
  assert (Hle : align l <= 8) by (unfold good_align in Ha; lia).
  destruct (pad_to_exact (size L0) (align l) Ha) as [Hp1 Hp2]; [lia|].
  assert (E : add_field false L0 l = mkLayout (pad_to (size L0) (align l) + size l)
      (if align L0 <? align l then align l else align L0) true).
  { unfold add_field. rewrite (proj2 (N.ltb_lt 0 (align l))) by done. f_equal.
    unfold u64. apply N.mod_small. lia. }
  rewrite E. destruct (IH (mkLayout (pad_to (size L0) (align l) + size l)
      (if align L0 <? align l then align l else align L0) true) Hls) as ((offs & Hpl) & Hs & Hal & Hall);
    [simpl; lia|]. simpl in *.
  split; [|split; [lia|split]].
  - exists (pad_to (size L0) (align l) :: offs). constructor; [lia|by apply pad_to_mod|done].
  - destruct (N.ltb_spec (align L0) (align l)); lia.
  - intros x [->|Hx]%elem_of_cons; [|by apply Hall].
    destruct (N.ltb_spec (align L0) (align l)); lia.
Qed.

(** A struct whose members have layouts is known: its members lie one after the other,
    each at the first multiple of its alignment, the struct ends less than its alignment
    after the last of them, its alignment is a power of two at least that of every member,
    and its size a multiple of it. *)
Theorem struct_members_placed s n t d ts ls : layout_wf s -> t <> IP_NONE ->
  ip_key (intern s) t = Ret (IPK_STRUCT_TYPE d) -> db_def_kind s d = Ret KIND_STRUCT ->
  members s d = Ret ts -> layouts_of s n ts ls -> (n <= 31)%nat -> room ls + 8 < 2 ^ 64 ->
  exists L offs e, db_layout_of_type s t = Ret L /\ is_known L = true /\
    Placed 0 ls offs e /\ e <= size L < e + align L /\ good_align (align L) /\
    size L mod align L = 0 /\ forall l, l ∈ ls -> align l <= align L.
Proof.
  intros W H0 Hk Hd Hm Hls Hn Hr. destruct (layout_decided s t W) as (L & E & _ & Hf).
  pose proof (lo_aggregate s n t d _ ts ls H0 Hk Hd Hm Hls) as HL.
  pose proof (proj1 (layout_of_good s) _ _ _ HL) as (Hkn & Hal & Hmod).
  pose proof (Hf (S n) _ ltac:(lia) HL) as EL. unfold aggregate_layout in *. cbn [is_union_kind] in *.
  pose proof (proj2 (layout_of_good s) _ _ _ Hls) as Hgood.
  pose proof (add_fields_placed ls (mkLayout 0 1 true) Hgood) as Hp. cbv zeta in Hp.
  set (L1 := foldl (add_field false) (mkLayout 0 1 true) ls) in *. cbn [size align] in Hp.
  destruct Hp as ((offs & Hpl) & Hs & _ & Hall); [lia|].
  assert (Ha1 : good_align (align L1)) by exact Hal.
  exists (tail_pad L1), offs, (size L1). rewrite E, EL.
  split; [done|]. split; [done|]. split; [done|]. split; [|by split].
  unfold tail_pad. simpl. rewrite (proj2 (N.ltb_lt 0 (align L1))) by by apply good_align_pos.
  apply pad_to_exact; [done|lia].
Qed.

(** ** A database *)

(** The conditions on the pool hold of every pool whose arrays and optionals were interned
    after their element. *)
Lemma pool_layout_wf s st : related (intern s) st ->
  (forall i k e, Spec.keys st !! i = Some (Some k) -> elem_of_key k = Some e ->
     e < FIRST_COMPOUND + N.of_nat i) ->
  (forall i d, Spec.keys st !! i = Some (Some (IPK_STRUCT_TYPE d)) ->
     exists kind ts, db_def_kind s d = Ret kind /\ members s d = Ret ts) -> layout_wf s.
Proof.
  intros [g R] Hb Hd.
  assert (Hkey : forall t k, ip_key (intern s) t = Ret k -> elem_of_key k <> None \/ (exists d, k = IPK_STRUCT_TYPE d) ->
    exists i, t = FIRST_COMPOUND + N.of_nat i /\ Spec.keys st !! i = Some (Some k)).
  { intros t k. rewrite (key_refines _ st g t R). intros [= <-] Hk.
    destruct (N.lt_ge_cases t FIRST_COMPOUND) as [Ht|Ht].
    - exfalso. unfold Spec.key in Hk. rewrite (proj2 (N.ltb_lt _ _) Ht) in Hk.
      repeat match type of Hk with context [if ?b then _ else _] => destruct b end;
        by destruct Hk as [?|[d ?]].
    - remember (N.to_nat (t - FIRST_COMPOUND)) as i eqn:Ei.
      assert (t = FIRST_COMPOUND + N.of_nat i) as -> by lia. exists i. split; [done|].
      rewrite key_compound in Hk |- *.
      destruct (Spec.keys st !! i) as [[k|]|]; [done|by destruct Hk as [?|[d ?]]..]. }
  split.
  - intros t. eexists. by apply key_refines with g.
  - intros t k e Hk He. destruct (Hkey t k Hk) as (i & -> & Hi); [left; congruence|]. by eapply Hb.
  - intros t d Hk. destruct (Hkey t _ Hk) as (i & -> & Hi); [by right; eexists|]. by eapply Hd.
Qed.

(** Two structs, the second a member of itself, over a pool with [4]u8 and ?[4]u8. *)
Definition sample_ops : list Op :=
  [Get (IPK_ARRAY_TYPE IP_INDEX_U8_TYPE 4); Get (IPK_STRUCT_TYPE 1); Get (IPK_OPTIONAL_TYPE 33);
   Get (IPK_STRUCT_TYPE 2)].

Definition sample_db (p : InternPool) : LayoutDb :=
  mkLayoutDb p [KIND_NONE; KIND_STRUCT; KIND_STRUCT] [0; 0; 1] [0; 3] [3; 1] [] []
    [mkField 1 IP_INDEX_U8_TYPE; mkField 2 IP_INDEX_U32_TYPE; mkField 3 35; mkField 4 36].

Lemma sample_ok : exists p, layout_wf (sample_db p) /\
  ip_tag p 2 = IP_TAG_PRIMITIVE_TYPE /\ ip_tag p 6 = IP_TAG_PRIMITIVE_TYPE /\
  ip_key p 33 = Ret (IPK_ARRAY_TYPE 2 4) /\ ip_key p 34 = Ret (IPK_STRUCT_TYPE 1) /\
  ip_key p 35 = Ret (IPK_OPTIONAL_TYPE 33).
Proof.
  destruct (pool_session_ok 16 64 sample_ops) as (p & E & R & _).
  { split; [by exists 4|]. split; [done|]. split; [|done]. repeat (constructor; [done|]). constructor. }
  exists p. split; [|pose proof R as [g R1]; rewrite !(key_refines p _ g _ R1)].
  - clear E. eapply pool_layout_wf; [exact R|..].
    + intros i k e. vm_compute (Spec.keys _). do 9 (destruct i as [|i]; [intros [= <-]; by intros [= <-]|]). done.
    + intros i d. vm_compute (Spec.keys _).
      do 9 (destruct i as [|i]; [intros [= <-]; by eexists _, _|]). done.
  - assert (Ht : match session 16 64 sample_ops with
      | Ret (_, p) => ip_tag p 2 = IP_TAG_PRIMITIVE_TYPE /\ ip_tag p 6 = IP_TAG_PRIMITIVE_TYPE
      | _ => False end) by (vm_compute; split; reflexivity).
    rewrite E in Ht. clear E. destruct Ht as [-> ->]. by vm_compute.
Qed.

Lemma layout_decided_witness : exists s L, db_layout_of_type s 33 = Ret L /\ is_known L = true.
Proof.
  destruct sample_ok as (p & W & H2 & _ & H33 & _).
  destruct (layout_decided (sample_db p) 33 W) as (L & E & [_ Hk] & _). exists (sample_db p), L.
  split; [exact E|]. apply Hk. eexists. eapply lo_array; [discriminate|exact H33|].
  apply lo_primitive; [discriminate|exact H2|reflexivity].
Defined.

Lemma struct_members_placed_witness : exists s L offs e,
  db_layout_of_type s 34 = Ret L /\ is_known L = true /\
  Placed 0 [mkLayout 1 1 true; mkLayout 4 4 true; mkLayout 5 1 true] offs e /\
  e <= size L < e + align L.
Proof.
  destruct sample_ok as (p & W & H2 & H6 & H33 & H34 & H35). exists (sample_db p).
  destruct (struct_members_placed (sample_db p) 0 34 1 [2; 6; 35]
    [mkLayout 1 1 true; mkLayout 4 4 true; mkLayout 5 1 true]) as (L & offs & e & E & Hk & Hp & Hs & _).
  - exact W.
  - discriminate.
  - exact H34.
  - reflexivity.
  - reflexivity.
  - constructor; [apply (lo_primitive (sample_db p) 0 2); [discriminate|exact H2|reflexivity]|].
    constructor; [apply (lo_primitive (sample_db p) 0 6); [discriminate|exact H6|reflexivity]|].
    constructor; [|constructor].
    apply (lo_optional (sample_db p) 0 35 33 (mkLayout 4 1 true)); [discriminate|exact H35|].
    apply (lo_array (sample_db p) 0 33 2 4 (mkLayout 1 1 true)); [discriminate|exact H33|].
    apply (lo_primitive (sample_db p) 0 2); [discriminate|exact H2|reflexivity].
  - lia.
  - reflexivity.
  - exists L, offs, e. split; [exact E|]. split; [exact Hk|]. split; [exact Hp|exact Hs].
Defined.

(** ** Integer ranges *)

(** At the widths of the integer types the range checks are exactly the ranges of
    two's complement and of unsigned integers. *)
Theorem int_fits_ranges v bits : In bits [8; 16; 32; 64] -> (- 2 ^ 63 <= v < 2 ^ 63)%Z ->
  ((int_fits_signed v bits).1.1 = true <->
     (- 2 ^ (Z.of_N bits - 1) <= v < 2 ^ (Z.of_N bits - 1))%Z) /\
  ((int_fits_unsigned v bits).1.1 = true <-> (0 <= v < 2 ^ Z.of_N bits)%Z).
Proof.
  intros Hb Hv. unfold int_fits_unsigned, u64_of_Z.
  assert (Hu : (0 <= v)%Z -> Z.to_N (v mod 2 ^ 64) = Z.to_N v).
  { intros H. by rewrite Z.mod_small by lia. }
  destruct Hb as [<-|[<-|[<-|[<-|[]]]]]; unfold int_fits_signed, int_fits_unsigned_u64;
    cbn [N.eqb Pos.eqb fst snd];
    destruct (Z.ltb_spec v 0); try rewrite Hu by done; cbn [fst snd];
    rewrite ?andb_true_iff, ?Z.leb_le, ?N.leb_le; simpl; split; split; intros; try done; lia.
Qed.

Lemma int_fits_ranges_witness : (int_fits_signed (-129) 8).1.1 = false /\
  (int_fits_unsigned 4294967295 32).1.1 = true.
Proof.
  split.
  - destruct (int_fits_signed (-129) 8).1.1 eqn:E; [|done].
    apply (int_fits_ranges (-129) 8) in E; [lia|by left|lia].
  - apply (int_fits_ranges 4294967295 32); [by right; right; left|lia|lia].
Defined.

End TypeLayoutTheorems.
