(* ===== verification/InternApi.v ===== *)
(** * The intern pool, for its clients

    What the code that reads and interns types relies on: live indices keep their keys when
    others are interned ([extends]), an interned key reads back, and two live indices with
    the same key are the same.  Derived from the invariant [InternInv.inv] once, so that
    clients need not open it. *)

From S2P Require Import Prelude Arena InternPool InternFacts InternGet InternTheorems.
Import Arena InternPool InternFacts InternInv InternGet InternTheorems.

Module InternApi.

#[local] Open Scope N_scope.

(** The live index [i] stands for [k]. *)
Definition reads (p : InternPool) (i : IpIndex) (k : IpKey) : Prop :=
  ip_tag p i <> IP_TAG_REMOVED /\ ip_key p i = Ret k.

(** A pool in order that still has its empty row. *)
Definition pool_ok (p : InternPool) : Prop :=
  (exists g, inv everything p g) /\ reads p IP_EMPTY_EFFECT_ROW (IPK_EFFECT_ROW [] IP_EMPTY_EFFECT_ROW).

(** Room for [n] more items and [b] more bytes of payload. *)
Definition room (n b : N) (p : InternPool) : Prop :=
  items_count p + n < 2 ^ 32 /\ arena_total_used (extra_arena p) + b < 2 ^ 32.

(** What was live reads the same. *)
Definition extends (p p' : InternPool) : Prop :=
  forall i, ip_tag p i <> IP_TAG_REMOVED -> ip_tag p' i = ip_tag p i /\ ip_key p' i = ip_key p i.

Lemma extends_refl p : extends p p.
Proof. by intros i. Qed.

Lemma extends_trans p p1 p2 : extends p p1 -> extends p1 p2 -> extends p p2.
Proof.
  intros H1 H2 i Hi. destruct (H1 i Hi) as [E1 K1]. rewrite <- E1 in Hi.
  destruct (H2 i Hi) as [E2 K2]. by rewrite E2, K2, E1.
Qed.

Lemma reads_extends p p' i k : extends p p' -> reads p i k -> reads p' i k.
Proof. intros He [Ht Hk]. destruct (He i Ht) as [Et Ek]. split; [by rewrite Et|by rewrite Ek]. Qed.

Lemma reads_fun p i k k' : reads p i k -> reads p i k' -> k = k'.
Proof. intros [_ H1] [_ H2]. congruence. Qed.

Lemma room_le n b n' b' p : room n b p -> n' <= n -> b' <= b -> room n' b' p.
Proof. unfold room. lia. Qed.

(** ** Indices and ghost keys *)

(** A primitive, a reserved value or the none index. *)
Lemma low_reads p g i : inv everything p g -> i < FIRST_COMPOUND ->
  ip_tag p i = match i with 0 => IP_TAG_NONE | _ => if i <=? 21 then IP_TAG_PRIMITIVE_TYPE else IP_TAG_RESERVED_VALUE end /\
  ip_key p i = Ret (match i with 0 => error_key | _ => if i <=? 21 then IPK_PRIMITIVE_TYPE i else IPK_RESERVED_VALUE i end).
Proof.
  intros I Hi. unfold ip_tag, ip_key, ip_key_internal. rewrite (proj1 (iv_reserved _ p g I i Hi)).
  revert i Hi. apply below_28. intros n Hn. rewrite Nat2N.id.
  do 28 (destruct n as [|n]; [done|]). lia.
Qed.

Lemma ghost_reads p g i k : inv everything p g -> g i = Some k -> ip_tag p i <> IP_TAG_REMOVED ->
  reads p i k /\ ip_tag p i = tag_for_key k.
Proof.
  intros I Hg Hl. split; [split; [done|by apply (decode _ p g I)]|].
  destruct (live_item _ p g I i k Hg Hl) as (data & E & _). unfold ip_tag. by rewrite E.
Qed.

Lemma reads_ghost p g i k : inv everything p g -> reads p i k -> compound k = true -> g i = Some k.
Proof.
  intros I [Hl Hk] Hc. destruct (N.lt_ge_cases i FIRST_COMPOUND) as [Hi|Hi].
  { destruct (low_reads p g i I Hi) as [_ E]. rewrite E in Hk. injection Hk as <-.
    destruct i; [done|]. by destruct (_ <=? _). }
  destruct (N.lt_ge_cases i (items_count p)) as [Hlt|Hge]; [|by apply (live_out _ p g i I) in Hge].
  destruct (iv_key _ p g I i Hi Hlt) as (k' & data & Hg & _).
  destruct (ghost_reads p g i k' I Hg Hl) as [[_ Hk'] _]. congruence.
Qed.

Lemma reads_ok p i k : pool_ok p -> reads p i k -> compound k = true ->
  key_ok k /\ norm k = k /\ ip_tag p i = tag_for_key k /\ FIRST_COMPOUND <= i.
Proof.
  intros [[g I] _] Hr Hc. pose proof (reads_ghost p g i k I Hr Hc) as Hg.
  destruct (compound_key _ p g I i k Hg) as (Hok & _ & Hn).
  split; [done|]. split; [done|]. split; [by apply (ghost_reads p g); [..|apply Hr]|].
  by apply (compound_range _ p g I i k Hg).
Qed.

Lemma reads_inj p i j k : pool_ok p -> compound k = true -> reads p i k -> reads p j k -> i = j.
Proof.
  intros [[g I] _] Hc Hi Hj. apply (iv_nodup _ p g I i j k);
    [by apply (reads_ghost p)|by apply (reads_ghost p)|apply Hi|apply Hj].
Qed.

(** The tags of keys. *)
Lemma tag_reads p i : pool_ok p -> ip_tag p i <> IP_TAG_REMOVED -> exists k, reads p i k /\
  (compound k = true -> ip_tag p i = tag_for_key k) /\
  (compound k = false -> ip_tag p i = IP_TAG_NONE \/ ip_tag p i = tag_for_key k).
Proof.
  intros [[g I] _] Hl. destruct (N.lt_ge_cases i FIRST_COMPOUND) as [Hi|Hi].
  { destruct (low_reads p g i I Hi) as [Et Ek]. eexists. split; [by split|]. rewrite Et.
    destruct i; [split; [done|by left]|]. destruct (_ <=? _); (split; [done|by right]). }
  destruct (N.lt_ge_cases i (items_count p)) as [Hlt|Hge]; [|by apply (live_out _ p g i I) in Hge].
  destruct (iv_key _ p g I i Hi Hlt) as (k' & data & Hg & _ & Hc & _).
  destruct (ghost_reads p g i k' I Hg Hl) as [Hr Ht]. exists k'. split; [done|]. split; [done|].
  congruence.
Qed.

Lemma tag_key p i : pool_ok p -> ip_tag p i <> IP_TAG_REMOVED -> ip_tag p i <> IP_TAG_NONE ->
  exists k, reads p i k /\ ip_tag p i = tag_for_key k.
Proof.
  intros Hp Hl Hn. destruct (tag_reads p i Hp Hl) as (k & Hr & H1 & H2). exists k. split; [done|].
  destruct (compound k); [by apply H1|]. by destruct (H2 eq_refl).
Qed.

Lemma effect_row_reads p i : pool_ok p -> ip_tag p i = IP_TAG_EFFECT_ROW ->
  exists l t, reads p i (IPK_EFFECT_ROW l t).
Proof.
  intros Hp Ht. destruct (tag_key p i Hp) as (k & Hr & Hk); [congruence..|]. rewrite Ht in Hk.
  destruct k; simpl in Hk; try destruct is_const; try done. by eexists _, _.
Qed.

Lemma row_var_reads p i : pool_ok p -> ip_tag p i = IP_TAG_ROW_VAR -> exists id, reads p i (IPK_ROW_VAR id).
Proof.
  intros Hp Ht. destruct (tag_key p i Hp) as (k & Hr & Hk); [congruence..|]. rewrite Ht in Hk.
  destruct k; simpl in Hk; try destruct is_const; try done. by eexists.
Qed.

(** ** Interning *)

Lemma inv_extends p p' g g' : inv everything p g -> inv everything p' g' ->
  (forall i k, g i = Some k -> g' i = Some k) ->
  (forall i, ip_tag p i <> IP_TAG_REMOVED -> ip_tag p' i <> IP_TAG_REMOVED) -> extends p p'.
Proof.
  intros I I' Hg Hl i Hi. destruct (N.lt_ge_cases i FIRST_COMPOUND) as [Hlow|Hhigh].
  { destruct (low_reads p g i I Hlow) as [-> ->]. by destruct (low_reads p' g' i I' Hlow) as [-> ->]. }
  destruct (N.lt_ge_cases i (items_count p)) as [Hlt|Hge]; [|by apply (live_out _ p g i I) in Hge].
  destruct (iv_key _ p g I i Hhigh Hlt) as (k & data & Hk & _).
  destruct (ghost_reads p g i k I Hk Hi) as [[_ E1] T1].
  destruct (ghost_reads p' g' i k I' (Hg i k Hk) (Hl i Hi)) as [[_ E2] T2]. by rewrite E1, E2, T1, T2.
Qed.

(** Interning a compound key: an index that reads back as it; nothing live changes. *)
Lemma intern_get_ok p k n b : pool_ok p -> key_ok k -> compound k = true -> room (n + 1) (key_cost k + b) p ->
  exists i p', ip_get k p = Ret (i, p') /\ pool_ok p' /\ room n b p' /\ extends p p' /\
    reads p' i (norm k).
Proof.
  intros [[g I] He] Hok Hc [Hr1 Hr2].
  destruct (ip_get_compound_ok p g k I Hok Hc ltac:(lia) ltac:(lia))
    as (i & p' & E & _ & _ & Hcost & Hcase).
  assert (Hget : ip_get k p = ip_get_compound k p) by by destruct k.
  exists i, p'. rewrite Hget, E. split; [done|].
  assert (Hall : (exists g', inv everything p' g' /\ g' i = Some (norm k) /\ live p' i /\ extends p p') /\
    items_count p' <= items_count p + 1).
  { destruct Hcase as [(Hg & Hl & Eit & I')|(Hno & -> & I' & Hl & Hlv & Hcount)].
    - split; [|unfold items_count; rewrite Eit; lia]. exists g.
      assert (Ht : forall j, ip_tag p' j = ip_tag p j) by (intros; unfold ip_tag; by rewrite Eit).
      split; [done|]. split; [done|]. split; [unfold live; by rewrite Ht|].
      apply (inv_extends p p' g g I I'); [done|]. intros j. by rewrite Ht.
    - split; [|lia]. exists (extended g (items_count p) (norm k)). split; [done|].
      split; [unfold extended; by rewrite N.eqb_refl|]. split; [done|].
      apply (inv_extends p p' g _ I I').
      + intros j k' Hj. unfold extended. destruct (N.eqb_spec j (items_count p)) as [->|]; [|done].
        by rewrite (iv_out _ p g I) in Hj.
      + intros j Hj. destruct (N.eq_dec j (items_count p)) as [->|Hne]; [done|by apply Hlv]. }
  destruct Hall as [(g' & I' & Hg' & Hl' & Hext) Hcount].
  split; [split; [by exists g'|by apply (reads_extends p)]|].
  split; [unfold room; lia|]. split; [done|]. by apply (ghost_reads p' g').
Qed.

(** The initial pool. *)
Lemma init_pool_ok n chunk : StringPoolTheorems.StringPoolFacts.slots_pow2 n -> 64 <= chunk <= 2 ^ 61 ->
  exists p, ip_init_with n chunk = Ret p /\ pool_ok p /\ items_count p = IP_RESERVED_COUNT /\
    arena_total_used (extra_arena p) <= 16.
Proof.
  intros Hn Hc. destruct (init_refines n chunk Hn Hc) as (p & E & [g R] & Hi & Ha).
  exists p. split; [done|]. split; [|done]. pose proof (rf_inv p _ g R) as I.
  split; [by exists g|].
  assert (Hg : g IP_EMPTY_EFFECT_ROW = Some (IPK_EFFECT_ROW [] IP_EMPTY_EFFECT_ROW) /\ live p IP_EMPTY_EFFECT_ROW).
  { change IP_EMPTY_EFFECT_ROW with (FIRST_COMPOUND + N.of_nat 4) at 1 3.
    by apply (rf_keys p _ g R 4). }
  by apply (ghost_reads p g); [|apply Hg..].
Qed.

(** The pool after a session that keeps its empty row. *)
Lemma session_pool_ok n chunk os : session_fits n chunk os ->
  match session n chunk os with
  | Ret (_, p) => reads p IP_EMPTY_EFFECT_ROW (IPK_EFFECT_ROW [] IP_EMPTY_EFFECT_ROW)
  | _ => False
  end -> exists l p, session n chunk os = Ret (l, p) /\ pool_ok p.
Proof.
  intros Hf Hr. destruct (pool_session_ok n chunk os Hf) as (p & E & [g R] & _).
  rewrite E in Hr. eexists _, p. split; [exact E|]. split; [exists g; by eapply rf_inv|done].
Qed.

End InternApi.

(** ** Pools to apply theorems to

    Two sessions of the intern pool and what their indices read back as: effect rows over two
    row variables, and comptime values with types over a hole. *)

Module SamplePools.

Import InternApi.

#[local] Open Scope N_scope.

Definition rows_ops : list Op :=
  [FreshRowVar; FreshRowVar;
   Get (IPK_EFFECT_ROW [1] IP_NONE); Get (IPK_EFFECT_ROW [2] IP_NONE); Get (IPK_EFFECT_ROW [1; 2] IP_NONE);
   Get (IPK_EFFECT_ROW [1] 33); Get (IPK_EFFECT_ROW [1; 2] 33); Get (IPK_EFFECT_ROW [2] 34)].

Lemma rows_pool : exists p, pool_ok p /\ room 1000 100000 p /\
  reads p 33 (IPK_ROW_VAR 1) /\ reads p 34 (IPK_ROW_VAR 2) /\
  reads p 35 (IPK_EFFECT_ROW [1] IP_EMPTY_EFFECT_ROW) /\ reads p 36 (IPK_EFFECT_ROW [2] IP_EMPTY_EFFECT_ROW) /\
  reads p 37 (IPK_EFFECT_ROW [1; 2] IP_EMPTY_EFFECT_ROW) /\
  reads p 38 (IPK_EFFECT_ROW [1] 33) /\ reads p 39 (IPK_EFFECT_ROW [1; 2] 33) /\ reads p 40 (IPK_EFFECT_ROW [2] 34).
Proof.
  assert (Hf : session_fits 16 64 rows_ops).
  { split; [by exists 4|]. split; [done|]. split; [repeat (constructor; [done|]); constructor|done]. }
  destruct (session_pool_ok 16 64 rows_ops Hf) as (l & p & E & Hp).
  { vm_compute. by split. }
  assert (H : match session 16 64 rows_ops with
    | Ret (_, p) => map (ip_tag p) [33; 34; 35; 36; 37; 38; 39; 40] =
        [IP_TAG_ROW_VAR; IP_TAG_ROW_VAR; IP_TAG_EFFECT_ROW; IP_TAG_EFFECT_ROW; IP_TAG_EFFECT_ROW;
         IP_TAG_EFFECT_ROW; IP_TAG_EFFECT_ROW; IP_TAG_EFFECT_ROW] /\
      map (ip_key p) [33; 34; 35; 36; 37; 38; 39; 40] =
        [Ret (IPK_ROW_VAR 1); Ret (IPK_ROW_VAR 2); Ret (IPK_EFFECT_ROW [1] 32); Ret (IPK_EFFECT_ROW [2] 32);
         Ret (IPK_EFFECT_ROW [1; 2] 32); Ret (IPK_EFFECT_ROW [1] 33); Ret (IPK_EFFECT_ROW [1; 2] 33);
         Ret (IPK_EFFECT_ROW [2] 34)] /\ items_count p = 41 /\ arena_total_used (extra_arena p) < 1000
    | _ => False end) by (vm_compute; repeat split).
  rewrite E in H. clear E. cbn [map] in H. destruct H as ([= ? ? ? ? ? ? ? ?] & [= ? ? ? ? ? ? ? ?] & Hi & Ha).
  exists p. split; [done|]. split; [unfold room; lia|]. unfold reads.
  repeat match goal with H : ip_tag p _ = _ |- _ => rewrite !H; clear H end. done.
Qed.

Definition values_ops : list Op :=
  [Get (IPK_INT_VALUE 17 0); Get (IPK_INT_VALUE 17 99); Get (IPK_INT_VALUE 17 100); Get (IPK_INT_VALUE 17 101);
   Get (IPK_INT_VALUE 17 256); Get (IPK_INT_VALUE 2 200); Get (IPK_INT_VALUE 8 (-1));
   FreshTypeVar; Get (IPK_OPTIONAL_TYPE 40); Get (IPK_FN_TYPE 41 0 0 0 [40] IP_NONE);
   Get (IPK_SLICE_TYPE 40 false); Get (IPK_SLICE_TYPE 2 false)].

Lemma values_pool : exists p, pool_ok p /\ room 1000 100000 p /\
  reads p 33 (IPK_INT_VALUE 17 0) /\ reads p 34 (IPK_INT_VALUE 17 99) /\ reads p 35 (IPK_INT_VALUE 17 100) /\
  reads p 36 (IPK_INT_VALUE 17 101) /\ reads p 37 (IPK_INT_VALUE 17 256) /\ reads p 38 (IPK_INT_VALUE 2 200) /\
  reads p 39 (IPK_INT_VALUE 8 (-1)) /\ reads p 40 (IPK_TYPE_VAR 1) /\ reads p 41 (IPK_OPTIONAL_TYPE 40) /\
  reads p 42 (IPK_FN_TYPE 41 0 0 0 [40] IP_EMPTY_EFFECT_ROW) /\ reads p 43 (IPK_SLICE_TYPE 40 false) /\
  reads p 28 (IPK_PTR_TYPE 2 true) /\ reads p 44 (IPK_SLICE_TYPE 2 false) /\
  reads p 2 (IPK_PRIMITIVE_TYPE 2).
Proof.
  assert (Hf : session_fits 16 64 values_ops).
  { split; [by exists 4|]. split; [done|]. split; [repeat (constructor; [done|]); constructor|done]. }
  destruct (session_pool_ok 16 64 values_ops Hf) as (l & p & E & Hp).
  { vm_compute. by split. }
  set (ids := [33; 34; 35; 36; 37; 38; 39; 40; 41; 42; 43; 28; 44; 2]).
  assert (H : match session 16 64 values_ops with
    | Ret (_, p) => map (fun i => bool_decide (ip_tag p i = IP_TAG_REMOVED)) ids = map (fun _ => false) ids /\
      map (ip_key p) ids =
        [Ret (IPK_INT_VALUE 17 0); Ret (IPK_INT_VALUE 17 99); Ret (IPK_INT_VALUE 17 100); Ret (IPK_INT_VALUE 17 101);
         Ret (IPK_INT_VALUE 17 256); Ret (IPK_INT_VALUE 2 200); Ret (IPK_INT_VALUE 8 (-1)); Ret (IPK_TYPE_VAR 1);
         Ret (IPK_OPTIONAL_TYPE 40); Ret (IPK_FN_TYPE 41 0 0 0 [40] 32); Ret (IPK_SLICE_TYPE 40 false);
         Ret (IPK_PTR_TYPE 2 true); Ret (IPK_SLICE_TYPE 2 false); Ret (IPK_PRIMITIVE_TYPE 2)] /\
      items_count p = 45 /\ arena_total_used (extra_arena p) < 1000
    | _ => False end) by (vm_compute; repeat split).
  rewrite E in H. clear E. unfold ids in H. cbn [map] in H. clear ids.
  destruct H as ([= ? ? ? ? ? ? ? ? ? ? ? ? ? ?] & [= ? ? ? ? ? ? ? ? ? ? ? ? ? ?] & Hi & Ha).
  exists p. split; [done|]. split; [unfold room; lia|]. unfold reads.
  repeat match goal with H : bool_decide _ = false |- _ => apply bool_decide_eq_false in H end. done.
Qed.

End SamplePools.
