(* ===== verification/Rows.v ===== *)
(** * Effect rows and their unification: [src/src/db/query/coerce.c]

    A row is an interned list of effect labels in ascending order, duplicates kept, with a
    tail: the empty row (closed) or a row variable (open).  Variables are bound in
    [ctx->row_subst]; rows are immutable and read through the bindings.

    - The parts of [SemaCtx] and of the database that this code reads and writes are the
      record [Sema]: the intern pool, the two substitutions and the diagnostics.
    - A substitution is the hash map of the frame: [None] for a NULL pointer, [Some None]
      for a map not initialised yet.  The map is a finite map, as [HashMap] is
      ([hashmap_refines_finite_map]); a value that is the NULL pointer reads as absent.
    - Scratch arrays of the request arena are lists; [arena_alloc] does not fail.
    - [qsort] is the standard library's: it sorts.
    - The anchor of a diagnostic is left out. *)

From stdpp Require Import gmap sorting.
From S2P Require Import Prelude InternPool.
Import InternPool.

Module Rows.

#[local] Open Scope N_scope.

Definition Subst : Type := option (option (gmap N N)).

Record Sema : Type := mkSema {
  intern : InternPool;
  row_subst : Subst;
  type_subst : Subst;
  diags : list string
}.

Definition put_intern (p : InternPool) (c : Sema) : Sema := mkSema p (row_subst c) (type_subst c) (diags c).
Definition put_row_subst (m : Subst) (c : Sema) : Sema := mkSema (intern c) m (type_subst c) (diags c).
Definition put_type_subst (m : Subst) (c : Sema) : Sema := mkSema (intern c) (row_subst c) m (diags c).
Definition db_emit (msg : string) (c : Sema) : Sema :=
  mkSema (intern c) (row_subst c) (type_subst c) (diags c ++ [msg]).

(** [hashmap_get], NULL read as [None]. *)
Definition bound_in (m : gmap N N) (id : N) : option IpIndex :=
  match m !! id with Some v => if v =? 0 then None else Some v | None => None end.

(** What a substitution binds a variable to; nothing when it is absent. *)
Definition subst_get (m : Subst) (id : N) : option IpIndex :=
  match m with Some (Some m) => bound_in m id | _ => None end.

(** [ctx->row_subst && hashmap_is_initialized(ctx->row_subst)]. *)
Definition subst_ready (m : Subst) : bool := match m with Some (Some _) => true | _ => false end.

Definition subst_put (id bound : N) (m : Subst) : Subst :=
  match m with
  | None => None
  | Some None => Some (Some {[id := bound]})
  | Some (Some m) => Some (Some (<[id := bound]> m))
  end.

Definition wrong_member {A} : outcome A := AssertFailed "read of another member of the union".

Definition row_var_id (p : InternPool) (idx : IpIndex) : outcome N :=
  let! k := ip_key p idx in match k with IPK_ROW_VAR id => Ret id | _ => wrong_member end.

Definition effect_row_of (p : InternPool) (idx : IpIndex) : outcome (list N * IpIndex) :=
  let! k := ip_key p idx in match k with IPK_EFFECT_ROW l t => Ret (l, t) | _ => wrong_member end.

Definition tag_eqb (a b : IpTag) : bool := bool_decide (a = b).

(** ** Resolution *)

(** [hops] left of the 64. *)
Fixpoint resolve_hops (hops : nat) (c : Sema) (idx : IpIndex) : outcome IpIndex :=
  match hops with
  | O => Ret idx
  | S hops =>
      if tag_eqb (ip_tag (intern c) idx) IP_TAG_ROW_VAR then
        let! id := row_var_id (intern c) idx in
        match subst_get (row_subst c) id with
        | None => Ret idx
        | Some next => resolve_hops hops c next
        end
      else Ret idx
  end.

Definition row_resolve (c : Sema) (idx : IpIndex) : outcome IpIndex :=
  if subst_ready (row_subst c) then resolve_hops 64 c idx else Ret idx.

Definition row_intern (labels : list N) (tail : IpIndex) (c : Sema) : outcome (IpIndex * Sema) :=
  let! (i, p) := ip_get (IPK_EFFECT_ROW labels tail) (intern c) in Ret (i, put_intern p c).

Definition sort_labels (l : list N) : list N := merge_sort N.le l.

(** The walk of [row_flatten] down the tails from [cur]: the labels, the final tail and
    whether anything changed. *)
Fixpoint flatten_hops (hops : nat) (c : Sema) (cur : IpIndex) (buf : list N) (any_change : bool)
    : outcome (list N * IpIndex * bool) :=
  match hops with
  | O => Ret (buf, IP_EMPTY_EFFECT_ROW, any_change)
  | S hops =>
      let! (labels, tail) := effect_row_of (intern c) cur in
      let buf := buf ++ labels in
      let! t := row_resolve c tail in
      let any_change := any_change || negb (t =? tail) in
      if tag_eqb (ip_tag (intern c) t) IP_TAG_EFFECT_ROW then
        if t =? IP_EMPTY_EFFECT_ROW then Ret (buf, IP_EMPTY_EFFECT_ROW, any_change)
        else flatten_hops hops c t buf true
      else Ret (buf, t, any_change)
  end.

Definition row_flatten (c : Sema) (idx : IpIndex) : outcome (IpIndex * Sema) :=
  if subst_ready (row_subst c) then
    let! idx := row_resolve c idx in
    if tag_eqb (ip_tag (intern c) idx) IP_TAG_EFFECT_ROW then
      let! r := flatten_hops 64 c idx [] false in
      let '(buf, final_tail, any_change) := r in
      if any_change then row_intern (if (1 <? length buf)%nat then sort_labels buf else buf) final_tail c
      else Ret (idx, c)
    else Ret (idx, c)
  else Ret (idx, c).

Definition subst_bind (id bound : N) (c : Sema) : Sema := put_row_subst (subst_put id bound (row_subst c)) c.

(** [hops] left of the 256. *)
Fixpoint occurs_hops (hops : nat) (c : Sema) (var_id : N) (row : IpIndex) : outcome bool :=
  match hops with
  | O => Ret true
  | S hops =>
      if row =? IP_NONE then Ret false
      else if row =? IP_EMPTY_EFFECT_ROW then Ret false
      else
        let tag := ip_tag (intern c) row in
        if tag_eqb tag IP_TAG_ROW_VAR then
          let! id := row_var_id (intern c) row in
          if id =? var_id then Ret true
          else
            match subst_get (row_subst c) id with
            | None => Ret false
            | Some next => if next =? row then Ret false else occurs_hops hops c var_id next
            end
        else if tag_eqb tag IP_TAG_EFFECT_ROW then
          let! (_, tail) := effect_row_of (intern c) row in
          let! next := row_resolve c tail in
          if next =? row then Ret false else occurs_hops hops c var_id next
        else Ret false
  end.

Definition occurs_in_row (c : Sema) (var_id : N) (row : IpIndex) : outcome bool :=
  occurs_hops 256 c var_id row.

(** ** One occurrence less, no duplicates *)

(** The labels without the first occurrence of [label]; [None] when it does not occur. *)
Fixpoint drop_label (label : N) (l : list N) : option (list N) :=
  match l with
  | [] => None
  | x :: l =>
      if x =? label then Some l
      else match drop_label label l with Some l' => Some (x :: l') | None => None end
  end.

Definition row_without (c : Sema) (row : IpIndex) (label : N) : outcome (IpIndex * Sema) :=
  if row =? IP_NONE then Ret (IP_NONE, c)
  else
    let! (row, c) := row_flatten c row in
    if tag_eqb (ip_tag (intern c) row) IP_TAG_EFFECT_ROW then
      let! (labels, tail) := effect_row_of (intern c) row in
      match drop_label label labels with
      | None => Ret (row, c)
      | Some out => row_intern out tail c
      end
    else Ret (row, c).

(** The pass of [row_dedup]; [last] is the last label kept. *)
Fixpoint unique_labels (last : option N) (l : list N) : list N :=
  match l with
  | [] => []
  | x :: l =>
      match last with
      | Some y => if x =? y then unique_labels last l else x :: unique_labels (Some x) l
      | None => x :: unique_labels (Some x) l
      end
  end.

Definition row_dedup (c : Sema) (r : IpIndex) : outcome (IpIndex * Sema) :=
  let! (r, c) := row_flatten c r in
  if tag_eqb (ip_tag (intern c) r) IP_TAG_EFFECT_ROW then
    let! (labels, tail) := effect_row_of (intern c) r in
    if (length labels <=? 1)%nat then Ret (r, c)
    else
      let uniq := unique_labels None labels in
      if (length uniq =? length labels)%nat then Ret (r, c) else row_intern uniq tail c
  else Ret (r, c).

(** ** Unification *)

(** What is left of two label lists after their common prefix. *)
Fixpoint strip_prefix (a b : list N) : list N * list N :=
  match a, b with
  | x :: a', y :: b' => if x =? y then strip_prefix a' b' else (a, b)
  | _, _ => (a, b)
  end.

(** Remove each of [labels], one occurrence at a time. *)
Fixpoint without_all (c : Sema) (row : IpIndex) (labels : list N) : outcome (IpIndex * Sema) :=
  match labels with
  | [] => Ret (row, c)
  | x :: labels => let! (row, c) := row_without c row x in without_all c row labels
  end.

Definition cyclic_row : string := "cyclic effect row through row variable".

(** Bind the variable [id] to [row], unless it occurs in it. *)
Definition bind_checked (c : Sema) (id : N) (row : IpIndex) : outcome (bool * Sema) :=
  let! occurs := occurs_in_row c id row in
  if occurs then Ret (false, db_emit cyclic_row c) else Ret (true, subst_bind id row c).

Fixpoint row_unify (fuel : nat) (c : Sema) (a b : IpIndex) : outcome (bool * Sema) :=
  match fuel with
  | O => OutOfFuel
  | S fuel =>
      let! (a, c) := row_flatten c a in
      let! (b, c) := row_flatten c b in
      if a =? b then Ret (true, c)
      else
        let at_ := ip_tag (intern c) a in
        let bt := ip_tag (intern c) b in
        if tag_eqb at_ IP_TAG_ROW_VAR then
          let! id := row_var_id (intern c) a in bind_checked c id b
        else if tag_eqb bt IP_TAG_ROW_VAR then
          let! id := row_var_id (intern c) b in bind_checked c id a
        else if negb (tag_eqb at_ IP_TAG_EFFECT_ROW) || negb (tag_eqb bt IP_TAG_EFFECT_ROW)
        then Ret (false, c)
        else
          let! (la, ta) := effect_row_of (intern c) a in
          let! (lb, tb) := effect_row_of (intern c) b in
          let (ra, rb) := strip_prefix la lb in
          let! a_tail := row_resolve c ta in
          let! b_tail := row_resolve c tb in
          let at_t := ip_tag (intern c) a_tail in
          let bt_t := ip_tag (intern c) b_tail in
          match ra, rb with
          | [], [] => row_unify fuel c a_tail b_tail
          | _, _ =>
              if match ra with [] => tag_eqb at_t IP_TAG_ROW_VAR | _ => false end then
                let! id := row_var_id (intern c) a_tail in
                let! (residual, c) := row_intern rb b_tail c in
                Ret (true, subst_bind id residual c)
              else if match rb with [] => tag_eqb bt_t IP_TAG_ROW_VAR | _ => false end then
                let! id := row_var_id (intern c) b_tail in
                let! (residual, c) := row_intern ra a_tail c in
                Ret (true, subst_bind id residual c)
              else if tag_eqb bt_t IP_TAG_ROW_VAR then
                let! (residual, c) := row_intern ra a_tail c in
                let! (residual, c) := without_all c residual rb in
                let! id := row_var_id (intern c) b_tail in
                bind_checked c id residual
              else Ret (false, c)
          end
  end.

(** ** Union *)

(** The merge of two ascending lists, the left one first on ties. *)
Fixpoint merge_labels (a : list N) : list N -> list N :=
  match a with
  | [] => fun b => b
  | x :: a' =>
      fix go (b : list N) : list N :=
        match b with
        | [] => a
        | y :: b' => if x <=? y then x :: merge_labels a' b else y :: go b'
        end
  end.

Definition ip_is_error (t : IpIndex) : bool := t =? IP_INDEX_ERROR_TYPE.

Definition row_union (fuel : nat) (c : Sema) (a b : IpIndex) : outcome (IpIndex * Sema) :=
  if (a =? IP_NONE) || (b =? IP_NONE) then Ret (IP_NONE, c)
  else
    let! (a, c) := row_flatten c a in
    let! (b, c) := row_flatten c b in
    if ip_is_error a || ip_is_error b then Ret (IP_INDEX_ERROR_TYPE, c)
    else if a =? b then Ret (a, c)
    else if a =? IP_EMPTY_EFFECT_ROW then Ret (b, c)
    else if b =? IP_EMPTY_EFFECT_ROW then Ret (a, c)
    else
      let at_ := ip_tag (intern c) a in
      let bt := ip_tag (intern c) b in
      if tag_eqb at_ IP_TAG_ROW_VAR then
        let! (ok, c) := row_unify fuel c a b in Ret (if ok : bool then b else IP_NONE, c)
      else if tag_eqb bt IP_TAG_ROW_VAR then
        let! (ok, c) := row_unify fuel c b a in Ret (if ok : bool then a else IP_NONE, c)
      else if negb (tag_eqb at_ IP_TAG_EFFECT_ROW) || negb (tag_eqb bt IP_TAG_EFFECT_ROW)
      then Ret (IP_NONE, c)
      else
        let! (la, ta) := effect_row_of (intern c) a in
        let! (lb, tb) := effect_row_of (intern c) b in
        let out := merge_labels la lb in
        let! a_tail := row_resolve c ta in
        let! b_tail := row_resolve c tb in
        if a_tail =? IP_EMPTY_EFFECT_ROW then row_intern out b_tail c
        else if b_tail =? IP_EMPTY_EFFECT_ROW then row_intern out a_tail c
        else
          let! (ok, c) := row_unify fuel c a_tail b_tail in
          if ok : bool then
            let! merged_tail := row_resolve c a_tail in row_intern out merged_tail c
          else Ret (IP_NONE, c).

(** ** Fresh copies, defaulting *)

(** [instantiate_row]: [map] takes old variables to fresh ones. *)
Fixpoint instantiate_row (fuel : nat) (p : InternPool) (r : IpIndex) (map : gmap N N)
    : outcome (IpIndex * InternPool * gmap N N) :=
  match fuel with
  | O => OutOfFuel
  | S fuel =>
      if (r =? IP_NONE) || (r =? IP_EMPTY_EFFECT_ROW) then Ret (r, p, map)
      else
        let tag := ip_tag p r in
        if tag_eqb tag IP_TAG_ROW_VAR then
          let! id := row_var_id p r in
          match bound_in map id with
          | Some cached => Ret (cached, p, map)
          | None =>
              let! (fresh, p) := ip_fresh_row_var p in
              Ret (fresh, p, <[id := fresh]> map)
          end
        else if tag_eqb tag IP_TAG_EFFECT_ROW then
          let! (labels, tail) := effect_row_of p r in
          let! x := instantiate_row fuel p tail map in
          let '(new_tail, p, map) := x in
          if new_tail =? tail then Ret (r, p, map)
          else let! (i, p) := ip_get (IPK_EFFECT_ROW labels new_tail) p in Ret (i, p, map)
        else Ret (r, p, map)
  end.

Fixpoint ground_unbound_row_vars (fuel : nat) (c : Sema) (r : IpIndex) : outcome Sema :=
  match fuel with
  | O => OutOfFuel
  | S fuel =>
      match row_subst c with
      | None => Ret c
      | Some _ =>
          if (r =? IP_NONE) || (r =? IP_EMPTY_EFFECT_ROW) then Ret c
          else
            let! resolved := row_resolve c r in
            let tag := ip_tag (intern c) resolved in
            if tag_eqb tag IP_TAG_ROW_VAR then
              let! id := row_var_id (intern c) resolved in
              Ret (subst_bind id IP_EMPTY_EFFECT_ROW c)
            else if tag_eqb tag IP_TAG_EFFECT_ROW then
              let! (_, tail) := effect_row_of (intern c) resolved in
              ground_unbound_row_vars fuel c tail
            else Ret c
      end
  end.

End Rows.
