(* ===== verification/RowsFacts.v ===== *)
(** * Effect rows: what a row denotes under a substitution

    [row_den c n i l t]: read through the bindings, the row [i] has the labels [l] and ends
    in [t], the empty row or an unbound variable, after at most [n] steps.  [row_flatten]
    computes it ([flatten_den]): the index it answers spells the labels out. *)

From stdpp Require Import gmap sorting gmultiset.
From S2P Require Import Prelude Arena InternPool InternFacts InternGet InternApi Rows.

Import Arena InternPool InternFacts InternGet InternApi Rows.

Module RowsFacts.

#[local] Open Scope N_scope.

(** ** Sorted labels *)

Lemma ascending_Sorted l : ascending l = true <-> Sorted N.le l.
Proof.
  induction l as [|x [|y l] IH]; [by split|by split; [constructor|]|].
  change (ascending (x :: y :: l)) with ((x <=? y) && ascending (y :: l)).
  rewrite andb_true_iff, N.leb_le, IH. split.
  - intros [Hx Hl]. constructor; [done|by constructor].
  - intros H. inversion H as [|? ? Hs Hr]; subst. inversion Hr; subst. by split.
Qed.

#[export] Instance N_le_total : Total N.le.
Proof. intros x y. lia. Qed.

#[export] Instance N_le_trans : Transitive N.le.
Proof. intros x y z. lia. Qed.

Lemma sort_labels_sorted l : Sorted N.le (sort_labels l).
Proof. apply Sorted_merge_sort, _. Qed.

Lemma sort_labels_perm l : sort_labels l ≡ₚ l.
Proof. apply merge_sort_Permutation. Qed.

(** A row of labels in order. *)
Definition row_key (l : list N) (t : IpIndex) : IpKey := IPK_EFFECT_ROW l t.
Definition row_cost (l : list N) : N := 16 + 4 * N.of_nat (length l).

Lemma row_key_cost l t : key_cost (IPK_EFFECT_ROW l t) = row_cost l.
Proof. unfold key_cost, row_cost. simpl. lia. Qed.

(** ** Reading through a substitution *)

Section Den.
Context (c : Sema).

Inductive row_den : nat -> IpIndex -> list N -> IpIndex -> Prop :=
  | rd_empty n : row_den n IP_EMPTY_EFFECT_ROW [] IP_EMPTY_EFFECT_ROW
  | rd_open n i id : reads (intern c) i (IPK_ROW_VAR id) -> subst_get (row_subst c) id = None ->
      row_den n i [] i
  | rd_bound n i id j l t : reads (intern c) i (IPK_ROW_VAR id) ->
      subst_get (row_subst c) id = Some j -> row_den n j l t -> row_den (S n) i l t
  | rd_row n i ls tl l t : i <> IP_EMPTY_EFFECT_ROW -> reads (intern c) i (IPK_EFFECT_ROW ls tl) ->
      row_den n tl l t -> row_den (S n) i (ls ++ l) t.

(** The end of a row: closed, or an unbound variable. *)
Definition final (t : IpIndex) : Prop :=
  t = IP_EMPTY_EFFECT_ROW \/
  exists id, reads (intern c) t (IPK_ROW_VAR id) /\ subst_get (row_subst c) id = None.

(** A row that spells its labels out. *)
Definition flat (i : IpIndex) (l : list N) (t : IpIndex) : Prop :=
  final t /\ ((i = t /\ l = []) \/ reads (intern c) i (IPK_EFFECT_ROW l t)).

Lemma row_den_final n i l t : row_den n i l t -> final t.
Proof. induction 1; [by left|right; by eexists|done|done]. Qed.

Lemma row_den_mono n i l t : row_den n i l t -> forall m, (n <= m)%nat -> row_den m i l t.
Proof.
  induction 1; intros m Hm; try (destruct m as [|m]; [lia|]).
  - constructor.
  - by eapply rd_open.
  - eapply rd_bound; [done..|]. apply IHrow_den. lia.
  - eapply rd_row; [done..|]. apply IHrow_den. lia.
Qed.

Context (Hp : pool_ok (intern c)).

Lemma empty_reads : reads (intern c) IP_EMPTY_EFFECT_ROW (IPK_EFFECT_ROW [] IP_EMPTY_EFFECT_ROW).
Proof. apply Hp. Qed.

Lemma row_tag i ls tl : reads (intern c) i (IPK_EFFECT_ROW ls tl) ->
  ip_tag (intern c) i = IP_TAG_EFFECT_ROW.
Proof. intros H. by destruct (reads_ok _ i _ Hp H eq_refl) as (_ & _ & -> & _). Qed.

Lemma var_tag i id : reads (intern c) i (IPK_ROW_VAR id) -> ip_tag (intern c) i = IP_TAG_ROW_VAR.
Proof. intros H. by destruct (reads_ok _ i _ Hp H eq_refl) as (_ & _ & -> & _). Qed.

Lemma row_of_reads i ls tl : reads (intern c) i (IPK_EFFECT_ROW ls tl) ->
  effect_row_of (intern c) i = Ret (ls, tl).
Proof. intros [_ H]. unfold effect_row_of. by rewrite H. Qed.

Lemma var_of_reads i id : reads (intern c) i (IPK_ROW_VAR id) -> row_var_id (intern c) i = Ret id.
Proof. intros [_ H]. unfold row_var_id. by rewrite H. Qed.

Lemma var_not_row i id ls tl : reads (intern c) i (IPK_ROW_VAR id) ->
  reads (intern c) i (IPK_EFFECT_ROW ls tl) -> False.
Proof. intros H1 H2. by pose proof (reads_fun _ _ _ _ H1 H2). Qed.

Lemma var_not_empty i id : reads (intern c) i (IPK_ROW_VAR id) -> i <> IP_EMPTY_EFFECT_ROW.
Proof. intros H ->. by eapply var_not_row; [exact H|apply empty_reads]. Qed.

Lemma row_den_fun n i l t : row_den n i l t -> forall n' l' t', row_den n' i l' t' -> l = l' /\ t = t'.
Proof.
  induction 1; intros n' l' t' H'; inversion H'; subst; try done;
    try (by exfalso; eapply var_not_empty); try (by exfalso; eapply var_not_row);
    repeat match goal with
    | A : reads ?p ?i (IPK_ROW_VAR ?x), B : reads ?p ?i (IPK_ROW_VAR ?y) |- _ =>
        pose proof (reads_fun _ _ _ _ A B) as [= <-]; clear B
    | A : reads ?p ?i (IPK_EFFECT_ROW ?x ?y), B : reads ?p ?i (IPK_EFFECT_ROW ?z ?w) |- _ =>
        pose proof (reads_fun _ _ _ _ A B) as [= <- <-]; clear B
    end; try congruence.
  - assert (j0 = j) as -> by congruence. by eapply IHrow_den.
  - match goal with H : row_den _ tl _ _ |- _ => destruct (IHrow_den _ _ _ H) as [-> ->] end. done.
Qed.

Lemma final_den t : final t -> row_den 0 t [] t.
Proof. intros [->|(id & Hr & Hs)]; [constructor|by eapply rd_open]. Qed.

Lemma final_nonzero t : final t -> t <> IP_NONE.
Proof.
  intros [->|(id & Hr & _)]; [done|]. destruct (reads_ok _ t _ Hp Hr eq_refl) as (_ & _ & _ & H).
  intros ->. by vm_compute in H.
Qed.

Lemma empty_den n l t : row_den n IP_EMPTY_EFFECT_ROW l t -> l = [] /\ t = IP_EMPTY_EFFECT_ROW.
Proof. intros H. destruct (row_den_fun _ _ _ _ H 0%nat [] IP_EMPTY_EFFECT_ROW); [constructor|done]. Qed.

Lemma flat_den i l t : flat i l t -> row_den 1 i l t.
Proof.
  intros [Hf [[-> ->]|Hr]]; [eapply row_den_mono; [by apply final_den|lia]|].
  destruct (N.eq_dec i IP_EMPTY_EFFECT_ROW) as [->|Hne].
  - pose proof (reads_fun _ _ _ _ Hr empty_reads) as [= -> ->]. constructor.
  - rewrite <- (app_nil_r l). eapply rd_row; [done..|by apply final_den].
Qed.

(** ** Resolution and flattening *)

(** Where the chain of bound variables ends. *)
Lemma resolve_den n i l t : row_den n i l t -> forall hops, (n <= hops)%nat ->
  exists j m, resolve_hops hops c i = Ret j /\ (m <= n)%nat /\ row_den m j l t /\
    (ip_tag (intern c) j = IP_TAG_EFFECT_ROW \/ (l = [] /\ t = j /\ ip_tag (intern c) j = IP_TAG_ROW_VAR)).
Proof.
  induction 1 as [n|n i id Hr Hs|n i id j l t Hr Hs H IH|n i ls tl l t Hne Hr H IH]; intros hops Hh.
  - exists IP_EMPTY_EFFECT_ROW, n. pose proof (row_tag _ _ _ empty_reads) as Ht.
    split; [destruct hops; simpl; [done|by rewrite Ht]|]. split; [done|]. split; [constructor|by left].
  - exists i, n. pose proof (var_tag _ _ Hr) as Ht.
    split; [destruct hops; simpl; [done|]|].
    { by rewrite Ht, (var_of_reads _ _ Hr); simpl; rewrite Hs. }
    split; [done|]. split; [by eapply rd_open|by right].
  - destruct hops as [|hops]; [lia|]. destruct (IH hops ltac:(lia)) as (j' & m & E & Hm & Hd & Ht).
    exists j', m. simpl. rewrite (var_tag _ _ Hr), (var_of_reads _ _ Hr). simpl. rewrite Hs.
    split; [done|]. split; [lia|done].
  - exists i, (S n). pose proof (row_tag _ _ _ Hr) as Ht.
    split; [destruct hops; simpl; [done|by rewrite Ht]|]. split; [done|].
    split; [by eapply rd_row|by left].
Qed.

Context (Hready : subst_ready (row_subst c) = true).

Lemma row_resolve_den n i l t : row_den n i l t -> (n <= 64)%nat ->
  exists j m, row_resolve c i = Ret j /\ (m <= n)%nat /\ row_den m j l t /\
    (ip_tag (intern c) j = IP_TAG_EFFECT_ROW \/ (l = [] /\ t = j /\ ip_tag (intern c) j = IP_TAG_ROW_VAR)).
Proof. intros H Hn. unfold row_resolve. rewrite Hready. by eapply resolve_den. Qed.

Lemma final_tag t : final t -> t <> IP_EMPTY_EFFECT_ROW -> ip_tag (intern c) t = IP_TAG_ROW_VAR.
Proof. intros [->|(id & Hr & _)]; [done|]. intros _. by eapply var_tag. Qed.

Lemma resolve_final t : final t -> row_resolve c t = Ret t.
Proof.
  intros Hf. unfold row_resolve. rewrite Hready. simpl. destruct Hf as [->|(id & Hr & Hs)].
  - by rewrite (row_tag _ _ _ empty_reads).
  - rewrite (var_tag _ _ Hr), (var_of_reads _ _ Hr). simpl. by rewrite Hs.
Qed.

(** The walk adds the labels to [buf]; without a change the row spells them out. *)
Lemma flatten_hops_den n i l t : row_den n i l t -> ip_tag (intern c) i = IP_TAG_EFFECT_ROW ->
  (n <= 63)%nat -> forall hops buf any, (n < hops)%nat ->
  exists any', flatten_hops hops c i buf any = Ret (buf ++ l, t, any') /\
    (any' = false -> any = false /\ reads (intern c) i (IPK_EFFECT_ROW l t)).
Proof.
  revert i l t. induction n as [n IH] using lt_wf_ind. intros i l t Hd Ht Hn hops buf any Hh.
  destruct hops as [|hops]; [lia|]. cbn [flatten_hops].
  assert (Hstep : exists ls tl l' m, reads (intern c) i (IPK_EFFECT_ROW ls tl) /\ row_den m tl l' t /\
    l = ls ++ l' /\ (m < n \/ (tl = IP_EMPTY_EFFECT_ROW /\ m = 0))%nat).
  { inversion Hd; subst.
    - exists [], IP_EMPTY_EFFECT_ROW, [], 0%nat. split; [apply empty_reads|]. split; [constructor|]. split; [done|by right].
    - exfalso. match goal with H : reads _ _ (IPK_ROW_VAR _) |- _ => apply var_tag in H end. congruence.
    - exfalso. match goal with H : reads _ _ (IPK_ROW_VAR _) |- _ => apply var_tag in H end. congruence.
    - eexists _, _, _, _. split; [done|]. split; [done|]. split; [done|]. left. lia. }
  destruct Hstep as (ls & tl & l' & m & Hr & Hd' & -> & Hm).
  rewrite (row_of_reads _ _ _ Hr). cbn [obind].
  destruct (row_resolve_den m tl l' t Hd') as (j & m' & -> & Hm' & Hj & Hcase); [lia|]. cbn [obind].
  destruct Hcase as [Hjt|(-> & -> & Hjt)].
  - rewrite Hjt. cbn [tag_eqb bool_decide decide IpTag_eq_dec].
    assert (Htrue : tag_eqb IP_TAG_EFFECT_ROW IP_TAG_EFFECT_ROW = true) by done. rewrite Htrue.
    destruct (N.eqb_spec j IP_EMPTY_EFFECT_ROW) as [->|Hne].
    + destruct (empty_den _ _ _ Hj) as [-> ->]. rewrite app_nil_r. eexists. split; [done|].
      intros [-> Hany]%orb_false_iff. split; [done|]. apply negb_false_iff, N.eqb_eq in Hany. by subst tl.
    + destruct Hm as [Hm|[-> ->]].
      2:{ exfalso. apply Hne. assert (m' = 0%nat) as -> by lia.
          destruct (empty_den _ _ _ Hd') as [-> ->]. inversion Hj; subst; [done|].
          exfalso. match goal with H : reads _ _ (IPK_ROW_VAR _) |- _ => apply var_tag in H end. congruence. }
      destruct (IH m' ltac:(lia) j l' t Hj Hjt ltac:(lia) hops (buf ++ ls) true ltac:(lia))
        as (any' & -> & Hany'). rewrite app_assoc. eexists. split; [done|].
      intros E. by destruct (Hany' E).
  - rewrite Hjt. assert (Hfalse : tag_eqb IP_TAG_ROW_VAR IP_TAG_EFFECT_ROW = false) by done. rewrite Hfalse.
    rewrite app_nil_r. eexists. split; [done|].
    intros [-> Hany]%orb_false_iff. split; [done|]. apply negb_false_iff, N.eqb_eq in Hany. by subst tl.
Qed.

End Den.

(** ** Interning rows *)

(** The same substitutions over a pool with more items. *)
Definition grows (c c' : Sema) : Prop :=
  c' = put_intern (intern c') c /\ pool_ok (intern c') /\ extends (intern c) (intern c').

Lemma grows_refl c : pool_ok (intern c) -> grows c c.
Proof. intros Hp. split; [by destruct c|]. split; [done|apply extends_refl]. Qed.

Lemma grows_trans c c1 c2 : grows c c1 -> grows c1 c2 -> grows c c2.
Proof.
  intros (E1 & P1 & X1) (E2 & P2 & X2). split; [|split; [done|by eapply extends_trans]].
  rewrite E2, E1. by destruct c.
Qed.

Lemma grows_subst c c' : grows c c' -> row_subst c' = row_subst c /\ type_subst c' = type_subst c /\ diags c' = diags c.
Proof. by intros (-> & _). Qed.

Lemma row_den_grows c c' n i l t : grows c c' -> row_den c n i l t -> row_den c' n i l t.
Proof.
  intros (E & Hp & Hx) H. pose proof (f_equal row_subst E) as Es. simpl in Es.
  induction H.
  - constructor.
  - eapply rd_open; [by eapply reads_extends|by rewrite Es].
  - eapply rd_bound; [by eapply reads_extends|by rewrite Es|done].
  - eapply rd_row; [done|by eapply reads_extends|done].
Qed.

Lemma final_grows c c' t : grows c c' -> final c t -> final c' t.
Proof.
  intros Hg [->|(id & Hr & Hs)]; [by left|right]. exists id.
  destruct (grows_subst c c' Hg) as [-> _]. split; [|done]. by eapply reads_extends; [apply Hg|].
Qed.

Lemma flat_grows c c' i l t : grows c c' -> flat c i l t -> flat c' i l t.
Proof.
  intros Hg [Hf Hr]. split; [by eapply final_grows|]. destruct Hr as [Hr|Hr]; [by left|right].
  by eapply reads_extends; [apply Hg|].
Qed.

Lemma flat_sorted c i l t : pool_ok (intern c) -> flat c i l t -> Sorted N.le l.
Proof.
  intros Hp [_ [[_ ->]|Hr]]; [constructor|].
  destruct (reads_ok _ i _ Hp Hr eq_refl) as ((_ & H) & _). by apply ascending_Sorted.
Qed.

Definition short (l : list N) : Prop := N.of_nat (length l) < 2 ^ 32.

Lemma flat_short c i l t : pool_ok (intern c) -> flat c i l t -> short l.
Proof.
  intros Hp [_ [[_ ->]|Hr]]; [done|]. by destruct (reads_ok _ i _ Hp Hr eq_refl) as ((H & _) & _).
Qed.

Lemma row_intern_ok c l t n b : pool_ok (intern c) -> Sorted N.le l -> short l -> t <> IP_NONE ->
  room (n + 1) (row_cost l + b) (intern c) ->
  exists i c', row_intern l t c = Ret (i, c') /\ grows c c' /\ room n b (intern c') /\
    reads (intern c') i (IPK_EFFECT_ROW l t).
Proof.
  intros Hp Hs Hl Ht Hr. unfold row_intern.
  destruct (intern_get_ok (intern c) (IPK_EFFECT_ROW l t) n b Hp) as (i & p' & -> & Hp' & Hr' & Hx & Hrd).
  - split; [done|by apply ascending_Sorted].
  - done.
  - by rewrite row_key_cost.
  - cbn [obind]. exists i, (put_intern p' c). split; [done|]. split; [by split|]. split; [done|].
    revert Hrd. cbn [norm]. unfold closed_row. by rewrite (proj2 (N.eqb_neq _ _) Ht).
Qed.

(** Flattening computes what a row denotes. *)
Lemma flatten_den c n i l t k b : pool_ok (intern c) -> subst_ready (row_subst c) = true ->
  row_den c n i l t -> (n <= 63)%nat -> short l -> room (k + 1) (row_cost l + b) (intern c) ->
  exists i' l' c', row_flatten c i = Ret (i', c') /\ grows c c' /\ room k b (intern c') /\
    flat c' i' l' t /\ l' ≡ₚ l.
Proof.
  intros Hp Hready Hd Hn Hl Hr. unfold row_flatten. rewrite Hready.
  destruct (row_resolve_den c Hp Hready n i l t Hd ltac:(lia)) as (j & m & -> & Hm & Hj & Hcase).
  cbn [obind].
  assert (Hr' : room k b (intern c)) by (eapply room_le; [exact Hr|lia|lia]).
  destruct Hcase as [Hjt|(-> & -> & Hjt)]; rewrite Hjt; cbn [tag_eqb].
  2:{ exists j, [], c. split; [done|]. split; [by apply grows_refl|]. split; [done|]. split; [|done].
      split; [by eapply row_den_final|by left]. }
  destruct (flatten_hops_den c Hp Hready m j l t Hj Hjt ltac:(lia) 64 [] false ltac:(lia))
    as (any & -> & Hany). cbn [obind app].
  assert (Htrue : tag_eqb IP_TAG_EFFECT_ROW IP_TAG_EFFECT_ROW = true) by done. rewrite Htrue.
  destruct any.
  - set (out := if (1 <? length l)%nat then _ else _).
    assert (Hout : out ≡ₚ l /\ Sorted N.le out).
    { unfold out. destruct (Nat.ltb_spec 1 (length l)) as [H|H].
      - split; [apply sort_labels_perm|apply sort_labels_sorted].
      - split; [done|]. destruct l as [|x [|y l]]; [constructor|by constructor|simpl in H; lia]. }
    destruct Hout as [Hperm Hsort]. pose proof (Permutation_length Hperm) as Hlen.
    destruct (row_intern_ok c out t k b Hp Hsort) as (i' & c' & -> & Hg & Hr2 & Hrd).
    + unfold short. by rewrite Hlen.
    + eapply final_nonzero; [done|by eapply row_den_final].
    + unfold row_cost. by rewrite Hlen.
    + exists i', out, c'. split; [done|]. split; [done|]. split; [done|]. split; [|done].
      split; [by eapply final_grows; [|eapply row_den_final]|by right].
  - destruct (Hany eq_refl) as [_ Hrd]. exists j, l, c. split; [done|]. split; [by apply grows_refl|].
    split; [done|]. split; [|done]. split; [by eapply row_den_final|by right].
Qed.

(** A row that is spelled out is left as it is. *)
Lemma flatten_flat c i l t : pool_ok (intern c) -> flat c i l t -> row_flatten c i = Ret (i, c).
Proof.
  intros Hp [Hf Hr]. unfold row_flatten. destruct (subst_ready (row_subst c)) eqn:Hready; [|done].
  destruct Hr as [[-> ->]|Hr].
  - rewrite (resolve_final c Hp Hready t Hf). cbn [obind].
    destruct Hf as [->|(id & Hv & _)]; [|by rewrite (var_tag c Hp _ _ Hv)].
    rewrite (row_tag c Hp _ _ _ (empty_reads c Hp)). cbn [tag_eqb].
    change (flatten_hops 64) with (flatten_hops (S 63)). cbn [flatten_hops].
    rewrite (row_of_reads c _ _ _ (empty_reads c Hp)). cbn [obind].
    by rewrite (resolve_final c Hp Hready _ ltac:(by left)); cbn [obind];
      rewrite (row_tag c Hp _ _ _ (empty_reads c Hp)).
  - assert (Hres : row_resolve c i = Ret i).
    { unfold row_resolve. rewrite Hready. simpl. by rewrite (row_tag c Hp _ _ _ Hr). }
    rewrite Hres. cbn [obind]. rewrite (row_tag c Hp _ _ _ Hr).
    change (flatten_hops 64) with (flatten_hops (S 63)). cbn [flatten_hops].
    rewrite (row_of_reads c _ _ _ Hr). cbn [obind].
    rewrite (resolve_final c Hp Hready _ Hf). cbn [obind]. rewrite N.eqb_refl. cbn [negb orb].
    assert (Htrue : tag_eqb IP_TAG_EFFECT_ROW IP_TAG_EFFECT_ROW = true) by done. rewrite Htrue.
    destruct (N.eq_dec t IP_EMPTY_EFFECT_ROW) as [->|Hne].
    + by rewrite (row_tag c Hp _ _ _ (empty_reads c Hp)).
    + by rewrite (final_tag c Hp t Hf Hne).
Qed.

End RowsFacts.

(** ** Effect rows: binding, merging and unifying

    How a binding changes what rows denote ([bind_den]); the merge of ascending lists and
    the canonical set form ([canon]); one occurrence less ([row_without_ok]); and what
    [row_unify] decides on rows that are spelled out ([unify_flat]). *)

Import Arena InternPool InternFacts InternGet InternApi Rows RowsFacts.

Module RowsUnify.

#[local] Open Scope N_scope.

(** ** Lists of labels *)

Lemma drop_label_None x l : drop_label x l = None <-> x ∉ l.
Proof.
  induction l as [|y l IH]; [by split; [intros _; apply not_elem_of_nil|]|]. simpl. rewrite not_elem_of_cons, <- IH.
  destruct (N.eqb_spec y x) as [->|Hne]; [naive_solver|]. destruct (drop_label x l); naive_solver.
Qed.

Lemma drop_label_Some x l l' : drop_label x l = Some l' -> l ≡ₚ x :: l' /\ sublist l' l.
Proof.
  revert l'. induction l as [|y l IH]; intros l'; [done|]. simpl.
  destruct (N.eqb_spec y x) as [->|Hne]; [intros [= <-]; split; [done|by apply sublist_cons]|].
  destruct (drop_label x l) as [m|]; [|done]. intros [= <-]. destruct (IH m eq_refl) as [Hp Hs].
  split; [rewrite Hp; apply Permutation_swap|by apply sublist_skip].
Qed.

Lemma sorted_cons x l : Sorted N.le (x :: l) -> Forall (N.le x) l /\ Sorted N.le l.
Proof.
  intros H. apply Sorted_StronglySorted, StronglySorted_cons in H as [Hx H]; [|apply _].
  split; [done|by apply StronglySorted_Sorted].
Qed.

Lemma sorted_sublist (l l' : list N) : Sorted N.le l -> sublist l' l -> Sorted N.le l'.
Proof.
  intros Hs Hl. apply StronglySorted_Sorted. apply Sorted_StronglySorted in Hs; [|apply _].
  induction Hl as [|x l1 l2 Hl IH|x l1 l2 Hl IH]; [done| |].
  - apply StronglySorted_cons in Hs as [Hx Hs]. constructor; [by apply IH|].
    rewrite Forall_forall in Hx |- *. intros y Hy. apply Hx. by eapply elem_of_submseteq, sublist_submseteq.
  - apply StronglySorted_cons in Hs as [_ Hs]. by apply IH.
Qed.

Lemma sorted_app_r (l1 l2 : list N) : Sorted N.le (l1 ++ l2) -> Sorted N.le l2.
Proof. intros H. eapply sorted_sublist; [exact H|]. by apply sublist_inserts_l. Qed.

Lemma merge_labels_perm a b : merge_labels a b ≡ₚ a ++ b.
Proof.
  revert b. induction a as [|x a IH]; [done|]. induction b as [|y b IHb]; [by rewrite app_nil_r|].
  change (merge_labels (x :: a) (y :: b)) with
    (if x <=? y then x :: merge_labels a (y :: b) else y :: merge_labels (x :: a) b).
  destruct (x <=? y); [by rewrite IH|]. rewrite IHb. by rewrite <- (Permutation_middle (x :: a)).
Qed.

Lemma merge_labels_sorted a b : Sorted N.le a -> Sorted N.le b -> Sorted N.le (merge_labels a b).
Proof.
  intros Ha. revert b. induction a as [|x a IH]; [done|].
  induction b as [|y b IHb]; intros Hb; [done|].
  change (merge_labels (x :: a) (y :: b)) with
    (if x <=? y then x :: merge_labels a (y :: b) else y :: merge_labels (x :: a) b).
  pose proof (sorted_cons _ _ Ha) as [Hxa Ha']. pose proof (sorted_cons _ _ Hb) as [Hyb Hb'].
  apply StronglySorted_Sorted. destruct (N.leb_spec x y) as [Hxy|Hxy]; constructor.
  - apply Sorted_StronglySorted; [apply _|]. by apply IH.
  - rewrite merge_labels_perm. apply Forall_app. split; [done|]. constructor; [done|].
    eapply Forall_impl; [exact Hyb|]. intros z. simpl. lia.
  - apply Sorted_StronglySorted; [apply _|]. by apply IHb.
  - rewrite merge_labels_perm. change ((x :: a) ++ b) with (x :: (a ++ b)). constructor; [lia|].
    apply Forall_app. split; [|done]. eapply Forall_impl; [exact Hxa|]. intros z. simpl. lia.
Qed.

(** ** The set form *)

Lemma unique_labels_bound last l : Sorted N.le l -> (forall y, last = Some y -> Forall (N.le y) l) ->
  Sorted N.lt (unique_labels last l) /\
  Forall (fun x => forall y, last = Some y -> y < x) (unique_labels last l) /\
  (forall x, x ∈ unique_labels last l <-> x ∈ l /\ last <> Some x).
Proof.
  revert last. induction l as [|x l IH]; intros last Hs Hl.
  { simpl. split; [constructor|]. split; [constructor|]. intros x. split; [intros H; inversion H|intros [H _]; inversion H]. }
  apply sorted_cons in Hs as [Hx Hs].
  assert (Hkeep : (forall y, last = Some y -> y < x) ->
    Sorted N.lt (x :: unique_labels (Some x) l) /\
    Forall (fun z => forall y, last = Some y -> y < z) (x :: unique_labels (Some x) l) /\
    (forall z, z ∈ x :: unique_labels (Some x) l <-> z ∈ x :: l /\ last <> Some z)).
  { intros Hlt. destruct (IH (Some x) Hs) as (S1 & F1 & E1); [by intros y [= <-]|].
    split; [|split].
    - constructor; [done|]. destruct (unique_labels (Some x) l) as [|z u]; constructor.
      apply Forall_cons in F1 as [F1 _]. by apply F1.
    - constructor; [done|]. eapply Forall_impl; [exact F1|]. intros z Hz y Hy.
      transitivity x; [by apply Hlt|by apply Hz].
    - intros z. rewrite !elem_of_cons, E1. split.
      + intros [->|[Hz Hne]]; [split; [by left|]; intros E; specialize (Hlt _ E); lia|].
        split; [by right|]. intros E. specialize (Hlt _ E). rewrite Forall_forall in Hx. specialize (Hx z Hz). lia.
      + intros [[->|Hz] Hne]; [by left|]. destruct (N.eq_dec z x) as [->|Hzx]; [by left|right].
        split; [done|congruence]. }
  simpl. destruct last as [y|]; [|by apply Hkeep].
  pose proof (Hl y eq_refl) as Hy. apply Forall_cons in Hy as [Hyx Hyl].
  destruct (N.eqb_spec x y) as [->|Hne]; [|apply Hkeep; intros ? [= <-]; lia].
  destruct (IH (Some y) Hs) as (S1 & F1 & E1); [by intros ? [= <-]|].
  split; [done|]. split; [done|]. intros z. rewrite E1, elem_of_cons. naive_solver.
Qed.

(** The labels of [l] once each, in order. *)
Definition canon (l : list N) : list N := unique_labels None (sort_labels l).

#[export] Instance N_lt_trans : Transitive N.lt.
Proof. intros x y z. lia. Qed.

Lemma strict_unique (l l' : list N) : Sorted N.lt l -> Sorted N.lt l' -> (forall x, x ∈ l <-> x ∈ l') -> l = l'.
Proof.
  intros H H' E.
  assert (Hle : forall l, Sorted N.lt l -> Sorted N.le l /\ NoDup l).
  { clear. intros l Hl. apply Sorted_StronglySorted in Hl; [|apply _].
    induction Hl as [|x l Hl [IH1 IH2] Hx]; [split; constructor|].
    split.
    - constructor; [done|]. destruct l; constructor. apply Forall_cons in Hx as [Hx _]. lia.
    - constructor; [|done]. intros Hin. rewrite Forall_forall in Hx. specialize (Hx x Hin). lia. }
  destruct (Hle l H) as [S1 N1], (Hle l' H') as [S2 N2].
  apply (Sorted_unique N.le); [done..|]. by apply NoDup_Permutation.
Qed.

Lemma canon_spec l : Sorted N.lt (canon l) /\ forall x, x ∈ canon l <-> x ∈ l.
Proof.
  destruct (unique_labels_bound None (sort_labels l)) as (H & _ & E); [apply sort_labels_sorted|done|].
  split; [done|]. intros x. unfold canon. rewrite E, (sort_labels_perm l). naive_solver.
Qed.

Lemma canon_ext l l' : (forall x, x ∈ l <-> x ∈ l') -> canon l = canon l'.
Proof.
  intros E. destruct (canon_spec l) as [S1 E1], (canon_spec l') as [S2 E2].
  apply strict_unique; [done..|]. intros x. by rewrite E1, E2.
Qed.

Lemma canon_fixed l : Sorted N.lt l -> canon l = l.
Proof. intros H. destruct (canon_spec l). by apply strict_unique. Qed.

Lemma unique_sorted l : Sorted N.le l -> unique_labels None l = canon l.
Proof.
  intros Hs. unfold canon. f_equal. apply (Sorted_unique N.le); [done|apply sort_labels_sorted|].
  by rewrite sort_labels_perm.
Qed.

Lemma unique_length last l : (length (unique_labels last l) <= length l)%nat.
Proof.
  revert last. induction l as [|x l IH]; intros last; [done|]. simpl.
  destruct last as [y|]; [destruct (x =? y)|]; simpl; try (specialize (IH (Some x)); lia).
  specialize (IH (Some y)). lia.
Qed.

Lemma unique_same last l : length (unique_labels last l) = length l -> unique_labels last l = l.
Proof.
  revert last. induction l as [|x l IH]; intros last; [done|]. simpl.
  destruct last as [y|]; [destruct (x =? y)|]; simpl; intros H;
    try (f_equal; apply IH; lia).
  pose proof (unique_length (Some y) l). lia.
Qed.

(** ** Removing, deduplicating *)

Lemma flat_cases c i l t : pool_ok (intern c) -> flat c i l t ->
  (ip_tag (intern c) i = IP_TAG_ROW_VAR /\ l = [] /\ i = t /\ i <> IP_EMPTY_EFFECT_ROW) \/
  (ip_tag (intern c) i = IP_TAG_EFFECT_ROW /\ effect_row_of (intern c) i = Ret (l, t) /\
   reads (intern c) i (IPK_EFFECT_ROW l t)).
Proof.
  intros Hp [Hf [[-> ->]|Hr]].
  - destruct Hf as [->|(id & Hr & Hs)].
    + right. pose proof (empty_reads c Hp) as Hr. split; [by eapply row_tag|]. by split; [apply row_of_reads|].
    + left. split; [by eapply var_tag|]. split; [done|]. split; [done|]. by eapply var_not_empty.
  - right. split; [by eapply row_tag|]. by split; [apply row_of_reads|].
Qed.

Lemma flat_nonzero c i l t : pool_ok (intern c) -> flat c i l t -> i <> IP_NONE.
Proof.
  intros Hp Hf ->. destruct (flat_cases c _ l t Hp Hf) as [(H & _)|(_ & _ & Hr)].
  - destruct Hf as [Hf [[<- _]|Hr]]; [by eapply final_nonzero|].
    by rewrite (row_tag c Hp _ _ _ Hr) in H.
  - destruct (reads_ok _ _ _ Hp Hr eq_refl) as (_ & _ & _ & H). by vm_compute in H.
Qed.

Lemma row_without_flat c r l t x k b : pool_ok (intern c) -> flat c r l t ->
  room (k + 1) (row_cost l + b) (intern c) ->
  (x ∉ l -> row_without c r x = Ret (r, c)) /\
  (x ∈ l -> exists r' l' c', row_without c r x = Ret (r', c') /\ grows c c' /\ room k b (intern c') /\
    flat c' r' l' t /\ l ≡ₚ x :: l' /\ reads (intern c') r' (IPK_EFFECT_ROW l' t)).
Proof.
  intros Hp Hf Hr. unfold row_without.
  rewrite (proj2 (N.eqb_neq _ _) (flat_nonzero c r l t Hp Hf)), (flatten_flat c r l t Hp Hf). cbn [obind].
  destruct (flat_cases c r l t Hp Hf) as [(-> & -> & _)|(-> & -> & Hrd)].
  { split; [done|]. intros H. by apply elem_of_nil in H. }
  cbn [obind]. change (tag_eqb IP_TAG_EFFECT_ROW IP_TAG_EFFECT_ROW) with true. cbn [obind].
  destruct (drop_label x l) as [out|] eqn:E.
  - split; [intros Hx; apply drop_label_None in Hx; congruence|]. intros Hx.
    destruct (drop_label_Some x l out E) as [Hperm Hsub].
    pose proof (Permutation_length Hperm) as Hlen. simpl in Hlen.
    destruct (row_intern_ok c out t k b Hp) as (i & c' & -> & Hg & Hr' & Hi).
    + eapply sorted_sublist; [by eapply flat_sorted|done].
    + pose proof (flat_short c r l t Hp Hf) as Hs. unfold short in *. lia.
    + eapply final_nonzero; [done|apply Hf].
    + eapply room_le; [exact Hr|lia|unfold row_cost; lia].
    + exists i, out, c'. split; [done|]. split; [done|]. split; [done|]. split; [|by split].
      split; [eapply final_grows; [done|apply Hf]|by right].
  - split; [done|]. intros Hx. apply drop_label_None in E. done.
Qed.

Lemma row_dedup_flat c r l t k b : pool_ok (intern c) -> flat c r l t ->
  room (k + 1) (row_cost l + b) (intern c) ->
  exists r' c', row_dedup c r = Ret (r', c') /\ grows c c' /\ room k b (intern c') /\
    flat c' r' (canon l) t /\ (canon l = l -> r' = r).
Proof.
  intros Hp Hf Hr. unfold row_dedup. rewrite (flatten_flat c r l t Hp Hf). cbn [obind].
  pose proof (flat_sorted c r l t Hp Hf) as Hs.
  assert (Hr0 : room k b (intern c)) by (eapply room_le; [exact Hr|lia|lia]).
  assert (Hsame : canon l = l -> exists r' c', Ret (r, c) = Ret (r', c') /\ grows c c' /\ room k b (intern c') /\
    flat c' r' (canon l) t /\ (canon l = l -> r' = r)).
  { intros E. exists r, c. split; [done|]. split; [by apply grows_refl|]. split; [done|]. by rewrite E. }
  destruct (flat_cases c r l t Hp Hf) as [(-> & -> & _)|(-> & -> & Hrd)]; [by apply Hsame|].
  change (tag_eqb IP_TAG_EFFECT_ROW IP_TAG_EFFECT_ROW) with true. cbn [obind].
  rewrite (unique_sorted l Hs). destruct (Nat.leb_spec (length l) 1) as [H1|H1].
  { apply Hsame. destruct l as [|x [|y l]]; [done|done|simpl in H1; lia]. }
  destruct (Nat.eqb_spec (length (canon l)) (length l)) as [El|El].
  { apply Hsame. rewrite <- (unique_sorted l Hs) in El |- *. by apply unique_same. }
  pose proof (unique_length None l) as Hle. rewrite (unique_sorted l Hs) in Hle.
  destruct (row_intern_ok c (canon l) t k b Hp) as (i & c' & -> & Hg & Hr' & Hi).
  + destruct (canon_spec l) as [Hc _]. clear -Hc. induction Hc as [|x m Hm IH Hx]; constructor; [done|].
    destruct Hx; constructor; lia.
  + pose proof (flat_short c r l t Hp Hf) as Hsh. unfold short in *. lia.
  + eapply final_nonzero; [done|apply Hf].
  + eapply room_le; [exact Hr|lia|unfold row_cost; lia].
  + exists i, c'. split; [done|]. split; [done|]. split; [done|].
    split; [split; [eapply final_grows; [done|apply Hf]|by right]|]. intros E. by rewrite E in El.
Qed.

(** ** Union with a closed row *)

Lemma flat_not_error c i l t : pool_ok (intern c) -> flat c i l t -> ip_is_error i = false.
Proof.
  intros Hp Hf. apply N.eqb_neq. intros ->. destruct Hp as [[g I] He].
  pose proof (proj1 (low_reads _ g IP_INDEX_ERROR_TYPE I eq_refl)) as E.
  destruct (flat_cases c _ l t (conj (ex_intro _ g I) He) Hf) as [(H & _)|(H & _)];
    rewrite E in H; by vm_compute in H.
Qed.

Lemma flat_closed_nil c i : flat c i [] IP_EMPTY_EFFECT_ROW -> pool_ok (intern c) -> i = IP_EMPTY_EFFECT_ROW.
Proof.
  intros [_ [[-> _]|H]] Hp; [done|]. by eapply reads_inj; [done| |exact H|apply empty_reads].
Qed.

Lemma resolve_final' c t : pool_ok (intern c) -> final c t -> row_resolve c t = Ret t.
Proof.
  intros Hp Hf. destruct (subst_ready (row_subst c)) eqn:E; [by apply resolve_final|].
  unfold row_resolve. by rewrite E.
Qed.

Lemma merge_labels_nil_r l : merge_labels l [] = l.
Proof. by destruct l. Qed.

Lemma row_union_flat fuel c a b la lb ta tb k r : pool_ok (intern c) -> flat c a la ta -> flat c b lb tb ->
  a <> b -> ta = IP_EMPTY_EFFECT_ROW \/ tb = IP_EMPTY_EFFECT_ROW ->
  ip_tag (intern c) a = IP_TAG_EFFECT_ROW -> ip_tag (intern c) b = IP_TAG_EFFECT_ROW ->
  short (la ++ lb) -> room (k + 1) (row_cost (la ++ lb) + r) (intern c) ->
  exists i c', row_union fuel c a b = Ret (i, c') /\ grows c c' /\ room k r (intern c') /\
    flat c' i (merge_labels la lb) (if ta =? IP_EMPTY_EFFECT_ROW then tb else ta).
Proof.
  intros Hp Ha Hb Hab Ht Hta Htb Hsh Hr. unfold row_union.
  rewrite (proj2 (N.eqb_neq _ _) (flat_nonzero c a la ta Hp Ha)), (proj2 (N.eqb_neq _ _) (flat_nonzero c b lb tb Hp Hb)).
  cbn [orb]. rewrite (flatten_flat c a la ta Hp Ha). cbn [obind]. rewrite (flatten_flat c b lb tb Hp Hb). cbn [obind].
  rewrite (flat_not_error c a la ta Hp Ha), (flat_not_error c b lb tb Hp Hb). cbn [orb].
  rewrite (proj2 (N.eqb_neq a b) Hab).
  assert (Hr0 : room k r (intern c)) by (eapply room_le; [exact Hr|lia|lia]).
  pose proof (grows_refl c Hp) as Hg0.
  destruct (flat_cases c a la ta Hp Ha) as [(E & _)|(_ & Ea & Ra)]; [congruence|].
  destruct (flat_cases c b lb tb Hp Hb) as [(E & _)|(_ & Eb & Rb)]; [congruence|].
  destruct (N.eqb_spec a IP_EMPTY_EFFECT_ROW) as [->|Hae].
  { pose proof (reads_fun _ _ _ _ Ra (empty_reads c Hp)) as [= -> ->]. by exists b, c. }
  destruct (N.eqb_spec b IP_EMPTY_EFFECT_ROW) as [->|Hbe].
  { pose proof (reads_fun _ _ _ _ Rb (empty_reads c Hp)) as [= -> ->]. exists a, c.
    rewrite merge_labels_nil_r. destruct (N.eqb_spec ta IP_EMPTY_EFFECT_ROW) as [->|]; done. }
  rewrite Hta, Htb. change (tag_eqb IP_TAG_EFFECT_ROW IP_TAG_ROW_VAR) with false.
  change (tag_eqb IP_TAG_EFFECT_ROW IP_TAG_EFFECT_ROW) with true. cbn [negb orb].
  rewrite Ea. cbn [obind]. rewrite Eb. cbn [obind].
  rewrite (resolve_final' c ta Hp (proj1 Ha)). cbn [obind].
  rewrite (resolve_final' c tb Hp (proj1 Hb)). cbn [obind].
  set (t := if ta =? IP_EMPTY_EFFECT_ROW then tb else ta).
  assert (Hft : final c t) by (unfold t; destruct (_ =? _); [apply Hb|apply Ha]).
  assert (Hperm := merge_labels_perm la lb). pose proof (Permutation_length Hperm) as Hlen.
  destruct (row_intern_ok c (merge_labels la lb) t k r Hp) as (i & c' & E & Hg & Hr' & Hi).
  - by apply merge_labels_sorted; [eapply (flat_sorted c a)|eapply (flat_sorted c b)].
  - unfold short. by rewrite Hlen.
  - by eapply final_nonzero.
  - unfold row_cost. by rewrite Hlen.
  - exists i, c'. split; [|split; [done|split; [done|split; [by eapply final_grows|by right]]]].
    rewrite <- E. unfold t. destruct (N.eqb_spec ta IP_EMPTY_EFFECT_ROW) as [->|Hne]; [done|].
    destruct Ht as [->| ->]; [done|]. by rewrite N.eqb_refl.
Qed.

(** ** Binding *)

Lemma subst_get_put m id j id' : m <> None -> j <> 0 ->
  subst_get (subst_put id j m) id' = if id' =? id then Some j else subst_get m id'.
Proof.
  intros Hm Hj. destruct m as [[m|]|]; [| |done]; unfold subst_put, subst_get, bound_in;
    destruct (N.eqb_spec id' id) as [->|Hne].
  - by rewrite lookup_insert_eq, (proj2 (N.eqb_neq j 0) Hj).
  - by rewrite lookup_insert_ne.
  - by rewrite lookup_singleton_eq, (proj2 (N.eqb_neq j 0) Hj).
  - by rewrite lookup_singleton_ne.
Qed.

(** The unbound variable [v] of identity [id]. *)
Definition hole (c : Sema) (v id : N) : Prop :=
  reads (intern c) v (IPK_ROW_VAR id) /\ subst_get (row_subst c) id = None.

Section Bind.
Context (c : Sema) (v id j : N) (m : nat) (l' : list N) (t' : IpIndex).
Context (Hp : pool_ok (intern c)) (Hs : row_subst c <> None) (Hv : hole c v id).
Context (Hj : row_den c m j l' t') (Hne : t' <> v).

Lemma den_nonzero n i l t : row_den c n i l t -> i <> 0.
Proof.
  assert (Hz : forall i k, reads (intern c) i k -> compound k = true -> i <> 0).
  { intros i0 k H Hc ->. destruct (reads_ok _ _ _ Hp H Hc) as (_ & _ & _ & Hlow). by vm_compute in Hlow. }
  destruct 1; [done|by eapply Hz..].
Qed.

Lemma bound_get id' : subst_get (row_subst (subst_bind id j c)) id' =
  if id' =? id then Some j else subst_get (row_subst c) id'.
Proof. unfold subst_bind. simpl. apply subst_get_put; [done|by eapply den_nonzero]. Qed.

Lemma bind_other n i l u : row_den c n i l u -> u <> v -> row_den (subst_bind id j c) n i l u.
Proof.
  intros H. induction H as [n|n i id' Hr Hg|n i id' k l t Hr Hg H IH|n i ls tl l t Hi Hr H IH]; intros Hu.
  - constructor.
  - eapply rd_open; [exact Hr|]. rewrite bound_get. destruct (N.eqb_spec id' id) as [->|]; [|done].
    exfalso. apply Hu. by eapply reads_inj; [exact Hp| |exact Hr|apply Hv].
  - eapply rd_bound; [exact Hr| |by apply IH]. rewrite bound_get.
    destruct (N.eqb_spec id' id) as [->|]; [|done]. destruct Hv as [_ Hn]. congruence.
  - eapply rd_row; [done|exact Hr|by apply IH].
Qed.

Lemma bind_here n i l : row_den c n i l v -> row_den (subst_bind id j c) (n + S m) i (l ++ l') t'.
Proof.
  assert (Hb : row_den (subst_bind id j c) m j l' t') by (by apply bind_other).
  destruct Hv as [Hrv Hn].
  intros H. remember v as u eqn:Eu. induction H as [n|n i id' Hr Hg|n i id' k l t Hr Hg H IH|n i ls tl l t Hi Hr H IH].
  - exfalso. by eapply (var_not_empty c Hp); [exact Hrv|].
  - subst i. pose proof (reads_fun _ _ _ _ Hr Hrv) as [= ->].
    apply (row_den_mono _ (S m)); [|lia]. eapply rd_bound; [exact Hr| |exact Hb].
    rewrite bound_get. by rewrite N.eqb_refl.
  - simpl. eapply rd_bound; [exact Hr| |by apply IH]. rewrite bound_get.
    destruct (N.eqb_spec id' id) as [->|]; [congruence|done].
  - simpl. rewrite <- app_assoc. eapply rd_row; [done|exact Hr|by apply IH].
Qed.

(** A row that ends elsewhere does not mention [v]. *)
Lemma final_occurs t hops : final c t -> t <> v -> occurs_hops (S hops) c id t = Ret false.
Proof.
  intros Hf Ht. cbn [occurs_hops].
  rewrite (proj2 (N.eqb_neq _ _) (final_nonzero c Hp t Hf)).
  destruct Hf as [->|(id' & Hr & Hg)]; [by rewrite N.eqb_refl|].
  rewrite (proj2 (N.eqb_neq _ _) (var_not_empty c Hp _ _ Hr)), (var_tag c Hp _ _ Hr).
  change (tag_eqb IP_TAG_ROW_VAR IP_TAG_ROW_VAR) with true. cbn [obind].
  rewrite (var_of_reads c _ _ Hr). cbn [obind]. rewrite Hg.
  destruct (N.eqb_spec id' id) as [->|]; [|done]. exfalso. apply Ht.
  eapply reads_inj; [exact Hp| |exact Hr|apply Hv]. done.
Qed.

Lemma occurs_hops_flat i l t hops : flat c i l t -> t <> v -> occurs_hops (S (S hops)) c id i = Ret false.
Proof.
  intros Hf Ht. pose proof (final_occurs t hops (proj1 Hf) Ht) as Hfin.
  destruct (flat_cases c i l t Hp Hf) as [(_ & _ & -> & _)|(Htag & E & Hr)].
  { apply final_occurs; [apply Hf|done]. }
  revert Hfin. generalize (S hops). intros h Hfin. cbn [occurs_hops].
  rewrite (proj2 (N.eqb_neq _ _) (flat_nonzero c i l t Hp Hf)), Htag.
  destruct (i =? IP_EMPTY_EFFECT_ROW); [done|].
  change (tag_eqb IP_TAG_EFFECT_ROW IP_TAG_ROW_VAR) with false.
  change (tag_eqb IP_TAG_EFFECT_ROW IP_TAG_EFFECT_ROW) with true. cbn iota.
  rewrite E. cbn [obind]. rewrite (resolve_final' c t Hp (proj1 Hf)). cbn [obind].
  by destruct (t =? i).
Qed.

Lemma occurs_flat i l t : flat c i l t -> t <> v -> occurs_in_row c id i = Ret false.
Proof. apply (occurs_hops_flat i l t 254). Qed.

End Bind.

(** ** Unification *)

(** The labels of a row, with their multiplicities. *)
Definition ms (l : list N) : gmultiset N := list_to_set_disj l.

Lemma ms_app l l' : ms (l ++ l') = ms l ⊎ ms l'.
Proof. apply list_to_set_disj_app. Qed.

Lemma ms_perm l l' : l ≡ₚ l' -> ms l = ms l'.
Proof. apply list_to_set_disj_perm. Qed.

Lemma ms_cons x l : ms (x :: l) = {[+ x +]} ⊎ ms l.
Proof. done. Qed.

(** What unifying [a], of labels [la] to the tail [ta], with [b] comes to: the tails get the
    extra labels [xa] and [xb] and a common tail.  [b] has the labels of both, each as often
    as the row that has it more often; those of [a] are among them, and the same when [b]
    was closed. *)
Definition unified (c c' : Sema) (la : list N) (ta : IpIndex) (lb : list N) (tb : IpIndex) : Prop :=
  exists t xa xb,
    (forall n i l, row_den c n i l ta -> exists n', row_den c' n' i (l ++ xa) t) /\
    (forall n i l, row_den c n i l tb -> exists n', row_den c' n' i (l ++ xb) t) /\
    ms (lb ++ xb) = ms la ∪ ms lb /\ ms (la ++ xa) ⊆ ms (lb ++ xb) /\
    (tb = IP_EMPTY_EFFECT_ROW -> ms (la ++ xa) = ms (lb ++ xb)).

(** Whether it succeeds: an open expected row takes anything, a closed one the same labels,
    or those that go on from the labels of an open row. *)
Fixpoint is_prefix (a b : list N) : bool :=
  match a, b with
  | [], _ => true
  | x :: a, y :: b => (x =? y) && is_prefix a b
  | _ :: _, [] => false
  end.

Definition unifiable (la : list N) (ta : IpIndex) (lb : list N) (tb : IpIndex) : bool :=
  bool_decide (la = lb) || negb (tb =? IP_EMPTY_EFFECT_ROW) ||
  (negb (ta =? IP_EMPTY_EFFECT_ROW) && is_prefix la lb).

Lemma is_prefix_app p l : is_prefix p (p ++ l) = true.
Proof. induction p as [|x p IH]; simpl; [done|]. rewrite N.eqb_refl. exact IH. Qed.

Lemma strip_prefix_spec a b : exists p, let (ra, rb) := strip_prefix a b in
  a = p ++ ra /\ b = p ++ rb /\ (ra = [] -> is_prefix a b = true) /\ (is_prefix a b = true -> ra = []).
Proof.
  revert b. induction a as [|x a IH]; intros b; [by exists []|].
  destruct b as [|y b]; [by exists []|]. simpl.
  destruct (N.eqb_spec x y) as [->|Hne].
  - destruct (IH b) as [p Hp]. exists (y :: p). destruct (strip_prefix a b) as [ra rb].
    destruct Hp as (-> & -> & H1 & H2). done.
  - by exists [].
Qed.

(** The multiset difference, one occurrence at a time. *)
Lemma without_all_flat ds : forall c r l t k b, pool_ok (intern c) -> flat c r l t ->
  room (k + N.of_nat (length ds)) (N.of_nat (length ds) * row_cost l + b) (intern c) ->
  exists r' l' c', without_all c r ds = Ret (r', c') /\ grows c c' /\ room k b (intern c') /\
    flat c' r' l' t /\ ms l' = ms l ∖ ms ds.
Proof.
  induction ds as [|x ds IH]; intros c r l t k b Hp Hf Hr.
  { exists r, l, c. split; [done|]. split; [by apply grows_refl|].
    split; [eapply room_le; [exact Hr|simpl; lia..]|]. split; [done|]. unfold ms. simpl. multiset_solver. }
  cbn [without_all]. cbn [length] in Hr.
  destruct (row_without_flat c r l t x (k + N.of_nat (length ds)) (N.of_nat (length ds) * row_cost l + b) Hp Hf)
    as [Hno Hyes]; [eapply room_le; [exact Hr|lia|lia]|].
  destruct (decide (x ∈ l)) as [Hx|Hx].
  - destruct (Hyes Hx) as (r1 & l1 & c1 & -> & Hg & Hr1 & Hf1 & Hperm & _). cbn [obind].
    pose proof (Permutation_length Hperm) as Hlen. simpl in Hlen.
    destruct (IH c1 r1 l1 t k b) as (r' & l' & c' & -> & Hg' & Hr' & Hf' & Hms); [apply Hg|done| |].
    { eapply room_le; [exact Hr1|done|]. unfold row_cost. nia. }
    exists r', l', c'. split; [done|]. split; [by eapply grows_trans|]. split; [done|]. split; [done|].
    rewrite Hms, (ms_perm _ _ Hperm), !ms_cons. multiset_solver.
  - rewrite (Hno Hx). cbn [obind].
    destruct (IH c r l t k b Hp Hf) as (r' & l' & c' & -> & Hg' & Hr' & Hf' & Hms).
    { eapply room_le; [exact Hr|lia|lia]. }
    exists r', l', c'. split; [done|]. split; [done|]. split; [done|]. split; [done|].
    assert (Hx' : x ∉ ms l) by (unfold ms; by rewrite elem_of_list_to_set_disj).
    rewrite Hms, ms_cons. multiset_solver.
Qed.

Lemma unified_same c la ta : unified c c la ta la ta.
Proof.
  exists ta, [], []. rewrite !app_nil_r. split; [intros n i l H; exists n; by rewrite app_nil_r|].
  split; [intros n i l H; exists n; by rewrite app_nil_r|]. split; [multiset_solver|]. by split.
Qed.

(** The tail of [a] swallows what [b] has beyond [a]. *)
Lemma unified_bind_a c id ta tb p rb j : pool_ok (intern c) -> row_subst c <> None ->
  hole c ta id -> tb <> ta -> flat c j rb tb -> unified c (subst_bind id j c) p ta (p ++ rb) tb.
Proof.
  intros Hp Hs Hv Hne Hj. apply flat_den in Hj; [|done].
  exists tb, rb, []. rewrite app_nil_r. split; [intros n i l H; eexists; by eapply bind_here|].
  split; [intros n i l H; exists n; rewrite app_nil_r; by eapply bind_other|].
  split; [rewrite ms_app; multiset_solver|]. by split.
Qed.

(** The tail of [b] takes what [a] has beyond the labels of [b]. *)
Lemma unified_bind_b c id ta tb p ra rb j l' : pool_ok (intern c) -> row_subst c <> None ->
  hole c tb id -> ta <> tb -> flat c j l' ta -> ms l' = ms ra ∖ ms rb ->
  unified c (subst_bind id j c) (p ++ ra) ta (p ++ rb) tb.
Proof.
  intros Hp Hs Hv Hne Hj Hl. apply flat_den in Hj; [|done].
  exists ta, [], l'. rewrite app_nil_r. split; [intros n i l H; exists n; rewrite app_nil_r; by eapply bind_other|].
  split; [intros n i l H; eexists; by eapply bind_here|].
  rewrite !ms_app, Hl. split; [multiset_solver|]. split; [multiset_solver|].
  intros E. exfalso. destruct Hv as [Hv _]. by apply (var_not_empty c Hp _ _ Hv).
Qed.

Lemma final_hole c t : pool_ok (intern c) -> final c t -> ip_tag (intern c) t = IP_TAG_ROW_VAR ->
  exists id, hole c t id.
Proof.
  intros Hp [->|(id & H)] Ht; [|by exists id]. by rewrite (row_tag c Hp _ _ _ (empty_reads c Hp)) in Ht.
Qed.

Lemma hole_id c t id : hole c t id -> row_var_id (intern c) t = Ret id.
Proof. intros [H _]. by apply var_of_reads. Qed.

Lemma hole_open c t id : pool_ok (intern c) -> hole c t id -> (t =? IP_EMPTY_EFFECT_ROW) = false.
Proof. intros Hp [H _]. apply N.eqb_neq. by eapply var_not_empty. Qed.

Lemma final_open c t : pool_ok (intern c) -> final c t -> (t =? IP_EMPTY_EFFECT_ROW) = false ->
  exists id, hole c t id /\ ip_tag (intern c) t = IP_TAG_ROW_VAR.
Proof.
  intros Hp Hf Ht. destruct Hf as [->|(id & Hr & Hg)]; [done|]. exists id. split; [done|]. by eapply var_tag.
Qed.

Lemma hole_grows c c' t id : grows c c' -> hole c t id -> hole c' t id.
Proof.
  intros Hg [Hr Hn]. split; [by eapply reads_extends; [apply Hg|]|]. by destruct (grows_subst c c' Hg) as [-> _].
Qed.

Lemma unified_grows c c1 c' la ta lb tb : grows c c1 -> unified c1 c' la ta lb tb -> unified c c' la ta lb tb.
Proof.
  intros Hg (t & xa & xb & Ha & Hb & H). exists t, xa, xb.
  split; [intros n i l Hd; eapply Ha; by eapply row_den_grows|].
  split; [intros n i l Hd; eapply Hb; by eapply row_den_grows|done].
Qed.

Lemma flat_fun c i l t l' t' : pool_ok (intern c) -> flat c i l t -> flat c i l' t' -> l = l' /\ t = t'.
Proof. intros Hp H1 H2. by eapply (row_den_fun c Hp); apply flat_den. Qed.

(** What [row_unify] answers on rows that are spelled out. *)
Definition unify_post (c : Sema) (la : list N) (ta : IpIndex) (lb : list N) (tb : IpIndex)
    (r : outcome (bool * Sema)) : Prop :=
  exists ok c', r = Ret (ok, c') /\ ok = unifiable la ta lb tb /\ diags c' = diags c /\
    pool_ok (intern c') /\ extends (intern c) (intern c') /\ (ok = true -> unified c c' la ta lb tb).

Section Unify.
Context (c : Sema) (a b : IpIndex) (la : list N) (ta : IpIndex) (lb : list N) (tb : IpIndex).
Context (Hp : pool_ok (intern c)) (Hs : row_subst c <> None).
Context (Ha : flat c a la ta) (Hb : flat c b lb tb) (Ht : ta <> tb \/ ta = IP_EMPTY_EFFECT_ROW).

Lemma unify_bound c1 id j : grows c c1 -> unifiable la ta lb tb = true ->
  unified c1 (subst_bind id j c1) la ta lb tb -> unify_post c la ta lb tb (Ret (true, subst_bind id j c1)).
Proof.
  intros Hg Hu Hb1. exists true, (subst_bind id j c1). split; [done|]. split; [done|].
  split; [simpl; by destruct (grows_subst c c1 Hg) as (_ & _ & ->)|].
  split; [apply Hg|]. split; [apply Hg|]. intros _. by eapply unified_grows.
Qed.

(** The same row, or a variable on one side. *)
Lemma unify_easy fuel : a = b \/ ip_tag (intern c) a = IP_TAG_ROW_VAR \/ ip_tag (intern c) b = IP_TAG_ROW_VAR ->
  unify_post c la ta lb tb (row_unify (S fuel) c a b).
Proof.
  intros Hcase. cbn [row_unify]. rewrite (flatten_flat c a la ta Hp Ha). cbn [obind].
  rewrite (flatten_flat c b lb tb Hp Hb). cbn [obind]. pose proof (grows_refl c Hp) as Hg.
  destruct (N.eqb_spec a b) as [->|Hab].
  { destruct (flat_fun c b la ta lb tb Hp Ha Hb) as [-> ->]. exists true, c.
    split; [done|]. split; [unfold unifiable; by rewrite bool_decide_true|]. split; [done|].
    split; [done|]. split; [apply extends_refl|]. intros _. apply unified_same. }
  destruct (flat_cases c a la ta Hp Ha) as [(Hat & Ela & Eta & Hae)|(Hat & _ & _)]; rewrite Hat.
  { destruct (final_hole c a Hp) as [id Hid]; [rewrite Eta; apply Ha|done|].
    change (tag_eqb IP_TAG_ROW_VAR IP_TAG_ROW_VAR) with true. cbn iota.
    rewrite (hole_id _ _ _ Hid). cbn [obind]. unfold bind_checked. rewrite Eta in Hid.
    assert (Hne : tb <> ta) by (destruct Ht as [Ht'|Ht']; congruence).
    rewrite (occurs_flat c ta id Hp Hid b lb tb Hb Hne). cbn [obind].
    apply unify_bound; [done| |].
    - unfold unifiable. rewrite (hole_open _ _ _ Hp Hid), Ela. simpl. by rewrite orb_true_r.
    - rewrite Ela. by apply (unified_bind_a c id ta tb [] lb b). }
  destruct Hcase as [|[Hcase|Hbt]]; [done|congruence|]. rewrite Hbt.
  change (tag_eqb IP_TAG_EFFECT_ROW IP_TAG_ROW_VAR) with false.
  change (tag_eqb IP_TAG_ROW_VAR IP_TAG_ROW_VAR) with true. cbn iota.
  destruct (flat_cases c b lb tb Hp Hb) as [(_ & Elb & Etb & Hbe)|(Hbt' & _ & _)]; [|congruence].
  destruct (final_hole c b Hp) as [id Hid]; [rewrite Etb; apply Hb|done|].
  rewrite (hole_id _ _ _ Hid). cbn [obind]. unfold bind_checked. rewrite Etb in Hid.
  assert (Hne : ta <> tb) by (destruct Ht as [Ht'|Ht']; congruence).
  rewrite (occurs_flat c tb id Hp Hid a la ta Ha Hne). cbn [obind].
  apply unify_bound; [done| |].
  - unfold unifiable. by rewrite (hole_open _ _ _ Hp Hid), orb_true_r.
  - rewrite Elb. apply (unified_bind_b c id ta tb [] la [] a la); [done..|]. unfold ms. simpl. multiset_solver.
Qed.

End Unify.

Section UnifyRows.
Context (c : Sema) (a b : IpIndex) (la : list N) (ta : IpIndex) (lb : list N) (tb : IpIndex).
Context (Hp : pool_ok (intern c)) (Hs : row_subst c <> None).
Context (Ha : flat c a la ta) (Hb : flat c b lb tb) (Ht : ta <> tb \/ ta = IP_EMPTY_EFFECT_ROW).

(** Room for the rows that unification interns. *)
Definition unify_room : Prop :=
  room (1 + N.of_nat (length lb)) ((1 + N.of_nat (length lb)) * row_cost (la ++ lb)) (intern c).

(** The tails, when the labels are the same. *)
Lemma unify_tails fuel : la = lb -> unify_post c la ta lb tb (row_unify (S fuel) c ta tb).
Proof.
  intros El. destruct (unify_easy c ta tb [] ta [] tb Hp Hs) with (fuel := fuel) as (ok & c' & -> & Hok & H1 & H2 & H3 & H4);
    [split; [apply Ha|by left]|split; [apply Hb|by left]|done| |].
  - destruct (N.eqb_spec ta IP_EMPTY_EFFECT_ROW) as [Ee|Ee].
    + destruct (N.eqb_spec tb IP_EMPTY_EFFECT_ROW) as [Ee'|Ee']; [left; congruence|].
      right. right. apply (final_tag c Hp); [apply Hb|done].
    + right. left. apply (final_tag c Hp); [apply Ha|done].
  - exists ok, c'. split; [done|]. assert (ok = true) as -> by (rewrite Hok; done).
    split; [unfold unifiable; by rewrite bool_decide_true by congruence|].
    split; [done|]. split; [done|]. split; [done|]. intros _.
    destruct (H4 eq_refl) as (t & xa & xb & H5 & H6 & H7 & H8 & H9).
    exists t, xa, xb. split; [done|]. split; [done|]. rewrite <- El, !ms_app. cbn [app] in *.
    change (ms []) with (∅ : gmultiset N) in H7.
    split; [multiset_solver|]. split; [multiset_solver|]. intros Et. specialize (H9 Et). multiset_solver.
Qed.

(** What is left of the labels after their common prefix. *)
Section Residual.
Context (p ra rb : list N) (Ela : la = p ++ ra) (Elb : lb = p ++ rb).

(** The residual labels with a tail. *)
Lemma residual_ok l t k r : sublist l la \/ sublist l lb -> final c t ->
  room (k + 1) (row_cost (la ++ lb) + r) (intern c) ->
  exists i c', row_intern l t c = Ret (i, c') /\ grows c c' /\ room k r (intern c') /\ flat c' i l t.
Proof.
  intros Hl Hft Hr.
  assert (H : Sorted N.le l /\ short l /\ (length l <= length (la ++ lb))%nat).
  { rewrite length_app. pose proof (flat_short c a la ta Hp Ha). pose proof (flat_short c b lb tb Hp Hb). unfold short in *.
    destruct Hl as [Hl|Hl]; pose proof (sublist_length _ _ Hl); (split; [|split; lia]);
      (eapply sorted_sublist; [|exact Hl]); [by eapply (flat_sorted c a)|by eapply (flat_sorted c b)]. }
  destruct H as (H1 & H2 & H3).
  destruct (row_intern_ok c l t k r Hp H1 H2) as (i & c' & -> & Hg & Hr' & Hi).
  - by apply (final_nonzero c Hp).
  - eapply room_le; [exact Hr|lia|unfold row_cost; lia].
  - exists i, c'. split; [done|]. split; [done|]. split; [done|]. split; [by eapply final_grows|by right].
Qed.

Lemma sublist_ra : sublist ra la.
Proof. rewrite Ela. by apply sublist_inserts_l. Qed.

Lemma sublist_rb : sublist rb lb.
Proof. rewrite Elb. by apply sublist_inserts_l. Qed.

Lemma holes_differ id : hole c ta id \/ hole c tb id -> ta <> tb.
Proof.
  intros Hh. destruct Ht as [Hne|Ee]; [done|]. intros E. rewrite <- E in Hh.
  assert (hole c ta id) as [Hr _] by tauto. by apply (var_not_empty c Hp _ _ Hr).
Qed.

Lemma unify_bind_a id : unify_room -> hole c ta id -> ra = [] ->
  unify_post c la ta lb tb
    (let! (residual, c) := row_intern rb tb c in Ret (true, subst_bind id residual c)).
Proof.
  intros Hroom Hid Hra. pose proof (holes_differ id (or_introl Hid)) as Hne.
  destruct (residual_ok rb tb 0 0) as (i & c' & -> & Hg & _ & Hi); [right; apply sublist_rb|apply Hb| |].
  { eapply room_le; [exact Hroom|lia|nia]. }
  cbn [obind]. rewrite Hra, app_nil_r in Ela. apply unify_bound; [done| |].
  - unfold unifiable. rewrite (hole_open c _ id Hp Hid), Ela, Elb.
    rewrite is_prefix_app. cbn [negb andb]. by rewrite orb_true_r.
  - rewrite Ela, Elb. apply unified_bind_a; [apply Hg| |by eapply hole_grows|congruence|done].
    by destruct (grows_subst c c' Hg) as [-> _].
Qed.

(** The tail of [b], bound to a row that has what [a] has beyond [b]. *)
Lemma unify_bind_b id c1 i l' : grows c c1 -> hole c tb id -> flat c1 i l' ta -> ms l' = ms ra ∖ ms rb ->
  unify_post c la ta lb tb (Ret (true, subst_bind id i c1)).
Proof.
  intros Hg Hid Hi Hl. pose proof (holes_differ id (or_intror Hid)) as Hne. apply unify_bound; [done| |].
  - unfold unifiable. by rewrite (hole_open c _ id Hp Hid), orb_true_r.
  - rewrite Ela, Elb. eapply unified_bind_b; [apply Hg| |by eapply hole_grows|done|exact Hi|done].
    by destruct (grows_subst c c1 Hg) as [-> _].
Qed.

Lemma unify_exhausted_b id : unify_room -> hole c tb id -> rb = [] ->
  unify_post c la ta lb tb
    (let! (residual, c) := row_intern ra ta c in Ret (true, subst_bind id residual c)).
Proof.
  intros Hroom Hid Hrb.
  destruct (residual_ok ra ta 0 0) as (i & c' & -> & Hg & _ & Hi); [left; apply sublist_ra|apply Ha| |].
  { eapply room_le; [exact Hroom|lia|nia]. }
  cbn [obind]. apply (unify_bind_b id c' i ra Hg Hid Hi). rewrite Hrb. unfold ms. simpl. multiset_solver.
Qed.

Lemma unify_subtract id : unify_room -> hole c tb id ->
  unify_post c la ta lb tb
    (let! (residual, c) := row_intern ra ta c in
     let! (residual, c) := without_all c residual rb in
     let! id := row_var_id (intern c) tb in bind_checked c id residual).
Proof.
  intros Hroom Hid. unfold unify_room in Hroom. pose proof (holes_differ id (or_intror Hid)) as Hne.
  pose proof (sublist_length _ _ sublist_rb) as Hlb. pose proof (sublist_length _ _ sublist_ra) as Hla.
  destruct (residual_ok ra ta (N.of_nat (length rb)) (N.of_nat (length rb) * row_cost ra)) as (i & c1 & -> & Hg1 & Hr1 & Hi);
    [left; apply sublist_ra|apply Ha| |].
  { eapply room_le; [exact Hroom|lia|]. unfold row_cost. rewrite length_app. nia. }
  cbn [obind].
  destruct (without_all_flat rb c1 i ra ta 0 0) as (j & l' & c2 & -> & Hg2 & _ & Hj & Hl'); [apply Hg1|done| |].
  { eapply room_le; [exact Hr1|lia|lia]. }
  cbn [obind]. pose proof (grows_trans _ _ _ Hg1 Hg2) as Hg.
  pose proof (hole_grows c c2 tb id Hg Hid) as Hid2. rewrite (hole_id _ _ _ Hid2). cbn [obind].
  unfold bind_checked. rewrite (occurs_flat c2 tb id (proj1 (proj2 Hg)) Hid2 j l' ta Hj Hne). cbn [obind].
  by apply (unify_bind_b id c2 j l').
Qed.

End Residual.

(** Both sides are rows that differ. *)
Lemma unify_rows fuel : unify_room -> a <> b -> ip_tag (intern c) a = IP_TAG_EFFECT_ROW ->
  ip_tag (intern c) b = IP_TAG_EFFECT_ROW -> unify_post c la ta lb tb (row_unify (S (S fuel)) c a b).
Proof.
  intros Hroom Hab Hat Hbt. pose proof (unify_tails fuel) as Htails.
  pose proof (fun p ra rb Ea Eb id => unify_bind_a p ra rb Ea Eb id Hroom) as Hbind_a.
  pose proof (fun p ra rb Ea Eb id => unify_exhausted_b p ra rb Ea Eb id Hroom) as Hbind_b.
  pose proof (fun p ra rb Ea Eb id => unify_subtract p ra rb Ea Eb id Hroom) as Hsubtract.
  revert Htails. generalize (S fuel). intros f Htails. cbn [row_unify].
  rewrite (flatten_flat c a la ta Hp Ha). cbn [obind]. rewrite (flatten_flat c b lb tb Hp Hb). cbn [obind].
  rewrite (proj2 (N.eqb_neq a b) Hab), Hat, Hbt.
  change (tag_eqb IP_TAG_EFFECT_ROW IP_TAG_ROW_VAR) with false.
  change (tag_eqb IP_TAG_EFFECT_ROW IP_TAG_EFFECT_ROW) with true. cbn [negb orb].
  destruct (flat_cases c a la ta Hp Ha) as [(E & _)|(_ & Ea & _)]; [congruence|].
  destruct (flat_cases c b lb tb Hp Hb) as [(E & _)|(_ & Eb & _)]; [congruence|].
  rewrite Ea. cbn [obind]. rewrite Eb. cbn [obind].
  destruct (strip_prefix_spec la lb) as [p Hpre]. destruct (strip_prefix la lb) as [ra rb].
  destruct Hpre as (Ela & Elb & Hpre1 & Hpre2).
  rewrite (resolve_final' c ta Hp (proj1 Ha)). cbn [obind].
  rewrite (resolve_final' c tb Hp (proj1 Hb)). cbn [obind].
  assert (Hvar : forall t, final c t -> if tag_eqb (ip_tag (intern c) t) IP_TAG_ROW_VAR
    then exists id, hole c t id else t = IP_EMPTY_EFFECT_ROW).
  { intros t Hf. destruct (N.eqb_spec t IP_EMPTY_EFFECT_ROW) as [->|Hne].
    - by rewrite (row_tag c Hp _ _ _ (empty_reads c Hp)).
    - rewrite (final_tag c Hp t Hf Hne). apply final_hole; [done..|]. by apply final_tag. }
  pose proof (Hvar ta (proj1 Ha)) as Hva. pose proof (Hvar tb (proj1 Hb)) as Hvb. clear Hvar.
  destruct (decide (ra = [] /\ rb = [])) as [[-> ->]|Hno].
  { apply Htails. congruence. }
  assert (Hlab : la <> lb).
  { intros El. assert (ra = []) as E1.
    { apply Hpre2. rewrite <- El. pose proof (is_prefix_app la []) as H. by rewrite app_nil_r in H. }
    apply Hno. split; [done|]. rewrite E1, app_nil_r in Ela. apply (app_inv_head p). by rewrite app_nil_r, <- Elb, <- El. }
  assert (Hfail : tb = IP_EMPTY_EFFECT_ROW -> (ra = [] -> ta = IP_EMPTY_EFFECT_ROW) ->
    unify_post c la ta lb tb (Ret (false, c))).
  { intros Etb Hta. exists false, c. split; [done|]. split; [|split; [done|split; [done|split; [apply extends_refl|done]]]].
    unfold unifiable. rewrite Etb, N.eqb_refl, (bool_decide_false _ Hlab).
    destruct (is_prefix la lb) eqn:E; [|by rewrite andb_false_r]. by rewrite (Hta (Hpre2 eq_refl)). }
  destruct ra as [|x ra], rb as [|y rb]; [by destruct Hno| | |];
    destruct (tag_eqb (ip_tag (intern c) ta) IP_TAG_ROW_VAR), (tag_eqb (ip_tag (intern c) tb) IP_TAG_ROW_VAR);
    cbn iota; try (by apply Hfail);
    try (destruct Hva as [ida Hida]; rewrite (hole_id _ _ _ Hida)); try destruct Hvb as [idb Hidb]; cbn [obind].
  1-2: exact (Hbind_a p _ _ Ela Elb ida Hida eq_refl).
  2-3: rewrite (hole_id _ _ _ Hidb); exact (Hbind_b p _ _ Ela Elb idb Hidb eq_refl).
  all: exact (Hsubtract p _ _ Ela Elb idb Hidb).
Qed.

(** [row_unify] on rows that are spelled out. *)
Lemma unify_flat fuel : unify_room -> unify_post c la ta lb tb (row_unify (S (S fuel)) c a b).
Proof.
  intros Hroom. destruct (N.eq_dec a b) as [Hab|Hab]; [by apply (unify_easy c a b); auto|].
  destruct (flat_cases c a la ta Hp Ha) as [(Hat & _)|(Hat & _)]; [by apply (unify_easy c a b); auto|].
  destruct (flat_cases c b lb tb Hp Hb) as [(Hbt & _)|(Hbt & _)]; [by apply (unify_easy c a b); auto|].
  by apply unify_rows.
Qed.

End UnifyRows.

End RowsUnify.
