(* ===== verification/RowsTheorems.v ===== *)
(** * Effect rows: theorems *)

From stdpp Require Import gmap gmultiset sorting.
From S2P Require Import Prelude Arena InternPool InternFacts InternGet InternTheorems InternApi Rows RowsFacts.
Import Arena InternPool InternFacts InternGet InternTheorems InternApi Rows RowsFacts RowsUnify SamplePools.

Module RowsTheorems.

#[local] Open Scope N_scope.

(** ** Unification *)

(** What a row of [c] denotes, in at most 63 steps. *)
Definition denotes (c : Sema) (i : IpIndex) (l : list N) (t : IpIndex) : Prop := row_den c 63 i l t /\ short l.

Lemma unified_perm c c' la la' ta lb lb' tb : la ≡ₚ la' -> lb ≡ₚ lb' ->
  unified c c' la ta lb tb -> unified c c' la' ta lb' tb.
Proof.
  intros Ea Eb (t & xa & xb & H1 & H2 & H). exists t, xa, xb. split; [done|]. split; [done|].
  rewrite !ms_app in *. by rewrite <- (ms_perm _ _ Ea), <- (ms_perm _ _ Eb).
Qed.

Lemma ms_inj l l' : ms l = ms l' -> l ≡ₚ l'.
Proof.
  revert l'. induction l as [|x l IH]; intros l' E.
  - destruct l' as [|y l']; [done|]. rewrite ms_cons in E. change (ms []) with (∅ : gmultiset N) in E. multiset_solver.
  - assert (Hx : x ∈ l').
    { apply elem_of_list_to_set_disj. change (x ∈ ms l'). rewrite <- E, ms_cons. multiset_solver. }
    apply elem_of_Permutation in Hx as [k Hk]. rewrite Hk. f_equiv. apply IH.
    rewrite (ms_perm _ _ Hk), !ms_cons in E. multiset_solver.
Qed.

Definition unification_room (la lb : list N) (c : Sema) : Prop :=
  room (3 + N.of_nat (length lb)) ((3 + N.of_nat (length lb)) * row_cost (la ++ lb)) (intern c).

(** Flattening both rows first. *)
Lemma row_unify_flattened fuel c a b la ta lb tb : pool_ok (intern c) -> subst_ready (row_subst c) = true ->
  denotes c a la ta -> denotes c b lb tb -> unification_room la lb c ->
  exists a' b' la' lb' c', row_unify (S fuel) c a b = row_unify (S fuel) c' a' b' /\ grows c c' /\
    flat c' a' la' ta /\ flat c' b' lb' tb /\ la' ≡ₚ la /\ lb' ≡ₚ lb /\
    room (1 + N.of_nat (length lb)) ((1 + N.of_nat (length lb)) * row_cost (la ++ lb)) (intern c').
Proof.
  intros Hp Hs [Ha Hsa] [Hb Hsb] Hr. unfold unification_room in Hr.
  assert (Hcost : row_cost la <= row_cost (la ++ lb) /\ row_cost lb <= row_cost (la ++ lb)).
  { unfold row_cost. rewrite length_app. lia. }
  destruct (flatten_den c 63 a la ta (2 + N.of_nat (length lb)) ((2 + N.of_nat (length lb)) * row_cost (la ++ lb)) Hp Hs Ha)
    as (a' & la' & c1 & Ea & Hg1 & Hr1 & Hfa & Hpa); [done|done|eapply room_le; [exact Hr|lia|nia]|].
  assert (Hs1 : subst_ready (row_subst c1) = true) by (by destruct (grows_subst c c1 Hg1) as [-> _]).
  destruct (flatten_den c1 63 b lb tb (1 + N.of_nat (length lb)) ((1 + N.of_nat (length lb)) * row_cost (la ++ lb)))
    as (b' & lb' & c2 & Eb & Hg2 & Hr2 & Hfb & Hpb);
    [apply Hg1|done|by eapply row_den_grows|done|done|eapply room_le; [exact Hr1|lia|nia]|].
  assert (Hfa2 : flat c2 a' la' ta) by (by eapply flat_grows).
  exists a', b', la', lb', c2. split; [|split; [by eapply grows_trans|done]].
  cbn [row_unify]. rewrite Ea. cbn [obind]. rewrite Eb. cbn [obind].
  rewrite (flatten_flat c2 a' la' ta (proj1 (proj2 Hg2)) Hfa2). cbn [obind].
  by rewrite (flatten_flat c2 b' lb' tb (proj1 (proj2 Hg2)) Hfb).
Qed.

(** C25: Row unification, by position, is sound: for two rows read through the bindings
    (chains of up to 63 steps) whose tails are not the same variable, with room in the pool
    for what unification interns, [row_unify] returns, with no diagnostic and nothing live in
    the pool changed.  It answers true exactly when the expected row is open, or the labels in
    order are the same, or the open actual row's labels start those of the expected one; so it
    can answer false for rows that some binding makes equal, as <1|m> against <0,1>. When it
    answers true, both rows have a common tail under the new bindings, the expected row has
    every label as often as either row had it, those of the actual row are among them, and
    they are the same when the expected row was closed. *)
Theorem row_unify_sound fuel c a b la ta lb tb :
  pool_ok (intern c) -> subst_ready (row_subst c) = true -> (2 <= fuel)%nat ->
  denotes c a la ta -> denotes c b lb tb -> ta <> tb \/ ta = IP_EMPTY_EFFECT_ROW -> unification_room la lb c ->
  exists ok c', row_unify fuel c a b = Ret (ok, c') /\
    ok = unifiable (sort_labels la) ta (sort_labels lb) tb /\ diags c' = diags c /\
    pool_ok (intern c') /\ extends (intern c) (intern c') /\
    (ok = true -> exists n la' lb' t, row_den c' n a la' t /\ row_den c' n b lb' t /\
      ms lb' = ms la ∪ ms lb /\ ms la ⊆ ms la' /\ ms la' ⊆ ms lb' /\
      (tb = IP_EMPTY_EFFECT_ROW -> la' ≡ₚ lb')).
Proof.
  intros Hp Hs Hf Ha Hb Ht Hr. destruct fuel as [|[|fuel]]; [lia..|].
  destruct (row_unify_flattened (S fuel) c a b la ta lb tb Hp Hs Ha Hb Hr)
    as (a' & b' & la' & lb' & c1 & -> & Hg & Hfa & Hfb & Pa & Pb & Hr1).
  destruct (unify_flat c1 a' b' la' ta lb' tb) with (fuel := fuel) as (ok & c' & -> & Hok & Hd & Hp' & Hx & Hu);
    [apply Hg| |done..| |].
  { destruct (grows_subst c c1 Hg) as [-> _]. by destruct (row_subst c). }
  { unfold unify_room, row_cost in *. rewrite !length_app in *.
    by rewrite (Permutation_length Pa), (Permutation_length Pb). }
  exists ok, c'. split; [done|]. split.
  { assert (Hsorted : forall i l l' t, flat c1 i l' t -> l' ≡ₚ l -> l' = sort_labels l).
    { intros i l l' t Hfl Hpl. apply (Sorted_unique N.le); [by eapply flat_sorted; [apply Hg|]|apply sort_labels_sorted|].
      by rewrite sort_labels_perm. }
    by rewrite Hok, (Hsorted a' la la' ta Hfa Pa), (Hsorted b' lb lb' tb Hfb Pb). }
  split; [rewrite Hd; by destruct (grows_subst c c1 Hg) as (_ & _ & ->)|]. split; [done|].
  split; [eapply extends_trans; [apply Hg|done]|]. intros E.
  pose proof (unified_perm _ _ _ _ _ _ _ _ Pa Pb (Hu E)) as (t & xa & xb & H1 & H2 & H3 & H4 & H5).
  destruct (H1 63%nat a la) as [n1 D1]; [by eapply row_den_grows; [|apply Ha]|].
  destruct (H2 63%nat b lb) as [n2 D2]; [by eapply row_den_grows; [|apply Hb]|].
  exists (Nat.max n1 n2), (la ++ xa), (lb ++ xb), t.
  split; [eapply row_den_mono; [exact D1|lia]|]. split; [eapply row_den_mono; [exact D2|lia]|].
  split; [done|]. split; [rewrite ms_app; multiset_solver|]. split; [done|].
  intros Etb. specialize (H5 Etb). by apply ms_inj.
Qed.

(** The exhausted side's tail is bound without the occurs check: a row variable that ends both
    rows is bound to a row that ends in it. *)
Lemma no_den_of_cycle c v id j ls : pool_ok (intern c) -> reads (intern c) v (IPK_ROW_VAR id) ->
  subst_get (row_subst c) id = Some j -> reads (intern c) j (IPK_EFFECT_ROW ls v) -> ls <> [] ->
  forall n i l t, i = v \/ i = j -> ~ row_den c n i l t.
Proof.
  intros Hp Hv Hid Hj Hls n. induction n as [n IH] using lt_wf_ind. intros i l t Hi Hd.
  assert (Hjne : j <> IP_EMPTY_EFFECT_ROW).
  { intros ->. pose proof (reads_fun _ _ _ _ Hj (empty_reads c Hp)) as [= -> _]. done. }
  pose proof (var_not_empty c Hp _ _ Hv) as Hvne.
  assert (Hjv : forall x, ~ reads (intern c) j (IPK_ROW_VAR x)) by (intros x H; by eapply var_not_row).
  assert (Hvr : forall x y, ~ reads (intern c) v (IPK_EFFECT_ROW x y)) by (intros x y H; by eapply var_not_row).
  destruct Hi as [Hi|Hi]; subst i; inversion Hd as [|? ? x Hr Hn|m ? x k ? ? Hr Hk Hd'|m ? ls' tl l' ? Hne Hr Hd']; subst;
    try done; try (by eapply Hjv); try (by eapply Hvr).
  - pose proof (reads_fun _ _ _ _ Hr Hv) as [= ->]. congruence.
  - pose proof (reads_fun _ _ _ _ Hr Hv) as [= ->]. assert (k = j) as -> by congruence.
    eapply (IH m); [lia|right; reflexivity|exact Hd'].
  - pose proof (reads_fun _ _ _ _ Hr Hj) as [= -> ->]. eapply (IH m); [lia|left; reflexivity|exact Hd'].
Qed.

(** Two rows that end in the same unbound variable, one with more labels, unify: the
    variable is bound, without the occurs check, to a row that ends in it.  No diagnostic is
    emitted, and neither the variable nor a row that ends in it denotes anything afterwards. *)
Theorem row_unify_shared_tail fuel c a b p y rb v id :
  pool_ok (intern c) -> row_subst c <> None -> flat c a p v -> flat c b (p ++ y :: rb) v ->
  reads (intern c) v (IPK_ROW_VAR id) -> ip_tag (intern c) a = IP_TAG_EFFECT_ROW ->
  room 1 (row_cost (y :: rb)) (intern c) ->
  exists c' j, row_unify (S fuel) c a b = Ret (true, c') /\ diags c' = diags c /\
    subst_get (row_subst c') id = Some j /\ reads (intern c') j (IPK_EFFECT_ROW (y :: rb) v) /\
    forall n l t, ~ row_den c' n v l t.
Proof.
  intros Hp Hs Ha Hb Hv Hat Hr.
  assert (Hid : hole c v id).
  { destruct (proj1 Ha) as [->|(x & Hx & Hn)]; [by destruct (var_not_empty c Hp _ _ Hv)|].
    by pose proof (reads_fun _ _ _ _ Hx Hv) as [= ->]. }
  destruct (flat_cases c a p v Hp Ha) as [(E & _)|(_ & Ea & _)]; [congruence|].
  destruct (flat_cases c b _ v Hp Hb) as [(_ & E & _)|(Hbt & Eb & _)]; [by destruct p|].
  assert (Hab : a <> b).
  { intros ->. destruct (flat_fun c b _ _ _ _ Hp Ha Hb) as [E _]. apply (f_equal length) in E.
    rewrite length_app in E. simpl in E. lia. }
  destruct (row_intern_ok c (y :: rb) v 0 0 Hp) as (j & c1 & E1 & Hg & _ & Hj).
  { apply (sorted_app_r p). by eapply (flat_sorted c b). }
  { pose proof (flat_short c b _ _ Hp Hb) as H. unfold short in *. rewrite length_app in H. lia. }
  { by apply (final_nonzero c Hp), Ha. }
  { eapply room_le; [exact Hr|lia|lia]. }
  destruct (grows_subst c c1 Hg) as (Es & _ & Ed).
  assert (Hget : subst_get (row_subst (subst_bind id j c1)) id = Some j).
  { unfold subst_bind. cbn [put_row_subst row_subst]. rewrite subst_get_put, N.eqb_refl; [done|by rewrite Es|].
    intros ->. destruct (reads_ok _ _ _ (proj1 (proj2 Hg)) Hj eq_refl) as (_ & _ & _ & H). by vm_compute in H. }
  exists (subst_bind id j c1), j. split; [|split; [done|split; [done|split; [done|]]]].
  - cbn [row_unify]. rewrite (flatten_flat c a _ _ Hp Ha). cbn [obind]. rewrite (flatten_flat c b _ _ Hp Hb). cbn [obind].
    rewrite (proj2 (N.eqb_neq a b) Hab), Hat, Hbt.
    change (tag_eqb IP_TAG_EFFECT_ROW IP_TAG_ROW_VAR) with false.
    change (tag_eqb IP_TAG_EFFECT_ROW IP_TAG_EFFECT_ROW) with true. cbn [negb orb].
    rewrite Ea. cbn [obind]. rewrite Eb. cbn [obind].
    assert (strip_prefix p (p ++ y :: rb) = ([], y :: rb)) as ->.
    { clear. induction p as [|x p IH]; [done|]. simpl. by rewrite N.eqb_refl. }
    rewrite (resolve_final' c v Hp (proj1 Ha)). cbn [obind]. rewrite (var_tag c Hp _ _ Hv).
    change (tag_eqb IP_TAG_ROW_VAR IP_TAG_ROW_VAR) with true. cbn iota.
    rewrite (hole_id _ _ _ Hid). cbn [obind]. rewrite E1. done.
  - intros n l t. eapply (no_den_of_cycle (subst_bind id j c1) v id j (y :: rb)); [apply Hg| |done|done|done|by left].
    by eapply (reads_extends (intern c)); [apply Hg|].
Qed.

(** ** The join of effects *)

(** Accumulate an effect and bring it to the set form, as the inference of a body does. *)
Definition row_join (fuel : nat) (c : Sema) (a b : IpIndex) : outcome (IpIndex * Sema) :=
  let! (r, c) := row_union fuel c a b in row_dedup c r.

Definition closed_row (c : Sema) (i : IpIndex) (l : list N) : Prop :=
  reads (intern c) i (IPK_EFFECT_ROW l IP_EMPTY_EFFECT_ROW).

Lemma closed_flat c i l : closed_row c i l -> flat c i l IP_EMPTY_EFFECT_ROW.
Proof. intros H. split; [by left|by right]. Qed.

Lemma flat_closed c i l : pool_ok (intern c) -> flat c i l IP_EMPTY_EFFECT_ROW -> closed_row c i l.
Proof. intros Hp [_ [[-> ->]|H]]; [apply (empty_reads c Hp)|done]. Qed.

Lemma row_union_closed fuel c a b la lb k r : pool_ok (intern c) -> closed_row c a la -> closed_row c b lb ->
  short (la ++ lb) -> room (k + 1) (row_cost (la ++ lb) + r) (intern c) ->
  exists i c' l, row_union fuel c a b = Ret (i, c') /\ grows c c' /\ room k r (intern c') /\
    flat c' i l IP_EMPTY_EFFECT_ROW /\ (forall x, x ∈ l <-> x ∈ la ++ lb) /\ (length l <= length (la ++ lb))%nat.
Proof.
  intros Hp Ha Hb Hsh Hr. destruct (N.eq_dec a b) as [<-|Hne].
  - pose proof (reads_fun _ _ _ _ Ha Hb) as [= <-]. pose proof (closed_flat c a la Ha) as Hf.
    exists a, c, la. split; [|split; [by apply grows_refl|split; [eapply room_le; [exact Hr|lia..]|split; [done|]]]].
    + unfold row_union. rewrite (proj2 (N.eqb_neq _ _) (flat_nonzero c a la _ Hp Hf)). cbn [orb].
      rewrite (flatten_flat c a la _ Hp Hf). cbn [obind]. rewrite (flatten_flat c a la _ Hp Hf). cbn [obind].
      by rewrite (flat_not_error c a la _ Hp Hf), N.eqb_refl.
    + split; [intros x; rewrite elem_of_app; tauto|]. rewrite length_app. lia.
  - destruct (row_union_flat fuel c a b la lb IP_EMPTY_EFFECT_ROW IP_EMPTY_EFFECT_ROW k r) as (i & c' & E & Hg & Hr' & Hf);
      [done|by apply closed_flat|by apply closed_flat|done|by left|by eapply row_tag|by eapply row_tag|done|done|].
    exists i, c', (merge_labels la lb). split; [exact E|]. split; [done|]. split; [done|]. split; [done|].
    split; [intros x; by rewrite merge_labels_perm|]. by rewrite merge_labels_perm.
Qed.

Lemma row_join_ok fuel c a b la lb k r : pool_ok (intern c) -> closed_row c a la -> closed_row c b lb ->
  short (la ++ lb) -> room (k + 2) (2 * row_cost (la ++ lb) + r) (intern c) ->
  exists i c', row_join fuel c a b = Ret (i, c') /\ grows c c' /\ room k r (intern c') /\
    closed_row c' i (canon (la ++ lb)).
Proof.
  intros Hp Ha Hb Hsh Hr. unfold row_join.
  destruct (row_union_closed fuel c a b la lb (k + 1) (row_cost (la ++ lb) + r))
    as (i & c1 & l & -> & Hg & Hr1 & Hf & Hl & Hlen); [done..|eapply room_le; [exact Hr|lia|lia]|]. cbn [obind].
  destruct (row_dedup_flat c1 i l IP_EMPTY_EFFECT_ROW k r (proj1 (proj2 Hg)) Hf) as (j & c2 & -> & Hg2 & Hr2 & Hf2 & _).
  { eapply room_le; [exact Hr1|lia|]. unfold row_cost. lia. }
  exists j, c2. split; [done|]. split; [by eapply grows_trans|]. split; [done|].
  rewrite (canon_ext _ _ Hl) in Hf2. apply flat_closed; [apply Hg2|done].
Qed.

Definition row_joins (fuel : nat) (c : Sema) (a b d : IpIndex) :
    outcome (list IpIndex * Sema) :=
  let! (ab, c) := row_join fuel c a b in
  let! (ba, c) := row_join fuel c b a in
  let! (abd, c) := row_join fuel c ab d in
  let! (bd, c) := row_join fuel c b d in
  let! (abd', c) := row_join fuel c a bd in
  let! (aba, c) := row_join fuel c ab a in
  Ret ([ab; ba; abd; abd'; aba], c).

Lemma canon_length l : (length (canon l) <= length l)%nat.
Proof.
  unfold canon. etransitivity; [apply unique_length|]. by rewrite (Permutation_length (sort_labels_perm l)).
Qed.

Lemma canon_canon l : canon (canon l) = canon l.
Proof. apply canon_fixed, canon_spec. Qed.

(** A join in a pool that has grown, of rows of known label sets. *)
Lemma row_join_known fuel c a b la lb l n : pool_ok (intern c) -> closed_row c a la -> closed_row c b lb ->
  (forall x, x ∈ la ++ lb <-> x ∈ l) -> (length (la ++ lb) <= n)%nat -> N.of_nat n < 2 ^ 32 ->
  forall k r, room (k + 2) (2 * (16 + 4 * N.of_nat n) + r) (intern c) ->
  exists i c', row_join fuel c a b = Ret (i, c') /\ grows c c' /\ room k r (intern c') /\ closed_row c' i (canon l).
Proof.
  intros Hp Ha Hb Hl Hn Hlt k r Hr.
  destruct (row_join_ok fuel c a b la lb k r Hp Ha Hb) as (i & c' & E & Hg & Hr' & Hi).
  { unfold short. lia. }
  { eapply room_le; [exact Hr|lia|unfold row_cost; lia]. }
  exists i, c'. rewrite (canon_ext _ _ Hl) in Hi. done.
Qed.

Lemma closed_grows c c' i l : grows c c' -> closed_row c i l -> closed_row c' i l.
Proof. intros Hg. apply reads_extends, Hg. Qed.

Lemma closed_inj c i j l : pool_ok (intern c) -> closed_row c i l -> closed_row c j l -> i = j.
Proof. intros Hp. by apply reads_inj. Qed.

Ltac stay := first [eassumption |
  eapply closed_grows; [|eassumption]; repeat first [eassumption | eapply grows_trans; [eassumption|]]].

(** Joins of closed effect rows form a semilattice on the interned indices: whatever the
    order and the nesting, [row_union] followed by [row_dedup] gives the one index that
    stands for the set of labels, in order and once each; and joining in again what is
    already there changes nothing, which is what lets the fixpoint over a group of functions
    stop on equal indices. *)
Theorem row_join_semilattice fuel c a b d la lb ld n :
  pool_ok (intern c) -> closed_row c a la -> closed_row c b lb -> closed_row c d ld ->
  (2 * length (la ++ lb ++ ld) <= n)%nat -> N.of_nat n < 2 ^ 32 -> room 12 (12 * (16 + 4 * N.of_nat n)) (intern c) ->
  exists ab abd c', row_joins fuel c a b d = Ret ([ab; ab; abd; abd; ab], c') /\
    closed_row c' ab (canon (la ++ lb)) /\ closed_row c' abd (canon (la ++ lb ++ ld)).
Proof.
  intros Hp Ha Hb Hd Hlen Hn Hr. unfold row_joins. rewrite !length_app in Hlen.
  pose proof (canon_length (la ++ lb)) as Lab. pose proof (canon_length (lb ++ ld)) as Lbd. rewrite !length_app in Lab, Lbd.
  pose proof (fun x => proj2 (canon_spec (la ++ lb)) x) as Sab. pose proof (fun x => proj2 (canon_spec (lb ++ ld)) x) as Sbd.
  set (w := 16 + 4 * N.of_nat n) in *.
  destruct (row_join_known fuel c a b la lb (la ++ lb) n Hp Ha Hb) with (k := 10) (r := 10 * w)
    as (ab & c1 & -> & G1 & R1 & K1); [done|rewrite length_app; lia|done|eapply room_le; [exact Hr|lia|lia]|]. cbn [obind].
  destruct (row_join_known fuel c1 b a lb la (la ++ lb) n) with (k := 8) (r := 8 * w)
    as (ba & c2 & -> & G2 & R2 & K2); [apply G1|stay|stay|intros x; rewrite !elem_of_app; tauto|rewrite length_app; lia|done|
      eapply room_le; [exact R1|lia|lia]|]. cbn [obind].
  destruct (row_join_known fuel c2 ab d (canon (la ++ lb)) ld (la ++ lb ++ ld) n) with (k := 6) (r := 6 * w)
    as (abd & c3 & -> & G3 & R3 & K3); [apply G2|stay|stay|
      intros x; rewrite elem_of_app, Sab, !elem_of_app; tauto|rewrite length_app; lia|done|eapply room_le; [exact R2|lia|lia]|].
  cbn [obind].
  destruct (row_join_known fuel c3 b d lb ld (lb ++ ld) n) with (k := 4) (r := 4 * w)
    as (bd & c4 & -> & G4 & R4 & K4); [apply G3|stay|stay|done|rewrite length_app; lia|done|
      eapply room_le; [exact R3|lia|lia]|].
  cbn [obind].
  destruct (row_join_known fuel c4 a bd la (canon (lb ++ ld)) (la ++ lb ++ ld) n) with (k := 2) (r := 2 * w)
    as (abd' & c5 & -> & G5 & R5 & K5); [apply G4|stay|stay|
      intros x; rewrite elem_of_app, Sbd, !elem_of_app; tauto|rewrite length_app; lia|done|eapply room_le; [exact R4|lia|lia]|].
  cbn [obind].
  destruct (row_join_known fuel c5 ab a (canon (la ++ lb)) la (la ++ lb) n) with (k := 0) (r := 0)
    as (aba & c6 & -> & G6 & R6 & K6); [apply G5|stay|stay|
      intros x; rewrite elem_of_app, Sab, !elem_of_app; tauto|rewrite length_app; lia|done|eapply room_le; [exact R5|lia|lia]|].
  cbn [obind]. pose proof (proj1 (proj2 G6)) as Hp6.
  assert (Kab : closed_row c6 ab (canon (la ++ lb))) by stay.
  assert (Kabd : closed_row c6 abd (canon (la ++ lb ++ ld))) by stay.
  exists ab, abd, c6. split; [|by split].
  rewrite (closed_inj c6 ba ab _ Hp6 ltac:(stay) Kab), (closed_inj c6 abd' abd _ Hp6 ltac:(stay) Kabd).
  by rewrite (closed_inj c6 aba ab _ Hp6 K6 Kab).
Qed.

(** Handling an effect undoes performing it: adding the label of a one-label row to
    another row, closed or open, and removing it gives back the very index. *)
Theorem row_without_union fuel c a e la ta x :
  pool_ok (intern c) -> flat c a la ta -> ip_tag (intern c) a = IP_TAG_EFFECT_ROW -> closed_row c e [x] -> a <> e ->
  short (la ++ [x]) -> room 2 (2 * row_cost (la ++ [x])) (intern c) ->
  exists r c1 c2, row_union fuel c a e = Ret (r, c1) /\ row_without c1 r x = Ret (a, c2) /\ grows c c2.
Proof.
  intros Hp Ha Hat He Hne Hsh Hr.
  destruct (row_union_flat fuel c a e la [x] ta IP_EMPTY_EFFECT_ROW 1 (row_cost (la ++ [x])) Hp Ha (closed_flat _ _ _ He) Hne)
    as (r & c1 & E1 & Hg1 & Hr1 & Hf1); [by right|done|by eapply row_tag|done|eapply room_le; [exact Hr|lia|lia]|].
  assert (Ht : (if ta =? IP_EMPTY_EFFECT_ROW then IP_EMPTY_EFFECT_ROW else ta) = ta).
  { by destruct (N.eqb_spec ta IP_EMPTY_EFFECT_ROW) as [->|]. }
  rewrite Ht in Hf1. pose proof (merge_labels_perm la [x]) as Hperm.
  destruct (row_without_flat c1 r _ ta x 0 0 (proj1 (proj2 Hg1)) Hf1) as [_ Hw].
  { eapply room_le; [exact Hr1|lia|]. unfold row_cost. rewrite (Permutation_length Hperm). lia. }
  destruct Hw as (r' & l' & c2 & E2 & Hg2 & _ & Hf2 & Hl' & Hrd'); [rewrite Hperm; set_solver|].
  exists r, c1, c2. split; [done|]. pose proof (grows_trans _ _ _ Hg1 Hg2) as Hg. split; [|done]. rewrite E2. do 2 f_equal.
  assert (l' = la) as ->.
  { apply (Sorted_unique N.le); [by eapply (flat_sorted c2); [apply Hg|]|by eapply (flat_sorted c a)|].
    apply (Permutation_cons_inv (a := x)). rewrite <- Hl', Hperm. symmetry. apply Permutation_cons_append. }
  destruct (flat_cases c a la ta Hp Ha) as [(E & _)|(_ & _ & Hrd)]; [congruence|].
  assert (Hrd2 : reads (intern c2) a (IPK_EFFECT_ROW la ta)) by (eapply reads_extends; [apply Hg|done]).
  by eapply reads_inj; [apply Hg| |exact Hrd'|exact Hrd2].
Qed.

(** ** Rows to apply the theorems to *)

Definition rows_sema (p : InternPool) : Sema := mkSema p (Some (Some ∅)) None [].

Lemma row_unify_sound_witness : exists c ok c',
  row_unify 2 c 37 40 = Ret (ok, c') /\ ok = true /\ denotes c 37 [1; 2] 32 /\ denotes c 40 [2] 34 /\
  exists n la' lb' t, row_den c' n 37 la' t /\ row_den c' n 40 lb' t /\ ms lb' = ms [1; 2] ∪ ms [2].
Proof.
  destruct rows_pool as (p & Hp & Hr & R33 & R34 & R35 & R36 & R37 & R38 & R39 & R40).
  assert (D37 : denotes (rows_sema p) 37 [1; 2] 32).
  { split; [|done]. apply (row_den_mono _ 1); [|lia]. apply (flat_den (rows_sema p) Hp). by apply closed_flat. }
  assert (D40 : denotes (rows_sema p) 40 [2] 34).
  { split; [|done]. apply (row_den_mono _ 1); [|lia]. apply (flat_den (rows_sema p) Hp).
    split; [right; exists 2; by split|by right]. }
  destruct (row_unify_sound 2 (rows_sema p) 37 40 [1; 2] 32 [2] 34) as (ok & c' & E & Hok & _ & _ & _ & Hu).
  - exact Hp.
  - exact eq_refl.
  - lia.
  - exact D37.
  - exact D40.
  - right. exact eq_refl.
  - eapply room_le; [exact Hr|vm_compute; discriminate|vm_compute; discriminate].
  - assert (ok = true) as Et by (rewrite Hok; vm_compute; reflexivity).
    destruct (Hu Et) as (n & la' & lb' & t & H1 & H2 & H3 & _).
    exists (rows_sema p), ok, c'. split; [exact E|]. split; [exact Et|]. split; [exact D37|]. split; [exact D40|].
    exists n, la', lb', t. split; [exact H1|]. split; [exact H2|exact H3].
Defined.

Lemma row_unify_shared_tail_witness : exists c c' j,
  row_unify 1 c 38 39 = Ret (true, c') /\ subst_get (row_subst c') 1 = Some j /\
  reads (intern c') j (IPK_EFFECT_ROW [2] 33) /\ reads (intern c) 33 (IPK_ROW_VAR 1) /\
  forall n l t, ~ row_den c' n 33 l t.
Proof.
  destruct rows_pool as (p & Hp & Hr & R33 & R34 & R35 & R36 & R37 & R38 & R39 & R40).
  destruct (row_unify_shared_tail 0 (rows_sema p) 38 39 [1] 2 [] 33 1) as (c' & j & E & _ & Hs & Hj & Hn).
  - exact Hp.
  - discriminate.
  - split; [right; exists 1; split; [exact R33|exact eq_refl]|right; exact R38].
  - split; [right; exists 1; split; [exact R33|exact eq_refl]|right; exact R39].
  - exact R33.
  - exact (row_tag (rows_sema p) Hp _ _ _ R38).
  - eapply room_le; [exact Hr|vm_compute; discriminate|vm_compute; discriminate].
  - exists (rows_sema p), c', j. split; [exact E|]. split; [exact Hs|]. split; [exact Hj|]. split; [exact R33|exact Hn].
Defined.

Lemma row_join_semilattice_witness : exists c ab abd c',
  row_joins 0 c 35 36 37 = Ret ([ab; ab; abd; abd; ab], c') /\ closed_row c' ab [1; 2] /\ closed_row c' abd [1; 2].
Proof.
  destruct rows_pool as (p & Hp & Hr & R33 & R34 & R35 & R36 & R37 & R38 & R39 & R40).
  destruct (row_join_semilattice 0 (rows_sema p) 35 36 37 [1] [2] [1; 2] 8 Hp R35 R36 R37) as (ab & abd & c' & E & H1 & H2).
  - simpl. lia.
  - lia.
  - eapply room_le; [exact Hr|vm_compute; discriminate|vm_compute; discriminate].
  - exists (rows_sema p), ab, abd, c'. split; [exact E|]. split; [exact H1|exact H2].
Defined.

Lemma row_without_union_witness : exists c r c1 c2,
  row_union 0 c 38 36 = Ret (r, c1) /\ row_without c1 r 2 = Ret (38, c2).
Proof.
  destruct rows_pool as (p & Hp & Hr & R33 & R34 & R35 & R36 & R37 & R38 & R39 & R40).
  destruct (row_without_union 0 (rows_sema p) 38 36 [1] 33 2 Hp) as (r & c1 & c2 & E1 & E2 & _).
  - split; [right; exists 1; split; [exact R33|exact eq_refl]|right; exact R38].
  - exact (row_tag (rows_sema p) Hp _ _ _ R38).
  - exact R36.
  - discriminate.
  - exact eq_refl.
  - eapply room_le; [exact Hr|vm_compute; discriminate|vm_compute; discriminate].
  - exists (rows_sema p), r, c1, c2. split; [exact E1|exact E2].
Defined.

End RowsTheorems.
