(* ===== verification/Values.v ===== *)
(** * Comptime values: [src/src/db/query/tv_inspect.c] and the predicates of [coerce.h]

    A value is an index of the intern pool.  [tv_decode] reads it as a scalar; the range
    check, equality, range membership and ordering of scalars are on what it reads.

    - An [int64_t] is a [Z] in its range; [(uint64_t)v] is [u64_of_Z v].
    - A [double] is its 64 bits.  Its arithmetic and comparisons are those of the Standard
      Library's [SpecFloat], at 53 bits of precision; [double_decode] and [double_encode] go
      between the two. *)

From Stdlib Require Import SpecFloat.
From S2P Require Import Prelude SyntaxKind InternPool TypeLayout Rows.
Import SyntaxKind InternPool TypeLayout Rows.

Module Values.

#[local] Open Scope N_scope.

(** ** Numeric predicates *)

Definition ip_bit (t : IpIndex) : N := N.shiftl 1 t.
Definition mask_of (l : list IpIndex) : N := foldr (fun t m => N.lor (ip_bit t) m) 0 l.

Definition ORE_CONCRETE_INT_MASK : N := mask_of
  [IP_INDEX_U8_TYPE; IP_INDEX_I8_TYPE; IP_INDEX_U16_TYPE; IP_INDEX_I16_TYPE; IP_INDEX_U32_TYPE;
   IP_INDEX_I32_TYPE; IP_INDEX_U64_TYPE; IP_INDEX_I64_TYPE; IP_INDEX_USIZE_TYPE; IP_INDEX_ISIZE_TYPE].
Definition ORE_CONCRETE_FLOAT_MASK : N := mask_of [IP_INDEX_F32_TYPE; IP_INDEX_F64_TYPE].
Definition ORE_COMPTIME_NUMERIC_MASK : N := mask_of [IP_INDEX_COMPTIME_INT_TYPE; IP_INDEX_COMPTIME_FLOAT_TYPE].
Definition ORE_NUMERIC_MASK : N :=
  N.lor (N.lor ORE_CONCRETE_INT_MASK ORE_CONCRETE_FLOAT_MASK) ORE_COMPTIME_NUMERIC_MASK.
Definition ORE_COMPTIME_ONLY_MASK : N := N.lor ORE_COMPTIME_NUMERIC_MASK (ip_bit IP_INDEX_TYPE_TYPE).
Definition ORE_SIGNED_INT_MASK : N := mask_of
  [IP_INDEX_I8_TYPE; IP_INDEX_I16_TYPE; IP_INDEX_I32_TYPE; IP_INDEX_I64_TYPE; IP_INDEX_ISIZE_TYPE].
Definition ORE_UNSIGNED_INT_MASK : N := mask_of
  [IP_INDEX_U8_TYPE; IP_INDEX_U16_TYPE; IP_INDEX_U32_TYPE; IP_INDEX_U64_TYPE; IP_INDEX_USIZE_TYPE].

(** [t.v < 32u && ((mask >> t.v) & 1u)]. *)
Definition in_mask (mask : N) (t : IpIndex) : bool := (t <? 32) && N.odd (N.shiftr mask t).

Definition is_concrete_int : IpIndex -> bool := in_mask ORE_CONCRETE_INT_MASK.
Definition is_concrete_float : IpIndex -> bool := in_mask ORE_CONCRETE_FLOAT_MASK.
Definition is_numeric : IpIndex -> bool := in_mask ORE_NUMERIC_MASK.
Definition is_signed_int : IpIndex -> bool := in_mask ORE_SIGNED_INT_MASK.
Definition is_unsigned_int : IpIndex -> bool := in_mask ORE_UNSIGNED_INT_MASK.
Definition is_comptime_only : IpIndex -> bool := in_mask ORE_COMPTIME_ONLY_MASK.

Definition int_bits (t : IpIndex) : N :=
  if (t =? IP_INDEX_U8_TYPE) || (t =? IP_INDEX_I8_TYPE) then 8
  else if (t =? IP_INDEX_U16_TYPE) || (t =? IP_INDEX_I16_TYPE) then 16
  else if (t =? IP_INDEX_U32_TYPE) || (t =? IP_INDEX_I32_TYPE) then 32
  else if (t =? IP_INDEX_U64_TYPE) || (t =? IP_INDEX_I64_TYPE) then 64
  else if (t =? IP_INDEX_USIZE_TYPE) || (t =? IP_INDEX_ISIZE_TYPE) then PTR_SIZE * 8
  else 0.

(** ** 64-bit words *)

Definition INT64_MAX : Z := (2 ^ 63 - 1)%Z.
Definition INT64_MIN : Z := (- 2 ^ 63)%Z.

(** [(int64_t)u]. *)
Definition s64 (u : N) : Z := if u <? 2 ^ 63 then Z.of_N u else (Z.of_N u - 2 ^ 64)%Z.

(** Conversion of the exact result of an operation on [int64_t] to 64 bits. *)
Definition wrap64 (z : Z) : Z := s64 (u64_of_Z z).

(** ** Doubles *)

Definition double_decode (b : N) : spec_float :=
  let s := N.testbit b 63 in
  let e := N.land (N.shiftr b 52) 2047 in
  let m := N.land b (2 ^ 52 - 1) in
  if e =? 0 then match m with 0 => S754_zero s | Npos p => S754_finite s p (-1074) end
  else if e =? 2047 then if m =? 0 then S754_infinity s else S754_nan
  else match m + 2 ^ 52 with 0 => S754_zero s | Npos p => S754_finite s p (Z.of_N e - 1075) end.

Definition double_encode (f : spec_float) : N :=
  match f with
  | S754_zero s => if s then 2 ^ 63 else 0
  | S754_infinity s => (if s then 2 ^ 63 else 0) + N.shiftl 2047 52
  | S754_nan => N.shiftl 0xfff 51
  | S754_finite s m e =>
      (if s then 2 ^ 63 else 0) +
      (if Npos m <? 2 ^ 52 then Npos m else N.shiftl (Z.to_N (e + 1075)) 52 + (Npos m - 2 ^ 52))
  end.

Definition isfinite (f : spec_float) : bool :=
  match f with S754_zero _ | S754_finite _ _ _ => true | _ => false end.

Definition double_op (op : Z -> Z -> spec_float -> spec_float -> spec_float) (a b : N) : spec_float :=
  op 53%Z 1024%Z (double_decode a) (double_decode b).

(** ** Decoding *)

Inductive TvDecoded : Set :=
  | TV_KIND_NONE
  | TV_KIND_INT (type : IpIndex) (int_val : Z)
  | TV_KIND_FLOAT (type : IpIndex) (float_val : N)
  | TV_KIND_BOOL (bool_val : bool)
  | TV_KIND_NAMESPACE (nsid : N)
  | TV_KIND_ENUM_VARIANT (enum_def variant_idx : N)
  | TV_KIND_FN (fn_def : N).

Definition tv_decode (p : InternPool) (v : IpIndex) : outcome TvDecoded :=
  if (v =? IP_NONE) || ip_is_error v then Ret TV_KIND_NONE
  else if v =? IP_INDEX_BOOL_TRUE then Ret (TV_KIND_BOOL true)
  else if v =? IP_INDEX_BOOL_FALSE then Ret (TV_KIND_BOOL false)
  else
    let! k := ip_key p v in
    match ip_tag p v with
    | IP_TAG_INT_VALUE => match k with IPK_INT_VALUE t x => Ret (TV_KIND_INT t x) | _ => wrong_member end
    | IP_TAG_FLOAT_VALUE => match k with IPK_FLOAT_VALUE t x => Ret (TV_KIND_FLOAT t x) | _ => wrong_member end
    | IP_TAG_NAMESPACE_VALUE => match k with IPK_NAMESPACE_VALUE n => Ret (TV_KIND_NAMESPACE n) | _ => wrong_member end
    | IP_TAG_ENUM_VARIANT_VALUE =>
        match k with IPK_ENUM_VARIANT_VALUE d i => Ret (TV_KIND_ENUM_VARIANT d i) | _ => wrong_member end
    | IP_TAG_FN_VALUE => match k with IPK_FN_VALUE d => Ret (TV_KIND_FN d) | _ => wrong_member end
    | _ => Ret TV_KIND_NONE
    end.

(** The comparison of two scalars; the memory of a [double] is its bits. *)
Definition scalar_eq (a b : TvDecoded) : bool :=
  match a, b with
  | TV_KIND_INT _ x, TV_KIND_INT _ y => (x =? y)%Z
  | TV_KIND_FLOAT _ x, TV_KIND_FLOAT _ y => x =? y
  | TV_KIND_BOOL x, TV_KIND_BOOL y => Bool.eqb x y
  | TV_KIND_NAMESPACE x, TV_KIND_NAMESPACE y => x =? y
  | TV_KIND_ENUM_VARIANT d i, TV_KIND_ENUM_VARIANT d' i' => (d =? d') && (i =? i')
  | TV_KIND_FN x, TV_KIND_FN y => x =? y
  | _, _ => false
  end.

Definition tv_value_semantic_eq (p : InternPool) (a b : IpIndex) : outcome bool :=
  if (a =? b) && negb (a =? IP_NONE) && negb (ip_is_error a) then Ret true
  else
    let! da := tv_decode p a in
    let! db_ := tv_decode p b in
    Ret (scalar_eq da db_).

(** [d.type.v != IP_COMPTIME_INT_TYPE.v && tv_type_is_unsigned(d.type)]. *)
Definition src_unsigned (type : IpIndex) : bool :=
  negb (type =? IP_INDEX_COMPTIME_INT_TYPE) && is_unsigned_int type.

(** The bits of [3.4028234663852886e38]; [a <= FLT_MAX] of the absolute value [a]. *)
Definition flt_max_bits : N := 0x47EFFFFFE0000000.
Definition fits_f32 (bits : N) : bool :=
  let f := double_decode bits in
  let a := if SFltb f (S754_zero false) then SFopp f else f in
  SFeqb a (S754_zero false) || SFleb a (double_decode flt_max_bits).

Definition no_range (fits : bool) : FitResult := (fits, None, None).

Definition tv_fits_in (p : InternPool) (value target_type : IpIndex) : outcome FitResult :=
  let! d := tv_decode p value in
  match d with
  | TV_KIND_INT type v =>
      if target_type =? IP_INDEX_COMPTIME_INT_TYPE then Ret (no_range true)
      else
        let bits := int_bits target_type in
        if bits =? 0 then Ret (no_range false)
        else if src_unsigned type then
          if negb (is_unsigned_int target_type) then
            let u := u64_of_Z v in
            if is_signed_int target_type then
              let smax := if bits =? 64 then u64_of_Z INT64_MAX else N.shiftl 1 (bits - 1) - 1 in
              if smax <? u then Ret (int_fits_signed v bits) else Ret (int_fits_signed (s64 u) bits)
            else Ret (no_range false)
          else Ret (int_fits_unsigned_u64 (u64_of_Z v) bits)
        else if is_signed_int target_type then Ret (int_fits_signed v bits)
        else if is_unsigned_int target_type then Ret (int_fits_unsigned v bits)
        else Ret (no_range false)
  | TV_KIND_FLOAT _ bits =>
      if (target_type =? IP_INDEX_COMPTIME_FLOAT_TYPE) || (target_type =? IP_INDEX_F64_TYPE) then Ret (no_range true)
      else if target_type =? IP_INDEX_F32_TYPE then Ret (no_range (fits_f32 bits))
      else Ret (no_range false)
  | TV_KIND_BOOL _ => Ret (no_range (target_type =? IP_INDEX_BOOL_TYPE))
  | _ => Ret (no_range false)
  end.

(** [tv_value_in_range] from the folded bounds [lo] and [hi] of the range on; [eq] for [..=]. *)
Definition tv_value_in_range (p : InternPool) (eq : bool) (lo hi scrut_value : IpIndex) : outcome bool :=
  let! sd := tv_decode p scrut_value in
  let! ld := tv_decode p lo in
  let! hd := tv_decode p hi in
  match sd, ld, hd with
  | TV_KIND_INT _ v, TV_KIND_INT _ lo, TV_KIND_INT _ hi =>
      Ret (if eq then (lo <=? v)%Z && (v <=? hi)%Z else (lo <=? v)%Z && (v <? hi)%Z)
  | _, _, _ => Ret false
  end.

Definition bool_index (b : bool) : IpIndex := if b then IP_INDEX_BOOL_TRUE else IP_INDEX_BOOL_FALSE.

Definition tv_int_compare (p : InternPool) (l r : IpIndex) (opk : OreSyntaxKind) : outcome IpIndex :=
  let! dl := tv_decode p l in
  let! dr := tv_decode p r in
  match dl, dr with
  | TV_KIND_INT lt lv, TV_KIND_INT rt rv =>
      if src_unsigned lt || src_unsigned rt then
        let lu := u64_of_Z lv in
        let ru := u64_of_Z rv in
        Ret match opk with
            | SK_LT => bool_index (lu <? ru) | SK_LE => bool_index (lu <=? ru)
            | SK_GT => bool_index (ru <? lu) | SK_GE => bool_index (ru <=? lu)
            | _ => IP_NONE
            end
      else
        Ret match opk with
            | SK_LT => bool_index (lv <? rv)%Z | SK_LE => bool_index (lv <=? rv)%Z
            | SK_GT => bool_index (rv <? lv)%Z | SK_GE => bool_index (rv <=? lv)%Z
            | _ => IP_NONE
            end
  | _, _ => Ret IP_NONE
  end.

End Values.
