(* ===== verification/Fold.v ===== *)
(** * Comptime folding: [eval.c], and the operators of [infer.c]

    The value of a literal ([parse_int_literal] of [type.c]), of a prefix operator, and the
    type and value of a binary operator from those of its operands.

    - An [int64_t] operation is on [Z] with the checks of the code; [l << r] keeps the low 64
      bits and [l >> r] is arithmetic, as GCC and Clang define them (the standard leaves the
      first undefined when the result does not fit).
    - [strtoull] is that of C17; [strtod] is an argument of what calls it.
    - A diagnostic is its format, without the arguments. *)

From Stdlib Require Import SpecFloat.
From S2P Require Import Prelude SyntaxKind InternPool Rows Values.
Import SyntaxKind InternPool Rows Values.

Module Fold.

#[local] Open Scope N_scope.

(** ** Types of operands *)

Definition unify_arith (a b : IpIndex) : IpIndex :=
  if (a =? IP_NONE) || (b =? IP_NONE) then IP_NONE
  else if a =? b then a
  else if ((a =? IP_INDEX_COMPTIME_INT_TYPE) && (b =? IP_INDEX_COMPTIME_FLOAT_TYPE)) ||
          ((b =? IP_INDEX_COMPTIME_INT_TYPE) && (a =? IP_INDEX_COMPTIME_FLOAT_TYPE))
  then IP_INDEX_COMPTIME_FLOAT_TYPE
  else if (a =? IP_INDEX_COMPTIME_INT_TYPE) && (is_concrete_int b || is_concrete_float b) then b
  else if (b =? IP_INDEX_COMPTIME_INT_TYPE) && (is_concrete_int a || is_concrete_float a) then a
  else if (a =? IP_INDEX_COMPTIME_FLOAT_TYPE) && is_concrete_float b then b
  else if (b =? IP_INDEX_COMPTIME_FLOAT_TYPE) && is_concrete_float a then a
  else IP_NONE.

Definition peer_unify (a b : IpIndex) : IpIndex :=
  if a =? IP_INDEX_NORETURN_TYPE then b
  else if b =? IP_INDEX_NORETURN_TYPE then a
  else if ip_is_error a || ip_is_error b then IP_INDEX_ERROR_TYPE
  else unify_arith a b.

Definition opkind_name (k : OreSyntaxKind) : string :=
  match k with
  | SK_PLUS => "+" | SK_MINUS => "-" | SK_STAR => "*" | SK_SLASH => "/" | SK_PERCENT => "%"
  | SK_STAR_STAR => "**" | SK_EQ_EQ => "==" | SK_BANG_EQ => "!=" | SK_LT => "<" | SK_LE => "<="
  | SK_GT => ">" | SK_GE => ">=" | SK_AMP_AMP => "&&" | SK_PIPE_PIPE => "||" | SK_AMP => "&"
  | SK_PIPE => "|" | SK_CARET => "^" | SK_SHL => "<<" | SK_SHR => ">>" | SK_BANG => "!"
  | SK_TILDE => "~" | _ => "?"
  end%string.

Definition type_from_lit_token (tk : OreSyntaxKind) : IpIndex :=
  match tk with
  | SK_INT_LIT => IP_INDEX_COMPTIME_INT_TYPE
  | SK_FLOAT_LIT => IP_INDEX_COMPTIME_FLOAT_TYPE
  | SK_TRUE_KW | SK_FALSE_KW => IP_INDEX_BOOL_TYPE
  | SK_BYTE_LIT => IP_INDEX_U8_TYPE
  | SK_STRING_LIT => IP_INDEX_STRING_SLICE_TYPE
  | SK_NIL_KW => IP_INDEX_NIL_TYPE
  | SK_UNREACHABLE_KW => IP_INDEX_NORETURN_TYPE
  | SK_ASM_LIT => IP_INDEX_VOID_TYPE
  | _ => IP_NONE
  end.

(** ** Literals *)

(** The value of a digit or letter, as [strtoull] takes it. *)
Definition digit_value (b : byte) : N :=
  let c := Byte.to_N b in
  if (48 <=? c) && (c <=? 57) then c - 48
  else if (97 <=? c) && (c <=? 122) then c - 87
  else if (65 <=? c) && (c <=? 90) then c - 55
  else 99.

(** The digits of [base] at the front of [s], accumulated. *)
Fixpoint strto_digits (base acc : N) (s : list byte) : N :=
  match s with
  | b :: s => if digit_value b <? base then strto_digits base (acc * base + digit_value b) s else acc
  | [] => acc
  end.

Definition is_space (b : byte) : bool := let c := Byte.to_N b in (c =? 32) || ((9 <=? c) && (c <=? 13)).

Fixpoint skip_space (s : list byte) : list byte :=
  match s with b :: s' => if is_space b then skip_space s' else s | [] => [] end.

Definition ULLONG_MAX : N := 2 ^ 64 - 1.

(** [strtoull(s, NULL, 0)]. *)
Definition strtoull0 (s : list byte) : N :=
  let s := skip_space s in
  let (neg, s) :=
    match s with
    | "-"%byte :: s => (true, s)
    | "+"%byte :: s => (false, s)
    | _ => (false, s)
    end in
  let v :=
    match s with
    | "0"%byte :: (("x"%byte | "X"%byte) :: ((d :: _) as s')) =>
        if digit_value d <? 16 then strto_digits 16 0 s' else 0
    | "0"%byte :: s' => strto_digits 8 0 s'
    | _ => strto_digits 10 0 s
    end in
  if ULLONG_MAX <? v then ULLONG_MAX else if neg : bool then u64 (2 ^ 64 - v) else v.

Definition no_underscores (txt : list byte) : list byte :=
  List.filter (fun b => negb (Byte.eqb b "_"%byte)) txt.

(** The text of the token; the buffer has 64 bytes. *)
Definition parse_int_literal (txt : list byte) : N :=
  if 64 <=? N.of_nat (length txt) then 0 else strtoull0 (no_underscores txt).

Definition parse_float_literal_text (strtod : list byte -> option N) (txt : list byte) : option N :=
  if 64 <=? N.of_nat (length txt) then None else strtod (no_underscores txt).

Record TypedValue : Set := mkTyped { type : IpIndex; value : IpIndex }.

Definition tv_intern_int (p : InternPool) (t : IpIndex) (v : Z) : outcome (IpIndex * InternPool) :=
  ip_get (IPK_INT_VALUE t v) p.
Definition tv_intern_float (p : InternPool) (t : IpIndex) (v : N) : outcome (IpIndex * InternPool) :=
  ip_get (IPK_FLOAT_VALUE t v) p.

(** The [SK_LITERAL_EXPR] arm of [eval_expr], but for the effect of inline assembly. *)
Definition eval_literal (strtod : list byte -> option N) (p : InternPool) (tk : OreSyntaxKind) (txt : list byte)
    : outcome (TypedValue * InternPool) :=
  let ty := type_from_lit_token tk in
  let! (value, p) :=
    match tk with
    | SK_INT_LIT | SK_BYTE_LIT => tv_intern_int p ty (s64 (parse_int_literal txt))
    | SK_FLOAT_LIT =>
        match parse_float_literal_text strtod txt with
        | Some d => tv_intern_float p ty d
        | None => Ret (IP_NONE, p)
        end
    | SK_TRUE_KW => Ret (IP_INDEX_BOOL_TRUE, p)
    | SK_FALSE_KW => Ret (IP_INDEX_BOOL_FALSE, p)
    | _ => Ret (IP_NONE, p)
    end in
  Ret (mkTyped ty value, p).

(** ** Prefix operators *)

Definition tv_prefix_neg (p : InternPool) (v : IpIndex) : outcome (IpIndex * InternPool) :=
  if (v =? IP_NONE) || ip_is_error v then Ret (IP_NONE, p)
  else
    match ip_tag p v with
    | IP_TAG_INT_VALUE =>
        let! k := ip_key p v in
        match k with
        | IPK_INT_VALUE t x => if (x =? INT64_MIN)%Z then Ret (IP_NONE, p) else tv_intern_int p t (- x)
        | _ => wrong_member
        end
    | IP_TAG_FLOAT_VALUE =>
        let! k := ip_key p v in
        match k with
        | IPK_FLOAT_VALUE t x => tv_intern_float p t (N.lxor x (2 ^ 63))
        | _ => wrong_member
        end
    | _ => Ret (IP_NONE, p)
    end.

Definition tv_prefix_comp (p : InternPool) (v : IpIndex) : outcome (IpIndex * InternPool) :=
  if (v =? IP_NONE) || ip_is_error v then Ret (IP_NONE, p)
  else
    match ip_tag p v with
    | IP_TAG_INT_VALUE =>
        let! k := ip_key p v in
        match k with IPK_INT_VALUE t x => tv_intern_int p t (Z.lnot x) | _ => wrong_member end
    | _ => Ret (IP_NONE, p)
    end.

Definition tv_prefix_not (v : IpIndex) : IpIndex :=
  if v =? IP_INDEX_BOOL_TRUE then IP_INDEX_BOOL_FALSE
  else if v =? IP_INDEX_BOOL_FALSE then IP_INDEX_BOOL_TRUE
  else IP_NONE.

(** ** Integer operators *)

Definition tv_int_unpack (p : InternPool) (v : IpIndex) : outcome (option Z) :=
  if (v =? IP_NONE) || ip_is_error v then Ret None
  else
    match ip_tag p v with
    | IP_TAG_INT_VALUE =>
        let! k := ip_key p v in match k with IPK_INT_VALUE _ x => Ret (Some x) | _ => wrong_member end
    | _ => Ret None
    end.

Definition tv_float_unpack (p : InternPool) (v : IpIndex) : outcome (option N) :=
  if (v =? IP_NONE) || ip_is_error v then Ret None
  else
    match ip_tag p v with
    | IP_TAG_FLOAT_VALUE =>
        let! k := ip_key p v in match k with IPK_FLOAT_VALUE _ x => Ret (Some x) | _ => wrong_member end
    | _ => Ret None
    end.

Definition tv_result_is_unsigned : IpIndex -> bool := is_unsigned_int.

(** The operands, when both fold. *)
Definition with_ints (p : InternPool) (lv rv : IpIndex) (k : Z -> Z -> outcome (IpIndex * InternPool))
    : outcome (IpIndex * InternPool) :=
  let! l := tv_int_unpack p lv in
  match l with
  | None => Ret (IP_NONE, p)
  | Some l =>
      let! r := tv_int_unpack p rv in
      match r with None => Ret (IP_NONE, p) | Some r => k l r end
  end.

(** [TV_INT_BINOP]: [op] without bounds, and the overflow that the builtin reports. *)
Definition tv_int_binop (op : Z -> Z -> Z) (p : InternPool) (lv rv rty : IpIndex) : outcome (IpIndex * InternPool) :=
  with_ints p lv rv (fun l r =>
    if tv_result_is_unsigned rty then
      let z := op (Z.of_N (u64_of_Z l)) (Z.of_N (u64_of_Z r)) in
      if ((z <? 0) || (2 ^ 64 <=? z))%Z then Ret (IP_NONE, p) else tv_intern_int p rty (wrap64 z)
    else
      let z := op l r in
      if ((z <? INT64_MIN) || (INT64_MAX <? z))%Z then Ret (IP_NONE, p) else tv_intern_int p rty z).

Definition tv_int_add := tv_int_binop Z.add.
Definition tv_int_sub := tv_int_binop Z.sub.
Definition tv_int_mul := tv_int_binop Z.mul.

Definition tv_int_div (p : InternPool) (lv rv rty : IpIndex) : outcome (IpIndex * InternPool) :=
  with_ints p lv rv (fun l r =>
    if tv_result_is_unsigned rty then
      let a := u64_of_Z l in
      let b := u64_of_Z r in
      if b =? 0 then Ret (IP_NONE, p) else tv_intern_int p rty (s64 (a / b))
    else if (r =? 0)%Z then Ret (IP_NONE, p)
    else if ((l =? INT64_MIN) && (r =? -1))%Z then Ret (IP_NONE, p)
    else tv_intern_int p rty (Z.quot l r)).

Definition tv_int_mod (p : InternPool) (lv rv rty : IpIndex) : outcome (IpIndex * InternPool) :=
  with_ints p lv rv (fun l r =>
    if tv_result_is_unsigned rty then
      let a := u64_of_Z l in
      let b := u64_of_Z r in
      if b =? 0 then Ret (IP_NONE, p) else tv_intern_int p rty (s64 (a mod b))
    else if (r =? 0)%Z then Ret (IP_NONE, p)
    else if ((l =? INT64_MIN) && (r =? -1))%Z then tv_intern_int p rty 0
    else tv_intern_int p rty (Z.rem l r)).

Definition tv_int_shl (p : InternPool) (lv rv rty : IpIndex) : outcome (IpIndex * InternPool) :=
  with_ints p lv rv (fun l r =>
    if ((r <? 0) || (64 <=? r))%Z then Ret (IP_NONE, p) else tv_intern_int p rty (wrap64 (Z.shiftl l r))).

Definition tv_int_shr (p : InternPool) (lv rv rty : IpIndex) : outcome (IpIndex * InternPool) :=
  with_ints p lv rv (fun l r =>
    if ((r <? 0) || (64 <=? r))%Z then Ret (IP_NONE, p)
    else if tv_result_is_unsigned rty then tv_intern_int p rty (s64 (N.shiftr (u64_of_Z l) (u64_of_Z r)))
    else tv_intern_int p rty (Z.shiftr l r)).

Definition tv_int_and (p : InternPool) (lv rv rty : IpIndex) : outcome (IpIndex * InternPool) :=
  with_ints p lv rv (fun l r => tv_intern_int p rty (Z.land l r)).
Definition tv_int_or (p : InternPool) (lv rv rty : IpIndex) : outcome (IpIndex * InternPool) :=
  with_ints p lv rv (fun l r => tv_intern_int p rty (Z.lor l r)).
Definition tv_int_xor (p : InternPool) (lv rv rty : IpIndex) : outcome (IpIndex * InternPool) :=
  with_ints p lv rv (fun l r => tv_intern_int p rty (Z.lxor l r)).

(** [TV_FLOAT_BINOP]. *)
Definition tv_float_binop (op : Z -> Z -> spec_float -> spec_float -> spec_float)
    (p : InternPool) (lv rv rty : IpIndex) : outcome (IpIndex * InternPool) :=
  let! l := tv_float_unpack p lv in
  match l with
  | None => Ret (IP_NONE, p)
  | Some l =>
      let! r := tv_float_unpack p rv in
      match r with
      | None => Ret (IP_NONE, p)
      | Some r =>
          let v := double_op op l r in
          if isfinite v then tv_intern_float p rty (double_encode v) else Ret (IP_NONE, p)
      end
  end.

Definition tv_float_add := tv_float_binop SFadd.
Definition tv_float_sub := tv_float_binop SFsub.
Definition tv_float_mul := tv_float_binop SFmul.
Definition tv_float_div := tv_float_binop SFdiv.

Definition value_tag (p : InternPool) (v : IpIndex) : IpTag := if v =? IP_NONE then IP_TAG_NONE else ip_tag p v.

Definition tv_arith_fold (p : InternPool) (opk : OreSyntaxKind) (lv rv rty : IpIndex) : outcome (IpIndex * InternPool) :=
  let ltag := value_tag p lv in
  let rtag := value_tag p rv in
  if tag_eqb ltag IP_TAG_INT_VALUE && tag_eqb rtag IP_TAG_INT_VALUE then
    match opk with
    | SK_PLUS => tv_int_add p lv rv rty
    | SK_MINUS => tv_int_sub p lv rv rty
    | SK_STAR => tv_int_mul p lv rv rty
    | SK_SLASH => tv_int_div p lv rv rty
    | SK_PERCENT => tv_int_mod p lv rv rty
    | _ => Ret (IP_NONE, p)
    end
  else if tag_eqb ltag IP_TAG_FLOAT_VALUE && tag_eqb rtag IP_TAG_FLOAT_VALUE then
    match opk with
    | SK_PLUS => tv_float_add p lv rv rty
    | SK_MINUS => tv_float_sub p lv rv rty
    | SK_STAR => tv_float_mul p lv rv rty
    | SK_SLASH => tv_float_div p lv rv rty
    | _ => Ret (IP_NONE, p)
    end
  else Ret (IP_NONE, p).

Definition tv_bitop_fold (p : InternPool) (opk : OreSyntaxKind) (lv rv rty : IpIndex) : outcome (IpIndex * InternPool) :=
  match opk with
  | SK_AMP => tv_int_and p lv rv rty
  | SK_PIPE => tv_int_or p lv rv rty
  | SK_CARET => tv_int_xor p lv rv rty
  | SK_SHL => tv_int_shl p lv rv rty
  | SK_SHR => tv_int_shr p lv rv rty
  | _ => Ret (IP_NONE, p)
  end.

(** ** Binary operators *)

Definition error_value : TypedValue := mkTyped IP_INDEX_ERROR_TYPE IP_INDEX_ERROR_TYPE.
Definition typed (t : IpIndex) : TypedValue := mkTyped t IP_NONE.

Definition is_many_ptr (t : IpTag) : bool := tag_eqb t IP_TAG_MANY_PTR_TYPE || tag_eqb t IP_TAG_MANY_PTR_CONST_TYPE.
Definition is_ptr (t : IpTag) : bool := tag_eqb t IP_TAG_PTR_TYPE || tag_eqb t IP_TAG_PTR_CONST_TYPE.
Definition is_int_operand (t : IpIndex) : bool := (t =? IP_INDEX_COMPTIME_INT_TYPE) || is_concrete_int t.

Definition msg_operands : string := "cannot apply '%s' to operands of type %T and %T".

(** The rules for many-pointers, when one applies. *)
Definition many_ptr_arith (c : Sema) (opk : OreSyntaxKind) (lt rt : IpIndex) : option (TypedValue * Sema) :=
  if kind_eqb opk SK_PLUS || kind_eqb opk SK_MINUS then
    let l_mp := is_many_ptr (ip_tag (intern c) lt) in
    let r_mp := is_many_ptr (ip_tag (intern c) rt) in
    if l_mp && is_int_operand rt then Some (typed lt, c)
    else if r_mp && is_int_operand lt && kind_eqb opk SK_PLUS then Some (typed rt, c)
    else if l_mp && r_mp && kind_eqb opk SK_MINUS then
      if lt =? rt then Some (typed IP_INDEX_USIZE_TYPE, c)
      else Some (error_value, db_emit "pointer difference requires same many-pointer type, got %T and %T" c)
    else None
  else None.

Definition fold_into (c : Sema) (u : IpIndex) (m : outcome (IpIndex * InternPool)) : outcome (TypedValue * Sema) :=
  let! (folded, p) := m in Ret (mkTyped u folded, put_intern p c).

Definition binop_arith (c : Sema) (opk : OreSyntaxKind) (l r : TypedValue) : outcome (TypedValue * Sema) :=
  match many_ptr_arith c opk (type l) (type r) with
  | Some x => Ret x
  | None =>
      let u := unify_arith (type l) (type r) in
      if (u =? IP_NONE) || negb (is_numeric u) then Ret (error_value, db_emit msg_operands c)
      else fold_into c u (tv_arith_fold (intern c) opk (value l) (value r) u)
  end.

Definition is_order (opk : OreSyntaxKind) : bool :=
  kind_eqb opk SK_LT || kind_eqb opk SK_LE || kind_eqb opk SK_GT || kind_eqb opk SK_GE.

Definition float_compare (opk : OreSyntaxKind) (x y : N) : bool :=
  let lv := double_decode x in
  let rv := double_decode y in
  if kind_eqb opk SK_LT then SFltb lv rv
  else if kind_eqb opk SK_LE then SFleb lv rv
  else if kind_eqb opk SK_GT then SFltb rv lv
  else SFleb rv lv.

(** The value of a comparison, when both operands have one. *)
Definition compare_values (p : InternPool) (opk : OreSyntaxKind) (l r : IpIndex) : outcome IpIndex :=
  if negb (l =? IP_NONE) && negb (r =? IP_NONE) && negb (ip_is_error l) && negb (ip_is_error r) then
    if kind_eqb opk SK_EQ_EQ then
      let! b := tv_value_semantic_eq p l r in Ret (bool_index b)
    else if kind_eqb opk SK_BANG_EQ then
      let! b := tv_value_semantic_eq p l r in Ret (bool_index (negb b))
    else if is_order opk then
      let ltag := ip_tag p l in
      let rtag := ip_tag p r in
      if tag_eqb ltag IP_TAG_INT_VALUE && tag_eqb rtag IP_TAG_INT_VALUE then tv_int_compare p l r opk
      else if tag_eqb ltag IP_TAG_FLOAT_VALUE && tag_eqb rtag IP_TAG_FLOAT_VALUE then
        let! k := ip_key p l in
        let! k' := ip_key p r in
        match k, k' with
        | IPK_FLOAT_VALUE _ x, IPK_FLOAT_VALUE _ y => Ret (bool_index (float_compare opk x y))
        | _, _ => wrong_member
        end
      else Ret IP_NONE
    else Ret IP_NONE
  else Ret IP_NONE.

Definition msg_pointer_compare : string :=
  "cannot compare pointer type %T to %T. To compare the pointed-to value, dereference the pointer (e.g. `p^ == 0`). For a null check, the pointer type must be optional (e.g. '?%T') and the comparand must be 'nil'.".

Definition binop_compare (c : Sema) (opk : OreSyntaxKind) (l r : TypedValue) : outcome (TypedValue * Sema) :=
  let lt := type l in
  let rt := type r in
  let lk := ip_tag (intern c) lt in
  let rk := ip_tag (intern c) rt in
  let equality := kind_eqb opk SK_EQ_EQ || kind_eqb opk SK_BANG_EQ in
  if (lt =? rt) && (is_ptr lk || is_many_ptr lk) && equality then Ret (typed IP_INDEX_BOOL_TYPE, c)
  else
    let! cmp_v := compare_values (intern c) opk (value l) (value r) in
    if equality &&
       (((lt =? IP_INDEX_NIL_TYPE) && tag_eqb rk IP_TAG_OPTIONAL_TYPE) ||
        ((rt =? IP_INDEX_NIL_TYPE) && tag_eqb lk IP_TAG_OPTIONAL_TYPE))
    then Ret (typed IP_INDEX_BOOL_TYPE, c)
    else if negb (lt =? rt) && (unify_arith lt rt =? IP_NONE) then
      if equality &&
         ((is_ptr lk && (is_int_operand rt || (rt =? IP_INDEX_NIL_TYPE))) ||
          (is_ptr rk && (is_int_operand lt || (lt =? IP_INDEX_NIL_TYPE))))
      then Ret (error_value, db_emit msg_pointer_compare c)
      else Ret (error_value, db_emit msg_operands c)
    else Ret (mkTyped IP_INDEX_BOOL_TYPE cmp_v, c).

Definition is_bool_value (v : IpIndex) : bool := (v =? IP_INDEX_BOOL_TRUE) || (v =? IP_INDEX_BOOL_FALSE).

(** The short-circuit fold. *)
Definition logical_value (opk : OreSyntaxKind) (l r : IpIndex) : IpIndex :=
  if is_bool_value l && is_bool_value r then
    let lb := l =? IP_INDEX_BOOL_TRUE in
    let rb := r =? IP_INDEX_BOOL_TRUE in
    bool_index (if kind_eqb opk SK_AMP_AMP then lb && rb else lb || rb)
  else if is_bool_value l then
    if kind_eqb opk SK_PIPE_PIPE && (l =? IP_INDEX_BOOL_TRUE) then IP_INDEX_BOOL_TRUE
    else if kind_eqb opk SK_AMP_AMP && (l =? IP_INDEX_BOOL_FALSE) then IP_INDEX_BOOL_FALSE
    else IP_NONE
  else IP_NONE.

Definition binop_logical (c : Sema) (opk : OreSyntaxKind) (l r : TypedValue) : TypedValue * Sema :=
  if negb (type l =? IP_INDEX_BOOL_TYPE) || negb (type r =? IP_INDEX_BOOL_TYPE) then
    (error_value, db_emit "logical '%s' requires bool operands, got %T" c)
  else (mkTyped IP_INDEX_BOOL_TYPE (logical_value opk (value l) (value r)), c).

Definition binop_bitop (c : Sema) (opk : OreSyntaxKind) (l r : TypedValue) : outcome (TypedValue * Sema) :=
  let u := unify_arith (type l) (type r) in
  if (u =? IP_NONE) || negb (is_int_operand (type l)) || negb (is_int_operand (type r)) then
    Ret (error_value, db_emit "bitwise '%s' requires integer operands, got %T and %T" c)
  else fold_into c u (tv_bitop_fold (intern c) opk (value l) (value r) u).

Definition binop_orelse (c : Sema) (l : TypedValue) : outcome (TypedValue * Sema) :=
  if tag_eqb (ip_tag (intern c) (type l)) IP_TAG_OPTIONAL_TYPE then
    let! k := ip_key (intern c) (type l) in
    match k with IPK_OPTIONAL_TYPE e => Ret (typed e, c) | _ => wrong_member end
  else Ret (error_value, db_emit "'orelse' requires an optional left operand, got %T" c).

End Fold.
