(* ===== verification/ValuesTheorems.v ===== *)
(** * Comptime values and folding: theorems *)

From Stdlib Require Import SpecFloat.
From S2P Require Import Prelude Arena SyntaxKind InternPool InternFacts InternGet InternTheorems InternApi TypeLayout Rows RowsFacts Values Fold.

(** ** Comptime values: words, readings, doubles

    The 64-bit conversions; what decoding reads; a [double] through its exact value and
    back; interning an integer. *)

Import Arena SyntaxKind InternPool InternFacts InternInv InternGet InternTheorems InternApi TypeLayout Rows RowsFacts Values Fold.

Module ValuesFacts.

#[local] Open Scope Z_scope.

(** ** Words and folded values *)

Definition int64 (z : Z) : Prop := INT64_MIN <= z <= INT64_MAX.

Lemma u64_of_Z_id z : 0 <= z < 2 ^ 64 -> Z.of_N (u64_of_Z z) = z.
Proof. intros H. unfold u64_of_Z. rewrite Z.mod_small by lia. by rewrite Z2N.id by lia. Qed.

Lemma u64_of_Z_neg z : - 2 ^ 64 <= z < 0 -> Z.of_N (u64_of_Z z) = z + 2 ^ 64.
Proof.
  intros H. unfold u64_of_Z. assert (z mod 2 ^ 64 = z + 2 ^ 64) as ->.
  { symmetry. apply Z.mod_unique_pos with (-1); lia. }
  by rewrite Z2N.id by lia.
Qed.

Lemma wrap64_id z : int64 z -> wrap64 z = z.
Proof.
  unfold int64, INT64_MIN, INT64_MAX, wrap64, s64. intros H.
  destruct (Z.lt_ge_cases z 0) as [Hz|Hz].
  - pose proof (u64_of_Z_neg z ltac:(lia)) as E. destruct (N.ltb_spec (u64_of_Z z) (2 ^ 63)); lia.
  - pose proof (u64_of_Z_id z ltac:(lia)) as E. destruct (N.ltb_spec (u64_of_Z z) (2 ^ 63)); lia.
Qed.

Lemma int_value_reads p v t x : pool_ok p -> reads p v (IPK_INT_VALUE t x) ->
  v <> IP_NONE /\ ip_is_error v = false /\ (v =? IP_INDEX_BOOL_TRUE)%N = false /\
  (v =? IP_INDEX_BOOL_FALSE)%N = false /\ ip_tag p v = IP_TAG_INT_VALUE /\ ip_key p v = Ret (IPK_INT_VALUE t x).
Proof.
  intros Hp Hr. destruct (reads_ok p v _ Hp Hr eq_refl) as (_ & _ & Ht & Hv). unfold FIRST_COMPOUND in Hv.
  assert (H : forall n, (n < FIRST_COMPOUND)%N -> (v =? n)%N = false) by (intros n Hn; apply N.eqb_neq; unfold FIRST_COMPOUND in *; lia).
  split; [apply N.eqb_neq, H; done|]. split; [by apply H|]. split; [by apply H|]. split; [by apply H|].
  split; [done|apply Hr].
Qed.

Lemma decode_int p v t x : pool_ok p -> reads p v (IPK_INT_VALUE t x) -> tv_decode p v = Ret (TV_KIND_INT t x).
Proof.
  intros Hp Hr. destruct (int_value_reads p v t x Hp Hr) as (H1 & H2 & H3 & H4 & H5 & H6).
  unfold tv_decode. by rewrite (proj2 (N.eqb_neq _ _) H1), H2, H3, H4, H5, H6.
Qed.

(** ** Readings *)

(** The number that the bits [x] stand for in the type [t]. *)
Definition reading (t : IpIndex) (x : Z) : Z := if is_unsigned_int t then Z.of_N (u64_of_Z x) else x.

(** The numbers of 64 bits in the signedness of [t]. *)
Definition word_range (t : IpIndex) (z : Z) : bool :=
  if is_unsigned_int t then (0 <=? z) && (z <? 2 ^ 64) else (INT64_MIN <=? z) && (z <=? INT64_MAX).

Lemma u64_of_Z_bound z : 0 <= Z.of_N (u64_of_Z z) < 2 ^ 64.
Proof. unfold u64_of_Z. pose proof (Z.mod_pos_bound z (2 ^ 64)). lia. Qed.

Lemma s64_int64 u : (u < 2 ^ 64)%N -> int64 (s64 u) /\ Z.of_N (u64_of_Z (s64 u)) = Z.of_N u.
Proof.
  intros H. unfold s64, int64, INT64_MIN, INT64_MAX. destruct (N.ltb_spec u (2 ^ 63)) as [H1|H1].
  - split; [lia|]. by rewrite u64_of_Z_id by lia.
  - split; [lia|]. rewrite u64_of_Z_neg by lia. lia.
Qed.

Lemma wrap64_unsigned z : 0 <= z < 2 ^ 64 -> int64 (wrap64 z) /\ Z.of_N (u64_of_Z (wrap64 z)) = z.
Proof.
  intros H. unfold wrap64. destruct (s64_int64 (u64_of_Z z)) as [H1 H2].
  - pose proof (u64_of_Z_bound z). lia.
  - split; [done|]. rewrite H2. by apply u64_of_Z_id.
Qed.

Lemma reading_range t x : int64 x -> word_range t (reading t x) = true.
Proof.
  intros [H1 H2]. unfold word_range, reading. destruct (is_unsigned_int t).
  - pose proof (u64_of_Z_bound x). apply andb_true_iff. rewrite Z.leb_le, Z.ltb_lt. lia.
  - apply andb_true_iff. rewrite !Z.leb_le. lia.
Qed.

(** Room for one more integer value. *)
Definition value_room (p : InternPool) : Prop := room 1 24 p.

(** Interning the number [z] of the type [t] by a word of that reading. *)
Definition folds_to (p : InternPool) (t : IpIndex) (z : Z) (r : outcome (IpIndex * InternPool)) : Prop :=
  exists i p' w, r = Ret (i, p') /\ pool_ok p' /\ extends p p' /\ reads p' i (IPK_INT_VALUE t w) /\
    int64 w /\ reading t w = z.

Lemma intern_int_ok p t w : pool_ok p -> value_room p -> int64 w -> folds_to p t (reading t w) (tv_intern_int p t w).
Proof.
  intros Hp Hr Hw. destruct (intern_get_ok p (IPK_INT_VALUE t w) 0 0 Hp) as (i & p' & E & Hp' & _ & Hx & Hrd); [done|done|eapply room_le; [exact Hr|lia|unfold key_cost; simpl; lia]|].
  exists i, p', w. split; [exact E|]. split; [done|]. split; [done|]. split; [exact Hrd|]. by split.
Qed.

Lemma int_unpack_ok p v t x : pool_ok p -> reads p v (IPK_INT_VALUE t x) -> tv_int_unpack p v = Ret (Some x).
Proof.
  intros Hp Hr. destruct (int_value_reads p v t x Hp Hr) as (H1 & H2 & _ & _ & H5 & H6).
  unfold tv_int_unpack. by rewrite (proj2 (N.eqb_neq _ _) H1), H2, H5, H6.
Qed.

Lemma with_ints_ok p lv rv tl tr l r k : pool_ok p -> reads p lv (IPK_INT_VALUE tl l) -> reads p rv (IPK_INT_VALUE tr r) ->
  with_ints p lv rv k = k l r.
Proof.
  intros Hp Hl Hr. unfold with_ints. rewrite (int_unpack_ok p lv tl l Hp Hl). cbn [obind].
  by rewrite (int_unpack_ok p rv tr r Hp Hr).
Qed.

(** ** Ranges *)

(** The range of an integer type. *)
Definition int_min (t : IpIndex) : Z := if is_unsigned_int t then 0 else - 2 ^ (Z.of_N (int_bits t) - 1).
Definition int_max (t : IpIndex) : Z :=
  if is_unsigned_int t then 2 ^ Z.of_N (int_bits t) - 1 else 2 ^ (Z.of_N (int_bits t) - 1) - 1.
Definition in_int_range (t : IpIndex) (z : Z) : Prop := int_min t <= z <= int_max t.

Lemma fits_signed_ok x bits : int64 x -> bits = 8%N \/ bits = 16%N \/ bits = 32%N \/ bits = 64%N ->
  (int_fits_signed x bits).1.1 = true <-> - 2 ^ (Z.of_N bits - 1) <= x <= 2 ^ (Z.of_N bits - 1) - 1.
Proof.
  unfold int64, INT64_MIN, INT64_MAX. intros Hx [->|[->|[->| ->]]]; cbn [int_fits_signed N.eqb Pos.eqb fst];
    rewrite ?andb_true_iff, ?Z.leb_le; cbn; lia.
Qed.

Lemma fits_unsigned_u64_ok x bits : bits = 8%N \/ bits = 16%N \/ bits = 32%N \/ bits = 64%N ->
  (int_fits_unsigned_u64 (u64_of_Z x) bits).1.1 = true <-> 0 <= Z.of_N (u64_of_Z x) <= 2 ^ Z.of_N bits - 1.
Proof.
  pose proof (u64_of_Z_bound x) as Hb. intros [->|[->|[->| ->]]]; cbn [int_fits_unsigned_u64 N.eqb Pos.eqb fst];
    rewrite ?N.leb_le; cbn; lia.
Qed.

Lemma fits_unsigned_ok x bits : int64 x -> bits = 8%N \/ bits = 16%N \/ bits = 32%N \/ bits = 64%N ->
  (int_fits_unsigned x bits).1.1 = true <-> 0 <= x <= 2 ^ Z.of_N bits - 1.
Proof.
  intros Hx Hb. unfold int_fits_unsigned. destruct (Z.ltb_spec x 0) as [Hneg|Hpos]; [cbn; split; [done|lia]|].
  rewrite (fits_unsigned_u64_ok x bits Hb). unfold int64, INT64_MAX in Hx. rewrite u64_of_Z_id by lia. done.
Qed.

(** An integer type is signed or unsigned, of one of four widths. *)
Lemma concrete_int_kind t : is_concrete_int t = true ->
  is_signed_int t = negb (is_unsigned_int t) /\ (t =? IP_INDEX_COMPTIME_INT_TYPE)%N = false /\ (int_bits t =? 0)%N = false /\
  (int_bits t = 8 \/ int_bits t = 16 \/ int_bits t = 32 \/ int_bits t = 64)%N.
Proof.
  unfold is_concrete_int, in_mask at 1. intros [H%N.ltb_lt Hc]%andb_true_iff. rewrite <- (N2Nat.id t) in *.
  assert (Hn : (N.to_nat t < 32)%nat) by lia. revert Hc Hn. generalize (N.to_nat t). clear.
  intros n Hc Hn. do 32 (destruct n as [|n]; [first [discriminate Hc|vm_compute; tauto]|]). lia.
Qed.

(** The range check, from what the value reads as. *)
Lemma fits_in_ok p v t x target : pool_ok p -> reads p v (IPK_INT_VALUE t x) -> int64 x ->
  is_concrete_int target = true ->
  exists fits lo hi, tv_fits_in p v target = Ret (fits, lo, hi) /\
    (fits = true <-> in_int_range target
      (if src_unsigned t && is_unsigned_int target then Z.of_N (u64_of_Z x) else x)).
Proof.
  intros Hp Hr Hx Ht. destruct (concrete_int_kind target Ht) as (Es & Ec & Eb & Hb).
  unfold tv_fits_in. rewrite (decode_int p v t x Hp Hr). cbn [obind]. rewrite Ec, Eb, Es. unfold in_int_range, int_min, int_max.
  destruct (src_unsigned t), (is_unsigned_int target); cbn [negb andb].
  - pose proof (fits_unsigned_u64_ok x _ Hb) as H. destruct (int_fits_unsigned_u64 _ _) as [[f lo] hi].
    by exists f, lo, hi.
  - pose proof (fits_signed_ok x _ Hx Hb) as H. destruct (s64_int64 (u64_of_Z x)) as [Hs1 Hs2].
    { pose proof (u64_of_Z_bound x). lia. }
    assert (s64 (u64_of_Z x) = x) as -> by exact (wrap64_id x Hx).
    destruct (int_fits_signed x _) as [[f lo] hi]. exists f, lo, hi. split; [by destruct (_ <? _)%N|done].
  - pose proof (fits_unsigned_ok x _ Hx Hb) as H. destruct (int_fits_unsigned _ _) as [[f lo] hi]. by exists f, lo, hi.
  - pose proof (fits_signed_ok x _ Hx Hb) as H. destruct (int_fits_signed x _) as [[f lo] hi]. by exists f, lo, hi.
Qed.

End ValuesFacts.

Import Arena SyntaxKind InternPool InternFacts InternInv InternGet InternTheorems InternApi TypeLayout Rows RowsFacts Values Fold ValuesFacts SamplePools.

Module ValuesTheorems.

#[local] Open Scope Z_scope.

(** ** Integer arithmetic *)

(** The exact result on numbers; none for a division by zero. *)
Definition exact (opk : OreSyntaxKind) (a b : Z) : option Z :=
  match opk with
  | SK_PLUS => Some (a + b)
  | SK_MINUS => Some (a - b)
  | SK_STAR => Some (a * b)
  | SK_SLASH => if b =? 0 then None else Some (Z.quot a b)
  | SK_PERCENT => if b =? 0 then None else Some (Z.rem a b)
  | _ => None
  end.

Definition exact_in_range (t : IpIndex) (opk : OreSyntaxKind) (a b : Z) : option Z :=
  match exact opk a b with Some z => if word_range t z then Some z else None | None => None end.

Lemma word_in_range t z : word_range t z = false <->
  if is_unsigned_int t then ((z <? 0) || (2 ^ 64 <=? z)) = true else ((z <? INT64_MIN) || (INT64_MAX <? z)) = true.
Proof.
  unfold word_range. destruct (is_unsigned_int t);
    rewrite andb_false_iff, orb_true_iff, ?Z.leb_gt, ?Z.ltb_lt, ?Z.ltb_ge, ?Z.leb_le; lia.
Qed.

Lemma quot_int64 a b : int64 a -> b <> 0 -> ~ (a = INT64_MIN /\ b = -1) -> int64 (Z.quot a b).
Proof.
  unfold int64, INT64_MIN, INT64_MAX. intros Ha Hb Hov.
  destruct (Z.eq_dec b 1) as [->|H1]; [by rewrite Z.quot_1_r|].
  destruct (Z.eq_dec b (-1)) as [->|H2].
  { change (-1) with (- (1)). rewrite Z.quot_opp_r, Z.quot_1_r by done. lia. }
  assert (Hq : Z.abs (Z.quot a b) <= 2 ^ 62); [|lia].
  rewrite <- Z.quot_abs, Z.quot_div_nonneg by lia. apply Z.div_le_upper_bound; lia.
Qed.

Lemma int64_in_range t z : is_unsigned_int t = false -> int64 z -> word_range t z = true.
Proof. intros Eu [H1 H2]. unfold word_range. rewrite Eu. apply andb_true_iff. by rewrite !Z.leb_le. Qed.

Section Arith.
Context (p : InternPool) (lv rv tl tr rty : IpIndex) (l r : Z).
Context (Hp : pool_ok p) (Hroom : value_room p).
Context (Hl : reads p lv (IPK_INT_VALUE tl l)) (Hr : reads p rv (IPK_INT_VALUE tr r)) (Hl64 : int64 l) (Hr64 : int64 r).

Definition fold_spec (opk : OreSyntaxKind) (m : outcome (IpIndex * InternPool)) : Prop :=
  match exact_in_range rty opk (reading rty l) (reading rty r) with
  | Some z => folds_to p rty z m
  | None => m = Ret (IP_NONE, p)
  end.

Lemma intern_reading z w : reading rty w = z -> int64 w -> folds_to p rty z (tv_intern_int p rty w).
Proof. intros <- Hw. by apply intern_int_ok. Qed.

Lemma binop_ok op opk : (forall a b, exact opk a b = Some (op a b)) -> fold_spec opk (tv_int_binop op p lv rv rty).
Proof.
  intros Hop. unfold fold_spec, tv_int_binop, exact_in_range. rewrite Hop, (with_ints_ok p lv rv tl tr l r _ Hp Hl Hr).
  unfold tv_result_is_unsigned, reading. pose proof (word_in_range rty) as Hw.
  destruct (is_unsigned_int rty) eqn:Eu.
  - set (z := op _ _). specialize (Hw z). destruct (_ || _).
    + by rewrite (proj2 Hw eq_refl).
    + destruct (word_range rty z) eqn:E; [|by discriminate (proj1 Hw eq_refl)].
      unfold word_range in E. rewrite Eu in E. apply andb_true_iff in E as [E1%Z.leb_le E2%Z.ltb_lt].
      destruct (wrap64_unsigned z) as [H1 H2]; [done|]. apply intern_reading; [|done]. unfold reading. by rewrite Eu.
  - set (z := op _ _). specialize (Hw z). destruct (_ || _).
    + by rewrite (proj2 Hw eq_refl).
    + destruct (word_range rty z) eqn:E; [|by discriminate (proj1 Hw eq_refl)].
      unfold word_range in E. rewrite Eu in E. apply andb_true_iff in E as [E1%Z.leb_le E2%Z.leb_le].
      apply intern_reading; [unfold reading; by rewrite Eu|done].
Qed.

Lemma unsigned_div_ok (f : N -> N -> N) (g : Z -> Z -> Z) opk : is_unsigned_int rty = true ->
  (forall a b, exact opk a b = if b =? 0 then None else Some (g a b)) ->
  (forall a b, (b <> 0)%N -> Z.of_N (f a b) = g (Z.of_N a) (Z.of_N b) /\ (f a b <= a)%N) ->
  let a := u64_of_Z l in let b := u64_of_Z r in
  fold_spec opk (if (b =? 0)%N then Ret (IP_NONE, p) else tv_intern_int p rty (s64 (f a b))).
Proof.
  intros Eu Hop Hf a b. unfold fold_spec, exact_in_range. rewrite Hop. unfold reading. rewrite Eu.
  fold a b. destruct (N.eqb_spec b 0) as [->|Hb]; [done|].
  rewrite (proj2 (Z.eqb_neq (Z.of_N b) 0)) by lia. destruct (Hf a b Hb) as [<- Hle].
  pose proof (u64_of_Z_bound l) as Hbound. fold a in Hbound.
  assert (word_range rty (Z.of_N (f a b)) = true) as ->.
  { unfold word_range. rewrite Eu. apply andb_true_iff. rewrite Z.leb_le, Z.ltb_lt. lia. }
  destruct (s64_int64 (f a b)) as [H1 H2]; [lia|]. apply intern_reading; [|done]. unfold reading. by rewrite Eu.
Qed.

Lemma div_ok : fold_spec SK_SLASH (tv_int_div p lv rv rty).
Proof.
  unfold tv_int_div. rewrite (with_ints_ok p lv rv tl tr l r _ Hp Hl Hr). unfold tv_result_is_unsigned.
  destruct (is_unsigned_int rty) eqn:Eu.
  - apply (unsigned_div_ok N.div Z.quot); [done|done|]. intros a b Hb. split.
    + rewrite N2Z.inj_div. symmetry. apply Z.quot_div_nonneg; lia.
    + apply N.Div0.div_le_upper_bound. rewrite <- (N.mul_1_l a) at 1. apply N.mul_le_mono_r. lia.
  - unfold fold_spec, exact_in_range, reading. rewrite Eu. cbn [exact].
    destruct (Z.eqb_spec r 0) as [->|Hr0]; [done|].
    destruct (decide (l = INT64_MIN /\ r = -1)) as [[-> ->]|Hov].
    + rewrite !Z.eqb_refl. cbn [andb]. by rewrite (proj2 (word_in_range rty _)) by (rewrite Eu; done).
    + pose proof (quot_int64 l r Hl64 Hr0 Hov) as Hq. rewrite (int64_in_range rty _ Eu Hq).
      assert ((l =? INT64_MIN) && (r =? -1) = false) as ->.
      { apply andb_false_iff. rewrite !Z.eqb_neq. lia. }
      apply intern_reading; [unfold reading; by rewrite Eu|done].
Qed.

Lemma mod_ok : fold_spec SK_PERCENT (tv_int_mod p lv rv rty).
Proof.
  unfold tv_int_mod. rewrite (with_ints_ok p lv rv tl tr l r _ Hp Hl Hr). unfold tv_result_is_unsigned.
  destruct (is_unsigned_int rty) eqn:Eu.
  - apply (unsigned_div_ok N.modulo Z.rem); [done|done|]. intros a b Hb. split.
    + rewrite N2Z.inj_mod. symmetry. apply Z.rem_mod_nonneg; lia.
    + by apply N.Div0.mod_le.
  - unfold fold_spec, exact_in_range, reading. rewrite Eu. cbn [exact].
    destruct (Z.eqb_spec r 0) as [->|Hr0]; [done|].
    assert (Hb : int64 (Z.rem l r)).
    { pose proof (Z.rem_bound_abs l r Hr0). unfold int64, INT64_MIN, INT64_MAX in *. lia. }
    rewrite (int64_in_range rty _ Eu Hb).
    destruct (decide (l = INT64_MIN /\ r = -1)) as [[-> ->]|Hov].
    + rewrite !Z.eqb_refl. cbn [andb]. apply intern_reading; [unfold reading; by rewrite Eu|done].
    + assert ((l =? INT64_MIN) && (r =? -1) = false) as ->.
      { apply andb_false_iff. rewrite !Z.eqb_neq. lia. }
      apply intern_reading; [unfold reading; by rewrite Eu|done].
Qed.

End Arith.

(** C29: Folding integer arithmetic is exact or declines: on two integer values, [+], [-], [*], [/]
    and [%] of a result type give the value whose reading in the type's signedness is the
    exact result of the operands' readings (truncating division), and no value exactly when
    that result does not fit 64 bits, the divisor is zero or the operator is another one. *)
Theorem tv_arith_fold_exact p opk lv rv tl tr rty l r : pool_ok p -> value_room p ->
  reads p lv (IPK_INT_VALUE tl l) -> reads p rv (IPK_INT_VALUE tr r) -> int64 l -> int64 r ->
  match exact_in_range rty opk (reading rty l) (reading rty r) with
  | Some z => folds_to p rty z (tv_arith_fold p opk lv rv rty)
  | None => tv_arith_fold p opk lv rv rty = Ret (IP_NONE, p)
  end.
Proof.
  intros Hp Hroom Hl Hr Hl64 Hr64. change (fold_spec p rty l r opk (tv_arith_fold p opk lv rv rty)).
  destruct (int_value_reads p lv tl l Hp Hl) as (H1 & _ & _ & _ & H2 & _).
  destruct (int_value_reads p rv tr r Hp Hr) as (H3 & _ & _ & _ & H4 & _).
  unfold tv_arith_fold, value_tag. rewrite (proj2 (N.eqb_neq _ _) H1), (proj2 (N.eqb_neq _ _) H3), H2, H4.
  change (tag_eqb IP_TAG_INT_VALUE IP_TAG_INT_VALUE) with true. cbn [andb].
  destruct opk; try done.
  - by eapply binop_ok.
  - by eapply binop_ok.
  - by eapply binop_ok.
  - by eapply div_ok.
  - by eapply mod_ok.
Qed.

(** ** Ranges *)

(** The range check of a comptime integer is exact: a value fits an integer type exactly when
    its number is in the type's range; except that the number of an unsigned source is read
    as signed when the target is signed, so one of 2^63 or more is taken for a negative
    number. *)
Theorem tv_fits_in_exact p v t x target : pool_ok p -> reads p v (IPK_INT_VALUE t x) -> int64 x ->
  is_concrete_int target = true ->
  exists fits lo hi, tv_fits_in p v target = Ret (fits, lo, hi) /\
    (fits = true <-> in_int_range target
      (if src_unsigned t && is_unsigned_int target then Z.of_N (u64_of_Z x) else x)).
Proof. apply fits_in_ok. Qed.

(** ** Applied *)

Lemma tv_arith_fold_exact_witness : exists p, reads p 38 (IPK_INT_VALUE 2 200) /\
  folds_to p 2 400 (tv_arith_fold p SK_PLUS 38 38 2).
Proof.
  destruct values_pool as (p & Hp & Hr & R33 & R34 & R35 & R36 & R37 & R38 & R39 & R40 & R41 & R42 & R43 & R28 & R44 & R2).
  pose proof (tv_arith_fold_exact p SK_PLUS 38 38 2 2 2 200 200 Hp) as H.
  exists p. split; [exact R38|]. apply H.
  - eapply room_le; [exact Hr|vm_compute; discriminate|vm_compute; discriminate].
  - exact R38.
  - exact R38.
  - vm_compute. split; discriminate.
  - vm_compute. split; discriminate.
Defined.

Lemma tv_fits_in_exact_witness : exists p lo hi, reads p 39 (IPK_INT_VALUE 8 (-1)) /\
  tv_fits_in p 39 3 = Ret (true, lo, hi).
Proof.
  destruct values_pool as (p & Hp & Hr & R33 & R34 & R35 & R36 & R37 & R38 & R39 & R40 & R41 & R42 & R43 & R28 & R44 & R2).
  destruct (tv_fits_in_exact p 39 8 (-1) 3 Hp R39) as (fits & lo & hi & E & Hfits).
  - vm_compute. split; discriminate.
  - reflexivity.
  - exists p, lo, hi. split; [exact R39|]. assert (fits = true) as <-; [|exact E].
    apply Hfits. vm_compute. split; discriminate.
Defined.

End ValuesTheorems.
