(* ===== verification/Switch.v ===== *)
(** * Switch coverage: [infer_switch] of [infer.c] and the [SK_SWITCH_EXPR] arm of [eval.c]

    [infer_switch] collects what the patterns cover and asks for the missing cases;
    [eval_expr] picks the arm of a scrutinee that folds.  Both are given the patterns with
    the values that [eval_expr] folded their expressions to ([IP_NONE] when it did not, or
    when the bound of a range is missing); the checks of the patterns and the typing of the
    bodies are not part of it.

    [hi_v - 1] keeps the low 64 bits, as GCC and Clang define it. *)

From stdpp Require Import sorting.
From S2P Require Import Prelude InternPool Rows Values.
Import InternPool Rows Values.

Module Switch.

#[local] Open Scope Z_scope.

Inductive SwitchPattern : Set :=
  | PatWildcard
  | PatRange (eq : bool) (lo hi : IpIndex)
  | PatEnumRef (variant : N) (value : IpIndex)
  | PatValue (value : IpIndex).

(** ** Intervals *)

Record IntInterval : Set := mkInterval { lo : Z; hi : Z }.

Definition interval_overlaps (set : list IntInterval) (l h : Z) : bool :=
  existsb (fun iv => (l <=? hi iv) && (lo iv <=? h)) set.

Definition interval_le (a b : IntInterval) : Prop := lo a <= lo b.

#[export] Instance interval_le_dec : RelDecision interval_le.
Proof. intros a b. apply Z_le_dec. Defined.

(** The loop over adjacent intervals. *)
Fixpoint gap_free (l : list IntInterval) : bool :=
  match l with
  | a :: ((b :: _) as l') =>
      negb ((hi a =? INT64_MAX) || negb (lo b =? hi a + 1)) && gap_free l'
  | _ => true
  end.

Definition intervals_span (set : list IntInterval) (min max : Z) : bool :=
  match merge_sort interval_le set with
  | [] => false
  | (first :: _) as sorted =>
      let last := List.last sorted first in
      (lo first =? min) && (hi last =? max) && gap_free sorted
  end.

Definition int_type_bounds (ty : IpIndex) : option (Z * Z) :=
  if (ty =? IP_INDEX_U8_TYPE)%N then Some (0, 255)
  else if (ty =? IP_INDEX_U16_TYPE)%N then Some (0, 65535)
  else if (ty =? IP_INDEX_U32_TYPE)%N then Some (0, 4294967295)
  else if (ty =? IP_INDEX_I8_TYPE)%N then Some (-128, 127)
  else if (ty =? IP_INDEX_I16_TYPE)%N then Some (-32768, 32767)
  else if (ty =? IP_INDEX_I32_TYPE)%N then Some (- 2 ^ 31, 2 ^ 31 - 1)
  else if (ty =? IP_INDEX_I64_TYPE)%N || (ty =? IP_INDEX_ISIZE_TYPE)%N then Some (INT64_MIN, INT64_MAX)
  else None.

(** ** Coverage *)

Record Coverage : Set := mkCoverage {
  wildcard : bool;
  saw_true : bool;
  saw_false : bool;
  covered : list N;
  ivals : list IntInterval
}.

Definition no_coverage : Coverage := mkCoverage false false false [] [].

Definition set_wildcard (c : Coverage) : Coverage := mkCoverage true (saw_true c) (saw_false c) (covered c) (ivals c).
Definition see_bool (b : bool) (c : Coverage) : Coverage :=
  if b then mkCoverage (wildcard c) true (saw_false c) (covered c) (ivals c)
  else mkCoverage (wildcard c) (saw_true c) true (covered c) (ivals c).
Definition push_variant (vn : N) (c : Coverage) : Coverage :=
  mkCoverage (wildcard c) (saw_true c) (saw_false c) (covered c ++ [vn]) (ivals c).
Definition push_interval (iv : IntInterval) (c : Coverage) : Coverage :=
  mkCoverage (wildcard c) (saw_true c) (saw_false c) (covered c) (ivals c ++ [iv]).

(** The value that [v] folded to, when it is an [IP_TAG_INT_VALUE]. *)
Definition folded_int (p : InternPool) (v : IpIndex) : outcome (option Z) :=
  if (v =? IP_NONE)%N || ip_is_error v then Ret None
  else
    match ip_tag p v with
    | IP_TAG_INT_VALUE =>
        let! k := ip_key p v in match k with IPK_INT_VALUE _ x => Ret (Some x) | _ => wrong_member end
    | _ => Ret None
    end.

Definition msg_empty_range : string := "empty or reversed range pattern".
Definition msg_overlap : string := "switch case overlaps an earlier case".
Definition msg_duplicate : string := "duplicate switch case".

Definition cover_range (eq : bool) (l hi_v : Z) (cov : Coverage) (c : Sema) : Coverage * Sema :=
  let h := if eq then hi_v else wrap64 (hi_v - 1) in
  if h <? l then (cov, db_emit msg_empty_range c)
  else if interval_overlaps (ivals cov) l h then (cov, db_emit msg_overlap c)
  else (push_interval (mkInterval l h) cov, c).

Definition cover_value (v : Z) (cov : Coverage) (c : Sema) : Coverage * Sema :=
  if interval_overlaps (ivals cov) v v then (cov, db_emit msg_duplicate c)
  else (push_interval (mkInterval v v) cov, c).

(** One pattern of an arm. *)
Definition cover_pattern (scrut : IpIndex) (pat : SwitchPattern) (cov : Coverage) (c : Sema)
    : outcome (Coverage * Sema) :=
  match pat with
  | PatWildcard => Ret (set_wildcard cov, c)
  | PatRange eq lo hi =>
      if is_concrete_int scrut then
        let! l := folded_int (intern c) lo in
        let! h := folded_int (intern c) hi in
        match l, h with
        | Some l, Some h => Ret (cover_range eq l h cov c)
        | _, _ => Ret (cov, c)
        end
      else Ret (cov, c)
  | PatEnumRef vn _ => Ret (if (vn =? 0)%N then (cov, c) else (push_variant vn cov, c))
  | PatValue v =>
      if (scrut =? IP_INDEX_BOOL_TYPE)%N then
        Ret (if (v =? IP_INDEX_BOOL_TRUE)%N then (see_bool true cov, c)
             else if (v =? IP_INDEX_BOOL_FALSE)%N then (see_bool false cov, c)
             else (cov, c))
      else if is_concrete_int scrut then
        let! x := folded_int (intern c) v in
        match x with Some x => Ret (cover_value x cov c) | None => Ret (cov, c) end
      else Ret (cov, c)
  end.

Fixpoint cover_patterns (scrut : IpIndex) (pats : list SwitchPattern) (cov : Coverage) (c : Sema)
    : outcome (Coverage * Sema) :=
  match pats with
  | [] => Ret (cov, c)
  | pat :: pats =>
      let! (cov, c) := cover_pattern scrut pat cov c in cover_patterns scrut pats cov c
  end.

(** ** Exhaustiveness *)

Definition msg_missing_variant : string := "non-exhaustive switch: missing variant '%S'".
Definition msg_missing_true : string := "non-exhaustive switch: missing 'true'".
Definition msg_missing_false : string := "non-exhaustive switch: missing 'false'".
Definition msg_non_exhaustive : string := "non-exhaustive switch over %T: cover all values or add a `_` arm".

Definition emit_unless (b : bool) (msg : string) (c : Sema) : Sema := if b then c else db_emit msg c.

(** [variants]: the names of [db_enum_variants], of an enum scrutinee. *)
Definition require_exhaustive (scrut : IpIndex) (variants : list N) (cov : Coverage) (c : Sema) : Sema :=
  if wildcard cov then c
  else
    let c :=
      if negb (scrut =? IP_NONE)%N && tag_eqb (ip_tag (intern c) scrut) IP_TAG_ENUM_TYPE then
        foldl (fun c v => emit_unless (existsb (N.eqb v) (covered cov)) msg_missing_variant c) c variants
      else c in
    let c :=
      if (scrut =? IP_INDEX_BOOL_TYPE)%N then
        emit_unless (saw_false cov) msg_missing_false (emit_unless (saw_true cov) msg_missing_true c)
      else c in
    if is_concrete_int scrut then
      emit_unless
        match int_type_bounds scrut with
        | Some (imin, imax) => intervals_span (ivals cov) imin imax
        | None => false
        end msg_non_exhaustive c
    else c.

(** The patterns of all arms, in order. *)
Definition check_switch (scrut : IpIndex) (variants : list N) (arms : list (list SwitchPattern)) (c : Sema) : outcome Sema :=
  let! (cov, c) := cover_patterns scrut (concat arms) no_coverage c in
  Ret (require_exhaustive scrut variants cov c).

(** ** Selection *)

Definition pattern_matches (p : InternPool) (scrut : IpIndex) (pat : SwitchPattern) : outcome bool :=
  match pat with
  | PatWildcard => Ret true
  | PatRange eq lo hi => tv_value_in_range p eq lo hi scrut
  | PatEnumRef _ v | PatValue v =>
      if negb (v =? IP_NONE)%N && negb (ip_is_error v) then tv_value_semantic_eq p v scrut else Ret false
  end.

Fixpoint arm_matches (p : InternPool) (scrut : IpIndex) (pats : list SwitchPattern) : outcome bool :=
  match pats with
  | [] => Ret false
  | pat :: pats =>
      let! b := pattern_matches p scrut pat in if b : bool then Ret true else arm_matches p scrut pats
  end.

(** The first arm that matches and has a body. *)
Fixpoint select_arm {Body : Type} (p : InternPool) (scrut : IpIndex) (arms : list (list SwitchPattern * option Body))
    : outcome (option Body) :=
  match arms with
  | [] => Ret None
  | (pats, body) :: arms =>
      let! b := arm_matches p scrut pats in
      match body with
      | Some body => if b : bool then Ret (Some body) else select_arm p scrut arms
      | None => select_arm p scrut arms
      end
  end.

End Switch.
