(* ===== verification/SwitchTheorems.v ===== *)
(** * Switch coverage: theorems *)

From stdpp Require Import sorting.
From S2P Require Import Prelude InternPool InternGet InternApi Rows Values Switch InternFacts InternTheorems ValuesTheorems.

(** ** Switch coverage: intervals

    [count v l] intervals of [l] have the value [v] inside.  Of non-empty disjoint intervals,
    [intervals_span] says whether together they are exactly a range ([intervals_span_ok]);
    [cover_patterns] reports nothing exactly when the patterns are such intervals
    ([cover_ok]). *)

Import InternPool InternGet InternApi Rows Values Switch.

Module SwitchFacts.

#[local] Open Scope Z_scope.

Definition inside (v : Z) (iv : IntInterval) : bool := (lo iv <=? v) && (v <=? hi iv).
Definition count (v : Z) (l : list IntInterval) : nat := length (List.filter (inside v) l).
Definition nonempty (iv : IntInterval) : Prop := lo iv <= hi iv.
Definition word_sized (iv : IntInterval) : Prop := INT64_MIN <= lo iv /\ hi iv <= INT64_MAX.
Definition disjoint (l : list IntInterval) : Prop := forall v, (count v l <= 1)%nat.

Lemma count_cons v a l : count v (a :: l) = ((if inside v a then 1 else 0) + count v l)%nat.
Proof. unfold count. simpl. by destruct (inside v a). Qed.

Lemma count_app v l l' : count v (l ++ l') = (count v l + count v l')%nat.
Proof. induction l as [|a l IH]; [done|]. rewrite <- app_comm_cons, !count_cons, IH. lia. Qed.

#[export] Instance count_perm v : Proper ((≡ₚ) ==> (=)) (count v).
Proof. induction 1; rewrite ?count_cons; lia. Qed.

Lemma count_pos v l : (0 < count v l)%nat <-> exists a, a ∈ l /\ inside v a = true.
Proof.
  induction l as [|a l IH]; [split; [by intros H%Nat.lt_irrefl|intros (a & H & _); by apply elem_of_nil in H]|].
  rewrite count_cons. split.
  - destruct (inside v a) eqn:E; [by exists a; split; [left|]|]. intros H. apply IH in H as (b & Hb & Hi).
    exists b. split; [by right|done].
  - intros (b & [->|Hb]%elem_of_cons & Hi); [rewrite Hi; lia|]. destruct IH as [_ IH].
    specialize (IH (ex_intro _ b (conj Hb Hi))). lia.
Qed.

Lemma inside_spec v iv : inside v iv = true <-> lo iv <= v <= hi iv.
Proof. unfold inside. rewrite andb_true_iff, !Z.leb_le. done. Qed.

(** ** Overlaps *)

Lemma overlaps_spec set l h : l <= h -> Forall nonempty set ->
  interval_overlaps set l h = false <-> forall v, l <= v <= h -> count v set = 0%nat.
Proof.
  intros Hlh Hne. induction Hne as [|a set Ha Hset IH]; [done|]. unfold nonempty in Ha. simpl.
  rewrite orb_false_iff, IH. split.
  - intros [Ho Hc] v Hv. rewrite count_cons, (Hc v Hv). destruct (inside v a) eqn:E; [|done].
    apply inside_spec in E. apply andb_false_iff in Ho as [Ho%Z.leb_gt|Ho%Z.leb_gt]; lia.
  - intros H. split.
    + destruct (Z.leb_spec l (hi a)) as [H1|]; [|done]. destruct (Z.leb_spec (lo a) h) as [H2|]; [|done].
      specialize (H (Z.max l (lo a)) ltac:(lia)). rewrite count_cons in H.
      assert (inside (Z.max l (lo a)) a = true) as E by (apply inside_spec; lia). rewrite E in H. lia.
    + intros v Hv. specialize (H v Hv). rewrite count_cons in H. lia.
Qed.

Lemma disjoint_snoc acc a : nonempty a -> Forall nonempty acc -> disjoint acc ->
  interval_overlaps acc (lo a) (hi a) = false <-> disjoint (acc ++ [a]).
Proof.
  intros Ha Hacc Hd. rewrite overlaps_spec by done. unfold disjoint. split.
  - intros H v. rewrite count_app, count_cons. change (count v []) with 0%nat. specialize (Hd v).
    destruct (inside v a) eqn:E; [|lia]. apply inside_spec in E. rewrite (H v E). lia.
  - intros H v Hv. specialize (H v). rewrite count_app, count_cons in H. change (count v []) with 0%nat in H.
    assert (inside v a = true) as E by (by apply inside_spec). rewrite E in H. lia.
Qed.

Lemma disjoint_app_l l l' : disjoint (l ++ l') -> disjoint l.
Proof. intros H v. specialize (H v). rewrite count_app in H. lia. Qed.

(** ** The spanned range *)

Definition before (a b : IntInterval) : Prop := hi a < lo b.

#[export] Instance interval_le_total : Total interval_le.
Proof. intros a b. unfold interval_le. lia. Qed.

#[export] Instance interval_le_trans : Transitive interval_le.
Proof. intros a b c. unfold interval_le. lia. Qed.

Lemma sorted_before l : Sorted interval_le l -> Forall nonempty l -> disjoint l -> StronglySorted before l.
Proof.
  intros Hs. apply Sorted_StronglySorted in Hs; [|apply _]. induction Hs as [|a l Hl IH Ha]; [constructor|].
  intros [Hna Hn]%Forall_cons Hd. constructor.
  - apply IH; [done|]. intros v. specialize (Hd v). rewrite count_cons in Hd. lia.
  - rewrite Forall_forall in Ha, Hn |- *. intros b Hb. specialize (Ha b Hb). specialize (Hn b Hb).
    unfold before, interval_le, nonempty in *. apply Z.nle_gt. intros Hle. specialize (Hd (lo b)). rewrite count_cons in Hd.
    assert (inside (lo b) a = true) as E by (apply inside_spec; lia). rewrite E in Hd.
    assert (0 < count (lo b) l)%nat by (apply count_pos; exists b; split; [done|]; apply inside_spec; lia). lia.
Qed.

(** How often a value should be hit by intervals that are the range from [min] to [max]. *)
Definition expected (min max v : Z) : nat := if (min <=? v) && (v <=? max) then 1 else 0.

Lemma expected_in min max v : min <= v <= max -> expected min max v = 1%nat.
Proof. unfold expected. intros H. by rewrite (proj2 (Z.leb_le _ _) (proj1 H)), (proj2 (Z.leb_le _ _) (proj2 H)). Qed.

Lemma expected_out min max v : v < min \/ max < v -> expected min max v = 0%nat.
Proof.
  unfold expected. intros [H|H]; [by rewrite (proj2 (Z.leb_gt _ _) H)|].
  by rewrite (proj2 (Z.leb_gt _ _) H), andb_false_r.
Qed.

Lemma count_low v l : Forall (fun b => v < lo b) l -> count v l = 0%nat.
Proof.
  induction 1 as [|b l Hb Hl IH]; [done|]. rewrite count_cons, IH.
  destruct (inside v b) eqn:E; [|done]. apply inside_spec in E. lia.
Qed.

Lemma last_default (l : list IntInterval) : forall x d d', List.last (x :: l) d = List.last (x :: l) d'.
Proof. induction l as [|y l IH]; intros x d d'; [done|]. exact (IH y d d'). Qed.

Lemma last_cons (a b : IntInterval) l : List.last (a :: b :: l) a = List.last (b :: l) b.
Proof. exact (last_default l b a b). Qed.

Lemma chain_ok max l : forall a, StronglySorted before (a :: l) -> Forall nonempty (a :: l) -> Forall word_sized (a :: l) ->
  ((hi (List.last (a :: l) a) =? max) && gap_free (a :: l) = true <->
   forall v, count v (a :: l) = expected (lo a) max v).
Proof.
  induction l as [|b l IH]; intros a Hs Hn Hw.
  - apply Forall_cons in Hn as [Hn _]. unfold nonempty in Hn. simpl. rewrite andb_true_r, Z.eqb_eq. split.
    + intros <- v. rewrite count_cons. unfold expected. fold (inside v a). change (count v []) with 0%nat. by destruct (inside v a).
    + intros H. assert (Hc : forall v, count v [a] = if inside v a then 1%nat else 0%nat)
        by (intros v; rewrite count_cons; by destruct (inside v a)).
      destruct (Z.lt_trichotomy (hi a) max) as [Hlt|[E|Hgt]]; [|done|].
      * specialize (H (hi a + 1)). rewrite Hc, expected_in in H by lia.
        destruct (inside (hi a + 1) a) eqn:E; [apply inside_spec in E; lia|done].
      * specialize (H (hi a)). rewrite Hc, expected_out in H by lia.
        assert (inside (hi a) a = true) as E by (apply inside_spec; lia). by rewrite E in H.
  - apply StronglySorted_cons in Hs as [Hab Hs]. pose proof Hab as [Hb Hab']%Forall_cons. unfold before in Hb.
    apply Forall_cons in Hn as [Hna Hn]. pose proof Hn as [Hnb _]%Forall_cons. unfold nonempty in Hna, Hnb.
    apply Forall_cons in Hw as [Hwa Hw]. pose proof Hw as [Hwb _]%Forall_cons. unfold word_sized in Hwa, Hwb.
    rewrite last_cons. change (gap_free (a :: b :: l)) with
      (negb ((hi a =? INT64_MAX) || negb (lo b =? hi a + 1)) && gap_free (b :: l)).
    assert (E : (hi a =? INT64_MAX) = false) by (apply Z.eqb_neq; lia). rewrite E. cbn [orb]. rewrite negb_involutive.
    transitivity (lo b = hi a + 1 /\ (hi (List.last (b :: l) b) =? max) && gap_free (b :: l) = true).
    { rewrite !andb_true_iff, !Z.eqb_eq. tauto. }
    rewrite (IH b Hs Hn Hw). clear E.
    assert (Hlow : forall v, v <= hi a -> count v (b :: l) = 0%nat).
    { intros v Hv. apply count_low. eapply Forall_impl; [exact Hab|]. intros x Hx. unfold before in Hx. simpl. lia. }
    split.
    + intros [Hadj H] v. rewrite count_cons, H. unfold expected, inside.
      destruct (Z.leb_spec (lo a) v), (Z.leb_spec v (hi a)), (Z.leb_spec (lo b) v), (Z.leb_spec v max); try lia; try done.
      assert (Hcb : count (lo b) (b :: l) = 0%nat) by (rewrite H, expected_out; [done|lia]).
      rewrite count_cons in Hcb. assert (inside (lo b) b = true) as E by (apply inside_spec; lia). rewrite E in Hcb. lia.
    + intros H.
      assert (Hbm : lo b <= max).
      { apply Z.nlt_ge. intros Hlt. specialize (H (lo b)). rewrite count_cons, count_cons, expected_out in H by lia.
        assert (inside (lo b) b = true) as E by (apply inside_spec; lia). rewrite E in H. lia. }
      assert (Hadj : lo b = hi a + 1).
      { apply Z.le_antisymm; [|lia]. apply Z.nlt_ge. intros Hlt. specialize (H (hi a + 1)).
        rewrite count_cons, expected_in, count_low in H by (first [lia|constructor; [lia|]; eapply Forall_impl;
          [apply StronglySorted_cons in Hs as [Hs _]; exact Hs|]; intros x Hx; unfold before in Hx; simpl; lia]).
        destruct (inside (hi a + 1) a) eqn:E; [apply inside_spec in E; lia|done]. }
      split; [done|]. intros v. specialize (H v). rewrite count_cons in H. destruct (inside v a) eqn:E.
      * apply inside_spec in E. rewrite (Hlow v) by lia. by rewrite expected_out by lia.
      * assert (Hout : ~ (lo a <= v <= hi a)) by (intros X; apply inside_spec in X; congruence).
        rewrite Nat.add_0_l in H. rewrite H. unfold expected.
        destruct (Z.leb_spec (lo a) v), (Z.leb_spec (lo b) v), (Z.leb_spec v max); try lia; done.
Qed.

(** The intervals are exactly the values from [min] to [max], each once. *)
Lemma intervals_span_ok set min max : min <= max -> Forall nonempty set -> Forall word_sized set -> disjoint set ->
  intervals_span set min max = true <-> forall v, count v set = expected min max v.
Proof.
  intros Hmm Hn Hw Hd. unfold intervals_span. pose proof (merge_sort_Permutation interval_le set) as Hp.
  pose proof (Sorted_merge_sort interval_le set) as Hs.
  assert (Hcount : (forall v, count v set = expected min max v) <->
                   forall v, count v (merge_sort interval_le set) = expected min max v).
  { split; intros H v; specialize (H v); by rewrite Hp in *. }
  rewrite Hcount. clear Hcount. rewrite <- Hp in Hn, Hw.
  assert (Hd' : disjoint (merge_sort interval_le set)) by (intros v; rewrite Hp; apply Hd).
  destruct (merge_sort interval_le set) as [|a l]; clear Hp Hd.
  { split; [done|]. intros H. specialize (H min). by rewrite expected_in in H by lia. }
  pose proof (sorted_before _ Hs Hn Hd') as Hb. cbv zeta. rewrite <- andb_assoc, andb_true_iff, Z.eqb_eq, (chain_ok max l a Hb Hn Hw).
  split; [by intros [-> H]|]. intros H. assert (lo a = min) as E; [|by rewrite <- E in H].
  apply Forall_cons in Hn as [Hna _]. unfold nonempty in Hna.
  apply StronglySorted_cons in Hb as [Hb _].
  assert (Hlow : forall v, v < lo a -> count v (a :: l) = 0%nat).
  { intros v Hv. apply count_low. constructor; [done|]. eapply Forall_impl; [exact Hb|].
    intros x Hx. unfold before in Hx. simpl. lia. }
  destruct (Z.lt_trichotomy (lo a) min) as [Hlt|[E|Hgt]]; [|done|].
  - specialize (H (lo a)). rewrite count_cons, expected_out in H by lia.
    assert (inside (lo a) a = true) as E by (apply inside_spec; lia). rewrite E in H. lia.
  - specialize (H min). rewrite Hlow, expected_in in H by lia. done.
Qed.

End SwitchFacts.

Import InternPool InternFacts InternInv InternGet InternTheorems InternApi Rows Values ValuesFacts Switch SwitchFacts SamplePools.

Module SwitchTheorems.

#[local] Open Scope Z_scope.

(** ** Folded values *)

Lemma folded_int_reads p v t x : pool_ok p -> reads p v (IPK_INT_VALUE t x) -> folded_int p v = Ret (Some x).
Proof.
  intros Hp Hr. destruct (int_value_reads p v t x Hp Hr) as (H1 & H2 & _ & _ & H5 & H6).
  unfold folded_int. by rewrite (proj2 (N.eqb_neq _ _) H1), H2, H5, H6.
Qed.

(** ** What an integer pattern stands for *)

Inductive denotes (p : InternPool) : SwitchPattern -> IntInterval -> Prop :=
  | di_range eq l h x y tx ty : reads p l (IPK_INT_VALUE tx x) -> reads p h (IPK_INT_VALUE ty y) ->
      int64 x -> int64 y -> eq = true \/ INT64_MIN < y ->
      denotes p (PatRange eq l h) (mkInterval x (if eq then y else y - 1))
  | di_value v t x : reads p v (IPK_INT_VALUE t x) -> int64 x -> denotes p (PatValue v) (mkInterval x x).

Lemma denotes_word p pat iv : denotes p pat iv -> word_sized iv.
Proof.
  unfold word_sized. destruct 1 as [eq l h x y tx ty _ _ Hx Hy Hmin|v t x _ Hx]; unfold int64 in *; simpl; [|lia].
  destruct eq; [lia|]. destruct Hmin as [|Hmin]; [done|lia].
Qed.

(** What a pattern adds to the coverage. *)
Lemma cover_pattern_ok scrut pat iv cov c : pool_ok (intern c) -> is_concrete_int scrut = true ->
  denotes (intern c) pat iv -> Forall nonempty (ivals cov) -> disjoint (ivals cov) ->
  exists cov' c', cover_pattern scrut pat cov c = Ret (cov', c') /\ intern c' = intern c /\
    wildcard cov' = wildcard cov /\
    ((c' = c /\ ivals cov' = ivals cov ++ [iv] /\ nonempty iv /\ disjoint (ivals cov ++ [iv])) \/
     ((exists msg, diags c' = diags c ++ [msg]) /\ ivals cov' = ivals cov /\
      ~ (nonempty iv /\ disjoint (ivals cov ++ [iv])))).
Proof.
  intros Hp Hs Hd Hne Hdis. destruct Hd as [eq l h x y tx ty Hl Hh Hx Hy Hmin|v t x Hv Hx]; cbn [cover_pattern]; rewrite Hs.
  - rewrite (folded_int_reads _ _ _ _ Hp Hl). cbn [obind]. rewrite (folded_int_reads _ _ _ _ Hp Hh). cbn [obind].
    unfold cover_range. set (hi' := if eq then y else y - 1).
    assert ((if eq then y else wrap64 (y - 1)) = hi') as ->.
    { unfold hi'. destruct eq; [done|]. apply wrap64_id. unfold int64 in *. destruct Hmin as [|Hmin]; [done|lia]. }
    pose proof (disjoint_snoc (ivals cov) (mkInterval x hi')) as Hsnoc. unfold nonempty in *. cbn [lo hi] in *.
    destruct (Z.ltb_spec hi' x) as [Hlt|Hge].
    + eexists _, _. split; [done|]. split; [done|]. split; [done|]. right. split; [by eexists|]. split; [done|]. lia.
    + specialize (Hsnoc Hge Hne Hdis). destruct (interval_overlaps (ivals cov) x hi').
      * eexists _, _. split; [done|]. split; [done|]. split; [done|]. right. split; [by eexists|]. split; [done|].
        intros [_ X]. by apply Hsnoc in X.
      * eexists _, _. split; [done|]. split; [done|]. split; [done|]. left. split; [done|]. split; [done|].
        split; [done|by apply Hsnoc].
  - destruct (N.eqb_spec scrut IP_INDEX_BOOL_TYPE) as [->|_]; [done|].
    rewrite (folded_int_reads _ _ _ _ Hp Hv). cbn [obind]. unfold cover_value.
    pose proof (disjoint_snoc (ivals cov) (mkInterval x x)) as Hsnoc. unfold nonempty in *. cbn [lo hi] in *.
    specialize (Hsnoc ltac:(lia) Hne Hdis). destruct (interval_overlaps (ivals cov) x x).
    + eexists _, _. split; [done|]. split; [done|]. split; [done|]. right. split; [by eexists|]. split; [done|].
      intros [_ X]. by apply Hsnoc in X.
    + eexists _, _. split; [done|]. split; [done|]. split; [done|]. left. split; [done|]. split; [done|].
      split; [lia|by apply Hsnoc].
Qed.

Lemma cover_ok scrut pats ivs : is_concrete_int scrut = true -> forall cov c, pool_ok (intern c) ->
  Forall2 (denotes (intern c)) pats ivs -> Forall nonempty (ivals cov) -> disjoint (ivals cov) ->
  exists cov' c' msgs, cover_patterns scrut pats cov c = Ret (cov', c') /\ intern c' = intern c /\
    diags c' = diags c ++ msgs /\ wildcard cov' = wildcard cov /\
    (msgs = [] <-> Forall nonempty ivs /\ disjoint (ivals cov ++ ivs)) /\
    (msgs = [] -> ivals cov' = ivals cov ++ ivs).
Proof.
  intros Hs cov c Hp Hd. revert cov. remember (intern c) as p eqn:Ep. revert c Ep.
  induction Hd as [|pat iv pats ivs Hpat Hpats IH]; intros c Ep cov Hne Hdis.
  { exists cov, c, []. rewrite !app_nil_r. done. }
  subst p. cbn [cover_patterns].
  destruct (cover_pattern_ok scrut pat iv cov c Hp Hs Hpat Hne Hdis) as (cov1 & c1 & -> & Ei & Ew & Hcase). cbn [obind].
  destruct Hcase as [(-> & Ev & Hiv & Hdis1)|([msg Hmsg] & Ev & Hbad)].
  - destruct (IH c eq_refl cov1) as (cov' & c' & msgs & -> & Ei' & Ed & Ew' & Hiff & Hiv').
    + rewrite Ev. apply Forall_app. split; [done|by constructor].
    + by rewrite Ev.
    + rewrite Ev, <- app_assoc in Hiff, Hiv'. exists cov', c', msgs. split; [done|]. split; [done|]. split; [done|].
      split; [congruence|]. split; [|done]. rewrite Hiff, Forall_cons. cbn [app]. tauto.
  - destruct (IH c1 (eq_sym Ei) cov1) as (cov' & c' & msgs & -> & Ei' & Ed & Ew' & _ & _); [by rewrite Ev|by rewrite Ev|].
    exists cov', c', (msg :: msgs). split; [done|]. split; [congruence|].
    split; [by rewrite Ed, Hmsg, <- app_assoc|]. split; [congruence|]. split; [|done].
    split; [done|]. intros [[Hiv _]%Forall_cons Hdis1]. destruct Hbad. split; [done|].
    apply (disjoint_app_l _ ivs). by rewrite <- app_assoc.
Qed.

(** ** The property *)

Lemma concrete_int_low scrut : is_concrete_int scrut = true -> (scrut < FIRST_COMPOUND)%N /\ (scrut =? IP_INDEX_BOOL_TYPE)%N = false.
Proof.
  unfold is_concrete_int, in_mask. intros [H%N.ltb_lt H2]%andb_true_iff. assert (Hm : forall n, (n < 32)%nat ->
    N.odd (N.shiftr ORE_CONCRETE_INT_MASK (N.of_nat n)) = true -> (N.of_nat n < FIRST_COMPOUND)%N /\ (N.of_nat n =? IP_INDEX_BOOL_TYPE)%N = false).
  { intros n Hn. do 32 (destruct n as [|n]; [by vm_compute|]). lia. }
  specialize (Hm (N.to_nat scrut) ltac:(lia)). rewrite N2Nat.id in Hm. by apply Hm.
Qed.

Lemma bounds_ordered t min max : int_type_bounds t = Some (min, max) -> min <= max.
Proof. unfold int_type_bounds. repeat destruct (_ =? _)%N; intros [= <- <-]; done. Qed.

Lemma int_scrut_tag p scrut : pool_ok p -> is_concrete_int scrut = true -> tag_eqb (ip_tag p scrut) IP_TAG_ENUM_TYPE = false.
Proof.
  intros [[g I] _] Hs. destruct (concrete_int_low scrut Hs) as [Hlow _]. rewrite (proj1 (low_reads p g scrut I Hlow)).
  destruct scrut as [|q]; [done|]. by destruct (N.pos q <=? 21)%N.
Qed.

Lemma int_coverage c scrut variants arms ivs : pool_ok (intern c) -> is_concrete_int scrut = true ->
  Forall2 (denotes (intern c)) (concat arms) ivs ->
  exists c', check_switch scrut variants arms c = Ret c' /\ intern c' = intern c /\
    (diags c' = diags c <-> Forall nonempty ivs /\
      exists min max, int_type_bounds scrut = Some (min, max) /\ forall v, count v ivs = expected min max v).
Proof.
  intros Hp Hs Hd. unfold check_switch.
  destruct (cover_ok scrut (concat arms) ivs Hs no_coverage c Hp Hd) as (cov & c1 & msgs & -> & Ei & Ed & Ew & Hiff & Hiv);
    [exact (List.Forall_nil _)|intros v; apply Nat.le_0_l|].
  cbn [obind]. unfold require_exhaustive. rewrite Ew. cbn [wildcard no_coverage].
  rewrite (int_scrut_tag (intern c1) scrut ltac:(by rewrite Ei) Hs), andb_false_r.
  rewrite (proj2 (concrete_int_low scrut Hs)), Hs.
  set (full := match int_type_bounds scrut with Some _ => _ | None => _ end).
  exists (emit_unless full msg_non_exhaustive c1). split; [done|]. split; [by unfold emit_unless; destruct full|].
  transitivity (msgs = [] /\ full = true).
  { unfold emit_unless. destruct full; [|split; [|by intros [_ ?]]].
    - rewrite Ed. split; [intros E; split; [|done]; apply (app_inv_head (diags c)); by rewrite app_nil_r|].
      intros [-> _]. by rewrite app_nil_r.
    - simpl. rewrite Ed, <- app_assoc. intros E. apply (f_equal length) in E. rewrite !length_app in E. simpl in E. lia. }
  assert (Hw : Forall word_sized ivs).
  { clear -Hd. induction Hd as [|pat iv l l' H _ IH]; constructor; [by eapply denotes_word|done]. }
  cbn [ivals no_coverage app] in Hiff, Hiv. unfold full. split.
  - intros [Em Hfull]. pose proof (proj1 Hiff Em) as [Hne Hdis]. split; [done|]. rewrite (Hiv Em) in Hfull.
    destruct (int_type_bounds scrut) as [[min max]|] eqn:Eb; [|done]. exists min, max. split; [done|].
    apply intervals_span_ok; [by eapply bounds_ordered|done..].
  - intros (Hne & min & max & Eb & Hcount).
    assert (Hdis : disjoint ivs) by (intros v; rewrite Hcount; unfold expected; destruct (_ && _); lia).
    assert (Em : msgs = []) by (apply Hiff; done). split; [done|]. rewrite Eb, (Hiv Em).
    apply intervals_span_ok; [by eapply bounds_ordered|done..].
Qed.

(** The coverage check of a switch over an integer: when every pattern is a value or a range
    with folded bounds, it reports nothing exactly when no range is empty or reversed and the
    patterns are a partition of the values of the scrutinee's type, each value in exactly one
    pattern and no other value in any; for a type without 64-bit signed bounds it always
    reports. *)
Theorem switch_int_coverage c scrut variants arms ivs : pool_ok (intern c) -> is_concrete_int scrut = true ->
  Forall2 (denotes (intern c)) (concat arms) ivs ->
  exists c', check_switch scrut variants arms c = Ret c' /\ intern c' = intern c /\
    (diags c' = diags c <-> Forall nonempty ivs /\
      exists min max, int_type_bounds scrut = Some (min, max) /\ forall v, count v ivs = expected min max v).
Proof. apply int_coverage. Qed.

(** A pattern matches the values that it stands for. *)
Lemma matches_inside p pat iv sv t v : pool_ok p -> denotes p pat iv -> reads p sv (IPK_INT_VALUE t v) ->
  pattern_matches p sv pat = Ret (inside v iv).
Proof.
  intros Hp Hd Hs. destruct Hd as [eq l h x y tx ty Hl Hh _ _ _|pv pt x Hv _]; cbn [pattern_matches].
  - unfold tv_value_in_range. rewrite (decode_int _ _ _ _ Hp Hs). cbn [obind]. rewrite (decode_int _ _ _ _ Hp Hl). cbn [obind].
    rewrite (decode_int _ _ _ _ Hp Hh). cbn [obind]. unfold inside. cbn [lo hi]. destruct eq; [done|].
    do 2 f_equal. apply eq_true_iff_eq. rewrite Z.ltb_lt, Z.leb_le. lia.
  - destruct (int_value_reads p pv pt x Hp Hv) as (H1 & H2 & _). rewrite (proj2 (N.eqb_neq _ _) H1), H2. cbn [negb andb].
    assert (Hin : inside v (mkInterval x x) = (x =? v)).
    { apply eq_true_iff_eq. rewrite inside_spec, Z.eqb_eq. simpl. lia. }
    rewrite Hin. unfold tv_value_semantic_eq. destruct (N.eqb_spec pv sv) as [->|Hne].
    + rewrite (proj2 (N.eqb_neq _ _) H1), H2. cbn [negb andb]. destruct Hv as [_ Hv], Hs as [_ Hs].
      rewrite Hs in Hv. injection Hv as _ ->. by rewrite Z.eqb_refl.
    + cbn [andb]. rewrite (decode_int _ _ _ _ Hp Hv). cbn [obind]. by rewrite (decode_int _ _ _ _ Hp Hs).
Qed.

Lemma arm_matches_ok p sv t v pats ivs : pool_ok p -> reads p sv (IPK_INT_VALUE t v) -> Forall2 (denotes p) pats ivs ->
  arm_matches p sv pats = Ret (negb (count v ivs =? 0)%nat).
Proof.
  intros Hp Hs Hd. induction Hd as [|pat iv pats ivs H _ IH]; [done|]. cbn [arm_matches].
  rewrite (matches_inside p pat iv sv t v Hp H Hs). cbn [obind]. rewrite count_cons. by destruct (inside v iv).
Qed.

(** The first arm with the value in a pattern is the only one. *)
Lemma select_ok {Body} p sv t v (arms : list (list SwitchPattern * Body)) ivss : pool_ok p -> reads p sv (IPK_INT_VALUE t v) ->
  Forall2 (fun arm => Forall2 (denotes p) arm.1) arms ivss -> count v (concat ivss) = 1%nat ->
  exists i arm ivs, arms !! i = Some arm /\ ivss !! i = Some ivs /\ count v ivs = 1%nat /\
    select_arm p sv (map (fun arm => (arm.1, Some arm.2)) arms) = Ret (Some arm.2) /\
    forall j ivs', ivss !! j = Some ivs' -> j <> i -> count v ivs' = 0%nat.
Proof.
  intros Hp Hsv Hd. induction Hd as [|[pats body] ivs arms ivss H Hd IH]; [done|].
  cbn [concat map select_arm fst snd] in *. rewrite count_app, (arm_matches_ok p sv t v pats ivs Hp Hsv H). cbn [obind].
  intros Hc. destruct (count v ivs) as [|n] eqn:En; cbn [Nat.eqb negb].
  - destruct (IH Hc) as (i & arm & ivs1 & H1 & H2 & H3 & H4 & H5). exists (S i), arm, ivs1.
    split; [done|]. split; [done|]. split; [done|]. split; [done|].
    intros [|j] ivs' Hj Hne; [by injection Hj as <-|]. apply (H5 j); [done|congruence].
  - assert (n = 0%nat) as -> by lia. exists 0%nat, (pats, body), ivs. split; [done|]. split; [done|]. split; [done|].
    split; [done|]. intros [|j] ivs' Hj Hne; [done|]. simpl in Hj.
    assert (Hz : count v (concat ivss) = 0%nat) by lia. apply list_elem_of_split_length in Hj as (l1 & l2 & E & _).
    rewrite E, concat_app, count_app in Hz. cbn [concat] in Hz. rewrite count_app in Hz. lia.
Qed.

(** C28: A switch over an integer type that passes the coverage check selects, when all its
    patterns are folded constants and ranges: no [_] arm, and no exclusive range that ends at
    the smallest 64-bit integer.  The arm of a folded scrutinee is the one arm with a pattern
    that the value is in, for every value of the type. *)
Theorem switch_exhaustive_selects {Body} c c' scrut variants (arms : list (list SwitchPattern * Body)) ivss sv t v min max :
  pool_ok (intern c) -> is_concrete_int scrut = true -> Forall2 (fun arm => Forall2 (denotes (intern c)) arm.1) arms ivss ->
  check_switch scrut variants (map fst arms) c = Ret c' -> diags c' = diags c ->
  int_type_bounds scrut = Some (min, max) -> reads (intern c) sv (IPK_INT_VALUE t v) -> min <= v <= max ->
  exists i arm ivs, arms !! i = Some arm /\ ivss !! i = Some ivs /\ count v ivs = 1%nat /\
    select_arm (intern c) sv (map (fun arm => (arm.1, Some arm.2)) arms) = Ret (Some arm.2) /\
    forall j ivs', ivss !! j = Some ivs' -> j <> i -> count v ivs' = 0%nat.
Proof.
  intros Hp Hs Hd E Hdiag Hb Hsv Hv.
  assert (Hcat : Forall2 (denotes (intern c)) (concat (map fst arms)) (concat ivss)).
  { clear -Hd. induction Hd as [|arm ivs arms ivss H _ IH]; [constructor|]. simpl. by apply Forall2_app. }
  destruct (int_coverage c scrut variants (map fst arms) (concat ivss) Hp Hs Hcat) as (c2 & E2 & _ & Hiff).
  rewrite E in E2. injection E2 as <-. apply Hiff in Hdiag as (_ & min' & max' & Hb' & Hcount).
  rewrite Hb in Hb'. injection Hb' as <- <-. apply (select_ok _ sv t v arms ivss Hp Hsv Hd).
  by rewrite Hcount, expected_in.
Qed.

(** ** Applied *)

(** [0 ..= 99], [100] and [101 ..< 256]. *)
Definition sample_arms : list (list SwitchPattern * nat) :=
  [([PatRange true 33 34; PatValue 35], 0%nat); ([PatRange false 36 37], 1%nat)].
Definition sample_ivals : list (list IntInterval) :=
  [[mkInterval 0 99; mkInterval 100 100]; [mkInterval 101 255]].

Lemma sample_denotes : exists c, pool_ok (intern c) /\ reads (intern c) 38 (IPK_INT_VALUE 2 200) /\ diags c = [] /\
  Forall2 (fun arm => Forall2 (denotes (intern c)) arm.1) sample_arms sample_ivals.
Proof.
  destruct values_pool as (p & Hp & Hr & R33 & R34 & R35 & R36 & R37 & R38 & R39 & R40 & R41 & R42 & R43 & R28 & R44 & R2).
  exists (mkSema p None None []). split; [exact Hp|]. split; [exact R38|]. split; [done|].
  assert (Hi : forall z, -10000 <= z <= 10000 -> int64 z) by (unfold int64, INT64_MIN, INT64_MAX; lia).
  repeat constructor.
  - by apply (di_range p true 33 34 0 99 17 17 R33 R34); [apply Hi; lia|apply Hi; lia|left].
  - by apply (di_value p 35 17 100 R35); apply Hi.
  - apply (di_range p false 36 37 101 256 17 17 R36 R37); [apply Hi; lia|apply Hi; lia|right; unfold INT64_MIN; lia].
Qed.

Lemma sample_count v : count v (concat sample_ivals) = expected 0 255 v.
Proof.
  unfold sample_ivals, expected. cbn [concat app]. rewrite !count_cons. unfold inside. cbn [lo hi].
  change (count v []) with 0%nat.
  destruct (Z.leb_spec 0 v), (Z.leb_spec v 99), (Z.leb_spec 100 v), (Z.leb_spec v 100), (Z.leb_spec 101 v), (Z.leb_spec v 255);
    simpl; lia.
Qed.

Lemma sample_nonempty : Forall nonempty (concat sample_ivals).
Proof. unfold nonempty. repeat constructor; simpl; lia. Qed.

Lemma switch_int_coverage_witness : exists c c', check_switch 2 [] (map fst sample_arms) c = Ret c' /\ diags c' = diags c.
Proof.
  destruct sample_denotes as (c & Hp & _ & _ & Hd).
  assert (Hd' : Forall2 (denotes (intern c)) (concat (map fst sample_arms)) (concat sample_ivals)).
  { unfold sample_arms, sample_ivals in *. simpl. inversion Hd as [|? ? ? ? H1 H2]; subst. inversion H2 as [|? ? ? ? H3 H4]; subst.
    simpl in H1, H3. inversion H1 as [|? ? ? ? H5 H6]; subst. inversion H6; subst. inversion H3; subst. repeat constructor; done. }
  destruct (switch_int_coverage c 2 [] (map fst sample_arms) (concat sample_ivals) Hp) as (c' & E & _ & Hiff).
  - reflexivity.
  - exact Hd'.
  - exists c, c'. split; [exact E|]. apply Hiff. split; [exact sample_nonempty|].
    exists 0, 255. split; [reflexivity|exact sample_count].
Defined.

Lemma switch_exhaustive_selects_witness : exists c, reads (intern c) 38 (IPK_INT_VALUE 2 200) /\
  exists b, select_arm (intern c) 38 (map (fun arm => (arm.1, Some arm.2)) sample_arms) = Ret (Some b).
Proof.
  destruct sample_denotes as (c & Hp & R38 & Hdiag & Hd).
  assert (Hok : exists c', check_switch 2 [] (map fst sample_arms) c = Ret c' /\ diags c' = diags c).
  { destruct (cover_ok 2 (concat (map fst sample_arms)) (concat sample_ivals) eq_refl no_coverage c Hp) as (cov & c1 & msgs & E & Ei & Ed & Ew & Hiff & Hiv).
    - unfold sample_arms, sample_ivals in *. simpl. inversion Hd as [|? ? ? ? H1 H2]; subst. inversion H2 as [|? ? ? ? H3 H4]; subst.
      simpl in H1, H3. inversion H1 as [|? ? ? ? H5 H6]; subst. inversion H6; subst. inversion H3; subst. repeat constructor; done.
    - exact (List.Forall_nil _).
    - intros v. apply Nat.le_0_l.
    - assert (Em : msgs = []).
      { apply Hiff. split; [exact sample_nonempty|]. intros v. cbn [ivals no_coverage app]. rewrite sample_count.
        unfold expected. destruct (_ && _); lia. }
      unfold check_switch. rewrite E. cbn [obind]. unfold require_exhaustive. rewrite Ew. cbn [wildcard no_coverage].
      rewrite (int_scrut_tag (intern c1) 2 ltac:(by rewrite Ei) eq_refl), andb_false_r. cbn.
      rewrite (Hiv Em). eexists. split; [reflexivity|]. cbn [ivals no_coverage app].
      assert (intervals_span (concat sample_ivals) 0 255 = true) as -> by reflexivity. simpl. by rewrite Ed, Em, app_nil_r. }
  destruct Hok as (c' & E & Ed).
  destruct (switch_exhaustive_selects c c' 2 [] sample_arms sample_ivals 38 2 200 0 255 Hp) as (i & arm & ivs & _ & _ & _ & Hsel & _).
  - reflexivity.
  - exact Hd.
  - exact E.
  - exact Ed.
  - reflexivity.
  - exact R38.
  - lia.
  - exists c. split; [exact R38|]. exists arm.2. exact Hsel.
Defined.

End SwitchTheorems.
