(* ===== verification/Coerce.v ===== *)
(** * Type variables and coercion: [src/src/db/query/coerce.c]

    Holes of types are bound in [ctx->type_subst] as row variables are in [row_subst] (see
    [Rows]).  [coerce_structural_ctx] decides whether a value of one type may stand where
    another is expected, binding holes and row variables on its way; [coerce] adds the range
    checks of constants.

    - A node is what this code asks of it: the length of a string literal, what [eval_expr]
      answers ([eval.c], an argument here), and whether the active map of ids has it.
    - The recursive functions take fuel; a cyclic binding of a hole makes the code recurse for
      ever. *)

From stdpp Require Import gmap.
From S2P Require Import Prelude InternPool TypeLayout Rows Values Fold.
Import InternPool TypeLayout Rows Values Fold.

Module Coerce.

#[local] Open Scope N_scope.

(** ** Holes *)

Definition type_var_id (p : InternPool) (idx : IpIndex) : outcome N :=
  let! k := ip_key p idx in match k with IPK_TYPE_VAR id => Ret id | _ => wrong_member end.

(** [hops] left of the 64. *)
Fixpoint type_resolve_hops (hops : nat) (c : Sema) (idx : IpIndex) : outcome IpIndex :=
  match hops with
  | O => Ret idx
  | S hops =>
      if negb (tag_eqb (ip_tag (intern c) idx) IP_TAG_TYPE_VAR) then Ret idx
      else
        let! id := type_var_id (intern c) idx in
        match subst_get (type_subst c) id with
        | None => Ret idx
        | Some next => type_resolve_hops hops c next
        end
  end.

Definition type_resolve (c : Sema) (idx : IpIndex) : outcome IpIndex :=
  if subst_ready (type_subst c) then type_resolve_hops 64 c idx else Ret idx.

Definition type_subst_bind (id bound : N) (c : Sema) : Sema := put_type_subst (subst_put id bound (type_subst c)) c.

Definition intern_key (k : IpKey) (c : Sema) : outcome (IpIndex * Sema) :=
  let! (i, p) := ip_get k (intern c) in Ret (i, put_intern p c).

(** [t], or [k] when its element changed. *)
Definition rebuild (t : IpIndex) (k : IpIndex -> IpKey) (elem : IpIndex) (r : outcome (IpIndex * Sema))
    : outcome (IpIndex * Sema) :=
  let! (e, c) := r in if e =? elem then Ret (t, c) else intern_key (k e) c.

(** The loop over the parameters of a function type. *)
Fixpoint map_params {S} (f : S -> IpIndex -> outcome (IpIndex * S)) (c : S) (ps : list IpIndex)
    : outcome (list IpIndex * S) :=
  match ps with
  | [] => Ret ([], c)
  | t :: ps => let! (t, c) := f c t in let! (ps, c) := map_params f c ps in Ret (t :: ps, c)
  end.

Fixpoint apply_type_subst (fuel : nat) (c : Sema) (t : IpIndex) : outcome (IpIndex * Sema) :=
  match fuel with
  | O => OutOfFuel
  | S fuel =>
      if negb (subst_ready (type_subst c)) then Ret (t, c)
      else if t =? IP_NONE then Ret (t, c)
      else
        let! t := type_resolve c t in
        let! k := ip_key (intern c) t in
        match k with
        | IPK_OPTIONAL_TYPE e => rebuild t IPK_OPTIONAL_TYPE e (apply_type_subst fuel c e)
        | IPK_PTR_TYPE e b => rebuild t (fun e => IPK_PTR_TYPE e b) e (apply_type_subst fuel c e)
        | IPK_SLICE_TYPE e b => rebuild t (fun e => IPK_SLICE_TYPE e b) e (apply_type_subst fuel c e)
        | IPK_MANY_PTR_TYPE e b => rebuild t (fun e => IPK_MANY_PTR_TYPE e b) e (apply_type_subst fuel c e)
        | IPK_ARRAY_TYPE e n => rebuild t (fun e => IPK_ARRAY_TYPE e n) e (apply_type_subst fuel c e)
        | IPK_FN_TYPE ret m cb tb params er =>
            let! (new_ret, c) := apply_type_subst fuel c ret in
            let! (new_params, c) := map_params (apply_type_subst fuel) c params in
            if (new_ret =? ret) && words_eqb new_params params then Ret (t, c)
            else intern_key (IPK_FN_TYPE new_ret m cb tb new_params er) c
        | _ => Ret (t, c)
        end
  end.

(** The pool and the map from old variables to fresh ones; holes are keyed in the high word. *)
Definition Fresh : Type := InternPool * gmap N N.

Definition intern_fresh (k : IpKey) (s : Fresh) : outcome (IpIndex * Fresh) :=
  let! (i, p) := ip_get k s.1 in Ret (i, (p, s.2)).

Definition rebuild_fresh (t : IpIndex) (k : IpIndex -> IpKey) (elem : IpIndex) (r : outcome (IpIndex * Fresh))
    : outcome (IpIndex * Fresh) :=
  let! (e, s) := r in if e =? elem then Ret (t, s) else intern_fresh (k e) s.

Definition hole_key (id : N) : N := N.lor (N.shiftl 1 32) id.

Fixpoint instantiate_type (fuel : nat) (s : Fresh) (t : IpIndex) : outcome (IpIndex * Fresh) :=
  match fuel with
  | O => OutOfFuel
  | S fuel =>
      if t =? IP_NONE then Ret (t, s)
      else
        let! k := ip_key s.1 t in
        match k with
        | IPK_TYPE_VAR id =>
            match bound_in s.2 (hole_key id) with
            | Some cached => Ret (cached, s)
            | None =>
                let! (fresh, p) := ip_fresh_type_var s.1 in
                Ret (fresh, (p, <[hole_key id := fresh]> s.2))
            end
        | IPK_OPTIONAL_TYPE e => rebuild_fresh t IPK_OPTIONAL_TYPE e (instantiate_type fuel s e)
        | IPK_PTR_TYPE e b => rebuild_fresh t (fun e => IPK_PTR_TYPE e b) e (instantiate_type fuel s e)
        | IPK_SLICE_TYPE e b => rebuild_fresh t (fun e => IPK_SLICE_TYPE e b) e (instantiate_type fuel s e)
        | IPK_MANY_PTR_TYPE e b => rebuild_fresh t (fun e => IPK_MANY_PTR_TYPE e b) e (instantiate_type fuel s e)
        | IPK_ARRAY_TYPE e n => rebuild_fresh t (fun e => IPK_ARRAY_TYPE e n) e (instantiate_type fuel s e)
        | IPK_FN_TYPE ret m cb tb params er =>
            let! (new_ret, s) := instantiate_type fuel s ret in
            let! x := instantiate_row fuel s.1 er s.2 in
            let '(new_er, p, map) := x in
            let! (new_params, s) := map_params (instantiate_type fuel) (p, map) params in
            if words_eqb new_params params && (new_ret =? ret) && (new_er =? er) then Ret (t, s)
            else intern_fresh (IPK_FN_TYPE new_ret m cb tb new_params new_er) s
        | _ => Ret (t, s)
        end
  end.

Definition instantiate_fn_for_call_site (fuel : nat) (p : InternPool) (fn_ty : IpIndex) : outcome (IpIndex * InternPool) :=
  if fn_ty =? IP_NONE then Ret (fn_ty, p)
  else if negb (tag_eqb (ip_tag p fn_ty) IP_TAG_FN_TYPE) then Ret (fn_ty, p)
  else let! (result, s) := instantiate_type fuel (p, ∅) fn_ty in Ret (result, s.1).

(** Whether [f] answers true on one of the parameters, in order. *)
Fixpoint any_param (f : IpIndex -> outcome bool) (ps : list IpIndex) : outcome bool :=
  match ps with
  | [] => Ret false
  | t :: ps => let! b := f t in if b : bool then Ret true else any_param f ps
  end.

Fixpoint sig_has_unbound_hole (fuel : nat) (c : Sema) (t : IpIndex) : outcome bool :=
  match fuel with
  | O => OutOfFuel
  | S fuel =>
      if t =? IP_NONE then Ret false
      else
        let! r := type_resolve c t in
        let! k := ip_key (intern c) r in
        match k with
        | IPK_TYPE_VAR _ => Ret true
        | IPK_OPTIONAL_TYPE e | IPK_PTR_TYPE e _ | IPK_SLICE_TYPE e _ | IPK_MANY_PTR_TYPE e _ | IPK_ARRAY_TYPE e _ =>
            sig_has_unbound_hole fuel c e
        | IPK_FN_TYPE ret _ _ _ params _ =>
            let! b := sig_has_unbound_hole fuel c ret in
            if b : bool then Ret true else any_param (sig_has_unbound_hole fuel c) params
        | _ => Ret false
        end
  end.

Definition type_is_concrete (fuel : nat) (c : Sema) (t : IpIndex) : outcome bool :=
  let! b := sig_has_unbound_hole fuel c t in Ret (negb b).

Fixpoint each_param (f : Sema -> IpIndex -> outcome Sema) (c : Sema) (ps : list IpIndex) : outcome Sema :=
  match ps with
  | [] => Ret c
  | t :: ps => let! c := f c t in each_param f c ps
  end.

Fixpoint ground_unbound_type_vars (fuel : nat) (c : Sema) (t : IpIndex) : outcome Sema :=
  match fuel with
  | O => OutOfFuel
  | S fuel =>
      match type_subst c with
      | None => Ret c
      | Some _ =>
          if t =? IP_NONE then Ret c
          else
            let! resolved := type_resolve c t in
            let! k := ip_key (intern c) resolved in
            match k with
            | IPK_TYPE_VAR id => Ret (type_subst_bind id IP_INDEX_ERROR_TYPE c)
            | IPK_OPTIONAL_TYPE e | IPK_PTR_TYPE e _ | IPK_SLICE_TYPE e _ | IPK_MANY_PTR_TYPE e _ | IPK_ARRAY_TYPE e _ =>
                ground_unbound_type_vars fuel c e
            | IPK_FN_TYPE ret _ _ _ params _ =>
                let! c := ground_unbound_type_vars fuel c ret in
                each_param (ground_unbound_type_vars fuel) c params
            | _ => Ret c
            end
      end
  end.

(** ** Default values *)

Fixpoint ip_default_value (fuel : nat) (p : InternPool) (type : IpIndex) : outcome IpIndex :=
  match fuel with
  | O => OutOfFuel
  | S fuel =>
      if type =? IP_NONE then Ret IP_NONE
      else if type =? IP_INDEX_BOOL_TYPE then Ret IP_INDEX_BOOL_FALSE
      else if is_concrete_int type || is_concrete_float type || (type =? IP_INDEX_COMPTIME_INT_TYPE) ||
              (type =? IP_INDEX_COMPTIME_FLOAT_TYPE) then Ret IP_INDEX_ZERO_USIZE
      else
        match ip_tag p type with
        | IP_TAG_OPTIONAL_TYPE => Ret IP_INDEX_NIL_TYPE
        | IP_TAG_ARRAY_TYPE =>
            let! k := ip_key p type in
            match k with IPK_ARRAY_TYPE e _ => ip_default_value fuel p e | _ => wrong_member end
        | _ => Ret IP_NONE
        end
  end.

(** ** Structural coercion *)

Definition elem_of (p : InternPool) (t : IpIndex) : outcome IpIndex :=
  let! k := ip_key p t in
  match k with
  | IPK_PTR_TYPE e _ | IPK_SLICE_TYPE e _ | IPK_MANY_PTR_TYPE e _ | IPK_OPTIONAL_TYPE e | IPK_ARRAY_TYPE e _ => Ret e
  | _ => wrong_member
  end.

(** The variance of one kind of pointer, of the tags [m] and [k] without and with const. *)
Definition drops_mut (m k : IpTag) (p : InternPool) (actual expected : IpIndex) : outcome bool :=
  let at_ := ip_tag p actual in
  let et := ip_tag p expected in
  if (tag_eqb at_ m || tag_eqb at_ k) && (tag_eqb et m || tag_eqb et k) then
    let! ae := elem_of p actual in
    let! ee := elem_of p expected in
    Ret ((ae =? ee) && (negb (tag_eqb at_ k) || tag_eqb et k))
  else Ret false.

(** The element of [expected], of the tags [m] and [k], is that of the array, and const is kept. *)
Definition decays_to (m k : IpTag) (p : InternPool) (arr_elem : IpIndex) (a_const : bool) (expected : IpIndex) : outcome bool :=
  let et := ip_tag p expected in
  if tag_eqb et m || tag_eqb et k then
    let! ee := elem_of p expected in Ret ((arr_elem =? ee) && (negb a_const || tag_eqb et k))
  else Ret false.

(** The first rule that applies. *)
Definition or_else (a b : outcome bool) : outcome bool := let! x := a in if x : bool then Ret true else b.

Definition array_decay (p : InternPool) (actual expected : IpIndex) : outcome bool :=
  let at_ := ip_tag p actual in
  if tag_eqb at_ IP_TAG_PTR_TYPE || tag_eqb at_ IP_TAG_PTR_CONST_TYPE then
    let! arr := elem_of p actual in
    if tag_eqb (ip_tag p arr) IP_TAG_ARRAY_TYPE then
      let! e := elem_of p arr in
      let a_const := tag_eqb at_ IP_TAG_PTR_CONST_TYPE in
      or_else (decays_to IP_TAG_SLICE_TYPE IP_TAG_SLICE_CONST_TYPE p e a_const expected)
              (decays_to IP_TAG_MANY_PTR_TYPE IP_TAG_MANY_PTR_CONST_TYPE p e a_const expected)
    else Ret false
  else Ret false.

Definition pointer_rules (p : InternPool) (actual expected : IpIndex) : outcome bool :=
  or_else (drops_mut IP_TAG_PTR_TYPE IP_TAG_PTR_CONST_TYPE p actual expected)
  (or_else (drops_mut IP_TAG_SLICE_TYPE IP_TAG_SLICE_CONST_TYPE p actual expected)
  (or_else (drops_mut IP_TAG_MANY_PTR_TYPE IP_TAG_MANY_PTR_CONST_TYPE p actual expected)
  (array_decay p actual expected))).

(** Comptime numbers and wider integers. *)
Definition numeric_rules (actual expected : IpIndex) : bool :=
  if (actual =? IP_INDEX_COMPTIME_INT_TYPE) &&
     (is_concrete_int expected || is_concrete_float expected || (expected =? IP_INDEX_COMPTIME_FLOAT_TYPE)) then true
  else if (actual =? IP_INDEX_COMPTIME_FLOAT_TYPE) && is_concrete_float expected then true
  else if is_concrete_int actual && is_concrete_int expected then
    let wider := int_bits actual <? int_bits expected in
    (is_unsigned_int actual && is_unsigned_int expected && wider) ||
    (is_signed_int actual && is_signed_int expected && wider) ||
    (is_unsigned_int actual && is_signed_int expected && wider)
  else false.

(** Effect rows of function types. *)
Definition rows_agree (fuel : nat) (c : Sema) (a e : IpIndex) : outcome (bool * Sema) :=
  if ip_is_error a || ip_is_error e then Ret (true, c)
  else if a =? e then Ret (true, c)
  else
    let! (ok, c) := match row_subst c with Some _ => row_unify fuel c a e | None => Ret (false, c) end in
    if ok : bool then Ret (true, c) else Ret (a =? IP_EMPTY_EFFECT_ROW, c).

(** [f] on the pairs of parameters, while it answers true. *)
Fixpoint all_params (f : Sema -> IpIndex -> IpIndex -> outcome (bool * Sema)) (c : Sema) (es as_ : list IpIndex)
    : outcome (bool * Sema) :=
  match es, as_ with
  | e :: es, a :: as_ =>
      let! (ok, c) := f c e a in if ok : bool then all_params f c es as_ else Ret (false, c)
  | _, _ => Ret (true, c)
  end.

(** The hole rules; [None] when they leave the rules below to decide. *)
Definition hole_rules (again : Sema -> IpIndex -> IpIndex -> outcome (bool * Sema)) (c : Sema) (actual expected : IpIndex)
    : outcome (option (bool * Sema)) :=
  match type_subst c with
  | None => Ret None
  | Some _ =>
      let! ra := type_resolve c actual in
      let! re := type_resolve c expected in
      let rat := ip_tag (intern c) ra in
      let ret := ip_tag (intern c) re in
      if tag_eqb rat IP_TAG_TYPE_VAR || tag_eqb ret IP_TAG_TYPE_VAR then
        if ra =? re then Ret (Some (true, c))
        else if tag_eqb ret IP_TAG_TYPE_VAR then
          let! id := type_var_id (intern c) re in Ret (Some (true, type_subst_bind id ra c))
        else
          let! id := type_var_id (intern c) ra in Ret (Some (true, type_subst_bind id re c))
      else if negb (ra =? actual) || negb (re =? expected) then
        let! r := again c ra re in Ret (Some r)
      else Ret None
  end.

Definition fn_rules (again : Sema -> IpIndex -> IpIndex -> outcome (bool * Sema)) (fuel : nat) (c : Sema)
    (actual expected : IpIndex) : outcome (bool * Sema) :=
  if tag_eqb (ip_tag (intern c) actual) IP_TAG_FN_TYPE && tag_eqb (ip_tag (intern c) expected) IP_TAG_FN_TYPE then
    let! ak := ip_key (intern c) actual in
    let! ek := ip_key (intern c) expected in
    match ak, ek with
    | IPK_FN_TYPE ar am _ _ aps aer, IPK_FN_TYPE er em _ _ eps eer =>
        if (length aps =? length eps)%nat && (am =? em) then
          let! (ok, c) := again c ar er in
          if ok : bool then
            let! (ok, c) := all_params again c eps aps in
            if ok : bool then rows_agree fuel c aer eer else Ret (false, c)
          else Ret (false, c)
        else Ret (false, c)
    | _, _ => wrong_member
    end
  else Ret (false, c).

Fixpoint coerce_structural_ctx (fuel : nat) (c : Sema) (actual expected : IpIndex) : outcome (bool * Sema) :=
  match fuel with
  | O => OutOfFuel
  | S fuel =>
      if (actual =? IP_NONE) || (expected =? IP_NONE) then Ret (true, c)
      else if ip_is_error actual || ip_is_error expected then Ret (true, c)
      else if actual =? expected then Ret (true, c)
      else if actual =? IP_INDEX_NORETURN_TYPE then Ret (true, c)
      else
        let! h := hole_rules (coerce_structural_ctx fuel) c actual expected in
        match h with
        | Some r => Ret r
        | None =>
            let! ok := pointer_rules (intern c) actual expected in
            if ok : bool then Ret (true, c)
            else
              let optional := tag_eqb (ip_tag (intern c) expected) IP_TAG_OPTIONAL_TYPE in
              if (actual =? IP_INDEX_NIL_TYPE) && optional then Ret (true, c)
              else
                let! (ok, c) :=
                  if optional then let! e := elem_of (intern c) expected in coerce_structural_ctx fuel c actual e
                  else Ret (false, c) in
                if ok : bool then Ret (true, c)
                else
                  let! (ok, c) := fn_rules (coerce_structural_ctx fuel) fuel c actual expected in
                  if ok : bool then Ret (true, c) else Ret (numeric_rules actual expected, c)
        end
  end.

Fixpoint unwrap_optional_chain (fuel : nat) (p : InternPool) (t : IpIndex) : outcome IpIndex :=
  match fuel with
  | O => OutOfFuel
  | S fuel =>
      if tag_eqb (ip_tag p t) IP_TAG_OPTIONAL_TYPE then let! e := elem_of p t in unwrap_optional_chain fuel p e
      else Ret t
  end.

(** ** Coercion *)

Inductive CoerceKind : Set := COERCE_OK | COERCE_FAIL_TYPE | COERCE_FAIL_RANGE.

Record Coercion : Set := mkCoercion { kind : CoerceKind; range_lo : option string; range_hi : option string }.

(** What is asked of a node. *)
Record Node : Type := mkNode {
  string_literal_len : option N;
  eval_expr : Sema -> outcome (TypedValue * Sema);
  mapped : bool (** [decl_ast_id_lookup] has it, or [ctx->decl_ast_map] is NULL *)
}.

Definition coerce_ok : Coercion := mkCoercion COERCE_OK None None.
Definition fail_type : Coercion := mkCoercion COERCE_FAIL_TYPE None None.

(** A string literal for an array of bytes. *)
Definition string_buffer (c : Sema) (node : option Node) (actual expected : IpIndex) : outcome (option Coercion) :=
  match node with
  | None => Ret None
  | Some node =>
      if (actual =? IP_INDEX_STRING_SLICE_TYPE) && tag_eqb (ip_tag (intern c) expected) IP_TAG_ARRAY_TYPE then
        let! k := ip_key (intern c) expected in
        match k with
        | IPK_ARRAY_TYPE e size =>
            if e =? IP_INDEX_U8_TYPE then
              match string_literal_len node with
              | Some len => Ret (Some (if len <=? size then coerce_ok else fail_type))
              | None => Ret None
              end
            else Ret None
        | _ => wrong_member
        end
      else Ret None
  end.

Definition has_value (v : IpIndex) : bool := negb (v =? IP_NONE) && negb (ip_is_error v).

Definition range_check (p : InternPool) (v target : IpIndex) : outcome Coercion :=
  let! r := tv_fits_in p v target in
  let '(fits, lo, hi) := r in
  Ret (if fits : bool then coerce_ok else mkCoercion COERCE_FAIL_RANGE lo hi).

Definition coerce (fuel : nat) (c : Sema) (node : option Node) (actual expected : IpIndex) : outcome (Coercion * Sema) :=
  let! s := string_buffer c node actual expected in
  match s with
  | Some r => Ret (r, c)
  | None =>
      let! (ok, c) := coerce_structural_ctx fuel c actual expected in
      let! range_target := unwrap_optional_chain fuel (intern c) expected in
      if ok : bool then
        match node with
        | Some node =>
            if ((actual =? IP_INDEX_COMPTIME_INT_TYPE) || (actual =? IP_INDEX_COMPTIME_FLOAT_TYPE)) &&
               (is_concrete_int range_target || is_concrete_float range_target) then
              let! (tv, c) := eval_expr node c in
              if has_value (value tv) then
                let! r := range_check (intern c) (value tv) range_target in Ret (r, c)
              else Ret (coerce_ok, c)
            else Ret (coerce_ok, c)
        | None => Ret (coerce_ok, c)
        end
      else
        match node with
        | Some node =>
            if is_concrete_int actual && is_concrete_int range_target then
              let! (tv, c) := eval_expr node c in
              if has_value (value tv) && tag_eqb (ip_tag (intern c) (value tv)) IP_TAG_INT_VALUE then
                let! r := range_check (intern c) (value tv) range_target in Ret (r, c)
              else Ret (fail_type, c)
            else Ret (fail_type, c)
        | None => Ret (fail_type, c)
        end
  end.

Definition msg_type : string := "expected type '%T', found '%T'".
Definition msg_float : string := "type '%T' cannot represent float value '%s'".
Definition msg_int_range : string := "type '%T' cannot represent integer value '%s' (range %s..%s)".
Definition msg_int : string := "type '%T' cannot represent integer value '%s'".

(** The anchor of the diagnostic, of which only the assert is modelled. *)
Definition anchor_node (node : option Node) : outcome unit :=
  match node with
  | Some node => oassert (mapped node) "coerce_or_diag: node present in sema context but missing from decl_ast_map"
  | None => Ret tt
  end.

Definition coerce_or_diag (fuel : nat) (c : Sema) (node : option Node) (actual expected : IpIndex) : outcome (bool * Sema) :=
  if ip_is_error actual || ip_is_error expected then Ret (true, c)
  else
    let! (r, c) := coerce fuel c node actual expected in
    match kind r with
    | COERCE_OK => Ret (true, c)
    | COERCE_FAIL_TYPE => let! _ := anchor_node node in Ret (false, db_emit msg_type c)
    | COERCE_FAIL_RANGE =>
        let! _ := anchor_node node in
        let! (vidx, c) :=
          match node with
          | Some node => let! (tv, c) := eval_expr node c in Ret (value tv, c)
          | None => Ret (IP_NONE, c)
          end in
        if has_value vidx && tag_eqb (ip_tag (intern c) vidx) IP_TAG_FLOAT_VALUE then Ret (false, db_emit msg_float c)
        else
          match range_lo r, range_hi r with
          | Some _, Some _ => Ret (false, db_emit msg_int_range c)
          | _, _ => Ret (false, db_emit msg_int c)
          end
    end.

End Coerce.
