(* ===== verification/TypeTrees.v ===== *)
(** * Types as trees under a substitution

    [ty_den p m n t τ]: read through the bindings [m] of holes, the index [t] of the pool [p]
    is the type tree [τ], at most [n] deep counting bindings.  [apply_type_subst] answers an
    index that is [τ] without any binding ([apply_den]), and such an index is unique
    ([plain_inj]). *)

From stdpp Require Import gmap.
From S2P Require Import Prelude Arena InternPool InternFacts InternGet InternApi Rows RowsFacts Coerce.
Import Arena InternPool InternFacts InternGet InternApi Rows RowsFacts RowsUnify Coerce.

Module TypeTrees.

#[local] Open Scope N_scope.

Inductive Ty : Set :=
  | TyAtom (i : IpIndex)
  | TyHole (id : N)
  | TyOptional (elem : Ty)
  | TyPtr (elem : Ty) (is_const : bool)
  | TySlice (elem : Ty) (is_const : bool)
  | TyManyPtr (elem : Ty) (is_const : bool)
  | TyArray (elem : Ty) (size : N)
  | TyFn (ret : Ty) (modifiers comptime_bits typevalued_bits : N) (params : list Ty) (effect_row : IpIndex).

(** A key without types inside that a substitution reaches. *)
Definition atomic (k : IpKey) : bool :=
  match k with
  | IPK_TYPE_VAR _ | IPK_OPTIONAL_TYPE _ | IPK_PTR_TYPE _ _ | IPK_SLICE_TYPE _ _ | IPK_MANY_PTR_TYPE _ _
  | IPK_ARRAY_TYPE _ _ | IPK_FN_TYPE _ _ _ _ _ _ => false
  | _ => true
  end.

(** The keys with one element, and their trees. *)
Inductive wraps : IpKey -> IpIndex -> (IpIndex -> IpKey) -> (Ty -> Ty) -> Prop :=
  | wraps_optional e : wraps (IPK_OPTIONAL_TYPE e) e IPK_OPTIONAL_TYPE TyOptional
  | wraps_ptr e b : wraps (IPK_PTR_TYPE e b) e (fun e => IPK_PTR_TYPE e b) (fun τ => TyPtr τ b)
  | wraps_slice e b : wraps (IPK_SLICE_TYPE e b) e (fun e => IPK_SLICE_TYPE e b) (fun τ => TySlice τ b)
  | wraps_many e b : wraps (IPK_MANY_PTR_TYPE e b) e (fun e => IPK_MANY_PTR_TYPE e b) (fun τ => TyManyPtr τ b)
  | wraps_array e n : wraps (IPK_ARRAY_TYPE e n) e (fun e => IPK_ARRAY_TYPE e n) (fun τ => TyArray τ n).

Section Den.
Context (p : InternPool) (m : Subst).

Inductive ty_den : nat -> IpIndex -> Ty -> Prop :=
  | td_none n : ty_den n IP_NONE (TyAtom IP_NONE)
  | td_atom n t k : t <> IP_NONE -> reads p t k -> atomic k = true -> ty_den n t (TyAtom t)
  | td_hole n t id : reads p t (IPK_TYPE_VAR id) -> subst_get m id = None -> ty_den n t (TyHole id)
  | td_bound n t id j τ : reads p t (IPK_TYPE_VAR id) -> subst_get m id = Some j -> ty_den n j τ -> ty_den (S n) t τ
  | td_wrap n t k e mk wrap τ : reads p t k -> wraps k e mk wrap -> ty_den n e τ -> ty_den (S n) t (wrap τ)
  | td_fn n t ret mo cb tb ps er τr τs : reads p t (IPK_FN_TYPE ret mo cb tb ps er) ->
      ty_den n ret τr -> Forall2 (ty_den n) ps τs -> ty_den (S n) t (TyFn τr mo cb tb τs er).

End Den.

(** Without bindings. *)
Definition plain (p : InternPool) : nat -> IpIndex -> Ty -> Prop := ty_den p None.

Fixpoint ty_size (τ : Ty) : nat :=
  match τ with
  | TyAtom _ | TyHole _ => 1
  | TyOptional τ | TyPtr τ _ | TySlice τ _ | TyManyPtr τ _ | TyArray τ _ => S (ty_size τ)
  | TyFn ret _ _ _ params _ => S (ty_size ret + list_sum (map ty_size params))
  end.

(** The bytes of the payloads, at most. *)
Fixpoint ty_cost (τ : Ty) : nat :=
  match τ with
  | TyAtom _ | TyHole _ => 0
  | TyOptional τ | TyPtr τ _ | TySlice τ _ | TyManyPtr τ _ | TyArray τ _ => 36 + ty_cost τ
  | TyFn ret _ _ _ params _ => 36 + 4 * length params + (ty_cost ret + list_sum (map ty_cost params))
  end.

Lemma wraps_size k e mk wrap τ : wraps k e mk wrap ->
  ty_size (wrap τ) = S (ty_size τ) /\ ty_cost (wrap τ) = (36 + ty_cost τ)%nat.
Proof. by destruct 1. Qed.

Lemma wraps_compound k e mk wrap : wraps k e mk wrap -> compound k = true /\ k = mk e /\
  (forall e', wraps (mk e') e' mk wrap) /\ (forall e', key_cost (mk e') <= 36 /\ key_ok (mk e') /\ norm (mk e') = mk e').
Proof.
  destruct 1; (split; [done|]); (split; [done|]); (split; [intros; constructor|]);
    intros e'; (split; [vm_compute; discriminate|by split]).
Qed.

Lemma ty_den_mono p m n t τ : ty_den p m n t τ -> forall n', (n <= n')%nat -> ty_den p m n' t τ.
Proof.
  revert t τ. induction n as [n IH] using lt_wf_ind. intros t τ H n' Hn.
  inversion H; subst; try (destruct n' as [|n']; [lia|]).
  - constructor.
  - by eapply td_atom.
  - by eapply td_hole.
  - eapply td_bound; [done..|]. eapply IH; [|done|]; lia.
  - eapply td_wrap; [done..|]. eapply IH; [|done|]; lia.
  - eapply td_fn; [done|eapply IH; [|done|]; lia|]. eapply Forall2_impl; [done|]. intros x y Hxy. eapply IH; [|done|]; lia.
Qed.

Lemma ty_den_extends p p' m n t τ : extends p p' -> ty_den p m n t τ -> ty_den p' m n t τ.
Proof.
  intros Hx. revert t τ. induction n as [n IH] using lt_wf_ind. intros t τ H. inversion H; subst.
  - constructor.
  - eapply td_atom; [done|by eapply reads_extends|done].
  - eapply td_hole; [by eapply reads_extends|done].
  - eapply td_bound; [by eapply reads_extends|done|]. eapply IH; [lia|done].
  - eapply td_wrap; [by eapply reads_extends|done|]. eapply IH; [lia|done].
  - eapply td_fn; [by eapply reads_extends|eapply IH; [lia|done]|]. eapply Forall2_impl; [done|].
    intros x y Hxy. eapply IH; [lia|done].
Qed.

(** ** One index per tree *)

Lemma wraps_inj k1 e1 mk1 w1 k2 e2 mk2 w2 τ1 τ2 : wraps k1 e1 mk1 w1 -> wraps k2 e2 mk2 w2 -> w1 τ1 = w2 τ2 ->
  mk1 = mk2 /\ τ1 = τ2.
Proof. intros [] [] [=]; subst; done. Qed.

Lemma wraps_tree k e mk wrap τ : wraps k e mk wrap ->
  (forall i, wrap τ <> TyAtom i) /\ (forall id, wrap τ <> TyHole id) /\ (forall r a b c ps er, wrap τ <> TyFn r a b c ps er).
Proof. by destruct 1. Qed.

Lemma plain_inj p : pool_ok p -> forall n t t' τ n', plain p n t τ -> plain p n' t' τ -> t = t'.
Proof.
  intros Hp. induction n as [n IH] using lt_wf_ind. intros t t' τ n' H H'. unfold plain in *.
  assert (Hnb : forall id j, subst_get None id <> Some j) by done.
  inversion H as [|? ? ? _ _ _|? ? id Hr _|? ? ? ? ? _ Hg|k0 ? k e mk wrap τ0 Hr Hw Hd|k0 ? ret mo cb tb ps er τr τs Hr Hret Hps]; subst;
    try (by exfalso; eapply Hnb).
  - inversion H'; subst; try done; try (by exfalso; eapply Hnb).
    match goal with W : wraps _ _ _ _, E : _ = TyAtom _ |- _ => by destruct (proj1 (wraps_tree _ _ _ _ _ W) _ E) end.
  - inversion H'; subst; try done; try (by exfalso; eapply Hnb).
    match goal with W : wraps _ _ _ _, E : _ = TyAtom _ |- _ => by destruct (proj1 (wraps_tree _ _ _ _ _ W) _ E) end.
  - inversion H'; subst; try (by exfalso; eapply Hnb).
    + by eapply reads_inj; [exact Hp| |exact Hr|eassumption].
    + match goal with W : wraps _ _ _ _, E : _ = TyHole _ |- _ => by destruct (proj1 (proj2 (wraps_tree _ _ _ _ _ W)) _ E) end.
  - destruct (wraps_tree k e mk wrap τ0 Hw) as (Hn1 & Hn2 & Hn3). remember (wrap τ0) as τ eqn:Eτ.
    inversion H' as [|? ? ? _ _ _|? ? id Hr' _|? ? ? ? ? _ Hg|k1 ? k' e' mk' wrap' τ1 Hr' Hw' Hd'|]; subst; try (by exfalso; eapply Hnb);
      try (by exfalso; eapply Hn1); try (by exfalso; eapply Hn2); try (by exfalso; eapply Hn3).
    match goal with E : wrap' _ = wrap _ |- _ => destruct (wraps_inj _ _ _ _ _ _ _ _ _ _ Hw' Hw E) as [-> ->] end.
    assert (e = e') as -> by (eapply (IH k0); [lia|done|done]).
    destruct (wraps_compound _ _ _ _ Hw) as (Hc & -> & _). destruct (wraps_compound _ _ _ _ Hw') as (_ & -> & _).
    by eapply reads_inj; [exact Hp| |exact Hr|exact Hr'].
  - inversion H' as [|? ? ? _ _ _|? ? id Hr' _|? ? ? ? ? _ Hg|? ? ? ? ? ? ? ? Hw'|k1 ? ret' ? ? ? ps' ? ? ? Hr' Hret' Hps']; subst;
      try (by exfalso; eapply Hnb).
    { match goal with E : _ = TyFn _ _ _ _ _ _ |- _ => by destruct (proj2 (proj2 (wraps_tree _ _ _ _ _ Hw')) _ _ _ _ _ _ E) end. }
    assert (ret = ret') as <- by (eapply (IH k0); [lia|done|done]).
    assert (ps = ps') as <-.
    { clear -IH Hps Hps'. revert ps' Hps'. induction Hps as [|x y ps τs Hx _ IHp]; intros ps' Hps'; inversion Hps' as [|x' y' l l' Hx' Hl]; subst; [done|].
      f_equal; [|by apply IHp]. eapply (IH k0); [lia|exact Hx|exact Hx']. }
    by eapply reads_inj; [exact Hp| |exact Hr|exact Hr'].
Qed.

(** ** Applying a substitution *)

Lemma subst_get_nonzero m id j : subst_get m id = Some j -> j <> 0.
Proof.
  unfold subst_get, bound_in. destruct m as [[m|]|]; [|done..]. destruct (m !! id) as [v|]; [|done].
  destruct (N.eqb_spec v 0) as [->|H]; [done|]. by intros [= <-].
Qed.

Lemma hole_tag p t id : pool_ok p -> reads p t (IPK_TYPE_VAR id) -> ip_tag p t = IP_TAG_TYPE_VAR /\ t <> IP_NONE.
Proof.
  intros Hp Hr. destruct (reads_ok p t _ Hp Hr eq_refl) as (_ & _ & Ht & Hlow). split; [done|].
  intros ->. by vm_compute in Hlow.
Qed.

Lemma not_hole p t k : pool_ok p -> reads p t k -> tag_for_key k <> IP_TAG_TYPE_VAR -> ip_tag p t <> IP_TAG_TYPE_VAR.
Proof.
  intros Hp Hr Hk Ht. destruct (tag_key p t Hp) as (k' & Hr' & E); [congruence..|].
  pose proof (reads_fun _ _ _ _ Hr Hr') as ->. congruence.
Qed.

Lemma resolve_shape c hops t : ip_tag (intern c) t <> IP_TAG_TYPE_VAR -> type_resolve_hops hops c t = Ret t.
Proof. intros Ht. destruct hops; [done|]. simpl. unfold tag_eqb. by rewrite bool_decide_false. Qed.

(** The chain of bound holes at the top of a type. *)
Lemma resolve_ty_den c n : pool_ok (intern c) -> forall t τ hops, t <> IP_NONE -> (n <= hops)%nat ->
  ty_den (intern c) (type_subst c) n t τ ->
  exists j m, type_resolve_hops hops c t = Ret j /\ (m <= n)%nat /\ j <> IP_NONE /\
    ty_den (intern c) (type_subst c) m j τ /\
    (forall id, reads (intern c) j (IPK_TYPE_VAR id) -> subst_get (type_subst c) id = None).
Proof.
  intros Hp. induction n as [n IH] using lt_wf_ind. intros t τ hops Ht Hn H.
  assert (Hstop : forall k, reads (intern c) t k -> tag_for_key k <> IP_TAG_TYPE_VAR ->
    type_resolve_hops hops c t = Ret t /\ forall id, reads (intern c) t (IPK_TYPE_VAR id) -> subst_get (type_subst c) id = None).
  { intros k Hr Hk. split; [apply resolve_shape; by eapply not_hole|].
    intros id Hr'. pose proof (reads_fun _ _ _ _ Hr Hr') as ->. done. }
  inversion H as [|? ? k Hne Hr Ha|? ? id Hr Hg|n0 ? id j ? Hr Hg Hd|n0 ? k e mk wrap τ0 Hr Hw Hd|n0 ? ret mo cb tb ps er τr τs Hr Hret Hps];
    subst; [done|..].
  - destruct (Hstop k Hr) as [E Hid]; [by destruct k; try destruct is_const|]. by exists t, n.
  - exists t, n. destruct (hole_tag _ _ _ Hp Hr) as [Htag _].
    split; [|split; [done|split; [done|split; [done|intros id' Hr'; pose proof (reads_fun _ _ _ _ Hr Hr') as [= <-]; done]]]].
    destruct hops; [done|]. simpl. rewrite Htag. change (tag_eqb IP_TAG_TYPE_VAR IP_TAG_TYPE_VAR) with true. cbn [negb].
    unfold type_var_id. destruct Hr as [_ ->]. cbn [obind]. by rewrite Hg.
  - destruct hops as [|hops]; [lia|]. destruct (hole_tag _ _ _ Hp Hr) as [Htag _].
    destruct (IH n0 ltac:(lia) j τ hops) as (j' & m & E & Hm & Hj & Hd' & Hid); [by eapply subst_get_nonzero|lia|done|].
    exists j', m. split; [|split; [lia|done]]. simpl. rewrite Htag. change (tag_eqb IP_TAG_TYPE_VAR IP_TAG_TYPE_VAR) with true.
    cbn [negb]. unfold type_var_id. destruct Hr as [_ ->]. cbn [obind]. by rewrite Hg.
  - destruct (Hstop k Hr) as [E Hid]; [by destruct Hw as [|? []|? []|? []|]|]. by exists t, (S n0).
  - destruct (Hstop _ Hr) as [E Hid]; [done|]. by exists t, (S n0).
Qed.

(** The same bindings over a pool that has grown. *)
Definition tree_ok (c c' : Sema) (n : nat) (t : IpIndex) (τ : Ty) : Prop :=
  grows c c' /\ plain (intern c') n t τ.

Definition tree_room (size cost : nat) (k b : N) (c : Sema) : Prop :=
  room (k + N.of_nat size) (N.of_nat cost + b) (intern c).

Lemma intern_key_ok c k n b : pool_ok (intern c) -> key_ok k -> compound k = true -> norm k = k ->
  room (n + 1) (key_cost k + b) (intern c) ->
  exists i c', intern_key k c = Ret (i, c') /\ grows c c' /\ room n b (intern c') /\ reads (intern c') i k.
Proof.
  intros Hp Hok Hc Hn Hr. destruct (intern_get_ok (intern c) k n b Hp Hok Hc Hr) as (i & p' & E & Hp' & Hr' & Hx & Hrd).
  exists i, (put_intern p' c). unfold intern_key. rewrite E. cbn [obind]. split; [done|]. split; [by split|].
  split; [done|]. by rewrite <- Hn.
Qed.

Lemma grows_den c c' m n t τ : grows c c' -> ty_den (intern c) m n t τ -> ty_den (intern c') m n t τ.
Proof. intros Hg. apply ty_den_extends, Hg. Qed.

(** What applying the substitution comes to. *)
Definition applies (f : Sema -> IpIndex -> outcome (IpIndex * Sema)) (c : Sema) (n : nat) (t : IpIndex) (τ : Ty) : Prop :=
  forall k b, tree_room (ty_size τ) (ty_cost τ) k b c ->
  exists t' c', f c t = Ret (t', c') /\ tree_ok c c' n t' τ /\ room k b (intern c').

Lemma map_params_ok f n m : (forall c t τ, pool_ok (intern c) -> type_subst c = m -> ty_den (intern c) m n t τ -> applies f c n t τ) ->
  forall ps τs c k b, pool_ok (intern c) -> type_subst c = m -> Forall2 (ty_den (intern c) m n) ps τs ->
  tree_room (list_sum (map ty_size τs)) (list_sum (map ty_cost τs)) k b c ->
  exists ps' c', map_params f c ps = Ret (ps', c') /\ grows c c' /\ Forall2 (plain (intern c') n) ps' τs /\ room k b (intern c').
Proof.
  intros Hf. induction ps as [|t ps IH]; intros τs c k b Hp Hm H Hr;
    inversion H as [|? τ ? τs' Ht Hps]; subst τs; clear H.
  { exists [], c. split; [done|]. split; [by apply grows_refl|]. split; [constructor|].
    eapply room_le; [exact Hr|simpl; lia|simpl; lia]. }
  change (list_sum (map ty_size (τ :: τs'))) with (ty_size τ + list_sum (map ty_size τs'))%nat in Hr.
  change (list_sum (map ty_cost (τ :: τs'))) with (ty_cost τ + list_sum (map ty_cost τs'))%nat in Hr.
  unfold tree_room in Hr. cbn [map_params].
  destruct (Hf c t τ Hp Hm Ht (k + N.of_nat (list_sum (map ty_size τs'))) (N.of_nat (list_sum (map ty_cost τs')) + b))
    as (t' & c1 & -> & [Hg1 Hd1] & Hr1).
  { eapply room_le; [exact Hr|lia|lia]. }
  cbn [obind]. destruct (grows_subst c c1 Hg1) as (_ & Em & _).
  destruct (IH τs' c1 k b) as (ps' & c2 & -> & Hg2 & Hd2 & Hr2); [apply Hg1|congruence| |done|].
  { eapply Forall2_impl; [exact Hps|]. intros ? ?. by apply grows_den. }
  cbn [obind]. exists (t' :: ps'), c2. split; [done|]. split; [by eapply grows_trans|]. split; [|done].
  constructor; [by eapply grows_den|done].
Qed.

(** A type whose element changed, or not. *)
Lemma rebuild_ok c c1 n t k e e' mk wrap τ kk b : pool_ok (intern c) -> grows c c1 -> reads (intern c) t k ->
  wraps k e mk wrap -> plain (intern c1) n e' τ -> room (kk + 1) (36 + b) (intern c1) ->
  exists t' c', rebuild t mk e (Ret (e', c1)) = Ret (t', c') /\ tree_ok c c' (S n) t' (wrap τ) /\ room kk b (intern c').
Proof.
  intros Hp Hg Hr Hw Hd Hroom. destruct (wraps_compound k e mk wrap Hw) as (Hc & -> & Hw' & Hk).
  unfold rebuild. cbn [obind]. destruct (N.eqb_spec e' e) as [->|Hne].
  - exists t, c1. split; [done|]. split; [|eapply room_le; [exact Hroom|lia|lia]]. split; [done|].
    eapply td_wrap; [eapply reads_extends; [apply Hg|exact Hr]|exact Hw|exact Hd].
  - destruct (Hk e') as (Hcost & Hok & Hnorm).
    destruct (intern_key_ok c1 (mk e') kk b (proj1 (proj2 Hg)) Hok) as (i & c2 & E & Hg2 & Hr2 & Hi);
      [by destruct (Hw' e')|done|eapply room_le; [exact Hroom|lia|lia]|].
    exists i, c2. split; [exact E|]. split; [|done]. split; [by eapply grows_trans|].
    eapply td_wrap; [exact Hi|apply Hw'|by eapply grows_den].
Qed.

(** [apply_type_subst] answers the tree that the type denotes, without bindings. *)
Lemma apply_den n : (n <= 64)%nat -> forall fuel c t τ, (n < fuel)%nat -> pool_ok (intern c) ->
  subst_ready (type_subst c) = true -> ty_den (intern c) (type_subst c) n t τ ->
  applies (apply_type_subst fuel) c n t τ.
Proof.
  induction n as [n IH] using lt_wf_ind. intros Hn fuel c t τ Hf Hp Hready H k b Hr.
  destruct fuel as [|fuel]; [lia|]. cbn [apply_type_subst]. rewrite Hready. cbn [negb].
  destruct (N.eqb_spec t IP_NONE) as [->|Ht].
  { exists IP_NONE, c. split; [done|]. split; [|eapply room_le; [exact Hr|lia|lia]]. split; [by apply grows_refl|].
    inversion H as [|? ? ? Hne|? ? ? Hrd|? ? ? ? ? Hrd|? ? ? ? ? ? ? Hrd Hw|? ? ? ? ? ? ? ? ? ? Hrd]; subst;
      try done; try constructor; exfalso; destruct (reads_ok _ _ _ Hp Hrd) as (_ & _ & _ & Hlow);
      try done; try (by destruct (wraps_compound _ _ _ _ Hw)); by vm_compute in Hlow. }
  unfold type_resolve. rewrite Hready.
  destruct (resolve_ty_den c n Hp t τ 64 Ht Hn H) as (j & m & -> & Hm & Hj & Hd & Hid). cbn [obind]. clear H Ht t.
  assert (Hroom0 : room k b (intern c)) by (eapply room_le; [exact Hr|lia|lia]).
  inversion Hd as [|? ? q Hne Hrd Ha|? ? id Hrd Hg|n0 ? id i ? Hrd Hg Hd'|n0 ? q e mk wrap τ0 Hrd Hw Hd'|n0 ? ret mo cb tb ps er τr τs Hrd Hret Hps];
    subst; [done|..].
  - destruct Hrd as [Hl Hk]. rewrite Hk. cbn [obind].
    exists j, c. split; [by destruct q|]. split; [|done]. split; [by apply grows_refl|]. by eapply td_atom.
  - destruct Hrd as [Hl Hk]. rewrite Hk. cbn [obind].
    exists j, c. split; [done|]. split; [|done]. split; [by apply grows_refl|]. by apply td_hole.
  - exfalso. rewrite (Hid id Hrd) in Hg. done.
  - destruct (wraps_size _ _ _ _ τ0 Hw) as [Esize Ecost]. rewrite Esize, Ecost in Hr. unfold tree_room in Hr.
    pose proof (proj2 Hrd) as Hk. rewrite Hk. cbn [obind].
    destruct (IH n0 ltac:(lia) ltac:(lia) fuel c e τ0 ltac:(lia) Hp Hready Hd' (k + 1) (36 + b)) as (e' & c1 & E & [Hg1 Hd1] & Hr1).
    { eapply room_le; [exact Hr|lia|lia]. }
    destruct (rebuild_ok c c1 n0 j q e e' mk wrap τ0 k b Hp Hg1 Hrd Hw Hd1 Hr1) as (t' & c' & E' & [Hg' Hd''] & Hr').
    exists t', c'. split; [|split; [split; [done|eapply ty_den_mono; [exact Hd''|lia]]|done]].
    destruct Hw; rewrite E; exact E'.
  - rewrite (proj2 Hrd). cbn [obind]. cbn [ty_size ty_cost] in Hr. unfold tree_room in Hr.
    set (sz := list_sum (map ty_size τs)) in *. set (ct := list_sum (map ty_cost τs)) in *.
    destruct (IH n0 ltac:(lia) ltac:(lia) fuel c ret τr ltac:(lia) Hp Hready Hret
      (k + 1 + N.of_nat sz) (N.of_nat ct + (36 + 4 * N.of_nat (length τs) + b))) as (r' & c1 & E & [Hg1 Hd1] & Hr1).
    { eapply room_le; [exact Hr|lia|lia]. }
    rewrite E. cbn [obind]. destruct (grows_subst c c1 Hg1) as (_ & Em & _).
    destruct (map_params_ok (apply_type_subst fuel) n0 (type_subst c)) with (ps := ps) (τs := τs) (c := c1)
      (k := k + 1) (b := 36 + 4 * N.of_nat (length τs) + b) as (ps' & c2 & E2 & Hg2 & Hd2 & Hr2).
    + intros c0 t0 τ0 Hp0 Em0 Hd0. rewrite <- Em0 in Hd0. apply (IH n0); [lia|lia|lia|done|by rewrite Em0|done].
    + apply Hg1.
    + done.
    + eapply Forall2_impl; [exact Hps|]. intros ? ?. by apply grows_den.
    + exact Hr1.
    + rewrite E2. cbn [obind]. pose proof (grows_trans _ _ _ Hg1 Hg2) as Hg.
      assert (Hfin : forall i c', grows c c' -> grows c2 c' -> reads (intern c') i (IPK_FN_TYPE r' mo cb tb ps' er) ->
        tree_ok c c' n i (TyFn τr mo cb tb τs er)).
      { intros i c' Hgc Hgc2 Hi. split; [done|]. eapply (ty_den_mono _ _ (S n0)); [|lia]. eapply td_fn; [exact Hi| |].
        - eapply grows_den; [exact (grows_trans _ _ _ Hg2 Hgc2)|exact Hd1].
        - eapply Forall2_impl; [exact Hd2|]. intros ? ?. by apply grows_den. }
      destruct (reads_ok _ _ _ Hp Hrd eq_refl) as (Hok & Hnorm & _).
      assert (Hlen : length ps' = length ps) by (rewrite (Forall2_length _ _ _ Hd2); symmetry; exact (Forall2_length _ _ _ Hps)).
      destruct ((r' =? ret) && words_eqb ps' ps) eqn:Esame.
      * apply andb_true_iff in Esame as [->%N.eqb_eq ->%words_eqb_eq]. exists j, c2. split; [done|].
        split; [|eapply room_le; [exact Hr2|lia|lia]]. apply Hfin; [done|apply grows_refl, Hg|].
        eapply reads_extends; [apply Hg|exact Hrd].
      * destruct (intern_key_ok c2 (IPK_FN_TYPE r' mo cb tb ps' er) k b) as (i & c' & E3 & Hg3 & Hr3 & Hi).
        { apply Hg. }
        { simpl in Hok |- *. by rewrite Hlen. }
        { done. }
        { cbn [norm] in Hnorm |- *. injection Hnorm as ->. done. }
        { eapply room_le; [exact Hr2|lia|]. unfold key_cost. simpl. rewrite (Forall2_length _ _ _ Hd2). lia. }
        exists i, c'. split; [exact E3|]. split; [|exact Hr3]. apply Hfin; [by eapply grows_trans|done|done].
Qed.

End TypeTrees.
