(* ===== verification/CoerceTheorems.v ===== *)
(** * Coercion: theorems *)

From stdpp Require Import gmap.
From S2P Require Import Prelude Arena InternPool InternFacts InternGet InternTheorems InternApi TypeLayout Rows RowsFacts Values Fold ValuesTheorems Coerce TypeTrees.
Import Arena InternPool InternFacts InternInv InternGet InternTheorems InternApi TypeLayout Rows RowsFacts Values Fold ValuesFacts Coerce TypeTrees SamplePools.

Module CoerceTheorems.

#[local] Open Scope N_scope.

(** ** Integer types *)

Lemma low_tag p t : pool_ok p -> 1 <= t < FIRST_COMPOUND ->
  ip_tag p t = IP_TAG_PRIMITIVE_TYPE \/ ip_tag p t = IP_TAG_RESERVED_VALUE.
Proof.
  intros [[g I] _] Ht. rewrite (proj1 (low_reads p g t I (proj2 Ht))). destruct t as [|q]; [lia|].
  destruct (N.pos q <=? 21); tauto.
Qed.

(** The numbers of an integer type: what it can hold. *)
Definition included (a e : IpIndex) : Prop := (int_min e <= int_min a /\ int_max a <= int_max e)%Z.

(** Wider, in signedness and bits. *)
Definition widens (a e : IpIndex) : bool :=
  (is_unsigned_int a || negb (is_unsigned_int e)) && (int_bits a <? int_bits e).

Definition int_types : list N := [2; 3; 4; 5; 6; 7; 8; 9; 12; 13].

Lemma concrete_int_listed t : is_concrete_int t = true -> In t int_types.
Proof.
  unfold is_concrete_int, in_mask. intros [H%N.ltb_lt Hc]%andb_true_iff. rewrite <- (N2Nat.id t) in *.
  assert (Hn : (N.to_nat t < 32)%nat) by lia. revert Hc Hn. generalize (N.to_nat t). clear.
  intros n Hc Hn. do 32 (destruct n as [|n]; [first [discriminate Hc|vm_compute; tauto]|]). lia.
Qed.

Definition includedb (a e : IpIndex) : bool := ((int_min e <=? int_min a) && (int_max a <=? int_max e))%Z.

Lemma includedb_spec a e : includedb a e = true <-> included a e.
Proof. unfold includedb, included. by rewrite andb_true_iff, !Z.leb_le. Qed.

(** One type holds every number of another and some more exactly when it is wider. *)
Lemma widens_included a e : is_concrete_int a = true -> is_concrete_int e = true ->
  widens a e = true <-> included a e /\ ~ included e a.
Proof.
  intros Ha%concrete_int_listed He%concrete_int_listed.
  assert (Hall : forallb (fun a => forallb (fun e => Bool.eqb (widens a e) (includedb a e && negb (includedb e a))) int_types) int_types = true)
    by by vm_compute.
  rewrite forallb_forall in Hall. specialize (Hall a Ha). rewrite forallb_forall in Hall. specialize (Hall e He).
  apply Bool.eqb_prop in Hall. rewrite Hall, andb_true_iff, negb_true_iff, <- !includedb_spec, not_true_iff_false. done.
Qed.

Lemma numeric_rules_int a e : is_concrete_int a = true -> is_concrete_int e = true -> numeric_rules a e = widens a e.
Proof.
  intros Ha%concrete_int_listed He%concrete_int_listed.
  assert (Hall : forallb (fun a => forallb (fun e => Bool.eqb (numeric_rules a e) (widens a e)) int_types) int_types = true)
    by by vm_compute.
  rewrite forallb_forall in Hall. specialize (Hall a Ha). rewrite forallb_forall in Hall. specialize (Hall e He).
  by apply Bool.eqb_prop in Hall.
Qed.

Lemma listed_low t : In t int_types -> 1 <= t < FIRST_COMPOUND /\ (t =? IP_NONE) = false /\ ip_is_error t = false /\
  (t =? IP_INDEX_NORETURN_TYPE) = false /\ (t =? IP_INDEX_NIL_TYPE) = false /\ t <= 21 /\
  (t =? IP_INDEX_COMPTIME_INT_TYPE) = false /\ (t =? IP_INDEX_COMPTIME_FLOAT_TYPE) = false.
Proof. unfold int_types. simpl. intros H. repeat (destruct H as [<-|H]; [vm_compute; repeat split; done|]). done. Qed.

(** A type below the compound ones is neither a hole nor of a shape of its own. *)
Lemma primitive_tag p t : pool_ok p -> 1 <= t <= 21 -> ip_tag p t = IP_TAG_PRIMITIVE_TYPE.
Proof.
  intros [[g I] _] Ht. rewrite (proj1 (low_reads p g t I ltac:(unfold FIRST_COMPOUND; lia))).
  destruct t as [|q]; [lia|]. by rewrite (proj2 (N.leb_le _ _)) by lia.
Qed.

Lemma type_resolve_primitive c t : ip_tag (intern c) t = IP_TAG_PRIMITIVE_TYPE -> type_resolve c t = Ret t.
Proof. intros Ht. unfold type_resolve. destruct (subst_ready _); [|done]. simpl. by rewrite Ht. Qed.

Lemma hole_rules_primitive again c a e : ip_tag (intern c) a = IP_TAG_PRIMITIVE_TYPE ->
  ip_tag (intern c) e = IP_TAG_PRIMITIVE_TYPE -> hole_rules again c a e = Ret None.
Proof.
  intros Ha He. unfold hole_rules. destruct (type_subst c); [|done].
  rewrite (type_resolve_primitive c a Ha). cbn [obind]. rewrite (type_resolve_primitive c e He). cbn [obind].
  by rewrite Ha, He, !N.eqb_refl.
Qed.

Lemma pointer_rules_primitive p a e : ip_tag p a = IP_TAG_PRIMITIVE_TYPE -> pointer_rules p a e = Ret false.
Proof. intros Ha. unfold pointer_rules, drops_mut, array_decay. by rewrite Ha. Qed.

(** Structural coercion of primitive types is by their numbers. *)
Lemma structural_primitive fuel c a e : pool_ok (intern c) -> 1 <= a <= 21 -> 1 <= e <= 21 ->
  ip_is_error a = false -> ip_is_error e = false -> (a =? IP_INDEX_NORETURN_TYPE) = false ->
  coerce_structural_ctx (S fuel) c a e = Ret ((a =? e) || numeric_rules a e, c).
Proof.
  intros Hp Ha He Hea Hee Hnr. cbn [coerce_structural_ctx].
  rewrite (proj2 (N.eqb_neq a IP_NONE)), (proj2 (N.eqb_neq e IP_NONE)) by (unfold IP_NONE; lia). cbn [orb].
  rewrite Hea, Hee. cbn [orb]. destruct (N.eqb_spec a e) as [->|Hne]; [done|]. rewrite Hnr.
  pose proof (primitive_tag (intern c) a Hp Ha) as Ta. pose proof (primitive_tag (intern c) e Hp He) as Te.
  rewrite (hole_rules_primitive _ c a e Ta Te). cbn [obind]. rewrite (pointer_rules_primitive _ a e Ta). cbn [obind].
  rewrite Te. change (tag_eqb IP_TAG_PRIMITIVE_TYPE IP_TAG_OPTIONAL_TYPE) with false. rewrite andb_false_r. cbn [obind].
  unfold fn_rules. rewrite Ta. done.
Qed.

Lemma structural_int fuel c a e : pool_ok (intern c) -> is_concrete_int a = true -> is_concrete_int e = true ->
  coerce_structural_ctx (S fuel) c a e = Ret ((a =? e) || widens a e, c).
Proof.
  intros Hp Ha He. destruct (listed_low a (concrete_int_listed a Ha)) as (Ha1 & _ & Ha2 & Ha3 & _ & Ha4 & _).
  destruct (listed_low e (concrete_int_listed e He)) as (He1 & _ & He2 & _ & _ & He4 & _).
  rewrite structural_primitive by (first [done|lia]). by rewrite (numeric_rules_int a e Ha He).
Qed.

(** Integer types coerce without loss, and only so: between two concrete integer types,
    whatever is bound, structural coercion answers yes exactly when the types are the same or
    the expected one holds every number of the actual one and more; it binds nothing. *)
Theorem coerce_int_lossless fuel c a e : pool_ok (intern c) -> is_concrete_int a = true -> is_concrete_int e = true ->
  exists b, coerce_structural_ctx (S fuel) c a e = Ret (b, c) /\
    (b = true <-> a = e \/ (included a e /\ ~ included e a)).
Proof.
  intros Hp Ha He. exists ((a =? e) || widens a e). split; [by apply structural_int|].
  by rewrite orb_true_iff, N.eqb_eq, (widens_included a e Ha He).
Qed.

(** ** Constants *)

(** A node that folds to the value [v] of the type [t], leaving all else. *)
Definition folds (c : Sema) (node : Node) (t v : IpIndex) : Prop := eval_expr node c = Ret (mkTyped t v, c).

Lemma unwrap_int fuel p t : pool_ok p -> is_concrete_int t = true -> unwrap_optional_chain (S fuel) p t = Ret t.
Proof.
  intros Hp Ht. destruct (listed_low t (concrete_int_listed t Ht)) as (H1 & _ & _ & _ & _ & H4 & _).
  cbn [unwrap_optional_chain]. by rewrite (primitive_tag p t Hp ltac:(lia)).
Qed.

Lemma string_buffer_int c node a e : pool_ok (intern c) -> is_concrete_int e = true -> string_buffer c node a e = Ret None.
Proof.
  intros Hp He. destruct (listed_low e (concrete_int_listed e He)) as (H1 & _ & _ & _ & _ & H4 & _).
  unfold string_buffer. destruct node; [|done]. by rewrite (primitive_tag (intern c) e Hp ltac:(lia)), andb_false_r.
Qed.

Lemma numeric_comptime_int e : is_concrete_int e = true -> numeric_rules IP_INDEX_COMPTIME_INT_TYPE e = true.
Proof. intros He. unfold numeric_rules. by rewrite He. Qed.

(** The number of an integer constant of the type [t]. *)
Definition number (t : IpIndex) (x : Z) : Z := if src_unsigned t then Z.of_N (u64_of_Z x) else x.

Lemma range_check_number p t v x e : pool_ok p -> reads p v (IPK_INT_VALUE t x) -> int64 x -> is_concrete_int e = true ->
  (src_unsigned t = true -> is_unsigned_int e = false -> (0 <= x)%Z) ->
  exists r, range_check p v e = Ret r /\ (kind r = COERCE_OK <-> in_int_range e (number t x)) /\
    (kind r <> COERCE_OK -> kind r = COERCE_FAIL_RANGE).
Proof.
  intros Hp Hv Hx He Hsign. destruct (fits_in_ok p v t x e Hp Hv Hx He) as (fits & lo & hi & E & Hf).
  assert (Hnum : (if src_unsigned t && is_unsigned_int e then Z.of_N (u64_of_Z x) else x) = number t x).
  { unfold number. destruct (src_unsigned t), (is_unsigned_int e); try done. cbn [andb]. rewrite u64_of_Z_id; [done|].
    specialize (Hsign eq_refl eq_refl). unfold int64, INT64_MAX in Hx. lia. }
  rewrite Hnum in Hf. unfold range_check. rewrite E. cbn [obind]. destruct fits.
  - exists coerce_ok. split; [done|]. split; [by split; [intros _; apply Hf|]|done].
  - eexists. split; [done|]. split; [|done]. split; [done|]. intros H. by apply Hf in H.
Qed.

Lemma structural_comptime fuel c e : pool_ok (intern c) -> is_concrete_int e = true ->
  coerce_structural_ctx (S fuel) c IP_INDEX_COMPTIME_INT_TYPE e = Ret (true, c).
Proof.
  intros Hp He. destruct (listed_low e (concrete_int_listed e He)) as (H1 & _ & H2 & _ & _ & H4 & _).
  rewrite structural_primitive by (first [done|lia|vm_compute; by split]).
  by rewrite (numeric_comptime_int e He), orb_true_r.
Qed.

(** C27: An integer constant coerces to an integer type exactly when its number is in the type's
    range: for a node that folds to the value [x] of its type, a [comptime_int] or a concrete
    type that holds it, [coerce] answers COERCE_OK when the number fits, and a range failure
    otherwise; provided that an unsigned constant for a signed type is below 2^63, which is
    not checked right beyond. *)
Theorem coerce_constant_exact fuel c node t v x e : pool_ok (intern c) -> folds c node t v ->
  reads (intern c) v (IPK_INT_VALUE t x) -> int64 x -> is_concrete_int e = true ->
  t = IP_INDEX_COMPTIME_INT_TYPE \/ (is_concrete_int t = true /\ in_int_range t (number t x)) ->
  (src_unsigned t = true -> is_unsigned_int e = false -> (0 <= x)%Z) ->
  exists r, coerce (S fuel) c (Some node) t e = Ret (r, c) /\
    (kind r = COERCE_OK <-> in_int_range e (number t x)) /\ (kind r <> COERCE_OK -> kind r = COERCE_FAIL_RANGE).
Proof.
  intros Hp Hn Hv Hx He Ht Hsign. unfold coerce. rewrite (string_buffer_int c _ t e Hp He). cbn [obind].
  destruct (int_value_reads _ v t x Hp Hv) as (Hv0 & Hve & _ & _ & Hvt & _).
  assert (Hhas : has_value v = true) by (unfold has_value; by rewrite (proj2 (N.eqb_neq _ _) Hv0), Hve).
  destruct (range_check_number (intern c) t v x e Hp Hv Hx He Hsign) as (r & Er & Hr1 & Hr2).
  assert (Hcheck : exists r', Ret (r, c) = Ret (r', c) /\ (kind r' = COERCE_OK <-> in_int_range e (number t x)) /\
    (kind r' <> COERCE_OK -> kind r' = COERCE_FAIL_RANGE)) by (by exists r).
  destruct Ht as [->|[Ht Hin]].
  - rewrite (structural_comptime fuel c e Hp He). cbn [obind]. rewrite (unwrap_int fuel _ e Hp He). cbn [obind].
    rewrite N.eqb_refl, He. cbn [orb andb]. rewrite Hn. cbn [obind value]. rewrite Hhas, Er. exact Hcheck.
  - rewrite (structural_int fuel c t e Hp Ht He). cbn [obind]. rewrite (unwrap_int fuel _ e Hp He). cbn [obind].
    destruct ((t =? e) || widens t e) eqn:Ew.
    + destruct (listed_low t (concrete_int_listed t Ht)) as (_ & _ & _ & _ & _ & _ & Hc1 & Hc2). rewrite Hc1, Hc2.
      exists coerce_ok. split; [done|]. split; [|done]. split; [|done]. intros _.
      apply orb_true_iff in Ew as [->%N.eqb_eq|Ew]; [done|].
      apply (widens_included t e Ht He) in Ew as [[H1 H2] _]. unfold in_int_range in *. lia.
    + rewrite Ht, He. cbn [andb]. rewrite Hn. cbn [obind value]. rewrite Hhas, Hvt.
      change (tag_eqb IP_TAG_INT_VALUE IP_TAG_INT_VALUE) with true. cbn [andb]. rewrite Er. exact Hcheck.
Qed.

(** ** Const *)

(** A pointer, slice or many-pointer to [elem]. *)
Inductive points (p : InternPool) (t elem : IpIndex) (is_const : bool) : Prop :=
  | points_ptr : reads p t (IPK_PTR_TYPE elem is_const) -> points p t elem is_const
  | points_slice : reads p t (IPK_SLICE_TYPE elem is_const) -> points p t elem is_const
  | points_many : reads p t (IPK_MANY_PTR_TYPE elem is_const) -> points p t elem is_const.

Lemma compound_index p t k : pool_ok p -> reads p t k -> compound k = true ->
  (t =? IP_NONE) = false /\ ip_is_error t = false /\ (t =? IP_INDEX_NORETURN_TYPE) = false /\
  (t =? IP_INDEX_NIL_TYPE) = false /\ is_concrete_int t = false /\ (t =? IP_INDEX_COMPTIME_INT_TYPE) = false /\
  (t =? IP_INDEX_COMPTIME_FLOAT_TYPE) = false /\ ip_tag p t = tag_for_key k /\ ip_key p t = Ret k.
Proof.
  intros Hp Hr Hc. destruct (reads_ok p t k Hp Hr Hc) as (_ & _ & Ht & Hlow).
  assert (H : forall n, n < FIRST_COMPOUND -> (t =? n) = false) by (intros n Hn; apply N.eqb_neq; unfold FIRST_COMPOUND in *; lia).
  split; [by apply H|]. split; [by apply H|]. split; [by apply H|]. split; [by apply H|].
  split; [destruct (is_concrete_int t) eqn:E; [|done]; apply concrete_int_listed, listed_low in E; unfold FIRST_COMPOUND in *; lia|].
  split; [by apply H|]. split; [by apply H|]. split; [done|apply Hr].
Qed.

Lemma numeric_rules_compound a e : is_concrete_int a = false -> (a =? IP_INDEX_COMPTIME_INT_TYPE) = false ->
  (a =? IP_INDEX_COMPTIME_FLOAT_TYPE) = false -> numeric_rules a e = false.
Proof. intros H1 H2 H3. unfold numeric_rules. by rewrite H1, H2, H3. Qed.

Lemma type_resolve_shape c t : ip_tag (intern c) t <> IP_TAG_TYPE_VAR -> type_resolve c t = Ret t.
Proof.
  intros Ht. unfold type_resolve. destruct (subst_ready _); [|done]. simpl.
  unfold tag_eqb. by rewrite bool_decide_false.
Qed.

Lemma hole_rules_shape again c a e : ip_tag (intern c) a <> IP_TAG_TYPE_VAR -> ip_tag (intern c) e <> IP_TAG_TYPE_VAR ->
  hole_rules again c a e = Ret None.
Proof.
  intros Ha He. unfold hole_rules. destruct (type_subst c); [|done].
  rewrite (type_resolve_shape c a Ha). cbn [obind]. rewrite (type_resolve_shape c e He). cbn [obind].
  unfold tag_eqb. rewrite !bool_decide_false by done. by rewrite !N.eqb_refl.
Qed.

Lemma array_elem p t : pool_ok p -> tag_eqb (ip_tag p t) IP_TAG_ARRAY_TYPE = true -> exists e, elem_of p t = Ret e.
Proof.
  intros Hp Ht. apply bool_decide_eq_true in Ht. destruct (tag_key p t Hp) as (k & [_ Hk] & E); [congruence..|].
  rewrite Ht in E. unfold elem_of. rewrite Hk. destruct k; simpl in E; try destruct is_const; try done. by eexists.
Qed.

(** No rule for pointers drops a const. *)
Lemma pointer_rules_const p a e ea ee : pool_ok p -> points p a ea true -> points p e ee false ->
  pointer_rules p a e = Ret false.
Proof.
  intros Hp Ha He.
  assert (Hk : forall t el b, points p t el b -> elem_of p t = Ret el /\
    (ip_tag p t = (if b then IP_TAG_PTR_CONST_TYPE else IP_TAG_PTR_TYPE) \/
     ip_tag p t = (if b then IP_TAG_SLICE_CONST_TYPE else IP_TAG_SLICE_TYPE) \/
     ip_tag p t = (if b then IP_TAG_MANY_PTR_CONST_TYPE else IP_TAG_MANY_PTR_TYPE))).
  { intros t el b [Hr|Hr|Hr]; destruct (compound_index p t _ Hp Hr eq_refl) as (_ & _ & _ & _ & _ & _ & _ & Ht & Hkey);
      unfold elem_of; rewrite Hkey; (split; [done|]); cbn in Ht; tauto. }
  destruct (Hk _ _ _ Ha) as [Ea Ta]. destruct (Hk _ _ _ He) as [Ee Te]. clear Hk Ha He.
  unfold pointer_rules, drops_mut, array_decay, decays_to.
  assert (Hdecay : forall m k b, k <> ip_tag p e ->
    (if tag_eqb (ip_tag p e) m || tag_eqb (ip_tag p e) k then let! x := elem_of p e in Ret ((b =? x) && (negb true || tag_eqb (ip_tag p e) k))
     else Ret false) = Ret false).
  { intros m k b Hne. rewrite Ee. cbn [obind]. unfold tag_eqb. rewrite (bool_decide_false (ip_tag p e = k)) by done.
    rewrite andb_false_r. by destruct (_ || _). }
  destruct (tag_eqb (ip_tag p ea) IP_TAG_ARRAY_TYPE) eqn:Earr.
  - destruct (array_elem p ea Hp Earr) as [x Ex].
    destruct Ta as [Ta|[Ta|Ta]], Te as [Te|[Te|Te]]; rewrite Ta, ?Te, Ea, ?Ee; cbn [obind tag_eqb bool_decide];
      rewrite ?Earr, ?Ex; cbn; rewrite ?andb_false_r; done.
  - destruct Ta as [Ta|[Ta|Ta]], Te as [Te|[Te|Te]]; rewrite Ta, ?Te, Ea, ?Ee; cbn [obind tag_eqb bool_decide];
      rewrite ?Earr; cbn; rewrite ?andb_false_r; done.
Qed.

(** C30: Const is never coerced away: whatever is bound, a const pointer, slice or many-pointer
    does not coerce to one that is not const, not even through the decay of an array. *)
Theorem coerce_keeps_const fuel c a e ea ee : pool_ok (intern c) ->
  points (intern c) a ea true -> points (intern c) e ee false ->
  coerce_structural_ctx (S fuel) c a e = Ret (false, c).
Proof.
  intros Hp Ha He. cbn [coerce_structural_ctx].
  assert (Hc : forall t el b, points (intern c) t el b -> exists k, reads (intern c) t k /\ compound k = true /\
    tag_for_key k <> IP_TAG_TYPE_VAR /\ tag_for_key k <> IP_TAG_OPTIONAL_TYPE /\ tag_for_key k <> IP_TAG_FN_TYPE /\
    k = (match k with IPK_PTR_TYPE _ _ => IPK_PTR_TYPE el b | IPK_SLICE_TYPE _ _ => IPK_SLICE_TYPE el b | _ => IPK_MANY_PTR_TYPE el b end)).
  { intros t el b [Hr|Hr|Hr]; eexists; (split; [exact Hr|]); (split; [done|]); destruct b; done. }
  destruct (Hc _ _ _ Ha) as (ka & Ra & Ca & Va & Oa & Fa & Ka). destruct (Hc _ _ _ He) as (ke & Re & Ce & Ve & Oe & Fe & Ke).
  destruct (compound_index _ a ka Hp Ra Ca) as (A1 & A2 & A3 & A4 & A5 & A6 & A7 & A8 & A9).
  destruct (compound_index _ e ke Hp Re Ce) as (E1 & E2 & E3 & E4 & E5 & E6 & E7 & E8 & E9).
  rewrite A1, E1, A2, E2. cbn [orb].
  assert (Hne : (a =? e) = false).
  { apply N.eqb_neq. intros <-. pose proof (reads_fun _ _ _ _ Ra Re) as <-. rewrite Ka in Ke. destruct ka; congruence. }
  rewrite Hne, A3, hole_rules_shape by congruence. cbn [obind].
  rewrite (pointer_rules_const _ a e ea ee Hp Ha He). cbn [obind].
  rewrite A4. cbn [andb]. rewrite E8. unfold tag_eqb at 1. rewrite bool_decide_false by done. cbn [obind].
  unfold fn_rules. rewrite A8. unfold tag_eqb at 1. rewrite bool_decide_false by done. cbn [andb obind].
  by rewrite numeric_rules_compound.
Qed.

(** ** Substitutions *)

(** C26: Applying a substitution resolves a type: when the bindings make a finite tree of at
    most 64 levels of it, each binding read through being one, and the pool has room,
    [apply_type_subst] returns the one index that is that tree with no binding left to read
    through, so types that have become equal are one index afterwards; what was interned
    stays, and nothing is bound or reported. *)
Theorem apply_type_subst_resolves fuel c n t τ : pool_ok (intern c) -> subst_ready (type_subst c) = true ->
  (n <= 64)%nat -> (n < fuel)%nat -> ty_den (intern c) (type_subst c) n t τ ->
  tree_room (ty_size τ) (ty_cost τ) 0 0 c ->
  exists t' c', apply_type_subst fuel c t = Ret (t', c') /\ grows c c' /\ plain (intern c') n t' τ /\
    forall n2 t2, plain (intern c') n2 t2 τ -> t2 = t'.
Proof.
  intros Hp Hs Hn Hf Hd Hr. destruct (apply_den n Hn fuel c t τ Hf Hp Hs Hd 0 0 Hr) as (t' & c' & E & [Hg Hpl] & _).
  exists t', c'. split; [exact E|]. split; [done|]. split; [done|]. intros n2 t2 H2.
  eapply (plain_inj (intern c') (proj1 (proj2 Hg))); [exact H2|exact Hpl].
Qed.

(** C39: Holes have no occurs check: coercing a slice of an unbound hole to the hole succeeds and
    binds it to the slice, without a diagnostic, and applying the substitution to that type
    then recurses without end. *)
Theorem coerce_binds_cycle fuel c t v id b : pool_ok (intern c) -> type_subst c <> None ->
  reads (intern c) v (IPK_TYPE_VAR id) -> subst_get (type_subst c) id = None -> reads (intern c) t (IPK_SLICE_TYPE v b) ->
  exists c', coerce_structural_ctx (S fuel) c t v = Ret (true, c') /\ diags c' = diags c /\
    forall fuel', apply_type_subst fuel' c' t = OutOfFuel.
Proof.
  intros Hp Hm Hv Hid Ht. exists (type_subst_bind id t c).
  destruct (compound_index _ t _ Hp Ht eq_refl) as (T1 & T2 & T3 & _ & _ & _ & _ & T8 & T9).
  destruct (compound_index _ v _ Hp Hv eq_refl) as (V1 & V2 & _ & _ & _ & _ & _ & V8 & V9).
  assert (Htv : (t =? v) = false).
  { apply N.eqb_neq. intros ->. by pose proof (reads_fun _ _ _ _ Ht Hv). }
  assert (Htag : ip_tag (intern c) t <> IP_TAG_TYPE_VAR) by (rewrite T8; by destruct b).
  split; [|split; [done|]].
  - cbn [coerce_structural_ctx]. rewrite T1, V1, T2, V2, Htv, T3. cbn [orb]. unfold hole_rules.
    destruct (type_subst c) as [m|] eqn:Em; [|done]. rewrite (type_resolve_shape c t Htag). cbn [obind].
    assert (type_resolve c v = Ret v) as ->.
    { unfold type_resolve. destruct (subst_ready _); [|done]. cbn [type_resolve_hops]. rewrite V8.
      change (tag_eqb (tag_for_key (IPK_TYPE_VAR id)) IP_TAG_TYPE_VAR) with true. cbn [negb].
      unfold type_var_id. rewrite V9. cbn [obind]. by rewrite Em, Hid. }
    cbn [obind]. rewrite V8. change (tag_eqb (tag_for_key (IPK_TYPE_VAR id)) IP_TAG_TYPE_VAR) with true.
    rewrite orb_true_r, Htv. unfold type_var_id. rewrite V9. done.
  - set (c' := type_subst_bind id t c).
    assert (Hready : subst_ready (type_subst c') = true) by (unfold c'; simpl; by destruct (type_subst c) as [[m|]|]).
    assert (Hget : subst_get (type_subst c') id = Some t).
    { unfold c'. cbn [type_subst_bind put_type_subst type_subst]. rewrite RowsFacts.RowsUnify.subst_get_put, N.eqb_refl;
        [done|done|by apply N.eqb_neq]. }
    assert (Hres : forall hops, type_resolve_hops hops c' t = Ret t) by (intros hops; by apply resolve_shape).
    assert (Hresv : forall h, type_resolve_hops (S h) c' v = Ret t).
    { intros h. cbn [type_resolve_hops]. change (intern c') with (intern c). rewrite V8.
      change (tag_eqb (tag_for_key (IPK_TYPE_VAR id)) IP_TAG_TYPE_VAR) with true. cbn [negb].
      unfold type_var_id. rewrite V9. cbn [obind]. by rewrite Hget, Hres. }
    assert (Hboth : forall fuel' x, x = t \/ x = v -> apply_type_subst fuel' c' x = OutOfFuel).
    { induction fuel' as [|fuel' IH]; intros x Hx; [done|]. cbn [apply_type_subst]. rewrite Hready. cbn [negb].
      assert ((x =? IP_NONE) = false) as -> by (destruct Hx as [->| ->]; done).
      assert (type_resolve c' x = Ret t) as ->.
      { unfold type_resolve. rewrite Hready. destruct Hx as [->| ->]; [apply Hres|exact (Hresv 63%nat)]. }
      cbn [obind]. change (intern c') with (intern c). rewrite T9. cbn [obind]. rewrite (IH v); [done|by right]. }
    intros fuel'. apply Hboth. by left.
Qed.

(** ** Applied *)

Lemma coerce_int_lossless_witness : exists c b, coerce_structural_ctx 1 c 2 5 = Ret (b, c) /\ b = true.
Proof.
  destruct values_pool as (p & Hp & Hr & R33 & R34 & R35 & R36 & R37 & R38 & R39 & R40 & R41 & R42 & R43 & R28 & R44 & R2).
  destruct (coerce_int_lossless 0 (mkSema p None None []) 2 5 Hp) as (b & E & Hb).
  - reflexivity.
  - reflexivity.
  - exists (mkSema p None None []), b. split; [exact E|]. apply Hb. right. unfold included. vm_compute.
    split; [split; discriminate|]. intros [H _]. by apply H.
Defined.

Lemma coerce_constant_exact_witness : exists c node r, reads (intern c) 35 (IPK_INT_VALUE 17 100) /\
  coerce 1 c (Some node) 17 2 = Ret (r, c) /\ kind r = COERCE_OK.
Proof.
  destruct values_pool as (p & Hp & Hr & R33 & R34 & R35 & R36 & R37 & R38 & R39 & R40 & R41 & R42 & R43 & R28 & R44 & R2).
  set (node := mkNode None (fun c => Ret (mkTyped 17 35, c)) true).
  destruct (coerce_constant_exact 0 (mkSema p None None []) node 17 35 100 2 Hp) as (r & E & Hk & _).
  - reflexivity.
  - exact R35.
  - vm_compute. split; discriminate.
  - reflexivity.
  - left. reflexivity.
  - vm_compute. discriminate.
  - exists (mkSema p None None []), node, r. split; [exact R35|]. split; [exact E|]. apply Hk. vm_compute. split; discriminate.
Defined.

Lemma coerce_keeps_const_witness : exists c, reads (intern c) 28 (IPK_PTR_TYPE 2 true) /\
  reads (intern c) 44 (IPK_SLICE_TYPE 2 false) /\ coerce_structural_ctx 1 c 28 44 = Ret (false, c).
Proof.
  destruct values_pool as (p & Hp & Hr & R33 & R34 & R35 & R36 & R37 & R38 & R39 & R40 & R41 & R42 & R43 & R28 & R44 & R2).
  exists (mkSema p None None []). split; [exact R28|]. split; [exact R44|].
  apply (coerce_keeps_const 0 (mkSema p None None []) 28 44 2 2 Hp).
  - exact (points_ptr p 28 2 true R28).
  - exact (points_slice p 44 2 false R44).
Defined.

Definition u8_tree : Ty := TyFn (TyOptional (TyAtom 2)) 0 0 0 [TyAtom 2] IP_EMPTY_EFFECT_ROW.

Lemma apply_type_subst_resolves_witness : exists c t' c', reads (intern c) 42 (IPK_FN_TYPE 41 0 0 0 [40] IP_EMPTY_EFFECT_ROW) /\
  subst_get (type_subst c) 1 = Some 2 /\ apply_type_subst 10 c 42 = Ret (t', c') /\ plain (intern c') 3 t' u8_tree.
Proof.
  destruct values_pool as (p & Hp & Hr & R33 & R34 & R35 & R36 & R37 & R38 & R39 & R40 & R41 & R42 & R43 & R28 & R44 & R2).
  set (c := mkSema p None (Some (Some {[1 := 2]})) []).
  assert (Hget : subst_get (type_subst c) 1 = Some 2) by reflexivity.
  assert (D40 : ty_den (intern c) (type_subst c) 1 40 (TyAtom 2)).
  { eapply td_bound; [exact R40|exact Hget|]. by eapply (td_atom _ _ 0 2 _ _ R2). }
  destruct (apply_type_subst_resolves 10 c 3 42 u8_tree Hp) as (t' & c' & E & _ & Hpl & _).
  - reflexivity.
  - lia.
  - lia.
  - eapply td_fn; [exact R42| |constructor; [|constructor]].
    + eapply (td_wrap _ _ 1 41); [exact R41|apply wraps_optional|exact D40].
    + eapply ty_den_mono; [exact D40|lia].
  - eapply room_le; [exact Hr|vm_compute; discriminate|vm_compute; discriminate].
  - exists c, t', c'. split; [exact R42|]. split; [exact Hget|]. split; [exact E|exact Hpl].
  Unshelve. discriminate.
Defined.

Lemma coerce_binds_cycle_witness : exists c c', reads (intern c) 43 (IPK_SLICE_TYPE 40 false) /\
  coerce_structural_ctx 1 c 43 40 = Ret (true, c') /\ forall fuel, apply_type_subst fuel c' 43 = OutOfFuel.
Proof.
  destruct values_pool as (p & Hp & Hr & R33 & R34 & R35 & R36 & R37 & R38 & R39 & R40 & R41 & R42 & R43 & R28 & R44 & R2).
  destruct (coerce_binds_cycle 0 (mkSema p None (Some None) []) 43 40 1 false Hp) as (c' & E & _ & Hn).
  - discriminate.
  - exact R40.
  - reflexivity.
  - exact R43.
  - exists (mkSema p None (Some None) []), c'. split; [exact R43|]. split; [exact E|exact Hn].
Defined.

End CoerceTheorems.
