(* ===== verification/BodyScopes.v ===== *)
(** * Body scopes: [src/src/db/query/body_scopes.c] and [src/src/db/diag/ast_id.c]

    The lexical scopes of a function body.  [DeclAstIdMap] numbers the nodes of a
    declaration in preorder; the builder walks the body and appends scopes and bindings to
    two pools shared by all functions, tagging each node with its scope; a lookup climbs
    from the scope of the use.  Handles are the values of [Handle].  The declaration
    ([wrapper]) that [db_query_top_level_entry] and the pointer stored there lead to is an
    argument, [None] when there is none; so is the current id map of the declaration.  A
    [HashMap] is a finite map from keys to values that are not NULL
    ([HashMapTheorems.hashmap_refines_finite_map]). *)

From stdpp Require Import gmap.
From S2P Require Import Prelude SyntaxKind Green Red RedNav RedPtr Interner Engine Fingerprint Ast.
Import SyntaxKind Green Red RedTree RedNav RedPtr Engine Fingerprint Handle Ast.

Module BodyScopes.

#[local] Open Scope N_scope.

(** ** Loops over the children that are nodes *)

(** A walk of a node [n] needs as much fuel as its tree is high. *)
Definition height (n : Node) : nat := green_height (tree n).

Definition each {S : Type} (f : Node -> S -> outcome S) : list Node -> S -> outcome S :=
  fix go es s :=
    match es with
    | [] => Ret s
    | e :: es => let! s := f e s in go es s
    end.

(** ** Numbering the nodes of a declaration *)

Record DeclAstIdMap : Type := mkIdMap { rev : gmap N N; next_id : N }.

Definition decl_ast_id_map_init : DeclAstIdMap := mkIdMap ∅ 0.

Definition decl_ast_id_lookup (m : DeclAstIdMap) (node : Node) : option N :=
  (fun v => u32 (v - 1)) <$> rev m !! syntax_node_ptr_hash (ptr_of node).

Fixpoint decl_ast_id_map_walk (fuel : nat) (node : Node) (map : DeclAstIdMap) : outcome DeclAstIdMap :=
  match fuel with
  | O => OutOfFuel
  | S fuel =>
      let id := next_id map in
      each (decl_ast_id_map_walk fuel) (node_children node)
        (mkIdMap (<[syntax_node_ptr_hash (ptr_of node) := id + 1]> (rev map)) (u32 (id + 1)))
  end.

(** The fresh map of a wrapper. *)
Definition decl_ast_id_map_refresh (wrapper : Node) : outcome DeclAstIdMap :=
  decl_ast_id_map_walk (height wrapper) wrapper decl_ast_id_map_init.

Record DeclAstIdFinder : Type := mkFinder { remaining : N; found : option Node }.

(** The loop stops when [found] is set. *)
Definition until_found (f : Node -> DeclAstIdFinder -> outcome DeclAstIdFinder)
    : list Node -> DeclAstIdFinder -> outcome DeclAstIdFinder :=
  fix go es s :=
    match es, found s with
    | e :: es, None => let! s := f e s in go es s
    | _, _ => Ret s
    end.

Fixpoint decl_ast_id_find (fuel : nat) (node : Node) (f : DeclAstIdFinder) : outcome DeclAstIdFinder :=
  match fuel with
  | O => OutOfFuel
  | S fuel =>
      match found f with
      | Some _ => Ret f
      | None =>
          if remaining f =? 0 then Ret (mkFinder 0 (Some node))
          else until_found (decl_ast_id_find fuel) (node_children node) (mkFinder (remaining f - 1) None)
      end
  end.

Fixpoint decl_ast_id_collect_walk (fuel : nat) (node : Node) (out : list Node) : outcome (list Node) :=
  match fuel with
  | O => OutOfFuel
  | S fuel => each (decl_ast_id_collect_walk fuel) (node_children node) (out ++ [node])
  end.

Definition decl_ast_id_resolve (wrapper : option Node) (rel : N) : outcome (option Node) :=
  match wrapper with
  | None => Ret None
  | Some w => let! f := decl_ast_id_find (height w) w (mkFinder rel None) in Ret (found f)
  end.

Definition decl_ast_id_preorder_collect (wrapper : option Node) : outcome (list Node) :=
  match wrapper with
  | None => Ret []
  | Some w => decl_ast_id_collect_walk (height w) w []
  end.

(** What [db_query_decl_ast_map] succeeds with: the entry's range. *)
Definition decl_ast_map_fingerprint (p : SyntaxNodePtr) : Fingerprint :=
  db_fp_u64 (N.lor (u64 (N.shiftl (r_start (ptr_range p)) 32)) (r_length (ptr_range p))).

(** ** The tables *)

Definition BODY_SCOPE_NONE : N := 0xFFFFFFFF.

Record ScopeRow : Set := mkScopeRow { parent : N; block_node_rel : N }.
Record ScopedBind : Set := mkScopedBind { scope_id : N; name : N; bind_site_rel : N }.

(** A zeroed [scope_map] is [None]. *)
Record FnBody : Type := mkFnBody { fb_scope_off : N; scope_len : N; fb_bind_off : N; bind_len : N; fb_scope_map : option (gmap N N) }.

Definition empty_body : FnBody := mkFnBody 0 0 0 0 None.

Section Build.

Context {P : Type} `{!Interner P}.

(** The fields of [struct db] that are used here: [strings], [names.RESUME] and the pools. *)
Record Db : Type := mkDb { strings : P; RESUME : N; body_scope_rows : list ScopeRow; body_scope_binds : list ScopedBind }.

Record BSBuilder : Type := mkBuilder {
  db : Db;
  scope_off : N;
  bind_off : N;
  scope_map : gmap N N;
  fp : Fingerprint;
  decl_map : DeclAstIdMap
}.

Definition count_of {A} (v : list A) : N := u32 (N.of_nat (length v)).

(** [rel] stays 0 when the lookup misses. *)
Definition rel_of (b : BSBuilder) (node : option Node) : N :=
  match node with
  | Some n => match decl_ast_id_lookup (decl_map b) n with Some rel => rel | None => 0 end
  | None => 0
  end.

Definition scope_push (b : BSBuilder) (par : N) (block_node : option Node) : N * BSBuilder :=
  let s := db b in
  let id := u32_sub (count_of (body_scope_rows s)) (scope_off b) in
  let row := mkScopeRow par (rel_of b block_node) in
  (id, mkBuilder (mkDb (strings s) (RESUME s) (body_scope_rows s ++ [row]) (body_scope_binds s))
         (scope_off b) (bind_off b) (scope_map b) (db_fp_combine (fp b) (db_fp_u64 par)) (decl_map b)).

Definition bind_push (b : BSBuilder) (scope : N) (nm : N) (bind_node : Node) : BSBuilder :=
  let s := db b in
  let sb := mkScopedBind scope nm (rel_of b (Some bind_node)) in
  mkBuilder (mkDb (strings s) (RESUME s) (body_scope_rows s) (body_scope_binds s ++ [sb]))
    (scope_off b) (bind_off b) (scope_map b)
    (db_fp_combine (fp b) (db_fp_combine (db_fp_u64 scope) (db_fp_u64 nm))) (decl_map b).

Definition tag_node (b : BSBuilder) (node : Node) (scope : N) : BSBuilder :=
  match decl_ast_id_lookup (decl_map b) node with
  | Some rel => mkBuilder (db b) (scope_off b) (bind_off b) (<[rel := scope + 1]> (scope_map b)) (fp b) (decl_map b)
  | None => b
  end.

(** The text of a token, and its length, are those of its green token. *)
Definition intern_tok (s : Db) (t : option Node) : Db * N :=
  match t with
  | None => (s, 0)
  | Some t =>
      let '(p, id) := pool_intern (strings s) (text_of t) in
      (mkDb p (RESUME s) (body_scope_rows s) (body_scope_binds s), id)
  end.

Definition with_db (b : BSBuilder) (s : Db) : BSBuilder :=
  mkBuilder s (scope_off b) (bind_off b) (scope_map b) (fp b) (decl_map b).

(** Interns the name and, unless it is empty, binds it at [site]. *)
Definition bind_tok (b : BSBuilder) (scope : N) (tok : option Node) (site : Node) : BSBuilder :=
  let '(s, nm) := intern_tok (db b) tok in
  let b := with_db b s in
  if negb (nm =? 0) then bind_push b scope nm site else b.

Definition name_if (casted : option Node) (name_tok : Node -> option Node) : option Node :=
  match casted with Some n => name_tok n | None => None end.

(** ** The walk

    [rec] is the recursive call of [walk]. *)

Section Cases.

Context (rec : Node -> BSBuilder -> N -> outcome BSBuilder).

Definition walk_children (node : Node) (b : BSBuilder) (scope : N) : outcome BSBuilder :=
  each (fun e b => rec e b scope) (node_children node) b.

(** The scope of a child: that of the first override it is the node of. *)
Fixpoint child_scope (e : Node) (def_scope : N) (ov : list (Node * N)) : N :=
  match ov with
  | [] => def_scope
  | (c, sc) :: ov => if syntax_node_ptr_eq (ptr_of e) (ptr_of c) then sc else child_scope e def_scope ov
  end.

Definition walk_children_scoped (node : Node) (b : BSBuilder) (def_scope : N) (ov : list (Node * N)) : outcome BSBuilder :=
  each (fun e b => rec e b (child_scope e def_scope ov)) (node_children node) b.

Definition walk_with_arglist (args : Node) (b : BSBuilder) (outer cont_scope : N) (cont_p : SyntaxNodePtr) : outcome BSBuilder :=
  each (fun e b =>
          if syntax_node_ptr_eq (ptr_of e) cont_p then
            match name_if (LambdaExpr_cast e) LambdaExpr_body with
            | Some body => rec body b cont_scope
            | None => Ret b
            end
          else rec e b outer)
    (node_children args) b.

Definition walk_if (node : Node) (b : BSBuilder) (current_scope : N) : outcome BSBuilder :=
  let capture := IfExpr_capture node in
  let then_b := IfExpr_then_branch node in
  let else_b := IfExpr_else_branch node in
  let '(b, ov) :=
    match capture, then_b with
    | None, None => (b, [])
    | _, _ =>
        let '(then_scope, b) := scope_push b current_scope (match capture with Some c => Some c | None => then_b end) in
        let '(b, ov) :=
          match capture with
          | Some c => (bind_tok b then_scope (name_if (Capture_cast c) Capture_name) c, [(c, then_scope)])
          | None => (b, [])
          end in
        (b, match then_b with Some t => ov ++ [(t, then_scope)] | None => ov end)
    end in
  let '(b, ov) :=
    match else_b with
    | Some e => let '(else_scope, b) := scope_push b current_scope (Some e) in (b, ov ++ [(e, else_scope)])
    | None => (b, ov)
    end in
  walk_children_scoped node b current_scope ov.

Definition walk_loop (node : Node) (b : BSBuilder) (current_scope : N) : outcome BSBuilder :=
  let '(loop_scope, b) := scope_push b current_scope (Some node) in
  let b :=
    match LoopExpr_capture node with
    | Some c => bind_tok b loop_scope (name_if (Capture_cast c) Capture_name) c
    | None => b
    end in
  walk_children_scoped node b loop_scope
    (match LoopExpr_else_branch node with Some e => [(e, current_scope)] | None => [] end).

Definition walk_return_clause (node : Node) (b : BSBuilder) (current_scope : N) : outcome BSBuilder :=
  let '(clause_scope, b) := scope_push b current_scope (Some node) in
  let b :=
    match ast_first_child node SK_PARAM_LIST with
    | Some plist =>
        match ast_first_child plist SK_PARAM with
        | Some param => bind_tok b clause_scope (name_if (Param_cast param) Param_name) param
        | None => b
        end
    | None => b
    end in
  each (fun e b => rec e b (if of_kind SK_PARAM_LIST e then current_scope else clause_scope)) (node_children node) b.

(** The loop over a parameter list that binds each name. *)
Fixpoint bind_params (scope : N) (es : list Node) (b : BSBuilder) : BSBuilder :=
  match es with
  | [] => b
  | e :: es =>
      bind_params scope es
        (if of_kind SK_PARAM e then bind_tok b scope (name_if (Param_cast e) Param_name) e else b)
  end.

(** The operation clauses of a handler and nested lambdas; [ctl] binds [resume] too. *)
Definition walk_lambda (node : Node) (b : BSBuilder) (current_scope : N) : outcome BSBuilder :=
  let '(clause_scope, b) := scope_push b current_scope (Some node) in
  match LambdaExpr_cast node with
  | None => Ret b
  | Some lam =>
      let b := match LambdaExpr_params lam with
               | Some plist => bind_params clause_scope (node_children plist) b
               | None => b
               end in
      let b := if of_kind SK_CTL_LAMBDA node then bind_push b clause_scope (RESUME (db b)) node else b in
      match LambdaExpr_body lam with
      | Some body => rec body b clause_scope
      | None => Ret b
      end
  end.

Definition walk_with (node cont : Node) (b : BSBuilder) (current_scope : N) : outcome BSBuilder :=
  let '(cont_scope, b) := scope_push b current_scope (Some cont) in
  let b :=
    match CallExpr_with_binder node with
    | Some binder => bind_tok b cont_scope (name_if (Param_cast binder) Param_name) binder
    | None => b
    end in
  each (fun e b =>
          if of_kind SK_ARG_LIST e then walk_with_arglist e b current_scope cont_scope (ptr_of cont)
          else rec e b current_scope)
    (node_children node) b.

End Cases.

Fixpoint walk (fuel : nat) (node : Node) (b : BSBuilder) (current_scope : N) : outcome BSBuilder :=
  match fuel with
  | O => OutOfFuel
  | S fuel =>
      let b := tag_node b node current_scope in
      let k := node_kind node in
      if kind_eqb k SK_BLOCK_STMT || kind_eqb k SK_SWITCH_ARM then
        let '(child, b) := scope_push b current_scope (Some node) in
        walk_children_scoped (walk fuel) node b child []
      else if kind_eqb k SK_BIND_DECL then
        let '(s, nm) := intern_tok (db b) (name_if (BindDef_cast node) BindDef_name) in
        let! b := walk_children_scoped (walk fuel) node (with_db b s) current_scope [] in
        Ret (if negb (nm =? 0) then bind_push b current_scope nm node else b)
      else if kind_eqb k SK_IF_EXPR then walk_if (walk fuel) node b current_scope
      else if kind_eqb k SK_LOOP_EXPR then walk_loop (walk fuel) node b current_scope
      else if kind_eqb k SK_RETURN_CLAUSE then walk_return_clause (walk fuel) node b current_scope
      else if kind_eqb k SK_CTL_LAMBDA || kind_eqb k SK_FINAL_CTL_LAMBDA || kind_eqb k SK_DIRECT_LAMBDA || kind_eqb k SK_LAMBDA_EXPR then
        walk_lambda (walk fuel) node b current_scope
      else
        match (if kind_eqb k SK_CALL_EXPR && CallExpr_is_with node then CallExpr_with_continuation node else None) with
        | Some cont => walk_with (walk fuel) node cont b current_scope
        | None => walk_children (walk fuel) node b current_scope
        end
  end.

(** ** The query *)

(** The value of a declaration, when it is a lambda. *)
Definition lambda_of (wrapper : Node) : option Node :=
  match name_if (BindDef_cast wrapper) BindDef_value with
  | Some val => if of_kind SK_LAMBDA_EXPR val then Some val else None
  | None => None
  end.

(** The parameters of the function itself are walked too. *)
Definition walk_params (root : N) (plist : Node) (b : BSBuilder) : outcome BSBuilder :=
  each (fun e b =>
          let b := if of_kind SK_PARAM e then bind_tok b root (name_if (Param_cast e) Param_name) e else b in
          walk (height e) e b root)
    (node_children plist) b.

Definition walk_opt (n : option Node) (b : BSBuilder) (scope : N) : outcome BSBuilder :=
  match n with Some n => walk (height n) n b scope | None => Ret b end.

Definition build_scopes (lam : Node) (b : BSBuilder) : outcome BSBuilder :=
  let '(root, b) := scope_push b BODY_SCOPE_NONE (Some lam) in
  let b := tag_node b lam root in
  let! b := match LambdaExpr_params lam with Some ps => walk_params root ps b | None => Ret b end in
  let! b := walk_opt (LambdaExpr_return_type lam) b root in
  walk_opt (LambdaExpr_body lam) b root.

(** The body, the fingerprint, the database and the id map of the declaration's row, which is
    wiped when there is no lambda; the query slot is the engine's. *)
Definition db_query_body_scopes (s : Db) (row : DeclAstIdMap) (wrapper : option Node) : outcome (FnBody * Fingerprint * Db * DeclAstIdMap) :=
  let no_lambda := Ret (empty_body, FINGERPRINT_NONE, s, decl_ast_id_map_init) in
  match wrapper with
  | None => no_lambda
  | Some w =>
      let! map := decl_ast_id_map_walk (height w) w decl_ast_id_map_init in
      match lambda_of w with
      | None => no_lambda
      | Some lam =>
          let so := count_of (body_scope_rows s) in
          let bo := count_of (body_scope_binds s) in
          let! b := build_scopes lam (mkBuilder s so bo ∅ FINGERPRINT_NONE map) in
          let s := db b in
          Ret (mkFnBody so (u32_sub (count_of (body_scope_rows s)) so) bo (u32_sub (count_of (body_scope_binds s)) bo)
                 (Some (scope_map b)),
               fp b, s, row)
      end
  end.

(** ** Lookup *)

(** The scan of the bindings of the body: the last of [scope] named [nm]. *)
Fixpoint scan_binds (scope nm : N) (seen : option N) (binds : list ScopedBind) : option N :=
  match binds with
  | [] => seen
  | bd :: binds =>
      scan_binds scope nm (if (scope_id bd =? scope) && (name bd =? nm) then Some (bind_site_rel bd) else seen) binds
  end.

(** The pools from an offset on. *)
Definition pool_slice {A} (v : list A) (off n : N) : list A := take (N.to_nat n) (drop (N.to_nat off) v).

Fixpoint climb_scopes (fuel : nat) (s : Db) (fb : FnBody) (nm scope : N) : outcome (option N) :=
  match fuel with
  | O => OutOfFuel
  | S fuel =>
      if scope =? BODY_SCOPE_NONE then Ret None
      else
        match scan_binds scope nm None (pool_slice (body_scope_binds s) (fb_bind_off fb) (bind_len fb)) with
        | Some rel => Ret (Some rel)
        | None =>
            if scope_len fb <=? scope then Ret None
            else match body_scope_rows s !! N.to_nat (fb_scope_off fb + scope) with
                 | Some row => climb_scopes fuel s fb nm (parent row)
                 | None => AssertFailed "body_scope_rows read out of range"
                 end
        end
  end.

(** [m] is the id map of the declaration and [wrapper] its current node; a pointer of
    kind [SYNTAX_KIND_NONE] is [None]. *)
Definition db_body_scope_lookup (s : Db) (fb : option FnBody) (m : DeclAstIdMap) (wrapper : option Node) (use_node : Node) (nm : N)
    : outcome (option SyntaxNodePtr) :=
  if nm =? 0 then Ret None
  else
    match fb with
    | None => Ret None
    | Some fb =>
        match fb_scope_map fb with
        | None => Ret None
        | Some map =>
            match (rel ← decl_ast_id_lookup m use_node; map !! rel) with
            | None => Ret None
            | Some v =>
                let! rel := climb_scopes (S (S (N.to_nat (scope_len fb)))) s fb nm (u32 (v - 1)) in
                match rel with
                | None => Ret None
                | Some rel => let! node := decl_ast_id_resolve wrapper rel in Ret (ptr_of <$> node)
                end
            end
        end
    end.

(** ** References *)

(** [resolve] is [db_body_scope_lookup] in the enclosing function, [internal] the scope of
    the namespace; the state is the string pool and the names handed to
    [db_query_resolve_ref], latest last. *)
Fixpoint record_body_references (fuel : nat) (resolve : Node -> N -> outcome (option SyntaxNodePtr)) (internal : N)
    (node : Node) (st : P * list N)
    : outcome (P * list N) :=
  match fuel with
  | O => OutOfFuel
  | S fuel =>
      if of_kind SK_REF_EXPR node || of_kind SK_REF_TYPE node then
        match ast_first_token node SK_IDENT with
        | None => Ret st
        | Some tok =>
            let '(p, nm) := pool_intern st.1 (text_of tok) in
            if nm =? 0 then Ret (p, st.2)
            else
              let! bind := resolve node nm in
              Ret (p, match bind with Some _ => st.2 | None => if internal =? 0 then st.2 else st.2 ++ [nm] end)
        end
      else if of_kind SK_FIELD_EXPR node then
        match first_node node with
        | Some base => record_body_references fuel resolve internal base st
        | None => Ret st
        end
      else each (record_body_references fuel resolve internal) (node_children node) st
  end.

(** The body of the lambda of the wrapper. *)
Definition db_query_body_references (s : Db) (fb : option FnBody) (m : DeclAstIdMap) (wrapper : option Node) (internal : N) : outcome (Db * list N) :=
  match (w ← wrapper; lam ← lambda_of w; LambdaExpr_body lam) with
  | None => Ret (s, [])
  | Some body =>
      let! (p, log) := record_body_references (height body) (db_body_scope_lookup s fb m wrapper) internal body (strings s, []) in
      Ret (mkDb p (RESUME s) (body_scope_rows s) (body_scope_binds s), log)
  end.

End Build.

Arguments Db : clear implicits.
Arguments BSBuilder : clear implicits.

End BodyScopes.
