(* ===== verification/BodyScopesFacts.v ===== *)
(** * Facts on body scopes: numbering, and the lexical rules that the walk carries out *)

From stdpp Require Import gmap.
From S2P Require Import Prelude SyntaxKind Green GreenFacts Red RedNav RedTokens RedPtr Interner Engine Fingerprint Ast BodyScopes.
Import SyntaxKind Green GreenFacts Red RedTree RedNav RedTokens RedPtr Engine Fingerprint Handle Ast BodyScopes.

Module BodyScopesFacts.

#[local] Open Scope N_scope.
#[local] Open Scope ore_scope.

(** ** The nodes of a declaration in preorder *)

Fixpoint preorder_at (fuel : nat) (n : Node) : list Node :=
  match fuel with
  | O => []
  | S fuel => n :: concat (map (preorder_at fuel) (node_children n))
  end.

Definition preorder (n : Node) : list Node := preorder_at (height n) n.

Lemma in_children n c : c ∈ children n -> exists i o g, green_node_child (tree n) i = Some (o, g) /\ c = child_node n i (o, g).
Proof.
  unfold children. assert (H : forall cs i, c ∈ children_from n i cs -> exists j e, cs !! j = Some e /\ c = child_node n (i + N.of_nat j) e).
  { induction cs as [|e cs IH]; intros i; cbn [children_from]; [by intros ?%not_elem_of_nil|]. intros [->|H]%elem_of_cons.
    - exists 0%nat, e. split; [done|]. by rewrite N.add_0_r.
    - destruct (IH _ H) as (j & e' & Hj & ->). exists (S j), e'. split; [done|]. f_equal. lia. }
  intros (j & [o g] & Hj & ->)%H. exists (0 + N.of_nat j), o, g. split; [|done]. unfold green_node_child.
  rewrite N.add_0_l, Nat2N.id. rewrite <- Hj. clear. generalize (green_children (tree n)). intros l. revert l. induction j as [|j IH]; intros [|x l]; try done. apply IH.
Qed.

Lemma child_height n c : c ∈ children n -> (height c < height n)%nat.
Proof. intros (i & o & g & Hg & ->)%in_children. unfold height. cbn. by eapply green_height_child. Qed.

Lemma node_child_in n c : c ∈ node_children n <-> is_node c = true /\ c ∈ children n.
Proof. unfold node_children. rewrite list_elem_of_filter. by rewrite Is_true_true. Qed.

Lemma node_child_height n c : c ∈ node_children n -> (height c < height n)%nat.
Proof. intros [_ H]%node_child_in. by apply child_height. Qed.

Lemma node_height n : is_node n = true -> (0 < height n)%nat.
Proof. unfold height, is_node. destruct (tree n); cbn; [lia|done]. Qed.

(** Walks that agree on the children agree on their concatenation. *)
Lemma concat_ext {A} (f g : Node -> list A) l : (forall c, c ∈ l -> f c = g c) -> concat (map f l) = concat (map g l).
Proof. intros H. f_equal. apply map_ext_in. intros c Hc. apply H. by apply list_elem_of_In. Qed.

Lemma preorder_fuel f g n : is_node n = true -> (height n <= f)%nat -> (height n <= g)%nat -> preorder_at f n = preorder_at g n.
Proof.
  revert g n. induction f as [|f IH]; intros g n Hn Hf Hg; pose proof (node_height n Hn); [lia|]. destruct g as [|g]; [lia|].
  cbn. f_equal. apply concat_ext. intros c Hc. pose proof (node_child_height _ _ Hc). apply node_child_in in Hc as [Hc _]. apply IH; [done|lia..].
Qed.

Lemma preorder_more fuel n : is_node n = true -> (height n <= fuel)%nat -> preorder_at fuel n = preorder n.
Proof. intros Hn Hf. by apply preorder_fuel. Qed.

Lemma preorder_node n : is_node n = true -> preorder n = n :: concat (map preorder (node_children n)).
Proof.
  intros Hn. rewrite <- (preorder_more (S (height n)) n Hn) by lia. cbn. f_equal. apply concat_ext. intros c Hc.
  pose proof (node_child_height _ _ Hc). apply node_child_in in Hc as [Hc _]. apply preorder_more; [done|lia].
Qed.

(** Induction on the nodes of a tree. *)
Lemma node_ind (Q : Node -> Prop) :
  (forall n, is_node n = true -> (forall c, c ∈ node_children n -> Q c) -> Q n) -> forall n, is_node n = true -> Q n.
Proof.
  intros H. enough (G : forall h n, (height n <= h)%nat -> is_node n = true -> Q n) by (intros n; by apply (G (height n))).
  induction h as [|h IH]; intros n Hh Hn; pose proof (node_height n Hn); [lia|]. apply H; [done|]. intros c Hc.
  pose proof (node_child_height _ _ Hc). apply node_child_in in Hc as [Hc _]. apply IH; [lia|done].
Qed.

Definition below (m n : Node) : Prop := m ∈ preorder n.

Lemma below_refl n : is_node n = true -> below n n.
Proof. intros Hn. unfold below. rewrite (preorder_node n Hn). set_solver. Qed.

Lemma in_concat_map {A B} (f : A -> list B) l y : y ∈ concat (map f l) <-> exists x, x ∈ l /\ y ∈ f x.
Proof.
  rewrite list_elem_of_In, in_concat. setoid_rewrite in_map_iff. setoid_rewrite <- list_elem_of_In. naive_solver.
Qed.

Lemma below_child n c m : is_node n = true -> c ∈ node_children n -> below m c -> below m n.
Proof. intros Hn Hc Hm. unfold below. rewrite (preorder_node n Hn). apply elem_of_cons. right. apply in_concat_map. by exists c. Qed.

Lemma below_trans a b c : is_node c = true -> below a b -> below b c -> below a c.
Proof.
  intros Hc Hab. revert c Hc. apply (node_ind (fun c => below b c -> below a c)). intros n Hn IH Hb. unfold below in Hb.
  rewrite (preorder_node n Hn) in Hb. apply elem_of_cons in Hb as [->|(x & Hx & Hb)%in_concat_map]; [done|]. eapply below_child; [done..|]. by apply IH.
Qed.

Lemma below_is_node m n : is_node n = true -> below m n -> is_node m = true.
Proof.
  revert n. apply (node_ind (fun n => below m n -> is_node m = true)). intros n Hn IH Hb. unfold below in Hb. rewrite (preorder_node n Hn) in Hb.
  apply elem_of_cons in Hb as [->|(x & Hx & Hb)%in_concat_map]; [done|]. by apply (IH x).
Qed.

Lemma below_height m n : is_node n = true -> below m n -> (height m <= height n)%nat.
Proof.
  revert n. apply (node_ind (fun n => below m n -> (height m <= height n)%nat)). intros n Hn IH Hb. unfold below in Hb. rewrite (preorder_node n Hn) in Hb.
  apply elem_of_cons in Hb as [->|(x & Hx & Hb)%in_concat_map]; [done|]. pose proof (IH x Hx Hb). pose proof (node_child_height _ _ Hx). lia.
Qed.

(** ** Loops *)

Lemma each_app {S} (f : Node -> S -> outcome S) l1 l2 s : each f (l1 ++ l2) s = let! s := each f l1 s in each f l2 s.
Proof. revert s. induction l1 as [|e l1 IH]; intros s; [done|]. cbn. destruct (f e s); [|done..]. apply IH. Qed.

Lemma each_ext {S} (f g : Node -> S -> outcome S) l s : (forall e s, e ∈ l -> f e s = g e s) -> each f l s = each g l s.
Proof.
  revert s. induction l as [|e l IH]; intros s H; [done|]. cbn. rewrite H by set_solver. destruct (g e s); [|done..]. cbn. apply IH. intros. apply H. set_solver.
Qed.

(** A loop whose body folds a list folds the concatenation. *)
Lemma each_fold {S A} (f : Node -> S -> outcome S) (step : S -> A -> S) (items : Node -> list A) l s :
  (forall e s, e ∈ l -> f e s = Ret (foldl step s (items e))) -> each f l s = Ret (foldl step s (concat (map items l))).
Proof.
  revert s. induction l as [|e l IH]; intros s H; [done|]. cbn. rewrite H by set_solver. cbn. rewrite foldl_app. apply IH. intros. apply H. set_solver.
Qed.

(** ** The walks follow the preorder *)

Definition number (m : DeclAstIdMap) (n : Node) : DeclAstIdMap :=
  mkIdMap (<[syntax_node_ptr_hash (ptr_of n) := next_id m + 1]> (BodyScopes.rev m)) (u32 (next_id m + 1)).

Lemma map_walk_preorder fuel n m : is_node n = true -> (height n <= fuel)%nat ->
  decl_ast_id_map_walk fuel n m = Ret (foldl number m (preorder n)).
Proof.
  revert n m. induction fuel as [|f IH]; intros n m Hn Hf; pose proof (node_height n Hn); [lia|]. rewrite (preorder_node n Hn). cbn [foldl decl_ast_id_map_walk].
  apply each_fold. intros c s Hc. pose proof (node_child_height _ _ Hc). apply node_child_in in Hc as [Hc _]. apply IH; [done|lia].
Qed.

Lemma collect_preorder fuel n out : is_node n = true -> (height n <= fuel)%nat -> decl_ast_id_collect_walk fuel n out = Ret (out ++ preorder n).
Proof.
  assert (E : forall l out, out ++ l = foldl (fun o (x : Node) => o ++ [x]) out l).
  { induction l as [|x l IH]; intros o; [by rewrite app_nil_r|]. cbn. by rewrite <- IH, <- app_assoc. }
  revert n out. induction fuel as [|f IH]; intros n o Hn Hf; pose proof (node_height n Hn); [lia|]. rewrite (preorder_node n Hn), E. cbn [foldl decl_ast_id_collect_walk].
  apply each_fold. intros c s Hc. pose proof (node_child_height _ _ Hc). apply node_child_in in Hc as [Hc _]. rewrite IH by (done || lia). by rewrite E.
Qed.

(** Searching a list of nodes in order. *)
Definition search (ns : list Node) (f : DeclAstIdFinder) : DeclAstIdFinder :=
  match found f with
  | Some _ => f
  | None => match ns !! N.to_nat (remaining f) with
            | Some x => mkFinder 0 (Some x)
            | None => mkFinder (remaining f - N.of_nat (length ns)) None
            end
  end.

Lemma search_app a b f : search (a ++ b) f = search b (search a f).
Proof.
  unfold search at 1 3. destruct (found f) eqn:E; [by unfold search; rewrite E|]. destruct (a !! N.to_nat (remaining f)) eqn:Ea.
  - by rewrite (lookup_app_l_Some _ _ _ _ Ea).
  - apply lookup_ge_None in Ea. rewrite lookup_app_r by done. unfold search. cbn. rewrite length_app.
    replace (N.to_nat (remaining f - N.of_nat (length a))) with (N.to_nat (remaining f) - length a)%nat by lia.
    destruct (b !! _); [done|]. f_equal. lia.
Qed.

Lemma until_found_search go (l : list Node) f :
  (forall c f, c ∈ l -> found f = None -> go c f = Ret (search (preorder c) f)) -> until_found go l f = Ret (search (concat (map preorder l)) f).
Proof.
  revert f. induction l as [|e l IH]; intros f H; cbn.
  - unfold search. destruct f as [r [x|]]; [done|]. cbn. by rewrite N.sub_0_r.
  - destruct (found f) eqn:E; [by unfold search; rewrite E|]. rewrite H by (done || set_solver). cbn. rewrite search_app. apply IH. intros. apply H; [set_solver|done].
Qed.

Lemma find_preorder fuel n f : is_node n = true -> (height n <= fuel)%nat -> decl_ast_id_find fuel n f = Ret (search (preorder n) f).
Proof.
  revert n f. induction fuel as [|fu IH]; intros n f Hn Hf; pose proof (node_height n Hn); [lia|]. rewrite (preorder_node n Hn). cbn [decl_ast_id_find].
  unfold search at 1. destruct (found f) eqn:E; [done|]. destruct (N.eqb_spec (remaining f) 0) as [->|Hr]; [done|].
  rewrite until_found_search.
  - unfold search. cbn [found remaining]. replace (N.to_nat (remaining f)) with (S (N.to_nat (remaining f - 1))) by lia. cbn.
    destruct (_ !! _); [done|]. do 2 f_equal. lia.
  - intros c f' Hc _. pose proof (node_child_height _ _ Hc). apply node_child_in in Hc as [Hc _]. apply IH; [done|lia].
Qed.

Lemma resolve_preorder w rel : is_node w = true -> decl_ast_id_resolve (Some w) rel = Ret (preorder w !! N.to_nat rel).
Proof. intros Hw. unfold decl_ast_id_resolve. rewrite find_preorder by done. cbn. unfold search. cbn. by destruct (_ !! _). Qed.

(** ** Numbers *)

Definition node_hash (n : Node) : N := syntax_node_ptr_hash (ptr_of n).

Lemma number_other ns m h : h ∉ map node_hash ns -> BodyScopes.rev (foldl number m ns) !! h = BodyScopes.rev m !! h.
Proof.
  revert m. induction ns as [|n ns IH]; intros m H; [done|]. cbn in *. rewrite IH by set_solver. cbn. apply lookup_insert_ne. unfold node_hash in H. set_solver.
Qed.

Lemma number_lookup ns m i n : NoDup (map node_hash ns) -> next_id m + N.of_nat (length ns) < 2 ^ 32 -> ns !! i = Some n ->
  decl_ast_id_lookup (foldl number m ns) n = Some (next_id m + N.of_nat i).
Proof.
  revert m i. induction ns as [|x ns IH]; intros m [|i] Hd Hl Hi; [done..| |]; cbn in Hd, Hl, Hi |- *; apply NoDup_cons in Hd as [Hx Hd].
  - injection Hi as ->. unfold decl_ast_id_lookup. rewrite number_other by done. cbn. rewrite lookup_insert_eq. cbn. f_equal. rewrite u32_small; lia.
  - rewrite (IH _ i Hd) by (cbn; rewrite ?u32_small by lia; lia || done). cbn. f_equal. rewrite u32_small; lia.
Qed.

(** ** The lexical rules

    What a node does to the scopes: slot 0 is the scope the node is in, and each [AOpen]
    opens the next slot in the scope of slot [k].  Names are read before they are bound. *)

Inductive action : Type :=
  | AOpen (k : nat) (site : Node)
  | ANames (tok : option Node)
  | ABind (k : nat) (site : Node)
  | AResume (k : nat) (site : Node)
  | AWalk (k : nat) (child : Node).

Definition binds (k : nat) (tok : option Node) (site : Node) : list action := [ANames tok; ABind k site].

Definition same (e : Node) (o : option Node) : bool :=
  match o with Some c => syntax_node_ptr_eq (ptr_of e) (ptr_of c) | None => false end.

Definition opt_acts {A} (o : option A) (f : A -> list action) : list action := match o with Some x => f x | None => [] end.

(** The capture and the first branch are in slot 1, the second branch in slot 2. *)
Definition if_rules (n : Node) : list action :=
  let capture := IfExpr_capture n in
  let then_b := IfExpr_then_branch n in
  let else_b := IfExpr_else_branch n in
  opt_acts (match capture with Some c => Some c | None => then_b end) (fun site => [AOpen 0 site]) ++
  opt_acts capture (fun c => binds 1 (name_if (Capture_cast c) Capture_name) c) ++
  opt_acts else_b (fun e => [AOpen 0 e]) ++
  map (fun e => AWalk (if same e capture then 1 else if same e then_b then 1 else if same e else_b then 2 else 0) e) (node_children n).

Definition loop_rules (n : Node) : list action :=
  AOpen 0 n ::
  opt_acts (LoopExpr_capture n) (fun c => binds 1 (name_if (Capture_cast c) Capture_name) c) ++
  map (fun e => AWalk (if same e (LoopExpr_else_branch n) then 0 else 1) e) (node_children n).

Definition return_rules (n : Node) : list action :=
  AOpen 0 n ::
  opt_acts (plist ← ast_first_child n SK_PARAM_LIST; ast_first_child plist SK_PARAM)
    (fun param => binds 1 (name_if (Param_cast param) Param_name) param) ++
  map (fun e => AWalk (if of_kind SK_PARAM_LIST e then 0 else 1) e) (node_children n).

Definition param_rules (k : nat) (e : Node) : list action :=
  if of_kind SK_PARAM e then binds k (name_if (Param_cast e) Param_name) e else [].

Definition lambda_rules (n : Node) : list action :=
  AOpen 0 n ::
  opt_acts (LambdaExpr_params n) (fun plist => concat (map (param_rules 1) (node_children plist))) ++
  (if of_kind SK_CTL_LAMBDA n then [AResume 1 n] else []) ++
  opt_acts (LambdaExpr_body n) (fun body => [AWalk 1 body]).

(** The body of the continuation is in slot 1. *)
Definition argument_rules (cont a : Node) : list action :=
  if same a (Some cont) then opt_acts (name_if (LambdaExpr_cast a) LambdaExpr_body) (fun body => [AWalk 1 body]) else [AWalk 0 a].

Definition with_rules (n cont : Node) : list action :=
  AOpen 0 cont ::
  opt_acts (CallExpr_with_binder n) (fun p => binds 1 (name_if (Param_cast p) Param_name) p) ++
  concat (map (fun e => if of_kind SK_ARG_LIST e then concat (map (argument_rules cont) (node_children e)) else [AWalk 0 e]) (node_children n)).

Definition rules (n : Node) : list action :=
  let k := node_kind n in
  if kind_eqb k SK_BLOCK_STMT || kind_eqb k SK_SWITCH_ARM then AOpen 0 n :: map (AWalk 1) (node_children n)
  else if kind_eqb k SK_BIND_DECL then
    ANames (name_if (BindDef_cast n) BindDef_name) :: map (AWalk 0) (node_children n) ++ [ABind 0 n]
  else if kind_eqb k SK_IF_EXPR then if_rules n
  else if kind_eqb k SK_LOOP_EXPR then loop_rules n
  else if kind_eqb k SK_RETURN_CLAUSE then return_rules n
  else if kind_eqb k SK_CTL_LAMBDA || kind_eqb k SK_FINAL_CTL_LAMBDA || kind_eqb k SK_DIRECT_LAMBDA || kind_eqb k SK_LAMBDA_EXPR then lambda_rules n
  else
    match (if kind_eqb k SK_CALL_EXPR && CallExpr_is_with n then CallExpr_with_continuation n else None) with
    | Some cont => with_rules n cont
    | None => map (AWalk 0) (node_children n)
    end.

(** ** What the rules mean

    A frame is what a scope binds, in order; the last binding of a name holds for all of the
    scope.  An environment is the frames around a node, innermost first. *)

Definition frame : Type := list (list byte * Node).
Definition env : Type := list frame.

(** The environment of a slot. *)
Definition slot_env (envs : list env) (k : nat) : env := match envs !! k with Some e => e | None => [] end.

Definition tok_text (tok : option Node) : list byte := match tok with Some t => text_of t | None => [] end.

(** What a list of actions binds in slot [k]; [hrec] is what a node binds in its own scope. *)
Fixpoint hoists (hrec : Node -> frame) (acts : list action) (pend : list byte) (k : nat) : frame :=
  match acts with
  | [] => []
  | AOpen _ _ :: r => hoists hrec r pend k
  | ANames tok :: r => hoists hrec r (tok_text tok) k
  | ABind j site :: r => (if (j =? k)%nat then match pend with [] => [] | _ => [(pend, site)] end else []) ++ hoists hrec r pend k
  | AResume j site :: r => (if (j =? k)%nat then [(bs "resume", site)] else []) ++ hoists hrec r pend k
  | AWalk j c :: r => (if (j =? k)%nat then hrec c else []) ++ hoists hrec r pend k
  end.

(** The nodes walked, each with its environment; a new slot's frame is all it will bind. *)
Fixpoint scoped (hrec : Node -> frame) (srec : Node -> env -> list (Node * env)) (acts : list action) (pend : list byte) (envs : list env)
    : list (Node * env) :=
  match acts with
  | [] => []
  | AOpen k _ :: r =>
      scoped hrec srec r pend (envs ++ [hoists hrec r pend (length envs) :: slot_env envs k])
  | ANames tok :: r => scoped hrec srec r (tok_text tok) envs
  | ABind _ _ :: r | AResume _ _ :: r => scoped hrec srec r pend envs
  | AWalk k c :: r => srec c (slot_env envs k) ++ scoped hrec srec r pend envs
  end.

Fixpoint hoisted_at (fuel : nat) (n : Node) : frame :=
  match fuel with
  | O => []
  | S fuel => hoists (hoisted_at fuel) (rules n) [] 0
  end.

Fixpoint scoped_at (fuel : nat) (n : Node) (e : env) : list (Node * env) :=
  match fuel with
  | O => []
  | S fuel => (n, e) :: scoped (hoisted_at fuel) (scoped_at fuel) (rules n) [] [e]
  end.

Definition hoisted (n : Node) : frame := hoisted_at (height n) n.
Definition scoped_nodes (n : Node) (e : env) : list (Node * env) := scoped_at (height n) n e.

(** The binding of a name: the last of the innermost frame that has it. *)
Definition in_frame (s : list byte) (fr : frame) : option Node :=
  snd <$> List.find (fun x => bytes_eqb x.1 s) (reverse fr).

Fixpoint lexical_lookup (e : env) (s : list byte) : option Node :=
  match e with
  | [] => None
  | fr :: e => match in_frame s fr with Some site => Some site | None => lexical_lookup e s end
  end.

(** ** A function: its parameters, its return type and its body, in one scope *)

Definition fn_rules (lam : Node) : list action :=
  opt_acts (LambdaExpr_params lam) (fun plist => concat (map (fun e => param_rules 0 e ++ [AWalk 0 e]) (node_children plist))) ++
  opt_acts (LambdaExpr_return_type lam) (fun ret => [AWalk 0 ret]) ++
  opt_acts (LambdaExpr_body lam) (fun body => [AWalk 0 body]).

Definition fn_frame (lam : Node) : frame := hoists hoisted (fn_rules lam) [] 0.

Definition fn_scoped (lam : Node) : list (Node * env) :=
  (lam, [fn_frame lam]) :: scoped hoisted scoped_nodes (fn_rules lam) [] [[fn_frame lam]].

(** The environment of a node of the function: the last one it was walked in. *)
Definition env_of (lam m : Node) : option env :=
  snd <$> List.find (fun x => syntax_node_ptr_eq (ptr_of x.1) (ptr_of m)) (reverse (fn_scoped lam)).

(** The names that a body refers to, in order; the name after a dot is not one. *)
Fixpoint references_at (fuel : nat) (n : Node) : list (Node * list byte) :=
  match fuel with
  | O => []
  | S fuel =>
      if of_kind SK_REF_EXPR n || of_kind SK_REF_TYPE n then
        match ast_first_token n SK_IDENT with Some tok => [(n, text_of tok)] | None => [] end
      else if of_kind SK_FIELD_EXPR n then
        match first_node n with Some base => references_at fuel base | None => [] end
      else concat (map (references_at fuel) (node_children n))
  end.

Definition references (n : Node) : list (Node * list byte) := references_at (height n) n.

(** The node that a name is bound at, where node [m] of the function is. *)
Definition binding_of (lam m : Node) (s : list byte) : option Node := e ← env_of lam m; lexical_lookup e s.

(** The names that no scope of the function binds. *)
Definition is_outer (lam : Node) (x : Node * list byte) : bool :=
  match x.2, binding_of lam x.1 x.2 with _ :: _, None => true | _, _ => false end.

Definition outer_names (lam body : Node) : list (list byte) := map snd (List.filter (is_outer lam) (references body)).

(** ** Accessors stay below *)

Lemma find_in {A} (f : A -> bool) l x : List.find f l = Some x -> x ∈ l /\ f x = true.
Proof. intros [H1 H2]%find_some. split; [|done]. by apply list_elem_of_In. Qed.

Lemma find_child n f c : List.find (fun e => is_node e && f e) (children n) = Some c -> c ∈ node_children n.
Proof. intros [H1 [H2 _]%andb_prop]%find_in. by apply node_child_in. Qed.

Lemma first_child_in n k c : ast_first_child n k = Some c -> c ∈ node_children n.
Proof. apply find_child. Qed.

Lemma first_token_in n k t : ast_first_token n k = Some t -> t ∈ children n.
Proof.
  unfold ast_first_token, first_child_or_token_by_kind. destruct (List.find _ _) as [e|] eqn:E; [|done]. destruct (is_node e); [done|]. intros [= <-].
  by apply find_in in E as [? _].
Qed.

Lemma node_after_in tok seen es c : node_after tok seen es = Some c -> is_node c = true /\ c ∈ es.
Proof.
  revert seen. induction es as [|e es IH]; intros seen; [done|]. cbn. destruct (is_node e) eqn:E; [destruct seen|].
  - intros [= <-]. split; [done|]. set_solver.
  - intros [? ?]%IH. split; [done|]. set_solver.
  - intros [? ?]%IH. split; [done|]. set_solver.
Qed.

Lemma after_token_in n tok c : ast_first_node_after_token n tok = Some c -> c ∈ node_children n.
Proof. intros [? ?]%node_after_in. by apply node_child_in. Qed.

Lemma sibling_in n c x : c ∈ node_children n -> next_sibling c = Some x -> x ∈ node_children n.
Proof.
  intros [_ (i & o & g & _ & ->)%in_children]%node_child_in. unfold next_sibling, siblings_after. cbn. intros [H1 H2]%find_in. apply node_child_in.
  split; [done|]. rewrite <- (take_drop (S (N.to_nat i)) (children n)). apply elem_of_app. by right.
Qed.

Lemma then_in n c : IfExpr_then_branch n = Some c -> c ∈ node_children n.
Proof.
  unfold IfExpr_then_branch. destruct (ast_first_node_after_token n SK_RPAREN) as [t|] eqn:E; [|done]. apply after_token_in in E.
  destruct (of_kind _ _); [by apply sibling_in|by intros [= <-]].
Qed.

Lemma else_in n c : IfExpr_else_branch n = Some c -> c ∈ node_children n.
Proof. unfold IfExpr_else_branch. destruct (IfExpr_then_branch n) as [t|] eqn:E; [|done]. apply then_in in E. by apply sibling_in. Qed.

Lemma lambda_body_in n c : LambdaExpr_body n = Some c -> c ∈ node_children n.
Proof. intros [H1 [H2 _]%andb_prop]%find_in. apply node_child_in. split; [done|]. by apply elem_of_reverse. Qed.

Lemma return_from_in p s es c : return_type_from p s es = Some c -> is_node c = true /\ c ∈ es.
Proof.
  revert p s. induction es as [|e es IH]; intros p s; [done|]. cbn. assert (W : forall p s, return_type_from p s es = Some c -> is_node c = true /\ c ∈ e :: es).
  { intros p' s' [? ?]%IH. split; [done|]. set_solver. }
  destruct (is_node e) eqn:E; [|by apply W]. cbn. destruct p; [|by apply W]. cbn. destruct (_ && _); [by apply W|]. destruct (of_kind _ _); [done|].
  intros [= <-]. split; [done|]. set_solver.
Qed.

Lemma return_type_in n c : LambdaExpr_return_type n = Some c -> c ∈ node_children n.
Proof. intros [? ?]%return_from_in. by apply node_child_in. Qed.

Lemma last_lambda_in es acc c : fold_left (fun cont e => if is_node e && of_kind SK_LAMBDA_EXPR e then Some e else cont) es acc = Some c ->
  acc = Some c \/ is_node c = true /\ c ∈ es.
Proof.
  revert acc. induction es as [|e es IH]; intros acc; [by left|]. cbn. intros [H|[? ?]]%IH; [|right; split; [done|set_solver]].
  destruct (is_node e) eqn:E; [|by left]. cbn in H. destruct (of_kind _ _); [|by left]. injection H as <-. right. split; [done|set_solver].
Qed.

Lemma continuation_in n c : CallExpr_with_continuation n = Some c -> exists args, args ∈ node_children n /\ c ∈ node_children args.
Proof.
  unfold CallExpr_with_continuation. destruct (ast_first_child n SK_ARG_LIST) as [args|] eqn:E; [|done]. intros [?|[? ?]]%last_lambda_in; [done|].
  exists args. split; [by apply first_child_in in E|]. by apply node_child_in.
Qed.

(** ** The rules stay below *)

Definition token_below (t n : Node) : Prop := exists x, below x n /\ t ∈ children x.

Definition act_below (n : Node) (a : action) : Prop :=
  match a with
  | AOpen _ s | ABind _ s | AResume _ s => below s n
  | ANames (Some t) => token_below t n
  | ANames None => True
  | AWalk _ c => below c n /\ (height c < height n)%nat
  end.

Lemma child_below n c : is_node n = true -> c ∈ node_children n -> below c n.
Proof. intros Hn Hc. eapply below_child; [done..|]. apply below_refl. by apply node_child_in in Hc as [? _]. Qed.

Lemma grandchild_below n c d : is_node n = true -> c ∈ node_children n -> d ∈ node_children c -> below d n.
Proof. intros Hn Hc Hd. eapply below_child; [done..|]. apply child_below; [|done]. by apply node_child_in in Hc as [? _]. Qed.

Lemma walk_below k n c : is_node n = true -> c ∈ node_children n -> act_below n (AWalk k c).
Proof. intros Hn Hc. split; [by apply child_below|]. by apply node_child_height. Qed.

Lemma walk_below2 k n c d : is_node n = true -> c ∈ node_children n -> d ∈ node_children c -> act_below n (AWalk k d).
Proof.
  intros Hn Hc Hd. split; [by eapply grandchild_below|]. apply node_child_height in Hc. apply node_child_height in Hd. lia.
Qed.

Lemma binds_below n k (casted : option Node) site t : below site n -> (casted = None \/ casted = Some site) ->
  Forall (act_below n) (binds k (name_if casted (fun x => ast_first_token x t)) site).
Proof.
  intros Hs Hc. apply Forall_cons; split; [|by apply Forall_singleton]. destruct Hc as [->| ->]; cbn; [done|].
  destruct (ast_first_token site t) as [tok|] eqn:E; [|done]. exists site. split; [done|]. by eapply first_token_in.
Qed.

Lemma cast_cases k n : cast k n = None \/ cast k n = Some n.
Proof. unfold cast. destruct (of_kind k n); auto. Qed.

Lemma opt_below {A} (Q : action -> Prop) (o : option A) f : (forall x, o = Some x -> Forall Q (f x)) -> Forall Q (opt_acts o f).
Proof. destruct o; cbn; [by auto|done]. Qed.

Lemma map_below (Q : action -> Prop) (f : Node -> action) l : (forall x, x ∈ l -> Q (f x)) -> Forall Q (map f l).
Proof. intros H. apply Forall_forall. intros a (x & -> & Hx)%list_elem_of_fmap. by apply H. Qed.

Lemma concat_below (Q : action -> Prop) (f : Node -> list action) l : (forall x, x ∈ l -> Forall Q (f x)) -> Forall Q (concat (map f l)).
Proof. intros H. apply Forall_forall. intros a (x & Hx & Ha)%in_concat_map. specialize (H x Hx). rewrite Forall_forall in H. by apply H. Qed.

Lemma param_below n k e : below e n -> Forall (act_below n) (param_rules k e).
Proof. intros H. unfold param_rules. destruct (of_kind _ _); [|done]. apply binds_below; [done|]. apply cast_cases. Qed.

Create HintDb below.
#[local] Hint Resolve below_refl child_below grandchild_below walk_below walk_below2 cast_cases first_child_in then_in else_in after_token_in lambda_body_in return_type_in : below.

Lemma argument_below n args cont a : is_node n = true -> args ∈ node_children n -> a ∈ node_children args -> Forall (act_below n) (argument_rules cont a).
Proof.
  intros Hn Ha Hc. unfold argument_rules. destruct (same _ _); [|apply Forall_singleton; eauto with below]. apply opt_below. intros body Hb. apply Forall_singleton.
  unfold LambdaExpr_cast in Hb. destruct (ore_kind_is_lambda _); [|done]. apply lambda_body_in in Hb.
  assert (Hna : is_node args = true) by (by apply node_child_in in Ha as [? _]). split.
  - apply (below_child n args); [done..|]. by apply (grandchild_below args a).
  - apply node_child_height in Ha, Hc, Hb. lia.
Qed.

Lemma rules_below n : is_node n = true -> Forall (act_below n) (rules n).
Proof.
  intros Hn. unfold rules. destruct (_ || _).
  { apply Forall_cons. split; [by apply below_refl|]. apply map_below. intros. by apply walk_below. }
  destruct (kind_eqb _ SK_BIND_DECL).
  { apply Forall_cons. split; [|apply Forall_app; split; [apply map_below; intros; by apply walk_below|apply Forall_singleton; by apply below_refl]].
    pose proof (binds_below n 0 (BindDef_cast n) n SK_IDENT (below_refl n Hn) (cast_cases _ _)) as [H _]%Forall_cons. exact H. }
  destruct (kind_eqb _ SK_IF_EXPR).
  { unfold if_rules. rewrite !Forall_app. repeat split; [| |apply opt_below|apply map_below; intros; by apply walk_below].
    - apply opt_below. intros x Hx. apply Forall_singleton. destruct (IfExpr_capture n) eqn:E; [injection Hx as <-|]; cbn; eauto with below.
    - apply opt_below. intros c Hc. apply binds_below; [|apply cast_cases]. unfold IfExpr_capture in Hc. eauto with below.
    - intros e He. apply Forall_singleton. cbn. eauto with below. }
  destruct (kind_eqb _ SK_LOOP_EXPR).
  { unfold loop_rules. apply Forall_cons. split; [by apply below_refl|]. rewrite Forall_app. split; [|apply map_below; intros; by apply walk_below].
    apply opt_below. intros c Hc. apply binds_below; [|apply cast_cases]. unfold LoopExpr_capture in Hc. eauto with below. }
  destruct (kind_eqb _ SK_RETURN_CLAUSE).
  { unfold return_rules. apply Forall_cons. split; [by apply below_refl|]. rewrite Forall_app. split; [|apply map_below; intros; by apply walk_below].
    apply opt_below. intros p Hp. apply bind_Some in Hp as (pl & Hpl & Hp). apply binds_below; [|apply cast_cases]. eauto with below. }
  destruct (_ || _).
  { unfold lambda_rules. apply Forall_cons. split; [by apply below_refl|]. rewrite !Forall_app. repeat split.
    - apply opt_below. intros pl Hpl. apply concat_below. intros x Hx. apply param_below. unfold LambdaExpr_params in Hpl. eauto with below.
    - destruct (of_kind _ _); [|done]. apply Forall_singleton. by apply below_refl.
    - apply opt_below. intros body Hb. apply Forall_singleton. eauto with below. }
  destruct (if kind_eqb (node_kind n) SK_CALL_EXPR && CallExpr_is_with n then CallExpr_with_continuation n else None) as [cont|] eqn:E; [|apply map_below; intros; by apply walk_below].
  destruct (_ && _); [|done]. apply continuation_in in E as (args & Ha & Hc). unfold with_rules. apply Forall_cons. split; [by apply (grandchild_below n args)|].
  rewrite Forall_app. split.
  - apply opt_below. intros p Hp. apply binds_below; [|apply cast_cases]. unfold CallExpr_with_binder in Hp. eauto with below.
  - apply concat_below. intros e He. destruct (of_kind _ _); [|apply Forall_singleton; by apply walk_below]. apply concat_below. intros a Hin.
    by apply (argument_below n e).
Qed.

Lemma fn_rules_below lam : is_node lam = true -> Forall (act_below lam) (fn_rules lam).
Proof.
  intros Hn. unfold fn_rules. rewrite !Forall_app. repeat split.
  - apply opt_below. intros pl Hpl. apply concat_below. intros x Hx. unfold LambdaExpr_params in Hpl. apply Forall_app. split; [apply param_below|apply Forall_singleton]; eauto with below.
  - apply opt_below. intros r Hr. apply Forall_singleton. eauto with below.
  - apply opt_below. intros r Hr. apply Forall_singleton. eauto with below.
Qed.

(** ** The walk carries out the rules *)

Section Exec.

Context {P : Type} `{!Interner P}.
Notation Builder := (BSBuilder P).

(** [slots] are the scopes of the slots, [pend] the name read last. *)
Fixpoint exec (rec : Node -> Builder -> N -> outcome Builder) (acts : list action) (slots : list N) (pend : N) (b : Builder) : outcome Builder :=
  match acts with
  | [] => Ret b
  | AOpen k site :: r =>
      match slots !! k with
      | Some par => let '(id, b) := scope_push b par (Some site) in exec rec r (slots ++ [id]) pend b
      | None => AssertFailed "slot"
      end
  | ANames tok :: r => let '(s, nm) := intern_tok (db b) tok in exec rec r slots nm (with_db b s)
  | ABind k site :: r =>
      match slots !! k with
      | Some sc => exec rec r slots pend (if negb (pend =? 0) then bind_push b sc pend site else b)
      | None => AssertFailed "slot"
      end
  | AResume k site :: r =>
      match slots !! k with
      | Some sc => exec rec r slots pend (bind_push b sc (RESUME (db b)) site)
      | None => AssertFailed "slot"
      end
  | AWalk k c :: r =>
      match slots !! k with
      | Some sc => let! b := rec c b sc in exec rec r slots pend b
      | None => AssertFailed "slot"
      end
  end.

Lemma exec_walks rec (slot : Node -> nat) (sc : Node -> N) l r slots pend b : (forall e, e ∈ l -> slots !! slot e = Some (sc e)) ->
  exec rec (map (fun e => AWalk (slot e) e) l ++ r) slots pend b = let! b := each (fun e b => rec e b (sc e)) l b in exec rec r slots pend b.
Proof.
  revert b. induction l as [|e l IH]; intros b H; [done|]. cbn. rewrite H by set_solver. destruct (rec e b (sc e)) as [b1| |]; [|done..]. cbn. apply IH.
  intros. apply H. set_solver.
Qed.

Lemma exec_walks_end rec (slot : Node -> nat) (sc : Node -> N) l slots pend b : (forall e, e ∈ l -> slots !! slot e = Some (sc e)) ->
  exec rec (map (fun e => AWalk (slot e) e) l) slots pend b = each (fun e b => rec e b (sc e)) l b.
Proof.
  intros H. rewrite <- (app_nil_r (map _ l)), (exec_walks rec slot sc) by done. by destruct (each _ _ _).
Qed.

Lemma exec_binds rec k tok site r slots pend sc b : slots !! k = Some sc ->
  exists nm, exec rec (binds k tok site ++ r) slots pend b = exec rec r slots nm (bind_tok b sc tok site).
Proof.
  intros H. cbn. unfold bind_tok. destruct (intern_tok _ _) as [s nm]. rewrite H. by exists nm.
Qed.

(** What follows a conditional binding does not depend on the name read. *)
Lemma exec_opt_binds rec (o : option Node) k (tok : Node -> option Node) r slots sc :
  (forall pend pend' b, exec rec r slots pend b = exec rec r slots pend' b) -> slots !! k = Some sc ->
  forall pend b, exec rec (opt_acts o (fun c => binds k (tok c) c) ++ r) slots pend b =
    exec rec r slots 0 (match o with Some c => bind_tok b sc (tok c) c | None => b end).
Proof.
  intros Hr Hk pend b. destruct o as [c|]; cbn [opt_acts]; [|apply Hr]. destruct (exec_binds rec k (tok c) c r slots pend sc b Hk) as (nm & ->). apply Hr.
Qed.

Lemma exec_params rec k l r slots sc : (forall pend pend' b, exec rec r slots pend b = exec rec r slots pend' b) -> slots !! k = Some sc ->
  forall pend b, exec rec (concat (map (param_rules k) l) ++ r) slots pend b = exec rec r slots 0 (bind_params sc l b).
Proof.
  intros Hr Hk. induction l as [|e l IH]; intros pend b; [apply Hr|]. cbn [concat map bind_params]. rewrite <- app_assoc. unfold param_rules at 1. destruct (of_kind SK_PARAM e).
  - destruct (exec_binds rec k (name_if (Param_cast e) Param_name) e (concat (map (param_rules k) l) ++ r) slots pend sc b Hk) as (nm & ->). apply IH.
  - apply IH.
Qed.

Lemma walk_pend rec (slot : Node -> nat) (sc : Node -> N) l slots : (forall e, e ∈ l -> slots !! slot e = Some (sc e)) ->
  forall pend pend' b, exec rec (map (fun e => AWalk (slot e) e) l) slots pend b = exec rec (map (fun e => AWalk (slot e) e) l) slots pend' b.
Proof. intros H pend pend' b. by rewrite !(exec_walks_end rec slot sc). Qed.

Lemma if_exec rec n cur b : walk_if rec n b cur = exec rec (if_rules n) [cur] 0 b.
Proof.
  unfold walk_if, if_rules. set (cap := IfExpr_capture n). set (th := IfExpr_then_branch n). set (el := IfExpr_else_branch n).
  assert (Hel : th = None -> el = None) by (unfold el, IfExpr_else_branch; fold th; by intros ->).
  set (slot := fun e => if same e cap then 1%nat else if same e th then 1%nat else if same e el then 2%nat else 0%nat).
  assert (Hw : forall slots sc, (forall e, e ∈ node_children n -> slots !! slot e = Some (sc e)) -> forall pend b,
    exec rec (map (fun e => AWalk (slot e) e) (node_children n)) slots pend b = each (fun e b => rec e b (sc e)) (node_children n) b).
  { intros. by apply exec_walks_end. }
  unfold walk_children_scoped. clearbody cap th el.
  destruct cap as [c|].
  all: destruct th as [t|].
  all: destruct el as [e|]; try by (specialize (Hel eq_refl)).
  all: cbn [opt_acts app].
  all: try (cbn [exec lookup list_lookup]; destruct (scope_push b cur _) as [ts b1] eqn:?).
  all: try (match goal with |- context [binds 1 ?tok ?c ++ ?r] =>
         destruct (exec_binds rec 1 tok c r [cur; ts] 0 ts b1 eq_refl) as (nm & Hb); cbn [app] in Hb |- *; rewrite Hb end).
  all: try (cbn [exec lookup list_lookup app]; destruct (scope_push _ cur (Some e)) as [es b2] eqn:?).
  all: symmetry; apply Hw; intros x _; unfold slot; cbn [same child_scope app].
  all: repeat (destruct (syntax_node_ptr_eq _ _); [done|]).
  all: done.
Qed.

Lemma loop_exec rec n cur b : walk_loop rec n b cur = exec rec (loop_rules n) [cur] 0 b.
Proof.
  unfold walk_loop, loop_rules, walk_children_scoped. cbn [exec lookup list_lookup app]. destruct (scope_push b cur (Some n)) as [ls b1] eqn:?. cbn [app].
  assert (Hs : forall e, e ∈ node_children n -> [cur; ls] !! (if same e (LoopExpr_else_branch n) then 0%nat else 1%nat) =
    Some (child_scope e ls (match LoopExpr_else_branch n with Some e => [(e, cur)] | None => [] end))).
  { intros x _. destruct (LoopExpr_else_branch n) as [e|]; cbn [same child_scope]; [|done]. by destruct (syntax_node_ptr_eq _ _). }
  rewrite (exec_opt_binds rec _ 1 _ _ [cur; ls] ls (walk_pend rec _ _ _ _ Hs) eq_refl). by rewrite (exec_walks_end rec _ _ _ _ _ _ Hs).
Qed.

Lemma return_exec rec n cur b : walk_return_clause rec n b cur = exec rec (return_rules n) [cur] 0 b.
Proof.
  unfold walk_return_clause, return_rules. cbn [exec lookup list_lookup app]. destruct (scope_push b cur (Some n)) as [cs b1] eqn:?. cbn [app].
  assert (Hs : forall e, e ∈ node_children n -> [cur; cs] !! (if of_kind SK_PARAM_LIST e then 0%nat else 1%nat) = Some (if of_kind SK_PARAM_LIST e then cur else cs)).
  { intros e _. by destruct (of_kind _ _). }
  rewrite (exec_opt_binds rec _ 1 _ _ [cur; cs] cs (walk_pend rec _ _ _ _ Hs) eq_refl), (exec_walks_end rec _ _ _ _ _ _ Hs).
  by destruct (ast_first_child n SK_PARAM_LIST) as [pl|]; cbn; [destruct (ast_first_child pl SK_PARAM)|].
Qed.

Lemma lambda_exec rec n cur b : LambdaExpr_cast n = Some n -> walk_lambda rec n b cur = exec rec (lambda_rules n) [cur] 0 b.
Proof.
  intros Hc. unfold walk_lambda, lambda_rules. cbn [exec lookup list_lookup app]. destruct (scope_push b cur (Some n)) as [cs b1] eqn:?. cbn [app]. rewrite Hc.
  assert (Hr : forall pend b, exec rec ((if of_kind SK_CTL_LAMBDA n then [AResume 1 n] else []) ++ opt_acts (LambdaExpr_body n) (fun body => [AWalk 1 body])) [cur; cs] pend b =
    let b := if of_kind SK_CTL_LAMBDA n then bind_push b cs (RESUME (db b)) n else b in match LambdaExpr_body n with Some body => rec body b cs | None => Ret b end).
  { intros pend b0. destruct (of_kind _ _), (LambdaExpr_body n); cbn; try done; by destruct (rec _ _ _). }
  destruct (LambdaExpr_params n) as [pl|]; cbn [opt_acts app]; [|by rewrite Hr].
  rewrite (exec_params rec 1 _ _ [cur; cs] cs); [by rewrite Hr| |done]. intros. by rewrite !Hr.
Qed.

Lemma arguments_exec rec cont l cur cs r pend b :
  exec rec (concat (map (argument_rules cont) l) ++ r) [cur; cs] pend b =
  let! b := each (fun e b => if syntax_node_ptr_eq (ptr_of e) (ptr_of cont) then
                               match name_if (LambdaExpr_cast e) LambdaExpr_body with Some body => rec body b cs | None => Ret b end
                             else rec e b cur) l b in
  exec rec r [cur; cs] pend b.
Proof.
  revert b. induction l as [|e l IH]; intros b; [done|]. cbn [concat map each]. rewrite <- app_assoc. unfold argument_rules at 1. cbn [same].
  destruct (syntax_node_ptr_eq _ _); [destruct (name_if _ _) as [body|]|]; cbn [opt_acts app exec lookup list_lookup obind].
  - destruct (rec body b cs); [|done..]. apply IH.
  - apply IH.
  - destruct (rec e b cur); [|done..]. apply IH.
Qed.

Lemma with_exec rec n cont cur b : walk_with rec n cont b cur = exec rec (with_rules n cont) [cur] 0 b.
Proof.
  unfold walk_with, with_rules. cbn [exec lookup list_lookup app]. destruct (scope_push b cur (Some cont)) as [cs b1] eqn:?. cbn [app].
  set (step := fun e b => if of_kind SK_ARG_LIST e then walk_with_arglist rec e b cur cs (ptr_of cont) else rec e b cur).
  assert (Hl : forall l pend b, exec rec (concat (map (fun e => if of_kind SK_ARG_LIST e then concat (map (argument_rules cont) (node_children e)) else [AWalk 0 e]) l)) [cur; cs] pend b =
    each step l b).
  { induction l as [|e l IH]; intros pend b0; [done|]. cbn [concat map each]. unfold step at 1. destruct (of_kind _ _).
    - rewrite arguments_exec. unfold walk_with_arglist. destruct (each _ _ b0); [|done..]. apply IH.
    - cbn [app exec lookup list_lookup]. destruct (rec e b0 cur); [|done..]. apply IH. }
  rewrite (exec_opt_binds rec _ 1 (fun p => name_if (Param_cast p) Param_name) _ [cur; cs] cs); [by rewrite Hl| |done]. intros. by rewrite !Hl.
Qed.

Theorem walk_rules f n b cur : walk (S f) n b cur = exec (walk f) (rules n) [cur] 0 (tag_node b n cur).
Proof.
  cbn [walk]. generalize (tag_node b n cur). intros b0. unfold rules. destruct (_ || _).
  { cbn [exec lookup list_lookup app]. destruct (scope_push b0 cur (Some n)) as [child b1]. unfold walk_children_scoped. symmetry.
    by apply (exec_walks_end (walk f) (fun _ => 1%nat) (fun _ => child)). }
  destruct (kind_eqb _ SK_BIND_DECL).
  { cbn [exec]. destruct (intern_tok _ _) as [s nm]. unfold walk_children_scoped. rewrite (exec_walks (walk f) (fun _ => 0%nat) (fun _ => cur)) by done. cbn [child_scope].
    by destruct (each _ _ _). }
  destruct (kind_eqb _ SK_IF_EXPR); [apply if_exec|]. destruct (kind_eqb _ SK_LOOP_EXPR); [apply loop_exec|]. destruct (kind_eqb _ SK_RETURN_CLAUSE); [apply return_exec|].
  destruct (_ || _) eqn:El.
  { apply lambda_exec. unfold LambdaExpr_cast. repeat (apply orb_prop in El as [El|El]); apply kind_eqb_eq in El; by rewrite El. }
  destruct (if kind_eqb (node_kind n) SK_CALL_EXPR && CallExpr_is_with n then CallExpr_with_continuation n else None); [apply with_exec|].
  symmetry. by apply (exec_walks_end (walk f) (fun _ => 0%nat) (fun _ => cur)).
Qed.

End Exec.

End BodyScopesFacts.
