(* ===== verification/BodyScopesTheorems.v ===== *)
(** * Body scopes are lexical scopes

    The numbering of a declaration resolves back, also after the declaration has moved; the
    tables that the walk builds answer every lookup as the lexical rules do
    ([BodyScopesFacts]); what the body refers to outside is what those rules leave free. *)

From stdpp Require Import gmap.
From S2P Require Import Prelude SyntaxKind Green GreenFacts Red RedNav RedPtr Interner StringPool StringPoolTheorems Token Lexer Layout Parser ParseExpr Engine Fingerprint Ast BodyScopes BodyScopesFacts.
Import SyntaxKind Green GreenFacts Red RedTree RedNav RedPtr Engine Fingerprint Handle Ast BodyScopes BodyScopesFacts.

Module BodyScopesMeaning.

#[local] Open Scope N_scope.
#[local] Open Scope ore_scope.

Section Meaning.

Context {P : Type} `{InternerLaws P}.
Context (w : Node).
Notation Builder := (BSBuilder P).

(** Node [m] of the declaration [w] has number [rel]. *)
Definition has_number (M : DeclAstIdMap) (m : Node) (rel : N) : Prop := decl_ast_id_lookup M m = Some rel /\ below m w.

(** ** What a walk changes *)

Definition pool_grows (p p' : P) : Prop :=
  (pool_fits p' -> pool_fits p) /\
  (pool_fits p' -> pool_wf p -> pool_wf p' /\ forall id s, denotes p id s -> denotes p' id s).

Definition put_tag (m : gmap N N) (t : N * N) : gmap N N := <[t.1 := t.2 + 1]> m.

(** [dR], [dB] and [dT] are the rows, the bindings and the tags added. *)
Record effect (b b' : Builder) (dR : list ScopeRow) (dB : list ScopedBind) (dT : list (N * N)) : Prop := {
  e_rows : body_scope_rows (db b') = body_scope_rows (db b) ++ dR;
  e_binds : body_scope_binds (db b') = body_scope_binds (db b) ++ dB;
  e_tags : scope_map b' = foldl put_tag (scope_map b) dT;
  e_off : scope_off b' = scope_off b;
  e_boff : bind_off b' = bind_off b;
  e_map : decl_map b' = decl_map b;
  e_resume : RESUME (db b') = RESUME (db b);
  e_pool : pool_grows (strings (db b)) (strings (db b'))
}.

Lemma pool_grows_refl p : pool_grows p p.
Proof. by split. Qed.

Lemma pool_grows_trans p q r : pool_grows p q -> pool_grows q r -> pool_grows p r.
Proof. intros [F1 G1] [F2 G2]. split; [by auto|]. intros Hf Hw. destruct (G1 (F2 Hf) Hw) as [W1 D1]. destruct (G2 Hf W1) as [W2 D2]. by auto. Qed.

Lemma effect_refl b : effect b b [] [] [].
Proof. split; rewrite ?app_nil_r; try done. Qed.

Lemma effect_trans b1 b2 b3 dR dB dT dR' dB' dT' : effect b1 b2 dR dB dT -> effect b2 b3 dR' dB' dT' ->
  effect b1 b3 (dR ++ dR') (dB ++ dB') (dT ++ dT').
Proof.
  intros [] []. split; try congruence.
  - rewrite app_assoc. congruence.
  - rewrite app_assoc. congruence.
  - rewrite foldl_app. congruence.
  - by eapply pool_grows_trans.
Qed.

Definition rows_of (b : Builder) : list ScopeRow := drop (N.to_nat (scope_off b)) (body_scope_rows (db b)).
Definition next (b : Builder) : N := N.of_nat (length (rows_of b)).
Definition in_range (b : Builder) : Prop := (N.to_nat (scope_off b) <= length (body_scope_rows (db b)))%nat.

(** The pool is not over-full and the rows are counted in 32 bits. *)
Definition fits (b : Builder) : Prop := pool_fits (strings (db b)) /\ N.of_nat (length (body_scope_rows (db b))) < 2 ^ 32.

Lemma effect_rows b b' dR dB dT : effect b b' dR dB dT -> in_range b -> rows_of b' = rows_of b ++ dR.
Proof. intros [] Hb. unfold rows_of. rewrite e_off0, e_rows0. rewrite drop_app_le by done. done. Qed.

Lemma effect_next b b' dR dB dT : effect b b' dR dB dT -> in_range b -> next b' = next b + N.of_nat (length dR).
Proof. intros E Hb. unfold next. rewrite (effect_rows _ _ _ _ _ E Hb), length_app. lia. Qed.

Lemma effect_range b b' dR dB dT : effect b b' dR dB dT -> in_range b -> in_range b'.
Proof. intros [] Hb. unfold in_range in *. rewrite e_off0, e_rows0, length_app. lia. Qed.

Lemma effect_fits b b' dR dB dT : effect b b' dR dB dT -> fits b' -> fits b.
Proof. intros [] [H1 H2]. split; [by apply e_pool0|]. rewrite e_rows0, length_app in H2. lia. Qed.

Definition resume_ok (b : Builder) : Prop := denotes (strings (db b)) (RESUME (db b)) (bs "resume").

(** ** The tables read as environments *)

Definition frame_at (B : list ScopedBind) (sc : N) : list (N * N) :=
  omap (fun d => if scope_id d =? sc then Some (name d, bind_site_rel d) else None) B.

Lemma frame_at_app A B sc : frame_at (A ++ B) sc = frame_at A sc ++ frame_at B sc.
Proof. apply omap_app. Qed.

(** The final tables of the function, and the pool then. *)
Record Final : Type := mkFinal { f_rows : list ScopeRow; f_binds : list ScopedBind; f_pool : P }.

Definition bound (p : P) (M : DeclAstIdMap) (x : list byte * Node) (y : N * N) : Prop :=
  denotes p y.1 x.1 /\ has_number M x.2 y.2.

Fixpoint env_ok (F : Final) (M : DeclAstIdMap) (e : env) (sc : N) : Prop :=
  match e with
  | [] => sc = BODY_SCOPE_NONE
  | fr :: e =>
      sc < BODY_SCOPE_NONE /\ Forall2 (bound (f_pool F) M) fr (frame_at (f_binds F) sc) /\
      exists row, f_rows F !! N.to_nat sc = Some row /\ (e = [] \/ parent row < sc) /\ env_ok F M e (parent row)
  end.

Definition tagged (F : Final) (M : DeclAstIdMap) (x : Node * env) (y : N * N) : Prop :=
  has_number M x.1 y.1 /\ env_ok F M x.2 y.2.

(** [hs] is what is bound in each slot, [ss] the nodes tagged given the environments of the
    slots. *)
Record means (b b' : Builder) (slots : list N) (hs : nat -> frame) (ss : list env -> list (Node * env)) (dB : list ScopedBind) (dT : list (N * N)) : Prop := {
  m_slots : forall k sc, slots !! k = Some sc -> Forall2 (bound (strings (db b')) (decl_map b)) (hs k) (frame_at dB sc);
  m_only : forall x, frame_at dB x <> [] -> x ∈ slots \/ next b <= x < next b';
  m_tags : forall F envs, rows_of b' `prefix_of` f_rows F -> (forall id s, denotes (strings (db b')) id s -> denotes (f_pool F) id s) ->
    (forall x, next b <= x < next b' -> frame_at (f_binds F) x = frame_at dB x) ->
    Forall2 (env_ok F (decl_map b)) envs slots -> Forall2 (tagged F (decl_map b)) (ss envs) dT
}.

Lemma bound_grows p p' M fr l : (forall id s, denotes p id s -> denotes p' id s) -> Forall2 (bound p M) fr l -> Forall2 (bound p' M) fr l.
Proof. intros Hg Hl. eapply Forall2_impl; [exact Hl|]. intros x y [H1 H2]. split; auto. Qed.

(** ** Primitive steps *)

Lemma push_effect b par site id b1 : scope_push b par site = (id, b1) -> exists rel, effect b b1 [mkScopeRow par rel] [] [].
Proof.
  intros [= _ <-]. exists (rel_of b site). split; rewrite ?app_nil_r; try done; apply pool_grows_refl.
Qed.

Lemma push_id b par site id b1 : scope_push b par site = (id, b1) -> in_range b -> fits b1 -> id = next b /\ next b < BODY_SCOPE_NONE.
Proof.
  intros E Hb [_ Hf]. injection E as <- <-. cbn in Hf. rewrite length_app in Hf. cbn in Hf. unfold in_range in Hb. unfold next, rows_of, count_of. rewrite length_drop.
  rewrite (u32_small (N.of_nat _)) by lia. rewrite u32_sub_small by lia. unfold BODY_SCOPE_NONE. lia.
Qed.

Lemma bind_effect b sc nm site rel : decl_ast_id_lookup (decl_map b) site = Some rel -> effect b (bind_push b sc nm site) [] [mkScopedBind sc nm rel] [].
Proof. intros Hr. split; cbn; rewrite ?app_nil_r, ?Hr; try done; apply pool_grows_refl. Qed.

Lemma tag_effect b n sc rel : decl_ast_id_lookup (decl_map b) n = Some rel -> effect b (tag_node b n sc) [] [] [(rel, sc)].
Proof. intros Hr. unfold tag_node. rewrite Hr. split; cbn; rewrite ?app_nil_r; try done; apply pool_grows_refl. Qed.

Definition short (s : list byte) : Prop := N.of_nat (length s) + 5 < 2 ^ 32.

Lemma names_effect b tok s nm : short (tok_text tok) -> intern_tok (db b) tok = (s, nm) -> effect b (with_db b s) [] [] [].
Proof.
  intros Hs E. destruct tok as [t|]; cbn in E.
  - destruct (pool_intern (strings (db b)) (text_of t)) as [p id] eqn:Ei. injection E as <- <-. split; cbn; rewrite ?app_nil_r; try done. split.
    + intros Hf. eapply intern_fits. by rewrite Ei.
    + intros Hf Hw. edestruct intern_denotes as (W & _ & D); [exact Hw|exact Hs|exact Ei|exact Hf|]. by split.
  - injection E as <- <-. split; cbn; rewrite ?app_nil_r; try done; apply pool_grows_refl.
Qed.

(** The name pending: none, or an id other than 0. *)
Definition pending (p : P) (nm : N) (s : list byte) : Prop :=
  match s with [] => nm = 0 | _ => nm <> 0 /\ denotes p nm s end.

Lemma pending_grows p p' nm s : (forall id s, denotes p id s -> denotes p' id s) -> pending p nm s -> pending p' nm s.
Proof. destruct s; cbn; [done|]. intros Hg [? ?]. auto. Qed.

Lemma names_pending b tok s nm : short (tok_text tok) -> intern_tok (db b) tok = (s, nm) -> pool_fits (strings s) -> pool_wf (strings (db b)) -> pending (strings s) nm (tok_text tok).
Proof.
  intros Hs E Hf Hw. destruct tok as [t|]; cbn in E |- *; [|by injection E as _ <-]. destruct (pool_intern (strings (db b)) (text_of t)) as [p id] eqn:Ei. injection E as <- <-.
  edestruct intern_denotes as (W & D & _); [exact Hw|exact Hs|exact Ei|exact Hf|]. cbn in Hs, D |- *. pose proof (denotes_empty _ _ _ W D) as He. unfold pending.
  destruct (text_of t); [by apply He|]. split; [|done]. intros H0%He. done.
Qed.

(** ** Carrying out rules *)

(** What a recursive call does to a node. *)
Definition walker (M : DeclAstIdMap) (rec : Node -> Builder -> N -> outcome Builder) (hrec : Node -> frame) (srec : Node -> env -> list (Node * env)) (c : Node) : Prop :=
  forall b sc b', rec c b sc = Ret b' -> decl_map b = M ->
  exists dR dB dT, effect b b' dR dB dT /\
    (fits b' -> pool_wf (strings (db b)) -> in_range b -> resume_ok b -> sc < next b ->
     means b b' [sc] (fun _ => hrec c) (fun envs => srec c (slot_env envs 0)) dB dT).

Definition act_ok (M : DeclAstIdMap) rec hrec srec (a : action) : Prop :=
  match a with
  | AOpen _ s => True
  | ABind _ s | AResume _ s => exists rel, has_number M s rel
  | ANames t => short (tok_text t)
  | AWalk _ c => walker M rec hrec srec c
  end.

(** A step that adds no rows, no tags, and one binding at most, in slot [k]. *)
Lemma means_bind b b1 b' slots k sc (d : option ScopedBind) h hs ss dR dB dT :
  effect b b1 [] (option_list d) [] -> effect b1 b' dR dB dT -> slots !! k = Some sc -> NoDup slots -> pool_fits (strings (db b')) -> pool_wf (strings (db b)) ->
  (forall sc', frame_at (option_list d) sc' <> [] -> sc' = sc) -> Forall2 (bound (strings (db b1)) (decl_map b)) h (frame_at (option_list d) sc) -> Forall (fun x => x < next b) slots ->
  in_range b -> means b1 b' slots hs ss dB dT -> means b b' slots (fun j => (if (k =? j)%nat then h else []) ++ hs j) ss (option_list d ++ dB) dT.
Proof.
  intros E1 E2 Hk Hd Hf Hw Hsc Hh Hs Hr Hm. pose proof (e_map _ _ _ _ _ E1) as EM. pose proof (effect_next _ _ _ _ _ E1 Hr) as En. cbn in En. rewrite N.add_0_r in En.
  assert (Hf1 : pool_fits (strings (db b1))) by by apply (e_pool _ _ _ _ _ E2).
  destruct (proj2 (e_pool _ _ _ _ _ E1) Hf1 Hw) as [Hw1 _]. destruct (proj2 (e_pool _ _ _ _ _ E2) Hf Hw1) as [_ Hg].
  split.
  - intros j sc' Hj. rewrite frame_at_app. apply Forall2_app.
    + destruct (Nat.eqb_spec k j) as [<-|Hne].
      * rewrite Hj in Hk. injection Hk as ->. by eapply bound_grows.
      * destruct (frame_at (option_list d) sc') eqn:Ef; [by constructor|]. exfalso. apply Hne. eapply NoDup_lookup; [done..|]. rewrite Hj. f_equal. apply Hsc. by rewrite Ef.
    + rewrite <- EM. by eapply m_slots.
  - intros x. rewrite frame_at_app. intros Hx. destruct (frame_at (option_list d) x) eqn:Ef.
    + rewrite <- En. by eapply m_only.
    + left. eapply list_elem_of_lookup_2. rewrite (Hsc x); [done|]. by rewrite Ef.
  - intros F envs HR HP HB He. rewrite <- EM in He |- *. eapply m_tags; try done. intros x Hx. rewrite En in Hx. rewrite HB by done. rewrite frame_at_app.
    destruct (frame_at (option_list d) x) eqn:Ef; [done|]. exfalso. assert (x = sc) by (apply Hsc; by rewrite Ef). subst x.
    rewrite Forall_lookup in Hs. apply Hs in Hk. lia.
Qed.

Lemma means_ext b b' slots hs hs' ss ss' dB dT : (forall k, hs k = hs' k) -> (forall envs, length envs = length slots -> ss envs = ss' envs) ->
  means b b' slots hs ss dB dT -> means b b' slots hs' ss' dB dT.
Proof.
  intros Hh Hs [M1 M2 M3]. split; [|done|].
  - intros k sc Hk. rewrite <- Hh. by apply M1.
  - intros F envs HR HP HB He. rewrite <- Hs by by eapply Forall2_length. by apply M3.
Qed.

(** A step that changes nothing but the pool. *)
Lemma means_same b b1 b' slots hs ss dB dT : effect b b1 [] [] [] -> in_range b -> means b1 b' slots hs ss dB dT -> means b b' slots hs ss dB dT.
Proof.
  intros E Hr [M1 M2 M3]. pose proof (effect_next _ _ _ _ _ E Hr) as En. cbn in En. rewrite N.add_0_r in En. pose proof (e_map _ _ _ _ _ E) as EM.
  rewrite EM in M1, M3. split; [done|intros x; rewrite <- En; apply M2|]. intros F envs HR HP HB He. apply M3; try done. intros x. rewrite En. apply HB.
Qed.

(** Opening a scope in that of slot [k]. *)
Lemma means_open b b1 b' k par site id slots (hs : nat -> frame) ss dR dB dT :
  scope_push b par site = (id, b1) -> effect b1 b' dR dB dT -> fits b' -> in_range b -> slots !! k = Some par -> Forall (fun x => x < next b) slots ->
  means b1 b' (slots ++ [id]) hs ss dB dT ->
  means b b' slots hs (fun envs => ss (envs ++ [hs (length envs) :: slot_env envs k])) dB dT.
Proof.
  intros Ep E2 Hf Hr Hk Hs [M1 M2 M3]. destruct (push_effect _ _ _ _ _ Ep) as (rel & E1). pose proof (effect_fits _ _ _ _ _ E2 Hf) as Hf1.
  destruct (push_id _ _ _ _ _ Ep Hr Hf1) as [-> Hid]. pose proof (effect_next _ _ _ _ _ E1 Hr) as En. cbn in En. pose proof (e_map _ _ _ _ _ E1) as EM.
  pose proof (effect_next _ _ _ _ _ E2 (effect_range _ _ _ _ _ E1 Hr)) as En2. split.
  - intros j sc Hj. rewrite <- EM. apply M1. by apply lookup_app_l_Some.
  - intros x [Hx|Hx]%M2; [|right; lia]. apply elem_of_app in Hx as [Hx|Hx%list_elem_of_singleton]; [by left|]. right. lia.
  - intros F envs HR HP HB He. rewrite <- EM in He |- *. pose proof (Forall2_length _ _ _ He) as Hl. apply M3; try done; [intros x Hx; apply HB; lia|].
    apply Forall2_app; [done|]. apply Forall2_cons; split; [|done]. unfold slot_env. destruct (envs !! k) as [e|] eqn:Ek; [|apply lookup_ge_None in Ek; apply lookup_lt_Some in Hk; rewrite <- Hl in Hk; by apply Nat.lt_nge in Hk].
    cbn [env_ok]. split; [done|]. split.
    + rewrite HB by lia. eapply bound_grows; [exact HP|]. apply M1. rewrite Hl. by rewrite lookup_app_r, Nat.sub_diag by lia.
    + exists (mkScopeRow par rel). split; [|split].
      * eapply prefix_lookup_Some; [|exact HR]. rewrite (effect_rows _ _ _ _ _ E2 (effect_range _ _ _ _ _ E1 Hr)), (effect_rows _ _ _ _ _ E1 Hr).
        rewrite <- app_assoc. unfold next. rewrite Nat2N.id, lookup_app_r, Nat.sub_diag by lia. done.
      * right. rewrite Forall_lookup in Hs. by apply Hs in Hk.
      * destruct (Forall2_lookup_l _ _ _ _ _ He Ek) as (par' & Hp & Hok). cbn. congruence.
Qed.

(** A recursive call in the scope of slot [k]. *)
Lemma means_walk b b1 b' k sc slots h (s : env -> list (Node * env)) hs ss dR1 dB1 dT1 dR dB dT :
  effect b b1 dR1 dB1 dT1 -> effect b1 b' dR dB dT -> fits b' -> pool_wf (strings (db b)) -> in_range b -> slots !! k = Some sc -> NoDup slots -> Forall (fun x => x < next b) slots ->
  means b b1 [sc] (fun _ => h) (fun envs => s (slot_env envs 0)) dB1 dT1 -> means b1 b' slots hs ss dB dT ->
  means b b' slots (fun j => (if (k =? j)%nat then h else []) ++ hs j) (fun envs => s (slot_env envs k) ++ ss envs) (dB1 ++ dB) (dT1 ++ dT).
Proof.
  intros E1 E2 Hf Hw Hr Hk Hd Hs [A1 A2 A3] [B1 B2 B3]. pose proof (effect_fits _ _ _ _ _ E2 Hf) as [Hf1 _]. destruct Hf as [Hf _].
  destruct (proj2 (e_pool _ _ _ _ _ E1) Hf1 Hw) as [Hw1 _]. destruct (proj2 (e_pool _ _ _ _ _ E2) Hf Hw1) as [_ Hg].
  pose proof (e_map _ _ _ _ _ E1) as EM. rewrite EM in B1, B3. pose proof (effect_next _ _ _ _ _ E1 Hr) as En. pose proof (effect_next _ _ _ _ _ E2 (effect_range _ _ _ _ _ E1 Hr)) as En2.
  assert (Hlt : forall j x, slots !! j = Some x -> x < next b) by (intros j x Hj; rewrite Forall_lookup in Hs; by eapply Hs).
  split.
  - intros j x Hj. rewrite frame_at_app. apply Forall2_app; [|by eapply B1]. destruct (Nat.eqb_spec k j) as [<-|Hne].
    + rewrite Hj in Hk. injection Hk as ->. eapply bound_grows; [exact Hg|]. by apply (A1 0%nat).
    + destruct (frame_at dB1 x) eqn:Ef; [by constructor|]. exfalso. destruct (A2 x) as [->%list_elem_of_singleton|Hx]; [by rewrite Ef| |apply Hlt in Hj; lia].
      apply Hne. by eapply NoDup_lookup.
  - intros x. rewrite frame_at_app. intros Hx. destruct (frame_at dB1 x) eqn:Ef.
    + destruct (B2 x Hx) as [?|?]; [by left|right; lia].
    + destruct (A2 x) as [->%list_elem_of_singleton|?]; [by rewrite Ef|left; by eapply list_elem_of_lookup_2|right; lia].
  - intros F envs HR HP HB He. apply Forall2_app.
    + destruct (Forall2_lookup_r _ _ _ _ _ He Hk) as (e & Ee & Hok). unfold slot_env. rewrite Ee. apply (A3 F [e]); [|by auto| |by apply Forall2_cons].
      * etrans; [|exact HR]. rewrite (effect_rows _ _ _ _ _ E2) by by eapply effect_range. by apply prefix_app_r.
      * intros x Hx. rewrite HB by lia. rewrite frame_at_app. destruct (frame_at dB x) eqn:Ef; [by rewrite app_nil_r|]. exfalso.
        destruct (B2 x) as [(j & Hj)%list_elem_of_lookup_1|?]; [by rewrite Ef|apply Hlt in Hj; lia|lia].
    + apply B3; [done..| |done]. intros x Hx. rewrite HB by lia. rewrite frame_at_app. destruct (frame_at dB1 x) eqn:Ef; [done|]. exfalso.
      destruct (A2 x) as [->%list_elem_of_singleton|?]; [by rewrite Ef|apply Hlt in Hk; lia|lia].
Qed.

Lemma nil_means b slots : means b b slots (fun _ => []) (fun _ => []) [] [].
Proof. split; [|by intros x []|]; by constructor. Qed.

Lemma pool_after b b' dR dB dT : effect b b' dR dB dT -> fits b' -> pool_wf (strings (db b)) ->
  pool_wf (strings (db b')) /\ forall id s, denotes (strings (db b)) id s -> denotes (strings (db b')) id s.
Proof. intros E [Hf _]. by apply (e_pool _ _ _ _ _ E). Qed.

(** What holds of a builder before a list of actions runs on it. *)
Record ready (b : Builder) (slots : list N) (nm : N) (pend : list byte) : Prop := {
  r_pool : pool_wf (strings (db b));
  r_range : in_range b;
  r_resume : resume_ok b;
  r_distinct : NoDup slots;
  r_slots : Forall (fun x => x < next b) slots;
  r_pending : pending (strings (db b)) nm pend
}.

Lemma ready_after b b' dR dB dT slots nm pend : effect b b' dR dB dT -> fits b' -> ready b slots nm pend -> ready b' slots nm pend.
Proof.
  intros E Hf []. destruct (pool_after _ _ _ _ _ E Hf r_pool0) as [Hw Hg]. split; try done.
  - by eapply effect_range.
  - unfold resume_ok. rewrite (e_resume _ _ _ _ _ E). by apply Hg.
  - pose proof (effect_next _ _ _ _ _ E r_range0). eapply Forall_impl; [exact r_slots0|]. cbn. lia.
  - by eapply pending_grows.
Qed.

Lemma ready_slot b slots nm pend k sc : ready b slots nm pend -> slots !! k = Some sc -> sc < next b.
Proof. intros [] Hk. rewrite Forall_lookup in r_slots0. by eapply r_slots0. Qed.

Lemma ready_open b b1 par site id slots nm pend : scope_push b par site = (id, b1) -> fits b1 -> ready b slots nm pend -> ready b1 (slots ++ [id]) nm pend.
Proof.
  intros Ep Hf Hre. destruct (push_effect _ _ _ _ _ Ep) as (rel & E). destruct (push_id _ _ _ _ _ Ep (r_range _ _ _ _ Hre) Hf) as [-> _].
  pose proof (effect_next _ _ _ _ _ E (r_range _ _ _ _ Hre)) as En. cbn in En. destruct (ready_after _ _ _ _ _ _ _ _ E Hf Hre). split; try done.
  - apply NoDup_app. split; [done|]. split; [|apply NoDup_singleton]. intros x (k & Hx)%list_elem_of_lookup_1 ->%list_elem_of_singleton.
    pose proof (ready_slot _ _ _ _ _ _ Hre Hx). lia.
  - apply Forall_app. split; [done|]. apply Forall_singleton. lia.
Qed.

(** What a list of actions owes: [hs] and [ss] as in [means]. *)
Definition owes (b b' : Builder) slots nm pend hs ss : Prop :=
  exists dR dB dT, effect b b' dR dB dT /\ (fits b' -> ready b slots nm pend -> means b b' slots hs ss dB dT).

(** A binding of [h] in slot [k], then the rest. *)
Lemma bind_owes b b1 b' slots nm pend k sc (d : option ScopedBind) (h : frame) hs ss :
  effect b b1 [] (option_list d) [] -> slots !! k = Some sc -> (forall sc', frame_at (option_list d) sc' <> [] -> sc' = sc) ->
  (ready b slots nm pend -> Forall2 (bound (strings (db b1)) (decl_map b)) h (frame_at (option_list d) sc)) ->
  owes b1 b' slots nm pend hs ss -> owes b b' slots nm pend (fun j => (if (k =? j)%nat then h else []) ++ hs j) ss.
Proof.
  intros E1 Hk Ho Hh (dR & dB & dT & E2 & Hm). eexists _, _, _. split; [by eapply effect_trans|]. intros Hf Hre. pose proof (effect_fits _ _ _ _ _ E2 Hf) as Hf1.
  eapply (means_bind b b1 b' slots k sc d); try done; [apply Hre|apply Hf|apply Hre|by apply Hh|apply Hre|apply Hre|]. apply Hm; [done|]. by eapply ready_after.
Qed.

Lemma exec_means M rec hrec srec acts slots nm pend b b' :
  Forall (act_ok M rec hrec srec) acts -> exec rec acts slots nm b = Ret b' -> decl_map b = M ->
  owes b b' slots nm pend (hoists hrec acts pend) (scoped hrec srec acts pend).
Proof.
  intros Ha. revert slots nm pend b. induction Ha as [|a acts Ha _ IH]; intros slots nm pend b; cbn [exec].
  { intros [= <-] _. exists [], [], []. split; [apply effect_refl|]. intros. apply nil_means. }
  destruct a as [k site|tok|k site|k site|k c]; cbn [act_ok] in Ha.
  - destruct (slots !! k) as [par|] eqn:Hk; [|done]. destruct (scope_push b par (Some site)) as [id b1] eqn:Ep. destruct (push_effect _ _ _ _ _ Ep) as (rel & E1). intros Hx HM.
    destruct (IH _ _ pend _ Hx (eq_trans (e_map _ _ _ _ _ E1) HM)) as (dR & dB & dT & E2 & Hm). eexists _, _, _. split; [by eapply effect_trans|].
    intros Hf Hre. pose proof (effect_fits _ _ _ _ _ E2 Hf) as Hf1. eapply (means_open b b1 b' k par (Some site)); try done; [apply Hre..|].
    apply Hm; [done|]. by eapply ready_open.
  - destruct (intern_tok (db b) tok) as [s nm'] eqn:Ei. pose proof (names_effect b tok s nm' Ha Ei) as E1. intros Hx HM.
    destruct (IH _ _ (tok_text tok) _ Hx (eq_trans (e_map _ _ _ _ _ E1) HM)) as (dR & dB & dT & E2 & Hm). eexists _, _, _. split; [by eapply effect_trans|].
    intros Hf Hre. pose proof (effect_fits _ _ _ _ _ E2 Hf) as Hf1. eapply means_same; [done|apply Hre|]. apply Hm; [done|].
    destruct (ready_after _ _ _ _ _ _ _ _ E1 Hf1 Hre). split; try done. eapply (names_pending b); [done..|apply Hf1|apply Hre].
  - destruct (slots !! k) as [sc|] eqn:Hk; [|done]. intros Hx HM. destruct Ha as (rel & Hrel). rewrite <- HM in Hrel. pose proof (proj1 Hrel) as Hl.
    apply (bind_owes b (if negb (nm =? 0) then bind_push b sc nm site else b) b' slots nm pend k sc (if nm =? 0 then None else Some (mkScopedBind sc nm rel))); [|done| | |].
    + destruct (nm =? 0); [apply effect_refl|by apply bind_effect].
    + intros sc'. destruct (nm =? 0); cbn; [done|]. by destruct (N.eqb_spec sc sc').
    + intros Hre. pose proof (r_pending _ _ _ _ Hre) as Hp. destruct pend as [|p0 ps]; cbn [pending] in Hp; [rewrite Hp; by constructor|].
      destruct Hp as [Hp0 Hpd]. rewrite (proj2 (N.eqb_neq nm 0) Hp0). cbn. rewrite N.eqb_refl. apply Forall2_cons; split; [|done]. by split.
    + apply IH; [done|]. by destruct (nm =? 0).
  - destruct (slots !! k) as [sc|] eqn:Hk; [|done]. intros Hx HM. destruct Ha as (rel & Hrel). rewrite <- HM in Hrel. pose proof (proj1 Hrel) as Hl.
    apply (bind_owes b (bind_push b sc (RESUME (db b)) site) b' slots nm pend k sc (Some (mkScopedBind sc (RESUME (db b)) rel))); [by apply bind_effect|done| | |by apply IH].
    + intros sc'. cbn. by destruct (N.eqb_spec sc sc').
    + intros Hre. cbn. rewrite N.eqb_refl. apply Forall2_cons; split; [|done]. split; [apply Hre|done].
  - destruct (slots !! k) as [sc|] eqn:Hk; [|done]. intros (b1 & Hc & Hx)%obind_Ret HM. destruct (Ha _ _ _ Hc HM) as (dR1 & dB1 & dT1 & E1 & Hm1).
    destruct (IH _ _ pend _ Hx (eq_trans (e_map _ _ _ _ _ E1) HM)) as (dR & dB & dT & E2 & Hm). eexists _, _, _. split; [by eapply effect_trans|].
    intros Hf Hre. pose proof (effect_fits _ _ _ _ _ E2 Hf) as Hf1. eapply (means_walk b b1 b' k sc); try done; try apply Hre.
    + apply Hm1; [done|apply Hre..|]. by eapply ready_slot.
    + apply Hm; [done|]. by eapply ready_after.
Qed.

(** ** Walking a node *)

(** Every node of the declaration has a number, and the text of its tokens is short. *)
Definition numbered (M : DeclAstIdMap) : Prop := forall m, below m w -> exists rel, has_number M m rel.
Definition short_tokens : Prop := forall t, token_below t w -> short (text_of t).

Lemma means_tag b b1 b' sc c rel hs ss dB dT : effect b b1 [] [] [(rel, sc)] -> has_number (decl_map b) c rel -> in_range b ->
  means b1 b' [sc] hs ss dB dT -> means b b' [sc] (fun _ => hs 0%nat) (fun envs => (c, slot_env envs 0) :: ss [slot_env envs 0]) dB ((rel, sc) :: dT).
Proof.
  intros E Hc Hr [M1 M2 M3]. pose proof (effect_next _ _ _ _ _ E Hr) as En. cbn in En. rewrite N.add_0_r in En. pose proof (e_map _ _ _ _ _ E) as EM.
  rewrite EM in M1, M3. split.
  - intros [|k] sc' Hk; [by apply M1|done].
  - intros x. rewrite <- En. apply M2.
  - intros F envs HR HP HB He. destruct (Forall2_cons_inv_r _ _ _ _ He) as (e & envs' & Hok & Hn & ->). apply Forall2_nil_inv_r in Hn as ->. cbn [slot_env lookup list_lookup].
    apply Forall2_cons. split; [by split|]. apply M3; try done. intros x. rewrite En. apply HB.
Qed.

Lemma rules_ok M rec hrec srec n acts : is_node w = true -> below n w -> numbered M -> short_tokens -> Forall (act_below n) acts ->
  (forall c, below c n -> (height c < height n)%nat -> walker M rec hrec srec c) -> Forall (act_ok M rec hrec srec) acts.
Proof.
  intros Hw Hn HM Hs Ha Hrec. eapply Forall_impl; [exact Ha|]. intros [k s|[tok|]|k s|k s|k c] Hb; cbn in Hb |- *; try done.
  - apply Hs. destruct Hb as (x & Hx & Ht). exists x. split; [by eapply below_trans|done].
  - apply HM. by eapply below_trans.
  - apply HM. by eapply below_trans.
  - destruct Hb. by apply Hrec.
Qed.

Lemma walk_walker M fuel c : is_node w = true -> numbered M -> short_tokens -> below c w ->
  walker M (walk fuel) (hoisted_at fuel) (scoped_at fuel) c.
Proof.
  intros Hw HM Hs. revert c. induction fuel as [|f IH]; intros c Hc b sc b'; [done|]. rewrite walk_rules. intros Hx Eb. destruct (HM c Hc) as (rel & Hrel). rewrite <- Eb in Hrel.
  pose proof (tag_effect b c sc rel (proj1 Hrel)) as E1. pose proof (below_is_node _ _ Hw Hc) as Hn.
  destruct (exec_means M (walk f) (hoisted_at f) (scoped_at f) (rules c) [sc] 0 [] (tag_node b c sc) b') as (dR & dB & dT & E2 & Hm).
  - apply (rules_ok M _ _ _ c); try done; [by apply rules_below|]. intros d Hd _. apply IH. by eapply below_trans.
  - done.
  - by rewrite (e_map _ _ _ _ _ E1).
  - eexists _, _, _. split; [by eapply effect_trans|]. intros Hf Hp Hr Hres Hsc. pose proof (effect_fits _ _ _ _ _ E2 Hf) as Hf1.
    apply (means_tag b (tag_node b c sc) b' sc c rel (hoists (hoisted_at f) (rules c) []) (scoped (hoisted_at f) (scoped_at f) (rules c) [])); try done.
    apply Hm; [done|]. eapply ready_after; [done..|]. split; try done; [apply NoDup_singleton|by apply Forall_singleton].
Qed.

(** ** The walk returns *)

Lemma each_total {S} (f : Node -> S -> outcome S) l s : (forall e s, e ∈ l -> exists s', f e s = Ret s') -> exists s', each f l s = Ret s'.
Proof.
  revert s. induction l as [|e l IH]; intros s H0; [by exists s|]. cbn. destruct (H0 e s) as (s1 & ->); [set_solver|]. apply IH. intros. apply H0. set_solver.
Qed.

Definition returns {A} (m : outcome A) : Prop := exists a, m = Ret a.

Lemma lambda_total rec n b cur : is_node n = true -> (forall c b sc, c ∈ node_children n -> returns (rec c b sc)) -> returns (walk_lambda rec n b cur).
Proof.
  intros Hn Hc. unfold walk_lambda. destruct (scope_push b cur (Some n)). destruct (LambdaExpr_cast n) as [lam|] eqn:El; [|by eexists].
  unfold LambdaExpr_cast in El. destruct (ore_kind_is_lambda _); [injection El as <-|done].
  destruct (LambdaExpr_body n) eqn:E; [|by eexists]. apply Hc. by apply lambda_body_in.
Qed.

Lemma with_total rec n cont b cur : (forall c b sc, below c n -> (height c < height n)%nat -> returns (rec c b sc)) -> is_node n = true -> returns (walk_with rec n cont b cur).
Proof.
  intros Hc Hn. unfold walk_with. destruct (scope_push b cur (Some cont)). apply each_total. intros e s He. destruct (of_kind _ _).
  - apply each_total. intros a s' Ha. destruct (syntax_node_ptr_eq _ _).
    + destruct (name_if (LambdaExpr_cast a) LambdaExpr_body) as [body|] eqn:E; [|by eexists].
      unfold LambdaExpr_cast in E. destruct (ore_kind_is_lambda _); [|done]. apply lambda_body_in in E. pose proof (proj1 (node_child_in _ _) He) as [Hne _].
      apply Hc; [eapply below_child; [done..|]; by eapply grandchild_below|]. apply node_child_height in He, Ha, E. lia.
    + apply Hc; [by eapply grandchild_below|]. apply node_child_height in He, Ha. lia.
  - apply Hc; [by apply child_below|by apply node_child_height].
Qed.

Lemma walk_returns fuel n b sc : is_node n = true -> (height n <= fuel)%nat -> returns (walk fuel n b sc).
Proof.
  revert n b sc. induction fuel as [|f IH]; intros n b sc Hn Hf; pose proof (node_height n Hn); [lia|]. cbn [walk]. generalize (tag_node b n sc). intros b1.
  assert (Hb : forall c b sc, below c n -> (height c < height n)%nat -> returns (walk f c b sc)) by (intros c b0 sc0 Hc Hh; apply IH; [by eapply below_is_node|lia]).
  assert (Hc : forall c b sc, c ∈ node_children n -> returns (walk f c b sc)) by (intros c b0 sc0 Hc; apply Hb; [by apply child_below|by apply node_child_height]).
  assert (Hws : forall b def ov, returns (walk_children_scoped (walk f) n b def ov)) by (intros; apply each_total; intros; by apply Hc).
  destruct (_ || _); [destruct (scope_push _ _ _); apply Hws|].
  destruct (kind_eqb _ SK_BIND_DECL); [destruct (intern_tok _ _) as [s nm]; destruct (Hws (with_db b1 s) sc []) as (b2 & ->); by eexists|].
  destruct (kind_eqb _ SK_IF_EXPR).
  { unfold walk_if. destruct (match IfExpr_capture n with Some _ => _ | None => _ end) as [b2 ov]. destruct (match IfExpr_else_branch n with Some _ => _ | None => _ end). apply Hws. }
  destruct (kind_eqb _ SK_LOOP_EXPR); [unfold walk_loop; destruct (scope_push _ _ _); apply Hws|].
  destruct (kind_eqb _ SK_RETURN_CLAUSE); [unfold walk_return_clause; destruct (scope_push _ _ _); apply each_total; intros; by apply Hc|].
  destruct (_ || _); [by apply lambda_total|].
  destruct (if _ && _ then CallExpr_with_continuation n else None); [by apply with_total|]. apply each_total. intros. by apply Hc.
Qed.

(** ** The function *)

Definition walk_node (n : Node) (b : Builder) (sc : N) : outcome Builder := walk (height n) n b sc.

Lemma fn_params_exec root l r : (forall pend pend' b, exec walk_node r [root] pend b = exec walk_node r [root] pend' b) ->
  forall pend b, exec walk_node (concat (map (fun e => param_rules 0 e ++ [AWalk 0 e]) l) ++ r) [root] pend b =
    let! b := each (fun e b =>
                      let b := if of_kind SK_PARAM e then bind_tok b root (name_if (Param_cast e) Param_name) e else b in
                      walk (height e) e b root) l b in
    exec walk_node r [root] 0 b.
Proof.
  intros Hr. induction l as [|e l IH]; intros pend b; [apply Hr|]. cbn [concat map each]. rewrite <- !app_assoc. unfold param_rules at 1. destruct (of_kind SK_PARAM e).
  - destruct (exec_binds walk_node 0 (name_if (Param_cast e) Param_name) e ([AWalk 0 e] ++ concat (map (fun e => param_rules 0 e ++ [AWalk 0 e]) l) ++ r) [root] pend root b eq_refl) as (nm & ->).
    cbn [app exec lookup list_lookup]. unfold walk_node at 1. destruct (walk _ _ _ _); [|done..]. apply IH.
  - cbn [app exec lookup list_lookup]. unfold walk_node at 1. destruct (walk _ _ _ _); [|done..]. apply IH.
Qed.

Lemma build_exec lam b : build_scopes lam b =
  let '(root, b1) := scope_push b BODY_SCOPE_NONE (Some lam) in exec walk_node (fn_rules lam) [root] 0 (tag_node b1 lam root).
Proof.
  unfold build_scopes. destruct (scope_push _ _ _) as [root b1]. generalize (tag_node b1 lam root). clear b1. intros b1. unfold fn_rules.
  set (r := opt_acts (LambdaExpr_return_type lam) _ ++ _).
  assert (Hr : forall pend b, exec walk_node r [root] pend b = let! b := walk_opt (LambdaExpr_return_type lam) b root in walk_opt (LambdaExpr_body lam) b root).
  { intros pend b0. unfold r, walk_opt. destruct (LambdaExpr_return_type lam) as [t|], (LambdaExpr_body lam) as [d|]; cbn; unfold walk_node; try done.
    all: repeat (destruct (walk _ _ _ _); cbn; try done). }
  destruct (LambdaExpr_params lam) as [pl|]; cbn [opt_acts app obind]; [|by rewrite Hr]. unfold walk_params.
  rewrite fn_params_exec; [|intros; by rewrite !Hr]. destruct (each _ _ b1); [|done..]. cbn. by rewrite Hr.
Qed.

Lemma build_total lam b : is_node lam = true -> returns (build_scopes lam b).
Proof.
  intros Hn. unfold build_scopes. destruct (scope_push _ _ _) as [root b1]. generalize (tag_node b1 lam root). clear b1. intros b1.
  assert (Ho : forall o b, (forall n, o = Some n -> is_node n = true) -> returns (walk_opt o b root)).
  { intros [n|] b0 H0; [|by eexists]. apply walk_returns; [by apply H0|lia]. }
  assert (Hp : returns (match LambdaExpr_params lam with Some ps => walk_params root ps b1 | None => Ret b1 end)).
  { destruct (LambdaExpr_params lam) as [ps|]; [|by eexists]. apply each_total. intros e s He. apply node_child_in in He as [He _]. apply walk_returns; [done|lia]. }
  destruct Hp as (b2 & ->). cbn. destruct (Ho (LambdaExpr_return_type lam) b2) as (b3 & ->); [intros n Hr; apply return_type_in in Hr; by apply node_child_in in Hr as [? _]|].
  cbn. apply Ho. intros n Hb. apply lambda_body_in in Hb. by apply node_child_in in Hb as [? _].
Qed.

(** The tables of a function, read in any later state of the pools. *)
Lemma build_means M lam b b' : is_node w = true -> numbered M -> short_tokens -> below lam w -> decl_map b = M -> build_scopes lam b = Ret b' ->
  exists dR dB dT, effect b b' dR dB dT /\
    (fits b' -> rows_of b = [] -> in_range b -> resume_ok b -> pool_wf (strings (db b)) -> forall F, rows_of b' `prefix_of` f_rows F -> (forall id s, denotes (strings (db b')) id s -> denotes (f_pool F) id s) ->
      (forall x, x < next b' -> frame_at (f_binds F) x = frame_at dB x) ->
      Forall2 (tagged F M) (fn_scoped lam) dT).
Proof.
  intros Hw HM Hs Hl Hb Hx. rewrite build_exec in Hx. destruct (scope_push b BODY_SCOPE_NONE (Some lam)) as [root b1] eqn:Ep.
  destruct (push_effect _ _ _ _ _ Ep) as (rr & E1). destruct (HM lam Hl) as (rel & Hrel).
  pose proof (tag_effect b1 lam root rel (eq_trans (f_equal (fun m => decl_ast_id_lookup m lam) (eq_trans (e_map _ _ _ _ _ E1) Hb)) (proj1 Hrel))) as E2.
  pose proof (below_is_node _ _ Hw Hl) as Hn. pose proof (effect_trans _ _ _ _ _ _ _ _ _ E1 E2) as E12.
  destruct (exec_means M walk_node hoisted scoped_nodes (fn_rules lam) [root] 0 [] (tag_node b1 lam root) b') as (dR & dB & dT & E3 & Hm).
  - apply (rules_ok M _ _ _ lam); try done; [by apply fn_rules_below|]. intros c Hc _. apply (walk_walker M (height c) c Hw HM Hs). by eapply below_trans.
  - done.
  - by rewrite (e_map _ _ _ _ _ E12).
  - eexists _, _, _. split; [by eapply effect_trans|]. cbn [app]. intros Hf Hrows Hr Hres Hp F HR HP HB. pose proof (effect_fits _ _ _ _ _ E3 Hf) as Hf2. pose proof (effect_fits _ _ _ _ _ E2 Hf2) as Hf1.
    destruct (push_id _ _ _ _ _ Ep Hr Hf1) as [-> Hid]. assert (En : next b = 0) by (unfold next; by rewrite Hrows). rewrite En in *.
    pose proof (effect_next _ _ _ _ _ E12 Hr) as En2. rewrite En in En2. cbn in En2. pose proof (effect_range _ _ _ _ _ E12 Hr) as Hr2. pose proof (effect_next _ _ _ _ _ E3 Hr2) as En3.
    destruct (pool_after _ _ _ _ _ E12 Hf2 Hp) as [Hp2 Hg].
    destruct Hm as [M1 M2 M3]; [done| |].
    { split; try done; [unfold resume_ok; rewrite (e_resume _ _ _ _ _ E12); by apply Hg|apply NoDup_singleton|apply Forall_singleton; lia]. }
    rewrite (e_map _ _ _ _ _ E12), Hb in M1, M3.
    assert (Hroot : env_ok F M [fn_frame lam] 0).
    { cbn [env_ok]. split; [done|]. split; [rewrite HB by lia; eapply bound_grows; [exact HP|]; by apply (M1 0%nat)|].
      exists (mkScopeRow BODY_SCOPE_NONE rr). split; [|split; [by left|done]]. eapply prefix_lookup_Some; [|exact HR].
      rewrite (effect_rows _ _ _ _ _ E3 Hr2), (effect_rows _ _ _ _ _ E12 Hr), Hrows. done. }
    unfold fn_scoped. apply Forall2_cons. split; [by split|]. apply M3; try done; [|by apply Forall2_cons]. intros x Hx1. apply HB. lia.
Qed.

End Meaning.

Arguments Final : clear implicits.

(** ** The numbers of a declaration *)

Section Numbers.

Context (w : Node) (Hw : is_node w = true) (Hd : NoDup (map node_hash (preorder w))) (Hlen : N.of_nat (length (preorder w)) < 2 ^ 32).

Definition numbers : DeclAstIdMap := foldl number decl_ast_id_map_init (preorder w).

Lemma refresh_numbers : decl_ast_id_map_refresh w = Ret numbers.
Proof using Hw. by apply map_walk_preorder. Qed.

Lemma numbers_lookup i m : preorder w !! i = Some m -> decl_ast_id_lookup numbers m = Some (N.of_nat i).
Proof using Hd Hlen. intros Hi. unfold numbers. by rewrite (number_lookup _ decl_ast_id_map_init _ _ Hd Hlen Hi). Qed.

Lemma numbers_has m rel : has_number w numbers m rel <-> preorder w !! N.to_nat rel = Some m.
Proof using Hd Hlen.
  split.
  - intros [Hm (i & Hi)%list_elem_of_lookup_1]. rewrite (numbers_lookup _ _ Hi) in Hm. injection Hm as <-. by rewrite Nat2N.id.
  - intros Hi. split; [|by eapply list_elem_of_lookup_2]. by rewrite (numbers_lookup _ _ Hi), N2Nat.id.
Qed.

Lemma all_numbered : numbered w numbers.
Proof using Hd Hlen. intros m (i & Hi)%list_elem_of_lookup_1. exists (N.of_nat i). apply numbers_has. by rewrite Nat2N.id. Qed.

Lemma ptr_eq_spec p q : syntax_node_ptr_eq p q = true <-> p = q.
Proof.
  destruct p as [k [a b]], q as [k' [a' b']]. unfold syntax_node_ptr_eq, text_range_eq. cbn. rewrite !andb_true_iff, !N.eqb_eq, kind_eqb_eq. naive_solver.
Qed.

(** Nodes of the declaration are told apart by their pointers, and by their numbers. *)
Lemma same_pointer a b i j : has_number w numbers a i -> has_number w numbers b j -> syntax_node_ptr_eq (ptr_of a) (ptr_of b) = (i =? j).
Proof using Hd Hlen.
  intros Ha Hb. destruct (N.eqb_spec i j) as [<-|Hne].
  - apply numbers_has in Ha, Hb. rewrite Ha in Hb. injection Hb as <-. by apply ptr_eq_spec.
  - destruct (syntax_node_ptr_eq _ _) eqn:E; [|done]. apply ptr_eq_spec in E. exfalso. apply Hne. destruct Ha as [Ha _], Hb as [Hb _].
    unfold decl_ast_id_lookup in Ha, Hb. rewrite E in Ha. congruence.
Qed.

End Numbers.

(** ** A declaration that has moved *)

(** The same node of a declaration that moved from [a] to [b]. *)
Definition moved (a b : N) (m m' : Node) : Prop := tree m' = tree m /\ u32 (start m' + a) = u32 (start m + b).

Lemma children_moved a b n n' i cs : moved a b n n' -> Forall2 (moved a b) (children_from n i cs) (children_from n' i cs).
Proof.
  intros [Ht Hs]. revert i. induction cs as [|[o g] cs IH]; intros i; cbn [children_from]; constructor; [|apply IH]. split; [done|]. cbn.
  rewrite !u32_add_l. replace (start n' + o + a) with (start n' + a + o) by lia. replace (start n + o + b) with (start n + b + o) by lia.
  by rewrite <- u32_add_l, Hs, u32_add_l.
Qed.

Lemma node_children_moved a b n n' : moved a b n n' -> Forall2 (moved a b) (node_children n) (node_children n').
Proof.
  intros Hm. unfold node_children, children. rewrite (proj1 Hm). induction (children_moved a b n n' 0 (green_children (tree n)) Hm) as [|x y l l' Hxy _ IH]; [done|].
  assert (E : is_node y = is_node x) by (unfold is_node; by rewrite (proj1 Hxy)). rewrite !filter_cons, E. destruct (decide (is_node x)); [by constructor|done].
Qed.

Lemma preorder_moved a b n : is_node n = true -> forall n', moved a b n n' -> Forall2 (moved a b) (preorder n) (preorder n').
Proof.
  revert n. apply (node_ind (fun n => forall n', moved a b n n' -> Forall2 (moved a b) (preorder n) (preorder n'))). intros n Hn IH n' Hm.
  assert (Hn' : is_node n' = true) by (unfold is_node in *; by rewrite (proj1 Hm)). rewrite (preorder_node n Hn), (preorder_node n' Hn'). constructor; [done|].
  induction (node_children_moved a b n n' Hm) as [|x y l l' Hxy _ IHl]; [done|]. cbn. apply Forall2_app; [|apply IHl; intros; apply IH; [set_solver|done]].
  apply IH; [set_solver|done].
Qed.

(** ** Short texts *)

Lemma child_text_le n c : c ∈ children n -> (length (green_text (tree c)) <= length (green_text (tree n)))%nat.
Proof.
  intros (i & o & g & Hg & ->)%in_children. unfold green_node_child in Hg. destruct (tree n) as [k l cs|k t]; cbn [green_children] in Hg; [|by destruct (N.to_nat i)]. rewrite green_text_node.
  cbn [tree child_node snd]. apply nth_error_In in Hg. induction cs as [|[o' g'] cs IH]; [done|]. change (elem_text ((o', g') :: cs)) with (green_text g' ++ elem_text cs). rewrite length_app.
  destruct Hg as [[= -> ->]|Hg]; [lia|]. apply IH in Hg. lia.
Qed.

Lemma below_text m n : is_node n = true -> below m n -> (length (green_text (tree m)) <= length (green_text (tree n)))%nat.
Proof.
  revert n. apply (node_ind (fun n => below m n -> (length (green_text (tree m)) <= length (green_text (tree n)))%nat)). intros n Hn IH Hb. unfold below in Hb. rewrite (preorder_node n Hn) in Hb.
  apply elem_of_cons in Hb as [->|(x & Hx & Hb)%in_concat_map]; [done|]. pose proof (IH x Hx Hb). apply node_child_in in Hx as [_ Hx]. apply child_text_le in Hx. lia.
Qed.

Lemma short_text w : is_node w = true -> N.of_nat (length (green_text (tree w))) + 5 < 2 ^ 32 -> short_tokens w.
Proof.
  intros Hw Hs t (x & Hx & Ht). apply below_text in Hx; [|done]. apply child_text_le in Ht. unfold short, text_of.
  assert (length (token_text (tree t)) <= length (green_text (tree t)))%nat; [|lia]. destruct (tree t); cbn; [lia|]. by rewrite app_nil_r.
Qed.

(** ** Lookups *)

Lemma find_snoc {A} (f : A -> bool) x l : List.find f (reverse (x :: l)) = match List.find f (reverse l) with Some y => Some y | None => if f x then Some x else None end.
Proof. rewrite reverse_cons. induction (reverse l) as [|y r IH]; cbn; [done|]. destruct (f y); [done|]. apply IH. Qed.

(** The last match of related lists. *)
Lemma find_related {A B} (R : A -> B -> Prop) f g l l' : Forall2 R l l' -> (forall x y, R x y -> f x = g y) ->
  match List.find f (reverse l), List.find g (reverse l') with Some x, Some y => R x y | None, None => True | _, _ => False end.
Proof.
  intros Hl Hfg. induction Hl as [|x y l l' Hxy _ IH]; [done|]. rewrite !find_snoc. destruct (List.find f (reverse l)), (List.find g (reverse l')); try done.
  rewrite (Hfg _ _ Hxy). by destruct (g y).
Qed.

Lemma put_tags l m k : foldl put_tag m l !! k = match List.find (fun t => t.1 =? k) (reverse l) with Some t => Some (t.2 + 1) | None => m !! k end.
Proof.
  revert m. induction l as [|[r sc] l IH]; intros m; [done|]. cbn [foldl]. rewrite IH, find_snoc. destruct (List.find _ (reverse l)); [done|]. unfold put_tag. cbn.
  destruct (N.eqb_spec r k) as [->|Hne]; [by rewrite lookup_insert_eq|by rewrite lookup_insert_ne].
Qed.

Lemma scan_frame sc nm seen B : scan_binds sc nm seen B = match List.find (fun y => y.1 =? nm) (reverse (frame_at B sc)) with Some y => Some y.2 | None => seen end.
Proof.
  revert seen. induction B as [|d B IH]; intros seen; [done|]. cbn [scan_binds]. rewrite IH.
  assert (E : frame_at (d :: B) sc = if scope_id d =? sc then (name d, bind_site_rel d) :: frame_at B sc else frame_at B sc) by (unfold frame_at; cbn; by destruct (scope_id d =? sc)).
  rewrite E. destruct (scope_id d =? sc); cbn [andb]; [|done]. rewrite find_snoc. destruct (List.find _ (reverse (frame_at B sc))); [done|]. cbn [fst]. by destruct (name d =? nm).
Qed.

(** A body whose tables, read in the database [s], are those of [F]. *)
Record shows_body {P} (s : Db P) (fb : FnBody) (F : Final P) : Prop := {
  sb_binds : pool_slice (body_scope_binds s) (fb_bind_off fb) (bind_len fb) = f_binds F;
  sb_rows : forall i row, f_rows F !! N.to_nat i = Some row -> body_scope_rows s !! N.to_nat (fb_scope_off fb + i) = Some row;
  sb_len : scope_len fb = N.of_nat (length (f_rows F))
}.

Lemma frame_lookup {P} `{InternerLaws P} w p M fr l nm str : pool_wf p -> denotes p nm str -> Forall2 (bound w p M) fr l ->
  match in_frame str fr with
  | Some site => exists y, List.find (fun y => y.1 =? nm) (reverse l) = Some y /\ has_number w M site y.2
  | None => List.find (fun y => y.1 =? nm) (reverse l) = None
  end.
Proof.
  intros Hw Hn Hl. unfold in_frame.
  assert (Hfg : forall x y, bound w p M x y -> bytes_eqb x.1 str = (y.1 =? nm)).
  { intros x y [Hx _]. apply eq_true_iff_eq. rewrite bytes_eqb_eq, N.eqb_eq. split.
    - intros Es. rewrite Es in Hx. by eapply denotes_injective.
    - intros Ey. rewrite Ey in Hx. by eapply denotes_functional. }
  pose proof (find_related _ (fun x => bytes_eqb x.1 str) (fun y => y.1 =? nm) _ _ Hl Hfg) as Hf.
  destruct (List.find _ (reverse fr)) as [x|], (List.find _ (reverse l)) as [y|]; try done. cbn. exists y. split; [done|]. apply Hf.
Qed.

Lemma climb_lexical {P} `{InternerLaws P} w F M e sc s fb nm str fuel : shows_body s fb F -> pool_wf (f_pool F) -> denotes (f_pool F) nm str ->
  env_ok w F M e sc -> (length e < fuel)%nat ->
  match lexical_lookup e str with
  | Some site => exists rel, climb_scopes fuel s fb nm sc = Ret (Some rel) /\ has_number w M site rel
  | None => climb_scopes fuel s fb nm sc = Ret None
  end.
Proof.
  intros [Hb Hr Hl] Hw Hn. revert sc fuel. induction e as [|fr e IH]; intros sc [|fuel] He Hf; cbn [length] in Hf; try lia; cbn [env_ok lexical_lookup climb_scopes] in *; [by rewrite He|].
  destruct He as (Hsc & Hfr & row & Hrow & _ & He). rewrite (proj2 (N.eqb_neq sc _)) by lia. rewrite Hb, scan_frame. pose proof (frame_lookup w _ M fr _ nm str Hw Hn Hfr) as Hx.
  destruct (in_frame str fr) as [site|]; [destruct Hx as (y & -> & Hy); by eexists|]. rewrite Hx. pose proof (lookup_lt_Some _ _ _ Hrow). rewrite (proj2 (N.leb_gt _ _)) by lia.
  rewrite (Hr _ _ Hrow). apply IH; [done|lia].
Qed.

Lemma env_short {P} `{InternerLaws P} w (F : Final P) M e sc : env_ok w F M e sc -> (length e <= S (length (f_rows F)))%nat.
Proof.
  enough (G : env_ok w F M e sc -> e = [] \/ (length e <= S (N.to_nat sc))%nat /\ (N.to_nat sc < length (f_rows F))%nat) by (intros [->|[? ?]]%G; cbn; lia).
  revert sc. induction e as [|fr e IH]; intros sc He; [by left|]. right. destruct He as (_ & _ & row & Hrow & Hp & He). apply lookup_lt_Some in Hrow as Hlt. split; [|done].
  destruct Hp as [->|Hp]; [cbn; lia|]. destruct (IH _ He) as [->|[H1 H2]]; cbn; lia.
Qed.

End BodyScopesMeaning.

Module BodyScopesTheorems.

Import BodyScopesMeaning.

#[local] Open Scope N_scope.
#[local] Open Scope ore_scope.

Lemma lambda_below w lam : is_node w = true -> lambda_of w = Some lam -> below lam w.
Proof.
  intros Hw. unfold lambda_of, BindDef_cast, cast. destruct (of_kind SK_BIND_DECL w); [|done]. cbn. destruct (BindDef_value w) as [v|] eqn:E; [|done].
  destruct (of_kind _ v); [|done]. intros [= <-]. apply child_below; [done|]. by apply find_child in E.
Qed.

(** The database is within the bounds of its ids. *)
Definition db_fits {P} `{InternerLaws P} (s : Db P) : Prop :=
  pool_fits (strings s) /\ N.of_nat (length (body_scope_rows s)) < 2 ^ 32 /\ N.of_nat (length (body_scope_binds s)) < 2 ^ 32.

(** The bodies of other functions were added, and strings interned. *)
Record later {P} `{InternerLaws P} (s s' : Db P) : Prop := {
  l_rows : body_scope_rows s `prefix_of` body_scope_rows s';
  l_binds : body_scope_binds s `prefix_of` body_scope_binds s';
  l_pool : forall id str, denotes (strings s) id str -> denotes (strings s') id str;
  l_wf : pool_wf (strings s')
}.

(** The slice of a function in a pool that has grown. *)
Lemma pool_slice_prefix {A} (l d l' : list A) : l ++ d `prefix_of` l' -> take (length d) (drop (length l) l') = d.
Proof. intros (r & ->). rewrite <- app_assoc, drop_app_length. by rewrite take_app_length. Qed.

Section Lookup.

Context {P : Type} `{InternerLaws P} (s : Db P) (w lam : Node).
Context (Hw : is_node w = true) (Hd : NoDup (map node_hash (preorder w))) (Hlen : N.of_nat (length (preorder w)) < 2 ^ 32).
Context (Htext : N.of_nat (length (green_text (tree w))) + 5 < 2 ^ 32) (Hlam : lambda_of w = Some lam).
Context (Hpool : pool_wf (strings s)) (Hresume : denotes (strings s) (RESUME s) (bs "resume")).

Definition first_builder : BSBuilder P := mkBuilder s (count_of (body_scope_rows s)) (count_of (body_scope_binds s)) ∅ FINGERPRINT_NONE (numbers w).

(** What the query leaves behind. *)
Definition body_of (b : BSBuilder P) : FnBody :=
  let so := count_of (body_scope_rows s) in
  let bo := count_of (body_scope_binds s) in
  mkFnBody so (u32_sub (count_of (body_scope_rows (db b))) so) bo (u32_sub (count_of (body_scope_binds (db b))) bo) (Some (scope_map b)).

Lemma query_returns row : exists b, build_scopes lam first_builder = Ret b /\ db_query_body_scopes s row (Some w) = Ret (body_of b, fp b, db b, row).
Proof using Hw Hlam.
  destruct (build_total lam first_builder (below_is_node _ _ Hw (lambda_below _ _ Hw Hlam))) as (b & Eb). exists b. split; [done|].
  unfold db_query_body_scopes. rewrite (refresh_numbers w Hw : decl_ast_id_map_walk _ _ _ = _). cbn [obind]. rewrite Hlam. unfold first_builder in Eb. rewrite Eb. done.
Qed.

(** The tags, and the tables of the function in any later database. *)
Lemma query_means b s' : build_scopes lam first_builder = Ret b -> db_fits (db b) -> later (db b) s' ->
  exists F dT, shows_body s' (body_of b) F /\ pool_wf (f_pool F) /\ f_pool F = strings s' /\ scope_map b = foldl put_tag ∅ dT /\
    Forall2 (tagged w F (numbers w)) (fn_scoped lam) dT.
Proof using Hw Hd Hlen Htext Hlam Hpool Hresume.
  intros Eb (Hf1 & Hf2 & Hf3) [Lr Lb Lp Lw].
  destruct (build_means w (numbers w) lam first_builder b Hw (all_numbered w Hd Hlen) (short_text w Hw Htext) (lambda_below _ _ Hw Hlam) eq_refl Eb) as (dR & dB & dT & E & Hm).
  pose proof (e_rows _ _ _ _ _ E) as ER. pose proof (e_binds _ _ _ _ _ E) as EB. cbn in ER, EB. rewrite ER in Hf2, Lr. rewrite EB in Hf3, Lb. rewrite length_app in Hf2, Hf3.
  assert (Es : count_of (body_scope_rows s) = N.of_nat (length (body_scope_rows s))) by (apply u32_small; lia).
  assert (Eo : count_of (body_scope_binds s) = N.of_nat (length (body_scope_binds s))) by (apply u32_small; lia).
  assert (Hrows : rows_of b = dR) by (unfold rows_of; rewrite (e_off _ _ _ _ _ E), ER; cbn; by rewrite Es, Nat2N.id, drop_app_length).
  exists (mkFinal (rows_of b) dB (strings s')), dT. split; [|split; [done|split; [done|split; [apply E|]]]].
  - split; cbn [f_rows f_binds body_of fb_bind_off bind_len fb_scope_off scope_len]; rewrite ?Hrows.
    + unfold pool_slice. rewrite EB. unfold count_of. rewrite length_app, !u32_small by lia. rewrite u32_sub_small by lia.
      replace (N.to_nat (_ - _)) with (length dB) by lia. rewrite Nat2N.id. by apply pool_slice_prefix.
    + intros i row Hi. eapply prefix_lookup_Some; [|exact Lr]. rewrite Es. rewrite lookup_app_r by lia. by replace (N.to_nat (N.of_nat (length (body_scope_rows s)) + i) - length (body_scope_rows s))%nat with (N.to_nat i) by lia.
    + rewrite ER. unfold count_of. rewrite length_app, !u32_small by lia. rewrite u32_sub_small by lia. lia.
  - apply Hm; try done.
    + split; [done|]. rewrite ER, length_app. lia.
    + unfold rows_of. cbn. by rewrite Es, Nat2N.id, drop_all.
    + unfold in_range. cbn. rewrite Es. lia.
Qed.

Lemma query_later b : build_scopes lam first_builder = Ret b -> db_fits (db b) -> later s (db b).
Proof using Hw Hd Hlen Htext Hlam Hpool.
  intros Eb (Hf1 & _).
  destruct (build_means w (numbers w) lam first_builder b Hw (all_numbered w Hd Hlen) (short_text w Hw Htext) (lambda_below _ _ Hw Hlam) eq_refl Eb) as (dR & dB & dT & E & _).
  destruct (proj2 (e_pool _ _ _ _ _ E) Hf1 Hpool) as [Hwf Hg]. pose proof (e_rows _ _ _ _ _ E) as ER. pose proof (e_binds _ _ _ _ _ E) as EB. cbn in ER, EB.
  split; rewrite ?ER, ?EB; try done; by apply prefix_app_r.
Qed.

Lemma lookup_lexical b s' use nm str : build_scopes lam first_builder = Ret b -> db_fits (db b) -> later (db b) s' -> below use w -> denotes (strings s') nm str -> str <> [] ->
  db_body_scope_lookup s' (Some (body_of b)) (numbers w) (Some w) use nm = Ret (ptr_of <$> binding_of lam use str).
Proof using Hw Hd Hlen Htext Hlam Hpool Hresume.
  intros Eb Hf Hl Hu Hn Hne. destruct (query_means b s' Eb Hf Hl) as (F & dT & Hs & Hwf & HF & Hmap & Ht). rewrite <- HF in Hn.
  destruct (all_numbered w Hd Hlen use Hu) as (rel & Hrel). unfold db_body_scope_lookup.
  destruct (N.eqb_spec nm 0) as [->|Hnm]; [by destruct Hne; apply (denotes_empty _ _ _ Hwf Hn)|]. cbn [fb_scope_map body_of]. rewrite (proj1 Hrel). cbn [mbind option_bind].
  rewrite Hmap, put_tags, lookup_empty. unfold binding_of, env_of.
  assert (Hfg : forall x y, tagged w F (numbers w) x y -> syntax_node_ptr_eq (ptr_of x.1) (ptr_of use) = (y.1 =? rel)).
  { intros x y [Hx _]. by apply (same_pointer w Hd Hlen). }
  pose proof (find_related _ _ (fun y => y.1 =? rel) _ _ Ht Hfg) as Hx. destruct (List.find _ (reverse (fn_scoped lam))) as [x|], (List.find _ (reverse dT)) as [y|]; try done.
  destruct Hx as [_ He]. cbn [fmap option_fmap option_map mbind option_bind].
  assert (Hy : y.2 < 2 ^ 32) by (destruct x as [x [|fr e]]; cbn in He; [rewrite He; done|destruct He as [? _]; unfold BODY_SCOPE_NONE in *; lia]).
  rewrite u32_small by lia. replace (y.2 + 1 - 1) with y.2 by lia.
  pose proof (climb_lexical w F (numbers w) x.2 y.2 s' (body_of b) nm str (S (S (N.to_nat (scope_len (body_of b))))) Hs Hwf Hn He) as Hc.
  pose proof (env_short w F _ _ _ He). pose proof (sb_len _ _ _ Hs). destruct (lexical_lookup x.2 str) as [site|].
  - destruct Hc as (r & -> & Hr); [lia|]. cbn [obind]. rewrite resolve_preorder by done. apply (numbers_has w Hd Hlen) in Hr. by rewrite Hr.
  - rewrite Hc by lia. done.
Qed.

(** Lookups return for any id, and do not read the strings. *)
Lemma climb_returns F e sc s' nm fuel : shows_body s' (body_of e) F -> forall ev, env_ok w F (numbers w) ev sc -> (length ev < fuel)%nat -> returns (climb_scopes fuel s' (body_of e) nm sc).
Proof.
  intros [_ Hr Hl] ev. revert sc fuel. induction ev as [|fr ev IH]; intros sc [|fuel] He Hf; cbn [length] in Hf; try lia; cbn [env_ok climb_scopes] in *; [rewrite He; by eexists|].
  destruct He as (Hsc & _ & row & Hrow & _ & He). rewrite (proj2 (N.eqb_neq sc _)) by lia. destruct (scan_binds _ _ _ _); [by eexists|].
  destruct (scope_len _ <=? sc); [by eexists|]. rewrite (Hr _ _ Hrow). apply IH; [done|lia].
Qed.

Lemma lookup_returns b s' use nm : build_scopes lam first_builder = Ret b -> db_fits (db b) -> later (db b) s' -> below use w ->
  returns (db_body_scope_lookup s' (Some (body_of b)) (numbers w) (Some w) use nm).
Proof using Hw Hd Hlen Htext Hlam Hpool Hresume.
  intros Eb Hf Hl Hu. destruct (query_means b s' Eb Hf Hl) as (F & dT & Hs & _ & _ & Hmap & Ht). destruct (all_numbered w Hd Hlen use Hu) as (rel & Hrel).
  unfold db_body_scope_lookup. destruct (nm =? 0); [by eexists|]. cbn [fb_scope_map body_of]. rewrite (proj1 Hrel). cbn [mbind option_bind]. rewrite Hmap, put_tags, lookup_empty.
  destruct (List.find _ (reverse dT)) as [y|] eqn:Ey; [|by eexists]. apply find_in in Ey as [Hy _]. apply (proj1 (elem_of_reverse _ _)), list_elem_of_lookup_1 in Hy as (i & Hi).
  destruct (Forall2_lookup_r _ _ _ _ _ Ht Hi) as (x & _ & _ & He).
  assert (Hy2 : y.2 < 2 ^ 32) by (destruct x as [x [|fr e]]; cbn in He; [rewrite He; done|destruct He as [? _]; unfold BODY_SCOPE_NONE in *; lia]).
  rewrite u32_small by lia. replace (y.2 + 1 - 1) with y.2 by lia. pose proof (env_short w F _ _ _ He). pose proof (sb_len _ _ _ Hs).
  destruct (climb_returns F b y.2 s' nm (S (S (N.to_nat (scope_len (body_of b))))) Hs x.2 He) as (o & ->); [lia|]. cbn [obind].
  destruct o; [|by eexists]. rewrite resolve_preorder by done. by eexists.
Qed.

Lemma climb_strings fuel (s1 s2 : Db P) fb nm sc : body_scope_rows s1 = body_scope_rows s2 -> body_scope_binds s1 = body_scope_binds s2 -> climb_scopes fuel s1 fb nm sc = climb_scopes fuel s2 fb nm sc.
Proof.
  intros Hr Hb. revert sc. induction fuel as [|f IH]; intros sc; [done|]. cbn [climb_scopes]. rewrite Hb, Hr. destruct (sc =? _); [done|]. destruct (scan_binds _ _ _ _); [done|].
  destruct (_ <=? _); [done|]. destruct (_ !! _); [|done]. apply IH.
Qed.

Lemma lookup_strings (s1 s2 : Db P) fb m wr use nm : body_scope_rows s1 = body_scope_rows s2 -> body_scope_binds s1 = body_scope_binds s2 ->
  db_body_scope_lookup s1 fb m wr use nm = db_body_scope_lookup s2 fb m wr use nm.
Proof.
  intros Hr Hb. unfold db_body_scope_lookup. destruct (nm =? 0); [done|]. destruct fb as [fb|]; [|done]. destruct (fb_scope_map fb); [|done]. destruct (_ ≫= _); [|done].
  by rewrite (climb_strings _ s1 s2).
Qed.

(** ** References *)

Section References.

Context (body : Node) (resolve : Node -> N -> outcome (option SyntaxNodePtr)) (internal : N) (p0 : P).

(** [resolve] answers as the rules do, in a pool that has grown from [p0]. *)
Context (Hint : internal <> 0) (Htotal : forall m nm, below m w -> returns (resolve m nm)).
Context (Hres : forall p m nm str, pool_wf p -> (forall id t, denotes p0 id t -> denotes p id t) -> below m w -> denotes p nm str -> str <> [] ->
  resolve m nm = Ret (ptr_of <$> binding_of lam m str)).

Definition outer_of (l : list (Node * list byte)) : list (list byte) := map snd (List.filter (is_outer lam) l).

(** From pool [p], a walk over the references [l] asks for the outer names. *)
Definition asks (l : list (Node * list byte)) (p : P) (r : outcome (P * list N)) (log : list N) : Prop :=
  exists p' new, r = Ret (p', log ++ new) /\ pool_grows p p' /\
    (pool_fits p' -> pool_wf p -> (forall id t, denotes p0 id t -> denotes p id t) -> Forall2 (fun id str => denotes p' id str) new (outer_of l)).

Lemma asks_nothing p log : asks [] p (Ret (p, log)) log.
Proof. exists p, []. rewrite app_nil_r. split; [done|]. split; [apply pool_grows_refl|]. by constructor. Qed.

Lemma asks_app l1 l2 p log r k : asks l1 p r log -> (forall p' log', asks l2 p' (k (p', log')) log') -> asks (l1 ++ l2) p (let! st := r in k st) log.
Proof.
  intros (p1 & n1 & -> & G1 & D1) H2. cbn [obind]. destruct (H2 p1 (log ++ n1)) as (p2 & n2 & -> & G2 & D2). exists p2, (n1 ++ n2). rewrite app_assoc. split; [done|].
  split; [by eapply pool_grows_trans|]. intros Hf Hwf H0. destruct G1 as [F1 G1], G2 as [F2 G2]. destruct (G1 (F2 Hf) Hwf) as [W1 M1]. destruct (G2 Hf W1) as [W2 M2].
  unfold outer_of. rewrite List.filter_app, map_app. apply Forall2_app; [|apply D2; auto]. eapply Forall2_impl; [by apply D1; auto|]. cbn. auto.
Qed.

Lemma asks_each (f : Node -> P * list N -> outcome (P * list N)) (g : Node -> list (Node * list byte)) l :
  (forall c p log, c ∈ l -> asks (g c) p (f c (p, log)) log) -> forall p log, asks (concat (map g l)) p (each f l (p, log)) log.
Proof.
  induction l as [|c l IH]; intros Hc p log; [apply asks_nothing|]. cbn [concat map each]. apply asks_app; [apply Hc; set_solver|]. intros. apply IH. intros. apply Hc. set_solver.
Qed.

(** One name. *)
Lemma asks_name n tok p log : below n w -> tok ∈ children n ->
  asks [(n, text_of tok)] p
    (let '(p, nm) := pool_intern p (text_of tok) in
     if nm =? 0 then Ret (p, log)
     else let! bind := resolve n nm in Ret (p, match bind with Some _ => log | None => if internal =? 0 then log else log ++ [nm] end)) log.
Proof using Hint Htotal Hres Htext Hw.
  intros Hn Ht. destruct (pool_intern p (text_of tok)) as [p1 nm] eqn:Ei. pose proof (short_text w Hw Htext tok (ex_intro _ n (conj Hn Ht))) as Hs.
  assert (G : pool_grows p p1).
  { split; [intros Hf; eapply intern_fits; by rewrite Ei|]. intros Hf Hwf. edestruct intern_denotes as (W & _ & D); [exact Hwf|exact Hs|exact Ei|exact Hf|]. by split. }
  assert (Hd1 : pool_fits p1 -> pool_wf p -> pool_wf p1 /\ denotes p1 nm (text_of tok)).
  { intros Hf Hwf. edestruct intern_denotes as (W & D & _); [exact Hwf|exact Hs|exact Ei|exact Hf|]. by split. }
  rewrite (proj2 (N.eqb_neq internal 0) Hint). destruct (N.eqb_spec nm 0) as [->|Hnm].
  - exists p1, []. rewrite app_nil_r. split; [done|]. split; [done|]. intros Hf Hwf _. destruct (Hd1 Hf Hwf) as [W D]. unfold outer_of, is_outer. cbn.
    by rewrite (proj1 (denotes_empty _ _ _ W D) eq_refl).
  - destruct (Htotal n nm Hn) as (bnd & Eb). rewrite Eb. cbn [obind]. exists p1, (match bnd with Some _ => [] | None => [nm] end).
    split; [by destruct bnd; rewrite ?app_nil_r|]. split; [done|]. intros Hf Hwf H0. destruct (Hd1 Hf Hwf) as [W D]. destruct G as [_ G]. destruct (G Hf Hwf) as [_ M1].
    assert (Hne : text_of tok <> []) by (intros E; apply Hnm; by apply (denotes_empty _ _ _ W D)).
    rewrite (Hres p1 n nm (text_of tok) W) in Eb; [|by auto|done..]. injection Eb as <-. unfold outer_of, is_outer. cbn [List.filter map fst snd]. destruct (text_of tok) eqn:Et; [done|].
    destruct (binding_of lam n _); cbn [map fmap option_fmap option_map]; by repeat constructor.
Qed.

Lemma record_asks fuel n p log : below n w -> (height n <= fuel)%nat -> asks (references_at fuel n) p (record_body_references fuel resolve internal n (p, log)) log.
Proof.
  revert n p log. induction fuel as [|f IH]; intros n p log Hb Hf; pose proof (below_is_node _ _ Hw Hb) as Hn; pose proof (node_height n Hn); [lia|]. cbn [references_at record_body_references fst snd].
  assert (Hc : forall c p log, c ∈ node_children n -> asks (references_at f c) p (record_body_references f resolve internal c (p, log)) log).
  { intros c p1 log1 Hc. pose proof (node_child_height _ _ Hc). apply IH; [|lia]. eapply below_trans; [done| |done]. by apply child_below. }
  destruct (_ || _).
  - destruct (ast_first_token n SK_IDENT) as [tok|] eqn:E; [|apply asks_nothing]. apply asks_name; [done|]. by eapply first_token_in.
  - destruct (of_kind SK_FIELD_EXPR n); [|by apply asks_each]. unfold first_node. destruct (List.find is_node (children n)) as [base|] eqn:E; [|apply asks_nothing].
    apply find_in in E as [? ?]. apply Hc. by apply node_child_in.
Qed.

End References.

End Lookup.

(** ** Properties *)

(** A declaration of a function: shorter than 4 GiB, with fewer than 2^32 nodes, of which no
    two have pointers of the same hash. *)
Record function_decl (w lam : Node) : Prop := {
  fd_node : is_node w = true;
  fd_hashes : NoDup (map node_hash (preorder w));
  fd_count : N.of_nat (length (preorder w)) < 2 ^ 32;
  fd_text : N.of_nat (length (green_text (tree w))) + 5 < 2 ^ 32;
  fd_lambda : lambda_of w = Some lam
}.

(** C8: the ids of the nodes of a declaration resolve back, also after an edit elsewhere in
    the file has moved it: when the pointers of its nodes hash apart (those of two empty nodes
    of one kind at one offset do not), every node has an id, which resolves to that node and
    is its index in the collected preorder; in a wrapper with the same green tree at another
    offset the id resolves to the node with the same green tree at the same place in it; an id
    past the last resolves to nothing. *)
Theorem ast_ids_resolve (w w' : Node) :
  is_node w = true -> NoDup (map node_hash (preorder w)) -> N.of_nat (length (preorder w)) < 2 ^ 32 -> tree w' = tree w ->
  exists map nodes, decl_ast_id_map_refresh w = Ret map /\ decl_ast_id_preorder_collect (Some w) = Ret nodes /\
    (forall m, below m w -> exists rel m', decl_ast_id_lookup map m = Some rel /\ nodes !! N.to_nat rel = Some m /\
       decl_ast_id_resolve (Some w) rel = Ret (Some m) /\ decl_ast_id_resolve (Some w') rel = Ret (Some m') /\
       tree m' = tree m /\ u32 (start m' + start w) = u32 (start m + start w')) /\
    (forall rel, N.of_nat (length nodes) <= rel -> decl_ast_id_resolve (Some w') rel = Ret None).
Proof.
  intros Hw Hd Hl Ht. assert (Hw' : is_node w' = true) by (unfold is_node in *; by rewrite Ht).
  assert (Hm : Forall2 (moved (start w) (start w')) (preorder w) (preorder w')) by (apply preorder_moved; [done|]; split; [done|]; by rewrite N.add_comm).
  exists (numbers w), (preorder w). split; [by apply refresh_numbers|]. split; [by rewrite <- (app_nil_l (preorder w)); apply collect_preorder|]. split.
  - intros m (i & Hi)%list_elem_of_lookup_1. destruct (Forall2_lookup_l _ _ _ _ _ Hm Hi) as (m' & Hi' & Ht' & Hs'). exists (N.of_nat i), m'.
    rewrite !resolve_preorder, Nat2N.id, Hi, Hi' by done. split; [by apply numbers_lookup|]. done.
  - intros rel Hrel. rewrite resolve_preorder by done. rewrite lookup_ge_None_2; [done|]. rewrite <- (Forall2_length _ _ _ Hm). lia.
Qed.

(** What the lookup of a name gives, as a pointer. *)
Definition lexical_answer (lam use : Node) (str : list byte) : option SyntaxNodePtr := ptr_of <$> binding_of lam use str.

(** C6: the scope tables of a function answer as lexical scoping says: for a function whose
    node pointers hash apart, the query returns and keeps what the tables and the string
    pool held, and from then on, whatever other functions
    have added to the shared tables and to the string pool, the lookup of a name at any node
    of the declaration returns the site of the binding that the rules of the language give:
    the last binding of that name in the innermost scope around the node that has one, and
    nothing when there is none. *)
Theorem body_scope_lookup_lexical {P} `{InternerLaws P} (s : Db P) (row : DeclAstIdMap) (w lam : Node) :
  function_decl w lam -> pool_wf (strings s) -> denotes (strings s) (RESUME s) (bs "resume") ->
  exists map fb fp s', decl_ast_id_map_refresh w = Ret map /\ db_query_body_scopes s row (Some w) = Ret (fb, fp, s', row) /\
    (db_fits s' -> later s s' /\ forall s'' use nm str, later s' s'' -> below use w -> denotes (strings s'') nm str -> str <> [] ->
      db_body_scope_lookup s'' (Some fb) map (Some w) use nm = Ret (lexical_answer lam use str)).
Proof.
  intros [Hw Hd Hl Ht Hlam] Hp Hr. destruct (query_returns s w lam Hw Hlam row) as (b & Eb & Eq). exists (numbers w), (body_of s b), (fp b), (db b).
  split; [by apply refresh_numbers|]. split; [done|]. intros Hf. split; [by apply (query_later s w lam)|].
  intros s'' use nm str Hlater Hu Hn Hne. by apply (lookup_lexical s w lam).
Qed.

(** C7: the reference walk asks for exactly the names that lexical scoping leaves free: for a
    function whose node pointers hash apart, and a module with a namespace to resolve in,
    while the tables and the string pool fit their words, the walk over the body returns, and
    the names it hands to the resolver of the namespace are those of the references of the
    body, in order, that no scope of the function binds; the name after a dot is not asked
    for. *)
Theorem body_references_outer {P} `{InternerLaws P} (s : Db P) (row : DeclAstIdMap) (w lam body : Node) (internal : N) :
  function_decl w lam -> pool_wf (strings s) -> denotes (strings s) (RESUME s) (bs "resume") -> LambdaExpr_body lam = Some body -> internal <> 0 ->
  exists map fb fp s', decl_ast_id_map_refresh w = Ret map /\ db_query_body_scopes s row (Some w) = Ret (fb, fp, s', row) /\
    (db_fits s' -> later s s' /\ forall s'', later s' s'' ->
      exists s3 log, db_query_body_references s'' (Some fb) map (Some w) internal = Ret (s3, log) /\
        body_scope_rows s3 = body_scope_rows s'' /\ body_scope_binds s3 = body_scope_binds s'' /\
        (pool_fits (strings s3) -> Forall2 (fun id str => denotes (strings s3) id str) log (outer_names lam body))).
Proof.
  intros [Hw Hd Hl Ht Hlam] Hp Hr Hbody Hi. destruct (query_returns s w lam Hw Hlam row) as (b & Eb & Eq). exists (numbers w), (body_of s b), (fp b), (db b).
  split; [by apply refresh_numbers|]. split; [done|]. intros Hf. split; [by apply (query_later s w lam)|]. intros s'' Hlater.
  set (resolve := db_body_scope_lookup s'' (Some (body_of s b)) (numbers w) (Some w)).
  assert (Hb : below body w).
  { eapply below_trans; [done| |by apply lambda_below]. apply child_below; [|by apply lambda_body_in]. by eapply below_is_node, lambda_below. }
  destruct (record_asks s w lam Hw Hd Hl Ht Hlam Hp Hr resolve internal (strings s'') Hi) with (fuel := height body) (n := body) (p := strings s'') (log := @nil N)
    as (p' & new & E & G & D); try done.
  - intros m nm Hm. by apply (lookup_returns s w lam).
  - intros p m nm str Hwf Hg Hm Hn Hne. unfold resolve.
    rewrite (lookup_strings s'' (mkDb p (RESUME s'') (body_scope_rows s'') (body_scope_binds s''))) by done.
    apply (lookup_lexical s w lam); try done. destruct Hlater. split; cbn; auto.
  - cbn in E. exists (mkDb p' (RESUME s'') (body_scope_rows s'') (body_scope_binds s'')), new. split; [|split; [done|split; [done|]]].
    + unfold db_query_body_references. cbn [mbind option_bind]. rewrite Hlam. cbn [mbind option_bind]. rewrite Hbody. fold resolve. by rewrite E.
    + intros Hf'. apply D; [done|apply Hlater|auto].
Qed.

(** ** Sources through the front end *)

#[local] Existing Instance StringPool.StringPool.pool_interner.
#[local] Existing Instance StringPoolTheorems.StringPoolTheorems.pool_interner_laws.

(** The first declaration of a source. *)
Definition declaration_of (src : list byte) : outcome (option Node * StringPool.StringPool.StringPool) :=
  let! (ts, l) := Layout.Layout.layout_stream (Lexer.Lexer.lex_begin src StringPool.StringPool.fresh_pool) in
  let! (g, _, p) := ParseExpr.ParseExpr.parse_file_green ts src (Lexer.Lexer.pool l) in
  Ret (first_node (tree_root g), p).

(** The kind of the [i]th node of the declaration, and the range of what a name is bound to
    there. *)
Definition ask (src : string) (i : nat) (nm : string) : outcome (OreSyntaxKind * option SyntaxNodePtr) :=
  let! (wrapper, p) := declaration_of (bs src) in
  match wrapper with
  | None => AssertFailed "no declaration"
  | Some w =>
      let '(p, resume) := Interner.pool_intern p (bs "resume") in
      let! map := decl_ast_id_map_refresh w in
      let! (fb, _, s, _) := db_query_body_scopes (mkDb p resume [] []) map wrapper in
      match preorder w !! i with
      | None => AssertFailed "no such node"
      | Some use =>
          let! answer := db_body_scope_lookup s (Some fb) map wrapper use (Interner.pool_intern (strings s) (bs nm)).2 in
          Ret (node_kind use, answer)
      end
  end.

Definition own_initializer : string := "f :: fn(y: i32) -> i32
  y
  y := y
  y + z
"%string.

Definition nested_annotation : string := "f :: fn(t: type) -> void
  g := fn(x: t) -> t
    x
  g
"%string.

Definition expression_body : string := "f :: fn(x) x + 1
"%string.

(** The return type and the body that the accessors find in the first function. *)
Definition function_parts (src : string) : outcome (option (SyntaxNodePtr * SyntaxNodePtr)) :=
  let! (wrapper, _) := declaration_of (bs src) in
  Ret (w ← wrapper; lam ← lambda_of w; ret ← LambdaExpr_return_type lam; body ← LambdaExpr_body lam; Some (ptr_of ret, ptr_of body)).

(** C38: where the scopes do not do what the comments say: a name in the initializer of its
    own declaration, and a use before the declaration, find that declaration and not the
    parameter of the same name outside, though the comment says that the initializer cannot
    see the new binding; the annotations of a nested lambda are in no scope, so a type
    parameter of the function is not found there, though the body of the lambda sees it;
    and the body of a lambda that is an expression, without a declared return type, is taken
    for its return type too. *)
Theorem body_scope_surprises :
  ask own_initializer 8 "y" = Ret (SK_REF_EXPR, Some (mkNodePtr SK_BIND_DECL (mkRange 29 6))) /\
  ask own_initializer 10 "y" = Ret (SK_REF_EXPR, Some (mkNodePtr SK_BIND_DECL (mkRange 29 6))) /\
  ask nested_annotation 12 "t" = Ret (SK_REF_TYPE, None) /\
  ask nested_annotation 13 "t" = Ret (SK_REF_TYPE, None) /\
  ask nested_annotation 17 "t" = Ret (SK_REF_EXPR, Some (mkNodePtr SK_PARAM (mkRange 8 7))) /\
  function_parts expression_body = Ret (Some (mkNodePtr SK_BIN_EXPR (mkRange 11 5), mkNodePtr SK_BIN_EXPR (mkRange 11 5))).
Proof. vm_compute. repeat split; reflexivity. Qed.

(** ** Witnesses *)

Definition no_node : Node := mkNode (GreenToken SK_NONE []) 0 None.

Definition sample_decl : Node := match declaration_of (bs own_initializer) with Ret (Some w, _) => w | _ => no_node end.
Definition sample_lambda : Node := match lambda_of sample_decl with Some l => l | None => no_node end.
Definition sample_body : Node := match LambdaExpr_body sample_lambda with Some b => b | None => no_node end.
Definition sample_use : Node := nth 10 (preorder sample_decl) no_node.

Definition resume_pool : StringPool.StringPool.StringPool * N := Interner.pool_intern StringPool.StringPool.fresh_pool (bs "resume").
Definition sample_db : Db StringPool.StringPool.StringPool := mkDb resume_pool.1 resume_pool.2 [] [].

Lemma sample_function : function_decl sample_decl sample_lambda.
Proof.
  split; [by vm_compute| |by vm_compute..]. apply (bool_decide_unpack _). vm_compute. exact I.
Defined.

Lemma sample_strings : pool_wf (strings sample_db) /\ denotes (strings sample_db) (RESUME sample_db) (bs "resume").
Proof.
  destruct (intern_denotes StringPool.StringPool.fresh_pool (bs "resume") resume_pool.1 resume_pool.2) as (W & D & _);
    [apply StringPoolTheorems.StringPoolTheorems.fresh_pool_wf|reflexivity|reflexivity|reflexivity|by split].
Defined.

(** A database in which one more string is interned. *)
Lemma intern_later (s : Db StringPool.StringPool.StringPool) str : pool_wf (strings s) -> short str ->
  pool_fits (Interner.pool_intern (strings s) str).1 ->
  later s (mkDb (Interner.pool_intern (strings s) str).1 (RESUME s) (body_scope_rows s) (body_scope_binds s)) /\
  denotes (Interner.pool_intern (strings s) str).1 (Interner.pool_intern (strings s) str).2 str.
Proof.
  intros Hw Hs Hf. destruct (intern_denotes (strings s) str _ _ Hw Hs (surjective_pairing _) Hf) as (W & D & G). split; [|done]. by split.
Qed.

Definition sample_result : FnBody * Fingerprint * Db StringPool.StringPool.StringPool :=
  match db_query_body_scopes sample_db decl_ast_id_map_init (Some sample_decl) with Ret r => r.1 | _ => (empty_body, 0, sample_db) end.

Lemma sample_fits : db_fits sample_result.2 /\ pool_fits (Interner.pool_intern (strings sample_result.2) (bs "y")).1.
Proof. split; [split; [|split]|]; vm_compute; reflexivity. Defined.

Lemma body_scope_lookup_lexical_witness : exists (s : Db StringPool.StringPool.StringPool) fb map nm,
  db_body_scope_lookup s (Some fb) map (Some sample_decl) sample_use nm = Ret (lexical_answer sample_lambda sample_use (bs "y")) /\
  lexical_answer sample_lambda sample_use (bs "y") = Some (mkNodePtr SK_BIND_DECL (mkRange 29 6)).
Proof.
  destruct (body_scope_lookup_lexical sample_db decl_ast_id_map_init sample_decl sample_lambda sample_function (proj1 sample_strings) (proj2 sample_strings)) as (map & fb & fp & s' & _ & Eq & Hl).
  assert (Es : s' = sample_result.2) by (unfold sample_result; by rewrite Eq). subst s'. destruct sample_fits as [Hf Hp]. destruct (Hl Hf) as [Hs Hlook].
  destruct (intern_later sample_result.2 (bs "y") (l_wf _ _ Hs)) as [Hlater Hd]; [reflexivity|exact Hp|].
  eexists _, fb, map, _. split; [apply Hlook; [exact Hlater| |exact Hd|done]|vm_compute; reflexivity].
  apply (list_elem_of_lookup_2 _ 10). by vm_compute.
Defined.

Definition sample_map : DeclAstIdMap := match decl_ast_id_map_refresh sample_decl with Ret m => m | _ => decl_ast_id_map_init end.
Definition sample_references : Db StringPool.StringPool.StringPool * list N :=
  match db_query_body_references sample_result.2 (Some sample_result.1.1) sample_map (Some sample_decl) 1 with Ret r => r | _ => (sample_db, []) end.

Lemma body_references_outer_witness : exists (s : Db StringPool.StringPool.StringPool) fb map s3 log,
  db_query_body_references s (Some fb) map (Some sample_decl) 1 = Ret (s3, log) /\
  Forall2 (fun id str => denotes (strings s3) id str) log (outer_names sample_lambda sample_body) /\
  outer_names sample_lambda sample_body = [bs "z"].
Proof.
  destruct (body_references_outer sample_db decl_ast_id_map_init sample_decl sample_lambda sample_body 1 sample_function (proj1 sample_strings) (proj2 sample_strings)) as (map & fb & fp & s' & Em & Eq & Hl);
    [by vm_compute|discriminate|].
  assert (Er : (fb, fp, s') = sample_result) by (unfold sample_result; by rewrite Eq). assert (Es : s' = sample_result.2) by (by rewrite <- Er).
  assert (Ef : fb = sample_result.1.1) by (by rewrite <- Er). assert (Hm : map = sample_map) by (unfold sample_map; by rewrite Em). subst s' fb map. clear Er Eq Em.
  destruct sample_fits as [Hf _]. destruct (Hl Hf) as [Hs Href]. destruct (Href sample_result.2) as (s3 & log & E & _ & _ & Hlog); [destruct Hs; by split|].
  exists sample_result.2, sample_result.1.1, sample_map, s3, log. split; [done|]. split; [|by vm_compute]. apply Hlog.
  assert (E3 : s3 = sample_references.1) by (unfold sample_references; by rewrite E). rewrite E3. by vm_compute.
Defined.

Lemma ast_ids_resolve_witness : exists map nodes, decl_ast_id_map_refresh sample_decl = Ret map /\ decl_ast_id_preorder_collect (Some sample_decl) = Ret nodes /\
  exists rel m', decl_ast_id_lookup map sample_use = Some rel /\ decl_ast_id_resolve (Some (mkNode (tree sample_decl) 100 None)) rel = Ret (Some m') /\
    u32 (start m' + start sample_decl) = u32 (start sample_use + 100).
Proof.
  destruct (ast_ids_resolve sample_decl (mkNode (tree sample_decl) 100 None)) as (map & nodes & E1 & E2 & H & _); [by vm_compute|apply sample_function|by vm_compute|reflexivity|].
  destruct (H sample_use) as (rel & m' & H1 & _ & _ & H2 & _ & H3); [apply (list_elem_of_lookup_2 _ 10); by vm_compute|].
  exists map, nodes. split; [exact E1|]. split; [exact E2|]. exists rel, m'. split; [exact H1|]. split; [exact H2|exact H3].
Defined.

End BodyScopesTheorems.
